(* ===== verification/_CoqProject ===== *)
-Q . S2P
Prelude.v
Bytes.v
BootMemory.v
BootMemoryTheory.v
Heap.v
Vma.v
VmaLists.v
VmaTheory.v
VmaPrepare.v
VmaOps.v
VmaClaims.v
VmaSession.v
Time.v
TimeTheory.v
SchedPolicy.v
SchedPolicyTheory.v
Runqueue.v
RunqueueTheory.v
HeapOrder.v
Credentials.v
GroupsTheory.v
ExecCredentials.v
ExecCredentialsTheory.v
AccountsTheory.v
CredentialsTheory.v
Rlimit.v
RlimitTheory.v
Elf64.v
Elf64Theory.v
SplitQueue.v
SplitQueueTheory.v
StringOps.v
StringCopyTheory.v
StringTextTheory.v
Qsort.v
QsortTheory.v
Pid.v
PidRegistryTheory.v
PidOpsTheory.v
PidHistoryTheory.v
RecordLock.v
LockTreeTheory.v
LockOpsTheory.v
LockRequestTheory.v
LockClaims.v
PhysicalPage.v
PageBoot.v
PageFinal.v
PageSpec.v
PageStateTheory.v
PageFreeTheory.v
PageAllocTheory.v
PageReleaseTheory.v
PageRefine.v
PageBuildTheory.v
PageLayTheory.v
PageBootTheory.v
PageAuditTheory.v
PageFinalTheory.v
PageClaims.v
PageReclaim.v
PageReclaimTheory.v
DirectMap.v
SlabHeap.v
SlabBitsTheory.v
SlabListTheory.v
SlabSlotTheory.v
SlabWorldTheory.v
SlabHeapTheory.v
SlabReleaseTheory.v
SlabClaims.v
