(* ===== verification/Prelude.v ===== *)
(** * Verification library for the BoarOS kernel

    BoarOS is a small Unix-like kernel in C for RISC-V and LoongArch.  This
    library translates its self-contained components into executable Rocq
    functions and proves what their callers rely on.  Each component has a
    definition file, [X.v] with [Module X], that follows the C text function by
    function with the C names, and theory files that prove properties of it.

    ** How the code is translated

    - C integers are [Z]; wherever the source can wrap, [u64], [u32] (below) or
      the component's own [u16]/[s8] is written out.  Enums are inductive types,
      structs are records, a null pointer is 0 (or an empty list or [None] where
      the code only tests it).
    - An operation that can trap, index an array or follow a pointer returns an
      [outcome] (below): [Done], or [Fault] with the reason
      ([Builtin_trap], [Out_of_bounds], [Misaligned], [Out_of_fuel]).  So every
      theorem that concludes [Done] also says: no [__builtin_trap], no access
      outside the storage, no endless loop.
    - State is passed explicitly: a record for an array-backed object, finite
      maps from addresses to objects where the code links objects by pointers.
      [ST] (below) is the state-and-fault monad the heap clients use.
    - Loops are structural where the source counts, otherwise they have fuel; the
      fuel is computed inside the definition from the data (array length, number
      of objects on a chain, byte count) or, for the loop around the reclaimer,
      from how often that can still make progress; every theorem proves the run
      ends in [Done], never in [Out_of_fuel].
    - Code outside these components is an interface: the classes [KernelHeap] and
      [ObjectHeap] of [Heap.v] for the allocator as its clients see it (any call
      may fail; [SlabClaims] discharges [ObjectHeap] for the heap of
      [mm/heap.c]), [DirectMap] for the mapping of physical memory, [WaitQueue]
      of [RecordLock.v] for the queue a released lock wakes, the comparison
      callback of [qsort], the counter sample of the clock, the page access and
      reclaim callbacks of the page allocator, and an arbitrary device behind the
      virtio rings.  Concrete instances inhabit each of them.

    ** Components

    - [BootMemory] ([kernel/boot_memory.c]): from device-tree ranges to the sorted
      reserved and usable tables.  [BootMemoryTheory]: on accepted input the
      tables are exact byte by byte; everything else is refused.
    - [Heap] ([include/kernel/heap.h]): the allocator as its clients see it.
    - [Vma] ([mm/vma.c]): the sorted array of memory areas of a process, with
      two-phase edits.  [VmaLists] is the abstract map from addresses to
      attributes; [VmaTheory], [VmaPrepare], [VmaOps] relate each loop and
      operation to it; [VmaClaims] collects what callers rely on (a prepared edit commits without fault or allocation and does
      exactly what it says); [VmaSession] proves the invariant over all
      histories of processes that fork, edit and exit.
    - [Time] ([kernel/time.c]), [TimeTheory]: clock readings are monotone and
      accurate, deadlines never early and always usable.
    - [SchedPolicy] ([kernel/sched/policy.c]), [SchedPolicyTheory]: scheduling
      parameters stay valid, real-time throttling starts and ends exactly when
      the reported delay says.
    - [Runqueue] ([kernel/sched/runqueue.c]), [RunqueueTheory]: the linked lists
      refine a priority-ordered FIFO queue.
    - [Credentials] ([kernel/credentials.c]): per-user accounts, groups and
      credentials, by reference count.  [GroupsTheory] (sort and search, with
      [HeapOrder]), [AccountsTheory] (counters equal what holders took, under any
      interleaving of the locked sections), [CredentialsTheory] (clone and drop).
    - [ExecCredentials] ([kernel/exec_credentials.c]), [ExecCredentialsTheory]:
      what an exec may do to identities and capabilities.
    - [Rlimit] ([kernel/rlimit.c], and the publication of new credentials, from
      [kernel/credentials.c] and [kernel/sched/process.c], which moves the count),
      [RlimitTheory]: the process count is the number of charged tasks; it shares
      the accounts with [Credentials].
    - [Elf64] ([kernel/read_source.c], [kernel/elf64.c]), [Elf64Theory]: the reader
      accepts exactly the well-formed images.
    - [SplitQueue] ([drivers/virtio/split_queue.c]), [SplitQueueTheory]: the queue
      is safe against any device and conserves what the driver queued.
    - [StringOps] ([lib/string.c]): memory and string routines with their word
      loops on a byte-addressed memory, little endian as both targets are.
      [StringCopyTheory], [StringTextTheory]: they compute what
      byte loops would.  [Bytes] holds the little-endian lemmas.
    - [Qsort] ([lib/qsort.c]), [QsortTheory]: the in-place heap sort, over
      [HeapOrder] like the group sort.
    - [Pid] ([kernel/pid.c]): number bitmap, hash chains, member lists and
      retirement.  [PidRegistryTheory], [PidOpsTheory], [PidHistoryTheory]: numbers are unique and never leak, counts are exact,
      lookups are exact, in every history.
    - [RecordLock] ([fs/record_lock.c] and the range and deadlock computations of
      [fs/files/locks.c]): AVL interval trees and owner lists.  [LockTreeTheory],
      [LockOpsTheory], [LockRequestTheory], [LockClaims]: a request changes exactly the requested bytes, exclusive
      locks exclude, trees stay balanced.
    - The physical page allocator ([kernel/physical_page.c]): [PhysicalPage] is the
      buddy system with its packed trees, metadata and free lists, [PageBoot] the
      start (init and the page-by-page bootstrap allocator with its chain through
      the free pages), [PageFinal] the switch between the two and the audit,
      [PageReclaim] the allocation that lets the page cache give pages back.
      [PageSpec] is the abstract allocator: a set of free pages and a map of held
      blocks.  [PageStateTheory] (packed trees, geometry, the invariant),
      [PageFreeTheory], [PageAllocTheory], [PageReleaseTheory] and [PageRefine]
      show that each run-time call refines it; [PageBuildTheory],
      [PageLayTheory], [PageBootTheory], [PageFinalTheory] that start and
      [finalize] establish the invariant; [PageAuditTheory] that the audit passes
      on it; [PageClaims] puts histories together, from the memory layout of
      [BootMemory] on.  [PageReclaimTheory] restates the calls for clients and
      proves that an allocation with reclaim returns, for every reclaimer that
      keeps the promise [hooks_ok].
    - [DirectMap] ([arch/riscv/direct_map.c], [platform/loongarch_virt.c]): where
      physical memory is mapped; both platforms satisfy the class [DirectMap].
    - [SlabHeap] ([mm/heap.c]): the kernel heap on the bytes of its pages, slabs
      with bitmaps and free lists threaded through the slots, large blocks
      directly from the page allocator.  [SlabBitsTheory] (the bitmaps and the
      parallel bit count), [SlabListTheory] (headers, slots and lists of slabs in
      memory), [SlabSlotTheory] (one slab created, used and retired),
      [SlabWorldTheory] (the invariant that ties slabs and blocks to the pages
      held, and what a reclaimer may do meanwhile), [SlabHeapTheory],
      [SlabReleaseTheory] (each operation), [SlabClaims] (the heap refines a map
      from pointers to byte strings, in every history; it is an [ObjectHeap]; a
      machine on which all of it runs).

    ** Bounds

    The page mask is the one of 4 KiB pages.  Tree heights of record locks are
    8-bit as in the source; the theorems ask for fewer than 2^58 locks before a
    request, far beyond any memory, which keeps the AVL height below 120.
    Theorems about times ask that nanoseconds fit 64 bits (584 years).  Locked
    sections are atomic steps; where the code drops the lock in the middle of an
    operation (the allocation of an account), the two halves are separate steps
    of the history.

    ** Not modelled

    The scheduler core, page tables and faults, the page cache, the virtual file
    system and the file systems, the network stack, the drivers' register
    protocols, IPC, signals delivery, futexes, system-call marshalling and the
    architecture code: they interleave with interrupts, other CPUs, devices and
    user memory, and their correctness is mostly about those, or they are glue
    to third-party libraries.  The device-tree parser is not modelled either; the
    boot memory layout takes its result as input.  Of [kernel/credentials.c] the
    functions that read the running task are left out, of [fs/files/locks.c] the blocking loop
    and the user-memory copies, of [kernel/physical_page.c] the texts of the fatal
    diagnostics (the trap is kept), the statistics snapshot and the counters. *)
From stdpp Require Export base list numbers gmap sorting.

#[local] Open Scope Z_scope.

(** ** Machine integers

    Unsigned C integers are [Z] values; every place where the source can wrap
    is written with [u64]/[u32] and every comparison against a limit uses the
    limit constants below.  The constants are literals so that [lia] sees them
    after unfolding. *)
Definition UINT8_MAX : Z := 255.
Definition UINT32_MAX : Z := 4294967295.
Definition UINT64_MAX : Z := 18446744073709551615.
Definition INT32_MAX : Z := 2147483647.
Definition INT64_MAX : Z := 9223372036854775807.
Definition INT64_MIN : Z := -9223372036854775808.

Definition u32 (x : Z) : Z := x mod 4294967296.
Definition u64 (x : Z) : Z := x mod 18446744073709551616.

Definition is_u64 (x : Z) : Prop := 0 ≤ x ≤ UINT64_MAX.
Definition is_u32 (x : Z) : Prop := 0 ≤ x ≤ UINT32_MAX.
Definition is_i64 (x : Z) : Prop := INT64_MIN ≤ x ≤ INT64_MAX.

Create HintDb boaros.
#[export] Hint Unfold UINT8_MAX UINT32_MAX UINT64_MAX INT32_MAX INT64_MAX INT64_MIN
  is_u64 is_u32 is_i64 : boaros.

(** [mlia]: linear arithmetic after unfolding the machine limits. *)
Ltac mlia :=
  unfold is_u64, is_u32, is_i64 in *;
  unfold UINT8_MAX, UINT32_MAX, UINT64_MAX, INT32_MAX, INT64_MAX, INT64_MIN in *; lia.

Lemma u64_small x : is_u64 x → u64 x = x.
Proof. intros H. unfold u64. apply Z.mod_small. mlia. Qed.
Lemma u64_bounds x : is_u64 (u64 x).
Proof. unfold u64. pose proof (Z.mod_pos_bound x 18446744073709551616 ltac:(done)). mlia. Qed.
Lemma u32_small x : is_u32 x → u32 x = x.
Proof. intros H. unfold u32. apply Z.mod_small. mlia. Qed.
Lemma u32_bounds x : is_u32 (u32 x).
Proof. unfold u32. pose proof (Z.mod_pos_bound x 4294967296 ltac:(done)). mlia. Qed.
#[export] Hint Resolve u64_bounds u32_bounds : boaros.

(** ** Outcomes

    A C function either returns, or stops the machine: it executes
    [__builtin_trap()], it touches memory outside an array or a
    word that is not aligned (undefined behaviour in C), or, in a model whose
    loop carries fuel, the fuel ran out.  Proving that an operation is [Done]
    therefore proves all of these away. *)
Inductive fault :=
  | Builtin_trap
  | Out_of_bounds
  | Misaligned
  | Out_of_fuel.

Inductive outcome (A : Type) :=
  | Done (a : A)
  | Fault (f : fault).
Arguments Done {A} a.
Arguments Fault {A} f.

#[export] Instance fault_eq_dec : EqDecision fault.
Proof. solve_decision. Defined.

#[export] Instance outcome_ret : MRet outcome := λ _, Done.
#[export] Instance outcome_bind : MBind outcome := λ _ _ f m,
  match m with Done a => f a | Fault e => Fault e end.

Lemma bind_Done {A B} (m : outcome A) (f : A → outcome B) b :
  m ≫= f = Done b ↔ ∃ a, m = Done a ∧ f a = Done b.
Proof.
  destruct m as [a|e]; simpl; split.
  - eauto.
  - by intros (? & [= <-] & ?).
  - done.
  - by intros (? & [=] & ?).
Qed.

Definition trap {A} : outcome A := Fault Builtin_trap.

(** [trap_if P]: continue unless [P] holds, as [if (P) __builtin_trap();]. *)
Definition trap_if (P : Prop) `{Decision P} : outcome unit :=
  if decide P then Fault Builtin_trap else Done tt.

Lemma trap_if_ok (P : Prop) `{Decision P} : ¬ P → trap_if P = Done tt.
Proof. intros. unfold trap_if. by rewrite decide_False. Qed.
Lemma trap_if_fault (P : Prop) `{Decision P} : P → trap_if P = trap.
Proof. intros. unfold trap_if. by rewrite decide_True. Qed.
Lemma trap_if_done (P : Prop) `{Decision P} x : trap_if P = Done x ↔ ¬ P.
Proof. unfold trap_if. destruct x. by case_decide; split. Qed.

(** ** Arrays

    A C array of live storage is a list; an index outside it is a fault. *)
Definition aread {A} (l : list A) (i : nat) : outcome A :=
  match l !! i with Some x => Done x | None => Fault Out_of_bounds end.
Definition awrite {A} (l : list A) (i : nat) (x : A) : outcome (list A) :=
  if decide (i < length l)%nat then Done (<[i:=x]> l) else Fault Out_of_bounds.

Lemma aread_Done {A} (l : list A) i x : aread l i = Done x ↔ l !! i = Some x.
Proof. unfold aread. destruct (l !! i); split; congruence. Qed.
Lemma aread_ok {A} (l : list A) i x : l !! i = Some x → aread l i = Done x.
Proof. apply aread_Done. Qed.
Lemma awrite_ok {A} (l : list A) i x :
  (i < length l)%nat → awrite l i x = Done (<[i:=x]> l).
Proof. intros. unfold awrite. by rewrite decide_True. Qed.
#[export] Hint Resolve aread_ok awrite_ok : boaros.
Lemma aread_app {A} (l1 l2 : list A) x n : n = length l1 → aread (l1 ++ x :: l2) n = Done x.
Proof. intros ->. apply aread_ok. by rewrite list_lookup_middle. Qed.
Lemma awrite_app {A} (l1 l2 : list A) x y n :
  n = length l1 → awrite (l1 ++ x :: l2) n y = Done (l1 ++ y :: l2).
Proof.
  intros ->. rewrite awrite_ok by (rewrite length_app; simpl; lia).
  by rewrite insert_app_r_alt, Nat.sub_diag.
Qed.

(** [do_done H]: peel one monadic bind of a hypothesis [_ ≫= _ = Done _]. *)
Ltac destruct_bind H :=
  let a := fresh "a" in let Ha := fresh "Hrun" in
  apply bind_Done in H as (a & Ha & H).

(** Prefixes of arrays: the live part of an array with [n] used slots is
    [take n l]. *)
Lemma take_insert_last {A} (l : list A) n x :
  (n < length l)%nat → take (S n) (<[n:=x]> l) = take n l ++ [x].
Proof.
  intros Hn. rewrite (take_S_r _ _ x).
  - by rewrite take_insert_ge by lia.
  - by apply list_lookup_insert_eq.
Qed.
Lemma take_snoc_inv {A} (l : list A) n l1 x :
  take (S n) l = l1 ++ [x] → (n < length l)%nat → take n l = l1 ∧ l !! n = Some x.
Proof.
  intros H Hn. destruct (lookup_lt_is_Some_2 l n Hn) as [y Hy].
  rewrite (take_S_r _ _ _ Hy) in H. apply app_inj_tail in H as [-> ->]. done.
Qed.
Lemma lookup_take_Some_le {A} (l : list A) n i x :
  take n l !! i = Some x → l !! i = Some x.
Proof. intros H. by apply lookup_take_Some in H as [? ?]. Qed.

(** [run]: step through the binds of a computation without unfolding data. *)
Ltac run := cbn [mbind mret outcome_bind outcome_ret].

(** ** State passing

    Code that also changes state outside the object it works on (the heap, the
    reference counts of another component) runs in [ST W]. *)
Definition ST (W A : Type) : Type := W → outcome (A * W).

#[export] Instance ST_ret {W} : MRet (ST W) := λ _ a w, Done (a, w).
#[export] Instance ST_bind {W} : MBind (ST W) := λ _ _ f m w,
  match m w with Done (a, w') => f a w' | Fault e => Fault e end.

Definition lift {W A} (o : outcome A) : ST W A := λ w,
  match o with Done a => Done (a, w) | Fault e => Fault e end.

Lemma ST_bind_eq {W A B} (m : ST W A) (f : A → ST W B) w a w' :
  m w = Done (a, w') → (m ≫= f) w = f a w'.
Proof. intros H. unfold mbind, ST_bind. by rewrite H. Qed.
Lemma ST_seq_eq {W A B C} (m : ST W A) (k : A → ST W B) (f : B → ST W C) w b w' :
  (m ≫= k) w = Done (b, w') → (m ≫= λ a, k a ≫= f) w = f b w'.
Proof. unfold mbind, ST_bind. destruct (m w) as [[a w1]|]; [|done]. by intros ->. Qed.
Lemma ST_lift_bind {W A B} (o : outcome A) (f : A → ST W B) w a :
  o = Done a → (lift o ≫= f) w = f a w.
Proof. by intros ->. Qed.
Lemma ST_ret_eq {W A} (a : A) (w : W) : (mret a : ST W A) w = Done (a, w).
Proof. done. Qed.

(** [step H] runs the bind whose first computation [H] evaluates. *)
Ltac step H :=
  first [rewrite (ST_lift_bind _ _ _ _ H) | rewrite (ST_bind_eq _ _ _ _ _ H)];
  cbn beta iota.

(** ** Filters *)
Lemma filter_all {A} (P : A → Prop) `{∀ x, Decision (P x)} l : Forall P l → filter P l = l.
Proof. induction 1 as [|x l Hx _ IH]; [done|]. by rewrite filter_cons_True, IH. Qed.
Lemma filter_none {A} (P : A → Prop) `{∀ x, Decision (P x)} l :
  Forall (λ x, ¬ P x) l → filter P l = [].
Proof. induction 1 as [|x l Hx _ IH]; [done|]. by rewrite filter_cons_False. Qed.
Lemma filter_nil {A} (P : A → Prop) `{∀ x, Decision (P x)} l :
  filter P l = [] → Forall (λ x, ¬ P x) l.
Proof.
  intros Hf. apply Forall_forall. intros x Hx HP.
  assert (x ∈ filter P l) as Hin by (by apply list_elem_of_filter).
  rewrite Hf in Hin. by apply elem_of_nil in Hin.
Qed.
Lemma Forall_filter_both {A} (P Q : A → Prop) `{∀ x, Decision (P x)} l :
  Forall Q l → Forall Q (filter P l).
Proof. rewrite !Forall_forall. intros HQ x [_ ?]%list_elem_of_filter. auto. Qed.

Lemma filter_ext_in {A} (P Q : A → Prop) `{∀ x, Decision (P x)} `{∀ x, Decision (Q x)} (l : list A) :
  (∀ x, x ∈ l → P x ↔ Q x) → filter P l = filter Q l.
Proof.
  induction l as [|x l IH]; intros He; [done|]. rewrite !filter_cons, IH by (intros; apply He; by right).
  destruct (He x ltac:(left)) as [H1 H2]. destruct (decide (P x)), (decide (Q x)); tauto.
Qed.
(** [by_decide]: a closed decidable goal, by evaluation. *)
Ltac by_decide := apply (bool_decide_unpack _); vm_compute; exact I.

Lemma StronglySorted_ordered {A} (R : A → A → Prop) l i j x y :
  StronglySorted R l → (i < j)%nat → l !! i = Some x → l !! j = Some y → R x y.
Proof.
  intros Hs. revert i j. induction Hs as [|a l Hs IH Hall]; intros i j Hij Hx Hy; [done|].
  destruct j as [|j]; [lia|]. destruct i as [|i]; simpl in *.
  - injection Hx as <-. rewrite Forall_forall in Hall. apply Hall, list_elem_of_lookup. eauto.
  - by apply (IH i j); [lia|..].
Qed.

(** ** Bit sets in integers *)
Definition bits_subset (a b : Z) : Prop := Z.land a (Z.lnot b) = 0.
Lemma bits_subset_alt a b :
  bits_subset a b ↔ ∀ i, 0 ≤ i → Z.testbit a i = true → Z.testbit b i = true.
Proof.
  unfold bits_subset. split.
  - intros H i Hi Ha. assert (Hb : Z.testbit (Z.land a (Z.lnot b)) i = false) by (rewrite H; apply Z.bits_0).
    rewrite Z.land_spec, Ha, Z.lnot_spec in Hb by done. by destruct (Z.testbit b i).
  - intros H. apply Z.bits_inj'. intros i Hi. rewrite Z.bits_0, Z.land_spec, Z.lnot_spec by done.
    destruct (Z.testbit a i) eqn:E; [|done]. by rewrite (H i Hi E).
Qed.
Lemma bits_subset_refl a : bits_subset a a.
Proof. by apply bits_subset_alt. Qed.
Lemma bits_subset_trans a b c : bits_subset a b → bits_subset b c → bits_subset a c.
Proof. rewrite !bits_subset_alt. eauto. Qed.
Lemma bits_subset_0 a : bits_subset 0 a.
Proof. done. Qed.
Lemma bits_subset_lor a b c : bits_subset (Z.lor a b) c ↔ bits_subset a c ∧ bits_subset b c.
Proof.
  rewrite !bits_subset_alt. split.
  - intros H. split; intros i Hi Hb; apply H; [done| |done|]; rewrite Z.lor_spec, Hb; [done|apply orb_true_r].
  - intros [H1 H2] i Hi. rewrite Z.lor_spec. intros [?|?]%orb_prop; auto.
Qed.
Lemma bits_subset_lor_l a b : bits_subset a (Z.lor a b).
Proof. apply bits_subset_alt. intros i _ H. by rewrite Z.lor_spec, H. Qed.
Lemma bits_subset_lor_r a b : bits_subset b (Z.lor a b).
Proof. rewrite Z.lor_comm. apply bits_subset_lor_l. Qed.
Lemma bits_subset_land_r a b : bits_subset (Z.land a b) b.
Proof. apply bits_subset_alt. intros i _. rewrite Z.land_spec. by intros [_ ?]%andb_prop. Qed.
Lemma testbit_single i j : 0 ≤ i → Z.testbit (Z.shiftl 1 i) j = bool_decide (j = i).
Proof.
  intros Hi. rewrite Z.shiftl_1_l. destruct (decide (j = i)) as [->|Hne].
  - by rewrite Z.pow2_bits_true, bool_decide_true.
  - rewrite Z.pow2_bits_false by done. by rewrite bool_decide_false.
Qed.
Lemma land_single m i : 0 ≤ i → Z.land m (Z.shiftl 1 i) ≠ 0 ↔ Z.testbit m i = true.
Proof.
  intros Hi. split.
  - intros Hne. destruct (Z.testbit m i) eqn:E; [done|]. destruct Hne. apply Z.bits_inj'. intros j Hj.
    rewrite Z.land_spec, testbit_single, Z.bits_0 by done.
    case_bool_decide; [subst; by rewrite E|apply andb_false_r].
  - intros E Hz. apply (f_equal (λ z, Z.testbit z i)) in Hz.
    by rewrite Z.land_spec, testbit_single, Z.bits_0, E, bool_decide_true in Hz.
Qed.
Lemma testbit_lor_single m i j :
  0 ≤ i → Z.testbit (Z.lor m (Z.shiftl 1 i)) j = true ↔ Z.testbit m j = true ∨ j = i.
Proof. intros Hi. by rewrite Z.lor_spec, testbit_single, orb_true_iff, bool_decide_eq_true. Qed.
#[export] Hint Resolve bits_subset_refl bits_subset_0 bits_subset_lor_l bits_subset_lor_r
  bits_subset_land_r : boaros.

(** Words of 64 bits. *)
Lemma is_u64_bits w : is_u64 w ↔ 0 ≤ w ∧ ∀ k, 64 ≤ k → Z.testbit w k = false.
Proof.
  unfold is_u64, UINT64_MAX. split.
  - intros Hw. split; [lia|]. intros k Hk. apply Z.testbit_false; [lia|].
    rewrite Z.div_small; [done|]. split; [lia|]. apply (Z.lt_le_trans _ (2 ^ 64)); [lia|].
    apply Z.pow_le_mono_r; lia.
  - intros [H0 Hb]. split; [done|]. destruct (decide (w = 0)); [lia|].
    destruct (Z.lt_ge_cases w (2 ^ 64)) as [?|Hbig]; [lia|].
    pose proof (Z.log2_le_mono _ _ Hbig) as Hlog. rewrite Z.log2_pow2 in Hlog by lia.
    pose proof (Z.bit_log2 w ltac:(lia)) as Hbit. by rewrite Hb in Hbit.
Qed.
Lemma is_u64_land a b : is_u64 a → is_u64 (Z.land a b).
Proof.
  rewrite !is_u64_bits. intros [H0 Ha]. split; [apply Z.land_nonneg; by left|].
  intros k Hk. by rewrite Z.land_spec, Ha.
Qed.
Lemma is_u64_update w w' i b :
  is_u64 w → 0 ≤ w' → (∀ k, 0 ≤ k → Z.testbit w' k = if decide (k = i mod 64) then b else Z.testbit w k) →
  is_u64 w'.
Proof.
  intros [H0 Hw]%is_u64_bits H0' Hbit. apply is_u64_bits. split; [done|]. intros k Hk.
  rewrite Hbit by lia. pose proof (Z.mod_pos_bound i 64). rewrite decide_False by lia. by apply Hw.
Qed.

(** ** Counting in finite maps *)
Definition count_with {A} (P : A → bool) (m : gmap Z A) : Z :=
  Z.of_nat (size (filter (λ kx, P kx.2 = true) m)).
Lemma count_with_insert {A} (P : A → bool) (m : gmap Z A) k x x' :
  m !! k = Some x →
  count_with P (<[k := x']> m) = count_with P m - Z.b2z (P x) + Z.b2z (P x').
Proof.
  intros Hx. unfold count_with. rewrite <-(insert_delete_id m k x Hx) at 2.
  rewrite <-insert_delete_eq. set (d := delete k m).
  assert (Hd : d !! k = None) by apply lookup_delete_eq.
  assert (Hf : filter (λ kx : Z * A, P kx.2 = true) d !! k = None)
    by (apply map_lookup_filter_None; by left).
  assert (Hins : ∀ y, Z.of_nat (size (filter (λ kx : Z * A, P kx.2 = true) (<[k := y]> d))) =
    Z.of_nat (size (filter (λ kx : Z * A, P kx.2 = true) d)) + Z.b2z (P y)).
  { intros y. destruct (P y) eqn:Ey.
    - rewrite map_filter_insert_True by done. rewrite map_size_insert_None by done. simpl. lia.
    - rewrite map_filter_insert_False by (simpl; congruence). rewrite delete_id by done. simpl. lia. }
  rewrite !Hins. lia.
Qed.
Lemma count_with_ext {A} (P Q : A → bool) (m : gmap Z A) :
  (∀ k x, m !! k = Some x → P x = Q x) → count_with P m = count_with Q m.
Proof.
  intros He. unfold count_with. do 2 f_equal. apply map_filter_ext. intros k x Hx. simpl. by rewrite (He k x).
Qed.
Lemma count_with_bounds {A} (P : A → bool) (m : gmap Z A) : 0 ≤ count_with P m ≤ Z.of_nat (size m).
Proof.
  unfold count_with. split; [lia|]. apply Nat2Z.inj_le.
  apply map_subseteq_size, map_filter_subseteq.
Qed.
Lemma count_with_pos {A} (P : A → bool) (m : gmap Z A) k x :
  m !! k = Some x → P x = true → 0 < count_with P m.
Proof.
  intros Hx HP. unfold count_with.
  assert (Hf : filter (λ kx : Z * A, P kx.2 = true) m !! k = Some x)
    by (by apply map_lookup_filter_Some).
  destruct (size (filter (λ kx : Z * A, P kx.2 = true) m)) eqn:E; [|lia].
  apply map_size_empty_inv in E. rewrite E in Hf. by rewrite lookup_empty in Hf.
Qed.
