(* ===== verification/Bytes.v ===== *)
(** * Bytes and little-endian words

    The values of byte strings, shared by the components that assemble words
    from bytes with shifts or move memory in words. *)
From S2P Require Import Prelude.
#[local] Open Scope Z_scope.

Definition byte_ok (b : Z) : Prop := 0 ≤ b < 256.
(** The value of a little-endian byte string, and the [n] low bytes of a value. *)
Fixpoint le_value (l : list Z) : Z :=
  match l with [] => 0 | b :: l' => b + 256 * le_value l' end.
Fixpoint le_bytes (n : nat) (w : Z) : list Z :=
  match n with O => [] | S n => w mod 256 :: le_bytes n (w / 256) end.

Lemma lor_shift a b k : 0 ≤ k → 0 ≤ a < 2 ^ k → Z.lor a (Z.shiftl b k) = a + b * 2 ^ k.
Proof.
  intros Hk Ha. rewrite <-Z.shiftl_mul_pow2 by done.
  assert (Hland : Z.land a (Z.shiftl b k) = 0).
  { apply Z.bits_inj'. intros i Hi. rewrite Z.land_spec, Z.bits_0, Z.shiftl_spec by done.
    destruct (decide (i < k)).
    - rewrite (Z.testbit_neg_r b) by lia. apply andb_false_r.
    - assert (Z.testbit a i = false) as ->; [|done]. apply Z.testbit_false; [done|].
      rewrite Z.div_small; [done|]. split; [lia|]. apply (Z.lt_le_trans _ (2 ^ k)); [lia|].
      apply Z.pow_le_mono_r; lia. }
  pose proof (Z.add_lor_land a (Z.shiftl b k)). lia.
Qed.
Lemma le_value_bound l : Forall byte_ok l → 0 ≤ le_value l < 2 ^ (8 * Z.of_nat (length l)).
Proof.
  induction 1 as [|b l Hb _ IH]; [simpl; lia|]. unfold byte_ok in Hb. cbn [le_value length].
  replace (8 * Z.of_nat (S (length l))) with (8 + 8 * Z.of_nat (length l)) by lia.
  rewrite Z.pow_add_r by lia. change (2 ^ 8) with 256. nia.
Qed.
Lemma le_value_app l1 l2 : le_value (l1 ++ l2) = le_value l1 + 2 ^ (8 * Z.of_nat (length l1)) * le_value l2.
Proof.
  induction l1 as [|b l1 IH]; [simpl; lia|]. cbn [le_value length app]. rewrite IH.
  replace (8 * Z.of_nat (S (length l1))) with (8 + 8 * Z.of_nat (length l1)) by lia.
  rewrite Z.pow_add_r by lia. change (2 ^ 8) with 256. lia.
Qed.

Lemma le_bytes_value l : Forall byte_ok l → le_bytes (length l) (le_value l) = l.
Proof.
  unfold byte_ok. induction 1 as [|b l Hb _ IH]; [done|]. cbn [length le_value le_bytes].
  rewrite (Z.mul_comm 256), Z.mod_add, Z.div_add, Z.mod_small, Z.div_small by lia.
  by rewrite Z.add_0_l, IH.
Qed.
Lemma le_value_inj l l' :
  length l = length l' → Forall byte_ok l → Forall byte_ok l' → le_value l = le_value l' → l = l'.
Proof. intros Hl H H' He. rewrite <-(le_bytes_value l), <-(le_bytes_value l'), Hl, He by done. done. Qed.

(** Shifting a word by whole bytes drops bytes at one end. *)
Lemma le_value_shiftr l n :
  Forall byte_ok l → (n ≤ length l)%nat →
  Z.shiftr (le_value l) (8 * Z.of_nat n) = le_value (drop n l).
Proof.
  intros Hl Hn. rewrite Z.shiftr_div_pow2 by lia. rewrite <-(take_drop n l) at 1.
  rewrite le_value_app, length_take, Nat.min_l by done.
  pose proof (le_value_bound (take n l) (Forall_take _ _ _ Hl)) as Hb.
  rewrite length_take, Nat.min_l in Hb by done.
  rewrite (Z.mul_comm (2 ^ _)), Z.div_add, Z.div_small by lia. lia.
Qed.
Lemma le_value_shiftl l n :
  Forall byte_ok l → length l = 8%nat → (n ≤ 8)%nat →
  u64 (Z.shiftl (le_value l) (8 * Z.of_nat n)) = Z.shiftl (le_value (take (8 - n) l)) (8 * Z.of_nat n).
Proof.
  intros Hl Hlen Hn. unfold u64. rewrite !Z.shiftl_mul_pow2 by lia.
  rewrite <-(take_drop (8 - n) l) at 1. rewrite le_value_app, length_take, Nat.min_l by lia.
  pose proof (le_value_bound (take (8 - n) l) (Forall_take _ _ _ Hl)) as Hb.
  rewrite length_take, Nat.min_l in Hb by lia.
  change 18446744073709551616 with (2 ^ 64).
  assert (Hp : 2 ^ (8 * Z.of_nat (8 - n)) * 2 ^ (8 * Z.of_nat n) = 2 ^ 64) by (rewrite <-Z.pow_add_r by lia; f_equal; lia).
  replace ((le_value (take (8 - n) l) + 2 ^ (8 * Z.of_nat (8 - n)) * le_value (drop (8 - n) l)) * 2 ^ (8 * Z.of_nat n))
    with (le_value (take (8 - n) l) * 2 ^ (8 * Z.of_nat n) + le_value (drop (8 - n) l) * 2 ^ 64) by (rewrite <-Hp; ring).
  rewrite Z.mod_add by lia. apply Z.mod_small. rewrite <-Hp. nia.
Qed.
Lemma le_value_join l1 l2 :
  Forall byte_ok l1 →
  Z.lor (le_value l1) (Z.shiftl (le_value l2) (8 * Z.of_nat (length l1))) = le_value (l1 ++ l2).
Proof.
  intros H1. rewrite lor_shift by (try lia; by apply le_value_bound). rewrite le_value_app. lia.
Qed.
