(* ===== verification/BootMemory.v ===== *)
(** * Boot memory layout ([kernel/boot_memory.c])

    [boot_memory_build] turns the memory node of the device tree, its reserved
    ranges, the kernel image and the DTB blob into two sorted tables: the
    merged reserved ranges and the usable ranges the page allocator is born
    from.  The C code works in place on three fixed-size arrays; they are lists
    of their declared length here, an index outside them is a [Fault], and the
    slots above the count keep whatever they held. *)
From S2P Require Import Prelude.
#[local] Open Scope Z_scope.

Module BootMemory.

Definition DTB_MAX_RESERVED_RANGES : nat := 16.
Definition BOOT_MEMORY_MAX_RESERVED_RANGES : nat := DTB_MAX_RESERVED_RANGES + 2.
Definition BOOT_MEMORY_MAX_USABLE_RANGES : nat := BOOT_MEMORY_MAX_RESERVED_RANGES + 1.

Record dtb_memory_range := mk_range { rg_base : Z; rg_size : Z }.

(** The fields of [struct dtb_boot_info] that the layout reads. *)
Record dtb_boot_info := {
  bi_memory : dtb_memory_range;
  bi_dtb_size : Z;
  bi_reserved_count : nat;
  bi_reserved : list dtb_memory_range;
}.

Inductive boot_memory_status :=
  | BOOT_MEMORY_STATUS_OK
  | BOOT_MEMORY_STATUS_INVALID
  | BOOT_MEMORY_STATUS_EMPTY.

Record boot_memory_layout := {
  bl_reserved_count : nat;
  bl_usable_count : nat;
  bl_reserved : list dtb_memory_range;
  bl_usable : list dtb_memory_range;
}.

#[export] Instance boot_memory_status_eq_dec : EqDecision boot_memory_status.
Proof. solve_decision. Defined.
#[export] Instance dtb_memory_range_eq_dec : EqDecision dtb_memory_range.
Proof. solve_decision. Defined.

(** [range_end]: [None] when [base + size] does not fit in 64 bits. *)
Definition range_end (base size : Z) : option Z :=
  if decide (size > UINT64_MAX - base) then None else Some (base + size).

(** The inner loop of [sort_ranges]: move larger elements one slot up, and
    return the slot freed for [current]. *)
Fixpoint sort_shift (ranges : list dtb_memory_range) (current : dtb_memory_range)
    (position : nat) : outcome (list dtb_memory_range * nat) :=
  match position with
  | O => Done (ranges, O)
  | S p =>
      previous ← aread ranges p;
      if decide (previous.(rg_base) > current.(rg_base)) then
        ranges' ← awrite ranges position previous;
        sort_shift ranges' current p
      else Done (ranges, position)
  end.

(** The outer loop, [steps] iterations starting at [index]. *)
Fixpoint sort_loop (steps index : nat) (ranges : list dtb_memory_range)
    : outcome (list dtb_memory_range) :=
  match steps with
  | O => Done ranges
  | S steps' =>
      current ← aread ranges index;
      '(ranges1, position) ← sort_shift ranges current index;
      ranges2 ← awrite ranges1 position current;
      sort_loop steps' (S index) ranges2
  end.

Definition sort_ranges (ranges : list dtb_memory_range) (count : nat)
    : outcome (list dtb_memory_range) :=
  sort_loop (count - 1) 1 ranges.

Definition append_clipped_range (ranges : list dtb_memory_range) (count : nat)
    (memory_base memory_end base size : Z)
    : outcome (boot_memory_status * list dtb_memory_range * nat) :=
  if decide (size = 0) then Done (BOOT_MEMORY_STATUS_OK, ranges, count)
  else match range_end base size with
  | None => Done (BOOT_MEMORY_STATUS_INVALID, ranges, count)
  | Some rend =>
      if decide (rend ≤ memory_base ∨ memory_end ≤ base)
      then Done (BOOT_MEMORY_STATUS_OK, ranges, count)
      else
        let base' := if decide (base < memory_base) then memory_base else base in
        let end' := if decide (rend > memory_end) then memory_end else rend in
        ranges' ← awrite ranges count (mk_range base' (end' - base'));
        Done (BOOT_MEMORY_STATUS_OK, ranges', S count)
  end.

(** The loop that clips the reserved ranges of the device tree. *)
Fixpoint clip_reserved (reserved : list dtb_memory_range) (steps index : nat)
    (memory_base memory_end : Z) (ranges : list dtb_memory_range) (count : nat)
    : outcome (boot_memory_status * list dtb_memory_range * nat) :=
  match steps with
  | O => Done (BOOT_MEMORY_STATUS_OK, ranges, count)
  | S steps' =>
      r ← aread reserved index;
      '(status, ranges', count') ←
        append_clipped_range ranges count memory_base memory_end
          r.(rg_base) r.(rg_size);
      if decide (status = BOOT_MEMORY_STATUS_OK) then
        clip_reserved reserved steps' (S index) memory_base memory_end ranges' count'
      else Done (status, ranges', count')
  end.

(** The loop that merges touching candidates into [result.reserved]. *)
Fixpoint coalesce (candidates : list dtb_memory_range) (steps index : nat)
    (reserved : list dtb_memory_range) (reserved_count : nat)
    : outcome (list dtb_memory_range * nat) :=
  match steps with
  | O => Done (reserved, reserved_count)
  | S steps' =>
      c ← aread candidates index;
      '(reserved', count') ←
        (if decide (reserved_count = O) then
           reserved' ← awrite reserved 0 c;
           Done (reserved', 1%nat)
         else
           previous ← aread reserved (reserved_count - 1);
           let previous_end := u64 (previous.(rg_base) + previous.(rg_size)) in
           let current_end := u64 (c.(rg_base) + c.(rg_size)) in
           if decide (c.(rg_base) ≤ previous_end) then
             if decide (current_end > previous_end) then
               reserved' ← awrite reserved (reserved_count - 1)
                 (mk_range previous.(rg_base) (u64 (current_end - previous.(rg_base))));
               Done (reserved', reserved_count)
             else Done (reserved, reserved_count)
           else
             reserved' ← awrite reserved reserved_count c;
             Done (reserved', S reserved_count));
      coalesce candidates steps' (S index) reserved' count'
  end.

(** The loop that emits the gaps between reserved ranges. *)
Fixpoint emit_gaps (reserved : list dtb_memory_range) (steps index : nat)
    (usable : list dtb_memory_range) (usable_count : nat) (cursor : Z)
    : outcome (list dtb_memory_range * nat * Z) :=
  match steps with
  | O => Done (usable, usable_count, cursor)
  | S steps' =>
      r ← aread reserved index;
      let reserved_end := u64 (r.(rg_base) + r.(rg_size)) in
      '(usable', count') ←
        (if decide (cursor < r.(rg_base)) then
           usable' ← awrite usable usable_count
             (mk_range cursor (u64 (r.(rg_base) - cursor)));
           Done (usable', S usable_count)
         else Done (usable, usable_count));
      emit_gaps reserved steps' (S index) usable' count' reserved_end
  end.

(** [boot_memory_build].  [junk] is the indeterminate content of the three
    automatic arrays; [None] is returned for the layout on every error, where
    the source leaves [*layout] alone. *)
Definition boot_memory_build (junk : dtb_memory_range) (info : dtb_boot_info)
    (kernel_start kernel_end dtb_address : Z)
    : outcome (boot_memory_status * option boot_memory_layout) :=
  let base := info.(bi_memory).(rg_base) in
  let candidates := replicate BOOT_MEMORY_MAX_RESERVED_RANGES junk in
  if decide (info.(bi_memory).(rg_size) = 0 ∨
             (DTB_MAX_RESERVED_RANGES < info.(bi_reserved_count))%nat)
  then Done (BOOT_MEMORY_STATUS_INVALID, None)
  else match range_end base info.(bi_memory).(rg_size) with
  | None => Done (BOOT_MEMORY_STATUS_INVALID, None)
  | Some memory_end =>
  if decide (kernel_end ≤ kernel_start ∨ kernel_start < base ∨
             kernel_end > memory_end ∨ info.(bi_dtb_size) = 0)
  then Done (BOOT_MEMORY_STATUS_INVALID, None)
  else match range_end dtb_address info.(bi_dtb_size) with
  | None => Done (BOOT_MEMORY_STATUS_INVALID, None)
  | Some dtb_end =>
  '(status, candidates, count) ←
    clip_reserved info.(bi_reserved) info.(bi_reserved_count) 0 base memory_end
      candidates 0;
  if decide (status ≠ BOOT_MEMORY_STATUS_OK) then Done (status, None) else
  '(status, candidates, count) ←
    append_clipped_range candidates count base memory_end
      kernel_start (kernel_end - kernel_start);
  if decide (status ≠ BOOT_MEMORY_STATUS_OK) then Done (status, None) else
  '(status, candidates, count) ←
    append_clipped_range candidates count base memory_end
      dtb_address (dtb_end - dtb_address);
  if decide (status ≠ BOOT_MEMORY_STATUS_OK) then Done (status, None) else
  candidates ← sort_ranges candidates count;
  '(reserved, reserved_count) ←
    coalesce candidates count 0 (replicate BOOT_MEMORY_MAX_RESERVED_RANGES junk) 0;
  '(usable, usable_count, cursor) ←
    emit_gaps reserved reserved_count 0
      (replicate BOOT_MEMORY_MAX_USABLE_RANGES junk) 0 base;
  '(usable, usable_count) ←
    (if decide (cursor < memory_end) then
       usable' ← awrite usable usable_count (mk_range cursor (memory_end - cursor));
       Done (usable', S usable_count)
     else Done (usable, usable_count));
  if decide (usable_count = O) then Done (BOOT_MEMORY_STATUS_EMPTY, None)
  else Done (BOOT_MEMORY_STATUS_OK,
             Some {| bl_reserved_count := reserved_count;
                     bl_usable_count := usable_count;
                     bl_reserved := reserved;
                     bl_usable := usable |})
  end end.

End BootMemory.
