(* ===== verification/BootMemoryTheory.v ===== *)
(** * Correctness of the boot memory layout

    [boot_memory_build] never leaves its arrays, and what it returns is exact:
    an address is usable iff it lies in the memory node and in none of the
    reserved ranges, the kernel image and the DTB. *)
From S2P Require Import Prelude BootMemory.
#[local] Open Scope Z_scope.
Import BootMemory.

Definition rg_end (r : dtb_memory_range) : Z := r.(rg_base) + r.(rg_size).
Definition in_range (r : dtb_memory_range) (a : Z) : Prop :=
  r.(rg_base) ≤ a < rg_end r.
Definition covered (l : list dtb_memory_range) (a : Z) : Prop :=
  Exists (λ r, in_range r a) l.

#[export] Instance in_range_dec r a : Decision (in_range r a).
Proof. unfold in_range. apply _. Defined.
#[export] Instance covered_dec l a : Decision (covered l a).
Proof. unfold covered. apply _. Defined.

(** A clipped range: non-empty and inside the memory node. *)
Definition clipped (lo hi : Z) (r : dtb_memory_range) : Prop :=
  0 < r.(rg_size) ∧ lo ≤ r.(rg_base) ∧ rg_end r ≤ hi.

Definition base_le (r s : dtb_memory_range) : Prop := r.(rg_base) ≤ s.(rg_base).
#[export] Instance base_le_trans : Transitive base_le.
Proof. unfold base_le. intros ???. lia. Qed.
Definition gap_lt (r s : dtb_memory_range) : Prop := rg_end r < s.(rg_base).
Definition ordered (r s : dtb_memory_range) : Prop := rg_end r ≤ s.(rg_base).

(** [range_lia]: unfold the interval vocabulary and finish by arithmetic. *)
Ltac range_lia :=
  unfold clipped, in_range, base_le, gap_lt, ordered in *; unfold rg_end in *;
  simpl in *; mlia.

Lemma covered_nil a : covered [] a ↔ False.
Proof. unfold covered. by rewrite Exists_nil. Qed.
Lemma covered_app l k a : covered (l ++ k) a ↔ covered l a ∨ covered k a.
Proof. apply Exists_app. Qed.
Lemma covered_cons r l a : covered (r :: l) a ↔ in_range r a ∨ covered l a.
Proof. apply Exists_cons. Qed.
Lemma covered_perm l k a : l ≡ₚ k → covered l a ↔ covered k a.
Proof. intros H. unfold covered. by rewrite H. Qed.
Create Rewrite HintDb covered.
#[export] Hint Rewrite covered_nil covered_app covered_cons : covered.

Lemma range_end_Some base size e :
  range_end base size = Some e ↔ e = base + size ∧ base + size ≤ UINT64_MAX.
Proof.
  unfold range_end. case_decide; split; [done|mlia| |]; intros H'; simplify_eq; [mlia|].
  destruct H' as [-> ?]. done.
Qed.

(** ** Sorting *)

(** The shifting loop finds the insertion point of [current] in the prefix. *)
Lemma sort_shift_spec ranges current position :
  (position < length ranges)%nat →
  ∃ ranges' l1 l2,
    sort_shift ranges current position = Done (ranges', length l1) ∧
    take position ranges = l1 ++ l2 ∧
    (∀ r, last l1 = Some r → r.(rg_base) ≤ current.(rg_base)) ∧
    Forall (λ r, current.(rg_base) < r.(rg_base)) l2 ∧
    take (S position) (<[length l1:=current]> ranges') = l1 ++ current :: l2 ∧
    drop (S position) ranges' = drop (S position) ranges ∧
    length ranges' = length ranges.
Proof.
  revert ranges. induction position as [|p IH]; intros ranges Hlen.
  { exists ranges, [], []. split_and!; auto; [done|].
    cbn [length]. by rewrite take_insert_last. }
  destruct (lookup_lt_is_Some_2 ranges p) as [prev Hprev]; [lia|].
  simpl. rewrite (aread_ok _ _ _ Hprev). simpl. case_decide as Hcmp.
  - rewrite awrite_ok by lia. simpl.
    destruct (IH (<[S p:=prev]> ranges)) as (r' & l1 & l2 & -> & Htk & Hl1 & Hl2 & Hins & Hdrop & Hl).
    { rewrite length_insert. lia. }
    rewrite take_insert_ge in Htk by lia. rewrite length_insert in Hl.
    exists r', l1, (l2 ++ [prev]). split_and!; auto.
    + by rewrite (take_S_r _ _ _ Hprev), Htk, (assoc_L (++)).
    + apply Forall_app. split; [done|]. apply Forall_singleton. lia.
    + assert (length l1 ≤ p)%nat.
      { apply (f_equal length) in Htk. rewrite length_take, length_app in Htk. lia. }
      rewrite (take_S_r _ (S p) prev), Hins.
      * by rewrite <-(assoc_L (++)).
      * rewrite list_lookup_insert_ne by lia.
        assert (Hsame : (drop (S p) r') !! 0%nat = Some prev).
        { rewrite Hdrop, lookup_drop, Nat.add_0_r. apply list_lookup_insert_eq. lia. }
        by rewrite lookup_drop, Nat.add_0_r in Hsame.
    + apply (f_equal (drop 1)) in Hdrop. rewrite !drop_drop in Hdrop.
      rewrite !Nat.add_1_r in Hdrop. rewrite Hdrop. apply drop_insert_lt. lia.
  - exists ranges, (take (S p) ranges), []. rewrite length_take, Nat.min_l by lia.
    split_and!; auto.
    + by rewrite app_nil_r.
    + intros r. rewrite (take_S_r _ _ _ Hprev), last_snoc. intros [= <-]. lia.
    + by rewrite take_insert_last.
Qed.

(** Inserting after every smaller element keeps the prefix sorted. *)
Lemma insertion_sorted l1 l2 (x : dtb_memory_range) :
  StronglySorted base_le (l1 ++ l2) →
  (∀ r, last l1 = Some r → r.(rg_base) ≤ x.(rg_base)) →
  Forall (λ r, x.(rg_base) < r.(rg_base)) l2 →
  StronglySorted base_le (l1 ++ x :: l2).
Proof.
  intros Hs Hl1 Hl2. apply StronglySorted_app in Hs as (Hcross & Hs1 & Hs2).
  apply StronglySorted_app. split_and!; [|done|].
  - intros y z Hy [->|Hz]%elem_of_cons; [|by apply Hcross].
    destruct (last l1) as [r|] eqn:Hlast.
    + apply last_Some in Hlast as [k ->]. pose proof (Hl1 r eq_refl).
      apply StronglySorted_app in Hs1 as (Hk & _ & _).
      apply elem_of_app in Hy as [Hy|Hy%list_elem_of_singleton]; [|by subst y].
      etrans; [|done]. apply (Hk y r); [done|]. by apply list_elem_of_singleton.
    + apply last_None in Hlast as ->. by apply not_elem_of_nil in Hy.
  - constructor; [done|]. eapply Forall_impl; [done|]. unfold base_le. simpl. lia.
Qed.

Lemma sort_loop_spec steps index ranges :
  (index + steps ≤ length ranges)%nat →
  StronglySorted base_le (take index ranges) →
  ∃ ranges',
    sort_loop steps index ranges = Done ranges' ∧
    length ranges' = length ranges ∧
    take (index + steps) ranges' ≡ₚ take (index + steps) ranges ∧
    StronglySorted base_le (take (index + steps) ranges').
Proof.
  revert index ranges. induction steps as [|n IH]; intros index ranges Hlen Hs.
  { exists ranges. rewrite Nat.add_0_r. auto. }
  destruct (lookup_lt_is_Some_2 ranges index) as [cur Hcur]; [lia|].
  simpl. rewrite (aread_ok _ _ _ Hcur). simpl.
  destruct (sort_shift_spec ranges cur index) as
    (r1 & l1 & l2 & -> & Htk & Hl1 & Hl2 & Hins & Hdrop & Hl); [lia|].
  simpl. assert (length l1 ≤ index)%nat.
  { apply (f_equal length) in Htk. rewrite length_take, length_app in Htk. lia. }
  rewrite awrite_ok by lia. simpl. rewrite Htk in Hs.
  destruct (IH (S index) (<[length l1:=cur]> r1)) as (r2 & -> & Hl' & Hp & Hs').
  { rewrite length_insert. lia. }
  { rewrite Hins. by apply insertion_sorted. }
  rewrite length_insert in Hl'. exists r2. rewrite <-Nat.add_succ_comm.
  split_and!; [done|lia| |done]. rewrite Hp.
  rewrite <-(take_take_drop _ (S index)), Hins, drop_insert_lt, Hdrop by lia.
  rewrite <-(take_take_drop ranges (S index)), (take_S_r _ _ _ Hcur), Htk.
  f_equiv. rewrite <-(assoc_L (++)). f_equiv. by rewrite Permutation_cons_append.
Qed.

Lemma sort_ranges_spec ranges count :
  (count ≤ length ranges)%nat →
  ∃ ranges',
    sort_ranges ranges count = Done ranges' ∧
    length ranges' = length ranges ∧
    take count ranges' ≡ₚ take count ranges ∧
    StronglySorted base_le (take count ranges').
Proof.
  intros Hlen. unfold sort_ranges. destruct count as [|n]; simpl.
  { exists ranges. split_and!; [done..|constructor]. }
  destruct ranges as [|r0 rs]; [simpl in *; lia|].
  destruct (sort_loop_spec n 1 (r0 :: rs)) as (r' & Hrun & H); [simpl in *; lia| |].
  { simpl. repeat constructor. }
  rewrite Nat.sub_0_r. eauto.
Qed.

(** ** Merging *)

(** What the merging loop maintains about the ranges it has emitted. *)
Record merged (lo hi : Z) (acc : list dtb_memory_range) : Prop := {
  merged_sorted : StronglySorted gap_lt acc;
  merged_clipped : Forall (clipped lo hi) acc;
}.

Lemma merged_snoc lo hi acc c :
  merged lo hi acc → clipped lo hi c →
  (∀ r, r ∈ acc → gap_lt r c) → merged lo hi (acc ++ [c]).
Proof.
  intros [Hs Hc] Hok Hgap. split.
  - apply StronglySorted_app. split_and!; [|done|repeat constructor].
    intros x y Hx Hy%list_elem_of_singleton. subst y. auto.
  - by apply Forall_app_2; [|apply Forall_singleton].
Qed.

Lemma merged_last_gap lo hi acc prev r :
  merged lo hi (acc ++ [prev]) → r ∈ acc → gap_lt r prev.
Proof.
  intros [Hs _] Hr. eapply StronglySorted_app_1_elem_of; [done..|].
  by apply list_elem_of_singleton.
Qed.

(** One iteration of the merging loop. *)
Lemma coalesce_step lo hi candidates index c reserved rc :
  0 ≤ lo → hi ≤ UINT64_MAX →
  candidates !! index = Some c → clipped lo hi c →
  (rc < length reserved)%nat → merged lo hi (take rc reserved) →
  Forall (λ r, base_le r c) (take rc reserved) →
  ∃ reserved' rc',
    (∀ steps, coalesce candidates (S steps) index reserved rc =
              coalesce candidates steps (S index) reserved' rc') ∧
    length reserved' = length reserved ∧ (rc' ≤ S rc)%nat ∧
    merged lo hi (take rc' reserved') ∧
    (∀ a, covered (take rc' reserved') a ↔ covered (take rc reserved) a ∨ in_range c a) ∧
    Forall (λ r, base_le r c) (take rc' reserved').
Proof.
  intros Hlo Hhi Hc Hok Hlen Hm Hbase.
  assert (Hce : u64 (c.(rg_base) + c.(rg_size)) = rg_end c).
  { apply u64_small. range_lia. }
  cbn [coalesce]. rewrite (aread_ok _ _ _ Hc). simpl.
  destruct rc as [|rc].
  { rewrite decide_True by done. rewrite awrite_ok by lia.
    eexists _, 1%nat. split; [done|]. rewrite length_insert, take_insert_last by lia.
    cbn [take app]. split_and!; [done|lia| | |].
    - apply (merged_snoc lo hi []); [done..|]. by intros r ?%not_elem_of_nil.
    - intros a. by autorewrite with covered; tauto.
    - apply Forall_singleton. red. lia. }
  rewrite decide_False by lia.
  replace (S rc - 1)%nat with rc by lia.
  destruct (lookup_lt_is_Some_2 reserved rc) as [prev Hprev]; [lia|].
  rewrite (aread_ok _ _ _ Hprev). simpl. rewrite Hce.
  rewrite (take_S_r _ _ _ Hprev) in Hm, Hbase |- *.
  apply Forall_app in Hbase as [Hb1 [Hb2 _]%Forall_cons].
  assert (Hpok : clipped lo hi prev).
  { destruct Hm as [_ Hcl]. by apply Forall_app in Hcl as [_ [? _]%Forall_cons]. }
  assert (Hpe : u64 (prev.(rg_base) + prev.(rg_size)) = rg_end prev).
  { apply u64_small. range_lia. }
  rewrite Hpe. case_decide as Htouch; [case_decide as Hgrow|].
  - rewrite awrite_ok by lia. eexists _, (S rc). split; [done|].
    rewrite length_insert, take_insert_last by lia.
    rewrite u64_small by range_lia.
    set (w := mk_range _ _).
    assert (Hw : clipped lo hi w) by (unfold w; range_lia).
    split_and!; [done|lia| | |].
    + apply merged_snoc; [|done|].
      * destruct Hm as [Hs Hcl]. apply StronglySorted_app_1_l in Hs.
        apply Forall_app in Hcl as [??]. done.
      * intros r Hr. apply (merged_last_gap lo hi _ prev) in Hr; [|done].
        unfold gap_lt, w in *. simpl. done.
    + intros a. autorewrite with covered.
      assert (in_range w a ↔ in_range prev a ∨ in_range c a) by (unfold w; range_lia).
      tauto.
    + apply Forall_app_2; [done|]. apply Forall_singleton. done.
  - eexists reserved, (S rc). split; [done|]. rewrite (take_S_r _ _ _ Hprev).
    split_and!; [done|lia|done| |].
    + intros a. autorewrite with covered.
      assert (in_range c a → in_range prev a) by range_lia. tauto.
    + apply Forall_app_2; [done|]. by apply Forall_singleton.
  - rewrite awrite_ok by lia. eexists _, (S (S rc)). split; [done|].
    rewrite length_insert, take_insert_last, (take_S_r _ _ _ Hprev) by lia.
    split_and!; [done|lia| | |].
    + apply merged_snoc; [done..|]. intros r [Hr|Hr%list_elem_of_singleton]%elem_of_app.
      * apply (merged_last_gap lo hi _ prev) in Hr; [|done].
        range_lia.
      * subst r. unfold gap_lt. lia.
    + intros a. autorewrite with covered. tauto.
    + rewrite !Forall_app, !Forall_singleton. split_and!; [done..|]. red. lia.
Qed.

Lemma coalesce_spec lo hi candidates steps index reserved rc :
  0 ≤ lo → hi ≤ UINT64_MAX →
  (index + steps ≤ length candidates)%nat → (rc + steps ≤ length reserved)%nat →
  let cs := take steps (drop index candidates) in
  StronglySorted base_le cs → Forall (clipped lo hi) cs →
  merged lo hi (take rc reserved) →
  Forall (λ r, Forall (base_le r) cs) (take rc reserved) →
  ∃ reserved' rc',
    coalesce candidates steps index reserved rc = Done (reserved', rc') ∧
    length reserved' = length reserved ∧ (rc' ≤ rc + steps)%nat ∧
    merged lo hi (take rc' reserved') ∧
    (∀ a, covered (take rc' reserved') a ↔ covered (take rc reserved) a ∨ covered cs a).
Proof.
  intros Hlo Hhi. revert index reserved rc.
  induction steps as [|steps IH]; intros index reserved rc Hi Hr cs Hs Hok Hm Hb.
  { exists reserved, rc. split_and!; [done..|lia|done|]. intros a.
    unfold cs. simpl. autorewrite with covered. tauto. }
  destruct (lookup_lt_is_Some_2 candidates index) as [c Hc]; [lia|].
  assert (Hcs : cs = c :: take steps (drop (S index) candidates)).
  { unfold cs. by rewrite (drop_S _ c) by done. }
  rewrite Hcs in *. clear cs Hcs.
  apply StronglySorted_cons in Hs as [Hge Hs]. apply Forall_cons in Hok as [Hc0 Hok].
  destruct (coalesce_step lo hi candidates index c reserved rc)
    as (res' & rc' & -> & Hl & Hrc & Hm' & Hcov & Hb'); [done..|lia|done| |].
  { eapply Forall_impl; [done|]. intros r [? _]%Forall_cons. done. }
  destruct (IH (S index) res' rc') as (res2 & rc2 & -> & Hl2 & Hrc2 & Hm2 & Hcov2);
    [lia|lia|done..| |].
  { eapply Forall_impl; [exact Hb'|]. intros r Hrb. eapply Forall_impl; [exact Hge|].
    unfold base_le in *. intros. lia. }
  exists res2, rc2. split_and!; [done|lia|lia|done|]. intros a.
  rewrite Hcov2, Hcov. autorewrite with covered. tauto.
Qed.

(** ** Clipping *)

(** The two answers of [append_clipped_range]: a wrapped end is refused, and
    anything else appends exactly the part inside the memory node. *)
Lemma append_clipped_range_invalid ranges count lo hi base size :
  size ≠ 0 → UINT64_MAX < base + size →
  append_clipped_range ranges count lo hi base size =
    Done (BOOT_MEMORY_STATUS_INVALID, ranges, count).
Proof.
  intros Hs Ho. unfold append_clipped_range, range_end.
  by rewrite decide_False, decide_True by (done || lia).
Qed.

Lemma append_clipped_range_spec ranges count lo hi base size :
  lo < hi → (count < length ranges)%nat → 0 ≤ size →
  (size = 0 ∨ base + size ≤ UINT64_MAX) →
  ∃ ranges' count' new,
    append_clipped_range ranges count lo hi base size =
      Done (BOOT_MEMORY_STATUS_OK, ranges', count') ∧
    length ranges' = length ranges ∧ (count' ≤ S count)%nat ∧
    take count' ranges' = take count ranges ++ new ∧ Forall (clipped lo hi) new ∧
    (∀ a, covered new a ↔ in_range (mk_range base size) a ∧ lo ≤ a < hi).
Proof.
  intros Hlh Hlen Hs Ho. unfold append_clipped_range. case_decide as Hz.
  { exists ranges, count, []. rewrite app_nil_r.
    split_and!; [done..|lia|done|done|]. intros a. autorewrite with covered. range_lia. }
  unfold range_end. rewrite decide_False by mlia. case_decide as Hout.
  { exists ranges, count, []. rewrite app_nil_r.
    split_and!; [done..|lia|done|done|]. intros a. autorewrite with covered. range_lia. }
  rewrite awrite_ok by done. simpl.
  eexists _, (S count), [_]. split; [done|].
  rewrite length_insert, take_insert_last by done.
  split_and!; [done|done|done| |].
  - apply Forall_singleton. repeat case_decide; range_lia.
  - intros a. autorewrite with covered. repeat case_decide; range_lia.
Qed.

Lemma clip_reserved_spec info_reserved steps index lo hi ranges count :
  lo < hi → (index + steps ≤ length info_reserved)%nat → (count + steps ≤ length ranges)%nat →
  let rs := take steps (drop index info_reserved) in
  Forall (λ r, 0 ≤ r.(rg_size)) rs →
  Forall (λ r, r.(rg_size) = 0 ∨ rg_end r ≤ UINT64_MAX) rs →
  ∃ ranges' count' new,
    clip_reserved info_reserved steps index lo hi ranges count =
      Done (BOOT_MEMORY_STATUS_OK, ranges', count') ∧
    length ranges' = length ranges ∧ (count' ≤ count + steps)%nat ∧
    take count' ranges' = take count ranges ++ new ∧ Forall (clipped lo hi) new ∧
    (∀ a, covered new a ↔ covered rs a ∧ lo ≤ a < hi).
Proof.
  intros Hlh. revert index ranges count.
  induction steps as [|n IH]; intros index ranges count Hi Hc rs Hnn Hok.
  { exists ranges, count, []. unfold rs. rewrite app_nil_r.
    split_and!; [done..|lia|done|done|]. intros a. simpl. autorewrite with covered. tauto. }
  destruct (lookup_lt_is_Some_2 info_reserved index) as [r Hr]; [lia|].
  assert (Hrs : rs = r :: take n (drop (S index) info_reserved)).
  { unfold rs. by rewrite (drop_S _ r) by done. }
  rewrite Hrs in *. clear rs Hrs.
  apply Forall_cons in Hnn as [Hn0 Hnn]. apply Forall_cons in Hok as [Ho0 Hok].
  simpl. rewrite (aread_ok _ _ _ Hr). simpl.
  destruct (append_clipped_range_spec ranges count lo hi r.(rg_base) r.(rg_size))
    as (r1 & c1 & n1 & -> & Hl1 & Hc1 & Ht1 & Hf1 & Hcov1); [done|lia|done..|].
  simpl.
  destruct (IH (S index) r1 c1) as (r2 & c2 & n2 & -> & Hl2 & Hc2 & Ht2 & Hf2 & Hcov2);
    [lia|lia|done..|].
  exists r2, c2, (n1 ++ n2). split_and!; [done|lia|lia| | |].
  - by rewrite Ht2, Ht1, (assoc_L (++)).
  - by apply Forall_app_2.
  - intros a. autorewrite with covered. rewrite Hcov1, Hcov2.
    destruct r. simpl. tauto.
Qed.

Lemma clip_reserved_invalid info_reserved steps index lo hi ranges count :
  lo < hi → (index + steps ≤ length info_reserved)%nat → (count + steps ≤ length ranges)%nat →
  let rs := take steps (drop index info_reserved) in
  Forall (λ r, 0 ≤ r.(rg_size)) rs →
  ¬ Forall (λ r, r.(rg_size) = 0 ∨ rg_end r ≤ UINT64_MAX) rs →
  ∃ ranges' count',
    clip_reserved info_reserved steps index lo hi ranges count =
      Done (BOOT_MEMORY_STATUS_INVALID, ranges', count').
Proof.
  intros Hlh. revert index ranges count.
  induction steps as [|n IH]; intros index ranges count Hi Hc rs Hnn Hok.
  { destruct Hok. constructor. }
  destruct (lookup_lt_is_Some_2 info_reserved index) as [r Hr]; [lia|].
  assert (Hrs : rs = r :: take n (drop (S index) info_reserved)).
  { unfold rs. by rewrite (drop_S _ r) by done. }
  rewrite Hrs in *. clear rs Hrs. apply Forall_cons in Hnn as [Hn0 Hnn].
  rewrite Forall_cons in Hok. simpl. rewrite (aread_ok _ _ _ Hr). simpl.
  destruct (decide (r.(rg_size) = 0 ∨ rg_end r ≤ UINT64_MAX)) as [Hr0|Hr0].
  - destruct (append_clipped_range_spec ranges count lo hi r.(rg_base) r.(rg_size))
      as (r1 & c1 & n1 & -> & Hl1 & Hc1 & _); [done|lia|done..|].
    simpl. apply IH; [lia|lia|done|tauto].
  - rewrite append_clipped_range_invalid by range_lia. simpl. eauto.
Qed.

(** ** Gaps *)

Lemma emit_gaps_spec hi reserved steps index usable uc cursor :
  hi ≤ UINT64_MAX → 0 ≤ cursor → cursor ≤ hi →
  (index + steps ≤ length reserved)%nat → (uc + steps ≤ length usable)%nat →
  let rs := take steps (drop index reserved) in
  merged cursor hi rs →
  ∃ usable' uc' cursor' new,
    emit_gaps reserved steps index usable uc cursor = Done (usable', uc', cursor') ∧
    length usable' = length usable ∧ (uc' ≤ uc + steps)%nat ∧
    cursor ≤ cursor' ≤ hi ∧
    take uc' usable' = take uc usable ++ new ∧
    Forall (clipped cursor cursor') new ∧ StronglySorted ordered new ∧
    (∀ a, covered rs a → cursor ≤ a < cursor') ∧
    (∀ a, covered new a ↔ cursor ≤ a < cursor' ∧ ¬ covered rs a).
Proof.
  intros Hhi. revert index usable uc cursor.
  induction steps as [|n IH]; intros index usable uc cursor H0 Hch Hi Hu rs [Hs Hcl].
  { exists usable, uc, cursor, []. unfold rs. simpl. rewrite app_nil_r.
    split_and!; [done..|lia|lia|lia|done|done|constructor| |];
      intros a; autorewrite with covered; [tauto|lia]. }
  destruct (lookup_lt_is_Some_2 reserved index) as [r Hr]; [lia|].
  assert (Hrs : rs = r :: take n (drop (S index) reserved)).
  { unfold rs. by rewrite (drop_S _ r) by done. }
  rewrite Hrs in *. clear rs Hrs.
  apply StronglySorted_cons in Hs as [Hgap Hs]. apply Forall_cons in Hcl as [Hr0 Hcl].
  simpl. rewrite (aread_ok _ _ _ Hr). simpl. rewrite u64_small by range_lia.
  change (rg_base r + rg_size r) with (rg_end r).
  set (rs := take n (drop (S index) reserved)) in *.
  assert (Hm : merged (rg_end r) hi rs).
  { split; [done|]. rewrite Forall_forall in Hgap, Hcl |- *. intros x Hx.
    specialize (Hgap x Hx). specialize (Hcl x Hx). range_lia. }
  assert (Hbelow : ∀ a, covered rs a → rg_end r < a).
  { intros a [x [Hx Ha]]%Exists_exists. rewrite Forall_forall in Hgap.
    specialize (Hgap x Hx). range_lia. }
  case_decide as Hcur.
  - rewrite u64_small by range_lia. rewrite awrite_ok by lia. simpl.
    destruct (IH (S index) (<[uc:=mk_range cursor (rg_base r - cursor)]> usable) (S uc)
                (rg_end r))
      as (u' & uc' & c' & new & -> & Hl & Huc & Hc' & Htk & Hf & Hso & Hin & Hcov);
      [range_lia..|lia|rewrite length_insert; lia|done|].
    rewrite length_insert in Hl. rewrite take_insert_last in Htk by lia.
    eexists u', uc', c', (_ :: new). split_and!; [done|done|lia|range_lia..| | | | |].
    + by rewrite Htk, <-(assoc_L (++)).
    + constructor; [range_lia|]. eapply Forall_impl; [exact Hf|].
      intros x. range_lia.
    + constructor; [done|]. eapply Forall_impl; [exact Hf|]. intros x. range_lia.
    + intros a. autorewrite with covered. intros [Ha|Ha]; [|specialize (Hin a Ha)]; range_lia.
    + intros a. autorewrite with covered. rewrite Hcov. specialize (Hbelow a).
      assert (in_range (mk_range cursor (rg_base r - cursor)) a ↔ cursor ≤ a < rg_base r)
        as -> by range_lia.
      destruct (decide (rg_end r ≤ a)).
      * assert (¬ in_range r a) by range_lia. intuition range_lia.
      * assert (¬ covered rs a) by (intros ?%Hbelow; lia). intuition range_lia.
  - simpl.
    destruct (IH (S index) usable uc (rg_end r))
      as (u' & uc' & c' & new & -> & Hl & Huc & Hc' & Htk & Hf & Hso & Hin & Hcov);
      [range_lia..|lia|lia|done|].
    exists u', uc', c', new. split_and!; [done|done|lia|range_lia..|done| |done| |].
    + eapply Forall_impl; [exact Hf|]. intros x. range_lia.
    + intros a. autorewrite with covered. intros [Ha|Ha]; [|specialize (Hin a Ha)]; range_lia.
    + intros a. autorewrite with covered. rewrite Hcov. specialize (Hbelow a).
      destruct (decide (rg_end r ≤ a)).
      * assert (¬ in_range r a) by range_lia. intuition range_lia.
      * assert (¬ covered rs a) by (intros ?%Hbelow; lia). intuition range_lia.
Qed.

(** ** The whole build *)
Section build.
Context (junk : dtb_memory_range) (info : dtb_boot_info).
Context (kernel_start kernel_end dtb_address : Z).

Let lo := info.(bi_memory).(rg_base).
Let hi := rg_end info.(bi_memory).
Let rs := take info.(bi_reserved_count) info.(bi_reserved).

(** The C types of the arguments: unsigned words and the declared array. *)
Definition build_typed : Prop :=
  0 ≤ lo ∧ 0 ≤ info.(bi_memory).(rg_size) ∧ 0 ≤ kernel_start ∧ 0 ≤ kernel_end ∧
  0 ≤ dtb_address ∧ 0 ≤ info.(bi_dtb_size) ∧
  length info.(bi_reserved) = DTB_MAX_RESERVED_RANGES ∧
  Forall (λ r, 0 ≤ r.(rg_base) ∧ 0 ≤ r.(rg_size)) info.(bi_reserved).

(** The inputs the builder accepts. *)
Definition build_accepts : Prop :=
  info.(bi_memory).(rg_size) ≠ 0 ∧
  (info.(bi_reserved_count) ≤ DTB_MAX_RESERVED_RANGES)%nat ∧
  hi ≤ UINT64_MAX ∧ kernel_start < kernel_end ∧ lo ≤ kernel_start ∧ kernel_end ≤ hi ∧
  info.(bi_dtb_size) ≠ 0 ∧ dtb_address + info.(bi_dtb_size) ≤ UINT64_MAX ∧
  Forall (λ r, r.(rg_size) = 0 ∨ rg_end r ≤ UINT64_MAX) rs.

(** Bytes of memory that somebody already owns at boot. *)
Definition occupied (a : Z) : Prop :=
  covered rs a ∨ kernel_start ≤ a < kernel_end ∨
  dtb_address ≤ a < dtb_address + info.(bi_dtb_size).

#[export] Instance occupied_dec a : Decision (occupied a).
Proof. unfold occupied. apply _. Defined.

Definition layout_exact (l : boot_memory_layout) : Prop :=
  let usable := take l.(bl_usable_count) l.(bl_usable) in
  let reserved := take l.(bl_reserved_count) l.(bl_reserved) in
  (0 < l.(bl_usable_count) ≤ BOOT_MEMORY_MAX_USABLE_RANGES)%nat ∧
  length l.(bl_usable) = BOOT_MEMORY_MAX_USABLE_RANGES ∧
  length l.(bl_reserved) = BOOT_MEMORY_MAX_RESERVED_RANGES ∧
  Forall (clipped lo hi) usable ∧ StronglySorted ordered usable ∧
  (∀ a, covered usable a ↔ lo ≤ a < hi ∧ ¬ occupied a) ∧
  Forall (clipped lo hi) reserved ∧ StronglySorted gap_lt reserved ∧
  (∀ a, covered reserved a ↔ lo ≤ a < hi ∧ occupied a).

Lemma reserved_nonneg : build_typed → Forall (λ r, 0 ≤ r.(rg_size)) rs.
Proof.
  intros (_ & _ & _ & _ & _ & _ & _ & Hf). apply Forall_take.
  eapply Forall_impl; [exact Hf|]. by intros r [_ ?].
Qed.

(** The three clipping stages together collect exactly the occupied bytes. *)
Lemma clip_all :
  build_typed → build_accepts →
  ∃ c1 n1 c2 n2 c3 n3,
    clip_reserved info.(bi_reserved) info.(bi_reserved_count) 0 lo hi
      (replicate BOOT_MEMORY_MAX_RESERVED_RANGES junk) 0 =
      Done (BOOT_MEMORY_STATUS_OK, c1, n1) ∧
    append_clipped_range c1 n1 lo hi kernel_start (kernel_end - kernel_start) =
      Done (BOOT_MEMORY_STATUS_OK, c2, n2) ∧
    append_clipped_range c2 n2 lo hi dtb_address info.(bi_dtb_size) =
      Done (BOOT_MEMORY_STATUS_OK, c3, n3) ∧
    length c3 = BOOT_MEMORY_MAX_RESERVED_RANGES ∧
    (n3 ≤ BOOT_MEMORY_MAX_RESERVED_RANGES)%nat ∧
    Forall (clipped lo hi) (take n3 c3) ∧
    (∀ a, covered (take n3 c3) a ↔ lo ≤ a < hi ∧ occupied a).
Proof.
  intros Ht (Hsz & Hcnt & Hhi & Hk & Hk1 & Hk2 & Hd & Hd2 & Hrs).
  pose proof (reserved_nonneg Ht) as Hnn.
  destruct Ht as (H0 & Hs0 & _ & _ & Hd0 & Hd1 & Hlen & _).
  assert (lo < hi) by (unfold lo, hi; range_lia).
  unfold BOOT_MEMORY_MAX_RESERVED_RANGES.
  destruct (clip_reserved_spec info.(bi_reserved) info.(bi_reserved_count) 0 lo hi
    (replicate (DTB_MAX_RESERVED_RANGES + 2) junk) 0)
    as (c1 & n1 & w1 & H1 & L1 & B1 & T1 & F1 & C1);
    [done|lia|rewrite length_replicate; lia|done|done|].
  rewrite length_replicate in L1.
  destruct (append_clipped_range_spec c1 n1 lo hi kernel_start (kernel_end - kernel_start))
    as (c2 & n2 & w2 & H2 & L2 & B2 & T2 & F2 & C2); [done|lia|lia|right; lia|].
  destruct (append_clipped_range_spec c2 n2 lo hi dtb_address info.(bi_dtb_size))
    as (c3 & n3 & w3 & H3 & L3 & B3 & T3 & F3 & C3); [done|lia|lia|right; lia|].
  exists c1, n1, c2, n2, c3, n3. split_and!; [done..|lia|lia| |].
  - rewrite T3, T2, T1. by repeat apply Forall_app_2.
  - intros a. rewrite T3, T2, T1. autorewrite with covered. rewrite C1, C2, C3.
    rewrite ?take_0, ?drop_0. unfold occupied, in_range, rg_end. simpl.
    autorewrite with covered. fold rs.
    replace (kernel_start + (kernel_end - kernel_start)) with kernel_end by lia. tauto.
Qed.

Lemma build_exact :
  build_typed → build_accepts →
  (∃ l, boot_memory_build junk info kernel_start kernel_end dtb_address =
          Done (BOOT_MEMORY_STATUS_OK, Some l) ∧ layout_exact l) ∨
  (boot_memory_build junk info kernel_start kernel_end dtb_address =
     Done (BOOT_MEMORY_STATUS_EMPTY, None) ∧
   ∀ a, lo ≤ a < hi → occupied a).
Proof.
  intros Ht Ha. destruct (clip_all Ht Ha)
    as (c1 & n1 & c2 & n2 & c3 & n3 & H1 & H2 & H3 & L3 & B3 & F3 & C3).
  destruct Ht as (H0 & Hs0 & _ & _ & Hd0 & Hd1 & _).
  destruct Ha as (Hsz & Hcnt & Hhi & Hk & Hk1 & Hk2 & Hd & Hd2 & _).
  assert (Hlh : lo < hi) by (unfold lo, hi; range_lia).
  unfold boot_memory_build. fold lo.
  rewrite decide_False by lia.
  assert (range_end lo (rg_size (bi_memory info)) = Some hi) as ->
    by (by apply range_end_Some).
  rewrite decide_False by lia.
  assert (range_end dtb_address (bi_dtb_size info) =
          Some (dtb_address + bi_dtb_size info)) as -> by (by apply range_end_Some).
  rewrite H1. run. rewrite (decide_False (P := _ ≠ _)) by tauto.
  rewrite H2. run. rewrite (decide_False (P := _ ≠ _)) by tauto.
  replace (dtb_address + bi_dtb_size info - dtb_address) with (bi_dtb_size info) by lia.
  rewrite H3. run. rewrite (decide_False (P := _ ≠ _)) by tauto.
  destruct (sort_ranges_spec c3 n3) as (c4 & -> & L4 & P4 & S4); [lia|]. run.
  destruct (coalesce_spec lo hi c4 n3 0 (replicate BOOT_MEMORY_MAX_RESERVED_RANGES junk) 0)
    as (res & rc & -> & Lr & Br & Mr & Cr);
    [done|done|lia|rewrite length_replicate; lia|by rewrite drop_0| |split; constructor|constructor|].
  { rewrite drop_0. by rewrite P4. }
  rewrite length_replicate in Lr. run.
  assert (Hcov : ∀ a, covered (take rc res) a ↔ lo ≤ a < hi ∧ occupied a).
  { intros a. rewrite Cr, take_0, drop_0. autorewrite with covered.
    rewrite (covered_perm _ _ _ P4), C3. tauto. }
  destruct (emit_gaps_spec hi res rc 0 (replicate BOOT_MEMORY_MAX_USABLE_RANGES junk) 0 lo)
    as (us & uc & cur & new & -> & Lu & Bu & Hcur & Tu & Fu & Su & Iu & Cu);
    [done|done|lia|lia|rewrite length_replicate; unfold BOOT_MEMORY_MAX_USABLE_RANGES; lia
    |by rewrite drop_0|].
  rewrite length_replicate in Lu. rewrite drop_0 in Cu, Iu. rewrite take_0 in Tu.
  simpl in Tu. run.
  assert (uc ≤ BOOT_MEMORY_MAX_RESERVED_RANGES)%nat by lia.
  set (tail := if decide (cur < hi) then [mk_range cur (hi - cur)] else []).
  assert (Htail : ∃ us' uc',
    (if decide (cur < hi) then
       usable' ← awrite us uc (mk_range cur (hi - cur)); Done (usable', S uc)
     else Done (us, uc)) = Done (us', uc') ∧
    length us' = BOOT_MEMORY_MAX_USABLE_RANGES ∧
    (uc' ≤ BOOT_MEMORY_MAX_USABLE_RANGES)%nat ∧ take uc' us' = new ++ tail).
  { unfold tail. case_decide.
    - rewrite awrite_ok by (unfold BOOT_MEMORY_MAX_USABLE_RANGES in *; lia). simpl.
      eexists _, _. split; [done|].
      rewrite length_insert, take_insert_last, Tu
        by (unfold BOOT_MEMORY_MAX_USABLE_RANGES in *; lia).
      split_and!; [done| |done]. unfold BOOT_MEMORY_MAX_USABLE_RANGES in *. lia.
    - exists us, uc. rewrite app_nil_r. split_and!; [done..| |done].
      unfold BOOT_MEMORY_MAX_USABLE_RANGES in *. lia. }
  destruct Htail as (us' & uc' & -> & Lu' & Bu' & Tu'). run.
  assert (Huse : ∀ a, covered (take uc' us') a ↔ lo ≤ a < hi ∧ ¬ occupied a).
  { intros a. rewrite Tu'. autorewrite with covered. rewrite Cu.
    specialize (Iu a). specialize (Hcov a). unfold tail.
    destruct (decide (lo ≤ a < hi)) as [Hin|Hin];
      [|case_decide; autorewrite with covered; range_lia].
    destruct (decide (occupied a)) as [Ho|Ho].
    - assert (covered (take rc res) a) as Hc by tauto. specialize (Iu Hc).
      case_decide; autorewrite with covered; unfold in_range, rg_end; simpl; intuition lia.
    - assert (¬ covered (take rc res) a) by tauto. destruct (decide (a < cur));
      case_decide; autorewrite with covered; unfold in_range, rg_end; simpl; intuition lia. }
  case_decide as Hz.
  - right. split; [done|]. intros a Har. subst uc'.
    specialize (Huse a). rewrite take_0, covered_nil in Huse.
    destruct (decide (occupied a)); tauto.
  - left. eexists. split; [done|]. unfold layout_exact. simpl.
    destruct Mr as [Sr Fr]. split_and!; [lia|lia|done|done| | |done|done|done|done].
    + rewrite Tu'. apply Forall_app_2.
      * eapply Forall_impl; [exact Fu|]. intros x. range_lia.
      * unfold tail. case_decide; [|done]. apply Forall_singleton. range_lia.
    + rewrite Tu'. apply StronglySorted_app. split_and!; [|done|].
      * intros x y Hx Hy. rewrite Forall_forall in Fu. specialize (Fu x Hx).
        unfold tail in Hy. case_decide; [|by apply not_elem_of_nil in Hy].
        apply list_elem_of_singleton in Hy. subst y. range_lia.
      * unfold tail. case_decide; repeat constructor.
Qed.

(** C11.  On accepted input the builder stays inside its arrays, and either
    returns a layout whose usable ranges are sorted, disjoint, non-empty and
    cover exactly the bytes of memory that nobody occupies (the reserved
    table covering exactly the others), or reports EMPTY because no byte is
    free. *)
Theorem boot_memory_build_exact :
  build_typed → build_accepts →
  (∃ l, boot_memory_build junk info kernel_start kernel_end dtb_address =
          Done (BOOT_MEMORY_STATUS_OK, Some l) ∧ layout_exact l) ∨
  (boot_memory_build junk info kernel_start kernel_end dtb_address =
     Done (BOOT_MEMORY_STATUS_EMPTY, None) ∧
   ∀ a, lo ≤ a < hi → occupied a).
Proof. exact build_exact. Qed.

(** C27.  Every input that is not accepted is refused with INVALID and no
    layout is published, whatever the arguments are. *)
Theorem boot_memory_build_refuses :
  build_typed → ¬ build_accepts →
  boot_memory_build junk info kernel_start kernel_end dtb_address =
    Done (BOOT_MEMORY_STATUS_INVALID, None).
Proof.
  intros Ht Hna. pose proof (reserved_nonneg Ht) as Hnn.
  destruct Ht as (H0 & Hs0 & _ & _ & Hd0 & Hd1 & Hlen & _).
  unfold boot_memory_build. fold lo. case_decide as Hc1; [done|].
  unfold range_end at 1. case_decide as Hc2; [done|]. fold (rg_end (bi_memory info)).
  change (lo + rg_size (bi_memory info)) with hi.
  case_decide as Hc3; [done|]. unfold range_end at 1. case_decide as Hc4; [done|].
  assert (lo < hi) by (unfold lo, hi; range_lia).
  destruct (clip_reserved_invalid info.(bi_reserved) info.(bi_reserved_count) 0 lo hi
    (replicate BOOT_MEMORY_MAX_RESERVED_RANGES junk) 0) as (c1 & n1 & ->);
    [done|lia| |done| |done].
  - rewrite length_replicate. unfold BOOT_MEMORY_MAX_RESERVED_RANGES. lia.
  - rewrite drop_0. intros Hok. apply Hna. unfold build_accepts. fold rs in Hok.
    unfold hi in *. unfold lo, rg_end in *. split_and!; try done; try mlia; try lia.
Qed.
End build.

Definition demo_info : dtb_boot_info := {|
  bi_memory := mk_range 0x80000000 0x8000000;
  bi_dtb_size := 0x2000;
  bi_reserved_count := 1;
  bi_reserved := mk_range 0x80000000 0x80000 :: replicate 15 (mk_range 0 0) |}.

Lemma demo_typed : build_typed demo_info 0x80200000 0x80400000 0x87e00000.
Proof. unfold build_typed, demo_info. simpl. split_and!; try done. repeat constructor; done. Qed.

Lemma demo_build_accepts : build_accepts demo_info 0x80200000 0x80400000 0x87e00000.
Proof.
  unfold build_accepts, demo_info, rg_end. simpl.
  split_and!; try done; try (unfold DTB_MAX_RESERVED_RANGES; lia).
  apply Forall_cons. split; [right; done|constructor].
Qed.
(** The builder on a QEMU [virt] style memory node. *)
Lemma boot_memory_build_exact_witness :
  build_accepts demo_info 0x80200000 0x80400000 0x87e00000 ∧
  ∃ l, boot_memory_build (mk_range 0 0) demo_info 0x80200000 0x80400000 0x87e00000 =
         Done (BOOT_MEMORY_STATUS_OK, Some l) ∧
       layout_exact demo_info 0x80200000 0x80400000 0x87e00000 l.
Proof.
  pose proof demo_build_accepts as Ha.
  split; [exact Ha|].
  destruct (boot_memory_build_exact (mk_range 0 0) demo_info 0x80200000 0x80400000 0x87e00000
    demo_typed Ha) as [H|[H _]]; [exact H|].
  vm_compute in H. discriminate H.
Defined.

Lemma boot_memory_build_refuses_witness :
  boot_memory_build (mk_range 0 0) demo_info 0x80400000 0x80200000 0x87e00000 =
    Done (BOOT_MEMORY_STATUS_INVALID, None).
Proof.
  apply (boot_memory_build_refuses (mk_range 0 0) demo_info 0x80400000 0x80200000 0x87e00000).
  - unfold build_typed, demo_info. simpl. split_and!; try done. repeat constructor; done.
  - unfold build_accepts. intros (_ & _ & _ & H & _). discriminate H.
Defined.
