(* ===== verification/Heap.v ===== *)
(** * The kernel heap as its clients see it ([include/kernel/heap.h])

    The components that own growing storage call [kernel_heap_allocate_zeroed],
    [kernel_heap_resize] and [kernel_heap_release].  What they rely on is the
    header's contract: a call answers with a status, and a failed call leaves
    the old allocation and the output alone.  The class states that interface;
    clients are proved against every instance of it. *)
From S2P Require Import Prelude.
#[local] Open Scope Z_scope.

Module Heap.

Inductive kernel_heap_status :=
  | KERNEL_HEAP_STATUS_OK
  | KERNEL_HEAP_STATUS_INVALID
  | KERNEL_HEAP_STATUS_EMPTY
  | KERNEL_HEAP_STATUS_OVERFLOW
  | KERNEL_HEAP_STATUS_DOUBLE_FREE
  | KERNEL_HEAP_STATUS_STATE.

#[export] Instance kernel_heap_status_eq_dec : EqDecision kernel_heap_status.
Proof. solve_decision. Defined.

(** [heap_allocate_zeroed h bytes]: the status, the address of the new object
    (meaningful when the status is OK) and the heap after the call.
    [heap_resize h bytes]: the status and the heap after the call; the caller
    keeps the contents. *)
Class KernelHeap (H : Type) := {
  heap_allocate_zeroed : H → Z → kernel_heap_status * Z * H;
  heap_resize : H → Z → kernel_heap_status * H;
  heap_release : H → H;
}.

(** A heap that hands out [budget] more bytes and then reports EMPTY. *)
Record budget_heap := { budget : Z; next_address : Z }.
#[export] Instance budget_heap_ops : KernelHeap budget_heap := {
  heap_allocate_zeroed h bytes :=
    if decide (bytes ≤ h.(budget)) then
      (KERNEL_HEAP_STATUS_OK, h.(next_address),
       {| budget := h.(budget) - bytes; next_address := h.(next_address) + bytes |})
    else (KERNEL_HEAP_STATUS_EMPTY, 0, h);
  heap_resize h bytes :=
    if decide (bytes ≤ h.(budget)) then
      (KERNEL_HEAP_STATUS_OK,
       {| budget := h.(budget) - bytes; next_address := h.(next_address) |})
    else (KERNEL_HEAP_STATUS_EMPTY, h);
  heap_release h := h;
}.

(** The same heap seen by components that share objects by address: an
    allocation answers with an address that is not zero and not in use, and
    releasing an object makes exactly its address free again. *)
Class ObjectHeap (H : Type) := {
  heap_allocate : H → Z → kernel_heap_status * Z * H;
  heap_free : H → Z → H;
  heap_live : H → gset Z;
  heap_allocate_ok h bytes p h' :
    heap_allocate h bytes = (KERNEL_HEAP_STATUS_OK, p, h') →
    p ≠ 0 ∧ p ∉ heap_live h ∧ heap_live h' = {[p]} ∪ heap_live h;
  heap_allocate_failed h bytes st p h' :
    heap_allocate h bytes = (st, p, h') → st ≠ KERNEL_HEAP_STATUS_OK → heap_live h' = heap_live h;
  heap_free_live h p : heap_live (heap_free h p) = heap_live h ∖ {[p]};
}.

(** A heap of at most [oh_limit] objects at consecutive addresses. *)
Record object_heap := { oh_limit : nat; oh_live : gset Z }.
Definition address_above (X : gset Z) : Z := 16 + set_fold Z.max 0 X.
Lemma address_above_spec X : address_above X ≠ 0 ∧ address_above X ∉ X.
Proof.
  assert (H : 0 ≤ set_fold Z.max 0 X ∧ ∀ x, x ∈ X → x ≤ set_fold Z.max 0 X).
  { apply (set_fold_ind_L (λ b X, 0 ≤ b ∧ ∀ x, x ∈ X → x ≤ b)); [set_solver|].
    intros x Y b _ [Hb HY]. split; [lia|]. intros y [->%elem_of_singleton|Hy]%elem_of_union; [lia|].
    specialize (HY y Hy). lia. }
  unfold address_above. split; [lia|]. intros Hin. destruct H as [_ H]. specialize (H _ Hin). lia.
Qed.
#[local] Obligation Tactic := idtac.
#[export] Program Instance object_heap_ops : ObjectHeap object_heap := {
  heap_allocate h bytes :=
    if decide (size h.(oh_live) < h.(oh_limit))%nat then
      (KERNEL_HEAP_STATUS_OK, address_above h.(oh_live), {| oh_limit := h.(oh_limit); oh_live := {[address_above h.(oh_live)]} ∪ h.(oh_live) |})
    else (KERNEL_HEAP_STATUS_EMPTY, 0, h);
  heap_free h p := {| oh_limit := h.(oh_limit); oh_live := h.(oh_live) ∖ {[p]} |};
  heap_live := oh_live;
}.
Next Obligation.
  intros h bytes p h'. simpl. destruct (decide _); intros H; [|done]. injection H as <- <-.
  destruct (address_above_spec (oh_live h)). by split_and!.
Qed.
Next Obligation.
  intros h bytes st p h'. simpl. destruct (decide _); intros H; by injection H as <- <- <-.
Qed.
Next Obligation. done. Qed.

End Heap.
