(* ===== verification/Vma.v ===== *)
(** * Virtual memory areas ([mm/vma.c], [include/kernel/vma.h])

    A [kernel_vma_set] is the logical address space of a process: a growable
    array of half-open intervals kept sorted by address.  The array is modelled
    as the C code has it, [vs_capacity] slots of which the first [vs_count] are
    live (the null pointer is the array of length zero); every slot access is
    bounds checked, so an operation that returns has not left its storage.
    [void *] and attachment pointers are addresses, 0 being the null pointer.

    Two pieces of state outside the set are passed explicitly in [world]: the
    heap that backs the array, and the log of the calls made to
    [kernel_shm_attachment_open]/[close] of the SysV shared memory component.
    The [COST_*] macros only feed diagnostics and have no counterpart. *)
From S2P Require Import Prelude Heap.
#[local] Open Scope Z_scope.
Import Heap.

Module Vma.

Definition KERNEL_VMA_INITIAL_CAPACITY : nat := 8.
Definition KERNEL_VMA_ALL_PERMISSIONS : Z := 7.
Definition KERNEL_VMA_LOCKED : Z := 1.
Definition KERNEL_VMA_LOCK_ONFAULT : Z := 2.
Definition KERNEL_VMA_LOCK_MASK : Z := 3.
Definition KERNEL_VMA_DONTFORK : Z := 4.
Definition KERNEL_VMA_WIPEONFORK : Z := 8.
Definition KERNEL_VMA_ALL_FLAGS : Z := 15.
(** [BOAROS_PAGE_MASK] of the RV64 build ([-DBOAROS_PAGE_SHIFT=12]). *)
Definition BOAROS_PAGE_MASK : Z := 4095.
Definition sizeof_vma : Z := 64.
Definition sizeof_vma_set : Z := 56.

Inductive kernel_vma_status :=
  | KERNEL_VMA_STATUS_OK
  | KERNEL_VMA_STATUS_INVALID_ARGUMENT
  | KERNEL_VMA_STATUS_NO_MEMORY
  | KERNEL_VMA_STATUS_CONFLICT
  | KERNEL_VMA_STATUS_NOT_FOUND
  | KERNEL_VMA_STATUS_ACCESS
  | KERNEL_VMA_STATUS_STATE.

Inductive kernel_vma_kind :=
  | KERNEL_VMA_KIND_ANONYMOUS
  | KERNEL_VMA_KIND_FILE_PRIVATE
  | KERNEL_VMA_KIND_ELF_PRIVATE
  | KERNEL_VMA_KIND_ANON_SHARED
  | KERNEL_VMA_KIND_FILE_SHARED
  | KERNEL_VMA_KIND_SYSV_SHM.

Inductive kernel_vma_role :=
  | KERNEL_VMA_ROLE_NONE
  | KERNEL_VMA_ROLE_ELF
  | KERNEL_VMA_ROLE_VDSO
  | KERNEL_VMA_ROLE_STACK
  | KERNEL_VMA_ROLE_HEAP
  | KERNEL_VMA_ROLE_MMAP
  | KERNEL_VMA_ROLE_SYSV_SHM.

Inductive kernel_vma_fault_policy :=
  | KERNEL_VMA_FAULT_RESIDENT_REQUIRED
  | KERNEL_VMA_FAULT_DEMAND_ZERO
  | KERNEL_VMA_FAULT_FILE_PRIVATE
  | KERNEL_VMA_FAULT_ELF
  | KERNEL_VMA_FAULT_ANON_SHARED
  | KERNEL_VMA_FAULT_FILE_SHARED.

Inductive kernel_vma_edit_kind :=
  | KERNEL_VMA_EDIT_REMOVE
  | KERNEL_VMA_EDIT_REPLACE
  | KERNEL_VMA_EDIT_PROTECT
  | KERNEL_VMA_EDIT_FLAGS.

#[export] Instance kernel_vma_status_eq_dec : EqDecision kernel_vma_status.
Proof. solve_decision. Defined.
#[export] Instance kernel_vma_kind_eq_dec : EqDecision kernel_vma_kind.
Proof. solve_decision. Defined.
#[export] Instance kernel_vma_role_eq_dec : EqDecision kernel_vma_role.
Proof. solve_decision. Defined.
#[export] Instance kernel_vma_fault_policy_eq_dec : EqDecision kernel_vma_fault_policy.
Proof. solve_decision. Defined.
#[export] Instance kernel_vma_edit_kind_eq_dec : EqDecision kernel_vma_edit_kind.
Proof. solve_decision. Defined.

Record kernel_vma := mk_vma {
  vm_start : Z;
  vm_end : Z;
  vm_backing_offset : Z;
  vm_permissions : Z;
  vm_maximum_permissions : Z;
  vm_kind : kernel_vma_kind;
  vm_role : kernel_vma_role;
  vm_fault_policy : kernel_vma_fault_policy;
  vm_flags : Z;
  vm_backing : Z;
  vm_shm_attachment : Z;
}.

#[export] Instance kernel_vma_eq_dec : EqDecision kernel_vma.
Proof. solve_decision. Defined.

(** Field assignments of the source. *)
Definition with_end (v : kernel_vma) (e : Z) : kernel_vma :=
  mk_vma v.(vm_start) e v.(vm_backing_offset) v.(vm_permissions)
    v.(vm_maximum_permissions) v.(vm_kind) v.(vm_role) v.(vm_fault_policy)
    v.(vm_flags) v.(vm_backing) v.(vm_shm_attachment).
Definition with_start_offset (v : kernel_vma) (s o : Z) : kernel_vma :=
  mk_vma s v.(vm_end) o v.(vm_permissions)
    v.(vm_maximum_permissions) v.(vm_kind) v.(vm_role) v.(vm_fault_policy)
    v.(vm_flags) v.(vm_backing) v.(vm_shm_attachment).
Definition with_permissions (v : kernel_vma) (p : Z) : kernel_vma :=
  mk_vma v.(vm_start) v.(vm_end) v.(vm_backing_offset) p
    v.(vm_maximum_permissions) v.(vm_kind) v.(vm_role) v.(vm_fault_policy)
    v.(vm_flags) v.(vm_backing) v.(vm_shm_attachment).
Definition with_flags (v : kernel_vma) (f : Z) : kernel_vma :=
  mk_vma v.(vm_start) v.(vm_end) v.(vm_backing_offset) v.(vm_permissions)
    v.(vm_maximum_permissions) v.(vm_kind) v.(vm_role) v.(vm_fault_policy)
    f v.(vm_backing) v.(vm_shm_attachment).

(** The zero-initialised descriptor of [(struct kernel_vma_edit){...}]. *)
Definition vma_zero : kernel_vma :=
  mk_vma 0 0 0 0 0 KERNEL_VMA_KIND_ANONYMOUS KERNEL_VMA_ROLE_NONE
    KERNEL_VMA_FAULT_RESIDENT_REQUIRED 0 0 0.

(** [vs_this] is the address of the object, which edits compare against. *)
Record kernel_vma_set := mk_set {
  vs_this : Z;
  vs_heap : Z;
  vs_entries : list kernel_vma;
  vs_count : nat;
  vs_capacity : nat;
  vs_generation : Z;
  vs_total_bytes : Z;
  vs_data_bytes : Z;
  vs_locked_bytes : Z;
}.

Definition with_entries (s : kernel_vma_set) (es : list kernel_vma) (n : nat)
    : kernel_vma_set :=
  mk_set s.(vs_this) s.(vs_heap) es n s.(vs_capacity) s.(vs_generation)
    s.(vs_total_bytes) s.(vs_data_bytes) s.(vs_locked_bytes).
Definition with_storage (s : kernel_vma_set) (es : list kernel_vma) (cap : nat)
    : kernel_vma_set :=
  mk_set s.(vs_this) s.(vs_heap) es s.(vs_count) cap s.(vs_generation)
    s.(vs_total_bytes) s.(vs_data_bytes) s.(vs_locked_bytes).
Definition with_bytes (s : kernel_vma_set) (total data locked : Z) : kernel_vma_set :=
  mk_set s.(vs_this) s.(vs_heap) s.(vs_entries) s.(vs_count) s.(vs_capacity)
    s.(vs_generation) total data locked.
Definition bump_generation (s : kernel_vma_set) : kernel_vma_set :=
  mk_set s.(vs_this) s.(vs_heap) s.(vs_entries) s.(vs_count) s.(vs_capacity)
    (u64 (s.(vs_generation) + 1))
    s.(vs_total_bytes) s.(vs_data_bytes) s.(vs_locked_bytes).

Record kernel_vma_edit := mk_edit {
  ed_set : Z;
  ed_generation : Z;
  ed_start : Z;
  ed_end : Z;
  ed_permissions : Z;
  ed_flags : Z;
  ed_flags_mask : Z;
  ed_kind : kernel_vma_edit_kind;
  ed_replacement : kernel_vma;
}.

Record kernel_vma_remap := mk_remap {
  rm_set : Z;
  rm_generation : Z;
  rm_start : Z;
  rm_end : Z;
  rm_replacement : kernel_vma;
}.

(** [struct kernel_memory_limits]: the limits of the initiating task. *)
Record kernel_memory_limits := {
  ml_address_space : Z;
  ml_data_soft : Z;
  ml_data_hard : Z;
}.

Inductive shm_event :=
  | Attachment_open (attachment : Z)
  | Attachment_close (attachment : Z).

Record world (H : Type) := mk_world { w_heap : H; w_shm : list shm_event }.
Arguments mk_world {H} _ _.
Arguments w_heap {H} _.
Arguments w_shm {H} _.

(** ** Validity and accounting *)

Definition set_valid (set : kernel_vma_set) : Prop :=
  set.(vs_heap) ≠ 0 ∧
  ((set.(vs_entries) = [] ∧ set.(vs_count) = O ∧ set.(vs_capacity) = O) ∨
   (set.(vs_entries) ≠ [] ∧ set.(vs_capacity) ≠ O ∧
    (set.(vs_count) ≤ set.(vs_capacity))%nat)).

#[export] Instance set_valid_dec set : Decision (set_valid set).
Proof. unfold set_valid. apply _. Defined.

Definition kernel_vma_set_generation (set : kernel_vma_set) : outcome Z :=
  _ ← trap_if (¬ set_valid set); Done set.(vs_generation).
Definition kernel_vma_set_total_bytes (set : kernel_vma_set) : outcome Z :=
  _ ← trap_if (¬ set_valid set); Done set.(vs_total_bytes).
Definition kernel_vma_set_data_bytes (set : kernel_vma_set) : outcome Z :=
  _ ← trap_if (¬ set_valid set); Done set.(vs_data_bytes).
Definition kernel_vma_set_locked_bytes (set : kernel_vma_set) : outcome Z :=
  _ ← trap_if (¬ set_valid set); Done set.(vs_locked_bytes).

Definition private_data_mapping (vma : kernel_vma) : Prop :=
  vma.(vm_role) ≠ KERNEL_VMA_ROLE_STACK ∧
  (vma.(vm_kind) = KERNEL_VMA_KIND_ANONYMOUS ∨
   vma.(vm_kind) = KERNEL_VMA_KIND_FILE_PRIVATE ∨
   vma.(vm_kind) = KERNEL_VMA_KIND_ELF_PRIVATE).
#[export] Instance private_data_mapping_dec vma : Decision (private_data_mapping vma).
Proof. unfold private_data_mapping. apply _. Defined.

Definition kernel_vma_is_data (vma : kernel_vma) : Prop :=
  Z.land vma.(vm_permissions) 2 ≠ 0 ∧ private_data_mapping vma.
#[export] Instance kernel_vma_is_data_dec vma : Decision (kernel_vma_is_data vma).
Proof. unfold kernel_vma_is_data. apply _. Defined.

Definition is_locked (vma : kernel_vma) : Prop :=
  Z.land vma.(vm_flags) KERNEL_VMA_LOCKED ≠ 0.
#[export] Instance is_locked_dec vma : Decision (is_locked vma).
Proof. unfold is_locked. apply _. Defined.

Fixpoint recount_loop (entries : list kernel_vma) (steps i : nat)
    (total data locked : Z) : outcome (Z * Z * Z) :=
  match steps with
  | O => Done (total, data, locked)
  | S steps' =>
      v ← aread entries i;
      let length := u64 (v.(vm_end) - v.(vm_start)) in
      _ ← trap_if (length > UINT64_MAX - total);
      recount_loop entries steps' (S i)
        (total + length)
        (if decide (kernel_vma_is_data v) then u64 (data + length) else data)
        (if decide (is_locked v) then u64 (locked + length) else locked)
  end.

Definition recount_bytes (set : kernel_vma_set) : outcome kernel_vma_set :=
  '(total, data, locked) ← recount_loop set.(vs_entries) set.(vs_count) 0 0 0 0;
  Done (with_bytes set total data locked).

Fixpoint locked_range_loop (entries : list kernel_vma) (steps i : nat)
    (start rend bytes : Z) : outcome Z :=
  match steps with
  | O => Done bytes
  | S steps' =>
      v ← aread entries i;
      if decide (rend ≤ v.(vm_start)) then Done bytes
      else if decide (v.(vm_end) ≤ start ∨ ¬ is_locked v)
      then locked_range_loop entries steps' (S i) start rend bytes
      else
        let a := if decide (v.(vm_start) > start) then v.(vm_start) else start in
        let b := if decide (v.(vm_end) < rend) then v.(vm_end) else rend in
        locked_range_loop entries steps' (S i) start rend (u64 (bytes + (b - a)))
  end.

Definition kernel_vma_set_locked_range (set : kernel_vma_set) (start rend : Z) : outcome Z :=
  locked_range_loop set.(vs_entries) set.(vs_count) 0 start rend 0.

(** [vma_valid]; the C range checks on the three enumerations hold by typing. *)
Definition offset_overflows (vma : kernel_vma) : Prop :=
  vma.(vm_backing_offset) > UINT64_MAX - (vma.(vm_end) - vma.(vm_start)).
#[export] Instance offset_overflows_dec vma : Decision (offset_overflows vma).
Proof. unfold offset_overflows. apply _. Defined.

Definition vma_invalid (vma : kernel_vma) : Prop :=
  vma.(vm_end) ≤ vma.(vm_start) ∨
  Z.land vma.(vm_flags) (Z.lnot KERNEL_VMA_ALL_FLAGS) ≠ 0 ∨
  Z.land vma.(vm_flags) KERNEL_VMA_LOCK_MASK = KERNEL_VMA_LOCK_ONFAULT ∨
  Z.land vma.(vm_maximum_permissions) (Z.lnot KERNEL_VMA_ALL_PERMISSIONS) ≠ 0 ∨
  Z.land (Z.land vma.(vm_permissions) KERNEL_VMA_ALL_PERMISSIONS)
    (Z.lnot vma.(vm_maximum_permissions)) ≠ 0 ∨
  (vma.(vm_kind) ≠ KERNEL_VMA_KIND_SYSV_SHM ∧ vma.(vm_shm_attachment) ≠ 0) ∨
  (vma.(vm_kind) = KERNEL_VMA_KIND_ANONYMOUS ∧
   (vma.(vm_backing_offset) ≠ 0 ∨ vma.(vm_backing) ≠ 0 ∨
    vma.(vm_fault_policy) = KERNEL_VMA_FAULT_FILE_PRIVATE ∨
    vma.(vm_fault_policy) = KERNEL_VMA_FAULT_ELF ∨
    vma.(vm_fault_policy) = KERNEL_VMA_FAULT_ANON_SHARED)) ∨
  (vma.(vm_kind) = KERNEL_VMA_KIND_FILE_PRIVATE ∧
   (vma.(vm_backing) = 0 ∨
    vma.(vm_fault_policy) ≠ KERNEL_VMA_FAULT_FILE_PRIVATE ∨ offset_overflows vma)) ∨
  (vma.(vm_kind) = KERNEL_VMA_KIND_ELF_PRIVATE ∧
   (vma.(vm_backing) = 0 ∨
    vma.(vm_fault_policy) ≠ KERNEL_VMA_FAULT_ELF ∨ offset_overflows vma)) ∨
  (vma.(vm_kind) = KERNEL_VMA_KIND_ANON_SHARED ∧
   (vma.(vm_backing) = 0 ∨
    vma.(vm_fault_policy) ≠ KERNEL_VMA_FAULT_ANON_SHARED ∨
    Z.land vma.(vm_backing_offset) BOAROS_PAGE_MASK ≠ 0 ∨ offset_overflows vma)) ∨
  (vma.(vm_kind) = KERNEL_VMA_KIND_SYSV_SHM ∧
   (vma.(vm_backing) = 0 ∨ vma.(vm_shm_attachment) = 0 ∨
    vma.(vm_fault_policy) ≠ KERNEL_VMA_FAULT_ANON_SHARED ∨
    Z.land vma.(vm_backing_offset) BOAROS_PAGE_MASK ≠ 0 ∨ offset_overflows vma)) ∨
  (vma.(vm_kind) = KERNEL_VMA_KIND_FILE_SHARED ∧
   (vma.(vm_backing) = 0 ∨
    vma.(vm_fault_policy) ≠ KERNEL_VMA_FAULT_FILE_SHARED ∨ offset_overflows vma)).
#[export] Instance vma_invalid_dec vma : Decision (vma_invalid vma).
Proof. unfold vma_invalid. apply _. Defined.

Definition vma_valid (vma : kernel_vma) : Prop := ¬ vma_invalid vma.
#[export] Instance vma_valid_dec vma : Decision (vma_valid vma).
Proof. unfold vma_valid. apply _. Defined.

Definition can_merge (left right : kernel_vma) : Prop :=
  left.(vm_end) = right.(vm_start) ∧
  left.(vm_permissions) = right.(vm_permissions) ∧
  left.(vm_kind) = right.(vm_kind) ∧ left.(vm_role) = right.(vm_role) ∧
  left.(vm_fault_policy) = right.(vm_fault_policy) ∧
  left.(vm_flags) = right.(vm_flags) ∧ left.(vm_backing) = right.(vm_backing) ∧
  left.(vm_shm_attachment) = right.(vm_shm_attachment) ∧
  left.(vm_maximum_permissions) = right.(vm_maximum_permissions) ∧
  left.(vm_kind) ≠ KERNEL_VMA_KIND_SYSV_SHM ∧
  right.(vm_kind) ≠ KERNEL_VMA_KIND_SYSV_SHM ∧
  (left.(vm_kind) = KERNEL_VMA_KIND_ANONYMOUS ∨
   let left_size := u64 (left.(vm_end) - left.(vm_start)) in
   left.(vm_backing_offset) ≤ UINT64_MAX - left_size ∧
   left.(vm_backing_offset) + left_size = right.(vm_backing_offset)).
#[export] Instance can_merge_dec left right : Decision (can_merge left right).
Proof. unfold can_merge. apply _. Defined.

(** ** Queries *)

(** The binary search; [fuel] bounds the halvings. *)
Fixpoint lower_bound_loop (fuel : nat) (entries : list kernel_vma) (start : Z)
    (low high : nat) : outcome nat :=
  match fuel with
  | O => Fault Out_of_fuel
  | S fuel' =>
      if decide (low < high)%nat then
        let middle := (low + (high - low) / 2)%nat in
        v ← aread entries middle;
        if decide (v.(vm_start) < start)
        then lower_bound_loop fuel' entries start (middle + 1)%nat high
        else lower_bound_loop fuel' entries start low middle
      else Done low
  end.

Definition lower_bound (set : kernel_vma_set) (start : Z) : outcome nat :=
  lower_bound_loop (S set.(vs_count)) set.(vs_entries) start 0 set.(vs_count).

Definition kernel_vma_set_count (set : kernel_vma_set) : outcome nat :=
  _ ← trap_if (¬ set_valid set); Done set.(vs_count).

(** Queries return the status and, when it is OK, the descriptor copied out. *)
Definition kernel_vma_set_get_at (set : kernel_vma_set) (index : nat)
    : outcome (kernel_vma_status * option kernel_vma) :=
  if decide (¬ set_valid set) then Done (KERNEL_VMA_STATUS_INVALID_ARGUMENT, None)
  else if decide (set.(vs_count) ≤ index)%nat then Done (KERNEL_VMA_STATUS_NOT_FOUND, None)
  else v ← aread set.(vs_entries) index; Done (KERNEL_VMA_STATUS_OK, Some v).

Definition kernel_vma_set_next (set : kernel_vma_set) (address : Z)
    : outcome (kernel_vma_status * option kernel_vma) :=
  if decide (¬ set_valid set) then Done (KERNEL_VMA_STATUS_INVALID_ARGUMENT, None)
  else
    index ← lower_bound set address;
    if decide (index = set.(vs_count)) then Done (KERNEL_VMA_STATUS_NOT_FOUND, None)
    else v ← aread set.(vs_entries) index; Done (KERNEL_VMA_STATUS_OK, Some v).

(** [address + (address != UINT64_MAX ? 1 : 0)] *)
Definition above (address : Z) : Z :=
  address + (if decide (address ≠ UINT64_MAX) then 1 else 0).

Definition kernel_vma_set_lookup (set : kernel_vma_set) (virtual_address : Z)
    : outcome (kernel_vma_status * option kernel_vma) :=
  if decide (¬ set_valid set) then Done (KERNEL_VMA_STATUS_INVALID_ARGUMENT, None)
  else
    index ← lower_bound set (above virtual_address);
    if decide (index = O) then Done (KERNEL_VMA_STATUS_NOT_FOUND, None)
    else
      v ← aread set.(vs_entries) (index - 1);
      if decide (v.(vm_end) ≤ virtual_address)
      then Done (KERNEL_VMA_STATUS_NOT_FOUND, None)
      else Done (KERNEL_VMA_STATUS_OK, Some v).

(** [(index > 0 && entries[index-1].end > start) || (index < count &&
    entries[index].start < end)], the test insertion and [overlaps] share. *)
Definition touches_neighbours (set : kernel_vma_set) (index : nat) (start rend : Z)
    : outcome bool :=
  before ← (if decide (0 < index)%nat then
              v ← aread set.(vs_entries) (index - 1);
              Done (bool_decide (start < v.(vm_end)))
            else Done false);
  if before : bool then Done true
  else if decide (index < set.(vs_count))%nat then
    v ← aread set.(vs_entries) index;
    Done (bool_decide (v.(vm_start) < rend))
  else Done false.

Definition kernel_vma_set_overlaps (set : kernel_vma_set) (start rend : Z)
    : outcome (kernel_vma_status * option bool) :=
  if decide (¬ set_valid set ∨ rend ≤ start)
  then Done (KERNEL_VMA_STATUS_INVALID_ARGUMENT, None)
  else
    index ← lower_bound set start;
    b ← touches_neighbours set index start rend;
    Done (KERNEL_VMA_STATUS_OK, Some b).

Fixpoint backing_loop (entries : list kernel_vma) (steps index : nat) (backing : Z)
    : outcome bool :=
  match steps with
  | O => Done false
  | S steps' =>
      v ← aread entries index;
      if decide (v.(vm_backing) = backing) then Done true
      else backing_loop entries steps' (S index) backing
  end.

Definition kernel_vma_set_backing_in_use (set : kernel_vma_set) (backing : Z)
    : outcome (kernel_vma_status * option bool) :=
  if decide (¬ set_valid set ∨ backing = 0)
  then Done (KERNEL_VMA_STATUS_INVALID_ARGUMENT, None)
  else b ← backing_loop set.(vs_entries) set.(vs_count) 0 backing;
       Done (KERNEL_VMA_STATUS_OK, Some b).

(** The top-down walk: [index] entries are still to be visited. *)
Fixpoint topdown_loop (entries : list kernel_vma) (index : nat)
    (lower upper length cursor : Z) : outcome (kernel_vma_status * option Z) :=
  let finish :=
    if decide (lower ≤ cursor ∧ length ≤ cursor - lower)
    then Done (KERNEL_VMA_STATUS_OK, Some (cursor - length))
    else Done (KERNEL_VMA_STATUS_NOT_FOUND, None) in
  match index with
  | O => finish
  | S index' =>
      entry ← aread entries index';
      if decide (upper ≤ entry.(vm_start))
      then topdown_loop entries index' lower upper length cursor
      else if decide (entry.(vm_end) ≤ lower) then finish
      else
        let gap_start := if decide (lower < entry.(vm_end)) then entry.(vm_end) else lower in
        if decide (gap_start < cursor ∧ length ≤ cursor - gap_start)
        then Done (KERNEL_VMA_STATUS_OK, Some (cursor - length))
        else topdown_loop entries index' lower upper length
               (if decide (entry.(vm_start) < cursor) then entry.(vm_start) else cursor)
  end.

Definition kernel_vma_set_find_topdown_gap (set : kernel_vma_set)
    (hint lower upper length : Z) : outcome (kernel_vma_status * option Z) :=
  if decide (¬ set_valid set ∨ upper ≤ lower ∨ length = 0 ∨ upper - lower < length)
  then Done (KERNEL_VMA_STATUS_INVALID_ARGUMENT, None)
  else
    hinted ← (if decide (lower ≤ hint ∧ hint ≤ upper - length) then
                '(status, conflict) ← kernel_vma_set_overlaps set hint (hint + length);
                Done (bool_decide (status = KERNEL_VMA_STATUS_OK ∧ conflict = Some false))
              else Done false);
    if hinted : bool then Done (KERNEL_VMA_STATUS_OK, Some hint)
    else topdown_loop set.(vs_entries) set.(vs_count) lower upper length upper.

(** ** Operations that change a set *)

Section operations.
Context {H : Type} `{KernelHeap H}.
(** The contents of a slot that the heap hands out and nothing has written. *)
Variable junk : kernel_vma.
#[local] Abbreviation M := (ST (world H)).

(** The calls [if (p) kernel_shm_attachment_open(p)] and [close]. *)
Definition attachment_open (p : Z) : M unit := λ w,
  if decide (p ≠ 0)
  then Done (tt, mk_world w.(w_heap) (w.(w_shm) ++ [Attachment_open p]))
  else Done (tt, w).
Definition attachment_close (p : Z) : M unit := λ w,
  if decide (p ≠ 0)
  then Done (tt, mk_world w.(w_heap) (w.(w_shm) ++ [Attachment_close p]))
  else Done (tt, w).

(** [while (capacity < required)]; [None] is the NO_MEMORY return.  33
    iterations are enough for any nonzero 32-bit start. *)
Fixpoint grow_loop (fuel : nat) (capacity required : Z) : outcome (option Z) :=
  match fuel with
  | O => Fault Out_of_fuel
  | S fuel' =>
      if decide (capacity < required) then
        if decide (UINT32_MAX / 2 < capacity) then Done None
        else grow_loop fuel' (u32 (capacity * 2)) required
      else Done (Some capacity)
  end.

Definition resize_heap (bytes : Z) : M kernel_heap_status := λ w,
  let '(status, h) := heap_resize w.(w_heap) bytes in
  Done (status, mk_world h w.(w_shm)).

Definition reserve_entries (set : kernel_vma_set) (required : nat)
    : M (kernel_vma_status * kernel_vma_set) :=
  if decide (required ≤ set.(vs_capacity))%nat then mret (KERNEL_VMA_STATUS_OK, set)
  else
    let capacity := if decide (set.(vs_capacity) = O)
                    then KERNEL_VMA_INITIAL_CAPACITY else set.(vs_capacity) in
    grown ← lift (grow_loop 33 (Z.of_nat capacity) (Z.of_nat required));
    match grown with
    | None => mret (KERNEL_VMA_STATUS_NO_MEMORY, set)
    | Some capacity =>
        status ← resize_heap (capacity * sizeof_vma);
        if decide (status = KERNEL_HEAP_STATUS_EMPTY)
        then mret (KERNEL_VMA_STATUS_NO_MEMORY, set)
        else if decide (status ≠ KERNEL_HEAP_STATUS_OK)
        then mret (KERNEL_VMA_STATUS_STATE, set)
        else
          let n := Z.to_nat capacity in
          mret (KERNEL_VMA_STATUS_OK,
                with_storage set
                  (set.(vs_entries) ++ replicate (n - length set.(vs_entries)) junk) n)
    end.

(** [entries[current] = entries[current + 1]], [steps] times. *)
Fixpoint erase_shift (steps current : nat) (entries : list kernel_vma)
    : outcome (list kernel_vma) :=
  match steps with
  | O => Done entries
  | S steps' =>
      v ← aread entries (current + 1);
      entries' ← awrite entries current v;
      erase_shift steps' (S current) entries'
  end.

(** Both callers have checked [index < count]. *)
Definition erase_entry (set : kernel_vma_set) (index : nat) : M kernel_vma_set :=
  v ← lift (aread set.(vs_entries) index);
  _ ← attachment_close v.(vm_shm_attachment);
  entries ← lift (erase_shift (set.(vs_count) - (index + 1)) index set.(vs_entries));
  mret (with_entries set entries (set.(vs_count) - 1)).

Fixpoint move_forward (steps index destination source : nat)
    (entries : list kernel_vma) : outcome (list kernel_vma) :=
  match steps with
  | O => Done entries
  | S steps' =>
      v ← aread entries (source + index);
      entries' ← awrite entries (destination + index) v;
      move_forward steps' (S index) destination source entries'
  end.

Fixpoint move_backward (index destination source : nat)
    (entries : list kernel_vma) : outcome (list kernel_vma) :=
  match index with
  | O => Done entries
  | S index' =>
      v ← aread entries (source + index');
      entries' ← awrite entries (destination + index') v;
      move_backward index' destination source entries'
  end.

Definition move_entries (entries : list kernel_vma) (destination source count : nat)
    : outcome (list kernel_vma) :=
  if decide (count = O ∨ destination = source) then Done entries
  else if decide (destination < source)%nat
  then move_forward count 0 destination source entries
  else move_backward count destination source entries.

Definition merges_before (set : kernel_vma_set) (index : nat) (merged : kernel_vma)
    : outcome bool :=
  if decide (0 < index)%nat then
    v ← aread set.(vs_entries) (index - 1);
    Done (bool_decide (can_merge v merged))
  else Done false.

Definition merges_after (set : kernel_vma_set) (index : nat) (merged : kernel_vma)
    : outcome bool :=
  if decide (index < set.(vs_count))%nat then
    v ← aread set.(vs_entries) index;
    Done (bool_decide (can_merge merged v))
  else Done false.

Definition insert_entry (set : kernel_vma_set) (vma : kernel_vma)
    : M (kernel_vma_status * kernel_vma_set) :=
  index ← lift (lower_bound set vma.(vm_start));
  conflict ← lift (touches_neighbours set index vma.(vm_start) vma.(vm_end));
  if conflict : bool then mret (KERNEL_VMA_STATUS_CONFLICT, set)
  else
    before ← lift (merges_before set index vma);
    if before : bool then
      prev ← lift (aread set.(vs_entries) (index - 1));
      let prev := with_end prev vma.(vm_end) in
      entries ← lift (awrite set.(vs_entries) (index - 1) prev);
      let set := with_entries set entries set.(vs_count) in
      after ← lift (merges_after set index prev);
      if after : bool then
        next ← lift (aread set.(vs_entries) index);
        entries ← lift (awrite set.(vs_entries) (index - 1) (with_end prev next.(vm_end)));
        set ← erase_entry (with_entries set entries set.(vs_count)) index;
        mret (KERNEL_VMA_STATUS_OK, set)
      else mret (KERNEL_VMA_STATUS_OK, set)
    else
      after ← lift (merges_after set index vma);
      if after : bool then
        next ← lift (aread set.(vs_entries) index);
        entries ← lift (awrite set.(vs_entries) index (with_end vma next.(vm_end)));
        mret (KERNEL_VMA_STATUS_OK, with_entries set entries set.(vs_count))
      else if decide (Z.of_nat set.(vs_count) = UINT32_MAX)
      then mret (KERNEL_VMA_STATUS_NO_MEMORY, set)
      else
        '(status, set) ← reserve_entries set (set.(vs_count) + 1);
        if decide (status ≠ KERNEL_VMA_STATUS_OK) then mret (status, set)
        else
          entries ← lift (move_entries set.(vs_entries) (index + 1) index
                            (set.(vs_count) - index));
          entries ← lift (awrite entries index vma);
          _ ← attachment_open vma.(vm_shm_attachment);
          mret (KERNEL_VMA_STATUS_OK, with_entries set entries (set.(vs_count) + 1)).

Definition split_at (set : kernel_vma_set) (address : Z)
    : M (kernel_vma_status * kernel_vma_set) :=
  index ← lift (lower_bound set (above address));
  if decide (index = O) then mret (KERNEL_VMA_STATUS_OK, set)
  else
    v ← lift (aread set.(vs_entries) (index - 1));
    if decide (address ≤ v.(vm_start) ∨ v.(vm_end) ≤ address)
    then mret (KERNEL_VMA_STATUS_OK, set)
    else if decide (set.(vs_capacity) ≤ set.(vs_count))%nat
    then mret (KERNEL_VMA_STATUS_STATE, set)
    else
      let index := (index - 1)%nat in
      let delta := u64 (address - v.(vm_start)) in
      if decide (v.(vm_kind) ≠ KERNEL_VMA_KIND_ANONYMOUS ∧
                 UINT64_MAX - delta < v.(vm_backing_offset))
      then mret (KERNEL_VMA_STATUS_STATE, set)
      else
        let right := with_start_offset v address
          (if decide (v.(vm_kind) ≠ KERNEL_VMA_KIND_ANONYMOUS)
           then v.(vm_backing_offset) + delta else v.(vm_backing_offset)) in
        entries ← lift (awrite set.(vs_entries) index (with_end v address));
        entries ← lift (move_entries entries (index + 2) (index + 1)
                          (set.(vs_count) - index - 1));
        entries ← lift (awrite entries (index + 1) right);
        _ ← attachment_open right.(vm_shm_attachment);
        mret (KERNEL_VMA_STATUS_OK, with_entries set entries (set.(vs_count) + 1)).

Fixpoint merge_loop (steps : nat) (entries : list kernel_vma) (output index : nat)
    : M (list kernel_vma * nat) :=
  match steps with
  | O => mret (entries, output)
  | S steps' =>
      left ← lift (aread entries output);
      right ← lift (aread entries index);
      if decide (can_merge left right) then
        entries' ← lift (awrite entries output (with_end left right.(vm_end)));
        _ ← attachment_close right.(vm_shm_attachment);
        merge_loop steps' entries' output (S index)
      else
        entries' ← lift (if decide (S output ≠ index)
                         then awrite entries (S output) right else Done entries);
        merge_loop steps' entries' (S output) (S index)
  end.

Definition merge_all (set : kernel_vma_set) : M kernel_vma_set :=
  if decide (set.(vs_count) = O) then mret set
  else
    '(entries, output) ← merge_loop (set.(vs_count) - 1) set.(vs_entries) 0 1;
    mret (with_entries set entries (output + 1)).

Fixpoint clear_locks_loop (steps i : nat) (entries : list kernel_vma)
    : outcome (list kernel_vma) :=
  match steps with
  | O => Done entries
  | S steps' =>
      v ← aread entries i;
      entries' ← awrite entries i
        (with_flags v (Z.land v.(vm_flags) (Z.lnot KERNEL_VMA_LOCK_MASK)));
      clear_locks_loop steps' (S i) entries'
  end.

Definition kernel_vma_set_clear_locks (set : kernel_vma_set) : M kernel_vma_set :=
  _ ← lift (trap_if (¬ set_valid set));
  entries ← lift (clear_locks_loop set.(vs_count) 0 set.(vs_entries));
  let set := with_entries set entries set.(vs_count) in
  let set := with_bytes set set.(vs_total_bytes) set.(vs_data_bytes) 0 in
  set ← merge_all set;
  mret (bump_generation set).

(** [slot] is what [*set] holds on entry. *)
Definition kernel_vma_set_create (heap : Z) (slot : option kernel_vma_set)
    : M (kernel_vma_status * option kernel_vma_set) := λ w,
  if decide (heap = 0 ∨ slot ≠ None) then Done (KERNEL_VMA_STATUS_INVALID_ARGUMENT, slot, w)
  else
    let '(status, address, h) := heap_allocate_zeroed w.(w_heap) sizeof_vma_set in
    let w := mk_world h w.(w_shm) in
    if decide (status = KERNEL_HEAP_STATUS_EMPTY)
    then Done (KERNEL_VMA_STATUS_NO_MEMORY, slot, w)
    else if decide (status ≠ KERNEL_HEAP_STATUS_OK)
    then Done (KERNEL_VMA_STATUS_STATE, slot, w)
    else Done (KERNEL_VMA_STATUS_OK, Some (mk_set address heap [] 0 0 0 0 0 0), w).

Fixpoint close_loop (steps i : nat) (entries : list kernel_vma) : M unit :=
  match steps with
  | O => mret tt
  | S steps' =>
      v ← lift (aread entries i);
      _ ← attachment_close v.(vm_shm_attachment);
      close_loop steps' (S i) entries
  end.

Definition release_heap : M unit := λ w,
  Done (tt, mk_world (heap_release w.(w_heap)) w.(w_shm)).

Definition kernel_vma_set_destroy (set : kernel_vma_set)
    : M (kernel_vma_status * option kernel_vma_set) :=
  if decide (¬ set_valid set) then mret (KERNEL_VMA_STATUS_INVALID_ARGUMENT, Some set)
  else
    _ ← (if decide (set.(vs_entries) ≠ []) then
           _ ← close_loop set.(vs_count) 0 set.(vs_entries);
           release_heap
         else mret tt);
    _ ← release_heap;
    mret (KERNEL_VMA_STATUS_OK, None).

Fixpoint fork_loop (steps index : nat) (source : list kernel_vma)
    (entries : list kernel_vma) (count : nat) : M (list kernel_vma * nat) :=
  match steps with
  | O => mret (entries, count)
  | S steps' =>
      v ← lift (aread source index);
      if decide (Z.land v.(vm_flags) KERNEL_VMA_DONTFORK ≠ 0)
      then fork_loop steps' (S index) source entries count
      else
        let entry := with_flags v (Z.land v.(vm_flags) (Z.lnot KERNEL_VMA_LOCK_MASK)) in
        entries' ← lift (awrite entries count entry);
        _ ← attachment_open entry.(vm_shm_attachment);
        fork_loop steps' (S index) source entries' (S count)
  end.

Definition kernel_vma_set_fork (source : kernel_vma_set) (slot : option kernel_vma_set)
    : M (kernel_vma_status * option kernel_vma_set) :=
  if decide (¬ set_valid source ∨ slot ≠ None)
  then mret (KERNEL_VMA_STATUS_INVALID_ARGUMENT, slot)
  else
    '(status, created) ← kernel_vma_set_create source.(vs_heap) None;
    match created with
    | None => mret (status, slot)
    | Some working =>
        '(status, working) ← reserve_entries working source.(vs_count);
        if decide (status = KERNEL_VMA_STATUS_OK) then
          '(entries, count) ← fork_loop source.(vs_count) 0 source.(vs_entries)
                                working.(vs_entries) working.(vs_count);
          working ← merge_all (with_entries working entries count);
          working ← lift (recount_bytes working);
          mret (KERNEL_VMA_STATUS_OK, Some working)
        else
          _ ← kernel_vma_set_destroy working;
          mret (status, slot)
    end.

Definition kernel_vma_set_insert (set : kernel_vma_set) (vma : kernel_vma)
    : M (kernel_vma_status * kernel_vma_set) :=
  if decide (¬ set_valid set ∨ ¬ vma_valid vma)
  then mret (KERNEL_VMA_STATUS_INVALID_ARGUMENT, set)
  else if decide (set.(vs_generation) = UINT64_MAX)
  then mret (KERNEL_VMA_STATUS_STATE, set)
  else
    '(status, set) ← insert_entry set vma;
    if decide (status = KERNEL_VMA_STATUS_OK) then
      set ← lift (recount_bytes set);
      mret (status, bump_generation set)
    else mret (status, set).

(** ** Two-phase edits *)

Definition split_needed (set : kernel_vma_set) (address : Z) : outcome bool :=
  index ← lower_bound set (above address);
  if decide (0 < index)%nat then
    v ← aread set.(vs_entries) (index - 1);
    Done (bool_decide (v.(vm_start) < address ∧ address < v.(vm_end)))
  else Done false.

Definition reserve_edit_capacity (set : kernel_vma_set) (start rend : Z)
    (replacement : bool) : M (kernel_vma_status * kernel_vma_set) :=
  at_start ← lift (split_needed set start);
  at_end ← lift (split_needed set rend);
  let extra := (Nat.b2n at_start + Nat.b2n at_end)%nat in
  if decide (UINT32_MAX - Z.of_nat extra < Z.of_nat set.(vs_count))
  then mret (KERNEL_VMA_STATUS_NO_MEMORY, set)
  else
    let required := (set.(vs_count) + extra)%nat in
    if replacement then
      '(status, overlaps) ← lift (kernel_vma_set_overlaps set start rend);
      if decide (status ≠ KERNEL_VMA_STATUS_OK) then mret (KERNEL_VMA_STATUS_STATE, set)
      else if decide (overlaps = Some false) then
        if decide (Z.of_nat set.(vs_count) = UINT32_MAX)
        then mret (KERNEL_VMA_STATUS_NO_MEMORY, set)
        else reserve_entries set (if decide (required < set.(vs_count) + 1)%nat
                                  then set.(vs_count) + 1 else required)%nat
      else reserve_entries set required
    else reserve_entries set required.

(** [replacement != 0 && (!vma_valid(replacement) || ...)] *)
Definition replacement_mismatch (start rend : Z) (replacement : option kernel_vma) : Prop :=
  match replacement with
  | Some r => ¬ vma_valid r ∨ r.(vm_start) ≠ start ∨ r.(vm_end) ≠ rend
  | None => False
  end.
#[export] Instance replacement_mismatch_dec start rend replacement :
  Decision (replacement_mismatch start rend replacement).
Proof. destruct replacement; simpl; apply _. Defined.

(** The prepare operations also return the edit they filled in, if any. *)
Definition kernel_vma_set_prepare_replace (set : kernel_vma_set) (start rend : Z)
    (replacement : option kernel_vma)
    : M (kernel_vma_status * kernel_vma_set * option kernel_vma_edit) :=
  if decide (¬ set_valid set ∨ rend ≤ start ∨
             replacement_mismatch start rend replacement)
  then mret (KERNEL_VMA_STATUS_INVALID_ARGUMENT, set, None)
  else if decide (set.(vs_generation) = UINT64_MAX)
  then mret (KERNEL_VMA_STATUS_STATE, set, None)
  else
    '(status, set) ← reserve_edit_capacity set start rend (bool_decide (replacement ≠ None));
    if decide (status ≠ KERNEL_VMA_STATUS_OK) then mret (status, set, None)
    else mret (KERNEL_VMA_STATUS_OK, set,
           Some (mk_edit set.(vs_this) set.(vs_generation) start rend 0 0 0
                   (match replacement with
                    | None => KERNEL_VMA_EDIT_REMOVE
                    | Some _ => KERNEL_VMA_EDIT_REPLACE
                    end)
                   (default vma_zero replacement))).

Fixpoint covered_loop (entries : list kernel_vma) (steps index : nat)
    (cursor rend : Z) : outcome bool :=
  match steps with
  | O => Done (bool_decide (rend ≤ cursor))
  | S steps' =>
      if decide (cursor < rend) then
        v ← aread entries index;
        if decide (cursor < v.(vm_start) ∨ v.(vm_end) ≤ cursor) then Done false
        else covered_loop entries steps' (S index) v.(vm_end) rend
      else Done (bool_decide (rend ≤ cursor))
  end.

(** [if (index > 0 && entries[index - 1].end > start) index--;] after the
    lower bound: the first entry that ends above [start]. *)
Definition first_touching (set : kernel_vma_set) (start : Z) : outcome nat :=
  index ← lower_bound set start;
  if decide (0 < index)%nat then
    v ← aread set.(vs_entries) (index - 1);
    Done (if decide (start < v.(vm_end)) then (index - 1)%nat else index)
  else Done index.

Definition range_is_covered (set : kernel_vma_set) (start rend : Z) : outcome bool :=
  index ← first_touching set start;
  covered_loop set.(vs_entries) (set.(vs_count) - index) index start rend.

Definition kernel_vma_set_prepare_remap (set : kernel_vma_set) (start rend : Z)
    (replacement : kernel_vma)
    : M (kernel_vma_status * kernel_vma_set * option kernel_vma_remap) :=
  if decide (¬ set_valid set ∨ ¬ vma_valid replacement ∨ rend ≤ start ∨
             UINT64_MAX - 2 < set.(vs_generation))
  then mret (KERNEL_VMA_STATUS_INVALID_ARGUMENT, set, None)
  else
    let check_start :=
      if decide (replacement.(vm_start) = start) then rend else replacement.(vm_start) in
    conflict ← lift
      (if decide (check_start < replacement.(vm_end)) then
         '(status, overlaps) ← kernel_vma_set_overlaps set check_start replacement.(vm_end);
         Done (bool_decide (status ≠ KERNEL_VMA_STATUS_OK ∨ overlaps ≠ Some false))
       else Done false);
    if conflict : bool then mret (KERNEL_VMA_STATUS_CONFLICT, set, None)
    else if decide (UINT32_MAX - 3 < Z.of_nat set.(vs_count))
    then mret (KERNEL_VMA_STATUS_NO_MEMORY, set, None)
    else
      '(status, set) ← reserve_entries set (set.(vs_count) + 3);
      if decide (status ≠ KERNEL_VMA_STATUS_OK) then mret (status, set, None)
      else mret (KERNEL_VMA_STATUS_OK, set,
             Some (mk_remap set.(vs_this) set.(vs_generation) start rend replacement)).

(** [while (index < count && entries[index].start < end)] of prepare_protect:
    does some entry of the range refuse [permissions]? *)
Fixpoint refused_loop (entries : list kernel_vma) (steps index : nat)
    (rend permissions : Z) : outcome bool :=
  match steps with
  | O => Done false
  | S steps' =>
      v ← aread entries index;
      if decide (v.(vm_start) < rend) then
        if decide (Z.land (Z.land permissions KERNEL_VMA_ALL_PERMISSIONS)
                     (Z.lnot v.(vm_maximum_permissions)) ≠ 0)
        then Done true
        else refused_loop entries steps' (S index) rend permissions
      else Done false
  end.

Definition kernel_vma_set_prepare_protect (set : kernel_vma_set) (start rend : Z)
    (permissions : Z) : M (kernel_vma_status * kernel_vma_set * option kernel_vma_edit) :=
  if decide (¬ set_valid set ∨ rend ≤ start)
  then mret (KERNEL_VMA_STATUS_INVALID_ARGUMENT, set, None)
  else
    covered ← lift (range_is_covered set start rend);
    if negb covered then mret (KERNEL_VMA_STATUS_NOT_FOUND, set, None)
    else
      first ← lift (first_touching set start);
      refused ← lift (refused_loop set.(vs_entries) (set.(vs_count) - first) first
                        rend permissions);
      if refused : bool then mret (KERNEL_VMA_STATUS_ACCESS, set, None)
      else if decide (set.(vs_generation) = UINT64_MAX)
      then mret (KERNEL_VMA_STATUS_STATE, set, None)
      else
        '(status, set) ← reserve_edit_capacity set start rend false;
        if decide (status ≠ KERNEL_VMA_STATUS_OK) then mret (status, set, None)
        else mret (KERNEL_VMA_STATUS_OK, set,
               Some (mk_edit set.(vs_this) set.(vs_generation) start rend permissions 0 0
                       KERNEL_VMA_EDIT_PROTECT vma_zero)).

(** The admission limit on private writable data of one mprotect step. *)
Definition data_limit_refuses (limits : kernel_memory_limits) (total data bytes : Z) : Prop :=
  let limit := if decide (limits.(ml_data_soft) ≠ 0)
               then limits.(ml_data_soft) else limits.(ml_data_hard) in
  total ≤ limits.(ml_address_space) ∧ bytes ≤ limits.(ml_address_space) - total ∧
  (limit < data ∨ limit - data < bytes).
#[export] Instance data_limit_refuses_dec limits total data bytes :
  Decision (data_limit_refuses limits total data bytes).
Proof. unfold data_limit_refuses. apply _. Defined.

(** One pass of the mprotect loop; [None] for [edit] is [edit->set == 0].
    Each pass advances [index], so [count + 1] passes are enough. *)
Fixpoint mprotect_loop (fuel : nat) (limits : kernel_memory_limits)
    (set : kernel_vma_set) (index : nat) (start rend permissions data : Z)
    (first_split : bool) (edit : option kernel_vma_edit)
    : M (kernel_vma_status * kernel_vma_set * option kernel_vma_edit) :=
  match fuel with
  | O => lift (Fault Out_of_fuel)
  | S fuel' =>
    if decide (start < rend) then
      if decide (index = set.(vs_count))
      then mret (KERNEL_VMA_STATUS_NO_MEMORY, set, edit)
      else
        vma ← lift (aread set.(vs_entries) index);
        if decide (start < vma.(vm_start) ∨ vma.(vm_end) ≤ start)
        then mret (KERNEL_VMA_STATUS_NO_MEMORY, set, edit)
        else
          let finish := if decide (vma.(vm_end) < rend) then vma.(vm_end) else rend in
          if decide (Z.land permissions (Z.lnot vma.(vm_maximum_permissions)) ≠ 0)
          then mret (KERNEL_VMA_STATUS_ACCESS, set, edit)
          else if decide (vma.(vm_permissions) = permissions)
          then mprotect_loop fuel' limits set (S index) finish rend permissions data
                 first_split edit
          else
            let bytes := finish - start in
            let changes_data := bool_decide
              (Z.land (Z.lxor vma.(vm_permissions) permissions) 2 ≠ 0 ∧
               private_data_mapping vma) in
            let grants := bool_decide (Z.land permissions 2 ≠ 0) in
            if decide (changes_data && grants = true ∧
                       data_limit_refuses limits set.(vs_total_bytes) data bytes)
            then mret (KERNEL_VMA_STATUS_NO_MEMORY, set, edit)
            else
              let data := if changes_data
                then (if grants then u64 (data + bytes) else u64 (data - bytes))
                else data in
              let end_split := bool_decide (finish < vma.(vm_end)) in
              if decide (edit = None ∧ set.(vs_generation) = UINT64_MAX)
              then mret (KERNEL_VMA_STATUS_STATE, set, edit)
              else
                let first_split := match edit with
                  | None => bool_decide (vma.(vm_start) < start)
                  | Some _ => first_split
                  end in
                let extra := (Nat.b2n first_split + Nat.b2n end_split)%nat in
                '(status, set) ←
                  (if decide (edit = None ∨ end_split = true) then
                     if decide (UINT32_MAX - Z.of_nat extra < Z.of_nat set.(vs_count))
                     then mret (KERNEL_VMA_STATUS_NO_MEMORY, set)
                     else reserve_entries set (set.(vs_count) + extra)
                   else mret (KERNEL_VMA_STATUS_OK, set));
                if decide (status ≠ KERNEL_VMA_STATUS_OK) then mret (status, set, edit)
                else
                  let edit := match edit with
                    | None => mk_edit set.(vs_this) set.(vs_generation) start finish
                                permissions 0 0 KERNEL_VMA_EDIT_PROTECT vma_zero
                    | Some e => mk_edit e.(ed_set) e.(ed_generation) e.(ed_start) finish
                                  e.(ed_permissions) e.(ed_flags) e.(ed_flags_mask)
                                  e.(ed_kind) e.(ed_replacement)
                    end in
                  mprotect_loop fuel' limits set (S index) finish rend permissions data
                    first_split (Some edit)
    else mret (KERNEL_VMA_STATUS_OK, set, edit)
  end.

Definition kernel_vma_set_prepare_mprotect (limits : kernel_memory_limits)
    (set : kernel_vma_set) (start rend permissions : Z)
    : M (kernel_vma_status * kernel_vma_set * option kernel_vma_edit) :=
  if decide (¬ set_valid set ∨ rend ≤ start)
  then mret (KERNEL_VMA_STATUS_INVALID_ARGUMENT, set, None)
  else
    index ← lift (first_touching set start);
    mprotect_loop (set.(vs_count) + 2) limits set index start rend permissions
      set.(vs_data_bytes) false None.

(** [flags] sets the bits of [mask]; the lock bits change together. *)
Definition flags_request_invalid (mask flags : Z) : Prop :=
  Z.land mask (Z.lnot KERNEL_VMA_ALL_FLAGS) ≠ 0 ∨
  Z.land flags (Z.lnot mask) ≠ 0 ∨
  (Z.land mask KERNEL_VMA_LOCK_MASK ≠ 0 ∧
   (Z.land mask KERNEL_VMA_LOCK_MASK ≠ KERNEL_VMA_LOCK_MASK ∨
    Z.land flags KERNEL_VMA_LOCK_MASK = KERNEL_VMA_LOCK_ONFAULT)).
#[export] Instance flags_request_invalid_dec mask flags :
  Decision (flags_request_invalid mask flags).
Proof. unfold flags_request_invalid. apply _. Defined.

Definition kernel_vma_set_prepare_flags (set : kernel_vma_set)
    (start rend mask flags : Z)
    : M (kernel_vma_status * kernel_vma_set * option kernel_vma_edit) :=
  if decide (¬ set_valid set ∨ rend ≤ start ∨ flags_request_invalid mask flags)
  then mret (KERNEL_VMA_STATUS_INVALID_ARGUMENT, set, None)
  else
    covered ← lift (range_is_covered set start rend);
    if negb covered then mret (KERNEL_VMA_STATUS_NOT_FOUND, set, None)
    else if decide (set.(vs_generation) = UINT64_MAX)
    then mret (KERNEL_VMA_STATUS_STATE, set, None)
    else
      '(status, set) ← reserve_edit_capacity set start rend false;
      if decide (status ≠ KERNEL_VMA_STATUS_OK) then mret (status, set, None)
      else mret (KERNEL_VMA_STATUS_OK, set,
             Some (mk_edit set.(vs_this) set.(vs_generation) start rend 0 flags mask
                     KERNEL_VMA_EDIT_FLAGS vma_zero)).

(** The attribute change a PROTECT or FLAGS edit makes to one entry. *)
Definition edit_entry (edit : kernel_vma_edit) (v : kernel_vma) : kernel_vma :=
  if decide (edit.(ed_kind) = KERNEL_VMA_EDIT_PROTECT)
  then with_permissions v edit.(ed_permissions)
  else with_flags v (Z.lor (Z.land v.(vm_flags) (Z.lnot edit.(ed_flags_mask)))
                       edit.(ed_flags)).

Fixpoint edit_loop (edit : kernel_vma_edit) (steps index : nat)
    (entries : list kernel_vma) : outcome (list kernel_vma) :=
  match steps with
  | O => Done entries
  | S steps' =>
      v ← aread entries index;
      entries' ← awrite entries index (edit_entry edit v);
      edit_loop edit steps' (S index) entries'
  end.

Definition kernel_vma_set_commit_edit (set : kernel_vma_set) (edit : kernel_vma_edit)
    : M (kernel_vma_status * kernel_vma_set) :=
  if decide (¬ set_valid set ∨ edit.(ed_set) ≠ set.(vs_this) ∨
             edit.(ed_generation) ≠ set.(vs_generation) ∨
             edit.(ed_end) ≤ edit.(ed_start))
  then mret (KERNEL_VMA_STATUS_STATE, set)
  else if decide (edit.(ed_kind) = KERNEL_VMA_EDIT_REPLACE ∧
                  replacement_mismatch edit.(ed_start) edit.(ed_end)
                    (Some edit.(ed_replacement)))
  then mret (KERNEL_VMA_STATUS_STATE, set)
  else
    '(status, set) ← split_at set edit.(ed_start);
    if decide (status ≠ KERNEL_VMA_STATUS_OK) then mret (KERNEL_VMA_STATUS_STATE, set)
    else
    '(status, set) ← split_at set edit.(ed_end);
    if decide (status ≠ KERNEL_VMA_STATUS_OK) then mret (KERNEL_VMA_STATUS_STATE, set)
    else
    first ← lift (lower_bound set edit.(ed_start));
    last ← lift (lower_bound set edit.(ed_end));
    '(status, set) ←
      (if decide (edit.(ed_kind) = KERNEL_VMA_EDIT_PROTECT ∨
                  edit.(ed_kind) = KERNEL_VMA_EDIT_FLAGS) then
         entries ← lift (edit_loop edit (last - first) first set.(vs_entries));
         mret (KERNEL_VMA_STATUS_OK, with_entries set entries set.(vs_count))
       else
         _ ← close_loop (last - first) first set.(vs_entries);
         entries ← lift (move_entries set.(vs_entries) first last (set.(vs_count) - last));
         let set := with_entries set entries (set.(vs_count) - (last - first)) in
         if decide (edit.(ed_kind) = KERNEL_VMA_EDIT_REPLACE)
         then insert_entry set edit.(ed_replacement)
         else mret (KERNEL_VMA_STATUS_OK, set));
    if decide (status ≠ KERNEL_VMA_STATUS_OK) then mret (KERNEL_VMA_STATUS_STATE, set)
    else
      set ← merge_all set;
      set ← lift (recount_bytes set);
      mret (KERNEL_VMA_STATUS_OK, bump_generation set).

Definition kernel_vma_set_commit_remap (set : kernel_vma_set) (edit : kernel_vma_remap)
    : M (kernel_vma_status * kernel_vma_set) :=
  if decide (edit.(rm_set) ≠ set.(vs_this) ∨ edit.(rm_generation) ≠ set.(vs_generation))
  then mret (KERNEL_VMA_STATUS_STATE, set)
  else
    '(status, set, removal) ←
      kernel_vma_set_prepare_replace set edit.(rm_start) edit.(rm_end) None;
    match removal with
    | None => lift trap
    | Some removal =>
        '(status, set) ← kernel_vma_set_commit_edit set removal;
        if decide (status ≠ KERNEL_VMA_STATUS_OK) then lift trap
        else
          '(status, set) ← kernel_vma_set_insert set edit.(rm_replacement);
          if decide (status ≠ KERNEL_VMA_STATUS_OK) then lift trap
          else mret (KERNEL_VMA_STATUS_OK, set)
    end.

Definition kernel_vma_set_trim_end (set : kernel_vma_set) (start old_end new_end : Z)
    : M (kernel_vma_status * kernel_vma_set) :=
  if decide (¬ set_valid set ∨ old_end ≤ start ∨ new_end < start ∨ old_end ≤ new_end)
  then mret (KERNEL_VMA_STATUS_INVALID_ARGUMENT, set)
  else if decide (set.(vs_generation) = UINT64_MAX)
  then mret (KERNEL_VMA_STATUS_STATE, set)
  else
    index ← lift (lower_bound set start);
    if decide (set.(vs_count) ≤ index)%nat then mret (KERNEL_VMA_STATUS_NOT_FOUND, set)
    else
      v ← lift (aread set.(vs_entries) index);
      if decide (v.(vm_start) ≠ start ∨ v.(vm_end) ≠ old_end)
      then mret (KERNEL_VMA_STATUS_NOT_FOUND, set)
      else
        set ← (if decide (new_end = start) then erase_entry set index
               else
                 entries ← lift (awrite set.(vs_entries) index (with_end v new_end));
                 mret (with_entries set entries set.(vs_count)));
        set ← lift (recount_bytes set);
        mret (KERNEL_VMA_STATUS_OK, bump_generation set).

End operations.

End Vma.
