(* ===== verification/VmaLists.v ===== *)
(** * The address-space view of a list of VMAs

    The abstract state of a set is the map from addresses to the attributes of
    the byte there ([view]).  This file relates lists of descriptors to that
    map, independently of the array that stores them: what a well laid out list
    is, and how cutting a range out, splitting, merging and inserting act on
    the view, on the attachment references and on the byte totals. *)
From S2P Require Import Prelude Heap Vma.
#[local] Open Scope Z_scope.
Import Heap Vma.

(** ** Layout *)

Definition inside (v : kernel_vma) (a : Z) : Prop := v.(vm_start) ≤ a < v.(vm_end).
Definition overlaps (v : kernel_vma) (s e : Z) : Prop :=
  v.(vm_start) < e ∧ s < v.(vm_end).
Definition straddles (a : Z) (v : kernel_vma) : Prop := v.(vm_start) < a < v.(vm_end).
#[export] Instance inside_dec v a : Decision (inside v a).
Proof. unfold inside. apply _. Defined.
#[export] Instance overlaps_dec v s e : Decision (overlaps v s e).
Proof. unfold overlaps. apply _. Defined.
#[export] Instance straddles_dec a v : Decision (straddles a v).
Proof. unfold straddles. apply _. Defined.

Definition page_aligned (a : Z) : Prop := a mod 4096 = 0.
(** The kinds whose backing offset [vma_valid] wants page aligned. *)
Definition shared_pages (v : kernel_vma) : Prop :=
  v.(vm_kind) = KERNEL_VMA_KIND_ANON_SHARED ∨ v.(vm_kind) = KERNEL_VMA_KIND_SYSV_SHM.

(** A valid descriptor whose 64-bit fields fit their width; an area of shared
    pages starts on a page. *)
Record good (v : kernel_vma) : Prop := {
  good_valid : vma_valid v;
  good_page : shared_pages v → page_aligned v.(vm_start);
  good_start : is_u64 v.(vm_start);
  good_end : is_u64 v.(vm_end);
  good_offset : is_u64 v.(vm_backing_offset);
}.

Definition before (u v : kernel_vma) : Prop := u.(vm_end) ≤ v.(vm_start).

Record layout (l : list kernel_vma) : Prop := {
  layout_sorted : StronglySorted before l;
  layout_good : Forall good l;
}.

Lemma vma_valid_nonempty v : vma_valid v → v.(vm_start) < v.(vm_end).
Proof. unfold vma_valid, vma_invalid. intros H. apply Znot_ge_lt. intros ?. apply H. left. lia. Qed.
Lemma good_nonempty v : good v → v.(vm_start) < v.(vm_end).
Proof. intros [H _ _ _ _]. by apply vma_valid_nonempty. Qed.
Lemma good_shm v : good v → v.(vm_kind) ≠ KERNEL_VMA_KIND_SYSV_SHM → v.(vm_shm_attachment) = 0.
Proof.
  intros [H _ _ _ _] Hk. destruct (decide (v.(vm_shm_attachment) = 0)) as [|Hn]; [done|].
  destruct H. unfold vma_invalid. tauto.
Qed.
Lemma good_backed v : good v → v.(vm_kind) ≠ KERNEL_VMA_KIND_ANONYMOUS → ¬ offset_overflows v.
Proof.
  intros [H _ _ _ _] Hk Ho. apply H. unfold vma_invalid.
  destruct v.(vm_kind); try done; tauto.
Qed.
Lemma good_anonymous v : good v → v.(vm_kind) = KERNEL_VMA_KIND_ANONYMOUS → v.(vm_backing_offset) = 0.
Proof.
  intros [H _ _ _ _] Hk. destruct (decide (v.(vm_backing_offset) = 0)) as [|Hn]; [done|].
  destruct H. unfold vma_invalid. tauto.
Qed.

(** Facts of arithmetic about the descriptors in the context. *)
Ltac vma_facts :=
  repeat match goal with
  | H : good ?v |- _ =>
      lazymatch goal with
      | _ : v.(vm_start) < v.(vm_end) |- _ => fail
      | _ => pose proof (good_nonempty v H); pose proof (good_start v H);
             pose proof (good_end v H); pose proof (good_offset v H)
      end
  end.
Ltac vlia :=
  vma_facts; unfold before, inside, overlaps, straddles in *;
  cbn [with_end with_start_offset with_permissions with_flags
       vm_start vm_end vm_backing_offset] in *; mlia.

Lemma layout_nil : layout [].
Proof. split; constructor. Qed.
Lemma layout_app l1 l2 :
  layout (l1 ++ l2) ↔
  layout l1 ∧ layout l2 ∧ (∀ u v, u ∈ l1 → v ∈ l2 → before u v).
Proof.
  split.
  - intros [Hs Hg]. apply StronglySorted_app in Hs as (Hb & H1 & H2).
    apply Forall_app in Hg as [? ?]. split_and!; [by split..|done].
  - intros ([? ?] & [? ?] & ?). split; [by apply StronglySorted_app|by apply Forall_app].
Qed.
Lemma layout_cons v l :
  layout (v :: l) ↔ good v ∧ layout l ∧ Forall (before v) l.
Proof.
  split.
  - intros [Hs Hg]. apply StronglySorted_cons in Hs as [? ?].
    apply Forall_cons in Hg as [? ?]. done.
  - intros (? & [? ?] & ?). split; [by apply StronglySorted_cons|by constructor].
Qed.
Lemma layout_elem l v : layout l → v ∈ l → good v.
Proof. intros [_ H] Hv. rewrite Forall_forall in H. auto. Qed.
Lemma layout_delete l1 l2 l3 : layout (l1 ++ l2 ++ l3) → layout (l1 ++ l3).
Proof.
  rewrite !layout_app. intros (? & (? & ? & ?) & Hb). split_and!; try done.
  intros. apply Hb; [done|]. set_solver.
Qed.

(** The sorted list cut at the lower bound of [a]. *)
Lemma partition_at l a :
  layout l → ∃ l1 l2, l = l1 ++ l2 ∧
    Forall (λ v, v.(vm_start) < a) l1 ∧ Forall (λ v, a ≤ v.(vm_start)) l2.
Proof.
  induction l as [|v l IH]; [by exists [], []|].
  intros (Hv & Hl & Hb)%layout_cons. destruct (decide (v.(vm_start) < a)) as [Ha|Ha].
  - destruct (IH Hl) as (l1 & l2 & -> & ? & ?). exists (v :: l1), l2. auto.
  - exists [], (v :: l). split_and!; [done..|]. constructor; [lia|].
    eapply Forall_impl; [exact Hb|]. intros u ?. vlia.
Qed.

(** ** The view *)

(** The attributes of the byte at [a] of [v], as a descriptor of that byte. *)
Definition byte_of (v : kernel_vma) (a : Z) : kernel_vma :=
  mk_vma a (a + 1)
    (if decide (v.(vm_kind) = KERNEL_VMA_KIND_ANONYMOUS) then 0
     else v.(vm_backing_offset) + (a - v.(vm_start)))
    v.(vm_permissions) v.(vm_maximum_permissions) v.(vm_kind) v.(vm_role)
    v.(vm_fault_policy) v.(vm_flags) v.(vm_backing) v.(vm_shm_attachment).

Fixpoint view (l : list kernel_vma) (a : Z) : option kernel_vma :=
  match l with
  | [] => None
  | v :: l' => if decide (inside v a) then Some (byte_of v a) else view l' a
  end.

Lemma view_app l1 l2 a :
  view (l1 ++ l2) a = match view l1 a with Some b => Some b | None => view l2 a end.
Proof. induction l1; simpl; [done|]. by case_decide. Qed.
Lemma view_None l a : view l a = None ↔ Forall (λ v, ¬ inside v a) l.
Proof.
  induction l as [|v l IH]; simpl; [by split|].
  rewrite Forall_cons. case_decide; [|tauto]. split; [done|tauto].
Qed.
Lemma view_elem l v a : layout l → v ∈ l → inside v a → view l a = Some (byte_of v a).
Proof.
  intros Hl (l1 & l2 & ->)%list_elem_of_split Ha. rewrite view_app.
  rewrite (proj2 (view_None l1 a)); [simpl; by rewrite decide_True|].
  apply layout_app in Hl as (_ & _ & Hb). apply Forall_forall. intros u Hu.
  specialize (Hb u v Hu ltac:(left)). vlia.
Qed.

(** Two descriptors of a list are equal or disjoint. *)
Lemma layout_disjoint l u v : layout l → u ∈ l → v ∈ l → u = v ∨ before u v ∨ before v u.
Proof.
  intros Hl Hu (l1 & l2 & ->)%list_elem_of_split.
  apply layout_app in Hl as (_ & (_ & _ & Hb2)%layout_cons & Hb1). rewrite Forall_forall in Hb2.
  apply elem_of_app in Hu as [Hu|[->|Hu]%elem_of_cons]; [|by left|].
  - right. left. exact (Hb1 u v Hu ltac:(left)).
  - right. right. exact (Hb2 u Hu).
Qed.

(** Two descriptors that describe one contiguous run of bytes. *)
Definition same_attributes (u v : kernel_vma) : Prop :=
  u.(vm_permissions) = v.(vm_permissions) ∧
  u.(vm_maximum_permissions) = v.(vm_maximum_permissions) ∧
  u.(vm_kind) = v.(vm_kind) ∧ u.(vm_role) = v.(vm_role) ∧
  u.(vm_fault_policy) = v.(vm_fault_policy) ∧ u.(vm_flags) = v.(vm_flags) ∧
  u.(vm_backing) = v.(vm_backing) ∧ u.(vm_shm_attachment) = v.(vm_shm_attachment).
Definition glued (u v : kernel_vma) : Prop :=
  u.(vm_end) = v.(vm_start) ∧ same_attributes u v ∧
  (u.(vm_kind) = KERNEL_VMA_KIND_ANONYMOUS ∨
   u.(vm_backing_offset) + (u.(vm_end) - u.(vm_start)) = v.(vm_backing_offset)).

Lemma can_merge_glued u v : good u → can_merge u v → glued u v.
Proof.
  unfold can_merge, glued, same_attributes. intros Hu Hm.
  rewrite (u64_small (u.(vm_end) - u.(vm_start))) in Hm by vlia. tauto.
Qed.

Lemma byte_of_glued u v a : glued u v → byte_of u a = byte_of v a.
Proof.
  intros (He & (Hp & Hm & Hk & Hr & Hf & Hfl & Hb & Hs) & Ho). unfold byte_of.
  rewrite Hp, Hm, Hk, Hr, Hf, Hfl, Hb, Hs. f_equal. case_decide; [done|].
  destruct Ho; [congruence|lia].
Qed.

Lemma view_glue l1 l2 u v a :
  glued u v → u.(vm_start) < u.(vm_end) → v.(vm_start) < v.(vm_end) →
  view (l1 ++ u :: v :: l2) a = view (l1 ++ with_end u v.(vm_end) :: l2) a.
Proof.
  intros Hg Hu Hv. rewrite !view_app. destruct (view l1 a); [done|]. simpl.
  pose proof (byte_of_glued u v a Hg) as Hb. destruct Hg as [He _].
  destruct (decide (inside u a)), (decide (inside v a)),
    (decide (inside (with_end u (vm_end v)) a));
    unfold inside in *; simpl in *; try lia; try done.
  by rewrite <-Hb.
Qed.

(** ** Attachment references and byte totals *)

Definition refs (p : Z) (l : list kernel_vma) : Z :=
  Z.of_nat (length (filter (λ v, v.(vm_shm_attachment) = p) l)).

Lemma refs_app p l1 l2 : refs p (l1 ++ l2) = refs p l1 + refs p l2.
Proof. unfold refs. rewrite filter_app, length_app. lia. Qed.
Lemma refs_cons p v l :
  refs p (v :: l) = (if decide (v.(vm_shm_attachment) = p) then 1 else 0) + refs p l.
Proof. unfold refs. rewrite filter_cons. case_decide; simpl; lia. Qed.

Fixpoint bytes_where (f : kernel_vma → bool) (l : list kernel_vma) : Z :=
  match l with
  | [] => 0
  | v :: l' => (if f v then v.(vm_end) - v.(vm_start) else 0) + bytes_where f l'
  end.
Definition all_vma (v : kernel_vma) : bool := true.
Definition data_vma (v : kernel_vma) : bool := bool_decide (kernel_vma_is_data v).
Definition locked_vma (v : kernel_vma) : bool := bool_decide (is_locked v).

(** The class of a descriptor depends on its attributes only. *)
Definition attribute_class (f : kernel_vma → bool) : Prop :=
  ∀ u v, same_attributes u v → f u = f v.
Lemma all_vma_class : attribute_class all_vma.
Proof. done. Qed.
Lemma data_vma_class : attribute_class data_vma.
Proof.
  intros u v (Hp & _ & Hk & Hr & _). apply bool_decide_ext.
  unfold kernel_vma_is_data, private_data_mapping. by rewrite Hp, Hk, Hr.
Qed.
Lemma locked_vma_class : attribute_class locked_vma.
Proof. intros u v (_ & _ & _ & _ & _ & Hf & _). apply bool_decide_ext. unfold is_locked. by rewrite Hf. Qed.

Lemma bytes_where_app f l1 l2 :
  bytes_where f (l1 ++ l2) = bytes_where f l1 + bytes_where f l2.
Proof. induction l1; simpl; lia. Qed.
Lemma bytes_where_bounds f l : Forall good l → 0 ≤ bytes_where f l ≤ bytes_where all_vma l.
Proof.
  induction 1 as [|v l Hv _ IH]; simpl; [lia|]. destruct (f v); vlia.
Qed.
(** Disjoint 64-bit intervals never add up to more than the address space. *)
Lemma bytes_where_total l lo :
  layout l → Forall (λ v, lo ≤ v.(vm_start)) l → 0 ≤ lo ≤ UINT64_MAX →
  bytes_where all_vma l ≤ UINT64_MAX - lo.
Proof.
  revert lo. induction l as [|v l IH]; intros lo; simpl; [lia|].
  intros (Hv & Hl & Hb)%layout_cons [Hlo _]%Forall_cons Hr.
  specialize (IH v.(vm_end) Hl Hb ltac:(vlia)). vlia.
Qed.
Lemma layout_bytes l : layout l → bytes_where all_vma l ≤ UINT64_MAX.
Proof.
  intros Hl. enough (bytes_where all_vma l ≤ UINT64_MAX - 0) by lia.
  apply bytes_where_total; [done| |vlia]. destruct Hl as [_ Hg].
  eapply Forall_impl; [exact Hg|]. intros v Hv. vlia.
Qed.

(** ** Merging *)

(** One merge of two neighbours, as [merge_all] and [insert_entry] do it. *)
Inductive merge_step : list kernel_vma → list kernel_vma → Prop :=
  | Merge_step l1 u v l2 : can_merge u v →
      merge_step (l1 ++ u :: v :: l2) (l1 ++ with_end u v.(vm_end) :: l2).

(** What merging leaves unchanged. *)
Record equivalent (l l' : list kernel_vma) : Prop := {
  eqv_layout : layout l';
  eqv_view a : view l' a = view l a;
  eqv_refs p : p ≠ 0 → refs p l' = refs p l;
  eqv_bytes f : attribute_class f → bytes_where f l' = bytes_where f l;
}.

(** Extending a descriptor over its glued neighbour keeps it valid. *)
Lemma good_extend u v : good u → good v → glued u v → good (with_end u v.(vm_end)).
Proof.
  intros Hu Hv (He & (Hp & Hm & Hk & Hr & Hf & Hfl & Hb & Hs) & Ho).
  split; [|exact (good_page u Hu)|vlia|vlia|vlia].
  assert (Hover : u.(vm_kind) ≠ KERNEL_VMA_KIND_ANONYMOUS →
                  ¬ offset_overflows (with_end u v.(vm_end))).
  { intros Hn. destruct Ho as [|Ho]; [done|].
    assert (Hn' : v.(vm_kind) ≠ KERNEL_VMA_KIND_ANONYMOUS) by congruence.
    pose proof (good_backed v Hv Hn'). unfold offset_overflows in *. simpl. lia. }
  pose proof (good_valid u Hu) as Hval. intros Hbad. apply Hval.
  unfold vma_invalid in *. simpl in *.
  destruct Hbad as [?|Hbad]; [vlia|]. right.
  destruct (decide (u.(vm_kind) = KERNEL_VMA_KIND_ANONYMOUS)) as [Hka|Hka];
    [rewrite Hka in *; intuition congruence|].
  specialize (Hover Hka). tauto.
Qed.

Lemma layout_extend l1 l2 u v w :
  layout (l1 ++ u :: v :: l2) → good w →
  w.(vm_start) = u.(vm_start) → w.(vm_end) = v.(vm_end) → layout (l1 ++ w :: l2).
Proof.
  rewrite !layout_app, !layout_cons. intros (H1 & (Hu & (Hv & H2 & Hb2) & Hb1) & Hb) Hw Hs He.
  split_and!; try done.
  - eapply Forall_impl; [exact Hb2|]. intros x ?. vlia.
  - intros x y Hx [->|Hy]%elem_of_cons.
    + specialize (Hb x u Hx ltac:(left)). vlia.
    + apply (Hb x y Hx). set_solver.
Qed.

Lemma merge_step_equivalent l l' : layout l → merge_step l l' → equivalent l l'.
Proof.
  intros Hl Hs. revert Hl. destruct Hs as [l1 u v l2 Hm]. intros Hl.
  assert (good u ∧ good v) as [Hu Hv].
  { split; apply (layout_elem _ _ Hl); set_solver. }
  pose proof (can_merge_glued u v Hu Hm) as Hg.
  split.
  - eapply layout_extend; [exact Hl|by apply good_extend|done..].
  - intros a. symmetry. apply view_glue; [done|vlia..].
  - intros p Hp. rewrite !refs_app, !refs_cons. simpl.
    assert (v.(vm_shm_attachment) = 0) as ->; [|by rewrite (decide_False (P := 0 = p))].
    apply good_shm; [done|]. unfold can_merge in Hm. tauto.
  - intros f Hf. destruct Hg as (He & Ha & _).
    assert (f (with_end u v.(vm_end)) = f u ∧ f v = f u) as [E1 E2].
    { split; [by apply Hf|]. symmetry. by apply Hf. }
    rewrite !bytes_where_app. simpl. rewrite E1, E2. destruct (f u); lia.
Qed.

#[export] Instance equivalent_trans : Transitive equivalent.
Proof.
  intros l1 l2 l3 [? V1 R1 B1] [? V2 R2 B2]. split; [done|..].
  - intros a. by rewrite V2.
  - intros p Hp. by rewrite R2, R1.
  - intros f Hf. by rewrite B2, B1.
Qed.
Lemma equivalent_refl l : layout l → equivalent l l.
Proof. done. Qed.

Lemma merge_steps_equivalent l l' : layout l → rtc merge_step l l' → equivalent l l'.
Proof.
  intros Hl Hs. induction Hs as [|l1 l2 l3 H1 _ IH]; [by apply equivalent_refl|].
  pose proof (merge_step_equivalent _ _ Hl H1) as He.
  etrans; [exact He|]. apply IH. apply He.
Qed.

(** The greedy left-to-right merge that [merge_all] performs in place. *)
Fixpoint merge_from (current : kernel_vma) (l : list kernel_vma) : list kernel_vma :=
  match l with
  | [] => [current]
  | v :: l' =>
      if decide (can_merge current v) then merge_from (with_end current v.(vm_end)) l'
      else current :: merge_from v l'
  end.
Definition merge_list (l : list kernel_vma) : list kernel_vma :=
  match l with [] => [] | v :: l' => merge_from v l' end.

Lemma merge_from_steps l1 u l : rtc merge_step (l1 ++ u :: l) (l1 ++ merge_from u l).
Proof.
  revert l1 u. induction l as [|v l IH]; intros l1 u; simpl; [done|].
  case_decide.
  - eapply rtc_l; [by apply Merge_step|]. apply IH.
  - specialize (IH (l1 ++ [u]) v). by rewrite <-!app_assoc in IH.
Qed.
Lemma merge_list_equivalent l : layout l → equivalent l (merge_list l).
Proof.
  intros Hl. apply merge_steps_equivalent; [done|].
  destruct l as [|v l]; [done|]. apply (merge_from_steps [] v l).
Qed.

(** No two neighbours of the result can be merged again. *)
Definition unmergeable (l : list kernel_vma) : Prop :=
  ∀ l1 u v l2, l = l1 ++ u :: v :: l2 → ¬ can_merge u v.
Lemma merge_from_head u l : ∃ v l', merge_from u l = v :: l' ∧ v.(vm_start) = u.(vm_start) ∧
  (∀ w, can_merge w v ↔ can_merge w u).
Proof.
  revert u. induction l as [|x l IH]; intros u; simpl; [by exists u, []|].
  case_decide; [|by exists u, (merge_from x l)].
  destruct (IH (with_end u x.(vm_end))) as (v & l' & -> & Hs & Hw). by exists v, l'.
Qed.
Lemma merge_from_unmergeable u l : unmergeable (merge_from u l).
Proof.
  revert u. induction l as [|x l IH]; intros u l1 a b l2 Heq; simpl in *.
  - destruct l1 as [|? [|]]; done.
  - case_decide; [by eapply IH|].
    destruct l1 as [|y l1]; simplify_eq/=; [|by eapply IH].
    destruct (merge_from_head x l) as (v & l' & E & _ & Hw). rewrite E in *. simplify_eq.
    by rewrite Hw.
Qed.

(** ** Ranges *)

(** No descriptor straddles [a]. *)
Definition aligned (l : list kernel_vma) (a : Z) : Prop := Forall (λ v, ¬ straddles a v) l.

(** A list cut into the part below [s], the part in [s, e) and the rest. *)
Definition cut (s e : Z) (l1 m l2 : list kernel_vma) : Prop :=
  Forall (λ v, v.(vm_end) ≤ s) l1 ∧
  Forall (λ v, s ≤ v.(vm_start) ∧ v.(vm_end) ≤ e) m ∧
  Forall (λ v, e ≤ v.(vm_start)) l2.

Lemma cut_at l s e :
  layout l → aligned l s → aligned l e → s < e →
  ∃ l1 m l2, l = l1 ++ m ++ l2 ∧ cut s e l1 m l2.
Proof.
  intros Hl Has Hae Hse.
  destruct (partition_at l s Hl) as (l1 & r & -> & H1 & Hr).
  apply layout_app in Hl as (Hl1 & Hlr & _).
  destruct (partition_at r e Hlr) as (m & l2 & -> & Hm & H2).
  exists l1, m, l2. unfold aligned in *. rewrite !Forall_app in *.
  split; [done|]. destruct Has as [Has _], Hae as (_ & Hae & _), Hr as [Hr _].
  apply layout_app in Hlr as (Hlm & _ & _). destruct Hl1 as [_ G1], Hlm as [_ Gm].
  rewrite !Forall_forall in *. split_and!; rewrite ?Forall_forall.
  - intros v Hv. specialize (H1 v Hv). specialize (Has v Hv). vlia.
  - intros v Hv. specialize (Hm v Hv). specialize (Hae v Hv). specialize (Hr v Hv). vlia.
  - done.
Qed.

Lemma view_cut s e l1 m l2 a :
  cut s e l1 m l2 →
  view (l1 ++ m ++ l2) a = if decide (s ≤ a < e) then view m a else view (l1 ++ l2) a.
Proof.
  intros (H1 & Hm & H2). rewrite !view_app. case_decide.
  - rewrite (proj2 (view_None l1 a)), (proj2 (view_None l2 a)).
    + by destruct (view m a).
    + eapply Forall_impl; [exact H2|]. intros v ?. vlia.
    + eapply Forall_impl; [exact H1|]. intros v ?. vlia.
  - rewrite (proj2 (view_None m a)); [done|].
    eapply Forall_impl; [exact Hm|]. intros v ?. vlia.
Qed.
Lemma view_cut_hole s e l1 m l2 a :
  cut s e l1 m l2 → s ≤ a < e → view (l1 ++ l2) a = None.
Proof.
  intros (H1 & _ & H2) Ha. apply view_None, Forall_app. split.
  - eapply Forall_impl; [exact H1|]. intros v ?. vlia.
  - eapply Forall_impl; [exact H2|]. intros v ?. vlia.
Qed.

(** ** Insertion *)

Record inserted (l : list kernel_vma) (v : kernel_vma) (l' : list kernel_vma) : Prop := {
  ins_layout : layout l';
  ins_view a : view l' a = if decide (inside v a) then Some (byte_of v a) else view l a;
  ins_refs p : p ≠ 0 →
    refs p l' = refs p l + (if decide (v.(vm_shm_attachment) = p) then 1 else 0);
  ins_length : (length l' ≤ S (length l))%nat;
}.

Lemma layout_insert l1 v l2 :
  layout (l1 ++ l2) → good v → Forall (λ u, before u v) l1 → Forall (before v) l2 →
  layout (l1 ++ v :: l2).
Proof.
  rewrite !layout_app, !layout_cons. intros (H1 & H2 & Hb) Hv Hb1 Hb2. split_and!; try done.
  rewrite Forall_forall in Hb1. intros x y Hx [->|Hy]%elem_of_cons; auto.
Qed.
Lemma view_insert l1 v l2 a :
  layout (l1 ++ v :: l2) →
  view (l1 ++ v :: l2) a = if decide (inside v a) then Some (byte_of v a) else view (l1 ++ l2) a.
Proof.
  intros Hl. case_decide as Ha; [apply view_elem; [done|set_solver|done]|].
  rewrite !view_app. simpl. by rewrite decide_False.
Qed.
Lemma merge_steps_length l l' : rtc merge_step l l' → (length l' ≤ length l)%nat.
Proof.
  induction 1 as [|l1 l2 l3 Hs _ IH]; [done|]. destruct Hs.
  rewrite !length_app in *. simpl in *. lia.
Qed.
Lemma inserted_at l1 v l2 l' :
  layout (l1 ++ v :: l2) → rtc merge_step (l1 ++ v :: l2) l' → inserted (l1 ++ l2) v l'.
Proof.
  intros Hl Hs. pose proof (merge_steps_equivalent _ _ Hl Hs) as [He Hv Hr _].
  split; [done|..].
  - intros a. by rewrite Hv, view_insert.
  - intros p Hp. rewrite Hr, !refs_app, refs_cons by done. lia.
  - apply merge_steps_length in Hs. rewrite !length_app in *. simpl in *. lia.
Qed.
(** Without overlap, the cut at the start of [v] is where [v] belongs. *)
Lemma no_overlap_neighbours l1 v l2 :
  layout (l1 ++ l2) → good v →
  Forall (λ u, u.(vm_start) < v.(vm_start)) l1 → Forall (λ u, v.(vm_start) ≤ u.(vm_start)) l2 →
  ¬ Exists (λ u, overlaps u v.(vm_start) v.(vm_end)) (l1 ++ l2) →
  layout (l1 ++ v :: l2).
Proof.
  intros Hl Hv H1 H2 Hn. pose proof (layout_good _ Hl) as Hg.
  rewrite <-Forall_Exists_neg in Hn. rewrite Forall_app in Hn, Hg. destruct Hn as [N1 N2], Hg as [G1 G2].
  apply layout_insert; [done..| |]; rewrite !Forall_forall in *.
  - intros u Hu. specialize (H1 u Hu). specialize (N1 u Hu). vlia.
  - intros u Hu. specialize (H2 u Hu). specialize (N2 u Hu). specialize (G2 u Hu). vlia.
Qed.

(** ** Splitting *)

Definition left_half (v : kernel_vma) (a : Z) : kernel_vma := with_end v a.
Definition right_half (v : kernel_vma) (a : Z) : kernel_vma :=
  with_start_offset v a
    (if decide (v.(vm_kind) ≠ KERNEL_VMA_KIND_ANONYMOUS)
     then v.(vm_backing_offset) + (a - v.(vm_start)) else v.(vm_backing_offset)).

Lemma page_mask a : Z.land a BOAROS_PAGE_MASK = a mod 4096.
Proof. exact (Z.land_ones a 12 ltac:(done)). Qed.

Lemma good_left v a : good v → straddles a v → good (left_half v a).
Proof.
  intros Hv Ha. split; [|exact (good_page v Hv)|unfold left_half; vlia..].
  assert (Hover : offset_overflows (left_half v a) → offset_overflows v).
  { unfold offset_overflows. simpl. vlia. }
  intros Hbad. apply (good_valid v Hv). unfold vma_invalid in *. cbn [left_half with_end
    vm_start vm_end vm_backing_offset vm_permissions vm_maximum_permissions vm_kind vm_role
    vm_fault_policy vm_flags vm_backing vm_shm_attachment] in *.
  destruct Hbad as [?|Hbad]; [vlia|]. right. tauto.
Qed.
Lemma good_right v a : good v → straddles a v → page_aligned a → good (right_half v a).
Proof.
  intros Hv Ha Hp.
  assert (Hover : v.(vm_kind) ≠ KERNEL_VMA_KIND_ANONYMOUS →
    is_u64 (v.(vm_backing_offset) + (a - v.(vm_start))) ∧ ¬ offset_overflows (right_half v a)).
  { intros Hk. pose proof (good_backed v Hv Hk). unfold offset_overflows, right_half in *.
    simpl. rewrite decide_True by done. vlia. }
  assert (Hpage : shared_pages v → Z.land v.(vm_backing_offset) BOAROS_PAGE_MASK = 0 →
    Z.land (right_half v a).(vm_backing_offset) BOAROS_PAGE_MASK = 0).
  { intros Hs. pose proof (good_page v Hv Hs) as Hps. rewrite !page_mask. simpl.
    rewrite decide_True by (destruct Hs; congruence). unfold page_aligned in *. intros Ho.
    by rewrite Z.add_mod, Zminus_mod, Ho, Hps, Hp by done. }
  split; [|by intros|unfold right_half; vlia|unfold right_half; vlia|].
  2:{ unfold right_half. simpl. case_decide as Hk; [by apply Hover|vlia]. }
  intros Hbad. apply (good_valid v Hv). unfold vma_invalid in *.
  change (vm_start (right_half v a)) with a in Hbad.
  cbn [right_half with_start_offset vm_end vm_permissions vm_maximum_permissions vm_kind vm_role
       vm_fault_policy vm_flags vm_backing vm_shm_attachment] in Hbad.
  destruct Hbad as [?|Hbad]; [vlia|]. right. unfold shared_pages in Hpage.
  destruct (decide (v.(vm_kind) = KERNEL_VMA_KIND_ANONYMOUS)) as [Hk|Hk].
  - assert (Ho : vm_backing_offset (right_half v a) = vm_backing_offset v).
    { simpl. rewrite decide_False; [done|]. by intros []. }
    rewrite Hk, Ho in *. intuition congruence.
  - destruct (Hover Hk) as [_ Hno]. tauto.
Qed.

Lemma glued_halves v a : straddles a v → glued (left_half v a) (right_half v a).
Proof.
  intros Ha. split; [done|]. split; [done|]. simpl.
  destruct (decide (v.(vm_kind) = KERNEL_VMA_KIND_ANONYMOUS)); [by left|right].
  rewrite decide_True by done. lia.
Qed.

(** What a split at [a] leaves unchanged; [l'] has [a] as a boundary. *)
Record split_of (l : list kernel_vma) (a : Z) (l' : list kernel_vma) : Prop := {
  spl_layout : layout l';
  spl_view b : view l' b = view l b;
  spl_aligned : aligned l' a;
  spl_keeps b : aligned l b → aligned l' b;
  spl_inside v' : v' ∈ l' → ∃ v, v ∈ l ∧ same_attributes v v' ∧
    v.(vm_start) ≤ v'.(vm_start) ∧ v'.(vm_end) ≤ v.(vm_end);
}.

Lemma split_of_refl l a : layout l → aligned l a → split_of l a l.
Proof. intros Hl Ha. split; try done. intros v Hv. exists v. split_and!; done. Qed.

Lemma aligned_other l1 v l2 a :
  layout (l1 ++ v :: l2) → straddles a v → aligned l1 a ∧ aligned l2 a.
Proof.
  intros (_ & (Hv & _ & Hb2)%layout_cons & Hb1)%layout_app Ha.
  unfold aligned. rewrite !Forall_forall in *. split; intros u Hu.
  - specialize (Hb1 u v Hu ltac:(left)). vlia.
  - specialize (Hb2 u Hu). vlia.
Qed.

Lemma split_of_halves l1 v l2 a :
  layout (l1 ++ v :: l2) → straddles a v → page_aligned a →
  split_of (l1 ++ v :: l2) a (l1 ++ left_half v a :: right_half v a :: l2).
Proof.
  intros Hl Ha Hp. assert (Hv : good v) by (apply (layout_elem _ _ Hl); set_solver).
  pose proof (good_left v a Hv Ha) as Hleft. pose proof (good_right v a Hv Ha Hp) as Hright.
  destruct (aligned_other _ _ _ _ Hl Ha) as [A1 A2]. split.
  - pose proof Hl as (H1 & (_ & H2 & Hb2)%layout_cons & Hb)%layout_app.
    apply layout_app. split_and!; [done| |].
    + apply layout_cons. split_and!; [done| |].
      * apply layout_cons. split_and!; done.
      * apply Forall_cons. split; [unfold before; simpl; lia|].
        eapply Forall_impl; [exact Hb2|]. unfold left_half. intros u ?. vlia.
    + intros x y Hx [->|[->|Hy]%elem_of_cons]%elem_of_cons.
      * exact (Hb x v Hx ltac:(left)).
      * specialize (Hb x v Hx ltac:(left)). unfold right_half. vlia.
      * apply (Hb x y Hx). by right.
  - intros b. rewrite (view_glue l1 l2 _ _ b (glued_halves v a Ha)); [by destruct v|..];
      unfold left_half, right_half; vlia.
  - apply Forall_app. split; [done|]. repeat constructor; try done;
      unfold left_half, right_half; vlia.
  - unfold aligned. intros b. rewrite !Forall_app, !Forall_cons.
    unfold left_half, right_half. intros (? & ? & ?). split_and!; try done; vlia.
  - intros v' [Hv'|[->|[->|Hv']%elem_of_cons]%elem_of_cons]%elem_of_app.
    + exists v'. split_and!; try done. set_solver.
    + exists v. split_and!; try done; [set_solver|unfold left_half; vlia..].
    + exists v. split_and!; try done; [set_solver|unfold right_half; vlia..].
    + exists v'. split_and!; try done. set_solver.
Qed.

(** ** Attribute edits *)

(** [x & ~y == 0] says that every bit of [x] is in [y]. *)
Lemma land_lnot_subset x y :
  Z.land x (Z.lnot y) = 0 ↔ ∀ i, 0 ≤ i → Z.testbit x i = true → Z.testbit y i = true.
Proof.
  split.
  - intros H i Hi Hx. apply (f_equal (λ z, Z.testbit z i)) in H.
    rewrite Z.land_spec, Z.lnot_spec, Hx, Z.bits_0 in H by done.
    by destruct (Z.testbit y i).
  - intros H. apply Z.bits_inj'. intros i Hi. rewrite Z.land_spec, Z.lnot_spec, Z.bits_0 by done.
    specialize (H i Hi). destruct (Z.testbit x i); [by rewrite H|done].
Qed.
Lemma flags_update_mask flags mask new m :
  Z.land new (Z.lnot mask) = 0 → Z.land mask m = 0 ∨ Z.land mask m = m →
  Z.land (Z.lor (Z.land flags (Z.lnot mask)) new) m =
    if decide (Z.land mask m = 0) then Z.land flags m else Z.land new m.
Proof.
  rewrite land_lnot_subset. intros Hn Hm.
  case_decide as Hz; [|destruct Hm as [|Hm]; [done|]]; apply Z.bits_inj'; intros i Hi;
    rewrite ?Z.land_spec, Z.lor_spec, Z.land_spec, Z.lnot_spec by done; specialize (Hn i Hi).
  - apply (f_equal (λ z, Z.testbit z i)) in Hz. rewrite Z.land_spec, Z.bits_0 in Hz.
    destruct (Z.testbit m i), (Z.testbit mask i), (Z.testbit new i), (Z.testbit flags i);
      simpl in *; try done; discriminate (Hn eq_refl).
  - apply (f_equal (λ z, Z.testbit z i)) in Hm. rewrite Z.land_spec in Hm.
    destruct (Z.testbit m i), (Z.testbit mask i), (Z.testbit new i), (Z.testbit flags i);
      simpl in *; try done; discriminate (Hn eq_refl).
Qed.

(** The descriptors a PROTECT or FLAGS edit may touch. *)
Definition editable (edit : kernel_vma_edit) (v : kernel_vma) : Prop :=
  match edit.(ed_kind) with
  | KERNEL_VMA_EDIT_PROTECT =>
      Z.land (Z.land edit.(ed_permissions) KERNEL_VMA_ALL_PERMISSIONS)
        (Z.lnot v.(vm_maximum_permissions)) = 0
  | _ => ¬ flags_request_invalid edit.(ed_flags_mask) edit.(ed_flags)
  end.

Lemma flags_edit_valid mask flags old :
  ¬ flags_request_invalid mask flags →
  Z.land old (Z.lnot KERNEL_VMA_ALL_FLAGS) = 0 →
  Z.land old KERNEL_VMA_LOCK_MASK ≠ KERNEL_VMA_LOCK_ONFAULT →
  let new := Z.lor (Z.land old (Z.lnot mask)) flags in
  Z.land new (Z.lnot KERNEL_VMA_ALL_FLAGS) = 0 ∧
  Z.land new KERNEL_VMA_LOCK_MASK ≠ KERNEL_VMA_LOCK_ONFAULT.
Proof.
  unfold flags_request_invalid. intros Hreq Ho Hl.
  assert (Hm : Z.land mask (Z.lnot KERNEL_VMA_ALL_FLAGS) = 0) by (apply dec_stable; tauto).
  assert (Hf : Z.land flags (Z.lnot mask) = 0) by (apply dec_stable; tauto).
  split.
  - rewrite land_lnot_subset in *. intros i Hi. rewrite Z.lor_spec, Z.land_spec.
    intros [[? _]%andb_true_iff|?]%orb_true_iff; eauto.
  - rewrite flags_update_mask by (done || (destruct (decide (Z.land mask KERNEL_VMA_LOCK_MASK = 0));
      [by left|right; apply dec_stable; tauto])).
    case_decide; [done|tauto].
Qed.

Lemma good_edit_entry edit v : good v → editable edit v → good (edit_entry edit v).
Proof.
  intros Hv He. pose proof (good_valid v Hv) as Hval. unfold edit_entry, editable in *.
  case_decide as Hk.
  - rewrite Hk in He. split; [|exact (good_page v Hv)|apply Hv..].
    intros Hbad. apply Hval. unfold vma_invalid, offset_overflows in *. simpl in *. tauto.
  - assert (Hreq : ¬ flags_request_invalid edit.(ed_flags_mask) edit.(ed_flags))
      by (by destruct edit.(ed_kind)). clear He.
    split; [|exact (good_page v Hv)|apply Hv..].
    destruct (flags_edit_valid _ _ v.(vm_flags) Hreq) as [F1 F2].
    { apply dec_stable. intros ?. apply Hval. unfold vma_invalid. tauto. }
    { intros ?. apply Hval. unfold vma_invalid. tauto. }
    intros Hbad. apply Hval. unfold vma_invalid, offset_overflows in *. simpl in *. tauto.
Qed.

Lemma edit_entry_bounds edit v :
  (edit_entry edit v).(vm_start) = v.(vm_start) ∧ (edit_entry edit v).(vm_end) = v.(vm_end) ∧
  (edit_entry edit v).(vm_shm_attachment) = v.(vm_shm_attachment).
Proof. unfold edit_entry. by case_decide. Qed.

Lemma byte_of_edit edit v a : byte_of (edit_entry edit v) a = edit_entry edit (byte_of v a).
Proof. unfold edit_entry. by case_decide. Qed.

Section map_bounds.
Context (f : kernel_vma → kernel_vma).
Hypothesis f_start : ∀ v, (f v).(vm_start) = v.(vm_start).
Hypothesis f_end : ∀ v, (f v).(vm_end) = v.(vm_end).

Lemma view_map l a :
  (∀ v, byte_of (f v) a = f (byte_of v a)) → view (f <$> l) a = f <$> view l a.
Proof.
  intros Hf. induction l as [|v l IH]; simpl; [done|].
  assert (Hin : inside (f v) a ↔ inside v a) by (unfold inside; by rewrite f_start, f_end).
  rewrite (decide_ext _ _ _ _ Hin). case_decide; simpl; [by rewrite Hf|done].
Qed.
Lemma layout_map l1 m l2 :
  layout (l1 ++ m ++ l2) → (∀ v, v ∈ m → good (f v)) → layout (l1 ++ (f <$> m) ++ l2).
Proof.
  intros Hl Hf. revert l1 Hl. induction m as [|v m IH]; intros l1 Hl; [done|].
  simpl. specialize (IH ltac:(set_solver) (l1 ++ [f v])).
  rewrite <-!app_assoc in IH. apply IH. simpl.
  apply layout_app in Hl as (H1 & (_ & H2 & Hb2)%layout_cons & Hb).
  apply layout_app. split_and!; [done| |].
  - apply layout_cons. split_and!; [apply Hf; left|done|].
    eapply Forall_impl; [exact Hb2|]. intros u. unfold before. by rewrite f_end.
  - intros x y Hx [->|Hy]%elem_of_cons.
    + specialize (Hb x v Hx ltac:(left)). unfold before in *. by rewrite f_start.
    + apply Hb; [done|]. by right.
Qed.
End map_bounds.

(** ** Clearing locks and forking *)

(** [flags &= ~KERNEL_VMA_LOCK_MASK] *)
Definition unlock (v : kernel_vma) : kernel_vma :=
  with_flags v (Z.land v.(vm_flags) (Z.lnot KERNEL_VMA_LOCK_MASK)).
Definition dontfork (v : kernel_vma) : Prop := Z.land v.(vm_flags) KERNEL_VMA_DONTFORK ≠ 0.
#[export] Instance dontfork_dec v : Decision (dontfork v).
Proof. unfold dontfork. apply _. Defined.

Lemma unlock_mask f : Z.land (Z.land f (Z.lnot KERNEL_VMA_LOCK_MASK)) KERNEL_VMA_LOCK_MASK = 0.
Proof. by rewrite <-Z.land_assoc, (Z.land_comm (Z.lnot _)), Z.land_lnot_diag, Z.land_0_r. Qed.
Lemma good_unlock v : good v → good (unlock v).
Proof.
  intros Hv. pose proof (good_valid v Hv) as Hval.
  split; [|exact (good_page v Hv)|apply Hv..].
  assert (Hf : Z.land (unlock v).(vm_flags) (Z.lnot KERNEL_VMA_ALL_FLAGS) = 0).
  { assert (Ho : Z.land v.(vm_flags) (Z.lnot KERNEL_VMA_ALL_FLAGS) = 0).
    { apply dec_stable. intros ?. apply Hval. unfold vma_invalid. tauto. }
    rewrite land_lnot_subset in *. intros i Hi. simpl. rewrite Z.land_spec.
    intros [? _]%andb_true_iff. auto. }
  pose proof (unlock_mask v.(vm_flags)) as Hm.
  intros Hbad. apply Hval. unfold vma_invalid, offset_overflows in *.
  unfold unlock in *. simpl in *. rewrite Hm in Hbad.
  destruct Hbad as [?|[?|[?|Hbad]]]; [tauto|tauto|done|tauto].
Qed.
Lemma unlock_not_locked v : locked_vma (unlock v) = false.
Proof.
  apply bool_decide_eq_false. unfold is_locked, unlock. simpl. intros []. 
  rewrite <-Z.land_assoc. change (Z.land (Z.lnot KERNEL_VMA_LOCK_MASK) KERNEL_VMA_LOCKED) with 0.
  apply Z.land_0_r.
Qed.
Lemma byte_of_unlock v a : byte_of (unlock v) a = unlock (byte_of v a).
Proof. done. Qed.

Lemma refs_map_unlock p l : refs p (unlock <$> l) = refs p l.
Proof. induction l as [|v l IH]; [done|]. by rewrite fmap_cons, !refs_cons, IH. Qed.
Lemma bytes_where_unlock l :
  bytes_where all_vma (unlock <$> l) = bytes_where all_vma l ∧
  bytes_where data_vma (unlock <$> l) = bytes_where data_vma l ∧
  bytes_where locked_vma (unlock <$> l) = 0.
Proof.
  induction l as [|v l (IH1 & IH2 & IH3)]; [done|]. rewrite fmap_cons. cbn [bytes_where].
  rewrite unlock_not_locked, IH1, IH2, IH3. split_and!; try done.
Qed.

Lemma layout_filter (P : kernel_vma → Prop) `{!∀ v, Decision (P v)} l :
  layout l → layout (filter P l).
Proof.
  induction l as [|v l IH]; [done|]. intros (Hv & Hl & Hb)%layout_cons. rewrite filter_cons.
  case_decide; [|auto]. apply layout_cons. split_and!; [done|auto|].
  rewrite Forall_forall in *. intros u [_ Hu]%list_elem_of_filter. auto.
Qed.
Lemma view_filter (P : kernel_vma → Prop) `{!∀ v, Decision (P v)} l a :
  layout l → (∀ v, P (byte_of v a) ↔ P v) →
  view (filter P l) a = view l a ≫= λ b, if decide (P b) then Some b else None.
Proof.
  intros Hl HP. induction l as [|v l IH]; [done|].
  apply layout_cons in Hl as (Hv & Hl & Hb). specialize (IH Hl). rewrite filter_cons.
  cbn [view]. destruct (decide (inside v a)) as [Ha|Ha].
  - simpl. rewrite (decide_ext _ _ _ _ (HP v)). case_decide; simpl; [by rewrite decide_True|].
    rewrite IH, (proj2 (view_None l a)); [done|].
    eapply Forall_impl; [exact Hb|]. intros u ?. vlia.
  - case_decide; simpl; [by rewrite decide_False|done].
Qed.
