(* ===== verification/VmaTheory.v ===== *)
(** * Correctness of the VMA set ([mm/vma.c])

    The array level: every loop of the source is shown to compute the
    corresponding operation on the list of live descriptors, without leaving
    the array.  On top of it, the refinement of each public operation to the
    address map [view], the conservation of attachment references and the
    contract of the two-phase edits. *)
From S2P Require Import Prelude Heap Vma VmaLists.
#[local] Open Scope Z_scope.
Import Heap Vma.

(** ** The stored list *)

(** [set] holds the descriptors [l], followed by the unused slots [rest]. *)
Record stored (set : kernel_vma_set) (l rest : list kernel_vma) : Prop := {
  st_entries : set.(vs_entries) = l ++ rest;
  st_count : set.(vs_count) = length l;
  st_capacity : set.(vs_capacity) = (length l + length rest)%nat;
  st_u32 : Z.of_nat set.(vs_capacity) ≤ UINT32_MAX;
  st_heap : set.(vs_heap) ≠ 0;
}.

Definition live (set : kernel_vma_set) : list kernel_vma :=
  take set.(vs_count) set.(vs_entries).

Lemma stored_live set l rest : stored set l rest → live set = l.
Proof. intros [He Hc _ _ _]. unfold live. by rewrite He, Hc, take_app_length. Qed.
Lemma stored_valid set l rest : stored set l rest → set_valid set.
Proof.
  intros [He Hc Hk _ Hh]. split; [done|]. rewrite He, Hc, Hk. destruct l as [|v l].
  - destruct rest; [by left|right; simpl; split_and!; [done|lia..]].
  - right. simpl. split_and!; [done|lia..].
Qed.
Lemma stored_with_entries set l rest l' rest' :
  stored set l rest → (length l + length rest = length l' + length rest')%nat →
  stored (with_entries set (l' ++ rest') (length l')) l' rest'.
Proof. intros [He Hc Hk Hu Hh] Hlen. split; simpl; try done. lia. Qed.
Lemma stored_overwrite set l1 x y l2 rest :
  stored set (l1 ++ x :: l2) rest →
  stored (with_entries set (l1 ++ y :: l2 ++ rest) set.(vs_count)) (l1 ++ y :: l2) rest.
Proof.
  intros [He Hc Hk Hu Hh]. rewrite length_app in *.
  split; simpl; rewrite <-?app_assoc, ?length_app; done.
Qed.
Lemma stored_overwrite_entries set l1 x y l2 rest n :
  stored set (l1 ++ x :: l2) rest → n = length l1 →
  awrite set.(vs_entries) n y = Done (l1 ++ y :: l2 ++ rest).
Proof. intros [-> _ _ _ _] ->. rewrite <-app_assoc. by apply awrite_app. Qed.
Lemma stored_read set l1 x l2 rest n :
  stored set (l1 ++ x :: l2) rest → n = length l1 → aread set.(vs_entries) n = Done x.
Proof. intros [-> _ _ _ _] ->. rewrite <-app_assoc. by apply aread_app. Qed.

(** Fields an operation on the entries leaves alone. *)
Record same_header (s s' : kernel_vma_set) : Prop := {
  sh_this : s'.(vs_this) = s.(vs_this);
  sh_heap : s'.(vs_heap) = s.(vs_heap);
  sh_generation : s'.(vs_generation) = s.(vs_generation);
  sh_total : s'.(vs_total_bytes) = s.(vs_total_bytes);
  sh_data : s'.(vs_data_bytes) = s.(vs_data_bytes);
  sh_locked : s'.(vs_locked_bytes) = s.(vs_locked_bytes);
}.
#[export] Instance same_header_refl : Reflexive same_header.
Proof. by split. Qed.
#[export] Instance same_header_trans : Transitive same_header.
Proof. intros s1 s2 s3 [] []. split; congruence. Qed.
Lemma same_header_with_entries s es n : same_header s (with_entries s es n).
Proof. by split. Qed.
#[export] Hint Resolve same_header_with_entries : boaros.

(** ** Searching *)

Lemma lower_bound_loop_spec fuel l1 l2 rest a low high :
  Forall (λ v, v.(vm_start) < a) l1 → Forall (λ v, a ≤ v.(vm_start)) l2 →
  (low ≤ length l1 ≤ high)%nat → (high ≤ length (l1 ++ l2))%nat → (high - low < fuel)%nat →
  lower_bound_loop fuel ((l1 ++ l2) ++ rest) a low high = Done (length l1).
Proof.
  intros H1 H2. revert low high. induction fuel as [|fuel IH]; intros low high Hl Hh Hf; [lia|].
  cbn [lower_bound_loop]. case_decide as Hlt; [|f_equal; lia].
  pose proof (Nat.div_lt (high - low) 2 ltac:(lia) ltac:(lia)).
  set (m := (low + (high - low) / 2)%nat) in *.
  assert (Hm : (low ≤ m < high)%nat) by lia. clearbody m.
  destruct (lookup_lt_is_Some_2 (l1 ++ l2) m ltac:(lia)) as [v Hv].
  rewrite (aread_ok _ _ v) by (by apply lookup_app_l_Some). run.
  apply lookup_app_Some in Hv as [Hv|[Hge Hv]].
  - pose proof (lookup_lt_Some _ _ _ Hv). rewrite Forall_lookup in H1.
    rewrite decide_True by eauto. apply IH; lia.
  - rewrite Forall_lookup in H2. specialize (H2 _ _ Hv). simpl in H2.
    rewrite decide_False by lia. apply IH; lia.
Qed.

Lemma lower_bound_spec set l1 l2 rest a :
  stored set (l1 ++ l2) rest →
  Forall (λ v, v.(vm_start) < a) l1 → Forall (λ v, a ≤ v.(vm_start)) l2 →
  lower_bound set a = Done (length l1).
Proof.
  intros [He Hc _ _ _] H1 H2. unfold lower_bound. rewrite He, Hc, length_app.
  apply lower_bound_loop_spec; rewrite ?length_app; (done || lia).
Qed.

(** The entry that an address above its start may fall in is the last one of
    the left part. *)
Lemma touches_neighbours_spec set l1 l2 rest s e :
  stored set (l1 ++ l2) rest → layout (l1 ++ l2) →
  Forall (λ v, v.(vm_start) < s) l1 → Forall (λ v, s ≤ v.(vm_start)) l2 → s < e →
  touches_neighbours set (length l1) s e =
    Done (bool_decide (Exists (λ v, overlaps v s e) (l1 ++ l2))).
Proof.
  intros [He Hc _ _ _] Hl H1 H2 Hse. unfold touches_neighbours. rewrite He, Hc.
  assert (Hleft : (if decide (0 < length l1)%nat then
              v ← aread ((l1 ++ l2) ++ rest) (length l1 - 1);
              Done (bool_decide (s < v.(vm_end)))
            else Done false) = Done (bool_decide (Exists (λ v, overlaps v s e) l1))).
  { destruct l1 as [|u k _] using rev_ind; [done|].
    rewrite length_app. simpl. rewrite decide_True by lia.
    rewrite <-!app_assoc. simpl. rewrite aread_app by lia. run. f_equal.
    apply bool_decide_ext. rewrite Exists_app, Exists_cons, Exists_nil.
    apply Forall_app in H1 as [_ [Hu _]%Forall_cons].
    rewrite <-app_assoc in Hl. apply layout_app in Hl as (_ & _ & Hb).
    split; [intros; right; left; vlia|]. intros [(x & Hx & Hov)%Exists_exists|[Hov|[]]]; [|vlia].
    specialize (Hb x u Hx ltac:(set_solver)). vlia. }
  rewrite Hleft. run. apply layout_app in Hl as (_ & Hl2 & _).
  case_bool_decide as Hl1.
  { f_equal. symmetry. apply bool_decide_eq_true. apply Exists_app. by left. }
  destruct l2 as [|v k].
  { rewrite app_nil_r. rewrite decide_False by lia. f_equal. symmetry.
    by apply bool_decide_eq_false. }
  rewrite length_app. simpl. rewrite decide_True by lia.
  rewrite <-app_assoc. simpl. rewrite aread_app by done. run. f_equal.
  apply layout_cons in Hl2 as (Hv & _ & Hb). apply Forall_cons in H2 as [Hs _].
  apply bool_decide_ext. rewrite Exists_app, Exists_cons. split; [intros; right; left; vlia|].
  intros [?|[Hov|(x & Hx & Hov)%Exists_exists]]; [done|vlia|].
  rewrite Forall_forall in Hb. specialize (Hb x Hx). vlia.
Qed.

(** [lower_bound(set, address + (address != UINT64_MAX))] separates the entries
    that start at or below the address. *)
Lemma partition_above l a :
  layout l → is_u64 a → ∃ l1 l2, l = l1 ++ l2 ∧
    Forall (λ v, v.(vm_start) < above a) l1 ∧ Forall (λ v, above a ≤ v.(vm_start)) l2 ∧
    Forall (λ v, v.(vm_start) ≤ a) l1 ∧ Forall (λ v, a < v.(vm_start)) l2.
Proof.
  intros Hl Ha. destruct (partition_at l (above a) Hl) as (l1 & l2 & -> & H1 & H2).
  exists l1, l2. pose proof (layout_good _ Hl) as Hg. apply Forall_app in Hg as [_ G2].
  split_and!; [done..| |]; unfold above in *; rewrite !Forall_forall in *.
  - intros v Hv. specialize (H1 v Hv). simpl in H1. case_decide; lia.
  - intros v Hv. specialize (H2 v Hv). specialize (G2 v Hv). simpl in H2. case_decide; vlia.
Qed.
(** Only the last of them can contain it. *)
Lemma inside_last k u l2 a v :
  layout ((k ++ [u]) ++ l2) → Forall (λ v, v.(vm_start) ≤ a) (k ++ [u]) →
  Forall (λ v, a < v.(vm_start)) l2 → v ∈ (k ++ [u]) ++ l2 → inside v a → v = u.
Proof.
  intros Hl H1 H2 Hv Ha. rewrite <-app_assoc in Hl. apply layout_app in Hl as (_ & _ & Hb).
  apply Forall_app in H1 as [_ [Hu _]%Forall_cons]. rewrite Forall_forall in H2.
  rewrite <-app_assoc in Hv. apply elem_of_app in Hv as [Hv|[->|Hv]%elem_of_cons]; [|done|].
  - specialize (Hb v u Hv ltac:(set_solver)). vlia.
  - specialize (H2 v Hv). vlia.
Qed.

Lemma split_needed_spec set l rest a :
  stored set l rest → layout l → is_u64 a →
  split_needed set a = Done (bool_decide (Exists (straddles a) l)).
Proof.
  intros Hs Hl Ha. destruct (partition_above l a Hl Ha) as (l1 & l2 & -> & L1 & L2 & H1 & H2).
  unfold split_needed. rewrite (lower_bound_spec _ _ _ _ _ Hs L1 L2). run.
  destruct l1 as [|u k _] using rev_ind.
  - simpl. f_equal. symmetry. apply bool_decide_eq_false. intros (v & Hv & Hst)%Exists_exists.
    rewrite Forall_forall in H2. specialize (H2 v Hv). vlia.
  - rewrite decide_True by (rewrite length_app; simpl; lia).
    assert (Hs' : stored set (k ++ u :: l2) rest) by (by rewrite <-app_assoc in Hs).
    rewrite (stored_read _ _ _ _ _ _ Hs') by (rewrite length_app; simpl; lia). run. f_equal.
    apply bool_decide_ext. rewrite Exists_exists. split.
    + intros. exists u. split; [set_solver|vlia].
    + intros (v & Hv & Hst). by rewrite <-(inside_last k u l2 a v Hl H1 H2 Hv ltac:(vlia)).
Qed.

(** ** Moving entries *)

Lemma erase_shift_spec l1 x l2 rest :
  ∃ rest', length rest' = S (length rest) ∧
    erase_shift (length l2) (length l1) (l1 ++ x :: l2 ++ rest) = Done (l1 ++ l2 ++ rest').
Proof.
  revert l1 x. induction l2 as [|y l2 IH]; intros l1 x; [by exists (x :: rest)|].
  destruct (IH (l1 ++ [y]) y) as (rest' & Hlen & Heq). exists rest'. split; [done|].
  cbn [erase_shift length app]. rewrite (aread_ok _ _ y).
  2:{ rewrite lookup_app_r by lia. by replace (length l1 + 1 - length l1)%nat with 1%nat by lia. }
  run. rewrite awrite_app by done. run.
  rewrite <-!app_assoc, length_app, Nat.add_1_r in Heq. apply Heq.
Qed.

Lemma move_backward_spec l1 l2 y rest :
  ∃ z, move_backward (length l2) (length l1 + 1) (length l1) (l1 ++ l2 ++ y :: rest)
       = Done (l1 ++ z :: l2 ++ rest).
Proof.
  revert y rest. induction l2 as [|x l2 IH] using rev_ind; intros y rest; [by exists y|].
  destruct (IH x (x :: rest)) as [z Hz]. exists z.
  rewrite length_app. simpl. rewrite Nat.add_1_r. cbn [move_backward].
  rewrite <-app_assoc. cbn [app]. rewrite app_assoc.
  rewrite aread_app by (rewrite length_app; lia). run.
  change (x :: y :: rest) with ([x] ++ y :: rest). rewrite app_assoc.
  rewrite awrite_app by (rewrite !length_app; simpl; lia). run.
  rewrite <-!app_assoc. cbn [app]. by rewrite Hz.
Qed.

Lemma move_forward_spec l2 d m rest i dest src :
  m ≠ [] → (dest + i = length d)%nat → (src + i = length d + length m)%nat →
  ∃ rest', length rest' = (length m + length rest)%nat ∧
    move_forward (length l2) i dest src (d ++ m ++ l2 ++ rest) = Done (d ++ l2 ++ rest').
Proof.
  revert d m i. induction l2 as [|x l2 IH]; intros d m i Hm Hd Hs.
  { exists (m ++ rest). by rewrite length_app. }
  destruct m as [|y m]; [done|].
  destruct (IH (d ++ [x]) (m ++ [x]) (S i)) as (rest' & Hlen & Heq).
  { by destruct m. } { rewrite length_app. simpl. lia. }
  { rewrite !length_app. simpl in *. lia. }
  exists rest'. split; [rewrite Hlen, length_app; simpl; lia|].
  cbn [move_forward length]. rewrite app_assoc, <-app_comm_cons.
  rewrite aread_app by (rewrite length_app; simpl in *; lia). run.
  rewrite <-app_assoc. cbn [app]. rewrite awrite_app by lia. run.
  rewrite <-!app_assoc in Heq. apply Heq.
Qed.

(** Opening a slot at [length l1], and closing the gap left by [m]. *)
Lemma move_entries_open l1 l2 y rest n :
  n = length l2 →
  ∃ z, move_entries (l1 ++ l2 ++ y :: rest) (length l1 + 1) (length l1) n
       = Done (l1 ++ z :: l2 ++ rest).
Proof.
  intros ->. unfold move_entries. case_decide as H.
  - destruct l2; [by exists y|]. simpl in H. lia.
  - rewrite decide_False by lia. apply move_backward_spec.
Qed.
Lemma move_entries_close l1 m l2 rest n :
  n = length l2 →
  ∃ rest', length rest' = (length m + length rest)%nat ∧
    move_entries (l1 ++ m ++ l2 ++ rest) (length l1) (length (l1 ++ m)) n
    = Done (l1 ++ l2 ++ rest').
Proof.
  intros ->. unfold move_entries. rewrite length_app. case_decide as H.
  - destruct l2 as [|x l2]; [by exists (m ++ rest); rewrite length_app|].
    destruct m; [by exists rest|]. simpl in H. lia.
  - destruct m as [|y m]; [simpl in H; lia|]. simpl. rewrite decide_True by lia.
    apply (move_forward_spec l2 l1 (y :: m)); [done|simpl; lia..].
Qed.

(** ** Counting bytes *)

Lemma recount_loop_spec l1 l2 rest t d k :
  Forall good l2 → 0 ≤ d ≤ t → 0 ≤ k ≤ t → t + bytes_where all_vma l2 ≤ UINT64_MAX →
  recount_loop (l1 ++ l2 ++ rest) (length l2) (length l1) t d k =
    Done (t + bytes_where all_vma l2, d + bytes_where data_vma l2,
          k + bytes_where locked_vma l2).
Proof.
  revert l1 t d k. induction l2 as [|v l2 IH]; intros l1 t d k Hg Hd Hk Ht.
  { simpl. by rewrite !Z.add_0_r. }
  apply Forall_cons in Hg as [Hv Hg]. cbn [recount_loop length bytes_where] in *.
  pose proof (bytes_where_bounds all_vma l2 Hg). unfold all_vma at 1 in Ht.
  cbn [app]. rewrite aread_app by done. run.
  rewrite (u64_small (v.(vm_end) - v.(vm_start))) by vlia.
  rewrite trap_if_ok by vlia. run.
  replace (l1 ++ v :: l2 ++ rest) with ((l1 ++ [v]) ++ l2 ++ rest) by (by rewrite <-app_assoc).
  replace (S (length l1)) with (length (l1 ++ [v])) by (rewrite length_app; simpl; lia).
  unfold data_vma at 1, locked_vma at 1. 
  rewrite IH; [|done|repeat case_decide; rewrite ?u64_small by vlia; vlia..|vlia].
  unfold all_vma at 2. f_equal. f_equal; [f_equal|].
  - lia.
  - rewrite !bool_decide_decide. case_decide; [rewrite u64_small by vlia|]; lia.
  - rewrite !bool_decide_decide. case_decide; [rewrite u64_small by vlia|]; lia.
Qed.

(** The counters of a set agree with its descriptors. *)
Record counted (set : kernel_vma_set) (l : list kernel_vma) : Prop := {
  ct_total : set.(vs_total_bytes) = bytes_where all_vma l;
  ct_data : set.(vs_data_bytes) = bytes_where data_vma l;
  ct_locked : set.(vs_locked_bytes) = bytes_where locked_vma l;
}.

Lemma recount_bytes_spec set l rest :
  stored set l rest → layout l →
  ∃ set', recount_bytes set = Done set' ∧ stored set' l rest ∧ counted set' l ∧
    set'.(vs_this) = set.(vs_this) ∧ set'.(vs_heap) = set.(vs_heap) ∧
    set'.(vs_generation) = set.(vs_generation) ∧ set'.(vs_capacity) = set.(vs_capacity).
Proof.
  intros [He Hc Hk Hu Hh] Hl. unfold recount_bytes. rewrite He, Hc.
  pose proof (layout_bytes l Hl).
  pose proof (recount_loop_spec [] l rest 0 0 0 (layout_good l Hl)
    ltac:(lia) ltac:(lia) ltac:(lia)) as Hr.
  cbn [app length] in Hr. rewrite Hr. run.
  eexists. split; [done|]. split_and!; try done; by split.
Qed.

(** ** Attachment references *)

Definition event_weight (p : Z) (e : shm_event) : Z :=
  match e with
  | Attachment_open q => if decide (q = p) then 1 else 0
  | Attachment_close q => if decide (q = p) then -1 else 0
  end.
(** References to [p] taken minus references dropped. *)
Definition balance (p : Z) (log : list shm_event) : Z :=
  foldr (λ e acc, event_weight p e + acc) 0 log.
Lemma balance_snoc p log e : balance p (log ++ [e]) = balance p log + event_weight p e.
Proof. induction log as [|x log IH]; simpl; [lia|]. rewrite IH. lia. Qed.

Section world.
Context {H : Type} `{KernelHeap H}.
Implicit Types w : world H.

(** Going from [w] to [w'], the references to each [p] changed by [d p]. *)
Definition took (w w' : world H) (d : Z → Z) : Prop :=
  ∀ p, p ≠ 0 → balance p w'.(w_shm) = balance p w.(w_shm) + d p.

Lemma attachment_open_spec a w :
  ∃ w', attachment_open a w = Done (tt, w') ∧ w'.(w_heap) = w.(w_heap) ∧
    took w w' (λ p, if decide (a = p) then 1 else 0).
Proof.
  unfold attachment_open. case_decide; eexists; split_and!; try done.
  - intros p Hp. simpl. by rewrite balance_snoc.
  - intros p Hp. rewrite decide_False by lia. lia.
Qed.
Lemma attachment_close_spec a w :
  ∃ w', attachment_close a w = Done (tt, w') ∧ w'.(w_heap) = w.(w_heap) ∧
    took w w' (λ p, if decide (a = p) then -1 else 0).
Proof.
  unfold attachment_close. case_decide; eexists; split_and!; try done.
  - intros p Hp. simpl. by rewrite balance_snoc.
  - intros p Hp. rewrite decide_False by lia. lia.
Qed.
Lemma attachment_close_null w : attachment_close 0 w = Done (tt, w).
Proof. done. Qed.

Lemma close_loop_spec l1 m rest w :
  ∃ w', close_loop (length m) (length l1) (l1 ++ m ++ rest) w = Done (tt, w') ∧
    w'.(w_heap) = w.(w_heap) ∧ took w w' (λ p, - refs p m).
Proof.
  revert l1 w. induction m as [|v m IH]; intros l1 w.
  { exists w. split_and!; [done..|]. intros p ?. unfold refs. simpl. lia. }
  cbn [close_loop length app].
  step (aread_app l1 (m ++ rest) v (length l1) eq_refl).
  destruct (attachment_close_spec v.(vm_shm_attachment) w) as (w1 & E1 & Hh1 & Ht1).
  step E1. destruct (IH (l1 ++ [v]) w1) as (w2 & E2 & Hh2 & Ht2).
  rewrite <-app_assoc, length_app, Nat.add_1_r in E2. exists w2. split_and!; [done|congruence|].
  intros p Hp. rewrite Ht2, Ht1, refs_cons by done. case_decide; lia.
Qed.

(** ** Reserving capacity *)

(** [capacity] doubled until it is at least [need]. *)
Definition doubled (capacity need : Z) : Z := capacity * 2 ^ Z.log2_up ((need + capacity - 1) / capacity).
Lemma doubled_enough capacity need : 1 ≤ capacity → need ≤ capacity → 1 ≤ need → doubled capacity need = capacity.
Proof.
  intros Hc Hle Hn. unfold doubled. replace ((need + capacity - 1) / capacity) with 1; [change (2 ^ Z.log2_up 1) with 1; lia|].
  apply (Z.div_unique _ _ 1 (need - 1)); lia.
Qed.
Lemma doubled_twice capacity need : 1 ≤ capacity < need → doubled capacity need = doubled (capacity * 2) need.
Proof.
  intros Hc. unfold doubled. set (n := (need + capacity - 1) / capacity).
  assert (Hn : 2 ≤ n) by (unfold n; apply Z.div_le_lower_bound; lia).
  replace ((need + capacity * 2 - 1) / (capacity * 2)) with ((n + 1) / 2).
  2:{ rewrite <-Z.div_div by lia. f_equal. unfold n. rewrite <-Z.div_add by lia. f_equal. lia. }
  assert (E : Z.log2_up n = Z.succ (Z.log2_up ((n + 1) / 2))); [|rewrite E, Z.pow_succ_r by apply Z.log2_up_nonneg; ring].
  pose proof (Z.log2_up_nonneg ((n + 1) / 2)) as Hm.
  destruct (decide (n = 2)) as [->|Hne]; [done|].
  apply Z.log2_up_unique; [lia|]. pose proof (Z.log2_up_spec ((n + 1) / 2)) as Hs.
  rewrite Z.pow_succ_r by done. replace (Z.succ (Z.log2_up ((n + 1) / 2))) with (1 + Z.log2_up ((n + 1) / 2)) by lia.
  assert (2 ≤ (n + 1) / 2) by (apply Z.div_le_lower_bound; lia). specialize (Hs ltac:(lia)).
  replace (Z.pred (1 + Z.log2_up ((n + 1) / 2))) with (Z.succ (Z.pred (Z.log2_up ((n + 1) / 2)))) by lia.
  assert (0 < Z.log2_up ((n + 1) / 2)) by (apply Z.log2_up_pos; lia).
  rewrite Z.pow_succ_r by lia. pose proof (Z.div_mod (n + 1) 2). pose proof (Z.mod_pos_bound (n + 1) 2). lia.
Qed.
Lemma doubled_bound capacity need : 1 ≤ capacity → 1 ≤ need → need ≤ doubled capacity need ∧ capacity ≤ doubled capacity need.
Proof.
  intros Hc Hn. unfold doubled. set (n := (need + capacity - 1) / capacity).
  assert (H1 : 1 ≤ n) by (apply Z.div_le_lower_bound; lia). pose proof (Z.log2_log2_up_spec n ltac:(lia)) as [_ Hu].
  assert (need ≤ capacity * n).
  { pose proof (Z.div_mod (need + capacity - 1) capacity). pose proof (Z.mod_pos_bound (need + capacity - 1) capacity). unfold n. lia. }
  nia.
Qed.
Lemma grow_loop_spec fuel capacity required :
  1 ≤ capacity ≤ UINT32_MAX → 2 ^ 32 ≤ capacity * 2 ^ Z.of_nat fuel → 1 ≤ required ≤ UINT32_MAX →
  grow_loop (S fuel) capacity required =
    Done (if decide (UINT32_MAX < doubled capacity required) then None else Some (doubled capacity required)).
Proof.
  revert capacity. induction fuel as [|fuel IH]; intros capacity Hc Hf Hr.
  { simpl in Hf. mlia. }
  cbn [grow_loop]. case_decide as Hlt; [|rewrite doubled_enough by lia; by rewrite decide_False by lia].
  rewrite doubled_twice by lia. case_decide as Hbig; change (UINT32_MAX / 2) with 2147483647 in Hbig.
  { pose proof (doubled_bound (capacity * 2) required). rewrite decide_True; [done|mlia]. }
  rewrite u32_small by mlia. rewrite Nat2Z.inj_succ, Z.pow_succ_r in Hf by lia. apply IH; mlia.
Qed.

(** The answer to a request for [need] entries.  With room in the array it is
    granted.  Otherwise the capacity, at first 8, is doubled until it suffices:
    too many entries for 32 bits are NO_MEMORY, and else the heap decides about
    the larger array. *)
Definition room_answer (set : kernel_vma_set) (need : nat) (h : H) : kernel_vma_status :=
  if decide (need ≤ set.(vs_capacity))%nat then KERNEL_VMA_STATUS_OK
  else
    let capacity := doubled (if decide (set.(vs_capacity) = O) then 8 else Z.of_nat set.(vs_capacity)) (Z.of_nat need) in
    if decide (UINT32_MAX < capacity) then KERNEL_VMA_STATUS_NO_MEMORY
    else match (heap_resize h (capacity * sizeof_vma)).1 with
         | KERNEL_HEAP_STATUS_OK => KERNEL_VMA_STATUS_OK
         | KERNEL_HEAP_STATUS_EMPTY => KERNEL_VMA_STATUS_NO_MEMORY
         | _ => KERNEL_VMA_STATUS_STATE
         end.
Lemma room_answer_enough set need h : (need ≤ set.(vs_capacity))%nat → room_answer set need h = KERNEL_VMA_STATUS_OK.
Proof. intros Hn. unfold room_answer. by rewrite decide_True. Qed.
(** A 32-bit count does not hold that many. *)
Lemma room_answer_limit set need h : Z.of_nat set.(vs_capacity) ≤ UINT32_MAX → UINT32_MAX < Z.of_nat need →
  room_answer set need h = KERNEL_VMA_STATUS_NO_MEMORY.
Proof.
  intros Hc Hn. unfold room_answer. rewrite decide_False by lia. rewrite decide_True; [done|].
  destruct (doubled_bound (if decide (set.(vs_capacity) = O) then 8 else Z.of_nat set.(vs_capacity)) (Z.of_nat need)); [case_decide; lia|mlia|lia].
Qed.

Lemma reserve_entries_enough junk set required w :
  (required ≤ set.(vs_capacity))%nat →
  reserve_entries junk set required w = Done (KERNEL_VMA_STATUS_OK, set, w).
Proof. intros. unfold reserve_entries. by rewrite decide_True. Qed.

(** Reserving succeeds with room for [required] entries, or reports NO_MEMORY
    or STATE; the descriptors and the header stay. *)
Lemma reserve_entries_spec junk set l rest required w :
  stored set l rest → Z.of_nat required ≤ UINT32_MAX →
  ∃ status set' rest' w', reserve_entries junk set required w = Done (status, set', w') ∧
    stored set' l rest' ∧ same_header set set' ∧ w'.(w_shm) = w.(w_shm) ∧
    (status = KERNEL_VMA_STATUS_OK ∧
       (required ≤ set'.(vs_capacity) ∧ set.(vs_capacity) ≤ set'.(vs_capacity))%nat ∨
     (status = KERNEL_VMA_STATUS_NO_MEMORY ∨ status = KERNEL_VMA_STATUS_STATE) ∧ set' = set) ∧
    status = room_answer set required w.(w_heap).
Proof.
  intros Hs Hr. unfold reserve_entries, room_answer. case_decide as Hle.
  { exists KERNEL_VMA_STATUS_OK, set, rest, w. split_and!; [done..|by left|done]. }
  set (capacity := if decide (set.(vs_capacity) = O) then _ else _).
  assert (Hcap : 1 ≤ Z.of_nat capacity ≤ UINT32_MAX ∧ (set.(vs_capacity) ≤ capacity)%nat).
  { pose proof (st_u32 _ _ _ Hs). unfold capacity, KERNEL_VMA_INITIAL_CAPACITY.
    case_decide; mlia. }
  assert (Ecap : (if decide (set.(vs_capacity) = O) then 8 else Z.of_nat set.(vs_capacity)) = Z.of_nat capacity) by (unfold capacity; by case_decide). rewrite Ecap. clear Ecap.
  step (grow_loop_spec 32 (Z.of_nat capacity) (Z.of_nat required) ltac:(lia) ltac:(change (2 ^ Z.of_nat 32) with (2 ^ 32); lia) ltac:(lia)).
  pose proof (doubled_bound (Z.of_nat capacity) (Z.of_nat required) ltac:(lia) ltac:(lia)) as [Hc Hcc].
  set (c := doubled (Z.of_nat capacity) (Z.of_nat required)) in *.
  destruct (decide (UINT32_MAX < c)) as [Hbig|Hbig]; [exists KERNEL_VMA_STATUS_NO_MEMORY, set, rest, w; split_and!; [done..|by right; auto|done]|].
  unfold resize_heap at 1. unfold mbind, ST_bind.
  destruct (heap_resize w.(w_heap) (c * sizeof_vma)) as [hs h] eqn:Eh.
  case_decide.
  { exists KERNEL_VMA_STATUS_NO_MEMORY, set, rest, (mk_world h w.(w_shm)). split_and!; [done..|by right; auto|by subst hs]. }
  case_decide.
  { exists KERNEL_VMA_STATUS_STATE, set, rest, (mk_world h w.(w_shm)). split_and!; [done..|by right; auto|by destruct hs]. }
  destruct Hs as [He Hcnt Hk Hu Hh].
  eexists _, _, (rest ++ replicate (Z.to_nat c - length (vs_entries set)) junk), _.
  assert (Hok : hs = KERNEL_HEAP_STATUS_OK) by (destruct (decide (hs = KERNEL_HEAP_STATUS_OK)); [done|tauto]).
  split; [done|]. split_and!; [|by split|done|left; split; [done|simpl; lia]|by rewrite Hok].
  split; simpl; try done.
  - by rewrite He, app_assoc.
  - rewrite length_app, length_replicate, He, length_app. lia.
  - lia.
Qed.

(** ** Merging in place *)

Lemma merge_loop_spec l2 acc cur gap rest w n :
  Forall good l2 → n = (length acc + 1 + length gap)%nat →
  ∃ rest', (length rest' + length (merge_from cur l2) =
            1 + length gap + length l2 + length rest)%nat ∧
    merge_loop (length l2) (acc ++ cur :: gap ++ l2 ++ rest) (length acc) n w =
    Done (acc ++ merge_from cur l2 ++ rest',
          (length acc + length (merge_from cur l2) - 1)%nat, w).
Proof.
  intros Hg ->. revert acc cur gap. induction l2 as [|v l2 IH]; intros acc cur gap.
  { exists (gap ++ rest). rewrite length_app. simpl. split; [lia|].
    unfold mret, ST_ret. do 3 f_equal. lia. }
  apply Forall_cons in Hg as [Hv Hg]. specialize (IH Hg).
  cbn [merge_loop length merge_from app].
  step (aread_app acc (gap ++ v :: l2 ++ rest) cur (length acc) eq_refl).
  assert (Hr : aread (acc ++ cur :: gap ++ v :: l2 ++ rest) (length acc + 1 + length gap) = Done v).
  { change (cur :: gap ++ v :: l2 ++ rest) with ((cur :: gap) ++ v :: l2 ++ rest).
    rewrite app_assoc. apply aread_app. rewrite length_app. simpl. lia. }
  step Hr. case_decide as Hm.
  - step (awrite_app acc (gap ++ v :: l2 ++ rest) cur (with_end cur v.(vm_end)) _ eq_refl).
    rewrite (good_shm v Hv) by (unfold can_merge in Hm; tauto).
    step (attachment_close_null w).
    destruct (IH acc (with_end cur v.(vm_end)) (gap ++ [v])) as (rest' & Hlen & Heq).
    exists rest'. rewrite length_app in *. simpl in Hlen.
    split; [lia|]. rewrite <-app_assoc in Heq. cbn [app length] in Heq.
    by replace (S (length acc + 1 + length gap)) with (length acc + 1 + (length gap + 1))%nat
      by lia.
  - assert (Hw : ∃ gap', (if decide (S (length acc) ≠ (length acc + 1 + length gap)%nat)
        then awrite (acc ++ cur :: gap ++ v :: l2 ++ rest) (S (length acc)) v
        else Done (acc ++ cur :: gap ++ v :: l2 ++ rest)) =
        Done ((acc ++ [cur]) ++ v :: gap' ++ l2 ++ rest) ∧ length gap' = length gap).
    { destruct gap as [|g gap]; simpl.
      - exists []. rewrite decide_False by lia. by rewrite <-app_assoc.
      - exists (gap ++ [v]). rewrite decide_True by lia.
        rewrite length_app, Nat.add_1_r. split; [|done].
        change (acc ++ cur :: g :: gap ++ v :: l2 ++ rest)
          with (acc ++ [cur] ++ g :: gap ++ v :: l2 ++ rest).
        rewrite app_assoc, awrite_app by (rewrite length_app; simpl; lia).
        by rewrite <-(app_assoc gap). }
    destruct Hw as (gap' & Hw & Hg'). step Hw.
    destruct (IH (acc ++ [cur]) v gap') as (rest' & Hlen & Heq).
    exists rest'. split; [simpl; lia|].
    rewrite length_app, <-!app_assoc in *. cbn [length app] in *.
    rewrite Hg' in Heq. rewrite Nat.add_1_r in Heq at 1.
    replace (S (length acc + 1 + length gap)) with (length acc + 1 + 1 + length gap)%nat by lia.
    rewrite Heq. do 3 f_equal. lia.
Qed.

Lemma merge_all_spec set l rest w :
  stored set l rest → Forall good l →
  ∃ set' rest', merge_all set w = Done (set', w) ∧ stored set' (merge_list l) rest' ∧
    same_header set set' ∧ set'.(vs_capacity) = set.(vs_capacity).
Proof.
  intros Hs Hg. pose proof Hs as [He Hc _ _ _]. unfold merge_all. rewrite Hc, He.
  destruct l as [|v l]; [by exists set, rest|]. apply Forall_cons in Hg as [_ Hg].
  rewrite decide_False by done.
  replace (length (v :: l) - 1)%nat with (length l) by (simpl; lia).
  destruct (merge_loop_spec l [] v [] rest w 1 Hg eq_refl) as (rest' & Hlen & Heq).
  cbn [app length] in Heq. step Heq.
  destruct (merge_from_head v l) as (x & l' & Hx & _).
  eexists _, rest'. split; [done|]. cbn [merge_list].
  replace (0 + length (merge_from v l) - 1 + 1)%nat with (length (merge_from v l))
    by (rewrite Hx; simpl; lia).
  split_and!; [|by split|done].
  apply (stored_with_entries _ _ _ _ _ Hs). simpl in *. lia.
Qed.

Lemma erase_entry_spec set l1 v l2 rest w :
  stored set (l1 ++ v :: l2) rest →
  ∃ set' rest' w', erase_entry set (length l1) w = Done (set', w') ∧
    stored set' (l1 ++ l2) rest' ∧ same_header set set' ∧
    set'.(vs_capacity) = set.(vs_capacity) ∧ w'.(w_heap) = w.(w_heap) ∧
    took w w' (λ p, if decide (v.(vm_shm_attachment) = p) then -1 else 0).
Proof.
  intros Hs. pose proof Hs as [He Hc _ _ _]. unfold erase_entry. rewrite Hc, He.
  rewrite <-app_assoc. cbn [app].
  step (aread_app l1 (l2 ++ rest) v _ eq_refl).
  destruct (attachment_close_spec v.(vm_shm_attachment) w) as (w' & Ew & Hh & Ht).
  step Ew. destruct (erase_shift_spec l1 v l2 rest) as (rest' & Hlen & Heq).
  replace (length (l1 ++ v :: l2) - (length l1 + 1))%nat with (length l2)
    by (rewrite length_app; simpl; lia).
  step Heq. exists (with_entries set (l1 ++ l2 ++ rest') (length (l1 ++ l2))), rest', w'.
  split_and!; [|rewrite app_assoc; apply (stored_with_entries _ _ _ _ _ Hs)|by split|done..].
  - unfold mret, ST_ret. do 3 f_equal. rewrite !length_app. simpl. lia.
  - rewrite !length_app. simpl. lia.
Qed.

(** ** Inserting a descriptor *)

(** A descriptor of [l] and [v] can become one. *)
Definition joins (l : list kernel_vma) (v : kernel_vma) : Prop := Exists (λ u, can_merge u v ∨ can_merge v u) l.
#[export] Instance joins_dec l v : Decision (joins l v).
Proof. unfold joins. apply _. Defined.
(** The answer for a descriptor that overlaps nothing: only one that joins no
    other needs an entry of its own. *)
Definition insert_answer (set : kernel_vma_set) (l : list kernel_vma) (v : kernel_vma) (h : H) : kernel_vma_status :=
  if decide (joins l v) then KERNEL_VMA_STATUS_OK else room_answer set (S (length l)) h.
Lemma joins_answer set l v h u : u ∈ l → can_merge u v ∨ can_merge v u → insert_answer set l v h = KERNEL_VMA_STATUS_OK.
Proof. intros Hu Hm. unfold insert_answer. rewrite decide_True; [done|]. apply Exists_exists. by exists u. Qed.

Inductive insert_result (set : kernel_vma_set) (l : list kernel_vma) (v : kernel_vma) w
    : kernel_vma_status → kernel_vma_set → world H → Prop :=
  | Insert_conflict :
      Exists (λ u, overlaps u v.(vm_start) v.(vm_end)) l →
      insert_result set l v w KERNEL_VMA_STATUS_CONFLICT set w
  | Insert_ok set' l' rest' w' :
      ¬ Exists (λ u, overlaps u v.(vm_start) v.(vm_end)) l →
      stored set' l' rest' → same_header set set' → inserted l v l' →
      took w w' (λ p, refs p l' - refs p l) →
      ((length l < set.(vs_capacity))%nat →
         w'.(w_heap) = w.(w_heap) ∧ set'.(vs_capacity) = set.(vs_capacity)) →
      insert_answer set l v w.(w_heap) = KERNEL_VMA_STATUS_OK →
      insert_result set l v w KERNEL_VMA_STATUS_OK set' w'
  | Insert_refused status w' :
      status = KERNEL_VMA_STATUS_NO_MEMORY ∨ status = KERNEL_VMA_STATUS_STATE →
      ¬ Exists (λ u, overlaps u v.(vm_start) v.(vm_end)) l →
      (set.(vs_capacity) ≤ length l)%nat → w'.(w_shm) = w.(w_shm) →
      insert_answer set l v w.(w_heap) = status →
      insert_result set l v w status set w'.

Lemma merges_before_spec set l1 l2 rest v :
  stored set (l1 ++ l2) rest →
  (∃ k u, l1 = k ++ [u] ∧ can_merge u v ∧ merges_before set (length l1) v = Done true) ∨
  (∀ k u, l1 = k ++ [u] → ¬ can_merge u v) ∧ merges_before set (length l1) v = Done false.
Proof.
  intros [He _ _ _ _]. unfold merges_before. rewrite He.
  destruct l1 as [|u k _] using rev_ind; [right; split; [by intros [|]|done]|].
  rewrite length_app. simpl. rewrite decide_True by lia.
  rewrite <-!app_assoc. cbn [app]. rewrite aread_app by lia. run.
  case_bool_decide; [left; by exists k, u|right]. split; [|done]. by intros ? ? [-> [= <-]]%app_inj_tail_iff.
Qed.
Lemma merges_after_spec set l1 l2 rest v n :
  stored set (l1 ++ l2) rest → n = length l1 →
  (∃ u k, l2 = u :: k ∧ can_merge v u ∧ merges_after set n v = Done true) ∨
  (∀ u k, l2 = u :: k → ¬ can_merge v u) ∧ merges_after set n v = Done false.
Proof.
  intros [He Hc _ _ _] ->. unfold merges_after. rewrite He, Hc.
  destruct l2 as [|u k]; [right; split; [done|]; by rewrite app_nil_r, decide_False by lia|].
  rewrite length_app. simpl. rewrite decide_True by lia.
  rewrite <-app_assoc. cbn [app]. rewrite aread_app by done. run.
  case_bool_decide; [left; by exists u, k|right]. split; [|done]. by intros ? ? [= <- <-].
Qed.
(** Only the neighbours of the place of [v] can join it. *)
Lemma neighbours_join l1 l2 v : layout (l1 ++ v :: l2) →
  (∀ k u, l1 = k ++ [u] → ¬ can_merge u v) → (∀ u k, l2 = u :: k → ¬ can_merge v u) → ¬ joins (l1 ++ l2) v.
Proof.
  intros Hl Hb Ha (u & Hu & Hm)%Exists_exists. apply layout_app in Hl as (Hl1 & (Hv & Hl2 & Hvl)%layout_cons & H12). rewrite Forall_forall in Hvl.
  pose proof (good_nonempty v Hv). apply elem_of_app in Hu as [Hu|Hu].
  - pose proof (good_nonempty u (layout_elem _ _ Hl1 Hu)). assert (before u v) by (apply H12; [done|left]). destruct Hm as [Hm|[? _]]; [|unfold before in *; lia].
    destruct l1 as [|x k _] using rev_ind; [by apply not_elem_of_nil in Hu|]. apply elem_of_app in Hu as [Hu|Hu%list_elem_of_singleton]; [|subst u; by apply (Hb k x)].
    apply layout_app in Hl1 as (_ & Hx%layout_good & Hux). apply Forall_singleton, good_nonempty in Hx. specialize (Hux u x Hu ltac:(left)).
    assert (before x v) by (apply H12; [set_solver|left]). destruct Hm as [? _]. unfold before in *. lia.
  - pose proof (good_nonempty u (layout_elem _ _ Hl2 Hu)). pose proof (Hvl u Hu). destruct Hm as [[? _]|Hm]; [unfold before in *; lia|].
    destruct l2 as [|x k]; [by apply not_elem_of_nil in Hu|]. apply elem_of_cons in Hu as [->|Hu]; [by apply (Ha x k)|].
    apply layout_cons in Hl2 as (Hx%good_nonempty & _ & Hxu). rewrite Forall_forall in Hxu. specialize (Hxu u Hu). assert (before v x) by (apply Hvl; left). destruct Hm as [? _]. unfold before in *. lia.
Qed.

(** A merge involves no attachment, so no reference moves. *)
Lemma inserted_unattached l v l' w :
  inserted l v l' → v.(vm_shm_attachment) = 0 → took w w (λ p, refs p l' - refs p l).
Proof.
  intros [_ _ Hr _] Ha p Hp. rewrite Hr, Ha, decide_False by done. lia.
Qed.
Lemma can_merge_unattached u v :
  can_merge u v → good u ∨ good v → u.(vm_shm_attachment) = 0 ∧ v.(vm_shm_attachment) = 0.
Proof.
  unfold can_merge. intros Hm [Hg|Hg].
  - pose proof (good_shm _ Hg ltac:(tauto)). intuition congruence.
  - pose proof (good_shm _ Hg ltac:(tauto)). intuition congruence.
Qed.

Lemma insert_fresh junk set l1 l2 rest v w :
  stored set (l1 ++ l2) rest → layout (l1 ++ v :: l2) →
  ¬ Exists (λ u, overlaps u v.(vm_start) v.(vm_end)) (l1 ++ l2) → ¬ joins (l1 ++ l2) v →
  ∃ status set' w',
    (if decide (Z.of_nat set.(vs_count) = UINT32_MAX)
     then mret (KERNEL_VMA_STATUS_NO_MEMORY, set)
     else
       '(status, set) ← reserve_entries junk set (set.(vs_count) + 1);
       if decide (status ≠ KERNEL_VMA_STATUS_OK) then mret (status, set)
       else
         entries ← lift (move_entries set.(vs_entries) (length l1 + 1) (length l1)
                           (set.(vs_count) - length l1));
         entries ← lift (awrite entries (length l1) v);
         _ ← attachment_open v.(vm_shm_attachment);
         mret (KERNEL_VMA_STATUS_OK, with_entries set entries (set.(vs_count) + 1)))
      w = Done (status, set', w') ∧
    insert_result set (l1 ++ l2) v w status set' w'.
Proof.
  intros Hs Hl Hn Hj. pose proof (st_count _ _ _ Hs) as Hc.
  pose proof (st_u32 _ _ _ Hs). pose proof (st_capacity _ _ _ Hs).
  assert (Hans : insert_answer set (l1 ++ l2) v w.(w_heap) = room_answer set (set.(vs_count) + 1) w.(w_heap))
    by (unfold insert_answer; rewrite decide_False by done; by rewrite Hc, Nat.add_1_r).
  case_decide as Hmax.
  { eexists _, _, _. split; [done|]. apply Insert_refused; auto; [mlia|]. rewrite Hans. apply room_answer_limit; [done|lia]. }
  destruct (reserve_entries_spec junk set _ rest (set.(vs_count) + 1) w Hs ltac:(lia))
    as (status & set1 & rest1 & w1 & E1 & Hs1 & Hh1 & Hw1 & Hcase & Hroomy). rewrite <-Hans in Hroomy.
  assert (Hroom : (length (l1 ++ l2) < set.(vs_capacity))%nat →
    set1 = set ∧ w1 = w ∧ status = KERNEL_VMA_STATUS_OK).
  { intros Hr. rewrite reserve_entries_enough in E1 by lia. by simplify_eq. }
  step E1. destruct Hcase as [[-> Hcap]|[Hst ->]].
  2:{ exists status, set, w1. rewrite decide_True by (destruct Hst; congruence). split; [done|].
      apply Insert_refused; try done. apply Nat.nlt_ge. intros Hr.
      destruct (Hroom Hr) as (_ & _ & ->). by destruct Hst. }
  rewrite decide_False by auto. pose proof Hs1 as [He1 Hc1 Hk1 _ _].
  destruct rest1 as [|y rest1]; [simpl in *; lia|].
  rewrite He1, Hc1, <-app_assoc.
  destruct (move_entries_open l1 l2 y rest1 (length (l1 ++ l2) - length l1)) as [z Hz];
    [rewrite length_app; lia|].
  step Hz. step (awrite_app l1 (l2 ++ rest1) z v _ eq_refl).
  destruct (attachment_open_spec v.(vm_shm_attachment) w1) as (w2 & E2 & Hheap & Ht).
  step E2. exists KERNEL_VMA_STATUS_OK,
    (with_entries set1 ((l1 ++ v :: l2) ++ rest1) (length (l1 ++ v :: l2))), w2.
  assert (Hins : inserted (l1 ++ l2) v (l1 ++ v :: l2)) by (by apply inserted_at).
  split; [unfold mret, ST_ret; rewrite <-app_assoc; cbn [app];
          do 4 f_equal; rewrite !length_app; simpl; lia|].
  eapply (Insert_ok _ _ _ _ _ _ rest1); try done.
  - apply (stored_with_entries _ _ _ _ _ Hs1). rewrite !length_app. simpl. lia.
  - etrans; [exact Hh1|by split].
  - intros p Hp. rewrite Ht, Hw1, (ins_refs _ _ _ Hins) by done. lia.
  - intros Hr. destruct (Hroom Hr) as (-> & -> & _). done.
Qed.

(** [v] extends the entry [u] before it, and possibly closes the gap to the
    entry after it. *)
Lemma insert_merge_before set k u l2 rest v w n :
  stored set (k ++ u :: l2) rest → layout (k ++ u :: v :: l2) →
  ¬ Exists (λ x, overlaps x v.(vm_start) v.(vm_end)) (k ++ u :: l2) → can_merge u v →
  n = S (length k) →
  ∃ status set' w',
    (prev ← lift (aread set.(vs_entries) (n - 1));
     let prev := with_end prev v.(vm_end) in
     entries ← lift (awrite set.(vs_entries) (n - 1) prev);
     let set := with_entries set entries set.(vs_count) in
     after ← lift (merges_after set n prev);
     if after : bool then
       next ← lift (aread set.(vs_entries) n);
       entries ← lift (awrite set.(vs_entries) (n - 1) (with_end prev next.(vm_end)));
       set ← erase_entry (with_entries set entries set.(vs_count)) n;
       mret (KERNEL_VMA_STATUS_OK, set)
     else mret (KERNEL_VMA_STATUS_OK, set)) w = Done (status, set', w') ∧
    insert_result set (k ++ u :: l2) v w status set' w'.
Proof.
  intros Hs Hl Hn Hm ->. replace (S (length k) - 1)%nat with (length k) by lia.
  assert (Hu : good u) by (apply (layout_elem _ _ Hl); set_solver).
  destruct (can_merge_unattached u v Hm ltac:(by left)) as [_ Hva].
  set (u' := with_end u v.(vm_end)).
  assert (Hm1 : rtc merge_step (k ++ u :: v :: l2) (k ++ u' :: l2))
    by (by apply rtc_once, Merge_step).
  step (stored_read _ _ _ _ _ _ Hs eq_refl).
  step (stored_overwrite_entries _ _ _ u' _ _ _ Hs eq_refl).
  pose proof (stored_overwrite _ _ _ u' _ _ Hs) as Hs1.
  set (set1 := with_entries set _ _) in *.
  destruct (merges_after_spec set1 (k ++ [u']) l2 rest u' (S (length k))) as
    [(x & l3 & -> & Hm2 & E)|[_ E]]; [by rewrite <-app_assoc|rewrite length_app; simpl; lia|..];
    step E.
  - set (u'' := with_end u' x.(vm_end)).
    assert (Hs1' : stored set1 ((k ++ [u']) ++ x :: l3) rest) by (by rewrite <-app_assoc).
    step (stored_read _ _ _ _ _ (S (length k)) Hs1' ltac:(rewrite length_app; simpl; lia)).
    step (stored_overwrite_entries _ _ _ u'' _ _ _ Hs1 eq_refl).
    pose proof (stored_overwrite _ _ _ u'' _ _ Hs1) as Hs2.
    set (set2 := with_entries set1 _ _) in *.
    destruct (erase_entry_spec set2 (k ++ [u'']) x l3 rest w)
      as (set3 & rest3 & w3 & E3 & Hs3 & Hh3 & Hc3 & Hw3 & Ht3); [by rewrite <-app_assoc|].
    rewrite length_app, Nat.add_1_r in E3. step E3. rewrite <-app_assoc in Hs3.
    exists KERNEL_VMA_STATUS_OK, set3, w3. split; [done|].
    assert (Hins : inserted (k ++ u :: x :: l3) v (k ++ u'' :: l3)).
    { change (k ++ u :: x :: l3) with (k ++ [u] ++ x :: l3). rewrite app_assoc.
      apply inserted_at; rewrite <-app_assoc; [done|].
      etrans; [exact Hm1|]. by apply rtc_once, Merge_step. }
    assert (Hxa : x.(vm_shm_attachment) = 0).
    { eapply can_merge_unattached; [exact Hm2|right]. apply (layout_elem _ _ Hl). set_solver. }
    apply (Insert_ok _ _ _ _ _ (k ++ u'' :: l3) rest3); try done; [| |apply (joins_answer _ _ _ _ u); [set_solver|by left]].
    + etrans; [|exact Hh3]. by split.
    + intros p Hp. rewrite Ht3, Hxa, decide_False by done.
      rewrite (inserted_unattached _ _ _ w Hins Hva p Hp) at 1. lia.
  - exists KERNEL_VMA_STATUS_OK, set1, w. split; [done|].
    assert (Hins : inserted (k ++ u :: l2) v (k ++ u' :: l2)).
    { change (k ++ u :: l2) with (k ++ [u] ++ l2). rewrite app_assoc.
      apply inserted_at; by rewrite <-app_assoc. }
    eapply Insert_ok; try done; [by eapply inserted_unattached|]. apply (joins_answer _ _ _ _ u); [set_solver|by left].
Qed.

(** The outcome of [insert_entry] in every case. *)
Lemma insert_entry_spec junk set l rest v w :
  stored set l rest → layout l → good v →
  ∃ status set' w', insert_entry junk set v w = Done (status, set', w') ∧
    insert_result set l v w status set' w'.
Proof.
  intros Hs Hl Hv. destruct (partition_at l v.(vm_start) Hl) as (l1 & l2 & -> & H1 & H2).
  unfold insert_entry. step (lower_bound_spec _ _ _ _ _ Hs H1 H2).
  step (touches_neighbours_spec _ _ _ _ _ _ Hs Hl H1 H2 (good_nonempty v Hv)).
  case_bool_decide as Hn.
  { eexists _, _, _. split; [done|]. by apply Insert_conflict. }
  pose proof (no_overlap_neighbours _ _ _ Hl Hv H1 H2 Hn) as Hlv.
  destruct (merges_before_spec set l1 l2 rest v Hs) as [(k & u & -> & Hm & E)|[Hnb E]]; step E.
  { rewrite <-app_assoc in Hs, Hn, Hlv |- *.
    apply (insert_merge_before set k u l2 rest v w); try done. rewrite length_app. simpl. lia. }
  destruct (merges_after_spec set l1 l2 rest v _ Hs eq_refl) as [(x & l3 & -> & Hm & E')|[Hna E']]; step E'.
  - set (v' := with_end v x.(vm_end)).
    step (stored_read _ _ _ _ _ _ Hs eq_refl).
    step (stored_overwrite_entries _ _ _ v' _ _ _ Hs eq_refl).
    pose proof (stored_overwrite _ _ _ v' _ _ Hs) as Hs1.
    eexists _, _, _. split; [done|].
    assert (Hins : inserted (l1 ++ x :: l3) v (l1 ++ v' :: l3)).
    { apply inserted_at; [done|]. by apply rtc_once, Merge_step. }
    eapply Insert_ok; try done; [eapply inserted_unattached; [done|]|apply (joins_answer _ _ _ _ x); [set_solver|by right]].
    by apply (can_merge_unattached v x Hm ltac:(by left)).
  - apply (insert_fresh junk set l1 l2 rest v w); try done. by apply neighbours_join.
Qed.

(** ** Splitting an entry *)

Lemma split_at_spec set l rest a w :
  stored set l rest → layout l → is_u64 a → (Exists (straddles a) l → page_aligned a) →
  (Exists (straddles a) l → (length l < set.(vs_capacity))%nat) →
  ∃ set' l' rest' w', split_at set a w = Done (KERNEL_VMA_STATUS_OK, set', w') ∧
    stored set' l' rest' ∧ same_header set set' ∧ set'.(vs_capacity) = set.(vs_capacity) ∧
    split_of l a l' ∧
    length l' = (length l + Nat.b2n (bool_decide (Exists (straddles a) l)))%nat ∧
    w'.(w_heap) = w.(w_heap) ∧ took w w' (λ p, refs p l' - refs p l).
Proof.
  intros Hs Hl Ha Hp Hroom.
  assert (Hskip : ¬ Exists (straddles a) l → split_of l a l ∧
    length l = (length l + Nat.b2n (bool_decide (Exists (straddles a) l)))%nat ∧
    took w w (λ p, refs p l - refs p l)).
  { intros Hn. rewrite bool_decide_eq_false_2 by done. split_and!; [|simpl; lia|intros ? ?; lia].
    apply split_of_refl; [done|]. by apply Forall_Exists_neg. }
  destruct (partition_above l a Hl Ha) as (l1 & l2 & -> & L1 & L2 & H1 & H2).
  unfold split_at. step (lower_bound_spec _ _ _ _ _ Hs L1 L2).
  destruct l1 as [|u k _] using rev_ind.
  { destruct Hskip as (? & ? & ?); [|by exists set, l2, rest, w; split_and!].
    intros (v & Hv & Hst)%Exists_exists. rewrite Forall_forall in H2. specialize (H2 v Hv). vlia. }
  assert (Hlast := λ v, inside_last k u l2 a v Hl H1 H2).
  rewrite <-app_assoc in *. cbn [app] in *.
  rewrite length_app. cbn [length]. rewrite Nat.add_1_r. rewrite decide_False by done.
  replace (S (length k) - 1)%nat with (length k) by lia.
  step (stored_read _ _ _ _ _ _ Hs eq_refl). case_decide as Hout.
  { destruct Hskip as (? & ? & ?); [|by exists set, (k ++ u :: l2), rest, w; split_and!].
    intros (v & Hv & Hst)%Exists_exists. rewrite (Hlast v Hv ltac:(vlia)) in Hst. vlia. }
  assert (Hst : straddles a u) by vlia.
  assert (Hex : Exists (straddles a) (k ++ u :: l2)).
  { apply Exists_exists. exists u. split; [set_solver|done]. }
  specialize (Hroom Hex). rewrite (st_count _ _ _ Hs).
  rewrite (decide_False (P := (_ ≤ length _)%nat)) by lia.
  assert (Hu : good u) by (apply (layout_elem _ _ Hl); set_solver).
  rewrite (u64_small (a - u.(vm_start))) by vlia.
  rewrite (decide_False (P := _ ∧ _)).
  2:{ intros [Hk Hov]. pose proof (good_backed u Hu Hk). unfold offset_overflows in *. vlia. }
  step (stored_overwrite_entries _ _ _ (with_end u a) _ _ _ Hs eq_refl).
  pose proof (st_capacity _ _ _ Hs). destruct rest as [|y rest]; [simpl in *; lia|].
  destruct (move_entries_open (k ++ [left_half u a]) l2 y rest
    (length (k ++ u :: l2) - length k - 1)) as [z Hz]; [rewrite length_app; simpl; lia|].
  rewrite length_app, <-!app_assoc in Hz. cbn [app length] in Hz.
  replace (length k + 2)%nat with (length k + 1 + 1)%nat by lia. step Hz.
  change (u.(vm_start)) with (vm_start u). fold (right_half u a).
  assert (Hw : awrite (k ++ left_half u a :: z :: l2 ++ rest) (length k + 1) (right_half u a) =
    Done ((k ++ left_half u a :: right_half u a :: l2) ++ rest)).
  { change (k ++ left_half u a :: z :: l2 ++ rest) with (k ++ [left_half u a] ++ z :: l2 ++ rest).
    rewrite app_assoc, awrite_app by (rewrite length_app; simpl; lia).
    by rewrite <-!app_assoc. }
  step Hw. change (vm_shm_attachment (right_half u a)) with (vm_shm_attachment u).
  destruct (attachment_open_spec u.(vm_shm_attachment) w) as (w' & Ew & Hh & Ht). step Ew.
  replace (length (k ++ u :: l2) + 1)%nat
    with (length (k ++ left_half u a :: right_half u a :: l2)) by (rewrite !length_app; simpl; lia).
  eexists _, _, rest, w'. split; [done|].
  split_and!; [apply (stored_with_entries _ _ _ _ _ Hs)|by split|done|by apply split_of_halves; auto|..];
    [rewrite !length_app; simpl; lia| |done|].
  - rewrite bool_decide_eq_true_2 by done. rewrite !length_app. simpl. lia.
  - intros p Hp'. rewrite Ht, !refs_app, !refs_cons by done. simpl. case_decide; lia.
Qed.
End world.
