(* ===== verification/VmaPrepare.v ===== *)
(** * Edits of the areas, and their preparation *)
From S2P Require Import Prelude Heap Vma VmaLists VmaTheory.
#[local] Open Scope Z_scope.
Import Heap Vma.

(** ** The invariant *)

Record wf (set : kernel_vma_set) : Prop := {
  wf_stored : ∃ rest, stored set (live set) rest;
  wf_layout : layout (live set);
  wf_counted : counted set (live set);
  wf_generation : is_u64 set.(vs_generation);
}.

Lemma wf_intro set l rest :
  stored set l rest → layout l → counted set l → is_u64 set.(vs_generation) → wf set.
Proof.
  intros Hs Hl Hc Hg. pose proof (stored_live _ _ _ Hs) as Hlive.
  split; rewrite ?Hlive; [by exists rest|done..].
Qed.
Lemma wf_valid set : wf set → set_valid set.
Proof. intros [[rest Hs] _ _ _]. by eapply stored_valid. Qed.

(** The counters follow the header when an operation only reserves storage. *)
Lemma counted_header s s' l : same_header s s' → counted s l → counted s' l.
Proof. intros [] []. split; congruence. Qed.

(** What an edit does to the address map. *)
Definition edit_view (edit : kernel_vma_edit) (old : Z → option kernel_vma) (a : Z)
    : option kernel_vma :=
  if decide (edit.(ed_start) ≤ a < edit.(ed_end)) then
    match edit.(ed_kind) with
    | KERNEL_VMA_EDIT_REMOVE => None
    | KERNEL_VMA_EDIT_REPLACE => Some (byte_of edit.(ed_replacement) a)
    | _ => edit_entry edit <$> old a
    end
  else old a.

(** The range of an edit: 64-bit, non-empty, and on a page boundary where it
    cuts a descriptor. *)
Record page_range (l : list kernel_vma) (s e : Z) : Prop := {
  pr_start : is_u64 s;
  pr_end : is_u64 e;
  pr_order : s < e;
  pr_page_start : Exists (straddles s) l → page_aligned s;
  pr_page_end : Exists (straddles e) l → page_aligned e;
}.

(** Entries the two boundary splits of [s, e) may add. *)
Definition splits (l : list kernel_vma) (s e : Z) : nat :=
  (Nat.b2n (bool_decide (Exists (straddles s) l)) +
   Nat.b2n (bool_decide (Exists (straddles e) l)))%nat.

(** An edit that the set has room for and whose request is admissible. *)
Record edit_ready (set : kernel_vma_set) (edit : kernel_vma_edit) : Prop := {
  er_set : edit.(ed_set) = set.(vs_this);
  er_generation : edit.(ed_generation) = set.(vs_generation);
  er_not_last : set.(vs_generation) ≠ UINT64_MAX;
  er_range : page_range (live set) edit.(ed_start) edit.(ed_end);
  er_room : (length (live set) + splits (live set) edit.(ed_start) edit.(ed_end)
             ≤ set.(vs_capacity))%nat;
  er_replacement : edit.(ed_kind) = KERNEL_VMA_EDIT_REPLACE →
    good edit.(ed_replacement) ∧ edit.(ed_replacement).(vm_start) = edit.(ed_start) ∧
    edit.(ed_replacement).(vm_end) = edit.(ed_end) ∧
    (¬ Exists (λ v, overlaps v edit.(ed_start) edit.(ed_end)) (live set) →
     (length (live set) < set.(vs_capacity))%nat);
  er_editable : edit.(ed_kind) = KERNEL_VMA_EDIT_PROTECT ∨ edit.(ed_kind) = KERNEL_VMA_EDIT_FLAGS →
    ∀ v, v ∈ live set → overlaps v edit.(ed_start) edit.(ed_end) → editable edit v;
}.

Lemma edit_loop_spec edit l1 m rest :
  edit_loop edit (length m) (length l1) (l1 ++ m ++ rest) =
    Done (l1 ++ (edit_entry edit <$> m) ++ rest).
Proof.
  revert l1. induction m as [|v m IH]; intros l1; [done|].
  cbn [edit_loop length app]. rewrite aread_app by done. run. rewrite awrite_app by done. run.
  specialize (IH (l1 ++ [edit_entry edit v])).
  by rewrite length_app, Nat.add_1_r, <-!app_assoc in IH.
Qed.

Section commit.
Context {H : Type} `{KernelHeap H}.
Implicit Types w : world H.
Variable junk : kernel_vma.

(** What the middle of a commit, between the splits and the merge, achieves. *)
Record edited (edit : kernel_vma_edit) (set : kernel_vma_set) (l : list kernel_vma) w
    (set' : kernel_vma_set) (l' : list kernel_vma) w' : Prop := {
  ed_stored : ∃ rest', stored set' l' rest';
  ed_header : same_header set set';
  ed_capacity : set'.(vs_capacity) = set.(vs_capacity);
  ed_layout : layout l';
  ed_view a : view l' a = edit_view edit (view l) a;
  ed_heap : w'.(w_heap) = w.(w_heap);
  ed_took : took w w' (λ p, refs p l' - refs p l);
  ed_length : edit.(ed_kind) = KERNEL_VMA_EDIT_REMOVE → (length l' ≤ length l)%nat;
}.

(** PROTECT and FLAGS. *)
Lemma edit_middle edit set l1 m l2 rest w :
  edit.(ed_kind) = KERNEL_VMA_EDIT_PROTECT ∨ edit.(ed_kind) = KERNEL_VMA_EDIT_FLAGS →
  stored set (l1 ++ m ++ l2) rest → layout (l1 ++ m ++ l2) →
  cut edit.(ed_start) edit.(ed_end) l1 m l2 → (∀ v, v ∈ m → editable edit v) →
  let m' := edit_entry edit <$> m in
  edited edit set (l1 ++ m ++ l2) w
    (with_entries set ((l1 ++ m' ++ l2) ++ rest) set.(vs_count)) (l1 ++ m' ++ l2) w.
Proof.
  intros Hk Hs Hl Hcut Hed m'.
  assert (Hcut' : cut edit.(ed_start) edit.(ed_end) l1 m' l2).
  { destruct Hcut as (C1 & Cm & C2). split_and!; try done. apply Forall_fmap.
    eapply Forall_impl; [exact Cm|]. intros v Hv. simpl.
    destruct (edit_entry_bounds edit v) as (-> & -> & _). done. }
  split; try done.
  - exists rest. pose proof (stored_with_entries _ _ _ (l1 ++ m' ++ l2) rest Hs) as Hs'.
    rewrite (st_count _ _ _ Hs). unfold m' in *. rewrite !length_app, length_fmap in *.
    by apply Hs'.
  - apply layout_map; [intros v; apply (edit_entry_bounds edit v)..|done|].
    intros v Hv. apply good_edit_entry; [|auto]. apply (layout_elem _ _ Hl). set_solver.
  - intros a. unfold edit_view.
    rewrite (view_cut _ _ _ _ _ a Hcut'), (view_cut _ _ _ _ _ a Hcut). case_decide; [|done].
    unfold m'.
    rewrite (view_map (edit_entry edit));
      [by destruct Hk as [-> | ->]|intros v; apply (edit_entry_bounds edit v)..|].
    intros v. apply byte_of_edit.
  - intros p Hp. unfold m'. rewrite !refs_app.
    assert (refs p (edit_entry edit <$> m) = refs p m) as ->; [|lia].
    clear. induction m as [|v m IH]; [done|]. rewrite fmap_cons, !refs_cons, IH.
    by destruct (edit_entry_bounds edit v) as (_ & _ & ->).
  - destruct Hk; congruence.
Qed.

(** REMOVE, and the first half of REPLACE. *)
Lemma remove_middle edit set l1 m l2 rest w first last :
  stored set (l1 ++ m ++ l2) rest → layout (l1 ++ m ++ l2) →
  cut edit.(ed_start) edit.(ed_end) l1 m l2 →
  first = length l1 → last = length (l1 ++ m) →
  ∃ rest' entries w',
    close_loop (last - first) first set.(vs_entries) w = Done (tt, w') ∧
    move_entries set.(vs_entries) first last (set.(vs_count) - last) = Done entries ∧
    stored (with_entries set entries (set.(vs_count) - (last - first))) (l1 ++ l2) rest' ∧
    layout (l1 ++ l2) ∧ w'.(w_heap) = w.(w_heap) ∧
    took w w' (λ p, refs p (l1 ++ l2) - refs p (l1 ++ m ++ l2)) ∧
    (∀ a, view (l1 ++ l2) a =
       if decide (edit.(ed_start) ≤ a < edit.(ed_end)) then None else view (l1 ++ m ++ l2) a).
Proof.
  intros Hs Hl Hcut -> ->. pose proof Hs as [He Hc _ _ _]. rewrite He, Hc, <-!app_assoc.
  replace (length (l1 ++ m) - length l1)%nat with (length m) by (rewrite length_app; lia).
  destruct (close_loop_spec l1 m (l2 ++ rest) w) as (w' & Ew & Hh & Ht).
  destruct (move_entries_close l1 m l2 rest (length (l1 ++ m ++ l2) - length (l1 ++ m)))
    as (rest' & Hlen & Em); [rewrite !length_app; lia|].
  exists rest', (l1 ++ l2 ++ rest'), w'. split_and!; try done.
  - pose proof (stored_with_entries _ _ _ (l1 ++ l2) rest' Hs) as Hs'.
    rewrite <-app_assoc in Hs'.
    replace (length (l1 ++ m ++ l2) - length m)%nat with (length (l1 ++ l2))
      by (rewrite !length_app; lia).
    apply Hs'. rewrite !length_app. lia.
  - by eapply layout_delete.
  - intros p Hp. rewrite Ht, !refs_app by done. lia.
  - intros a. rewrite (view_cut _ _ _ _ _ a Hcut). case_decide; [by eapply view_cut_hole|done].
Qed.

(** The phase between the splits and the merge. *)
Definition commit_body (edit : kernel_vma_edit) (set : kernel_vma_set) (first last : nat)
    : ST (world H) (kernel_vma_status * kernel_vma_set) :=
  if decide (edit.(ed_kind) = KERNEL_VMA_EDIT_PROTECT ∨
             edit.(ed_kind) = KERNEL_VMA_EDIT_FLAGS) then
    entries ← lift (edit_loop edit (last - first) first set.(vs_entries));
    mret (KERNEL_VMA_STATUS_OK, with_entries set entries set.(vs_count))
  else
    _ ← close_loop (last - first) first set.(vs_entries);
    entries ← lift (move_entries set.(vs_entries) first last (set.(vs_count) - last));
    let set := with_entries set entries (set.(vs_count) - (last - first)) in
    if decide (edit.(ed_kind) = KERNEL_VMA_EDIT_REPLACE)
    then insert_entry junk set edit.(ed_replacement)
    else mret (KERNEL_VMA_STATUS_OK, set).

Lemma commit_body_spec edit set l1 m l2 rest w first last :
  stored set (l1 ++ m ++ l2) rest → layout (l1 ++ m ++ l2) →
  cut edit.(ed_start) edit.(ed_end) l1 m l2 → edit.(ed_start) < edit.(ed_end) →
  (edit.(ed_kind) = KERNEL_VMA_EDIT_PROTECT ∨ edit.(ed_kind) = KERNEL_VMA_EDIT_FLAGS →
   ∀ v, v ∈ m → editable edit v) →
  (edit.(ed_kind) = KERNEL_VMA_EDIT_REPLACE →
   good edit.(ed_replacement) ∧ edit.(ed_replacement).(vm_start) = edit.(ed_start) ∧
   edit.(ed_replacement).(vm_end) = edit.(ed_end) ∧
   (length (l1 ++ l2) < set.(vs_capacity))%nat) →
  first = length l1 → last = length (l1 ++ m) →
  ∃ set' l' w', commit_body edit set first last w = Done (KERNEL_VMA_STATUS_OK, set', w') ∧
    edited edit set (l1 ++ m ++ l2) w set' l' w'.
Proof.
  intros Hs Hl Hcut Hse Hed Hrep Hfirst Hlast. unfold commit_body. case_decide as Hk.
  { subst. replace (length (l1 ++ m) - length l1)%nat with (length m) by (rewrite length_app; lia).
    rewrite (st_entries _ _ _ Hs), <-!app_assoc. step (edit_loop_spec edit l1 m (l2 ++ rest)).
    pose proof (edit_middle edit set l1 m l2 rest w Hk Hs Hl Hcut (Hed Hk)) as Hmid.
    eexists _, _, _. split; [done|]. simpl in Hmid. rewrite <-!app_assoc in Hmid. exact Hmid. }
  destruct (remove_middle edit set l1 m l2 rest w first last Hs Hl Hcut Hfirst Hlast)
    as (rest' & entries & w1 & E1 & E2 & Hs' & Hl' & Hh & Ht & Hv).
  step E1. step E2. set (set1 := with_entries set _ _) in *.
  case_decide as Hr.
  - destruct (Hrep Hr) as (Hg & Hgs & Hge & Hroom).
    destruct (insert_entry_spec junk set1 _ rest' edit.(ed_replacement) w1 Hs' Hl' Hg)
      as (status & set2 & w2 & E3 & Hres). rewrite E3.
    destruct Hres as [Hov|set2 l' rest2 w2 _ Hs2 Hh2 Hins Ht2 Hkeep|status w2 _ _ Hfull _].
    + exfalso. destruct Hcut as (C1 & _ & C2). rewrite Hgs, Hge in Hov.
      apply Exists_exists in Hov as (v & [Hv1|Hv2]%elem_of_app & Hov); rewrite !Forall_forall in *;
        [specialize (C1 v Hv1)|specialize (C2 v Hv2)]; vlia.
    + destruct (Hkeep Hroom) as [Hheap Hcap]. exists set2, l', w2. split; [done|].
      split; [by exists rest2|etrans; [|exact Hh2]; by split|done|apply Hins|..].
      * intros a. rewrite (ins_view _ _ _ Hins). unfold edit_view. rewrite Hr, Hv.
        assert (Hin : inside edit.(ed_replacement) a ↔ edit.(ed_start) ≤ a < edit.(ed_end))
          by (unfold inside; by rewrite Hgs, Hge).
        rewrite (decide_ext _ _ _ _ Hin). by case_decide.
      * congruence.
      * intros p Hp. rewrite Ht2, Ht by done. lia.
      * congruence.
    + exfalso. unfold set1 in Hfull. simpl in Hfull. lia.
  - exists set1, (l1 ++ l2), w1. split; [done|].
    assert (edit.(ed_kind) = KERNEL_VMA_EDIT_REMOVE) as Hrm
      by (destruct edit.(ed_kind); tauto || (exfalso; auto)).
    split; try done; [by exists rest'|..].
    + intros a. unfold edit_view. rewrite Hv, Hrm. by case_decide.
    + intros _. rewrite !length_app. lia.
Qed.

Lemma edit_view_ext edit f g a : (∀ b, f b = g b) → edit_view edit f a = edit_view edit g a.
Proof. intros Hfg. unfold edit_view. by rewrite !Hfg. Qed.

(** Both boundary splits: the room reserved for them suffices. *)
Lemma split_both set l rest s e w :
  stored set l rest → layout l → page_range l s e →
  (length l + splits l s e ≤ set.(vs_capacity))%nat →
  ∃ set1 w1 set2 l2 rest2 w2,
    split_at set s w = Done (KERNEL_VMA_STATUS_OK, set1, w1) ∧
    split_at set1 e w1 = Done (KERNEL_VMA_STATUS_OK, set2, w2) ∧
    stored set2 l2 rest2 ∧ same_header set set2 ∧ set2.(vs_capacity) = set.(vs_capacity) ∧
    layout l2 ∧ aligned l2 s ∧ aligned l2 e ∧ (∀ a, view l2 a = view l a) ∧
    (∀ v', v' ∈ l2 → ∃ v, v ∈ l ∧ same_attributes v v' ∧
       v.(vm_start) ≤ v'.(vm_start) ∧ v'.(vm_end) ≤ v.(vm_end)) ∧
    (length l2 ≤ length l + splits l s e)%nat ∧
    w2.(w_heap) = w.(w_heap) ∧ took w w2 (λ p, refs p l2 - refs p l).
Proof.
  intros Hs Hl [Hus Hue Hse Hps Hpe] Hroom. unfold splits in *.
  destruct (split_at_spec set l rest s w Hs Hl Hus Hps) as
    (set1 & l1 & rest1 & w1 & E1 & Hs1 & Hh1 & Hc1 & [Hl1 V1 A1 K1 I1] & Len1 & W1 & T1).
  { intros Hex. rewrite bool_decide_eq_true_2 in Hroom by done. simpl in Hroom. lia. }
  assert (Hexe : Exists (straddles e) l1 → Exists (straddles e) l).
  { intros Hex. apply dec_stable. intros Hno. apply Forall_Exists_neg in Hno.
    apply K1, Forall_Exists_neg in Hno. done. }
  destruct (split_at_spec set1 l1 rest1 e w1 Hs1 Hl1 Hue (λ Hex, Hpe (Hexe Hex))) as
    (set2 & l2 & rest2 & w2 & E2 & Hs2 & Hh2 & Hc2 & [Hl2 V2 A2 K2 I2] & Len2 & W2 & T2).
  { intros Hex. rewrite (bool_decide_eq_true_2 (Exists (straddles e) l)) in Hroom by auto.
    simpl in Hroom. lia. }
  exists set1, w1, set2, l2, rest2, w2. split_and!; try done.
  - etrans; [exact Hh1|exact Hh2].
  - congruence.
  - exact (K2 s A1).
  - intros a. by rewrite V2, V1.
  - intros v' Hv'. destruct (I2 v' Hv') as (u & Hu & (P1 & P2 & P3 & P4 & P5 & P6 & P7 & P8) & ? & ?).
    destruct (I1 u Hu) as (v & Hv & (Q1 & Q2 & Q3 & Q4 & Q5 & Q6 & Q7 & Q8) & ? & ?). exists v.
    split_and!; [done| |lia..]. split_and!; congruence.
  - rewrite Len2, Len1. enough (Nat.b2n (bool_decide (Exists (straddles e) l1)) ≤
      Nat.b2n (bool_decide (Exists (straddles e) l)))%nat by lia.
    case_bool_decide; [rewrite bool_decide_eq_true_2 by auto|]; simpl; lia.
  - congruence.
  - intros p Hp. rewrite T2, T1 by done. lia.
Qed.

(** If nothing is left between the cuts, nothing overlapped the range. *)
Lemma cut_empty_no_overlap l l1 l2 s e :
  layout l → s < e → (∀ a, view (l1 ++ [] ++ l2) a = view l a) → cut s e l1 [] l2 →
  ¬ Exists (λ v, overlaps v s e) l.
Proof.
  intros Hl Hse Hv Hcut (v & Hin & Hov)%Exists_exists.
  pose proof (layout_elem _ _ Hl Hin) as Hg.
  pose proof (view_elem l v (Z.max s v.(vm_start)) Hl Hin ltac:(vlia)) as Hsome.
  rewrite <-Hv, (view_cut _ _ _ _ _ _ Hcut), decide_True in Hsome by vlia. done.
Qed.
Lemma no_overlap_no_split l s e :
  Forall good l → s < e → ¬ Exists (λ v, overlaps v s e) l → splits l s e = O.
Proof.
  intros Hg Hse Hno. unfold splits. rewrite !bool_decide_eq_false_2; [done| |];
    intros (v & Hin & Hst)%Exists_exists; apply Hno, Exists_exists; exists v; (split; [done|]);
    rewrite Forall_forall in Hg; specialize (Hg v Hin); vlia.
Qed.

(** What a successful commit establishes. *)
Record committed (edit : kernel_vma_edit) (set : kernel_vma_set) w (set' : kernel_vma_set) w'
    : Prop := {
  cm_wf : wf set';
  cm_this : set'.(vs_this) = set.(vs_this);
  cm_generation : set'.(vs_generation) = set.(vs_generation) + 1;
  cm_capacity : set'.(vs_capacity) = set.(vs_capacity);
  cm_view a : view (live set') a = edit_view edit (view (live set)) a;
  cm_unmergeable : unmergeable (live set');
  cm_heap : w'.(w_heap) = w.(w_heap);
  cm_took : took w w' (λ p, refs p (live set') - refs p (live set));
  cm_length : edit.(ed_kind) = KERNEL_VMA_EDIT_REMOVE →
    (length (live set') ≤ length (live set) + 2)%nat;
}.

(** The tail of every commit: merge, recount, next generation. *)
Lemma commit_tail set l rest w :
  stored set l rest → layout l → is_u64 set.(vs_generation) → set.(vs_generation) ≠ UINT64_MAX →
  ∃ set', (set ← merge_all set; set ← lift (recount_bytes set);
           mret (KERNEL_VMA_STATUS_OK, bump_generation set)) w =
          Done (KERNEL_VMA_STATUS_OK, set', w) ∧
    wf set' ∧ live set' = merge_list l ∧ set'.(vs_this) = set.(vs_this) ∧
    set'.(vs_capacity) = set.(vs_capacity) ∧ set'.(vs_generation) = set.(vs_generation) + 1.
Proof.
  intros Hs Hl Hg Hmax.
  destruct (merge_all_spec set l rest w Hs (layout_good _ Hl)) as (set1 & rest1 & E1 & Hs1 & Hh1 & Hc1).
  pose proof (merge_list_equivalent l Hl) as Heq.
  destruct (recount_bytes_spec set1 _ rest1 Hs1 (eqv_layout _ _ Heq))
    as (set2 & E2 & Hs2 & [C1 C2 C3] & Ht2 & Hp2 & Hg2 & Hk2).
  destruct Hh1 as [Ht1 Hp1 Hg1 _ _ _].
  step E1. step E2. exists (bump_generation set2).
  assert (Hs3 : stored (bump_generation set2) (merge_list l) rest1) by (destruct Hs2; by split).
  assert (Hgen : (bump_generation set2).(vs_generation) = set.(vs_generation) + 1).
  { simpl. rewrite Hg2, Hg1. apply u64_small. mlia. }
  split_and!; [done| |exact (stored_live _ _ _ Hs3)|simpl; congruence|simpl; congruence|done].
  apply (wf_intro _ _ _ Hs3); [apply Heq|by split|rewrite Hgen; mlia].
Qed.

Lemma merge_list_unmergeable l : unmergeable (merge_list l).
Proof. destruct l; [by intros [|]|]. apply merge_from_unmergeable. Qed.
Lemma merge_list_length l : (length (merge_list l) ≤ length l)%nat.
Proof. destruct l as [|v l]; [done|]. apply merge_steps_length, (merge_from_steps [] v l). Qed.

(** The two searches find the ends of the middle part. *)
Lemma locate_range set l1 m l2 rest s e :
  stored set (l1 ++ m ++ l2) rest → layout (l1 ++ m ++ l2) → cut s e l1 m l2 → s < e →
  lower_bound set s = Done (length l1) ∧ lower_bound set e = Done (length (l1 ++ m)).
Proof.
  intros Hs Hl (C1 & Cm & C2) Hse. pose proof (layout_good _ Hl) as Hg.
  rewrite !Forall_app in Hg. destruct Hg as (G1 & Gm & G2). rewrite !Forall_forall in *. split.
  - apply (lower_bound_spec _ l1 (m ++ l2) rest); rewrite ?Forall_app, ?Forall_forall; try done.
    + intros v Hv. specialize (C1 v Hv). specialize (G1 v Hv). vlia.
    + split; intros v Hv; [specialize (Cm v Hv)|specialize (C2 v Hv)]; vlia.
  - apply (lower_bound_spec _ (l1 ++ m) l2 rest); rewrite ?Forall_app, ?Forall_forall;
      rewrite <-?app_assoc; try done.
    split; intros v Hv; [specialize (C1 v Hv); specialize (G1 v Hv)
                        |specialize (Cm v Hv); specialize (Gm v Hv)]; vlia.
Qed.

(** A ready edit stays admissible for the entries the splits produced. *)
Lemma ready_editable set edit l1 m l2 :
  edit_ready set edit → layout (l1 ++ m ++ l2) → cut edit.(ed_start) edit.(ed_end) l1 m l2 →
  (∀ v', v' ∈ l1 ++ m ++ l2 → ∃ v, v ∈ live set ∧ same_attributes v v' ∧
     v.(vm_start) ≤ v'.(vm_start) ∧ v'.(vm_end) ≤ v.(vm_end)) →
  edit.(ed_kind) = KERNEL_VMA_EDIT_PROTECT ∨ edit.(ed_kind) = KERNEL_VMA_EDIT_FLAGS →
  ∀ v, v ∈ m → editable edit v.
Proof.
  intros Hready Hl (_ & Cm & _) Hin Hk v' Hv'.
  destruct (Hin v' ltac:(set_solver)) as (v & Hv & (_ & Hmax & _) & Hs & He).
  assert (Hg : good v') by (apply (layout_elem _ _ Hl); set_solver).
  rewrite Forall_forall in Cm. specialize (Cm v' Hv').
  assert (Hov : overlaps v edit.(ed_start) edit.(ed_end)) by vlia.
  pose proof (er_editable _ _ Hready Hk v Hv Hov) as Hed.
  unfold editable in *. by rewrite <-Hmax.
Qed.
Lemma ready_room set edit l1 m l2 :
  wf set → edit_ready set edit → (∀ a, view (l1 ++ m ++ l2) a = view (live set) a) →
  cut edit.(ed_start) edit.(ed_end) l1 m l2 →
  (length (l1 ++ m ++ l2) ≤
     length (live set) + splits (live set) edit.(ed_start) edit.(ed_end))%nat →
  edit.(ed_kind) = KERNEL_VMA_EDIT_REPLACE →
  (length (l1 ++ l2) < set.(vs_capacity))%nat.
Proof.
  intros Hwf Hready Hv Hcut Hlen Hk. pose proof (er_room _ _ Hready) as Hroom.
  pose proof (pr_order _ _ _ (er_range _ _ Hready)) as Hse.
  destruct (er_replacement _ _ Hready Hk) as (_ & _ & _ & Hfree).
  destruct m as [|x m]; [|rewrite !length_app in *; simpl in *; lia].
  pose proof (cut_empty_no_overlap _ _ _ _ _ (wf_layout _ Hwf) Hse Hv Hcut) as Hno.
  rewrite (no_overlap_no_split _ _ _ (layout_good _ (wf_layout _ Hwf)) Hse Hno) in Hlen.
  specialize (Hfree Hno). simpl in *. lia.
Qed.

Lemma commit_edit_spec set edit w :
  wf set → edit_ready set edit →
  ∃ set' w', kernel_vma_set_commit_edit junk set edit w = Done (KERNEL_VMA_STATUS_OK, set', w') ∧
    committed edit set w set' w'.
Proof.
  intros Hwf Hready. pose proof Hready as [Eset Egen Emax Erange Eroom Erep _].
  pose proof (wf_valid _ Hwf) as Hvalid. pose proof Hwf as [[rest Hs] Hl _ Hgen].
  pose proof (pr_order _ _ _ Erange) as Hse. unfold kernel_vma_set_commit_edit.
  rewrite decide_False by (intros [?|[?|[?|?]]]; [tauto|tauto|tauto|lia]).
  rewrite decide_False.
  2:{ intros [Hk Hmis]. destruct (Erep Hk) as (Hg & ? & ? & _). simpl in Hmis.
      pose proof (good_valid _ Hg). tauto. }
  destruct (split_both set _ rest _ _ w Hs Hl Erange Eroom) as (set1 & w1 & set2 & l2 & rest2 & w2 &
    E1 & E2 & Hs2 & Hh2 & Hc2 & Hl2 & A1 & A2 & V2 & I2 & Len2 & W2 & T2).
  step E1. rewrite decide_False by auto. step E2. rewrite decide_False by auto.
  destruct (cut_at l2 _ _ Hl2 A1 A2 Hse) as (k1 & m & k2 & -> & Hcut).
  destruct (locate_range _ _ _ _ _ _ _ Hs2 Hl2 Hcut Hse) as [Hfirst Hlast].
  step Hfirst. step Hlast.
  destruct (commit_body_spec edit set2 k1 m k2 rest2 w2 (length k1) (length (k1 ++ m))
    Hs2 Hl2 Hcut Hse) as
    (set3 & l3 & w3 & E3 & [[rest3 Hs3] Hh3 Hc3 Hl3 V3 W3 T3 Len3]); [| |done|done|].
  { by eapply ready_editable. }
  { intros Hk. destruct (Erep Hk) as (? & ? & ? & _). split_and!; try done.
    rewrite Hc2. by eapply ready_room. }
  unfold commit_body in E3. step E3. rewrite decide_False by auto.
  pose proof (sh_generation _ _ Hh2) as G2. pose proof (sh_generation _ _ Hh3) as G3.
  destruct (commit_tail set3 l3 rest3 w3 Hs3 Hl3) as (set4 & E4 & Hwf4 & Hl4 & Ht4 & Hc4 & Hg4);
    [congruence..|].
  exists set4, w3. split; [exact E4|]. pose proof (merge_list_equivalent l3 Hl3) as [_ Vm Rm _].
  split; rewrite ?Hl4; [done|..].
  - rewrite Ht4, (sh_this _ _ Hh3). apply Hh2.
  - congruence.
  - congruence.
  - intros a. rewrite Vm, V3. by apply edit_view_ext.
  - apply merge_list_unmergeable.
  - congruence.
  - intros p Hp. rewrite T3, T2, Rm by done. lia.
  - intros Hk. specialize (Len3 Hk). pose proof (merge_list_length l3).
    assert (splits (live set) (ed_start edit) (ed_end edit) ≤ 2)%nat
      by (unfold splits; repeat case_bool_decide; simpl; lia). lia.
Qed.

End commit.

(** ** Preparing edits, and the queries behind them

    What each prepare operation admits and reserves, and the composition with
    the commit proved above. *)
Import Heap Vma.

(** Every address of [s, e) is mapped. *)
Definition mapped (l : list kernel_vma) (s e : Z) : Prop :=
  ∀ a, s ≤ a < e → is_Some (view l a).

(** ** Queries *)

Lemma overlaps_spec set l rest s e :
  stored set l rest → layout l → s < e →
  kernel_vma_set_overlaps set s e =
    Done (KERNEL_VMA_STATUS_OK, Some (bool_decide (Exists (λ v, overlaps v s e) l))).
Proof.
  intros Hs Hl Hse. unfold kernel_vma_set_overlaps.
  rewrite decide_False by (intros [Hn|?]; [by apply Hn; eapply stored_valid|lia]).
  destruct (partition_at l s Hl) as (l1 & l2 & -> & H1 & H2).
  rewrite (lower_bound_spec _ _ _ _ _ Hs H1 H2). run.
  by rewrite (touches_neighbours_spec _ _ _ _ _ _ Hs Hl H1 H2 Hse).
Qed.

Lemma first_touching_spec set l rest s :
  stored set l rest → layout l →
  ∃ l1 l2, l = l1 ++ l2 ∧ first_touching set s = Done (length l1) ∧
    Forall (λ v, v.(vm_end) ≤ s) l1 ∧ Forall (λ v, s < v.(vm_end)) l2.
Proof.
  intros Hs Hl. destruct (partition_at l s Hl) as (l1 & l2 & -> & H1 & H2).
  pose proof (layout_good _ Hl) as Hg. apply Forall_app in Hg as [G1 G2].
  assert (E2 : Forall (λ v, s < v.(vm_end)) l2).
  { rewrite Forall_forall in *. intros v Hv. specialize (H2 v Hv). specialize (G2 v Hv). vlia. }
  unfold first_touching. rewrite (lower_bound_spec _ _ _ _ _ Hs H1 H2). run.
  destruct l1 as [|u k _] using rev_ind; [by exists [], l2|].
  rewrite decide_True by (rewrite length_app; simpl; lia).
  apply Forall_app in G1 as [_ [Gu _]%Forall_cons], H1 as [_ [Hu _]%Forall_cons].
  rewrite <-app_assoc in *. cbn [app] in *.
  rewrite (stored_read _ _ _ _ _ _ Hs) by (rewrite length_app; simpl; lia). run.
  pose proof Hl as (_ & _ & Hb)%layout_app.
  assert (Ek : Forall (λ v, v.(vm_end) ≤ u.(vm_start)) k).
  { apply Forall_forall. intros v Hv. apply (Hb v u Hv). left. }
  case_decide.
  - exists k, (u :: l2). split_and!; [done|f_equal; rewrite length_app; simpl; lia| |by constructor].
    eapply Forall_impl; [exact Ek|]. intros v ?. vlia.
  - exists (k ++ [u]), l2. rewrite <-app_assoc. split_and!; [done..| |done].
    apply Forall_app. split; [|by repeat constructor; lia].
    eapply Forall_impl; [exact Ek|]. intros v ?. vlia.
Qed.

Lemma covered_loop_spec l1 l2 rest cursor e :
  layout l2 → Forall (λ v, cursor < v.(vm_end)) l2 →
  ∃ b, covered_loop (l1 ++ l2 ++ rest) (length l2) (length l1) cursor e = Done b ∧
    (b = true ↔ mapped l2 cursor e).
Proof.
  revert l1 cursor. induction l2 as [|v l2 IH]; intros l1 cursor Hl Hc.
  { eexists. split; [done|]. rewrite bool_decide_eq_true. split.
    - intros ? a Ha. lia.
    - intros Hm. apply Z.nlt_ge. intros Hlt. by destruct (Hm cursor ltac:(lia)) as [? ?]. }
  cbn [covered_loop length app]. case_decide as Hce.
  2:{ eexists. split; [done|]. rewrite bool_decide_eq_true. split; [|lia]. intros ? a Ha. lia. }
  rewrite aread_app by done. run. apply layout_cons in Hl as (Hv & Hl & Hb).
  apply Forall_cons in Hc as [Hcv _]. case_decide as Hout.
  - exists false. split; [done|]. split; [done|]. intros Hm.
    destruct (Hm cursor ltac:(lia)) as [x Hx]. exfalso.
    rewrite (proj2 (view_None (v :: l2) cursor)) in Hx; [done|]. constructor; [vlia|].
    eapply Forall_impl; [exact Hb|]. intros u ?. vlia.
  - destruct (IH (l1 ++ [v]) v.(vm_end) Hl) as (b & Hb' & Hiff).
    { rewrite Forall_forall in *. intros u Hu. specialize (Hb u Hu).
      pose proof (layout_elem _ _ Hl Hu). vlia. }
    rewrite length_app, Nat.add_1_r, <-app_assoc in Hb'. exists b. split; [exact Hb'|].
    rewrite Hiff. unfold mapped. cbn [view]. split.
    + intros Hm a Ha. case_decide; [done|]. apply Hm. vlia.
    + intros Hm a Ha. specialize (Hm a ltac:(lia)). by rewrite decide_False in Hm by vlia.
Qed.

Lemma mapped_suffix l1 l2 s e :
  Forall (λ v, v.(vm_end) ≤ s) l1 → mapped (l1 ++ l2) s e ↔ mapped l2 s e.
Proof.
  intros H1. unfold mapped.
  assert (Hv : ∀ a, s ≤ a → view (l1 ++ l2) a = view l2 a).
  { intros a Ha. rewrite view_app, (proj2 (view_None l1 a)); [done|].
    eapply Forall_impl; [exact H1|]. intros v ?. vlia. }
  split; intros Hm a Ha; specialize (Hm a Ha); by rewrite Hv in * by lia.
Qed.

Lemma range_is_covered_spec set l rest s e :
  stored set l rest → layout l →
  ∃ b, range_is_covered set s e = Done b ∧ (b = true ↔ mapped l s e).
Proof.
  intros Hs Hl. destruct (first_touching_spec set l rest s Hs Hl) as (l1 & l2 & -> & E & H1 & H2).
  unfold range_is_covered. rewrite E. run. rewrite (st_entries _ _ _ Hs), (st_count _ _ _ Hs).
  replace (length (l1 ++ l2) - length l1)%nat with (length l2) by (rewrite length_app; lia).
  apply layout_app in Hl as (_ & Hl2 & _).
  destruct (covered_loop_spec l1 l2 rest s e Hl2 H2) as (b & Hb & Hiff).
  exists b. rewrite <-app_assoc. split; [done|]. rewrite Hiff. symmetry. by apply mapped_suffix.
Qed.

(** A descriptor that does not allow [permissions]. *)
Definition refuses (permissions : Z) (v : kernel_vma) : Prop :=
  Z.land (Z.land permissions KERNEL_VMA_ALL_PERMISSIONS)
    (Z.lnot v.(vm_maximum_permissions)) ≠ 0.

Lemma refused_loop_spec l1 l2 rest e permissions :
  layout l2 →
  ∃ b, refused_loop (l1 ++ l2 ++ rest) (length l2) (length l1) e permissions = Done b ∧
    (b = true ↔ Exists (λ v, v.(vm_start) < e ∧ refuses permissions v) l2).
Proof.
  revert l1. induction l2 as [|v l2 IH]; intros l1 Hl.
  { exists false. split; [done|]. rewrite Exists_nil. done. }
  apply layout_cons in Hl as (Hv & Hl & Hb). cbn [refused_loop length app].
  rewrite aread_app by done. run. case_decide as Hve.
  - case_decide as Hr; [exists true; split; [done|]; rewrite Exists_cons; by split; auto|].
    destruct (IH (l1 ++ [v]) Hl) as (b & E & Hiff).
    rewrite length_app, Nat.add_1_r, <-app_assoc in E. exists b. split; [exact E|].
    rewrite Hiff, Exists_cons. unfold refuses. tauto.
  - exists false. split; [done|]. rewrite Exists_cons. split; [done|].
    intros [[? _]|(u & Hu & ? & _)%Exists_exists]; [lia|].
    rewrite Forall_forall in Hb. specialize (Hb u Hu). vlia.
Qed.

Section prepare.
Context {H : Type} `{KernelHeap H}.
Implicit Types w : world H.
Variable junk : kernel_vma.

(** A prepare operation leaves descriptors, header and references alone. *)
Record undisturbed (set : kernel_vma_set) w (set' : kernel_vma_set) w' : Prop := {
  un_wf : wf set';
  un_live : live set' = live set;
  un_header : same_header set set';
  un_shm : w'.(w_shm) = w.(w_shm);
  un_capacity : (set.(vs_capacity) ≤ set'.(vs_capacity))%nat;
}.
Lemma undisturbed_refl set w : wf set → undisturbed set w set w.
Proof. by split. Qed.
Lemma undisturbed_stored set w set' rest w' :
  wf set → stored set' (live set) rest → same_header set set' → w'.(w_shm) = w.(w_shm) →
  (set.(vs_capacity) ≤ set'.(vs_capacity))%nat → undisturbed set w set' w'.
Proof.
  intros Hwf Hs Hh Hw Hcap. split; [|by eapply stored_live|done..].
  apply (wf_intro _ _ _ Hs); [apply Hwf|eapply counted_header; [exact Hh|apply Hwf]|].
  rewrite (sh_generation _ _ Hh). apply Hwf.
Qed.
Lemma undisturbed_took set w set' w' p :
  undisturbed set w set' w' →
  balance p w'.(w_shm) - refs p (live set') = balance p w.(w_shm) - refs p (live set).
Proof. intros [_ -> _ -> _]. done. Qed.

Lemma splits_two l s e : (splits l s e ≤ 2)%nat.
Proof. unfold splits. do 2 case_bool_decide; simpl; lia. Qed.

(** The entries an edit of the range needs: one for each boundary inside a
    descriptor; one for a replacement that is new. *)
Definition edit_need (l : list kernel_vma) (s e : Z) (r : bool) : nat :=
  if decide (r = true ∧ ¬ Exists (λ v, overlaps v s e) l) then S (length l) else (length l + splits l s e)%nat.
(** Whether an edit of the range is granted: the last generation cannot change
    any more, and else the array needs the room. *)
Definition edit_answer (set : kernel_vma_set) (s e : Z) (r : bool) (h : H) : kernel_vma_status :=
  if decide (set.(vs_generation) = UINT64_MAX) then KERNEL_VMA_STATUS_STATE
  else room_answer set (edit_need (live set) s e r) h.
Lemma reserve_edit_capacity_spec set s e r w :
  wf set → page_range (live set) s e →
  ∃ status set' w', reserve_edit_capacity junk set s e r w = Done (status, set', w') ∧
    undisturbed set w set' w' ∧
    (status = KERNEL_VMA_STATUS_OK ∧
       (length (live set) + splits (live set) s e ≤ set'.(vs_capacity))%nat ∧
       (r = true → ¬ Exists (λ v, overlaps v s e) (live set) →
        (length (live set) < set'.(vs_capacity))%nat) ∨
     (status = KERNEL_VMA_STATUS_NO_MEMORY ∨ status = KERNEL_VMA_STATUS_STATE) ∧ set' = set) ∧
    status = room_answer set (edit_need (live set) s e r) w.(w_heap).
Proof.
  intros Hwf [Hus Hue Hse _ _]. destruct (wf_stored _ Hwf) as [rest Hs].
  pose proof (wf_layout _ Hwf) as Hl. pose proof (st_count _ _ _ Hs) as Hc.
  unfold reserve_edit_capacity.
  step (split_needed_spec set _ rest s Hs Hl Hus). step (split_needed_spec set _ rest e Hs Hl Hue).
  assert (Hu32 : Z.of_nat set.(vs_capacity) ≤ UINT32_MAX) by (pose proof (st_u32 _ _ _ Hs); mlia).
  fold (splits (live set) s e). rewrite Hc. case_decide as Hmax.
  { eexists _, set, w. split; [done|]. split; [by apply undisturbed_refl|]. split; [right; auto|]. symmetry.
    apply room_answer_limit; [done|]. unfold edit_need. destruct (decide (r = true ∧ _)) as [[_ Hno]|]; [|lia].
    rewrite (no_overlap_no_split _ _ _ (layout_good _ Hl) Hse Hno) in Hmax. lia. }
  assert (Hreserve : ∀ n, n = edit_need (live set) s e r → (length (live set) + splits (live set) s e ≤ n)%nat →
    Z.of_nat n ≤ UINT32_MAX → (r = true → ¬ Exists (λ v, overlaps v s e) (live set) →
      (length (live set) < n)%nat) →
    ∃ status set' w', reserve_entries junk set n w = Done (status, set', w') ∧
      undisturbed set w set' w' ∧
      (status = KERNEL_VMA_STATUS_OK ∧
         (length (live set) + splits (live set) s e ≤ set'.(vs_capacity))%nat ∧
         (r = true → ¬ Exists (λ v, overlaps v s e) (live set) →
          (length (live set) < set'.(vs_capacity))%nat) ∨
       (status = KERNEL_VMA_STATUS_NO_MEMORY ∨ status = KERNEL_VMA_STATUS_STATE) ∧ set' = set) ∧
      status = room_answer set (edit_need (live set) s e r) w.(w_heap)).
  { intros n <- Hn Hn32 Hr. destruct (reserve_entries_spec junk set _ rest n w Hs Hn32)
      as (status & set' & rest' & w' & E & Hs' & Hh & Hw & Hcase & Hans).
    exists status, set', w'. split; [done|]. split; [|split; [|done]].
    { eapply undisturbed_stored; try done. destruct Hcase as [[_ ?]|[_ ->]]; lia. }
    destruct Hcase as [[-> Hcap]|?]; [|by right]. left. split_and!; [done|lia|].
    intros Hr1 Hr2. specialize (Hr Hr1 Hr2). lia. }
  destruct r; [|apply Hreserve; [unfold edit_need; by rewrite decide_False by (by intros [? _])|lia|lia|done]].
  step (overlaps_spec set _ rest s e Hs Hl Hse).
  rewrite (decide_False (P := _ ≠ _)) by auto. case_decide as Hov.
  - apply (inj Some), bool_decide_eq_false in Hov.
    rewrite (no_overlap_no_split _ _ _ (layout_good _ Hl) Hse Hov) in *.
    assert (En : edit_need (live set) s e true = S (length (live set))) by (unfold edit_need; by rewrite decide_True). case_decide.
    { eexists _, set, w. split; [done|]. split; [by apply undisturbed_refl|]. split; [right; auto|]. rewrite En. symmetry. apply room_answer_limit; [done|lia]. }
    apply Hreserve; rewrite ?En; case_decide; (done || lia).
  - apply Hreserve; [|lia|lia|].
    { unfold edit_need. rewrite decide_False; [done|]. intros [_ Hno]. destruct Hov. f_equal. by apply bool_decide_eq_false. }
    intros _ Hno. destruct Hov. f_equal. by apply bool_decide_eq_false.
Qed.

(** With the room already there, nothing is allocated. *)
Lemma reserve_edit_capacity_enough set s e w :
  wf set → page_range (live set) s e →
  (length (live set) + splits (live set) s e ≤ set.(vs_capacity))%nat →
  reserve_edit_capacity junk set s e false w = Done (KERNEL_VMA_STATUS_OK, set, w).
Proof.
  intros Hwf [Hus Hue Hse _ _] Hroom. destruct (wf_stored _ Hwf) as [rest Hs].
  pose proof (wf_layout _ Hwf) as Hl. pose proof (st_u32 _ _ _ Hs).
  unfold reserve_edit_capacity.
  step (split_needed_spec set _ rest s Hs Hl Hus). step (split_needed_spec set _ rest e Hs Hl Hue).
  fold (splits (live set) s e). rewrite (st_count _ _ _ Hs).
  rewrite decide_False by lia. by apply reserve_entries_enough.
Qed.

(** ** What prepare returns *)

Inductive prepared (set : kernel_vma_set) w (edit : kernel_vma_edit)
    : kernel_vma_status → kernel_vma_set → option kernel_vma_edit → world H → Prop :=
  | Prepared_ok set' w' :
      undisturbed set w set' w' → edit_ready set' edit →
      prepared set w edit KERNEL_VMA_STATUS_OK set' (Some edit) w'
  | Prepared_failed status w' :
      status = KERNEL_VMA_STATUS_NO_MEMORY ∨ status = KERNEL_VMA_STATUS_STATE →
      undisturbed set w set w' → prepared set w edit status set None w'.

(** The common tail of the prepare operations. *)
Lemma prepare_tail set s e r permissions flags mask kind replacement w :
  wf set → set.(vs_generation) ≠ UINT64_MAX → page_range (live set) s e →
  let edit := mk_edit set.(vs_this) set.(vs_generation) s e permissions flags mask kind
                replacement in
  (kind = KERNEL_VMA_EDIT_REPLACE →
   r = true ∧ good replacement ∧ replacement.(vm_start) = s ∧ replacement.(vm_end) = e) →
  (kind = KERNEL_VMA_EDIT_PROTECT ∨ kind = KERNEL_VMA_EDIT_FLAGS →
   ∀ v, v ∈ live set → overlaps v s e → editable edit v) →
  ∃ status set' result w',
    ('(status, set) ← reserve_edit_capacity junk set s e r;
     if decide (status ≠ KERNEL_VMA_STATUS_OK) then mret (status, set, None)
     else mret (KERNEL_VMA_STATUS_OK, set,
            Some (mk_edit set.(vs_this) set.(vs_generation) s e permissions flags mask kind
                    replacement))) w = Done (status, set', result, w') ∧
    prepared set w edit status set' result w' ∧ status = edit_answer set s e r w.(w_heap).
Proof.
  intros Hwf Hmax Hr edit Hrep Hed.
  destruct (reserve_edit_capacity_spec set s e r w Hwf Hr)
    as (status & set' & w' & E & Hun & Hcase & Hans).
  unfold edit_answer. rewrite (decide_False (P := vs_generation set = _)) by done.
  step E. destruct Hcase as [(-> & Hroom & Hfree)|[Hst ->]].
  - rewrite decide_False by auto. pose proof Hun as [_ Hlive Hh _ _].
    exists KERNEL_VMA_STATUS_OK, set', (Some edit), w'.
    rewrite (sh_this _ _ Hh), (sh_generation _ _ Hh). split; [done|]. split; [|done].
    apply Prepared_ok; [done|]. split; rewrite ?Hlive; try done.
    + by rewrite (sh_this _ _ Hh).
    + by rewrite (sh_generation _ _ Hh).
    + by rewrite (sh_generation _ _ Hh).
    + intros Hk. destruct (Hrep Hk) as (-> & ? & ? & ?). split_and!; try done. by apply Hfree.
  - rewrite decide_True by (destruct Hst; congruence).
    exists status, set, None, w'. split; [done|]. split; [by apply Prepared_failed|done].
Qed.

Definition replacement_ok (s e : Z) (replacement : option kernel_vma) : Prop :=
  match replacement with
  | Some v => good v ∧ v.(vm_start) = s ∧ v.(vm_end) = e
  | None => True
  end.
Definition replace_edit (set : kernel_vma_set) (s e : Z) (replacement : option kernel_vma)
    : kernel_vma_edit :=
  mk_edit set.(vs_this) set.(vs_generation) s e 0 0 0
    (match replacement with
     | None => KERNEL_VMA_EDIT_REMOVE
     | Some _ => KERNEL_VMA_EDIT_REPLACE
     end) (default vma_zero replacement).

Lemma prepare_replace_spec set s e replacement w :
  wf set → page_range (live set) s e → replacement_ok s e replacement →
  ∃ status set' result w',
    kernel_vma_set_prepare_replace junk set s e replacement w = Done (status, set', result, w') ∧
    prepared set w (replace_edit set s e replacement) status set' result w' ∧
    status = edit_answer set s e (bool_decide (replacement ≠ None)) w.(w_heap).
Proof.
  intros Hwf Hr Hrep. unfold kernel_vma_set_prepare_replace. rewrite decide_False.
  2:{ pose proof (pr_order _ _ _ Hr). pose proof (wf_valid _ Hwf).
      intros [?|[?|Hmis]]; [done|lia|]. destruct replacement as [v|]; [|done]. simpl in *.
      destruct Hrep as (Hg & ? & ?). pose proof (good_valid _ Hg). tauto. }
  case_decide as Hmax.
  { eexists _, set, None, w. split; [done|]. split; [apply Prepared_failed; [auto|by apply undisturbed_refl]|]. unfold edit_answer. by rewrite decide_True. }
  apply prepare_tail; try done.
  - destruct replacement as [v|]; [|done]. intros _. rewrite bool_decide_eq_true_2 by done. done.
  - destruct replacement; intros [|]; done.
Qed.

Lemma prepare_remove_enough set s e w :
  wf set → page_range (live set) s e → set.(vs_generation) ≠ UINT64_MAX →
  (length (live set) + splits (live set) s e ≤ set.(vs_capacity))%nat →
  kernel_vma_set_prepare_replace junk set s e None w =
    Done (KERNEL_VMA_STATUS_OK, set, Some (replace_edit set s e None), w) ∧
  edit_ready set (replace_edit set s e None).
Proof.
  intros Hwf Hr Hmax Hroom. split.
  - unfold kernel_vma_set_prepare_replace. pose proof (pr_order _ _ _ Hr).
    pose proof (wf_valid _ Hwf). rewrite decide_False by (intros [?|[?|?]]; [done|lia|done]).
    rewrite decide_False by done.
    by step (reserve_edit_capacity_enough set s e w Hwf Hr Hroom).
  - split; try done. intros [|]; done.
Qed.

Definition protect_edit (set : kernel_vma_set) (s e permissions : Z) : kernel_vma_edit :=
  mk_edit set.(vs_this) set.(vs_generation) s e permissions 0 0 KERNEL_VMA_EDIT_PROTECT vma_zero.

(** NOT_FOUND exactly on a hole, ACCESS exactly when a descriptor of a covered
    range refuses the permissions, and otherwise a prepared edit. *)
Inductive protect_result (set : kernel_vma_set) w (s e permissions : Z)
    : kernel_vma_status → kernel_vma_set → option kernel_vma_edit → world H → Prop :=
  | Protect_hole : ¬ mapped (live set) s e →
      protect_result set w s e permissions KERNEL_VMA_STATUS_NOT_FOUND set None w
  | Protect_refused : mapped (live set) s e →
      Exists (λ v, overlaps v s e ∧ refuses permissions v) (live set) →
      protect_result set w s e permissions KERNEL_VMA_STATUS_ACCESS set None w
  | Protect_prepared status set' result w' : mapped (live set) s e →
      prepared set w (protect_edit set s e permissions) status set' result w' →
      ¬ Exists (λ v, overlaps v s e ∧ refuses permissions v) (live set) → status = edit_answer set s e false w.(w_heap) →
      protect_result set w s e permissions status set' result w'.

Lemma prepare_protect_spec set s e permissions w :
  wf set → page_range (live set) s e →
  ∃ status set' result w',
    kernel_vma_set_prepare_protect junk set s e permissions w = Done (status, set', result, w') ∧
    protect_result set w s e permissions status set' result w'.
Proof.
  intros Hwf Hr. destruct (wf_stored _ Hwf) as [rest Hs]. pose proof (wf_layout _ Hwf) as Hl.
  unfold kernel_vma_set_prepare_protect.
  rewrite decide_False by (pose proof (pr_order _ _ _ Hr); pose proof (wf_valid _ Hwf); intros [?|?]; [done|lia]).
  destruct (range_is_covered_spec set _ rest s e Hs Hl) as (b & E & Hb). step E.
  destruct b; cbn [negb].
  2:{ eexists _, _, _, _. split; [done|]. apply Protect_hole. intros ?%Hb. done. }
  assert (Hm : mapped (live set) s e) by (by apply Hb).
  destruct (first_touching_spec set _ rest s Hs Hl) as (l1 & l2 & Hlive & E1 & H1 & H2). step E1.
  rewrite (st_entries _ _ _ Hs), (st_count _ _ _ Hs), Hlive, <-app_assoc.
  replace (length (l1 ++ l2) - length l1)%nat with (length l2) by (rewrite length_app; lia).
  assert (Hl2 : layout l2) by (rewrite Hlive in Hl; by apply layout_app in Hl as (_ & ? & _)).
  destruct (refused_loop_spec l1 l2 rest e permissions Hl2) as (b & E2 & Hb2). step E2.
  rewrite Forall_forall in H1, H2. destruct b.
  { eexists _, _, _, _. split; [done|]. apply Protect_refused; [done|].
    pose proof (proj1 Hb2 eq_refl) as (v & Hv & Hlt & Href)%Exists_exists. rewrite Hlive.
    apply Exists_exists. exists v. specialize (H2 v Hv). split; [set_solver|]. split; [vlia|done]. }
  assert (Hfree : ∀ v, v ∈ live set → overlaps v s e → ¬ refuses permissions v).
  { intros v Hv Hov Href. enough (false = true) by done. apply Hb2, Exists_exists.
    exists v. rewrite Hlive in Hv. apply elem_of_app in Hv as [Hv|Hv]; [|split; [done|split; [vlia|done]]].
    specialize (H1 v Hv). vlia. }
  assert (Hnone : ¬ Exists (λ v, overlaps v s e ∧ refuses permissions v) (live set)) by (intros (v & Hv & Hov & Href)%Exists_exists; by apply (Hfree v)).
  case_decide as Hmax.
  { eexists _, set, None, w. split; [done|]. apply Protect_prepared; [done| |done|unfold edit_answer; by rewrite decide_True].
    apply Prepared_failed; [auto|by apply undisturbed_refl]. }
  edestruct (prepare_tail set s e false permissions 0 0 KERNEL_VMA_EDIT_PROTECT vma_zero w)
    as (status & set' & result & w' & E3 & Hp & Hans); [done..| |].
  2:{ eexists _, _, _, _. split; [exact E3|]. by apply Protect_prepared. }
  intros _ v Hv Hov. unfold editable. cbn [ed_kind ed_permissions].
  apply dec_stable. intros Href. by apply (Hfree v).
Qed.

Definition flags_edit (set : kernel_vma_set) (s e mask flags : Z) : kernel_vma_edit :=
  mk_edit set.(vs_this) set.(vs_generation) s e 0 flags mask KERNEL_VMA_EDIT_FLAGS vma_zero.

Inductive flags_result (set : kernel_vma_set) w (s e mask flags : Z)
    : kernel_vma_status → kernel_vma_set → option kernel_vma_edit → world H → Prop :=
  | Flags_invalid : flags_request_invalid mask flags →
      flags_result set w s e mask flags KERNEL_VMA_STATUS_INVALID_ARGUMENT set None w
  | Flags_hole : ¬ flags_request_invalid mask flags → ¬ mapped (live set) s e →
      flags_result set w s e mask flags KERNEL_VMA_STATUS_NOT_FOUND set None w
  | Flags_prepared status set' result w' :
      ¬ flags_request_invalid mask flags → mapped (live set) s e →
      prepared set w (flags_edit set s e mask flags) status set' result w' →
      flags_result set w s e mask flags status set' result w'.

Lemma prepare_flags_spec set s e mask flags w :
  wf set → page_range (live set) s e →
  ∃ status set' result w',
    kernel_vma_set_prepare_flags junk set s e mask flags w = Done (status, set', result, w') ∧
    flags_result set w s e mask flags status set' result w'.
Proof.
  intros Hwf Hr. destruct (wf_stored _ Hwf) as [rest Hs]. pose proof (wf_layout _ Hwf) as Hl.
  pose proof (pr_order _ _ _ Hr). pose proof (wf_valid _ Hwf).
  unfold kernel_vma_set_prepare_flags.
  destruct (decide (flags_request_invalid mask flags)) as [Hinv|Hreq].
  { rewrite decide_True by auto. eexists _, _, _, _. split; [done|]. by apply Flags_invalid. }
  rewrite decide_False by (intros [?|[?|?]]; [done|lia|done]).
  destruct (range_is_covered_spec set _ rest s e Hs Hl) as (b & E & Hb). step E.
  destruct b; cbn [negb].
  2:{ eexists _, _, _, _. split; [done|]. apply Flags_hole; [done|]. intros ?%Hb. done. }
  assert (Hm : mapped (live set) s e) by (by apply Hb).
  case_decide as Hmax.
  { eexists _, set, None, w. split; [done|]. apply Flags_prepared; [done..|].
    apply Prepared_failed; [auto|by apply undisturbed_refl]. }
  edestruct (prepare_tail set s e false 0 flags mask KERNEL_VMA_EDIT_FLAGS vma_zero w)
    as (status & set' & result & w' & E3 & Hp & _); [done..|].
  eexists _, _, _, _. split; [exact E3|]. by apply Flags_prepared.
Qed.

(** ** Moving a mapping *)

(** The range the new mapping needs beyond the one it replaces. *)
Definition remap_needs (s e : Z) (replacement : kernel_vma) : Z :=
  if decide (replacement.(vm_start) = s) then e else replacement.(vm_start).

Record remap_ready (set : kernel_vma_set) (s e : Z) (replacement : kernel_vma) : Prop := {
  rr_range : page_range (live set) s e;
  rr_good : good replacement;
  rr_generation : set.(vs_generation) ≤ UINT64_MAX - 2;
  rr_room : (length (live set) + 3 ≤ set.(vs_capacity))%nat;
  rr_free : remap_needs s e replacement < replacement.(vm_end) →
    Forall (λ v, ¬ overlaps v (remap_needs s e replacement) replacement.(vm_end)) (live set);
}.

Lemma prepare_remap_spec set s e replacement w :
  wf set → page_range (live set) s e → good replacement →
  ∃ status set' result w',
    kernel_vma_set_prepare_remap junk set s e replacement w = Done (status, set', result, w') ∧
    undisturbed set w set' w' ∧
    (∀ edit, result = Some edit ↔ status = KERNEL_VMA_STATUS_OK ∧
       edit = mk_remap set.(vs_this) set.(vs_generation) s e replacement) ∧
    (status = KERNEL_VMA_STATUS_OK → remap_ready set' s e replacement).
Proof.
  intros Hwf Hr Hg. destruct (wf_stored _ Hwf) as [rest Hs]. pose proof (wf_layout _ Hwf) as Hl.
  unfold kernel_vma_set_prepare_remap. case_decide as Hinv.
  { eexists _, set, None, w. split_and!; [done|by apply undisturbed_refl|naive_solver|done]. }
  fold (remap_needs s e replacement). set (c := remap_needs s e replacement) in *.
  assert (Hconf : ∃ conflict, (if decide (c < replacement.(vm_end)) then
         '(status, overlaps) ← kernel_vma_set_overlaps set c replacement.(vm_end);
         Done (bool_decide (status ≠ KERNEL_VMA_STATUS_OK ∨ overlaps ≠ Some false))
       else Done false) = Done conflict ∧
       (conflict = false → c < replacement.(vm_end) →
        Forall (λ v, ¬ overlaps v c replacement.(vm_end)) (live set))).
  { case_decide as Hlt; [|by eexists].
    rewrite (overlaps_spec set _ rest _ _ Hs Hl Hlt). run. eexists. split; [done|].
    intros Hb%bool_decide_eq_false _. apply Forall_Exists_neg. intros Hex. apply Hb. right.
    by rewrite bool_decide_eq_true_2. }
  destruct Hconf as (conflict & E & Hfree). step E. destruct conflict.
  { eexists _, set, None, w. split_and!; [done|by apply undisturbed_refl|naive_solver|done]. }
  cbn iota. destruct (decide (UINT32_MAX - 3 < Z.of_nat (vs_count set))) as [Hmax|Hmax].
  { eexists _, set, None, w. split_and!; [done|by apply undisturbed_refl|naive_solver|done]. }
  destruct (reserve_entries_spec junk set _ rest (set.(vs_count) + 3) w Hs ltac:(lia))
    as (status & set' & rest' & w' & E' & Hs' & Hh & Hw & Hcase & _). step E'.
  assert (Hun : undisturbed set w set' w').
  { eapply undisturbed_stored; try done. destruct Hcase as [[_ ?]|[_ ->]]; lia. }
  destruct Hcase as [[-> Hcap]|[Hst ->]].
  - rewrite decide_False by auto. eexists _, set', _, w'. split; [done|].
    rewrite (sh_this _ _ Hh), (sh_generation _ _ Hh). split_and!; [done|naive_solver|].
    intros _. split; rewrite ?(un_live _ _ _ _ Hun); try done.
    + rewrite (sh_generation _ _ Hh). apply Z.nlt_ge. tauto.
    + rewrite <-(st_count _ _ _ Hs). lia.
    + by apply Hfree.
  - rewrite decide_True by (destruct Hst; congruence).
    eexists _, set, None, w'. split; [done|].
    split_and!; [done|destruct Hst; naive_solver|destruct Hst; congruence].
Qed.
End prepare.
