(* ===== verification/VmaOps.v ===== *)
(** * The other operations, and mprotect *)
From S2P Require Import Prelude Heap Vma VmaLists VmaTheory VmaPrepare.
#[local] Open Scope Z_scope.
Import Heap Vma.

Lemma view_Some l a x : view l a = Some x → ∃ v, v ∈ l ∧ inside v a ∧ x = byte_of v a.
Proof.
  induction l as [|v l IH]; simpl; [done|]. case_decide.
  - intros [= <-]. exists v. split_and!; [left|done|done].
  - intros (u & ? & ?)%IH. exists u. split; [by right|done].
Qed.

(** ** Lookups *)

Lemma lookup_spec set a :
  wf set → is_u64 a →
  ∃ status result, kernel_vma_set_lookup set a = Done (status, result) ∧
    match result with
    | Some v => status = KERNEL_VMA_STATUS_OK ∧ v ∈ live set ∧ inside v a
    | None => status = KERNEL_VMA_STATUS_NOT_FOUND ∧ view (live set) a = None
    end.
Proof.
  intros Hwf Ha. destruct (wf_stored _ Hwf) as [rest Hs]. pose proof (wf_layout _ Hwf) as Hl.
  unfold kernel_vma_set_lookup. rewrite decide_False by (intros []; by apply wf_valid).
  destruct (partition_above _ a Hl Ha) as (l1 & l2 & Hlive & L1 & L2 & H1 & H2).
  rewrite Hlive in *. rewrite (lower_bound_spec _ _ _ _ _ Hs L1 L2). run.
  destruct l1 as [|u k _] using rev_ind.
  { eexists _, None. split; [done|]. split; [done|]. apply view_None.
    eapply Forall_impl; [exact H2|]. intros v ?. vlia. }
  assert (Hlast := λ v, inside_last k u l2 a v Hl H1 H2).
  apply Forall_app in H1 as [_ [Hu _]%Forall_cons].
  rewrite decide_False by (rewrite length_app; simpl; lia).
  assert (Hs' : stored set (k ++ u :: l2) rest) by (by rewrite <-app_assoc in Hs).
  rewrite (stored_read _ _ _ _ _ _ Hs') by (rewrite length_app; simpl; lia). run.
  case_decide as Hend.
  - eexists _, None. split; [done|]. split; [done|]. apply view_None, Forall_forall.
    intros v Hv Hin. rewrite (Hlast v Hv Hin) in Hin. vlia.
  - eexists _, (Some u). split; [done|]. split; [done|]. split; [set_solver|vlia].
Qed.

Lemma next_spec set a :
  wf set →
  ∃ status result, kernel_vma_set_next set a = Done (status, result) ∧
    match result with
    | Some v => status = KERNEL_VMA_STATUS_OK ∧ v ∈ live set ∧ a ≤ v.(vm_start) ∧
        (∀ u, u ∈ live set → a ≤ u.(vm_start) → v.(vm_start) ≤ u.(vm_start))
    | None => status = KERNEL_VMA_STATUS_NOT_FOUND ∧
        Forall (λ v, v.(vm_start) < a) (live set)
    end.
Proof.
  intros Hwf. destruct (wf_stored _ Hwf) as [rest Hs]. pose proof (wf_layout _ Hwf) as Hl.
  unfold kernel_vma_set_next. rewrite decide_False by (intros []; by apply wf_valid).
  destruct (partition_at _ a Hl) as (l1 & l2 & Hlive & H1 & H2). rewrite Hlive in *.
  rewrite (lower_bound_spec _ _ _ _ _ Hs H1 H2). run. rewrite (st_count _ _ _ Hs).
  destruct l2 as [|v l2].
  { rewrite app_nil_r in *. rewrite decide_True by done. by eexists _, None. }
  rewrite decide_False by (rewrite length_app; simpl; lia).
  rewrite (stored_read _ _ _ _ _ _ Hs) by done. run. eexists _, (Some v).
  split; [done|]. apply Forall_cons in H2 as [Hv _]. split_and!; [done|set_solver|done|].
  apply layout_app in Hl as (_ & (Hg & _ & Hb)%layout_cons & _). rewrite Forall_forall in *.
  intros u [Hu|[->|Hu]%elem_of_cons]%elem_of_app Hau; [|done|].
  - specialize (H1 u Hu). simpl in H1. lia.
  - specialize (Hb u Hu). vlia.
Qed.

(** ** The top-down gap search *)

(** [x, x + n) is inside the window and touches no descriptor. *)
Definition gap (l : list kernel_vma) (lower upper n x : Z) : Prop :=
  lower ≤ x ∧ x + n ≤ upper ∧ Forall (λ v, ¬ overlaps v x (x + n)) l.

Lemma topdown_loop_spec l1 l2 rest lower upper n cursor :
  layout (l1 ++ l2) → lower < upper → 0 < n → cursor ≤ upper →
  Forall (λ v, cursor ≤ v.(vm_start)) l2 →
  (∀ x, gap (l1 ++ l2) lower upper n x → x + n ≤ cursor) →
  ∃ status result, topdown_loop (l1 ++ l2 ++ rest) (length l1) lower upper n cursor =
      Done (status, result) ∧
    match result with
    | Some x => status = KERNEL_VMA_STATUS_OK ∧ gap (l1 ++ l2) lower upper n x ∧
        (∀ y, gap (l1 ++ l2) lower upper n y → y ≤ x)
    | None => status = KERNEL_VMA_STATUS_NOT_FOUND ∧ ∀ x, ¬ gap (l1 ++ l2) lower upper n x
    end.
Proof.
  revert l2 cursor. induction l1 as [|v l1 IH] using rev_ind; intros l2 cursor Hl Hlu Hn Hcu H2 Hbest.
  { cbn [app length topdown_loop]. case_decide as Hfit.
    - eexists _, (Some _). split; [done|]. split; [done|].
      assert (Hg : gap l2 lower upper n (cursor - n)).
      { split_and!; [lia|lia|]. eapply Forall_impl; [exact H2|]. intros v ?. vlia. }
      split; [done|]. intros y Hy. specialize (Hbest y Hy). lia.
    - eexists _, None. split; [done|]. split; [done|]. intros x Hx.
      specialize (Hbest x Hx). destruct Hx as (? & ? & _). lia. }
  rewrite length_app, Nat.add_1_r. cbn [topdown_loop].
  assert (Hr : aread ((l1 ++ [v]) ++ l2 ++ rest) (length l1) = Done v).
  { rewrite <-app_assoc. by apply aread_app. }
  rewrite Hr. run. clear Hr. rewrite <-!app_assoc in *. cbn [app] in *.
  pose proof Hl as (Hl1 & (Hv & Hl2 & Hb2)%layout_cons & Hb1)%layout_app.
  assert (Hbelow : Forall (λ u, u.(vm_end) ≤ v.(vm_start)) l1).
  { apply Forall_forall. intros u Hu. apply (Hb1 u v Hu). left. }
  case_decide as Hhigh.
  { apply (IH (v :: l2) cursor); try done. constructor; [lia|done]. }
  case_decide as Hlow.
  { assert (Hfree : ∀ x, lower ≤ x → x + n ≤ cursor →
      Forall (λ u, ¬ overlaps u x (x + n)) (l1 ++ v :: l2)).
    { intros x Hx1 Hx2. apply Forall_app. split; [|constructor; [vlia|]].
      - eapply Forall_impl; [exact Hbelow|]. intros u ?. vlia.
      - eapply Forall_impl; [exact H2|]. intros u ?. vlia. }
    case_decide as Hfit.
    - eexists _, (Some _). split; [done|]. split; [done|]. split.
      + split_and!; [lia|lia|]. apply Hfree; lia.
      + intros y Hy. specialize (Hbest y Hy). lia.
    - eexists _, None. split; [done|]. split; [done|]. intros x Hx.
      specialize (Hbest x Hx). destruct Hx as (? & ? & _). lia. }
  rewrite (decide_True (P := lower < vm_end v)) by lia. case_decide as Hfit.
  - eexists _, (Some _). split; [done|]. split; [done|]. split.
    + split_and!; [lia|lia|]. apply Forall_app. split; [|constructor; [vlia|]].
      * eapply Forall_impl; [exact Hbelow|]. intros u ?. vlia.
      * eapply Forall_impl; [exact H2|]. intros u ?. vlia.
    + intros y Hy. specialize (Hbest y Hy). lia.
  - apply (IH (v :: l2)); try done.
    + case_decide; vlia.
    + constructor; [case_decide; lia|]. eapply Forall_impl; [exact Hb2|]. intros u ?.
      case_decide; vlia.
    + intros x Hx. specialize (Hbest x Hx). destruct Hx as (? & ? & Hno).
      apply Forall_app in Hno as [_ [Hnv _]%Forall_cons]. case_decide; [|done]. vlia.
Qed.

Lemma find_topdown_gap_spec set hint lower upper n :
  wf set → lower < upper → 0 < n ≤ upper - lower →
  ∃ status result, kernel_vma_set_find_topdown_gap set hint lower upper n = Done (status, result) ∧
    match result with
    | Some x => status = KERNEL_VMA_STATUS_OK ∧ gap (live set) lower upper n x ∧
        (gap (live set) lower upper n hint → x = hint) ∧
        (¬ gap (live set) lower upper n hint → ∀ y, gap (live set) lower upper n y → y ≤ x)
    | None => status = KERNEL_VMA_STATUS_NOT_FOUND ∧ ∀ x, ¬ gap (live set) lower upper n x
    end.
Proof.
  intros Hwf Hlu Hn. destruct (wf_stored _ Hwf) as [rest Hs]. pose proof (wf_layout _ Hwf) as Hl.
  unfold kernel_vma_set_find_topdown_gap.
  rewrite decide_False by (intros [[]|[?|[?|?]]]; [by apply wf_valid|lia..]).
  assert (Hhint : (if decide (lower ≤ hint ∧ hint ≤ upper - n) then
      '(status, conflict) ← kernel_vma_set_overlaps set hint (hint + n);
      Done (bool_decide (status = KERNEL_VMA_STATUS_OK ∧ conflict = Some false))
    else Done false) = Done (bool_decide (lower ≤ hint ∧ hint + n ≤ upper ∧
      ¬ Exists (λ v, overlaps v hint (hint + n)) (live set)))).
  { case_decide as Hr.
    - rewrite (overlaps_spec set _ rest _ _ Hs Hl) by lia. run. f_equal. apply bool_decide_ext.
      rewrite (inj_iff Some), bool_decide_eq_false. intuition lia.
    - f_equal. symmetry. apply bool_decide_eq_false. lia. }
  rewrite Hhint. run.
  assert (Hgap : gap (live set) lower upper n hint ↔ lower ≤ hint ∧ hint + n ≤ upper ∧
      ¬ Exists (λ v, overlaps v hint (hint + n)) (live set)).
  { unfold gap. by rewrite Forall_Exists_neg. }
  case_bool_decide as Hg; rewrite <-Hgap in Hg.
  { eexists _, (Some hint). split; [done|]. split_and!; done. }
  destruct (topdown_loop_spec (live set) [] rest lower upper n upper) as (status & result & E & Hres);
    rewrite ?app_nil_r; try done; [lia|by intros x (_ & ? & _)|].
  rewrite (st_entries _ _ _ Hs), (st_count _ _ _ Hs). cbn [app] in E. rewrite E.
  exists status, result. split; [done|]. rewrite app_nil_r in Hres.
  destruct result; [|done]. destruct Hres as (? & ? & ?). split_and!; done.
Qed.

(** ** Operations that change the set *)

Section changes.
Context {H : Type} `{KernelHeap H}.
Implicit Types w : world H.
Variable junk : kernel_vma.

(** Recount and take the next generation. *)
Lemma recount_tail (status : kernel_vma_status) set l rest w :
  stored set l rest → layout l → is_u64 set.(vs_generation) → set.(vs_generation) ≠ UINT64_MAX →
  ∃ set', (set ← lift (recount_bytes set); mret (status, bump_generation set)) w =
          Done (status, set', w) ∧
    wf set' ∧ live set' = l ∧ set'.(vs_this) = set.(vs_this) ∧
    set'.(vs_capacity) = set.(vs_capacity) ∧ set'.(vs_generation) = set.(vs_generation) + 1.
Proof.
  intros Hs Hl Hg Hmax.
  destruct (recount_bytes_spec set _ rest Hs Hl) as (set2 & E2 & Hs2 & [C1 C2 C3] & Ht2 & Hp2 & Hg2 & Hk2).
  step E2. exists (bump_generation set2).
  assert (Hs3 : stored (bump_generation set2) l rest) by (destruct Hs2; by split).
  assert (Hgen : (bump_generation set2).(vs_generation) = set.(vs_generation) + 1).
  { simpl. rewrite Hg2. apply u64_small. mlia. }
  split_and!; [done| |exact (stored_live _ _ _ Hs3)|done|done|done].
  apply (wf_intro _ _ _ Hs3); [done|by split|rewrite Hgen; mlia].
Qed.

(** The four outcomes of an insertion. *)
Inductive insert_outcome (set : kernel_vma_set) (v : kernel_vma) w
    : kernel_vma_status → kernel_vma_set → world H → Prop :=
  | Inserted set' w' :
      wf set' → ¬ Exists (λ u, overlaps u v.(vm_start) v.(vm_end)) (live set) →
      inserted (live set) v (live set') →
      took w w' (λ p, refs p (live set') - refs p (live set)) →
      set'.(vs_this) = set.(vs_this) → set'.(vs_generation) = set.(vs_generation) + 1 →
      ((length (live set) < set.(vs_capacity))%nat → w'.(w_heap) = w.(w_heap)) →
      set.(vs_generation) ≠ UINT64_MAX → insert_answer set (live set) v w.(w_heap) = KERNEL_VMA_STATUS_OK →
      insert_outcome set v w KERNEL_VMA_STATUS_OK set' w'
  | Not_inserted_overlap :
      Exists (λ u, overlaps u v.(vm_start) v.(vm_end)) (live set) → set.(vs_generation) ≠ UINT64_MAX →
      insert_outcome set v w KERNEL_VMA_STATUS_CONFLICT set w
  | Not_inserted_last :
      set.(vs_generation) = UINT64_MAX →
      insert_outcome set v w KERNEL_VMA_STATUS_STATE set w
  | Not_inserted_memory status w' :
      status = KERNEL_VMA_STATUS_NO_MEMORY ∨ status = KERNEL_VMA_STATUS_STATE →
      (set.(vs_capacity) ≤ length (live set))%nat → w'.(w_shm) = w.(w_shm) →
      set.(vs_generation) ≠ UINT64_MAX → ¬ Exists (λ u, overlaps u v.(vm_start) v.(vm_end)) (live set) →
      insert_answer set (live set) v w.(w_heap) = status →
      insert_outcome set v w status set w'.

Lemma insert_spec set v w :
  wf set → good v →
  ∃ status set' w', kernel_vma_set_insert junk set v w = Done (status, set', w') ∧
    insert_outcome set v w status set' w'.
Proof.
  intros Hwf Hv. destruct (wf_stored _ Hwf) as [rest Hs]. pose proof (wf_layout _ Hwf) as Hl.
  unfold kernel_vma_set_insert.
  rewrite decide_False by (intros [[]|[]]; [by apply wf_valid|apply Hv]).
  case_decide as Hmax.
  { eexists _, _, _. split; [done|]. by apply Not_inserted_last. }
  destruct (insert_entry_spec junk set _ rest v w Hs Hl Hv) as (status & set1 & w1 & E & Hres). step E.
  destruct Hres as [Hov|set1 l' rest' w1 Hno Hs1 Hh1 Hins Ht Hkeep|status w1 Hst Hno Hfull Hw].
  - eexists _, _, _. split; [done|]. by apply Not_inserted_overlap.
  - rewrite decide_True by done.
    destruct (recount_tail KERNEL_VMA_STATUS_OK set1 l' rest' w1 Hs1 (ins_layout _ _ _ Hins))
      as (set2 & E2 & Hwf2 & Hl2 & Ht2 & _ & Hg2).
    { rewrite (sh_generation _ _ Hh1). apply Hwf. }
    { by rewrite (sh_generation _ _ Hh1). }
    exists KERNEL_VMA_STATUS_OK, set2, w1. split; [exact E2|].
    apply Inserted; rewrite ?Hl2; try done.
    + rewrite Ht2. apply Hh1.
    + by rewrite Hg2, (sh_generation _ _ Hh1).
    + intros Hroom. by apply Hkeep.
  - exists status, set, w1. rewrite decide_False by (destruct Hst; congruence). split; [done|].
    by apply Not_inserted_memory.
Qed.

(** ** Remapping *)

(** After the source range is gone, the new range is free. *)
Lemma remap_free set removal s e replacement set' w w' :
  wf set → remap_ready set s e replacement →
  removal.(ed_kind) = KERNEL_VMA_EDIT_REMOVE → removal.(ed_start) = s → removal.(ed_end) = e →
  committed (H:=H) removal set w set' w' →
  ¬ Exists (λ u, overlaps u replacement.(vm_start) replacement.(vm_end)) (live set').
Proof.
  intros Hwf [Hr Hg _ _ Hfree] Hk Hs He Hc (u & Hu & Hov)%Exists_exists.
  pose proof (wf_layout _ (cm_wf _ _ _ _ _ Hc)) as Hl'.
  pose proof (layout_elem _ _ Hl' Hu). 
  set (a := Z.max u.(vm_start) replacement.(vm_start)).
  pose proof (view_elem _ u a Hl' Hu ltac:(unfold a; vlia)) as Hview.
  rewrite (cm_view _ _ _ _ _ Hc) in Hview. unfold edit_view in Hview. rewrite Hk, Hs, He in Hview.
  case_decide as Hin; [done|]. apply view_Some in Hview as (v & Hv & Hva & _).
  unfold remap_needs in Hfree. case_decide as Hst.
  - specialize (Hfree ltac:(unfold a in *; vlia)). rewrite Forall_forall in Hfree.
    apply (Hfree v Hv). unfold a in *. vlia.
  - specialize (Hfree ltac:(vlia)). rewrite Forall_forall in Hfree.
    apply (Hfree v Hv). unfold a in *. vlia.
Qed.

Lemma commit_remap_spec set s e replacement w :
  wf set → remap_ready set s e replacement →
  let edit := mk_remap set.(vs_this) set.(vs_generation) s e replacement in
  ∃ set' w', kernel_vma_set_commit_remap junk set edit w = Done (KERNEL_VMA_STATUS_OK, set', w') ∧
    wf set' ∧ w'.(w_heap) = w.(w_heap) ∧ set'.(vs_generation) = set.(vs_generation) + 2 ∧
    took w w' (λ p, refs p (live set') - refs p (live set)) ∧
    ∀ a, view (live set') a =
      if decide (inside replacement a) then Some (byte_of replacement a)
      else if decide (s ≤ a < e) then None else view (live set) a.
Proof.
  intros Hwf Hready edit. pose proof Hready as [Hr Hg Hgen Hroom Hfree].
  destruct (wf_stored _ Hwf) as [rest Hs]. pose proof (st_count _ _ _ Hs) as Hc.
  unfold kernel_vma_set_commit_remap. rewrite decide_False by (simpl; tauto).
  pose proof (splits_two (live set) s e).
  destruct (prepare_remove_enough junk set s e w Hwf Hr) as [E1 Hready1]; [mlia|lia|].
  step E1. destruct (commit_edit_spec junk set _ w Hwf Hready1) as (set1 & w1 & E2 & Hcm).
  step E2. rewrite decide_False by auto. pose proof Hcm as [Hwf1 Ht1 Hg1 Hk1 Hv1 _ Hh1 Htk1 Hlen].
  specialize (Hlen eq_refl).
  pose proof (remap_free set (replace_edit set s e None) s e replacement set1 w w1 Hwf Hready eq_refl eq_refl eq_refl Hcm) as Hno.
  destruct (insert_spec set1 replacement w1 Hwf1 Hg) as (status & set2 & w2 & E3 & Hout).
  cbn [rm_replacement edit]. step E3.
  destruct Hout as [set2 w2 Hwf2 _ Hins Htk2 Ht2 Hg2 Hheap|Hov|Hlast|status w2 _ Hfull _].
  - rewrite decide_False by auto. exists set2, w2. split; [done|].
    split_and!; [done|rewrite Hheap by lia; done|lia| |].
    + intros p Hp. rewrite Htk2, Htk1 by done. lia.
    + intros a. rewrite (ins_view _ _ _ Hins), Hv1. done.
  - done.
  - exfalso. mlia.
  - exfalso. lia.
Qed.

(** ** Trimming *)

Lemma layout_trim l1 v l2 b :
  layout (l1 ++ v :: l2) → straddles b v → layout (l1 ++ left_half v b :: l2).
Proof.
  intros Hl Hb. assert (Hv : good v) by (apply (layout_elem _ _ Hl); set_solver).
  pose proof Hl as (_ & (_ & _ & Hb2)%layout_cons & Hb1)%layout_app.
  apply layout_insert.
  - by apply (layout_delete l1 [v] l2).
  - by apply good_left.
  - apply Forall_forall. intros u Hu. exact (Hb1 u v Hu ltac:(left)).
  - eapply Forall_impl; [exact Hb2|]. unfold left_half. intros u ?. vlia.
Qed.

(** [trim_end] finds exactly the descriptor [start, old_end), and unmaps its
    tail. *)
Inductive trim_outcome (set : kernel_vma_set) (start old_end new_end : Z) w
    : kernel_vma_status → kernel_vma_set → world H → Prop :=
  | Trimmed v set' w' :
      v ∈ live set → v.(vm_start) = start → v.(vm_end) = old_end →
      wf set' → set'.(vs_this) = set.(vs_this) →
      set'.(vs_generation) = set.(vs_generation) + 1 → w'.(w_heap) = w.(w_heap) →
      took w w' (λ p, refs p (live set') - refs p (live set)) →
      (∀ a, view (live set') a =
        if decide (new_end ≤ a < old_end) then None else view (live set) a) →
      trim_outcome set start old_end new_end w KERNEL_VMA_STATUS_OK set' w'
  | Trim_last : set.(vs_generation) = UINT64_MAX →
      trim_outcome set start old_end new_end w KERNEL_VMA_STATUS_STATE set w
  | Trim_missing :
      (∀ v, v ∈ live set → ¬ (v.(vm_start) = start ∧ v.(vm_end) = old_end)) →
      trim_outcome set start old_end new_end w KERNEL_VMA_STATUS_NOT_FOUND set w.

(** One descriptor replaced by a part of itself, or dropped. *)
Definition trim_list (l1 : list kernel_vma) (v : kernel_vma) (l2 : list kernel_vma) (b : Z) :=
  if decide (b = v.(vm_start)) then l1 ++ l2 else l1 ++ left_half v b :: l2.

Lemma view_trim l1 v l2 a b :
  layout (l1 ++ v :: l2) → v.(vm_start) ≤ b < v.(vm_end) →
  view (trim_list l1 v l2 b) a =
    if decide (b ≤ a < v.(vm_end)) then None else view (l1 ++ v :: l2) a.
Proof.
  intros Hl Hb. unfold trim_list. rewrite (view_insert _ _ _ _ Hl).
  assert (Hout : inside v a → view (l1 ++ l2) a = None).
  { intros Ha. apply view_None. apply layout_app in Hl as (_ & (_ & _ & Hb2)%layout_cons & Hb1).
    apply Forall_app. split; apply Forall_forall; intros u Hu.
    - specialize (Hb1 u v Hu ltac:(left)). vlia.
    - rewrite Forall_forall in Hb2. specialize (Hb2 u Hu). vlia. }
  case_decide as Hbs.
  - destruct (decide (inside v a)) as [Ha|Ha].
    + rewrite Hout by done. by rewrite decide_True by vlia.
    + by rewrite decide_False by vlia.
  - rewrite view_insert by (apply layout_trim; [done|vlia]).
    destruct (decide (inside (left_half v b) a)) as [Ha|Ha]; unfold left_half in *.
    + by rewrite decide_False, decide_True by vlia.
    + destruct (decide (inside v a)) as [Ha'|Ha'].
      * rewrite Hout by done. by rewrite decide_True by vlia.
      * by rewrite decide_False by vlia.
Qed.

Lemma trim_change set l1 v l2 rest b w :
  stored set (l1 ++ v :: l2) rest → layout (l1 ++ v :: l2) → v.(vm_start) ≤ b < v.(vm_end) →
  let l' := trim_list l1 v l2 b in
  ∃ set1 rest1 w1,
    (if decide (b = v.(vm_start)) then erase_entry set (length l1)
     else entries ← lift (awrite set.(vs_entries) (length l1) (with_end v b));
          mret (with_entries set entries set.(vs_count))) w = Done (set1, w1) ∧
    stored set1 l' rest1 ∧ same_header set set1 ∧ w1.(w_heap) = w.(w_heap) ∧
    took w w1 (λ p, refs p l' - refs p (l1 ++ v :: l2)) ∧ layout l'.
Proof.
  intros Hs Hl Hr. unfold trim_list. simpl. case_decide as Hn.
  - destruct (erase_entry_spec set l1 v l2 rest w Hs)
      as (set1 & rest1 & w1 & E & Hs1 & Hh1 & _ & Hw1 & Ht1).
    exists set1, rest1, w1. split_and!; try done; [|by apply (layout_delete l1 [v] l2)].
    intros p Hp. rewrite Ht1, !refs_app, refs_cons by done. case_decide; lia.
  - step (stored_overwrite_entries _ _ _ (with_end v b) _ _ _ Hs eq_refl).
    eexists _, rest, w. split; [done|].
    split_and!; [exact (stored_overwrite _ _ _ _ _ _ Hs)|by split|done| |apply layout_trim; [done|vlia]].
    intros p Hp. rewrite !refs_app, !refs_cons. simpl. lia.
Qed.

Lemma trim_end_spec set start old_end new_end w :
  wf set → start ≤ new_end < old_end →
  ∃ status set' w',
    kernel_vma_set_trim_end set start old_end new_end w = Done (status, set', w') ∧
    trim_outcome set start old_end new_end w status set' w'.
Proof.
  intros Hwf Hr. destruct (wf_stored _ Hwf) as [rest Hs]. pose proof (wf_layout _ Hwf) as Hl.
  unfold kernel_vma_set_trim_end.
  rewrite decide_False by (pose proof (wf_valid _ Hwf); intros [?|[?|[?|?]]]; (done || lia)).
  case_decide as Hmax. { eexists _, _, _. split; [done|]. by apply Trim_last. }
  destruct (partition_at _ start Hl) as (l1 & l2 & Hlive & H1 & H2).
  assert (Hs' := Hs). assert (Hl' := Hl). rewrite Hlive in Hs', Hl'.
  step (lower_bound_spec _ _ _ _ _ Hs' H1 H2). pose proof (st_count _ _ _ Hs') as Hcnt.
  rewrite Forall_forall in H1. rewrite length_app in Hcnt. destruct l2 as [|v l2].
  { rewrite decide_True by (simpl in Hcnt; lia). eexists _, _, _. split; [done|].
    apply Trim_missing. rewrite Hlive, app_nil_r. intros u Hu [Hus _]. specialize (H1 u Hu).
    simpl in H1. lia. }
  rewrite decide_False by (simpl in Hcnt; lia).
  step (stored_read _ _ _ _ _ _ Hs' eq_refl).
  pose proof Hl' as (_ & (Hv & _ & Hb)%layout_cons & _)%layout_app.
  destruct (decide (v.(vm_start) ≠ start ∨ v.(vm_end) ≠ old_end)) as [Hne|Heq].
  { eexists _, _, _. split; [done|]. apply Trim_missing. rewrite Hlive.
    intros u [Hu|[->|Hu]%elem_of_cons]%elem_of_app [Hus Hue].
    - specialize (H1 u Hu). simpl in H1. lia.
    - tauto.
    - rewrite Forall_forall in Hb. specialize (Hb u Hu).
      apply Forall_cons in H2 as [? _]. vlia. }
  assert (v.(vm_start) = start ∧ v.(vm_end) = old_end) as [<- <-].
  { split; apply dec_stable; tauto. }
  destruct (trim_change set l1 v l2 rest new_end w Hs' Hl' Hr)
    as (set1 & rest1 & w1 & E1 & Hs1 & Hh1 & Hw1 & Ht1 & Hl1). step E1.
  destruct (recount_tail KERNEL_VMA_STATUS_OK set1 _ rest1 w1 Hs1 Hl1)
    as (set2 & E2 & Hwf2 & Hl2 & Ht2 & _ & Hg2).
  { rewrite (sh_generation _ _ Hh1). apply Hwf. }
  { by rewrite (sh_generation _ _ Hh1). }
  eexists _, _, _. split; [exact E2|]. apply (Trimmed _ _ _ _ _ v); rewrite ?Hl2, ?Hlive; try done.
  - set_solver.
  - rewrite Ht2. apply Hh1.
  - by rewrite Hg2, (sh_generation _ _ Hh1).
  - intros a. by apply view_trim.
Qed.

(** ** Clearing the lock flags *)

Lemma clear_locks_loop_spec l1 l2 rest :
  clear_locks_loop (length l2) (length l1) (l1 ++ l2 ++ rest) =
    Done (l1 ++ (unlock <$> l2) ++ rest).
Proof.
  revert l1. induction l2 as [|v l2 IH]; intros l1; [done|].
  cbn [clear_locks_loop length app]. rewrite aread_app by done. run.
  rewrite awrite_app by done. run. fold (unlock v). specialize (IH (l1 ++ [unlock v])).
  by rewrite length_app, Nat.add_1_r, <-!app_assoc in IH.
Qed.

Lemma unlock_layout l : layout l → layout (unlock <$> l).
Proof.
  intros Hl. pose proof (layout_map unlock (λ _, eq_refl) (λ _, eq_refl) [] l []) as Hm.
  rewrite !app_nil_r in Hm. apply Hm; [done|]. intros v Hv.
  by apply good_unlock, (layout_elem l).
Qed.

Lemma clear_locks_spec set w :
  wf set →
  ∃ set', kernel_vma_set_clear_locks set w = Done (set', w) ∧
    wf set' ∧ set'.(vs_this) = set.(vs_this) ∧ set'.(vs_locked_bytes) = 0 ∧
    set'.(vs_generation) = u64 (set.(vs_generation) + 1) ∧
    (∀ a, view (live set') a = unlock <$> view (live set) a) ∧
    took w w (λ p, refs p (live set') - refs p (live set)).
Proof.
  intros Hwf. destruct (wf_stored _ Hwf) as [rest Hs]. pose proof (wf_layout _ Hwf) as Hl.
  unfold kernel_vma_set_clear_locks.
  step (trap_if_ok (¬ set_valid set) ltac:(intros []; by apply wf_valid)).
  rewrite (st_count _ _ _ Hs), (st_entries _ _ _ Hs). step (clear_locks_loop_spec [] (live set) rest).
  cbn [app]. set (l := unlock <$> live set). set (set1 := with_bytes _ _ _ _).
  assert (Hs1 : stored set1 l rest).
  { destruct (stored_with_entries _ _ _ l rest Hs) as [E1 E2 E3 E4 E5]; [unfold l; by rewrite length_fmap|].
    unfold l in *. rewrite length_fmap in *. split; simpl in *; rewrite ?length_fmap; done. }
  pose proof (unlock_layout _ Hl) as Hl1. fold l in Hl1.
  destruct (merge_all_spec set1 l rest w Hs1 (layout_good _ Hl1)) as (set2 & rest2 & E & Hs2 & Hh2 & _).
  step E. exists (bump_generation set2). split; [done|].
  pose proof (merge_list_equivalent l Hl1) as [Hl2 V2 R2 B2].
  assert (Hs3 : stored (bump_generation set2) (merge_list l) rest2) by (destruct Hs2; by split).
  rewrite (stored_live _ _ _ Hs3). destruct Hh2 as [T1 _ T3 T4 T5 T6], (wf_counted _ Hwf) as [C1 C2 _].
  destruct (bytes_where_unlock (live set)) as (U1 & U2 & U3). fold l in U1, U2, U3.
  split_and!.
  - apply (wf_intro _ _ _ Hs3); [done| |apply u64_bounds]. split; simpl.
    + rewrite T4, (B2 _ all_vma_class), U1. apply C1.
    + rewrite T5, (B2 _ data_vma_class), U2. apply C2.
    + rewrite T6, (B2 _ locked_vma_class), U3. done.
  - exact T1.
  - exact T6.
  - simpl. by rewrite T3.
  - intros a. rewrite V2. apply view_map; [done..|]. intros v. apply byte_of_unlock.
  - intros p Hp. rewrite R2 by done. unfold l. rewrite refs_map_unlock. lia.
Qed.

(** ** Creation and destruction *)

Lemma create_spec heap w :
  heap ≠ 0 →
  ∃ status result w', kernel_vma_set_create heap None w = Done (status, result, w') ∧
    w'.(w_shm) = w.(w_shm) ∧
    match result with
    | Some set => status = KERNEL_VMA_STATUS_OK ∧ wf set ∧ live set = [] ∧ stored set [] [] ∧
        set.(vs_heap) = heap
    | None => status = KERNEL_VMA_STATUS_NO_MEMORY ∨ status = KERNEL_VMA_STATUS_STATE
    end.
Proof.
  intros Hh. unfold kernel_vma_set_create. rewrite decide_False by tauto.
  destruct (heap_allocate_zeroed w.(w_heap) sizeof_vma_set) as [[hs address] h].
  case_decide; [eexists _, None, _; split_and!; [done..|by left]|].
  case_decide; [eexists _, None, _; split_and!; [done..|by right]|].
  eexists _, (Some _), _. split; [done|]. split; [done|].
  assert (Hs : stored (mk_set address heap [] 0 0 0 0 0 0) [] []) by (split; simpl; (done || mlia)).
  split_and!; try done. apply (wf_intro _ _ _ Hs); [apply layout_nil|done|simpl; mlia].
Qed.

Lemma destroy_spec set w :
  wf set →
  ∃ w', kernel_vma_set_destroy set w = Done (KERNEL_VMA_STATUS_OK, None, w') ∧
    took w w' (λ p, - refs p (live set)).
Proof.
  intros Hwf. destruct (wf_stored _ Hwf) as [rest Hs]. unfold kernel_vma_set_destroy.
  rewrite decide_False by (intros []; by apply wf_valid).
  rewrite (st_entries _ _ _ Hs), (st_count _ _ _ Hs).
  case_decide as Hne.
  - destruct (close_loop_spec [] (live set) rest w) as (w1 & E1 & _ & Ht). cbn [app length] in E1.
    unfold mbind, ST_bind. rewrite E1. cbn. eexists. split; [done|]. exact Ht.
  - apply app_eq_nil in Hne as [Hl _]. rewrite Hl.
    eexists. split; [done|]. intros p Hp. unfold refs. simpl. lia.
Qed.

(** ** Fork *)

Definition fork_list (l : list kernel_vma) : list kernel_vma :=
  unlock <$> filter (λ v, ¬ dontfork v) l.

Lemma fork_loop_spec s1 s2 srest acc rest w :
  (length s2 ≤ length rest)%nat →
  ∃ rest' w', fork_loop (length s2) (length s1) (s1 ++ s2 ++ srest) (acc ++ rest) (length acc) w =
      Done ((acc ++ fork_list s2) ++ rest', length (acc ++ fork_list s2), w') ∧
    (length (fork_list s2) + length rest' = length rest)%nat ∧
    w'.(w_heap) = w.(w_heap) ∧ took w w' (λ p, refs p (fork_list s2)).
Proof.
  revert s1 acc rest w. induction s2 as [|v s2 IH]; intros s1 acc rest w Hlen.
  { exists rest, w. rewrite app_nil_r. split_and!; [done..|]. intros p ?. unfold refs. simpl. lia. }
  cbn [fork_loop length app]. step (aread_app s1 (s2 ++ srest) v _ eq_refl).
  specialize (IH (s1 ++ [v])). rewrite length_app, Nat.add_1_r in IH. simpl in Hlen.
  unfold fork_list. rewrite filter_cons. destruct (decide (dontfork v)) as [Hd|Hd].
  - rewrite (decide_True (P := Z.land _ _ ≠ 0)) by exact Hd.
    rewrite (decide_False (P := ¬ dontfork v)) by auto.
    destruct (IH acc rest w ltac:(lia)) as (rest' & w' & E & ? & ? & ?).
    rewrite <-app_assoc in E. by exists rest', w'.
  - rewrite (decide_False (P := Z.land _ _ ≠ 0)) by exact Hd. rewrite decide_True by done.
    destruct rest as [|y rest]; [simpl in Hlen; lia|]. fold (unlock v).
    step (awrite_app acc rest y (unlock v) _ eq_refl).
    destruct (attachment_open_spec (unlock v).(vm_shm_attachment) w) as (w1 & E1 & Hh1 & Ht1). step E1.
    destruct (IH (acc ++ [unlock v]) rest w1 ltac:(simpl in Hlen; lia)) as (rest' & w' & E & Hl & Hh & Ht).
    rewrite length_app, Nat.add_1_r, <-!app_assoc in E. cbn [app] in E. rewrite fmap_cons.
    exists rest', w'. rewrite <-!app_assoc. cbn [app]. split_and!.
    + exact E.
    + simpl in *. unfold fork_list in Hl. lia.
    + congruence.
    + intros p Hp. rewrite Ht, Ht1, refs_cons by done. unfold fork_list. lia.
Qed.

(** The child's view of one byte. *)
Definition fork_byte (b : kernel_vma) : option kernel_vma :=
  if decide (dontfork b) then None else Some (unlock b).

Lemma view_fork_list l a : layout l → view (fork_list l) a = view l a ≫= fork_byte.
Proof.
  intros Hl. unfold fork_list.
  rewrite (view_map unlock (λ _, eq_refl) (λ _, eq_refl)) by (intros v; apply byte_of_unlock).
  rewrite view_filter by done. destruct (view l a) as [b|]; [|done]. simpl. unfold fork_byte.
  destruct (decide (dontfork b)); [by rewrite decide_False by auto|by rewrite decide_True].
Qed.

(** A fork that succeeds gives the child the parent's map without the
    DONTFORK areas and without locks, one reference per attached descriptor
    taken; one that fails leaves nothing behind. *)
Inductive fork_outcome (source : kernel_vma_set) w
    : kernel_vma_status → option kernel_vma_set → world H → Prop :=
  | Forked child w' :
      wf child → child.(vs_heap) = source.(vs_heap) →
      (∀ a, view (live child) a = view (live source) a ≫= fork_byte) →
      child.(vs_locked_bytes) = 0 →
      took w w' (λ p, refs p (live child)) →
      fork_outcome source w KERNEL_VMA_STATUS_OK (Some child) w'
  | Fork_failed status w' :
      status = KERNEL_VMA_STATUS_NO_MEMORY ∨ status = KERNEL_VMA_STATUS_STATE →
      took w w' (λ _, 0) →
      fork_outcome source w status None w'.

Lemma took_same w w' : w'.(w_shm) = w.(w_shm) → took w w' (λ _, 0).
Proof. intros Hw p Hp. rewrite Hw. lia. Qed.

Lemma fork_spec source w :
  wf source →
  ∃ status result w', kernel_vma_set_fork junk source None w = Done (status, result, w') ∧
    fork_outcome source w status result w'.
Proof.
  intros Hwf. destruct (wf_stored _ Hwf) as [rest Hs]. pose proof (wf_layout _ Hwf) as Hl.
  unfold kernel_vma_set_fork.
  rewrite decide_False by (pose proof (wf_valid _ Hwf); intros [?|?]; done).
  destruct (create_spec source.(vs_heap) w (st_heap _ _ _ Hs)) as (status & result & w1 & E1 & Hw1 & Hres).
  step E1. destruct result as [working|].
  2:{ eexists _, None, _. split; [done|]. apply Fork_failed; [done|by apply took_same]. }
  destruct Hres as (-> & Hwf1 & Hl1 & Hs1 & Hh1).
  pose proof (st_count _ _ _ Hs) as Hc. pose proof (st_capacity _ _ _ Hs). pose proof (st_u32 _ _ _ Hs).
  destruct (reserve_entries_spec junk working [] [] source.(vs_count) w1 Hs1)
    as (status & set2 & rest2 & w2 & E2 & Hs2 & Hh2 & Hw2 & Hcase & _); [lia|]. step E2.
  destruct Hcase as [[-> Hcap]|[Hst ->]].
  2:{ rewrite decide_False by (destruct Hst; congruence).
      destruct (destroy_spec working w2 Hwf1) as (w3 & E3 & Ht3). step E3.
      eexists _, None, _. split; [done|]. apply Fork_failed; [done|].
      intros p Hp. rewrite Ht3, Hw2, Hw1, Hl1 by done. unfold refs. simpl. lia. }
  rewrite decide_True by done. rewrite Hc, (st_entries _ _ _ Hs), (st_entries _ _ _ Hs2).
  rewrite (st_count _ _ _ Hs2).
  destruct (fork_loop_spec [] (live source) rest [] rest2 w2) as (rest3 & w3 & E3 & Hlen & Hh3 & Ht3).
  { rewrite (st_capacity _ _ _ Hs2) in Hcap. simpl in Hcap. lia. }
  cbn [app length] in *. step E3. set (l := fork_list (live source)) in *.
  assert (Hs3 : stored (with_entries set2 (l ++ rest3) (length l)) l rest3).
  { apply (stored_with_entries _ _ _ _ _ Hs2). simpl. lia. }
  assert (Hl3 : layout l) by (by apply unlock_layout, layout_filter).
  pose proof (merge_list_equivalent l Hl3) as [Hl4 V4 R4 B4].
  destruct (merge_all_spec _ l rest3 w3 Hs3 (layout_good _ Hl3)) as (set4 & rest4 & E4 & Hs4 & Hh4 & _).
  step E4. destruct (recount_bytes_spec set4 _ rest4 Hs4 Hl4) as (set5 & E5 & Hs5 & C5 & _ & Hp5 & Hg5 & _).
  step E5. eexists _, (Some set5), w3. split; [done|].
  apply Forked; rewrite ?(stored_live _ _ _ Hs5).
  - apply (wf_intro _ _ _ Hs5); [done..|]. rewrite Hg5, (sh_generation _ _ Hh4). simpl.
    rewrite (sh_generation _ _ Hh2). apply Hwf1.
  - rewrite Hp5, (sh_heap _ _ Hh4). simpl. rewrite (sh_heap _ _ Hh2). done.
  - intros a. rewrite V4. by apply view_fork_list.
  - rewrite (ct_locked _ _ C5), (B4 _ locked_vma_class).
    by destruct (bytes_where_unlock (filter (λ v, ¬ dontfork v) (live source))) as (_ & _ & ?).
  - intros p Hp. rewrite Ht3, R4, Hw2, Hw1 by done. done.
Qed.
End changes.

(** ** mprotect admission ([kernel_vma_set_prepare_mprotect])

    The loop walks the descriptors of the range in address order and stops at
    the first one it cannot change; the header promises that what it reserved
    so far is a committable prefix.  The invariant below says how far it got
    and what the prepared edit covers. *)
Import Heap Vma.

Section mprotect.
Context {H : Type} `{KernelHeap H}.
Implicit Types w : world H.
Variable junk : kernel_vma.
Variable limits : kernel_memory_limits.

(** The original set, the requested range and the permissions. *)
Variables (set0 : kernel_vma_set) (w0 : world H) (s0 e0 permissions : Z).
Hypothesis Hwf0 : wf set0.
Hypothesis Hrange : page_range (live set0) s0 e0.

(** Every byte of [s, e) is mapped and already has the permissions. *)
Definition settled (s e : Z) : Prop :=
  ∀ a, s ≤ a < e → ∃ b, view (live set0) a = Some b ∧ b.(vm_permissions) = permissions.
(** Every descriptor that meets [s, e) allows the permissions. *)
Definition admitted (s e : Z) : Prop :=
  s < e → ∀ v, v ∈ live set0 → overlaps v s e →
    Z.land permissions (Z.lnot v.(vm_maximum_permissions)) = 0.

(** The bytes of [s0, c) are dealt with: settled, or in the prepared edit. *)
Definition progress (set : kernel_vma_set) (c : Z) (edit : option kernel_vma_edit) : Prop :=
  match edit with
  | None => settled s0 c
  | Some ed => ∃ s1 e1, ed = protect_edit set0 s1 e1 permissions ∧
      s0 ≤ s1 ∧ s1 < e1 ≤ c ∧ settled s0 s1 ∧ mapped (live set0) s1 e1 ∧ settled e1 c ∧
      edit_ready set ed
  end.

Definition first_flag (edit : option kernel_vma_edit) (first_split : bool) : Prop :=
  match edit with
  | None => True
  | Some ed => first_split = bool_decide (Exists (straddles ed.(ed_start)) (live set0))
  end.

(** What a return of the loop guarantees: it reached some [c], the whole range
    when the status is OK. *)
Definition mprotect_result (status : kernel_vma_status) (set : kernel_vma_set)
    (edit : option kernel_vma_edit) w : Prop :=
  undisturbed set0 w0 set w ∧
  ∃ c, s0 ≤ c ≤ e0 ∧ progress set c edit ∧
    (status = KERNEL_VMA_STATUS_OK → c = e0).

Lemma settled_app a b c : a ≤ b → settled a b → settled b c → settled a c.
Proof.
  intros Hab H1 H2 x Hx. destruct (decide (x < b)); [apply H1|apply H2]; lia.
Qed.
Lemma settled_empty a : settled a a.
Proof. intros x Hx. lia. Qed.

Lemma progress_extend set c c' edit :
  s0 ≤ c → settled c c' → c ≤ c' → progress set c edit → progress set c' edit.
Proof.
  intros Hc Hs Hle. destruct edit as [ed|]; simpl.
  - intros (s1 & e1 & -> & ? & ? & ? & ? & ? & ?). exists s1, e1.
    split_and!; try (done || lia). apply (settled_app _ c); [lia|done..].
  - intros ?. by apply (settled_app _ c).
Qed.

(** A boundary of a descriptor cuts nothing. *)
Lemma end_not_straddled l v : layout l → v ∈ l → ¬ Exists (straddles v.(vm_end)) l.
Proof.
  intros Hl Hv (u & Hu & Hst)%Exists_exists.
  pose proof (layout_elem _ _ Hl Hv). pose proof (layout_elem _ _ Hl Hu).
  destruct (layout_disjoint _ u v Hl Hu Hv) as [->|[?|?]]; vlia.
Qed.
Lemma inside_straddled l v a :
  layout l → v ∈ l → inside v a → Exists (straddles a) l ↔ v.(vm_start) < a.
Proof.
  intros Hl Hv Ha. split.
  - intros (u & Hu & Hst)%Exists_exists.
    destruct (layout_disjoint _ u v Hl Hu Hv) as [->|[?|?]]; vlia.
  - intros Hlt. apply Exists_exists. exists v. split; [done|vlia].
Qed.

(** The part of the range that lies in the descriptor [v]. *)
Definition finish_of (v : kernel_vma) : Z :=
  if decide (v.(vm_end) < e0) then v.(vm_end) else e0.

Lemma finish_bounds v c : inside v c → c < e0 → c < finish_of v ≤ e0 ∧ finish_of v ≤ v.(vm_end).
Proof. unfold finish_of. intros. case_decide; vlia. Qed.
Lemma finish_straddled v c :
  v ∈ live set0 → inside v c → c < e0 →
  bool_decide (Exists (straddles (finish_of v)) (live set0)) =
  bool_decide (finish_of v < v.(vm_end)).
Proof.
  intros Hv Hin Hc. pose proof (wf_layout _ Hwf0) as Hl.
  destruct (finish_bounds v c Hin Hc) as [[? ?] ?]. apply bool_decide_ext.
  destruct (decide (finish_of v < v.(vm_end))) as [Hlt|Hlt].
  - rewrite (inside_straddled _ v) by (done || vlia). vlia.
  - replace (finish_of v) with v.(vm_end) by lia. split; [|lia].
    intros Hex. by destruct (end_not_straddled _ v Hl Hv).
Qed.
Lemma finish_mapped v c : v ∈ live set0 → inside v c → c < e0 → mapped (live set0) c (finish_of v).
Proof.
  intros Hv Hin Hc a Ha. destruct (finish_bounds v c Hin Hc).
  rewrite (view_elem _ v a (wf_layout _ Hwf0) Hv) by vlia. done.
Qed.
Lemma finish_settled v c :
  v ∈ live set0 → inside v c → c < e0 → v.(vm_permissions) = permissions →
  settled c (finish_of v).
Proof.
  intros Hv Hin Hc Hp a Ha. destruct (finish_bounds v c Hin Hc). exists (byte_of v a).
  rewrite (view_elem _ v a (wf_layout _ Hwf0) Hv) by vlia. done.
Qed.

(** The edit after one more changed descriptor, as the code writes it. *)
Definition next_edit (set : kernel_vma_set) (c fin : Z) (edit : option kernel_vma_edit)
    : kernel_vma_edit :=
  match edit with
  | None => mk_edit set.(vs_this) set.(vs_generation) c fin permissions 0 0
              KERNEL_VMA_EDIT_PROTECT vma_zero
  | Some e => mk_edit e.(ed_set) e.(ed_generation) e.(ed_start) fin e.(ed_permissions)
                e.(ed_flags) e.(ed_flags_mask) e.(ed_kind) e.(ed_replacement)
  end.
Definition next_first (v : kernel_vma) (c : Z) (edit : option kernel_vma_edit) (first_split : bool) :=
  match edit with None => bool_decide (v.(vm_start) < c) | Some _ => first_split end.

Lemma admitted_editable s e ed :
  admitted s0 e → s0 ≤ s < e → ed.(ed_kind) = KERNEL_VMA_EDIT_PROTECT →
  ed.(ed_permissions) = permissions →
  ∀ v, v ∈ live set0 → overlaps v s e → editable ed v.
Proof.
  intros Had Hs Hk Hp v Hv Hov. unfold editable. rewrite Hk, Hp.
  pose proof (Had ltac:(lia) v Hv ltac:(vlia)) as Hz. rewrite land_lnot_subset in *. intros i Hi.
  rewrite Z.land_spec. intros [? _]%andb_true_iff. auto.
Qed.

(** A range of the walk with room for its splits is a ready edit. *)
Lemma protect_ready set w s1 fin :
  undisturbed set0 w0 set w → set0.(vs_generation) ≠ UINT64_MAX →
  s0 ≤ s1 < fin → fin ≤ e0 → admitted s0 fin →
  (Exists (straddles s1) (live set0) → page_aligned s1) →
  (Exists (straddles fin) (live set0) → page_aligned fin) →
  (length (live set0) + splits (live set0) s1 fin ≤ set.(vs_capacity))%nat →
  edit_ready set (protect_edit set0 s1 fin permissions).
Proof.
  intros [_ Hlive Hh _ _] Hmax Hs He Had Hp1 Hp2 Hroom. destruct Hrange as [U1 U2 _ _ _].
  split; rewrite ?Hlive, ?(sh_this _ _ Hh), ?(sh_generation _ _ Hh); try done.
  - split; try done; simpl; mlia.
  - intros _. by apply (admitted_editable s1 fin); [|lia|..].
Qed.

Lemma progress_change set w set' w' v c edit first_split :
  v ∈ live set0 → inside v c → s0 ≤ c < e0 →
  (Exists (straddles c) (live set0) → page_aligned c) →
  undisturbed set0 w0 set w → undisturbed set0 w0 set' w' →
  progress set c edit → first_flag edit first_split → admitted s0 (finish_of v) →
  set0.(vs_generation) ≠ UINT64_MAX →
  let fs := next_first v c edit first_split in
  let es := bool_decide (finish_of v < v.(vm_end)) in
  (set.(vs_capacity) ≤ set'.(vs_capacity))%nat →
  (edit = None ∨ es = true →
   (length (live set0) + (Nat.b2n fs + Nat.b2n es) ≤ set'.(vs_capacity))%nat) →
  progress set' (finish_of v) (Some (next_edit set' c (finish_of v) edit)) ∧
  first_flag (Some (next_edit set' c (finish_of v) edit)) fs.
Proof.
  intros Hv Hin Hc Hpc Hun Hun' Hprog Hfirst Had Hmax fs es Hcap Hroom.
  pose proof (wf_layout _ Hwf0) as Hl. pose proof Hun' as [_ _ Hh _ _].
  destruct (finish_bounds v c Hin ltac:(lia)) as [[F1 F2] F3].
  pose proof (finish_straddled v c Hv Hin ltac:(lia)) as Hes. fold es in Hes.
  assert (Hpf : Exists (straddles (finish_of v)) (live set0) → page_aligned (finish_of v)).
  { unfold finish_of. case_decide; [|apply Hrange].
    intros Hex. by destruct (end_not_straddled _ v Hl Hv). }
  pose proof (finish_mapped v c Hv Hin ltac:(lia)) as Hmap.
  destruct edit as [ed|]; simpl in *.
  - destruct Hprog as (s1 & e1 & -> & ? & [? ?] & Hs1 & Hm1 & Hs2 & Hready). simpl in *.
    split; [|exact Hfirst]. exists s1, (finish_of v).
    pose proof Hready as [_ _ _ Hr Hroom0 _ _]. rewrite (un_live _ _ _ _ Hun) in Hr, Hroom0.
    simpl in Hr, Hroom0.
    split_and!; try (done || lia); [|apply settled_empty|].
    + intros a Ha. destruct (decide (a < e1)); [apply Hm1; lia|].
      destruct (decide (a < c)); [|apply Hmap; lia].
      destruct (Hs2 a ltac:(lia)) as (b & -> & _). done.
    + apply (protect_ready _ w'); try (done || lia); [apply Hr|].
      unfold splits in *. rewrite Hes, <-Hfirst in *. fold fs in Hroom.
      destruct es; [specialize (Hroom ltac:(auto))|]; unfold fs, next_first in *; simpl in *; lia.
  - assert (Hfs : fs = bool_decide (Exists (straddles c) (live set0))).
    { apply bool_decide_ext. symmetry. by apply inside_straddled. }
    unfold next_edit. rewrite (sh_this _ _ Hh), (sh_generation _ _ Hh).
    split; [|done]. exists c, (finish_of v).
    split_and!; try (done || lia); [apply settled_empty|].
    apply (protect_ready _ w'); try (done || lia).
    unfold splits. rewrite Hes, <-Hfs. apply Hroom. by left.
Qed.

(** The reservation of one changed descriptor. *)
Lemma mprotect_reserve set w (P : Prop) `{Decision P} extra :
  undisturbed set0 w0 set w → (extra ≤ 2)%nat →
  ∃ status set' w',
    (if decide P then
       if decide (UINT32_MAX - Z.of_nat extra < Z.of_nat set.(vs_count))
       then mret (KERNEL_VMA_STATUS_NO_MEMORY, set)
       else reserve_entries junk set (set.(vs_count) + extra)
     else mret (KERNEL_VMA_STATUS_OK, set)) w = Done (status, set', w') ∧
    undisturbed set0 w0 set' w' ∧
    (status = KERNEL_VMA_STATUS_OK ∧ (set.(vs_capacity) ≤ set'.(vs_capacity))%nat ∧
       (P → (length (live set0) + extra ≤ set'.(vs_capacity))%nat) ∨
     status ≠ KERNEL_VMA_STATUS_OK ∧ set' = set).
Proof.
  intros Hun Hex. pose proof Hun as [Hwf Hlive Hh Hw Hcap0]. destruct (wf_stored _ Hwf) as [rest Hs].
  pose proof (st_count _ _ _ Hs) as Hc. rewrite Hlive in Hc.
  case_decide as HP; [|eexists _, _, _; split_and!; [done..|by left]].
  case_decide as Hmax; [eexists _, _, _; split_and!; [done..|by right]|].
  destruct (reserve_entries_spec junk set _ rest (set.(vs_count) + extra) w Hs ltac:(lia))
    as (status & set' & rest' & w' & E & Hs' & Hh' & Hw' & Hcase & _).
  exists status, set', w'. split; [done|].
  assert (Hun' : undisturbed set w set' w').
  { eapply undisturbed_stored; try done. destruct Hcase as [[_ ?]|[_ ->]]; lia. }
  destruct Hun' as [? Hl' ? ? ?]. split.
  - split; [done|congruence|by etrans|congruence|lia].
  - destruct Hcase as [[-> Hcap]|[[-> | ->] ->]]; [|by right..]. left. split_and!; [done|lia|].
    intros _. lia.
Qed.

(** The invariant at the next descriptor. *)
Lemma walk_next l1 v l2 c :
  live set0 = l1 ++ v :: l2 → inside v c → c < e0 → finish_of v < e0 →
  Forall (λ u, finish_of v < u.(vm_end)) l2 ∧
  (Exists (straddles (finish_of v)) (live set0) → page_aligned (finish_of v)).
Proof.
  intros Hlive Hin Hc Hf. pose proof (wf_layout _ Hwf0) as Hl.
  assert (finish_of v = v.(vm_end)) as -> by (unfold finish_of in *; case_decide; lia).
  split.
  - rewrite Hlive in Hl. apply layout_app in Hl as (_ & (_ & Hl2 & Hb)%layout_cons & _).
    rewrite Forall_forall in *. intros u Hu. specialize (Hb u Hu).
    pose proof (layout_elem _ _ Hl2 Hu). vlia.
  - intros Hex. destruct (end_not_straddled _ v Hl); [rewrite Hlive; set_solver|done].
Qed.
Lemma walk_admitted v c :
  v ∈ live set0 → inside v c → c < e0 → admitted s0 c →
  Z.land permissions (Z.lnot v.(vm_maximum_permissions)) = 0 → admitted s0 (finish_of v).
Proof.
  intros Hv Hin Hc Had Hok Hs u Hu Hov. pose proof (wf_layout _ Hwf0) as Hl.
  destruct (finish_bounds v c Hin Hc) as [_ F3]. pose proof (layout_elem _ _ Hl Hu).
  destruct (layout_disjoint _ u v Hl Hu Hv) as [->|[?|?]]; [done| |vlia].
  apply Had; [vlia|done|vlia].
Qed.
Lemma progress_not_last set w c edit :
  undisturbed set0 w0 set w → progress set c edit →
  ¬ (edit = None ∧ set.(vs_generation) = UINT64_MAX) → set0.(vs_generation) ≠ UINT64_MAX.
Proof.
  intros [_ _ Hh _ _] Hp Hmax. rewrite <-(sh_generation _ _ Hh). destruct edit as [ed|].
  - destruct Hp as (? & ? & _ & _ & _ & _ & _ & _ & Hready). apply Hready.
  - intros ?. by apply Hmax.
Qed.

Lemma mprotect_loop_spec fuel set w l1 l2 c data first_split edit :
  (length l2 < fuel)%nat → live set0 = l1 ++ l2 → undisturbed set0 w0 set w → s0 ≤ c ≤ e0 →
  (c < e0 → Forall (λ v, c < v.(vm_end)) l2 ∧
     (Exists (straddles c) (live set0) → page_aligned c)) →
  admitted s0 c → progress set c edit → first_flag edit first_split →
  ∃ status set' edit' w',
    mprotect_loop junk fuel limits set (length l1) c e0 permissions data first_split edit w =
      Done (status, set', edit', w') ∧
    mprotect_result status set' edit' w'.
Proof.
  revert set w l1 l2 c data first_split edit.
  induction fuel as [|fuel IH]; intros set w l1 l2 c data first_split edit Hf Hlive Hun Hc Hinv Had
    Hprog Hfirst; [lia|].
  assert (Hstop : ∀ status, status ≠ KERNEL_VMA_STATUS_OK → mprotect_result status set edit w).
  { intros status Hne. split; [done|]. exists c. split_and!; try (done || lia). }
  pose proof Hun as [Hwf Hl Hh Hw _]. destruct (wf_stored _ Hwf) as [rest Hs].
  rewrite Hl in Hs. rewrite Hlive in Hs.
  cbn [mprotect_loop]. case_decide as Hlt.
  2:{ eexists _, _, _, _. split; [done|]. split; [done|]. exists c. split_and!; try (done || lia). }
  destruct (Hinv Hlt) as [H2 Hpage]. case_decide as Hend.
  { eexists _, _, _, _. split; [done|]. by apply Hstop. }
  rewrite (st_count _ _ _ Hs) in Hend. rewrite length_app in Hend.
  destruct l2 as [|v l2]; [simpl in Hend; lia|].
  step (stored_read _ _ _ _ _ _ Hs eq_refl). apply Forall_cons in H2 as [Hve _].
  case_decide as Hout; [eexists _, _, _, _; split; [done|]; by apply Hstop|].
  assert (Hin : inside v c) by vlia. assert (Hv : v ∈ live set0) by (rewrite Hlive; set_solver).
  fold (finish_of v). destruct (finish_bounds v c Hin Hlt) as [[F1 F2] F3].
  destruct (decide (Z.land permissions (Z.lnot (vm_maximum_permissions v)) ≠ 0)) as [Hden|Hden];
    [eexists _, _, _, _; split; [done|]; by apply Hstop|]. apply dec_stable in Hden.
  assert (Hlive' : live set0 = (l1 ++ [v]) ++ l2) by (by rewrite <-app_assoc).
  assert (Hinv' : finish_of v < e0 → Forall (λ u, finish_of v < u.(vm_end)) l2 ∧
    (Exists (straddles (finish_of v)) (live set0) → page_aligned (finish_of v))).
  { by eapply walk_next. }
  assert (Had' : admitted s0 (finish_of v)) by (by eapply walk_admitted).
  case_decide as Hsame.
  { specialize (IH set w (l1 ++ [v]) l2 (finish_of v) data first_split edit).
    rewrite length_app, Nat.add_1_r in IH. apply IH; try (done || lia); [simpl in Hf; lia|].
    apply (progress_extend _ c); try (done || lia). by apply finish_settled. }
  set (changes := bool_decide _). set (grants := bool_decide (Z.land permissions 2 ≠ 0)).
  destruct (decide (changes && grants = true ∧ data_limit_refuses _ _ _ _));
    [eexists _, _, _, _; split; [done|]; by apply Hstop|].
  destruct (decide (edit = None ∧ vs_generation set = UINT64_MAX)) as [|Hmax];
    [eexists _, _, _, _; split; [done|]; by apply Hstop|].
  fold (next_first v c edit first_split).
  set (fs := next_first v c edit first_split). set (es := bool_decide (finish_of v < vm_end v)).
  destruct (mprotect_reserve set w (edit = None ∨ es = true) (Nat.b2n fs + Nat.b2n es) Hun)
    as (status & set' & w' & E & Hun' & Hcase).
  { destruct fs, es; simpl; lia. }
  step E. destruct Hcase as [(-> & Hcap & Hroom)|[Hst ->]].
  2:{ rewrite decide_True by done. eexists _, _, _, _. split; [done|]. split; [done|].
      exists c. split_and!; try (done || lia). }
  rewrite decide_False by auto. fold (next_edit set' c (finish_of v) edit).
  destruct (progress_change set w set' w' v c edit first_split) as [Hp' Hf'];
    try (done || lia);
    [exact (progress_not_last set w c edit Hun Hprog Hmax)|].
  specialize (IH set' w' (l1 ++ [v]) l2 (finish_of v)). rewrite length_app, Nat.add_1_r in IH.
  apply IH; try (done || lia). simpl in Hf. lia.
Qed.

Lemma prepare_mprotect_spec :
  ∃ status set' edit w',
    kernel_vma_set_prepare_mprotect junk limits set0 s0 e0 permissions w0 =
      Done (status, set', edit, w') ∧
    mprotect_result status set' edit w'.
Proof.
  destruct (wf_stored _ Hwf0) as [rest Hs]. pose proof (wf_layout _ Hwf0) as Hl.
  pose proof (pr_order _ _ _ Hrange). unfold kernel_vma_set_prepare_mprotect.
  rewrite decide_False by (pose proof (wf_valid _ Hwf0); intros [?|?]; (done || lia)).
  destruct (first_touching_spec set0 _ rest s0 Hs Hl) as (l1 & l2 & Hlive & E & L1 & L2). step E.
  apply (mprotect_loop_spec _ set0 w0 l1 l2 s0); [|done|by apply undisturbed_refl|lia|..].
  - rewrite (st_count _ _ _ Hs), Hlive, length_app. lia.
  - intros _. split; [done|]. apply Hrange.
  - intros ?. lia.
  - apply settled_empty.
  - done.
Qed.

(** The map after the caller commits what was prepared: the permissions are
    changed on a prefix of the range, all of it when the status is OK. *)
Lemma progress_view set c edit a :
  progress set c edit → s0 ≤ c →
  (match edit with Some ed => edit_view ed (view (live set0)) a | None => view (live set0) a end) =
  if decide (s0 ≤ a < c) then (λ b, with_permissions b permissions) <$> view (live set0) a
  else view (live set0) a.
Proof.
  assert (Hset : ∀ s e, settled s e → s ≤ a < e →
    (λ b, with_permissions b permissions) <$> view (live set0) a = view (live set0) a).
  { intros s e Hs Ha. destruct (Hs a Ha) as (b & -> & <-). by destruct b. }
  destruct edit as [ed|]; simpl.
  - intros (s1 & e1 & -> & ? & ? & Hs1 & _ & Hs2 & _) Hc. unfold edit_view. simpl.
    case_decide as Hin.
    + rewrite decide_True by lia. unfold edit_entry. simpl. done.
    + case_decide; [|done]. destruct (decide (a < s1)).
      * rewrite (Hset s0 s1); (done || lia).
      * rewrite (Hset e1 c); (done || lia).
  - intros Hs Hc. case_decide; [|done]. by rewrite (Hset s0 c).
Qed.
Lemma progress_mapped set c edit : progress set c edit → mapped (live set0) s0 c.
Proof.
  assert (Hset : ∀ s e, settled s e → mapped (live set0) s e).
  { intros s e Hs a Ha. destruct (Hs a Ha) as (b & -> & _). done. }
  destruct edit as [ed|]; simpl; [|apply Hset].
  intros (s1 & e1 & _ & _ & _ & Hs1 & Hm & Hs2 & _) a Ha.
  destruct (decide (a < s1)); [apply (Hset _ _ Hs1); lia|].
  destruct (decide (a < e1)); [apply Hm; lia|apply (Hset _ _ Hs2); lia].
Qed.
End mprotect.
