(* ===== verification/VmaClaims.v ===== *)
(** * What the VMA set guarantees

    The properties of [mm/vma.c] that its callers rely on, each a short
    consequence of the component lemmas, with concrete instances. *)
From S2P Require Import Prelude Heap Vma VmaLists VmaTheory VmaPrepare VmaOps.
#[local] Open Scope Z_scope.
Import Heap Vma.

(** ** A concrete set for the instances *)

Definition demo_heap : budget_heap := {| budget := 1000000; next_address := 4096 |}.
Definition demo_world : world budget_heap := mk_world demo_heap [].

Definition demo_anon : kernel_vma :=
  mk_vma 4096 20480 0 3 7 KERNEL_VMA_KIND_ANONYMOUS KERNEL_VMA_ROLE_MMAP
    KERNEL_VMA_FAULT_DEMAND_ZERO 0 0 0.
Definition demo_file : kernel_vma :=
  mk_vma 32768 40960 8192 1 5 KERNEL_VMA_KIND_FILE_PRIVATE KERNEL_VMA_ROLE_MMAP
    KERNEL_VMA_FAULT_FILE_PRIVATE 1 77 0.
Definition demo_shm : kernel_vma :=
  mk_vma 65536 73728 0 3 3 KERNEL_VMA_KIND_SYSV_SHM KERNEL_VMA_ROLE_SYSV_SHM
    KERNEL_VMA_FAULT_ANON_SHARED 0 78 500.
Definition demo_moved : kernel_vma :=
  mk_vma 81920 98304 0 3 7 KERNEL_VMA_KIND_ANONYMOUS KERNEL_VMA_ROLE_MMAP
    KERNEL_VMA_FAULT_DEMAND_ZERO 0 0 0.
Definition demo_set : kernel_vma_set :=
  mk_set 9000 1 [demo_anon; demo_file; demo_shm; vma_zero; vma_zero; vma_zero; vma_zero; vma_zero]
    3 8 5 32768 16384 8192.

Ltac decide_good :=
  split; [apply (bool_decide_unpack _); vm_compute; exact I
         |first [by intros [|] | intros _; reflexivity]
         |vm_compute; split; discriminate..].

Lemma demo_anon_good : good demo_anon.
Proof. decide_good. Qed.
Lemma demo_file_good : good demo_file.
Proof. decide_good. Qed.
Lemma demo_shm_good : good demo_shm.
Proof. decide_good. Qed.
Lemma demo_layout : layout [demo_anon; demo_file; demo_shm].
Proof.
  split.
  - repeat (apply StronglySorted_cons; split); repeat constructor; unfold before; simpl; lia.
  - apply Forall_cons; split; [apply demo_anon_good|].
    apply Forall_cons; split; [apply demo_file_good|].
    apply Forall_cons; split; [apply demo_shm_good|constructor].
Qed.
Lemma demo_wf : wf demo_set.
Proof.
  apply (wf_intro demo_set [demo_anon; demo_file; demo_shm] (replicate 5 vma_zero)).
  - split; simpl; (done || mlia).
  - apply demo_layout.
  - by split; vm_compute.
  - simpl. mlia.
Qed.
Lemma demo_range s e :
  0 ≤ s → s < e → e ≤ 1000000 → s mod 4096 = 0 → e mod 4096 = 0 → page_range (live demo_set) s e.
Proof. intros. by split; [mlia|mlia|..]. Qed.

Section claims.
Context {H : Type} `{KernelHeap H}.
Implicit Types w : world H.

(** References to attachments move with the descriptors that hold them. *)
Definition conserved (set : kernel_vma_set) w (set' : kernel_vma_set) w' : Prop :=
  ∀ p, p ≠ 0 →
    balance p w'.(w_shm) - refs p (live set') = balance p w.(w_shm) - refs p (live set).

Lemma conserved_took set w set' w' :
  took w w' (λ p, refs p (live set') - refs p (live set)) → conserved set w set' w'.
Proof. intros Ht p Hp. rewrite Ht by done. lia. Qed.

Lemma prepared_committed junk set w edit status set1 result w1 :
  prepared set w edit status set1 result w1 → status = KERNEL_VMA_STATUS_OK →
  result = Some edit ∧
  ∃ set2 w2, kernel_vma_set_commit_edit junk set1 edit w1 = Done (KERNEL_VMA_STATUS_OK, set2, w2) ∧
    wf set2 ∧ w2.(w_heap) = w1.(w_heap) ∧
    set2.(vs_generation) = set.(vs_generation) + 1 ∧ unmergeable (live set2) ∧
    conserved set w set2 w2 ∧
    ∀ a, view (live set2) a = edit_view edit (view (live set)) a.
Proof.
  intros [set' w' Hun Hready|? ? Hst _] Hok; [|destruct Hst; congruence]. split; [done|].
  pose proof Hun as [Hwf Hlive Hh Hw _].
  destruct (commit_edit_spec junk set' edit w' Hwf Hready) as (set2 & w2 & E & [? ? Hg ? Hv ? ? Ht _]).
  exists set2, w2. rewrite Hlive in *. split_and!; try done.
  - by rewrite Hg, (sh_generation _ _ Hh).
  - intros p Hp. rewrite Ht, Hw by done. lia.
Qed.

Lemma prepared_failed set w edit status set1 result w1 :
  prepared set w edit status set1 result w1 → status ≠ KERNEL_VMA_STATUS_OK →
  result = None ∧ set1 = set ∧ w1.(w_shm) = w.(w_shm) ∧
  (status = KERNEL_VMA_STATUS_NO_MEMORY ∨ status = KERNEL_VMA_STATUS_STATE).
Proof. intros [|? ? ? []] ?; [done|]. done. Qed.
Lemma prepared_live set w edit status set1 result w1 :
  prepared set w edit status set1 result w1 → live set1 = live set.
Proof. intros [? ? []|]; done. Qed.

(** C4: mapping over, or unmapping, a range is a two-phase edit that cannot
    fail half-way.  [prepare_replace] either fails with NO_MEMORY or STATE,
    exactly when [edit_answer] says so (the last generation, or no room for the
    entries the edit needs), and changes nothing, or leaves the map as it was and
    reserves an edit; the
    commit of that edit then returns OK without a fault and without touching
    the heap, and the new map is the replacement on the range (nothing, for a
    removal) and the old map elsewhere, with the descriptors maximally merged
    and the attachment references conserved. *)
Theorem prepared_replace_commits (junk : kernel_vma) (set : kernel_vma_set) (s e : Z)
    (replacement : option kernel_vma) w
    (Hwf : wf set) (Hrange : page_range (live set) s e)
    (Hrep : replacement_ok s e replacement) :
  ∃ status set1 result w1,
    kernel_vma_set_prepare_replace junk set s e replacement w = Done (status, set1, result, w1) ∧
    live set1 = live set ∧
    status = edit_answer set s e (bool_decide (replacement ≠ None)) w.(w_heap) ∧
    (status ≠ KERNEL_VMA_STATUS_OK →
       result = None ∧ set1 = set ∧ w1.(w_shm) = w.(w_shm) ∧
       (status = KERNEL_VMA_STATUS_NO_MEMORY ∨ status = KERNEL_VMA_STATUS_STATE)) ∧
    (status = KERNEL_VMA_STATUS_OK → ∃ edit set2 w2, result = Some edit ∧
       kernel_vma_set_commit_edit junk set1 edit w1 = Done (KERNEL_VMA_STATUS_OK, set2, w2) ∧
       wf set2 ∧ w2.(w_heap) = w1.(w_heap) ∧ unmergeable (live set2) ∧
       conserved set w set2 w2 ∧
       ∀ a, view (live set2) a =
         if decide (s ≤ a < e) then (λ r, byte_of r a) <$> replacement
         else view (live set) a).
Proof.
  destruct (prepare_replace_spec junk set s e replacement w Hwf Hrange Hrep)
    as (status & set1 & result & w1 & E & Hp & Hans).
  exists status, set1, result, w1. split_and!; [done|by eapply prepared_live|done|by eapply prepared_failed|].
  intros Hok. destruct (prepared_committed junk _ _ _ _ _ _ _ Hp Hok)
    as (-> & set2 & w2 & E2 & ? & ? & _ & ? & ? & Hv).
  eexists _, set2, w2. split_and!; try done. intros a. rewrite Hv. unfold edit_view. simpl.
  case_decide; [|done]. by destruct replacement.
Qed.
(** C29: the answer of [prepare_protect] is decided.  NOT_FOUND iff the range has
    a hole; ACCESS iff it has none and an area in it does not allow the
    permissions; and else the answer of [edit_answer]: STATE on the last
    generation, and otherwise OK unless the entries for the split ends do not fit
    the array and it cannot grow.  A refusal changes nothing.  A prepared edit
    commits, without a fault or a heap call, to the map in which precisely the
    bytes of the range have the new permissions. *)
Theorem prepared_protect_commits (junk : kernel_vma) (set : kernel_vma_set) (s e permissions : Z) w
    (Hwf : wf set) (Hrange : page_range (live set) s e) :
  ∃ status set1 result w1,
    kernel_vma_set_prepare_protect junk set s e permissions w = Done (status, set1, result, w1) ∧
    (status = KERNEL_VMA_STATUS_NOT_FOUND ↔ ¬ mapped (live set) s e) ∧
    (status = KERNEL_VMA_STATUS_ACCESS ↔ mapped (live set) s e ∧ ∃ v, v ∈ live set ∧ overlaps v s e ∧ refuses permissions v) ∧
    (mapped (live set) s e → (∀ v, v ∈ live set → overlaps v s e → ¬ refuses permissions v) →
       status = edit_answer set s e false w.(w_heap)) ∧
    (status ≠ KERNEL_VMA_STATUS_OK → result = None ∧ set1 = set) ∧
    (status = KERNEL_VMA_STATUS_OK → ∃ edit set2 w2, result = Some edit ∧
       kernel_vma_set_commit_edit junk set1 edit w1 = Done (KERNEL_VMA_STATUS_OK, set2, w2) ∧
       wf set2 ∧ w2.(w_heap) = w1.(w_heap) ∧ conserved set w set2 w2 ∧
       ∀ a, view (live set2) a =
         if decide (s ≤ a < e) then (λ b, with_permissions b permissions) <$> view (live set) a
         else view (live set) a).
Proof.
  destruct (prepare_protect_spec junk set s e permissions w Hwf Hrange)
    as (status & set1 & result & w1 & E & Hr).
  exists status, set1, result, w1. split; [done|].
  destruct Hr as [Hhole|Hm (v & Hv & Hov & Href)%Exists_exists|status set1 result w1 Hm Hp Hnone Hans].
  - split; [done|]. split; [by split; [|intros [? _]]|]. by split_and!.
  - split; [done|]. split; [split; [|done]; intros _; split; [done|by exists v]|]. split; [intros _ Hno; by destruct (Hno v)|]. by split_and!.
  - split; [|split; [|split; [done|split]]].
    + destruct Hp as [|? ? Hst]; [|destruct Hst as [-> | ->]]; (split; intros; by try tauto).
    + split; [destruct Hp as [|? ? Hst]; [done|by destruct Hst as [-> | ->]]|]. intros (_ & v & Hv & Hov). destruct Hnone. apply Exists_exists. by exists v.
    + intros Hne. by destruct (prepared_failed _ _ _ _ _ _ _ Hp Hne) as (? & ? & _).
    + intros Hok. destruct (prepared_committed junk _ _ _ _ _ _ _ Hp Hok)
        as (-> & set2 & w2 & E2 & ? & ? & _ & _ & ? & Hv).
      eexists _, set2, w2. by split_and!.
Qed.

(** The same contract for [prepare_flags]: a malformed request (bits outside
    the mask, or half of the lock bits) is INVALID_ARGUMENT, a hole NOT_FOUND, and
    a prepared edit commits to the map in which the masked flags of exactly the
    bytes of the range are replaced. *)
Theorem prepared_flags_commits (junk : kernel_vma) (set : kernel_vma_set) (s e mask flags : Z) w
    (Hwf : wf set) (Hrange : page_range (live set) s e) :
  ∃ status set1 result w1,
    kernel_vma_set_prepare_flags junk set s e mask flags w = Done (status, set1, result, w1) ∧
    (status = KERNEL_VMA_STATUS_INVALID_ARGUMENT ↔ flags_request_invalid mask flags) ∧
    (status = KERNEL_VMA_STATUS_NOT_FOUND ↔
       ¬ flags_request_invalid mask flags ∧ ¬ mapped (live set) s e) ∧
    (status = KERNEL_VMA_STATUS_OK → ∃ edit set2 w2, result = Some edit ∧
       kernel_vma_set_commit_edit junk set1 edit w1 = Done (KERNEL_VMA_STATUS_OK, set2, w2) ∧
       wf set2 ∧ w2.(w_heap) = w1.(w_heap) ∧ conserved set w set2 w2 ∧
       ∀ a, view (live set2) a =
         if decide (s ≤ a < e)
         then (λ b, with_flags b (Z.lor (Z.land b.(vm_flags) (Z.lnot mask)) flags)) <$>
                view (live set) a
         else view (live set) a).
Proof.
  destruct (prepare_flags_spec junk set s e mask flags w Hwf Hrange)
    as (status & set1 & result & w1 & E & Hr).
  exists status, set1, result, w1. split; [done|].
  destruct Hr as [Hinv|Hreq Hhole|status set1 result w1 Hreq Hm Hp].
  - split; [done|]. split; [|done]. split; [done|]. by intros [].
  - split; [done|]. by split.
  - split; [|split].
    + destruct Hp as [|? ? Hst]; [|destruct Hst as [-> | ->]]; by split.
    + destruct Hp as [|? ? Hst]; [|destruct Hst as [-> | ->]]; (split; [done|tauto]).
    + intros Hok. destruct (prepared_committed junk _ _ _ _ _ _ _ Hp Hok)
        as (-> & set2 & w2 & E2 & ? & ? & _ & _ & ? & Hv).
      eexists _, set2, w2. by split_and!.
Qed.

(** C17: [prepare_mprotect] honours the header's contract for partial success.
    Whatever status it returns, it has dealt with a prefix [s, c) of the range,
    the whole range if the status is OK: the prefix is mapped, the prepared edit
    (if there is one) commits without a fault or a heap call, and afterwards
    exactly the bytes of the prefix have the new permissions; if there is no
    edit, they already had them. *)
Theorem mprotect_commits_prefix (junk : kernel_vma) (limits : kernel_memory_limits)
    (set : kernel_vma_set) (s e permissions : Z) w
    (Hwf : wf set) (Hrange : page_range (live set) s e) :
  ∃ status set1 result w1 c,
    kernel_vma_set_prepare_mprotect junk limits set s e permissions w =
      Done (status, set1, result, w1) ∧
    s ≤ c ≤ e ∧ (status = KERNEL_VMA_STATUS_OK → c = e) ∧ mapped (live set) s c ∧
    ∃ set2 w2,
      match result with
      | Some edit =>
          kernel_vma_set_commit_edit junk set1 edit w1 = Done (KERNEL_VMA_STATUS_OK, set2, w2)
      | None => set2 = set1 ∧ w2 = w1
      end ∧
      wf set2 ∧ w2.(w_heap) = w1.(w_heap) ∧ conserved set w set2 w2 ∧
      ∀ a, view (live set2) a =
        if decide (s ≤ a < c) then (λ b, with_permissions b permissions) <$> view (live set) a
        else view (live set) a.
Proof.
  destruct (prepare_mprotect_spec junk limits set w s e permissions Hwf Hrange)
    as (status & set1 & result & w1 & E & Hun & c & Hc & Hprog & Hok).
  exists status, set1, result, w1, c. split_and!; try (done || lia); [by eapply progress_mapped|].
  pose proof Hun as [Hwf1 Hlive Hh Hw _].
  pose proof (λ a, progress_view _ _ _ _ _ _ a Hprog ltac:(lia)) as Hview.
  destruct result as [edit|].
  - destruct Hprog as (s1 & e1 & _ & _ & _ & _ & _ & _ & Hready).
    destruct (commit_edit_spec junk set1 edit w1 Hwf1 Hready)
      as (set2 & w2 & E2 & [? ? ? ? Hv ? ? Ht _]).
    exists set2, w2. rewrite Hlive in *. split_and!; try done.
    + intros p Hp. rewrite Ht, Hw by done. lia.
    + intros a. rewrite Hv. apply Hview.
  - exists set1, w1. split_and!; try done.
    + intros p Hp. by rewrite Hlive, Hw.
    + intros a. rewrite Hlive. apply Hview.
Qed.

(** C25: a remap that was prepared commits: the commit, which traps on any
    internal failure, never reaches the trap, calls the heap for nothing, and
    ends with the source range unmapped, the replacement mapped and every other
    byte as before. *)
Theorem prepared_remap_commits (junk : kernel_vma) (set : kernel_vma_set) (s e : Z)
    (replacement : kernel_vma) w
    (Hwf : wf set) (Hrange : page_range (live set) s e) (Hgood : good replacement) :
  ∃ status set1 result w1,
    kernel_vma_set_prepare_remap junk set s e replacement w = Done (status, set1, result, w1) ∧
    live set1 = live set ∧ (status = KERNEL_VMA_STATUS_OK ↔ is_Some result) ∧
    ∀ edit, result = Some edit → ∃ set2 w2,
      kernel_vma_set_commit_remap junk set1 edit w1 = Done (KERNEL_VMA_STATUS_OK, set2, w2) ∧
      wf set2 ∧ w2.(w_heap) = w1.(w_heap) ∧ conserved set w set2 w2 ∧
      ∀ a, view (live set2) a =
        if decide (inside replacement a) then Some (byte_of replacement a)
        else if decide (s ≤ a < e) then None else view (live set) a.
Proof.
  destruct (prepare_remap_spec junk set s e replacement w Hwf Hrange Hgood)
    as (status & set1 & result & w1 & E & [Hwf1 Hlive Hh Hw _] & Hres & Hready).
  exists status, set1, result, w1. split; [done|]. split; [done|]. split.
  - split; [intros ->; eexists; by apply Hres|]. by intros [edit [-> _]%Hres].
  - intros edit [Hok ->]%Hres.
    destruct (commit_remap_spec junk set1 s e replacement w1 Hwf1 (Hready Hok))
      as (set2 & w2 & E2 & ? & ? & _ & Ht & Hv).
    rewrite (sh_this _ _ Hh), (sh_generation _ _ Hh) in E2.
    exists set2, w2. rewrite Hlive in *. split_and!; try done.
    intros p Hp. rewrite Ht, Hw by done. lia.
Qed.

(** An edit commits at most once.  After a ready edit has been committed,
    committing it again, or any other edit prepared before it, is refused with
    STATE and changes nothing. *)
Theorem edit_commits_once (junk : kernel_vma) (set : kernel_vma_set) (edit other : kernel_vma_edit) w
    (Hwf : wf set) (Hready : edit_ready set edit)
    (Hother : other.(ed_generation) ≤ set.(vs_generation)) :
  ∃ set1 w1,
    kernel_vma_set_commit_edit junk set edit w = Done (KERNEL_VMA_STATUS_OK, set1, w1) ∧
    kernel_vma_set_commit_edit junk set1 edit w1 = Done (KERNEL_VMA_STATUS_STATE, set1, w1) ∧
    kernel_vma_set_commit_edit junk set1 other w1 = Done (KERNEL_VMA_STATUS_STATE, set1, w1).
Proof.
  destruct (commit_edit_spec junk set edit w Hwf Hready) as (set1 & w1 & E & Hc).
  exists set1, w1. pose proof (cm_generation _ _ _ _ _ Hc) as Hg.
  pose proof (er_generation _ _ Hready).
  split_and!; [done|..]; unfold kernel_vma_set_commit_edit; by rewrite decide_True by (right; right; left; lia).
Qed.

(** C30: [fork] gives the child exactly the parent's map minus the DONTFORK
    areas, with no lock flag and no locked bytes, and one attachment reference
    per attached descriptor of the child; a failed fork returns NO_MEMORY or
    STATE, gives back what it allocated and leaves no reference behind. *)
Theorem fork_refines (junk : kernel_vma) (source : kernel_vma_set) w (Hwf : wf source) :
  ∃ status result w',
    kernel_vma_set_fork junk source None w = Done (status, result, w') ∧
    match result with
    | Some child => status = KERNEL_VMA_STATUS_OK ∧ wf child ∧ child.(vs_locked_bytes) = 0 ∧
        (∀ a, view (live child) a = view (live source) a ≫= fork_byte) ∧
        ∀ p, p ≠ 0 → balance p w'.(w_shm) = balance p w.(w_shm) + refs p (live child)
    | None => (status = KERNEL_VMA_STATUS_NO_MEMORY ∨ status = KERNEL_VMA_STATUS_STATE) ∧
        ∀ p, p ≠ 0 → balance p w'.(w_shm) = balance p w.(w_shm)
    end.
Proof.
  destruct (fork_spec junk source w Hwf) as (status & result & w' & E & Ho).
  exists status, result, w'. split; [done|].
  destruct Ho as [child w' ? ? ? ? Ht|? w' Hst Ht]; split_and!; try done.
  intros p Hp. rewrite Ht by done. lia.
Qed.
(** Overlapping is mapping a common byte. *)
Lemma overlap_byte l v : layout l → good v → Exists (λ u, overlaps u v.(vm_start) v.(vm_end)) l ↔ ∃ a, inside v a ∧ view l a ≠ None.
Proof.
  intros Hl Hv%good_nonempty. rewrite Exists_exists. split.
  - intros (u & Hu & Hov). pose proof (good_nonempty u (layout_elem _ _ Hl Hu)).
    exists (Z.max u.(vm_start) v.(vm_start)). split; [vlia|]. rewrite (view_elem _ u _ Hl Hu); [done|vlia].
  - intros (a & Ha & Hn). destruct (view l a) as [b|] eqn:E; [|done].
    apply view_Some in E as (u & Hu & Hin & _). exists u. split; [done|vlia].
Qed.
(** C31: [insert] refines the map update, and its answer is decided.  STATE on
    the last generation; else CONFLICT exactly when the new area overlaps an
    existing one; else OK when the area joins a neighbour, and otherwise what the
    room for one more entry gives ([room_answer]: OK with a free slot, and else
    the answer of the heap to a doubled array).  On OK the map is the old one with
    the new area added, every other answer leaves set and references untouched,
    and nothing is allocated when a slot is free. *)
Theorem insert_refines (junk : kernel_vma) (set : kernel_vma_set) (v : kernel_vma) w
    (Hwf : wf set) (Hv : good v) :
  ∃ status set' w', kernel_vma_set_insert junk set v w = Done (status, set', w') ∧
    (set.(vs_generation) = UINT64_MAX → status = KERNEL_VMA_STATUS_STATE) ∧
    (status = KERNEL_VMA_STATUS_CONFLICT ↔
       set.(vs_generation) ≠ UINT64_MAX ∧ ∃ a, inside v a ∧ view (live set) a ≠ None) ∧
    (set.(vs_generation) ≠ UINT64_MAX → (∀ a, inside v a → view (live set) a = None) →
       status = insert_answer set (live set) v w.(w_heap)) ∧
    (status ≠ KERNEL_VMA_STATUS_OK → set' = set ∧ w'.(w_shm) = w.(w_shm)) ∧
    (status = KERNEL_VMA_STATUS_OK → wf set' ∧ conserved set w set' w' ∧
       ((set.(vs_count) < set.(vs_capacity))%nat → w'.(w_heap) = w.(w_heap)) ∧
       ∀ a, view (live set') a =
         if decide (inside v a) then Some (byte_of v a) else view (live set) a).
Proof.
  pose proof (wf_layout _ Hwf) as Hl. destruct (wf_stored _ Hwf) as [rest Hs].
  rewrite (st_count _ _ _ Hs). pose proof (overlap_byte _ v Hl Hv) as Hiff.
  assert (Hno : (∀ a, inside v a → view (live set) a = None) → ¬ Exists (λ u, overlaps u v.(vm_start) v.(vm_end)) (live set))
    by (intros Hn (a & Ha & Hx)%Hiff; by rewrite Hn in Hx).
  destruct (insert_spec junk set v w Hwf Hv) as (status & set' & w' & E & Ho).
  exists status, set', w'. split; [done|]. rewrite <-Hiff.
  destruct Ho as [set' w' ? Hnov Hins Ht ? ? Hroom Hgen Hans|Hov Hgen|Hlast|status w' Hst Hfull ? Hgen Hnov Hans].
  - split; [done|]. split; [split; [done|by intros [_ ?]]|]. split; [done|]. split; [done|]. intros _. split_and!; [done|by apply conserved_took|done|apply Hins].
  - split; [done|]. split; [done|]. split; [intros _ Hn; by destruct (Hno Hn)|done].
  - split; [done|]. split; [split; [done|by intros [? _]]|]. done.
  - split; [done|]. split; [split; [by destruct Hst as [-> | ->]|by intros [_ ?]]|]. split; [done|]. split; [done|]. by destruct Hst as [-> | ->].
Qed.

(** [trim_end] acts on exactly the area [start, old_end): it is NOT_FOUND
    when there is no such area, and otherwise unmaps [new_end, old_end), nothing
    else, releasing the references of an area it removes altogether. *)
Theorem trim_end_refines (set : kernel_vma_set) (start old_end new_end : Z) w
    (Hwf : wf set) (Hrange : start ≤ new_end < old_end)
    (Hgen : set.(vs_generation) ≠ UINT64_MAX) :
  ∃ status set' w', kernel_vma_set_trim_end set start old_end new_end w = Done (status, set', w') ∧
    (status = KERNEL_VMA_STATUS_OK ∧
       (∃ v, v ∈ live set ∧ v.(vm_start) = start ∧ v.(vm_end) = old_end) ∧
       wf set' ∧ conserved set w set' w' ∧ w'.(w_heap) = w.(w_heap) ∧
       (∀ a, view (live set') a =
         if decide (new_end ≤ a < old_end) then None else view (live set) a) ∨
     status = KERNEL_VMA_STATUS_NOT_FOUND ∧ set' = set ∧ w' = w ∧
       ∀ v, v ∈ live set → ¬ (v.(vm_start) = start ∧ v.(vm_end) = old_end)).
Proof.
  destruct (trim_end_spec set start old_end new_end w Hwf Hrange) as (status & set' & w' & E & Ho).
  exists status, set', w'. split; [done|].
  destruct Ho as [v set' w' Hv Hs He ? ? ? ? Ht Hview| |]; [left|done|by right].
  split_and!; try done; [by exists v|by apply conserved_took].
Qed.
End claims.

(** [lookup] finds the area that contains an address: OK with the descriptor
    that maps it, or NOT_FOUND when nothing does. *)
Theorem lookup_refines (set : kernel_vma_set) (a : Z) (Hwf : wf set) (Ha : is_u64 a) :
  ∃ status result, kernel_vma_set_lookup set a = Done (status, result) ∧
    view (live set) a = (λ v, byte_of v a) <$> result ∧
    (status = KERNEL_VMA_STATUS_OK ∧ is_Some result ∨
     status = KERNEL_VMA_STATUS_NOT_FOUND ∧ result = None) ∧
    ∀ v, result = Some v → v ∈ live set ∧ inside v a.
Proof.
  destruct (lookup_spec set a Hwf Ha) as (status & result & E & Hr).
  exists status, result. split; [done|]. destruct result as [v|]; simpl.
  - destruct Hr as (-> & Hv & Hin). split; [by apply view_elem; [apply Hwf|..]|].
    split; [by left|]. by intros ? [= <-].
  - destruct Hr as [-> Hn]. split; [done|]. split; [by right|done].
Qed.
Lemma lookup_refines_witness :
  ∃ status, kernel_vma_set_lookup demo_set 33000 = Done (status, Some demo_file) ∧
    status = KERNEL_VMA_STATUS_OK.
Proof.
  destruct (lookup_refines demo_set 33000 demo_wf ltac:(mlia)) as (status & result & E & _ & Hs & _).
  assert (result = Some demo_file) as -> by (vm_compute in E; by injection E as _ <-).
  exists status. split; [done|]. destruct Hs as [[-> _]|[_ [=]]]; done.
Defined.

(** C28: the top-down search returns a gap of the requested length inside the
    window that touches no area: the hint if it is such a gap, and otherwise the
    highest one; NOT_FOUND means that the window has none. *)
Theorem find_topdown_gap_correct (set : kernel_vma_set) (hint lower upper length : Z)
    (Hwf : wf set) (Hwindow : lower < upper) (Hlength : 0 < length ≤ upper - lower) :
  ∃ status result,
    kernel_vma_set_find_topdown_gap set hint lower upper length = Done (status, result) ∧
    match result with
    | Some x => status = KERNEL_VMA_STATUS_OK ∧ gap (live set) lower upper length x ∧
        (gap (live set) lower upper length hint → x = hint) ∧
        (¬ gap (live set) lower upper length hint →
         ∀ y, gap (live set) lower upper length y → y ≤ x)
    | None => status = KERNEL_VMA_STATUS_NOT_FOUND ∧ ∀ x, ¬ gap (live set) lower upper length x
    end.
Proof. by apply find_topdown_gap_spec. Qed.
Lemma find_topdown_gap_correct_witness :
  ∃ status, kernel_vma_set_find_topdown_gap demo_set 0 4096 73728 8192 =
    Done (status, Some 57344) ∧ gap (live demo_set) 4096 73728 8192 57344.
Proof.
  destruct (find_topdown_gap_correct demo_set 0 4096 73728 8192 demo_wf ltac:(lia) ltac:(lia))
    as (status & result & E & Hr).
  assert (result = Some 57344) as -> by (vm_compute in E; by injection E as _ <-).
  exists status. split; [done|]. apply Hr.
Defined.

Lemma insert_refines_witness :
  ∃ set' w', kernel_vma_set_insert vma_zero demo_set demo_moved demo_world =
    Done (KERNEL_VMA_STATUS_OK, set', w') ∧ wf set'.
Proof.
  destruct (insert_refines vma_zero demo_set demo_moved demo_world demo_wf ltac:(decide_good))
    as (status & set' & w' & E & _ & _ & _ & _ & Hok).
  assert (status = KERNEL_VMA_STATUS_OK) as -> by (vm_compute in E; congruence).
  exists set', w'. split; [done|]. by apply Hok.
Defined.

Lemma trim_end_refines_witness :
  ∃ set' w', kernel_vma_set_trim_end demo_set 4096 20480 8192 demo_world =
    Done (KERNEL_VMA_STATUS_OK, set', w') ∧ view (live set') 8192 = None.
Proof.
  destruct (trim_end_refines demo_set 4096 20480 8192 demo_world demo_wf ltac:(lia)
    ltac:(discriminate)) as (status & set' & w' & E & [(-> & _ & _ & _ & _ & Hv)|(-> & _)]).
  - exists set', w'. split; [done|]. by rewrite Hv.
  - vm_compute in E. discriminate E.
Defined.

Lemma prepared_replace_commits_witness :
  ∃ set1 edit w1 set2 w2,
    kernel_vma_set_prepare_replace vma_zero demo_set 8192 36864 None demo_world =
      Done (KERNEL_VMA_STATUS_OK, set1, Some edit, w1) ∧
    kernel_vma_set_commit_edit vma_zero set1 edit w1 = Done (KERNEL_VMA_STATUS_OK, set2, w2) ∧
    view (live set2) 8192 = None ∧ view (live set2) 4096 = view (live demo_set) 4096.
Proof.
  destruct (prepared_replace_commits vma_zero demo_set 8192 36864 None demo_world demo_wf
    (demo_range 8192 36864 ltac:(lia) ltac:(lia) ltac:(lia) eq_refl eq_refl) I)
    as (status & set1 & result & w1 & E & _ & _ & _ & Hok).
  assert (status = KERNEL_VMA_STATUS_OK) as -> by (vm_compute in E; congruence).
  destruct (Hok eq_refl) as (edit & set2 & w2 & -> & E2 & _ & _ & _ & _ & Hv).
  exists set1, edit, w1, set2, w2. split_and!; [done|done|by rewrite Hv|by rewrite Hv].
Defined.

Lemma demo_small : page_range (live demo_set) 8192 12288.
Proof. by apply demo_range. Qed.

Lemma prepared_protect_commits_witness :
  ∃ set1 edit w1 set2 w2,
    kernel_vma_set_prepare_protect vma_zero demo_set 8192 12288 1 demo_world =
      Done (KERNEL_VMA_STATUS_OK, set1, Some edit, w1) ∧
    kernel_vma_set_commit_edit vma_zero set1 edit w1 = Done (KERNEL_VMA_STATUS_OK, set2, w2) ∧
    vm_permissions <$> view (live set2) 8192 = Some 1 ∧
    vm_permissions <$> view (live set2) 12288 = Some 3.
Proof.
  destruct (prepared_protect_commits vma_zero demo_set 8192 12288 1 demo_world demo_wf demo_small)
    as (status & set1 & result & w1 & E & _ & _ & _ & _ & Hok).
  assert (status = KERNEL_VMA_STATUS_OK) as -> by (vm_compute in E; congruence).
  destruct (Hok eq_refl) as (edit & set2 & w2 & -> & E2 & _ & _ & _ & Hv).
  exists set1, edit, w1, set2, w2. split_and!; [done|done|by rewrite Hv|by rewrite Hv].
Defined.

Lemma prepared_flags_commits_witness :
  ∃ set1 edit w1 set2 w2,
    kernel_vma_set_prepare_flags vma_zero demo_set 8192 12288 3 1 demo_world =
      Done (KERNEL_VMA_STATUS_OK, set1, Some edit, w1) ∧
    kernel_vma_set_commit_edit vma_zero set1 edit w1 = Done (KERNEL_VMA_STATUS_OK, set2, w2) ∧
    vm_flags <$> view (live set2) 8192 = Some 1.
Proof.
  destruct (prepared_flags_commits vma_zero demo_set 8192 12288 3 1 demo_world demo_wf demo_small)
    as (status & set1 & result & w1 & E & _ & _ & Hok).
  assert (status = KERNEL_VMA_STATUS_OK) as -> by (vm_compute in E; congruence).
  destruct (Hok eq_refl) as (edit & set2 & w2 & -> & E2 & _ & _ & _ & Hv).
  exists set1, edit, w1, set2, w2. split_and!; [done|done|by rewrite Hv].
Defined.

Definition demo_limits : kernel_memory_limits :=
  {| ml_address_space := UINT64_MAX; ml_data_soft := UINT64_MAX; ml_data_hard := UINT64_MAX |}.

(** The range runs off the end of the first area: its tail is changed, and the
    status says so. *)
Lemma mprotect_commits_prefix_witness :
  ∃ set1 edit w1 set2 w2,
    kernel_vma_set_prepare_mprotect vma_zero demo_limits demo_set 8192 24576 1 demo_world =
      Done (KERNEL_VMA_STATUS_NO_MEMORY, set1, Some edit, w1) ∧
    kernel_vma_set_commit_edit vma_zero set1 edit w1 = Done (KERNEL_VMA_STATUS_OK, set2, w2) ∧
    wf set2.
Proof.
  destruct (mprotect_commits_prefix vma_zero demo_limits demo_set 8192 24576 1 demo_world demo_wf
    (demo_range 8192 24576 ltac:(lia) ltac:(lia) ltac:(lia) eq_refl eq_refl))
    as (status & set1 & result & w1 & c & E & _ & _ & _ & set2 & w2 & E2 & Hwf & _).
  destruct result as [edit|]; [|vm_compute in E; discriminate E].
  assert (status = KERNEL_VMA_STATUS_NO_MEMORY) as -> by (vm_compute in E; congruence).
  by exists set1, edit, w1, set2, w2.
Defined.

Lemma prepared_remap_commits_witness :
  ∃ set1 edit w1 set2 w2,
    kernel_vma_set_prepare_remap vma_zero demo_set 4096 20480 demo_moved demo_world =
      Done (KERNEL_VMA_STATUS_OK, set1, Some edit, w1) ∧
    kernel_vma_set_commit_remap vma_zero set1 edit w1 = Done (KERNEL_VMA_STATUS_OK, set2, w2) ∧
    view (live set2) 4096 = None ∧ view (live set2) 81920 = Some (byte_of demo_moved 81920).
Proof.
  destruct (prepared_remap_commits vma_zero demo_set 4096 20480 demo_moved demo_world demo_wf
    (demo_range 4096 20480 ltac:(lia) ltac:(lia) ltac:(lia) eq_refl eq_refl) ltac:(decide_good))
    as (status & set1 & result & w1 & E & _ & Hiff & Hok).
  assert (status = KERNEL_VMA_STATUS_OK) as -> by (vm_compute in E; congruence).
  destruct (proj1 Hiff eq_refl) as [edit ->].
  destruct (Hok edit eq_refl) as (set2 & w2 & E2 & _ & _ & _ & Hv).
  exists set1, edit, w1, set2, w2. split_and!; [done|done|by rewrite Hv|by rewrite Hv].
Defined.

Definition demo_unmap : kernel_vma_edit :=
  mk_edit 9000 5 8192 12288 0 0 0 KERNEL_VMA_EDIT_REMOVE vma_zero.
Lemma edit_commits_once_witness :
  ∃ set1 w1,
    kernel_vma_set_commit_edit vma_zero demo_set demo_unmap demo_world =
      Done (KERNEL_VMA_STATUS_OK, set1, w1) ∧
    kernel_vma_set_commit_edit vma_zero set1 demo_unmap w1 =
      Done (KERNEL_VMA_STATUS_STATE, set1, w1).
Proof.
  destruct (edit_commits_once vma_zero demo_set demo_unmap demo_unmap demo_world demo_wf) as
    (set1 & w1 & E1 & E2 & _).
  - split; try done; [vm_compute; lia|by intros [|]].
  - simpl. lia.
  - by exists set1, w1.
Defined.

Lemma fork_refines_witness :
  ∃ child w', kernel_vma_set_fork vma_zero demo_set None demo_world =
    Done (KERNEL_VMA_STATUS_OK, Some child, w') ∧ balance 500 w'.(w_shm) = 1.
Proof.
  destruct (fork_refines vma_zero demo_set demo_world demo_wf) as (status & result & w' & E & Hr).
  destruct result as [child|]; [|vm_compute in E; discriminate E].
  destruct Hr as (-> & _). exists child, w'. split; [exact E|].
  vm_compute in E. by injection E as _ <-.
Defined.
