(* ===== verification/VmaSession.v ===== *)
(** * Processes: VMA sets from creation or fork to destruction

    The callers of [mm/vma.c] interleave prepares, commits, insertions and
    trims, and may hold prepared edits that other operations make stale.  A
    process is a set and the edits still held; a system is any number of them
    over one heap and one log of attachment references.  The steps are the
    public operations, with whatever status they return.  The invariant holds
    in every reachable system, so every reference taken is accounted for by a
    live descriptor, and none is left when the last process is gone. *)
From S2P Require Import Prelude Heap Vma VmaLists VmaTheory VmaPrepare VmaOps.
From S2P Require Import VmaOps VmaClaims.
#[local] Open Scope Z_scope.
Import Heap Vma.

Section session.
Context {H : Type} `{KernelHeap H}.
Implicit Types w : world H.
Variable junk : kernel_vma.

Record process := mk_process {
  pr_set : kernel_vma_set;
  pr_edits : list kernel_vma_edit;
  pr_remaps : list kernel_vma_remap;
}.

Definition hold {A} (o : option A) (l : list A) : list A :=
  match o with Some x => x :: l | None => l end.

(** One public operation on the set of a process.  The hypotheses are what
    callers ensure: 64-bit page-aligned ranges and well-typed descriptors.
    [clear_locks] is the one mutator that does not check for the last
    generation, so its step excludes it. *)
Inductive op_step : process → world H → process → world H → Prop :=
  | Step_insert set w eds rms v status set' w' :
      good v →
      kernel_vma_set_insert junk set v w = Done (status, set', w') →
      op_step (mk_process set eds rms) w (mk_process set' eds rms) w'
  | Step_trim set w eds rms start old_end new_end status set' w' :
      start ≤ new_end < old_end →
      kernel_vma_set_trim_end set start old_end new_end w = Done (status, set', w') →
      op_step (mk_process set eds rms) w (mk_process set' eds rms) w'
  | Step_clear_locks set w eds rms set' w' :
      set.(vs_generation) ≠ UINT64_MAX →
      kernel_vma_set_clear_locks set w = Done (set', w') →
      op_step (mk_process set eds rms) w (mk_process set' eds rms) w'
  | Step_prepare_replace set w eds rms s e replacement status set' result w' :
      page_range (live set) s e → replacement_ok s e replacement →
      kernel_vma_set_prepare_replace junk set s e replacement w = Done (status, set', result, w') →
      op_step (mk_process set eds rms) w (mk_process set' (hold result eds) rms) w'
  | Step_prepare_protect set w eds rms s e permissions status set' result w' :
      page_range (live set) s e →
      kernel_vma_set_prepare_protect junk set s e permissions w = Done (status, set', result, w') →
      op_step (mk_process set eds rms) w (mk_process set' (hold result eds) rms) w'
  | Step_prepare_mprotect set w eds rms limits s e permissions status set' result w' :
      page_range (live set) s e →
      kernel_vma_set_prepare_mprotect junk limits set s e permissions w =
        Done (status, set', result, w') →
      op_step (mk_process set eds rms) w (mk_process set' (hold result eds) rms) w'
  | Step_prepare_flags set w eds rms s e mask flags status set' result w' :
      page_range (live set) s e →
      kernel_vma_set_prepare_flags junk set s e mask flags w = Done (status, set', result, w') →
      op_step (mk_process set eds rms) w (mk_process set' (hold result eds) rms) w'
  | Step_prepare_remap set w eds rms s e replacement status set' result w' :
      page_range (live set) s e → good replacement →
      kernel_vma_set_prepare_remap junk set s e replacement w = Done (status, set', result, w') →
      op_step (mk_process set eds rms) w (mk_process set' eds (hold result rms)) w'
  | Step_commit set w eds rms edit status set' w' :
      edit ∈ eds →
      kernel_vma_set_commit_edit junk set edit w = Done (status, set', w') →
      op_step (mk_process set eds rms) w (mk_process set' eds rms) w'
  | Step_commit_remap set w eds rms edit status set' w' :
      edit ∈ rms →
      kernel_vma_set_commit_remap junk set edit w = Done (status, set', w') →
      op_step (mk_process set eds rms) w (mk_process set' eds rms) w'.

(** The operations that make and unmake processes. *)
Inductive system_step : list process * world H → list process * world H → Prop :=
  | Step_op ps1 p ps2 w p' w' :
      op_step p w p' w' →
      system_step (ps1 ++ p :: ps2, w) (ps1 ++ p' :: ps2, w')
  | Step_create ps heap w status result w' :
      heap ≠ 0 → kernel_vma_set_create heap None w = Done (status, result, w') →
      system_step (ps, w)
        (match result with Some set => mk_process set [] [] :: ps | None => ps end, w')
  | Step_fork ps1 p ps2 w status result w' :
      kernel_vma_set_fork junk p.(pr_set) None w = Done (status, result, w') →
      system_step (ps1 ++ p :: ps2, w)
        (match result with
         | Some child => mk_process child [] [] :: ps1 ++ p :: ps2
         | None => ps1 ++ p :: ps2
         end, w')
  | Step_destroy ps1 p ps2 w status w' :
      kernel_vma_set_destroy p.(pr_set) w = Done (status, None, w') →
      system_step (ps1 ++ p :: ps2, w) (ps1 ++ ps2, w').

(** Held edits are from the present or the past, and the present ones are
    still ready. *)
Definition edit_held (set : kernel_vma_set) (edit : kernel_vma_edit) : Prop :=
  edit.(ed_generation) ≤ set.(vs_generation) ∧
  (edit.(ed_generation) = set.(vs_generation) → edit_ready set edit).
Definition remap_held (set : kernel_vma_set) (edit : kernel_vma_remap) : Prop :=
  edit.(rm_generation) ≤ set.(vs_generation) ∧
  (edit.(rm_generation) = set.(vs_generation) →
   remap_ready set edit.(rm_start) edit.(rm_end) edit.(rm_replacement) ∧
   edit.(rm_set) = set.(vs_this)).

Record process_ok (p : process) : Prop := {
  po_wf : wf p.(pr_set);
  po_edits edit : edit ∈ p.(pr_edits) → edit_held p.(pr_set) edit;
  po_remaps edit : edit ∈ p.(pr_remaps) → remap_held p.(pr_set) edit;
}.

(** Reserving more storage keeps the held edits ready. *)
Lemma edit_held_undisturbed set w set' w' edit :
  undisturbed set w set' w' → edit_held set edit → edit_held set' edit.
Proof.
  intros [_ Hl Hh _ Hcap] [Hle Hready]. split; rewrite (sh_generation _ _ Hh); [done|].
  intros Heq. destruct (Hready Heq) as [R1 R2 R3 R4 R5 R6 R7].
  split; rewrite ?Hl, ?(sh_this _ _ Hh), ?(sh_generation _ _ Hh); try done; [lia|].
  intros Hk. destruct (R6 Hk) as (? & ? & ? & Hf). split_and!; try done.
  intros Hn. specialize (Hf Hn). lia.
Qed.
Lemma remap_held_undisturbed set w set' w' edit :
  undisturbed set w set' w' → remap_held set edit → remap_held set' edit.
Proof.
  intros [_ Hl Hh _ Hcap] [Hle Hready]. split; rewrite (sh_generation _ _ Hh); [done|].
  intros Heq. destruct (Hready Heq) as [[R1 R2 R3 R4 R5] Hthis].
  split; [|by rewrite (sh_this _ _ Hh)].
  split; rewrite ?Hl, ?(sh_generation _ _ Hh); try done. lia.
Qed.

(** Going from [p] to [p'] keeps the invariant and accounts for the references
    taken and dropped. *)
Definition ok_step (p : process) w (p' : process) w' : Prop :=
  process_ok p' ∧ took w w' (λ q, refs q (live p'.(pr_set)) - refs q (live p.(pr_set))).

(** A step that only prepares. *)
Lemma step_prepares set w eds rms set' w' (res : option kernel_vma_edit)
    (rres : option kernel_vma_remap) :
  process_ok (mk_process set eds rms) → undisturbed set w set' w' →
  (∀ edit, res = Some edit → edit_held set' edit) →
  (∀ edit, rres = Some edit → remap_held set' edit) →
  ok_step (mk_process set eds rms) w (mk_process set' (hold res eds) (hold rres rms)) w'.
Proof.
  intros [? He Hr] Hun Hres Hrres. pose proof Hun as [? Hl _ Hw _]. split.
  - split; simpl in *; [done|..].
    + intros edit Hin. destruct res as [x|]; simpl in Hin.
      * apply elem_of_cons in Hin as [->|Hin]; [by apply Hres|by eapply edit_held_undisturbed; eauto].
      * by eapply edit_held_undisturbed; eauto.
    + intros edit Hin. destruct rres as [x|]; simpl in Hin.
      * apply elem_of_cons in Hin as [->|Hin]; [by apply Hrres|by eapply remap_held_undisturbed; eauto].
      * by eapply remap_held_undisturbed; eauto.
  - intros q Hq. simpl. rewrite Hw, Hl. lia.
Qed.
(** A step that changes the set takes a later generation: all held edits are
    stale. *)
Lemma step_changes set w eds rms set' w' :
  process_ok (mk_process set eds rms) → wf set' →
  set.(vs_generation) < set'.(vs_generation) →
  took w w' (λ q, refs q (live set') - refs q (live set)) →
  ok_step (mk_process set eds rms) w (mk_process set' eds rms) w'.
Proof.
  intros [? He Hr] Hwf Hg Ht. split; [|done]. split; simpl in *; [done|..].
  - intros edit Hin. destruct (He edit Hin). split; lia.
  - intros edit Hin. destruct (Hr edit Hin). split; lia.
Qed.
(** A step that refuses leaves the set; the heap may have been asked. *)
Lemma step_refuses p w w' : process_ok p → w'.(w_shm) = w.(w_shm) → ok_step p w p w'.
Proof. intros Hp Hw. split; [done|]. intros q Hq. rewrite Hw. lia. Qed.

(** What a prepare returns is held from then on. *)
Lemma ready_held set edit : edit_ready set edit → edit_held set edit.
Proof. intros Hr. split; [|done]. by rewrite (er_generation _ _ Hr). Qed.
Lemma prepared_step set w eds rms edit status set' result w' :
  process_ok (mk_process set eds rms) → prepared set w edit status set' result w' →
  ok_step (mk_process set eds rms) w (mk_process set' (hold result eds) rms) w'.
Proof.
  intros Hp [set1 w1 Hun Hready|st w1 _ Hun].
  - apply (step_prepares _ _ _ _ _ _ (Some edit) None); try done.
    intros ? [= <-]. by apply ready_held.
  - by apply (step_prepares _ _ _ _ _ _ None None).
Qed.

Lemma commit_step set w eds rms edit status set' w' :
  process_ok (mk_process set eds rms) → edit ∈ eds →
  kernel_vma_set_commit_edit junk set edit w = Done (status, set', w') →
  ok_step (mk_process set eds rms) w (mk_process set' eds rms) w'.
Proof.
  intros Hp Hin E. pose proof Hp as [Hwf He _]. destruct (He edit Hin) as [_ Hready]. simpl in *.
  destruct (decide (edit.(ed_generation) = set.(vs_generation))) as [Hg|Hg].
  - destruct (commit_edit_spec junk set edit w Hwf (Hready Hg)) as (set1 & w1 & E1 & [? ? Hgen ? ? ? ? Ht _]).
    rewrite E1 in E. simplify_eq. apply step_changes; try done. lia.
  - unfold kernel_vma_set_commit_edit in E. rewrite decide_True in E by tauto.
    unfold mret, ST_ret in E. simplify_eq. by apply step_refuses.
Qed.
Lemma commit_remap_step set w eds rms edit status set' w' :
  process_ok (mk_process set eds rms) → edit ∈ rms →
  kernel_vma_set_commit_remap junk set edit w = Done (status, set', w') →
  ok_step (mk_process set eds rms) w (mk_process set' eds rms) w'.
Proof.
  intros Hp Hin E. pose proof Hp as [Hwf _ Hr]. destruct (Hr edit Hin) as [_ Hready]. simpl in *.
  destruct (decide (edit.(rm_generation) = set.(vs_generation))) as [Hg|Hg].
  - destruct (Hready Hg) as [Hrr Hthis].
    destruct (commit_remap_spec junk set _ _ _ w Hwf Hrr) as (set1 & w1 & E1 & ? & _ & Hgen & Ht & _).
    rewrite <-Hthis, <-Hg in E1.
    replace (mk_remap _ _ _ _ _) with edit in E1 by (by destruct edit).
    rewrite E1 in E. simplify_eq. apply step_changes; try done. lia.
  - unfold kernel_vma_set_commit_remap in E. rewrite decide_True in E by tauto.
    unfold mret, ST_ret in E. simplify_eq. by apply step_refuses.
Qed.

Lemma op_step_ok p w p' w' : process_ok p → op_step p w p' w' → ok_step p w p' w'.
Proof.
  intros Hp Hstep. pose proof (po_wf _ Hp) as Hwf.
  destruct Hstep as [set w eds rms v status set' w' Hv E|set w eds rms s o n status set' w' Hr E
    |set w eds rms set' w' Hmax E|set w eds rms s e r status set' result w' Hr Hrep E
    |set w eds rms s e prm status set' result w' Hr E
    |set w eds rms lim s e prm status set' result w' Hr E
    |set w eds rms s e mask flags status set' result w' Hr E
    |set w eds rms s e r status set' result w' Hr Hg E
    |set w eds rms edit status set' w' Hin E|set w eds rms edit status set' w' Hin E]; simpl in *.
  - destruct (insert_spec junk set v w Hwf Hv) as (st & set1 & w1 & E1 & Ho). rewrite E1 in E.
    simplify_eq. destruct Ho; try (by apply step_refuses). apply step_changes; try done. lia.
  - destruct (trim_end_spec set s o n w Hwf Hr) as (st & set1 & w1 & E1 & Ho). rewrite E1 in E.
    simplify_eq. destruct Ho; try (by apply step_refuses). apply step_changes; try done. lia.
  - destruct (clear_locks_spec set w Hwf) as (set1 & E1 & ? & _ & _ & Hg & _ & Ht).
    rewrite E1 in E. simplify_eq. apply step_changes; try done. rewrite Hg.
    pose proof (wf_generation _ Hwf). rewrite u64_small by mlia. lia.
  - destruct (prepare_replace_spec junk set s e r w Hwf Hr Hrep) as (st & set1 & res & w1 & E1 & Ho & _).
    rewrite E1 in E. simplify_eq. by eapply prepared_step.
  - destruct (prepare_protect_spec junk set s e prm w Hwf Hr) as (st & set1 & res & w1 & E1 & Ho).
    rewrite E1 in E. simplify_eq. destruct Ho; [by apply step_refuses..|by eapply prepared_step].
  - destruct (prepare_mprotect_spec junk lim set w s e prm Hwf Hr)
      as (st & set1 & res & w1 & E1 & Hun & c & _ & Hprog & _).
    rewrite E1 in E. simplify_eq.
    apply (step_prepares _ _ _ _ _ _ result None); try done. intros edit ->.
    destruct Hprog as (? & ? & _ & _ & _ & _ & _ & _ & Hready). by apply ready_held.
  - destruct (prepare_flags_spec junk set s e mask flags w Hwf Hr) as (st & set1 & res & w1 & E1 & Ho).
    rewrite E1 in E. simplify_eq. destruct Ho; [by apply step_refuses..|by eapply prepared_step].
  - destruct (prepare_remap_spec junk set s e r w Hwf Hr Hg)
      as (st & set1 & res & w1 & E1 & Hun & Hres & Hready).
    rewrite E1 in E. simplify_eq. apply (step_prepares _ _ _ _ _ _ None result); try done.
    intros edit [Hok ->]%Hres. pose proof Hun as [_ _ Hh _ _].
    split; simpl; rewrite (sh_generation _ _ Hh), ?(sh_this _ _ Hh); [done|]. auto.
  - by eapply commit_step.
  - by eapply commit_remap_step.
Qed.

(** References held by all processes. *)
Definition all_refs (q : Z) (ps : list process) : Z :=
  foldr (λ p acc, refs q (live p.(pr_set)) + acc) 0 ps.
Lemma all_refs_app q ps1 ps2 : all_refs q (ps1 ++ ps2) = all_refs q ps1 + all_refs q ps2.
Proof. induction ps1 as [|p ps1 IH]; simpl; [done|]. rewrite IH. lia. Qed.

Record system_ok (sys : list process * world H) : Prop := {
  sy_processes : Forall process_ok sys.1;
  sy_balance q : q ≠ 0 → balance q sys.2.(w_shm) = all_refs q sys.1;
}.

Lemma fresh_ok set : wf set → process_ok (mk_process set [] []).
Proof. intros. split; [done|..]; intros edit Hin; by apply not_elem_of_nil in Hin. Qed.

Lemma system_step_ok sys sys' : system_ok sys → system_step sys sys' → system_ok sys'.
Proof.
  intros [Hps Hb] Hstep.
  destruct Hstep as [ps1 p ps2 w p' w' Hop|ps heap w status result w' Hh E
    |ps1 p ps2 w status result w' E|ps1 p ps2 w status w' E]; simpl in *.
  - apply Forall_app in Hps as [H1 [Hp H2]%Forall_cons].
    destruct (op_step_ok _ _ _ _ Hp Hop) as [Hp' Ht]. split; simpl.
    + apply Forall_app. split; [done|]. by apply Forall_cons.
    + intros q Hq. rewrite Ht, Hb, !all_refs_app by done. simpl. lia.
  - destruct (create_spec heap w Hh) as (st & res & w1 & E1 & Hw & Hres). rewrite E1 in E.
    simplify_eq. destruct result as [set|]; split; simpl; try done.
    + apply Forall_cons. split; [|done]. apply fresh_ok, Hres.
    + intros q Hq. destruct Hres as (_ & _ & Hl & _). rewrite Hw, Hb, Hl by done.
      unfold refs. simpl. lia.
    + intros q Hq. by rewrite Hw, Hb.
  - assert (Hp : process_ok p) by (apply Forall_app in Hps as [_ [? _]%Forall_cons]; done).
    destruct (fork_spec junk _ w (po_wf _ Hp)) as (st & res & w1 & E1 & Ho). rewrite E1 in E.
    simplify_eq. destruct Ho as [child w' Hwf _ _ _ Ht|? w' _ Ht]; split; simpl; try done.
    + apply Forall_cons. split; [by apply fresh_ok|done].
    + intros q Hq. rewrite Ht, Hb by done. lia.
    + intros q Hq. rewrite Ht, Hb by done. lia.
  - apply Forall_app in Hps as [H1 [Hp H2]%Forall_cons].
    destruct (destroy_spec _ w (po_wf _ Hp)) as (w1 & E1 & Ht). rewrite E1 in E. simplify_eq.
    split; simpl; [by apply Forall_app|].
    intros q Hq. rewrite Ht, Hb, !all_refs_app by done. simpl. lia.
Qed.

(** C8: in every system reachable by the public operations, in any order and
    with any mixture of fresh and stale edits, every set satisfies its invariant
    (sorted, disjoint, valid descriptors inside the array; counters equal to the
    bytes mapped), an edit held for the current generation is still committable,
    and the references taken to each shared-memory attachment are exactly the
    live descriptors that carry it: with no process left, all were dropped. *)
Theorem system_invariant (h : H) (sys : list process * world H)
    (Hreach : rtc system_step ([], mk_world h []) sys) :
  Forall (λ p, wf p.(pr_set) ∧
    ∀ edit, edit ∈ p.(pr_edits) → edit.(ed_generation) = p.(pr_set).(vs_generation) →
      edit_ready p.(pr_set) edit) sys.1 ∧
  (∀ q, q ≠ 0 → balance q sys.2.(w_shm) = all_refs q sys.1) ∧
  (sys.1 = [] → ∀ q, q ≠ 0 → balance q sys.2.(w_shm) = 0).
Proof.
  assert (Hok : system_ok sys).
  { remember ([], mk_world h []) as sys0 eqn:E.
    assert (H0' : system_ok sys0) by (subst; by split).
    clear E. induction Hreach as [|x y z Hxy _ IH]; [done|]. by apply IH, (system_step_ok x). }
  destruct Hok as [Hps Hb]. split_and!; [|done|].
  - eapply Forall_impl; [exact Hps|]. intros p [Hwf He _]. split; [done|].
    intros edit Hin. by apply He.
  - intros Hnil q Hq. by rewrite Hb, Hnil.
Qed.
End session.

(** Create a set, attach shared memory, unmap part of it and exit. *)
Lemma system_invariant_witness :
  ∃ sys, rtc (system_step vma_zero) ([], demo_world) sys ∧ sys.1 ≠ [] ∧
    balance 500 sys.2.(w_shm) = 1 ∧ all_refs 500 sys.1 = 1.
Proof.
  assert (Hreach : ∃ sys, rtc (system_step vma_zero) ([], demo_world) sys ∧ sys.1 ≠ [] ∧
    balance 500 sys.2.(w_shm) = 1).
  { eexists. split.
    - eapply rtc_l; [eapply (Step_create vma_zero [] 1); [done|vm_compute; reflexivity]|].
      eapply rtc_l; [|apply rtc_refl].
      eapply (Step_op vma_zero [] _ []).
      eapply (Step_insert vma_zero _ _ [] [] demo_shm KERNEL_VMA_STATUS_OK); [exact demo_shm_good|].
      vm_compute. reflexivity.
    - split; [discriminate|vm_compute; reflexivity]. }
  destruct Hreach as (sys & Hreach & Hne & Hb). exists sys.
  destruct (system_invariant vma_zero demo_heap sys Hreach) as (_ & Hbal & _).
  split_and!; [done..|]. by rewrite <-Hbal.
Defined.
