(* ===== verification/Time.v ===== *)
(** * Clocks and deadlines ([kernel/time.c])

    The static variables of the file are the record [clock]; the arch counter
    ([arch_time_read]) is an argument of the operations that sample it.
    [unsigned __int128] intermediates never wrap for 64-bit operands, so they
    are plain integers; conversions back to [uint64_t] are written out. *)
From S2P Require Import Prelude.
#[local] Open Scope Z_scope.

Module Time.

Definition KERNEL_TIME_NS_PER_SECOND : Z := 1000000000.
Definition KERNEL_TIME_MULTIPLIER_SHIFT : Z := 32.
Definition KERNEL_TICKS_PER_SECOND : Z := 100.

Inductive kernel_time_status :=
  | KERNEL_TIME_STATUS_OK
  | KERNEL_TIME_STATUS_INVALID_ARGUMENT
  | KERNEL_TIME_STATUS_ALREADY_INITIALIZED
  | KERNEL_TIME_STATUS_NOT_INITIALIZED
  | KERNEL_TIME_STATUS_DEADLINE_PASSED.

#[export] Instance kernel_time_status_eq_dec : EqDecision kernel_time_status.
Proof. solve_decision. Defined.

Record clock := mk_clock {
  time_initialized : bool;
  time_multiplier : Z;
  time_ticks_multiplier : Z;
  time_boot_realtime_ns : Z;
  time_coarse_monotonic_ns : Z;
}.
Definition clock_zero : clock := mk_clock false 0 0 0 0.

Definition kernel_time_ticks_to_ns (c : clock) (ticks : Z) : Z :=
  u64 (Z.shiftr (ticks * c.(time_multiplier)) KERNEL_TIME_MULTIPLIER_SHIFT).

(** [now] is the counter sample taken while initialising. *)
Definition kernel_time_init (timebase_frequency boot_realtime_ns now : Z) (c : clock)
    : kernel_time_status * clock :=
  if decide (timebase_frequency = 0) then (KERNEL_TIME_STATUS_INVALID_ARGUMENT, c)
  else if c.(time_initialized) then (KERNEL_TIME_STATUS_ALREADY_INITIALIZED, c)
  else
    let multiplier :=
      u64 (u64 (Z.shiftl KERNEL_TIME_NS_PER_SECOND KERNEL_TIME_MULTIPLIER_SHIFT) +
           timebase_frequency - 1) / timebase_frequency in
    let ticks_multiplier :=
      u64 (u64 (Z.shiftl timebase_frequency KERNEL_TIME_MULTIPLIER_SHIFT) +
           KERNEL_TIME_NS_PER_SECOND - 1) / KERNEL_TIME_NS_PER_SECOND in
    let c := mk_clock c.(time_initialized) multiplier ticks_multiplier boot_realtime_ns
               c.(time_coarse_monotonic_ns) in
    (KERNEL_TIME_STATUS_OK,
     mk_clock true multiplier ticks_multiplier boot_realtime_ns (kernel_time_ticks_to_ns c now)).

Definition kernel_time_is_initialized (c : clock) : Z := if c.(time_initialized) then 1 else 0.

Definition kernel_time_monotonic_ns (c : clock) (now : Z) : Z := kernel_time_ticks_to_ns c now.

Definition kernel_time_realtime_ns (c : clock) (now : Z) : Z :=
  u64 (c.(time_boot_realtime_ns) + kernel_time_monotonic_ns c now).

Definition kernel_time_update_coarse (c : clock) (now : Z) : clock :=
  if c.(time_initialized) then
    mk_clock c.(time_initialized) c.(time_multiplier) c.(time_ticks_multiplier)
      c.(time_boot_realtime_ns) (kernel_time_monotonic_ns c now)
  else c.

Definition kernel_time_coarse_monotonic_ns (c : clock) : Z := c.(time_coarse_monotonic_ns).

Definition kernel_time_coarse_realtime_ns (c : clock) : Z :=
  u64 (c.(time_boot_realtime_ns) + kernel_time_coarse_monotonic_ns c).

Definition kernel_time_coarse_resolution_ns : Z :=
  KERNEL_TIME_NS_PER_SECOND / KERNEL_TICKS_PER_SECOND.

Definition kernel_time_boot_realtime_offset (c : clock) : Z := c.(time_boot_realtime_ns).

(** The ticks to wait, before and after the clamp to half of the counter. *)
Definition delta_ticks (c : clock) (delta_ns : Z) : Z :=
  Z.shiftr (delta_ns * c.(time_ticks_multiplier) + UINT32_MAX) KERNEL_TIME_MULTIPLIER_SHIFT.
Definition clamped_ticks (ticks : Z) : Z :=
  if decide (INT64_MAX < ticks) then INT64_MAX else ticks.
(** The deadline in the wrapping counter; 0 would mean "no timer". *)
Definition deadline_value (now_ticks ticks : Z) : Z :=
  let deadline := u64 (now_ticks + ticks) in
  if decide (deadline = 0) then 1 else deadline.

(** [deadline] is the pointer; the second result is the value stored there. *)
Definition kernel_time_deadline_from_monotonic (c : clock) (target_monotonic_ns deadline now_ticks : Z)
    : kernel_time_status * option Z :=
  if decide (deadline = 0) then (KERNEL_TIME_STATUS_INVALID_ARGUMENT, None)
  else if c.(time_initialized) then
    let now_ns := kernel_time_ticks_to_ns c now_ticks in
    if decide (target_monotonic_ns ≤ now_ns) then (KERNEL_TIME_STATUS_DEADLINE_PASSED, None)
    else
      let delta_ns := target_monotonic_ns - now_ns in
      (KERNEL_TIME_STATUS_OK,
       Some (deadline_value now_ticks (clamped_ticks (delta_ticks c delta_ns))))
  else (KERNEL_TIME_STATUS_NOT_INITIALIZED, None).

End Time.
