(* ===== verification/TimeTheory.v ===== *)
(** * Correctness of clocks and deadlines ([kernel/time.c]) *)
From S2P Require Import Prelude Time.
#[local] Open Scope Z_scope.
Import Time.

(** A clock initialised for a counter of [f] ticks per second. *)
Record runs_at (c : clock) (f : Z) : Prop := {
  ra_initialized : c.(time_initialized) = true;
  ra_frequency : 1 ≤ f ≤ UINT32_MAX;
  ra_multiplier : KERNEL_TIME_NS_PER_SECOND * 2 ^ 32 ≤ c.(time_multiplier) * f
                  < KERNEL_TIME_NS_PER_SECOND * 2 ^ 32 + f;
  ra_ticks_multiplier :
    f * 2 ^ 32 ≤ c.(time_ticks_multiplier) * KERNEL_TIME_NS_PER_SECOND
    < f * 2 ^ 32 + KERNEL_TIME_NS_PER_SECOND;
}.

(** Division rounded up. *)
Lemma ceil_div_bounds a b : 0 < b → a ≤ ((a + b - 1) / b) * b < a + b.
Proof.
  intros Hb. pose proof (Z.div_mod (a + b - 1) b ltac:(lia)).
  pose proof (Z.mod_pos_bound (a + b - 1) b Hb). lia.
Qed.

Lemma init_runs_at f boot now c c' :
  1 ≤ f ≤ UINT32_MAX → kernel_time_init f boot now c = (KERNEL_TIME_STATUS_OK, c') → runs_at c' f.
Proof.
  intros Hf. unfold kernel_time_init. rewrite decide_False by lia.
  destruct (time_initialized c); [done|]. intros [= <-].
  unfold KERNEL_TIME_MULTIPLIER_SHIFT. rewrite !Z.shiftl_mul_pow2 by lia.
  unfold KERNEL_TIME_NS_PER_SECOND in *.
  rewrite (u64_small (1000000000 * 2 ^ 32)) by mlia. rewrite (u64_small (f * 2 ^ 32)) by mlia.
  rewrite !u64_small by mlia.
  split; [done|done|exact (ceil_div_bounds _ f ltac:(lia))|].
  exact (ceil_div_bounds _ 1000000000 ltac:(lia)).
Qed.

Lemma runs_at_multiplier_pos c f : runs_at c f → 0 < c.(time_multiplier) ∧ 0 < c.(time_ticks_multiplier).
Proof. intros [_ Hf Hm Ht]. unfold KERNEL_TIME_NS_PER_SECOND in *. nia. Qed.

(** The conversion before it is truncated to 64 bits. *)
Definition exact_ns (c : clock) (ticks : Z) : Z := ticks * c.(time_multiplier) / 2 ^ 32.
Lemma ticks_to_ns_exact c ticks :
  kernel_time_ticks_to_ns c ticks = u64 (exact_ns c ticks).
Proof.
  unfold kernel_time_ticks_to_ns, exact_ns, KERNEL_TIME_MULTIPLIER_SHIFT.
  by rewrite Z.shiftr_div_pow2 by lia.
Qed.
Lemma exact_ns_nonneg c f ticks : runs_at c f → 0 ≤ ticks → 0 ≤ exact_ns c ticks.
Proof.
  intros Hc Ht. destruct (runs_at_multiplier_pos c f Hc). unfold exact_ns.
  apply Z.div_pos; [nia|lia].
Qed.
Lemma exact_ns_mono c f t t' : runs_at c f → t ≤ t' → exact_ns c t ≤ exact_ns c t'.
Proof.
  intros Hc Ht. destruct (runs_at_multiplier_pos c f Hc). unfold exact_ns.
  apply Z.div_le_mono; nia.
Qed.

(** Reading the clock is monotone and accurate.  As long as the result fits
    64 bits, later counter samples give later times, and the nanoseconds of
    [ticks] are within the true value [ticks * 1e9 / frequency] rounded down
    and that value plus the stated coefficient error of 2^-32 per tick. *)
Theorem ticks_to_ns_accurate (c c' : clock) (f boot now t t' : Z)
    (Hf : 1 ≤ f ≤ UINT32_MAX)
    (Hinit : kernel_time_init f boot now c = (KERNEL_TIME_STATUS_OK, c'))
    (Ht : 0 ≤ t ≤ t') (Hfits : exact_ns c' t' ≤ UINT64_MAX) :
  kernel_time_ticks_to_ns c' t ≤ kernel_time_ticks_to_ns c' t' ∧
  t * KERNEL_TIME_NS_PER_SECOND / f ≤ kernel_time_ticks_to_ns c' t ∧
  kernel_time_ticks_to_ns c' t * 2 ^ 32 * f ≤ t * (KERNEL_TIME_NS_PER_SECOND * 2 ^ 32 + f).
Proof.
  pose proof (init_runs_at f boot now c c' Hf Hinit) as Hc.
  pose proof (exact_ns_nonneg c' f t Hc ltac:(lia)). pose proof (exact_ns_mono c' f t t' Hc ltac:(lia)).
  rewrite !ticks_to_ns_exact, !u64_small by mlia.
  destruct Hc as [_ _ Hm _]. unfold exact_ns in *. set (m := time_multiplier c') in *.
  split; [done|]. split.
  - apply Z.div_le_lower_bound; [lia|].
    pose proof (Z.mul_div_le (t * KERNEL_TIME_NS_PER_SECOND) f ltac:(lia)) as Hfl.
    set (q := t * KERNEL_TIME_NS_PER_SECOND / f) in *. nia.
  - pose proof (Z.mul_div_le (t * m) (2 ^ 32) ltac:(lia)). nia.
Qed.
Lemma ticks_to_ns_accurate_witness :
  let c := (kernel_time_init 10000000 0 5 clock_zero).2 in
  kernel_time_ticks_to_ns c 9999999 ≤ kernel_time_ticks_to_ns c 10000000 ∧
  9999999 * KERNEL_TIME_NS_PER_SECOND / 10000000 ≤ kernel_time_ticks_to_ns c 9999999 ∧
  kernel_time_ticks_to_ns c 9999999 * 2 ^ 32 * 10000000
    ≤ 9999999 * (KERNEL_TIME_NS_PER_SECOND * 2 ^ 32 + 10000000).
Proof.
  refine (ticks_to_ns_accurate clock_zero _ 10000000 0 5 9999999 10000000 _ eq_refl _ _);
    [mlia|lia|vm_compute; discriminate].
Defined.

Lemma delta_ticks_bounds c f delta_ns :
  runs_at c f → 0 < delta_ns →
  delta_ns * c.(time_ticks_multiplier) ≤ delta_ticks c delta_ns * 2 ^ 32
    < delta_ns * c.(time_ticks_multiplier) + 2 ^ 32 ∧
  1 ≤ delta_ticks c delta_ns.
Proof.
  intros Hc Hd. destruct (runs_at_multiplier_pos c f Hc).
  unfold delta_ticks, KERNEL_TIME_MULTIPLIER_SHIFT. rewrite Z.shiftr_div_pow2 by lia.
  replace (delta_ns * time_ticks_multiplier c + UINT32_MAX)
    with (delta_ns * time_ticks_multiplier c + 2 ^ 32 - 1) by (unfold UINT32_MAX; lia).
  pose proof (ceil_div_bounds (delta_ns * time_ticks_multiplier c) (2 ^ 32) ltac:(lia)) as Hb.
  set (q := (_ + _ - 1) / 2 ^ 32) in *. split; [lia|]. nia.
Qed.

(** Waiting [delta_ticks] really covers [delta_ns]. *)
Lemma deadline_reached c f now delta_ns t :
  runs_at c f → 0 ≤ now → 0 < delta_ns → now + delta_ticks c delta_ns ≤ t →
  exact_ns c now + delta_ns ≤ exact_ns c t.
Proof.
  intros Hc Hn Hd Ht. destruct (delta_ticks_bounds c f delta_ns Hc Hd) as [[Hlo _] Hpos].
  destruct (runs_at_multiplier_pos c f Hc). destruct Hc as [_ Hf Hm Htm].
  set (d := delta_ticks c delta_ns) in *. set (m := time_multiplier c) in *.
  set (tm := time_ticks_multiplier c) in *.
  assert (Hgain : delta_ns * 2 ^ 32 ≤ d * m).
  { unfold KERNEL_TIME_NS_PER_SECOND in *.
    assert (delta_ns * (f * 2 ^ 32) ≤ d * 2 ^ 32 * 1000000000) by nia.
    assert (d * (1000000000 * 2 ^ 32) ≤ d * (m * f)) by nia.
    assert (delta_ns * 2 ^ 32 * f ≤ d * m * f) by lia. nia. }
  unfold exact_ns. fold m.
  transitivity ((now * m + delta_ns * 2 ^ 32) / 2 ^ 32).
  - rewrite Z.div_add by lia. lia.
  - apply Z.div_le_mono; nia.
Qed.

(** How far ahead of [now] the deadline lies in the wrapping counter. *)
Lemma deadline_value_ahead now ticks : is_u64 now → 1 ≤ ticks ≤ INT64_MAX →
  let d := deadline_value now ticks in
  d ≠ 0 ∧ is_u64 d ∧ (u64 (d - now) = ticks ∨ u64 (d - now) = ticks + 1 ∧ d = 1 ∧ now + ticks = 2 ^ 64).
Proof.
  intros Hnow Ht d. subst d. pose proof (u64_bounds (now + ticks)) as Hu.
  assert (Hmod : u64 (now + ticks) = now + ticks ∨ u64 (now + ticks) = now + ticks - 2 ^ 64).
  { unfold u64. destruct (decide (now + ticks ≤ UINT64_MAX)).
    - left. apply Z.mod_small. mlia.
    - right. rewrite <-(Z.mod_add _ (-1)) by done. rewrite Z.mod_small; mlia. }
  unfold deadline_value. set (d := u64 (now + ticks)) in *. clearbody d. case_decide as Hz.
  - assert (now + ticks = 2 ^ 64) by mlia. split; [done|]. split; [mlia|]. right. split; [|done].
    replace (1 - now) with (ticks + 1 + -1 * 18446744073709551616) by lia.
    unfold u64. rewrite Z.mod_add by done. apply Z.mod_small. mlia.
  - split; [done|]. split; [done|]. left. unfold u64. destruct Hmod as [-> | ->].
    + replace (now + ticks - now) with ticks by lia. apply Z.mod_small. mlia.
    + replace (now + ticks - 2 ^ 64 - now) with (ticks + -1 * 18446744073709551616) by lia.
      rewrite Z.mod_add by done. apply Z.mod_small. mlia.
Qed.
Lemma clamped_bounds ticks : 1 ≤ ticks → 1 ≤ clamped_ticks ticks ≤ INT64_MAX ∧ clamped_ticks ticks ≤ ticks ∧ (ticks ≤ INT64_MAX → clamped_ticks ticks = ticks) ∧ (INT64_MAX < ticks → clamped_ticks ticks = INT64_MAX).
Proof. intros Ht. unfold clamped_ticks. case_decide; mlia. Qed.

(** C37: what a deadline promises to a sleeper.  With the clock initialised and a
    place for the result, DEADLINE_PASSED is answered exactly when the requested
    time is not later than the clock; otherwise the answer is OK with a deadline
    that is never 0.  Its distance from the sample is taken modulo 2^64, so a
    wrapping counter is covered.  Never early: once that many ticks passed, at
    least the requested nanoseconds passed, unless the wait was longer than the
    2^63 - 1 ticks the scheduler can compare, and then that many ticks passed; when
    the wait was not cut and the counter and the nanoseconds still fit 64 bits,
    the clock shows at least the requested time.  Never late: the distance is less
    than two ticks more than the requested nanoseconds in ticks, up to the error
    of the coefficient. *)
Theorem deadline_never_early (c c' : clock) (f boot sample now target deadline : Z)
    (Hf : 1 ≤ f ≤ UINT32_MAX)
    (Hinit : kernel_time_init f boot sample c = (KERNEL_TIME_STATUS_OK, c'))
    (Hnow : is_u64 now) (Hplace : deadline ≠ 0) :
  let wait := target - kernel_time_monotonic_ns c' now in
  if decide (wait ≤ 0) then kernel_time_deadline_from_monotonic c' target deadline now = (KERNEL_TIME_STATUS_DEADLINE_PASSED, None)
  else ∃ d, kernel_time_deadline_from_monotonic c' target deadline now = (KERNEL_TIME_STATUS_OK, Some d) ∧ d ≠ 0 ∧ is_u64 d ∧
    (∀ passed, u64 (d - now) ≤ passed →
       (exact_ns c' now + wait ≤ exact_ns c' (now + passed) ∨ INT64_MAX < delta_ticks c' wait ∧ INT64_MAX ≤ passed) ∧
       (delta_ticks c' wait ≤ INT64_MAX → exact_ns c' (now + passed) ≤ UINT64_MAX → target ≤ kernel_time_monotonic_ns c' (now + passed))) ∧
    (u64 (d - now) - 2) * (2 ^ 32 * KERNEL_TIME_NS_PER_SECOND) < wait * (f * 2 ^ 32 + KERNEL_TIME_NS_PER_SECOND).
Proof.
  intros wait. pose proof (init_runs_at f boot sample c c' Hf Hinit) as Hc. unfold kernel_time_deadline_from_monotonic.
  rewrite (decide_False (P := deadline = 0)), (ra_initialized _ _ Hc) by done. fold (kernel_time_monotonic_ns c' now).
  case_decide as Hp; [by rewrite decide_True by lia|]. rewrite decide_False by lia. fold wait.
  destruct (delta_ticks_bounds c' f wait Hc ltac:(lia)) as [[Hlo Hhi] Hpos]. destruct (clamped_bounds _ Hpos) as (Hcl & Hle & Hsmall & Hbig).
  destruct (deadline_value_ahead now _ Hnow Hcl) as (Hd0 & Hd & Hdist). eexists. split; [done|]. split; [done|]. split; [done|].
  set (d := deadline_value _ _) in *. set (ticks := delta_ticks c' wait) in *. assert (Hahead : clamped_ticks ticks ≤ u64 (d - now) ≤ clamped_ticks ticks + 1) by lia. split.
  - intros passed Hpassed. assert (Hfull : ticks ≤ INT64_MAX → exact_ns c' now + wait ≤ exact_ns c' (now + passed)).
    { intros Hcut. rewrite (Hsmall Hcut) in Hahead. apply (deadline_reached c' f); [done|mlia|lia|unfold ticks in *; lia]. }
    split.
    + destruct (decide (ticks ≤ INT64_MAX)) as [Hcut|Hcut]; [left; by apply Hfull|right]. rewrite Hbig in Hahead by lia. lia.
    + intros Hcut Hfits. specialize (Hfull Hcut). pose proof (exact_ns_nonneg c' f now Hc ltac:(mlia)). pose proof (exact_ns_mono c' f now (now + passed) Hc ltac:(lia)).
      unfold wait, kernel_time_monotonic_ns in *. rewrite ticks_to_ns_exact in *. rewrite (u64_small (exact_ns c' now)) in * by mlia. rewrite u64_small by mlia. lia.
  - destruct Hc as [_ _ _ [_ Htm]]. unfold KERNEL_TIME_NS_PER_SECOND in *. nia.
Qed.

Definition demo_clock : clock := (kernel_time_init 10000000 0 5 clock_zero).2.
Lemma deadline_never_early_witness : 1000000 ≤ kernel_time_monotonic_ns demo_clock 10001.
Proof.
  pose proof (deadline_never_early clock_zero demo_clock 10000000 0 5 100 1000000 8 ltac:(mlia) ltac:(vm_compute; reflexivity) ltac:(mlia) ltac:(done)) as H.
  rewrite decide_False in H by by_decide. destruct H as (d & E & _ & _ & Hpassed & _).
  assert (d = 10001) as -> by (vm_compute in E; congruence).
  apply (proj2 (Hpassed 9901 ltac:(by_decide))); by_decide.
Defined.

(** The scheduler compares signed distances: a deadline lies ahead by at most
    2^63, modulo 2^64, and by exactly 2^63, which it would take for the past, only
    when the wait was cut and the sum wrapped to 0. *)
Theorem deadline_distance (c : clock) (f target deadline now d : Z)
    (Hc : runs_at c f) (Hnow : is_u64 now)
    (Hdead : kernel_time_deadline_from_monotonic c target deadline now = (KERNEL_TIME_STATUS_OK, Some d)) :
  1 ≤ u64 (d - now) ≤ 2 ^ 63 ∧ (u64 (d - now) = 2 ^ 63 → now = 2 ^ 63 + 1 ∧ d = 1).
Proof.
  revert Hdead. unfold kernel_time_deadline_from_monotonic. rewrite (ra_initialized _ _ Hc). case_decide; [done|]. case_decide as Hp; [done|]. intros [= <-].
  destruct (delta_ticks_bounds c f (target - kernel_time_ticks_to_ns c now) Hc ltac:(lia)) as [_ Hpos]. destruct (clamped_bounds _ Hpos) as (Hcl & _).
  destruct (deadline_value_ahead now _ Hnow Hcl) as (_ & _ & Hdist). mlia.
Qed.
Lemma deadline_distance_witness :
  ∃ d, kernel_time_deadline_from_monotonic demo_clock 1000000 8 100 =
    (KERNEL_TIME_STATUS_OK, Some d) ∧ 1 ≤ u64 (d - 100) ≤ 2 ^ 63.
Proof.
  exists 10001. split; [reflexivity|].
  assert (Hc : runs_at demo_clock 10000000) by (by apply (init_runs_at _ 0 5 clock_zero); [mlia|]).
  by destruct (deadline_distance demo_clock 10000000 1000000 8 100 10001 Hc ltac:(mlia) eq_refl).
Defined.
