(* ===== verification/SchedPolicy.v ===== *)
(** * Scheduling policies and real-time bandwidth ([kernel/sched/policy.c]) *)
From S2P Require Import Prelude.
#[local] Open Scope Z_scope.

Module SchedPolicy.

Definition KERNEL_EINVAL : Z := 22.
Definition KERNEL_SCHED_OTHER : Z := 0.
Definition KERNEL_SCHED_FIFO : Z := 1.
Definition KERNEL_SCHED_RR : Z := 2.
Definition KERNEL_SCHED_RESET_ON_FORK : Z := 1073741824.
Definition KERNEL_SCHED_RR_NS : Z := 100000000.

Record kernel_sched_policy := mk_policy {
  policy : Z;
  priority : Z;
  reset_on_fork : bool;
  rr_remaining_ns : Z;
}.

(** [int] results are 0 or a negated errno; the state is the new [*state]. *)
Definition kernel_sched_policy_set (state : kernel_sched_policy)
    (pol prio : Z) (keep_policy : bool) : Z * kernel_sched_policy :=
  let reset := if keep_policy then state.(reset_on_fork)
               else bool_decide (Z.land pol KERNEL_SCHED_RESET_ON_FORK ≠ 0) in
  let pol := if keep_policy then state.(policy)
             else Z.land pol (Z.lnot KERNEL_SCHED_RESET_ON_FORK) in
  if decide (pol ≠ KERNEL_SCHED_OTHER ∧ pol ≠ KERNEL_SCHED_FIFO ∧ pol ≠ KERNEL_SCHED_RR)
  then (- KERNEL_EINVAL, state)
  else if decide (prio < 0 ∨ 99 < prio ∨
                  bool_decide (pol = KERNEL_SCHED_OTHER) ≠ bool_decide (prio = 0))
  then (- KERNEL_EINVAL, state)
  else
    let remaining := if decide (state.(rr_remaining_ns) = 0 ∧ pol = KERNEL_SCHED_RR)
                     then KERNEL_SCHED_RR_NS else state.(rr_remaining_ns) in
    (0, mk_policy pol prio reset remaining).

Definition kernel_sched_policy_fork (parent : kernel_sched_policy) : kernel_sched_policy :=
  if parent.(reset_on_fork)
  then mk_policy KERNEL_SCHED_OTHER 0 false KERNEL_SCHED_RR_NS
  else mk_policy parent.(policy) parent.(priority) parent.(reset_on_fork) KERNEL_SCHED_RR_NS.

Definition with_remaining (state : kernel_sched_policy) (ns : Z) : kernel_sched_policy :=
  mk_policy state.(policy) state.(priority) state.(reset_on_fork) ns.

Definition kernel_sched_policy_charge (state : kernel_sched_policy) (delta_ns : Z)
    : kernel_sched_policy :=
  if decide (state.(policy) ≠ KERNEL_SCHED_RR) then state
  else with_remaining state
         (if decide (state.(rr_remaining_ns) ≤ delta_ns) then 0
          else state.(rr_remaining_ns) - delta_ns).

Definition kernel_sched_policy_rotate (state : kernel_sched_policy) : kernel_sched_policy :=
  if decide (state.(policy) = KERNEL_SCHED_RR) then with_remaining state KERNEL_SCHED_RR_NS
  else state.

Definition kernel_sched_policy_expired (state : kernel_sched_policy) : bool :=
  bool_decide (state.(policy) = KERNEL_SCHED_RR ∧ state.(rr_remaining_ns) = 0).

Record kernel_rt_bandwidth := mk_bandwidth {
  period_ns : Z;
  period_start_ns : Z;
  consumed_ns : Z;
  last_account_ns : Z;
  runtime_ns : Z;
}.

Definition kernel_rt_bandwidth_init (now_ns : Z) : kernel_rt_bandwidth :=
  mk_bandwidth 1000000000 now_ns 0 now_ns 950000000.

Definition kernel_rt_bandwidth_account (state : kernel_rt_bandwidth) (now_ns : Z)
    (running_rt : bool) : outcome kernel_rt_bandwidth :=
  _ ← trap_if (now_ns < state.(last_account_ns));
  let delta := u64 (now_ns - state.(last_account_ns)) in
  let since_start := u64 (now_ns - state.(period_start_ns)) in
  let '(start, consumed, delta) :=
    if decide (state.(period_ns) ≤ since_start) then
      let start := u64 (now_ns - since_start mod state.(period_ns)) in
      (start, 0,
       if decide (state.(last_account_ns) < start) then u64 (now_ns - start) else delta)
    else (state.(period_start_ns), state.(consumed_ns), delta) in
  let consumed :=
    if running_rt then
      (if decide (UINT64_MAX - consumed < delta) then UINT64_MAX else consumed + delta)
    else consumed in
  Done (mk_bandwidth state.(period_ns) start consumed now_ns state.(runtime_ns)).

Definition kernel_rt_bandwidth_eligible (state : kernel_rt_bandwidth) : bool :=
  bool_decide (state.(runtime_ns) < 0 ∨ state.(consumed_ns) < u64 state.(runtime_ns)).

Definition kernel_rt_bandwidth_set (state : kernel_rt_bandwidth) (runtime_field : bool)
    (value_us now_ns : Z) (running_rt : bool) : outcome (Z * kernel_rt_bandwidth) :=
  state ← kernel_rt_bandwidth_account state now_ns running_rt;
  if decide ((runtime_field = true ∧ value_us < -1) ∨
             (runtime_field = false ∧ value_us ≤ 0) ∨ INT32_MAX < value_us)
  then Done (- KERNEL_EINVAL, state)
  else
    let period := if runtime_field then state.(period_ns) else u64 (value_us * 1000) in
    let runtime := if runtime_field
                   then (if decide (value_us < 0) then -1 else value_us * 1000)
                   else state.(runtime_ns) in
    if decide (0 ≤ runtime ∧ period < runtime) then Done (- KERNEL_EINVAL, state)
    else
      let start := if decide (period ≠ state.(period_ns)) then now_ns
                   else state.(period_start_ns) in
      Done (0, mk_bandwidth period start state.(consumed_ns) state.(last_account_ns) runtime).

Definition kernel_rt_bandwidth_delay (state : kernel_rt_bandwidth)
    (running_rt queued_rt : bool) : Z :=
  if decide (state.(runtime_ns) ≤ 0) then 0
  else
    let period_left := u64 (state.(period_ns) -
                            u64 (state.(last_account_ns) - state.(period_start_ns))) in
    if negb (kernel_rt_bandwidth_eligible state) then
      (if queued_rt || running_rt then period_left else 0)
    else if negb running_rt then 0
    else
      let budget_left := u64 (u64 state.(runtime_ns) - state.(consumed_ns)) in
      if decide (budget_left < period_left) then budget_left else period_left.

End SchedPolicy.
