(* ===== verification/SchedPolicyTheory.v ===== *)
(** * Correctness of scheduling policies and real-time bandwidth
    ([kernel/sched/policy.c]) *)
From S2P Require Import Prelude SchedPolicy.
#[local] Open Scope Z_scope.
Import SchedPolicy.

(** ** Policies *)

(** A policy a task can have: the priority is nonzero exactly for the
    real-time classes, and a round-robin task has a slice. *)
Record policy_ok (s : kernel_sched_policy) : Prop := {
  po_policy : s.(policy) = KERNEL_SCHED_OTHER ∨ s.(policy) = KERNEL_SCHED_FIFO ∨
              s.(policy) = KERNEL_SCHED_RR;
  po_priority : 0 ≤ s.(priority) ≤ 99;
  po_class : s.(policy) = KERNEL_SCHED_OTHER ↔ s.(priority) = 0;
  po_slice : 0 ≤ s.(rr_remaining_ns) ≤ KERNEL_SCHED_RR_NS;
}.

Inductive policy_op :=
  | Op_set (pol prio : Z) (keep : bool)
  | Op_fork
  | Op_charge (delta : Z)
  | Op_rotate.
Definition run_policy_op (op : policy_op) (s : kernel_sched_policy) : kernel_sched_policy :=
  match op with
  | Op_set pol prio keep => (kernel_sched_policy_set s pol prio keep).2
  | Op_fork => kernel_sched_policy_fork s
  | Op_charge delta => kernel_sched_policy_charge s delta
  | Op_rotate => kernel_sched_policy_rotate s
  end.
Definition op_typed (op : policy_op) : Prop :=
  match op with Op_charge delta => is_u64 delta | _ => True end.

Lemma policy_set_cases s pol prio keep :
  policy_ok s →
  let '(r, s') := kernel_sched_policy_set s pol prio keep in
  policy_ok s' ∧ (r = - KERNEL_EINVAL ∧ s' = s ∨ r = 0 ∧ s'.(priority) = prio).
Proof.
  intros Hs. unfold kernel_sched_policy_set.
  set (reset := if keep then _ else bool_decide _).
  set (p := if keep then policy s else _). case_decide as Hp; [by auto|].
  case_decide as Hr; [by auto|]. split; [|by auto].
  assert (Hpol : p = KERNEL_SCHED_OTHER ∨ p = KERNEL_SCHED_FIFO ∨ p = KERNEL_SCHED_RR).
  { destruct (decide (p = KERNEL_SCHED_OTHER)), (decide (p = KERNEL_SCHED_FIFO)),
      (decide (p = KERNEL_SCHED_RR)); tauto. }
  assert (Hcls : p = KERNEL_SCHED_OTHER ↔ prio = 0).
  { assert (He : bool_decide (p = KERNEL_SCHED_OTHER) = bool_decide (prio = 0))
      by (apply dec_stable; tauto).
    revert He. do 2 case_bool_decide; by try split. }
  pose proof (po_slice _ Hs).
  split; cbn [policy priority rr_remaining_ns]; [done|lia|done|].
  unfold KERNEL_SCHED_RR_NS in *.
  destruct (decide (rr_remaining_ns s = 0 ∧ p = KERNEL_SCHED_RR)); lia.
Qed.

(** scheduling parameters stay meaningful.  Whatever sequence of
    [sched_setscheduler] requests, forks, clock charges and rotations a task
    goes through, its policy is one of the three supported ones, its priority is
    in 0..99 and nonzero exactly for real-time policies, and its round-robin
    slice is between 0 and the full slice. *)
Theorem policy_invariant (ops : list policy_op) (s : kernel_sched_policy)
    (Hs : policy_ok s) (Htyped : Forall op_typed ops) :
  policy_ok (foldl (λ s op, run_policy_op op s) s ops).
Proof.
  revert s Hs. induction Htyped as [|op ops Hop _ IH]; intros s Hs; [done|]. simpl. apply IH.
  destruct op as [pol prio keep| |delta|]; simpl in *.
  - pose proof (policy_set_cases s pol prio keep Hs) as Hc.
    destruct (kernel_sched_policy_set s pol prio keep). apply Hc.
  - destruct Hs as [? ? ? ?]. unfold kernel_sched_policy_fork.
    destruct (reset_on_fork s); split; simpl; (done || (unfold KERNEL_SCHED_RR_NS; lia) || tauto).
  - destruct Hs as [? ? ? ?]. unfold kernel_sched_policy_charge. case_decide; [by split|].
    split; simpl; try done. case_decide; unfold KERNEL_SCHED_RR_NS in *; mlia.
  - destruct Hs as [? ? ? ?]. unfold kernel_sched_policy_rotate. case_decide; [|by split].
    split; simpl; try done.
Qed.
Definition demo_policy : kernel_sched_policy := mk_policy 0 0 false KERNEL_SCHED_RR_NS.
Lemma policy_invariant_witness :
  policy_ok (foldl (λ s op, run_policy_op op s) demo_policy
    [Op_set 2 10 false; Op_charge 40000000; Op_fork; Op_set 7 7 false]).
Proof.
  apply policy_invariant.
  - split; simpl; [by left|lia|done|unfold KERNEL_SCHED_RR_NS; lia].
  - repeat constructor; simpl; mlia.
Defined.

(** ** Real-time bandwidth *)

(** The accounting window: [last_account_ns] is inside the current period. *)
Record bandwidth_ok (s : kernel_rt_bandwidth) : Prop := {
  bo_period : 0 < s.(period_ns) ≤ UINT64_MAX;
  bo_start : 0 ≤ s.(period_start_ns) ≤ s.(last_account_ns);
  bo_last : s.(last_account_ns) ≤ UINT64_MAX;
  bo_window : s.(last_account_ns) - s.(period_start_ns) < s.(period_ns);
  bo_consumed : is_u64 s.(consumed_ns);
  bo_runtime : -1 ≤ s.(runtime_ns) ≤ INT64_MAX ∧ s.(runtime_ns) ≤ s.(period_ns);
}.

Lemma account_in_period s now running :
  bandwidth_ok s → s.(last_account_ns) ≤ now → now ≤ UINT64_MAX →
  now - s.(period_start_ns) < s.(period_ns) →
  kernel_rt_bandwidth_account s now running = Done (mk_bandwidth s.(period_ns) s.(period_start_ns)
    (if running then Z.min UINT64_MAX (s.(consumed_ns) + (now - s.(last_account_ns)))
     else s.(consumed_ns)) now s.(runtime_ns)).
Proof.
  intros [Hp Hs Hl Hw Hc Hr] Hn Hmax Hin. unfold kernel_rt_bandwidth_account.
  rewrite trap_if_ok by lia. run.
  rewrite (u64_small (now - last_account_ns s)), (u64_small (now - period_start_ns s)) by mlia.
  rewrite (decide_False (P := period_ns s ≤ _)) by lia. do 2 f_equal. destruct running; [|done].
  case_decide; mlia.
Qed.

(** Past the period, the window restarts at the last multiple of the period. *)
Lemma account_new_period s now running :
  bandwidth_ok s → s.(last_account_ns) ≤ now → now ≤ UINT64_MAX →
  s.(period_ns) ≤ now - s.(period_start_ns) →
  ∃ start, kernel_rt_bandwidth_account s now running = Done (mk_bandwidth s.(period_ns) start
      (if running then now - Z.max start s.(last_account_ns) else 0) now s.(runtime_ns)) ∧
    s.(period_start_ns) < start ≤ now ∧ now - start < s.(period_ns) ∧
    (start - s.(period_start_ns)) mod s.(period_ns) = 0.
Proof.
  intros [Hp Hs Hl Hw Hc Hr] Hn Hmax Hout. unfold kernel_rt_bandwidth_account.
  rewrite trap_if_ok by lia. run.
  rewrite (u64_small (now - last_account_ns s)), (u64_small (now - period_start_ns s)) by mlia.
  rewrite (decide_True (P := period_ns s ≤ _)) by lia.
  pose proof (Z.mod_pos_bound (now - period_start_ns s) (period_ns s) ltac:(lia)) as Hm.
  pose proof (Z.div_mod (now - period_start_ns s) (period_ns s) ltac:(lia)) as Hdm.
  pose proof (Z.div_le_lower_bound (now - period_start_ns s) (period_ns s) 1 ltac:(lia) ltac:(lia)) as Hq.
  set (r := (now - period_start_ns s) mod period_ns s) in *.
  set (q := (now - period_start_ns s) / period_ns s) in *.
  rewrite (u64_small (now - r)) by mlia. exists (now - r). split.
  - do 2 f_equal. destruct running; [|done].
    destruct (decide (last_account_ns s < now - r));
      [rewrite (u64_small (now - (now - r))) by mlia|]; rewrite decide_False by mlia; lia.
  - split_and!; [nia|lia|lia|].
    replace (now - r - period_start_ns s) with (q * period_ns s) by lia. by apply Z.mod_mul; lia.
Qed.

Lemma account_ok s now running :
  bandwidth_ok s → s.(last_account_ns) ≤ now → now ≤ UINT64_MAX →
  ∃ s', kernel_rt_bandwidth_account s now running = Done s' ∧ bandwidth_ok s' ∧
    s'.(last_account_ns) = now ∧ s'.(period_ns) = s.(period_ns) ∧ s'.(runtime_ns) = s.(runtime_ns).
Proof.
  intros Hok Hn Hmax. pose proof Hok as [Hp Hs Hl Hw Hc Hr].
  destruct (decide (s.(period_ns) ≤ now - s.(period_start_ns))) as [Hout|Hin].
  - destruct (account_new_period s now running Hok Hn Hmax Hout) as (start & -> & ? & ? & _).
    eexists. split; [done|]. split_and!; try done. split; simpl; try (done || lia).
    destruct running; mlia.
  - rewrite account_in_period by (done || lia). eexists. split; [done|]. split_and!; try done.
    split; simpl; try (done || lia). destruct running; [mlia|done].
Qed.

Lemma eligible_iff s :
  0 < s.(runtime_ns) ≤ INT64_MAX →
  kernel_rt_bandwidth_eligible s = bool_decide (s.(consumed_ns) < s.(runtime_ns)).
Proof.
  intros Hr. unfold kernel_rt_bandwidth_eligible. apply bool_decide_ext.
  rewrite u64_small by mlia. lia.
Qed.

(** What is left of the period at the last accounting. *)
Definition period_left (s : kernel_rt_bandwidth) : Z :=
  s.(period_ns) - (s.(last_account_ns) - s.(period_start_ns)).
Lemma delay_cases s running queued :
  bandwidth_ok s → 0 < s.(runtime_ns) →
  kernel_rt_bandwidth_delay s running queued =
    if kernel_rt_bandwidth_eligible s then
      (if running then Z.min (s.(runtime_ns) - s.(consumed_ns)) (period_left s) else 0)
    else if queued || running then period_left s else 0.
Proof.
  intros [Hp Hs Hl Hw Hc Hr] Hb. unfold kernel_rt_bandwidth_delay, period_left.
  rewrite (decide_False (P := runtime_ns s ≤ 0)) by lia.
  rewrite (u64_small (last_account_ns s - period_start_ns s)) by mlia.
  rewrite (u64_small (period_ns s - _)) by mlia.
  destruct (kernel_rt_bandwidth_eligible s) eqn:He; [|done]. cbn [negb].
  rewrite eligible_iff in He by lia. apply bool_decide_eq_true in He.
  destruct running; [|done]. cbn [negb].
  rewrite (u64_small (runtime_ns s)) by mlia.
  rewrite (u64_small (runtime_ns s - consumed_ns s)) by mlia. case_decide; lia.
Qed.
(** Accounting keeps the limit, and unlimited and forbidden classes as they are. *)
Lemma account_unbudgeted s now running : bandwidth_ok s → s.(last_account_ns) ≤ now → now ≤ UINT64_MAX → s.(runtime_ns) ≤ 0 →
  ∃ s', kernel_rt_bandwidth_account s now running = Done s' ∧ kernel_rt_bandwidth_eligible s' = bool_decide (s.(runtime_ns) < 0).
Proof.
  intros Hok Hn Hmax Hr. destruct (account_ok s now running Hok Hn Hmax) as (s' & E & Hok' & _ & _ & Er). exists s'. split; [done|].
  unfold kernel_rt_bandwidth_eligible. apply bool_decide_ext. rewrite Er. split; [intros [?|Hc]; [done|]|by left].
  destruct (decide (s.(runtime_ns) < 0)); [done|]. assert (s.(runtime_ns) = 0) as E0 by lia. rewrite E0 in Hc. change (u64 0) with 0 in Hc. pose proof (bo_consumed _ Hok'). mlia.
Qed.

(** C36: the reported delay is when real-time throttling changes.  [later r] is the
    state [elapsed] after the last accounting, with real-time work all the time
    or none.  Without a limit (negative runtime) the class is always eligible and
    with runtime 0 never, and the delay is 0.  With a budget: an eligible class at
    work stays eligible until the delay, and then it is throttled or a new period
    began; an eligible idle class has no delay; a throttled class that runs or is
    queued stays throttled until the delay, whatever runs, and is eligible
    when it has passed, and at any later time if nothing real-time ran;
    a throttled class with nothing to run has no delay. *)
Theorem rt_delay_exact (s : kernel_rt_bandwidth) (running queued : bool) (elapsed : Z)
    (Hok : bandwidth_ok s) (Helapsed : 0 ≤ elapsed) (Hfits : s.(last_account_ns) + elapsed ≤ UINT64_MAX) :
  let delay := kernel_rt_bandwidth_delay s running queued in
  let later r P := ∃ s', kernel_rt_bandwidth_account s (s.(last_account_ns) + elapsed) r = Done s' ∧ P s' in
  let throttled s' := kernel_rt_bandwidth_eligible s' = false in
  let eligible s' := kernel_rt_bandwidth_eligible s' = true in
  if decide (s.(runtime_ns) < 0) then delay = 0 ∧ ∀ r, later r eligible
  else if decide (s.(runtime_ns) = 0) then delay = 0 ∧ ∀ r, later r throttled
  else if kernel_rt_bandwidth_eligible s then
    if running then 0 < delay ∧ (elapsed < delay → later true eligible) ∧
      (elapsed = delay → later true (λ s', throttled s' ∨ s'.(period_start_ns) = s'.(last_account_ns)))
    else delay = 0
  else
    if queued || running then 0 < delay ∧ (elapsed < delay → ∀ r, later r throttled) ∧
      (elapsed = delay → ∀ r, later r eligible) ∧ (delay ≤ elapsed → later false eligible)
    else delay = 0.
Proof.
  intros delay later throttled eligible. subst delay later throttled eligible. cbv beta. pose proof Hok as [Hp Hs Hl Hw Hc Hr].
  destruct (decide (s.(runtime_ns) < 0)) as [Hneg|Hneg]; [|destruct (decide (s.(runtime_ns) = 0)) as [Hz|Hz]].
  1, 2: (split; [unfold kernel_rt_bandwidth_delay; by rewrite decide_True by lia|]; intros r;
    destruct (account_unbudgeted s (s.(last_account_ns) + elapsed) r Hok ltac:(lia) Hfits ltac:(lia)) as (s' & E & He); exists s'; split; [done|]; rewrite He; by case_bool_decide).
  rewrite delay_cases by (done || lia). unfold period_left. rewrite (eligible_iff s) by lia. destruct (bool_decide _) eqn:He.
  - apply bool_decide_eq_true in He. destruct running; [|done]. split; [lia|]. split.
    + intros Hlt. rewrite account_in_period by (done || lia). eexists. split; [done|]. rewrite eligible_iff by (simpl; lia). apply bool_decide_eq_true. simpl. lia.
    + intros Heq. destruct (decide (s.(last_account_ns) + elapsed - s.(period_start_ns) < s.(period_ns))) as [Hin|Hout].
      * rewrite account_in_period by (done || lia). eexists. split; [done|]. left. rewrite eligible_iff by (simpl; lia). apply bool_decide_eq_false. simpl. mlia.
      * destruct (account_new_period s (s.(last_account_ns) + elapsed) true Hok) as (start & -> & Hst & Hin & Hmod); [lia|lia|lia|]. eexists. split; [done|]. right. simpl.
        apply Z.mod_divide in Hmod as [k Hk]; [|lia]. assert (k = 1) by nia. lia.
  - apply bool_decide_eq_false in He. destruct (queued || running); [|done]. split; [lia|]. split_and!.
    + intros Hlt r. rewrite account_in_period by (done || lia). eexists. split; [done|]. rewrite eligible_iff by (simpl; lia). apply bool_decide_eq_false. simpl. destruct r; mlia.
    + intros Heq r. destruct (account_new_period s (s.(last_account_ns) + elapsed) r Hok) as (start & -> & Hst & Hin & Hmod); [lia|lia|lia|]. eexists. split; [done|].
      rewrite eligible_iff by (simpl; lia). apply bool_decide_eq_true. simpl. apply Z.mod_divide in Hmod as [k Hk]; [|lia]. assert (k = 1) by nia. destruct r; lia.
    + intros Hge. destruct (account_new_period s (s.(last_account_ns) + elapsed) false Hok) as (start & -> & _); [lia|lia|lia|].
      eexists. split; [done|]. rewrite eligible_iff by (simpl; lia). apply bool_decide_eq_true. simpl. lia.
Qed.

Definition demo_throttled : kernel_rt_bandwidth :=
  mk_bandwidth 1000000000 5000 950000000 950005000 950000000.
Lemma rt_delay_exact_witness :
  kernel_rt_bandwidth_delay demo_throttled false true = 50000000 ∧
  ∃ s', kernel_rt_bandwidth_account demo_throttled (950005000 + 50000000) false = Done s' ∧
    kernel_rt_bandwidth_eligible s' = true.
Proof.
  split; [reflexivity|].
  assert (Hok : bandwidth_ok demo_throttled) by (split; simpl; mlia).
  pose proof (rt_delay_exact demo_throttled false true 50000000 Hok ltac:(lia) ltac:(simpl; mlia)) as H.
  apply (proj2 (proj2 (proj2 H))). vm_compute. discriminate.
Defined.

(** ** Reconfiguration *)

Inductive bandwidth_op :=
  | Op_account (now : Z) (running : bool)
  | Op_configure (runtime_field : bool) (value_us now : Z) (running : bool).
Definition op_time (op : bandwidth_op) : Z :=
  match op with Op_account now _ | Op_configure _ _ now _ => now end.
Definition run_bandwidth_op (s : kernel_rt_bandwidth) (op : bandwidth_op)
    : outcome kernel_rt_bandwidth :=
  match op with
  | Op_account now running => kernel_rt_bandwidth_account s now running
  | Op_configure field value now running =>
      '(_, s') ← kernel_rt_bandwidth_set s field value now running; Done s'
  end.
Fixpoint run_bandwidth_ops (s : kernel_rt_bandwidth) (ops : list bandwidth_op)
    : outcome kernel_rt_bandwidth :=
  match ops with
  | [] => Done s
  | op :: ops' => s' ← run_bandwidth_op s op; run_bandwidth_ops s' ops'
  end.

Lemma set_ok s field value now running :
  bandwidth_ok s → s.(last_account_ns) ≤ now ≤ UINT64_MAX →
  ∃ r s', kernel_rt_bandwidth_set s field value now running = Done (r, s') ∧
    bandwidth_ok s' ∧ s'.(last_account_ns) = now.
Proof.
  intros Hok Hn. unfold kernel_rt_bandwidth_set.
  destruct (account_ok s now running Hok ltac:(lia) ltac:(lia)) as (s1 & -> & Hok1 & Hl1 & _). run.
  pose proof Hok1 as [Hp Hs Hl Hw Hc Hr]. case_decide as Hv; [by eexists _, _|].
  set (period := if field then _ else u64 _). set (runtime := if field then _ else _).
  destruct (decide (0 ≤ runtime ∧ period < runtime)) as [|Hle]; [by eexists _, _|].
  eexists _, _. split; [done|]. split; [|done].
  assert (Hperiod : 0 < period ≤ UINT64_MAX).
  { unfold period. destruct field; [done|]. rewrite u64_small by mlia. mlia. }
  assert (Hruntime : -1 ≤ runtime ≤ INT64_MAX).
  { unfold runtime. destruct field; [case_decide; mlia|lia]. }
  split; cbn [period_ns period_start_ns consumed_ns last_account_ns runtime_ns];
    [done| | | |done|lia]; destruct (decide (period ≠ period_ns s1)); lia.
Qed.

(** the bandwidth state stays consistent under any interleaving of clock
    accounting and reconfiguration with nondecreasing times: nothing traps, the
    last accounting stays inside the current period, and a finite runtime never
    exceeds the period. *)
Theorem bandwidth_invariant (ops : list bandwidth_op) (s : kernel_rt_bandwidth)
    (Hok : bandwidth_ok s)
    (Htimes : StronglySorted Z.le (s.(last_account_ns) :: map op_time ops))
    (Hmax : Forall (λ op, op_time op ≤ UINT64_MAX) ops) :
  ∃ s', run_bandwidth_ops s ops = Done s' ∧ bandwidth_ok s'.
Proof.
  revert s Hok Htimes. induction Hmax as [|op ops Hop _ IH]; intros s Hok Htimes; [by exists s|].
  simpl in Htimes. apply StronglySorted_cons in Htimes as [[Hle _]%Forall_cons Htimes].
  assert (Hstep : ∃ s1, run_bandwidth_op s op = Done s1 ∧ bandwidth_ok s1 ∧
    s1.(last_account_ns) = op_time op).
  { destruct op as [now running|field value now running]; simpl in *.
    - destruct (account_ok s now running Hok Hle Hop) as (s1 & ? & ? & ? & _). eauto.
    - destruct (set_ok s field value now running Hok ltac:(lia)) as (r & s1 & -> & ? & ?). eauto. }
  destruct Hstep as (s1 & E & Hok1 & Hl1). simpl. rewrite E. run. apply IH; [done|]. by rewrite Hl1.
Qed.
Lemma bandwidth_invariant_witness :
  ∃ s', run_bandwidth_ops (kernel_rt_bandwidth_init 7)
    [Op_account 1000 true; Op_configure true 500000 2000 false; Op_configure false 2000000 3000 true;
     Op_account 9000000000 true] = Done s' ∧ bandwidth_ok s'.
Proof.
  apply bandwidth_invariant.
  - split; simpl; mlia.
  - repeat constructor; simpl; lia.
  - repeat constructor; simpl; mlia.
Defined.
