(* ===== verification/Runqueue.v ===== *)
(** * The scheduler's run queue ([kernel/sched/runqueue.c])

    Nodes live in memory at non-zero addresses; the queue threads them into one
    doubly linked list with a head and a tail pointer per priority. *)
From S2P Require Import Prelude.
#[local] Open Scope Z_scope.

Module Runqueue.

Record kernel_sched_node := mk_node {
  next : Z;
  previous : Z;
  owner : Z;
  priority : Z;
  queued : bool;
}.

Record kernel_sched_runqueue := mk_queue {
  first : Z;
  last : Z;
  heads : list Z;
  tails : list Z;
  boosted : Z;
}.

(** The queue and the memory its nodes live in. *)
Record memory := mk_memory {
  queue : kernel_sched_runqueue;
  nodes : gmap Z kernel_sched_node;
}.

Definition load (m : memory) (p : Z) : outcome kernel_sched_node :=
  match m.(nodes) !! p with Some n => Done n | None => Fault Out_of_bounds end.
Definition set_nodes (m : memory) (ns : gmap Z kernel_sched_node) : memory :=
  mk_memory m.(queue) ns.
Definition set_queue (m : memory) (q : kernel_sched_runqueue) : memory :=
  mk_memory q m.(nodes).
Definition set_first (m : memory) (p : Z) : memory :=
  set_queue m (mk_queue p m.(queue).(last) m.(queue).(heads) m.(queue).(tails)
    m.(queue).(boosted)).
Definition set_last (m : memory) (p : Z) : memory :=
  set_queue m (mk_queue m.(queue).(first) p m.(queue).(heads) m.(queue).(tails)
    m.(queue).(boosted)).
Definition set_heads (m : memory) (l : list Z) : memory :=
  set_queue m (mk_queue m.(queue).(first) m.(queue).(last) l m.(queue).(tails)
    m.(queue).(boosted)).
Definition set_tails (m : memory) (l : list Z) : memory :=
  set_queue m (mk_queue m.(queue).(first) m.(queue).(last) m.(queue).(heads) l
    m.(queue).(boosted)).
Definition with_next (n : kernel_sched_node) (p : Z) : kernel_sched_node :=
  mk_node p n.(previous) n.(owner) n.(priority) n.(queued).
Definition with_previous (n : kernel_sched_node) (p : Z) : kernel_sched_node :=
  mk_node n.(next) p n.(owner) n.(priority) n.(queued).

(** [at->next = p;] and [at->previous = p;]. *)
Definition store_next (m : memory) (at_ p : Z) : outcome memory :=
  n ← load m at_; Done (set_nodes m (<[at_ := with_next n p]> m.(nodes))).
Definition store_previous (m : memory) (at_ p : Z) : outcome memory :=
  n ← load m at_; Done (set_nodes m (<[at_ := with_previous n p]> m.(nodes))).

(** The scan over the next higher priorities: [count] is [100 - p]. *)
Fixpoint nearest_tail (tails : list Z) (p count : nat) : outcome Z :=
  match count with
  | O => Done 0
  | S count' =>
      t ← aread tails p;
      if decide (t ≠ 0) then Done t else nearest_tail tails (S p) count'
  end.

(** Where a node of [priority] goes: the pair (previous, next). *)
Definition enqueue_position (m : memory) (prio : Z) (at_head : bool) : outcome (Z * Z) :=
  let q := m.(queue) in
  head ← aread q.(heads) (Z.to_nat prio);
  if decide (head ≠ 0) then
    if at_head then
      n ← load m head;
      Done (n.(previous), head)
    else
      tail ← aread q.(tails) (Z.to_nat prio);
      n ← load m tail;
      Done (tail, n.(next))
  else
    beyond ← (if decide (q.(last) = 0) then Done true
              else n ← load m q.(last); Done (bool_decide (prio < n.(priority))));
    if (beyond : bool) then Done (q.(last), 0)
    else
      prev ← nearest_tail q.(tails) (S (Z.to_nat prio)) (99 - Z.to_nat prio);
      if decide (prev ≠ 0) then n ← load m prev; Done (prev, n.(next))
      else Done (prev, q.(first)).

Definition kernel_sched_enqueue (m : memory) (node own prio : Z) (at_head : bool)
    : outcome memory :=
  _ ← trap_if (node = 0);
  n ← load m node;
  _ ← trap_if (n.(queued) = true ∨ own = 0 ∨ 99 < prio);
  '(prev, nxt) ← enqueue_position m prio at_head;
  let m := set_nodes m (<[node := mk_node nxt prev own prio true]> m.(nodes)) in
  m ← (if decide (prev ≠ 0) then store_next m prev node else Done (set_first m node));
  m ← (if decide (nxt ≠ 0) then store_previous m nxt node else Done (set_last m node));
  head ← aread m.(queue).(heads) (Z.to_nat prio);
  m ← (if decide (head = 0 ∨ at_head = true) then
         hs ← awrite m.(queue).(heads) (Z.to_nat prio) node; Done (set_heads m hs)
       else Done m);
  tail ← aread m.(queue).(tails) (Z.to_nat prio);
  if decide (tail = 0 ∨ at_head = false) then
    ts ← awrite m.(queue).(tails) (Z.to_nat prio) node; Done (set_tails m ts)
  else Done m.

(** [p && p->priority == prio ? p : 0] *)
Definition neighbour_of_priority (m : memory) (p prio : Z) : outcome Z :=
  if decide (p ≠ 0) then
    n ← load m p; Done (if decide (n.(priority) = prio) then p else 0)
  else Done 0.

Definition kernel_sched_dequeue (m : memory) (node : Z) : outcome memory :=
  _ ← trap_if (node = 0);
  n ← load m node;
  _ ← trap_if (n.(queued) = false);
  let p := Z.to_nat n.(priority) in
  head ← aread m.(queue).(heads) p;
  m ← (if decide (head = node) then
         h ← neighbour_of_priority m n.(next) n.(priority);
         hs ← awrite m.(queue).(heads) p h; Done (set_heads m hs)
       else Done m);
  tail ← aread m.(queue).(tails) p;
  m ← (if decide (tail = node) then
         t ← neighbour_of_priority m n.(previous) n.(priority);
         ts ← awrite m.(queue).(tails) p t; Done (set_tails m ts)
       else Done m);
  m ← (if decide (n.(previous) ≠ 0) then store_next m n.(previous) n.(next)
       else Done (set_first m n.(next)));
  n ← load m node;
  m ← (if decide (n.(next) ≠ 0) then store_previous m n.(next) n.(previous)
       else Done (set_last m n.(previous)));
  Done (set_nodes m (<[node := mk_node 0 0 n.(owner) n.(priority) false]> m.(nodes))).

Definition kernel_sched_pick (m : memory) (rt_eligible : bool) : outcome Z :=
  if rt_eligible then Done m.(queue).(first) else aread m.(queue).(heads) 0.

End Runqueue.
