(* ===== verification/RunqueueTheory.v ===== *)
(** * Correctness of the run queue

    The queue refines a list of tasks ordered by priority, first in first out
    within a priority. *)
From S2P Require Import Prelude Runqueue.
Import Runqueue.
#[local] Open Scope Z_scope.

(** ** The abstract queue *)

Record task := mk_task { t_node : Z; t_owner : Z; t_priority : Z }.
Abbreviation ptrs l := (map t_node l).

Definition of_priority (p : Z) (l : list task) : list task := filter (λ t, t_priority t = p) l.
Definition enqueued (t : task) (at_head : bool) (l : list task) : list task :=
  if at_head
  then filter (λ u, t_priority t < t_priority u) l ++ t :: filter (λ u, t_priority u ≤ t_priority t) l
  else filter (λ u, t_priority t ≤ t_priority u) l ++ t :: filter (λ u, t_priority u < t_priority t) l.
Definition dequeued (x : Z) (l : list task) : list task := filter (λ t, t_node t ≠ x) l.

Definition ordered : list task → Prop := StronglySorted (λ a b, t_priority b ≤ t_priority a).

(** First and last pointer of a chain that continues in [nxt], started by [prev]. *)
Definition hd_ptr (nxt : Z) (l : list task) : Z :=
  match l with [] => nxt | t :: _ => t_node t end.
Definition last_ptr (prev : Z) (l : list task) : Z :=
  match list.last l with None => prev | Some t => t_node t end.

Definition node_of (prev : Z) (t : task) (nxt : Z) : kernel_sched_node :=
  mk_node nxt prev (t_owner t) (t_priority t) true.

(** The memory threads [l] between [prev] and [nxt]. *)
Fixpoint dll (ns : gmap Z kernel_sched_node) (prev : Z) (l : list task) (nxt : Z) : Prop :=
  match l with
  | [] => True
  | t :: l' => ns !! t_node t = Some (node_of prev t (hd_ptr nxt l')) ∧ dll ns (t_node t) l' nxt
  end.

Record repr (m : memory) (l : list task) : Prop := {
  r_dll : dll m.(nodes) 0 l 0;
  r_nodup : NoDup (ptrs l);
  r_tasks : Forall (λ t, t_node t ≠ 0 ∧ t_owner t ≠ 0 ∧ 0 ≤ t_priority t ≤ 99) l;
  r_first : m.(queue).(first) = hd_ptr 0 l;
  r_last : m.(queue).(last) = last_ptr 0 l;
  r_ordered : ordered l;
  r_heads : ∀ p, 0 ≤ p ≤ 99 → m.(queue).(heads) !! Z.to_nat p = Some (hd_ptr 0 (of_priority p l));
  r_tails : ∀ p, 0 ≤ p ≤ 99 → m.(queue).(tails) !! Z.to_nat p = Some (last_ptr 0 (of_priority p l));
  r_idle : ∀ x n, m.(nodes) !! x = Some n → n.(queued) = true → x ∈ ptrs l;
}.

(** ** Chains *)

Lemma hd_ptr_app nxt l1 l2 : hd_ptr nxt (l1 ++ l2) = hd_ptr (hd_ptr nxt l2) l1.
Proof. by destruct l1. Qed.
Lemma last_ptr_snoc prev l t : last_ptr prev (l ++ [t]) = t_node t.
Proof. unfold last_ptr. by rewrite last_snoc. Qed.
Lemma last_ptr_cons prev t l : last_ptr prev (t :: l) = last_ptr (t_node t) l.
Proof. unfold last_ptr. rewrite last_cons. by destruct (list.last l). Qed.
Lemma last_ptr_app prev l1 l2 : last_ptr prev (l1 ++ l2) = last_ptr (last_ptr prev l1) l2.
Proof. unfold last_ptr. rewrite last_app. by destruct (list.last l2). Qed.

Lemma dll_app ns prev l1 l2 nxt :
  dll ns prev (l1 ++ l2) nxt ↔
  dll ns prev l1 (hd_ptr nxt l2) ∧ dll ns (last_ptr prev l1) l2 nxt.
Proof.
  revert prev. induction l1 as [|t l1 IH]; intros prev; simpl; [naive_solver|].
  rewrite IH, hd_ptr_app, last_ptr_cons. naive_solver.
Qed.
Lemma dll_frame ns ns' prev l nxt :
  (∀ x, x ∈ ptrs l → ns' !! x = ns !! x) → dll ns prev l nxt → dll ns' prev l nxt.
Proof.
  revert prev. induction l as [|t l IH]; intros prev Hf; [done|]. simpl. intros [H1 H2]. split.
  - rewrite Hf; [done|]. left.
  - apply IH; [|done]. intros x Hx. apply Hf. by right.
Qed.
Lemma dll_frame_insert ns prev l nxt x n :
  x ∉ ptrs l → dll ns prev l nxt → dll (<[x:=n]> ns) prev l nxt.
Proof. intros Hx. apply dll_frame. intros y Hy. rewrite lookup_insert_ne; set_solver. Qed.
Lemma dll_lookup ns prev l1 t l2 nxt :
  dll ns prev (l1 ++ t :: l2) nxt →
  ns !! t_node t = Some (node_of (last_ptr prev l1) t (hd_ptr nxt l2)).
Proof. intros [_ [H _]]%dll_app. done. Qed.

Lemma hd_ptr_nz l : Forall (λ t, t_node t ≠ 0) l → hd_ptr 0 l ≠ 0 ↔ l ≠ [].
Proof. destruct 1; simpl; split; congruence. Qed.
Lemma last_ptr_nz l : Forall (λ t, t_node t ≠ 0) l → last_ptr 0 l ≠ 0 ↔ l ≠ [].
Proof.
  destruct l as [|t l' _] using rev_ind; [by split|]. intros [_ [Ht _]%Forall_cons]%Forall_app.
  rewrite last_ptr_snoc. split; [by destruct l'|done].
Qed.

(** Redirecting the end of the chain before the insertion point, as the code
    does through the neighbour or through [queue->first]. *)
Lemma link_left m l nxt p :
  dll m.(nodes) 0 l nxt → NoDup (ptrs l) → Forall (λ t, t_node t ≠ 0) l →
  m.(queue).(first) = hd_ptr nxt l →
  ∃ ns, (if decide (last_ptr 0 l ≠ 0) then store_next m (last_ptr 0 l) p
         else Done (set_first m p)) =
      Done (mk_memory (mk_queue (hd_ptr p l) m.(queue).(last) m.(queue).(heads)
              m.(queue).(tails) m.(queue).(boosted)) ns) ∧
    dll ns 0 l p ∧ ∀ x, x ∉ ptrs l → ns !! x = m.(nodes) !! x.
Proof.
  intros Hd Hn Hz Hf. destruct l as [|t l' _] using rev_ind; [by eexists; simpl|].
  rewrite decide_True by (apply last_ptr_nz; [done|by destruct l']).
  rewrite last_ptr_snoc. unfold store_next, load. pose proof (dll_lookup _ _ _ _ _ _ Hd) as Ht.
  rewrite Ht. run. eexists. split; [|split].
  - unfold set_nodes. do 2 f_equal. destruct m as [[? ? ? ? ?] ?]; simpl in *.
    rewrite Hf. f_equal. by destruct l'.
  - rewrite map_app in Hn. apply NoDup_app in Hn as (_ & Hni & _).
    apply dll_app in Hd as [Hd _]. apply dll_app. split; [apply dll_frame_insert; [|done]|].
    + intros Hx. by apply (Hni _ Hx); left.
    + simpl. by rewrite lookup_insert_eq.
  - intros x Hx. rewrite lookup_insert_ne; [done|]. rewrite map_app in Hx. set_solver.
Qed.
Lemma link_right m l prev p :
  dll m.(nodes) prev l 0 → NoDup (ptrs l) → Forall (λ t, t_node t ≠ 0) l →
  m.(queue).(last) = last_ptr prev l →
  ∃ ns, (if decide (hd_ptr 0 l ≠ 0) then store_previous m (hd_ptr 0 l) p
         else Done (set_last m p)) =
      Done (mk_memory (mk_queue m.(queue).(first) (last_ptr p l) m.(queue).(heads)
              m.(queue).(tails) m.(queue).(boosted)) ns) ∧
    dll ns p l 0 ∧ ∀ x, x ∉ ptrs l → ns !! x = m.(nodes) !! x.
Proof.
  intros Hd Hn Hz Hl. destruct l as [|t l']; [by eexists; simpl|].
  rewrite decide_True by (by apply hd_ptr_nz). destruct Hd as [Ht Hd]. simpl in *.
  unfold store_previous, load. rewrite Ht. run. eexists. split; [|split].
  - unfold set_nodes. do 2 f_equal. destruct m as [[? ? ? ? ?] ?]; simpl in *.
    rewrite Hl. f_equal. by rewrite !last_ptr_cons.
  - rewrite lookup_insert_eq. split; [done|]. apply NoDup_cons in Hn as [Hni _].
    by apply dll_frame_insert.
  - intros x Hx. rewrite lookup_insert_ne; [done|]. set_solver.
Qed.

(** ** Order and priorities *)

Lemma ordered_app l1 l2 :
  ordered (l1 ++ l2) ↔ ordered l1 ∧ ordered l2 ∧
    ∀ a b, a ∈ l1 → b ∈ l2 → t_priority b ≤ t_priority a.
Proof.
  unfold ordered. induction l1 as [|t l1 IH]; simpl.
  - split; [|tauto]. intros H. split; [constructor|]. split; [done|]. set_solver.
  - rewrite !StronglySorted_cons, IH, Forall_app, !Forall_forall.
    split; [|set_solver]. intros [[H1 H2] (H3 & H4 & H5)]. split; [done|]. split; [done|].
    intros a b [->|Ha]%elem_of_cons Hb; auto.
Qed.
Lemma ordered_partition (P : task → Prop) `{∀ t, Decision (P t)} l :
  (∀ a b, t_priority b ≤ t_priority a → P b → P a) → ordered l →
  l = filter P l ++ filter (λ t, ¬ P t) l.
Proof.
  intros HP. unfold ordered. induction 1 as [|t l Hs IH Hall]; [done|].
  destruct (decide (P t)) as [Ht|Ht].
  - rewrite filter_cons_True, (filter_cons_False (λ t, ¬ P t)) by tauto. simpl. by f_equal.
  - rewrite filter_cons_False, (filter_cons_True (λ t, ¬ P t)) by done.
    assert (Forall (λ u, ¬ P u) l) by (eapply Forall_impl; [exact Hall|]; simpl; eauto).
    by rewrite filter_none, filter_all by done.
Qed.

Lemma enqueued_split t at_head l :
  ordered l → ∃ l1 l2, l = l1 ++ l2 ∧ enqueued t at_head l = l1 ++ t :: l2 ∧
    Forall (λ u, t_priority t ≤ t_priority u ∧
      (at_head = true → t_priority u ≠ t_priority t)) l1 ∧
    Forall (λ u, t_priority u ≤ t_priority t ∧
      (at_head = false → t_priority u ≠ t_priority t)) l2.
Proof.
  intros Ho. unfold enqueued. destruct at_head; eexists _, _; (split; [|split; [done|]]).
  - etrans; [apply (ordered_partition (λ u, t_priority t < t_priority u)); [lia|done]|].
    f_equal. apply list_filter_iff. lia.
  - split; apply Forall_forall; intros u [? ?]%list_elem_of_filter; split; done || lia.
  - etrans; [apply (ordered_partition (λ u, t_priority t ≤ t_priority u)); [lia|done]|].
    f_equal. apply list_filter_iff. lia.
  - split; apply Forall_forall; intros u [? ?]%list_elem_of_filter; split; done || lia.
Qed.
Lemma enqueued_ordered t at_head l : ordered l → ordered (enqueued t at_head l).
Proof.
  intros Ho. destruct (enqueued_split t at_head l Ho) as (l1 & l2 & El & -> & H1 & H2).
  rewrite El in Ho. apply ordered_app in Ho as (Ho1 & Ho2 & Ho3).
  rewrite Forall_forall in H1, H2. apply ordered_app. split; [done|]. split.
  - constructor; [done|]. apply Forall_forall. intros u Hu. apply H2, Hu.
  - intros a b Ha [->|Hb]%elem_of_cons; [apply H1, Ha|by apply Ho3].
Qed.

Lemma of_priority_app p l1 l2 : of_priority p (l1 ++ l2) = of_priority p l1 ++ of_priority p l2.
Proof. apply filter_app. Qed.
Lemma of_priority_cons p t l :
  of_priority p (t :: l) = if decide (t_priority t = p) then t :: of_priority p l else of_priority p l.
Proof. unfold of_priority. by rewrite filter_cons. Qed.

(** The end of an ordered segment decides the bucket of its extreme priority. *)
Lemma first_of_priority p l :
  ordered l → Forall (λ u, t_priority u ≤ p) l →
  hd_ptr 0 (of_priority p l) =
    match l with u :: _ => if decide (t_priority u = p) then t_node u else 0 | [] => 0 end.
Proof.
  destruct l as [|u l]; [done|]. intros Ho Hle. rewrite of_priority_cons. case_decide; [done|].
  inversion_clear Ho as [|? ? _ Hall]. inversion_clear Hle as [|? ? Hu _].
  unfold of_priority. rewrite filter_none; [done|].
  eapply Forall_impl; [exact Hall|]. simpl. lia.
Qed.
Lemma last_of_priority p l :
  ordered l → Forall (λ u, p ≤ t_priority u) l →
  last_ptr 0 (of_priority p l) =
    match list.last l with
    | Some u => if decide (t_priority u = p) then t_node u else 0 | None => 0 end.
Proof.
  destruct l as [|u l _] using rev_ind; [done|]. intros Ho Hle.
  rewrite last_snoc, of_priority_app, of_priority_cons. case_decide; [by apply last_ptr_snoc|].
  apply ordered_app in Ho as (_ & _ & Hall). apply Forall_app in Hle as [_ [Hu _]%Forall_cons].
  rewrite app_nil_r. unfold of_priority. rewrite filter_none; [done|].
  apply Forall_forall. intros a Ha. specialize (Hall a u Ha ltac:(by left)). lia.
Qed.

Lemma of_priority_none p l : Forall (λ u, t_priority u ≠ p) l → of_priority p l = [].
Proof. apply filter_none. Qed.
Lemma of_priority_enqueued p t at_head l :
  ordered l →
  of_priority p (enqueued t at_head l) =
    if decide (p = t_priority t) then
      (if at_head then t :: of_priority p l else of_priority p l ++ [t])
    else of_priority p l.
Proof.
  intros Ho. destruct (enqueued_split t at_head l Ho) as (l1 & l2 & El & -> & H1 & H2).
  rewrite El, !of_priority_app, of_priority_cons. case_decide as Hp.
  - subst p. rewrite decide_True by done. destruct at_head.
    + rewrite (of_priority_none _ l1); [done|]. eapply Forall_impl; [exact H1|]. naive_solver.
    + rewrite (of_priority_none _ l2); [by rewrite app_nil_r|].
      eapply Forall_impl; [exact H2|]. naive_solver.
  - by rewrite decide_False by congruence.
Qed.

(** ** Finding the position *)

Lemma filter_split (P : task → Prop) `{∀ t, Decision (P t)} l1 l2 :
  Forall P l1 → Forall (λ t, ¬ P t) l2 → filter P (l1 ++ l2) = l1.
Proof. intros. by rewrite filter_app, filter_all, filter_none, app_nil_r. Qed.

Lemma nearest_tail_spec (tails : list Z) l count q :
  ordered l → Forall (λ t, t_node t ≠ 0) l → Forall (λ t, 0 ≤ t_priority t ≤ 99) l →
  (∀ p, 0 ≤ p ≤ 99 → tails !! Z.to_nat p = Some (last_ptr 0 (of_priority p l))) →
  (q + count = 100)%nat →
  nearest_tail tails q count = Done (last_ptr 0 (filter (λ t, Z.of_nat q ≤ t_priority t) l)).
Proof.
  intros Ho Hz Hb Ht. revert q. induction count as [|count IH]; intros q Hq.
  { rewrite filter_none; [done|]. eapply Forall_impl; [exact Hb|]. simpl. lia. }
  cbn [nearest_tail]. rewrite (aread_ok _ _ (last_ptr 0 (of_priority (Z.of_nat q) l)))
    by (rewrite <-Ht by lia; by rewrite Nat2Z.id).
  run. destruct (decide (of_priority (Z.of_nat q) l = [])) as [Hnone|Hsome].
  - rewrite Hnone, decide_False by (intros H; by apply H). rewrite IH by lia. do 2 f_equal.
    apply filter_nil in Hnone. clear -Hnone. induction Hnone as [|t l Hx _ IHl]; [done|].
    rewrite !filter_cons, IHl. destruct (decide (Z.of_nat (S q) ≤ _)); case_decide; (done || lia).
  - set (hi := filter (λ t, Z.of_nat q ≤ t_priority t) l).
    assert (Ehi : l = hi ++ filter (λ t, ¬ Z.of_nat q ≤ t_priority t) l)
      by (apply ordered_partition; [lia|done]).
    assert (Hq' : of_priority (Z.of_nat q) l = of_priority (Z.of_nat q) hi).
    { rewrite Ehi at 1. rewrite of_priority_app, (of_priority_none _ (filter _ _)).
      - apply app_nil_r.
      - apply Forall_forall. intros u [? ?]%list_elem_of_filter. lia. }
    assert (Hzq : last_ptr 0 (of_priority (Z.of_nat q) l) ≠ 0).
    { apply last_ptr_nz; [|done]. apply Forall_filter_both, Hz. }
    rewrite decide_True by done. f_equal. revert Hzq. rewrite Hq'.
    rewrite last_of_priority; [unfold last_ptr; destruct (list.last hi); [by case_decide|done]| |].
    + rewrite Ehi in Ho. by apply ordered_app in Ho as [? _].
    + apply Forall_forall. by intros u [? ?]%list_elem_of_filter.
Qed.

Lemma repr_load m l1 t l2 :
  repr m (l1 ++ t :: l2) → load m (t_node t) = Done (node_of (last_ptr 0 l1) t (hd_ptr 0 l2)).
Proof. intros Hr. unfold load. by rewrite (dll_lookup _ _ _ _ _ _ (r_dll _ _ Hr)). Qed.
Lemma repr_nz m l : repr m l → Forall (λ t, t_node t ≠ 0) l.
Proof. intros Hr. eapply Forall_impl; [exact (r_tasks _ _ Hr)|]. naive_solver. Qed.
Lemma repr_bounds m l : repr m l → Forall (λ t, 0 ≤ t_priority t ≤ 99) l.
Proof. intros Hr. eapply Forall_impl; [exact (r_tasks _ _ Hr)|]. naive_solver. Qed.

(** A bucket of this priority exists: go to its end. *)
Lemma position_in_bucket m l1 l2 p at_head :
  repr m (l1 ++ l2) → 0 ≤ p ≤ 99 →
  Forall (λ u, p ≤ t_priority u ∧ (at_head = true → t_priority u ≠ p)) l1 →
  Forall (λ u, t_priority u ≤ p ∧ (at_head = false → t_priority u ≠ p)) l2 →
  of_priority p (l1 ++ l2) ≠ [] →
  enqueue_position m p at_head = Done (last_ptr 0 l1, hd_ptr 0 l2).
Proof.
  intros Hr Hp H1 H2 Hne. pose proof (repr_nz _ _ Hr) as Hz.
  unfold enqueue_position. rewrite (aread_ok _ _ _ (r_heads _ _ Hr p Hp)). run.
  assert (Hh : hd_ptr 0 (of_priority p (l1 ++ l2)) ≠ 0)
    by (apply hd_ptr_nz; [by apply Forall_filter_both|done]).
  assert (Ht : last_ptr 0 (of_priority p (l1 ++ l2)) ≠ 0)
    by (apply last_ptr_nz; [by apply Forall_filter_both|done]).
  rewrite decide_True by done.
  pose proof (r_ordered _ _ Hr) as (Ho1 & Ho2 & _)%ordered_app.
  destruct at_head.
  - revert Hh. rewrite of_priority_app, (of_priority_none _ l1)
      by (eapply Forall_impl; [exact H1|]; naive_solver).
    rewrite app_nil_l, first_of_priority; [|done|eapply Forall_impl; [exact H2|]; naive_solver].
    destruct l2 as [|u l2]; [done|]. case_decide; [|done]. intros _.
    by rewrite (repr_load _ _ _ _ Hr).
  - rewrite (aread_ok _ _ _ (r_tails _ _ Hr p Hp)). run.
    revert Ht. rewrite of_priority_app, (of_priority_none _ l2)
      by (eapply Forall_impl; [exact H2|]; naive_solver).
    rewrite app_nil_r, last_of_priority; [|done|eapply Forall_impl; [exact H1|]; naive_solver].
    destruct l1 as [|u l1 _] using rev_ind; [done|]. rewrite last_snoc, last_ptr_snoc.
    case_decide; [|done]. intros _. rewrite <-app_assoc in Hr. by rewrite (repr_load _ _ _ _ Hr).
Qed.
(** No such bucket: behind the nearest higher one. *)
Lemma position_new_bucket m l1 l2 p at_head :
  repr m (l1 ++ l2) → 0 ≤ p ≤ 99 →
  Forall (λ u, p < t_priority u) l1 → Forall (λ u, t_priority u < p) l2 →
  enqueue_position m p at_head = Done (last_ptr 0 l1, hd_ptr 0 l2).
Proof.
  intros Hr Hp H1 H2. pose proof (repr_nz _ _ Hr) as Hz. pose proof (repr_bounds _ _ Hr) as Hb.
  unfold enqueue_position. rewrite (aread_ok _ _ _ (r_heads _ _ Hr p Hp)). run.
  rewrite of_priority_app, !of_priority_none by (eapply Forall_impl; [eassumption|]; simpl; lia).
  rewrite decide_False by (intros H; by apply H). rewrite (r_last _ _ Hr).
  destruct l2 as [|u l2 _] using rev_ind.
  - rewrite app_nil_r in *. destruct l1 as [|u l1 _] using rev_ind; [done|].
    rewrite last_ptr_snoc. apply Forall_app in Hz as [_ [Hu _]%Forall_cons].
    rewrite decide_False by done. rewrite (repr_load _ _ _ _ Hr). run.
    apply Forall_app in H1 as [_ [Hu1 _]%Forall_cons]. by rewrite bool_decide_true.
  - rewrite app_assoc, last_ptr_snoc. rewrite app_assoc in Hr, Hz, Hb.
    pose proof Hz as [_ [Hu _]%Forall_cons]%Forall_app. rewrite decide_False by done.
    rewrite (repr_load _ _ _ _ Hr). run.
    apply Forall_app in H2 as [H2 [Hu2 _]%Forall_cons]. rewrite bool_decide_false by (simpl; lia).
    rewrite (nearest_tail_spec _ _ _ _ (r_ordered _ _ Hr) Hz Hb (r_tails _ _ Hr)) by lia. run.
    rewrite <-app_assoc, filter_split;
      [|eapply Forall_impl; [exact H1|]; simpl; lia
       |apply Forall_app; split; [eapply Forall_impl; [exact H2|]; simpl; lia|repeat constructor; lia]].
    rewrite <-app_assoc in Hr. destruct l1 as [|v l1 _] using rev_ind.
    + by rewrite decide_False, (r_first _ _ Hr) by (intros H; by apply H).
    + rewrite last_ptr_snoc. rewrite <-!app_assoc in Hz. apply Forall_app in Hz as [_ [Hv _]%Forall_cons].
      rewrite decide_True by done. rewrite <-app_assoc in Hr. by rewrite (repr_load _ _ _ _ Hr).
Qed.
Lemma position_spec m l t at_head :
  repr m l → 0 ≤ t_priority t ≤ 99 →
  ∃ l1 l2, l = l1 ++ l2 ∧ enqueued t at_head l = l1 ++ t :: l2 ∧
    enqueue_position m (t_priority t) at_head = Done (last_ptr 0 l1, hd_ptr 0 l2).
Proof.
  intros Hr Hp. destruct (enqueued_split t at_head l (r_ordered _ _ Hr))
    as (l1 & l2 & -> & -> & H1 & H2).
  exists l1, l2. split_and!; [done..|].
  destruct (decide (of_priority (t_priority t) (l1 ++ l2) = [])) as [Hnone|];
    [|by apply position_in_bucket].
  apply filter_nil, Forall_app in Hnone as [Hn1 Hn2].
  apply position_new_bucket; [done..| |]; apply Forall_forall; intros u Hu;
    rewrite Forall_forall in *; [specialize (H1 u Hu); specialize (Hn1 u Hu)
    |specialize (H2 u Hu); specialize (Hn2 u Hu)]; simpl in *; lia.
Qed.

(** ** Linking and unlinking *)

Lemma repr_in m l t : repr m l → t ∈ l →
  ∃ n, m.(nodes) !! t_node t = Some n ∧ n.(queued) = true.
Proof.
  intros Hr (l1 & l2 & ->)%list_elem_of_split.
  rewrite (dll_lookup _ _ _ _ _ _ (r_dll _ _ Hr)). by eexists.
Qed.
Lemma repr_idle m l x n : repr m l → m.(nodes) !! x = Some n → n.(queued) = false → x ∉ ptrs l.
Proof.
  intros Hr Hx Hq (t & -> & Ht)%list_elem_of_fmap.
  destruct (repr_in _ _ _ Hr Ht) as (n' & Hn' & Hq'). congruence.
Qed.
Lemma repr_split_nodup m l1 l2 : repr m (l1 ++ l2) →
  NoDup (ptrs l1) ∧ NoDup (ptrs l2) ∧ (∀ x, x ∈ ptrs l1 → x ∉ ptrs l2) ∧
  Forall (λ t, t_node t ≠ 0) l1 ∧ Forall (λ t, t_node t ≠ 0) l2.
Proof.
  intros Hr. pose proof (r_nodup _ _ Hr) as Hn. rewrite map_app in Hn.
  apply NoDup_app in Hn as (? & ? & ?). pose proof (repr_nz _ _ Hr) as [? ?]%Forall_app. done.
Qed.

(** Setting the bucket array at one priority. *)
Lemma bucket_insert (arr : list Z) (f g : Z → Z) p v :
  (∀ q, 0 ≤ q ≤ 99 → arr !! Z.to_nat q = Some (f q)) → 0 ≤ p ≤ 99 →
  g p = v → (∀ q, 0 ≤ q ≤ 99 → q ≠ p → g q = f q) →
  ∃ arr', awrite arr (Z.to_nat p) v = Done arr' ∧
    ∀ q, 0 ≤ q ≤ 99 → arr' !! Z.to_nat q = Some (g q).
Proof.
  intros Ha Hp Hv Hg. pose proof (lookup_lt_Some _ _ _ (Ha p Hp)) as Hlt.
  rewrite awrite_ok by done. eexists. split; [done|]. intros q Hq.
  destruct (decide (q = p)) as [->|Hne].
  - by rewrite list_lookup_insert_eq, Hv.
  - rewrite list_lookup_insert_ne, Ha, Hg by (done || lia). done.
Qed.
(** A conditional update of the bucket array, skipped when the value is right. *)
Lemma bucket_update (C : Prop) `{Decision C} (arr : list Z) (f g : Z → Z) p v (m : memory)
    (upd : memory → list Z → memory) :
  (∀ q, 0 ≤ q ≤ 99 → arr !! Z.to_nat q = Some (f q)) → 0 ≤ p ≤ 99 →
  (C → g p = v) → (¬ C → g p = f p) → (∀ q, 0 ≤ q ≤ 99 → q ≠ p → g q = f q) →
  (∀ l, arr = l → upd m l = m) →
  ∃ arr', (if decide C then l ← awrite arr (Z.to_nat p) v; Done (upd m l) else Done m)
      = Done (upd m arr') ∧
    ∀ q, 0 ≤ q ≤ 99 → arr' !! Z.to_nat q = Some (g q).
Proof.
  intros Ha Hp Hv Hsame Hg Hupd. case_decide as HC.
  - destruct (bucket_insert arr f g p v) as (arr' & -> & ?); [auto..|]. by exists arr'.
  - exists arr. split; [by rewrite Hupd|]. intros q Hq. rewrite Ha by done.
    destruct (decide (q = p)) as [->|]; f_equal; [by rewrite Hsame|by rewrite Hg].
Qed.

Definition with_ends (q : kernel_sched_runqueue) (l : list task) : kernel_sched_runqueue :=
  mk_queue (hd_ptr 0 l) (last_ptr 0 l) q.(heads) q.(tails) q.(boosted).

Lemma link_between m l1 l2 t :
  repr m (l1 ++ l2) → t_node t ∉ ptrs (l1 ++ l2) →
  ∃ m2 ns,
    (let m1 := set_nodes m (<[t_node t := node_of (last_ptr 0 l1) t (hd_ptr 0 l2)]> m.(nodes)) in
     if decide (last_ptr 0 l1 ≠ 0) then store_next m1 (last_ptr 0 l1) (t_node t)
     else Done (set_first m1 (t_node t))) = Done m2 ∧
    (if decide (hd_ptr 0 l2 ≠ 0) then store_previous m2 (hd_ptr 0 l2) (t_node t)
     else Done (set_last m2 (t_node t))) =
      Done (mk_memory (with_ends m.(queue) (l1 ++ t :: l2)) ns) ∧
    dll ns 0 (l1 ++ t :: l2) 0 ∧
    (∀ x, x ∉ t_node t :: ptrs (l1 ++ l2) → ns !! x = m.(nodes) !! x).
Proof.
  intros Hr Hfresh. destruct (repr_split_nodup _ _ _ Hr) as (Hn1 & Hn2 & Hn12 & Hz1 & Hz2).
  pose proof (r_dll _ _ Hr) as [Hd1 Hd2]%dll_app. rewrite map_app in *.
  apply not_elem_of_app in Hfresh as [Hf1 Hf2].
  set (m1 := set_nodes m _).
  destruct (link_left m1 l1 (hd_ptr 0 l2) (t_node t)) as (ns1 & E1 & Hl1 & Hfr1);
    [by apply dll_frame_insert|done|done|by simpl; rewrite (r_first _ _ Hr), hd_ptr_app|].
  match type of E1 with _ = Done ?m => set (m2 := m) in * end.
  destruct (link_right m2 l2 (last_ptr 0 l1) (t_node t)) as (ns2 & E2 & Hl2 & Hfr2);
    [|done|done|by simpl; rewrite (r_last _ _ Hr), last_ptr_app|].
  { apply (dll_frame (nodes m1)); [|by apply dll_frame_insert]. intros x Hx. apply Hfr1. set_solver. }
  exists m2, ns2. split; [done|]. rewrite E2. split; [|split].
  - unfold with_ends, m2. simpl. do 3 f_equal; [by destruct l1|].
    by rewrite last_ptr_app, last_ptr_cons.
  - apply dll_app. split; [|split; [|done]].
    + apply (dll_frame ns1); [|done]. intros x Hx. by apply Hfr2, Hn12.
    + rewrite Hfr2 by done. unfold m2; simpl. rewrite Hfr1 by done. unfold m1; simpl.
      by rewrite lookup_insert_eq.
  - intros x [Hxt Hx]%not_elem_of_cons. apply not_elem_of_app in Hx as [? ?].
    rewrite Hfr2 by done. unfold m2; simpl. rewrite Hfr1 by done. unfold m1; simpl.
    by rewrite lookup_insert_ne.
Qed.

(** The bucket arrays after an insertion. *)
Lemma enqueue_buckets m l t at_head ns :
  repr m l → 0 ≤ t_priority t ≤ 99 → t_node t ≠ 0 →
  let l' := enqueued t at_head l in
  let m1 := mk_memory (with_ends m.(queue) l') ns in
  ∃ hs ts,
    (head ← aread m1.(queue).(heads) (Z.to_nat (t_priority t));
     m ← (if decide (head = 0 ∨ at_head = true) then
            hs ← awrite m1.(queue).(heads) (Z.to_nat (t_priority t)) (t_node t);
            Done (set_heads m1 hs)
          else Done m1);
     tail ← aread m.(queue).(tails) (Z.to_nat (t_priority t));
     if decide (tail = 0 ∨ at_head = false) then
       ts ← awrite m.(queue).(tails) (Z.to_nat (t_priority t)) (t_node t); Done (set_tails m ts)
     else Done m) =
    Done (mk_memory (mk_queue (hd_ptr 0 l') (last_ptr 0 l') hs ts m.(queue).(boosted)) ns) ∧
    (∀ p, 0 ≤ p ≤ 99 → hs !! Z.to_nat p = Some (hd_ptr 0 (of_priority p l'))) ∧
    (∀ p, 0 ≤ p ≤ 99 → ts !! Z.to_nat p = Some (last_ptr 0 (of_priority p l'))).
Proof.
  intros Hr Hp Ht l' m1. pose proof (r_ordered _ _ Hr) as Ho.
  assert (Hz : Forall (λ u, t_node u ≠ 0) (of_priority (t_priority t) l))
    by (apply Forall_filter_both, (repr_nz _ _ Hr)).
  assert (Hother : ∀ q, q ≠ t_priority t → of_priority q l' = of_priority q l).
  { intros q Hq. unfold l'. by rewrite of_priority_enqueued, decide_False by done. }
  assert (Hsame : of_priority (t_priority t) l' = if at_head then t :: of_priority (t_priority t) l
    else of_priority (t_priority t) l ++ [t]).
  { unfold l'. by rewrite of_priority_enqueued, decide_True by done. }
  simpl. rewrite (aread_ok _ _ _ (r_heads _ _ Hr _ Hp)). run.
  edestruct (bucket_update (hd_ptr 0 (of_priority (t_priority t) l) = 0 ∨ at_head = true)
    (heads (queue m)) _ (λ q, hd_ptr 0 (of_priority q l')) (t_priority t) (t_node t) m1 set_heads
    (r_heads _ _ Hr) Hp) as (hs & -> & Hhs).
  { rewrite Hsame. intros [Hnil| ->]; [|done]. destruct at_head; [done|].
    destruct (of_priority (t_priority t) l) eqn:E; [done|]. by apply Forall_cons in Hz as [? _]. }
  { rewrite Hsame. intros Hn. destruct at_head; [tauto|].
    destruct (of_priority (t_priority t) l); [|done]. simpl in Hn. tauto. }
  { intros q _ Hq. by rewrite Hother. }
  { by intros ? <-. }
  run. simpl. rewrite (aread_ok _ _ _ (r_tails _ _ Hr _ Hp)). run.
  edestruct (bucket_update (last_ptr 0 (of_priority (t_priority t) l) = 0 ∨ at_head = false)
    (tails (queue m)) _ (λ q, last_ptr 0 (of_priority q l')) (t_priority t) (t_node t)
    (set_heads m1 hs) set_tails (r_tails _ _ Hr) Hp) as (ts & -> & Hts).
  { rewrite Hsame. intros [Hnil| ->]; [|by rewrite last_ptr_snoc]. destruct at_head;
      [|by rewrite last_ptr_snoc]. rewrite last_ptr_cons.
    destruct (decide (of_priority (t_priority t) l = [])) as [->|Hne]; [done|].
    by apply last_ptr_nz in Hne. }
  { rewrite Hsame. intros Hn. destruct at_head; [|tauto]. rewrite last_ptr_cons.
    unfold last_ptr in *. destruct (list.last _); [done|]. tauto. }
  { intros q _ Hq. by rewrite Hother. }
  { by intros ? <-. }
  by exists hs, ts.
Qed.

Lemma enqueue_spec m l t at_head n :
  repr m l → m.(nodes) !! t_node t = Some n → n.(queued) = false →
  t_node t ≠ 0 → t_owner t ≠ 0 → 0 ≤ t_priority t ≤ 99 →
  ∃ m', kernel_sched_enqueue m (t_node t) (t_owner t) (t_priority t) at_head = Done m' ∧
    repr m' (enqueued t at_head l) ∧
    (∀ x, x ∉ t_node t :: ptrs l → m'.(nodes) !! x = m.(nodes) !! x).
Proof.
  intros Hr Hn Hq Ht Ho Hp. pose proof (repr_idle _ _ _ _ Hr Hn Hq) as Hfresh.
  destruct (position_spec m l t at_head Hr Hp) as (l1 & l2 & El & Eenq & Hpos).
  unfold kernel_sched_enqueue, load. rewrite trap_if_ok by done. run. rewrite Hn. run.
  rewrite trap_if_ok by (rewrite Hq; naive_solver lia). run. rewrite Hpos. run.
  rewrite El in Hr, Hfresh. destruct (link_between m l1 l2 t Hr Hfresh) as (m2 & ns & E1 & E2 & Hd & Hf).
  cbv zeta in E1. unfold node_of in E1. rewrite E1. run. rewrite E2. run.
  rewrite <-El in Hr, Hfresh, Hf. rewrite <-Eenq in *.
  destruct (enqueue_buckets m l t at_head ns Hr Hp Ht) as (hs & ts & -> & Hhs & Hts).
  eexists. split; [done|]. split; [|done].
  assert (Hperm : enqueued t at_head l ≡ₚ t :: l) by (rewrite Eenq, El; by rewrite Permutation_middle).
  split; simpl; try done.
  - rewrite Hperm. constructor; [done|apply (r_nodup _ _ Hr)].
  - rewrite Hperm. constructor; [done|]. apply (r_tasks _ _ Hr).
  - apply enqueued_ordered, (r_ordered _ _ Hr).
  - intros x nx Hx Hqx. rewrite Hperm. simpl. destruct (decide (x ∈ t_node t :: ptrs l)); [done|].
    rewrite Hf in Hx by done. right. by apply (r_idle _ _ Hr x nx).
Qed.

Lemma dequeued_split m l1 t l2 : repr m (l1 ++ t :: l2) → dequeued (t_node t) (l1 ++ t :: l2) = l1 ++ l2.
Proof.
  intros Hr. destruct (repr_split_nodup _ _ _ Hr) as (_ & [Ht2 _]%NoDup_cons & H12 & _).
  unfold dequeued. rewrite filter_app, filter_cons_False by naive_solver.
  rewrite !filter_all; [done| |]; apply Forall_forall; intros u Hu E.
  - apply Ht2. rewrite <-E. apply list_elem_of_fmap. eauto.
  - apply (H12 (t_node u)); [apply list_elem_of_fmap; eauto|]. rewrite E. left.
Qed.

Lemma next_neighbour m ns l1 t l2 :
  repr m (l1 ++ t :: l2) → ns = m.(nodes) → ∀ q,
  neighbour_of_priority (mk_memory q ns) (hd_ptr 0 l2) (t_priority t) =
    Done (hd_ptr 0 (of_priority (t_priority t) l2)).
Proof.
  intros Hr -> q. pose proof (r_ordered _ _ Hr) as (_ & Ho2 & _)%ordered_app.
  inversion_clear Ho2 as [|? ? Ho Hall]. pose proof (repr_nz _ _ Hr) as Hz.
  rewrite first_of_priority by done. unfold neighbour_of_priority.
  destruct l2 as [|u l2]; [done|]. simpl.
  apply Forall_app in Hz as [_ Hz]. inversion_clear Hz as [|? ? _ Hz']. inversion_clear Hz' as [|? ? Hu _].
  rewrite decide_True by done. rewrite (cons_middle t l1), app_assoc in Hr.
  unfold load; simpl. by rewrite (dll_lookup _ _ _ _ _ _ (r_dll _ _ Hr)).
Qed.
Lemma previous_neighbour m ns l1 t l2 :
  repr m (l1 ++ t :: l2) → ns = m.(nodes) → ∀ q,
  neighbour_of_priority (mk_memory q ns) (last_ptr 0 l1) (t_priority t) =
    Done (last_ptr 0 (of_priority (t_priority t) l1)).
Proof.
  intros Hr -> q. pose proof (r_ordered _ _ Hr) as (Ho1 & _ & Hall)%ordered_app.
  pose proof (repr_nz _ _ Hr) as [Hz _]%Forall_app.
  rewrite last_of_priority; [|done|apply Forall_forall; intros u Hu; apply Hall; [done|left]].
  unfold neighbour_of_priority. destruct l1 as [|u l1 _] using rev_ind; [done|].
  rewrite last_ptr_snoc, last_snoc. apply Forall_app in Hz as [_ [Hu _]%Forall_cons].
  rewrite decide_True by done. rewrite <-app_assoc in Hr.
  unfold load; simpl. by rewrite (dll_lookup _ _ _ _ _ _ (r_dll _ _ Hr)).
Qed.

(** The bucket arrays after a removal. *)
Lemma dequeue_buckets m l1 t l2 :
  repr m (l1 ++ t :: l2) →
  let n := node_of (last_ptr 0 l1) t (hd_ptr 0 l2) in
  let p := Z.to_nat (t_priority t) in
  ∃ m1 hs ts,
    (head ← aread m.(queue).(heads) p;
     if decide (head = t_node t) then
       h ← neighbour_of_priority m n.(next) n.(priority);
       hs ← awrite m.(queue).(heads) p h; Done (set_heads m hs)
     else Done m) = Done m1 ∧
    (tail ← aread m1.(queue).(tails) p;
     if decide (tail = t_node t) then
       t ← neighbour_of_priority m1 n.(previous) n.(priority);
       ts ← awrite m1.(queue).(tails) p t; Done (set_tails m1 ts)
     else Done m1) =
    Done (mk_memory (mk_queue m.(queue).(first) m.(queue).(last) hs ts m.(queue).(boosted)) m.(nodes)) ∧
    (∀ p, 0 ≤ p ≤ 99 → hs !! Z.to_nat p = Some (hd_ptr 0 (of_priority p (l1 ++ l2)))) ∧
    (∀ p, 0 ≤ p ≤ 99 → ts !! Z.to_nat p = Some (last_ptr 0 (of_priority p (l1 ++ l2)))).
Proof.
  intros Hr n p. destruct (repr_split_nodup _ _ _ Hr) as (_ & [Ht2 _]%NoDup_cons & H12 & _).
  pose proof (repr_bounds _ _ Hr) as [_ [Hp _]%Forall_cons]%Forall_app.
  assert (Hother : ∀ q, q ≠ t_priority t → of_priority q (l1 ++ t :: l2) = of_priority q (l1 ++ l2)).
  { intros q Hq. by rewrite !of_priority_app, of_priority_cons, decide_False by done. }
  assert (Hsame : of_priority (t_priority t) (l1 ++ t :: l2) =
    of_priority (t_priority t) l1 ++ t :: of_priority (t_priority t) l2).
  { by rewrite of_priority_app, of_priority_cons, decide_True by done. }
  assert (Hin1 : ∀ u q, u ∈ of_priority q l1 → t_node u ≠ t_node t).
  { intros u q [_ Hu]%list_elem_of_filter E. apply (H12 (t_node u));
      [apply list_elem_of_fmap; eauto|]. rewrite E. left. }
  assert (Hin2 : ∀ u q, u ∈ of_priority q l2 → t_node u ≠ t_node t).
  { intros u q [_ Hu]%list_elem_of_filter E. apply Ht2. rewrite <-E. apply list_elem_of_fmap; eauto. }
  subst n p. rewrite (aread_ok _ _ _ (r_heads _ _ Hr _ Hp)). run. cbn [next previous priority node_of].
  destruct m as [q ns]. cbn [queue nodes]. rewrite (next_neighbour (mk_memory q ns) ns l1 t l2) by done. run.
  edestruct (bucket_update (hd_ptr 0 (of_priority (t_priority t) (l1 ++ t :: l2)) = t_node t)
    (heads q) _ (λ p, hd_ptr 0 (of_priority p (l1 ++ l2))) (t_priority t)
    (hd_ptr 0 (of_priority (t_priority t) l2)) (mk_memory q ns) set_heads (r_heads _ _ Hr) Hp)
    as (hs & -> & Hhs).
  { rewrite Hsame, of_priority_app. destruct (of_priority (t_priority t) l1) as [|u k] eqn:E; [done|].
    simpl. intros Hu. by destruct (Hin1 u (t_priority t)); [rewrite E; left|]. }
  { rewrite Hsame, of_priority_app. by destruct (of_priority (t_priority t) l1). }
  { intros p _ Hne. by rewrite Hother. }
  { intros ? <-. by destruct q. }
  set (m1 := set_heads (mk_memory q ns) hs).
  pose proof (previous_neighbour (mk_memory q ns) ns l1 t l2 Hr eq_refl (queue m1)) as Hprev.
  edestruct (bucket_update (last_ptr 0 (of_priority (t_priority t) (l1 ++ t :: l2)) = t_node t)
    (tails q) _ (λ p, last_ptr 0 (of_priority p (l1 ++ l2))) (t_priority t)
    (last_ptr 0 (of_priority (t_priority t) l1)) m1 set_tails (r_tails _ _ Hr) Hp)
    as (ts & E & Hts).
  { rewrite Hsame, of_priority_app, last_ptr_app, last_ptr_cons, last_ptr_app. unfold last_ptr.
    destruct (list.last (of_priority (t_priority t) l2)) as [u|] eqn:E; [|done].
    intros Hu. by destruct (Hin2 u (t_priority t)); [by apply last_Some_elem_of|]. }
  { rewrite Hsame, of_priority_app, !last_ptr_app, last_ptr_cons. unfold last_ptr.
    by destruct (list.last (of_priority (t_priority t) l2)). }
  { intros p _ Hne. by rewrite Hother. }
  { by intros ? <-. }
  exists m1, hs, ts. split; [done|]. split; [|done].
  rewrite (aread_ok (tails (queue m1)) _ _ (r_tails _ _ Hr _ Hp)). run.
  change (mk_memory (queue m1) ns) with m1 in Hprev.
  rewrite Hprev. run. exact E.
Qed.

Lemma dequeue_spec m l t :
  repr m l → t ∈ l →
  ∃ m', kernel_sched_dequeue m (t_node t) = Done m' ∧ repr m' (dequeued (t_node t) l) ∧
    m'.(nodes) !! t_node t = Some (mk_node 0 0 (t_owner t) (t_priority t) false) ∧
    (∀ x, x ∉ ptrs l → m'.(nodes) !! x = m.(nodes) !! x).
Proof.
  intros Hr (l1 & l2 & ->)%list_elem_of_split. rewrite (dequeued_split _ _ _ _ Hr).
  destruct (repr_split_nodup _ _ _ Hr) as (Hn1 & [Ht2 Hn2]%NoDup_cons & H12 & Hz1 & [Hz Hz2]%Forall_cons).
  assert (Ht1 : t_node t ∉ ptrs l1) by (intros H; apply (H12 _ H); left).
  pose proof (r_dll _ _ Hr) as [Hd1 [Hd Hd2]]%dll_app.
  unfold kernel_sched_dequeue. rewrite trap_if_ok by done. run. rewrite (repr_load _ _ _ _ Hr). run.
  rewrite trap_if_ok by done. run.
  destruct (dequeue_buckets m l1 t l2 Hr) as (m1 & hs & ts & E1 & E2 & Hhs & Hts).
  cbn [next previous priority owner node_of] in *.
  destruct (aread (heads (queue m)) _) as [h|]; [|done]. run. cbn [mbind outcome_bind] in E1. rewrite E1. run.
  destruct (aread (tails (queue m1)) _) as [h'|]; [|done]. run. cbn [mbind outcome_bind] in E2. rewrite E2. run.
  match goal with |- context [store_next ?m _ _] => set (m2 := m) end.
  destruct (link_left m2 l1 (t_node t) (hd_ptr 0 l2)) as (ns1 & -> & Hl1 & Hf1);
    [done..|by simpl; rewrite (r_first _ _ Hr), hd_ptr_app|].
  run. unfold load at 1. simpl. rewrite Hf1 by done. simpl. rewrite Hd. run.
  cbn [next previous priority owner node_of].
  match goal with |- context [store_previous ?m _ _] => set (m3 := m) end.
  destruct (link_right m3 l2 (t_node t) (last_ptr 0 l1)) as (ns2 & -> & Hl2 & Hf2);
    [|done|done|by simpl; rewrite (r_last _ _ Hr), last_ptr_app, last_ptr_cons|].
  { apply (dll_frame (nodes m)); [|done]. intros x Hx. apply Hf1. set_solver. }
  run. eexists. split; [done|]. unfold set_nodes. simpl. split; [|split].
  - split; simpl.
    + apply dll_frame_insert; [rewrite map_app; set_solver|]. apply dll_app. split; [|done].
      apply (dll_frame ns1); [|done]. intros x Hx. apply Hf2. intros H. apply (H12 x Hx). by right.
    + pose proof (r_nodup _ _ Hr) as Hn. rewrite map_app in *. simpl in Hn.
      apply NoDup_app in Hn as (? & Hd12 & [_ ?]%NoDup_cons). apply NoDup_app. split; [done|].
      split; [|done]. intros x Hx ?. apply (Hd12 x Hx). by right.
    + pose proof (r_tasks _ _ Hr) as [? [_ ?]%Forall_cons]%Forall_app. by apply Forall_app.
    + by rewrite hd_ptr_app.
    + by rewrite last_ptr_app.
    + pose proof (r_ordered _ _ Hr) as (Ho1 & Ho2 & Ho)%ordered_app. apply ordered_app.
      inversion_clear Ho2. split; [done|]. split; [done|]. intros a b Ha Hb. apply Ho; [done|by right].
    + done.
    + done.
    + intros x n Hx Hq. destruct (decide (x = t_node t)) as [->|Hne].
      { rewrite lookup_insert_eq in Hx. injection Hx as <-. done. }
      rewrite lookup_insert_ne in Hx by done. rewrite map_app.
      destruct (decide (x ∈ ptrs l1 ++ ptrs l2)) as [|Hout]; [done|].
      apply not_elem_of_app in Hout as [? ?]. rewrite Hf2 in Hx by done. simpl in Hx.
      rewrite Hf1 in Hx by done. pose proof (r_idle _ _ Hr x n Hx Hq) as Hin.
      rewrite map_app in Hin. simpl in Hin. set_solver.
  - by rewrite lookup_insert_eq.
  - intros x Hx. rewrite map_app in Hx. apply not_elem_of_app in Hx as [? [? ?]%not_elem_of_cons].
    rewrite lookup_insert_ne by done. rewrite Hf2 by done. simpl. by rewrite Hf1.
Qed.

(** ** Any history of the queue *)

Inductive queue_op :=
  | Enqueue (t : task) (at_head : bool)
  | Dequeue (x : Z).

Definition run_op (m : memory) (op : queue_op) : outcome memory :=
  match op with
  | Enqueue t at_head =>
      kernel_sched_enqueue m (t_node t) (t_owner t) (t_priority t) at_head
  | Dequeue x => kernel_sched_dequeue m x
  end.
Fixpoint run_ops (m : memory) (ops : list queue_op) : outcome memory :=
  match ops with [] => Done m | op :: ops' => m' ← run_op m op; run_ops m' ops' end.

Definition spec_op (l : list task) (op : queue_op) : list task :=
  match op with Enqueue t at_head => enqueued t at_head l | Dequeue x => dequeued x l end.

(** What the callers owe: only idle nodes are enqueued, only queued ones removed. *)
Definition op_allowed (known : gset Z) (l : list task) (op : queue_op) : Prop :=
  match op with
  | Enqueue t _ => t_node t ∈ known ∧ t_node t ∉ ptrs l ∧ t_owner t ≠ 0 ∧ 0 ≤ t_priority t ≤ 99
  | Dequeue x => x ∈ ptrs l
  end.
Fixpoint ops_allowed (known : gset Z) (l : list task) (ops : list queue_op) : Prop :=
  match ops with
  | [] => True
  | op :: ops' => op_allowed known l op ∧ ops_allowed known (spec_op l op) ops'
  end.

Definition knows (known : gset Z) (m : memory) : Prop :=
  0 ∉ known ∧ ∀ x, x ∈ known → is_Some (m.(nodes) !! x).

Lemma repr_ptr_known m l x : repr m l → x ∈ ptrs l → is_Some (m.(nodes) !! x).
Proof.
  intros Hr (t & -> & Ht)%list_elem_of_fmap. destruct (repr_in _ _ _ Hr Ht) as (n & -> & _). by exists n.
Qed.
Lemma run_op_spec known m l op :
  repr m l → knows known m → op_allowed known l op →
  ∃ m', run_op m op = Done m' ∧ repr m' (spec_op l op) ∧ knows known m'.
Proof.
  intros Hr [H0 Hk] Hop. destruct op as [t at_head|x]; simpl in *.
  - destruct Hop as (Ht & Hni & Ho & Hp). destruct (Hk _ Ht) as [n Hn].
    assert (Hnz : t_node t ≠ 0) by (intros E; by rewrite E in Ht).
    assert (Hq : n.(queued) = false).
    { destruct (queued n) eqn:E; [|done]. by destruct Hni; apply (r_idle _ _ Hr _ n). }
    destruct (enqueue_spec m l t at_head n Hr Hn Hq Hnz Ho Hp) as (m' & -> & Hr' & Hf).
    exists m'. split; [done|]. split; [done|]. split; [done|]. intros y Hy.
    destruct (decide (y ∈ t_node t :: ptrs l)) as [Hin|Hout]; [|rewrite Hf by done; auto].
    apply (repr_ptr_known _ _ _ Hr').
    destruct (enqueued_split t at_head l (r_ordered _ _ Hr)) as (l1 & l2 & -> & -> & _).
    rewrite map_app in *. simpl. set_solver.
  - apply list_elem_of_fmap in Hop as (t & -> & Ht).
    destruct (dequeue_spec m l t Hr Ht) as (m' & -> & Hr' & Hnew & Hf).
    exists m'. split; [done|]. split; [done|]. split; [done|]. intros y Hy.
    destruct (decide (y = t_node t)) as [->|Hne]; [by rewrite Hnew|].
    destruct (decide (y ∈ ptrs l)) as [(u & -> & Hu)%list_elem_of_fmap|Hout];
      [|rewrite Hf by done; auto].
    apply (repr_ptr_known _ _ _ Hr'), list_elem_of_fmap. exists u. split; [done|].
    apply list_elem_of_filter. by split.
Qed.

Lemma run_ops_spec known ops m l :
  repr m l → knows known m → ops_allowed known l ops →
  ∃ m', run_ops m ops = Done m' ∧ repr m' (foldl spec_op l ops).
Proof.
  revert m l. induction ops as [|op ops IH]; intros m l Hr Hk Ha; [by exists m|]. destruct Ha as [Hop Ha].
  destruct (run_op_spec known m l op Hr Hk Hop) as (m' & E & Hr' & Hk').
  cbn [run_ops]. rewrite E. run. by apply IH.
Qed.
Lemma ordered_head t l : ordered (t :: l) → Forall (λ u, t_priority u ≤ t_priority t) (t :: l).
Proof. inversion 1; constructor; done || lia. Qed.

(** C10: after any history of insertions of idle nodes and removals of queued
    ones, in any order and at either end, no operation trapped or followed a
    dangling pointer, the linked lists represent exactly the priority-ordered
    first-in-first-out queue that the history describes, and the scheduler picks
    its head (a task that no queued task outranks), or the first
    non-real-time task when real-time work is throttled. *)
Theorem runqueue_refines (known : gset Z) (m : memory) (ops : list queue_op)
    (Hempty : repr m []) (Hknown : knows known m) (Hops : ops_allowed known [] ops) :
  let l := foldl spec_op [] ops in
  ∃ m', run_ops m ops = Done m' ∧ repr m' l ∧
    kernel_sched_pick m' true = Done (hd_ptr 0 l) ∧
    (∀ t l', l = t :: l' → Forall (λ u, t_priority u ≤ t_priority t) l) ∧
    kernel_sched_pick m' false = Done (hd_ptr 0 (of_priority 0 l)).
Proof.
  intros l. destruct (run_ops_spec known ops m [] Hempty Hknown Hops) as (m' & E & Hr).
  exists m'. split_and!; [done|done| | |].
  - simpl. by rewrite (r_first _ _ Hr).
  - intros t l' El. fold l in Hr. rewrite El in *. apply ordered_head, (r_ordered _ _ Hr).
  - simpl. apply aread_ok. apply (r_heads _ _ Hr 0). lia.
Qed.

Definition demo_memory : memory :=
  mk_memory (mk_queue 0 0 (replicate 100 0) (replicate 100 0) 0)
    (<[16:=mk_node 0 0 0 0 false]> (<[32:=mk_node 0 0 0 0 false]> (<[48:=mk_node 0 0 0 0 false]> ∅))).
Lemma runqueue_refines_witness :
  ∃ m', run_ops demo_memory
      [Enqueue (mk_task 16 1 0) false; Enqueue (mk_task 32 2 7) false; Enqueue (mk_task 48 3 7) true;
       Dequeue 48; Enqueue (mk_task 48 3 3) false] = Done m' ∧
    kernel_sched_pick m' true = Done 32 ∧ kernel_sched_pick m' false = Done 16.
Proof.
  edestruct (runqueue_refines {[16; 32; 48]} demo_memory
    [Enqueue (mk_task 16 1 0) false; Enqueue (mk_task 32 2 7) false; Enqueue (mk_task 48 3 7) true;
       Dequeue 48; Enqueue (mk_task 48 3 3) false]) as (m' & E & _ & Hrt & _ & Hot).
  - split; try (done || constructor).
    + intros p Hp. apply (lookup_replicate_2 100 0). lia.
    + intros p Hp. apply (lookup_replicate_2 100 0). lia.
    + intros x n. unfold demo_memory. cbn [nodes].
      rewrite !lookup_insert_Some, lookup_empty. naive_solver.
  - split; [by_decide|]. intros x Hx.
    assert (x = 16 ∨ x = 32 ∨ x = 48) as [->|[->| ->]] by set_solver; vm_compute; eauto.
  - cbn [ops_allowed op_allowed]. split_and!; by_decide.
  - exists m'. split; [exact E|]. split; [exact Hrt|exact Hot].
Defined.
