(* ===== verification/HeapOrder.v ===== *)
(** * Binary max-heaps stored in arrays

    What the kernel's two in-place heap sorts share: the heap order with one
    hole, how a swap moves the hole down, and why the final phase sorts.  The
    order is any total preorder. *)
From S2P Require Import Prelude.

(** ** Swapping two slots *)

Definition swapped {A} (l : list A) (i j : nat) (x y : A) : list A := <[j := x]> (<[i := y]> l).

Lemma swapped_perm {A} (l : list A) i j x y :
  l !! i = Some x → l !! j = Some y → i ≠ j → swapped l i j x y ≡ₚ l.
Proof.
  intros Hi Hj Hne. unfold swapped.
  assert (Hins : ∀ k (m : list A) u v, m !! k = Some u → u :: <[k:=v]> m ≡ₚ v :: m).
  { clear. induction k as [|k IH]; intros [|a m] u v; try done; simpl; [intros [= ->]; constructor|].
    intros Hk. rewrite (perm_swap a), IH by done. apply perm_swap. }
  apply (Permutation_cons_inv (a := y)). rewrite (Hins j (<[i:=y]> l) y x).
  - by apply Hins.
  - by rewrite list_lookup_insert_ne.
Qed.
Lemma swapped_take {A} (l : list A) i j x y n :
  (i < n)%nat → (j < n)%nat → take n (swapped l i j x y) = swapped (take n l) i j x y.
Proof. intros. unfold swapped. by rewrite !take_insert_lt by done. Qed.
Lemma swapped_drop {A} (l : list A) i j x y n :
  (i < n)%nat → (j < n)%nat → drop n (swapped l i j x y) = drop n l.
Proof. intros. unfold swapped. by rewrite !drop_insert_lt by done. Qed.
Lemma swapped_length {A} (l : list A) i j x y : length (swapped l i j x y) = length l.
Proof. unfold swapped. by rewrite !length_insert. Qed.
Lemma swapped_lookup {A} (l : list A) i j x y k :
  (i < length l)%nat → (j < length l)%nat →
  swapped l i j x y !! k = if decide (k = j) then Some x else if decide (k = i) then Some y else l !! k.
Proof.
  intros Hi Hj. unfold swapped. destruct (decide (k = j)) as [->|Hkj].
  - apply list_lookup_insert_eq. by rewrite length_insert.
  - rewrite list_lookup_insert_ne by done. destruct (decide (k = i)) as [->|].
    + by apply list_lookup_insert_eq.
    + by rewrite list_lookup_insert_ne.
Qed.

(** ** Heap order *)
Section heap_order.
Context {A : Type} (le : A → A → Prop).
Context (le_trans : ∀ x y z, le x y → le y z → le x z).
Context (le_total : ∀ x y, le x y ∨ le y x).

Definition child (i c : nat) : Prop := c = (2 * i + 1)%nat ∨ c = (2 * i + 2)%nat.

(** Slots [k..n) are in heap order, except possibly between [r] and its
    children; the children of [r] still fit under the parent of [r]. *)
Record heap_hole (k r n : nat) (l : list A) : Prop := {
  hh_order : ∀ i c x y, (k ≤ i)%nat → child i c → (c < n)%nat → i ≠ r →
    l !! i = Some x → l !! c = Some y → le y x;
  hh_skip : ∀ i c x y, (k ≤ i)%nat → child i r → child r c → (c < n)%nat →
    l !! i = Some x → l !! c = Some y → le y x;
}.
Definition heap (k n : nat) (l : list A) : Prop :=
  ∀ i c x y, (k ≤ i)%nat → child i c → (c < n)%nat → l !! i = Some x → l !! c = Some y → le y x.

Lemma heap_to_hole k n l : heap (S k) n l → heap_hole k k n l.
Proof.
  intros Hh. split.
  - intros i c x y Hi Hc Hn Hne. apply Hh; [lia|done|done].
  - unfold child. lia.
Qed.
Lemma heap_half k n l : (n ≤ 2 * k + 1)%nat → heap k n l.
Proof. intros Hk i c x y Hi Hc Hn. unfold child in Hc. lia. Qed.
Lemma heap_sub k n n' l : (n' ≤ n)%nat → heap k n l → heap k n' l.
Proof. intros Hn Hh i c x y ? ? ?. apply Hh; done || lia. Qed.
(** The hole closes when its slot dominates its children. *)
Lemma hole_closed k r n l x :
  heap_hole k r n l → l !! r = Some x →
  (∀ c y, child r c → (c < n)%nat → l !! c = Some y → le y x) → heap k n l.
Proof.
  intros [Ho _] Hx Hc i c u v Hi Hic Hn Hu Hv.
  destruct (decide (i = r)) as [->|Hne]; [|by eapply Ho].
  rewrite Hx in Hu. injection Hu as <-. by eapply Hc.
Qed.
(** The hole moves down to its larger child. *)
Lemma hole_down k r c n l x y :
  heap_hole k r n l → (k ≤ r)%nat → child r c → (c < n)%nat → (n ≤ length l)%nat →
  l !! r = Some x → l !! c = Some y → le x y →
  (∀ d z, child r d → (d < n)%nat → l !! d = Some z → le z y) →
  heap_hole k c n (swapped l r c x y).
Proof.
  intros [Ho Hs] Hk Hc Hn Hlen Hx Hy Hxy Hmax.
  assert (Hrc : (r < c)%nat) by (unfold child in Hc; lia).
  assert (Hlk : ∀ j, swapped l r c x y !! j =
    if decide (j = c) then Some x else if decide (j = r) then Some y else l !! j)
    by (intros; apply swapped_lookup; lia).
  split.
  - intros i d u v Hi Hd Hdn Hic. rewrite !Hlk, (decide_False (P := i = c)) by done.
    destruct (decide (i = r)) as [->|Hir]; [intros [= <-]|intros Hu].
    + destruct (decide (d = c)); [intros [= <-]; done|].
      rewrite decide_False by (unfold child in *; lia). by apply Hmax.
    + rewrite (decide_False (P := d = c)) by (unfold child in *; lia).
      destruct (decide (d = r)) as [->|]; [intros [= <-]; by apply (Hs i c u)|].
      by apply (Ho i d).
  - intros i d u v Hi Hic Hcd Hdn. assert (i = r) as -> by (unfold child in *; lia).
    rewrite !Hlk, (decide_False (P := r = c)), (decide_True (P := r = r)) by (done || lia).
    rewrite !decide_False by (unfold child in *; lia). intros [= <-] Hv.
    apply (Ho c d y v); done || lia.
Qed.

Lemma heap_root n l x i y :
  heap 0 n l → l !! 0%nat = Some x → (i < n)%nat → (n ≤ length l)%nat → l !! i = Some y → le y x.
Proof.
  intros Hh Hx. revert y. induction i as [i IH] using lt_wf_ind. intros y Hi Hn Hy.
  destruct (decide (i = 0%nat)) as [->|Hne].
  { rewrite Hx in Hy. injection Hy as <-. by destruct (le_total x x). }
  set (p := ((i - 1) / 2)%nat). assert (Hc : child p i).
  { unfold child, p. pose proof (Nat.div_mod_eq (i - 1) 2).
    pose proof (Nat.mod_upper_bound (i - 1) 2 ltac:(lia)). lia. }
  destruct (lookup_lt_is_Some_2 l p) as [z Hz]; [unfold child in Hc; lia|].
  apply (le_trans _ z); [apply (Hh p i); done || lia|]. apply (IH p); unfold child in Hc; done || lia.
Qed.

(** ** The sorting phase: the first [n] slots are a heap below a sorted tail. *)
Record sorting (n : nat) (l : list A) : Prop := {
  so_heap : heap 0 n l;
  so_tail : StronglySorted le (drop n l);
  so_below : ∀ x y, x ∈ take n l → y ∈ drop n l → le x y;
}.

Lemma sorting_start l : heap 0 (length l) l → sorting (length l) l.
Proof. intros Hh. split; [done|rewrite drop_all; constructor|]. rewrite drop_all. by intros x y _ ?%elem_of_nil. Qed.
Lemma sorting_done l : sorting 1 l → StronglySorted le l.
Proof.
  intros [_ Ht Hb]. destruct l as [|x l]; [constructor|]. simpl in *. rewrite drop_0 in *.
  constructor; [done|]. apply Forall_forall. intros y Hy. apply Hb; [left|done].
Qed.
(** Moving the root behind the heap keeps everything but the heap order at 0. *)
Lemma sorting_extract n l l' x y :
  sorting (S (S n)) l → (S (S n) ≤ length l)%nat →
  l !! 0%nat = Some x → l !! S n = Some y → l' = swapped l 0 (S n) x y →
  heap_hole 0 0 (S n) l' ∧ StronglySorted le (drop (S n) l') ∧
  (∀ u v, u ∈ take (S n) l' → v ∈ drop (S n) l' → le u v).
Proof.
  intros [Hh Ht Hb] Hlen Hx Hy ->.
  assert (Hdrop : drop (S n) (swapped l 0 (S n) x y) = x :: drop (S (S n)) l).
  { rewrite (drop_S _ x) by (rewrite swapped_lookup by lia; by rewrite decide_True).
    by rewrite swapped_drop by lia. }
  assert (Hmax : ∀ u, u ∈ take (S (S n)) l → le u x).
  { intros u (i & Hi)%list_elem_of_lookup. apply lookup_take_Some in Hi as [Hi ?].
    by apply (heap_root (S (S n)) l x i). }
  assert (Hin : ∀ u, u ∈ take (S n) (swapped l 0 (S n) x y) → u ∈ take (S (S n)) l).
  { intros u Hu. rewrite <-(swapped_perm (take (S (S n)) l) 0 (S n) x y)
      by (rewrite ?lookup_take_lt by lia; done).
    rewrite <-swapped_take by lia. apply list_elem_of_lookup in Hu as [i Hi].
    apply lookup_take_Some in Hi as [Hi ?]. apply list_elem_of_lookup. exists i.
    apply lookup_take_Some. split; [done|lia]. }
  rewrite Hdrop. split; [|split].
  - apply heap_to_hole. intros i c u v Hi Hc Hcn.
    rewrite !swapped_lookup, !decide_False by (unfold child in Hc; lia).
    apply Hh; done || lia.
  - constructor; [done|]. apply Forall_forall. intros v Hv. apply Hb; [|done].
    apply list_elem_of_lookup. exists 0%nat. by rewrite lookup_take_lt by lia.
  - intros u v Hu [->|Hv]%elem_of_cons; [by apply Hmax, Hin|]. apply Hb; [by apply Hin|done].
Qed.
(** Reordering inside the heap part keeps the rest. *)
Lemma sorting_reheaped n l l' :
  heap 0 n l' → take n l' ≡ₚ take n l → drop n l' = drop n l →
  StronglySorted le (drop n l) → (∀ u v, u ∈ take n l → v ∈ drop n l → le u v) → sorting n l'.
Proof. intros Hh Hp Hd Hs Hb. split; [done|by rewrite Hd|]. intros u v. rewrite Hd, Hp. apply Hb. Qed.
End heap_order.
