(* ===== verification/Credentials.v ===== *)
(** * Credentials, supplementary groups and per-user accounts
    ([kernel/credentials.c])

    Objects live in memory at non-zero addresses and are shared by reference
    count.  A hash chain of accounts, which the code threads through the
    accounts' [next] fields and only ever prepends to, walks and unlinks from,
    is the list of its addresses. *)
From S2P Require Import Prelude Heap.
#[local] Open Scope Z_scope.

Module Credentials.
Import Heap.

Definition KERNEL_ENOMEM : Z := 12.
Definition KERNEL_EMFILE : Z := 24.
Definition KERNEL_CAP_LAST_CAP : Z := 40.
Definition KERNEL_CAP_VALID_MASK : Z := 2 ^ 41 - 1.
Definition KERNEL_GROUPS_MAX : Z := 65536.
Definition ACCOUNT_BUCKETS : Z := 64.

Record kernel_uid_account := mk_account {
  a_heap : Z;
  a_references : Z;
  a_pending : Z;
  a_processes : Z;
  a_unix_inflight : Z;
  a_shm_locked_pages : Z;
  a_uid : Z;
  a_mqueue_bytes : Z;
  a_pipe_pages : Z;
}.

Record kernel_credential_groups := mk_groups {
  g_heap : Z;
  g_references : Z;
  g_count : Z;
  g_ids : list Z;
}.

Record kernel_credentials := mk_credentials {
  c_heap : Z;
  c_references : Z;
  uid : Z; euid : Z; suid : Z; fsuid : Z;
  gid : Z; egid : Z; sgid : Z; fsgid : Z;
  groups : Z;
  effective : Z; permitted : Z; inheritable : Z; bounding : Z; ambient : Z;
  securebits : Z;
  account : Z;
}.

(** ** Supplementary groups *)

(** [groups_sift]: [fuel] bounds the descent. *)
Fixpoint groups_sift (fuel : nat) (a : list Z) (root count : nat) : outcome (list Z) :=
  match fuel with
  | O => Fault Out_of_fuel
  | S fuel' =>
      if decide (root < count / 2)%nat then
        let child := (root * 2 + 1)%nat in
        child ← (if decide (child + 1 < count)%nat then
                   x ← aread a child; y ← aread a (child + 1);
                   Done (if decide (x < y) then (child + 1)%nat else child)
                 else Done child);
        value ← aread a root;
        top ← aread a child;
        if decide (top ≤ value) then Done a
        else
          a ← awrite a root top;
          a ← awrite a child value;
          groups_sift fuel' a child count
      else Done a
  end.

(** The first loop of [kernel_credential_groups_sort], [i] counting down. *)
Fixpoint groups_build (i n : nat) (a : list Z) : outcome (list Z) :=
  match i with
  | O => Done a
  | S i' => a ← groups_sift (S n) a i' n; groups_build i' n a
  end.
(** The second loop, [n] counting down to 1. *)
Fixpoint groups_extract (n : nat) (a : list Z) : outcome (list Z) :=
  match n with
  | S (S _ as n') =>
      value ← aread a 0;
      top ← aread a n';
      a ← awrite a 0 top;
      a ← awrite a n' value;
      a ← groups_sift (S n') a 0 n';
      groups_extract n' a
  | _ => Done a
  end.
Definition kernel_credential_groups_sort (g : kernel_credential_groups)
    : outcome kernel_credential_groups :=
  let n := Z.to_nat g.(g_count) in
  a ← groups_build (n / 2) n g.(g_ids);
  a ← groups_extract n a;
  Done (mk_groups g.(g_heap) g.(g_references) g.(g_count) a).

(** The binary search of [kernel_credentials_in_group]. *)
Fixpoint in_group_search (fuel : nat) (ids : list Z) (gid : Z) (lo hi : nat) : outcome bool :=
  match fuel with
  | O => Fault Out_of_fuel
  | S fuel' =>
      if decide (lo < hi)%nat then
        let mid := (lo + (hi - lo) / 2)%nat in
        v ← aread ids mid;
        if decide (v = gid) then Done true
        else if decide (v < gid) then in_group_search fuel' ids gid (mid + 1) hi
        else in_group_search fuel' ids gid lo mid
      else Done false
  end.
Definition kernel_credentials_in_group (gs : gmap Z kernel_credential_groups)
    (cred : kernel_credentials) (g : Z) : outcome bool :=
  if decide (cred.(fsgid) = g) then Done true
  else if decide (cred.(groups) = 0) then in_group_search 1 [] g 0 0
  else match gs !! cred.(groups) with
       | Some gr => let n := Z.to_nat gr.(g_count) in in_group_search (S n) gr.(g_ids) g 0 n
       | None => Fault Out_of_bounds
       end.

Definition kernel_credentials_capable (cred : kernel_credentials) (cap : Z) : bool :=
  bool_decide (cap ≤ KERNEL_CAP_LAST_CAP ∧ Z.land cred.(effective) (Z.shiftl 1 cap) ≠ 0).

(** ** Shared objects

    The static root account and the objects allocated from the kernel heap. *)
Record kernel_exec_security := mk_security { s_heap : Z; s_references : Z; s_dumpable : Z }.

Record objects (H : Type) := mk_objects {
  o_heap : H;
  o_accounts : list (list Z);
  o_account : gmap Z kernel_uid_account;
  o_groups : gmap Z kernel_credential_groups;
  o_credentials : gmap Z kernel_credentials;
  o_security : gmap Z kernel_exec_security;
}.
Arguments mk_objects {H}.
Arguments o_heap {H}.
Arguments o_accounts {H}.
Arguments o_account {H}.
Arguments o_groups {H}.
Arguments o_credentials {H}.
Arguments o_security {H}.

Definition with_references (a : kernel_uid_account) (n : Z) : kernel_uid_account :=
  mk_account a.(a_heap) n a.(a_pending) a.(a_processes) a.(a_unix_inflight)
    a.(a_shm_locked_pages) a.(a_uid) a.(a_mqueue_bytes) a.(a_pipe_pages).
Definition with_shm (a : kernel_uid_account) (n : Z) : kernel_uid_account :=
  mk_account a.(a_heap) a.(a_references) a.(a_pending) a.(a_processes) a.(a_unix_inflight)
    n a.(a_uid) a.(a_mqueue_bytes) a.(a_pipe_pages).
Definition with_mqueue (a : kernel_uid_account) (n : Z) : kernel_uid_account :=
  mk_account a.(a_heap) a.(a_references) a.(a_pending) a.(a_processes) a.(a_unix_inflight)
    a.(a_shm_locked_pages) a.(a_uid) n a.(a_pipe_pages).
Definition with_pipe (a : kernel_uid_account) (n : Z) : kernel_uid_account :=
  mk_account a.(a_heap) a.(a_references) a.(a_pending) a.(a_processes) a.(a_unix_inflight)
    a.(a_shm_locked_pages) a.(a_uid) a.(a_mqueue_bytes) n.

Section shared.
Context {H : Type} `{!ObjectHeap H}.
Abbreviation M := (ST (objects H)).

Definition load_account (p : Z) : M kernel_uid_account := λ w,
  match w.(o_account) !! p with Some a => Done (a, w) | None => Fault Out_of_bounds end.
Definition set_accounts (w : objects H) (m : gmap Z kernel_uid_account) : objects H :=
  mk_objects w.(o_heap) w.(o_accounts) m w.(o_groups) w.(o_credentials) w.(o_security).
Definition set_table (w : objects H) (t : list (list Z)) : objects H :=
  mk_objects w.(o_heap) t w.(o_account) w.(o_groups) w.(o_credentials) w.(o_security).
Definition set_heap (w : objects H) (h : H) : objects H :=
  mk_objects h w.(o_accounts) w.(o_account) w.(o_groups) w.(o_credentials) w.(o_security).
Definition set_groups (w : objects H) (m : gmap Z kernel_credential_groups) : objects H :=
  mk_objects w.(o_heap) w.(o_accounts) w.(o_account) m w.(o_credentials) w.(o_security).
Definition set_credentials (w : objects H) (m : gmap Z kernel_credentials) : objects H :=
  mk_objects w.(o_heap) w.(o_accounts) w.(o_account) w.(o_groups) m w.(o_security).
Definition set_security (w : objects H) (m : gmap Z kernel_exec_security) : objects H :=
  mk_objects w.(o_heap) w.(o_accounts) w.(o_account) w.(o_groups) w.(o_credentials) m.
Definition store_account (p : Z) (a : kernel_uid_account) : M unit := λ w,
  Done (tt, set_accounts w (<[p := a]> w.(o_account))).
Definition bucket (uid : Z) : nat := Z.to_nat (uid mod ACCOUNT_BUCKETS).

(** An allocation of [bytes]: the address, or 0 when the heap refuses. *)
Definition allocate (bytes : Z) : M Z := λ w,
  let '(status, p, h) := heap_allocate w.(o_heap) bytes in
  Done (if decide (status = KERNEL_HEAP_STATUS_OK) then p else 0, set_heap w h).

Definition free_object (p : Z) : M unit := λ w, Done (tt, set_heap w (heap_free w.(o_heap) p)).

(** ** Accounts *)

Definition kernel_uid_account_get_locked (a : Z) : M Z :=
  _ ← lift (trap_if (a = 0));
  acc ← load_account a;
  _ ← lift (trap_if (acc.(a_references) = 0 ∨ acc.(a_references) = UINT64_MAX));
  _ ← (if decide (acc.(a_heap) ≠ 0)
       then store_account a (with_references acc (acc.(a_references) + 1)) else mret tt);
  mret a.

(** The walk to the link that holds [a], and the unlinking. *)
Fixpoint unlink (chain : list Z) (a : Z) : option (list Z) :=
  match chain with
  | [] => None
  | x :: rest => if decide (x = a) then Some rest else cons x <$> unlink rest a
  end.
Definition unlink_account (b : nat) (a : Z) : M unit := λ w,
  match aread w.(o_accounts) b with
  | Done chain => match unlink chain a with
                  | Some rest => Done (tt, set_table w (<[b := rest]> w.(o_accounts)))
                  | None => Fault Builtin_trap
                  end
  | Fault e => Fault e
  end.

Definition push_account (b : nat) (a : Z) : M unit := λ w,
  match aread w.(o_accounts) b with
  | Done chain => Done (tt, set_table w (<[b := a :: chain]> w.(o_accounts)))
  | Fault e => Fault e
  end.

Definition kernel_uid_account_put_locked (a : Z) : M Z :=
  if decide (a = 0) then mret 0
  else
    acc ← load_account a;
    if decide (acc.(a_heap) = 0) then mret 0
    else
      _ ← lift (trap_if (acc.(a_references) = 0));
      let acc := with_references acc (acc.(a_references) - 1) in
      _ ← store_account a acc;
      if decide (acc.(a_references) ≠ 0) then mret 0
      else
        _ ← lift (trap_if (acc.(a_heap) = 0 ∨ acc.(a_pending) ≠ 0 ∨ acc.(a_processes) ≠ 0 ∨
              acc.(a_shm_locked_pages) ≠ 0 ∨ acc.(a_mqueue_bytes) ≠ 0 ∨ acc.(a_pipe_pages) ≠ 0));
        _ ← unlink_account (bucket acc.(a_uid)) a;
        mret a.

Definition kernel_uid_account_release (a : Z) : M unit := λ w,
  if decide (a ≠ 0)
  then Done (tt, set_heap (set_accounts w (delete a w.(o_account))) (heap_free w.(o_heap) a))
  else Done (tt, w).

Definition kernel_uid_account_put (a : Z) : M unit :=
  if decide (a = 0) then mret tt
  else
    acc ← load_account a;
    if decide (acc.(a_heap) = 0) then mret tt
    else
      a ← kernel_uid_account_put_locked a;
      kernel_uid_account_release a.

Definition kernel_uid_account_shm_lock (acct pages limit : Z) : M Z :=
  _ ← lift (trap_if (pages = 0 ∨ acct = 0));
  acc ← load_account acct;
  _ ← lift (trap_if (acc.(a_references) = 0));
  if decide (limit < pages ∨ limit - pages < acc.(a_shm_locked_pages)) then mret (- KERNEL_ENOMEM)
  else
    _ ← kernel_uid_account_get_locked acct;
    acc ← load_account acct;
    _ ← store_account acct (with_shm acc (u64 (acc.(a_shm_locked_pages) + pages)));
    mret 0.
Definition kernel_uid_account_shm_unlock (acct pages : Z) : M unit :=
  _ ← lift (trap_if (pages = 0 ∨ acct = 0));
  acc ← load_account acct;
  _ ← lift (trap_if (acc.(a_shm_locked_pages) < pages));
  _ ← store_account acct (with_shm acc (acc.(a_shm_locked_pages) - pages));
  a ← kernel_uid_account_put_locked acct;
  kernel_uid_account_release a.

Definition kernel_uid_account_mqueue_charge (acct bytes limit : Z) : M Z :=
  _ ← lift (trap_if (acct = 0));
  acc ← load_account acct;
  _ ← lift (trap_if (acc.(a_references) = 0));
  if decide (limit < bytes ∨ limit - bytes < acc.(a_mqueue_bytes)) then mret (- KERNEL_EMFILE)
  else
    _ ← kernel_uid_account_get_locked acct;
    acc ← load_account acct;
    _ ← store_account acct (with_mqueue acc (u64 (acc.(a_mqueue_bytes) + bytes)));
    mret 0.
Definition kernel_uid_account_mqueue_uncharge (acct bytes : Z) : M unit :=
  _ ← lift (trap_if (acct = 0));
  acc ← load_account acct;
  _ ← lift (trap_if (acc.(a_mqueue_bytes) < bytes));
  _ ← store_account acct (with_mqueue acc (acc.(a_mqueue_bytes) - bytes));
  a ← kernel_uid_account_put_locked acct;
  kernel_uid_account_release a.

Definition kernel_uid_account_pipe_pages (acct old_pages new_pages : Z) : M Z :=
  _ ← lift (trap_if (acct = 0));
  acc ← load_account acct;
  _ ← lift (trap_if (acc.(a_references) = 0 ∨ acc.(a_pipe_pages) < old_pages ∨
        UINT64_MAX - (acc.(a_pipe_pages) - old_pages) < new_pages));
  let n := acc.(a_pipe_pages) - old_pages + new_pages in
  _ ← store_account acct (with_pipe acc n);
  mret n.

(** The account of [uid] in a chain, 0 if there is none. *)
Fixpoint find_uid (chain : list Z) (uid : Z) : M Z :=
  match chain with
  | [] => mret 0
  | a :: rest =>
      acc ← load_account a;
      if decide (acc.(a_uid) = uid) then mret a else find_uid rest uid
  end.
Definition scan_bucket (uid : Z) : M Z := λ w,
  match aread w.(o_accounts) (bucket uid) with
  | Done chain => find_uid chain uid w
  | Fault e => Fault e
  end.
Definition sizeof_uid_account : Z := 80.

(** [kernel_uid_account_get] takes the lock twice and allocates in between;
    its three atomic parts are separate so that anything can run between them.
    First the scan under the lock: *)
Definition account_get_scan (uid : Z) : M Z :=
  a ← scan_bucket uid;
  if decide (a ≠ 0) then kernel_uid_account_get_locked a else mret 0.
(** the second critical section, with the private candidate at address [p]: *)
Definition account_get_commit (heap p uid : Z) : M Z :=
  a ← scan_bucket uid;
  if decide (a ≠ 0) then
    result ← kernel_uid_account_get_locked a;
    _ ← free_object p;
    mret result
  else
    _ ← store_account p (mk_account heap 1 0 0 0 0 uid 0 0);
    _ ← push_account (bucket uid) p;
    mret p.
Definition kernel_uid_account_get (heap uid : Z) : M Z :=
  a ← account_get_scan uid;
  if decide (a ≠ 0) then mret a
  else if decide (heap = 0) then mret 0
  else
    p ← allocate sizeof_uid_account;
    if decide (p = 0) then mret 0 else account_get_commit heap p uid.

(** ** Groups, credentials and exec security as shared objects *)

Definition load_groups (p : Z) : M kernel_credential_groups := λ w,
  match w.(o_groups) !! p with Some g => Done (g, w) | None => Fault Out_of_bounds end.
Definition store_groups (p : Z) (g : kernel_credential_groups) : M unit := λ w,
  Done (tt, set_groups w (<[p := g]> w.(o_groups))).
Definition groups_references (g : kernel_credential_groups) (n : Z) : kernel_credential_groups :=
  mk_groups g.(g_heap) n g.(g_count) g.(g_ids).

(** [storage] is what the fresh array holds. *)
Definition kernel_credential_groups_allocate (heap count : Z) (storage : list Z) : M Z :=
  if decide (KERNEL_GROUPS_MAX < count ∨ heap = 0) then mret 0
  else
    p ← allocate (16 + count * 4);
    if decide (p = 0) then mret 0
    else _ ← store_groups p (mk_groups heap 1 count storage); mret p.
Definition free_groups (p : Z) : M unit := λ w,
  Done (tt, set_heap (set_groups w (delete p w.(o_groups))) (heap_free w.(o_heap) p)).
Definition kernel_credential_groups_put (p : Z) : M unit :=
  if decide (p = 0) then mret tt
  else
    g ← load_groups p;
    let before := g.(g_references) in
    _ ← store_groups p (groups_references g (u32 (before - 1)));
    _ ← lift (trap_if (before = 0));
    if decide (before = 1) then free_groups p else mret tt.

Definition load_credentials (p : Z) : M kernel_credentials := λ w,
  match w.(o_credentials) !! p with Some c => Done (c, w) | None => Fault Out_of_bounds end.
Definition store_credentials (p : Z) (c : kernel_credentials) : M unit := λ w,
  Done (tt, set_credentials w (<[p := c]> w.(o_credentials))).
(** The copy [*candidate=*old] with its own owner, count and account. *)
Definition credentials_with (c : kernel_credentials) (heap references acct : Z) : kernel_credentials :=
  mk_credentials heap references c.(uid) c.(euid) c.(suid) c.(fsuid)
    c.(gid) c.(egid) c.(sgid) c.(fsgid) c.(groups)
    c.(effective) c.(permitted) c.(inheritable) c.(bounding) c.(ambient) c.(securebits) acct.

Definition kernel_credentials_get (p : Z) : M Z :=
  if decide (p = 0) then mret p
  else
    c ← load_credentials p;
    if decide (c.(c_heap) = 0) then mret p
    else
      let before := c.(c_references) in
      _ ← store_credentials p (credentials_with c c.(c_heap) (u32 (before + 1)) c.(account));
      _ ← lift (trap_if (before = 0 ∨ before = UINT32_MAX));
      mret p.

Definition sizeof_credentials : Z := 112.
Definition kernel_credentials_clone (heap old : Z) : M Z :=
  if decide (heap = 0) then mret 0
  else
    p ← allocate sizeof_credentials;
    if decide (p = 0) then mret 0
    else
      c ← load_credentials old;
      _ ← store_credentials p (credentials_with c heap 1 c.(account));
      _ ← (if decide (c.(groups) ≠ 0) then
             g ← load_groups c.(groups);
             let before := g.(g_references) in
             _ ← store_groups c.(groups) (groups_references g (u32 (before + 1)));
             lift (trap_if (before = 0 ∨ before = UINT32_MAX))
           else mret tt);
      _ ← kernel_uid_account_get_locked c.(account);
      mret p.

Definition kernel_credentials_set_account (p uid : Z) : M Z :=
  c ← load_credentials p;
  old ← load_account c.(account);
  if decide (old.(a_uid) = uid) then mret 0
  else
    a ← kernel_uid_account_get c.(c_heap) uid;
    if decide (a = 0) then mret (- KERNEL_ENOMEM)
    else
      _ ← store_credentials p (credentials_with c c.(c_heap) c.(c_references) a);
      _ ← kernel_uid_account_put c.(account);
      mret 0.

Definition free_credentials (p : Z) : M unit := λ w,
  Done (tt, set_heap (set_credentials w (delete p w.(o_credentials))) (heap_free w.(o_heap) p)).
Definition kernel_credentials_put (p : Z) : M unit :=
  if decide (p = 0) then mret tt
  else
    c ← load_credentials p;
    if decide (c.(c_heap) = 0) then mret tt
    else
      let before := c.(c_references) in
      _ ← store_credentials p (credentials_with c c.(c_heap) (u32 (before - 1)) c.(account));
      _ ← lift (trap_if (before = 0));
      if decide (before ≠ 1) then mret tt
      else
        _ ← kernel_credential_groups_put c.(groups);
        _ ← kernel_uid_account_put c.(account);
        free_credentials p.

Definition load_security (p : Z) : M kernel_exec_security := λ w,
  match w.(o_security) !! p with Some s => Done (s, w) | None => Fault Out_of_bounds end.
Definition store_security (p : Z) (s : kernel_exec_security) : M unit := λ w,
  Done (tt, set_security w (<[p := s]> w.(o_security))).
Definition free_security (p : Z) : M unit := λ w,
  Done (tt, set_heap (set_security w (delete p w.(o_security))) (heap_free w.(o_heap) p)).

Definition kernel_exec_security_create (heap dumpable : Z) : M Z :=
  _ ← lift (trap_if (1 < dumpable));
  if decide (heap = 0) then mret 0
  else
    p ← allocate 16;
    if decide (p = 0) then mret 0
    else _ ← store_security p (mk_security heap 1 dumpable); mret p.
Definition kernel_exec_security_get (p : Z) : M Z :=
  if decide (p = 0) then mret p
  else
    s ← load_security p;
    let before := s.(s_references) in
    _ ← store_security p (mk_security s.(s_heap) (u32 (before + 1)) s.(s_dumpable));
    _ ← lift (trap_if (before = 0 ∨ before = UINT32_MAX));
    mret p.
Definition kernel_exec_security_put (p : Z) : M unit :=
  if decide (p = 0) then mret tt
  else
    s ← load_security p;
    let before := s.(s_references) in
    _ ← store_security p (mk_security s.(s_heap) (u32 (before - 1)) s.(s_dumpable));
    _ ← lift (trap_if (before = 0));
    if decide (before = 1) then free_security p else mret tt.
Definition kernel_exec_security_dumpable (p : Z) : M Z :=
  if decide (p = 0) then mret 0 else s ← load_security p; mret s.(s_dumpable).
Definition kernel_exec_security_set_dumpable (p dumpable : Z) : M unit :=
  _ ← lift (trap_if (p = 0 ∨ 1 < dumpable));
  s ← load_security p;
  store_security p (mk_security s.(s_heap) s.(s_references) dumpable).

End shared.
End Credentials.
