(* ===== verification/GroupsTheory.v ===== *)
(** * Supplementary groups: the heap sort sorts and the search finds *)
From S2P Require Import Prelude Heap HeapOrder Credentials.
Import Credentials.
#[local] Open Scope Z_scope.

Lemma groups_sift_spec (k r n fuel : nat) a :
  heap_hole Z.le k r n a → (k ≤ r)%nat → (n ≤ length a)%nat → (r < n)%nat → (n - r < fuel)%nat →
  ∃ a', groups_sift fuel a r n = Done a' ∧ heap Z.le k n a' ∧
    take n a' ≡ₚ take n a ∧ drop n a' = drop n a.
Proof.
  revert r a. induction fuel as [|fuel IH]; intros r a Hh Hk Hlen Hr Hf; [lia|].
  destruct (lookup_lt_is_Some_2 a r) as [x Hx]; [lia|].
  pose proof (Nat.div_mod_eq n 2). pose proof (Nat.mod_upper_bound n 2 ltac:(lia)).
  cbn [groups_sift]. destruct (decide (r < n / 2)%nat) as [Hin|Hout].
  2: { exists a. split; [done|]. split; [|done]. apply (hole_closed _ k r n a x Hh Hx).
       intros c y Hc Hcn. unfold child in Hc. lia. }
  assert (Hpick : ∃ c y, (if decide (r * 2 + 1 + 1 < n)%nat then
      x ← aread a (r * 2 + 1); y ← aread a (r * 2 + 1 + 1);
      Done (if decide (x < y) then (r * 2 + 1 + 1)%nat else (r * 2 + 1)%nat)
    else Done (r * 2 + 1)%nat) = Done c ∧ child r c ∧ (c < n)%nat ∧ a !! c = Some y ∧
    ∀ d z, child r d → (d < n)%nat → a !! d = Some z → z ≤ y).
  { destruct (lookup_lt_is_Some_2 a (r * 2 + 1)) as [u Hu]; [lia|].
    destruct (decide (r * 2 + 1 + 1 < n)%nat) as [Htwo|Hone].
    - destruct (lookup_lt_is_Some_2 a (r * 2 + 1 + 1)) as [v Hv]; [lia|].
      rewrite (aread_ok _ _ _ Hu). run. rewrite (aread_ok _ _ _ Hv). run.
      destruct (decide (u < v)); eexists _, _; (split; [done|]); (split; [unfold child; lia|]);
        (split; [lia|]); (split; [eassumption|]); intros d z [->| ->] _ Hz;
        rewrite ?(Nat.mul_comm 2 r), ?(Nat.add_1_r (r * 2 + 1)) in *;
        replace (r * 2 + 2)%nat with (S (r * 2 + 1)) in * by lia; simplify_eq; lia.
    - exists (r * 2 + 1)%nat, u. split_and!; [done|unfold child; lia|lia|done|].
      intros d z [->| ->] Hd Hz; [|lia]. rewrite (Nat.mul_comm 2 r) in Hz. simplify_eq. lia. }
  destruct Hpick as (c & y & -> & Hc & Hcn & Hy & Hmax). run.
  rewrite (aread_ok _ _ _ Hx). run. rewrite (aread_ok _ _ _ Hy). run.
  assert (Hrc : (r < c)%nat) by (unfold child in Hc; lia).
  destruct (decide (y ≤ x)) as [Hle|Hgt].
  - exists a. split; [done|]. split; [|done]. apply (hole_closed _ k r n a x Hh Hx).
    intros d z Hd Hdn Hz. specialize (Hmax d z Hd Hdn Hz). lia.
  - rewrite awrite_ok by lia. run. rewrite awrite_ok by (rewrite length_insert; lia). run.
    fold (swapped a r c x y).
    destruct (IH c (swapped a r c x y)) as (a' & -> & Hh' & Hp & Hd);
      [|lia|by rewrite swapped_length|lia|lia|].
    { apply hole_down; done || lia. }
    exists a'. split; [done|]. split; [done|]. split.
    + rewrite Hp, swapped_take by lia. apply swapped_perm; [by rewrite lookup_take_lt by lia..|lia].
    + by rewrite Hd, swapped_drop by lia.
Qed.

Lemma groups_build_spec (i n : nat) a :
  heap Z.le i n a → n = length a → (i ≤ n)%nat →
  ∃ a', groups_build i n a = Done a' ∧ heap Z.le 0 n a' ∧ a' ≡ₚ a.
Proof.
  revert a. induction i as [|i IH]; intros a Hh Hn Hi; [by exists a|]. cbn [groups_build].
  destruct (groups_sift_spec i i n (S n) a) as (a1 & -> & Hh1 & Hp1 & Hd1);
    [by apply heap_to_hole|lia|lia|lia|lia|]. run.
  assert (Hp : a1 ≡ₚ a) by (rewrite <-(take_drop n a1), <-(take_drop n a); by rewrite Hp1, Hd1).
  destruct (IH a1 Hh1) as (a' & -> & ? & Hp'); [by rewrite Hp|lia|].
  exists a'. split; [done|]. split; [done|]. by rewrite Hp'.
Qed.
Lemma groups_extract_step n a :
  groups_extract (S (S n)) a =
    (value ← aread a 0; top ← aread a (S n); a ← awrite a 0 top; a ← awrite a (S n) value;
     a ← groups_sift (S (S n)) a 0 (S n); groups_extract (S n) a).
Proof. done. Qed.
Lemma groups_extract_spec (n : nat) a :
  sorting Z.le n a → (n ≤ length a)%nat → (0 < n)%nat →
  ∃ a', groups_extract n a = Done a' ∧ StronglySorted Z.le a' ∧ a' ≡ₚ a.
Proof.
  revert a. induction n as [|n IH]; intros a Hs Hn H0; [lia|].
  destruct n as [|n]; [exists a; split; [done|]; split; [by apply sorting_done|done]|].
  destruct (lookup_lt_is_Some_2 a 0) as [x Hx]; [lia|].
  destruct (lookup_lt_is_Some_2 a (S n)) as [y Hy]; [lia|].
  rewrite groups_extract_step. rewrite (aread_ok _ _ _ Hx). run. rewrite (aread_ok _ _ _ Hy). run.
  rewrite awrite_ok by lia. run. rewrite awrite_ok by (rewrite length_insert; lia). run.
  fold (swapped a 0 (S n) x y).
  destruct (sorting_extract Z.le Z.le_trans ltac:(lia) n a (swapped a 0 (S n) x y) x y Hs Hn Hx Hy
    eq_refl) as (Hh & Ht & Hb).
  destruct (groups_sift_spec 0 0 (S n) (S (S n)) (swapped a 0 (S n) x y)) as (a1 & -> & Hh1 & Hp1 & Hd1);
    [done|lia|rewrite swapped_length; lia|lia|lia|]. run.
  assert (Hp : a1 ≡ₚ a).
  { rewrite <-(swapped_perm a 0 (S n) x y) by done.
    rewrite <-(take_drop (S n) a1), <-(take_drop (S n) (swapped _ _ _ _ _)). by rewrite Hp1, Hd1. }
  destruct (IH a1) as (a' & -> & ? & Hp'); [|rewrite Hp; lia|lia|].
  - by apply (sorting_reheaped _ _ (swapped a 0 (S n) x y)).
  - exists a'. split; [done|]. split; [done|]. by rewrite Hp'.
Qed.

Lemma groups_sort_spec g :
  Z.to_nat g.(g_count) = length g.(g_ids) →
  ∃ ids, kernel_credential_groups_sort g = Done (mk_groups g.(g_heap) g.(g_references) g.(g_count) ids) ∧
    StronglySorted Z.le ids ∧ ids ≡ₚ g.(g_ids).
Proof.
  intros Hn. unfold kernel_credential_groups_sort. rewrite Hn.
  pose proof (Nat.div_mod_eq (length (g_ids g)) 2).
  pose proof (Nat.mod_upper_bound (length (g_ids g)) 2 ltac:(lia)).
  destruct (groups_build_spec (length (g_ids g) / 2) (length (g_ids g)) (g_ids g))
    as (a & -> & Hh & Hp); [apply heap_half; lia|done|lia|]. run.
  destruct (decide (g_ids g = [])) as [E|Hne].
  - rewrite E in *. apply Permutation_nil_r in Hp as ->. simpl. exists []. split_and!; [done|constructor|done].
  - destruct (groups_extract_spec (length (g_ids g)) a) as (a' & -> & Hs & Hp').
    + assert (Hla : length a = length (g_ids g)) by (by rewrite Hp).
      rewrite <-Hla. apply sorting_start. rewrite Hla. exact Hh.
    + by rewrite Hp.
    + destruct (g_ids g); [done|simpl; lia].
    + exists a'. split; [done|]. split; [done|]. by rewrite Hp', Hp.
Qed.

(** ** Membership *)

Lemma in_group_search_spec (ids : list Z) g (lo hi fuel : nat) :
  StronglySorted Z.le ids → (hi ≤ length ids)%nat → (lo ≤ hi)%nat → (hi - lo < fuel)%nat →
  (∀ i x, ids !! i = Some x → (i < lo)%nat → x < g) →
  (∀ i x, ids !! i = Some x → (hi ≤ i)%nat → g < x) →
  in_group_search fuel ids g lo hi = Done (bool_decide (g ∈ ids)).
Proof.
  intros Hs. revert lo hi. induction fuel as [|fuel IH]; intros lo hi Hhi Hlo Hf Hbelow Habove; [lia|].
  cbn [in_group_search]. destruct (decide (lo < hi)%nat) as [Hlt|Hge].
  - set (mid := (lo + (hi - lo) / 2)%nat).
    assert (Hmid : (lo ≤ mid < hi)%nat)
      by (unfold mid; pose proof (Nat.div_lt (hi - lo) 2 ltac:(lia) ltac:(lia)); lia).
    destruct (lookup_lt_is_Some_2 ids mid) as [v Hv]; [lia|].
    rewrite (aread_ok _ _ _ Hv). run.
    assert (Hord : ∀ i j x y, (i < j)%nat → ids !! i = Some x → ids !! j = Some y → x ≤ y)
      by (intros i j x y Hij Hx Hy; by eapply StronglySorted_ordered).
    destruct (decide (v = g)) as [->|Hne].
    { f_equal. symmetry. apply bool_decide_eq_true, list_elem_of_lookup. eauto. }
    destruct (decide (v < g)) as [Hvg|Hvg]; apply IH; try lia; try done.
    + intros i x Hx Hi. destruct (decide (i = mid)) as [->|]; [congruence|].
      specialize (Hord i mid x v ltac:(lia) Hx Hv). lia.
    + intros i x Hx Hi. destruct (decide (i = mid)) as [->|]; [simplify_eq; lia|].
      specialize (Hord mid i v x ltac:(lia) Hv Hx). lia.
  - f_equal. symmetry. apply bool_decide_eq_false. intros (i & Hi)%list_elem_of_lookup.
    destruct (decide (i < lo)%nat); [specialize (Hbelow i g Hi)|specialize (Habove i g Hi)]; lia.
Qed.

Lemma in_group_spec gs cred gr g :
  gs !! cred.(groups) = Some gr → cred.(groups) ≠ 0 →
  Z.to_nat gr.(g_count) = length gr.(g_ids) → StronglySorted Z.le gr.(g_ids) →
  kernel_credentials_in_group gs cred g = Done (bool_decide (g = cred.(fsgid) ∨ g ∈ gr.(g_ids))).
Proof.
  intros Hgr Hnz Hn Hs. unfold kernel_credentials_in_group. case_decide as Hfs.
  { f_equal. symmetry. apply bool_decide_eq_true. by left. }
  rewrite decide_False by done. rewrite Hgr, Hn.
  rewrite in_group_search_spec; [|done|lia|lia|lia| |].
  - f_equal. apply bool_decide_ext. naive_solver.
  - intros; lia.
  - intros i x Hx Hi. apply lookup_lt_Some in Hx. lia.
Qed.

(** C38: a group list of any length and content, once sorted in place by the
    kernel's heap sort (which stays inside the array, terminates, and keeps
    every entry with its multiplicity), answers membership exactly: the
    binary search reports a group if and only if it is the filesystem group
    or occurs in the list the caller installed. *)
Theorem sorted_groups_membership (g : kernel_credential_groups)
    (Hcount : Z.to_nat g.(g_count) = length g.(g_ids)) :
  ∃ g', kernel_credential_groups_sort g = Done g' ∧ g'.(g_ids) ≡ₚ g.(g_ids) ∧
    StronglySorted Z.le g'.(g_ids) ∧
    ∀ p gs cred id, p ≠ 0 → cred.(groups) = p →
      kernel_credentials_in_group (<[p := g']> gs) cred id =
        Done (bool_decide (id = cred.(fsgid) ∨ id ∈ g.(g_ids))).
Proof.
  destruct (groups_sort_spec g Hcount) as (ids & -> & Hs & Hp).
  eexists. split; [done|]. split; [done|]. split; [done|]. intros p gs cred id Hnz Hc.
  rewrite (in_group_spec _ _ (mk_groups (g_heap g) (g_references g) (g_count g) ids)).
  - f_equal. apply bool_decide_ext. simpl. by rewrite Hp.
  - by rewrite Hc, lookup_insert_eq.
  - by rewrite Hc.
  - simpl. by rewrite Hp.
  - done.
Qed.
Lemma sorted_groups_membership_witness :
  ∃ g', kernel_credential_groups_sort (mk_groups 1 1 6 [44; 7; 1000; 7; 0; 27]) = Done g' ∧
    g'.(g_ids) ≡ₚ [44; 7; 1000; 7; 0; 27] ∧ StronglySorted Z.le g'.(g_ids).
Proof.
  destruct (sorted_groups_membership (mk_groups 1 1 6 [44; 7; 1000; 7; 0; 27]) eq_refl)
    as (g' & E & Hp & Hs & _).
  exists g'. split; [exact E|]. split; [exact Hp|exact Hs].
Defined.
