(* ===== verification/ExecCredentials.v ===== *)
(** * Credentials across [execve] ([kernel/exec_credentials.c]) *)
From S2P Require Import Prelude Heap Credentials.
#[local] Open Scope Z_scope.

Module ExecCredentials.
Import Credentials.

Definition KERNEL_EPERM : Z := 1.
Definition KERNEL_EINVAL : Z := 22.
Definition KERNEL_CAP_SETUID : Z := 7.
Definition KERNEL_SECBIT_NOROOT : Z := 1.
Definition KERNEL_SECBIT_KEEP_CAPS : Z := 16.

(** [struct kernel_vfs_exec_metadata]; [filecap] holds 24 bytes. *)
Record kernel_vfs_exec_metadata := mk_metadata {
  f_mode : Z; f_uid : Z; f_gid : Z;
  filecap : list Z;
  filecap_size : Z;
  filecap_present : bool;
  nosuid : bool;
  readable : bool;
}.

Definition little32 (p : list Z) (offset : nat) : outcome Z :=
  b0 ← aread p offset; b1 ← aread p (offset + 1);
  b2 ← aread p (offset + 2); b3 ← aread p (offset + 3);
  Done (Z.lor (Z.lor (Z.lor b0 (Z.shiftl b1 8)) (Z.shiftl b2 16)) (Z.shiftl b3 24)).

Definition with_permitted (c : kernel_credentials) (v : Z) : kernel_credentials :=
  mk_credentials c.(c_heap) c.(c_references) c.(uid) c.(euid) c.(suid) c.(fsuid)
    c.(gid) c.(egid) c.(sgid) c.(fsgid) c.(groups)
    c.(effective) v c.(inheritable) c.(bounding) c.(ambient) c.(securebits) c.(account).
Definition with_effective_ids (c : kernel_credentials) (u g : Z) : kernel_credentials :=
  mk_credentials c.(c_heap) c.(c_references) c.(uid) u c.(suid) c.(fsuid)
    c.(gid) g c.(sgid) c.(fsgid) c.(groups)
    c.(effective) c.(permitted) c.(inheritable) c.(bounding) c.(ambient) c.(securebits) c.(account).

(** Set-user-ID and set-group-ID bits. *)
Definition apply_setid (next : kernel_credentials) (file : kernel_vfs_exec_metadata)
    (no_new_privs : bool) : kernel_credentials :=
  if negb file.(nosuid) && negb no_new_privs then
    with_effective_ids next
      (if decide (Z.land file.(f_mode) 2048 ≠ 0) then file.(f_uid) else next.(euid))
      (if decide (Z.land file.(f_mode) 1032 = 1032) then file.(f_gid) else next.(egid))
  else next.

(** The file-capability branch: [inl (errno, next)], or
    [inr (next, has_filecap, effective)]. *)
Definition apply_filecap (next : kernel_credentials) (file : kernel_vfs_exec_metadata)
    : outcome (Z * kernel_credentials + kernel_credentials * bool * bool) :=
  if negb file.(nosuid) && file.(filecap_present) then
    if decide (file.(filecap_size) < 4) then Done (inl (- KERNEL_EINVAL, next))
    else
      magic ← little32 file.(filecap) 0;
      let revision := Z.shiftr magic 24 in
      let expected := if decide (revision = 1) then 12
                      else if decide (revision = 2) then 20
                      else if decide (revision = 3) then 24 else 0 in
      if decide (expected = 0 ∨ expected ≠ file.(filecap_size))
      then Done (inl (- KERNEL_EINVAL, next))
      else
        foreign ← (if decide (revision ≠ 3) then Done false
                   else rootid ← little32 file.(filecap) 20; Done (bool_decide (rootid ≠ 0)));
        if (foreign : bool) then Done (inr (next, false, false))
        else
          let effective := bool_decide (Z.land magic 1 ≠ 0) in
          fp ← little32 file.(filecap) 4;
          fi ← little32 file.(filecap) 8;
          '(fp, fi) ← (if decide (revision ≠ 1) then
                         hp ← little32 file.(filecap) 12;
                         hi ← little32 file.(filecap) 16;
                         Done (Z.lor fp (Z.shiftl hp 32), Z.lor fi (Z.shiftl hi 32))
                       else Done (fp, fi));
          let fp := Z.land fp KERNEL_CAP_VALID_MASK in
          let fi := Z.land fi KERNEL_CAP_VALID_MASK in
          let next := with_permitted next
            (Z.lor (Z.land next.(bounding) fp) (Z.land next.(inheritable) fi)) in
          if decide (effective = true ∧ Z.land fp (Z.lnot next.(permitted)) ≠ 0)
          then Done (inl (- KERNEL_EPERM, next))
          else Done (inr (next, true, effective))
  else Done (inr (next, false, false)).

(** Root compatibility: the new credentials and the [effective] flag. *)
Definition apply_root (next old : kernel_credentials) (has_filecap effective : bool)
    : kernel_credentials * bool :=
  if decide (Z.land old.(securebits) KERNEL_SECBIT_NOROOT = 0 ∧
             ¬ (has_filecap = true ∧ next.(uid) ≠ 0 ∧ next.(euid) = 0)) then
    (if decide (next.(uid) = 0 ∨ next.(euid) = 0)
     then with_permitted next (Z.lor old.(bounding) old.(inheritable)) else next,
     if decide (next.(euid) = 0) then true else effective)
  else (next, effective).

(** [next->permitted & ~old->permitted] *)
Definition gained (next old : kernel_credentials) : bool :=
  bool_decide (Z.land next.(permitted) (Z.lnot old.(permitted)) ≠ 0).

(** The downgrade for unsafe sharing and no_new_privs. *)
Definition apply_unsafe (next old : kernel_credentials)
    (id_changed unsafe_fs no_new_privs : bool) : kernel_credentials :=
  if (id_changed || gained next old) && (unsafe_fs || no_new_privs) then
    let next := if negb (kernel_credentials_capable old KERNEL_CAP_SETUID) || no_new_privs
                then with_effective_ids next next.(uid) next.(gid) else next in
    with_permitted next (Z.land next.(permitted) old.(permitted))
  else next.

(** Saved and filesystem IDs, ambient, permitted and effective sets. *)
Definition settle (next : kernel_credentials) (has_filecap id_changed effective : bool)
    : kernel_credentials :=
  let ambient' := if has_filecap || id_changed then 0 else next.(ambient) in
  let permitted' := Z.lor next.(permitted) ambient' in
  mk_credentials next.(c_heap) next.(c_references)
    next.(uid) next.(euid) next.(euid) next.(euid)
    next.(gid) next.(egid) next.(egid) next.(egid) next.(groups)
    (if effective then permitted' else ambient') permitted'
    next.(inheritable) next.(bounding) ambient'
    (Z.land next.(securebits) (Z.lnot KERNEL_SECBIT_KEEP_CAPS)) next.(account).

(** The whole preparation.  The result is the status, [*next], [*secureexec]
    and [*dumpable]; on an error the two flags keep their old values. *)
Definition kernel_exec_credentials_prepare (gs : gmap Z kernel_credential_groups)
    (next old : kernel_credentials) (file : kernel_vfs_exec_metadata)
    (unsafe_fs no_new_privs secureexec dumpable : bool)
    : outcome (Z * kernel_credentials * bool * bool) :=
  let next := apply_setid (with_permitted next 0) file no_new_privs in
  branch ← apply_filecap next file;
  match branch with
  | inl (error, next) => Done (error, next, secureexec, dumpable)
  | inr (next, has_filecap, effective) =>
      let '(next, effective) := apply_root next old has_filecap effective in
      in_group ← (if decide (next.(euid) ≠ old.(euid)) then Done true
                  else kernel_credentials_in_group gs old next.(egid));
      let id_changed := bool_decide (next.(euid) ≠ old.(euid)) || negb in_group in
      let next := apply_unsafe next old id_changed unsafe_fs no_new_privs in
      let next := settle next has_filecap id_changed effective in
      Done (0, next,
        id_changed || bool_decide (next.(euid) ≠ old.(uid)) ||
          bool_decide (next.(egid) ≠ old.(gid)) ||
          (bool_decide (next.(uid) ≠ 0) &&
           (effective || bool_decide (Z.land next.(permitted) (Z.lnot next.(ambient)) ≠ 0))),
        file.(readable) && bool_decide (old.(euid) = old.(uid) ∧ old.(egid) = old.(gid) ∧
          next.(euid) = old.(euid) ∧ next.(egid) = old.(egid) ∧
          next.(fsuid) = old.(fsuid) ∧ next.(fsgid) = old.(fsgid)) &&
          negb (gained next old))
  end.

End ExecCredentials.
