(* ===== verification/ExecCredentialsTheory.v ===== *)
(** * What [execve] may do to credentials *)
From S2P Require Import Prelude Heap Credentials GroupsTheory ExecCredentials.
Import Credentials ExecCredentials.
#[local] Open Scope Z_scope.

(** A credential's supplementary groups are absent or a sorted array in memory. *)
Definition groups_ok (gs : gmap Z kernel_credential_groups) (c : kernel_credentials) : Prop :=
  c.(groups) ≠ 0 → ∃ gr, gs !! c.(groups) = Some gr ∧
    Z.to_nat gr.(g_count) = length gr.(g_ids) ∧ StronglySorted Z.le gr.(g_ids).
Definition group_ids (gs : gmap Z kernel_credential_groups) (c : kernel_credentials) : list Z :=
  if decide (c.(groups) = 0) then [] else
  match gs !! c.(groups) with Some gr => gr.(g_ids) | None => [] end.

Lemma in_group_total gs c g :
  groups_ok gs c →
  kernel_credentials_in_group gs c g = Done (bool_decide (g = c.(fsgid) ∨ g ∈ group_ids gs c)).
Proof.
  intros Hok. unfold group_ids. destruct (decide (c.(groups) = 0)) as [E|Hnz].
  - unfold kernel_credentials_in_group. case_decide as Hfs.
    + f_equal. symmetry. apply bool_decide_eq_true. by left.
    + rewrite decide_True by done. simpl. f_equal. symmetry. apply bool_decide_eq_false.
      intros [?|?%elem_of_nil]; [congruence|done].
  - destruct (Hok Hnz) as (gr & Hgr & Hn & Hs). rewrite Hgr. by apply in_group_spec.
Qed.

Lemma little32_ok p offset : (offset + 3 < length p)%nat → ∃ v, little32 p offset = Done v.
Proof.
  intros Hlen. unfold little32.
  destruct (lookup_lt_is_Some_2 p offset) as [b0 H0]; [lia|].
  destruct (lookup_lt_is_Some_2 p (offset + 1)) as [b1 H1]; [lia|].
  destruct (lookup_lt_is_Some_2 p (offset + 2)) as [b2 H2]; [lia|].
  destruct (lookup_lt_is_Some_2 p (offset + 3)) as [b3 H3]; [lia|].
  rewrite (aread_ok _ _ _ H0). run. rewrite (aread_ok _ _ _ H1). run.
  rewrite (aread_ok _ _ _ H2). run. rewrite (aread_ok _ _ _ H3). run. by eexists.
Qed.

(** The stages only touch the effective IDs and the permitted set. *)
Record kept (c d : kernel_credentials) : Prop := {
  k_uid : c.(uid) = d.(uid);
  k_gid : c.(gid) = d.(gid);
  k_ambient : c.(ambient) = d.(ambient);
  k_inheritable : c.(inheritable) = d.(inheritable);
  k_bounding : c.(bounding) = d.(bounding);
  k_groups : c.(groups) = d.(groups);
}.
#[global] Instance kept_preorder : PreOrder kept.
Proof. split; [by split|]. intros ? ? ? [] []. split; congruence. Qed.

Lemma apply_setid_kept c file nnp : kept (apply_setid c file nnp) c.
Proof. unfold apply_setid. by destruct (_ && _). Qed.
Lemma apply_filecap_cases c file :
  length file.(filecap) = 24%nat →
  (∃ error c', apply_filecap c file = Done (inl (error, c')) ∧
     (error = - KERNEL_EINVAL ∨ error = - KERNEL_EPERM)) ∨
  (∃ c' hf ef, apply_filecap c file = Done (inr (c', hf, ef)) ∧ kept c' c ∧
     c'.(euid) = c.(euid) ∧ c'.(egid) = c.(egid) ∧
     (file.(nosuid) = true ∨ file.(filecap_present) = false → c' = c ∧ hf = false ∧ ef = false)).
Proof.
  intros Hlen. unfold apply_filecap. destruct (_ && _) eqn:Ebr.
  2: { right. exists c, false, false. split; [done|]. by split; [reflexivity|]. }
  assert (Hbr : ¬ (file.(nosuid) = true ∨ file.(filecap_present) = false))
    by (destruct (nosuid file), (filecap_present file); naive_solver).
  case_decide; [left; eexists _, _; split; [done|by left]|].
  destruct (little32_ok (filecap file) 0) as [magic ->]; [lia|]. run.
  case_decide; [left; eexists _, _; split; [done|by left]|].
  assert (∃ foreign, (if decide (Z.shiftr magic 24 ≠ 3) then Done false
    else rootid ← little32 (filecap file) 20; Done (bool_decide (rootid ≠ 0))) = Done foreign)
    as [foreign ->].
  { destruct (decide (Z.shiftr magic 24 ≠ 3)); [by eexists|].
    destruct (little32_ok (filecap file) 20) as [v ->]; [lia|]. run. by eexists. }
  run. destruct foreign; [right; exists c, false, false; split; [done|]; by split; [reflexivity|]|].
  destruct (little32_ok (filecap file) 4) as [fp ->]; [lia|]. run.
  destruct (little32_ok (filecap file) 8) as [fi ->]; [lia|]. run.
  destruct (little32_ok (filecap file) 12) as [hp ->]; [lia|]. run.
  destruct (little32_ok (filecap file) 16) as [hi ->]; [lia|]. run.
  destruct (decide (Z.shiftr magic 24 ≠ 1)); run;
    match goal with |- context [decide (_ = true ∧ ?P)] => destruct (decide (_ = true ∧ P)) end;
    try (left; eexists _, _; split; [done|by right]);
    (right; eexists _, _, _; split_and!; [done|by split|done|done|tauto]).
Qed.
Lemma apply_root_kept c old hf ef : kept (apply_root c old hf ef).1 c ∧
  (apply_root c old hf ef).1.(euid) = c.(euid) ∧ (apply_root c old hf ef).1.(egid) = c.(egid).
Proof. unfold apply_root. do 2 (case_decide; simpl; try (by split; [split|])). Qed.
Lemma apply_unsafe_kept c old ch us nnp : kept (apply_unsafe c old ch us nnp) c.
Proof. unfold apply_unsafe. destruct (_ && _); [|done]. by destruct (_ || _). Qed.

(** Every run either refuses with a reason, or passes through the stages. *)
Lemma prepare_cases gs next old file us nnp se0 du0 :
  length file.(filecap) = 24%nat → groups_ok gs old →
  (∃ error n, kernel_exec_credentials_prepare gs next old file us nnp se0 du0 = Done (error, n, se0, du0) ∧
     (error = - KERNEL_EINVAL ∨ error = - KERNEL_EPERM)) ∨
  (∃ c hf ef changed n,
     n = settle (apply_unsafe c old changed us nnp) hf changed ef ∧
     kernel_exec_credentials_prepare gs next old file us nnp se0 du0 = Done (0, n,
       changed || bool_decide (n.(euid) ≠ old.(uid)) || bool_decide (n.(egid) ≠ old.(gid)) ||
         (bool_decide (n.(uid) ≠ 0) &&
          (ef || bool_decide (Z.land n.(permitted) (Z.lnot n.(ambient)) ≠ 0))),
       file.(readable) && bool_decide (old.(euid) = old.(uid) ∧ old.(egid) = old.(gid) ∧
         n.(euid) = old.(euid) ∧ n.(egid) = old.(egid) ∧
         n.(fsuid) = old.(fsuid) ∧ n.(fsgid) = old.(fsgid)) && negb (gained n old)) ∧
     kept c next ∧
     changed = bool_decide (c.(euid) ≠ old.(euid) ∨
       ¬ (c.(egid) = old.(fsgid) ∨ c.(egid) ∈ group_ids gs old)) ∧
     c.(euid) = (apply_setid next file nnp).(euid) ∧ c.(egid) = (apply_setid next file nnp).(egid)).
Proof.
  intros Hlen Hg. unfold kernel_exec_credentials_prepare.
  set (c0 := apply_setid (with_permitted next 0) file nnp).
  assert (Hk0 : kept c0 next) by (etrans; [apply apply_setid_kept|by split]).
  assert (Hn0 : c0.(euid) = (apply_setid next file nnp).(euid) ∧ c0.(egid) = (apply_setid next file nnp).(egid)).
  { unfold c0, apply_setid. by destruct (_ && _). }
  destruct (apply_filecap_cases c0 file Hlen) as [(error & c' & -> & He)|(c1 & hf & ef & -> & Hk1 & He1 & Hg1 & _)].
  { left. run. by eexists _, _. }
  run. right. pose proof (apply_root_kept c1 old hf ef) as (Hk2 & He2 & Hg2).
  destruct (apply_root c1 old hf ef) as [c2 ef2]. simpl in *.
  exists c2, hf, ef2, (bool_decide (c2.(euid) ≠ old.(euid) ∨
       ¬ (c2.(egid) = old.(fsgid) ∨ c2.(egid) ∈ group_ids gs old))). eexists. split; [done|].
  assert (Hch : ∃ b, (if decide (c2.(euid) ≠ old.(euid)) then Done true
      else kernel_credentials_in_group gs old c2.(egid)) = Done b ∧
    bool_decide (c2.(euid) ≠ old.(euid)) || negb b = bool_decide (c2.(euid) ≠ old.(euid) ∨
       ¬ (c2.(egid) = old.(fsgid) ∨ c2.(egid) ∈ group_ids gs old))).
  { destruct (decide (c2.(euid) ≠ old.(euid))) as [Hne|Heq].
    - exists true. split; [done|]. rewrite (bool_decide_true (_ ≠ _)) by done.
      symmetry. apply bool_decide_eq_true. by left.
    - rewrite in_group_total by done. eexists. split; [done|].
      rewrite (bool_decide_false (_ ≠ _)) by done. simpl. rewrite <-bool_decide_not.
      apply bool_decide_ext. tauto. }
  destruct Hch as (b & -> & Hb). run. rewrite Hb. split; [done|]. split; [by etrans; [|etrans]|].
  split; [done|]. destruct Hn0. split; congruence.
Qed.

(** [next] is a private copy of [old], as [kernel_credentials_clone] makes it. *)
Record clone_of (next old : kernel_credentials) : Prop := {
  cl_kept : kept next old;
  cl_euid : next.(euid) = old.(euid);
  cl_egid : next.(egid) = old.(egid);
}.

Lemma not_gained c old : gained c old = false ↔ bits_subset c.(permitted) old.(permitted).
Proof.
  unfold gained, bits_subset. rewrite bool_decide_eq_false. split; [|tauto].
  intros H. by destruct (decide (Z.land (permitted c) (Z.lnot (permitted old)) = 0)).
Qed.
Lemma apply_unsafe_confined c old ch us nnp :
  us || nnp = true → bits_subset (apply_unsafe c old ch us nnp).(permitted) old.(permitted).
Proof.
  intros Hu. unfold apply_unsafe. rewrite Hu, andb_true_r. destruct (ch || gained c old) eqn:E.
  - apply bits_subset_land_r.
  - apply orb_false_iff in E as [_ E]. by apply not_gained.
Qed.
Lemma settle_sets n hf ch ef : bits_subset (settle n hf ch ef).(effective) (settle n hf ch ef).(permitted).
Proof. simpl. destruct ef; auto with boaros. Qed.

Lemma apply_unsafe_ids c old ch us nnp :
  ch || gained c old = true → us || nnp = true →
  nnp = true ∨ kernel_credentials_capable old KERNEL_CAP_SETUID = false →
  (apply_unsafe c old ch us nnp).(euid) = c.(uid) ∧ (apply_unsafe c old ch us nnp).(egid) = c.(gid).
Proof.
  intros E1 E2 Hn. unfold apply_unsafe. rewrite E1, E2. simpl.
  destruct Hn as [->| ->]; [rewrite orb_true_r|]; done.
Qed.

(** C18: a restricted exec (no_new_privs, or filesystem state shared with other
    processes) never gains a capability, whatever the file's mode bits, owner and
    capability attribute say and however malformed that attribute is.  Under
    no_new_privs, or without the right to change IDs, the effective IDs of the
    new image are ones the caller already had.  A refused exec reports EINVAL
    or EPERM and publishes no flags. *)
Theorem restricted_exec_confined gs (next old : kernel_credentials)
    (file : kernel_vfs_exec_metadata) (unsafe_fs no_new_privs se0 du0 : bool)
    (Hlen : length file.(filecap) = 24%nat) (Hgroups : groups_ok gs old)
    (Hclone : clone_of next old) (Hambient : bits_subset old.(ambient) old.(permitted))
    (Hrestricted : unsafe_fs || no_new_privs = true) :
  ∃ st n se du,
    kernel_exec_credentials_prepare gs next old file unsafe_fs no_new_privs se0 du0
      = Done (st, n, se, du) ∧
    (st ≠ 0 → (st = - KERNEL_EINVAL ∨ st = - KERNEL_EPERM) ∧ se = se0 ∧ du = du0) ∧
    (st = 0 →
       bits_subset n.(permitted) old.(permitted) ∧ bits_subset n.(effective) n.(permitted) ∧
       (no_new_privs = true ∨ kernel_credentials_capable old KERNEL_CAP_SETUID = false →
        (n.(euid) = old.(euid) ∨ n.(euid) = old.(uid)) ∧
        (n.(egid) = old.(gid) ∨ n.(egid) = old.(fsgid) ∨ n.(egid) ∈ group_ids gs old))).
Proof.
  destruct Hclone as [Hk Hu Hg'].
  destruct (prepare_cases gs next old file unsafe_fs no_new_privs se0 du0 Hlen Hgroups)
    as [(error & n & -> & He)|(c & hf & ef & changed & n & En & -> & Hkc & Hch & _)].
  { eexists _, _, _, _. split; [done|]. split; [done|].
    unfold KERNEL_EINVAL, KERNEL_EPERM in He. lia. }
  eexists _, _, _, _. split; [done|]. split; [done|]. intros _.
  pose proof (apply_unsafe_confined c old changed unsafe_fs no_new_privs Hrestricted) as Hconf.
  pose proof (apply_unsafe_kept c old changed unsafe_fs no_new_privs) as Hku.
  rewrite En. split; [|split; [apply settle_sets|]].
  - simpl. apply bits_subset_lor. split; [done|]. destruct (hf || changed); [done|].
    by rewrite (k_ambient _ _ Hku), (k_ambient _ _ Hkc), (k_ambient _ _ Hk).
  - intros Hids. simpl. destruct (changed || gained c old) eqn:E.
    + destruct (apply_unsafe_ids c old changed unsafe_fs no_new_privs E Hrestricted Hids) as [-> ->].
      rewrite (k_uid _ _ Hkc), (k_uid _ _ Hk), (k_gid _ _ Hkc), (k_gid _ _ Hk). tauto.
    + unfold apply_unsafe. rewrite E. simpl. apply orb_false_iff in E as [E _]. subst changed.
      apply bool_decide_eq_false in E.
      destruct (decide (c.(egid) = old.(fsgid) ∨ c.(egid) ∈ group_ids gs old)); [|tauto].
      destruct (decide (c.(euid) = old.(euid))); tauto.
Qed.

Definition demo_user : kernel_credentials :=
  mk_credentials 1 1 1000 1000 1000 1000 100 100 100 100 0 0 0 0 KERNEL_CAP_VALID_MASK 0 0 2.
(** A set-user-ID root program with every capability in its attribute. *)
Definition demo_file : kernel_vfs_exec_metadata :=
  mk_metadata 2541 0 0 [1; 0; 0; 2; 255; 255; 255; 255; 0; 0; 0; 0; 255; 1; 0; 0; 0; 0; 0; 0; 0; 0; 0; 0]
    20 true false true.
Lemma demo_clone : clone_of demo_user demo_user.
Proof. by split. Qed.
Lemma restricted_exec_confined_witness :
  ∃ st n se du,
    kernel_exec_credentials_prepare ∅ demo_user demo_user demo_file false true false true
      = Done (st, n, se, du) ∧ st = 0 ∧ bits_subset n.(permitted) 0 ∧ n.(euid) = 1000.
Proof.
  destruct (restricted_exec_confined ∅ demo_user demo_user demo_file false true false true
    eq_refl ltac:(intros H; by destruct H) demo_clone eq_refl eq_refl) as (st & n & se & du & E & _ & Hok).
  assert (Est : st = 0) by (vm_compute in E; congruence).
  exists st, n, se, du. split; [exact E|]. split; [exact Est|].
  destruct (Hok Est) as (Hp & _ & Hids). split; [exact Hp|].
  destruct (Hids (or_introl eq_refl)) as [[H|H] _]; exact H.
Defined.


