(* ===== verification/AccountsTheory.v ===== *)
(** * Per-user accounts: one per user, counted exactly

    The owners outside this component are a ghost list of holds, one per
    reference handed out, each with what it has charged. *)
From S2P Require Import Prelude Heap Credentials.
Import Heap Credentials.
#[local] Open Scope Z_scope.

(** A reference (which may carry pipe pages), a SHM_LOCK charge, a message
    queue charge. *)
Inductive hold :=
  | Ref (pipe_pages : Z)
  | Shm (pages : Z)
  | Mq (bytes : Z).
#[global] Instance hold_eq_dec : EqDecision hold.
Proof. solve_decision. Defined.

Definition one (h : hold) : Z := 1.
Definition shm_of (h : hold) : Z := match h with Shm n => n | _ => 0 end.
Definition mq_of (h : hold) : Z := match h with Mq n => n | _ => 0 end.
Definition pipe_of (h : hold) : Z := match h with Ref n => n | _ => 0 end.

Fixpoint total (f : hold → Z) (p : Z) (g : list (Z * hold)) : Z :=
  match g with
  | [] => 0
  | (q, h) :: g' => (if decide (q = p) then f h else 0) + total f p g'
  end.
Lemma total_cons f p q h g :
  total f p ((q, h) :: g) = (if decide (q = p) then f h else 0) + total f p g.
Proof. done. Qed.
#[global] Instance total_proper f p : Proper ((≡ₚ) ==> (=)) (total f p).
Proof.
  induction 1 as [|[q h] g1 g2 _ IH|[q h] [q' h'] g|g1 g2 g3 _ IH1 _ IH2]; simpl; [done|by rewrite IH|lia|congruence].
Qed.
Definition hold_ok (h : hold) : Prop :=
  match h with Ref n => 0 ≤ n | Shm n => 0 < n | Mq n => 0 ≤ n end.
Lemma total_nonneg f p g :
  (∀ h, hold_ok h → 0 ≤ f h) → Forall (λ x, hold_ok x.2) g → 0 ≤ total f p g.
Proof.
  intros Hf. induction 1 as [|[q h] g Hh _ IH]; simpl; [lia|]. simpl in Hh. specialize (Hf h Hh).
  case_decide; lia.
Qed.
Lemma total_in f p h g :
  (∀ h, hold_ok h → 0 ≤ f h) → Forall (λ x, hold_ok x.2) g → (p, h) ∈ g → f h ≤ total f p g.
Proof.
  intros Hf Hg (g' & Hp)%elem_of_Permutation. rewrite Hp, total_cons, decide_True by done.
  rewrite Hp in Hg. apply Forall_cons in Hg as [_ Hg]. pose proof (total_nonneg f p g' Hf Hg). lia.
Qed.
Lemma total_zero f p g : (∀ h, (p, h) ∉ g) → total f p g = 0.
Proof.
  induction g as [|[q h] g IH]; intros Hn; [done|]. simpl. rewrite IH.
  - rewrite decide_False; [done|]. intros ->. apply (Hn h). left.
  - intros h' Hh'. apply (Hn h'). by right.
Qed.
Lemma total_one_zero p g : total one p g = 0 → ∀ h, (p, h) ∉ g.
Proof.
  intros Ht h (g' & Hp)%elem_of_Permutation. rewrite Hp, total_cons, decide_True in Ht by done.
  assert (∀ g, 0 ≤ total one p g) as Hnn.
  { clear. induction g as [|[q h] g IH]; simpl; [lia|]. unfold one in *. case_decide; lia. }
  specialize (Hnn g'). unfold one in *. lia.
Qed.

Section accounts.
Context {H : Type} `{!ObjectHeap H}.
Implicit Types (w : objects H) (g : list (Z * hold)) (cs : list (Z * Z)).

(** The counters of one account against the holds on it.  The static root
    account is not counted. *)
Record account_counts (g : list (Z * hold)) (p : Z) (a : kernel_uid_account) : Prop := {
  ac_refs : if decide (a.(a_heap) = 0) then a.(a_references) = 1
            else a.(a_references) = total one p g ∧ 0 < a.(a_references);
  ac_shm : a.(a_shm_locked_pages) = total shm_of p g ∧ a.(a_shm_locked_pages) ≤ UINT64_MAX;
  ac_mq : a.(a_mqueue_bytes) = total mq_of p g ∧ a.(a_mqueue_bytes) ≤ UINT64_MAX;
  ac_pipe : a.(a_pipe_pages) = total pipe_of p g ∧ a.(a_pipe_pages) ≤ UINT64_MAX;
  ac_rest : a.(a_pending) = 0 ∧ a.(a_processes) = 0;
}.

(** [cs] lists the private candidates of running [kernel_uid_account_get] calls. *)
Record accounts_ok w g cs : Prop := {
  ok_buckets : length w.(o_accounts) = 64%nat;
  ok_chain : ∀ b chain, w.(o_accounts) !! b = Some chain → NoDup chain;
  ok_table : ∀ b chain p, w.(o_accounts) !! b = Some chain → p ∈ chain →
    p ≠ 0 ∧ ∃ a, w.(o_account) !! p = Some a ∧ bucket a.(a_uid) = b;
  ok_listed : ∀ p a, w.(o_account) !! p = Some a →
    ∃ chain, w.(o_accounts) !! bucket a.(a_uid) = Some chain ∧ p ∈ chain;
  ok_unique : ∀ p q a b, w.(o_account) !! p = Some a → w.(o_account) !! q = Some b →
    a.(a_uid) = b.(a_uid) → p = q;
  ok_counts : ∀ p a, w.(o_account) !! p = Some a → account_counts g p a;
  ok_holds : ∀ p h, (p, h) ∈ g → is_Some (w.(o_account) !! p);
  ok_charges : Forall (λ x, hold_ok x.2) g;
  ok_live : ∀ p a, w.(o_account) !! p = Some a → p ∈ heap_live w.(o_heap);
  ok_candidates : ∀ p uid, (p, uid) ∈ cs →
    p ≠ 0 ∧ p ∈ heap_live w.(o_heap) ∧ w.(o_account) !! p = None;
  ok_distinct : NoDup cs.*1;
}.

Lemma bucket_lt uid : (bucket uid < 64)%nat.
Proof. unfold bucket, ACCOUNT_BUCKETS. pose proof (Z.mod_pos_bound uid 64). lia. Qed.
Lemma ok_chain_of w g cs uid : accounts_ok w g cs →
  ∃ chain, w.(o_accounts) !! bucket uid = Some chain ∧ NoDup chain.
Proof.
  intros Hok. destruct (lookup_lt_is_Some_2 w.(o_accounts) (bucket uid)) as [chain Hc].
  { rewrite (ok_buckets _ _ _ Hok). apply bucket_lt. }
  exists chain. split; [done|by eapply ok_chain].
Qed.

(** ** Scanning *)
Lemma find_uid_spec w g cs chain uid :
  accounts_ok w g cs →
  (∀ p, p ∈ chain → p ≠ 0 ∧ is_Some (w.(o_account) !! p)) →
  ∃ r, find_uid chain uid w = Done (r, w) ∧
    ((r = 0 ∧ ∀ p a, p ∈ chain → w.(o_account) !! p = Some a → a.(a_uid) ≠ uid) ∨
     (r ≠ 0 ∧ ∃ a, w.(o_account) !! r = Some a ∧ a.(a_uid) = uid)).
Proof.
  intros Hok. induction chain as [|p chain IH]; intros Hc.
  { exists 0. split; [done|]. left. split; [done|]. by intros ? ? ?%elem_of_nil. }
  destruct (Hc p ltac:(left)) as [Hnz [a Ha]]. cbn [find_uid].
  assert (E : load_account p w = Done (a, w)) by (unfold load_account; by rewrite Ha). step E.
  case_decide as Hu.
  - exists p. split; [done|]. right. split; [done|]. by exists a.
  - destruct IH as (r & -> & Hr). { intros q Hq. apply Hc. by right. }
    exists r. split; [done|]. destruct Hr as [[-> Hr]|Hr]; [left|by right]. split; [done|].
    intros q b [->|Hq]%elem_of_cons Hb; [congruence|eauto].
Qed.
Lemma scan_bucket_spec w g cs uid :
  accounts_ok w g cs →
  ∃ r, scan_bucket uid w = Done (r, w) ∧
    ((r = 0 ∧ ∀ p a, w.(o_account) !! p = Some a → a.(a_uid) ≠ uid) ∨
     (r ≠ 0 ∧ ∃ a, w.(o_account) !! r = Some a ∧ a.(a_uid) = uid)).
Proof.
  intros Hok. destruct (ok_chain_of _ _ _ uid Hok) as (chain & Hc & _).
  unfold scan_bucket. rewrite (aread_ok _ _ _ Hc).
  destruct (find_uid_spec w g cs chain uid Hok) as (r & -> & Hr).
  { intros p Hp. destruct (ok_table _ _ _ Hok _ _ _ Hc Hp) as (? & a & ? & _). split; [done|by eexists]. }
  exists r. split; [done|]. destruct Hr as [[-> Hr]|Hr]; [left|by right]. split; [done|].
  intros p a Ha Hu. destruct (ok_listed _ _ _ Hok p a Ha) as (chain' & Hc' & Hp).
  rewrite Hu in Hc'. simplify_eq. by apply (Hr p a).
Qed.

(** ** Changing one account in place *)

(** Replacing the counters of account [p] while the holds change from [g] to
    [g'], only on [p]. *)
Lemma accounts_ok_update w g g' cs p a a' :
  accounts_ok w g cs → w.(o_account) !! p = Some a →
  a'.(a_uid) = a.(a_uid) → a'.(a_heap) = a.(a_heap) → account_counts g' p a' →
  (∀ q f, q ≠ p → total f q g' = total f q g) →
  (∀ q h, (q, h) ∈ g' → q = p ∨ (q, h) ∈ g) → Forall (λ x, hold_ok x.2) g' →
  accounts_ok (set_accounts w (<[p := a']> w.(o_account))) g' cs.
Proof.
  intros Hok Ha Hu Hh Hc Hother Hin Hch. destruct Hok as [H1 H2 H3 H4 H5 H6 H7 H8 H9 H10 H11].
  split; simpl; try done.
  - intros b chain q Hb Hq. destruct (H3 b chain q Hb Hq) as (? & aq & Haq & ?). split; [done|].
    destruct (decide (q = p)) as [->|Hne].
    + exists a'. rewrite lookup_insert_eq, Hu. split; [done|]. congruence.
    + exists aq. by rewrite lookup_insert_ne.
  - intros q b [[<- <-]|[_ Hq]]%lookup_insert_Some; [rewrite Hu|]; eauto.
  - intros q r b c [[<- <-]|[Hqp Hq]]%lookup_insert_Some [[<- <-]|[Hrp Hr]]%lookup_insert_Some Huid;
      [done|apply (H5 p r a c); congruence|apply (H5 q p b a); congruence|by apply (H5 q r b c)].
  - intros q b [[<- <-]|[Hne Hq]]%lookup_insert_Some; [done|]. destruct (H6 q b Hq).
    split; rewrite ?Hother by done; done.
  - intros q h Hq. destruct (decide (q = p)) as [->|Hne]; [by rewrite lookup_insert_eq|].
    rewrite lookup_insert_ne by done. destruct (Hin q h Hq); [done|eauto].
  - intros q b [[<- <-]|[_ Hq]]%lookup_insert_Some; eauto.
  - intros q u Hq. destruct (H10 q u Hq) as (? & ? & Hnone). split_and!; [done..|].
    rewrite lookup_insert_ne; congruence.
Qed.

Lemma load_ok w p a : w.(o_account) !! p = Some a → load_account p w = Done (a, w).
Proof. intros Ha. unfold load_account. by rewrite Ha. Qed.

Lemma total_one_length p g : total one p g ≤ Z.of_nat (length g).
Proof. induction g as [|[q h] g IH]; simpl; [lia|]. unfold one at 1. case_decide; lia. Qed.
Lemma total_other f p q h g : q ≠ p → total f q ((p, h) :: g) = total f q g.
Proof. intros. by rewrite total_cons, decide_False. Qed.
Lemma total_same f p h g : total f p ((p, h) :: g) = f h + total f p g.
Proof. by rewrite total_cons, decide_True. Qed.

(** ** Taking a reference *)
Lemma get_locked_spec w g cs p a :
  accounts_ok w g cs → w.(o_account) !! p = Some a → p ≠ 0 → Z.of_nat (length g) < UINT64_MAX →
  ∃ w' a', kernel_uid_account_get_locked p w = Done (p, w') ∧ accounts_ok w' ((p, Ref 0) :: g) cs ∧
    w'.(o_account) !! p = Some a' ∧ a'.(a_heap) = a.(a_heap) ∧ a'.(a_uid) = a.(a_uid) ∧
    w' = set_accounts w w'.(o_account).
Proof.
  intros Hok Ha Hnz Hlen. pose proof (ok_counts _ _ _ Hok p a Ha) as [Hr Hs Hm Hpi Hrest].
  pose proof (total_one_length p g) as Hle.
  set (a' := if decide (a.(a_heap) ≠ 0) then with_references a (a.(a_references) + 1) else a).
  assert (E : kernel_uid_account_get_locked p w =
    Done (p, set_accounts w (<[p := a']> w.(o_account)))).
  { unfold kernel_uid_account_get_locked. rewrite (ST_lift_bind _ _ _ tt) by (by apply trap_if_ok).
    step (load_ok w p a Ha). rewrite (ST_lift_bind _ _ _ tt).
    2: { apply trap_if_ok. destruct (decide (a_heap a = 0)); mlia. }
    unfold a'. destruct (decide (a_heap a ≠ 0)) as [Hh|Hh]; [done|].
    unfold set_accounts. rewrite insert_id by done. by destruct w. }
  exists (set_accounts w (<[p := a']> w.(o_account))), a'. split; [done|].
  assert (Hu : a'.(a_uid) = a.(a_uid) ∧ a'.(a_heap) = a.(a_heap)) by (unfold a'; by destruct (decide (a_heap a ≠ 0))).
  destruct Hu as [Hu Hh']. split.
  - apply (accounts_ok_update w g _ cs p a); try done.
    + destruct (decide (a_heap a = 0)) as [E0|E0].
      * assert (a' = a) as -> by (unfold a'; by rewrite decide_False by tauto).
        split; rewrite ?total_same; simpl; [by rewrite decide_True|tauto..].
      * assert (a' = with_references a (a_references a + 1)) as -> by (unfold a'; by rewrite decide_True).
        split; rewrite ?total_same; simpl; [|tauto..]. rewrite decide_False by done. change (one (Ref 0)) with 1. lia.
    + intros q f Hq. by apply total_other.
    + intros q h [[= -> ->]|Hin]%elem_of_cons; [by left|by right].
    + constructor; [done|apply (ok_charges _ _ _ Hok)].
  - simpl. rewrite lookup_insert_eq. done.
Qed.

(** Turning one hold into another of the same reference. *)
Lemma accounts_ok_convert w g cs p a a' h h' :
  accounts_ok w ((p, h) :: g) cs → w.(o_account) !! p = Some a → hold_ok h' →
  a'.(a_uid) = a.(a_uid) → a'.(a_heap) = a.(a_heap) → a'.(a_references) = a.(a_references) →
  a'.(a_pending) = a.(a_pending) → a'.(a_processes) = a.(a_processes) →
  a'.(a_shm_locked_pages) = a.(a_shm_locked_pages) - shm_of h + shm_of h' → a'.(a_shm_locked_pages) ≤ UINT64_MAX →
  a'.(a_mqueue_bytes) = a.(a_mqueue_bytes) - mq_of h + mq_of h' → a'.(a_mqueue_bytes) ≤ UINT64_MAX →
  a'.(a_pipe_pages) = a.(a_pipe_pages) - pipe_of h + pipe_of h' → a'.(a_pipe_pages) ≤ UINT64_MAX →
  accounts_ok (set_accounts w (<[p := a']> w.(o_account))) ((p, h') :: g) cs.
Proof.
  intros Hok Ha Hh' Hu Hhp Hr Hpe Hpr Hs Hsb Hm Hmb Hpi Hpib.
  pose proof (ok_counts _ _ _ Hok p a Ha) as [Cr Cs Cm Cpi Crest]. rewrite !total_same in *.
  apply (accounts_ok_update w ((p, h) :: g) _ cs p a); try done.
  - split; rewrite ?total_same, ?Hhp, ?Hr, ?Hpe, ?Hpr; [|lia|lia|lia|done].
    destruct (decide (a_heap a = 0)); [done|]. unfold one in *. lia.
  - intros q f Hq. by rewrite !total_other.
  - intros q k [[= -> ->]|Hin]%elem_of_cons; [by left|]. right. by right.
  - pose proof (ok_charges _ _ _ Hok) as [_ ?]%Forall_cons. by constructor.
Qed.

(** ** Returning a reference *)
Lemma unlink_spec (chain : list Z) p :
  NoDup chain → p ∈ chain →
  ∃ rest, unlink chain p = Some rest ∧ NoDup rest ∧ ∀ x, x ∈ rest ↔ x ∈ chain ∧ x ≠ p.
Proof.
  induction 1 as [|x chain Hx Hnd IH]; [by intros ?%elem_of_nil|]. intros Hp. simpl. case_decide as E.
  - subst x. exists chain. split; [done|]. split; [done|]. intros y. rewrite elem_of_cons. naive_solver.
  - apply elem_of_cons in Hp as [->|Hp]; [done|]. destruct (IH Hp) as (rest & -> & Hnr & Hin).
    exists (x :: rest). split; [done|]. split.
    + constructor; [|done]. rewrite Hin. tauto.
    + intros y. rewrite !elem_of_cons, Hin. naive_solver.
Qed.
Lemma accounts_ok_remove w g cs p a chain rest :
  accounts_ok w ((p, Ref 0) :: g) cs → w.(o_account) !! p = Some a → (∀ h, (p, h) ∉ g) →
  w.(o_accounts) !! bucket a.(a_uid) = Some chain →
  NoDup rest → (∀ x, x ∈ rest ↔ x ∈ chain ∧ x ≠ p) →
  accounts_ok (mk_objects (heap_free w.(o_heap) p) (<[bucket a.(a_uid) := rest]> w.(o_accounts))
    (delete p w.(o_account)) w.(o_groups) w.(o_credentials) w.(o_security)) g cs.
Proof.
  intros Hok Ha Hno Hch Hnd Hin. destruct Hok as [H1 H2 H3 H4 H5 H6 H7 H8 H9 H10 H11].
  assert (Hlt : (bucket (a_uid a) < length (o_accounts w))%nat) by (by eapply lookup_lt_Some).
  split; simpl.
  - by rewrite length_insert.
  - intros b c [[<- [<- _]]|[? ?]]%list_lookup_insert_Some; eauto.
  - intros b c q [[<- [<- _]]|[Hne Hb]]%list_lookup_insert_Some Hq.
    + apply Hin in Hq as [Hq Hqp]. destruct (H3 _ _ _ Hch Hq) as (? & aq & ? & ?).
      split; [done|]. exists aq. by rewrite lookup_delete_ne.
    + destruct (H3 _ _ _ Hb Hq) as (? & aq & Haq & Hbq). split; [done|].
      exists aq. rewrite lookup_delete_ne; [done|]. congruence.
  - intros q b [Hqp Hq]%lookup_delete_Some. destruct (H4 q b Hq) as (c & Hc & Hqc).
    destruct (decide (bucket (a_uid b) = bucket (a_uid a))) as [E|E].
    + exists rest. rewrite E, list_lookup_insert_eq by done. split; [done|].
      apply Hin. split; [congruence|done].
    + exists c. by rewrite list_lookup_insert_ne.
  - intros q r b c [_ Hq]%lookup_delete_Some [_ Hr]%lookup_delete_Some. eauto.
  - intros q b [Hqp Hq]%lookup_delete_Some. destruct (H6 q b Hq) as [? ? ? ? ?].
    rewrite !total_other in * by congruence. by split.
  - intros q h Hq. rewrite lookup_delete_ne; [eapply (H7 q h); by right|]. intros ->. by apply (Hno h).
  - by apply Forall_cons in H8 as [_ ?].
  - intros q b [Hqp Hq]%lookup_delete_Some. rewrite heap_free_live. set_unfold.
    split; [eauto|congruence].
  - intros q u Hq. destruct (H10 q u Hq) as (? & ? & Hnone). split_and!; [done| |].
    + rewrite heap_free_live. set_unfold. split; [done|]. congruence.
    + by apply lookup_delete_None; right.
  - done.
Qed.

Lemma ok_nonzero w g cs p a : accounts_ok w g cs → w.(o_account) !! p = Some a → p ≠ 0.
Proof.
  intros Hok Ha. destruct (ok_listed _ _ _ Hok p a Ha) as (c & Hc & Hp).
  by apply (ok_table _ _ _ Hok _ _ _ Hc Hp).
Qed.
Lemma accounts_ok_drop w g cs p a a' :
  accounts_ok w ((p, Ref 0) :: g) cs → w.(o_account) !! p = Some a →
  a' = (if decide (a.(a_heap) = 0) then a else with_references a (a.(a_references) - 1)) →
  (a.(a_heap) ≠ 0 → 0 < total one p g) →
  accounts_ok (set_accounts w (<[p := a']> w.(o_account))) g cs.
Proof.
  intros Hok Ha -> Hpos. pose proof (ok_counts _ _ _ Hok p a Ha) as [Cr Cs Cm Cpi Crest].
  rewrite !total_same in *. change (one (Ref 0)) with 1 in Cr. simpl in Cs, Cm, Cpi.
  apply (accounts_ok_update w ((p, Ref 0) :: g) _ cs p a); try done.
  - by destruct (decide (a_heap a = 0)).
  - by destruct (decide (a_heap a = 0)).
  - destruct (decide (a_heap a = 0)) as [E|E].
    + split; [by rewrite decide_True|done..].
    + split; simpl; [|done..]. rewrite decide_False by done. specialize (Hpos E). lia.
  - intros q f Hq. by rewrite total_other.
  - intros q k Hin. right. by right.
  - by pose proof (ok_charges _ _ _ Hok) as [_ ?]%Forall_cons.
Qed.
Lemma put_release_spec w g cs p :
  accounts_ok w ((p, Ref 0) :: g) cs →
  ∃ w', (a ← kernel_uid_account_put_locked p; kernel_uid_account_release a) w = Done (tt, w') ∧
    accounts_ok w' g cs.
Proof.
  intros Hok. destruct (ok_holds _ _ _ Hok p (Ref 0)) as [a Ha]; [left|].
  pose proof (ok_nonzero _ _ _ _ _ Hok Ha) as Hnz.
  pose proof (ok_counts _ _ _ Hok p a Ha) as [Cr Cs Cm Cpi Crest]. rewrite !total_same in *.
  change (one (Ref 0)) with 1 in Cr. simpl in Cs, Cm, Cpi.
  unfold kernel_uid_account_put_locked. rewrite decide_False by done.
  destruct (decide (a_heap a = 0)) as [E|E].
  { exists (set_accounts w (<[p := a]> w.(o_account))). split.
    - unfold set_accounts. rewrite insert_id by done. unfold mbind, ST_bind, load_account. rewrite Ha.
      rewrite decide_True by done. by destruct w.
    - apply (accounts_ok_drop w g cs p a a); [done|done| |done]. by rewrite decide_True. }
  set (a1 := with_references a (a_references a - 1)).
  destruct (decide (a_references a - 1 = 0)) as [Hlast|Hmore].
  - assert (Hno : ∀ h, (p, h) ∉ g) by (apply total_one_zero; lia).
    assert (Hz : total shm_of p g = 0 ∧ total mq_of p g = 0 ∧ total pipe_of p g = 0)
      by (by rewrite !total_zero).
    destruct (ok_listed _ _ _ Hok p a Ha) as (chain & Hc & Hp).
    destruct (unlink_spec chain p (ok_chain _ _ _ Hok _ _ Hc) Hp) as (rest & Hun & Hnd & Hin).
    eexists. split; [|by apply (accounts_ok_remove w g cs p a chain rest)].
    unfold mbind, ST_bind, load_account, lift. rewrite Ha. rewrite decide_False by done.
      rewrite trap_if_ok by lia. unfold store_account. fold a1.
      rewrite decide_False by (simpl; lia). rewrite trap_if_ok by (simpl; lia).
      unfold unlink_account. simpl. rewrite (aread_ok _ _ _ Hc), Hun.
      unfold kernel_uid_account_release, mret, ST_ret, set_table, set_heap, set_accounts. simpl.
      rewrite decide_True by done. by rewrite delete_insert_eq.
  - exists (set_accounts w (<[p := a1]> w.(o_account))). split.
    + unfold mbind, ST_bind, load_account, lift. rewrite Ha. rewrite decide_False by done.
      rewrite trap_if_ok by lia. unfold store_account. fold a1. by rewrite decide_True.
    + apply (accounts_ok_drop w g cs p a a1); [done|done|by rewrite decide_False|lia].
Qed.
Lemma uid_account_put_spec w g cs p :
  accounts_ok w ((p, Ref 0) :: g) cs →
  ∃ w', kernel_uid_account_put p w = Done (tt, w') ∧ accounts_ok w' g cs.
Proof.
  intros Hok. destruct (ok_holds _ _ _ Hok p (Ref 0)) as [a Ha]; [left|].
  pose proof (ok_nonzero _ _ _ _ _ Hok Ha) as Hnz.
  destruct (put_release_spec w g cs p Hok) as (w' & E & Hok').
  exists w'. split; [|done]. rewrite <-E. unfold kernel_uid_account_put.
  rewrite decide_False by done. step (load_ok w p a Ha).
  case_decide as Hh; [|done]. unfold kernel_uid_account_put_locked. rewrite decide_False by done.
  unfold mbind, ST_bind, load_account. rewrite Ha. by rewrite decide_True.
Qed.

(** ** Charges *)
Lemma shm_lock_spec w g cs p a pages limit :
  accounts_ok w g cs → w.(o_account) !! p = Some a → 0 < pages → limit ≤ UINT64_MAX →
  Z.of_nat (length g) < UINT64_MAX →
  ∃ r w', kernel_uid_account_shm_lock p pages limit w = Done (r, w') ∧
    (if decide (total shm_of p g + pages ≤ limit)
     then r = 0 ∧ accounts_ok w' ((p, Shm pages) :: g) cs
     else r = - KERNEL_ENOMEM ∧ w' = w).
Proof.
  intros Hok Ha Hp Hl Hlen. pose proof (ok_nonzero _ _ _ _ _ Hok Ha) as Hnz.
  pose proof (ok_counts _ _ _ Hok p a Ha) as [Cr [Cs _] _ _ _].
  pose proof (total_nonneg shm_of p g ltac:(intros [] ?; simpl in *; lia) (ok_charges _ _ _ Hok)).
  unfold kernel_uid_account_shm_lock. rewrite (ST_lift_bind _ _ _ tt) by (apply trap_if_ok; lia).
  step (load_ok w p a Ha). rewrite (ST_lift_bind _ _ _ tt)
    by (apply trap_if_ok; destruct (decide (a_heap a = 0)); lia).
  destruct (decide (total shm_of p g + pages ≤ limit)) as [Hfit|Hfull];
    [rewrite decide_False by lia|rewrite decide_True by lia; by eexists _, _].
  destruct (get_locked_spec w g cs p a Hok Ha Hnz Hlen) as (w1 & a1 & E1 & Hok1 & Ha1 & Hh1 & Hu1 & _).
  step E1. step (load_ok w1 p a1 Ha1). eexists _, _. split; [done|]. split; [done|].
  pose proof (ok_counts _ _ _ Hok1 p a1 Ha1) as [_ [Cs1 _] [_ Cm1] [_ Cp1] _].
  rewrite total_same in Cs1. simpl in Cs1.
  apply (accounts_ok_convert w1 g cs p a1 _ (Ref 0) (Shm pages)); try done; simpl; try lia;
    rewrite u64_small by mlia; lia.
Qed.
Lemma shm_unlock_spec w g cs p pages :
  accounts_ok w ((p, Shm pages) :: g) cs →
  ∃ w', kernel_uid_account_shm_unlock p pages w = Done (tt, w') ∧ accounts_ok w' g cs.
Proof.
  intros Hok. destruct (ok_holds _ _ _ Hok p (Shm pages)) as [a Ha]; [left|].
  pose proof (ok_nonzero _ _ _ _ _ Hok Ha) as Hnz.
  pose proof (ok_charges _ _ _ Hok) as [Hpg Hch]%Forall_cons. simpl in Hpg.
  pose proof (ok_counts _ _ _ Hok p a Ha) as [_ [Cs ?] [_ ?] [_ ?] _]. rewrite total_same in Cs. simpl in Cs.
  pose proof (total_nonneg shm_of p g ltac:(intros [] ?; simpl in *; lia) Hch).
  unfold kernel_uid_account_shm_unlock. rewrite (ST_lift_bind _ _ _ tt) by (apply trap_if_ok; lia).
  step (load_ok w p a Ha). rewrite (ST_lift_bind _ _ _ tt) by (apply trap_if_ok; lia).
  rewrite (ST_bind_eq _ _ _ tt (set_accounts w (<[p := with_shm a (a_shm_locked_pages a - pages)]>
    w.(o_account)))) by done.
  apply put_release_spec. apply (accounts_ok_convert w g cs p a _ (Shm pages) (Ref 0)); try done; simpl; lia.
Qed.
Lemma mqueue_charge_spec w g cs p a bytes limit :
  accounts_ok w g cs → w.(o_account) !! p = Some a → 0 ≤ bytes → limit ≤ UINT64_MAX →
  Z.of_nat (length g) < UINT64_MAX →
  ∃ r w', kernel_uid_account_mqueue_charge p bytes limit w = Done (r, w') ∧
    (if decide (total mq_of p g + bytes ≤ limit)
     then r = 0 ∧ accounts_ok w' ((p, Mq bytes) :: g) cs
     else r = - KERNEL_EMFILE ∧ w' = w).
Proof.
  intros Hok Ha Hp Hl Hlen. pose proof (ok_nonzero _ _ _ _ _ Hok Ha) as Hnz.
  pose proof (ok_counts _ _ _ Hok p a Ha) as [Cr _ [Cs _] _ _].
  pose proof (total_nonneg mq_of p g ltac:(intros [] ?; simpl in *; lia) (ok_charges _ _ _ Hok)).
  unfold kernel_uid_account_mqueue_charge. rewrite (ST_lift_bind _ _ _ tt) by (apply trap_if_ok; lia).
  step (load_ok w p a Ha). rewrite (ST_lift_bind _ _ _ tt)
    by (apply trap_if_ok; destruct (decide (a_heap a = 0)); lia).
  destruct (decide (total mq_of p g + bytes ≤ limit)) as [Hfit|Hfull];
    [rewrite decide_False by lia|rewrite decide_True by lia; by eexists _, _].
  destruct (get_locked_spec w g cs p a Hok Ha Hnz Hlen) as (w1 & a1 & E1 & Hok1 & Ha1 & Hh1 & Hu1 & _).
  step E1. step (load_ok w1 p a1 Ha1). eexists _, _. split; [done|]. split; [done|].
  pose proof (ok_counts _ _ _ Hok1 p a1 Ha1) as [_ [_ Cm1] [Cs1 _] [_ Cp1] _].
  rewrite total_same in Cs1. simpl in Cs1.
  apply (accounts_ok_convert w1 g cs p a1 _ (Ref 0) (Mq bytes)); try done; simpl; try lia;
    rewrite u64_small by mlia; lia.
Qed.
Lemma mqueue_uncharge_spec w g cs p bytes :
  accounts_ok w ((p, Mq bytes) :: g) cs →
  ∃ w', kernel_uid_account_mqueue_uncharge p bytes w = Done (tt, w') ∧ accounts_ok w' g cs.
Proof.
  intros Hok. destruct (ok_holds _ _ _ Hok p (Mq bytes)) as [a Ha]; [left|].
  pose proof (ok_nonzero _ _ _ _ _ Hok Ha) as Hnz.
  pose proof (ok_charges _ _ _ Hok) as [Hpg Hch]%Forall_cons. simpl in Hpg.
  pose proof (ok_counts _ _ _ Hok p a Ha) as [_ [_ ?] [Cs ?] [_ ?] _]. rewrite total_same in Cs. simpl in Cs.
  pose proof (total_nonneg mq_of p g ltac:(intros [] ?; simpl in *; lia) Hch).
  unfold kernel_uid_account_mqueue_uncharge. rewrite (ST_lift_bind _ _ _ tt) by (apply trap_if_ok; lia).
  step (load_ok w p a Ha). rewrite (ST_lift_bind _ _ _ tt) by (apply trap_if_ok; lia).
  rewrite (ST_bind_eq _ _ _ tt (set_accounts w (<[p := with_mqueue a (a_mqueue_bytes a - bytes)]>
    w.(o_account)))) by done.
  apply put_release_spec. apply (accounts_ok_convert w g cs p a _ (Mq bytes) (Ref 0)); try done; simpl; lia.
Qed.
Lemma pipe_pages_spec w g cs p old new :
  accounts_ok w ((p, Ref old) :: g) cs → 0 ≤ new → total pipe_of p g + new ≤ UINT64_MAX →
  ∃ w', kernel_uid_account_pipe_pages p old new w = Done (total pipe_of p g + new, w') ∧
    accounts_ok w' ((p, Ref new) :: g) cs.
Proof.
  intros Hok Hnew Hfit. destruct (ok_holds _ _ _ Hok p (Ref old)) as [a Ha]; [left|].
  pose proof (ok_nonzero _ _ _ _ _ Hok Ha) as Hnz.
  pose proof (ok_charges _ _ _ Hok) as [Hpg Hch]%Forall_cons. simpl in Hpg.
  pose proof (ok_counts _ _ _ Hok p a Ha) as [Cr [_ ?] [_ ?] [Cs ?] _]. rewrite total_same in Cs. simpl in Cs.
  pose proof (total_nonneg pipe_of p g ltac:(intros [] ?; simpl in *; lia) Hch).
  unfold kernel_uid_account_pipe_pages. rewrite (ST_lift_bind _ _ _ tt) by (apply trap_if_ok; lia).
  step (load_ok w p a Ha). rewrite (ST_lift_bind _ _ _ tt)
    by (apply trap_if_ok; destruct (decide (a_heap a = 0)); lia).
  replace (a_pipe_pages a - old + new) with (total pipe_of p g + new) by lia.
  eexists. split; [done|].
  apply (accounts_ok_convert w g cs p a _ (Ref old) (Ref new)); try done; simpl; lia.
Qed.

(** ** Finding or creating the account of a user *)
Lemma accounts_ok_perm w g g' cs cs' :
  g ≡ₚ g' → cs ≡ₚ cs' → accounts_ok w g cs → accounts_ok w g' cs'.
Proof.
  intros Hg Hcs [H1 H2 H3 H4 H5 H6 H7 H8 H9 H10 H11]. split; try done.
  - intros p a Ha. destruct (H6 p a Ha).
    assert (Ht : ∀ f, total f p g' = total f p g) by (intros; by rewrite Hg). by split; rewrite ?Ht.
  - intros p h. rewrite <-Hg. apply H7.
  - by rewrite <-Hg.
  - intros p u. rewrite <-Hcs. apply H10.
  - by rewrite <-Hcs.
Qed.
Lemma get_scan_spec w g cs uid :
  accounts_ok w g cs → Z.of_nat (length g) < UINT64_MAX →
  ∃ r w', account_get_scan uid w = Done (r, w') ∧
    ((r = 0 ∧ w' = w) ∨
     (r ≠ 0 ∧ accounts_ok w' ((r, Ref 0) :: g) cs ∧
      ∃ a, w'.(o_account) !! r = Some a ∧ a.(a_uid) = uid)).
Proof.
  intros Hok Hlen. unfold account_get_scan.
  destruct (scan_bucket_spec w g cs uid Hok) as (r & E & Hr). step E.
  destruct Hr as [[-> _]|[Hnz (a & Ha & Hu)]].
  - rewrite decide_False by (intros X; by apply X). exists 0, w. split; [done|by left].
  - rewrite decide_True by done.
    destruct (get_locked_spec w g cs r a Hok Ha Hnz Hlen) as (w1 & a1 & E1 & Hok1 & Ha1 & _ & Hu1 & _).
    exists r, w1. split; [done|]. right. split; [done|]. split; [done|]. exists a1. split; congruence.
Qed.
Lemma allocate_spec w g cs bytes uid :
  accounts_ok w g cs →
  ∃ p w', allocate bytes w = Done (p, w') ∧
    accounts_ok w' g (if decide (p = 0) then cs else (p, uid) :: cs).
Proof.
  intros Hok. unfold allocate. destruct (heap_allocate w.(o_heap) bytes) as [[st p] h] eqn:E.
  eexists _, _. split; [done|]. destruct Hok as [H1 H2 H3 H4 H5 H6 H7 H8 H9 H10 H11].
  destruct (decide (st = KERNEL_HEAP_STATUS_OK)) as [->|Hst].
  - destruct (heap_allocate_ok _ _ _ _ E) as (Hnz & Hfresh & Hlive). rewrite decide_False by done.
    assert (Hnone : w.(o_account) !! p = None).
    { apply eq_None_not_Some. intros [a Ha]. by apply Hfresh, (H9 p a). }
    assert (Hnew : ∀ q u, (q, u) ∈ cs → q ≠ p).
    { intros q u Hq ->. destruct (H10 p u Hq) as (_ & Hin & _). done. }
    split; simpl; try done.
    + intros q a Ha. rewrite Hlive. set_unfold. right. eauto.
    + intros q u [[= -> ->]|Hq]%elem_of_cons; rewrite Hlive.
      * split_and!; [done|set_solver|done].
      * destruct (H10 q u Hq) as (? & ? & ?). split_and!; [done|set_solver|done].
    + constructor; [|done]. intros (x & -> & Hx)%list_elem_of_fmap. destruct x as [q u].
      by apply (Hnew q u Hx).
  - apply (heap_allocate_failed _ _ _ _ _ E) in Hst as Hlive. rewrite decide_True by done.
    split; simpl; try done; by rewrite Hlive.
Qed.

(** The candidate is dropped in favour of an account someone else published. *)
Lemma accounts_ok_discard w g cs p uid :
  accounts_ok w g ((p, uid) :: cs) → accounts_ok (set_heap w (heap_free w.(o_heap) p)) g cs.
Proof.
  intros [H1 H2 H3 H4 H5 H6 H7 H8 H9 H10 H11]. simpl in H11. apply NoDup_cons in H11 as [Hp H11].
  destruct (H10 p uid ltac:(left)) as (_ & _ & Hnone). split; simpl; try done.
  - intros q a Ha. rewrite heap_free_live.
    apply elem_of_difference. split; [eauto|]. rewrite elem_of_singleton. congruence.
  - intros q u Hq. destruct (H10 q u ltac:(by right)) as (? & ? & ?). rewrite heap_free_live.
    split_and!; [done| |done]. apply elem_of_difference. split; [done|].
    intros ->%elem_of_singleton. apply Hp, list_elem_of_fmap. by exists (p, u).
Qed.
(** The candidate becomes the account of a user who has none. *)
Lemma accounts_ok_publish w g cs p uid heap chain :
  accounts_ok w g ((p, uid) :: cs) → heap ≠ 0 →
  (∀ q a, w.(o_account) !! q = Some a → a.(a_uid) ≠ uid) →
  w.(o_accounts) !! bucket uid = Some chain →
  accounts_ok (mk_objects w.(o_heap) (<[bucket uid := p :: chain]> w.(o_accounts))
    (<[p := mk_account heap 1 0 0 0 0 uid 0 0]> w.(o_account))
    w.(o_groups) w.(o_credentials) w.(o_security)) ((p, Ref 0) :: g) cs.
Proof.
  intros [H1 H2 H3 H4 H5 H6 H7 H8 H9 H10 H11] Hheap Hnew Hc.
  simpl in H11. apply NoDup_cons in H11 as [Hp H11].
  destruct (H10 p uid ltac:(left)) as (Hnz & Hlive & Hnone).
  assert (Hlt : (bucket uid < length (o_accounts w))%nat) by (by eapply lookup_lt_Some).
  assert (Hno : ∀ h, (p, h) ∉ g) by (intros h Hh; destruct (H7 p h Hh); congruence).
  split; simpl; try done.
  - by rewrite length_insert.
  - intros b c [[<- [<- _]]|[? ?]]%list_lookup_insert_Some; [|eauto]. constructor; [|eauto].
    intros Hin. destruct (H3 _ _ _ Hc Hin) as (_ & a & ? & _). congruence.
  - intros b c q [[<- [<- _]]|[Hne Hb]]%list_lookup_insert_Some Hq.
    + apply elem_of_cons in Hq as [->|Hq]; [split; [done|]; eexists; by rewrite lookup_insert_eq|].
      destruct (H3 _ _ _ Hc Hq) as (? & a & Ha & ?). split; [done|]. exists a.
      rewrite lookup_insert_ne by congruence. done.
    + destruct (H3 _ _ _ Hb Hq) as (? & a & Ha & ?). split; [done|]. exists a.
      rewrite lookup_insert_ne by congruence. done.
  - intros q a [[<- <-]|[Hne Hq]]%lookup_insert_Some; simpl.
    + exists (p :: chain). rewrite list_lookup_insert_eq by done. split; [done|left].
    + destruct (H4 q a Hq) as (c & Hcc & Hqc). destruct (decide (bucket (a_uid a) = bucket uid)) as [E|E].
      * rewrite E in *. simplify_eq. exists (p :: chain). rewrite list_lookup_insert_eq by done.
        split; [done|by right].
      * exists c. by rewrite list_lookup_insert_ne.
  - intros q r a b [[<- <-]|[? Hq]]%lookup_insert_Some [[<- <-]|[? Hr]]%lookup_insert_Some Hu;
      [done|by destruct (Hnew r b Hr)|by destruct (Hnew q a Hq)|by apply (H5 q r a b)].
  - intros q a [[<- <-]|[Hne Hq]]%lookup_insert_Some.
    + split; rewrite ?total_same, ?total_zero by done; simpl; try done.
      rewrite decide_False by done. done.
    + destruct (H6 q a Hq) as [? ? ? ? ?]. by split; rewrite ?total_other by congruence.
  - intros q h [[= -> ->]|Hq]%elem_of_cons; [by rewrite lookup_insert_eq|].
    rewrite lookup_insert_ne; [eauto|]. intros ->. by apply (Hno h).
  - by constructor.
  - intros q a [[<- <-]|[Hne Hq]]%lookup_insert_Some; eauto.
  - intros q u Hq. destruct (H10 q u ltac:(by right)) as (? & ? & ?). split_and!; [done..|].
    rewrite lookup_insert_ne; [done|]. intros ->. apply Hp, list_elem_of_fmap. by exists (q, u).
Qed.
Lemma get_commit_spec w g cs heap p uid :
  accounts_ok w g ((p, uid) :: cs) → heap ≠ 0 → Z.of_nat (length g) < UINT64_MAX →
  ∃ r w', account_get_commit heap p uid w = Done (r, w') ∧ r ≠ 0 ∧
    accounts_ok w' ((r, Ref 0) :: g) cs ∧ ∃ a, w'.(o_account) !! r = Some a ∧ a.(a_uid) = uid.
Proof.
  intros Hok Hheap Hlen. unfold account_get_commit.
  destruct (scan_bucket_spec w g _ uid Hok) as (r & E & Hr). step E.
  destruct Hr as [[-> Hnew]|[Hnz (a & Ha & Hu)]].
  - rewrite decide_False by (intros X; by apply X).
    destruct (ok_chain_of _ _ _ uid Hok) as (chain & Hc & _).
    destruct (ok_candidates _ _ _ Hok p uid ltac:(left)) as (Hpz & _).
    eexists p, _. split; [|split; [done|split; [by apply (accounts_ok_publish w g cs p uid heap chain)|]]].
    + unfold store_account, push_account, mbind, ST_bind. simpl. by rewrite (aread_ok _ _ _ Hc).
    + simpl. exists (mk_account heap 1 0 0 0 0 uid 0 0). by rewrite lookup_insert_eq.
  - rewrite decide_True by done.
    destruct (get_locked_spec w g _ r a Hok Ha Hnz Hlen) as (w1 & a1 & E1 & Hok1 & Ha1 & _ & Hu1 & _).
    step E1. eexists r, _. split; [done|]. split; [done|].
    split; [exact (accounts_ok_discard _ _ _ _ _ Hok1)|]. exists a1. simpl. split; congruence.
Qed.

(** ** Any interleaving of the operations *)

Inductive account_op :=
  | Get_scan (uid : Z)
  | Get_alloc (uid : Z)
  | Get_commit (p uid : Z)
  | Put (p : Z)
  | Shm_lock (p pages limit : Z)
  | Shm_unlock (p pages : Z)
  | Mq_charge (p bytes limit : Z)
  | Mq_uncharge (p bytes : Z)
  | Pipe_pages (p old new : Z).

Definition run_account_op (heap : Z) (op : account_op) : ST (objects H) Z :=
  match op with
  | Get_scan uid => account_get_scan uid
  | Get_alloc uid => allocate sizeof_uid_account
  | Get_commit p uid => account_get_commit heap p uid
  | Put p => _ ← kernel_uid_account_put p; mret 0
  | Shm_lock p pages limit => kernel_uid_account_shm_lock p pages limit
  | Shm_unlock p pages => _ ← kernel_uid_account_shm_unlock p pages; mret 0
  | Mq_charge p bytes limit => kernel_uid_account_mqueue_charge p bytes limit
  | Mq_uncharge p bytes => _ ← kernel_uid_account_mqueue_uncharge p bytes; mret 0
  | Pipe_pages p old new => kernel_uid_account_pipe_pages p old new
  end.

(** What a caller owes: it only returns what it holds, and charges accounts
    that somebody holds. *)
Definition op_permitted g cs (op : account_op) : Prop :=
  Z.of_nat (length g) < UINT64_MAX ∧
  match op with
  | Get_scan uid | Get_alloc uid => True
  | Get_commit p uid => (p, uid) ∈ cs
  | Put p => (p, Ref 0) ∈ g
  | Shm_lock p pages limit => (∃ h, (p, h) ∈ g) ∧ 0 < pages ∧ limit ≤ UINT64_MAX
  | Shm_unlock p pages => (p, Shm pages) ∈ g
  | Mq_charge p bytes limit => (∃ h, (p, h) ∈ g) ∧ 0 ≤ bytes ∧ limit ≤ UINT64_MAX
  | Mq_uncharge p bytes => (p, Mq bytes) ∈ g
  | Pipe_pages p old new => (p, Ref old) ∈ g ∧ 0 ≤ new ∧ total pipe_of p g - old + new ≤ UINT64_MAX
  end.
(** What the operation's result [r] means for the owners. *)
Definition op_effect (op : account_op) (r : Z) g cs g' cs' : Prop :=
  match op with
  | Get_scan uid => cs' = cs ∧ g' = if decide (r = 0) then g else (r, Ref 0) :: g
  | Get_alloc uid => g' = g ∧ cs' = if decide (r = 0) then cs else (r, uid) :: cs
  | Get_commit p uid => cs ≡ₚ (p, uid) :: cs' ∧ g' = (r, Ref 0) :: g
  | Put p => cs' = cs ∧ g ≡ₚ (p, Ref 0) :: g'
  | Shm_lock p pages limit => cs' = cs ∧ g' = if decide (r = 0) then (p, Shm pages) :: g else g
  | Shm_unlock p pages => cs' = cs ∧ g ≡ₚ (p, Shm pages) :: g'
  | Mq_charge p bytes limit => cs' = cs ∧ g' = if decide (r = 0) then (p, Mq bytes) :: g else g
  | Mq_uncharge p bytes => cs' = cs ∧ g ≡ₚ (p, Mq bytes) :: g'
  | Pipe_pages p old new => cs' = cs ∧ ∃ g0, g ≡ₚ (p, Ref old) :: g0 ∧ g' = (p, Ref new) :: g0
  end.
(** What the result tells the caller. *)
Definition op_result (w' : objects H) g (op : account_op) (r : Z) : Prop :=
  match op with
  | Get_scan uid => r ≠ 0 → ∃ a, w'.(o_account) !! r = Some a ∧ a.(a_uid) = uid
  | Get_commit p uid => ∃ a, w'.(o_account) !! r = Some a ∧ a.(a_uid) = uid
  | Shm_lock p pages limit =>
      r = if decide (total shm_of p g + pages ≤ limit) then 0 else - KERNEL_ENOMEM
  | Mq_charge p bytes limit =>
      r = if decide (total mq_of p g + bytes ≤ limit) then 0 else - KERNEL_EMFILE
  | Pipe_pages p old new => r = total pipe_of p g - old + new
  | _ => True
  end.

Lemma hold_removed g p h g0 g' : g ≡ₚ (p, h) :: g0 → g ≡ₚ (p, h) :: g' → g0 ≡ₚ g'.
Proof. intros H1 H2. apply (Permutation_cons_inv (a := (p, h))). by rewrite <-H1. Qed.

Lemma account_op_sound heap w g cs op :
  heap ≠ 0 → accounts_ok w g cs → op_permitted g cs op →
  ∃ r w', run_account_op heap op w = Done (r, w') ∧ op_result w' g op r ∧
    ∀ g' cs', op_effect op r g cs g' cs' → accounts_ok w' g' cs'.
Proof.
  intros Hheap Hok [Hlen Hop]. destruct op as [u|u|p u|p|p n l|p n|p n l|p n|p o n]; simpl in *.
  - destruct (get_scan_spec w g cs u Hok Hlen) as (r & w' & -> & [[-> ->]|(Hnz & Hok' & Ha)]).
    + exists 0, w. split; [done|]. split; [done|]. by intros g' cs' [-> ->].
    + exists r, w'. split; [done|]. split; [done|]. intros g' cs' [-> ->]. by rewrite decide_False.
  - destruct (allocate_spec w g cs sizeof_uid_account u Hok) as (p & w' & -> & Hok').
    exists p, w'. split; [done|]. split; [done|]. by intros g' cs' [-> ->].
  - apply elem_of_Permutation in Hop as [cs0 Hcs].
    apply (accounts_ok_perm _ g g _ _ (reflexivity g) Hcs) in Hok.
    destruct (get_commit_spec w g cs0 heap p u Hok Hheap Hlen) as (r & w' & -> & _ & Hok' & Ha).
    exists r, w'. split; [done|]. split; [done|]. intros g' cs' [Hcs' ->].
    eapply accounts_ok_perm; [reflexivity| |exact Hok'].
    apply (Permutation_cons_inv (a := (p, u))). by rewrite <-Hcs.
  - apply elem_of_Permutation in Hop as [g0 Hg].
    apply (accounts_ok_perm _ _ _ cs cs Hg (reflexivity cs)) in Hok.
    destruct (uid_account_put_spec w g0 cs p Hok) as (w' & E & Hok').
    exists 0, w'. split; [by step E|]. split; [done|]. intros g' cs' [-> Hg'].
    by apply (accounts_ok_perm _ g0 g' cs cs (hold_removed _ _ _ _ _ Hg Hg') (reflexivity cs)).
  - destruct Hop as ([h Hh] & Hn & Hl). destruct (ok_holds _ _ _ Hok p h Hh) as [a Ha].
    destruct (shm_lock_spec w g cs p a n l Hok Ha Hn Hl Hlen) as (r & w' & -> & Hr).
    exists r, w'. split; [done|]. destruct (decide (total shm_of p g + n ≤ l)); destruct Hr as [-> Hr];
      (split; [done|]); intros g' cs' [-> ->]; [by rewrite decide_True|].
    rewrite decide_False by done. by subst w'.
  - apply elem_of_Permutation in Hop as [g0 Hg].
    apply (accounts_ok_perm _ _ _ cs cs Hg (reflexivity cs)) in Hok.
    destruct (shm_unlock_spec w g0 cs p n Hok) as (w' & E & Hok').
    exists 0, w'. split; [by step E|]. split; [done|]. intros g' cs' [-> Hg'].
    by apply (accounts_ok_perm _ g0 g' cs cs (hold_removed _ _ _ _ _ Hg Hg') (reflexivity cs)).
  - destruct Hop as ([h Hh] & Hn & Hl). destruct (ok_holds _ _ _ Hok p h Hh) as [a Ha].
    destruct (mqueue_charge_spec w g cs p a n l Hok Ha Hn Hl Hlen) as (r & w' & -> & Hr).
    exists r, w'. split; [done|]. destruct (decide (total mq_of p g + n ≤ l)); destruct Hr as [-> Hr];
      (split; [done|]); intros g' cs' [-> ->]; [by rewrite decide_True|].
    rewrite decide_False by done. by subst w'.
  - apply elem_of_Permutation in Hop as [g0 Hg].
    apply (accounts_ok_perm _ _ _ cs cs Hg (reflexivity cs)) in Hok.
    destruct (mqueue_uncharge_spec w g0 cs p n Hok) as (w' & E & Hok').
    exists 0, w'. split; [by step E|]. split; [done|]. intros g' cs' [-> Hg'].
    by apply (accounts_ok_perm _ g0 g' cs cs (hold_removed _ _ _ _ _ Hg Hg') (reflexivity cs)).
  - destruct Hop as (Hin & Hn & Hfit). apply elem_of_Permutation in Hin as [g0 Hg].
    apply (accounts_ok_perm _ _ _ cs cs Hg (reflexivity cs)) in Hok.
    rewrite Hg, total_same in Hfit. simpl in Hfit.
    destruct (pipe_pages_spec w g0 cs p o n Hok Hn ltac:(lia)) as (w' & -> & Hok').
    eexists _, w'. split; [done|]. split; [rewrite Hg, total_same; simpl; lia|].
    intros g' cs' [-> (g1 & Hg1 & ->)].
    eapply accounts_ok_perm; [|reflexivity|exact Hok'].
    by rewrite (hold_removed _ _ _ _ _ Hg Hg1).
Qed.

(** Boot: the static root account, held by the initial credentials. *)
Definition boot_objects (root : Z) (h : H) : objects H :=
  mk_objects h ([root] :: replicate 63 []) {[root := mk_account 0 1 0 0 0 0 0 0 0]} ∅ ∅ ∅.

Inductive account_history (heap root : Z) (h : H) : objects H → list (Z * hold) → list (Z * Z) → Prop :=
  | history_boot : account_history heap root h (boot_objects root h) [(root, Ref 0)] []
  | history_step w g cs op r w' g' cs' :
      account_history heap root h w g cs → op_permitted g cs op →
      run_account_op heap op w = Done (r, w') → op_effect op r g cs g' cs' →
      account_history heap root h w' g' cs'.

Lemma boot_ok root h : root ≠ 0 → root ∈ heap_live h → accounts_ok (boot_objects root h) [(root, Ref 0)] [].
Proof.
  intros Hnz Hlive.
  assert (Htab : ∀ b chain, ([root] :: replicate 63 []) !! b = Some chain →
    (b = 0%nat ∧ chain = [root]) ∨ chain = []).
  { intros [|b] chain; simpl; [intros [= <-]; by left|]. intros Hb. right.
    apply (lookup_replicate 63 (@nil Z)) in Hb as [-> _]. done. }
  split; simpl; try done.
  - intros b chain Hb. destruct (Htab b chain Hb) as [[_ ->]| ->]; repeat constructor. by intros ?%elem_of_nil.
  - intros b chain p Hb Hp. destruct (Htab b chain Hb) as [[-> ->]| ->]; [|by apply elem_of_nil in Hp].
    apply list_elem_of_singleton in Hp as ->. split; [done|]. eexists. by rewrite lookup_singleton_eq.
  - intros p a [<- <-]%lookup_singleton_Some. exists [root]. split; [done|left].
  - by intros p q a b [<- <-]%lookup_singleton_Some [<- <-]%lookup_singleton_Some.
  - intros p a [<- <-]%lookup_singleton_Some. by split; rewrite ?total_same.
  - intros p q [= -> ->]%list_elem_of_singleton. by rewrite lookup_singleton_eq.
  - by repeat constructor.
  - by intros p a [<- <-]%lookup_singleton_Some.
  - by intros p u ?%elem_of_nil.
  - constructor.
Qed.
End accounts.

(** C15: whatever interleaving of lookups, creations (with their unlocked
    allocation), releases, SHM_LOCK, message-queue and pipe charges has run since
    boot, there is at most one account per user, each in its hash bucket; every
    counter equals what its holders have taken; accounts live exactly as long as
    someone holds them; no call traps or touches freed memory; and a charge is
    refused exactly when it would exceed the limit. *)
Theorem uid_accounts_exact {H} `{!ObjectHeap H} (heap root : Z) (h : H) (w : objects H) g cs
    (Hheap : heap ≠ 0) (Hroot : root ≠ 0) (Hlive : root ∈ heap_live h)
    (Hreach : account_history heap root h w g cs) :
  accounts_ok w g cs ∧
  ∀ op, op_permitted g cs op →
    ∃ r w', run_account_op heap op w = Done (r, w') ∧ op_result w' g op r.
Proof.
  assert (Hok : accounts_ok w g cs).
  { induction Hreach as [|w g cs op r w' g' cs' _ IH Hop Hrun Heff]; [by apply boot_ok|].
    destruct (account_op_sound heap w g cs op Hheap IH Hop) as (r1 & w1 & E & _ & Hnext).
    rewrite Hrun in E. injection E as <- <-. by apply Hnext. }
  split; [done|]. intros op Hop.
  destruct (account_op_sound heap w g cs op Hheap Hok Hop) as (r & w' & ? & ? & _). eauto.
Qed.

Definition demo_heap : object_heap := {| oh_limit := 100; oh_live := {[16]} |}.
Definition demo_next (op : account_op) (w : objects object_heap) : objects object_heap :=
  match run_account_op 1 op w with Done (_, w') => w' | Fault _ => w end.
Definition demo_ops : list account_op := [Get_alloc 1000; Get_commit 32 1000; Shm_lock 32 5 8].
Definition demo_world (n : nat) : objects object_heap :=
  foldl (λ w op, demo_next op w) (boot_objects 16 demo_heap) (take n demo_ops).
Lemma demo_history : account_history 1 16 demo_heap (demo_world 3) [(32, Shm 5); (32, Ref 0); (16, Ref 0)] [].
Proof.
  apply (history_step _ _ _ (demo_world 2) [(32, Ref 0); (16, Ref 0)] [] (Shm_lock 32 5 8) 0);
    [|split; [by_decide|split; [exists (Ref 0); by_decide|by_decide]]|vm_compute; reflexivity|by split].
  apply (history_step _ _ _ (demo_world 1) [(16, Ref 0)] [(32, 1000)] (Get_commit 32 1000) 32);
    [|split; by_decide|vm_compute; reflexivity|by split].
  apply (history_step _ _ _ (demo_world 0) [(16, Ref 0)] [] (Get_alloc 1000) 32);
    [apply history_boot|by split|vm_compute; reflexivity|by split].
Qed.
Lemma uid_accounts_exact_witness :
  ∃ w', run_account_op 1 (Shm_lock 32 4 8) (demo_world 3) = Done (- KERNEL_ENOMEM, w').
Proof.
  destruct (uid_accounts_exact 1 16 demo_heap (demo_world 3) _ _ ltac:(done) ltac:(done)
    ltac:(by_decide) demo_history) as [_ Hrun].
  destruct (Hrun (Shm_lock 32 4 8)) as (r & w' & E & Hr).
  - split; [by_decide|]. split; [exists (Ref 0); by_decide|by_decide].
  - exists w'. vm_compute in Hr. subst r. exact E.
Defined.
