(* ===== verification/CredentialsTheory.v ===== *)
(** * Cloning and dropping credentials *)
From S2P Require Import Prelude Heap Credentials AccountsTheory.
Import Heap Credentials.
#[local] Open Scope Z_scope.

(** The objects a credential refers to exist and their counts have room. *)
Definition groups_room (m : gmap Z kernel_credential_groups) (p : Z) : Prop :=
  p ≠ 0 → ∃ gr, m !! p = Some gr ∧ 0 < gr.(g_references) < UINT32_MAX.
Definition account_room (m : gmap Z kernel_uid_account) (p : Z) : Prop :=
  p ≠ 0 ∧ ∃ a, m !! p = Some a ∧ 0 < a.(a_references) < UINT64_MAX.

(** One more reference, as [kernel_credentials_clone] takes it. *)
Definition groups_up (m : gmap Z kernel_credential_groups) (p : Z) : gmap Z kernel_credential_groups :=
  if decide (p = 0) then m
  else alter (λ gr, groups_references gr (gr.(g_references) + 1)) p m.
Definition account_up (m : gmap Z kernel_uid_account) (p : Z) : gmap Z kernel_uid_account :=
  alter (λ a, if decide (a.(a_heap) ≠ 0) then with_references a (a.(a_references) + 1) else a) p m.

Lemma insert_up {A} (m : gmap Z A) (f : A → A) p x : m !! p = Some x → <[p := f x]> m = alter f p m.
Proof.
  intros Hx. apply map_eq. intros q. destruct (decide (q = p)) as [->|Hne].
  - by rewrite lookup_insert_eq, lookup_alter_eq, Hx.
  - by rewrite lookup_insert_ne, lookup_alter_ne.
Qed.
Lemma insert_back {A} (m : gmap Z A) (f : A → A) p x : m !! p = Some x → <[p := x]> (alter f p m) = m.
Proof.
  intros Hx. apply map_eq. intros q. destruct (decide (q = p)) as [->|Hne].
  - by rewrite lookup_insert_eq, Hx.
  - by rewrite lookup_insert_ne, lookup_alter_ne.
Qed.

Section credentials.
Context {H : Type} `{!ObjectHeap H}.
Implicit Types (w : objects H).

Lemma store_credentials_step {A} p c (f : () → ST (objects H) A) w :
  (store_credentials p c ≫= f) w = f tt (set_credentials w (<[p := c]> w.(o_credentials))).
Proof. done. Qed.
Lemma clone_groups_step w p :
  groups_room w.(o_groups) p →
  (if decide (p ≠ 0) then
     g ← load_groups p;
     let before := g.(g_references) in
     _ ← store_groups p (groups_references g (u32 (before + 1)));
     lift (trap_if (before = 0 ∨ before = UINT32_MAX))
   else mret tt) w = Done (tt, set_groups w (groups_up w.(o_groups) p)).
Proof.
  intros Hg. unfold groups_up. destruct (decide (p ≠ 0)) as [Hnz|Hz].
  - destruct (Hg Hnz) as (gr & Hgr & Hrefs). rewrite decide_False by done.
    unfold mbind, ST_bind, load_groups, store_groups, lift. rewrite Hgr.
    rewrite trap_if_ok by lia. rewrite u32_small by mlia.
    by rewrite (insert_up _ (λ gr, groups_references gr (gr.(g_references) + 1)) _ _ Hgr).
  - rewrite decide_True by lia. by destruct w.
Qed.
Lemma clone_account_step w p :
  account_room w.(o_account) p →
  kernel_uid_account_get_locked p w = Done (p, set_accounts w (account_up w.(o_account) p)).
Proof.
  intros (Hnz & a & Ha & Hrefs). unfold account_up. rewrite <-(insert_up _ _ _ _ Ha).
  unfold kernel_uid_account_get_locked. rewrite (ST_lift_bind _ _ _ tt) by (by apply trap_if_ok).
  step (load_ok w _ a Ha). rewrite (ST_lift_bind _ _ _ tt) by (apply trap_if_ok; lia).
  destruct (decide (a_heap a ≠ 0)); [done|]. rewrite insert_id by done. by destruct w.
Qed.
Lemma put_groups_step w m p :
  groups_room m p → w.(o_groups) = groups_up m p →
  kernel_credential_groups_put p w = Done (tt, set_groups w m).
Proof.
  intros Hg Hup. unfold kernel_credential_groups_put, groups_up in *.
  destruct (decide (p = 0)) as [Hz|Hnz]; [subst m; by destruct w|].
  destruct (Hg Hnz) as (gr & Hgr & Hrefs).
  unfold mbind, ST_bind, load_groups, store_groups, lift. rewrite Hup, lookup_alter_eq, Hgr. simpl.
  rewrite trap_if_ok by lia. rewrite decide_False by lia. rewrite u32_small by mlia.
  assert (groups_references (groups_references gr (g_references gr + 1)) (g_references gr + 1 - 1) = gr)
    as -> by (destruct gr; unfold groups_references; simpl; f_equal; lia).
  by rewrite Hup, insert_back.
Qed.
Lemma put_account_step w m p :
  account_room m p → w.(o_account) = account_up m p →
  kernel_uid_account_put p w = Done (tt, set_accounts w m).
Proof.
  intros (Hnz & a & Ha & Hrefs) Hup. unfold account_up in Hup.
  assert (Hw : w.(o_account) !! p = Some (if decide (a.(a_heap) ≠ 0)
    then with_references a (a.(a_references) + 1) else a)) by (by rewrite Hup, lookup_alter_eq, Ha).
  unfold kernel_uid_account_put. rewrite decide_False by done. step (load_ok w p _ Hw).
  destruct (decide (a_heap a ≠ 0)) as [Hh|Hh].
  - rewrite decide_False by done. unfold kernel_uid_account_put_locked. rewrite decide_False by done.
    unfold mbind, ST_bind, load_account, store_account, lift. rewrite Hw.
    rewrite decide_False by done. rewrite trap_if_ok by (simpl; lia).
    rewrite decide_True by (simpl; lia). unfold kernel_uid_account_release, mret, ST_ret. simpl.
    assert (with_references (with_references a (a_references a + 1)) (a_references a + 1 - 1) = a)
      as -> by (destruct a; unfold with_references; simpl; f_equal; lia).
    unfold set_accounts. by rewrite Hup, insert_back.
  - rewrite decide_True by lia. unfold set_accounts.
    rewrite <-(insert_up _ _ _ _ Ha), (decide_False (P := a_heap a ≠ 0)), insert_id in Hup by done.
    rewrite <-Hup. by destruct w.
Qed.

Lemma put_clone_spec w w1 p c :
  p ≠ 0 → w1.(o_credentials) = <[p := c]> w.(o_credentials) → w.(o_credentials) !! p = None →
  c.(c_heap) ≠ 0 → c.(c_references) = 1 →
  groups_room w.(o_groups) c.(groups) → account_room w.(o_account) c.(account) →
  w1.(o_groups) = groups_up w.(o_groups) c.(groups) →
  w1.(o_account) = account_up w.(o_account) c.(account) →
  w1.(o_accounts) = w.(o_accounts) → w1.(o_security) = w.(o_security) →
  kernel_credentials_put p w1 = Done (tt, set_heap w (heap_free w1.(o_heap) p)).
Proof.
  intros Hp Hc Hnone Hh Href Hg Ha Hgu Hau Ht Hs. unfold kernel_credentials_put.
  rewrite decide_False by done.
  assert (E : load_credentials p w1 = Done (c, w1))
    by (unfold load_credentials; by rewrite Hc, lookup_insert_eq).
  step E. rewrite decide_False by done. rewrite Href.
  rewrite store_credentials_step.
  rewrite (ST_lift_bind _ _ _ tt) by (by apply trap_if_ok). rewrite decide_False by lia.
  match goal with |- (_ ≫= _) ?x = _ => set (w2 := x) end.
  step (put_groups_step w2 w.(o_groups) (groups c) Hg Hgu).
  match goal with |- (_ ≫= _) ?x = _ => set (w3 := x) end.
  step (put_account_step w3 w.(o_account) (account c) Ha Hau).
  unfold free_credentials, set_heap, set_credentials, set_accounts. simpl.
  rewrite Ht, Hs, Hc, insert_insert_eq, delete_insert_id by done. done.
Qed.
End credentials.

(** Cloning credentials either reports no memory and leaves every object
    alone, or yields a private copy with the same identities and capabilities;
    dropping that copy again never traps and restores every account, group list
    and credential, with their counts, and frees exactly the copy. *)
Theorem clone_put_roundtrip {H} `{!ObjectHeap H} (w : objects H) (heap old : Z)
    (c : kernel_credentials)
    (Hheap : heap ≠ 0) (Hold : w.(o_credentials) !! old = Some c)
    (Hgroups : groups_room w.(o_groups) c.(groups))
    (Haccount : account_room w.(o_account) c.(account))
    (Hlive : ∀ p c', w.(o_credentials) !! p = Some c' → p ∈ heap_live w.(o_heap)) :
  ∃ p w1, kernel_credentials_clone heap old w = Done (p, w1) ∧
    (p = 0 → w1 = set_heap w w1.(o_heap)) ∧
    (p ≠ 0 → w.(o_credentials) !! p = None ∧
       w1.(o_credentials) = <[p := credentials_with c heap 1 c.(account)]> w.(o_credentials) ∧
       ∃ w2, kernel_credentials_put p w1 = Done (tt, w2) ∧ w2 = set_heap w w2.(o_heap) ∧
         heap_live w2.(o_heap) = heap_live w.(o_heap)).
Proof.
  unfold kernel_credentials_clone. rewrite decide_False by done.
  unfold mbind at 1, ST_bind at 1, allocate.
  destruct (heap_allocate w.(o_heap) sizeof_credentials) as [[st q] h] eqn:E.
  destruct (decide (st = KERNEL_HEAP_STATUS_OK)) as [->|Hst].
  2: { rewrite decide_True by done. by eexists 0, _. }
  destruct (heap_allocate_ok _ _ _ _ E) as (Hnz & Hfresh & Hl). rewrite decide_False by done.
  assert (Hq : w.(o_credentials) !! q = None).
  { apply eq_None_not_Some. intros [c' Hc']. by apply Hfresh, (Hlive q c'). }
  assert (E0 : load_credentials old (set_heap w h) = Done (c, set_heap w h))
    by (unfold load_credentials; simpl; by rewrite Hold).
  step E0. rewrite store_credentials_step.
  match goal with |- context [(_ ≫= _) ?x] => set (wa := x) end.
  step (clone_groups_step wa (groups c) Hgroups).
  match goal with |- context [(_ ≫= _) ?x] => set (wb := x) end.
  step (clone_account_step wb (account c) Haccount).
  eexists q, _. split; [done|]. split; [done|]. intros _. split; [done|]. split; [done|].
  eexists. split; [by apply (put_clone_spec w _ q (credentials_with c heap 1 (account c)))|].
  split; [done|]. simpl. rewrite heap_free_live, Hl. set_solver.
Qed.
Definition demo_objects : objects object_heap :=
  mk_objects {| oh_limit := 9; oh_live := {[16; 32; 48]} |} ([16] :: replicate 63 [])
    {[16 := mk_account 0 1 0 0 0 0 0 0 0]} {[32 := mk_groups 1 3 2 [7; 9]]}
    {[48 := mk_credentials 1 2 0 0 0 0 0 0 0 0 32 0 0 0 0 0 0 16]} ∅.
Lemma clone_put_roundtrip_witness :
  ∃ p w1, kernel_credentials_clone 1 48 demo_objects = Done (p, w1) ∧ p = 64 ∧
    ∃ w2, kernel_credentials_put p w1 = Done (tt, w2) ∧ w2 = set_heap demo_objects w2.(o_heap).
Proof.
  destruct (clone_put_roundtrip demo_objects 1 48 (mk_credentials 1 2 0 0 0 0 0 0 0 0 32 0 0 0 0 0 0 16))
    as (p & w1 & E & _ & Hput).
  - done.
  - reflexivity.
  - intros _. eexists. split; [reflexivity|]. simpl. mlia.
  - split; [done|]. eexists. split; [reflexivity|]. simpl. mlia.
  - intros p c' Hp. unfold demo_objects in Hp. cbn [o_credentials] in Hp.
    apply lookup_singleton_Some in Hp as [<- _]. by_decide.
  - assert (Hp : p = 64) by (vm_compute in E; congruence).
    exists p, w1. split; [exact E|]. split; [exact Hp|].
    destruct (Hput ltac:(lia)) as (_ & _ & w2 & E2 & Hw2 & _). exists w2. split; [exact E2|exact Hw2].
Defined.
