(* ===== verification/Rlimit.v ===== *)
(** * Resource limits and the per-user process count ([kernel/rlimit.c]), with the
    publication of new credentials that moves it *)
From S2P Require Import Prelude Heap Credentials.
#[local] Open Scope Z_scope.

Module Rlimit.
Import Heap Credentials.

Definition KERNEL_EAGAIN : Z := 11.
Definition KERNEL_RLIMIT_STACK : nat := 3.
Definition KERNEL_RLIMIT_CORE : nat := 4.
Definition KERNEL_RLIMIT_NPROC : nat := 6.
Definition KERNEL_RLIMIT_NOFILE : nat := 7.
Definition KERNEL_RLIMIT_MEMLOCK : nat := 8.
Definition KERNEL_RLIMIT_SIGPENDING : nat := 11.
Definition KERNEL_RLIMIT_MSGQUEUE : nat := 12.
Definition KERNEL_RLIMIT_NICE : nat := 13.
Definition KERNEL_RLIMIT_RTPRIO : nat := 14.
Definition KERNEL_RLIMIT_COUNT : nat := 16.
Definition KERNEL_RLIM_INFINITY : Z := UINT64_MAX.
Definition KERNEL_RESOURCE_NPROC_CHARGED : Z := 1.
Definition KERNEL_RESOURCE_NPROC_EXCEEDED : Z := 2.
Definition KERNEL_CAP_SYS_ADMIN : Z := 21.
Definition KERNEL_CAP_SYS_RESOURCE : Z := 24.

Record kernel_rlimit64 := mk_rlimit { current : Z; maximum : Z }.
Record kernel_resource_limits := mk_limits {
  l_heap : Z;
  l_references : Z;
  l_values : list kernel_rlimit64;
}.
(** The fields of [struct kernel_task] this component uses. *)
Record kernel_task := mk_task {
  t_credentials : Z;
  t_limits : Z;
  t_resource_flags : Z;
  t_exec_security : Z;
}.

Record state (H : Type) := mk_state {
  n_heap : H;
  n_limits : gmap Z kernel_resource_limits;
  n_tasks : gmap Z kernel_task;
  n_credentials : gmap Z kernel_credentials;
  n_accounts : gmap Z kernel_uid_account;
  n_security : gmap Z kernel_exec_security;
}.
Arguments mk_state {H}.
Arguments n_heap {H}.
Arguments n_limits {H}.
Arguments n_tasks {H}.
Arguments n_credentials {H}.
Arguments n_accounts {H}.
Arguments n_security {H}.

Definition both (n : Z) : kernel_rlimit64 := mk_rlimit n n.
(** The values of the first process, in the order the code writes them. *)
Definition default_limits : list kernel_rlimit64 :=
  let v := replicate KERNEL_RLIMIT_COUNT (both KERNEL_RLIM_INFINITY) in
  let v := <[KERNEL_RLIMIT_CORE := mk_rlimit 0 KERNEL_RLIM_INFINITY]> v in
  let v := <[KERNEL_RLIMIT_STACK := both 8388608]> v in
  let v := <[KERNEL_RLIMIT_NOFILE := both 1024]> v in
  let v := <[KERNEL_RLIMIT_NPROC := both 4096]> v in
  let v := <[KERNEL_RLIMIT_SIGPENDING := both 4096]> v in
  let v := <[KERNEL_RLIMIT_MEMLOCK := both 8388608]> v in
  let v := <[KERNEL_RLIMIT_MSGQUEUE := both 819200]> v in
  let v := <[KERNEL_RLIMIT_RTPRIO := both 0]> v in
  <[KERNEL_RLIMIT_NICE := both 0]> v.

Section rlimit.
Context {H : Type} `{!ObjectHeap H}.
Abbreviation M := (ST (state H)).

Definition fetch {A} (get : state H → gmap Z A) (p : Z) : M A := λ w,
  match get w !! p with Some x => Done (x, w) | None => Fault Out_of_bounds end.
Definition store_limits (p : Z) (l : kernel_resource_limits) : M unit := λ w,
  Done (tt, mk_state w.(n_heap) (<[p := l]> w.(n_limits)) w.(n_tasks) w.(n_credentials) w.(n_accounts) w.(n_security)).
Definition store_task (p : Z) (t : kernel_task) : M unit := λ w,
  Done (tt, mk_state w.(n_heap) w.(n_limits) (<[p := t]> w.(n_tasks)) w.(n_credentials) w.(n_accounts) w.(n_security)).
Definition store_account (p : Z) (a : kernel_uid_account) : M unit := λ w,
  Done (tt, mk_state w.(n_heap) w.(n_limits) w.(n_tasks) w.(n_credentials) (<[p := a]> w.(n_accounts)) w.(n_security)).
Definition store_exec_security (p : Z) (s : kernel_exec_security) : M unit := λ w,
  Done (tt, mk_state w.(n_heap) w.(n_limits) w.(n_tasks) w.(n_credentials) w.(n_accounts) (<[p := s]> w.(n_security))).
Definition release_limits (p : Z) : M unit := λ w,
  Done (tt, mk_state (heap_free w.(n_heap) p) (delete p w.(n_limits)) w.(n_tasks)
    w.(n_credentials) w.(n_accounts) w.(n_security)).

Definition kernel_resource_limits_create (heap source : Z) : M Z := λ w,
  let '(status, p, h) := heap_allocate w.(n_heap) 272 in
  let w := mk_state h w.(n_limits) w.(n_tasks) w.(n_credentials) w.(n_accounts) w.(n_security) in
  if decide (status = KERNEL_HEAP_STATUS_EMPTY) then Done (0, w)
  else if decide (status ≠ KERNEL_HEAP_STATUS_OK) then trap
  else (values ← (if decide (source ≠ 0) then l ← fetch n_limits source; mret l.(l_values)
                  else mret default_limits);
        _ ← store_limits p (mk_limits heap 1 values);
        mret p) w.

(** The compare-and-swap loop of [get] takes effect in one step. *)
Definition kernel_resource_limits_get (p : Z) : M Z :=
  l ← fetch n_limits p;
  _ ← lift (trap_if (l.(l_references) = 0 ∨ l.(l_references) = UINT32_MAX));
  _ ← store_limits p (mk_limits l.(l_heap) (l.(l_references) + 1) l.(l_values));
  mret p.
Definition kernel_resource_limits_put (p : Z) : M unit :=
  if decide (p = 0) then mret tt
  else
    l ← fetch n_limits p;
    let refs := l.(l_references) in
    _ ← store_limits p (mk_limits l.(l_heap) (u32 (refs - 1)) l.(l_values));
    _ ← lift (trap_if (refs = 0));
    if decide (refs = 1) then release_limits p else mret tt.

Definition with_processes (a : kernel_uid_account) (n : Z) : kernel_uid_account :=
  mk_account a.(a_heap) a.(a_references) a.(a_pending) n a.(a_unix_inflight)
    a.(a_shm_locked_pages) a.(a_uid) a.(a_mqueue_bytes) a.(a_pipe_pages).
Definition with_flags (t : kernel_task) (flags : Z) : kernel_task :=
  mk_task t.(t_credentials) t.(t_limits) flags t.(t_exec_security).
Definition set_flags (t mask : Z) : M unit :=
  x ← fetch n_tasks t; store_task t (with_flags x (Z.lor x.(t_resource_flags) mask)).
Definition clear_flags (t mask : Z) : M unit :=
  x ← fetch n_tasks t; store_task t (with_flags x (Z.land x.(t_resource_flags) (Z.lnot mask))).
Definition has_flag (t : kernel_task) (mask : Z) : Prop := Z.land t.(t_resource_flags) mask ≠ 0.
#[global] Instance has_flag_dec t mask : Decision (has_flag t mask).
Proof. apply _. Defined.

Definition nproc_limit (limits : Z) : M Z :=
  l ← fetch n_limits limits;
  v ← lift (aread l.(l_values) KERNEL_RLIMIT_NPROC);
  mret v.(current).

Definition kernel_nproc_acquire (task parent : Z) : M Z :=
  t ← fetch n_tasks task;
  cred ← fetch n_credentials t.(t_credentials);
  limits ← (if decide (parent ≠ 0) then x ← fetch n_tasks parent; mret x.(t_limits)
            else mret t.(t_limits));
  _ ← lift (trap_if (has_flag t KERNEL_RESOURCE_NPROC_CHARGED));
  account ← fetch n_accounts cred.(account);
  _ ← lift (trap_if (account.(a_processes) = UINT64_MAX));
  limit ← nproc_limit limits;
  if decide (limit ≤ account.(a_processes) ∧ cred.(uid) ≠ 0 ∧
             kernel_credentials_capable cred KERNEL_CAP_SYS_RESOURCE = false ∧
             kernel_credentials_capable cred KERNEL_CAP_SYS_ADMIN = false)
  then mret (- KERNEL_EAGAIN)
  else
    _ ← store_account cred.(Credentials.account) (with_processes account (account.(a_processes) + 1));
    inherited ← (if decide (parent ≠ 0) then
                   x ← fetch n_tasks parent;
                   mret (Z.land x.(t_resource_flags) KERNEL_RESOURCE_NPROC_EXCEEDED)
                 else mret 0);
    _ ← set_flags task (Z.lor KERNEL_RESOURCE_NPROC_CHARGED inherited);
    _ ← (if decide (parent ≠ 0) then clear_flags parent KERNEL_RESOURCE_NPROC_EXCEEDED else mret tt);
    mret 0.

Definition kernel_nproc_release_locked (task : Z) : M unit :=
  t ← fetch n_tasks task;
  if decide (¬ has_flag t KERNEL_RESOURCE_NPROC_CHARGED) then mret tt
  else
    cred ← fetch n_credentials t.(t_credentials);
    account ← fetch n_accounts cred.(account);
    _ ← lift (trap_if (account.(a_processes) = 0));
    _ ← store_account cred.(Credentials.account) (with_processes account (account.(a_processes) - 1));
    clear_flags task KERNEL_RESOURCE_NPROC_CHARGED.

Definition kernel_nproc_credentials_changed_locked (task old replacement : Z) : M unit :=
  o ← fetch n_credentials old;
  r ← fetch n_credentials replacement;
  t ← fetch n_tasks task;
  if decide (o.(account) = r.(account) ∨ ¬ has_flag t KERNEL_RESOURCE_NPROC_CHARGED) then mret tt
  else
    limit ← nproc_limit t.(t_limits);
    target ← fetch n_accounts r.(account);
    _ ← (if decide (r.(uid) ≠ 0 ∧ limit < target.(a_processes))
         then set_flags task KERNEL_RESOURCE_NPROC_EXCEEDED
         else clear_flags task KERNEL_RESOURCE_NPROC_EXCEEDED);
    source ← fetch n_accounts o.(account);
    _ ← lift (trap_if (source.(a_processes) = 0 ∨ target.(a_processes) = UINT64_MAX));
    _ ← store_account r.(account) (with_processes target (target.(a_processes) + 1));
    source ← fetch n_accounts o.(account);
    store_account o.(account) (with_processes source (source.(a_processes) - 1)).

Definition kernel_nproc_exec (task : Z) : M Z :=
  t ← fetch n_tasks task;
  over ← (if decide (has_flag t KERNEL_RESOURCE_NPROC_EXCEEDED) then
            cred ← fetch n_credentials t.(t_credentials);
            account ← fetch n_accounts cred.(account);
            limit ← nproc_limit t.(t_limits);
            mret (bool_decide (limit < account.(a_processes)))
          else mret false);
  if (over : bool) then mret (- KERNEL_EAGAIN)
  else
    _ ← clear_flags task KERNEL_RESOURCE_NPROC_EXCEEDED;
    mret 0.

(** [kernel_credentials_changed_locked] of [sched/process.c]: the process count
    moves, and a change of identity or a gained capability ends dumping. *)
Definition set_dumpable (p dumpable : Z) : M unit :=
  _ ← lift (trap_if (p = 0 ∨ 1 < dumpable));
  s ← fetch n_security p;
  store_exec_security p (mk_security s.(s_heap) s.(s_references) dumpable).
Definition kernel_credentials_changed_locked (task old replacement : Z) : M unit :=
  _ ← kernel_nproc_credentials_changed_locked task old replacement;
  t ← fetch n_tasks task;
  o ← fetch n_credentials old;
  r ← fetch n_credentials replacement;
  if decide (t.(t_exec_security) ≠ 0 ∧
             (o.(euid) ≠ r.(euid) ∨ o.(egid) ≠ r.(egid) ∨ o.(fsuid) ≠ r.(fsuid) ∨ o.(fsgid) ≠ r.(fsgid) ∨
              Z.land r.(permitted) (Z.lnot o.(permitted)) ≠ 0))
  then set_dumpable t.(t_exec_security) 0 else mret tt.
(** The locked section of [kernel_credentials_publish] of [credentials.c]; the
    reference to the old credentials is dropped after it. *)
Definition kernel_credentials_publish (task candidate : Z) : M unit :=
  t ← fetch n_tasks task;
  _ ← kernel_credentials_changed_locked task t.(t_credentials) candidate;
  t ← fetch n_tasks task;
  store_task task (mk_task candidate t.(t_limits) t.(t_resource_flags) t.(t_exec_security)).

End rlimit.
End Rlimit.
