(* ===== verification/RlimitTheory.v ===== *)
(** * The per-user process count is the number of charged tasks *)
From S2P Require Import Prelude Heap Credentials Rlimit.
Import Heap Credentials Rlimit.
#[local] Open Scope Z_scope.


Section nproc.
Context {H : Type} `{!ObjectHeap H}.
Implicit Types (w : state H).





(** ** The operations *)
Definition nproc_exempt (c : kernel_credentials) : Prop :=
  c.(uid) = 0 ∨ kernel_credentials_capable c KERNEL_CAP_SYS_RESOURCE = true ∨
  kernel_credentials_capable c KERNEL_CAP_SYS_ADMIN = true.
#[global] Instance nproc_exempt_dec c : Decision (nproc_exempt c).
Proof. unfold nproc_exempt. apply _. Defined.











End nproc.


