(* ===== verification/Elf64.v ===== *)
(** * Read sources and the ELF64 header parser
    ([kernel/read_source.c], [kernel/elf64.c])

    Bytes are integers in 0..255, buffers lists of them.  A read source is its
    size and its callback; the callback gets the offset, the buffer and the byte
    count and answers with a status and the buffer. *)
From S2P Require Import Prelude.
#[local] Open Scope Z_scope.

Module Elf64.

Definition KERNEL_EINVAL : Z := 22.
Definition ELF64_HEADER_SIZE : Z := 64.
Definition ELF64_PROGRAM_HEADER_SIZE : Z := 56.
Definition KERNEL_ELF64_CLASS_64 : Z := 2.
Definition KERNEL_ELF64_DATA_LITTLE_ENDIAN : Z := 1.
Definition KERNEL_ELF64_VERSION_CURRENT : Z := 1.
Definition KERNEL_ELF64_PROGRAM_LOAD : Z := 1.
Definition KERNEL_ELF64_MAX_PROGRAM_HEADERS : Z := 128.

(** ** Read sources *)

Record kernel_read_source := mk_source {
  s_size : Z;
  read_at : option (Z → list Z → nat → outcome (Z * list Z));
}.

(** [source->read_at != 0] *)
Definition has_reader (source : kernel_read_source) : bool :=
  match source.(read_at) with Some _ => true | None => false end.

Definition kernel_read_source_read_exact (source : kernel_read_source) (offset : Z)
    (buffer : list Z) (size : nat) : outcome (Z * list Z) :=
  match source.(read_at) with
  | None => Done (- KERNEL_EINVAL, buffer)
  | Some f =>
      if decide (source.(s_size) < offset ∨ source.(s_size) - offset < Z.of_nat size)
      then Done (- KERNEL_EINVAL, buffer)
      else if decide (size = 0)%nat then Done (0, buffer)
      else f offset buffer size
  end.

(** [destination[index] = source[offset + index]], [count] times. *)
Fixpoint memory_read_loop (bytes : list Z) (offset : Z) (count index : nat) (buffer : list Z) : outcome (list Z) :=
  match count with
  | O => Done buffer
  | S count' =>
      b ← aread bytes (Z.to_nat offset + index);
      buffer ← awrite buffer index b;
      memory_read_loop bytes offset count' (S index) buffer
  end.
Definition memory_read_at (bytes : list Z) (offset : Z) (buffer : list Z) (size : nat) : outcome (Z * list Z) :=
  buffer ← memory_read_loop bytes offset size 0 buffer; Done (0, buffer).
Definition kernel_read_source_from_memory (bytes : list Z) : kernel_read_source :=
  mk_source (Z.of_nat (length bytes)) (Some (memory_read_at bytes)).

(** ** Little-endian fields *)

Definition read_u16 (bytes : list Z) (at_ : nat) : outcome Z :=
  b0 ← aread bytes at_; b1 ← aread bytes (at_ + 1);
  Done (Z.lor b0 (Z.shiftl b1 8)).
Definition read_u32 (bytes : list Z) (at_ : nat) : outcome Z :=
  b0 ← aread bytes at_; b1 ← aread bytes (at_ + 1);
  b2 ← aread bytes (at_ + 2); b3 ← aread bytes (at_ + 3);
  Done (Z.lor (Z.lor (Z.lor b0 (Z.shiftl b1 8)) (Z.shiftl b2 16)) (Z.shiftl b3 24)).
Fixpoint read_u64_loop (bytes : list Z) (at_ index count : nat) (value : Z) : outcome Z :=
  match count with
  | O => Done value
  | S count' =>
      b ← aread bytes (at_ + index);
      read_u64_loop bytes at_ (S index) count' (Z.lor value (Z.shiftl b (Z.of_nat index * 8)))
  end.
Definition read_u64 (bytes : list Z) (at_ : nat) : outcome Z := read_u64_loop bytes at_ 0 8 0.

Definition range_within (size offset len : Z) : bool :=
  bool_decide (offset ≤ size ∧ len ≤ size - offset).

(** ** Headers *)

Inductive kernel_elf64_status :=
  | KERNEL_ELF64_STATUS_OK
  | KERNEL_ELF64_STATUS_INVALID_ARGUMENT
  | KERNEL_ELF64_STATUS_TRUNCATED
  | KERNEL_ELF64_STATUS_MALFORMED
  | KERNEL_ELF64_STATUS_UNSUPPORTED
  | KERNEL_ELF64_STATUS_IO.
#[export] Instance kernel_elf64_status_eq_dec : EqDecision kernel_elf64_status.
Proof. solve_decision. Defined.

Record kernel_elf64_header := mk_header {
  e_type : Z;
  e_machine : Z;
  e_entry : Z;
  program_header_offset : Z;
  program_header_count : Z;
}.
Record kernel_elf64_program_header := mk_program_header {
  p_type : Z;
  p_flags : Z;
  p_offset : Z;
  virtual_address : Z;
  physical_address : Z;
  file_size : Z;
  memory_size : Z;
  alignment : Z;
}.
#[export] Instance kernel_elf64_program_header_eq_dec : EqDecision kernel_elf64_program_header.
Proof. solve_decision. Defined.
Record kernel_elf64_image := mk_image {
  i_source : kernel_read_source;
  i_header : kernel_elf64_header;
}.

Definition decode_program_header (bytes : list Z) : outcome kernel_elf64_program_header :=
  type ← read_u32 bytes 0;
  flags ← read_u32 bytes 4;
  offset ← read_u64 bytes 8;
  va ← read_u64 bytes 16;
  pa ← read_u64 bytes 24;
  fs ← read_u64 bytes 32;
  ms ← read_u64 bytes 40;
  align ← read_u64 bytes 48;
  Done (mk_program_header type flags offset va pa fs ms align).

Definition validate_load_segment (header : kernel_elf64_program_header) (image_size : Z)
    : kernel_elf64_status :=
  if decide (header.(memory_size) < header.(file_size)) then KERNEL_ELF64_STATUS_MALFORMED
  else if negb (range_within image_size header.(p_offset) header.(file_size))
  then KERNEL_ELF64_STATUS_TRUNCATED
  else if decide (UINT64_MAX - header.(virtual_address) < header.(memory_size))
  then KERNEL_ELF64_STATUS_MALFORMED
  else if decide (1 < header.(alignment)) then
    let alignment_mask := header.(alignment) - 1 in
    if decide (Z.land header.(alignment) alignment_mask ≠ 0 ∨
               (header.(memory_size) ≠ 0 ∧
                Z.land header.(virtual_address) alignment_mask ≠
                Z.land header.(p_offset) alignment_mask))
    then KERNEL_ELF64_STATUS_MALFORMED
    else KERNEL_ELF64_STATUS_OK
  else KERNEL_ELF64_STATUS_OK.

(** The loop over the program headers: [count] headers from [index] on; [data]
    is the shared buffer, [cached] the caller's array when there is one. *)
Fixpoint load_program_headers (count : nat) (source : kernel_read_source) (table : Z)
    (index : nat) (data : list Z) (cached : option (list kernel_elf64_program_header))
    : outcome (kernel_elf64_status * option (list kernel_elf64_program_header)) :=
  match count with
  | O => Done (KERNEL_ELF64_STATUS_OK, cached)
  | S count' =>
      let offset := u64 (table + Z.of_nat index * ELF64_PROGRAM_HEADER_SIZE) in
      '(status, data) ← kernel_read_source_read_exact source offset data 56;
      if decide (status ≠ 0) then Done (KERNEL_ELF64_STATUS_IO, cached)
      else
        header ← decode_program_header data;
        cached ← match cached with
                 | Some c => c ← awrite c index header; Done (Some c)
                 | None => Done None
                 end;
        if decide (header.(p_type) ≠ KERNEL_ELF64_PROGRAM_LOAD)
        then load_program_headers count' source table (S index) data cached
        else
          let status := validate_load_segment header source.(s_size) in
          if decide (status ≠ KERNEL_ELF64_STATUS_OK) then Done (status, cached)
          else load_program_headers count' source table (S index) data cached
  end.

(** [cached] is the caller's array (its capacity is its length); the result is
    the status, what was stored in [*image], and the array. *)
Definition kernel_elf64_open_internal (source : kernel_read_source)
    (cached : option (list kernel_elf64_program_header))
    : outcome (kernel_elf64_status * option kernel_elf64_image *
               option (list kernel_elf64_program_header)) :=
  let fail status := Done (status, None, cached) in
  if decide (has_reader source = false) then fail KERNEL_ELF64_STATUS_INVALID_ARGUMENT
  else if decide (cached = Some []) then fail KERNEL_ELF64_STATUS_INVALID_ARGUMENT
  else if decide (source.(s_size) < ELF64_HEADER_SIZE) then fail KERNEL_ELF64_STATUS_TRUNCATED
  else
    '(status, data) ← kernel_read_source_read_exact source 0 (replicate 64 0) 64;
    if decide (status ≠ 0) then fail KERNEL_ELF64_STATUS_IO
    else
      d0 ← aread data 0; d1 ← aread data 1; d2 ← aread data 2; d3 ← aread data 3;
      if decide (d0 ≠ 127 ∨ d1 ≠ 69 ∨ d2 ≠ 76 ∨ d3 ≠ 70) then fail KERNEL_ELF64_STATUS_MALFORMED
      else
        d4 ← aread data 4; d5 ← aread data 5; d6 ← aread data 6; version ← read_u32 data 20;
        if decide (d4 ≠ KERNEL_ELF64_CLASS_64 ∨ d5 ≠ KERNEL_ELF64_DATA_LITTLE_ENDIAN ∨
                   d6 ≠ KERNEL_ELF64_VERSION_CURRENT ∨ version ≠ KERNEL_ELF64_VERSION_CURRENT)
        then fail KERNEL_ELF64_STATUS_UNSUPPORTED
        else
          ehsize ← read_u16 data 52; phentsize ← read_u16 data 54;
          if decide (ehsize ≠ ELF64_HEADER_SIZE ∨ phentsize ≠ ELF64_PROGRAM_HEADER_SIZE)
          then fail KERNEL_ELF64_STATUS_MALFORMED
          else
            type ← read_u16 data 16; machine ← read_u16 data 18; entry ← read_u64 data 24;
            phoff ← read_u64 data 32; phnum ← read_u16 data 56;
            let decoded := mk_header type machine entry phoff phnum in
            if decide (phnum = 0) then fail KERNEL_ELF64_STATUS_MALFORMED
            else if decide (KERNEL_ELF64_MAX_PROGRAM_HEADERS < phnum)
            then fail KERNEL_ELF64_STATUS_UNSUPPORTED
            else if match cached with
                    | Some c => bool_decide (Z.of_nat (length c) < phnum)
                    | None => false
                    end then fail KERNEL_ELF64_STATUS_INVALID_ARGUMENT
            else if decide (phoff < ELF64_HEADER_SIZE) then fail KERNEL_ELF64_STATUS_MALFORMED
            else if negb (range_within source.(s_size) phoff (phnum * ELF64_PROGRAM_HEADER_SIZE))
            then fail KERNEL_ELF64_STATUS_TRUNCATED
            else
              '(status, cached) ← load_program_headers (Z.to_nat phnum) source phoff 0 data cached;
              if decide (status ≠ KERNEL_ELF64_STATUS_OK) then Done (status, None, cached)
              else Done (KERNEL_ELF64_STATUS_OK, Some (mk_image source decoded), cached).

Definition kernel_elf64_open (source : kernel_read_source)
    : outcome (kernel_elf64_status * option kernel_elf64_image) :=
  '(status, image, _) ← kernel_elf64_open_internal source None; Done (status, image).

Definition kernel_elf64_open_cached (source : kernel_read_source)
    (program_headers : list kernel_elf64_program_header)
    : outcome (kernel_elf64_status * option kernel_elf64_image *
               list kernel_elf64_program_header) :=
  if decide (program_headers = [])
  then Done (KERNEL_ELF64_STATUS_INVALID_ARGUMENT, None, program_headers)
  else
    '(status, image, cached) ← kernel_elf64_open_internal source (Some program_headers);
    Done (status, image, default program_headers cached).

Definition kernel_elf64_read_program_header (image : kernel_elf64_image) (index : Z)
    : outcome (kernel_elf64_status * option kernel_elf64_program_header) :=
  if decide (has_reader image.(i_source) = false ∨
             image.(i_header).(program_header_count) ≤ index)
  then Done (KERNEL_ELF64_STATUS_INVALID_ARGUMENT, None)
  else
    let relative_offset := index * ELF64_PROGRAM_HEADER_SIZE in
    if decide (UINT64_MAX - relative_offset < image.(i_header).(program_header_offset))
    then Done (KERNEL_ELF64_STATUS_TRUNCATED, None)
    else
      let offset := image.(i_header).(program_header_offset) + relative_offset in
      if negb (range_within image.(i_source).(s_size) offset ELF64_PROGRAM_HEADER_SIZE)
      then Done (KERNEL_ELF64_STATUS_TRUNCATED, None)
      else
        '(status, data) ← kernel_read_source_read_exact image.(i_source) offset (replicate 56 0) 56;
        if decide (status ≠ 0) then Done (KERNEL_ELF64_STATUS_IO, None)
        else
          decoded ← decode_program_header data;
          Done (KERNEL_ELF64_STATUS_OK, Some decoded).

End Elf64.
