(* ===== verification/Elf64Theory.v ===== *)
(** * The ELF64 parser accepts exactly the well-formed images *)
From S2P Require Import Prelude Bytes Elf64.
Import Elf64.
#[local] Open Scope Z_scope.

(** ** Reference reading of the file *)

(** The [n]-byte field at [at_]. *)
Definition field (bytes : list Z) (at_ n : nat) : Z := le_value (take n (drop at_ bytes)).

Definition parsed_header (bytes : list Z) (at_ : nat) : kernel_elf64_program_header :=
  mk_program_header (field bytes at_ 4) (field bytes (at_ + 4) 4) (field bytes (at_ + 8) 8)
    (field bytes (at_ + 16) 8) (field bytes (at_ + 24) 8) (field bytes (at_ + 32) 8)
    (field bytes (at_ + 40) 8) (field bytes (at_ + 48) 8).

(** A loadable segment: its file bytes exist, its addresses do not wrap, and
    address and file offset agree modulo a power-of-two alignment. *)
Record segment_ok (size : Z) (h : kernel_elf64_program_header) : Prop := {
  sg_sizes : h.(file_size) ≤ h.(memory_size);
  sg_file : h.(p_offset) + h.(file_size) ≤ size;
  sg_address : h.(virtual_address) + h.(memory_size) ≤ UINT64_MAX;
  sg_aligned : h.(alignment) ≤ 1 ∨ ∃ k, 0 ≤ k ∧ h.(alignment) = 2 ^ k ∧
    (h.(memory_size) = 0 ∨ h.(virtual_address) mod 2 ^ k = h.(p_offset) mod 2 ^ k);
}.

Definition phoff (bytes : list Z) : Z := field bytes 32 8.
Definition phnum (bytes : list Z) : Z := field bytes 56 2.
Definition header_at (bytes : list Z) (i : nat) : kernel_elf64_program_header :=
  parsed_header bytes (Z.to_nat (phoff bytes) + i * 56).

(** The ELF header: identification, sizes and a table inside the file. *)
Record header_ok (bytes : list Z) : Prop := {
  el_size : 64 ≤ Z.of_nat (length bytes);
  el_magic : take 4 bytes = [127; 69; 76; 70];
  el_class : field bytes 4 1 = 2 ∧ field bytes 5 1 = 1 ∧ field bytes 6 1 = 1 ∧ field bytes 20 4 = 1;
  el_sizes : field bytes 52 2 = 64 ∧ field bytes 54 2 = 56;
  el_count : 0 < phnum bytes ≤ 128;
  el_table : 64 ≤ phoff bytes ∧ phoff bytes + phnum bytes * 56 ≤ Z.of_nat (length bytes);
}.
Definition elf_ok (bytes : list Z) : Prop :=
  header_ok bytes ∧
  ∀ i, (i < Z.to_nat (phnum bytes))%nat → (header_at bytes i).(p_type) = 1 →
    segment_ok (Z.of_nat (length bytes)) (header_at bytes i).

(** ** Shifts and ors compute little-endian values *)

Lemma field_S bytes at_ n b :
  bytes !! (at_ + n)%nat = Some b →
  field bytes at_ (S n) = field bytes at_ n + b * 2 ^ (8 * Z.of_nat n).
Proof.
  intros Hb. unfold field. rewrite (take_S_r _ _ b) by (by rewrite lookup_drop).
  rewrite le_value_app, length_take, length_drop. apply lookup_lt_Some in Hb.
  rewrite Nat.min_l by lia. simpl. lia.
Qed.
Lemma field_bound bytes at_ n :
  Forall byte_ok bytes → 0 ≤ field bytes at_ n < 2 ^ (8 * Z.of_nat n).
Proof.
  intros Hb. unfold field. pose proof (le_value_bound (take n (drop at_ bytes))) as Hv.
  specialize (Hv ltac:(by apply Forall_take, Forall_drop)). split; [lia|].
  apply (Z.lt_le_trans _ _ _ (proj2 Hv)). apply Z.pow_le_mono_r; [lia|].
  rewrite length_take. lia.
Qed.
Lemma field_step bytes at_ n b :
  Forall byte_ok bytes → bytes !! (at_ + n)%nat = Some b →
  Z.lor (field bytes at_ n) (Z.shiftl b (8 * Z.of_nat n)) = field bytes at_ (S n).
Proof.
  intros Hall Hb. rewrite lor_shift by (lia || by apply field_bound). by rewrite (field_S _ _ _ b).
Qed.
Lemma field_0 bytes at_ : field bytes at_ 0 = 0.
Proof. done. Qed.
Lemma field_1 bytes at_ b : bytes !! at_ = Some b → field bytes at_ 1 = b.
Proof. intros Hb. rewrite (field_S _ _ _ b) by (by rewrite Nat.add_0_r). rewrite field_0. simpl. lia. Qed.

Lemma read_u64_loop_spec bytes at_ index count :
  Forall byte_ok bytes → (at_ + index + count ≤ length bytes)%nat →
  read_u64_loop bytes at_ index count (field bytes at_ index) = Done (field bytes at_ (index + count)).
Proof.
  intros Hall. revert index. induction count as [|count IH]; intros index Hlen.
  { by rewrite Nat.add_0_r. }
  cbn [read_u64_loop]. destruct (lookup_lt_is_Some_2 bytes (at_ + index)) as [b Hb]; [lia|].
  rewrite (aread_ok _ _ _ Hb). run. rewrite (Z.mul_comm _ 8), (field_step _ _ _ _ Hall Hb).
  rewrite IH by lia. do 2 f_equal. lia.
Qed.
Lemma read_u64_spec bytes at_ :
  Forall byte_ok bytes → (at_ + 8 ≤ length bytes)%nat → read_u64 bytes at_ = Done (field bytes at_ 8).
Proof. intros. unfold read_u64. rewrite <-(field_0 bytes at_). by apply read_u64_loop_spec; [|lia]. Qed.
Lemma read_u16_spec bytes at_ :
  Forall byte_ok bytes → (at_ + 2 ≤ length bytes)%nat → read_u16 bytes at_ = Done (field bytes at_ 2).
Proof.
  intros Hall Hlen. unfold read_u16.
  destruct (lookup_lt_is_Some_2 bytes at_) as [b0 H0]; [lia|].
  destruct (lookup_lt_is_Some_2 bytes (at_ + 1)) as [b1 H1]; [lia|].
  rewrite (aread_ok _ _ _ H0). run. rewrite (aread_ok _ _ _ H1). run. f_equal.
  rewrite <-(field_1 bytes at_ b0) by done. by apply (field_step bytes at_ 1 b1).
Qed.
Lemma read_u32_spec bytes at_ :
  Forall byte_ok bytes → (at_ + 4 ≤ length bytes)%nat → read_u32 bytes at_ = Done (field bytes at_ 4).
Proof.
  intros Hall Hlen. unfold read_u32.
  destruct (lookup_lt_is_Some_2 bytes at_) as [b0 H0]; [lia|].
  destruct (lookup_lt_is_Some_2 bytes (at_ + 1)) as [b1 H1]; [lia|].
  destruct (lookup_lt_is_Some_2 bytes (at_ + 2)) as [b2 H2]; [lia|].
  destruct (lookup_lt_is_Some_2 bytes (at_ + 3)) as [b3 H3]; [lia|].
  rewrite (aread_ok _ _ _ H0). run. rewrite (aread_ok _ _ _ H1). run.
  rewrite (aread_ok _ _ _ H2). run. rewrite (aread_ok _ _ _ H3). run. f_equal.
  rewrite <-(field_1 bytes at_ b0) by done.
  pose proof (field_step bytes at_ 1 b1 Hall H1) as E1. change (8 * Z.of_nat 1) with 8 in E1.
  pose proof (field_step bytes at_ 2 b2 Hall H2) as E2. change (8 * Z.of_nat 2) with 16 in E2.
  pose proof (field_step bytes at_ 3 b3 Hall H3) as E3. change (8 * Z.of_nat 3) with 24 in E3.
  by rewrite E1, E2, E3.
Qed.

(** A buffer that starts with the bytes at [off]. *)
Lemma field_sub bytes data off m at_ n :
  take m data = take m (drop off bytes) → (at_ + n ≤ m)%nat →
  field data at_ n = field bytes (off + at_) n.
Proof.
  intros Heq Hle. unfold field. f_equal.
  assert (Hsub : ∀ l : list Z, take n (drop at_ l) = take n (drop at_ (take m l))).
  { intros l. replace m with (at_ + (m - at_))%nat by lia. rewrite <-take_drop_commute, take_take.
    f_equal. lia. }
  rewrite (Hsub data), Heq, <-Hsub, drop_drop. done.
Qed.

(** ** Segments *)

Lemma power_of_two_mask a : 1 < a → Z.land a (a - 1) = 0 ↔ ∃ k, 0 ≤ k ∧ a = 2 ^ k.
Proof.
  intros Ha. split.
  - intros Hl. exists (Z.log2 a). pose proof (Z.log2_spec a ltac:(lia)) as [Hlo Hhi].
    pose proof (Z.log2_nonneg a) as Hn. split; [done|].
    destruct (decide (a = 2 ^ Z.log2 a)) as [|Hne]; [done|]. exfalso.
    assert (Hlog : Z.log2 (a - 1) = Z.log2 a) by (apply Z.log2_unique; lia).
    assert (Hbit : Z.testbit (Z.land a (a - 1)) (Z.log2 a) = true).
    { rewrite Z.land_spec, Z.bit_log2 by lia. rewrite <-Hlog. apply Z.bit_log2. lia. }
    by rewrite Hl, Z.bits_0 in Hbit.
  - intros (k & Hk & ->).
    replace (2 ^ k - 1) with (Z.ones k) by (rewrite Z.ones_equiv; lia).
    rewrite Z.land_ones by done. apply Z.mod_same. lia.
Qed.
Lemma mask_mod a k : 0 ≤ k → Z.land a (2 ^ k - 1) = a mod 2 ^ k.
Proof.
  intros Hk. replace (2 ^ k - 1) with (Z.ones k) by (rewrite Z.ones_equiv; lia).
  by apply Z.land_ones.
Qed.

Lemma validate_spec h size :
  0 ≤ h.(file_size) →
  validate_load_segment h size = KERNEL_ELF64_STATUS_OK ↔ segment_ok size h.
Proof.
  intros Hfs. unfold validate_load_segment, range_within.
  destruct (decide (h.(memory_size) < h.(file_size))) as [|Hs]; [split; [done|]; intros []; lia|].
  case_bool_decide as Hr; simpl; [|split; [done|]; intros []; lia].
  destruct (decide (UINT64_MAX - h.(virtual_address) < h.(memory_size))) as [|Hv];
    [split; [done|]; intros []; lia|].
  destruct (decide (1 < h.(alignment))) as [Ha|Ha].
  2: { split; [|done]. intros _. split; lia || (left; lia). }
  case_decide as Hm.
  - split; [done|]. intros [_ _ _ [?|(k & Hk & E & Hc)]]; [lia|]. destruct Hm as [Hm|[Hmem Hm]].
    + destruct Hm. apply power_of_two_mask; eauto.
    + rewrite E, !mask_mod in Hm by done. destruct Hc; congruence.
  - split; [|done]. intros _. split; [lia|lia|lia|]. right.
    assert (Hz : Z.land h.(alignment) (h.(alignment) - 1) = 0)
      by (destruct (decide (Z.land h.(alignment) (h.(alignment) - 1) = 0)); tauto).
    apply power_of_two_mask in Hz as (k & Hk & E); [|done]. exists k. split; [done|]. split; [done|].
    rewrite E, !mask_mod in Hm by done.
    destruct (decide (memory_size h = 0)); [by left|right].
    destruct (decide (virtual_address h mod 2 ^ k = p_offset h mod 2 ^ k)); tauto.
Qed.

(** ** The parser *)

Section parser.
Context (bytes : list Z).
Hypothesis (Hbytes : Forall byte_ok bytes).
Hypothesis (Hmax : Z.of_nat (length bytes) ≤ UINT64_MAX).
Let source := kernel_read_source_from_memory bytes.
Let size := Z.of_nat (length bytes).

Lemma memory_read_loop_spec offset count index buffer :
  (Z.to_nat offset + index + count ≤ length bytes)%nat → (index + count ≤ length buffer)%nat →
  memory_read_loop bytes offset count index buffer =
    Done (take index buffer ++ take count (drop (Z.to_nat offset + index) bytes) ++ drop (index + count) buffer).
Proof.
  revert index buffer. induction count as [|count IH]; intros index buffer Hb Hr.
  { cbn [memory_read_loop]. by rewrite Nat.add_0_r, app_nil_l, take_drop. }
  cbn [memory_read_loop]. destruct (lookup_lt_is_Some_2 bytes (Z.to_nat offset + index)) as [b Hx]; [lia|].
  rewrite (aread_ok _ _ _ Hx). run. rewrite awrite_ok by lia. run. rewrite IH by (rewrite ?length_insert; lia). f_equal.
  rewrite (drop_S _ _ _ Hx). cbn [take]. rewrite <-Nat.add_succ_r. rewrite drop_insert_lt by lia.
  rewrite (take_S_r _ _ b) by (rewrite list_lookup_insert_eq; [done|lia]). rewrite take_insert_ge by lia.
  rewrite <-app_assoc. replace (S index + count)%nat with (index + S count)%nat by lia. done.
Qed.
Lemma read_exact_memory offset buffer n :
  0 ≤ offset → offset + Z.of_nat n ≤ size → (0 < n ≤ length buffer)%nat →
  kernel_read_source_read_exact source offset buffer n =
    Done (0, take n (drop (Z.to_nat offset) bytes) ++ drop n buffer).
Proof.
  intros Ho Hn Hpos. unfold kernel_read_source_read_exact. simpl. fold size.
  rewrite decide_False by lia. rewrite decide_False by lia. unfold memory_read_at.
  rewrite memory_read_loop_spec by (unfold size in *; lia). by rewrite Nat.add_0_r.
Qed.
Lemma slice_prefix off n (buffer : list Z) :
  (off + n ≤ length bytes)%nat →
  take n (take n (drop off bytes) ++ drop n buffer) = take n (drop off bytes).
Proof. intros Hlen. apply take_app_length'. rewrite length_take, length_drop. lia. Qed.
Lemma buffer_ok off n (buffer : list Z) :
  Forall byte_ok buffer → Forall byte_ok (take n (drop off bytes) ++ drop n buffer).
Proof. intros Hb. apply Forall_app. split; [by apply Forall_take, Forall_drop|by apply Forall_drop]. Qed.

Lemma decode_spec data off :
  Forall byte_ok data → (56 ≤ length data)%nat → take 56 data = take 56 (drop off bytes) →
  decode_program_header data = Done (parsed_header bytes off).
Proof.
  intros Hd Hlen Heq. unfold decode_program_header.
  rewrite !read_u32_spec by (done || lia). run. rewrite !read_u64_spec by (done || lia). run.
  rewrite !(field_sub bytes data off 56) by (done || lia). unfold parsed_header. by rewrite Nat.add_0_r.
Qed.

Lemma table_entry (i : nat) :
  64 ≤ phoff bytes → phoff bytes + phnum bytes * 56 ≤ size → (i < Z.to_nat (phnum bytes))%nat →
  Z.to_nat (u64 (phoff bytes + Z.of_nat i * ELF64_PROGRAM_HEADER_SIZE)) =
    (Z.to_nat (phoff bytes) + i * 56)%nat ∧
  0 ≤ u64 (phoff bytes + Z.of_nat i * ELF64_PROGRAM_HEADER_SIZE) ∧
  u64 (phoff bytes + Z.of_nat i * ELF64_PROGRAM_HEADER_SIZE) + 56 ≤ size.
Proof.
  intros Hlo Hhi Hi. unfold ELF64_PROGRAM_HEADER_SIZE. unfold size in *. rewrite u64_small by mlia. lia.
Qed.

(** Writing the decoded headers into the caller's array, if there is one. *)
Definition cached_after (i : nat) (cached : option (list kernel_elf64_program_header))
    : option (list kernel_elf64_program_header) :=
  c ← cached; Some (map (header_at bytes) (seq 0 i) ++ drop i c).

Lemma load_loop_spec count i data c0 cached :
  64 ≤ phoff bytes → phoff bytes + phnum bytes * 56 ≤ size →
  (i + count = Z.to_nat (phnum bytes))%nat →
  Forall byte_ok data → (56 ≤ length data)%nat →
  (∀ c, c0 = Some c → (Z.to_nat (phnum bytes) ≤ length c)%nat) → cached = cached_after i c0 →
  ∃ st cached', load_program_headers count source (phoff bytes) i data cached = Done (st, cached') ∧
    (st = KERNEL_ELF64_STATUS_OK ↔ ∀ j, (i ≤ j < Z.to_nat (phnum bytes))%nat →
       (header_at bytes j).(p_type) = 1 → segment_ok size (header_at bytes j)) ∧
    (st = KERNEL_ELF64_STATUS_OK → cached' = cached_after (Z.to_nat (phnum bytes)) c0).
Proof.
  intros Hlo Hhi. revert i data cached. induction count as [|count IH]; intros i data cached Hi Hd Hlen Hcap ->.
  { eexists _, _. split; [done|]. split; [|intros _; do 2 f_equal; lia]. split; [|done]. intros _ j Hj. lia. }
  destruct (table_entry i Hlo Hhi ltac:(lia)) as (Eoff & Hoff0 & Hoff).
  cbn [load_program_headers]. rewrite read_exact_memory by lia. run. rewrite decide_False by lia.
  rewrite Eoff. set (off := (Z.to_nat (phoff bytes) + i * 56)%nat) in *.
  set (data' := take 56 (drop off bytes) ++ drop 56 data).
  assert (Hd' : Forall byte_ok data') by (by apply buffer_ok).
  assert (Hlen' : (56 ≤ length data')%nat).
  { unfold data'. rewrite length_app, length_take, length_drop. unfold size in *. lia. }
  rewrite (decode_spec data' off Hd' Hlen') by (apply slice_prefix; unfold size in *; lia). run.
  change (parsed_header bytes off) with (header_at bytes i).
  assert (Hcw : match cached_after i c0 with
    | Some c => c ← awrite c i (header_at bytes i); Done (Some c) | None => Done None end =
    Done (cached_after (S i) c0)).
  { unfold cached_after. destruct c0 as [c|]; [|done]. cbn [mbind option_bind]. specialize (Hcap c eq_refl).
    assert (Hl : length (map (header_at bytes) (seq 0 i)) = i) by (by rewrite length_map, length_seq).
    rewrite awrite_ok by (rewrite length_app, Hl, length_drop; lia). run. do 2 f_equal.
    rewrite insert_app_r_alt by lia. rewrite Hl, Nat.sub_diag, seq_S, map_app, <-app_assoc. f_equal.
    destruct (lookup_lt_is_Some_2 c i) as [x Hx]; [lia|]. by rewrite (drop_S c x i Hx). }
  rewrite Hcw. run.
  destruct (IH (S i) data' (cached_after (S i) c0) ltac:(lia) Hd' Hlen' Hcap eq_refl)
    as (st & cached' & E & Hst & Hc).
  assert (Hsplit : (∀ j, (i ≤ j < Z.to_nat (phnum bytes))%nat → p_type (header_at bytes j) = 1 →
      segment_ok size (header_at bytes j)) ↔
    (p_type (header_at bytes i) = 1 → segment_ok size (header_at bytes i)) ∧
    (∀ j, (S i ≤ j < Z.to_nat (phnum bytes))%nat → p_type (header_at bytes j) = 1 →
      segment_ok size (header_at bytes j))).
  { split.
    - intros Hall. split; [apply Hall; lia|]. intros j Hj. apply Hall. lia.
    - intros [H1 H2] j Hj. destruct (decide (j = i)) as [->|]; [done|]. apply H2. lia. }
  unfold KERNEL_ELF64_PROGRAM_LOAD.
  destruct (decide (p_type (header_at bytes i) ≠ 1)) as [Hty|Hty].
  - rewrite E. exists st, cached'. split; [done|]. split; [|done]. rewrite Hsplit, Hst. naive_solver.
  - pose proof (validate_spec (header_at bytes i) size ltac:(apply field_bound, Hbytes)) as Hv.
    change (s_size source) with size.
    destruct (decide (validate_load_segment (header_at bytes i) size ≠ KERNEL_ELF64_STATUS_OK)) as [Hbad|Hgood].
    + eexists _, _. split; [done|]. split; [|done]. rewrite Hsplit. naive_solver.
    + rewrite E. exists st, cached'. split; [done|]. split; [|done]. rewrite Hsplit, Hst.
      assert (validate_load_segment (header_at bytes i) size = KERNEL_ELF64_STATUS_OK)
        by (destruct (validate_load_segment _ _); naive_solver). naive_solver.
Qed.

Definition decoded_header : kernel_elf64_header :=
  mk_header (field bytes 16 2) (field bytes 18 2) (field bytes 24 8) (phoff bytes) (phnum bytes).

Lemma head_field (d : list Z) at_ n :
  d = take 64 bytes → (at_ + n ≤ 64)%nat → field d at_ n = field bytes at_ n.
Proof. intros -> Hn. apply (field_sub bytes _ 0 64); [by rewrite take_take|done]. Qed.
Lemma take4_lookup (l : list Z) a b c d :
  l !! 0%nat = Some a → l !! 1%nat = Some b → l !! 2%nat = Some c → l !! 3%nat = Some d → take 4 l = [a; b; c; d].
Proof. destruct l as [|x0 [|x1 [|x2 [|x3 l]]]]; intros; by simplify_eq/=. Qed.

Ltac refused := right; split; [|eexists; split; [|reflexivity]; done].

(** Either a header check fails, or the program headers are loaded. *)
Lemma open_header_checks c0 :
  (∀ c, c0 = Some c → (128 ≤ length c)%nat) →
  (header_ok bytes ∧ kernel_elf64_open_internal source c0 =
     ('(status, cached) ← load_program_headers (Z.to_nat (phnum bytes)) source (phoff bytes) 0
        (take 64 bytes) c0;
      if decide (status ≠ KERNEL_ELF64_STATUS_OK) then Done (status, None, cached)
      else Done (KERNEL_ELF64_STATUS_OK, Some (mk_image source decoded_header), cached))) ∨
  (¬ header_ok bytes ∧ ∃ st, st ≠ KERNEL_ELF64_STATUS_OK ∧
     kernel_elf64_open_internal source c0 = Done (st, None, c0)).
Proof.
  intros Hcap. unfold kernel_elf64_open_internal. rewrite decide_False by done.
  rewrite decide_False by (intros ->; specialize (Hcap [] eq_refl); simpl in Hcap; lia).
  change (s_size source) with size. unfold ELF64_HEADER_SIZE, ELF64_PROGRAM_HEADER_SIZE in *.
  destruct (decide (size < 64)) as [Hsz|Hsz]; [refused; intros []; unfold size in *; lia|].
  rewrite read_exact_memory by (rewrite ?length_replicate; lia). run. rewrite decide_False by lia.
  change (drop (Z.to_nat 0) bytes) with bytes.
  set (data := take 64 bytes ++ drop 64 (replicate 64 0)).
  assert (Hdata : data = take 64 bytes) by (unfold data; by rewrite app_nil_r).
  assert (Hlen : length data = 64%nat) by (rewrite Hdata, length_take; unfold size in *; lia).
  assert (Hdb : Forall byte_ok data) by (rewrite Hdata; by apply Forall_take).
  assert (Hget : ∀ i, (i < 64)%nat → ∃ b, data !! i = Some b ∧ bytes !! i = Some b ∧ field bytes i 1 = b).
  { intros i Hi. destruct (lookup_lt_is_Some_2 data i) as [b Hb]; [lia|]. exists b.
    assert (bytes !! i = Some b) by (rewrite Hdata, lookup_take_lt in Hb by done; done).
    split_and!; [done|done|]. by apply field_1. }
  assert (H16 : ∀ i, (i + 2 ≤ 64)%nat → read_u16 data i = Done (field bytes i 2))
    by (intros i Hi; rewrite read_u16_spec by (done || lia); by rewrite head_field).
  assert (H32 : ∀ i, (i + 4 ≤ 64)%nat → read_u32 data i = Done (field bytes i 4))
    by (intros i Hi; rewrite read_u32_spec by (done || lia); by rewrite head_field).
  assert (H64 : ∀ i, (i + 8 ≤ 64)%nat → read_u64 data i = Done (field bytes i 8))
    by (intros i Hi; rewrite read_u64_spec by (done || lia); by rewrite head_field).
  destruct (Hget 0%nat ltac:(lia)) as (d0 & Hd0 & Hb0 & _). destruct (Hget 1%nat ltac:(lia)) as (d1 & Hd1 & Hb1 & _).
  destruct (Hget 2%nat ltac:(lia)) as (d2 & Hd2 & Hb2 & _). destruct (Hget 3%nat ltac:(lia)) as (d3 & Hd3 & Hb3 & _).
  destruct (Hget 4%nat ltac:(lia)) as (d4 & Hd4 & _ & Hf4). destruct (Hget 5%nat ltac:(lia)) as (d5 & Hd5 & _ & Hf5).
  destruct (Hget 6%nat ltac:(lia)) as (d6 & Hd6 & _ & Hf6).
  pose proof (take4_lookup _ _ _ _ _ Hb0 Hb1 Hb2 Hb3) as Hmagic.
  rewrite (aread_ok _ _ _ Hd0). run. rewrite (aread_ok _ _ _ Hd1). run.
  rewrite (aread_ok _ _ _ Hd2). run. rewrite (aread_ok _ _ _ Hd3). run.
  case_decide as Hm;
    [refused; intros [_ Hx _ _ _ _]; rewrite Hmagic in Hx; injection Hx as -> -> -> ->; lia|].
  assert (Hmag : take 4 bytes = [127; 69; 76; 70])
    by (rewrite Hmagic; f_equal; [lia|f_equal; [lia|f_equal; [lia|f_equal; lia]]]).
  rewrite (aread_ok _ _ _ Hd4). run. rewrite (aread_ok _ _ _ Hd5). run. rewrite (aread_ok _ _ _ Hd6). run.
  rewrite H32 by lia. run.
  case_decide as Hclass.
  { refused. intros [_ _ (H4 & H5 & H6 & H20) _ _ _]. rewrite Hf4 in H4. rewrite Hf5 in H5. rewrite Hf6 in H6.
    unfold KERNEL_ELF64_CLASS_64, KERNEL_ELF64_DATA_LITTLE_ENDIAN, KERNEL_ELF64_VERSION_CURRENT in *. lia. }
  unfold KERNEL_ELF64_CLASS_64, KERNEL_ELF64_DATA_LITTLE_ENDIAN, KERNEL_ELF64_VERSION_CURRENT in Hclass.
  rewrite (H16 52%nat), (H16 54%nat) by lia. run.
  case_decide as Hsizes; [refused; intros []; lia|].
  rewrite (H16 16%nat), (H16 18%nat), (H64 24%nat), (H64 32%nat), (H16 56%nat) by lia. run.
  fold (phoff bytes) (phnum bytes).
  destruct (decide (phnum bytes = 0)) as [Hn0|Hn0]; [refused; intros []; lia|].
  unfold KERNEL_ELF64_MAX_PROGRAM_HEADERS.
  destruct (decide (128 < phnum bytes)) as [Hn|Hn]; [refused; intros []; lia|].
  assert (Hroom : match c0 with Some c => bool_decide (Z.of_nat (length c) < phnum bytes) | None => false end = false).
  { destruct c0 as [c|]; [|done]. apply bool_decide_eq_false. specialize (Hcap c eq_refl). lia. }
  rewrite Hroom. destruct (decide (phoff bytes < 64)) as [Hlo|Hlo]; [refused; intros []; lia|].
  pose proof (field_bound bytes 56 2 Hbytes) as Hnb. fold (phnum bytes) in Hnb.
  unfold range_within. case_bool_decide as Hr; simpl negb; cbv iota.
  2: { refused. intros []. unfold size in *. lia. }
  left. split; [|by rewrite <-Hdata].
  split; [unfold size in *; lia|done|lia|lia|lia|unfold size in *; lia].
Qed.

Lemma open_internal_spec c0 :
  (∀ c, c0 = Some c → (128 ≤ length c)%nat) →
  ∃ st img cached', kernel_elf64_open_internal source c0 = Done (st, img, cached') ∧
    (st = KERNEL_ELF64_STATUS_OK ↔ elf_ok bytes) ∧
    (if decide (st = KERNEL_ELF64_STATUS_OK)
     then img = Some (mk_image source decoded_header) ∧ cached' = cached_after (Z.to_nat (phnum bytes)) c0
     else img = None).
Proof.
  intros Hcap. destruct (open_header_checks c0 Hcap) as [[Hh ->]|(Hh & st & Hst & ->)].
  2: { eexists _, _, _. split; [done|]. split; [split; [done|by intros [? _]]|]. by rewrite decide_False. }
  pose proof Hh as [Hsz _ _ _ Hn [Hlo Hhi]].
  destruct (load_loop_spec (Z.to_nat (phnum bytes)) 0 (take 64 bytes) c0 c0)
    as (st & cached' & -> & Hst & Hc); [done|done|lia|by apply Forall_take| | | |].
  { rewrite length_take. lia. }
  { intros c Ec. specialize (Hcap c Ec). lia. }
  { unfold cached_after. by destruct c0. }
  run. assert (Hiff : st = KERNEL_ELF64_STATUS_OK ↔ elf_ok bytes).
  { rewrite Hst. unfold elf_ok. split.
    - intros Hall. split; [done|]. intros i Hi. apply Hall. lia.
    - intros [_ Hall] j Hj. apply Hall. lia. }
  destruct (decide (st ≠ KERNEL_ELF64_STATUS_OK)) as [Hbad|Hgood].
  - eexists _, _, _. split; [done|]. split; [done|]. by rewrite decide_False.
  - assert (st = KERNEL_ELF64_STATUS_OK) as -> by (destruct (decide (st = KERNEL_ELF64_STATUS_OK)); tauto).
    eexists _, _, _. split; [done|]. split; [done|]. rewrite decide_True by done. auto.
Qed.

Lemma read_program_header_spec i :
  header_ok bytes → (i < Z.to_nat (phnum bytes))%nat →
  kernel_elf64_read_program_header (mk_image source decoded_header) (Z.of_nat i) =
    Done (KERNEL_ELF64_STATUS_OK, Some (header_at bytes i)).
Proof.
  intros Hh Hi. pose proof Hh as [Hsz _ _ _ Hn [Hlo Hhi]].
  destruct (table_entry i Hlo Hhi Hi) as (Eoff & Hoff0 & Hoff).
  unfold kernel_elf64_read_program_header, ELF64_PROGRAM_HEADER_SIZE in *.
  cbn [i_source i_header program_header_count program_header_offset decoded_header].
  rewrite decide_False by (intros [?|?]; [done|lia]). rewrite decide_False by (unfold size in *; mlia).
  rewrite (u64_small (phoff bytes + Z.of_nat i * 56)) in * by (unfold size in *; mlia).
  unfold range_within. rewrite bool_decide_true by (change (s_size source) with size; lia). simpl negb. cbv iota.
  rewrite read_exact_memory by (rewrite ?length_replicate; lia). run. rewrite decide_False by lia. rewrite Eoff.
  rewrite (decode_spec _ (Z.to_nat (phoff bytes) + i * 56)); [done| | |].
  - apply buffer_ok. by apply Forall_replicate.
  - rewrite length_app, length_take, length_drop, length_drop, length_replicate. unfold size in *. lia.
  - apply slice_prefix. unfold size in *. lia.
Qed.
End parser.

(** C16: on any byte string the parser stays inside its buffers and returns OK
    if and only if the bytes are a well-formed ELF64 image (identification and
    header sizes, a program-header table of 1 to 128 entries inside the file,
    and for every loadable segment file bytes that exist, addresses that do not
    wrap and a consistent power-of-two alignment).  Then the published header
    and the cached program headers are the little-endian fields of the file, and
    reading any program header back gives the same; otherwise no image is
    published.  The uncached entry point decides the same. *)
Theorem elf_open_exact (bytes : list Z) (storage : list kernel_elf64_program_header)
    (Hbytes : Forall byte_ok bytes) (Hsize : Z.of_nat (length bytes) ≤ UINT64_MAX)
    (Hroom : (128 ≤ length storage)%nat) :
  let source := kernel_read_source_from_memory bytes in
  let n := Z.to_nat (phnum bytes) in
  ∃ st img hs, kernel_elf64_open_cached source storage = Done (st, img, hs) ∧
    (st = KERNEL_ELF64_STATUS_OK ↔ elf_ok bytes) ∧
    (st = KERNEL_ELF64_STATUS_OK →
       img = Some (mk_image source (decoded_header bytes)) ∧
       hs = map (header_at bytes) (seq 0 n) ++ drop n storage ∧
       ∀ i, (i < n)%nat → kernel_elf64_read_program_header (mk_image source (decoded_header bytes)) (Z.of_nat i)
         = Done (KERNEL_ELF64_STATUS_OK, Some (header_at bytes i))) ∧
    (st ≠ KERNEL_ELF64_STATUS_OK → img = None) ∧
    ∃ st' img', kernel_elf64_open source = Done (st', img') ∧
      (st' = KERNEL_ELF64_STATUS_OK ↔ elf_ok bytes) ∧
      img' = if decide (st' = KERNEL_ELF64_STATUS_OK) then img else None.
Proof.
  intros source n. subst source. unfold kernel_elf64_open_cached, kernel_elf64_open.
  rewrite decide_False by (intros ->; simpl in Hroom; lia).
  destruct (open_internal_spec bytes Hbytes Hsize (Some storage)) as (st & img & c & -> & Hst & Himg).
  { by intros ? [= <-]. }
  destruct (open_internal_spec bytes Hbytes Hsize None) as (st' & img' & c' & -> & Hst' & Himg').
  { by intros. }
  run. exists st, img, (default storage c). split; [done|]. split; [done|]. split; [|split].
  - intros Hok. rewrite decide_True in Himg by done. destruct Himg as [-> ->].
    split; [done|]. split; [done|]. intros i Hi. apply read_program_header_spec; [done..| |done].
    by apply Hst.
  - intros Hbad. by rewrite decide_False in Himg.
  - exists st', img'. split; [done|]. split; [done|].
    destruct (decide (st' = KERNEL_ELF64_STATUS_OK)) as [Hok'|]; [|done].
    rewrite decide_True in Himg by tauto. destruct Himg as [-> _], Himg' as [-> _]. done.
Qed.

(** A 120-byte image with one loadable segment. *)
Definition demo_elf : list Z :=
  [127; 69; 76; 70; 2; 1; 1; 0; 0; 0; 0; 0; 0; 0; 0; 0; 2; 0; 243; 0; 1; 0; 0; 0;
   0; 0; 1; 0; 0; 0; 0; 0; 64; 0; 0; 0; 0; 0; 0; 0; 0; 0; 0; 0; 0; 0; 0; 0; 0; 0; 0; 0;
   64; 0; 56; 0; 1; 0; 0; 0; 0; 0; 0; 0] ++
  [1; 0; 0; 0; 5; 0; 0; 0; 0; 0; 0; 0; 0; 0; 0; 0; 0; 0; 1; 0; 0; 0; 0; 0;
   0; 0; 1; 0; 0; 0; 0; 0; 120; 0; 0; 0; 0; 0; 0; 0; 0; 16; 0; 0; 0; 0; 0; 0;
   0; 16; 0; 0; 0; 0; 0; 0].
Lemma elf_open_exact_witness :
  elf_ok demo_elf ∧ ∃ st img hs,
    kernel_elf64_open_cached (kernel_read_source_from_memory demo_elf)
      (replicate 128 (mk_program_header 0 0 0 0 0 0 0 0)) = Done (st, img, hs) ∧
    st = KERNEL_ELF64_STATUS_OK ∧ img = Some (mk_image (kernel_read_source_from_memory demo_elf)
      (mk_header 2 243 65536 64 1)).
Proof.
  destruct (elf_open_exact demo_elf (replicate 128 (mk_program_header 0 0 0 0 0 0 0 0)))
    as (st & img & hs & E & Hst & Himg & _).
  - unfold demo_elf, byte_ok. repeat (constructor; [lia|]). constructor.
  - vm_compute. discriminate.
  - vm_compute. lia.
  - assert (Hok : st = KERNEL_ELF64_STATUS_OK) by (vm_compute in E; congruence).
    split; [by apply Hst|]. exists st, img, hs. split; [exact E|]. split; [exact Hok|].
    destruct (Himg Hok) as [-> _]. reflexivity.
Defined.
