(* ===== verification/SplitQueue.v ===== *)
(** * The VirtIO split queue ([drivers/virtio/split_queue.c])

    The queue object is private to the driver.  The rings and the descriptor
    table are shared with the device, which may write anything at any time; the
    code reads each shared location at most once per call, so an operation takes
    the values it reads as an arbitrary snapshot [shared] and answers with the
    shared memory after its own writes. *)
From S2P Require Import Prelude.
#[local] Open Scope Z_scope.

Module SplitQueue.

Definition u16 (x : Z) : Z := x mod 65536.
Definition VIRTIO_SPLIT_MAX_SIZE : Z := 64.
Definition VIRTIO_DESC_NEXT : Z := 1.
Definition VIRTIO_DESC_WRITE : Z := 2.
Definition VIRTIO_DESC_INDIRECT : Z := 4.

Inductive virtio_status :=
  | VIRTIO_OK | VIRTIO_INVALID | VIRTIO_UNSUPPORTED | VIRTIO_NO_MEMORY
  | VIRTIO_DEVICE | VIRTIO_TIMEOUT | VIRTIO_STATE | VIRTIO_EMPTY | VIRTIO_FULL.
#[export] Instance virtio_status_eq_dec : EqDecision virtio_status.
Proof. solve_decision. Defined.

Record virtio_descriptor := mk_descriptor { d_address : Z; d_length : Z; d_flags : Z; d_next : Z }.
Record virtio_used_element := mk_used { u_id : Z; u_length : Z }.
Inductive virtio_queue_fault_reason :=
  | VIRTIO_QUEUE_NO_FAULT | VIRTIO_QUEUE_OVERFLOW | VIRTIO_QUEUE_BAD_HEAD | VIRTIO_QUEUE_BAD_LENGTH.
#[export] Instance virtio_queue_fault_reason_eq_dec : EqDecision virtio_queue_fault_reason.
Proof. solve_decision. Defined.
Record virtio_queue_fault := mk_fault {
  reason : virtio_queue_fault_reason;
  used_index : Z; observed_count : Z; consumed : Z;
  f_head : Z; f_length : Z;
}.
Record virtio_completion := mk_completion { c_token : Z; c_head : Z; c_length : Z }.
Record virtio_owner := mk_owner { token : Z; mask : Z; min_length : Z; max_length : Z }.
Record virtio_split_queue := mk_queue {
  transport : Z;
  descriptors : Z; available : Z; used : Z;
  size : Z; last_used : Z; next_available : Z; inflight : Z;
  claimed : Z;
  owners : list virtio_owner;
  fault : virtio_queue_fault;
}.
(** The part of [struct virtio_transport] the queue looks at; [t_id] is its
    address and [t_write] tells whether [ops.write] is set. *)
Record virtio_transport := mk_transport {
  t_id : Z; t_write : bool; t_features : Z; t_quiescent : bool; t_started : bool;
}.

Record shared := mk_shared {
  s_descriptors : list virtio_descriptor;
  s_available_index : Z;
  s_available_ring : list Z;
  s_used_index : Z;
  s_used_ring : list virtio_used_element;
}.

Definition no_fault : virtio_queue_fault := mk_fault VIRTIO_QUEUE_NO_FAULT 0 0 0 0 0.
Definition no_owners : list virtio_owner := replicate 64 (mk_owner 0 0 0 0).

(** The shared memory after the clearing in [virtio_split_initialize]. *)
Definition cleared (n : nat) : shared :=
  mk_shared (replicate n (mk_descriptor 0 0 0 0)) 0 (replicate n 0) 0 (replicate n (mk_used 0 0)).

Definition virtio_split_initialize (q : virtio_split_queue) (memory capacity sz avail usd : Z)
    (sh : shared) : virtio_status * virtio_split_queue * shared :=
  if decide (memory = 0 ∨ Z.land memory 15 ≠ 0 ∨ sz = 0 ∨ VIRTIO_SPLIT_MAX_SIZE < sz ∨
             Z.land sz (sz - 1) ≠ 0 ∨ avail < 16 * sz ∨ Z.land avail 1 ≠ 0 ∨ Z.land usd 3 ≠ 0 ∨
             capacity < avail ∨ capacity - avail < 6 + 2 * sz ∨
             usd < avail + 6 + 2 * sz ∨ capacity < usd ∨ capacity - usd < 6 + 8 * sz)
  then (VIRTIO_INVALID, q, sh)
  else if decide (q.(inflight) ≠ 0 ∨ q.(transport) ≠ 0) then (VIRTIO_STATE, q, sh)
  else (VIRTIO_OK,
        mk_queue 0 memory (memory + avail) (memory + usd) sz 0 0 0 0 no_owners no_fault,
        cleared (Z.to_nat sz)).

(** The walk along the descriptor chain; [inl] is the early return.  Every
    iteration claims a new descriptor, so 65 iterations are enough. *)
Fixpoint walk_chain (fuel : nat) (sz features head : Z) (ds : list virtio_descriptor)
    (m index : Z) : outcome (virtio_status + Z) :=
  match fuel with
  | O => Fault Out_of_fuel
  | S fuel' =>
      if decide (sz ≤ index ∨ Z.land m (Z.shiftl 1 index) ≠ 0) then Done (inl VIRTIO_STATE)
      else
        d ← aread ds (Z.to_nat index);
        if decide (UINT64_MAX - d.(d_length) < d.(d_address)) then Done (inl VIRTIO_STATE)
        else if decide (Z.land d.(d_flags)
               (Z.lnot (Z.lor (Z.lor VIRTIO_DESC_NEXT VIRTIO_DESC_WRITE) VIRTIO_DESC_INDIRECT)) ≠ 0)
        then Done (inl VIRTIO_STATE)
        else
          let m := Z.lor m (Z.shiftl 1 index) in
          if decide (Z.land d.(d_flags) VIRTIO_DESC_INDIRECT ≠ 0) then
            if decide (Z.land features (Z.shiftl 1 28) = 0) then Done (inl VIRTIO_UNSUPPORTED)
            else if decide (index ≠ head ∨ d.(d_flags) ≠ VIRTIO_DESC_INDIRECT ∨
                            Z.land d.(d_address) 15 ≠ 0 ∨ d.(d_length) = 0 ∨ Z.land d.(d_length) 15 ≠ 0)
            then Done (inl VIRTIO_STATE)
            else Done (inr m)
          else if decide (Z.land d.(d_flags) VIRTIO_DESC_NEXT = 0) then Done (inr m)
          else walk_chain fuel' sz features head ds m d.(d_next)
  end.

Definition virtio_split_enqueue (q : virtio_split_queue) (t : virtio_transport)
    (head tok min_len max_len : Z) (sh : shared)
    : outcome (virtio_status * virtio_split_queue * shared) :=
  if decide (q.(size) = 0 ∨ t.(t_write) = false ∨ tok = 0 ∨ q.(size) ≤ head ∨ max_len < min_len)
  then Done (VIRTIO_INVALID, q, sh)
  else if decide (q.(fault).(reason) ≠ VIRTIO_QUEUE_NO_FAULT ∨ t.(t_started) = false ∨
                  t.(t_quiescent) = true ∨ (q.(transport) ≠ 0 ∧ q.(transport) ≠ t.(t_id)))
  then Done (VIRTIO_STATE, q, sh)
  else if decide (q.(inflight) = q.(size)) then Done (VIRTIO_FULL, q, sh)
  else
    chain ← walk_chain 65 q.(size) t.(t_features) head sh.(s_descriptors) 0 head;
    match chain with
    | inl status => Done (status, q, sh)
    | inr m =>
        owner ← aread q.(owners) (Z.to_nat head);
        if decide (Z.land m q.(claimed) ≠ 0 ∨ owner.(token) ≠ 0 ∨
                   sh.(s_available_index) ≠ q.(next_available))
        then Done (VIRTIO_STATE, q, sh)
        else
          os ← awrite q.(owners) (Z.to_nat head) (mk_owner tok m min_len max_len);
          ring ← awrite sh.(s_available_ring) (Z.to_nat (q.(next_available) mod q.(size))) head;
          let next := u16 (q.(next_available) + 1) in
          Done (VIRTIO_OK,
                mk_queue t.(t_id) q.(descriptors) q.(available) q.(used) q.(size) q.(last_used) next
                  (u16 (q.(inflight) + 1)) (Z.lor q.(claimed) m) os q.(fault),
                mk_shared sh.(s_descriptors) next ring sh.(s_used_index) sh.(s_used_ring))
    end.

(** The second component is the value written to [VIRTIO_REG_QUEUE_NOTIFY]. *)
Definition virtio_split_notify (q : virtio_split_queue) (t : virtio_transport) (queue : Z)
    : virtio_status * option Z :=
  if decide (q.(size) = 0 ∨ t.(t_write) = false) then (VIRTIO_INVALID, None)
  else if decide (q.(fault).(reason) ≠ VIRTIO_QUEUE_NO_FAULT ∨ q.(transport) ≠ t.(t_id) ∨
                  t.(t_started) = false ∨ t.(t_quiescent) = true)
  then (VIRTIO_STATE, None)
  else (VIRTIO_OK, Some queue).

Definition virtio_split_publish (q : virtio_split_queue) (t : virtio_transport)
    (queue head tok min_len max_len : Z) (sh : shared)
    : outcome (virtio_status * option Z * virtio_split_queue * shared) :=
  '(status, q, sh) ← virtio_split_enqueue q t head tok min_len max_len sh;
  if decide (status = VIRTIO_OK)
  then let '(status, written) := virtio_split_notify q t queue in Done (status, written, q, sh)
  else Done (status, None, q, sh).

Definition with_fault (q : virtio_split_queue) (f : virtio_queue_fault) : virtio_split_queue :=
  mk_queue q.(transport) q.(descriptors) q.(available) q.(used) q.(size) q.(last_used)
    q.(next_available) q.(inflight) q.(claimed) q.(owners) f.
Definition raise_fault (q : virtio_split_queue) (why : virtio_queue_fault_reason)
    (observed count head len : Z) : virtio_split_queue :=
  with_fault q (mk_fault why observed count q.(last_used) head len).

Definition virtio_split_take (q : virtio_split_queue) (sh : shared)
    : outcome (virtio_status * virtio_split_queue * option virtio_completion) :=
  if decide (q.(size) = 0) then Done (VIRTIO_INVALID, q, None)
  else if decide (q.(fault).(reason) ≠ VIRTIO_QUEUE_NO_FAULT) then Done (VIRTIO_STATE, q, None)
  else
    let observed := sh.(s_used_index) in
    let count := u16 (observed - q.(last_used)) in
    if decide (q.(size) < count)
    then Done (VIRTIO_DEVICE, raise_fault q VIRTIO_QUEUE_OVERFLOW observed count UINT32_MAX 0, None)
    else if decide (count = 0) then Done (VIRTIO_EMPTY, q, None)
    else
      item ← aread sh.(s_used_ring) (Z.to_nat (q.(last_used) mod q.(size)));
      let q := mk_queue q.(transport) q.(descriptors) q.(available) q.(used) q.(size)
                 (u16 (q.(last_used) + 1)) q.(next_available) q.(inflight) q.(claimed)
                 q.(owners) q.(fault) in
      let bad why := Done (VIRTIO_DEVICE,
                       raise_fault q why observed count item.(u_id) item.(u_length), None) in
      if decide (q.(size) ≤ item.(u_id)) then bad VIRTIO_QUEUE_BAD_HEAD
      else
        owner ← aread q.(owners) (Z.to_nat item.(u_id));
        if decide (owner.(token) = 0) then bad VIRTIO_QUEUE_BAD_HEAD
        else if decide (item.(u_length) < owner.(min_length) ∨ owner.(max_length) < item.(u_length))
        then bad VIRTIO_QUEUE_BAD_LENGTH
        else
          os ← awrite q.(owners) (Z.to_nat item.(u_id))
                 (mk_owner 0 0 owner.(min_length) owner.(max_length));
          Done (VIRTIO_OK,
                mk_queue q.(transport) q.(descriptors) q.(available) q.(used) q.(size) q.(last_used)
                  q.(next_available) (u16 (q.(inflight) - 1))
                  (Z.land q.(claimed) (Z.lnot owner.(mask))) os q.(fault),
                Some (mk_completion owner.(token) item.(u_id) item.(u_length))).

Definition virtio_split_reset (q : virtio_split_queue) (t : virtio_transport) (sh : shared)
    : virtio_status * virtio_split_queue * shared :=
  if decide (q.(size) = 0) then (VIRTIO_INVALID, q, sh)
  else if decide (t.(t_quiescent) = false ∨ t.(t_started) = true ∨
                  (q.(transport) ≠ 0 ∧ q.(transport) ≠ t.(t_id)))
  then (VIRTIO_STATE, q, sh)
  else (VIRTIO_OK,
        mk_queue 0 q.(descriptors) q.(available) q.(used) q.(size) 0 0 0 0 no_owners no_fault,
        mk_shared sh.(s_descriptors) 0 sh.(s_available_ring) 0 sh.(s_used_ring)).

End SplitQueue.
