(* ===== verification/SplitQueueTheory.v ===== *)
(** * The split queue against an arbitrary device

    The ownership invariant of the queue, the descriptor chains it accepts, and
    the conservation of tokens over every history of calls in which the device
    rewrites the shared memory at will. *)
From S2P Require Import Prelude SplitQueue.
Import SplitQueue.
#[local] Open Scope Z_scope.

(** The chains that are outstanding at the device: the head, the token and the
    bounds on the length that the driver gave when it queued them. *)
Record sent := mk_sent { sent_head : Z; sent_token : Z; sent_min : Z; sent_max : Z }.
Definition sent_of (i : Z) (o : virtio_owner) : sent :=
  mk_sent i o.(token) o.(min_length) o.(max_length).
Fixpoint outstanding_from (i : Z) (os : list virtio_owner) : list sent :=
  match os with
  | [] => []
  | o :: os => (if decide (o.(token) = 0) then [] else [sent_of i o]) ++ outstanding_from (i + 1) os
  end.
Definition outstanding (q : virtio_split_queue) : list sent := outstanding_from 0 q.(owners).

(** [owns os h o]: slot [h] holds the live chain [o]. *)
Definition owns (os : list virtio_owner) (h : nat) (o : virtio_owner) : Prop :=
  os !! h = Some o ∧ o.(token) ≠ 0.

Record owners_ok (sz clm : Z) (os : list virtio_owner) : Prop := {
  own_length : length os = 64%nat;
  own_head h o : owns os h o → Z.testbit o.(mask) (Z.of_nat h) = true;
  own_claimed i : Z.testbit clm i = true ↔ ∃ h o, owns os h o ∧ Z.testbit o.(mask) i = true;
  own_disjoint h h' o o' i : owns os h o → owns os h' o' →
    Z.testbit o.(mask) i = true → Z.testbit o'.(mask) i = true → h = h';
  own_range i : Z.testbit clm i = true → 0 ≤ i < sz;
}.
Record queue_ok (q : virtio_split_queue) : Prop := {
  q_size : 1 ≤ q.(size) ≤ 64;
  q_last : 0 ≤ q.(last_used) < 65536;
  q_next : 0 ≤ q.(next_available) < 65536;
  q_inflight : q.(inflight) = Z.of_nat (length (outstanding q));
  q_owners : owners_ok q.(size) q.(claimed) q.(owners);
}.

(** What holds of the shared memory whatever the device writes: the extent of
    the arrays and the C types of the fields the code uses as indices. *)
Record shared_ok (sz : Z) (sh : shared) : Prop := {
  sh_descriptors : Z.of_nat (length sh.(s_descriptors)) = sz;
  sh_available : Z.of_nat (length sh.(s_available_ring)) = sz;
  sh_used : Z.of_nat (length sh.(s_used_ring)) = sz;
  sh_next : Forall (λ d, 0 ≤ d.(d_next)) sh.(s_descriptors);
  sh_id : Forall (λ u, 0 ≤ u.(u_id)) sh.(s_used_ring);
}.

(** ** Outstanding chains *)
Lemma outstanding_from_length i os : (length (outstanding_from i os) ≤ length os)%nat.
Proof.
  revert i. induction os as [|o os IH]; intros i; simpl; [done|].
  rewrite length_app. specialize (IH (i + 1)). destruct (decide (token o = 0)); simpl; lia.
Qed.
Lemma outstanding_from_insert i os h o o' :
  os !! h = Some o →
  (if decide (o'.(token) = 0) then [] else [sent_of (i + Z.of_nat h) o']) ++ outstanding_from i os ≡ₚ
  (if decide (o.(token) = 0) then [] else [sent_of (i + Z.of_nat h) o]) ++ outstanding_from i (<[h:=o']> os).
Proof.
  revert i h. induction os as [|a os IH]; intros i h Hh; [done|].
  destruct h as [|h]; simpl in Hh |- *.
  - injection Hh as <-. rewrite Z.add_0_r, !app_assoc. f_equiv. apply Permutation_app_comm.
  - specialize (IH (i + 1) h Hh).
    replace (i + Z.of_nat (S h)) with (i + 1 + Z.of_nat h) by lia.
    rewrite (Permutation_app_swap_app _ _ (outstanding_from _ os)), IH.
    apply Permutation_app_swap_app.
Qed.
Lemma outstanding_take i os h o o' :
  os !! h = Some o → o.(token) ≠ 0 → o'.(token) = 0 →
  outstanding_from i os ≡ₚ sent_of (i + Z.of_nat h) o :: outstanding_from i (<[h:=o']> os).
Proof.
  intros Hh Ho Ho'. pose proof (outstanding_from_insert i os h o o' Hh) as Hp.
  by rewrite decide_True, decide_False in Hp.
Qed.
Lemma outstanding_put i os h o o' :
  os !! h = Some o → o.(token) = 0 → o'.(token) ≠ 0 →
  outstanding_from i (<[h:=o']> os) ≡ₚ sent_of (i + Z.of_nat h) o' :: outstanding_from i os.
Proof.
  intros Hh Ho Ho'. pose proof (outstanding_from_insert i os h o o' Hh) as Hp.
  by rewrite decide_False, decide_True in Hp.
Qed.
Lemma outstanding_none i n mn mx : outstanding_from i (replicate n (mk_owner 0 0 mn mx)) = [].
Proof. revert i. induction n; intros; [done|]. simpl. apply IHn. Qed.

Lemma outstanding_fresh q : q.(owners) = no_owners → outstanding q = [].
Proof. unfold outstanding. intros ->. apply outstanding_none. Qed.

(** ** Ownership *)
Lemma owns_insert os h o h' o' :
  (h < length os)%nat →
  owns (<[h:=o]> os) h' o' ↔ (h' = h ∧ o' = o ∧ o.(token) ≠ 0) ∨ (h' ≠ h ∧ owns os h' o').
Proof.
  intros Hh. unfold owns. destruct (decide (h' = h)) as [->|Hne].
  - rewrite list_lookup_insert_eq by done. naive_solver.
  - rewrite list_lookup_insert_ne by done. naive_solver.
Qed.
Lemma land_disjoint a b i : Z.land a b = 0 → Z.testbit a i = true → Z.testbit b i = true → False.
Proof.
  intros H Ha Hb. assert (Z.testbit (Z.land a b) i = true) as Hab by (by rewrite Z.land_spec, Ha, Hb).
  by rewrite H, Z.bits_0 in Hab.
Qed.

Lemma owners_none sz : owners_ok sz 0 no_owners.
Proof.
  assert (∀ h o, ¬ owns no_owners h o) as Hno.
  { intros h o [H1 H2]. apply lookup_replicate in H1 as [-> _]. by apply H2. }
  split.
  - apply length_replicate.
  - intros h o H. by apply Hno in H.
  - intros i. rewrite Z.bits_0. split; [done|]. intros (h & o & H & _). by apply Hno in H.
  - intros h h' o o' i H. by apply Hno in H.
  - intros i. by rewrite Z.bits_0.
Qed.

(** A slot without a token takes a chain that is disjoint from all claims. *)
Lemma owners_put sz clm os h o o' :
  owners_ok sz clm os → os !! h = Some o → o.(token) = 0 → o'.(token) ≠ 0 →
  Z.testbit o'.(mask) (Z.of_nat h) = true → Z.land o'.(mask) clm = 0 →
  (∀ i, Z.testbit o'.(mask) i = true → 0 ≤ i < sz) →
  owners_ok sz (Z.lor clm o'.(mask)) (<[h:=o']> os).
Proof.
  intros [Hlen Hhd Hcl Hdis Hrg] Hh Ho Ho' Hbit Hfree Hin.
  pose proof (lookup_lt_Some _ _ _ Hh) as Hlt.
  assert (∀ h2 o2 i, owns os h2 o2 → Z.testbit (mask o2) i = true → Z.testbit (mask o') i = true → False) as Hnew.
  { intros h2 o2 i Hown H2 H'. eapply land_disjoint; [exact Hfree| exact H'|]. apply Hcl. eauto. }
  split.
  - by rewrite length_insert.
  - intros h2 o2 [(-> & -> & _)|[_ Hown]]%owns_insert; eauto.
  - intros i. rewrite Z.lor_spec, orb_true_iff, Hcl. split.
    + intros [(h2 & o2 & Hown & Hb)|Hb].
      * exists h2, o2. split; [|done]. apply owns_insert; [done|]. right. split; [|done].
        intros ->. destruct Hown. congruence.
      * exists h, o'. split; [|done]. apply owns_insert; [done|]. by left.
    + intros (h2 & o2 & [(-> & -> & _)|[_ Hown]]%owns_insert & Hb); eauto.
  - intros h1 h2 o1 o2 i [(-> & -> & _)|[? H1]]%owns_insert [(-> & -> & _)|[? H2]]%owns_insert;
      naive_solver.
  - intros i. rewrite Z.lor_spec, orb_true_iff. intros [?|?]; auto.
Qed.

(** Taking a chain out releases exactly its descriptors. *)
Lemma owners_take sz clm os h o o' :
  owners_ok sz clm os → owns os h o → o'.(token) = 0 →
  owners_ok sz (Z.land clm (Z.lnot o.(mask))) (<[h:=o']> os).
Proof.
  intros [Hlen Hhd Hcl Hdis Hrg] Hown Ho'. pose proof (lookup_lt_Some _ _ _ (proj1 Hown)) as Hlt.
  split.
  - by rewrite length_insert.
  - intros h2 o2 [(-> & -> & ?)|[_ H2]]%owns_insert; eauto; done.
  - intros i. rewrite Z.land_spec, andb_true_iff, Hcl. split.
    + intros [(h2 & o2 & H2 & Hb) Hnot]. exists h2, o2. split; [|done]. apply owns_insert; [done|].
      right. split; [|done]. intros ->. assert (o2 = o) as -> by (destruct H2, Hown; congruence).
      rewrite Z.lnot_spec in Hnot by (apply (Hrg i), Hcl; eauto). by rewrite Hb in Hnot.
    + intros (h2 & o2 & [(-> & -> & ?)|[Hne H2]]%owns_insert & Hb); [done| |done].
      split; [eauto|]. rewrite Z.lnot_spec by (apply (Hrg i), Hcl; eauto).
      apply negb_true_iff, not_true_is_false. intros Ho. eauto.
  - intros h1 h2 o1 o2 i [(-> & -> & ?)|[? H1]]%owns_insert [(-> & -> & ?)|[? H2]]%owns_insert;
      naive_solver.
  - intros i. rewrite Z.land_spec, andb_true_iff. intros [? _]. auto.
Qed.

(** ** Descriptor chains *)
Section chains.
Context (features head : Z) (ds : list virtio_descriptor).

Definition descriptor_ok (d : virtio_descriptor) : Prop :=
  d.(d_address) + d.(d_length) ≤ UINT64_MAX ∧
  Z.land d.(d_flags) (Z.lnot (Z.lor (Z.lor VIRTIO_DESC_NEXT VIRTIO_DESC_WRITE) VIRTIO_DESC_INDIRECT)) = 0.
Definition indirect_ok (i : Z) (d : virtio_descriptor) : Prop :=
  Z.land features (Z.shiftl 1 28) ≠ 0 ∧ i = head ∧ d.(d_flags) = VIRTIO_DESC_INDIRECT ∧
  Z.land d.(d_address) 15 = 0 ∧ d.(d_length) ≠ 0 ∧ Z.land d.(d_length) 15 = 0.

(** [chain i p]: following the table from [i] visits exactly [p]. *)
Inductive chain : Z → list Z → Prop :=
  | chain_indirect i d : ds !! Z.to_nat i = Some d → descriptor_ok d →
      Z.land d.(d_flags) VIRTIO_DESC_INDIRECT ≠ 0 → indirect_ok i d → chain i [i]
  | chain_last i d : ds !! Z.to_nat i = Some d → descriptor_ok d →
      Z.land d.(d_flags) VIRTIO_DESC_INDIRECT = 0 → Z.land d.(d_flags) VIRTIO_DESC_NEXT = 0 →
      chain i [i]
  | chain_link i d p : ds !! Z.to_nat i = Some d → descriptor_ok d →
      Z.land d.(d_flags) VIRTIO_DESC_INDIRECT = 0 → Z.land d.(d_flags) VIRTIO_DESC_NEXT ≠ 0 →
      chain d.(d_next) p → chain i (i :: p).

Definition bits_of (m : Z) (p : list Z) : Prop := ∀ i, Z.testbit m i = true ↔ i ∈ p.
(** A chain that stays in the table and repeats no descriptor. *)
Definition path (sz i : Z) (seen p : list Z) : Prop :=
  chain i p ∧ NoDup p ∧ ∀ j, j ∈ p → j ∉ seen ∧ 0 ≤ j < sz.

Lemma chain_head i p : chain i p → ∃ p', p = i :: p'.
Proof. destruct 1; eauto. Qed.
Lemma chain_functional i p p' : chain i p → chain i p' → p = p'.
Proof.
  intros Hc. revert p'. induction Hc as [i d|i d|i d p ? ? ? ? _ IH]; intros p' Hc';
    inversion Hc'; simplify_eq; f_equal; auto.
Qed.
Lemma path_bound sz i seen p : path sz i seen p → 0 ≤ i < sz ∧ i ∉ seen.
Proof.
  intros (Hc & _ & Hp). apply chain_head in Hc as [p' ->].
  destruct (Hp i) as [? ?]; [apply list_elem_of_here|]. done.
Qed.
Lemma path_step sz i seen p d :
  ds !! Z.to_nat i = Some d → descriptor_ok d →
  Z.land d.(d_flags) VIRTIO_DESC_INDIRECT = 0 → Z.land d.(d_flags) VIRTIO_DESC_NEXT ≠ 0 →
  0 ≤ i < sz → i ∉ seen →
  path sz i seen p ↔ ∃ p', p = i :: p' ∧ path sz d.(d_next) (i :: seen) p'.
Proof.
  intros Hd Hok Hi Hn Hr Hs. split.
  - intros (Hc & Hnd & Hp). inversion Hc as [|? ? Hd'|? d' p' Hd' _ _ _ Hc']; simplify_eq.
    apply NoDup_cons in Hnd as [Hin Hnd]. exists p'. split; [done|]. split; [done|].
    split; [done|]. intros j Hj. destruct (Hp j) as [? ?]; [by apply list_elem_of_further|].
    split; [|done]. rewrite elem_of_cons. intros [->|?]; done.
  - intros (p' & -> & Hc & Hnd & Hp). split; [by econstructor|]. split.
    + apply NoDup_cons. split; [|done]. intros Hin. apply Hp in Hin as [Hin _].
      apply Hin, list_elem_of_here.
    + intros j [->|Hj]%elem_of_cons; [done|]. apply Hp in Hj as [Hj ?].
      split; [|done]. intros ?. by apply Hj, list_elem_of_further.
Qed.
Lemma path_stop sz i seen d :
  ds !! Z.to_nat i = Some d → descriptor_ok d → 0 ≤ i < sz → i ∉ seen →
  chain i [i] → path sz i seen [i].
Proof.
  intros. split; [done|]. split; [apply NoDup_singleton|].
  by intros j ->%list_elem_of_singleton.
Qed.

(** What the walk finds: the chain, or that there is none. *)
Definition walk_result (sz i : Z) (seen : list Z) (r : virtio_status + Z) : Prop :=
  match r with
  | inr m => ∃ p, path sz i seen p ∧ bits_of m (p ++ seen)
  | inl s => s ≠ VIRTIO_OK ∧ ∀ p, ¬ path sz i seen p
  end.

Lemma seen_bound (sz : Z) (seen : list Z) :
  NoDup seen → (∀ j, j ∈ seen → 0 ≤ j < sz) → Z.of_nat (length seen) ≤ Z.max 0 sz.
Proof.
  intros Hnd Hr. assert (length seen ≤ length (seqZ 0 sz))%nat as Hle.
  { apply submseteq_length, NoDup_submseteq; [done|]. intros j Hj. apply elem_of_seqZ.
    apply Hr in Hj. lia. }
  rewrite length_seqZ in Hle. lia.
Qed.

Lemma bits_of_cons m i seen : 0 ≤ i → bits_of m seen → bits_of (Z.lor m (Z.shiftl 1 i)) (i :: seen).
Proof. intros Hi Hm j. rewrite testbit_lor_single, elem_of_cons by done. rewrite (Hm j). tauto. Qed.

(** No descriptor that the walk refuses starts a path. *)
Lemma path_lookup sz i seen p : path sz i seen p → ∃ d, ds !! Z.to_nat i = Some d ∧ descriptor_ok d ∧
  (Z.land d.(d_flags) VIRTIO_DESC_INDIRECT ≠ 0 → indirect_ok i d).
Proof. intros (Hc & _). destruct Hc as [i d|i d|i d]; exists d; naive_solver. Qed.

Lemma walk_chain_spec fuel sz m i seen :
  Z.of_nat (length ds) = sz → Forall (λ d, 0 ≤ d.(d_next)) ds → 0 ≤ i →
  NoDup seen → (∀ j, j ∈ seen → 0 ≤ j < sz) → bits_of m seen →
  sz < Z.of_nat (length seen) + Z.of_nat fuel →
  ∃ r, walk_chain fuel sz features head ds m i = Done r ∧ walk_result sz i seen r.
Proof.
  intros Hds Hnext. revert m i seen. induction fuel as [|fuel IH]; intros m i seen Hi Hnd Hr Hm Hf.
  { pose proof (seen_bound sz seen Hnd Hr). lia. }
  cbn [walk_chain].
  destruct (decide (sz ≤ i ∨ _)) as [Hbad|Hgood].
  { eexists; split; [done|]. split; [done|]. intros p [Hb Hn]%path_bound. rewrite land_single, (Hm i) in Hbad by done.
    destruct Hbad; [lia|done]. }
  assert (Hb : 0 ≤ i < sz ∧ i ∉ seen) by (rewrite land_single, (Hm i) in Hgood by done; split; [lia|tauto]).
  clear Hgood. destruct Hb as [Hb Hn].
  destruct (lookup_lt_is_Some_2 ds (Z.to_nat i)) as [d Hd]; [lia|].
  rewrite (aread_ok _ _ _ Hd). run.
  assert (Hno : (¬ descriptor_ok d ∨ Z.land (d_flags d) VIRTIO_DESC_INDIRECT ≠ 0 ∧ ¬ indirect_ok i d) →
                ∀ s, s ≠ VIRTIO_OK → walk_result sz i seen (inl s)).
  { intros Hbad s Hs. split; [done|]. intros p (d' & Hd' & Hok & Hin)%path_lookup. simplify_eq. tauto. }
  destruct (decide (UINT64_MAX - d_length d < d_address d)) as [Ha|Ha].
  { eexists; split; [done|]. apply Hno; [|done]. left. intros []. lia. }
  destruct (decide (Z.land (d_flags d) (Z.lnot _) ≠ 0)) as [Hfl|Hfl].
  { eexists; split; [done|]. apply Hno; [|done]. left. by intros []. }
  assert (Hok : descriptor_ok d) by (split; [lia|]; by apply dec_stable).
  pose proof (bits_of_cons m i seen Hi Hm) as Hm'.
  destruct (decide (Z.land (d_flags d) VIRTIO_DESC_INDIRECT ≠ 0)) as [Hind|Hind%dec_stable].
  - destruct (decide (Z.land features _ = 0)) as [Hft|Hft].
    { eexists; split; [done|]. apply Hno; [|done]. right. split; [done|]. by intros []. }
    destruct (decide (i ≠ head ∨ _)) as [Hbad|Hgood].
    { eexists; split; [done|]. apply Hno; [|done]. right. split; [done|]. unfold indirect_ok. naive_solver. }
    eexists; split; [done|]. exists [i]. split; [|done]. eapply path_stop; eauto.
    eapply chain_indirect; eauto.
    unfold indirect_ok. split_and!; [done|apply dec_stable; tauto..].
  - destruct (decide (Z.land (d_flags d) VIRTIO_DESC_NEXT = 0)) as [Hlast|Hmore].
    { eexists; split; [done|]. exists [i]. split; [|done]. eapply path_stop; eauto. by eapply chain_last. }
    destruct (IH (Z.lor m (Z.shiftl 1 i)) (d_next d) (i :: seen)) as (r & Hrun & Hres).
    + by eapply Forall_lookup_1 in Hnext.
    + by apply NoDup_cons.
    + intros j [->|?]%elem_of_cons; auto.
    + done.
    + cbn [length]. lia.
    + exists r. split; [done|]. destruct r as [s|m'].
      * destruct Hres as [? Hres]. split; [done|]. intros p Hp. apply (path_step sz i seen p d) in Hp as (p' & -> & Hp); eauto. by apply (Hres p').
      * destruct Hres as (p & Hp & Hbits). exists (i :: p). split; [apply (path_step sz i seen _ d); eauto|].
        intros j. rewrite (Hbits j), !elem_of_app, !elem_of_cons. tauto.
Qed.
End chains.

(** ** Calls *)
Section calls.
Context (q : virtio_split_queue) (sh : shared) (Hq : queue_ok q) (Hsh : shared_ok q.(size) sh).

Lemma owner_slot i : 0 ≤ i < q.(size) → ∃ o, q.(owners) !! Z.to_nat i = Some o.
Proof.
  intros Hi. apply lookup_lt_is_Some_2. rewrite (own_length _ _ _ (q_owners _ Hq)).
  pose proof (q_size _ Hq). lia.
Qed.
Lemma outstanding_bound : Z.of_nat (length (outstanding q)) ≤ 64.
Proof.
  unfold outstanding. pose proof (outstanding_from_length 0 (owners q)) as H.
  rewrite (own_length _ _ _ (q_owners _ Hq)) in H. lia.
Qed.
Lemma u16_bounds x : 0 ≤ u16 x < 65536.
Proof. apply Z.mod_pos_bound. done. Qed.
Lemma u16_small x : 0 ≤ x < 65536 → u16 x = x.
Proof. apply Z.mod_small. Qed.

(** When a chain is accepted, and what it changes. *)
Definition enqueue_guards (t : virtio_transport) (head tok mn mx : Z) : Prop :=
  t.(t_write) = true ∧ tok ≠ 0 ∧ head < q.(size) ∧ mn ≤ mx ∧
  q.(fault).(reason) = VIRTIO_QUEUE_NO_FAULT ∧ t.(t_started) = true ∧ t.(t_quiescent) = false ∧
  (q.(transport) = 0 ∨ q.(transport) = t.(t_id)) ∧ q.(inflight) ≠ q.(size) ∧
  sh.(s_available_index) = q.(next_available).
Definition enqueue_accepts (t : virtio_transport) (head tok mn mx : Z) (p : list Z) : Prop :=
  enqueue_guards t head tok mn mx ∧ path t.(t_features) head sh.(s_descriptors) q.(size) head [] p ∧
  ∀ j, j ∈ p → Z.testbit q.(claimed) j = false.
Definition enqueued (t : virtio_transport) (head tok mn mx m : Z) : virtio_split_queue * shared :=
  (mk_queue t.(t_id) q.(descriptors) q.(available) q.(used) q.(size) q.(last_used)
     (u16 (q.(next_available) + 1)) (q.(inflight) + 1) (Z.lor q.(claimed) m)
     (<[Z.to_nat head := mk_owner tok m mn mx]> q.(owners)) q.(fault),
   mk_shared sh.(s_descriptors) (u16 (q.(next_available) + 1))
     (<[Z.to_nat (q.(next_available) mod q.(size)) := head]> sh.(s_available_ring))
     sh.(s_used_index) sh.(s_used_ring)).

Lemma claimed_path m p :
  bits_of m p → Z.land m q.(claimed) = 0 ↔ ∀ j, j ∈ p → Z.testbit q.(claimed) j = false.
Proof.
  intros Hm. split.
  - intros H j Hj%Hm. apply not_true_is_false. intros Hc. by eapply land_disjoint.
  - intros H. apply Z.bits_inj'. intros i _. rewrite Z.land_spec, Z.bits_0.
    destruct (Z.testbit m i) eqn:E; [|done]. by apply H, Hm.
Qed.
Lemma unclaimed_head head p o f ds :
  path f head ds q.(size) head [] p → (∀ j, j ∈ p → Z.testbit q.(claimed) j = false) →
  q.(owners) !! Z.to_nat head = Some o → o.(token) = 0.
Proof.
  intros Hp Hfree Ho. apply dec_stable. intros Hne.
  pose proof (path_bound _ _ _ _ _ _ _ Hp) as [Hb _].
  destruct Hp as (Hc & _ & _). apply chain_head in Hc as [p' ->].
  specialize (Hfree head (list_elem_of_here _ _)).
  assert (Hown : owns (owners q) (Z.to_nat head) o) by done.
  pose proof (own_head _ _ _ (q_owners _ Hq) _ _ Hown) as Hbit. rewrite Z2Nat.id in Hbit by lia.
  assert (Z.testbit (claimed q) head = true); [|congruence].
  apply (own_claimed _ _ _ (q_owners _ Hq)). eauto.
Qed.

Lemma enqueue_run t head tok mn mx : 0 ≤ head →
  ∃ s, (∃ p m, s = VIRTIO_OK ∧ enqueue_accepts t head tok mn mx p ∧ bits_of m p ∧
          virtio_split_enqueue q t head tok mn mx sh =
          Done (VIRTIO_OK, (enqueued t head tok mn mx m).1, (enqueued t head tok mn mx m).2)) ∨
       (s ≠ VIRTIO_OK ∧ (∀ p, ¬ enqueue_accepts t head tok mn mx p) ∧
          virtio_split_enqueue q t head tok mn mx sh = Done (s, q, sh)).
Proof.
  intros Hhead. unfold virtio_split_enqueue. pose proof (q_size _ Hq) as Hsz.
  unfold enqueue_accepts, enqueue_guards.
  destruct (decide (size q = 0 ∨ _)) as [H1|H1].
  { exists VIRTIO_INVALID. right. split_and!; [done| |done].
    intros p [(? & ? & ? & ? & _) _]. destruct H1 as [?|[?|[?|[?|?]]]]; congruence || lia. }
  destruct (decide (reason _ ≠ _ ∨ _)) as [H2|H2].
  { exists VIRTIO_STATE. right. split_and!; [done| |done].
    intros p [(_ & _ & _ & _ & ? & ? & ? & ? & _) _].
    destruct H2 as [?|[?|[?|[? ?]]]]; try congruence; tauto. }
  destruct (decide (inflight q = size q)) as [H3|H3].
  { exists VIRTIO_FULL. right. split_and!; [done| |done]. intros p [Hg _]. tauto. }
  destruct (walk_chain_spec (t_features t) head (s_descriptors sh) 65 (size q) 0 head [])
    as (r & -> & Hres); [by destruct Hsh..|done|constructor|by intros ? ?%elem_of_nil| |simpl; lia|].
  { intros j. rewrite Z.bits_0, elem_of_nil. done. }
  run. destruct r as [s|m].
  { destruct Hres as [Hs Hres]. exists s. right. split_and!; [done| |done]. intros p (_ & Hp & _).
    by apply (Hres p). }
  destruct Hres as (p & Hp & Hm). rewrite app_nil_r in Hm.
  destruct (owner_slot head) as [o Ho]; [lia|]. rewrite (aread_ok _ _ _ Ho). run.
  destruct (decide (Z.land m (claimed q) ≠ 0 ∨ _)) as [H4|H4].
  - exists VIRTIO_STATE. right. split_and!; [done| |done]. intros p' (Hg & Hp' & Hfree).
    assert (p' = p) as -> by (eapply chain_functional; [apply Hp'|apply Hp]).
    destruct H4 as [H4|[H4|H4]].
    + by apply H4, (claimed_path m p).
    + by apply H4, (unclaimed_head head p o _ _ Hp Hfree).
    + unfold enqueue_guards in Hg. tauto.
  - assert (Hdis : Z.land m (claimed q) = 0) by (apply dec_stable; tauto).
    exists VIRTIO_OK. left. exists p, m. split; [done|]. split.
    { split; [unfold enqueue_guards|by split; [|apply (claimed_path m p)]].
      apply Decidable.not_or in H1 as (_ & (?%not_false_is_true & (? & (? & ?)%Decidable.not_or)%Decidable.not_or)%Decidable.not_or).
      apply Decidable.not_or in H2 as (?%dec_stable & (?%not_false_is_true &
        (?%not_true_is_false & Htr)%Decidable.not_or)%Decidable.not_or).
      apply Decidable.not_or in H4 as (_ & (_ & ?%dec_stable)%Decidable.not_or).
      split_and!; done || lia. }
    split; [done|].
    rewrite (awrite_ok (owners q)) by (eapply lookup_lt_Some, Ho). run.
    pose proof (Z.mod_pos_bound (next_available q) (size q)).
    pose proof (sh_available _ _ Hsh).
    rewrite awrite_ok by lia. run.
    assert (u16 (inflight q + 1) = inflight q + 1) as ->; [|done].
    apply u16_small. rewrite (q_inflight _ Hq). pose proof outstanding_bound. lia.
Qed.

Lemma enqueued_ok t head tok mn mx p m :
  0 ≤ head → enqueue_accepts t head tok mn mx p → bits_of m p →
  let r := enqueued t head tok mn mx m in
  queue_ok r.1 ∧ shared_ok q.(size) r.2 ∧
  outstanding r.1 ≡ₚ mk_sent head tok mn mx :: outstanding q.
Proof.
  intros Hhead (Hg & Hp & Hfree) Hm. simpl.
  pose proof (path_bound _ _ _ _ _ _ _ Hp) as [Hb _].
  destruct (owner_slot head) as [o Ho]; [lia|].
  pose proof (unclaimed_head _ _ _ _ _ Hp Hfree Ho) as Htok.
  assert (Hperm : outstanding_from 0 (<[Z.to_nat head := mk_owner tok m mn mx]> (owners q)) ≡ₚ
                  mk_sent head tok mn mx :: outstanding q).
  { rewrite (outstanding_put 0 _ _ o) by (try done; apply Hg). unfold sent_of. simpl.
    by rewrite Z2Nat.id by lia. }
  split_and!; [|destruct Hsh; by split; simpl; rewrite ?length_insert|done].
  split; simpl; [apply Hq|apply Hq| | |].
  - apply u16_bounds.
  - unfold outstanding at 1. simpl. rewrite Hperm, (q_inflight _ Hq). simpl. lia.
  - apply (owners_put _ _ _ _ o (mk_owner tok m mn mx)); simpl; try done; [apply Hq|apply Hg|..].
    + apply Hm. destruct Hp as (Hc & _). apply chain_head in Hc as [p' ->]. rewrite Z2Nat.id by lia.
      apply list_elem_of_here.
    + by apply (claimed_path m p).
    + intros i Hi%Hm. by apply Hp in Hi as [_ ?].
Qed.

(** A completion answers a chain: same head and token, a length the driver
    allowed. *)
Definition answers (c : virtio_completion) (ch : sent) : Prop :=
  c.(c_head) = ch.(sent_head) ∧ c.(c_token) = ch.(sent_token) ∧
  ch.(sent_min) ≤ c.(c_length) ≤ ch.(sent_max).

(** Changing the cursor or the fault record touches no ownership. *)
Lemma queue_ok_same q' :
  q'.(size) = q.(size) → q'.(next_available) = q.(next_available) →
  q'.(inflight) = q.(inflight) → q'.(claimed) = q.(claimed) → q'.(owners) = q.(owners) →
  0 ≤ q'.(last_used) < 65536 → queue_ok q' ∧ outstanding q' = outstanding q.
Proof.
  intros Hs Hn Hi Hc Ho Hl. assert (He : outstanding q' = outstanding q) by (unfold outstanding; by rewrite Ho).
  split; [|done]. destruct Hq. split; rewrite ?He, ?Hs, ?Hn, ?Hi, ?Hc, ?Ho; done.
Qed.

Lemma take_run :
  ∃ s q' c, virtio_split_take q sh = Done (s, q', c) ∧ queue_ok q' ∧ q'.(size) = q.(size) ∧
    match c with
    | None => s ≠ VIRTIO_OK ∧ outstanding q' = outstanding q
    | Some c => s = VIRTIO_OK ∧ ∃ ch, outstanding q ≡ₚ ch :: outstanding q' ∧ answers c ch
    end.
Proof.
  unfold virtio_split_take. pose proof (q_size _ Hq) as Hsz.
  assert (Hsame : ∀ s q', s ≠ VIRTIO_OK → queue_ok q' ∧ outstanding q' = outstanding q → size q' = size q →
    ∃ s0 q0 c, Done (s, q', None) = Done (s0, q0, c) ∧ queue_ok q0 ∧ size q0 = size q ∧
      match c with None => s0 ≠ VIRTIO_OK ∧ outstanding q0 = outstanding q
      | Some c => s0 = VIRTIO_OK ∧ ∃ ch, outstanding q ≡ₚ ch :: outstanding q0 ∧ answers c ch end).
  { intros s q' Hs [Hok Ho] Hsize. by exists s, q', None. }
  rewrite decide_False by lia.
  destruct (decide (reason _ ≠ _)); [by apply Hsame|].
  destruct (decide (size q < _)) as [|Hcount].
  { apply Hsame; [done|apply queue_ok_same; try done; apply Hq|done]. }
  destruct (decide (u16 _ = 0)); [by apply Hsame|].
  pose proof (Z.mod_pos_bound (last_used q) (size q)). pose proof (sh_used _ _ Hsh).
  destruct (lookup_lt_is_Some_2 (s_used_ring sh) (Z.to_nat (last_used q mod size q))) as [item Hitem]; [lia|].
  rewrite (aread_ok _ _ _ Hitem). run. cbn [size owners].
  pose proof (Forall_lookup_1 _ _ _ _ (sh_id _ _ Hsh) Hitem) as Hid. cbn beta in Hid.
  destruct (decide (size q ≤ u_id item)) as [|Hr].
  { apply Hsame; [done|apply queue_ok_same; try done; apply u16_bounds|done]. }
  destruct (owner_slot (u_id item)) as [o Ho]; [lia|]. rewrite (aread_ok _ _ _ Ho). run.
  destruct (decide (token o = 0)) as [|Ht].
  { apply Hsame; [done|apply queue_ok_same; try done; apply u16_bounds|done]. }
  destruct (decide (u_length item < _ ∨ _)) as [|Hlen].
  { apply Hsame; [done|apply queue_ok_same; try done; apply u16_bounds|done]. }
  rewrite awrite_ok by (eapply lookup_lt_Some, Ho). run.
  set (os := <[_:=_]> (owners q)).
  assert (Hperm : outstanding q ≡ₚ sent_of (u_id item) o :: outstanding_from 0 os).
  { unfold outstanding, os. rewrite (outstanding_take 0 _ _ o (mk_owner 0 0 (min_length o) (max_length o)) Ho) by done.
    by rewrite Z.add_0_l, Z2Nat.id by lia. }
  eexists _, _, _. split; [done|]. split; [|split; [done|]].
  - split; cbn; [apply Hq|apply u16_bounds|apply Hq| |by apply (owners_take _ _ _ _ o); [apply Hq|..]].
    pose proof outstanding_bound as Hbound. rewrite (q_inflight _ Hq), Hperm in *. unfold outstanding. cbn in *.
    rewrite u16_small; lia.
  - split; [done|]. exists (sent_of (u_id item) o). split; [done|]. unfold answers. simpl. lia.
Qed.
End calls.

(** ** Histories

    A history is a list of calls; each carries the shared memory it finds,
    which is whatever the device left there. *)
Inductive call :=
  | Enqueue (t : virtio_transport) (head tok mn mx : Z) (sh : shared)
  | Publish (t : virtio_transport) (queue head tok mn mx : Z) (sh : shared)
  | Take (sh : shared)
  | Reset (t : virtio_transport) (sh : shared).
Definition call_ok (sz : Z) (c : call) : Prop :=
  match c with
  | Enqueue _ head _ _ _ sh | Publish _ _ head _ _ _ sh => 0 ≤ head ∧ shared_ok sz sh
  | Take sh | Reset _ sh => shared_ok sz sh
  end.
(** What the driver sees: chains accepted, completions, chains given up. *)
Record log := mk_log { accepted : list sent; completed : list virtio_completion; abandoned : list sent }.
Definition run_call (q : virtio_split_queue) (c : call) : outcome (virtio_split_queue * log) :=
  let if_ok (s : virtio_status) (ch : sent) := if decide (s = VIRTIO_OK) then [ch] else [] in
  match c with
  | Enqueue t head tok mn mx sh =>
      '(s, q', _) ← virtio_split_enqueue q t head tok mn mx sh;
      Done (q', mk_log (if_ok s (mk_sent head tok mn mx)) [] [])
  | Publish t queue head tok mn mx sh =>
      '(s, _, q', _) ← virtio_split_publish q t queue head tok mn mx sh;
      Done (q', mk_log (if_ok s (mk_sent head tok mn mx)) [] [])
  | Take sh =>
      '(_, q', c) ← virtio_split_take q sh;
      Done (q', mk_log [] (option_list c) [])
  | Reset t sh =>
      let '(s, q', _) := virtio_split_reset q t sh in
      Done (q', mk_log [] [] (if decide (s = VIRTIO_OK) then outstanding q else []))
  end.
Definition log_app (a b : log) : log :=
  mk_log (a.(accepted) ++ b.(accepted)) (a.(completed) ++ b.(completed)) (a.(abandoned) ++ b.(abandoned)).
Fixpoint run_calls (q : virtio_split_queue) (cs : list call) : outcome (virtio_split_queue * log) :=
  match cs with
  | [] => Done (q, mk_log [] [] [])
  | c :: cs => '(q, l) ← run_call q c; '(q, l') ← run_calls q cs; Done (q, log_app l l')
  end.
(** Every chain is accounted for exactly once. *)
Definition conserved (q q' : virtio_split_queue) (l : log) : Prop :=
  ∃ answered, Forall2 answers l.(completed) answered ∧
    outstanding q ++ l.(accepted) ≡ₚ answered ++ l.(abandoned) ++ outstanding q'.

Lemma conserved_trans q q1 q' l l' :
  conserved q q1 l → conserved q1 q' l' → conserved q q' (log_app l l').
Proof.
  intros (a & Ha & Hp) (a' & Ha' & Hp'). exists (a ++ a'). split; [by apply Forall2_app|].
  simpl. rewrite (assoc_L (++)), Hp, <-!(assoc_L (++)). apply Permutation_app_head.
  rewrite Hp'. rewrite !(assoc_L (++)). do 2 apply Permutation_app_tail. apply Permutation_app_comm.
Qed.
Lemma conserved_same q q' : outstanding q' = outstanding q → conserved q q' (mk_log [] [] []).
Proof. intros He. exists []. split; [constructor|]. simpl. by rewrite He, app_nil_r. Qed.
Lemma conserved_accept q q' ch :
  outstanding q' ≡ₚ ch :: outstanding q → conserved q q' (mk_log [ch] [] []).
Proof. intros He. exists []. split; [constructor|]. simpl. rewrite He. apply Permutation_app_comm. Qed.

Lemma reset_run q t sh : queue_ok q →
  ∃ s q' sh', virtio_split_reset q t sh = (s, q', sh') ∧ queue_ok q' ∧ q'.(size) = q.(size) ∧
    outstanding q' = (if decide (s = VIRTIO_OK) then [] else outstanding q).
Proof.
  intros Hq. unfold virtio_split_reset. pose proof (q_size _ Hq). rewrite decide_False by lia.
  destruct (decide _); eexists _, _, _; (split; [done|]); [done|].
  split; [|split; [done|]].
  - split; [apply Hq|done|done|by rewrite outstanding_fresh|apply owners_none].
  - by rewrite outstanding_fresh.
Qed.

(** A publish is accepted exactly when its enqueue is: nothing that refuses the
    notification can hold after the chain was accepted. *)
Lemma publish_run q t queue head tok mn mx sh q' sh' s :
  virtio_split_enqueue q t head tok mn mx sh = Done (s, q', sh') →
  (s = VIRTIO_OK → ∃ p m, enqueue_accepts q sh t head tok mn mx p ∧ q' = (enqueued q sh t head tok mn mx m).1) →
  1 ≤ q.(size) →
  ∃ n, virtio_split_publish q t queue head tok mn mx sh = Done (s, n, q', sh').
Proof.
  intros Hrun Hacc Hsz. unfold virtio_split_publish. rewrite Hrun. run.
  destruct (decide (s = VIRTIO_OK)) as [->|]; [|eauto].
  destruct (Hacc eq_refl) as (p & m & (Hg & _) & ->). unfold virtio_split_notify. cbn.
  destruct Hg as (-> & ? & ? & ? & -> & -> & -> & ?).
  rewrite decide_False by (intros [?|?]; [lia|done]).
  rewrite decide_False by (intros [?|[?|[?|?]]]; done). eauto.
Qed.

Lemma run_call_spec q c :
  queue_ok q → call_ok q.(size) c →
  ∃ q' l, run_call q c = Done (q', l) ∧ queue_ok q' ∧ q'.(size) = q.(size) ∧ conserved q q' l.
Proof.
  intros Hq Hc. destruct c as [t head tok mn mx sh|t queue head tok mn mx sh|sh|t sh]; simpl in Hc |- *.
  - destruct Hc as [Hh Hsh].
    destruct (enqueue_run q sh Hq Hsh t head tok mn mx Hh) as (s & [(p & m & -> & Hacc & Hm & ->)|(Hs & _ & ->)]); run.
    + destruct (enqueued_ok q sh Hq Hsh _ _ _ _ _ _ _ Hh Hacc Hm) as (? & _ & ?).
      rewrite decide_True by done. eexists _, _. split; [done|]. split_and!; [done..|]. by apply conserved_accept.
    + rewrite decide_False by done. eexists _, _. split; [done|]. split_and!; [done..|]. by apply conserved_same.
  - destruct Hc as [Hh Hsh]. pose proof (q_size _ Hq) as [Hsz _].
    destruct (enqueue_run q sh Hq Hsh t head tok mn mx Hh) as (s & [(p & m & -> & Hacc & Hm & Hrun)|(Hs & _ & Hrun)]).
    + destruct (publish_run q t queue _ _ _ _ _ _ _ _ Hrun) as [n ->]; [eauto|done|]. run.
      destruct (enqueued_ok q sh Hq Hsh _ _ _ _ _ _ _ Hh Hacc Hm) as (? & _ & ?).
      rewrite decide_True by done. eexists _, _. split; [done|]. split_and!; [done..|]. by apply conserved_accept.
    + destruct (publish_run q t queue _ _ _ _ _ _ _ _ Hrun) as [n ->]; [done|done|]. run.
      rewrite decide_False by done. eexists _, _. split; [done|]. split_and!; [done..|]. by apply conserved_same.
  - destruct (take_run q sh Hq Hc) as (s & q' & c & -> & Hok & Hsz & Hres). run.
    eexists _, _. split; [done|]. split_and!; [done..|]. destruct c as [c|].
    + destruct Hres as (_ & ch & Hp & Hans). exists [ch]. split; [constructor; [done|constructor]|].
      simpl. by rewrite app_nil_r.
    + apply conserved_same, Hres.
  - destruct (reset_run q t sh Hq) as (s & q' & sh' & -> & Hok & Hsz & Ho).
    eexists _, _. split; [done|]. split_and!; [done..|]. exists []. split; [constructor|]. simpl.
    rewrite app_nil_r, Ho. by destruct (decide (s = VIRTIO_OK)); rewrite ?app_nil_r.
Qed.

(** C7: whatever the device writes into the rings and the descriptor table, in
    every history of enqueue, publish, take and reset calls no call reads or
    writes outside its arrays or loops for ever, the ownership invariant is kept
    (every descriptor belongs to at most one chain, [claimed] and [inflight] say
    exactly what is outstanding), and the chains the driver queued are conserved:
    each is answered by at most one completion, with its own head and token and a
    length within the bounds given, or was given up by a reset, or is still
    outstanding.  No completion is invented or repeated. *)
Theorem split_queue_conserves q cs :
  queue_ok q → Forall (call_ok q.(size)) cs →
  ∃ q' l, run_calls q cs = Done (q', l) ∧ queue_ok q' ∧ conserved q q' l.
Proof.
  intros Hq Hcs. remember (size q) as sz eqn:Hsz. revert q Hq Hsz.
  induction Hcs as [|c cs Hc _ IH]; intros q Hq ->; simpl.
  { eexists _, _. split_and!; [done..|]. by apply conserved_same. }
  destruct (run_call_spec q c Hq Hc) as (q1 & l1 & -> & Hq1 & Hsz1 & Hcons). run.
  destruct (IH q1 Hq1) as (q2 & l2 & -> & Hq2 & Hcons2); [done|]. run.
  eexists _, _. split_and!; [done..|]. by eapply conserved_trans.
Qed.

(** C39: an enqueue succeeds exactly when its guards hold and the descriptors,
    followed from the head, form a chain that stays in the table, repeats no
    descriptor and shares none with a chain that is outstanding; it then claims
    exactly that chain and publishes the head in the next available slot before
    the index.  Otherwise it changes nothing. *)
Theorem enqueue_exact q sh t head tok mn mx :
  queue_ok q → shared_ok q.(size) sh → 0 ≤ head →
  ∃ s q' sh', virtio_split_enqueue q t head tok mn mx sh = Done (s, q', sh') ∧
    (s = VIRTIO_OK ↔ ∃ p, enqueue_accepts q sh t head tok mn mx p) ∧
    (s ≠ VIRTIO_OK → q' = q ∧ sh' = sh) ∧
    (∀ p, enqueue_accepts q sh t head tok mn mx p →
       (∀ i, Z.testbit q'.(claimed) i = true ↔ Z.testbit q.(claimed) i = true ∨ i ∈ p) ∧
       outstanding q' ≡ₚ mk_sent head tok mn mx :: outstanding q ∧
       sh'.(s_available_ring) !! Z.to_nat (q.(next_available) mod q.(size)) = Some head ∧
       sh'.(s_available_index) = u16 (q.(next_available) + 1)).
Proof.
  intros Hq Hsh Hh.
  destruct (enqueue_run q sh Hq Hsh t head tok mn mx Hh) as (s & [(p & m & -> & Hacc & Hm & Hrun)|(Hs & Hno & Hrun)]).
  - destruct (enqueued_ok q sh Hq Hsh _ _ _ _ _ _ _ Hh Hacc Hm) as (_ & _ & Hout).
    eexists _, _, _. split; [done|]. split; [by split; eauto|]. split; [done|]. intros p' Hacc'.
    assert (p' = p) as -> by (eapply chain_functional; [apply Hacc'|apply Hacc]).
    split_and!; [|done| |done].
    + intros i. cbn. by rewrite Z.lor_spec, orb_true_iff, (Hm i).
    + cbn. apply list_lookup_insert_eq. pose proof (sh_available _ _ Hsh). pose proof (q_size _ Hq).
      pose proof (Z.mod_pos_bound (next_available q) (size q)). lia.
  - eexists _, _, _. split; [done|]. split; [split; [done|intros [p Hp]; by apply Hno in Hp]|].
    split; [done|]. intros p Hp. by apply Hno in Hp.
Qed.

(** *** A concrete queue of four descriptors *)
Definition demo_queue : virtio_split_queue :=
  mk_queue 0 4096 4160 4176 4 0 0 0 0 no_owners no_fault.
Definition demo_transport : virtio_transport := mk_transport 77 true 0 false true.
Definition demo_shared (used_idx : Z) (id len avail_idx : Z) : shared :=
  mk_shared [mk_descriptor 65536 16 1 2; mk_descriptor 0 0 0 0; mk_descriptor 69632 512 2 0; mk_descriptor 0 0 0 0]
    avail_idx [0; 0; 0; 0] used_idx [mk_used id len; mk_used id len; mk_used 0 0; mk_used 0 0].
Lemma demo_queue_ok : queue_ok demo_queue.
Proof.
  split; [done..|by rewrite outstanding_fresh|apply owners_none].
Qed.
Lemma demo_shared_ok u i l a : 0 ≤ i → shared_ok 4 (demo_shared u i l a).
Proof. intros Hi. split; cbn; [done..| |]; repeat constructor; done. Qed.

(** The device answers the chain 0-2 and then repeats the completion: the driver
    gets the token once. *)
Lemma split_queue_conserves_witness :
  let cs := [Enqueue demo_transport 0 9 0 600 (demo_shared 0 0 0 0); Take (demo_shared 1 0 512 1);
             Take (demo_shared 2 0 512 1)] in
  (∃ q' l, run_calls demo_queue cs = Done (q', l) ∧ queue_ok q' ∧ conserved demo_queue q' l) ∧
  ∃ q', run_calls demo_queue cs =
    Done (q', mk_log [mk_sent 0 9 0 600] [mk_completion 9 0 512] []).
Proof.
  split.
  - apply (split_queue_conserves demo_queue); [apply demo_queue_ok|].
    rewrite !Forall_cons. split; [split; [done|by apply demo_shared_ok]|].
    split; [by apply demo_shared_ok|]. split; [by apply demo_shared_ok|constructor].
  - eexists. vm_compute. reflexivity.
Defined.

Lemma enqueue_exact_witness :
  (∃ s q' sh', virtio_split_enqueue demo_queue demo_transport 0 9 0 600 (demo_shared 0 0 0 0) = Done (s, q', sh') ∧
    s = VIRTIO_OK ∧ q'.(claimed) = 5) ∧
  ∃ s q' sh', virtio_split_enqueue demo_queue demo_transport 0 9 0 600 (demo_shared 0 0 0 0) = Done (s, q', sh') ∧
    (s = VIRTIO_OK ↔ ∃ p, enqueue_accepts demo_queue (demo_shared 0 0 0 0) demo_transport 0 9 0 600 p).
Proof.
  split; [by eexists _, _, _; vm_compute|].
  destruct (enqueue_exact demo_queue (demo_shared 0 0 0 0) demo_transport 0 9 0 600)
    as (s & q' & sh' & Hrun & Hiff & _); [apply demo_queue_ok|by apply demo_shared_ok|done|].
  by exists s, q', sh'.
Defined.
