(* ===== verification/StringOps.v ===== *)
(** * Memory and string routines ([lib/string.c])

    Memory is a finite map from addresses to bytes: an access outside it is a
    fault, so a routine that ends in [Done] touched nothing it was not given.
    Word accesses move eight bytes, little endian (the 64-bit targets), and
    fault unless they are aligned. *)
From S2P Require Import Prelude Bytes.
#[local] Open Scope Z_scope.

Module StringOps.

Notation mem := (gmap Z Z).

Definition load (m : mem) (a : Z) : outcome Z :=
  match m !! a with Some b => Done b | None => Fault Out_of_bounds end.
Definition store (m : mem) (a b : Z) : outcome mem :=
  match m !! a with Some _ => Done (<[a := b]> m) | None => Fault Out_of_bounds end.

(** [sizeof(memory_word)] *)
Definition width : Z := 8.
Definition aligned (a : Z) : Prop := Z.land a (width - 1) = 0.
#[export] Instance aligned_dec a : Decision (aligned a) := decide (Z.land a (width - 1) = 0).

Fixpoint load_bytes (m : mem) (a : Z) (n : nat) : outcome (list Z) :=
  match n with
  | O => Done []
  | S n => b ← load m a; l ← load_bytes m (a + 1) n; Done (b :: l)
  end.
Fixpoint store_bytes (m : mem) (a : Z) (l : list Z) : outcome mem :=
  match l with
  | [] => Done m
  | b :: l => m ← store m a b; store_bytes m (a + 1) l
  end.
Definition load_word (m : mem) (a : Z) : outcome Z :=
  if decide (aligned a) then l ← load_bytes m a 8; Done (le_value l) else Fault Misaligned.
Definition store_word (m : mem) (a w : Z) : outcome mem :=
  if decide (aligned a) then store_bytes m a (le_bytes 8 w) else Fault Misaligned.

(** ** Copying towards higher addresses *)
Fixpoint forward_bytes (fuel : nat) (until : Z → Prop) `{∀ a, Decision (until a)}
    (m : mem) (output input size : Z) : outcome (mem * Z * Z * Z) :=
  match fuel with
  | O => Fault Out_of_fuel
  | S fuel =>
      if decide (size ≠ 0 ∧ ¬ until output) then
        b ← load m input; m ← store m output b;
        forward_bytes fuel until m (output + 1) (input + 1) (size - 1)
      else Done (m, output, input, size)
  end.
Fixpoint forward_batches (fuel : nat) (m : mem) (words_out words_in size : Z) : outcome (mem * Z * Z * Z) :=
  match fuel with
  | O => Fault Out_of_fuel
  | S fuel =>
      if decide (4 * width ≤ size) then
        a ← load_word m words_in; b ← load_word m (words_in + width);
        c ← load_word m (words_in + 2 * width); d ← load_word m (words_in + 3 * width);
        m ← store_word m words_out a; m ← store_word m (words_out + width) b;
        m ← store_word m (words_out + 2 * width) c; m ← store_word m (words_out + 3 * width) d;
        forward_batches fuel m (words_out + 4 * width) (words_in + 4 * width) (size - 4 * width)
      else Done (m, words_out, words_in, size)
  end.
Fixpoint forward_words (fuel : nat) (m : mem) (words_out words_in size : Z) : outcome (mem * Z * Z * Z) :=
  match fuel with
  | O => Fault Out_of_fuel
  | S fuel =>
      if decide (width ≤ size) then
        w ← load_word m words_in; m ← store_word m words_out w;
        forward_words fuel m (words_out + width) (words_in + width) (size - width)
      else Done (m, words_out, words_in, size)
  end.
(** [for (i...) word |= (memory_word)input[i] << (8U*(from+i))] *)
Fixpoint gather (m : mem) (input from i : Z) (n : nat) (word : Z) : outcome Z :=
  match n with
  | O => Done word
  | S n =>
      b ← load m (input + i);
      gather m input from (i + 1) n (Z.lor word (u64 (Z.shiftl b (8 * (from + i)))))
  end.
Fixpoint forward_shifted (fuel : nat) (shift prefix : Z) (m : mem)
    (words_out words_in input size low : Z) : outcome (mem * Z * Z * Z) :=
  match fuel with
  | O => Fault Out_of_fuel
  | S fuel =>
      if decide (width + prefix ≤ size) then
        high ← load_word m words_in;
        m ← store_word m words_out (Z.lor low (u64 (Z.shiftl high (8 * prefix))));
        forward_shifted fuel shift prefix m (words_out + width) (words_in + width)
          (input + width) (size - width) (Z.shiftr high (8 * shift))
      else Done (m, words_out, input, size)
  end.
Definition forward_middle (fuel : nat) (m : mem) (output input size : Z) : outcome (mem * Z * Z * Z) :=
  if decide (aligned input) then
    '(m, output, input, size) ← forward_batches fuel m output input size;
    forward_words fuel m output input size
  else if decide (2 * width ≤ size) then
    let shift := Z.land input (width - 1) in
    let prefix := width - shift in
    low ← gather m input 0 0 (Z.to_nat prefix) 0;
    forward_shifted fuel shift prefix m output (input + prefix) input size low
  else Done (m, output, input, size).
Definition copy_forward (m : mem) (destination source size : Z) : outcome (Z * mem) :=
  let fuel := S (Z.to_nat size) in
  if decide (size = 0) then Done (destination, m)
  else
    '(m, output, input, size) ← forward_bytes fuel aligned m destination source size;
    if decide (size = 0) then Done (destination, m)
    else
      '(m, output, input, size) ← forward_middle fuel m output input size;
      '(m, _, _, _) ← forward_bytes fuel (λ _, False) m output input size;
      Done (destination, m).

Definition memcpy (m : mem) (destination source size : Z) : outcome (Z * mem) :=
  copy_forward m destination source size.

(** ** Copying towards lower addresses *)
Fixpoint backward_bytes (fuel : nat) (until : Z → Prop) `{∀ a, Decision (until a)}
    (m : mem) (output input size : Z) : outcome (mem * Z * Z * Z) :=
  match fuel with
  | O => Fault Out_of_fuel
  | S fuel =>
      if decide (size ≠ 0 ∧ ¬ until output) then
        b ← load m (input - 1); m ← store m (output - 1) b;
        backward_bytes fuel until m (output - 1) (input - 1) (size - 1)
      else Done (m, output, input, size)
  end.
Fixpoint backward_batches (fuel : nat) (m : mem) (words_out words_in size : Z) : outcome (mem * Z * Z * Z) :=
  match fuel with
  | O => Fault Out_of_fuel
  | S fuel =>
      if decide (4 * width ≤ size) then
        a ← load_word m (words_in - width); b ← load_word m (words_in - 2 * width);
        c ← load_word m (words_in - 3 * width); d ← load_word m (words_in - 4 * width);
        m ← store_word m (words_out - width) a; m ← store_word m (words_out - 2 * width) b;
        m ← store_word m (words_out - 3 * width) c; m ← store_word m (words_out - 4 * width) d;
        backward_batches fuel m (words_out - 4 * width) (words_in - 4 * width) (size - 4 * width)
      else Done (m, words_out, words_in, size)
  end.
Fixpoint backward_words (fuel : nat) (m : mem) (words_out words_in size : Z) : outcome (mem * Z * Z * Z) :=
  match fuel with
  | O => Fault Out_of_fuel
  | S fuel =>
      if decide (width ≤ size) then
        w ← load_word m (words_in - width); m ← store_word m (words_out - width) w;
        backward_words fuel m (words_out - width) (words_in - width) (size - width)
      else Done (m, words_out, words_in, size)
  end.
Fixpoint backward_shifted (fuel : nat) (suffix : Z) (m : mem)
    (words_out words_in input size high : Z) : outcome (mem * Z * Z * Z) :=
  match fuel with
  | O => Fault Out_of_fuel
  | S fuel =>
      if decide (width + suffix ≤ size) then
        low ← load_word m (words_in - width);
        m ← store_word m (words_out - width) (Z.lor high (Z.shiftr low (8 * suffix)));
        backward_shifted fuel suffix m (words_out - width) (words_in - width)
          (input - width) (size - width) (u64 (Z.shiftl low (8 * (width - suffix))))
      else Done (m, words_out, input, size)
  end.
Definition backward_middle (fuel : nat) (m : mem) (output input size : Z) : outcome (mem * Z * Z * Z) :=
  if decide (aligned input) then
    '(m, output, input, size) ← backward_batches fuel m output input size;
    backward_words fuel m output input size
  else if decide (2 * width ≤ size) then
    let suffix := Z.land input (width - 1) in
    high ← gather m (input - suffix) (width - suffix) 0 (Z.to_nat suffix) 0;
    backward_shifted fuel suffix m output (input - suffix) input size high
  else Done (m, output, input, size).

Definition memmove (m : mem) (destination source size : Z) : outcome (Z * mem) :=
  let fuel := S (Z.to_nat size) in
  if decide (size = 0 ∨ destination = source) then Done (destination, m)
  else if decide (destination < source ∨ size ≤ destination - source)
  then copy_forward m destination source size
  else
    '(m, output, input, size) ← backward_bytes fuel aligned m (destination + size) (source + size) size;
    if decide (size = 0) then Done (destination, m)
    else
      '(m, output, input, size) ← backward_middle fuel m output input size;
      '(m, _, _, _) ← backward_bytes fuel (λ _, False) m output input size;
      Done (destination, m).

(** ** Filling *)
Fixpoint fill_bytes (fuel : nat) (until : Z → Prop) `{∀ a, Decision (until a)}
    (m : mem) (bytes byte size : Z) : outcome (mem * Z * Z) :=
  match fuel with
  | O => Fault Out_of_fuel
  | S fuel =>
      if decide (size ≠ 0 ∧ ¬ until bytes) then
        m ← store m bytes byte; fill_bytes fuel until m (bytes + 1) byte (size - 1)
      else Done (m, bytes, size)
  end.
Fixpoint fill_batches (fuel : nat) (m : mem) (words pattern size : Z) : outcome (mem * Z * Z) :=
  match fuel with
  | O => Fault Out_of_fuel
  | S fuel =>
      if decide (4 * width ≤ size) then
        m ← store_word m words pattern; m ← store_word m (words + width) pattern;
        m ← store_word m (words + 2 * width) pattern; m ← store_word m (words + 3 * width) pattern;
        fill_batches fuel m (words + 4 * width) pattern (size - 4 * width)
      else Done (m, words, size)
  end.
Fixpoint fill_words (fuel : nat) (m : mem) (words pattern size : Z) : outcome (mem * Z * Z) :=
  match fuel with
  | O => Fault Out_of_fuel
  | S fuel =>
      if decide (width ≤ size) then
        m ← store_word m words pattern; fill_words fuel m (words + width) pattern (size - width)
      else Done (m, words, size)
  end.
Definition memset (m : mem) (destination value size : Z) : outcome (Z * mem) :=
  let fuel := S (Z.to_nat size) in
  let byte := value mod 256 in
  '(m, bytes, size) ← fill_bytes fuel aligned m destination byte size;
  if decide (size = 0) then Done (destination, m)
  else
    let pattern := u64 (UINT64_MAX / UINT8_MAX * byte) in
    '(m, words, size) ← fill_batches fuel m bytes pattern size;
    '(m, words, size) ← fill_words fuel m words pattern size;
    '(m, _, _) ← fill_bytes fuel (λ _, False) m words byte size;
    Done (destination, m).

(** ** Comparing *)
Fixpoint compare_bytes (fuel : nat) (until : Z → Prop) `{∀ a, Decision (until a)}
    (m : mem) (left_bytes right_bytes size : Z) : outcome (Z + (Z * Z * Z)) :=
  match fuel with
  | O => Fault Out_of_fuel
  | S fuel =>
      if decide (size ≠ 0 ∧ ¬ until left_bytes) then
        a ← load m left_bytes; b ← load m right_bytes;
        if decide (a ≠ b) then Done (inl (a - b))
        else compare_bytes fuel until m (left_bytes + 1) (right_bytes + 1) (size - 1)
      else Done (inr (left_bytes, right_bytes, size))
  end.
Fixpoint compare_words (fuel : nat) (m : mem) (left_bytes right_bytes size : Z) : outcome (Z * Z * Z) :=
  match fuel with
  | O => Fault Out_of_fuel
  | S fuel =>
      if decide (width ≤ size) then
        a ← load_word m left_bytes; b ← load_word m right_bytes;
        if decide (a ≠ b) then Done (left_bytes, right_bytes, size)
        else compare_words fuel m (left_bytes + width) (right_bytes + width) (size - width)
      else Done (left_bytes, right_bytes, size)
  end.
Definition memcmp (m : mem) (left_bytes right_bytes size : Z) : outcome Z :=
  let fuel := S (Z.to_nat size) in
  first ← compare_bytes fuel aligned m left_bytes right_bytes size;
  match first with
  | inl r => Done r
  | inr (left_bytes, right_bytes, size) =>
      '(left_bytes, right_bytes, size) ←
        (if decide (aligned right_bytes) then compare_words fuel m left_bytes right_bytes size
         else Done (left_bytes, right_bytes, size));
      last ← compare_bytes fuel (λ _, False) m left_bytes right_bytes size;
      match last with inl r => Done r | inr _ => Done 0 end
  end.

(** ** Strings

    The loops of these routines end at a terminator; one that never comes runs
    off the memory, so the number of bytes of the memory bounds the fuel. *)
Definition string_fuel (m : mem) : nat := S (size m).

Fixpoint strcmp_loop (fuel : nat) (m : mem) (left right : Z) : outcome Z :=
  match fuel with
  | O => Fault Out_of_fuel
  | S fuel =>
      a ← load m left;
      if decide (a ≠ 0) then
        b ← load m right;
        if decide (a = b) then strcmp_loop fuel m (left + 1) (right + 1) else Done (a - b)
      else b ← load m right; Done (a - b)
  end.
Definition strcmp (m : mem) (left right : Z) : outcome Z := strcmp_loop (string_fuel m) m left right.

Fixpoint strcpy_loop (fuel : nat) (m : mem) (destination source : Z) : outcome mem :=
  match fuel with
  | O => Fault Out_of_fuel
  | S fuel =>
      b ← load m source; m ← store m destination b;
      c ← load m source;
      if decide (c ≠ 0) then strcpy_loop fuel m (destination + 1) (source + 1) else Done m
  end.
Definition strcpy (m : mem) (destination source : Z) : outcome (Z * mem) :=
  m ← strcpy_loop (string_fuel m) m destination source; Done (destination, m).

Fixpoint strlen_loop (fuel : nat) (m : mem) (text length : Z) : outcome Z :=
  match fuel with
  | O => Fault Out_of_fuel
  | S fuel =>
      b ← load m (text + length);
      if decide (b ≠ 0) then strlen_loop fuel m text (length + 1) else Done length
  end.
Definition strlen (m : mem) (text : Z) : outcome Z := strlen_loop (string_fuel m) m text 0.

Fixpoint strncmp_loop (fuel : nat) (m : mem) (left right index size : Z) : outcome Z :=
  match fuel with
  | O => Fault Out_of_fuel
  | S fuel =>
      if decide (index < size) then
        a ← load m (left + index); b ← load m (right + index);
        if decide (a ≠ b) then Done (a - b)
        else if decide (a = 0) then Done 0
        else strncmp_loop fuel m left right (index + 1) size
      else Done 0
  end.
Definition strncmp (m : mem) (left right size : Z) : outcome Z :=
  strncmp_loop (S (Z.to_nat size)) m left right 0 size.

Fixpoint strncpy_text (fuel : nat) (m : mem) (destination source index size : Z) : outcome (mem * Z) :=
  match fuel with
  | O => Fault Out_of_fuel
  | S fuel =>
      if decide (index < size) then
        b ← load m (source + index);
        if decide (b ≠ 0) then
          m ← store m (destination + index) b;
          strncpy_text fuel m destination source (index + 1) size
        else Done (m, index)
      else Done (m, index)
  end.
Fixpoint strncpy_pad (fuel : nat) (m : mem) (destination index size : Z) : outcome mem :=
  match fuel with
  | O => Fault Out_of_fuel
  | S fuel =>
      if decide (index < size) then
        m ← store m (destination + index) 0; strncpy_pad fuel m destination (index + 1) size
      else Done m
  end.
Definition strncpy (m : mem) (destination source size : Z) : outcome (Z * mem) :=
  let fuel := S (Z.to_nat size) in
  '(m, index) ← strncpy_text fuel m destination source 0 size;
  m ← strncpy_pad fuel m destination index size;
  Done (destination, m).

End StringOps.
