(* ===== verification/StringCopyTheory.v ===== *)
(** * Memory, words and copying *)
From S2P Require Import Prelude Bytes StringOps.
Import StringOps.
#[local] Open Scope Z_scope.

Definition mem_ok (m : mem) : Prop := map_Forall (λ _, byte_ok) m.
Definition mapped (m : mem) (a n : Z) : Prop := ∀ x, a ≤ x < a + n → is_Some (m !! x).

(** The [n] bytes at [a], and the memory with the bytes [l] at [a]. *)
Fixpoint peek (m : mem) (a : Z) (n : nat) : list Z :=
  match n with O => [] | S n => default 0 (m !! a) :: peek m (a + 1) n end.
Fixpoint put (m : mem) (a : Z) (l : list Z) : mem :=
  match l with [] => m | b :: l => put (<[a := b]> m) (a + 1) l end.

(** ** Alignment *)
Lemma land_7 a : Z.land a (width - 1) = a mod 8.
Proof. apply (Z.land_ones a 3). done. Qed.
Lemma aligned_alt a : aligned a ↔ ∃ q, a = 8 * q.
Proof.
  unfold aligned. rewrite land_7. split.
  - intros H. exists (a / 8). pose proof (Z.div_mod a 8). lia.
  - intros [q ->]. rewrite Z.mul_comm. apply Z.mod_mul. done.
Qed.
Lemma aligned_add a b q : aligned a → b = a + 8 * q → aligned b.
Proof. rewrite !aligned_alt. intros [p ->] ->. exists (p + q). lia. Qed.

(** ** Runs of bytes *)
Lemma length_peek m a n : length (peek m a n) = n.
Proof. revert a. induction n; intros; [done|]. simpl. by rewrite IHn. Qed.
Lemma lookup_peek m a n i : (i < n)%nat → peek m a n !! i = Some (default 0 (m !! (a + Z.of_nat i))).
Proof.
  revert a i. induction n as [|n IH]; intros a i Hi; [lia|]. destruct i as [|i]; simpl.
  - by rewrite Z.add_0_r.
  - rewrite IH by lia. by replace (a + Z.of_nat (S i)) with (a + 1 + Z.of_nat i) by lia.
Qed.
Lemma peek_ext m m' a n : (∀ x, a ≤ x < a + Z.of_nat n → m !! x = m' !! x) → peek m a n = peek m' a n.
Proof.
  revert a. induction n as [|n IH]; intros a H; [done|]. simpl. rewrite (H a) by lia. f_equal.
  apply IH. intros x Hx. apply H. lia.
Qed.
Lemma peek_app m a n1 n2 : peek m a (n1 + n2) = peek m a n1 ++ peek m (a + Z.of_nat n1) n2.
Proof.
  revert a. induction n1 as [|n1 IH]; intros a; simpl; [by rewrite Z.add_0_r|].
  rewrite IH. by replace (a + Z.of_nat (S n1)) with (a + 1 + Z.of_nat n1) by lia.
Qed.
Lemma peek_bytes m a n : mem_ok m → Forall byte_ok (peek m a n).
Proof.
  intros Hm. revert a. induction n as [|n IH]; intros a; constructor; [|done].
  destruct (m !! a) as [b|] eqn:Hb; simpl; [by apply (Hm a)|unfold byte_ok; lia].
Qed.
Lemma take_peek m a n k : (k ≤ n)%nat → take k (peek m a n) = peek m a k.
Proof.
  intros Hk. replace n with (k + (n - k))%nat by lia. rewrite peek_app, take_app_le by (rewrite length_peek; lia).
  by rewrite firstn_all2 by (rewrite length_peek; lia).
Qed.
Lemma drop_peek m a n k : (k ≤ n)%nat → drop k (peek m a n) = peek m (a + Z.of_nat k) (n - k).
Proof.
  intros Hk. replace n with (k + (n - k))%nat at 1 by lia.
  by rewrite peek_app, drop_app_length' by (by rewrite length_peek).
Qed.
Lemma lookup_put m a l x :
  put m a l !! x = if decide (a ≤ x < a + Z.of_nat (length l)) then l !! Z.to_nat (x - a) else m !! x.
Proof.
  revert m a. induction l as [|b l IH]; intros m a; cbn [put length].
  { by rewrite decide_False by lia. }
  rewrite IH. destruct (decide (x = a)) as [->|Hne].
  - destruct (decide (a + 1 ≤ a < _)); [lia|]. rewrite decide_True by lia. by rewrite lookup_insert_eq, Z.sub_diag.
  - destruct (decide (a + 1 ≤ x < _)).
    + rewrite decide_True by lia. by replace (Z.to_nat (x - a)) with (S (Z.to_nat (x - (a + 1)))) by lia.
    + rewrite decide_False by lia. by rewrite lookup_insert_ne.
Qed.

Lemma load_peek m a : is_Some (m !! a) → load m a = Done (default 0 (m !! a)).
Proof. intros [b Hb]. unfold load. by rewrite Hb. Qed.
Lemma load_bytes_peek m a n : mapped m a (Z.of_nat n) → load_bytes m a n = Done (peek m a n).
Proof.
  revert a. induction n as [|n IH]; intros a H; [done|]. cbn [load_bytes].
  rewrite load_peek by (apply H; lia). run. rewrite IH; [done|]. intros x Hx. apply H. lia.
Qed.
Lemma store_put m a b : is_Some (m !! a) → store m a b = Done (put m a [b]).
Proof. intros [c Hc]. unfold store. by rewrite Hc. Qed.
Lemma store_bytes_put m a l : mapped m a (Z.of_nat (length l)) → store_bytes m a l = Done (put m a l).
Proof.
  revert m a. induction l as [|b l IH]; intros m a H; [done|]. cbn [store_bytes length] in *.
  rewrite store_put by (apply H; lia). run. simpl. apply IH. intros x Hx.
  destruct (decide (x = a)) as [->|]; [rewrite lookup_insert_eq; eauto|].
  rewrite lookup_insert_ne by done. apply H. lia.
Qed.
Lemma load_word_peek m a : aligned a → mapped m a 8 → load_word m a = Done (le_value (peek m a 8)).
Proof. intros Ha Hm. unfold load_word. by rewrite decide_True, (load_bytes_peek m a 8). Qed.
Lemma store_word_put m a l :
  aligned a → mapped m a 8 → length l = 8%nat → Forall byte_ok l →
  store_word m a (le_value l) = Done (put m a l).
Proof.
  intros Ha Hm Hl Hb. unfold store_word. rewrite decide_True by done.
  rewrite <-Hl, le_bytes_value by done. apply store_bytes_put. by rewrite Hl.
Qed.

(** The bytes of an object outside the memory map cannot be counted: a mapped
    run is no longer than the memory. *)
Lemma mapped_size m a n : mapped m a n → (Z.to_nat n ≤ size m)%nat.
Proof.
  intros Hm. rewrite <-size_dom.
  assert (Hs : size (list_to_set (seqZ a n) : gset Z) = Z.to_nat n).
  { rewrite size_list_to_set by apply NoDup_seqZ. apply length_seqZ. }
  rewrite <-Hs. apply subseteq_size. intros x Hx%elem_of_list_to_set%elem_of_seqZ.
  apply elem_of_dom, Hm. lia.
Qed.

(** ** Assembling words from bytes *)
Lemma gather_step A b from i :
  byte_ok b → 0 ≤ from → (Z.of_nat i + from < 8) →
  Z.lor (Z.shiftl (le_value A) (8 * from)) (u64 (Z.shiftl b (8 * (from + Z.of_nat i)))) =
  Z.shiftl (Z.lor (le_value A) (Z.shiftl b (8 * Z.of_nat i))) (8 * from).
Proof.
  intros Hb Hf Hi. unfold byte_ok in Hb. rewrite u64_small.
  - rewrite Z.shiftl_lor, Z.shiftl_shiftl by lia. do 2 f_equal. lia.
  - rewrite Z.shiftl_mul_pow2 by lia.
    assert (2 ^ (8 * (from + Z.of_nat i)) ≤ 2 ^ 56) by (apply Z.pow_le_mono_r; lia).
    pose proof (Z.pow_pos_nonneg 2 (8 * (from + Z.of_nat i))). change (2 ^ 56) with 72057594037927936 in *. 
    unfold is_u64, UINT64_MAX. nia.
Qed.
Lemma gather_from m input from i n :
  mem_ok m → 0 ≤ from → from + Z.of_nat (i + n) ≤ 8 → mapped m input (Z.of_nat (i + n)) →
  gather m input from (Z.of_nat i) n (Z.shiftl (le_value (peek m input i)) (8 * from)) =
  Done (Z.shiftl (le_value (peek m input (i + n))) (8 * from)).
Proof.
  intros Hok Hf. revert i. induction n as [|n IH]; intros i Hi Hm; [by rewrite Nat.add_0_r|].
  cbn [gather]. rewrite load_peek by (apply Hm; lia). run.
  assert (Hb : byte_ok (default 0 (m !! (input + Z.of_nat i)))).
  { pose proof (peek_bytes m (input + Z.of_nat i) 1 Hok) as Hb. by apply Forall_cons in Hb as [? _]. }
  rewrite gather_step by (done || lia).
  pose proof (le_value_join (peek m input i) [default 0 (m !! (input + Z.of_nat i))] (peek_bytes _ _ _ Hok)) as Hj.
  rewrite length_peek in Hj. cbn [le_value] in Hj. rewrite Z.mul_0_r, Z.add_0_r in Hj. rewrite Hj.
  change [default 0 (m !! (input + Z.of_nat i))] with (peek m (input + Z.of_nat i) 1). rewrite <-peek_app.
  replace (Z.of_nat i + 1) with (Z.of_nat (i + 1)) by lia.
  replace (i + S n)%nat with (i + 1 + n)%nat in * by lia. apply IH; [lia|done].
Qed.
Lemma gather_spec m input from n :
  mem_ok m → 0 ≤ from → from + n ≤ 8 → 0 ≤ n → mapped m input n →
  gather m input from 0 (Z.to_nat n) 0 = Done (Z.shiftl (le_value (peek m input (Z.to_nat n))) (8 * from)).
Proof.
  intros Hok Hf Hn H0 Hm. pose proof (gather_from m input from 0 (Z.to_nat n) Hok Hf) as Hg.
  rewrite Nat.add_0_l, Z2Nat.id in Hg by done. rewrite Z.shiftl_0_l in Hg. by apply Hg.
Qed.

(** ** [memcpy] and [memmove]

    A copy in progress is described by the interval of the destination that is
    already final; every loop of the code extends it at one end. *)
Import StringOps.

Section copying.
Context (m0 : mem) (d s n : Z).
Context (Hok : mem_ok m0) (Hd : mapped m0 d n) (Hs : mapped m0 s n).

(** The bytes [lo, hi) of the destination have arrived. *)
Definition copying (lo hi : Z) (m : mem) : Prop :=
  ∀ x, m !! x = if decide (d + lo ≤ x < d + hi) then m0 !! (s + (x - d)) else m0 !! x.

Lemma copying_start lo m : m = m0 → copying lo lo m.
Proof. intros -> x. by rewrite decide_False by lia. Qed.
Lemma copying_mapped lo hi m a k :
  copying lo hi m → 0 ≤ lo → hi ≤ n → mapped m0 a k → mapped m a k.
Proof.
  intros Hc Hlo Hhi Hm x Hx. rewrite Hc. destruct (decide (d + lo ≤ x < d + hi)); [apply Hs|apply Hm]; lia.
Qed.
(** Source bytes the copy has not overwritten are read as they were. *)
Lemma copying_peek lo hi m j k :
  copying lo hi m → (s + j + Z.of_nat k ≤ d + lo ∨ d + hi ≤ s + j) →
  peek m (s + j) k = peek m0 (s + j) k.
Proof. intros Hc Hj. apply peek_ext. intros x Hx. rewrite Hc. by rewrite decide_False by lia. Qed.

Lemma copying_put lo hi lo' hi' j k m :
  copying lo hi m → 0 ≤ j → j + Z.of_nat k ≤ n →
  (∀ x, lo' ≤ x < hi' ↔ lo ≤ x < hi ∨ j ≤ x < j + Z.of_nat k) →
  copying lo' hi' (put m (d + j) (peek m0 (s + j) k)).
Proof.
  intros Hc Hj Hk Hint x. rewrite lookup_put, length_peek. specialize (Hint (x - d)).
  destruct (decide (d + j ≤ x < _)) as [Hx|Hx].
  - rewrite decide_True by lia. rewrite lookup_peek by lia.
    destruct (Hs (s + (x - d))) as [b Hb]; [lia|].
    replace (s + j + Z.of_nat (Z.to_nat (x - (d + j)))) with (s + (x - d)) by lia. by rewrite Hb.
  - rewrite Hc. destruct (decide (d + lo ≤ x < _)); [rewrite decide_True by lia|rewrite decide_False by lia]; done.
Qed.

(** One byte, or one aligned word, moved. *)
Lemma move_byte lo hi lo' hi' j m :
  copying lo hi m → 0 ≤ lo → hi ≤ n → 0 ≤ j < n →
  (s + j + 1 ≤ d + lo ∨ d + hi ≤ s + j) →
  (∀ x, lo' ≤ x < hi' ↔ lo ≤ x < hi ∨ j ≤ x < j + 1) →
  ∃ m', (b ← load m (s + j); store m (d + j) b) = Done m' ∧ copying lo' hi' m'.
Proof.
  intros Hc Hlo Hhi Hj Hsep Hint. exists (put m (d + j) (peek m0 (s + j) 1)). split.
  - rewrite load_peek by (apply (copying_mapped _ _ _ (s + j) 1 Hc); [done..| |lia]; intros x Hx; apply Hs; lia).
    run. rewrite store_put.
    + pose proof (copying_peek lo hi m j 1 Hc) as Hp. simpl in Hp. injection (Hp ltac:(lia)) as ->. done.
    + apply (copying_mapped _ _ _ (d + j) 1 Hc); [done..| |lia]; intros x Hx; apply Hd; lia.
  - apply (copying_put lo hi); try done; lia.
Qed.
Lemma read_word lo hi j m :
  copying lo hi m → 0 ≤ lo → hi ≤ n → 0 ≤ j → j + 8 ≤ n → aligned (s + j) →
  (s + j + 8 ≤ d + lo ∨ d + hi ≤ s + j) →
  load_word m (s + j) = Done (le_value (peek m0 (s + j) 8)).
Proof.
  intros Hc Hlo Hhi Hj Hj8 Ha Hsep. rewrite load_word_peek; [|done|].
  - by rewrite (copying_peek lo hi) by (done || lia).
  - apply (copying_mapped _ _ _ _ _ Hc); [done..|]. intros x Hx. apply Hs. lia.
Qed.
Lemma write_word lo hi lo' hi' j m :
  copying lo hi m → 0 ≤ lo → hi ≤ n → 0 ≤ j → j + 8 ≤ n → aligned (d + j) →
  (∀ x, lo' ≤ x < hi' ↔ lo ≤ x < hi ∨ j ≤ x < j + 8) →
  ∃ m', store_word m (d + j) (le_value (peek m0 (s + j) 8)) = Done m' ∧ copying lo' hi' m'.
Proof.
  intros Hc Hlo Hhi Hj Hj8 Ha Hint. exists (put m (d + j) (peek m0 (s + j) 8)). split.
  - apply store_word_put; [done| |apply length_peek|by apply peek_bytes].
    apply (copying_mapped _ _ _ _ _ Hc); [done..|]. intros x Hx. apply Hd. lia.
  - by apply (copying_put lo hi).
Qed.

(** ** Forward

    [k] bytes have arrived; the pointers follow.  What is still to be read was
    not overwritten. *)
Section forward.
Context (Hfwd : d ≤ s ∨ n ≤ d - s).

Lemma forward_byte k m :
  copying 0 k m → 0 ≤ k < n →
  ∃ m', (b ← load m (s + k); store m (d + k) b) = Done m' ∧ copying 0 (k + 1) m'.
Proof. intros Hc Hk. apply (move_byte 0 k); try done; lia. Qed.
Lemma forward_read k m j :
  copying 0 k m → 0 ≤ k ≤ j → j + 8 ≤ n → aligned (s + j) →
  load_word m (s + j) = Done (le_value (peek m0 (s + j) 8)).
Proof. intros Hc Hk Hn Ha. apply (read_word 0 k); try done; lia. Qed.
Lemma forward_write k m :
  copying 0 k m → 0 ≤ k → k + 8 ≤ n → aligned (d + k) →
  ∃ m', store_word m (d + k) (le_value (peek m0 (s + k) 8)) = Done m' ∧ copying 0 (k + 8) m'.
Proof. intros Hc Hk Hn Ha. apply (write_word 0 k); try done; lia. Qed.

(** What a loop establishes: it stops after [k'] bytes, where [P] holds. *)
Definition forward_to (k : Z) (P : Z → Prop) (r : outcome (mem * Z * Z * Z)) : Prop :=
  ∃ k' m', r = Done (m', d + k', s + k', n - k') ∧ k ≤ k' ≤ n ∧ copying 0 k' m' ∧ P k'.

Lemma forward_stop k m (P : Z → Prop) :
  copying 0 k m → k ≤ n → P k → forward_to k P (Done (m, d + k, s + k, n - k)).
Proof. intros. exists k, m. split_and!; done || lia. Qed.
Lemma forward_more k k1 P r : forward_to k1 P r → k ≤ k1 → forward_to k P r.
Proof. intros (k' & m' & ? & ? & ? & ?) ?. exists k', m'. split_and!; done || lia. Qed.

Lemma forward_bytes_spec fuel until `{∀ a, Decision (until a)} k m :
  copying 0 k m → 0 ≤ k ≤ n → n - k < Z.of_nat fuel →
  forward_to k (λ k', k' = n ∨ until (d + k')) (forward_bytes fuel until m (d + k) (s + k) (n - k)).
Proof.
  revert k m. induction fuel as [|fuel IH]; intros k m Hc Hk Hf; [lia|]. cbn [forward_bytes].
  destruct (decide (n - k ≠ 0 ∧ _)) as [Hgo|Hstop].
  - destruct (forward_byte k m Hc) as (m' & Hrun & Hc'); [lia|]. apply bind_Done in Hrun as (b & -> & Hst).
    run. rewrite Hst. run.
    replace (d + k + 1) with (d + (k + 1)) by lia. replace (s + k + 1) with (s + (k + 1)) by lia.
    replace (n - k - 1) with (n - (k + 1)) by lia.
    eapply forward_more; [apply (IH (k + 1) m' Hc'); lia|lia].
  - apply forward_stop; [done|lia|]. destruct (decide (k = n)); [by left|right].
    apply dec_stable. intros ?. apply Hstop. split; [lia|done].
Qed.
Lemma forward_words_spec fuel k m :
  copying 0 k m → 0 ≤ k ≤ n → n - k < Z.of_nat fuel → aligned (d + k) → aligned (s + k) →
  forward_to k (λ _, True) (forward_words fuel m (d + k) (s + k) (n - k)).
Proof.
  revert k m. induction fuel as [|fuel IH]; intros k m Hc Hk Hf Ha Hb; [lia|]. cbn [forward_words].
  unfold width in *. destruct (decide (8 ≤ n - k)) as [Hgo|Hstop]; [|by apply forward_stop; [|lia|]].
  rewrite (forward_read k) by (done || lia). run.
  destruct (forward_write k m Hc) as (m' & -> & Hc'); [lia..|done|]. run.
  replace (d + k + 8) with (d + (k + 8)) by lia. replace (s + k + 8) with (s + (k + 8)) by lia.
  replace (n - k - 8) with (n - (k + 8)) by lia.
  eapply forward_more; [apply (IH (k + 8) m' Hc'); try lia|lia].
  - by eapply (aligned_add _ _ 1); [exact Ha|lia].
  - by eapply (aligned_add _ _ 1); [exact Hb|lia].
Qed.
Lemma forward_batches_spec fuel k m :
  copying 0 k m → 0 ≤ k ≤ n → n - k < Z.of_nat fuel → aligned (d + k) → aligned (s + k) →
  forward_to k (λ k', aligned (d + k') ∧ aligned (s + k')) (forward_batches fuel m (d + k) (s + k) (n - k)).
Proof.
  revert k m. induction fuel as [|fuel IH]; intros k m Hc Hk Hf Ha Hb; [lia|]. cbn [forward_batches].
  unfold width in *. destruct (decide (4 * 8 ≤ n - k)) as [Hgo|Hstop]; [|by apply forward_stop; [|lia|]].
  assert (Hal : ∀ q, aligned (d + (k + 8 * q)) ∧ aligned (s + (k + 8 * q))).
  { intros q. split; [apply (aligned_add _ _ q Ha)|apply (aligned_add _ _ q Hb)]; lia. }
  replace (s + k + 8) with (s + (k + 8 * 1)) by lia. replace (s + k + 2 * 8) with (s + (k + 8 * 2)) by lia.
  replace (s + k + 3 * 8) with (s + (k + 8 * 3)) by lia.
  rewrite (forward_read k m k) by (done || lia). run.
  rewrite 3!(forward_read k m) by (done || lia || apply Hal). run.
  replace (d + k + 8) with (d + (k + 8)) by lia. replace (d + k + 2 * 8) with (d + (k + 8 + 8)) by lia.
  replace (d + k + 3 * 8) with (d + (k + 8 + 8 + 8)) by lia.
  replace (k + 8 * 1) with (k + 8) by lia. replace (k + 8 * 2) with (k + 8 + 8) by lia.
  replace (k + 8 * 3) with (k + 8 + 8 + 8) by lia.
  destruct (forward_write k m Hc) as (m1 & -> & H1); [lia..|done|]. run.
  destruct (forward_write (k + 8) m1 H1) as (m2 & -> & H2); [lia..|apply (Hal 1)|]. run.
  destruct (forward_write (k + 8 + 8) m2 H2) as (m3 & -> & H3); [lia..| |].
  { replace (k + 8 + 8) with (k + 8 * 2) by lia. apply Hal. }
  run. destruct (forward_write (k + 8 + 8 + 8) m3 H3) as (m4 & -> & H4); [lia..| |].
  { replace (k + 8 + 8 + 8) with (k + 8 * 3) by lia. apply Hal. }
  run. replace (d + k + 4 * 8) with (d + (k + 8 * 4)) by lia. replace (s + k + 4 * 8) with (s + (k + 8 * 4)) by lia.
  replace (n - k - 4 * 8) with (n - (k + 8 * 4)) by lia. replace (k + 8 + 8 + 8 + 8) with (k + 8 * 4) in H4 by lia.
  eapply forward_more; [apply (IH (k + 8 * 4) m4 H4); lia || apply Hal|lia].
Qed.
(** The word the shifting loop stores is the next source word, and the bytes
    it keeps are the ones after it. *)
Lemma shifted_word a (p : nat) :
  (1 ≤ p ≤ 7)%nat →
  Z.lor (le_value (peek m0 a p)) (u64 (Z.shiftl (le_value (peek m0 (a + Z.of_nat p) 8)) (8 * Z.of_nat p))) =
    le_value (peek m0 a 8) ∧
  Z.shiftr (le_value (peek m0 (a + Z.of_nat p) 8)) (8 * Z.of_nat (8 - p)) = le_value (peek m0 (a + 8) p).
Proof.
  intros Hp. pose proof (peek_bytes m0 a p Hok) as Hb.
  pose proof (peek_bytes m0 (a + Z.of_nat p) 8 Hok) as Hb'. split.
  - rewrite le_value_shiftl by (done || lia || apply length_peek). rewrite take_peek by lia.
    pose proof (le_value_join (peek m0 a p) (peek m0 (a + Z.of_nat p) (8 - p)) Hb) as Hj.
    rewrite length_peek in Hj. rewrite Hj, <-peek_app. do 2 f_equal. lia.
  - rewrite le_value_shiftr by (done || rewrite length_peek; lia). rewrite drop_peek by lia.
    replace (8 - (8 - p))%nat with p by lia.
    by replace (a + Z.of_nat p + Z.of_nat (8 - p)) with (a + 8) by lia.
Qed.
Lemma forward_shifted_spec fuel (p : nat) k m :
  (1 ≤ p ≤ 7)%nat → copying 0 k m → 0 ≤ k ≤ n → n - k < Z.of_nat fuel →
  aligned (d + k) → aligned (s + k + Z.of_nat p) →
  forward_to k (λ _, True)
    (forward_shifted fuel (Z.of_nat (8 - p)) (Z.of_nat p) m (d + k) (s + k + Z.of_nat p) (s + k) (n - k)
       (le_value (peek m0 (s + k) p))).
Proof.
  intros Hp. revert k m. induction fuel as [|fuel IH]; intros k m Hc Hk Hf Ha Hb; [lia|].
  cbn [forward_shifted]. unfold width in *.
  destruct (decide (8 + Z.of_nat p ≤ n - k)) as [Hgo|Hstop]; [|by apply forward_stop; [|lia|]].
  destruct (shifted_word (s + k) p Hp) as [Hw Hlow].
  replace (s + k + Z.of_nat p) with (s + (k + Z.of_nat p)) in * by lia.
  rewrite (forward_read k) by (done || lia). run. rewrite Hw, Hlow.
  destruct (forward_write k m Hc) as (m' & -> & Hc'); [lia..|done|]. run.
  replace (d + k + 8) with (d + (k + 8)) by lia. replace (s + k + 8) with (s + (k + 8)) by lia.
  replace (n - k - 8) with (n - (k + 8)) by lia.
  replace (s + (k + Z.of_nat p) + 8) with (s + (k + 8) + Z.of_nat p) by lia.
  eapply forward_more; [apply (IH (k + 8) m' Hc'); try lia|lia].
  - by eapply (aligned_add _ _ 1); [exact Ha|lia].
  - by eapply (aligned_add _ _ 1); [exact Hb|lia].
Qed.
Lemma forward_middle_spec fuel k m :
  copying 0 k m → 0 ≤ k ≤ n → n - k < Z.of_nat fuel → aligned (d + k) →
  forward_to k (λ _, True) (forward_middle fuel m (d + k) (s + k) (n - k)).
Proof.
  intros Hc Hk Hf Ha. unfold forward_middle. destruct (decide (aligned (s + k))) as [Hb|Hb].
  - destruct (forward_batches_spec fuel k m Hc Hk Hf Ha Hb) as (k1 & m1 & -> & Hk1 & Hc1 & Ha1 & Hb1). run.
    eapply forward_more; [apply forward_words_spec; done || lia|lia].
  - unfold width in *. destruct (decide (2 * 8 ≤ n - k)) as [Hbig|]; [|by apply forward_stop; [|lia|]].
    rewrite aligned_alt in Hb. change (8 - 1) with (width - 1). rewrite land_7.
    pose proof (Z.div_mod (s + k) 8) as Hdm. pose proof (Z.mod_pos_bound (s + k) 8) as Hmb.
    set (r := (s + k) mod 8) in *.
    assert (Hr : r ≠ 0) by (intros Hz; apply Hb; exists ((s + k) / 8); lia).
    rewrite (gather_spec m (s + k) 0 (8 - r)); [|..].
    + run. rewrite Z.shiftl_0_r, (copying_peek 0 k) by (done || lia).
      pose proof (forward_shifted_spec fuel (Z.to_nat (8 - r)) k m) as Hspec.
      rewrite Nat2Z.inj_sub, !Z2Nat.id in Hspec by lia.
      replace (Z.of_nat 8 - (8 - r)) with r in Hspec by lia.
      apply Hspec; try done; try lia. apply aligned_alt. exists ((s + k) / 8 + 1). lia.
    + intros x b Hx. rewrite Hc in Hx. destruct (decide _); by eapply Hok.
    + lia.
    + lia.
    + lia.
    + apply (copying_mapped 0 k); [done|lia..|]. intros x Hx. apply Hs. lia.
Qed.

Lemma copy_forward_run : 0 ≤ n → ∃ m', copy_forward m0 d s n = Done (d, m') ∧ copying 0 n m'.
Proof.
  intros Hn. unfold copy_forward. destruct (decide (n = 0)) as [Hz|Hz].
  { exists m0. split; [done|]. rewrite Hz. by apply copying_start. }
  pose proof (forward_bytes_spec (S (Z.to_nat n)) aligned 0 m0 (copying_start 0 m0 eq_refl)) as Hb.
  rewrite !Z.add_0_r, Z.sub_0_r in Hb.
  destruct Hb as (k & m1 & -> & Hk & Hc & Ha); [lia..|]. run.
  destruct (decide (n - k = 0)) as [Hz'|Hz'].
  { exists m1. split; [done|]. by replace n with k by lia. }
  destruct Ha as [?|Ha]; [lia|].
  destruct (forward_middle_spec (S (Z.to_nat n)) k m1) as (k2 & m2 & -> & Hk2 & Hc2 & _); [done|lia|lia|done|]. run.
  destruct (forward_bytes_spec (S (Z.to_nat n)) (λ _, False) k2 m2) as (k3 & m3 & -> & Hk3 & Hc3 & Hend); [done|lia|lia|].
  run. exists m3. split; [done|]. by destruct Hend as [->|[]].
Qed.
End forward.

(** ** Backward

    [r] bytes are still to be moved; the bytes above them have arrived. *)
Section backward.
Context (Hbwd : s ≤ d).

Lemma backward_byte r m :
  copying r n m → 0 < r ≤ n →
  ∃ m', (b ← load m (s + r - 1); store m (d + r - 1) b) = Done m' ∧ copying (r - 1) n m'.
Proof.
  intros Hc Hr. replace (s + r - 1) with (s + (r - 1)) by lia. replace (d + r - 1) with (d + (r - 1)) by lia.
  apply (move_byte r n); try done; lia.
Qed.
Lemma backward_read r m j :
  copying r n m → 0 ≤ j → j + 8 ≤ r ≤ n → aligned (s + j) →
  load_word m (s + j) = Done (le_value (peek m0 (s + j) 8)).
Proof. intros Hc Hj Hr Ha. apply (read_word r n); try done; lia. Qed.
Lemma backward_write r m :
  copying r n m → 8 ≤ r ≤ n → aligned (d + (r - 8)) →
  ∃ m', store_word m (d + (r - 8)) (le_value (peek m0 (s + (r - 8)) 8)) = Done m' ∧ copying (r - 8) n m'.
Proof. intros Hc Hr Ha. apply (write_word r n); try done; lia. Qed.

Definition backward_to (r : Z) (P : Z → Prop) (res : outcome (mem * Z * Z * Z)) : Prop :=
  ∃ r' m', res = Done (m', d + r', s + r', r') ∧ 0 ≤ r' ≤ r ∧ copying r' n m' ∧ P r'.
Lemma backward_stop r m (P : Z → Prop) :
  copying r n m → 0 ≤ r → P r → backward_to r P (Done (m, d + r, s + r, r)).
Proof. intros. exists r, m. split_and!; done || lia. Qed.
Lemma backward_more r r1 P res : backward_to r1 P res → r1 ≤ r → backward_to r P res.
Proof. intros (r' & m' & ? & ? & ? & ?) ?. exists r', m'. split_and!; done || lia. Qed.

Lemma backward_bytes_spec fuel until `{∀ a, Decision (until a)} r m :
  copying r n m → 0 ≤ r ≤ n → r < Z.of_nat fuel →
  backward_to r (λ r', r' = 0 ∨ until (d + r')) (backward_bytes fuel until m (d + r) (s + r) r).
Proof.
  revert r m. induction fuel as [|fuel IH]; intros r m Hc Hr Hf; [lia|]. cbn [backward_bytes].
  destruct (decide (r ≠ 0 ∧ _)) as [Hgo|Hstop].
  - destruct (backward_byte r m Hc) as (m' & Hrun & Hc'); [lia|]. apply bind_Done in Hrun as (b & -> & Hst).
    run. rewrite Hst. run.
    replace (d + r - 1) with (d + (r - 1)) by lia. replace (s + r - 1) with (s + (r - 1)) by lia.
    eapply backward_more; [apply (IH (r - 1) m' Hc'); lia|lia].
  - apply backward_stop; [done|lia|]. destruct (decide (r = 0)); [by left|right].
    apply dec_stable. intros ?. apply Hstop. split; [lia|done].
Qed.
Lemma backward_words_spec fuel r m :
  copying r n m → 0 ≤ r ≤ n → r < Z.of_nat fuel → aligned (d + r) → aligned (s + r) →
  backward_to r (λ _, True) (backward_words fuel m (d + r) (s + r) r).
Proof.
  revert r m. induction fuel as [|fuel IH]; intros r m Hc Hr Hf Ha Hb; [lia|]. cbn [backward_words].
  unfold width in *. destruct (decide (8 ≤ r)) as [Hgo|Hstop]; [|by apply backward_stop; [|lia|]].
  assert (Ha' : aligned (d + (r - 8))) by (apply (aligned_add _ _ (-1) Ha); lia).
  assert (Hb' : aligned (s + (r - 8))) by (apply (aligned_add _ _ (-1) Hb); lia).
  replace (d + r - 8) with (d + (r - 8)) by lia. replace (s + r - 8) with (s + (r - 8)) by lia.
  rewrite (backward_read r) by (done || lia). run.
  destruct (backward_write r m Hc) as (m' & -> & Hc'); [lia|done|]. run.
  eapply backward_more; [apply (IH (r - 8) m' Hc'); done || lia|lia].
Qed.
Lemma backward_batches_spec fuel r m :
  copying r n m → 0 ≤ r ≤ n → r < Z.of_nat fuel → aligned (d + r) → aligned (s + r) →
  backward_to r (λ r', aligned (d + r') ∧ aligned (s + r')) (backward_batches fuel m (d + r) (s + r) r).
Proof.
  revert r m. induction fuel as [|fuel IH]; intros r m Hc Hr Hf Ha Hb; [lia|]. cbn [backward_batches].
  unfold width in *. destruct (decide (4 * 8 ≤ r)) as [Hgo|Hstop]; [|by apply backward_stop; [|lia|]].
  assert (Hal : ∀ q x, x = r - 8 * q → aligned (d + x) ∧ aligned (s + x)).
  { intros q x ->. split; [apply (aligned_add _ _ (-q) Ha)|apply (aligned_add _ _ (-q) Hb)]; lia. }
  destruct (Hal 1 (r - 8)) as [Ha1 Hb1]; [lia|]. destruct (Hal 2 (r - 8 - 8)) as [Ha2 Hb2]; [lia|].
  destruct (Hal 3 (r - 8 - 8 - 8)) as [Ha3 Hb3]; [lia|]. destruct (Hal 4 (r - 8 - 8 - 8 - 8)) as [Ha4 Hb4]; [lia|].
  replace (s + r - 8) with (s + (r - 8)) by lia. replace (s + r - 2 * 8) with (s + (r - 8 - 8)) by lia.
  replace (s + r - 3 * 8) with (s + (r - 8 - 8 - 8)) by lia.
  replace (s + r - 4 * 8) with (s + (r - 8 - 8 - 8 - 8)) by lia.
  replace (d + r - 8) with (d + (r - 8)) by lia. replace (d + r - 2 * 8) with (d + (r - 8 - 8)) by lia.
  replace (d + r - 3 * 8) with (d + (r - 8 - 8 - 8)) by lia.
  replace (d + r - 4 * 8) with (d + (r - 8 - 8 - 8 - 8)) by lia.
  replace (r - 4 * 8) with (r - 8 - 8 - 8 - 8) by lia.
  rewrite (backward_read r m (r - 8)) by (done || lia). run.
  rewrite (backward_read r m (r - 8 - 8)) by (done || lia). run.
  rewrite (backward_read r m (r - 8 - 8 - 8)) by (done || lia). run.
  rewrite (backward_read r m (r - 8 - 8 - 8 - 8)) by (done || lia). run.
  destruct (backward_write r m Hc) as (m1 & -> & H1); [lia|done|]. run.
  destruct (backward_write (r - 8) m1 H1) as (m2 & -> & H2); [lia|done|]. run.
  destruct (backward_write (r - 8 - 8) m2 H2) as (m3 & -> & H3); [lia|done|]. run.
  destruct (backward_write (r - 8 - 8 - 8) m3 H3) as (m4 & -> & H4); [lia|done|]. run.
  eapply backward_more; [apply (IH (r - 8 - 8 - 8 - 8) m4 H4); done || lia|lia].
Qed.

Lemma shifted_word_back a (p : nat) :
  (1 ≤ p ≤ 7)%nat →
  Z.lor (Z.shiftl (le_value (peek m0 (a + Z.of_nat (8 - p)) p)) (8 * Z.of_nat (8 - p)))
    (Z.shiftr (le_value (peek m0 (a - Z.of_nat p) 8)) (8 * Z.of_nat p)) = le_value (peek m0 a 8) ∧
  u64 (Z.shiftl (le_value (peek m0 (a - Z.of_nat p) 8)) (8 * Z.of_nat (8 - p))) =
    Z.shiftl (le_value (peek m0 (a - Z.of_nat p) p)) (8 * Z.of_nat (8 - p)).
Proof.
  intros Hp. pose proof (peek_bytes m0 (a - Z.of_nat p) 8 Hok) as Hb. split.
  - rewrite le_value_shiftr by (done || rewrite length_peek; lia). rewrite drop_peek by lia.
    replace (a - Z.of_nat p + Z.of_nat p) with a by lia. rewrite Z.lor_comm.
    pose proof (le_value_join (peek m0 a (8 - p)) (peek m0 (a + Z.of_nat (8 - p)) p)
                  (peek_bytes _ _ _ Hok)) as Hj.
    rewrite length_peek in Hj. rewrite Hj, <-peek_app. do 2 f_equal. lia.
  - rewrite le_value_shiftl by (done || lia || apply length_peek). rewrite take_peek by lia.
    by replace (8 - (8 - p))%nat with p by lia.
Qed.
Lemma backward_shifted_spec fuel (p : nat) r m :
  (1 ≤ p ≤ 7)%nat → copying r n m → 0 ≤ r ≤ n → r < Z.of_nat fuel →
  aligned (d + r) → aligned (s + r - Z.of_nat p) →
  backward_to r (λ _, True)
    (backward_shifted fuel (Z.of_nat p) m (d + r) (s + r - Z.of_nat p) (s + r) r
       (Z.shiftl (le_value (peek m0 (s + r - Z.of_nat p) p)) (8 * Z.of_nat (8 - p)))).
Proof.
  intros Hp. revert r m. induction fuel as [|fuel IH]; intros r m Hc Hr Hf Ha Hb; [lia|].
  cbn [backward_shifted]. unfold width in *.
  destruct (decide (8 + Z.of_nat p ≤ r)) as [Hgo|Hstop]; [|by apply backward_stop; [|lia|]].
  destruct (shifted_word_back (s + (r - 8)) p Hp) as [Hw Hhigh].
  replace (s + (r - 8) + Z.of_nat (8 - p)) with (s + r - Z.of_nat p) in Hw by lia.
  replace (s + r - Z.of_nat p - 8) with (s + (r - 8 - Z.of_nat p)) by lia.
  replace (s + (r - 8) - Z.of_nat p) with (s + (r - 8 - Z.of_nat p)) in Hw, Hhigh by lia.
  rewrite (backward_read r) by (try done; try lia; apply (aligned_add _ _ (-1) Hb); lia).
  run. rewrite Hw. replace (8 - Z.of_nat p) with (Z.of_nat (8 - p)) by lia. rewrite Hhigh.
  replace (d + r - 8) with (d + (r - 8)) by lia. replace (s + r - 8) with (s + (r - 8)) by lia.
  assert (Ha' : aligned (d + (r - 8))) by (apply (aligned_add _ _ (-1) Ha); lia).
  destruct (backward_write r m Hc) as (m' & -> & Hc'); [lia|done|]. run.
  replace (s + (r - 8 - Z.of_nat p)) with (s + (r - 8) - Z.of_nat p) by lia.
  eapply backward_more; [apply (IH (r - 8) m' Hc'); try done; try lia|lia].
  apply (aligned_add _ _ (-1) Hb); lia.
Qed.
Lemma backward_middle_spec fuel r m :
  copying r n m → 0 ≤ r ≤ n → r < Z.of_nat fuel → aligned (d + r) →
  backward_to r (λ _, True) (backward_middle fuel m (d + r) (s + r) r).
Proof.
  intros Hc Hr Hf Ha. unfold backward_middle. destruct (decide (aligned (s + r))) as [Hb|Hb].
  - destruct (backward_batches_spec fuel r m Hc Hr Hf Ha Hb) as (r1 & m1 & -> & Hr1 & Hc1 & Ha1 & Hb1). run.
    eapply backward_more; [apply backward_words_spec; done || lia|lia].
  - unfold width in *. destruct (decide (2 * 8 ≤ r)) as [Hbig|]; [|by apply backward_stop; [|lia|]].
    rewrite aligned_alt in Hb. change (8 - 1) with (width - 1). rewrite land_7.
    pose proof (Z.div_mod (s + r) 8) as Hdm. pose proof (Z.mod_pos_bound (s + r) 8) as Hmb.
    set (p := (s + r) mod 8) in *.
    assert (Hp : p ≠ 0) by (intros Hz; apply Hb; exists ((s + r) / 8); lia).
    rewrite (gather_spec m (s + r - p) (8 - p) p); [|..].
    + run. replace (s + r - p) with (s + (r - p)) by lia. rewrite (copying_peek r n) by (done || lia).
      pose proof (backward_shifted_spec fuel (Z.to_nat p) r m) as Hspec.
      rewrite Nat2Z.inj_sub, !Z2Nat.id in Hspec by lia.
      replace (s + (r - p)) with (s + r - p) by lia.
      apply Hspec; try done; try lia. apply aligned_alt. exists ((s + r) / 8). lia.
    + intros x b Hx. rewrite Hc in Hx. destruct (decide _); by eapply Hok.
    + lia.
    + lia.
    + lia.
    + apply (copying_mapped r n); [done|lia..|]. intros x Hx. apply Hs. lia.
Qed.
End backward.
End copying.

(** ** The routines *)

(** C24: for any two objects of [n] bytes, however they are aligned and however
    they overlap, [memmove] ends without touching a byte outside them and leaves
    in the destination exactly the bytes the source held before the call. *)
Theorem memmove_correct m d s n :
  mem_ok m → 0 ≤ n → mapped m d n → mapped m s n →
  ∃ m', memmove m d s n = Done (d, m') ∧
    ∀ x, m' !! x = if decide (d ≤ x < d + n) then m !! (s + (x - d)) else m !! x.
Proof.
  intros Hok Hn Hd Hs. unfold memmove.
  destruct (decide (n = 0 ∨ d = s)) as [Htriv|Htriv].
  { exists m. split; [done|]. intros x. destruct (decide _); [|done]. f_equal. lia. }
  assert (Hfin : ∀ m', copying m d s 0 n m' →
    ∀ x, m' !! x = if decide (d ≤ x < d + n) then m !! (s + (x - d)) else m !! x).
  { intros m' Hc x. specialize (Hc x). by rewrite Z.add_0_r in Hc. }
  destruct (decide (d < s ∨ n ≤ d - s)) as [Hf|Hf].
  { destruct (copy_forward_run m d s n Hok Hd Hs) as (m' & -> & Hc); [lia..|]. eauto. }
  destruct (backward_bytes_spec m d s n Hd Hs ltac:(lia) (S (Z.to_nat n)) aligned n m)
    as (r & m1 & -> & Hr & Hc & Ha); [by apply copying_start|lia..|]. run.
  destruct (decide (r = 0)) as [->|Hr0]; [eauto|]. destruct Ha as [?|Ha]; [lia|].
  destruct (backward_middle_spec m d s n Hok Hd Hs ltac:(lia) (S (Z.to_nat n)) r m1)
    as (r2 & m2 & -> & Hr2 & Hc2 & _); [done|lia|lia|done|]. run.
  destruct (backward_bytes_spec m d s n Hd Hs ltac:(lia) (S (Z.to_nat n)) (λ _, False) r2 m2)
    as (r3 & m3 & -> & Hr3 & Hc3 & [->|[]]); [done|lia|lia|]. run. eauto.
Qed.

(** An overlapping move by three bytes of twenty, with the source misaligned. *)
Definition demo_mem : mem := list_to_map (imap (λ i b, (Z.of_nat i + 1001, b)) (seqZ 1 30)).
Lemma demo_mem_ok : mem_ok demo_mem.
Proof. apply (bool_decide_unpack _). vm_compute. exact I. Qed.
Lemma demo_mapped a n : 1001 ≤ a → a + n ≤ 1031 → mapped demo_mem a n.
Proof.
  intros Ha Hn x Hx.
  assert (Hall : Forall (λ x, is_Some (demo_mem !! x)) (seqZ 1001 30)) by (apply (bool_decide_unpack _); vm_compute; exact I).
  rewrite Forall_forall in Hall. apply Hall, elem_of_seqZ. lia.
Qed.
Lemma memmove_correct_witness :
  (∃ m', memmove demo_mem 1005 1002 20 = Done (1005, m') ∧
    ∀ x, m' !! x = if decide (1005 ≤ x < 1005 + 20) then demo_mem !! (1002 + (x - 1005)) else demo_mem !! x) ∧
  (m' ← memmove demo_mem 1005 1002 20; load m'.2 1024) = Done 21.
Proof.
  split; [|by vm_compute].
  apply memmove_correct; [apply demo_mem_ok|done|by apply demo_mapped|by apply demo_mapped].
Defined.
