(* ===== verification/StringTextTheory.v ===== *)
(** * [memset], [memcmp] and the routines on terminated strings *)
From S2P Require Import Prelude Bytes StringOps StringCopyTheory.
Import StringOps.
#[local] Open Scope Z_scope.

(** ** [memset] *)
Section filling.
Context (m0 : mem) (d byte n : Z).
Context (Hbyte : byte_ok byte) (Hd : mapped m0 d n).

Definition filling (k : Z) (m : mem) : Prop :=
  ∀ x, m !! x = if decide (d ≤ x < d + k) then Some byte else m0 !! x.
Lemma filling_mapped k m a j : filling k m → mapped m0 a j → mapped m a j.
Proof. intros Hf Hm x Hx. rewrite Hf. destruct (decide (d ≤ x < d + k)); [eauto|by apply Hm]. Qed.
Lemma filling_put k m j : filling k m → 0 ≤ k → filling (k + Z.of_nat j) (put m (d + k) (replicate j byte)).
Proof.
  intros Hf Hk x. rewrite lookup_put, length_replicate. destruct (decide (d + k ≤ x < _)).
  - rewrite decide_True by lia. apply lookup_replicate. split; [done|lia].
  - rewrite Hf. destruct (decide (d ≤ x < d + k)); [rewrite decide_True by lia|rewrite decide_False by lia]; done.
Qed.
(** The multiplication spreads the byte over the word. *)
Lemma pattern_word : u64 (UINT64_MAX / UINT8_MAX * byte) = le_value (replicate 8 byte).
Proof.
  unfold byte_ok in Hbyte. rewrite u64_small.
  - cbn. change (UINT64_MAX / UINT8_MAX) with 72340172838076673. lia.
  - change (UINT64_MAX / UINT8_MAX) with 72340172838076673. mlia.
Qed.
Lemma fill_word k m :
  filling k m → 0 ≤ k → k + 8 ≤ n → aligned (d + k) →
  store_word m (d + k) (le_value (replicate 8 byte)) = Done (put m (d + k) (replicate 8 byte)) ∧
  filling (k + 8) (put m (d + k) (replicate 8 byte)).
Proof.
  intros Hf Hk Hn Ha. split; [|by apply (filling_put k m 8)].
  apply store_word_put; [done| |done|by apply Forall_replicate].
  apply (filling_mapped k m _ _ Hf). intros x Hx. apply Hd. lia.
Qed.

Definition fill_to (k : Z) (P : Z → Prop) (r : outcome (mem * Z * Z)) : Prop :=
  ∃ k' m', r = Done (m', d + k', n - k') ∧ k ≤ k' ≤ n ∧ filling k' m' ∧ P k'.
Lemma fill_stop k m (P : Z → Prop) : filling k m → k ≤ n → P k → fill_to k P (Done (m, d + k, n - k)).
Proof. intros. exists k, m. split_and!; done || lia. Qed.
Lemma fill_more k k1 P r : fill_to k1 P r → k ≤ k1 → fill_to k P r.
Proof. intros (k' & m' & ? & ? & ? & ?) ?. exists k', m'. split_and!; done || lia. Qed.

Lemma fill_bytes_spec fuel until `{∀ a, Decision (until a)} k m :
  filling k m → 0 ≤ k ≤ n → n - k < Z.of_nat fuel →
  fill_to k (λ k', k' = n ∨ until (d + k')) (fill_bytes fuel until m (d + k) byte (n - k)).
Proof.
  revert k m. induction fuel as [|fuel IH]; intros k m Hf Hk Hfuel; [lia|]. cbn [fill_bytes].
  destruct (decide (n - k ≠ 0 ∧ _)) as [Hgo|Hstop].
  - rewrite store_put by (apply (filling_mapped k m (d + k) 1 Hf); [intros x Hx; apply Hd|]; lia). run.
    replace (d + k + 1) with (d + (k + 1)) by lia. replace (n - k - 1) with (n - (k + 1)) by lia.
    eapply fill_more; [apply IH; [by apply (filling_put k m 1); [|lia]|lia..]|lia].
  - apply fill_stop; [done|lia|]. destruct (decide (k = n)); [by left|right].
    apply dec_stable. intros ?. apply Hstop. split; [lia|done].
Qed.
Lemma fill_words_spec fuel k m :
  filling k m → 0 ≤ k ≤ n → n - k < Z.of_nat fuel → aligned (d + k) →
  fill_to k (λ _, True) (fill_words fuel m (d + k) (le_value (replicate 8 byte)) (n - k)).
Proof.
  revert k m. induction fuel as [|fuel IH]; intros k m Hf Hk Hfuel Ha; [lia|]. cbn [fill_words].
  unfold width in *. destruct (decide (8 ≤ n - k)) as [Hgo|Hstop]; [|by apply fill_stop; [|lia|]].
  destruct (fill_word k m Hf) as [-> Hf']; [lia..|done|]. run.
  replace (d + k + 8) with (d + (k + 8)) by lia. replace (n - k - 8) with (n - (k + 8)) by lia.
  eapply fill_more; [apply IH; try done; try lia|lia]. apply (aligned_add _ _ 1 Ha). lia.
Qed.
Lemma fill_batches_spec fuel k m :
  filling k m → 0 ≤ k ≤ n → n - k < Z.of_nat fuel → aligned (d + k) →
  fill_to k (λ k', aligned (d + k')) (fill_batches fuel m (d + k) (le_value (replicate 8 byte)) (n - k)).
Proof.
  revert k m. induction fuel as [|fuel IH]; intros k m Hf Hk Hfuel Ha; [lia|]. cbn [fill_batches].
  unfold width in *. destruct (decide (4 * 8 ≤ n - k)) as [Hgo|Hstop]; [|by apply fill_stop; [|lia|]].
  assert (Hal : ∀ q x, x = k + 8 * q → aligned (d + x)) by (intros q x ->; apply (aligned_add _ _ q Ha); lia).
  replace (d + k + 8) with (d + (k + 8)) by lia. replace (d + k + 2 * 8) with (d + (k + 8 + 8)) by lia.
  replace (d + k + 3 * 8) with (d + (k + 8 + 8 + 8)) by lia.
  destruct (fill_word k m Hf) as [-> H1]; [lia..|done|]. run.
  destruct (fill_word _ _ H1) as [-> H2]; [lia..|apply (Hal 1); lia|]. run.
  destruct (fill_word _ _ H2) as [-> H3]; [lia..|apply (Hal 2); lia|]. run.
  destruct (fill_word _ _ H3) as [-> H4]; [lia..|apply (Hal 3); lia|]. run.
  replace (d + k + 4 * 8) with (d + (k + 8 + 8 + 8 + 8)) by lia.
  replace (n - k - 4 * 8) with (n - (k + 8 + 8 + 8 + 8)) by lia.
  eapply fill_more; [apply IH; try done; try lia|lia]. apply (Hal 4). lia.
Qed.
End filling.

Lemma memset_run m d value n :
  0 ≤ n → mapped m d n →
  ∃ m', memset m d value n = Done (d, m') ∧
    ∀ x, m' !! x = if decide (d ≤ x < d + n) then Some (value mod 256) else m !! x.
Proof.
  intros Hn Hd. unfold memset. set (byte := value mod 256).
  assert (Hb : byte_ok byte) by (apply Z.mod_pos_bound; done).
  assert (H0 : filling m d byte 0 m) by (intros x; by rewrite decide_False by lia).
  pose proof (fill_bytes_spec m d byte n Hd (S (Z.to_nat n)) aligned 0 m H0) as H1.
  rewrite Z.add_0_r, Z.sub_0_r in H1. destruct H1 as (k & m1 & -> & Hk & Hf & Ha); [lia..|]. run.
  destruct (decide (n - k = 0)) as [Hz|Hz].
  { exists m1. split; [done|]. by replace n with k by lia. }
  destruct Ha as [?|Ha]; [lia|]. rewrite pattern_word by done.
  destruct (fill_batches_spec m d byte n Hb Hd (S (Z.to_nat n)) k m1) as (k2 & m2 & -> & Hk2 & Hf2 & Ha2); [done|lia|lia|done|]. run.
  destruct (fill_words_spec m d byte n Hb Hd (S (Z.to_nat n)) k2 m2) as (k3 & m3 & -> & Hk3 & Hf3 & _); [done|lia|lia|done|]. run.
  destruct (fill_bytes_spec m d byte n Hd (S (Z.to_nat n)) (λ _, False) k3 m3) as (k4 & m4 & -> & Hk4 & Hf4 & [->|[]]); [done|lia|lia|].
  run. eauto.
Qed.

(** ** [memcmp] *)

(** The difference of the first bytes that differ, as unsigned values. *)
Fixpoint byte_compare (l r : list Z) : Z :=
  match l, r with
  | a :: l, b :: r => if decide (a = b) then byte_compare l r else a - b
  | _, _ => 0
  end.
Lemma byte_compare_same l r r' : byte_compare (l ++ r) (l ++ r') = byte_compare r r'.
Proof. induction l as [|b l IH]; [done|]. simpl. by rewrite decide_True. Qed.

Section comparing.
Context (m : mem) (a b n : Z).
Context (Hok : mem_ok m) (Ha : mapped m a n) (Hb : mapped m b n).

(** What remains to compare after [k] equal bytes. *)
Definition rest (k : Z) : Z :=
  byte_compare (peek m (a + k) (Z.to_nat (n - k))) (peek m (b + k) (Z.to_nat (n - k))).
Lemma rest_skip k j :
  0 ≤ k → k + Z.of_nat j ≤ n → peek m (a + k) j = peek m (b + k) j → rest k = rest (k + Z.of_nat j).
Proof.
  intros Hk Hj He. unfold rest. replace (Z.to_nat (n - k)) with (j + Z.to_nat (n - (k + Z.of_nat j)))%nat by lia.
  rewrite !peek_app, He, byte_compare_same. by rewrite !Z.add_assoc.
Qed.
Lemma rest_end : rest n = 0.
Proof. unfold rest. by rewrite Z.sub_diag. Qed.

Lemma compare_bytes_spec fuel until `{∀ a, Decision (until a)} k :
  0 ≤ k ≤ n → n - k < Z.of_nat fuel →
  compare_bytes fuel until m (a + k) (b + k) (n - k) = Done (inl (rest k)) ∨
  ∃ k', compare_bytes fuel until m (a + k) (b + k) (n - k) = Done (inr (a + k', b + k', n - k')) ∧
    k ≤ k' ≤ n ∧ rest k = rest k' ∧ (k' = n ∨ until (a + k')).
Proof.
  revert k. induction fuel as [|fuel IH]; intros k Hk Hf; [lia|]. cbn [compare_bytes].
  destruct (decide (n - k ≠ 0 ∧ _)) as [Hgo|Hstop].
  - rewrite (load_peek m (a + k)) by (apply Ha; lia). run. rewrite (load_peek m (b + k)) by (apply Hb; lia). run.
    destruct (decide (_ ≠ _)) as [Hne|He%dec_stable].
    + left. unfold rest. replace (Z.to_nat (n - k)) with (S (Z.to_nat (n - k - 1))) by lia.
      cbn [peek byte_compare]. by rewrite decide_False.
    + rewrite (rest_skip k 1) by (lia || (simpl; by rewrite He)).
      replace (a + k + 1) with (a + (k + 1)) by lia. replace (b + k + 1) with (b + (k + 1)) by lia.
      replace (n - k - 1) with (n - (k + 1)) by lia.
      destruct (IH (k + 1)) as [Hr|(k' & Hr & ? & ?)]; [lia..|by left|right].
      exists k'. split; [done|]. split; [lia|done].
  - right. exists k. split; [done|]. split; [lia|]. split; [done|].
    destruct (decide (k = n)); [by left|right]. apply dec_stable. intros ?. apply Hstop. split; [lia|done].
Qed.
Lemma compare_words_spec fuel k :
  0 ≤ k ≤ n → n - k < Z.of_nat fuel → aligned (a + k) → aligned (b + k) →
  ∃ k', compare_words fuel m (a + k) (b + k) (n - k) = Done (a + k', b + k', n - k') ∧
    k ≤ k' ≤ n ∧ rest k = rest k'.
Proof.
  revert k. induction fuel as [|fuel IH]; intros k Hk Hf Hal Hbl; [lia|]. cbn [compare_words].
  unfold width in *. destruct (decide (8 ≤ n - k)) as [Hgo|]; [|exists k; split_and!; done || lia].
  rewrite (load_word_peek m (a + k)) by (done || intros x Hx; apply Ha; lia). run.
  rewrite (load_word_peek m (b + k)) by (done || intros x Hx; apply Hb; lia). run.
  destruct (decide (_ ≠ _)) as [Hne|He%dec_stable]; [exists k; split_and!; done || lia|].
  apply le_value_inj in He; [|by rewrite !length_peek|by apply peek_bytes..].
  rewrite (rest_skip k 8) by (done || lia). change (Z.of_nat 8) with 8.
  replace (a + k + 8) with (a + (k + 8)) by lia. replace (b + k + 8) with (b + (k + 8)) by lia.
  replace (n - k - 8) with (n - (k + 8)) by lia.
  destruct (IH (k + 8)) as (k' & Hr & ? & ?); [lia..|apply (aligned_add _ _ 1 Hal); lia|apply (aligned_add _ _ 1 Hbl); lia|].
  exists k'. split; [done|]. split; [lia|done].
Qed.
End comparing.

(** [memcmp] reads only the two objects and, whatever their alignment,
    returns the difference of the first unsigned bytes that differ, in the order
    of the addresses, and zero exactly when there is none: the word loop never
    changes the answer of the byte loop. *)
Theorem memcmp_correct m a b n :
  mem_ok m → 0 ≤ n → mapped m a n → mapped m b n →
  memcmp m a b n = Done (byte_compare (peek m a (Z.to_nat n)) (peek m b (Z.to_nat n))).
Proof.
  intros Hok Hn Ha Hb. unfold memcmp.
  assert (H0 : byte_compare (peek m a (Z.to_nat n)) (peek m b (Z.to_nat n)) = rest m a b n 0)
    by (unfold rest; by rewrite !Z.add_0_r, Z.sub_0_r).
  rewrite H0. clear H0.
  destruct (compare_bytes_spec m a b n Ha Hb (S (Z.to_nat n)) aligned 0) as [H1|(k & H1 & Hk & Hr & Hal)]; [lia..| |];
    rewrite !Z.add_0_r, Z.sub_0_r in H1; rewrite H1; run; [done|].
  assert (Hw : ∃ k', (if decide (aligned (b + k)) then compare_words (S (Z.to_nat n)) m (a + k) (b + k) (n - k)
            else Done (a + k, b + k, n - k)) = Done (a + k', b + k', n - k') ∧ k ≤ k' ≤ n ∧
            rest m a b n k = rest m a b n k').
  { destruct Hal as [->|Hal].
    - exists n. split_and!; [|lia|lia|done]. destruct (decide _); [|done]. cbn [compare_words].
      by rewrite decide_False by (unfold width; lia).
    - destruct (decide (aligned (b + k))); [by apply compare_words_spec; try lia|exists k; split_and!; done || lia]. }
  destruct Hw as (k' & -> & Hk' & Hr'). run.
  destruct (compare_bytes_spec m a b n Ha Hb (S (Z.to_nat n)) (λ _, False) k') as [->|(k2 & -> & ? & Hr2 & [->|[]])]; [lia..| |]; run.
  - by rewrite Hr, Hr'.
  - by rewrite Hr, Hr', Hr2, rest_end.
Qed.

(** Two 15-byte objects that differ in their last byte; one is misaligned. *)
Definition demo_text : mem :=
  list_to_map (imap (λ i b, (Z.of_nat i + 4096, b)) (seqZ 1 15 ++ [0] ++ [200] ++ seqZ 1 14 ++ [255])).
Lemma demo_text_ok : mem_ok demo_text.
Proof. apply (bool_decide_unpack _). vm_compute. exact I. Qed.
Lemma demo_text_mapped a n : 4096 ≤ a → a + n ≤ 4128 → mapped demo_text a n.
Proof.
  intros Ha Hn x Hx.
  assert (Hall : Forall (λ x, is_Some (demo_text !! x)) (seqZ 4096 32)) by (apply (bool_decide_unpack _); vm_compute; exact I).
  rewrite Forall_forall in Hall. apply Hall, elem_of_seqZ. lia.
Qed.
Lemma memcmp_correct_witness :
  memcmp demo_text 4096 4113 15 =
    Done (byte_compare (peek demo_text 4096 (Z.to_nat 15)) (peek demo_text 4113 (Z.to_nat 15))) ∧
  memcmp demo_text 4096 4113 15 = Done (15 - 255) ∧ memcmp demo_text 4096 4113 14 = Done 0.
Proof.
  split; [|by vm_compute].
  apply memcmp_correct; [apply demo_text_ok|done|by apply demo_text_mapped|by apply demo_text_mapped].
Defined.

(** ** Terminated strings *)

(** The string [l] is stored at [a], with its terminator. *)
Definition text (m : mem) (a : Z) (l : list Z) : Prop :=
  Forall (λ b, b ≠ 0) l ∧ ∀ i b, (l ++ [0]) !! i = Some b → m !! (a + Z.of_nat i) = Some b.

Lemma text_head m a l : text m a l → m !! a = Some (default 0 (head l)).
Proof. intros [_ H]. rewrite <-(Z.add_0_r a). apply (H 0%nat). by destruct l. Qed.
Lemma text_tail m a b l : text m a (b :: l) → b ≠ 0 ∧ text m (a + 1) l.
Proof.
  intros [Hz H]. apply Forall_cons in Hz as [? ?]. split; [done|]. split; [done|].
  intros i c Hc. replace (a + 1 + Z.of_nat i) with (a + Z.of_nat (S i)) by lia. by apply H.
Qed.
Lemma text_mapped m a l : text m a l → mapped m a (Z.of_nat (length l) + 1).
Proof.
  intros [_ H] x Hx. destruct (lookup_lt_is_Some_2 (l ++ [0]) (Z.to_nat (x - a))) as [b Hb].
  { rewrite length_app. simpl. lia. }
  apply H in Hb. replace (a + Z.of_nat (Z.to_nat (x - a))) with x in Hb by lia. eauto.
Qed.
Lemma text_fuel m a l : text m a l → (length l < string_fuel m)%nat.
Proof. intros Ht%text_mapped%mapped_size. unfold string_fuel. lia. Qed.
Lemma load_text m a l : text m a l → load m a = Done (default 0 (head l)).
Proof. intros Ht%text_head. unfold load. by rewrite Ht. Qed.

Lemma strlen_loop_spec fuel m a k l :
  text m (a + k) l → (length l < fuel)%nat → strlen_loop fuel m a k = Done (k + Z.of_nat (length l)).
Proof.
  revert k l. induction fuel as [|fuel IH]; intros k l Ht Hf; [lia|]. cbn [strlen_loop].
  rewrite (load_text _ _ l Ht). run. destruct l as [|b l]; simpl.
  - f_equal. lia.
  - apply text_tail in Ht as [Hb Ht]. rewrite decide_True by done. rewrite (IH (k + 1) l).
    + f_equal. lia.
    + by replace (a + (k + 1)) with (a + k + 1) by lia.
    + simpl in Hf. lia.
Qed.
Lemma strcmp_loop_spec fuel m a b l r :
  text m a l → text m b r → (length l < fuel)%nat →
  strcmp_loop fuel m a b = Done (byte_compare (l ++ [0]) (r ++ [0])).
Proof.
  revert a b l r. induction fuel as [|fuel IH]; intros a b l r Hl Hr Hf; [lia|]. cbn [strcmp_loop].
  rewrite (load_text _ _ l Hl). run. rewrite (load_text _ _ r Hr).
  destruct l as [|x l]; cbn [head default].
  - rewrite decide_False by (by intros []). run. destruct r as [|y r]; [done|].
    apply text_tail in Hr as [? _]. cbn. by rewrite decide_False.
  - apply text_tail in Hl as [Hx Hl]. simpl in Hf. rewrite decide_True by done. run.
    destruct r as [|y r]; cbn [head default app byte_compare]; simpl.
    + by rewrite !decide_False by done.
    + destruct (decide (x = y)) as [->|]; [|done]. apply text_tail in Hr as [_ Hr]. apply IH; [done..|lia].
Qed.
Lemma strncmp_loop_spec fuel m a b k n l r :
  text m (a + k) l → text m (b + k) r → (Z.to_nat (n - k) < fuel)%nat →
  strncmp_loop fuel m a b k n =
    Done (byte_compare (take (Z.to_nat (n - k)) (l ++ [0])) (take (Z.to_nat (n - k)) (r ++ [0]))).
Proof.
  revert k l r. induction fuel as [|fuel IH]; intros k l r Hl Hr Hf; [lia|]. cbn [strncmp_loop].
  destruct (decide (k < n)) as [Hk|Hk]; [|by replace (Z.to_nat (n - k)) with 0%nat by lia].
  rewrite (load_text _ _ l Hl). run. rewrite (load_text _ _ r Hr). run.
  replace (Z.to_nat (n - k)) with (S (Z.to_nat (n - (k + 1)))) by lia.
  destruct l as [|x l], r as [|y r]; cbn [head default app take byte_compare]; simpl.
  - by rewrite take_nil.
  - apply text_tail in Hr as [? _]. rewrite decide_True by done. by rewrite decide_False.
  - apply text_tail in Hl as [? _]. rewrite decide_True by done. by rewrite decide_False.
  - destruct (decide (x = y)) as [->|]; [|by rewrite decide_True].
    rewrite decide_False by (intros H; by apply H). apply text_tail in Hl as [Hy Hl]. apply text_tail in Hr as [_ Hr].
    rewrite decide_False by done. apply IH; [by rewrite Z.add_assoc..|lia].
Qed.

(** on terminated strings [strlen] is the length, and [strcmp] and [strncmp]
    order the strings (the first [n] bytes of them) by the first unsigned byte
    that differs, the terminator included; none of them reads past a terminator
    or past the bound. *)
Theorem strings_correct m a b l r n :
  text m a l → text m b r → 0 ≤ n →
  strlen m a = Done (Z.of_nat (length l)) ∧
  strcmp m a b = Done (byte_compare (l ++ [0]) (r ++ [0])) ∧
  strncmp m a b n = Done (byte_compare (take (Z.to_nat n) (l ++ [0])) (take (Z.to_nat n) (r ++ [0]))).
Proof.
  intros Hl Hr Hn. split_and!.
  - apply (strlen_loop_spec _ _ _ 0); [by rewrite Z.add_0_r|by eapply text_fuel].
  - apply strcmp_loop_spec; [done..|by eapply text_fuel].
  - pose proof (strncmp_loop_spec (S (Z.to_nat n)) m a b 0 n l r) as H.
    rewrite !Z.add_0_r, Z.sub_0_r in H. apply H; [done..|lia].
Qed.

Lemma strings_correct_witness :
  strlen demo_text 4096 = Done (Z.of_nat (length (seqZ 1 15))) ∧
  strcmp demo_text 4096 4110 = Done (byte_compare (seqZ 1 15 ++ [0]) ([15] ++ [0])) ∧
  strncmp demo_text 4096 4110 9 =
    Done (byte_compare (take (Z.to_nat 9) (seqZ 1 15 ++ [0])) (take (Z.to_nat 9) ([15] ++ [0]))).
Proof.
  assert (Ht : ∀ a l, Forall (λ b, b ≠ 0) l → (imap (λ i b, demo_text !! (a + Z.of_nat i)) (l ++ [0])) = Some <$> (l ++ [0]) →
               text demo_text a l).
  { intros a l Hz He. split; [done|]. intros i b Hi. apply (f_equal (lookup i)) in He.
    rewrite list_lookup_imap, list_lookup_fmap, Hi in He. simpl in He. congruence. }
  apply strings_correct; [apply Ht; [by_decide|by vm_compute]..|done].
Defined.

(** Copying strings: the text and its terminator, or the text cut or padded. *)
Lemma text_put m a l d b :
  text m a l → (d < a ∨ a + Z.of_nat (length l) < d) → text (<[d := b]> m) a l.
Proof.
  intros [Hz H] Hd. split; [done|]. intros i c Hc. pose proof (lookup_lt_Some _ _ _ Hc) as Hi.
  rewrite length_app in Hi. simpl in Hi. rewrite lookup_insert_ne by lia. by apply H.
Qed.
Lemma strcpy_loop_spec fuel m d s l :
  text m s l → mapped m d (Z.of_nat (length l) + 1) → (length l < fuel)%nat →
  (d + Z.of_nat (length l) < s ∨ s + Z.of_nat (length l) < d) →
  strcpy_loop fuel m d s = Done (put m d (l ++ [0])).
Proof.
  revert m d s l. induction fuel as [|fuel IH]; intros m d s l Ht Hd Hf Hdis; [lia|]. cbn [strcpy_loop].
  rewrite (load_text _ _ l Ht). run. rewrite store_put by (apply Hd; lia). run. cbn [put].
  rewrite (load_text _ s l) by (apply text_put; [done|lia]). run.
  destruct l as [|b l]; cbn [head default].
  - by rewrite decide_False by (by intros []).
  - apply text_tail in Ht as [Hb Ht]. simpl. rewrite decide_True by done. cbn [length] in *.
    apply IH; [apply text_put; [done|lia]| |lia|lia].
    intros x Hx. destruct (decide (x = d)) as [->|]; [rewrite lookup_insert_eq; eauto|].
    rewrite lookup_insert_ne by done. apply Hd. lia.
Qed.
Lemma strcpy_run m d s l :
  text m s l → mapped m d (Z.of_nat (length l) + 1) →
  (d + Z.of_nat (length l) < s ∨ s + Z.of_nat (length l) < d) →
  strcpy m d s = Done (d, put m d (l ++ [0])).
Proof. intros Ht Hd Hdis. unfold strcpy. by rewrite (strcpy_loop_spec _ _ _ _ l) by (done || by eapply text_fuel). Qed.
Lemma put_app m a l1 l2 : put m a (l1 ++ l2) = put (put m a l1) (a + Z.of_nat (length l1)) l2.
Proof.
  revert m a. induction l1 as [|b l1 IH]; intros m a; simpl; [by rewrite Z.add_0_r|].
  rewrite IH. by replace (a + Z.of_nat (S (length l1))) with (a + 1 + Z.of_nat (length l1)) by lia.
Qed.
Lemma mapped_put m a l b k : mapped m b k → mapped (put m a l) b k.
Proof.
  intros Hm x Hx. rewrite lookup_put. destruct (decide _); [|by apply Hm].
  apply lookup_lt_is_Some_2. lia.
Qed.
Lemma strncpy_text_spec fuel m d s k n l :
  text m (s + k) l → 0 ≤ k → mapped m (d + k) (n - k) → (Z.to_nat (n - k) < fuel)%nat →
  (d + n ≤ s + k ∨ s + k + Z.of_nat (length l) < d + k) →
  strncpy_text fuel m d s k n =
    Done (put m (d + k) (take (Z.to_nat (n - k)) l), k + Z.of_nat (length (take (Z.to_nat (n - k)) l))).
Proof.
  revert m k l. induction fuel as [|fuel IH]; intros m k l Ht Hk Hd Hf Hdis; [lia|]. cbn [strncpy_text].
  destruct (decide (k < n)) as [Hkn|]; [|replace (Z.to_nat (n - k)) with 0%nat by lia; simpl; by rewrite Z.add_0_r].
  rewrite (load_text _ _ l Ht). run. replace (Z.to_nat (n - k)) with (S (Z.to_nat (n - (k + 1)))) by lia.
  destruct l as [|b l]; cbn [head default]; simpl; [by rewrite Z.add_0_r|].
  apply text_tail in Ht as [Hb Ht]. rewrite decide_True by done. rewrite store_put by (apply Hd; lia). run. cbn [put].
  cbn [length] in Hdis. rewrite (IH _ (k + 1) l).
  - rewrite Z.add_assoc. do 2 f_equal. lia.
  - rewrite Z.add_assoc. apply text_put; [done|lia].
  - lia.
  - apply (mapped_put m (d + k) [b]). intros x Hx. apply Hd. lia.
  - lia.
  - lia.
Qed.
Lemma strncpy_pad_spec fuel m d k n :
  0 ≤ k → mapped m (d + k) (n - k) → (Z.to_nat (n - k) < fuel)%nat →
  strncpy_pad fuel m d k n = Done (put m (d + k) (replicate (Z.to_nat (n - k)) 0)).
Proof.
  revert m k. induction fuel as [|fuel IH]; intros m k Hk Hd Hf; [lia|]. cbn [strncpy_pad].
  destruct (decide (k < n)); [|by replace (Z.to_nat (n - k)) with 0%nat by lia].
  rewrite store_put by (apply Hd; lia). run. rewrite IH.
  - replace (Z.to_nat (n - k)) with (S (Z.to_nat (n - (k + 1)))) by lia. by rewrite Z.add_assoc.
  - lia.
  - apply mapped_put. intros x Hx. apply Hd. lia.
  - lia.
Qed.
Lemma strncpy_run m d s n l :
  text m s l → 0 ≤ n → mapped m d n → (d + n ≤ s ∨ s + Z.of_nat (length l) < d) →
  strncpy m d s n =
    Done (d, put m d (take (Z.to_nat n) l ++ replicate (Z.to_nat n - length l) 0)).
Proof.
  intros Ht Hn Hd Hdis. unfold strncpy.
  pose proof (strncpy_text_spec (S (Z.to_nat n)) m d s 0 n l) as H1.
  rewrite !Z.add_0_r, Z.sub_0_r, Z.add_0_l in H1. rewrite H1 by (done || lia). run.
  rewrite strncpy_pad_spec.
  - run. rewrite put_app. do 4 f_equal. rewrite length_take. lia.
  - lia.
  - apply mapped_put. rewrite length_take. intros x Hx. apply Hd. lia.
  - lia.
Qed.
