(* ===== verification/Qsort.v ===== *)
(** * Sorting ([lib/qsort.c])

    The array is the byte list at [base]; the comparison callback is a parameter
    that sees the bytes of two elements. *)
From S2P Require Import Prelude.
#[local] Open Scope Z_scope.

Module Qsort.

(** The bytes of element [i], as the callback reads them. *)
Definition element (bytes : list Z) (i size : nat) : outcome (list Z) :=
  if decide (i * size + size ≤ length bytes)%nat
  then Done (take size (drop (i * size) bytes)) else Fault Out_of_bounds.

Fixpoint swap_loop (bytes : list Z) (left_ right_ index count : nat) : outcome (list Z) :=
  match count with
  | O => Done bytes
  | S count =>
      temporary ← aread bytes (left_ + index);
      r ← aread bytes (right_ + index);
      bytes ← awrite bytes (left_ + index) r;
      bytes ← awrite bytes (right_ + index) temporary;
      swap_loop bytes left_ right_ (S index) count
  end.
Definition swap_elements (bytes : list Z) (left_ right_ size : nat) : outcome (list Z) :=
  swap_loop bytes left_ right_ 0 size.

Section sorting.
Context (compare : list Z → list Z → Z).

(** [if (child < count && compare(candidate, child) < 0) candidate = child;] *)
Definition better (bytes : list Z) (candidate child count size : nat) : outcome nat :=
  if decide (child < count)%nat then
    a ← element bytes candidate size; b ← element bytes child size;
    Done (if decide (compare a b < 0) then child else candidate)
  else Done candidate.

(** Every round descends at least one level, so [count] rounds are enough. *)
Fixpoint sift_down (fuel : nat) (bytes : list Z) (root count size : nat) : outcome (list Z) :=
  match fuel with
  | O => Fault Out_of_fuel
  | S fuel =>
      if decide ((count - 1) / 2 < root)%nat then Done bytes
      else
        let child := (root * 2 + 1)%nat in
        candidate ← better bytes root child count size;
        candidate ← better bytes candidate (child + 1) count size;
        if decide (candidate = root) then Done bytes
        else
          bytes ← swap_elements bytes (root * size) (candidate * size) size;
          sift_down fuel bytes candidate count size
  end.

Fixpoint build (bytes : list Z) (index count size : nat) : outcome (list Z) :=
  match index with
  | O => Done bytes
  | S index => bytes ← sift_down (S count) bytes index count size; build bytes index count size
  end.
(** [while (index > 1U) { index--; ... }] *)
Fixpoint extract (bytes : list Z) (index size : nat) : outcome (list Z) :=
  match index with
  | S (S _ as index) =>
      bytes ← swap_elements bytes 0 (index * size) size;
      bytes ← sift_down (S index) bytes 0 index size;
      extract bytes index size
  | _ => Done bytes
  end.
Definition qsort (bytes : list Z) (count size : nat) : outcome (list Z) :=
  if decide (count < 2 ∨ size = 0)%nat then Done bytes
  else
    bytes ← build bytes (count / 2) count size;
    extract bytes count size.
End sorting.

End Qsort.
