(* ===== verification/QsortTheory.v ===== *)
(** * [qsort] sorts

    The flat byte array is read as the list of its elements; on that list the
    code is a heap sort over the order the callback induces. *)
From S2P Require Import Prelude HeapOrder Qsort.
Import Qsort.
#[local] Open Scope Z_scope.

Section elements.
Context (size : nat) (Hsize : (0 < size)%nat).

Definition elements_ok (es : list (list Z)) : Prop := Forall (λ e, length e = size) es.

Lemma concat_length es : elements_ok es → length (concat es) = (length es * size)%nat.
Proof. induction 1 as [|e es He _ IH]; [done|]. simpl. rewrite length_app, IH, He. lia. Qed.
Lemma concat_split es i e :
  elements_ok es → es !! i = Some e →
  ∃ es1 es2, es = es1 ++ e :: es2 ∧ length es1 = i ∧ length (concat es1) = (i * size)%nat ∧
    elements_ok es1 ∧ elements_ok es2 ∧ length e = size.
Proof.
  intros Hok Hi. exists (take i es), (drop (S i) es). pose proof (lookup_lt_Some _ _ _ Hi).
  assert (Hl : length (take i es) = i) by (rewrite length_take; lia).
  split; [by rewrite take_drop_middle|]. split; [done|].
  assert (elements_ok (take i es)) by (by apply Forall_take).
  split; [by rewrite concat_length, Hl|]. split; [done|]. split; [by apply Forall_drop|].
  by eapply Forall_lookup_1 in Hok.
Qed.
Lemma element_spec es i e : elements_ok es → es !! i = Some e → element (concat es) i size = Done e.
Proof.
  intros Hok Hi. destruct (concat_split es i e Hok Hi) as (es1 & es2 & -> & Hl & Hc & _ & _ & He).
  unfold element. rewrite concat_app. simpl. rewrite decide_True by (rewrite !length_app; lia).
  rewrite drop_app_length' by done. by rewrite take_app_length'.
Qed.

Lemma lookup_concat es q m :
  elements_ok es → (m < size)%nat → concat es !! (q * size + m)%nat = es !! q ≫= lookup m.
Proof.
  intros Hok Hm. revert q. induction Hok as [|e es He _ IH]; intros q; [done|]. simpl.
  destruct q as [|q]; simpl.
  - by rewrite lookup_app_l by lia.
  - rewrite lookup_app_r by lia. rewrite <-IH. f_equal. lia.
Qed.

(** Exchanging two disjoint byte ranges. *)
Lemma swap_loop_spec l r count index bytes :
  (l + index + count ≤ length bytes)%nat → (r + index + count ≤ length bytes)%nat →
  (l + index + count ≤ r ∨ r + index + count ≤ l)%nat →
  ∃ bytes', swap_loop bytes l r index count = Done bytes' ∧ length bytes' = length bytes ∧
    ∀ k, bytes' !! k =
      if decide (l + index ≤ k < l + index + count)%nat then bytes !! (k - l + r)%nat
      else if decide (r + index ≤ k < r + index + count)%nat then bytes !! (k - r + l)%nat
      else bytes !! k.
Proof.
  revert index bytes. induction count as [|count IH]; intros index bytes Hl Hr Hdis; cbn [swap_loop].
  { exists bytes. split; [done|]. split; [done|]. intros k. by rewrite !decide_False by lia. }
  destruct (lookup_lt_is_Some_2 bytes (l + index)) as [x Hx]; [lia|].
  destruct (lookup_lt_is_Some_2 bytes (r + index)) as [y Hy]; [lia|].
  rewrite (aread_ok _ _ _ Hx). run. rewrite (aread_ok _ _ _ Hy). run.
  rewrite awrite_ok by lia. run. rewrite awrite_ok by (rewrite length_insert; lia). run.
  set (b1 := <[_:=x]> _).
  assert (Hb1 : ∀ k, b1 !! k = if decide (k = (r + index)%nat) then Some x
                else if decide (k = (l + index)%nat) then Some y else bytes !! k).
  { intros k. apply swapped_lookup; lia. }
  assert (Hlen : length b1 = length bytes) by (unfold b1; by rewrite !length_insert).
  destruct (IH (S index) b1) as (b2 & -> & Hl2 & Hb2); [lia..|].
  exists b2. split; [done|]. split; [lia|]. intros k. rewrite Hb2, !Hb1.
  repeat destruct (decide _); try lia; try done; try congruence.
  - by replace (k - r + l)%nat with (l + index)%nat by lia.
  - by replace (k - l + r)%nat with (r + index)%nat by lia.
Qed.
Lemma swap_elements_spec es i j x y :
  elements_ok es → es !! i = Some x → es !! j = Some y → i ≠ j →
  swap_elements (concat es) (i * size) (j * size) size = Done (concat (swapped es i j x y)) ∧
  elements_ok (swapped es i j x y).
Proof.
  intros Hok Hi Hj Hne. pose proof (lookup_lt_Some _ _ _ Hi). pose proof (lookup_lt_Some _ _ _ Hj).
  assert (Hok' : elements_ok (swapped es i j x y)).
  { unfold elements_ok, swapped in *. apply Forall_insert; [apply Forall_insert; [done|]|];
      by eapply Forall_lookup_1 in Hok. }
  split; [|done]. pose proof (concat_length es Hok) as Hlen.
  destruct (swap_loop_spec (i * size) (j * size) size 0 (concat es)) as (bytes & Hrun & Hlen' & Hb); [nia..|].
  unfold swap_elements. rewrite Hrun. f_equal. apply list_eq. intros k.
  pose proof (Nat.div_mod_eq k size) as Hk. pose proof (Nat.mod_upper_bound k size ltac:(lia)) as Hm.
  set (q := (k / size)%nat) in *. set (m := (k mod size)%nat) in *.
  assert (Hq : k = (q * size + m)%nat) by lia. rewrite Hb, !Nat.add_0_r.
  pose proof (lookup_concat (swapped es i j x y) q m Hok' Hm) as Hr. rewrite <-Hq in Hr.
  rewrite Hr, swapped_lookup by done.
  destruct (decide (i * size ≤ k < i * size + size)%nat).
  - assert (q = i) by nia. rewrite decide_False, decide_True by lia.
    replace (k - i * size + j * size)%nat with (j * size + m)%nat by nia.
    rewrite lookup_concat by done. by rewrite Hj.
  - destruct (decide (j * size ≤ k < j * size + size)%nat).
    + assert (q = j) by nia. rewrite decide_True by lia.
      replace (k - j * size + i * size)%nat with (i * size + m)%nat by nia.
      rewrite lookup_concat by done. by rewrite Hi.
    + rewrite !decide_False by nia. rewrite Hq, lookup_concat by done. done.
Qed.
End elements.

Section qsort_sorts.
Context (compare : list Z → list Z → Z) (size : nat) (Hsize : (0 < size)%nat).
(** What the C standard asks of the callback. *)
Context (compare_sign : ∀ a b, compare a b < 0 ↔ 0 < compare b a).
Context (compare_trans : ∀ a b c, compare a b ≤ 0 → compare b c ≤ 0 → compare a c ≤ 0).

Definition before (a b : list Z) : Prop := compare a b ≤ 0.
Lemma before_trans a b c : before a b → before b c → before a c.
Proof. apply compare_trans. Qed.
Lemma before_total a b : before a b ∨ before b a.
Proof. unfold before. pose proof (compare_sign b a). lia. Qed.
Lemma before_refl a : before a a.
Proof. by destruct (before_total a a). Qed.

(** The better of the candidate and a slot dominates both. *)
Lemma better_spec es c d n e :
  elements_ok size es → (n ≤ length es)%nat → es !! c = Some e →
  ∃ c' e', better compare (concat es) c d n size = Done c' ∧ es !! c' = Some e' ∧ before e e' ∧
    (∀ z, (d < n)%nat → es !! d = Some z → before z e') ∧ (c' = c ∨ (c' = d ∧ (d < n)%nat)).
Proof.
  intros Hok Hn He. unfold better. destruct (decide (d < n)%nat) as [Hd|Hd].
  2: { exists c, e. split_and!; [done|done|apply before_refl|done|by left]. }
  destruct (lookup_lt_is_Some_2 es d) as [z Hz]; [lia|].
  rewrite (element_spec size Hsize es c e) by done. run. rewrite (element_spec size Hsize es d z) by done. run.
  destruct (decide (compare e z < 0)) as [Hlt|Hge].
  - exists d, z. split_and!; [done|done|unfold before; lia| |by right]. intros z' _ Hz'. simplify_eq. apply before_refl.
  - exists c, e. split_and!; [done|done|apply before_refl| |by left]. intros z' _ Hz'. simplify_eq.
    unfold before. pose proof (compare_sign e z). lia.
Qed.

Lemma sift_down_spec (k r n fuel : nat) es :
  elements_ok size es → heap_hole before k r n es → (k ≤ r)%nat → (n ≤ length es)%nat → (r < n)%nat →
  (n - r < fuel)%nat →
  ∃ es', sift_down compare fuel (concat es) r n size = Done (concat es') ∧ elements_ok size es' ∧
    heap before k n es' ∧ take n es' ≡ₚ take n es ∧ drop n es' = drop n es.
Proof.
  revert r es. induction fuel as [|fuel IH]; intros r es Hok Hh Hk Hlen Hr Hf; [lia|].
  destruct (lookup_lt_is_Some_2 es r) as [x Hx]; [lia|]. cbn [sift_down].
  pose proof (Nat.div_mod_eq (n - 1) 2). pose proof (Nat.mod_upper_bound (n - 1) 2 ltac:(lia)).
  destruct (decide ((n - 1) / 2 < r)%nat) as [Hout|Hin].
  { exists es. split; [done|]. split; [done|]. split; [|done]. apply (hole_closed _ k r n es x Hh Hx).
    intros c y Hc Hcn. unfold child in Hc. lia. }
  destruct (better_spec es r (r * 2 + 1) n x) as (c1 & e1 & -> & He1 & Hx1 & Hd1 & Hc1); [done..|]. run.
  destruct (better_spec es c1 (r * 2 + 1 + 1) n e1) as (c & y & -> & Hy & H12 & Hd2 & Hc2); [done..|]. run.
  assert (Hmax : ∀ d z, child r d → (d < n)%nat → es !! d = Some z → before z y).
  { intros d z [->| ->] Hd Hz.
    - apply (before_trans _ e1); [|done]. replace (2 * r + 1)%nat with (r * 2 + 1)%nat in * by lia. by apply Hd1.
    - replace (2 * r + 2)%nat with (r * 2 + 1 + 1)%nat in * by lia. by apply Hd2. }
  destruct (decide (c = r)) as [->|Hne].
  - simplify_eq. exists es. split; [done|]. split; [done|]. split; [|done]. by apply (hole_closed _ k r n es x Hh).
  - assert (Hchild : child r c ∧ (c < n)%nat) by (unfold child; lia). destruct Hchild as [Hchild Hcn].
    assert (Hrc : (r < c)%nat) by (unfold child in Hchild; lia).
    destruct (swap_elements_spec size Hsize es r c x y) as [-> Hok']; [done..|lia|]. run.
    destruct (IH c (swapped es r c x y)) as (es' & -> & Hok2 & Hh' & Hp & Hd); [done| |lia|by rewrite swapped_length|lia|lia|].
    { apply hole_down; try done. by apply (before_trans _ e1). }
    exists es'. split; [done|]. split; [done|]. split; [done|]. split.
    + rewrite Hp, swapped_take by lia. apply swapped_perm; [by rewrite lookup_take_lt by lia..|lia].
    + by rewrite Hd, swapped_drop by lia.
Qed.

Lemma build_spec (i n : nat) es :
  elements_ok size es → heap before i n es → n = length es → (i ≤ n)%nat →
  ∃ es', build compare (concat es) i n size = Done (concat es') ∧ elements_ok size es' ∧
    heap before 0 n es' ∧ es' ≡ₚ es.
Proof.
  revert es. induction i as [|i IH]; intros es Hok Hh Hn Hi; [by exists es|]. cbn [build].
  destruct (sift_down_spec i i n (S n) es) as (es1 & -> & Hok1 & Hh1 & Hp1 & Hd1);
    [done|by apply heap_to_hole|lia|lia|lia|lia|]. run.
  assert (Hp : es1 ≡ₚ es) by (rewrite <-(take_drop n es1), <-(take_drop n es); by rewrite Hp1, Hd1).
  destruct (IH es1 Hok1 Hh1) as (es' & -> & ? & ? & Hp'); [by rewrite Hp|lia|].
  exists es'. split_and!; [done..|]. by rewrite Hp'.
Qed.
Lemma extract_step bytes n :
  extract compare bytes (S (S n)) size =
    (bytes ← swap_elements bytes 0 (S n * size) size;
     bytes ← sift_down compare (S (S n)) bytes 0 (S n) size; extract compare bytes (S n) size).
Proof. done. Qed.
Lemma extract_spec (n : nat) es :
  elements_ok size es → sorting before n es → (n ≤ length es)%nat → (0 < n)%nat →
  ∃ es', extract compare (concat es) n size = Done (concat es') ∧ StronglySorted before es' ∧ es' ≡ₚ es.
Proof.
  revert es. induction n as [|n IH]; intros es Hok Hs Hn H0; [lia|].
  destruct n as [|n]; [exists es; split; [done|]; split; [by apply sorting_done|done]|].
  destruct (lookup_lt_is_Some_2 es 0) as [x Hx]; [lia|].
  destruct (lookup_lt_is_Some_2 es (S n)) as [y Hy]; [lia|].
  rewrite extract_step. destruct (swap_elements_spec size Hsize es 0 (S n) x y) as [Hrun Hok']; [done..|].
  rewrite Nat.mul_0_l in Hrun. rewrite Hrun. run.
  destruct (sorting_extract before before_trans before_total n es (swapped es 0 (S n) x y) x y Hs Hn Hx Hy
    eq_refl) as (Hh & Ht & Hb).
  destruct (sift_down_spec 0 0 (S n) (S (S n)) (swapped es 0 (S n) x y)) as (es1 & -> & Hok1 & Hh1 & Hp1 & Hd1);
    [done|done|lia|rewrite swapped_length; lia|lia|lia|]. run.
  assert (Hp : es1 ≡ₚ es).
  { rewrite <-(swapped_perm es 0 (S n) x y) by done.
    rewrite <-(take_drop (S n) es1), <-(take_drop (S n) (swapped _ _ _ _ _)). by rewrite Hp1, Hd1. }
  destruct (IH es1 Hok1) as (es' & -> & ? & Hp'); [|rewrite Hp; lia|lia|].
  - by apply (sorting_reheaped _ _ (swapped es 0 (S n) x y)).
  - exists es'. split; [done|]. split; [done|]. by rewrite Hp'.
Qed.

(** C33: for elements of any size and any callback that is a consistent order,
    [qsort] terminates, touches no byte outside the array, and leaves the same
    elements, each with its multiplicity and its bytes intact, in ascending
    order. *)
Theorem qsort_correct es :
  elements_ok size es →
  ∃ es', qsort compare (concat es) (length es) size = Done (concat es') ∧
    es' ≡ₚ es ∧ StronglySorted before es'.
Proof.
  intros Hok. unfold qsort. destruct (decide (length es < 2 ∨ size = 0)%nat) as [Hsmall|Hbig].
  { exists es. split; [done|]. split; [done|]. destruct es as [|a [|b es]]; simpl in Hsmall; [constructor| |lia].
    constructor; constructor. }
  pose proof (Nat.div_mod_eq (length es) 2). pose proof (Nat.mod_upper_bound (length es) 2 ltac:(lia)).
  destruct (build_spec (length es / 2) (length es) es) as (es1 & -> & Hok1 & Hh1 & Hp1);
    [done|apply heap_half; lia|done|lia|]. run.
  assert (Hl : length es1 = length es) by (by rewrite Hp1).
  destruct (extract_spec (length es) es1) as (es' & -> & Hs & Hp); [done| |lia|lia|].
  { rewrite <-Hl. apply sorting_start. by rewrite Hl. }
  exists es'. split; [done|]. split; [by rewrite Hp|done].
Qed.
End qsort_sorts.

(** Pairs of bytes ordered by the first byte of each. *)
Definition compare_first (a b : list Z) : Z := nth 0 a 0 - nth 0 b 0.
Lemma qsort_correct_witness :
  (∃ es', qsort compare_first (concat [[9; 1]; [3; 2]; [7; 3]; [3; 4]; [0; 5]]) 5 2 = Done (concat es') ∧
    es' ≡ₚ [[9; 1]; [3; 2]; [7; 3]; [3; 4]; [0; 5]] ∧ StronglySorted (before compare_first) es') ∧
  (∃ bytes, qsort compare_first [9; 1; 3; 2; 7; 3; 3; 4; 0; 5] 5 2 = Done bytes ∧ nth 8 bytes 0 = 9).
Proof.
  split; [|eexists; split; by vm_compute].
  apply (qsort_correct compare_first 2); [lia|unfold compare_first; lia|unfold compare_first; lia|].
  repeat constructor.
Defined.
