(* ===== verification/Pid.v ===== *)
(** * Process identities ([kernel/pid.c])

    The number allocator is a bitmap with a cursor.  The registry threads the
    published identities into hash chains and the retired ones into a list, and
    every identity heads one doubly linked member list per role; all of these
    are real pointers between the objects of [world].  A null pointer is 0. *)
From S2P Require Import Prelude.
#[local] Open Scope Z_scope.

Module Pid.

Inductive kernel_pid_status :=
  | KERNEL_PID_STATUS_OK | KERNEL_PID_STATUS_INVALID | KERNEL_PID_STATUS_EXHAUSTED
  | KERNEL_PID_STATUS_NOT_ALLOCATED | KERNEL_PID_STATUS_STATE.
#[export] Instance kernel_pid_status_eq_dec : EqDecision kernel_pid_status.
Proof. solve_decision. Defined.

(** ** Numbers *)

(** [bitmap] is the storage the allocator points to, [None] a null pointer. *)
Record kernel_pid_allocator := mk_allocator {
  bitmap : option (list Z);
  limit : Z; cursor : Z; allocated : Z; initialized : Z;
}.
Definition KERNEL_PID_ALLOCATOR_INITIALIZED : Z := 0x50494441.
Definition KERNEL_PID_BITMAP_WORDS (n : Z) : Z := u32 (n + 63) / 64.

Definition valid_allocator (a : kernel_pid_allocator) : bool :=
  bool_decide (a.(initialized) = KERNEL_PID_ALLOCATOR_INITIALIZED ∧ is_Some a.(bitmap) ∧
    a.(limit) ≠ 0 ∧ a.(limit) ≤ INT32_MAX ∧ a.(cursor) < a.(limit) ∧ a.(allocated) ≤ a.(limit)).
Definition pid_mask (index : Z) : Z := Z.shiftl 1 (Z.land index 63).

Fixpoint clear_words (words : list Z) (index : nat) (count : nat) : outcome (list Z) :=
  match count with
  | O => Done words
  | S count => words ← awrite words index 0; clear_words words (S index) count
  end.
Definition kernel_pid_allocator_init (a : kernel_pid_allocator) (storage : option (list Z)) (lim : Z)
    : outcome (kernel_pid_status * kernel_pid_allocator) :=
  match storage with
  | None => Done (KERNEL_PID_STATUS_INVALID, a)
  | Some words =>
      if decide (lim = 0 ∨ INT32_MAX < lim) then Done (KERNEL_PID_STATUS_INVALID, a)
      else if decide (a.(initialized) ≠ 0 ∨ is_Some a.(bitmap) ∨ a.(limit) ≠ 0 ∨ a.(cursor) ≠ 0 ∨
                      a.(allocated) ≠ 0)
      then Done (KERNEL_PID_STATUS_STATE, a)
      else
        words ← clear_words words 0 (Z.to_nat (KERNEL_PID_BITMAP_WORDS lim));
        Done (KERNEL_PID_STATUS_OK, mk_allocator (Some words) lim 0 0 KERNEL_PID_ALLOCATOR_INITIALIZED)
  end.

(** The words behind [allocator->bitmap]; dereferencing null is a fault. *)
Definition words_of (a : kernel_pid_allocator) : outcome (list Z) :=
  match a.(bitmap) with Some words => Done words | None => Fault Out_of_bounds end.

(** [for (scanned...)]: [count] is [limit - scanned]; the index found, if any. *)
Fixpoint allocate_scan (a : kernel_pid_allocator) (words : list Z) (scanned : Z) (count : nat)
    : outcome (option Z) :=
  match count with
  | O => Done None
  | S count =>
      let index := u32 (a.(cursor) + scanned) in
      let index := if decide (a.(limit) ≤ index) then u32 (index - a.(limit)) else index in
      w ← aread words (Z.to_nat (Z.shiftr index 6));
      if decide (Z.land w (pid_mask index) ≠ 0) then allocate_scan a words (scanned + 1) count
      else Done (Some index)
  end.
Definition kernel_pid_allocate (a : kernel_pid_allocator)
    : outcome (kernel_pid_status * kernel_pid_allocator * Z) :=
  if valid_allocator a then
    if decide (a.(allocated) = a.(limit)) then Done (KERNEL_PID_STATUS_EXHAUSTED, a, 0)
    else
      words ← words_of a;
      found ← allocate_scan a words 0 (Z.to_nat a.(limit));
      match found with
      | None => Done (KERNEL_PID_STATUS_STATE, a, 0)
      | Some index =>
          w ← aread words (Z.to_nat (Z.shiftr index 6));
          words ← awrite words (Z.to_nat (Z.shiftr index 6)) (Z.lor w (pid_mask index));
          let cur := u32 (index + 1) in
          Done (KERNEL_PID_STATUS_OK,
                mk_allocator (Some words) a.(limit) (if decide (cur = a.(limit)) then 0 else cur)
                  (u32 (a.(allocated) + 1)) a.(initialized),
                index + 1)
      end
  else Done (KERNEL_PID_STATUS_STATE, a, 0).
Definition kernel_pid_release (a : kernel_pid_allocator) (pid : Z)
    : outcome (kernel_pid_status * kernel_pid_allocator) :=
  if decide (pid ≤ 0) then Done (KERNEL_PID_STATUS_INVALID, a)
  else if valid_allocator a then
    let index := u32 (pid - 1) in
    if decide (a.(limit) ≤ index) then Done (KERNEL_PID_STATUS_INVALID, a)
    else
      words ← words_of a;
      let word := Z.to_nat (Z.shiftr index 6) in
      w ← aread words word;
      if decide (Z.land w (pid_mask index) = 0) then Done (KERNEL_PID_STATUS_NOT_ALLOCATED, a)
      else if decide (a.(allocated) = 0) then Done (KERNEL_PID_STATUS_STATE, a)
      else
        words ← awrite words word (Z.land w (Z.lnot (pid_mask index)));
        Done (KERNEL_PID_STATUS_OK,
              mk_allocator (Some words) a.(limit)
                (if decide (index < a.(cursor)) then index else a.(cursor))
                (a.(allocated) - 1) a.(initialized))
  else Done (KERNEL_PID_STATUS_STATE, a).

(** ** Identities *)
Definition KERNEL_PID_ROLES : Z := 4.
Definition KERNEL_PID_BUCKETS : Z := 256.
Definition KERNEL_PID_GENERATION_MAX : Z := Z.shiftr UINT64_MAX 30.

Record kernel_pid_member := mk_member {
  identity : Z; previous : Z; next : Z; task : Z; role : Z;
}.
Record kernel_pid := mk_pid {
  number : Z; references : Z; generation : Z; published : Z;
  registry : Z; hash_next : Z; members : list Z;
}.
(** The registry, at [address], with the objects that point into it. *)
Record world := mk_world {
  address : Z;
  numbers : kernel_pid_allocator;
  buckets : list Z;
  retired : Z;
  next_generation : Z;
  pids : gmap Z kernel_pid;
  mems : gmap Z kernel_pid_member;
}.

Definition set_numbers (w : world) (a : kernel_pid_allocator) : world :=
  mk_world w.(address) a w.(buckets) w.(retired) w.(next_generation) w.(pids) w.(mems).
Definition set_buckets (w : world) (b : list Z) : world :=
  mk_world w.(address) w.(numbers) b w.(retired) w.(next_generation) w.(pids) w.(mems).
Definition set_retired (w : world) (p : Z) : world :=
  mk_world w.(address) w.(numbers) w.(buckets) p w.(next_generation) w.(pids) w.(mems).
Definition set_next_generation (w : world) (g : Z) : world :=
  mk_world w.(address) w.(numbers) w.(buckets) w.(retired) g w.(pids) w.(mems).
Definition set_pid (w : world) (p : Z) (r : kernel_pid) : world :=
  mk_world w.(address) w.(numbers) w.(buckets) w.(retired) w.(next_generation) (<[p := r]> w.(pids)) w.(mems).
Definition set_mem (w : world) (m : Z) (r : kernel_pid_member) : world :=
  mk_world w.(address) w.(numbers) w.(buckets) w.(retired) w.(next_generation) w.(pids) (<[m := r]> w.(mems)).
Definition with_references (r : kernel_pid) (n : Z) : kernel_pid :=
  mk_pid r.(number) n r.(generation) r.(published) r.(registry) r.(hash_next) r.(members).
Definition with_published (r : kernel_pid) (n : Z) : kernel_pid :=
  mk_pid r.(number) r.(references) r.(generation) n r.(registry) r.(hash_next) r.(members).
Definition with_registry (r : kernel_pid) (n : Z) : kernel_pid :=
  mk_pid r.(number) r.(references) r.(generation) r.(published) n r.(hash_next) r.(members).
Definition with_hash_next (r : kernel_pid) (n : Z) : kernel_pid :=
  mk_pid r.(number) r.(references) r.(generation) r.(published) r.(registry) n r.(members).
Definition with_members (r : kernel_pid) (l : list Z) : kernel_pid :=
  mk_pid r.(number) r.(references) r.(generation) r.(published) r.(registry) r.(hash_next) l.
Definition with_previous (m : kernel_pid_member) (p : Z) : kernel_pid_member :=
  mk_member m.(identity) p m.(next) m.(task) m.(role).
Definition with_next (m : kernel_pid_member) (p : Z) : kernel_pid_member :=
  mk_member m.(identity) m.(previous) p m.(task) m.(role).

Definition load_pid (w : world) (p : Z) : outcome kernel_pid :=
  match w.(pids) !! p with Some r => Done r | None => Fault Out_of_bounds end.
Definition load_mem (w : world) (m : Z) : outcome kernel_pid_member :=
  match w.(mems) !! m with Some r => Done r | None => Fault Out_of_bounds end.
(** Following [identity->registry]: the only registry is the one at [address]. *)
Definition at_registry (w : world) (p : Z) : outcome unit :=
  if decide (p = w.(address)) then Done tt else Fault Out_of_bounds.
Definition bucket_of (n : Z) : nat := Z.to_nat (u32 n mod KERNEL_PID_BUCKETS).

(** Every object is on a chain at most once, so their number bounds the walk. *)
Fixpoint find_loop (fuel : nat) (w : world) (id n : Z) : outcome Z :=
  match fuel with
  | O => Fault Out_of_fuel
  | S fuel =>
      if decide (id = 0) then Done 0
      else
        r ← load_pid w id;
        if decide (r.(number) = n) then Done id else find_loop fuel w r.(hash_next) n
  end.
Definition kernel_pid_find (w : world) (n : Z) : outcome Z :=
  if decide (n ≤ 0) then Done 0
  else
    head ← aread w.(buckets) (bucket_of n);
    find_loop (S (size w.(pids))) w head n.

(** [while ((low & 1) == 0) { low >>= 1; bit++; }] *)
Fixpoint lowest_bit (fuel : nat) (low bit : Z) : outcome Z :=
  match fuel with
  | O => Fault Out_of_fuel
  | S fuel => if decide (Z.land low 1 = 0) then lowest_bit fuel (Z.shiftr low 1) (bit + 1) else Done bit
  end.
(** [while (bits) ...]: [inl] is the early return. *)
Fixpoint published_in_word (fuel : nat) (w : world) (word bits : Z) : outcome (Z + unit) :=
  match fuel with
  | O => Fault Out_of_fuel
  | S fuel =>
      if decide (bits = 0) then Done (inr tt)
      else
        bit ← lowest_bit 64 bits 0;
        let index := u32 (u32 (Z.shiftl word 6) + bit) in
        if decide (w.(numbers).(limit) ≤ index) then Done (inl 0)
        else
          id ← kernel_pid_find w (index + 1);
          if decide (id ≠ 0) then Done (inl id)
          else published_in_word fuel w word (Z.land bits (u64 (bits - 1)))
  end.
Fixpoint published_from (count : nat) (w : world) (words : list Z) (word bits : Z) : outcome Z :=
  match count with
  | O => Fault Out_of_fuel
  | S count =>
      r ← published_in_word 65 w word bits;
      match r with
      | inl id => Done id
      | inr _ =>
          let word := u32 (word + 1) in
          if decide (KERNEL_PID_BITMAP_WORDS w.(numbers).(limit) ≤ word) then Done 0
          else bits ← aread words (Z.to_nat word); published_from count w words word bits
      end
  end.
Definition kernel_pid_next_published (w : world) (after : Z) : outcome Z :=
  if decide (valid_allocator w.(numbers) = false ∨ after < 0 ∨ w.(numbers).(limit) ≤ u32 after) then Done 0
  else
    words ← words_of w.(numbers);
    let word := Z.shiftr (u32 after) 6 in
    b ← aread words (Z.to_nat word);
    published_from (Z.to_nat (KERNEL_PID_BITMAP_WORDS w.(numbers).(limit))) w words word
      (Z.land b (u64 (Z.shiftl UINT64_MAX (Z.land (u32 after) 63)))).

Definition kernel_pid_reserve (w : world) (prepared : Z) : outcome (kernel_pid_status * world) :=
  if decide (prepared = 0) then Done (KERNEL_PID_STATUS_STATE, w)
  else
    r ← load_pid w prepared;
    if decide (r.(registry) ≠ 0 ∨ r.(published) ≠ 0 ∨ w.(next_generation) = 0)
    then Done (KERNEL_PID_STATUS_STATE, w)
    else if decide (KERNEL_PID_GENERATION_MAX < w.(next_generation))
    then Done (KERNEL_PID_STATUS_EXHAUSTED, w)
    else
      '(status, a, n) ← kernel_pid_allocate w.(numbers);
      let w := set_numbers w a in
      if decide (status ≠ KERNEL_PID_STATUS_OK) then Done (status, w)
      else
        let g := w.(next_generation) in
        let w := set_next_generation w (g + 1) in
        Done (KERNEL_PID_STATUS_OK,
              set_pid w prepared (mk_pid n 1 g r.(published) w.(address) r.(hash_next) r.(members))).

Definition kernel_pid_publish_reserved (w : world) (prepared : Z) : outcome (kernel_pid_status * world) :=
  if decide (prepared = 0) then Done (KERNEL_PID_STATUS_STATE, w)
  else
    r ← load_pid w prepared;
    if decide (r.(registry) = 0 ∨ r.(references) = 0 ∨ r.(published) ≠ 0)
    then Done (KERNEL_PID_STATUS_STATE, w)
    else
      _ ← at_registry w r.(registry);
      found ← kernel_pid_find w r.(number);
      _ ← trap_if (found ≠ 0 ∨ r.(hash_next) ≠ 0);
      head ← aread w.(buckets) (bucket_of r.(number));
      let w := set_pid w prepared (with_published (with_hash_next r head) 1) in
      b ← awrite w.(buckets) (bucket_of r.(number)) prepared;
      Done (KERNEL_PID_STATUS_OK, set_buckets w b).

Definition kernel_pid_publish (w : world) (prepared : Z) : outcome (kernel_pid_status * world) :=
  '(status, w) ← kernel_pid_reserve w prepared;
  if decide (status ≠ KERNEL_PID_STATUS_OK) then Done (status, w)
  else kernel_pid_publish_reserved w prepared.

Definition kernel_pid_get (w : world) (p : Z) : outcome world :=
  _ ← trap_if (p = 0);
  r ← load_pid w p;
  _ ← trap_if (r.(registry) = 0 ∨ 2 < r.(published) ∨ r.(references) = 0 ∨ r.(references) = UINT32_MAX);
  Done (set_pid w p (with_references r (r.(references) + 1))).

(** The slot [*link] denotes: the bucket itself or a predecessor's [hash_next]. *)
Inductive link := Bucket | Hash_next (p : Z).
Fixpoint find_link (fuel : nat) (w : world) (at_ : link) (value p : Z) : outcome (link * Z) :=
  match fuel with
  | O => Fault Out_of_fuel
  | S fuel =>
      if decide (value ≠ 0 ∧ value ≠ p) then
        r ← load_pid w value; find_link fuel w (Hash_next value) r.(hash_next) p
      else Done (at_, value)
  end.
Definition write_link (w : world) (bucket : nat) (at_ : link) (value : Z) : outcome world :=
  match at_ with
  | Bucket => b ← awrite w.(buckets) bucket value; Done (set_buckets w b)
  | Hash_next q => r ← load_pid w q; Done (set_pid w q (with_hash_next r value))
  end.
Definition detach_number (w : world) (p : Z) : outcome world :=
  r ← load_pid w p;
  _ ← at_registry w r.(registry);
  w ← (if decide (r.(published) = 1) then
         head ← aread w.(buckets) (bucket_of r.(number));
         '(at_, value) ← find_link (S (size w.(pids))) w Bucket head p;
         _ ← trap_if (value = 0);
         write_link w (bucket_of r.(number)) at_ r.(hash_next)
       else
         _ ← trap_if (r.(published) ≠ 0 ∨ r.(hash_next) ≠ 0);
         Done w);
  '(status, a) ← kernel_pid_release w.(numbers) r.(number);
  _ ← trap_if (status ≠ KERNEL_PID_STATUS_OK);
  let w := set_numbers w a in
  r ← load_pid w p;
  Done (set_pid w p (with_published (with_hash_next r 0) 2)).

Fixpoint members_empty (l : list Z) (role_ : nat) (count : nat) : outcome unit :=
  match count with
  | O => Done tt
  | S count => m ← aread l role_; _ ← trap_if (m ≠ 0); members_empty l (S role_) count
  end.
Definition kernel_pid_put (w : world) (p : Z) : outcome world :=
  _ ← trap_if (p = 0);
  r ← load_pid w p;
  _ ← trap_if (r.(registry) = 0 ∨ 2 < r.(published) ∨ r.(references) = 0);
  let w := set_pid w p (with_references r (r.(references) - 1)) in
  if decide (r.(references) - 1 ≠ 0) then Done w
  else
    _ ← members_empty r.(members) 0 (Z.to_nat KERNEL_PID_ROLES);
    w ← (if decide (r.(published) ≠ 2) then detach_number w p else Done w);
    _ ← at_registry w r.(registry);
    r ← load_pid w p;
    let w := set_pid w p (with_hash_next (with_registry (with_published r 3) 0) w.(retired)) in
    Done (set_retired w p).

(** [member->next->previous = p], when there is a next member. *)
Definition store_previous (w : world) (m p : Z) : outcome world :=
  if decide (m ≠ 0) then x ← load_mem w m; Done (set_mem w m (with_previous x p)) else Done w.
(** [member->previous->next = p], or the head of the role's list. *)
Definition store_next (w : world) (m p role_ x : Z) : outcome world :=
  if decide (m ≠ 0) then y ← load_mem w m; Done (set_mem w m (with_next y x))
  else
    r ← load_pid w p;
    l ← awrite r.(members) (Z.to_nat role_) x;
    Done (set_pid w p (with_members r l)).

Definition kernel_pid_attach (w : world) (member p role_ task_ : Z) : outcome world :=
  _ ← trap_if (member = 0);
  x ← load_mem w member;
  _ ← trap_if (x.(identity) ≠ 0 ∨ task_ = 0 ∨ KERNEL_PID_ROLES ≤ role_ ∨ p = 0);
  r ← load_pid w p;
  _ ← trap_if (1 < r.(published));
  w ← kernel_pid_get w p;
  r ← load_pid w p;
  head ← aread r.(members) (Z.to_nat role_);
  let w := set_mem w member (mk_member p 0 head task_ role_) in
  w ← store_previous w head member;
  r ← load_pid w p;
  l ← awrite r.(members) (Z.to_nat role_) member;
  Done (set_pid w p (with_members r l)).

(** [while (role < KERNEL_PID_ROLES && !members[role]) role++] *)
Fixpoint first_role (l : list Z) (role_ : nat) (count : nat) : outcome nat :=
  match count with
  | O => Done role_
  | S count => m ← aread l role_; if decide (m = 0) then first_role l (S role_) count else Done role_
  end.
Definition kernel_pid_detach (w : world) (member : Z) : outcome world :=
  _ ← trap_if (member = 0);
  x ← load_mem w member;
  _ ← trap_if (x.(identity) = 0);
  let p := x.(identity) in
  w ← store_next w x.(previous) p x.(role) x.(next);
  w ← store_previous w x.(next) x.(previous);
  let w := set_mem w member (mk_member 0 0 0 0 x.(role)) in
  r ← load_pid w p;
  w ← (if decide (r.(published) = 1) then
         n ← first_role r.(members) 0 (Z.to_nat KERNEL_PID_ROLES);
         if decide (Z.of_nat n = KERNEL_PID_ROLES) then detach_number w p else Done w
       else Done w);
  kernel_pid_put w p.

Definition kernel_pid_transfer (w : world) (old replacement task_ : Z) : outcome world :=
  _ ← trap_if (old = 0);
  x ← load_mem w old;
  _ ← trap_if (x.(identity) = 0 ∨ replacement = 0);
  y ← load_mem w replacement;
  _ ← trap_if (y.(identity) ≠ 0 ∨ task_ = 0);
  let w := set_mem w replacement (mk_member x.(identity) x.(previous) x.(next) task_ x.(role)) in
  w ← store_next w x.(previous) x.(identity) x.(role) replacement;
  w ← store_previous w x.(next) replacement;
  Done (set_mem w old (mk_member 0 0 0 0 x.(role))).

Definition kernel_pid_take_retired (w : world) : outcome (Z * world) :=
  let p := w.(retired) in
  if decide (p ≠ 0) then
    r ← load_pid w p;
    let w := set_retired w r.(hash_next) in
    let w := set_pid w p (with_hash_next r 0) in
    _ ← trap_if (r.(published) ≠ 3);
    Done (p, set_pid w p (with_published (with_hash_next r 0) 0))
  else Done (p, w).

End Pid.
