(* ===== verification/PidRegistryTheory.v ===== *)
(** * Numbers and the registry of process identities *)
From S2P Require Import Prelude Pid.
Import Pid.
#[local] Open Scope Z_scope.

(** Whether number [i + 1] is taken. *)
Definition taken (words : list Z) (i : Z) : bool :=
  match words !! Z.to_nat (i / 64) with Some w => Z.testbit w (i mod 64) | None => false end.
Definition taken_below (words : list Z) (lim : Z) : list Z :=
  filter (λ i, taken words i = true) (seqZ 0 lim).

Record numbers_ok (a : kernel_pid_allocator) (words : list Z) : Prop := {
  nu_words : a.(bitmap) = Some words;
  nu_init : a.(initialized) = KERNEL_PID_ALLOCATOR_INITIALIZED;
  nu_limit : 0 < a.(limit) ≤ INT32_MAX;
  nu_cursor : 0 ≤ a.(cursor) < a.(limit);
  nu_length : Z.of_nat (length words) = KERNEL_PID_BITMAP_WORDS a.(limit);
  nu_count : a.(allocated) = Z.of_nat (length (taken_below words a.(limit)));
  nu_word : Forall is_u64 words;
}.

(** ** Bits *)
Lemma words_bound lim : 0 < lim ≤ INT32_MAX → KERNEL_PID_BITMAP_WORDS lim = (lim + 63) / 64.
Proof. intros H. unfold KERNEL_PID_BITMAP_WORDS. rewrite u32_small by mlia. done. Qed.
Lemma word_exists a words i : numbers_ok a words → 0 ≤ i < a.(limit) → ∃ w, words !! Z.to_nat (i / 64) = Some w.
Proof.
  intros Hok Hi. apply lookup_lt_is_Some_2. pose proof (nu_length _ _ Hok) as Hl.
  rewrite words_bound in Hl by apply Hok.
  pose proof (Z.div_mod i 64). pose proof (Z.mod_pos_bound i 64).
  pose proof (Z.div_mod (limit a + 63) 64). pose proof (Z.mod_pos_bound (limit a + 63) 64). lia.
Qed.
Lemma index_word i : Z.shiftr i 6 = i / 64.
Proof. by rewrite Z.shiftr_div_pow2. Qed.
Lemma index_mask i : pid_mask i = Z.shiftl 1 (i mod 64).
Proof. unfold pid_mask. change 63 with (Z.ones 6). by rewrite Z.land_ones. Qed.
Lemma mask_test words w i :
  words !! Z.to_nat (i / 64) = Some w → Z.land w (pid_mask i) ≠ 0 ↔ taken words i = true.
Proof.
  intros Hw. rewrite index_mask, land_single by (pose proof (Z.mod_pos_bound i 64); lia).
  unfold taken. by rewrite Hw.
Qed.
Lemma same_slot i j : 0 ≤ i → 0 ≤ j → Z.to_nat (i / 64) = Z.to_nat (j / 64) → i mod 64 = j mod 64 → i = j.
Proof.
  intros Hi Hj Hd Hm. pose proof (Z.div_mod i 64). pose proof (Z.div_mod j 64).
  pose proof (Z.div_pos i 64). pose proof (Z.div_pos j 64). lia.
Qed.
(** Writing a word that differs in one bit changes one number. *)
Lemma taken_update words i w w' b :
  0 ≤ i → words !! Z.to_nat (i / 64) = Some w →
  (∀ k, 0 ≤ k → Z.testbit w' k = if decide (k = i mod 64) then b else Z.testbit w k) →
  ∀ j, 0 ≤ j → taken (<[Z.to_nat (i / 64) := w']> words) j = if decide (j = i) then b else taken words j.
Proof.
  intros Hi Hw Hbit j Hj. unfold taken. pose proof (Z.mod_pos_bound j 64).
  destruct (decide (Z.to_nat (j / 64) = Z.to_nat (i / 64))) as [He|Hne].
  - rewrite He, list_lookup_insert_eq, Hw by (by eapply lookup_lt_Some). rewrite Hbit by lia.
    destruct (decide (j mod 64 = i mod 64)) as [Hm|Hm].
    + rewrite decide_True; [done|]. by apply same_slot.
    + rewrite decide_False by congruence. done.
  - rewrite list_lookup_insert_ne by done. by rewrite decide_False by congruence.
Qed.
Lemma set_bit w i k : 0 ≤ k →
  Z.testbit (Z.lor w (pid_mask i)) k = if decide (k = i mod 64) then true else Z.testbit w k.
Proof.
  intros Hk. rewrite index_mask, Z.lor_spec, testbit_single by (pose proof (Z.mod_pos_bound i 64); lia).
  case_decide; [rewrite bool_decide_true by done; apply orb_true_r|].
  rewrite bool_decide_false by done. apply orb_false_r.
Qed.
Lemma clear_bit w i k : 0 ≤ k →
  Z.testbit (Z.land w (Z.lnot (pid_mask i))) k = if decide (k = i mod 64) then false else Z.testbit w k.
Proof.
  intros Hk. rewrite index_mask, Z.land_spec, Z.lnot_spec, testbit_single
    by (pose proof (Z.mod_pos_bound i 64); lia).
  case_decide; [rewrite bool_decide_true by done; apply andb_false_r|].
  rewrite bool_decide_false by done. apply andb_true_r.
Qed.

(** ** Counting *)
Lemma filter_update_length (P Q : Z → Prop) `{∀ x, Decision (P x)} `{∀ x, Decision (Q x)} (l : list Z) i :
  NoDup l → i ∈ l → ¬ P i → Q i → (∀ j, j ∈ l → j ≠ i → P j ↔ Q j) →
  length (filter Q l) = S (length (filter P l)).
Proof.
  intros Hnd. induction Hnd as [|x l Hx Hnd IH]; intros Hi HP HQ Heq; [by apply elem_of_nil in Hi|].
  rewrite !filter_cons. destruct (decide (x = i)) as [->|Hne].
  - rewrite decide_True, decide_False by done. simpl. f_equal. f_equal. symmetry.
    apply filter_ext_in. intros j Hj. apply Heq; [by right|]. by intros ->.
  - apply elem_of_cons in Hi as [?|Hi]; [done|].
    assert (IH' : length (filter Q l) = S (length (filter P l)))
      by (apply IH; try done; intros j Hj; apply Heq; by right).
    assert (P x ↔ Q x) by (apply Heq; [left|done]).
    destruct (decide (Q x)), (decide (P x)); simpl; try lia; tauto.
Qed.

Lemma count_update words words' lim i :
  0 ≤ i < lim → taken words i = false → (∀ j, 0 ≤ j → taken words' j = if decide (j = i) then true else taken words j) →
  Z.of_nat (length (taken_below words' lim)) = Z.of_nat (length (taken_below words lim)) + 1.
Proof.
  intros Hi Hf Hu. unfold taken_below.
  rewrite (filter_update_length (λ j, taken words j = true) (λ j, taken words' j = true) (seqZ 0 lim) i); [lia|..].
  - apply NoDup_seqZ.
  - apply elem_of_seqZ. lia.
  - by rewrite Hf.
  - rewrite Hu by lia. by rewrite decide_True.
  - intros j Hj%elem_of_seqZ Hne. rewrite Hu by lia. by rewrite decide_False.
Qed.
Lemma taken_below_full words lim :
  0 ≤ lim → Z.of_nat (length (taken_below words lim)) = lim ↔ ∀ i, 0 ≤ i < lim → taken words i = true.
Proof.
  intros Hl. unfold taken_below. split.
  - intros Hlen i Hi. assert (Hall : Forall (λ i, taken words i = true) (seqZ 0 lim)).
    { apply Forall_forall. intros j Hj. apply dec_stable. intros Hn.
      assert (length (filter (λ i, taken words i = true) (seqZ 0 lim)) < length (seqZ 0 lim))%nat.
      { apply length_filter_lt with j; done. }
      rewrite length_seqZ in *. lia. }
    rewrite Forall_forall in Hall. apply Hall, elem_of_seqZ. lia.
  - intros Hall. rewrite filter_all; [rewrite length_seqZ; lia|].
    apply Forall_forall. intros i Hi%elem_of_seqZ. apply Hall. lia.
Qed.
Lemma taken_below_le words lim : 0 ≤ lim → Z.of_nat (length (taken_below words lim)) ≤ lim.
Proof. intros Hl. unfold taken_below. pose proof (length_filter (λ i, taken words i = true) (seqZ 0 lim)). rewrite length_seqZ in *. lia. Qed.

Lemma numbers_valid a words : numbers_ok a words → valid_allocator a = true.
Proof.
  intros Hok. apply bool_decide_eq_true. pose proof (nu_limit _ _ Hok). pose proof (nu_cursor _ _ Hok).
  pose proof (nu_count _ _ Hok). pose proof (taken_below_le words (limit a)).
  split_and!; [apply Hok|rewrite (nu_words _ _ Hok); eauto|lia..].
Qed.

(** The index the scan looks at in round [s]. *)
Definition round (a : kernel_pid_allocator) (s : Z) : Z := (a.(cursor) + s) mod a.(limit).
Lemma round_index a words s : numbers_ok a words → 0 ≤ s < a.(limit) →
  (if decide (a.(limit) ≤ u32 (a.(cursor) + s)) then u32 (u32 (a.(cursor) + s) - a.(limit)) else u32 (a.(cursor) + s)) = round a s ∧
  0 ≤ round a s < a.(limit).
Proof.
  intros Hok Hs. pose proof (nu_limit _ _ Hok) as Hl. pose proof (nu_cursor _ _ Hok). unfold INT32_MAX in Hl.
  unfold round. split; [|apply Z.mod_pos_bound; lia]. rewrite !(u32_small (_ + _)) by mlia. destruct (decide _).
  - rewrite u32_small by mlia. apply Z.mod_unique with 1; lia.
  - symmetry. apply Z.mod_small. lia.
Qed.
Lemma round_onto a words i : numbers_ok a words → 0 ≤ i < a.(limit) → ∃ s, 0 ≤ s < a.(limit) ∧ round a s = i.
Proof.
  intros Hok Hi. pose proof (nu_limit _ _ Hok). pose proof (nu_cursor _ _ Hok).
  exists ((i - cursor a) mod limit a). split; [apply Z.mod_pos_bound; lia|]. unfold round.
  rewrite Zplus_mod_idemp_r. replace (cursor a + (i - cursor a)) with i by lia. by apply Z.mod_small.
Qed.

Lemma allocate_scan_spec a words count s :
  numbers_ok a words → 0 ≤ s → s + Z.of_nat count = a.(limit) →
  (∃ s', allocate_scan a words s count = Done (Some (round a s')) ∧ s ≤ s' < a.(limit) ∧
     taken words (round a s') = false ∧ ∀ t, s ≤ t < s' → taken words (round a t) = true) ∨
  (allocate_scan a words s count = Done None ∧ ∀ t, s ≤ t < a.(limit) → taken words (round a t) = true).
Proof.
  intros Hok. revert s. induction count as [|count IH]; intros s Hs Hc; cbn [allocate_scan].
  { right. split; [done|]. lia. }
  destruct (round_index a words s Hok) as [-> Hr]; [lia|]. rewrite index_word.
  destruct (word_exists a words (round a s) Hok Hr) as [w Hw]. rewrite (aread_ok _ _ _ Hw). run.
  destruct (decide (Z.land w _ ≠ 0)) as [Ht|Ht]; rewrite (mask_test words w _ Hw) in Ht.
  - destruct (IH (s + 1)) as [(s' & -> & Hs' & Hf & Ht')|[-> Hall]]; [lia..| |].
    + left. exists s'. split; [done|]. split; [lia|]. split; [done|]. intros t Hts.
      destruct (decide (t = s)) as [->|]; [done|apply Ht'; lia].
    + right. split; [done|]. intros t Hts. destruct (decide (t = s)) as [->|]; [done|apply Hall; lia].
  - left. exists s. split; [done|]. split; [lia|]. split; [by apply not_true_is_false|]. lia.
Qed.

(** ** Allocation and release *)

(** [words'] is [words] with number [i + 1] taken ([b = true]) or free. *)
Definition changed (words words' : list Z) (i : Z) (b : bool) : Prop :=
  ∀ j, 0 ≤ j → taken words' j = if decide (j = i) then b else taken words j.

Lemma update_ok a words i w w' b cur cnt :
  numbers_ok a words → 0 ≤ i < a.(limit) → words !! Z.to_nat (i / 64) = Some w → 0 ≤ w' →
  (∀ k, 0 ≤ k → Z.testbit w' k = if decide (k = i mod 64) then b else Z.testbit w k) →
  taken words i = negb b → 0 ≤ cur < a.(limit) → cnt = a.(allocated) + (if b then 1 else -1) →
  let words' := <[Z.to_nat (i / 64) := w']> words in
  numbers_ok (mk_allocator (Some words') a.(limit) cur cnt a.(initialized)) words' ∧ changed words words' i b.
Proof.
  intros Hok Hi Hw H0 Hbit Hold Hcur Hcnt words'.
  assert (Hch : changed words words' i b) by (intros j Hj; apply (taken_update words i w); done || lia).
  split; [|done]. pose proof (nu_word _ _ Hok) as Hu.
  split; cbn; [done|apply Hok|apply Hok|done|unfold words'; rewrite length_insert; apply Hok| |].
  - rewrite Hcnt, (nu_count _ _ Hok). destruct b; simpl in Hold.
    + by rewrite (count_update words words' (limit a) i).
    + rewrite (count_update words' words (limit a) i); [lia|done| |].
      * rewrite Hch by lia. by rewrite decide_True.
      * intros j Hj. rewrite Hch by done. destruct (decide (j = i)) as [->|]; done.
  - apply Forall_insert; [done|]. eapply is_u64_update; [|done|done]. by eapply Forall_lookup_1.
Qed.
Lemma word_nonneg a words i w : numbers_ok a words → words !! i = Some w → 0 ≤ w.
Proof. intros Hok Hw. pose proof (Forall_lookup_1 _ _ _ _ (nu_word _ _ Hok) Hw) as [? _]. done. Qed.

Lemma allocate_run a words :
  numbers_ok a words →
  (kernel_pid_allocate a = Done (KERNEL_PID_STATUS_EXHAUSTED, a, 0) ∧
     ∀ i, 0 ≤ i < a.(limit) → taken words i = true) ∨
  ∃ s a' words', kernel_pid_allocate a = Done (KERNEL_PID_STATUS_OK, a', round a s + 1) ∧
    0 ≤ s < a.(limit) ∧ taken words (round a s) = false ∧
    (∀ t, 0 ≤ t < s → taken words (round a t) = true) ∧
    numbers_ok a' words' ∧ a'.(limit) = a.(limit) ∧ changed words words' (round a s) true.
Proof.
  intros Hok. unfold kernel_pid_allocate. rewrite (numbers_valid a words Hok).
  pose proof (nu_limit _ _ Hok) as Hl. pose proof (nu_cursor _ _ Hok) as Hcur.
  pose proof (taken_below_full words (limit a) ltac:(lia)) as Hfull. rewrite <-(nu_count _ _ Hok) in Hfull.
  destruct (decide (allocated a = limit a)) as [He|Hne]; [left; split; [done|by apply Hfull]|right].
  unfold words_of. rewrite (nu_words _ _ Hok). run.
  destruct (allocate_scan_spec a words (Z.to_nat (limit a)) 0 Hok) as [(s & -> & Hs & Hf & Hb)|[_ Hall]]; [lia..| |].
  2: { destruct Hne. apply Hfull. intros i Hi. destruct (round_onto a words i Hok Hi) as (t & Ht & <-). by apply Hall. }
  run. destruct (round_index a words s Hok Hs) as [_ Hr]. rewrite index_word.
  destruct (word_exists a words (round a s) Hok Hr) as [w Hw]. rewrite (aread_ok _ _ _ Hw). run.
  rewrite awrite_ok by (eapply lookup_lt_Some, Hw). run.
  rewrite u32_small by (unfold INT32_MAX in Hl; mlia). pose proof (nu_count _ _ Hok) as Hc.
  pose proof (taken_below_le words (limit a) ltac:(lia)). rewrite u32_small by (unfold INT32_MAX in Hl; mlia).
  set (cur := if decide _ then 0 else _).
  assert (Hcur' : 0 ≤ cur < limit a) by (unfold cur; destruct (decide _); lia).
  destruct (update_ok a words (round a s) w (Z.lor w (pid_mask (round a s))) true cur (allocated a + 1)) as [Hok' Hch];
    [done|done|done| |apply set_bit|done|done|done|].
  { apply Z.lor_nonneg. split; [by eapply word_nonneg|]. unfold pid_mask. rewrite Z.shiftl_1_l. apply Z.pow_nonneg. lia. }
  eexists s, _, _. split; [done|]. split; [done|]. split_and!; done.
Qed.

Lemma release_run a words n :
  numbers_ok a words → 0 < n ≤ a.(limit) →
  (taken words (n - 1) = false ∧ kernel_pid_release a n = Done (KERNEL_PID_STATUS_NOT_ALLOCATED, a)) ∨
  (taken words (n - 1) = true ∧ ∃ a' words', kernel_pid_release a n = Done (KERNEL_PID_STATUS_OK, a') ∧
     numbers_ok a' words' ∧ a'.(limit) = a.(limit) ∧ changed words words' (n - 1) false).
Proof.
  intros Hok Hn. unfold kernel_pid_release. rewrite (numbers_valid a words Hok).
  pose proof (nu_limit _ _ Hok) as Hl. pose proof (nu_cursor _ _ Hok) as Hcur. unfold INT32_MAX in Hl.
  rewrite decide_False by lia. rewrite u32_small by mlia. rewrite decide_False by lia.
  unfold words_of. rewrite (nu_words _ _ Hok). run. rewrite index_word.
  destruct (word_exists a words (n - 1) Hok) as [w Hw]; [lia|]. rewrite (aread_ok _ _ _ Hw). run.
  pose proof (mask_test words w (n - 1) Hw) as Hmask.
  destruct (decide (Z.land w _ = 0)) as [Hz|Hz].
  { left. split; [|done]. apply not_true_is_false. rewrite <-Hmask. by intros H. }
  right. apply Hmask in Hz. split; [done|].
  assert (Hpos : allocated a ≠ 0).
  { rewrite (nu_count _ _ Hok). intros H0.
    assert (Hin : n - 1 ∈ taken_below words (limit a)) by (apply list_elem_of_filter; split; [done|apply elem_of_seqZ; lia]).
    destruct (taken_below words (limit a)); [by apply elem_of_nil in Hin|done]. }
  rewrite decide_False by done. rewrite awrite_ok by (eapply lookup_lt_Some, Hw). run.
  set (cur := if decide _ then _ else _).
  assert (Hcur' : 0 ≤ cur < limit a) by (unfold cur; destruct (decide _); lia).
  destruct (update_ok a words (n - 1) w (Z.land w (Z.lnot (pid_mask (n - 1)))) false cur (allocated a - 1)) as [Hok' Hch];
    [done|lia|done| |apply clear_bit|done|done|done|].
  { apply Z.land_nonneg. left. by eapply word_nonneg. }
  eexists _, _. split; [done|]. by split_and!.
Qed.

(** C35: the allocator hands out the first free number at or after the cursor,
    wrapping at the limit; it refuses exactly when every number is taken; it
    marks that number and no other, and releasing it makes exactly it free
    again, so that the release of a free number is told apart.  No bitmap access
    leaves the storage and the internal-error status is never returned. *)
Theorem pid_allocate_exact a words :
  numbers_ok a words →
  ∃ status a' n, kernel_pid_allocate a = Done (status, a', n) ∧
    ((status = KERNEL_PID_STATUS_EXHAUSTED ∧ a' = a ∧ ∀ i, 0 ≤ i < a.(limit) → taken words i = true) ∨
     (status = KERNEL_PID_STATUS_OK ∧ ∃ s words', 0 ≤ s < a.(limit) ∧ n - 1 = round a s ∧
        taken words (n - 1) = false ∧ (∀ t, 0 ≤ t < s → taken words (round a t) = true) ∧
        numbers_ok a' words' ∧ changed words words' (n - 1) true ∧
        ∃ a'' words'', kernel_pid_release a' n = Done (KERNEL_PID_STATUS_OK, a'') ∧
          numbers_ok a'' words'' ∧ (∀ i, 0 ≤ i → taken words'' i = taken words i) ∧
          kernel_pid_release a'' n = Done (KERNEL_PID_STATUS_NOT_ALLOCATED, a''))).
Proof.
  intros Hok. destruct (allocate_run a words Hok) as [[-> Hall]|(s & a' & words' & -> & Hs & Hf & Hb & Hok' & Hl & Hch)].
  { eexists _, _, _. split; [done|]. by left. }
  eexists _, _, _. split; [done|]. right. split; [done|]. exists s, words'.
  destruct (round_index a words s Hok Hs) as [_ Hr]. replace (round a s + 1 - 1) with (round a s) by lia.
  split_and!; try done; try lia.
  destruct (release_run a' words' (round a s + 1) Hok') as [[Hn _]|(_ & a2 & words2 & -> & Hok2 & Hl2 & Hch2)]; [lia| |].
  { replace (round a s + 1 - 1) with (round a s) in Hn by lia. rewrite Hch, decide_True in Hn by (done || lia). done. }
  replace (round a s + 1 - 1) with (round a s) in Hch2 by lia.
  exists a2, words2. split; [done|]. split; [done|]. split.
  - intros i Hi. rewrite Hch2, Hch by done. by destruct (decide (i = round a s)) as [->|].
  - destruct (release_run a2 words2 (round a s + 1) Hok2) as [[_ ->]|[Ht _]]; [lia|done|].
    replace (round a s + 1 - 1) with (round a s) in Ht by lia. rewrite Hch2, decide_True in Ht by (done || lia). done.
Qed.

(** Numbers 1, 2, 70 of 70 are taken and the cursor is at the last one. *)
Definition demo_numbers : kernel_pid_allocator :=
  mk_allocator (Some [3; 32]) 70 69 3 KERNEL_PID_ALLOCATOR_INITIALIZED.
Lemma demo_numbers_ok : numbers_ok demo_numbers [3; 32].
Proof. split; try done. repeat constructor; done. Qed.
Lemma pid_allocate_exact_witness :
  (∃ status a' n, kernel_pid_allocate demo_numbers = Done (status, a', n) ∧ status = KERNEL_PID_STATUS_OK ∧ n = 3) ∧
  ∃ status a' n, kernel_pid_allocate demo_numbers = Done (status, a', n) ∧
    ((status = KERNEL_PID_STATUS_EXHAUSTED ∧ a' = demo_numbers ∧ ∀ i, 0 ≤ i < 70 → taken [3; 32] i = true) ∨
     (status = KERNEL_PID_STATUS_OK ∧ ∃ s, 0 ≤ s < 70 ∧ n - 1 = round demo_numbers s)).
Proof.
  split; [by eexists _, _, _; vm_compute|].
  destruct (pid_allocate_exact demo_numbers [3; 32] demo_numbers_ok) as (st & a' & n & Hrun & [H|(? & s & w & ? & ? & _)]).
  - exists st, a', n. split; [done|]. by left.
  - exists st, a', n. split; [done|]. right. split; [done|]. by exists s.
Defined.

(** ** The identity registry: invariant and lookups

    The invariant has five parts that depend on different fields: the numbers
    in use, the hash chains and the retired list, the life-cycle state of every
    identity, the member lists, and the reference counts.  An operation that
    leaves the fields of a part alone preserves that part by extensionality. *)
Import Pid.

(** The lists the pointers thread. *)
Record ghost := mk_ghost {
  g_chain : nat → list Z;
  g_retired : list Z;
  g_role : Z → nat → list Z;
}.

(** [p] starts the singly linked list [l]. *)
Fixpoint hchain (ps : gmap Z kernel_pid) (p : Z) (l : list Z) : Prop :=
  match l with
  | [] => p = 0
  | x :: l => p = x ∧ x ≠ 0 ∧ ∃ r, ps !! x = Some r ∧ hchain ps r.(hash_next) l
  end.
(** First and last pointer of a member list between [prev] and [nxt]. *)
Definition head_or (nxt : Z) (l : list Z) : Z := default nxt (head l).
Definition last_or (prev : Z) (l : list Z) : Z := default prev (last l).
(** The members [l] of one role are threaded between [prev] and [nxt]. *)
Fixpoint mseg (ms : gmap Z kernel_pid_member) (id rl prev : Z) (l : list Z) (nxt : Z) : Prop :=
  match l with
  | [] => True
  | x :: l => x ≠ 0 ∧ (∃ t, t ≠ 0 ∧ ms !! x = Some (mk_member id prev (head_or nxt l) t rl)) ∧
      mseg ms id rl x l nxt
  end.

(** The number an identity owns: from its reservation until it is detached. *)
Definition owned (addr : Z) (r : kernel_pid) : option Z :=
  if decide (r.(registry) = addr ∧ r.(published) ≤ 1) then Some r.(number) else None.
Record numbers_inv (addr gen : Z) (a : kernel_pid_allocator) (ps : gmap Z kernel_pid) : Prop := {
  n_address : addr ≠ 0;
  n_generation : 1 ≤ gen ≤ KERNEL_PID_GENERATION_MAX + 1;
  n_words : ∃ words, numbers_ok a words ∧ ∀ n, 1 ≤ n ≤ a.(limit) →
    taken words (n - 1) = true ↔ ∃ p, (ps !! p ≫= owned addr) = Some n;
  n_range p n : (ps !! p ≫= owned addr) = Some n → 1 ≤ n ≤ a.(limit);
  n_unique p q n : (ps !! p ≫= owned addr) = Some n → (ps !! q ≫= owned addr) = Some n → p = q;
}.

(** What the chains look at. *)
Definition hashed (r : kernel_pid) : option Z :=
  if decide (r.(published) = 1) then Some r.(number) else None.
Definition is_retired (r : kernel_pid) : option unit :=
  if decide (r.(published) = 3) then Some tt else None.
Record chains_inv (bs : list Z) (ret : Z) (ps : gmap Z kernel_pid) (g : ghost) : Prop := {
  c_buckets : length bs = 256%nat;
  c_chain b : (b < 256)%nat → ∃ head, bs !! b = Some head ∧ hchain ps head (g.(g_chain) b);
  c_nodup b : NoDup (g.(g_chain) b);
  c_elem b p : (b < 256)%nat →
    p ∈ g.(g_chain) b ↔ ∃ n, (ps !! p ≫= hashed) = Some n ∧ bucket_of n = b;
  c_retired : hchain ps ret g.(g_retired);
  c_ret_nodup : NoDup g.(g_retired);
  c_ret_elem p : p ∈ g.(g_retired) ↔ (ps !! p ≫= is_retired) = Some tt;
}.

(** The life cycle: fresh, reserved, indexed, detached, retired. *)
Definition state_of (addr : Z) (r : kernel_pid) : Prop :=
  (r.(published) = 0 ∧ r.(hash_next) = 0 ∧ (r.(registry) = 0 ∨ r.(registry) = addr)) ∨
  (r.(published) = 1 ∧ r.(registry) = addr) ∨
  (r.(published) = 2 ∧ r.(hash_next) = 0 ∧ r.(registry) = addr) ∨
  (r.(published) = 3 ∧ r.(registry) = 0).
Definition states_inv (addr : Z) (ps : gmap Z kernel_pid) : Prop :=
  ∀ p r, ps !! p = Some r → p ≠ 0 ∧ state_of addr r.

Record roles_inv (ps : gmap Z kernel_pid) (ms : gmap Z kernel_pid_member) (g : ghost) : Prop := {
  r_members p l : (members <$> ps !! p) = Some l → length l = 4%nat ∧
    ∀ k, (k < 4)%nat → l !! k = Some (head_or 0 (g.(g_role) p k)) ∧ mseg ms p (Z.of_nat k) 0 (g.(g_role) p k) 0;
  r_nodup p k : NoDup (g.(g_role) p k);
  r_elem m x : ms !! m = Some x → x.(identity) ≠ 0 →
    m ≠ 0 ∧ is_Some (ps !! x.(identity)) ∧ 0 ≤ x.(role) < 4 ∧ m ∈ g.(g_role) x.(identity) (Z.to_nat x.(role));
}.

(** Every live reference is a member's or one a caller holds. *)
Definition total (g : ghost) (p : Z) : Z :=
  Z.of_nat (length (g.(g_role) p 0) + length (g.(g_role) p 1) + length (g.(g_role) p 2) + length (g.(g_role) p 3)).
Definition held_of (held : gmap Z Z) (p : Z) : Z := default 0 (held !! p).
Definition refs_inv (addr : Z) (ps : gmap Z kernel_pid) (g : ghost) (held : gmap Z Z) : Prop :=
  ∀ p rg n, ((λ r, (r.(registry), r.(references))) <$> ps !! p) = Some (rg, n) →
    0 ≤ held_of held p ∧
    (rg = addr → n = held_of held p + total g p ∧ 1 ≤ n ≤ UINT32_MAX) ∧
    (rg = 0 → held_of held p = 0 ∧ total g p = 0).

(** Everything but the reference counts, and everything. *)
Record struct (w : world) (g : ghost) : Prop := {
  t_numbers : numbers_inv w.(address) w.(next_generation) w.(numbers) w.(pids);
  t_chains : chains_inv w.(buckets) w.(retired) w.(pids) g;
  t_states : states_inv w.(address) w.(pids);
  t_roles : roles_inv w.(pids) w.(mems) g;
}.
Definition registry_ok (w : world) (held : gmap Z Z) : Prop :=
  ∃ g, struct w g ∧ refs_inv w.(address) w.(pids) g held.

(** ** Extensionality of the parts *)

(** Two maps that agree on a view of their values. *)
Definition same_view {A B} (v : A → B) (ps ps' : gmap Z A) : Prop := ∀ p, (v <$> ps' !! p) = (v <$> ps !! p).
Lemma same_view_insert {A B} (v : A → B) (ps : gmap Z A) p r r' :
  ps !! p = Some r → v r' = v r → same_view v ps (<[p := r']> ps).
Proof.
  intros Hp Hv q. destruct (decide (q = p)) as [->|].
  - rewrite lookup_insert_eq, Hp. simpl. by rewrite Hv.
  - by rewrite lookup_insert_ne.
Qed.
Lemma same_view_bind {A B} (v : A → option B) (ps ps' : gmap Z A) p :
  same_view v ps ps' → (ps' !! p ≫= v) = (ps !! p ≫= v).
Proof. intros H. specialize (H p). destruct (ps' !! p), (ps !! p); simpl in *; congruence. Qed.

Lemma numbers_ext addr gen a ps ps' :
  same_view (owned addr) ps ps' → numbers_inv addr gen a ps → numbers_inv addr gen a ps'.
Proof.
  intros Hv [Ha Hg (words & Hok & Hw) Hr Hu]. pose proof (λ p, same_view_bind _ _ _ p Hv) as Hb. split; [done|done| | |].
  - exists words. split; [done|]. intros n Hn. rewrite Hw by done. by setoid_rewrite Hb.
  - intros p n. rewrite Hb. apply Hr.
  - intros p q n. rewrite !Hb. apply Hu.
Qed.
Lemma hchain_ext ps ps' p l :
  (∀ x, x ∈ l → (hash_next <$> ps' !! x) = (hash_next <$> ps !! x)) → hchain ps p l → hchain ps' p l.
Proof.
  revert p. induction l as [|x l IH]; intros p He; [done|]. intros (-> & Hx & r & Hr & Hc).
  split; [done|]. split; [done|]. pose proof (He x ltac:(left)) as Hv. rewrite Hr in Hv.
  destruct (ps' !! x) as [r'|]; [|done]. injection Hv as Hv. exists r'. split; [done|]. rewrite Hv.
  apply IH; [|done]. intros y Hy. apply He. by right.
Qed.
Lemma hchain_frame ps p l x r : x ∉ l → hchain ps p l → hchain (<[x := r]> ps) p l.
Proof. intros Hx. apply hchain_ext. intros y Hy. rewrite lookup_insert_ne; [done|]. by intros ->. Qed.
Lemma chains_ext bs ret ps ps' g :
  same_view hash_next ps ps' → same_view hashed ps ps' → same_view is_retired ps ps' →
  chains_inv bs ret ps g → chains_inv bs ret ps' g.
Proof.
  intros Hn Hh Hr [Hb Hc Hnd He Hret Hrnd Hre].
  pose proof (λ p, same_view_bind _ _ _ p Hh) as Hhb. pose proof (λ p, same_view_bind _ _ _ p Hr) as Hrb.
  split; try done.
  - intros b Hlt. destruct (Hc b Hlt) as (head & Hhead & Hch). exists head. split; [done|].
    by apply (hchain_ext ps).
  - intros b p Hlt. rewrite He by done. by setoid_rewrite Hhb.
  - by apply (hchain_ext ps).
  - intros p. by rewrite Hre, Hrb.
Qed.
Lemma roles_ext ps ps' ms g : same_view members ps ps' → roles_inv ps ms g → roles_inv ps' ms g.
Proof.
  intros Hv [Hm Hnd He]. split; [|done|].
  - intros p l. rewrite Hv. apply Hm.
  - intros m x Hx Hid. destruct (He m x Hx Hid) as (? & Hs & ? & ?). split_and!; [done| |lia|lia|done].
    specialize (Hv (identity x)). destruct Hs as [r Hr]. rewrite Hr in Hv. by destruct (ps' !! identity x).
Qed.
Lemma roles_ghost ps ms g g' : g'.(g_role) = g.(g_role) → roles_inv ps ms g → roles_inv ps ms g'.
Proof. intros Hg [Hm Hnd He]. split; rewrite Hg; done. Qed.
Lemma refs_ext addr ps ps' g held :
  same_view (λ r, (registry r, references r)) ps ps' → refs_inv addr ps g held → refs_inv addr ps' g held.
Proof. intros Hv Hr p rg n. rewrite Hv. apply Hr. Qed.
Lemma states_insert addr ps p r r' :
  states_inv addr ps → ps !! p = Some r → state_of addr r' → states_inv addr (<[p := r']> ps).
Proof.
  intros Hs Hp Hr q s. destruct (decide (q = p)) as [->|].
  - rewrite lookup_insert_eq. intros [= <-]. split; [by apply (Hs p r)|done].
  - rewrite lookup_insert_ne by done. apply Hs.
Qed.

(** ** Lists in memory *)
Lemma hchain_elem ps p l x : hchain ps p l → x ∈ l → x ≠ 0 ∧ ∃ r, ps !! x = Some r.
Proof.
  revert p. induction l as [|y l IH]; intros p Hc Hx; [by apply elem_of_nil in Hx|].
  destruct Hc as (-> & Hy & r & Hr & Hc). apply elem_of_cons in Hx as [->|Hx]; [eauto|by eapply IH].
Qed.
Lemma hchain_length ps p l : NoDup l → hchain ps p l → (length l ≤ size ps)%nat.
Proof.
  intros Hnd Hc. rewrite <-size_dom. rewrite <-(size_list_to_set (C := gset Z)) by done.
  apply subseteq_size. intros x Hx%elem_of_list_to_set. apply elem_of_dom.
  destruct (hchain_elem ps p l x Hc Hx) as (_ & r & Hr). eauto.
Qed.
Lemma hchain_app ps p l1 x l2 :
  hchain ps p (l1 ++ x :: l2) → ∃ r, ps !! x = Some r ∧ x ≠ 0 ∧ hchain ps r.(hash_next) l2.
Proof.
  revert p. induction l1 as [|y l1 IH]; intros p; simpl; [naive_solver|]. intros (_ & _ & r & _ & Hc). by eapply IH.
Qed.

Lemma find_loop_spec w fuel p l n :
  hchain w.(pids) p l → (length l < fuel)%nat →
  ∃ q, find_loop fuel w p n = Done q ∧
    ((q ≠ 0 ∧ q ∈ l ∧ ∃ r, w.(pids) !! q = Some r ∧ r.(number) = n) ∨
     (q = 0 ∧ ∀ x r, x ∈ l → w.(pids) !! x = Some r → r.(number) ≠ n)).
Proof.
  revert p l. induction fuel as [|fuel IH]; intros p l Hc Hf; [lia|]. cbn [find_loop].
  destruct l as [|x l]; simpl in Hc.
  { rewrite decide_True by done. exists 0. split; [done|]. right. split; [done|]. by intros x r ?%elem_of_nil. }
  destruct Hc as (-> & Hx & r & Hr & Hc). rewrite decide_False by done. unfold load_pid. rewrite Hr. run.
  destruct (decide (number r = n)) as [He|Hne].
  - exists x. split; [done|]. left. split; [done|]. split; [left|eauto].
  - simpl in Hf. destruct (IH _ _ Hc) as (q & -> & [(? & ? & ?)|(-> & Hno)]); [lia| |].
    + exists q. split; [done|]. left. split; [done|]. split; [by right|done].
    + exists 0. split; [done|]. right. split; [done|]. intros y s [->|Hy]%elem_of_cons Hs; [congruence|by eapply Hno].
Qed.
Lemma bucket_bound n : (bucket_of n < 256)%nat.
Proof. unfold bucket_of, KERNEL_PID_BUCKETS. pose proof (Z.mod_pos_bound (u32 n) 256). lia. Qed.

Lemma find_run w g n :
  struct w g → 0 < n →
  ∃ q, kernel_pid_find w n = Done q ∧
    ((q ≠ 0 ∧ (w.(pids) !! q ≫= hashed) = Some n) ∨ (q = 0 ∧ ∀ p, (w.(pids) !! p ≫= hashed) ≠ Some n)).
Proof.
  intros [_ Hch _ _] Hn. unfold kernel_pid_find. rewrite decide_False by lia.
  destruct (c_chain _ _ _ _ Hch (bucket_of n) (bucket_bound n)) as (head & Hhead & Hc).
  rewrite (aread_ok _ _ _ Hhead). run.
  pose proof (hchain_length _ _ _ (c_nodup _ _ _ _ Hch (bucket_of n)) Hc) as Hlen.
  destruct (find_loop_spec w (S (size (pids w))) head _ n Hc) as (q & -> & Hq); [lia|].
  exists q. split; [done|]. pose proof (c_elem _ _ _ _ Hch (bucket_of n)) as He.
  destruct Hq as [(Hz & Hin & r & Hr & Hnum)|(-> & Hno)]; [left|right]; (split; [done|]).
  - apply He in Hin as (n' & Hn' & _); [|apply bucket_bound]. rewrite Hr in *. simpl in *.
    unfold hashed in *. by destruct (decide (published r = 1)); simplify_eq.
  - intros p Hp. destruct (pids w !! p) as [r|] eqn:Hr; [|done]. simpl in Hp.
    apply (Hno p r); [|done|].
    + apply He; [apply bucket_bound|]. exists n. by rewrite Hr.
    + unfold hashed in Hp. by destruct (decide (published r = 1)); simplify_eq.
Qed.

(** ** Enumeration in the order of numbers *)
Definition lowest (bits k : Z) : Prop :=
  0 ≤ k ∧ Z.testbit bits k = true ∧ ∀ j, 0 ≤ j < k → Z.testbit bits j = false.

Lemma lowest_bit_spec fuel low bit :
  0 < low < 2 ^ Z.of_nat fuel → ∃ k, lowest_bit fuel low bit = Done (bit + k) ∧ lowest low k ∧ k < Z.of_nat fuel.
Proof.
  revert low bit. induction fuel as [|fuel IH]; intros low bit Hlow; [simpl in Hlow; lia|]. cbn [lowest_bit].
  rewrite Nat2Z.inj_succ, Z.pow_succ_r in Hlow by lia.
  assert (Hodd : Z.land low 1 = low mod 2) by (apply (Z.land_ones low 1); done).
  rewrite Hodd, Z.shiftr_div_pow2 by done. change (2 ^ 1) with 2.
  pose proof (Z.div_mod low 2). pose proof (Z.mod_pos_bound low 2). destruct (decide (low mod 2 = 0)) as [He|Ho].
  - destruct (IH (low / 2) (bit + 1)) as (k & -> & (Hk & Hb & Hlo) & Hf); [lia|].
    exists (k + 1). split; [f_equal; lia|]. split; [|lia].
    assert (Hsh : ∀ j, 0 ≤ j → Z.testbit low (j + 1) = Z.testbit (low / 2) j).
    { intros j Hj. rewrite <-Z.div2_div, Z.div2_spec, Z.shiftr_spec by done. done. }
    split_and!; [lia|by rewrite Hsh|]. intros j Hj. destruct (decide (j = 0)) as [->|].
    + by rewrite Z.bit0_odd, Zodd_mod, He.
    + replace j with (j - 1 + 1) by lia. rewrite Hsh by lia. apply Hlo. lia.
  - exists 0. split; [f_equal; lia|]. split; [|lia]. split_and!; [done| |lia].
    rewrite Z.bit0_odd, Zodd_mod. by replace (low mod 2) with 1 by lia.
Qed.
(** [bits & (bits - 1)] removes the lowest bit. *)
Lemma clear_lowest bits k j :
  is_u64 bits → lowest bits k → 0 ≤ j →
  Z.testbit (Z.land bits (u64 (bits - 1))) j = true ↔ Z.testbit bits j = true ∧ j ≠ k.
Proof.
  intros Hu (Hk & Hbit & Hlo) Hj.
  assert (Hmod : bits mod 2 ^ k = 0).
  { rewrite <-Z.land_ones by done. apply Z.bits_inj'. intros i Hi. rewrite Z.land_spec, Z.bits_0.
    destruct (Z.ltb_spec i k); [by rewrite Hlo|]. rewrite Z.ones_spec_high by lia. apply andb_false_r. }
  pose proof (Z.pow_pos_nonneg 2 k). pose proof (Z.div_mod bits (2 ^ k)) as Hdm.
  assert (Hodd : (bits / 2 ^ k) mod 2 = 1).
  { apply Z.testbit_true in Hbit; [|done]. done. }
  assert (Hpos : 0 < bits) by (destruct (decide (bits = 0)) as [->|]; [by rewrite Z.bits_0 in Hbit|destruct Hu; lia]).
  rewrite u64_small by (destruct Hu; mlia). rewrite Z.land_spec, andb_true_iff.
  assert (Hd : (bits - 1) / 2 ^ k = bits / 2 ^ k - 1).
  { symmetry. apply Z.div_unique with (2 ^ k - 1); lia. }
  assert (Hhi : ∀ i, k < i → Z.testbit (bits - 1) i = Z.testbit bits i).
  { intros i Hi. replace i with (i - k + k) by lia. rewrite <-!Z.shiftr_spec, !Z.shiftr_div_pow2 by lia.
    rewrite Hd. set (q := bits / 2 ^ k) in *. replace (i - k) with (i - k - 1 + 1) by lia.
    rewrite <-!Z.shiftr_spec, !Z.shiftr_div_pow2 by lia. f_equal. change (2 ^ 1) with 2.
    pose proof (Z.div_mod q 2). symmetry. apply Z.div_unique with 0; lia. }
  split.
  - intros [Hb Hb1]. split; [done|]. intros ->.
    apply Z.testbit_true in Hb1; [|done]. rewrite Hd in Hb1. pose proof (Z.div_mod (bits / 2 ^ k) 2).
    pose proof (Z.mod_unique (bits / 2 ^ k - 1) 2 (bits / 2 ^ k / 2) 0). lia.
  - intros [Hb Hne]. split; [done|]. destruct (Z.lt_trichotomy j k) as [?|[?|?]]; [|done|by rewrite Hhi].
    by rewrite Hlo in Hb by lia.
Qed.

Lemma hashed_owned addr ps p n :
  states_inv addr ps → (ps !! p ≫= hashed) = Some n → (ps !! p ≫= owned addr) = Some n.
Proof.
  intros Hs. destruct (ps !! p) as [r|] eqn:Hr; [|done]. simpl. unfold hashed, owned.
  destruct (decide (published r = 1)) as [Hp|]; [|done]. intros [= <-].
  destruct (Hs p r Hr) as [_ Hst]. unfold state_of in Hst. rewrite decide_True; [done|]. lia.
Qed.

Section enumeration.
Context (w : world) (g : ghost) (words : list Z).
Context (Hw : struct w g) (Hok : numbers_ok w.(numbers) words).
Context (Htaken : ∀ n, 1 ≤ n ≤ w.(numbers).(limit) →
  taken words (n - 1) = true ↔ ∃ p, (w.(pids) !! p ≫= owned w.(address)) = Some n).

Definition public (n : Z) : Prop := ∃ p, (w.(pids) !! p ≫= hashed) = Some n.
Lemma public_number n : public n → 1 ≤ n ≤ w.(numbers).(limit) ∧ taken words (n - 1) = true.
Proof.
  intros [p Hp]. apply (hashed_owned (address w)) in Hp; [|apply Hw].
  pose proof (n_range _ _ _ _ (t_numbers _ _ Hw) _ _ Hp) as Hr. split; [done|]. apply Htaken; [done|]. eauto.
Qed.

Lemma published_in_word_spec fuel wd bits c :
  is_u64 bits → 0 ≤ wd → 64 * wd < w.(numbers).(limit) → 0 ≤ c ≤ 64 → 64 - c < Z.of_nat fuel →
  (∀ j, 0 ≤ j → Z.testbit bits j = true → c ≤ j) →
  ∃ res, published_in_word fuel w wd bits = Done res ∧
    match res with
    | inl q => (q ≠ 0 ∧ ∃ k, 0 ≤ k < 64 ∧ Z.testbit bits k = true ∧ (w.(pids) !! q ≫= hashed) = Some (64 * wd + k + 1) ∧
                 ∀ j, 0 ≤ j < k → Z.testbit bits j = true → ¬ public (64 * wd + j + 1)) ∨
               (q = 0 ∧ w.(numbers).(limit) < 64 * wd + 64 ∧
                 ∀ j, 0 ≤ j → Z.testbit bits j = true → ¬ public (64 * wd + j + 1))
    | inr _ => ∀ j, 0 ≤ j → Z.testbit bits j = true → ¬ public (64 * wd + j + 1)
    end.
Proof.
  intros Hu Hwd Hlim. pose proof (nu_limit _ _ Hok) as Hmax. unfold INT32_MAX in Hmax.
  revert bits c Hu. induction fuel as [|fuel IH]; intros bits c Hu Hc Hf Hlow; [lia|]. cbn [published_in_word].
  destruct (decide (bits = 0)) as [->|Hnz].
  { exists (inr tt). split; [done|]. intros j _. by rewrite Z.bits_0. }
  destruct (lowest_bit_spec 64 bits 0) as (k & -> & Hk & Hk64); [destruct Hu; unfold UINT64_MAX in *; lia|]. run.
  rewrite Z.add_0_l. pose proof Hk as (Hk0 & Hkb & Hkl). specialize (Hlow k Hk0 Hkb) as Hck.
  rewrite Z.shiftl_mul_pow2 by done. change (2 ^ 6) with 64.
  rewrite (u32_small (wd * 64)) by mlia. rewrite u32_small by mlia.
  destruct (decide (limit (numbers w) ≤ wd * 64 + k)) as [Hbig|Hin].
  { exists (inl 0). split; [done|]. right. split; [done|]. split; [lia|]. intros j Hj Hb [Hpub _]%public_number.
    destruct (Z.lt_ge_cases j k); [by rewrite Hkl in Hb|lia]. }
  destruct (find_run w g (wd * 64 + k + 1) Hw) as (q & -> & Hq); [lia|]. run.
  replace (wd * 64 + k + 1) with (64 * wd + k + 1) in Hq by lia.
  destruct Hq as [[Hq0 Hq]|[-> Hnone]].
  { rewrite decide_True by done. exists (inl q). split; [done|]. left. split; [done|]. exists k.
    split; [lia|]. split; [done|]. split; [done|]. intros j Hj Hb. by rewrite Hkl in Hb. }
  rewrite decide_False by (by intros []).
  assert (Hnp : ¬ public (64 * wd + k + 1)) by (intros [p Hp]; by apply (Hnone p)).
  pose proof (λ j, clear_lowest bits k j Hu Hk) as Hcl.
  destruct (IH (Z.land bits (u64 (bits - 1))) (k + 1)) as (res & Hrun & Hres).
  - by apply is_u64_land.
  - lia.
  - lia.
  - intros j Hj [Hb Hne]%Hcl; [|done]. destruct (Z.lt_ge_cases j k); [by rewrite Hkl in Hb|lia].
  - exists res. split; [done|].
    assert (Hrest : ∀ j, 0 ≤ j → Z.testbit bits j = true → (Z.testbit (Z.land bits (u64 (bits - 1))) j = true → ¬ public (64 * wd + j + 1)) → ¬ public (64 * wd + j + 1)).
    { intros j Hj Hb Himp. destruct (decide (j = k)) as [->|]; [done|]. apply Himp. by apply Hcl. }
    destruct res as [q|]; [destruct Hres as [(Hq0 & k' & Hk' & Hb' & Hp & Hno)|(-> & Hl & Hno)]; [left|right]|].
    + split; [done|]. exists k'. split; [done|]. apply Hcl in Hb' as [? _]; [|lia]. split; [done|]. split; [done|]. intros j Hj Hb. apply Hrest; [lia|done|]. by apply Hno.
    + split; [done|]. split; [done|]. intros j Hj Hb. apply Hrest; [done..|]. by apply Hno.
    + intros j Hj Hb. apply Hrest; [done..|]. by apply Hres.
Qed.

(** The first public number after [after], or none. *)
Definition next_public (after q : Z) : Prop :=
  (q ≠ 0 ∧ ∃ n, (w.(pids) !! q ≫= hashed) = Some n ∧ after < n ∧ ∀ m, after < m < n → ¬ public m) ∨
  (q = 0 ∧ ∀ m, after < m → ¬ public m).

Lemma published_from_spec count wd bits after :
  is_u64 bits → 0 ≤ wd → 64 * wd < w.(numbers).(limit) → 0 ≤ after < 64 * wd + 64 →
  (∀ j, 0 ≤ j < 64 → Z.testbit bits j = true ↔ after ≤ 64 * wd + j ∧ taken words (64 * wd + j) = true) →
  (∀ n, after < n ≤ 64 * wd → ¬ public n) →
  KERNEL_PID_BITMAP_WORDS w.(numbers).(limit) - wd ≤ Z.of_nat count →
  ∃ q, published_from count w words wd bits = Done q ∧ next_public after q.
Proof.
  pose proof (nu_limit _ _ Hok) as Hmax. rewrite words_bound by done.
  pose proof (Z.div_mod (limit (numbers w) + 63) 64) as Hdm. pose proof (Z.mod_pos_bound (limit (numbers w) + 63) 64) as Hmb.
  revert wd bits. induction count as [|count IH]; intros wd bits Hu Hwd Hlim Ha Hbits Hbelow Hc; [lia|].
  assert (Hmask : ∀ j, 64 ≤ j → Z.testbit bits j = false) by (apply is_u64_bits, Hu).
  cbn [published_from].
  destruct (published_in_word_spec 65 wd bits 0 Hu Hwd Hlim) as (res & -> & Hres); [lia|lia|lia|]. run.
  assert (Hnone : ∀ u m, (∀ j, 0 ≤ j < u → Z.testbit bits j = true → ¬ public (64 * wd + j + 1)) → u ≤ 64 →
            after < m ≤ 64 * wd + u → ¬ public m).
  { intros u m Hj Hu64 Hm Hpub. destruct (decide (m ≤ 64 * wd)); [by apply (Hbelow m); [lia|]|].
    replace m with (64 * wd + (m - 1 - 64 * wd) + 1) in Hpub by lia. apply (Hj (m - 1 - 64 * wd)); [lia| |done].
    apply Hbits; [lia|]. split; [lia|]. apply public_number in Hpub as [_ Ht].
    by replace (64 * wd + (m - 1 - 64 * wd) + 1 - 1) with (64 * wd + (m - 1 - 64 * wd)) in Ht by lia. }
  destruct res as [q|].
  - exists q. split; [done|]. destruct Hres as [(Hq & k & Hk & Hbk & Hp & Hno)|(-> & Hl & Hno)]; [left|right]; (split; [done|]).
    + exists (64 * wd + k + 1). split; [done|]. apply Hbits in Hbk as [? _]; [|lia]. split; [lia|].
      intros m Hm. apply (Hnone k); [done|lia..].
    + intros m Hm Hpub. pose proof (public_number m Hpub) as [Hr _].
      apply (Hnone 64 m); [|lia|lia|done]. intros j Hj. apply Hno. lia.
  - unfold INT32_MAX in Hmax. rewrite u32_small by mlia. rewrite words_bound by (unfold INT32_MAX; lia).
    destruct (decide ((limit (numbers w) + 63) / 64 ≤ wd + 1)) as [Hend|Hmore].
    + exists 0. split; [done|]. right. split; [done|]. intros m Hm Hpub. pose proof (public_number m Hpub) as [Hr _].
      apply (Hnone 64 m); [|lia|lia|done]. intros j Hj. apply Hres. lia.
    + assert (Hdiv : (64 * (wd + 1)) / 64 = wd + 1) by (rewrite Z.mul_comm; apply Z.div_mul; done).
      destruct (word_exists (numbers w) words (64 * (wd + 1)) Hok) as [v Hv]; [lia|]. rewrite Hdiv in Hv.
      rewrite (aread_ok _ _ _ Hv). run. apply IH; try lia.
      * by eapply Forall_lookup_1 in Hv; [|apply Hok].
      * intros j Hj. unfold taken. replace ((64 * (wd + 1) + j) / 64) with (wd + 1) by (apply Z.div_unique with j; lia).
        replace ((64 * (wd + 1) + j) mod 64) with j by (apply Z.mod_unique with (wd + 1); lia).
        rewrite Hv. split; [intros ?; split; [lia|done]|by intros [_ ?]].
      * intros m Hm. apply (Hnone 64); [intros j Hj; apply Hres; lia|lia..].
Qed.
Lemma masked_bits b s j :
  0 ≤ s < 64 → 0 ≤ j < 64 →
  Z.testbit (Z.land b (u64 (Z.shiftl UINT64_MAX s))) j = true ↔ s ≤ j ∧ Z.testbit b j = true.
Proof.
  intros Hs Hj. rewrite Z.land_spec, andb_true_iff. unfold u64. change 18446744073709551616 with (2 ^ 64).
  rewrite Z.mod_pow2_bits_low by lia. change UINT64_MAX with (Z.ones 64). destruct (Z.lt_ge_cases j s).
  - rewrite Z.shiftl_spec_low by lia. split; [by intros [_ ?]|lia].
  - rewrite Z.shiftl_spec, Z.ones_spec_low by lia. naive_solver.
Qed.
Lemma next_published_run after :
  0 ≤ after ≤ INT32_MAX → ∃ q, kernel_pid_next_published w after = Done q ∧ next_public after q.
Proof.
  intros Ha. pose proof (nu_limit _ _ Hok) as Hmax. unfold INT32_MAX in *. unfold kernel_pid_next_published.
  rewrite !(u32_small after) by mlia. rewrite (numbers_valid _ _ Hok).
  destruct (decide (_ ∨ _ ∨ _)) as [Hend|Hgo].
  { exists 0. split; [done|]. right. split; [done|]. intros m Hm [Hr _]%public_number.
    destruct Hend as [?|[?|?]]; [done|lia..]. }
  unfold words_of. rewrite (nu_words _ _ Hok). run. rewrite index_word.
  destruct (word_exists (numbers w) words after Hok) as [b Hb]; [lia|]. rewrite (aread_ok _ _ _ Hb). run.
  change (Z.land after 63) with (Z.land after (Z.ones 6)). rewrite Z.land_ones by done. change (2 ^ 6) with 64.
  pose proof (Z.div_mod after 64) as Hdm. pose proof (Z.mod_pos_bound after 64) as Hmb. pose proof (Z.div_pos after 64).
  assert (Hub : is_u64 b) by (by eapply Forall_lookup_1 in Hb; [|apply Hok]).
  apply published_from_spec; try lia.
  - by apply is_u64_land.
  - intros j Hj. rewrite masked_bits by lia. unfold taken.
    replace ((64 * (after / 64) + j) / 64) with (after / 64) by (apply Z.div_unique with j; lia).
    replace ((64 * (after / 64) + j) mod 64) with j by (apply Z.mod_unique with (after / 64); lia).
    rewrite Hb. split; intros [? ?]; (split; [lia|done]).
Qed.
End enumeration.
