(* ===== verification/PidOpsTheory.v ===== *)
(** * Every operation on the identity registry keeps it consistent *)
From S2P Require Import Prelude Pid PidRegistryTheory.
Import Pid.
#[local] Open Scope Z_scope.

Lemma load_pid_eq w p r : w.(pids) !! p = Some r → load_pid w p = Done r.
Proof. unfold load_pid. by intros ->. Qed.
Lemma load_mem_eq w m x : w.(mems) !! m = Some x → load_mem w m = Done x.
Proof. unfold load_mem. by intros ->. Qed.
Lemma at_registry_eq w p : p = w.(address) → at_registry w p = Done tt.
Proof. intros ->. unfold at_registry. by rewrite decide_True. Qed.

Definition set_chain (g : ghost) (b : nat) (l : list Z) : ghost :=
  mk_ghost (λ b', if decide (b' = b) then l else g.(g_chain) b') g.(g_retired) g.(g_role).
Definition set_retired_list (g : ghost) (l : list Z) : ghost := mk_ghost g.(g_chain) l g.(g_role).
Definition set_role (g : ghost) (p : Z) (k : nat) (l : list Z) : ghost :=
  mk_ghost g.(g_chain) g.(g_retired) (λ p' k', if decide (p' = p ∧ k' = k) then l else g.(g_role) p' k').

(** ** Numbers *)
Lemma bind_insert {B} (v : kernel_pid → option B) (ps : gmap Z kernel_pid) p r q :
  (<[p := r]> ps !! q ≫= v) = if decide (q = p) then v r else (ps !! q ≫= v).
Proof. destruct (decide (q = p)) as [->|]; [by rewrite lookup_insert_eq|by rewrite lookup_insert_ne]. Qed.

Lemma numbers_reserve addr gen a a' words words' ps p r r' n :
  numbers_inv addr gen a ps → gen ≤ KERNEL_PID_GENERATION_MAX →
  numbers_ok a words → (∀ n, 1 ≤ n ≤ a.(limit) → taken words (n - 1) = true ↔ ∃ p, (ps !! p ≫= owned addr) = Some n) →
  ps !! p = Some r → owned addr r = None → owned addr r' = Some n → 1 ≤ n ≤ a.(limit) →
  taken words (n - 1) = false → numbers_ok a' words' → a'.(limit) = a.(limit) → changed words words' (n - 1) true →
  numbers_inv addr (gen + 1) a' (<[p := r']> ps).
Proof.
  intros [Ha Hg _ Hrange Huniq] Hgen Hok Ht Hp Hr Hr' Hn Hfree Hok' Hl Hch.
  assert (Hnone : ∀ q, (ps !! q ≫= owned addr) ≠ Some n).
  { intros q Hq. assert (taken words (n - 1) = true) by (apply Ht; eauto). congruence. }
  split; [done|lia| | |].
  - exists words'. split; [done|]. rewrite Hl. intros m Hm. rewrite Hch by lia.
    destruct (decide (m - 1 = n - 1)) as [He|Hne].
    + split; [|done]. intros _. exists p. rewrite bind_insert, decide_True by done. rewrite Hr'. f_equal. lia.
    + rewrite Ht by done. split; intros [q Hq]; exists q; rewrite bind_insert in *.
      * destruct (decide (q = p)) as [->|]; [|done]. rewrite Hp in Hq. simpl in Hq. congruence.
      * destruct (decide (q = p)) as [->|]; [|done]. rewrite Hr' in Hq. by simplify_eq.
  - intros q m. rewrite bind_insert, Hl. destruct (decide (q = p)); [|apply Hrange]. intros Hm. simplify_eq. lia.
  - intros q q' m. rewrite !bind_insert. destruct (decide (q = p)) as [->|], (decide (q' = p)) as [->|]; try done.
    + intros Hm Hq. simplify_eq. by apply Hnone in Hq.
    + intros Hq Hm. simplify_eq. by apply Hnone in Hq.
    + apply Huniq.
Qed.
Lemma numbers_release addr gen a a' words words' ps p r r' n :
  numbers_inv addr gen a ps →
  numbers_ok a words → (∀ n, 1 ≤ n ≤ a.(limit) → taken words (n - 1) = true ↔ ∃ p, (ps !! p ≫= owned addr) = Some n) →
  ps !! p = Some r → owned addr r = Some n → owned addr r' = None →
  numbers_ok a' words' → a'.(limit) = a.(limit) → changed words words' (n - 1) false →
  numbers_inv addr gen a' (<[p := r']> ps).
Proof.
  intros [Ha Hg _ Hrange Huniq] Hok Ht Hp Hr Hr' Hok' Hl Hch.
  assert (Hpn : (ps !! p ≫= owned addr) = Some n) by (by rewrite Hp).
  split; [done|done| | |].
  - exists words'. split; [done|]. rewrite Hl. intros m Hm. rewrite Hch by lia.
    destruct (decide (m - 1 = n - 1)) as [He|Hne].
    + split; [done|]. intros [q Hq]. rewrite bind_insert in Hq. destruct (decide (q = p)); [congruence|].
      replace m with n in Hq by lia. by destruct (Huniq p q n Hpn Hq).
    + rewrite Ht by done. split; intros [q Hq]; exists q; rewrite bind_insert in *.
      * destruct (decide (q = p)) as [->|]; [|done]. rewrite Hpn in Hq. by simplify_eq.
      * destruct (decide (q = p)) as [->|]; [|done]. congruence.
  - intros q m. rewrite bind_insert, Hl. destruct (decide (q = p)); [congruence|apply Hrange].
  - intros q q' m. rewrite !bind_insert. destruct (decide (q = p)) as [->|], (decide (q' = p)) as [->|]; try congruence.
    apply Huniq.
Qed.

(** ** Chains *)
Lemma chains_push bs ret ps g p r r' b n head :
  chains_inv bs ret ps g → ps !! p = Some r → p ≠ 0 → hashed r = None → is_retired r = None →
  hashed r' = Some n → is_retired r' = None → bucket_of n = b → bs !! b = Some head → r'.(hash_next) = head →
  chains_inv (<[b := p]> bs) ret (<[p := r']> ps) (set_chain g b (p :: g.(g_chain) b)).
Proof.
  intros [Hb Hc Hnd He Hret Hrnd Hre] Hp Hp0 Hh Hr Hh' Hr' Hbk Hhead Hnext.
  pose proof (lookup_lt_Some _ _ _ Hhead) as Hlt. rewrite Hb in Hlt.
  assert (Hnot : ∀ b', (b' < 256)%nat → p ∉ g_chain g b').
  { intros b' Hb' (m & Hm & _)%He; [|done]. rewrite Hp in Hm. simpl in Hm. congruence. }
  assert (Hnret : p ∉ g_retired g) by (intros Hin%Hre; rewrite Hp in Hin; simpl in Hin; congruence).
  split; cbn [g_chain g_retired set_chain]; try done.
  - by rewrite length_insert.
  - intros b' Hb'. destruct (decide (b' = b)) as [->|Hne].
    + exists p. split; [apply list_lookup_insert_eq; lia|]. split; [done|]. split; [done|]. exists r'.
      split; [apply lookup_insert_eq|]. rewrite Hnext. destruct (Hc b Hlt) as (h & Hh2 & Hch). simplify_eq.
      apply hchain_frame; [by apply Hnot|done].
    + destruct (Hc b' Hb') as (h & Hh2 & Hch). exists h. rewrite list_lookup_insert_ne by done. split; [done|].
      apply hchain_frame; [by apply Hnot|done].
  - intros b'. destruct (decide (b' = b)) as [->|]; [|done]. apply NoDup_cons. split; [by apply Hnot|done].
  - intros b' q Hb'. setoid_rewrite bind_insert. destruct (decide (q = p)) as [->|Hqp].
    + destruct (decide (b' = b)) as [->|Hne].
      * split; [|left]. intros _. eauto.
      * split; [intros Hin; by apply Hnot in Hin|]. intros (m & Hm & Hmb). simplify_eq.
    + destruct (decide (b' = b)) as [->|]; [|by apply He]. rewrite elem_of_cons, He by done. naive_solver.
  - by apply hchain_frame.
  - intros q. rewrite bind_insert. destruct (decide (q = p)) as [->|]; [|done]. rewrite Hr'. split; [|done]. done.
Qed.

(** Taking an identity out of its chain. *)
Lemma find_link_spec w fuel at_ value l1 p l2 :
  hchain w.(pids) value (l1 ++ p :: l2) → p ∉ l1 → (length l1 < fuel)%nat →
  find_link fuel w at_ value p = Done (match last l1 with None => at_ | Some q => Hash_next q end, p).
Proof.
  revert fuel at_ value. induction l1 as [|x l1 IH]; intros fuel at_ value Hc Hnin Hf; (destruct fuel as [|fuel]; [lia|]);
    cbn [find_link]; simpl in Hc.
  - destruct Hc as (-> & Hp & _). rewrite decide_False by tauto. done.
  - destruct Hc as (-> & Hx & r & Hr & Hc). apply not_elem_of_cons in Hnin as [Hne Hnin].
    rewrite decide_True by done. rewrite (load_pid_eq _ _ _ Hr). run. simpl in Hf.
    rewrite (IH fuel (Hash_next x)) by (done || lia). do 2 f_equal. rewrite last_cons. by destruct (last l1).
Qed.
Lemma hchain_redirect ps head l1 q rq p r l2 :
  hchain ps head (l1 ++ q :: p :: l2) → NoDup (l1 ++ q :: p :: l2) →
  ps !! q = Some rq → ps !! p = Some r →
  hchain (<[q := with_hash_next rq r.(hash_next)]> ps) head (l1 ++ q :: l2).
Proof.
  revert head. induction l1 as [|x l1 IH]; intros head; simpl.
  - intros (-> & Hq & r' & Hr' & _ & Hp & r2 & Hr2 & Hc) Hnd Hrq Hr. simplify_eq.
    apply NoDup_cons in Hnd as [Hnq Hnd]. split; [done|]. split; [done|].
    eexists. rewrite lookup_insert_eq. split; [done|]. cbn. apply hchain_frame; [|done].
    intros Hin. apply Hnq. by right.
  - intros (-> & Hx & rx & Hrx & Hc) Hnd Hrq Hr. apply NoDup_cons in Hnd as [Hnx Hnd].
    split; [done|]. split; [done|]. exists rx. rewrite lookup_insert_ne by (intros ->; apply Hnx; set_solver).
    split; [done|]. by apply IH.
Qed.
Lemma unlink_run w b head l1 p l2 r :
  w.(buckets) !! b = Some head → hchain w.(pids) head (l1 ++ p :: l2) → NoDup (l1 ++ p :: l2) →
  w.(pids) !! p = Some r →
  ∃ at_ bs ps head', find_link (S (size w.(pids))) w Bucket head p = Done (at_, p) ∧
    write_link w b at_ r.(hash_next) =
      Done (mk_world w.(address) w.(numbers) bs w.(retired) w.(next_generation) ps w.(mems)) ∧
    length bs = length w.(buckets) ∧ (∀ b', b' ≠ b → bs !! b' = w.(buckets) !! b') ∧
    bs !! b = Some head' ∧ hchain ps head' (l1 ++ l2) ∧
    (ps = w.(pids) ∨ ∃ q rq, q ∈ l1 ∧ w.(pids) !! q = Some rq ∧ ps = <[q := with_hash_next rq r.(hash_next)]> w.(pids)).
Proof.
  intros Hb Hc Hnd Hr. pose proof (hchain_length _ _ _ Hnd Hc) as Hlen. rewrite length_app in Hlen. simpl in Hlen.
  pose proof Hnd as Hnd2. apply NoDup_app in Hnd2 as (_ & Hdis & _).
  assert (Hnin : p ∉ l1) by (intros Hin; apply (Hdis p Hin); left).
  rewrite (find_link_spec w _ Bucket head l1 p l2) by (done || lia).
  destruct l1 as [|q l1' _] using rev_ind; simpl.
  - eexists Bucket, _, _, _. split; [done|]. simpl. rewrite awrite_ok by (by eapply lookup_lt_Some). run.
    split; [done|]. split; [by rewrite length_insert|].
    split; [intros b' Hb'; by rewrite list_lookup_insert_ne|].
    split; [apply list_lookup_insert_eq; by eapply lookup_lt_Some|].
    split; [|by left]. apply hchain_app with (l1 := []) in Hc as (r' & Hr' & _ & Hc). by simplify_eq.
  - rewrite last_snoc. rewrite <-(assoc_L (++)) in Hc, Hnd. simpl in Hc, Hnd.
    destruct (hchain_app _ _ _ _ _ Hc) as (rq & Hrq & _ & _).
    eexists (Hash_next q), _, _, _. split; [done|]. simpl. rewrite (load_pid_eq _ _ _ Hrq). run.
    split; [done|]. split; [done|]. split; [done|]. split; [done|]. split.
    + rewrite <-(assoc_L (++)). by apply (hchain_redirect _ _ _ _ _ p).
    + right. exists q, rq. split; [set_solver|done].
Qed.

Lemma chains_remove bs bs' ret ps ps1 g p r r2 n l1 l2 head' :
  chains_inv bs ret ps g → ps !! p = Some r → hashed r = Some n → is_retired r = None →
  g.(g_chain) (bucket_of n) = l1 ++ p :: l2 →
  hashed r2 = None → is_retired r2 = None →
  length bs' = length bs → (∀ b', b' ≠ bucket_of n → bs' !! b' = bs !! b') →
  bs' !! bucket_of n = Some head' → hchain ps1 head' (l1 ++ l2) →
  (ps1 = ps ∨ ∃ q rq v, q ∈ l1 ∧ ps !! q = Some rq ∧ ps1 = <[q := with_hash_next rq v]> ps) →
  chains_inv bs' ret (<[p := r2]> ps1) (set_chain g (bucket_of n) (l1 ++ l2)).
Proof.
  intros [Hb Hc Hnd He Hret Hrnd Hre] Hp Hh Hnr Hsplit Hh2 Hr2 Hlen Hother Hhead Hch Hps1.
  pose proof (bucket_bound n) as Hlt. pose proof (Hnd (bucket_of n)) as Hndb. rewrite Hsplit in Hndb.
  apply NoDup_app in Hndb as Hndb2. destruct Hndb2 as (_ & Hdis & Hndp). apply NoDup_cons in Hndp as [Hp2 Hndl2].
  assert (Hp1 : p ∉ l1) by (intros Hin; apply (Hdis p Hin); left).
  assert (Hv : same_view hashed ps ps1 ∧ same_view is_retired ps ps1).
  { destruct Hps1 as [->|(q & rq & v & _ & Hq & ->)]; [done|]. split; by eapply same_view_insert. }
  destruct Hv as [Hvh Hvr].
  assert (Hnot : ∀ b', (b' < 256)%nat → b' ≠ bucket_of n → p ∉ g_chain g b').
  { intros b' Hb' Hne (m & Hm & Hmb)%He; [|done]. rewrite Hp in Hm. simpl in Hm. simplify_eq. }
  assert (Hnret : p ∉ g_retired g) by (intros Hin%Hre; rewrite Hp in Hin; simpl in Hin; congruence).
  (* other lists do not contain the predecessor *)
  assert (Hfr : ∀ head l, hchain ps head l → (∀ q, q ∈ l → q ∉ l1) → hchain ps1 head l).
  { intros head l Hl Hq. destruct Hps1 as [->|(q & rq & v & Hq1 & _ & ->)]; [done|].
    apply hchain_frame; [|done]. intros Hin. by apply (Hq q). }
  split; cbn [g_chain g_retired set_chain].
  - lia.
  - intros b' Hb'. destruct (decide (b' = bucket_of n)) as [->|Hne].
    + exists head'. split; [done|]. apply hchain_frame; [|done]. rewrite elem_of_app. tauto.
    + destruct (Hc b' Hb') as (h & Hh' & Hcb). exists h. rewrite Hother by done. split; [done|].
      apply hchain_frame; [by apply Hnot|]. apply Hfr; [done|]. intros q Hq Hq1.
      apply He in Hq as (m & Hm & Hmb); [|done].
      assert (Hin : q ∈ g_chain g (bucket_of n)) by (rewrite Hsplit; set_solver).
      apply He in Hin as (m' & Hm' & Hmb'); [|done]. congruence.
  - intros b'. destruct (decide (b' = bucket_of n)) as [->|]; [|done].
    apply NoDup_app. apply NoDup_app in Hndb as (? & Hd2 & _). split_and!; [done| |done].
    intros x Hx Hx2. apply (Hd2 x Hx). by right.
  - intros b' q Hb'. setoid_rewrite bind_insert. destruct (decide (q = p)) as [->|Hqp].
    + destruct (decide (b' = bucket_of n)) as [->|Hne].
      * split; [rewrite elem_of_app; tauto|]. intros (m & Hm & _). congruence.
      * split; [intros Hin; by apply Hnot in Hin|]. intros (m & Hm & _). congruence.
    + setoid_rewrite (same_view_bind _ _ _ q Hvh). destruct (decide (b' = bucket_of n)) as [->|]; [|by apply He].
      rewrite <-He by done. rewrite Hsplit, !elem_of_app, elem_of_cons. naive_solver.
  - apply hchain_frame; [done|]. apply Hfr; [done|]. intros q Hq%Hre Hq1.
    assert (Hin : q ∈ g_chain g (bucket_of n)) by (rewrite Hsplit; set_solver).
    apply He in Hin as (m' & Hm' & _); [|done]. destruct (ps !! q) as [rq|]; [|done]. simpl in *.
    unfold is_retired, hashed in *. destruct (decide (published rq = 3)) as [E|]; [|done]. by rewrite E in Hm'.
  - done.
  - intros q. rewrite bind_insert. destruct (decide (q = p)) as [->|]; [|by rewrite (same_view_bind _ _ _ q Hvr)].
    rewrite Hr2. split; [intros Hin; by apply Hnret in Hin|done].
Qed.
Lemma chains_retire bs ret ps g p r r' :
  chains_inv bs ret ps g → ps !! p = Some r → p ≠ 0 → hashed r = None → is_retired r = None →
  hashed r' = None → is_retired r' = Some tt → r'.(hash_next) = ret →
  chains_inv bs p (<[p := r']> ps) (set_retired_list g (p :: g.(g_retired))).
Proof.
  intros [Hb Hc Hnd He Hret Hrnd Hre] Hp Hp0 Hh Hr Hh' Hr' Hnext.
  assert (Hnot : ∀ b', (b' < 256)%nat → p ∉ g_chain g b').
  { intros b' Hb' (m & Hm & _)%He; [|done]. rewrite Hp in Hm. simpl in Hm. congruence. }
  assert (Hnret : p ∉ g_retired g) by (intros Hin%Hre; rewrite Hp in Hin; simpl in Hin; congruence).
  split; cbn [g_chain g_retired set_retired_list]; try done.
  - intros b' Hb'. destruct (Hc b' Hb') as (h & Hh2 & Hch). exists h. split; [done|].
    apply hchain_frame; [by apply Hnot|done].
  - intros b' q Hb'. setoid_rewrite bind_insert. destruct (decide (q = p)) as [->|]; [|by apply He].
    split; [intros Hin; by apply Hnot in Hin|]. intros (m & Hm & _). congruence.
  - split; [done|]. split; [done|]. exists r'. split; [apply lookup_insert_eq|]. rewrite Hnext. by apply hchain_frame.
  - by apply NoDup_cons.
  - intros q. rewrite bind_insert, elem_of_cons. destruct (decide (q = p)) as [->|]; [by rewrite Hr'; tauto|].
    rewrite <-Hre. tauto.
Qed.
Lemma chains_unretire bs ps g p r r' l :
  chains_inv bs p ps g → g.(g_retired) = p :: l → ps !! p = Some r → is_retired r = Some tt →
  hashed r = None → hashed r' = None → is_retired r' = None →
  chains_inv bs r.(hash_next) (<[p := r']> ps) (set_retired_list g l).
Proof.
  intros [Hb Hc Hnd He Hret Hrnd Hre] Hl Hp Hr Hh Hh' Hr'. rewrite Hl in *.
  assert (Hnot : ∀ b', (b' < 256)%nat → p ∉ g_chain g b').
  { intros b' Hb' (m & Hm & _)%He; [|done]. rewrite Hp in Hm. simpl in Hm. congruence. }
  apply NoDup_cons in Hrnd as [Hnl Hnd']. simpl in Hret. destruct Hret as (_ & Hp0 & r0 & Hr0 & Hcl). simplify_eq.
  split; cbn [g_chain g_retired set_retired_list]; try done.
  - intros b' Hb'. destruct (Hc b' Hb') as (h & Hh2 & Hch). exists h. split; [done|].
    apply hchain_frame; [by apply Hnot|done].
  - intros b' q Hb'. setoid_rewrite bind_insert. destruct (decide (q = p)) as [->|]; [|by apply He].
    split; [intros Hin; by apply Hnot in Hin|]. intros (m & Hm & _). congruence.
  - by apply hchain_frame.
  - intros q. rewrite bind_insert. destruct (decide (q = p)) as [->|]; [rewrite Hr'; split; done|].
    rewrite <-Hre, elem_of_cons. naive_solver.
Qed.

(** ** Member lists *)
Lemma head_or_app nxt l1 l2 : head_or nxt (l1 ++ l2) = head_or (head_or nxt l2) l1.
Proof. by destruct l1. Qed.
Lemma last_or_cons prev x l : last_or prev (x :: l) = last_or x l.
Proof. unfold last_or. rewrite last_cons. by destruct (last l). Qed.
Lemma last_or_snoc prev x l : last_or prev (l ++ [x]) = x.
Proof. unfold last_or. by rewrite last_snoc. Qed.
Lemma mseg_app ms id rl prev l1 l2 nxt :
  mseg ms id rl prev (l1 ++ l2) nxt ↔ mseg ms id rl prev l1 (head_or nxt l2) ∧ mseg ms id rl (last_or prev l1) l2 nxt.
Proof.
  revert prev. induction l1 as [|x l1 IH]; intros prev; simpl; [naive_solver|].
  rewrite IH, head_or_app, last_or_cons. naive_solver.
Qed.
Lemma mseg_frame ms ms' id rl prev l nxt :
  (∀ x, x ∈ l → ms' !! x = ms !! x) → mseg ms id rl prev l nxt → mseg ms' id rl prev l nxt.
Proof.
  revert prev. induction l as [|x l IH]; intros prev He; [done|]. intros (Hx & (t & Ht & Hl) & Hs).
  split; [done|]. split.
  - exists t. split; [done|]. rewrite He by left. done.
  - apply IH; [|done]. intros y Hy. apply He. by right.
Qed.
Lemma mseg_frame_insert ms id rl prev l nxt x y :
  x ∉ l → mseg ms id rl prev l nxt → mseg (<[x := y]> ms) id rl prev l nxt.
Proof. intros Hx. apply mseg_frame. intros z Hz. rewrite lookup_insert_ne; [done|]. by intros ->. Qed.
Lemma mseg_lookup ms id rl prev l1 x l2 nxt :
  mseg ms id rl prev (l1 ++ x :: l2) nxt →
  ∃ t, t ≠ 0 ∧ ms !! x = Some (mk_member id (last_or prev l1) (head_or nxt l2) t rl).
Proof. intros [_ (_ & ? & _)]%mseg_app. done. Qed.
Lemma mseg_nonzero ms id rl prev l nxt x : mseg ms id rl prev l nxt → x ∈ l → x ≠ 0.
Proof.
  revert prev. induction l as [|y l IH]; intros prev Hs Hx; [by apply elem_of_nil in Hx|].
  destruct Hs as (Hy & _ & Hs). apply elem_of_cons in Hx as [->|]; [done|by eapply IH].
Qed.
(** Redirecting the last [next] of a segment, and the first [previous]. *)
Lemma mseg_redirect_last ms id rl prev l x nxt nxt' y :
  mseg ms id rl prev (l ++ [x]) nxt → x ∉ l → ms !! x = Some y →
  mseg (<[x := with_next y nxt']> ms) id rl prev (l ++ [x]) nxt'.
Proof.
  intros [H1 (Hx & (t & Ht & Hl) & _)]%mseg_app Hnin Hy. apply mseg_app. split; [by apply mseg_frame_insert|].
  split; [done|]. split; [|done]. exists t. split; [done|]. rewrite lookup_insert_eq. simplify_eq. done.
Qed.
Lemma mseg_redirect_first ms id rl prev prev' x l nxt y :
  mseg ms id rl prev (x :: l) nxt → x ∉ l → ms !! x = Some y →
  mseg (<[x := with_previous y prev']> ms) id rl prev' (x :: l) nxt.
Proof.
  intros (Hx & (t & Ht & Hl) & Hs) Hnin Hy. split; [done|]. split; [|by apply mseg_frame_insert].
  exists t. split; [done|]. rewrite lookup_insert_eq. by simplify_eq.
Qed.

(** ** Operations *)

(** Changing only the reference count keeps everything but the counts. *)
Lemma struct_with_references w g p r k :
  struct w g → w.(pids) !! p = Some r → struct (set_pid w p (with_references r k)) g.
Proof.
  intros [Hn Hc Hs Hr] Hp. split; cbn.
  - eapply numbers_ext; [|done]. by eapply same_view_insert.
  - eapply chains_ext; [..|done]; by eapply same_view_insert.
  - eapply states_insert; [done..|]. by apply (Hs p r).
  - eapply roles_ext; [|done]. by eapply same_view_insert.
Qed.
(** The counts after a change of one identity. *)
Lemma refs_change addr ps ps' g g' held held' p r' :
  refs_inv addr ps g held →
  (∀ q, q ≠ p → ((λ r, (registry r, references r)) <$> ps' !! q) = ((λ r, (registry r, references r)) <$> ps !! q)) →
  (∀ q, q ≠ p → held_of held' q = held_of held q ∧ total g' q = total g q) →
  ps' !! p = Some r' → 0 ≤ held_of held' p →
  (r'.(registry) = addr → r'.(references) = held_of held' p + total g' p ∧ 1 ≤ r'.(references) ≤ UINT32_MAX) →
  (r'.(registry) = 0 → held_of held' p = 0 ∧ total g' p = 0) →
  refs_inv addr ps' g' held'.
Proof.
  intros Hr Hv Hq Hp H0 H1 H2 q rg n. destruct (decide (q = p)) as [->|Hne].
  - rewrite Hp. intros [= <- <-]. done.
  - rewrite Hv by done. destruct (Hq q Hne) as [-> ->]. apply Hr.
Qed.
Lemma refs_insert addr ps g g' held held' p r' :
  refs_inv addr ps g held →
  (∀ q, q ≠ p → held_of held' q = held_of held q ∧ total g' q = total g q) →
  0 ≤ held_of held' p →
  (r'.(registry) = addr → r'.(references) = held_of held' p + total g' p ∧ 1 ≤ r'.(references) ≤ UINT32_MAX) →
  (r'.(registry) = 0 → held_of held' p = 0 ∧ total g' p = 0) →
  refs_inv addr (<[p := r']> ps) g' held'.
Proof.
  intros Hr Hq H0 H1 H2. eapply refs_change; [done| |done|apply lookup_insert_eq|done..].
  intros q Hne. by rewrite lookup_insert_ne.
Qed.
Lemma refs_at addr ps g held p r :
  refs_inv addr ps g held → ps !! p = Some r →
  0 ≤ held_of held p ∧
  (r.(registry) = addr → r.(references) = held_of held p + total g p ∧ 1 ≤ r.(references) ≤ UINT32_MAX) ∧
  (r.(registry) = 0 → held_of held p = 0 ∧ total g p = 0).
Proof. intros Hr Hp. apply Hr. by rewrite Hp. Qed.
Lemma held_insert held p k q : held_of (<[p := k]> held) q = if decide (q = p) then k else held_of held q.
Proof.
  unfold held_of. destruct (decide (q = p)) as [->|]; [by rewrite lookup_insert_eq|by rewrite lookup_insert_ne].
Qed.
Lemma pid_total_nonneg g p : 0 ≤ total g p.
Proof. unfold total. lia. Qed.

Lemma get_run w p r :
  w.(pids) !! p = Some r → p ≠ 0 → r.(registry) ≠ 0 → r.(published) ≤ 2 → 1 ≤ r.(references) < UINT32_MAX →
  kernel_pid_get w p = Done (set_pid w p (with_references r (r.(references) + 1))).
Proof.
  intros Hp Hp0 Hrg Hpub Href. unfold kernel_pid_get. rewrite trap_if_ok by done. run.
  rewrite (load_pid_eq _ _ _ Hp). run. rewrite trap_if_ok by lia. done.
Qed.

Lemma detach_number_run w g p r :
  struct w g → w.(pids) !! p = Some r → r.(registry) = w.(address) → r.(published) ≤ 1 →
  ∃ w' g', detach_number w p = Done w' ∧ struct w' g' ∧ g'.(g_role) = g.(g_role) ∧
    w'.(address) = w.(address) ∧ w'.(mems) = w.(mems) ∧ w'.(retired) = w.(retired) ∧
    w'.(next_generation) = w.(next_generation) ∧
    w'.(pids) !! p = Some (with_published (with_hash_next r 0) 2) ∧
    same_view (λ r, (registry r, references r)) w.(pids) w'.(pids) ∧ same_view members w.(pids) w'.(pids).
Proof.
  intros Hw Hp Hrg Hpub. pose proof Hw as [Hn Hc Hs Hr].
  destruct (Hs p r Hp) as [Hp0 Hst].
  assert (Hown : owned (address w) r = Some (number r)) by (unfold owned; by rewrite decide_True).
  destruct (n_words _ _ _ _ Hn) as (words & Hok & Ht).
  pose proof (n_range _ _ _ _ Hn p (number r) ltac:(by rewrite Hp)) as Hrange.
  destruct (release_run (numbers w) words (number r) Hok) as [[Hfree _]|(_ & a' & words' & Hrel & Hok' & Hlim & Hch)]; [lia| |].
  { assert (taken words (number r - 1) = true); [|congruence]. apply Ht; [done|]. exists p. by rewrite Hp. }
  set (r2 := with_published (with_hash_next r 0) 2).
  assert (Hown2 : owned (address w) r2 = None) by (unfold owned; rewrite decide_False; [done|]; cbn; lia).
  assert (Hst2 : state_of (address w) r2) by (right; right; left; done).
  unfold detach_number. rewrite (load_pid_eq _ _ _ Hp). run. rewrite at_registry_eq by done. run.
  destruct (decide (published r = 1)) as [Hone|Hzero].
  - assert (Hh : hashed r = Some (number r)) by (unfold hashed; by rewrite decide_True).
    assert (Hnr : is_retired r = None) by (unfold is_retired; by rewrite decide_False by lia).
    assert (Hin : p ∈ g_chain g (bucket_of (number r))).
    { apply (c_elem _ _ _ _ Hc); [apply bucket_bound|]. exists (number r). by rewrite Hp. }
    apply list_elem_of_split in Hin as (l1 & l2 & Hsplit).
    destruct (c_chain _ _ _ _ Hc _ (bucket_bound (number r))) as (head & Hhead & Hchain). rewrite Hsplit in Hchain.
    pose proof (c_nodup _ _ _ _ Hc (bucket_of (number r))) as Hnd. rewrite Hsplit in Hnd.
    destruct (unlink_run w _ head l1 p l2 r Hhead Hchain Hnd Hp)
      as (at_ & bs & ps & head' & Hfind & Hwrite & Hlen & Hother & Hhead' & Hch' & Hps).
    rewrite (aread_ok _ _ _ Hhead). run. rewrite Hfind. run. rewrite trap_if_ok by done. run. rewrite Hwrite. run.
    cbn [numbers]. rewrite Hrel. run. rewrite trap_if_ok by tauto. run.
    apply NoDup_app in Hnd as (_ & Hdis & _).
    assert (Hp1 : p ∉ l1) by (intros Hx; apply (Hdis p Hx); left).
    assert (Hpp : ps !! p = Some r).
    { destruct Hps as [->|(q & rq & Hq & _ & ->)]; [done|]. rewrite lookup_insert_ne; [done|]. by intros ->. }
    unfold load_pid. cbn [pids set_numbers]. rewrite Hpp. run. fold r2.
    assert (Hview : ∀ {B} (v : kernel_pid → B), (∀ x h, v (with_hash_next x h) = v x) → same_view v (pids w) ps).
    { intros B v Hv. destruct Hps as [->|(q & rq & _ & Hq & ->)]; [done|]. by eapply same_view_insert. }
    assert (Hview2 : ∀ {B} (v : kernel_pid → B), (∀ x h, v (with_hash_next x h) = v x) → v r2 = v r →
              same_view v (pids w) (<[p := r2]> ps)).
    { intros B v Hv Hv2 q. rewrite (same_view_insert v ps p r r2 Hpp Hv2 q). by apply Hview. }
    eexists _, (set_chain g (bucket_of (number r)) (l1 ++ l2)). split; [done|]. cbn.
    split; [|split_and!; try done; [apply lookup_insert_eq|by apply Hview2|by apply Hview2]].
    split; cbn.
    + assert (Hn2 : numbers_inv (address w) (next_generation w) (numbers w) ps) by (eapply numbers_ext; [|done]; by apply Hview).
      eapply (numbers_release _ _ _ _ words words' ps p r r2 (number r)); try done.
      intros n Hn1. rewrite Ht by done. by setoid_rewrite (λ q, same_view_bind _ _ _ q (Hview _ (owned (address w)) (λ _ _, eq_refl))).
    + apply (chains_remove (buckets w) bs _ (pids w) ps g p r r2 (number r) l1 l2 head'); try done.
      destruct Hps as [->|(q & rq & ? & ? & ->)]; [by left|right]. by exists q, rq, (hash_next r).
    + assert (Hs2 : states_inv (address w) ps).
      { destruct Hps as [->|(q & rq & Hq & Hrq & ->)]; [done|]. eapply states_insert; [done..|].
        assert (Hqin : q ∈ g_chain g (bucket_of (number r))) by (rewrite Hsplit; set_solver).
        apply (c_elem _ _ _ _ Hc) in Hqin as (m & Hm & _); [|apply bucket_bound]. rewrite Hrq in Hm. simpl in Hm.
        destruct (Hs q rq Hrq) as [_ Hstq]. unfold state_of, hashed in *. cbn.
        destruct (decide (published rq = 1)); [|done]. right. left. lia. }
      by eapply states_insert.
    + eapply (roles_ghost _ _ g); [done|]. eapply roles_ext; [|done]. by apply Hview2.
  - rewrite trap_if_ok by (unfold state_of in Hst; lia). run. rewrite Hrel. run. rewrite trap_if_ok by tauto. run.
    unfold load_pid. cbn [pids set_numbers]. rewrite Hp. run. fold r2.
    assert (Hhn : hash_next r = 0) by (unfold state_of in Hst; lia).
    assert (Hh : hashed r = None ∧ is_retired r = None) by (unfold hashed, is_retired; rewrite !decide_False by lia; done).
    eexists _, g. split; [done|]. cbn.
    split; [|split_and!; try done; [apply lookup_insert_eq|by eapply same_view_insert|by eapply same_view_insert]].
    split; cbn.
    + by eapply (numbers_release _ _ _ _ words words' _ p r r2 (number r)).
    + destruct Hh as [Hh Hnr]. eapply chains_ext; [..|done]; apply (same_view_insert _ _ _ r); try exact Hp; by rewrite ?Hhn, ?Hh, ?Hnr.
    + by eapply states_insert.
    + eapply roles_ext; [|done]. by eapply same_view_insert.
Qed.

Lemma live_registry w g p r :
  struct w g → w.(pids) !! p = Some r → r.(registry) ≠ 0 →
  p ≠ 0 ∧ r.(registry) = w.(address) ∧ 0 ≤ r.(published) ≤ 2.
Proof. intros Hw Hp Hrg. destruct (t_states _ _ Hw p r Hp) as [? Hst]. unfold state_of in Hst. lia. Qed.
Lemma held_live w g held p r :
  struct w g → refs_inv w.(address) w.(pids) g held → w.(pids) !! p = Some r → 0 < held_of held p + total g p →
  r.(registry) ≠ 0.
Proof. intros Hw Hr Hp Hh H0. destruct (refs_at _ _ _ _ _ _ Hr Hp) as (_ & _ & Hz). specialize (Hz H0). lia. Qed.

Lemma members_empty_spec l k count :
  (∀ i, (k ≤ i < k + count)%nat → l !! i = Some 0) → members_empty l k count = Done tt.
Proof.
  revert k. induction count as [|count IH]; intros k Hl; [done|]. cbn [members_empty].
  rewrite (aread_ok _ _ 0) by (apply Hl; lia). run. rewrite trap_if_ok by (by intros []). run.
  apply IH. intros i Hi. apply Hl. lia.
Qed.
Lemma roles_head w g p r k :
  struct w g → w.(pids) !! p = Some r → (k < 4)%nat →
  r.(members) !! k = Some (head_or 0 (g.(g_role) p k)) ∧ mseg w.(mems) p (Z.of_nat k) 0 (g.(g_role) p k) 0.
Proof. intros Hw Hp Hk. apply (r_members _ _ _ (t_roles _ _ Hw) p (members r)); [by rewrite Hp|done]. Qed.
Lemma pid_total_zero g p k : total g p = 0 → (k < 4)%nat → g.(g_role) p k = [].
Proof.
  unfold total. intros Ht Hk. apply length_zero_iff_nil.
  destruct k as [|[|[|[|k]]]]; lia.
Qed.

(** The end of the last reference: the identity goes to the retired list. *)
Lemma retire_struct w g p r :
  struct w g → w.(pids) !! p = Some r → r.(published) = 2 →
  struct (set_retired (set_pid w p (with_hash_next (with_registry (with_published r 3) 0) w.(retired))) p)
    (set_retired_list g (p :: g.(g_retired))).
Proof.
  intros Hw Hp Hpub. pose proof Hw as [Hn Hc Hs Hr]. destruct (Hs p r Hp) as [Hp0 Hst].
  assert (Hnone : hashed r = None ∧ is_retired r = None) by (unfold hashed, is_retired; by rewrite !decide_False by lia).
  pose proof (n_address _ _ _ _ Hn) as Haddr. split; cbn.
  - eapply numbers_ext; [|done]. apply (same_view_insert _ _ _ r _ Hp). unfold owned. cbn. by rewrite !decide_False by lia.
  - apply (chains_retire (buckets w) (retired w) (pids w) g p r); try done; apply Hnone.
  - eapply states_insert; [done..|]. by right; right; right.
  - eapply (roles_ghost _ _ g); [done|]. eapply roles_ext; [|done]. by eapply same_view_insert.
Qed.

Lemma put_run w g held p r :
  struct w g → refs_inv w.(address) w.(pids) g held → w.(pids) !! p = Some r → 0 < held_of held p →
  ∃ w' g', kernel_pid_put w p = Done w' ∧ struct w' g' ∧
    refs_inv w'.(address) w'.(pids) g' (<[p := held_of held p - 1]> held).
Proof.
  intros Hw Hr Hp Hheld. pose proof (pid_total_nonneg g p) as Htot.
  pose proof (held_live w g held p r Hw Hr Hp ltac:(lia)) as Hrg.
  destruct (live_registry w g p r Hw Hp Hrg) as (Hp0 & Haddr & Hpub).
  destruct (refs_at _ _ _ _ _ _ Hr Hp) as (_ & Hcount & _). destruct (Hcount Haddr) as [Hrefs Hbound].
  unfold kernel_pid_put. rewrite trap_if_ok by done. run. rewrite (load_pid_eq _ _ _ Hp). run.
  rewrite trap_if_ok by lia. run. set (w1 := set_pid w p _).
  pose proof (struct_with_references w g p r (references r - 1) Hw Hp) as Hw1. fold w1 in Hw1.
  assert (Hp1 : w1.(pids) !! p = Some (with_references r (references r - 1))) by apply lookup_insert_eq.
  destruct (decide (references r - 1 ≠ 0)) as [Hmore|Hlast].
  { exists w1, g. split; [done|]. split; [done|]. apply refs_insert with g held; [done| | | |].
    - intros q Hq. by rewrite held_insert, decide_False.
    - rewrite held_insert, decide_True by done. lia.
    - rewrite held_insert, decide_True by done. cbn. intros _. lia.
    - done. }
  assert (Hz : total g p = 0) by lia. change (Z.to_nat KERNEL_PID_ROLES) with 4%nat. rewrite members_empty_spec.
  2: { intros k Hk. rewrite (proj1 (roles_head w g p r k Hw Hp ltac:(lia))).
       by rewrite (pid_total_zero g p k Hz) by lia. }
  run.
  assert (Hdet : ∃ w2 g2 r2, (if decide (published r ≠ 2) then detach_number w1 p else Done w1) = Done w2 ∧
    struct w2 g2 ∧ g2.(g_role) = g.(g_role) ∧ w2.(address) = w.(address) ∧
    w2.(pids) !! p = Some r2 ∧ r2.(published) = 2 ∧
    same_view (λ r, (registry r, references r)) w1.(pids) w2.(pids)).
  { destruct (decide (published r ≠ 2)) as [Hne|He%dec_stable].
    - destruct (detach_number_run w1 g p _ Hw1 Hp1) as (w2 & g2 & -> & ? & ? & ? & _ & _ & _ & ? & ? & _); [done|cbn; lia|].
      eexists w2, g2, _. by split_and!.
    - eexists w1, g, _. split_and!; try done. }
  destruct Hdet as (w2 & g2 & r2 & -> & Hw2 & Hg2 & Haddr2 & Hp2 & Hpub2 & Hview). run.
  rewrite at_registry_eq by congruence. run. rewrite (load_pid_eq _ _ _ Hp2). run.
  eexists _, _. split; [done|]. split; [by apply retire_struct|]. cbn [address pids set_retired set_pid].
  rewrite Haddr2. eapply refs_change; [exact Hr| | |apply lookup_insert_eq|..].
  - intros q Hq. rewrite lookup_insert_ne by done. rewrite (Hview q). unfold w1. cbn. by rewrite lookup_insert_ne.
  - intros q Hq. rewrite held_insert, decide_False by done. split; [done|]. unfold total. cbn. by rewrite Hg2.
  - rewrite held_insert, decide_True by done. lia.
  - cbn. intros H0. by destruct (n_address _ _ _ _ (t_numbers _ _ Hw)).
  - intros _. rewrite held_insert, decide_True by done. split; [lia|]. unfold total in *. cbn. rewrite Hg2. lia.
Qed.
