(* ===== verification/PidHistoryTheory.v ===== *)
(** * Histories of the identity registry

    Reservation, publication and the member operations, and the theorem that
    every history of calls that own what they give back is safe. *)
From S2P Require Import Prelude Pid PidRegistryTheory PidOpsTheory.
Import Pid.
#[local] Open Scope Z_scope.

(** ** Changing one member list *)
Definition untied (ms : gmap Z kernel_pid_member) (y : Z) : Prop := ∃ x, ms !! y = Some x ∧ x.(identity) = 0.

Lemma mseg_elem ms id rl prev l nxt y :
  mseg ms id rl prev l nxt → y ∈ l → y ≠ 0 ∧ ∃ x, ms !! y = Some x ∧ x.(identity) = id ∧ x.(role) = rl.
Proof.
  intros Hs (l1 & l2 & ->)%list_elem_of_split. split; [eapply mseg_nonzero; [done|set_solver]|].
  destruct (mseg_lookup _ _ _ _ _ _ _ _ Hs) as (t & _ & Hx). eexists. by split; [done|].
Qed.
Lemma roles_update ps ms ms' g p r k l' lnew m0 :
  roles_inv ps ms g → (∀ q, is_Some (ps !! q) → q ≠ 0) → ps !! p = Some r → (k < 4)%nat →
  length l' = 4%nat → l' !! k = Some (head_or 0 lnew) → (∀ k', k' ≠ k → l' !! k' = r.(members) !! k') →
  mseg ms' p (Z.of_nat k) 0 lnew 0 → NoDup lnew →
  (∀ y, y ∉ lnew → y ≠ m0 → ms' !! y = ms !! y) →
  (∀ y, y ∈ g.(g_role) p k → y ∈ lnew ∨ y = m0) →
  (∀ y, y ∈ lnew ∨ y = m0 → y ∈ g.(g_role) p k ∨ untied ms y) →
  (∀ x, ms' !! m0 = Some x → x.(identity) ≠ 0 → m0 ∈ lnew) →
  roles_inv (<[p := with_members r l']> ps) ms' (set_role g p k lnew).
Proof.
  intros Hr Hnz Hp Hk Hlen Hhead Hl' Hseg Hnd Hframe Hold Hnew Hm0.
  assert (Hpl : (members <$> ps !! p) = Some (members r)) by (by rewrite Hp).
  destruct (r_members _ _ _ Hr p _ Hpl) as [_ Hrp].
  (* the other lists are untouched *)
  assert (Hkeep : ∀ q rq k', ps !! q = Some rq → (k' < 4)%nat → ¬ (q = p ∧ k' = k) → ∀ y, y ∈ g_role g q k' → ms' !! y = ms !! y).
  { intros q rq k' Hq Hk' Hne y Hy. assert (Hql : (members <$> ps !! q) = Some (members rq)) by (by rewrite Hq).
    destruct (proj2 (r_members _ _ _ Hr q _ Hql) k' Hk') as [_ Hs'].
    destruct (mseg_elem _ _ _ _ _ _ _ Hs' Hy) as (_ & x & Hx & Hid & Hro).
    assert (Hno : ¬ (y ∈ lnew ∨ y = m0)).
    { intros Hin. destruct (Hnew y Hin) as [Hin'|(x' & Hx' & Hz)].
      - destruct (mseg_elem _ _ _ _ _ _ _ (proj2 (Hrp k Hk)) Hin') as (_ & x2 & Hx2 & Hid2 & Hro2). simplify_eq. apply Hne.
        split; [congruence|lia].
      - rewrite Hx in Hx'. injection Hx' as <-. apply (Hnz q); [eauto|congruence]. }
    apply Hframe; tauto. }
  split.
  - intros q l Hq. destruct (decide (q = p)) as [->|Hqp].
    + rewrite lookup_insert_eq in Hq. injection Hq as <-. cbn. split; [done|]. intros k' Hk'.
      destruct (decide (k' = k)) as [->|Hne]; [rewrite decide_True by done; done|].
      rewrite Hl', decide_False by naive_solver. destruct (Hrp k' Hk') as [Hh Hs']. split; [done|].
      eapply mseg_frame; [|exact Hs']. apply (Hkeep p r); naive_solver.
    + rewrite lookup_insert_ne in Hq by done. destruct (r_members _ _ _ Hr q l Hq) as [Hll Hks]. split; [done|].
      intros k' Hk'. cbn. rewrite decide_False by naive_solver. destruct (Hks k' Hk') as [Hh Hs']. split; [done|].
      destruct (ps !! q) as [rq|] eqn:Hrq; [|done]. eapply mseg_frame; [|exact Hs']. apply (Hkeep q rq); naive_solver.
  - intros q k'. cbn. destruct (decide _); [done|apply Hr].
  - intros m x Hx Hid. cbn. assert (Hcase : m ∈ lnew ∨ ms !! m = Some x ∧ m ∉ lnew ∧ m ≠ m0).
    { destruct (decide (m ∈ lnew)) as [|Hnin]; [by left|right]. destruct (decide (m = m0)) as [->|Hne].
      - destruct Hnin. eauto.
      - rewrite Hframe in Hx by done. done. }
    assert (Hsome : ∀ q, is_Some (ps !! q) → is_Some (<[p := with_members r l']> ps !! q)).
    { intros q Hq. destruct (decide (q = p)) as [->|]; [rewrite lookup_insert_eq; eauto|by rewrite lookup_insert_ne]. }
    destruct Hcase as [Hin|(Hx' & Hnin & Hne)].
    + destruct (mseg_elem _ _ _ _ _ _ _ Hseg Hin) as (Hm & x2 & Hx2 & Hid2 & Hro2).
      rewrite Hx in Hx2. injection Hx2 as <-. rewrite Hid2, Hro2. split_and!; [done|rewrite lookup_insert_eq; eauto|lia|lia|].
      rewrite Nat2Z.id, decide_True by done. done.
    + destruct (r_elem _ _ _ Hr m x Hx' Hid) as (Hm & Hs & Hrr & Hin). split_and!; [done|by apply Hsome|lia|lia|].
      rewrite decide_False; [done|]. intros [Hip Hk']. rewrite Hip, Hk' in Hin. destruct (Hold m Hin); done.
Qed.
Lemma total_set_role g p k l q :
  (k < 4)%nat →
  total (set_role g p k l) q =
    if decide (q = p) then total g p + Z.of_nat (length l) - Z.of_nat (length (g.(g_role) p k)) else total g q.
Proof.
  intros Hk. unfold total, set_role. cbn [g_role]. destruct (decide (q = p)) as [->|Hne].
  - destruct k as [|[|[|[|k]]]]; [..|lia]; repeat first [rewrite decide_True by done|rewrite decide_False by naive_solver]; lia.
  - by rewrite !decide_False by naive_solver.
Qed.

(** The two pointer writes around a position of a list. *)
Lemma store_next_run w p r k l1 nxt x :
  w.(pids) !! p = Some r → length r.(members) = 4%nat → (k < 4)%nat →
  r.(members) !! k = Some (head_or nxt l1) → mseg w.(mems) p (Z.of_nat k) 0 l1 nxt → NoDup l1 →
  ∃ l' ms, store_next w (last_or 0 l1) p (Z.of_nat k) x =
      Done (mk_world w.(address) w.(numbers) w.(buckets) w.(retired) w.(next_generation)
              (<[p := with_members r l']> w.(pids)) ms) ∧
    length l' = 4%nat ∧ l' !! k = Some (head_or x l1) ∧ (∀ k', k' ≠ k → l' !! k' = r.(members) !! k') ∧
    mseg ms p (Z.of_nat k) 0 l1 x ∧ ∀ y, y ∉ l1 → ms !! y = w.(mems) !! y.
Proof.
  intros Hp Hlen Hk Hhead Hs Hnd. unfold store_next. destruct l1 as [|z l1' _] using rev_ind.
  - cbn. rewrite (load_pid_eq _ _ _ Hp). run. rewrite Nat2Z.id. rewrite awrite_ok by lia. run.
    eexists _, _. split; [done|]. split; [by rewrite length_insert|]. split; [apply list_lookup_insert_eq; lia|].
    split; [intros k' Hk'; by rewrite list_lookup_insert_ne|]. done.
  - rewrite last_or_snoc. apply NoDup_app in Hnd as (_ & Hdis & _).
    assert (Hz : z ∉ l1') by (intros Hin; apply (Hdis z Hin); left).
    rewrite decide_True by (eapply mseg_nonzero; [done|set_solver]).
    destruct (mseg_lookup _ _ _ _ l1' z [] nxt Hs) as (t & _ & Hy). rewrite (load_mem_eq _ _ _ Hy). run.
    eexists (members r), _. split.
    { unfold set_mem. do 2 f_equal. symmetry. apply insert_id. by destruct r. }
    split; [done|]. split; [rewrite Hhead; f_equal; by destruct l1'|]. split; [done|]. split.
    + by eapply mseg_redirect_last.
    + intros y Hy'. rewrite lookup_insert_ne; [done|]. intros ->. set_solver.
Qed.
Lemma store_previous_run w p k l2 prev x :
  mseg w.(mems) p k prev l2 0 → NoDup l2 →
  ∃ ms, store_previous w (head_or 0 l2) x =
      Done (mk_world w.(address) w.(numbers) w.(buckets) w.(retired) w.(next_generation) w.(pids) ms) ∧
    mseg ms p k x l2 0 ∧ ∀ y, y ∉ l2 → ms !! y = w.(mems) !! y.
Proof.
  intros Hs Hnd. unfold store_previous. destruct l2 as [|z l2]; cbn.
  - exists w.(mems). by destruct w.
  - pose proof Hs as (Hz & (t & _ & Hy) & _). rewrite decide_True by done. rewrite (load_mem_eq _ _ _ Hy). run.
    apply NoDup_cons in Hnd as [Hnz _]. eexists. split; [done|]. split.
    + by eapply mseg_redirect_first.
    + intros y Hy'. rewrite lookup_insert_ne; [done|]. intros ->. set_solver.
Qed.

(** ** Reservation and publication *)
Lemma set_numbers_id w : set_numbers w w.(numbers) = w.
Proof. by destruct w. Qed.

Lemma reserve_struct w g p r a' words words' n :
  struct w g → w.(pids) !! p = Some r → r.(registry) = 0 → r.(published) = 0 →
  w.(next_generation) ≤ KERNEL_PID_GENERATION_MAX →
  numbers_ok w.(numbers) words →
  (∀ n, 1 ≤ n ≤ w.(numbers).(limit) → taken words (n - 1) = true ↔ ∃ p, (w.(pids) !! p ≫= owned w.(address)) = Some n) →
  1 ≤ n ≤ w.(numbers).(limit) → taken words (n - 1) = false → numbers_ok a' words' →
  a'.(limit) = w.(numbers).(limit) → changed words words' (n - 1) true →
  struct (set_pid (set_next_generation (set_numbers w a') (w.(next_generation) + 1)) p
            (mk_pid n 1 w.(next_generation) r.(published) w.(address) r.(hash_next) r.(members))) g.
Proof.
  intros [Hn Hc Hs Hr] Hp Hrg Hpub Hgen Hok Ht Hrange Hfree Hok' Hlim Hch.
  pose proof (n_address _ _ _ _ Hn) as Haddr. destruct (Hs p r Hp) as [Hp0 Hst].
  assert (Hhn : hash_next r = 0) by (unfold state_of in Hst; lia).
  split; cbn.
  - eapply (numbers_reserve _ _ _ _ words words' _ p r _ n); try done.
    + unfold owned. rewrite decide_False by lia. done.
    + unfold owned. cbn. rewrite decide_True by lia. done.
  - eapply chains_ext; [..|done]; apply (same_view_insert _ _ _ r _ Hp); try done;
      unfold hashed; cbn; by rewrite !decide_False by lia.
  - eapply states_insert; [done..|]. left. cbn. split_and!; [done..|by right].
  - eapply roles_ext; [|done]. by apply (same_view_insert _ _ _ r _ Hp).
Qed.
Lemma reserve_run w held p r :
  registry_ok w held → w.(pids) !! p = Some r →
  ∃ s w', kernel_pid_reserve w p = Done (s, w') ∧
    registry_ok w' (if decide (s = KERNEL_PID_STATUS_OK) then <[p := 1]> held else held) ∧
    (s = KERNEL_PID_STATUS_OK → ∃ r', w'.(pids) !! p = Some r' ∧ r'.(registry) ≠ 0 ∧ r'.(references) = 1 ∧
       r'.(published) = 0).
Proof.
  intros (g & Hw & Href) Hp. pose proof Hw as [Hn Hc Hs Hr]. destruct (Hs p r Hp) as [Hp0 Hst].
  assert (Hsame : registry_ok w held) by (by exists g).
  unfold kernel_pid_reserve. rewrite decide_False by done. rewrite (load_pid_eq _ _ _ Hp). run.
  destruct (decide (registry r ≠ 0 ∨ _)) as [|Hfresh]; [eexists _, _; split; [done|]; done|].
  destruct (decide (KERNEL_PID_GENERATION_MAX < next_generation w)); [eexists _, _; split; [done|]; done|].
  assert (Hrg : registry r = 0) by lia. assert (Hpub : published r = 0) by lia.
  destruct (n_words _ _ _ _ Hn) as (words & Hok & Ht).
  destruct (allocate_run (numbers w) words Hok) as [[-> _]|(s & a' & words' & -> & Hs' & Hfree & _ & Hok' & Hlim & Hch)]; run.
  { rewrite decide_True by done. eexists _, _. split; [done|]. rewrite decide_False by done. by rewrite set_numbers_id. }
  rewrite decide_False by tauto. eexists _, _. split; [done|]. rewrite decide_True by done.
  split; [|intros _; eexists; split; [apply lookup_insert_eq|]; cbn; split_and!; [apply Hn|done..]].
  destruct (round_index (numbers w) words s Hok Hs') as [_ Hrd].
  destruct (refs_at _ _ _ _ _ _ Href Hp) as (_ & _ & Hzero). destruct (Hzero Hrg) as [_ Htot].
  exists g. split.
  - apply (reserve_struct w g p r a' words words'); try done; try lia;
      by replace (round (numbers w) s + 1 - 1) with (round (numbers w) s) by lia.
  - cbn. eapply refs_insert; [done| |..].
    + intros q Hq. by rewrite held_insert, decide_False.
    + by rewrite held_insert, decide_True.
    + intros _. rewrite held_insert, decide_True by done. cbn. mlia.
    + cbn. intros H0. by destruct (n_address _ _ _ _ Hn).
Qed.

Lemma publish_reserved_run w held p r :
  registry_ok w held → w.(pids) !! p = Some r →
  ∃ s w', kernel_pid_publish_reserved w p = Done (s, w') ∧ registry_ok w' held ∧
    (r.(registry) ≠ 0 → r.(references) ≠ 0 → r.(published) = 0 → s = KERNEL_PID_STATUS_OK).
Proof.
  intros (g & Hw & Href) Hp. pose proof Hw as [Hn Hc Hs Hr]. destruct (Hs p r Hp) as [Hp0 Hst].
  unfold kernel_pid_publish_reserved. rewrite decide_False by done. rewrite (load_pid_eq _ _ _ Hp). run.
  destruct (decide (registry r = 0 ∨ _)) as [|Hres];
    [eexists _, _; split; [done|]; split; [by exists g|lia]|].
  assert (Hrg : registry r = address w ∧ hash_next r = 0) by (unfold state_of in Hst; lia). destruct Hrg as [Hrg Hhn].
  assert (Hpub : published r = 0) by lia. rewrite at_registry_eq by done. run.
  assert (Hown : (pids w !! p ≫= owned (address w)) = Some (number r)).
  { rewrite Hp. simpl. unfold owned. by rewrite decide_True by lia. }
  assert (Hh : hashed r = None ∧ is_retired r = None) by (unfold hashed, is_retired; by rewrite !decide_False by lia).
  pose proof (n_range _ _ _ _ Hn _ _ Hown) as Hrange.
  destruct (find_run w g (number r) Hw) as (q & -> & Hq); [lia|]. run.
  assert (q = 0) as ->.
  { destruct Hq as [[_ Hq]|[-> _]]; [|done]. pose proof (hashed_owned _ _ _ _ Hs Hq) as Hq'.
    rewrite (n_unique _ _ _ _ Hn _ _ _ Hq' Hown), Hp in Hq. simpl in Hq. by rewrite (proj1 Hh) in Hq. }
  rewrite trap_if_ok by lia. run.
  destruct (c_chain _ _ _ _ Hc (bucket_of (number r)) (bucket_bound _)) as (head & Hhead & _).
  rewrite (aread_ok _ _ _ Hhead). run. cbn [buckets set_pid]. rewrite awrite_ok by (by eapply lookup_lt_Some). run.
  eexists _, _. split; [done|]. split; [|done]. exists (set_chain g (bucket_of (number r)) (p :: g_chain g (bucket_of (number r)))).
  split; [split; cbn|].
  - eapply numbers_ext; [|done]. apply (same_view_insert _ _ _ r _ Hp). unfold owned. cbn. by rewrite !decide_True by lia.
  - eapply (chains_push (buckets w) _ (pids w) g p r _ _ (number r)); try done; apply Hh.
  - eapply states_insert; [done..|]. right. left. done.
  - eapply (roles_ghost _ _ g); [done|]. eapply roles_ext; [|done]. by apply (same_view_insert _ _ _ r _ Hp).
  - cbn. eapply (refs_ext _ (pids w)); [by apply (same_view_insert _ _ _ r _ Hp)|done].
Qed.
Lemma pid_publish_run w held p r :
  registry_ok w held → w.(pids) !! p = Some r →
  ∃ s w', kernel_pid_publish w p = Done (s, w') ∧
    registry_ok w' (if decide (s = KERNEL_PID_STATUS_OK) then <[p := 1]> held else held).
Proof.
  intros Hw Hp. unfold kernel_pid_publish.
  destruct (reserve_run w held p r Hw Hp) as (s & w1 & -> & Hw1 & Hres). run.
  destruct (decide (s ≠ KERNEL_PID_STATUS_OK)) as [Hne|He%dec_stable].
  { eexists _, _. split; [done|]. by rewrite decide_False in * by done. }
  subst s. rewrite decide_True in Hw1 by done. destruct (Hres eq_refl) as (r' & Hr' & Hrg & Href & Hpub).
  destruct (publish_reserved_run w1 _ p r' Hw1 Hr') as (s & w2 & -> & Hw2 & Hs).
  rewrite (Hs Hrg ltac:(lia) Hpub). eexists _, _. split; [done|]. by rewrite decide_True.
Qed.

(** ** Members *)
Lemma struct_keys w g q : struct w g → is_Some (w.(pids) !! q) → q ≠ 0.
Proof. intros Hw [r Hr]. by apply (t_states _ _ Hw q r). Qed.
Lemma untied_not_member w g p r k m :
  struct w g → w.(pids) !! p = Some r → (k < 4)%nat → untied w.(mems) m → m ∉ g.(g_role) p k.
Proof.
  intros Hw Hp Hk (x & Hx & Hid) Hin. destruct (roles_head w g p r k Hw Hp Hk) as [_ Hs].
  destruct (mseg_elem _ _ _ _ _ _ _ Hs Hin) as (_ & x' & Hx' & Hid' & _).
  apply (struct_keys w g p Hw); [eauto|congruence].
Qed.
(** A structural change confined to the member lists of one identity. *)
Lemma struct_members w g p r l' ms g' :
  struct w g → w.(pids) !! p = Some r →
  g'.(g_chain) = g.(g_chain) → g'.(g_retired) = g.(g_retired) →
  roles_inv (<[p := with_members r l']> w.(pids)) ms g' →
  struct (mk_world w.(address) w.(numbers) w.(buckets) w.(retired) w.(next_generation)
            (<[p := with_members r l']> w.(pids)) ms) g'.
Proof.
  intros [Hn Hc Hs Hr] Hp Hg1 Hg2 Hroles. split; cbn.
  - eapply numbers_ext; [|done]. by apply (same_view_insert _ _ _ r _ Hp).
  - assert (Hc' : chains_inv (buckets w) (retired w) (pids w) g').
    { destruct Hc. split; rewrite ?Hg1, ?Hg2; done. }
    eapply chains_ext; [..|done]; by apply (same_view_insert _ _ _ r _ Hp).
  - eapply states_insert; [done..|]. by apply (Hs p r).
  - done.
Qed.

Lemma attach_run w held m x p r k task_ :
  registry_ok w held → m ≠ 0 → w.(mems) !! m = Some x → x.(identity) = 0 → task_ ≠ 0 → (k < 4)%nat →
  w.(pids) !! p = Some r → r.(registry) ≠ 0 → r.(published) ≤ 1 → r.(references) < UINT32_MAX →
  ∃ w', kernel_pid_attach w m p (Z.of_nat k) task_ = Done w' ∧ registry_ok w' held.
Proof.
  intros (g & Hw & Href) Hm Hx Hid Ht Hk Hp Hrg Hpub Hmax.
  destruct (live_registry w g p r Hw Hp Hrg) as (Hp0 & Haddr & Hpub').
  destruct (refs_at _ _ _ _ _ _ Href Hp) as (Hh0 & Hcount & _). destruct (Hcount Haddr) as [Hrefs Hbound].
  assert (Hunt : untied (mems w) m) by (by exists x).
  pose proof (untied_not_member w g p r k m Hw Hp Hk Hunt) as Hnin. set (l := g_role g p k) in *.
  unfold kernel_pid_attach. rewrite trap_if_ok by done. run. rewrite (load_mem_eq _ _ _ Hx). run.
  rewrite trap_if_ok by (unfold KERNEL_PID_ROLES; lia). run. rewrite (load_pid_eq _ _ _ Hp). run.
  rewrite trap_if_ok by lia. run. rewrite (get_run w p r) by (done || lia). run.
  set (r1 := with_references r (references r + 1)). set (w1 := set_pid w p r1).
  assert (Hp1 : w1.(pids) !! p = Some r1) by apply lookup_insert_eq.
  pose proof (struct_with_references w g p r (references r + 1) Hw Hp) as Hw1. fold r1 w1 in Hw1.
  rewrite (load_pid_eq _ _ _ Hp1). run. rewrite Nat2Z.id.
  destruct (roles_head w1 g p r1 k Hw1 Hp1 Hk) as [Hhead Hs]. fold l in Hhead, Hs.
  rewrite (aread_ok _ _ _ Hhead). run. set (w2 := set_mem w1 m _).
  assert (Hs2 : mseg w2.(mems) p (Z.of_nat k) 0 l 0) by (by apply mseg_frame_insert).
  pose proof (r_nodup _ _ _ (t_roles _ _ Hw) p k) as Hnd. fold l in Hnd.
  destruct (store_previous_run w2 p (Z.of_nat k) l 0 m Hs2 Hnd) as (ms & -> & Hms & Hfr). run.
  rewrite (load_pid_eq _ p r1) by done. run.
  pose proof (proj1 (r_members _ _ _ (t_roles _ _ Hw1) p (members r1) ltac:(by rewrite Hp1))) as Hlen.
  rewrite awrite_ok by lia. run. eexists. split; [done|]. exists (set_role g p k (m :: l)). split.
  - apply (struct_members w1 g p r1 _ ms); try done.
    apply (roles_update (pids w1) (mems w1) ms g p r1 k _ (m :: l) m); try done.
    + apply Hw1.
    + intros q. by apply (struct_keys w1 g).
    + by rewrite length_insert.
    + apply list_lookup_insert_eq. lia.
    + intros k' Hk'. by rewrite list_lookup_insert_ne.
    + split; [done|]. split; [|done]. exists task_. split; [done|]. rewrite Hfr by done. apply lookup_insert_eq.
    + by apply NoDup_cons.
    + intros y Hy Hne. rewrite Hfr by set_solver. apply lookup_insert_ne. congruence.
    + intros y Hy. left. by right.
    + intros y Hy. fold l. assert (y = m ∨ y ∈ l) as [->|]; [set_solver|by right|by left].
    + intros. left.
  - cbn. eapply refs_change; [exact Href| | |apply lookup_insert_eq|done|..].
    + intros q Hq. by rewrite !lookup_insert_ne.
    + intros q Hq. by rewrite total_set_role, decide_False.
    + intros _. rewrite total_set_role, decide_True by done. cbn. fold l. mlia.
    + cbn. intros. congruence.
Qed.

(** Where an attached member is. *)
Lemma member_position w g m x :
  struct w g → w.(mems) !! m = Some x → x.(identity) ≠ 0 →
  ∃ r k l1 l2, w.(pids) !! x.(identity) = Some r ∧ (k < 4)%nat ∧ x.(role) = Z.of_nat k ∧ m ≠ 0 ∧
    g.(g_role) x.(identity) k = l1 ++ m :: l2 ∧ NoDup (l1 ++ m :: l2) ∧
    x.(previous) = last_or 0 l1 ∧ x.(next) = head_or 0 l2 ∧ x.(task) ≠ 0 ∧
    length r.(members) = 4%nat ∧ r.(members) !! k = Some (head_or m l1) ∧
    mseg w.(mems) x.(identity) (Z.of_nat k) 0 l1 m ∧ mseg w.(mems) x.(identity) (Z.of_nat k) m l2 0.
Proof.
  intros Hw Hx Hid. destruct (r_elem _ _ _ (t_roles _ _ Hw) m x Hx Hid) as (Hm & [r Hr] & Hro & Hin).
  apply list_elem_of_split in Hin as (l1 & l2 & Hl). set (k := Z.to_nat (role x)) in *.
  assert (Hk : (k < 4)%nat) by lia. destruct (roles_head w g _ r k Hw Hr Hk) as [Hhead Hs].
  pose proof (r_nodup _ _ _ (t_roles _ _ Hw) (identity x) k) as Hnd. rewrite Hl in Hhead, Hs, Hnd.
  destruct (mseg_lookup _ _ _ _ _ _ _ _ Hs) as (t & Ht & Hx'). rewrite Hx in Hx'. injection Hx' as Hx'.
  apply mseg_app in Hs as [Hs1 (_ & _ & Hs2)]. rewrite head_or_app in Hhead.
  change (head_or 0 (m :: l2)) with m in *.
  exists r, k, l1, l2. split_and!; try done; [lia|by rewrite Hx'|by rewrite Hx'|by rewrite Hx'|].
  apply (r_members _ _ _ (t_roles _ _ Hw) (identity x) (members r)). by rewrite Hr.
Qed.

Lemma first_role_run l k count :
  (k + count ≤ length l)%nat → ∃ n, first_role l k count = Done n.
Proof.
  revert k. induction count as [|count IH]; intros k Hl; [by eexists|]. cbn [first_role].
  destruct (lookup_lt_is_Some_2 l k) as [z Hz]; [lia|]. rewrite (aread_ok _ _ _ Hz). run.
  destruct (decide (z = 0)); [apply IH; lia|by eexists].
Qed.

(** Unlinking a member: its reference is now the caller's. *)
Lemma unlink_member_run w g held m x :
  struct w g → refs_inv w.(address) w.(pids) g held → w.(mems) !! m = Some x → x.(identity) ≠ 0 →
  ∃ r l' ms g' w3,
    (w ← store_next w x.(previous) x.(identity) x.(role) x.(next); store_previous w x.(next) x.(previous)) =
      Done (mk_world w.(address) w.(numbers) w.(buckets) w.(retired) w.(next_generation)
              (<[x.(identity) := with_members r l']> w.(pids)) ms) ∧
    w3 = mk_world w.(address) w.(numbers) w.(buckets) w.(retired) w.(next_generation)
              (<[x.(identity) := with_members r l']> w.(pids)) (<[m := mk_member 0 0 0 0 x.(role)]> ms) ∧
    w.(pids) !! x.(identity) = Some r ∧ r.(registry) = w.(address) ∧ length l' = 4%nat ∧ struct w3 g' ∧
    refs_inv w3.(address) w3.(pids) g' (<[x.(identity) := held_of held x.(identity) + 1]> held).
Proof.
  intros Hw Href Hx Hid.
  destruct (member_position w g m x Hw Hx Hid)
    as (r & k & l1 & l2 & Hp & Hk & Hro & Hm & Hl & Hnd & Hprev & Hnext & _ & Hlen & Hhead & Hs1 & Hs2).
  set (p := identity x) in *. apply NoDup_app in Hnd as (Hnd1 & Hdis & Hnd2). apply NoDup_cons in Hnd2 as [Hm2 Hnd2].
  assert (Hm1 : m ∉ l1) by (intros Hin; apply (Hdis m Hin); left).
  assert (H12 : ∀ y, y ∈ l1 → y ∉ l2) by (intros y H1 H2; apply (Hdis y H1); by right).
  assert (Hlenl : Z.of_nat (length (g_role g p k)) = Z.of_nat (length (l1 ++ l2)) + 1) by (rewrite Hl, !length_app; simpl; lia).
  rewrite Hprev, Hnext, Hro.
  destruct (store_next_run w p r k l1 m (head_or 0 l2) Hp Hlen Hk Hhead Hs1 Hnd1)
    as (l' & ms1 & -> & Hlen' & Hhead' & Hother & Hms1 & Hfr1). run.
  set (w1 := mk_world _ _ _ _ _ _ ms1).
  assert (Hs2' : mseg w1.(mems) p (Z.of_nat k) m l2 0).
  { eapply mseg_frame; [|exact Hs2]. intros y Hy. apply Hfr1. intros Hy1. by apply (H12 y). }
  destruct (store_previous_run w1 p (Z.of_nat k) l2 m (last_or 0 l1) Hs2' Hnd2) as (ms2 & -> & Hms2 & Hfr2). cbn in Hfr2.
  assert (Hseg : mseg (<[m := mk_member 0 0 0 0 (Z.of_nat k)]> ms2) p (Z.of_nat k) 0 (l1 ++ l2) 0).
  { apply mseg_frame_insert; [rewrite elem_of_app; tauto|]. apply mseg_app. split; [|done].
    eapply mseg_frame; [|exact Hms1]. intros y Hy. apply Hfr2. by apply H12. }
  eexists r, l', ms2, (set_role g p k (l1 ++ l2)), _. split; [done|]. split; [done|]. split; [done|].
  destruct (refs_at _ _ _ _ _ _ Href Hp) as (Hh0 & Hcount & Hzero).
  assert (Hrg : registry r = address w).
  { apply (live_registry w g p r Hw Hp). intros H0. destruct (Hzero H0) as [_ Ht].
    rewrite (pid_total_zero g p k Ht Hk) in Hl. by destruct l1. }
  destruct (Hcount Hrg) as [Hrefs Hbound]. split; [done|]. split; [done|]. split.
  - apply (struct_members w g p r); try done.
    apply (roles_update (pids w) (mems w) _ g p r k l' (l1 ++ l2) m); try done.
    + apply Hw.
    + intros q. by apply (struct_keys w g).
    + by rewrite head_or_app.
    + apply NoDup_app. split_and!; done.
    + intros y Hy Hne. rewrite lookup_insert_ne by done. rewrite Hfr2, Hfr1 by set_solver. done.
    + intros y Hy. rewrite Hl in Hy. set_solver.
    + intros y Hy. left. rewrite Hl. set_solver.
    + intros x' Hx'. rewrite lookup_insert_eq in Hx'. injection Hx' as <-. by intros [].
  - cbn. eapply refs_change; [exact Href| | |apply lookup_insert_eq|..].
    + intros q Hq. by rewrite lookup_insert_ne.
    + intros q Hq. by rewrite held_insert, total_set_role, !decide_False.
    + rewrite held_insert, decide_True by done. lia.
    + intros _. rewrite held_insert, total_set_role, !decide_True by done. cbn. lia.
    + cbn. intros H0. by destruct (n_address _ _ _ _ (t_numbers _ _ Hw)); congruence.
Qed.

Lemma refs_held addr ps g held held' :
  (∀ q, held_of held' q = held_of held q) → refs_inv addr ps g held → refs_inv addr ps g held'.
Proof. intros He Hr p rg n Hp. rewrite He. by apply Hr. Qed.

Lemma detach_run w held m x :
  registry_ok w held → m ≠ 0 → w.(mems) !! m = Some x → x.(identity) ≠ 0 →
  ∃ w', kernel_pid_detach w m = Done w' ∧ registry_ok w' held.
Proof.
  intros (g & Hw & Href) Hm Hx Hid.
  destruct (unlink_member_run w g held m x Hw Href Hx Hid)
    as (r & l' & ms & g' & w3 & Hrun & Hw3 & Hp & Hrg & Hlen & Hst & Href3).
  apply bind_Done in Hrun as (w1 & Hrun1 & Hrun2).
  unfold kernel_pid_detach. rewrite trap_if_ok by done. run. rewrite (load_mem_eq _ _ _ Hx). run.
  rewrite trap_if_ok by done. run. rewrite Hrun1. run. rewrite Hrun2. run.
  assert (Hset : set_mem (mk_world (address w) (numbers w) (buckets w) (retired w) (next_generation w)
    (<[identity x := with_members r l']> (pids w)) ms) m (mk_member 0 0 0 0 (role x)) = w3) by (by rewrite Hw3).
  rewrite Hset. clear Hset Hrun1 Hrun2.
  assert (Hp3 : w3.(pids) !! identity x = Some (with_members r l')) by (rewrite Hw3; apply lookup_insert_eq).
  assert (Ha3 : address w3 = address w) by (by rewrite Hw3).
  rewrite (load_pid_eq _ _ _ Hp3). run. cbn [published members with_members].
  set (p := identity x) in *. set (held1 := <[p := held_of held p + 1]> held) in *.
  assert (Hmid : ∃ w4 g4, (if decide (published r = 1) then
      n ← first_role l' 0 (Z.to_nat KERNEL_PID_ROLES);
      if decide (Z.of_nat n = KERNEL_PID_ROLES) then detach_number w3 p else Done w3 else Done w3) = Done w4 ∧
      struct w4 g4 ∧ refs_inv w4.(address) w4.(pids) g4 held1 ∧ ∃ r4, w4.(pids) !! p = Some r4).
  { destruct (decide (published r = 1)) as [Hone|]; [|exists w3, g'; split_and!; eauto].
    destruct (first_role_run l' 0 (Z.to_nat KERNEL_PID_ROLES)) as [n ->]; [by rewrite Hlen|]. run.
    destruct (decide (Z.of_nat n = KERNEL_PID_ROLES)); [|exists w3, g'; split_and!; eauto].
    destruct (detach_number_run w3 g' p _ Hst Hp3) as (w4 & g4 & -> & Hw4 & Hg4 & Ha4 & _ & _ & _ & Hp4 & Hv & _);
      [cbn; congruence|cbn; lia|].
    exists w4, g4. split; [done|]. split; [done|]. split; [|eauto]. rewrite Ha4.
    assert (Htot : ∀ q, total g4 q = total g' q) by (intros q; unfold total; by rewrite Hg4).
    intros q rg n' Hq. rewrite Htot. rewrite (Hv q) in Hq. by apply Href3. }
  destruct Hmid as (w4 & g4 & -> & Hw4 & Href4 & r4 & Hp4). run.
  assert (Hheld1 : held_of held1 p = held_of held p + 1) by (unfold held1; by rewrite held_insert, decide_True).
  destruct (refs_at _ _ _ _ _ _ Href Hp) as (Hh0 & _).
  destruct (put_run w4 g4 held1 p r4 Hw4 Href4 Hp4) as (w5 & g5 & -> & Hw5 & Href5); [lia|].
  exists w5. split; [done|]. exists g5. split; [done|]. eapply refs_held; [|exact Href5].
  intros q. unfold held1. rewrite !held_insert. destruct (decide (q = p)) as [->|]; [|done].
  rewrite decide_True by done. lia.
Qed.

Lemma transfer_run w held old x new y task_ :
  registry_ok w held → old ≠ 0 → w.(mems) !! old = Some x → x.(identity) ≠ 0 →
  new ≠ 0 → w.(mems) !! new = Some y → y.(identity) = 0 → task_ ≠ 0 →
  ∃ w', kernel_pid_transfer w old new task_ = Done w' ∧ registry_ok w' held.
Proof.
  intros (g & Hw & Href) Hold Hx Hid Hnew Hy Hyid Ht.
  destruct (member_position w g old x Hw Hx Hid)
    as (r & k & l1 & l2 & Hp & Hk & Hro & _ & Hl & Hnd & Hprev & Hnext & _ & Hlen & Hhead & Hs1 & Hs2).
  assert (Hunt : untied (mems w) new) by (by exists y).
  pose proof (untied_not_member w g _ r k new Hw Hp Hk Hunt) as Hnin. rewrite Hl in Hnin.
  set (p := identity x) in *. apply NoDup_app in Hnd as (Hnd1 & Hdis & Hnd2). apply NoDup_cons in Hnd2 as [Hm2 Hnd2].
  assert (Hm1 : old ∉ l1) by (intros Hin; apply (Hdis old Hin); left).
  assert (H12 : ∀ z, z ∈ l1 → z ∉ l2) by (intros z H1 H2; apply (Hdis z H1); by right).
  assert (Hn1 : new ∉ l1 ∧ new ≠ old ∧ new ∉ l2) by set_solver. destruct Hn1 as (Hn1 & Hno & Hn2).
  unfold kernel_pid_transfer. rewrite trap_if_ok by done. run. rewrite (load_mem_eq _ _ _ Hx). run.
  rewrite trap_if_ok by tauto. run. rewrite (load_mem_eq _ _ _ Hy). run. rewrite trap_if_ok by tauto. run.
  fold p. rewrite Hprev, Hnext, Hro. set (w1 := set_mem w new _).
  assert (Hp1 : w1.(pids) !! p = Some r) by done.
  assert (Hs1' : mseg w1.(mems) p (Z.of_nat k) 0 l1 old) by (by apply mseg_frame_insert).
  destruct (store_next_run w1 p r k l1 old new Hp1 Hlen Hk Hhead Hs1' Hnd1)
    as (l' & ms1 & -> & Hlen' & Hhead' & Hother & Hms1 & Hfr1). run.
  set (w2 := mk_world _ _ _ _ _ _ ms1).
  assert (Hs2' : mseg w2.(mems) p (Z.of_nat k) old l2 0).
  { eapply mseg_frame; [|exact Hs2]. intros z Hz. cbn. rewrite Hfr1 by (intros Hz1; by apply (H12 z)).
    apply lookup_insert_ne. congruence. }
  destruct (store_previous_run w2 p (Z.of_nat k) l2 old new Hs2' Hnd2) as (ms2 & -> & Hms2 & Hfr2). cbn in Hfr2. run.
  eexists. split; [done|]. exists (set_role g p k (l1 ++ new :: l2)).
  assert (Hseg : mseg (<[old := mk_member 0 0 0 0 (Z.of_nat k)]> ms2) p (Z.of_nat k) 0 (l1 ++ new :: l2) 0).
  { apply mseg_frame_insert; [set_solver|]. apply mseg_app. split.
    - eapply mseg_frame; [|exact Hms1]. intros z Hz. apply Hfr2. by apply H12.
    - split; [done|]. split; [|done]. exists task_. split; [done|]. rewrite Hfr2, Hfr1 by done. apply lookup_insert_eq. }
  split.
  - apply (struct_members w g p r); try done.
    apply (roles_update (pids w) (mems w) _ g p r k l' (l1 ++ new :: l2) old); try done.
    + apply Hw.
    + intros q. by apply (struct_keys w g).
    + by rewrite head_or_app.
    + apply NoDup_app. split; [done|]. split; [set_solver|]. by apply NoDup_cons.
    + intros z Hz Hne. rewrite lookup_insert_ne by done. rewrite Hfr2, Hfr1 by set_solver.
      apply lookup_insert_ne. set_solver.
    + intros z Hz. rewrite Hl in Hz. set_solver.
    + intros z Hz. rewrite Hl. assert (z = new ∨ z ∈ l1 ++ old :: l2) as [->|]; [set_solver|by right|by left].
    + intros x' Hx'. rewrite lookup_insert_eq in Hx'. injection Hx' as <-. by intros [].
  - cbn. assert (Htot : ∀ q, total (set_role g p k (l1 ++ new :: l2)) q = total g q).
    { intros q. rewrite total_set_role by done. destruct (decide (q = p)) as [->|]; [|done].
      rewrite Hl, !length_app. simpl. lia. }
    intros q rg n. rewrite Htot. intros Hq. apply Href.
    rewrite <-Hq. symmetry. by apply (same_view_insert (λ r, (registry r, references r)) (pids w) p r _ Hp).
Qed.

Lemma take_retired_run w held :
  registry_ok w held → ∃ p w', kernel_pid_take_retired w = Done (p, w') ∧ registry_ok w' held.
Proof.
  intros (g & Hw & Href). pose proof Hw as [Hn Hc Hs Hr]. unfold kernel_pid_take_retired.
  destruct (decide (retired w ≠ 0)) as [Hnz|]; [|eexists _, _; split; [done|]; by exists g].
  pose proof (c_retired _ _ _ _ Hc) as Hch. destruct (g_retired g) as [|p l] eqn:Hl; [done|].
  destruct Hch as (Hret & _ & r & Hp & _). rewrite Hret in *. rewrite (load_pid_eq _ _ _ Hp). run.
  assert (Hpub : published r = 3).
  { assert (Hin : p ∈ g_retired g) by (rewrite Hl; left). apply (c_ret_elem _ _ _ _ Hc) in Hin. rewrite Hp in Hin.
    simpl in Hin. unfold is_retired in Hin. by destruct (decide (published r = 3)). }
  destruct (Hs p r Hp) as [Hp0 Hst]. assert (Hrg : registry r = 0) by (unfold state_of in Hst; lia).
  rewrite trap_if_ok by tauto. run. eexists _, _. split; [done|]. exists (set_retired_list g l).
  unfold set_pid, set_retired. cbn [address numbers buckets retired next_generation pids mems].
  rewrite insert_insert_eq. pose proof (n_address _ _ _ _ Hn). split; [split; cbn|].
  - eapply numbers_ext; [|done]. apply (same_view_insert _ _ _ r _ Hp). unfold owned. cbn. by rewrite !decide_False by lia.
  - apply (chains_unretire _ (pids w) g p r); try done; unfold hashed, is_retired; cbn.
    + by rewrite decide_True.
    + by rewrite decide_False by lia.
  - eapply states_insert; [done..|]. left. cbn. split_and!; [done..|by left].
  - eapply (roles_ghost _ _ g); [done|]. eapply roles_ext; [|done]. by apply (same_view_insert _ _ _ r _ Hp).
  - cbn. eapply (refs_ext _ (pids w)); [by apply (same_view_insert _ _ _ r _ Hp)|done].
Qed.

(** ** Histories

    [held] counts, per identity, the references the callers own: reserving
    gives one, getting adds one, putting gives one back. *)
Inductive call :=
  | Reserve (p : Z)
  | Publish_reserved (p : Z)
  | Publish (p : Z)
  | Get (p : Z)
  | Put (p : Z)
  | Attach (m p : Z) (k : nat) (task_ : Z)
  | Detach (m : Z)
  | Transfer (old new task_ : Z)
  | Take_retired.
(** What the caller of each operation has to guarantee. *)
Definition call_ok (w : world) (held : gmap Z Z) (c : call) : Prop :=
  match c with
  | Reserve p | Publish_reserved p | Publish p => is_Some (w.(pids) !! p)
  | Get p => ∃ r, w.(pids) !! p = Some r ∧ r.(registry) ≠ 0 ∧ r.(references) < UINT32_MAX
  | Put p => is_Some (w.(pids) !! p) ∧ 0 < held_of held p
  | Attach m p k task_ => m ≠ 0 ∧ untied w.(mems) m ∧ task_ ≠ 0 ∧ (k < 4)%nat ∧
      ∃ r, w.(pids) !! p = Some r ∧ r.(registry) ≠ 0 ∧ r.(published) ≤ 1 ∧ r.(references) < UINT32_MAX
  | Detach m => m ≠ 0 ∧ ∃ x, w.(mems) !! m = Some x ∧ x.(identity) ≠ 0
  | Transfer old new task_ => old ≠ 0 ∧ new ≠ 0 ∧ task_ ≠ 0 ∧ untied w.(mems) new ∧
      ∃ x, w.(mems) !! old = Some x ∧ x.(identity) ≠ 0
  | Take_retired => True
  end.
Definition run_call (w : world) (held : gmap Z Z) (c : call) : outcome (world * gmap Z Z) :=
  let reserved (r : kernel_pid_status * world) p :=
    Done (r.2, if decide (r.1 = KERNEL_PID_STATUS_OK) then <[p := 1]> held else held) in
  match c with
  | Reserve p => r ← kernel_pid_reserve w p; reserved r p
  | Publish_reserved p => '(_, w) ← kernel_pid_publish_reserved w p; Done (w, held)
  | Publish p => r ← kernel_pid_publish w p; reserved r p
  | Get p => w ← kernel_pid_get w p; Done (w, <[p := held_of held p + 1]> held)
  | Put p => w ← kernel_pid_put w p; Done (w, <[p := held_of held p - 1]> held)
  | Attach m p k task_ => w ← kernel_pid_attach w m p (Z.of_nat k) task_; Done (w, held)
  | Detach m => w ← kernel_pid_detach w m; Done (w, held)
  | Transfer old new task_ => w ← kernel_pid_transfer w old new task_; Done (w, held)
  | Take_retired => '(_, w) ← kernel_pid_take_retired w; Done (w, held)
  end.
Fixpoint run_calls (w : world) (held : gmap Z Z) (cs : list call) : outcome (world * gmap Z Z) :=
  match cs with
  | [] => Done (w, held)
  | c :: cs => '(w, held) ← run_call w held c; run_calls w held cs
  end.
(** Each call of the history is allowed in the state it finds. *)
Fixpoint calls_ok (w : world) (held : gmap Z Z) (cs : list call) : Prop :=
  match cs with
  | [] => True
  | c :: cs => call_ok w held c ∧ ∀ w' held', run_call w held c = Done (w', held') → calls_ok w' held' cs
  end.

Lemma get_call_run w held p r :
  registry_ok w held → w.(pids) !! p = Some r → r.(registry) ≠ 0 → r.(references) < UINT32_MAX →
  ∃ w', kernel_pid_get w p = Done w' ∧ registry_ok w' (<[p := held_of held p + 1]> held).
Proof.
  intros (g & Hw & Href) Hp Hrg Hmax. destruct (live_registry w g p r Hw Hp Hrg) as (Hp0 & Haddr & Hpub).
  destruct (refs_at _ _ _ _ _ _ Href Hp) as (Hh0 & Hcount & _). destruct (Hcount Haddr) as [Hrefs Hbound].
  rewrite (get_run w p r) by (done || lia). eexists. split; [done|]. exists g.
  split; [by apply struct_with_references|]. cbn. eapply refs_insert; [done| |..].
  - intros q Hq. by rewrite held_insert, decide_False.
  - rewrite held_insert, decide_True by done. lia.
  - intros _. rewrite held_insert, decide_True by done. cbn. mlia.
  - cbn. done.
Qed.
Lemma pid_run_call_spec w held c :
  registry_ok w held → call_ok w held c → ∃ w' held', run_call w held c = Done (w', held') ∧ registry_ok w' held'.
Proof.
  intros Hw Hc. destruct c as [p|p|p|p|p|m p k t|m|old new t|]; cbn [call_ok run_call] in *.
  - destruct Hc as [r Hr]. destruct (reserve_run w held p r Hw Hr) as (s & w' & -> & Hw' & _). run. eauto.
  - destruct Hc as [r Hr]. destruct (publish_reserved_run w held p r Hw Hr) as (s & w' & -> & Hw' & _). run. eauto.
  - destruct Hc as [r Hr]. destruct (pid_publish_run w held p r Hw Hr) as (s & w' & -> & Hw'). run. eauto.
  - destruct Hc as (r & Hr & ? & ?). destruct (get_call_run w held p r) as (w' & -> & Hw'); [done..|]. run. eauto.
  - destruct Hc as [[r Hr] Hh]. destruct Hw as (g & Hw & Href).
    destruct (put_run w g held p r Hw Href Hr Hh) as (w' & g' & -> & Hw' & Href'). run. eexists _, _. split; [done|]. by exists g'.
  - destruct Hc as (? & (x & ? & ?) & ? & ? & r & ? & ? & ? & ?).
    destruct (attach_run w held m x p r k t) as (w' & -> & Hw'); [done..|]. run. eauto.
  - destruct Hc as (? & x & ? & ?). destruct (detach_run w held m x) as (w' & -> & Hw'); [done..|]. run. eauto.
  - destruct Hc as (? & ? & ? & (y & ? & ?) & x & ? & ?).
    destruct (transfer_run w held old x new y t) as (w' & -> & Hw'); [done..|]. run. eauto.
  - destruct (take_retired_run w held Hw) as (p & w' & -> & Hw'). run. eauto.
Qed.

Lemma run_calls_safe w held cs :
  registry_ok w held → calls_ok w held cs →
  ∃ w' held', run_calls w held cs = Done (w', held') ∧ registry_ok w' held'.
Proof.
  revert w held. induction cs as [|c cs IH]; intros w held Hw Hcs; cbn [run_calls calls_ok] in *; [eauto|].
  destruct Hcs as [Hc Hcs]. destruct (pid_run_call_spec w held c Hw Hc) as (w1 & held1 & Hrun & Hw1).
  rewrite Hrun. run. by apply IH; [|apply Hcs].
Qed.

(** C6: in every history in which each reference that is put was obtained and
    each detached member was attached, no registry operation reaches a trap, a
    null or dangling pointer or an endless chain, and afterwards: a number is
    taken exactly while an identity owns it, so none leaks, and no two identities
    own the same one; the reference count of a live identity is the number of its
    members plus the references callers hold, and is positive; and the retired
    list threads exactly the identities whose last reference is gone. *)
Theorem pid_registry_safe w held cs :
  registry_ok w held → calls_ok w held cs →
  ∃ w' held' g words, run_calls w held cs = Done (w', held') ∧ struct w' g ∧
    w'.(numbers).(bitmap) = Some words ∧
    (∀ n, 1 ≤ n ≤ w'.(numbers).(limit) →
       taken words (n - 1) = true ↔ ∃ p r, w'.(pids) !! p = Some r ∧ owned w'.(address) r = Some n) ∧
    (∀ p q r r' n, w'.(pids) !! p = Some r → w'.(pids) !! q = Some r' →
       owned w'.(address) r = Some n → owned w'.(address) r' = Some n → p = q) ∧
    (∀ p r, w'.(pids) !! p = Some r → r.(registry) = w'.(address) →
       r.(references) = held_of held' p + total g p ∧ 0 < r.(references)) ∧
    hchain w'.(pids) w'.(retired) g.(g_retired) ∧
    (∀ p r, w'.(pids) !! p = Some r → (r.(published) = 3 ↔ p ∈ g.(g_retired))).
Proof.
  intros Hw Hcs. destruct (run_calls_safe w held cs Hw Hcs) as (w' & held' & -> & g & Hs & Href).
  destruct (n_words _ _ _ _ (t_numbers _ _ Hs)) as (words & Hok & Ht).
  exists w', held', g, words. split; [done|]. split; [done|]. split; [apply Hok|]. split; [|split; [|split; [|split]]].
  - intros n Hn. rewrite (Ht n Hn). split.
    + intros [p Hp]. apply bind_Some in Hp as (r & ? & ?). eauto.
    + intros (p & r & Hp & Hr). exists p. by rewrite Hp.
  - intros p q r r' n Hp Hq Hr Hr'.
    apply (n_unique _ _ _ _ (t_numbers _ _ Hs) p q n); by rewrite ?Hp, ?Hq.
  - intros p r Hp Ha. destruct (refs_at _ _ _ _ _ _ Href Hp) as (_ & Hc & _). specialize (Hc Ha). lia.
  - apply (c_retired _ _ _ _ (t_chains _ _ Hs)).
  - intros p r Hp. rewrite (c_ret_elem _ _ _ _ (t_chains _ _ Hs) p), Hp. simpl. unfold is_retired.
    destruct (decide (published r = 3)); naive_solver.
Qed.

(** ** A registry at boot *)
Definition blank_pid : kernel_pid := mk_pid 0 0 0 0 0 0 (replicate 4 0).
Definition blank_member : kernel_pid_member := mk_member 0 0 0 0 0.
(** The registry at [addr] over an empty allocator, and unused objects. *)
Definition boot_world (addr lim : Z) (ids ms : gset Z) : world :=
  mk_world addr
    (mk_allocator (Some (replicate (Z.to_nat (KERNEL_PID_BITMAP_WORDS lim)) 0)) lim 0 0 KERNEL_PID_ALLOCATOR_INITIALIZED)
    (replicate 256 0) 0 1 (gset_to_gmap blank_pid ids) (gset_to_gmap blank_member ms).
Lemma boot_taken n i : taken (replicate n 0) i = false.
Proof.
  unfold taken. destruct (replicate n 0 !! _) eqn:E; [|done]. apply lookup_replicate in E as [-> _]. apply Z.testbit_0_l.
Qed.
Lemma boot_pid (ids : gset Z) p r : gset_to_gmap blank_pid ids !! p = Some r → r = blank_pid ∧ p ∈ ids.
Proof. intros H. apply lookup_gset_to_gmap_Some in H. naive_solver. Qed.
Lemma boot_none {A} (view : kernel_pid → option A) (ids : gset Z) p x :
  view blank_pid = None → (gset_to_gmap blank_pid ids !! p ≫= view) = Some x → False.
Proof. intros Hv H. apply bind_Some in H as (r & Hr & H). apply boot_pid in Hr as [-> _]. congruence. Qed.
Lemma boot_numbers addr lim ids :
  addr ≠ 0 → 0 < lim ≤ INT32_MAX →
  numbers_inv addr 1 (numbers (boot_world addr lim ids ∅)) (gset_to_gmap blank_pid ids).
Proof.
  intros Ha Hl. assert (Hno : owned addr blank_pid = None).
  { unfold owned. rewrite decide_False; [done|]. simpl. intros [? _]. congruence. }
  split; [done|done| | |].
  - eexists. split.
    + split; cbn; try done; try lia.
      * rewrite length_replicate, Z2Nat.id; [done|]. apply Z.div_pos; [apply Z.mod_pos_bound|]; lia.
      * unfold taken_below. induction (seqZ 0 lim) as [|i l IH]; [done|].
        rewrite filter_cons, decide_False; [done|]. by rewrite boot_taken.
      * apply Forall_replicate. done.
    + intros n _. rewrite boot_taken. split; [done|]. intros [p Hp]. by apply boot_none in Hp.
  - intros p n Hp. by apply boot_none in Hp.
  - intros p q n Hp. by apply boot_none in Hp.
Qed.
Lemma boot_registry addr lim ids ms :
  addr ≠ 0 → 0 < lim ≤ INT32_MAX → 0 ∉ ids → registry_ok (boot_world addr lim ids ms) ∅.
Proof.
  intros Ha Hl H0. exists (mk_ghost (λ _, []) [] (λ _ _, [])). split.
  - split; cbn -[replicate].
    + by apply boot_numbers.
    + split; cbn -[replicate].
      * done.
      * intros b Hb. exists 0. split; [by apply lookup_replicate_2|done].
      * constructor.
      * intros b p _. split; [by intros ?%elem_of_nil|]. intros (n & Hn & _). by apply boot_none in Hn.
      * done.
      * constructor.
      * intros p. split; [by intros ?%elem_of_nil|]. intros Hn. by apply boot_none in Hn.
    + intros p r Hp. apply boot_pid in Hp as [-> Hp]. split; [by intros ->|]. left. cbn. auto.
    + split; cbn -[replicate].
      * intros p l Hp. apply fmap_Some in Hp as (r & Hr & ->). apply boot_pid in Hr as [-> _]. split; [done|].
        intros k Hk. split; [by apply (lookup_replicate_2 4)|done].
      * constructor.
      * intros m x Hm. apply lookup_gset_to_gmap_Some in Hm as [_ <-]. done.
  - intros p rg n Hp. apply fmap_Some in Hp as (r & Hr & Hp). apply boot_pid in Hr as [-> _]. cbn in Hp.
    injection Hp as -> ->. unfold held_of. rewrite lookup_empty. cbn. split; [done|]. split; [congruence|done].
Qed.

(** Four identities at 16, 32, 48, 64 and two members at 80, 96: two identities
    are published, the second is joined by both members and loses its number when
    it is put, a third is reserved, and a fourth is retired and taken back. *)
Definition demo_world : world := boot_world 8 70 {[16; 32; 48; 64]} {[80; 96]}.
Definition demo_calls : list call :=
  [Publish 16; Publish 32; Attach 80 16 0 1000; Attach 96 16 0 1001; Reserve 48; Get 32;
   Publish 64; Put 64; Take_retired; Detach 80; Put 32].
(** The state after a history, for evaluation. *)
Definition after_calls (w : world) (cs : list call) : world * gmap Z Z :=
  match run_calls w ∅ cs with Done r => r | Fault _ => (w, ∅) end.
Lemma demo_registry : registry_ok demo_world ∅.
Proof. apply boot_registry; [done|done|]. set_solver. Qed.
(** [calls_ok] as a computation. *)
Definition holds {A} (o : option A) (P : A → Prop) `{!∀ x, Decision (P x)} : bool :=
  match o with Some x => bool_decide (P x) | None => false end.
Definition call_okb (w : world) (held : gmap Z Z) (c : call) : bool :=
  match c with
  | Reserve p | Publish_reserved p | Publish p => holds (w.(pids) !! p) (λ _, True)
  | Get p => holds (w.(pids) !! p) (λ r, r.(registry) ≠ 0 ∧ r.(references) < UINT32_MAX)
  | Put p => holds (w.(pids) !! p) (λ _, 0 < held_of held p)
  | Attach m p k task_ => bool_decide (m ≠ 0 ∧ task_ ≠ 0 ∧ (k < 4)%nat) &&
      holds (w.(mems) !! m) (λ x, x.(identity) = 0) &&
      holds (w.(pids) !! p) (λ r, r.(registry) ≠ 0 ∧ r.(published) ≤ 1 ∧ r.(references) < UINT32_MAX)
  | Detach m => bool_decide (m ≠ 0) && holds (w.(mems) !! m) (λ x, x.(identity) ≠ 0)
  | Transfer old new task_ => bool_decide (old ≠ 0 ∧ new ≠ 0 ∧ task_ ≠ 0) &&
      holds (w.(mems) !! new) (λ x, x.(identity) = 0) && holds (w.(mems) !! old) (λ x, x.(identity) ≠ 0)
  | Take_retired => true
  end.
Fixpoint calls_okb (w : world) (held : gmap Z Z) (cs : list call) : bool :=
  match cs with
  | [] => true
  | c :: cs => call_okb w held c &&
      match run_call w held c with Done (w, held) => calls_okb w held cs | Fault _ => false end
  end.
Lemma holds_elim {A} (o : option A) (P : A → Prop) `{!∀ x, Decision (P x)} : holds o P = true → ∃ x, o = Some x ∧ P x.
Proof. destruct o as [x|]; [|done]. intros Hx%bool_decide_eq_true. eauto. Qed.
Lemma call_okb_sound w held c : call_okb w held c = true → call_ok w held c.
Proof.
  destruct c; cbn [call_okb call_ok]; unfold untied;
    rewrite ?andb_true_iff, ?bool_decide_eq_true; intros H; destruct_and?;
    repeat match goal with H : holds _ _ = true |- _ => apply holds_elim in H as (? & ? & ?) end; naive_solver.
Qed.
Lemma calls_okb_sound w held cs : calls_okb w held cs = true → calls_ok w held cs.
Proof.
  revert w held. induction cs as [|c cs IH]; intros w held; cbn [calls_okb calls_ok]; [done|].
  intros [Hc Hcs]%andb_true_iff. split; [by apply call_okb_sound|]. intros w' held' Hrun. rewrite Hrun in Hcs. auto.
Qed.
Lemma demo_calls_ok : calls_ok demo_world ∅ demo_calls.
Proof. apply calls_okb_sound. by vm_compute. Qed.

Lemma pid_registry_safe_witness :
  ∃ w' held' g words, run_calls demo_world ∅ demo_calls = Done (w', held') ∧
    (references <$> w'.(pids) !! 16 = Some 2 ∧ held_of held' 16 = 1) ∧
    struct w' g ∧ w'.(numbers).(bitmap) = Some words ∧
    (∀ p r, w'.(pids) !! p = Some r → (r.(published) = 3 ↔ p ∈ g.(g_retired))).
Proof.
  destruct (pid_registry_safe demo_world ∅ demo_calls demo_registry demo_calls_ok)
    as (w' & held' & g & words & Hrun & Hs & Hb & _ & _ & _ & _ & Hret).
  exists w', held', g, words. split; [exact Hrun|]. split; [|by split_and!].
  assert (E : after_calls demo_world demo_calls = (w', held')) by (unfold after_calls; by rewrite Hrun).
  assert (E1 : (after_calls demo_world demo_calls).1 = w') by (by rewrite E).
  assert (E2 : (after_calls demo_world demo_calls).2 = held') by (by rewrite E).
  rewrite <- E1, <- E2. split; by vm_compute.
Defined.

(** C34: in every consistent registry [kernel_pid_find] returns the identity that
    is published under a number, and null exactly when there is none, and
    [kernel_pid_next_published] returns the published identity with the least
    number greater than its argument: reserved and detached numbers are
    invisible, the chain walk and the bit loops terminate, and every bitmap word
    and hash chain is read inside its storage. *)
Theorem pid_lookup_exact w held n after :
  registry_ok w held → 0 < n → 0 ≤ after ≤ INT32_MAX →
  (∃ q, kernel_pid_find w n = Done q ∧
    ((q ≠ 0 ∧ ∃ r, w.(pids) !! q = Some r ∧ r.(published) = 1 ∧ r.(number) = n) ∨
     (q = 0 ∧ ∀ p r, w.(pids) !! p = Some r → r.(published) = 1 → r.(number) ≠ n))) ∧
  (∃ q, kernel_pid_next_published w after = Done q ∧
    ((q ≠ 0 ∧ ∃ r, w.(pids) !! q = Some r ∧ r.(published) = 1 ∧ after < r.(number) ∧
        ∀ p r', w.(pids) !! p = Some r' → r'.(published) = 1 → after < r'.(number) → r.(number) ≤ r'.(number)) ∨
     (q = 0 ∧ ∀ p r, w.(pids) !! p = Some r → r.(published) = 1 → r.(number) ≤ after))).
Proof.
  intros (g & Hw & _) Hn Ha.
  assert (Hh : ∀ q k, (w.(pids) !! q ≫= hashed) = Some k ↔ ∃ r, w.(pids) !! q = Some r ∧ r.(published) = 1 ∧ r.(number) = k).
  { intros q k. destruct (pids w !! q) as [r|]; simpl; [|naive_solver]. unfold hashed.
    destruct (decide (published r = 1)); naive_solver. }
  split.
  - destruct (find_run w g n Hw Hn) as (q & Hrun & Hq). exists q. split; [done|].
    destruct Hq as [[? Hq]|[-> Hq]]; [left|right]; (split; [done|]); [by apply Hh|].
    intros p r Hp Hpub He. apply (Hq p), Hh. eauto.
  - destruct (n_words _ _ _ _ (t_numbers _ _ Hw)) as (words & Hok & Ht).
    destruct (next_published_run w g words Hw Hok Ht after Ha) as (q & Hrun & Hq). exists q. split; [done|].
    destruct Hq as [(? & k & Hk & Hlt & Hno)|[-> Hno]]; [left|right]; (split; [done|]).
    + apply Hh in Hk as (r & Hr & Hpub & <-). exists r. split_and!; [done..|]. intros p r' Hp Hpub' Hlt'.
      apply Z.nlt_ge. intros Hless. apply (Hno (number r')); [lia|]. exists p. apply Hh. eauto.
    + intros p r Hp Hpub. apply Z.nlt_ge. intros Hless. apply (Hno (number r) Hless). exists p. apply Hh. eauto.
Qed.
(** After the history above number 1 is still published, number 2 is too, and
    the reserved number 3 is not found. *)
Lemma after_demo_registry : registry_ok (after_calls demo_world demo_calls).1 (after_calls demo_world demo_calls).2.
Proof.
  destruct (run_calls_safe demo_world ∅ demo_calls demo_registry demo_calls_ok) as (w' & held' & Hrun & Hw).
  unfold after_calls. by rewrite Hrun.
Qed.
Lemma pid_lookup_exact_witness :
  kernel_pid_find (after_calls demo_world demo_calls).1 3 = Done 0 ∧
  kernel_pid_next_published (after_calls demo_world demo_calls).1 1 = Done 32 ∧
  ∃ q, kernel_pid_find (after_calls demo_world demo_calls).1 2 = Done q ∧
    ((q ≠ 0 ∧ ∃ r, (after_calls demo_world demo_calls).1.(pids) !! q = Some r ∧ r.(published) = 1 ∧ r.(number) = 2) ∨
     (q = 0 ∧ ∀ p r, (after_calls demo_world demo_calls).1.(pids) !! p = Some r → r.(published) = 1 → r.(number) ≠ 2)).
Proof.
  split; [by vm_compute|]. split; [by vm_compute|].
  exact (proj1 (pid_lookup_exact _ _ 2 1 after_demo_registry ltac:(done) ltac:(done))).
Defined.
