(* ===== verification/RecordLock.v ===== *)
(** * Byte-range locks ([fs/record_lock.c], [fs/files/locks.c])

    Every inode keeps its locks in an AVL tree that is ordered by start offset
    and carries the maximum end of each subtree; every owner threads its locks
    through an intrusive list whose back pointers point at the pointer to the
    lock.  The fields of a lock are a record in [locks]; the four fields only
    the tree uses ([left], [right], [height], [max_end]) are the nodes of
    [tree], which own their subtrees.  A null pointer is 0. *)
From S2P Require Import Prelude Heap.
Import Heap.
#[local] Open Scope Z_scope.

Module RecordLock.

Definition KERNEL_EAGAIN : Z := 11.
Definition KERNEL_EINVAL : Z := 22.
Definition KERNEL_ENOLCK : Z := 37.
Definition KERNEL_EOVERFLOW : Z := 75.
(** Conversion to [int8_t]. *)
Definition s8 (x : Z) : Z := (x + 128) mod 256 - 128.

(** What [owner_previous] points at: the owner's head or the [owner_next] of
    another lock. *)
Inductive place := Owner_head (head : Z) | Owner_next (lock : Z).
#[export] Instance place_eq_dec : EqDecision place.
Proof. solve_decision. Defined.
Record kernel_record_lock := mk_lock {
  owner_next : Z; owner_previous : option place;
  state : Z; owner : Z;
  start : Z; end_ : Z;
  pid : Z; type : Z; kind : Z;
}.
Definition zeroed : kernel_record_lock := mk_lock 0 None 0 0 0 0 0 0 0.
Definition with_links (d : kernel_record_lock) (next : Z) (previous : option place) : kernel_record_lock :=
  mk_lock next previous d.(state) d.(owner) d.(start) d.(end_) d.(pid) d.(type) d.(kind).
Definition with_state (d : kernel_record_lock) (st : Z) : kernel_record_lock :=
  mk_lock d.(owner_next) d.(owner_previous) st d.(owner) d.(start) d.(end_) d.(pid) d.(type) d.(kind).
Definition with_range (d : kernel_record_lock) (s e : Z) : kernel_record_lock :=
  mk_lock d.(owner_next) d.(owner_previous) d.(state) d.(owner) s e d.(pid) d.(type) d.(kind).
Definition with_identity (d : kernel_record_lock) (o k p ty : Z) : kernel_record_lock :=
  mk_lock d.(owner_next) d.(owner_previous) d.(state) o d.(start) d.(end_) p ty k.

(** A node: left subtree, lock, right subtree, height, maximum end. *)
Inductive tree :=
  | Nil
  | Node (left : tree) (lock : Z) (right : tree) (height_ max_end_ : Z).

#[export] Instance tree_eq_dec : EqDecision tree.
Proof. solve_decision. Defined.

Definition load (s : gmap Z kernel_record_lock) (lock : Z) : outcome kernel_record_lock :=
  match s !! lock with Some d => Done d | None => Fault Out_of_bounds end.

(** ** The tree *)
Section trees.
Context (s : gmap Z kernel_record_lock).

Definition height (t : tree) : Z := match t with Nil => 0 | Node _ _ _ h _ => h end.
Definition maximum (a b : Z) : Z := if decide (a > b) then a else b.
(** [update] on the node of [lock] between [l] and [r]. *)
Definition update (l : tree) (lock : Z) (r : tree) : outcome tree :=
  d ← load s lock;
  let h := s8 (1 + (if decide (height l > height r) then height l else height r)) in
  let m := d.(end_) in
  let m := match l with Nil => m | Node _ _ _ _ ml => maximum m ml end in
  let m := match r with Nil => m | Node _ _ _ _ mr => maximum m mr end in
  Done (Node l lock r h m).
Definition rotate_left (l : tree) (root : Z) (r : tree) : outcome tree :=
  match r with
  | Nil => Fault Out_of_bounds
  | Node rl next rr _ _ => root ← update l root rl; update root next rr
  end.
Definition rotate_right (l : tree) (root : Z) (r : tree) : outcome tree :=
  match l with
  | Nil => Fault Out_of_bounds
  | Node ll next lr _ _ => root ← update lr root r; update ll next root
  end.
Definition balance (l : tree) (root : Z) (r : tree) : outcome tree :=
  updated ← update l root r;
  if decide (height l - height r > 1) then
    match l with
    | Nil => Fault Out_of_bounds
    | Node ll lx lr _ _ =>
        l ← (if decide (height ll < height lr) then rotate_left ll lx lr else Done l);
        rotate_right l root r
    end
  else if decide (height r - height l > 1) then
    match r with
    | Nil => Fault Out_of_bounds
    | Node rl rx rr _ _ =>
        r ← (if decide (height rr < height rl) then rotate_right rl rx rr else Done r);
        rotate_left l root r
    end
  else Done updated.

Definition before (a b : Z) : outcome bool :=
  da ← load s a; db ← load s b;
  Done (bool_decide (da.(start) < db.(start) ∨ (da.(start) = db.(start) ∧ a < b))).
(** [publish] has made [lock] a node of height 1 without children. *)
Fixpoint tree_insert (root : tree) (lock : Z) : outcome tree :=
  match root with
  | Nil => d ← load s lock; Done (Node Nil lock Nil 1 d.(end_))
  | Node l x r _ _ =>
      b ← before lock x;
      if (b : bool) then l ← tree_insert l lock; balance l x r
      else r ← tree_insert r lock; balance l x r
  end.
Fixpoint extract_min (root : tree) : outcome (Z * tree) :=
  match root with
  | Nil => Fault Out_of_bounds
  | Node Nil x r _ _ => Done (x, r)
  | Node l x r _ _ => '(minimum, l) ← extract_min l; t ← balance l x r; Done (minimum, t)
  end.
Fixpoint tree_remove (root : tree) (lock : Z) : outcome tree :=
  match root with
  | Nil => trap
  | Node l x r _ _ =>
      if decide (x ≠ lock) then
        b ← before lock x;
        if (b : bool) then l ← tree_remove l lock; balance l x r
        else r ← tree_remove r lock; balance l x r
      else
        match l, r with
        | Nil, _ => Done r
        | _, Nil => Done l
        | _, _ => '(next, r) ← extract_min r; balance l next r
        end
  end.
Fixpoint join_root (left : tree) (root : Z) : tree → outcome tree :=
  fix join_right (right : tree) : outcome tree :=
    if decide (height left > height right + 1) then
      match left with
      | Nil => Fault Out_of_bounds
      | Node l x r _ _ => r ← join_root r root right; balance l x r
      end
    else if decide (height right > height left + 1) then
      match right with
      | Nil => Fault Out_of_bounds
      | Node l x r _ _ => l ← join_right l; balance l x r
      end
    else update left root right.
Definition join_trees (left right : tree) : outcome tree :=
  match left, right with
  | Nil, _ => Done right
  | _, Nil => Done left
  | _, _ => '(root, right) ← extract_min right; join_root left root right
  end.

(** The lock found, or 0. *)
Fixpoint conflict (root : tree) (o k st en ty : Z) : outcome Z :=
  match root with
  | Nil => Done 0
  | Node l x r _ m =>
      if decide (m < st) then Done 0
      else
        found ← match l with
                | Nil => Done 0
                | Node _ _ _ _ ml => if decide (st ≤ ml) then conflict l o k st en ty else Done 0
                end;
        if decide (found ≠ 0) then Done found
        else
          d ← load s x;
          if decide (d.(start) ≤ en ∧ st ≤ d.(end_) ∧ (d.(owner) ≠ o ∨ d.(kind) ≠ k) ∧ (ty = 1 ∨ d.(type) = 1))
          then Done x
          else if decide (d.(start) ≤ en) then conflict r o k st en ty else Done 0
  end.

Definition touching (d : kernel_record_lock) (st en : Z) : Prop := d.(start) ≤ en ∧ st ≤ d.(end_).
Definition adjacent (d : kernel_record_lock) (st en : Z) : Prop :=
  (d.(end_) ≠ INT64_MAX ∧ d.(end_) + 1 = st) ∨ (en ≠ INT64_MAX ∧ en + 1 = d.(start)).
#[export] Instance touching_dec d st en : Decision (touching d st en).
Proof. unfold touching. apply _. Defined.
#[export] Instance adjacent_dec d st en : Decision (adjacent d st en).
Proof. unfold adjacent. apply _. Defined.

(** [*start], [*end] and [*needed] as the walk changes them. *)
Record edit := mk_edit { e_start : Z; e_end : Z; e_needed : nat }.
Definition edit_lock (d : kernel_record_lock) (o k ty : Z) (e : edit) : edit :=
  if decide (d.(owner) = o ∧ d.(kind) = k) then
    if decide (ty ≠ 2 ∧ d.(type) = ty ∧ (touching d e.(e_start) e.(e_end) ∨ adjacent d e.(e_start) e.(e_end)))
    then mk_edit (if decide (d.(start) < e.(e_start)) then d.(start) else e.(e_start))
           (if decide (d.(end_) > e.(e_end)) then d.(end_) else e.(e_end)) e.(e_needed)
    else if decide (d.(start) < e.(e_start) ∧ d.(end_) > e.(e_end))
    then mk_edit e.(e_start) e.(e_end) (S e.(e_needed))
    else e
  else e.
Fixpoint prepare_edit (root : tree) (o k ty : Z) (e : edit) : outcome edit :=
  match root with
  | Nil => Done e
  | Node l x r _ m =>
      let first := if decide (ty ≠ 2 ∧ e.(e_start) ≠ INT64_MIN) then e.(e_start) - 1 else e.(e_start) in
      if decide (m < first) then Done e
      else
        e ← prepare_edit l o k ty e;
        let last := if decide (ty ≠ 2 ∧ e.(e_end) ≠ INT64_MAX) then e.(e_end) + 1 else e.(e_end) in
        d ← load s x;
        if decide (d.(start) > last) then Done e
        else prepare_edit r o k ty (edit_lock d o k ty e)
  end.
(** [removed] is the list threaded through the [left] fields. *)
Fixpoint extract_owned (root : tree) (o k st en : Z) (removed : list Z) : outcome (tree * list Z) :=
  match root with
  | Nil => Done (Nil, removed)
  | Node l x r _ m =>
      if decide (m < st) then Done (root, removed)
      else
        '(l, removed) ← extract_owned l o k st en removed;
        d ← load s x;
        if decide (d.(start) > en) then t ← join_root l x r; Done (t, removed)
        else
          '(r, removed) ← extract_owned r o k st en removed;
          if decide (d.(owner) ≠ o ∨ d.(kind) ≠ k ∨ d.(end_) < st) then t ← join_root l x r; Done (t, removed)
          else t ← join_trees l r; Done (t, x :: removed)
  end.
End trees.

(** ** Wait queues

    What a lock state needs of the queue of its waiters
    ([kernel/sched/park.c]): a fresh queue is ready, waking a ready queue
    succeeds and leaves it ready. *)
Class WaitQueue (Q : Type) := {
  wait_queue_init : Q;
  wait_queue_head : Q → Z;
  wait_queue_wake_all : Q → bool * Q;
  wait_queue_ready : Q → Prop;
  wait_queue_init_ready : wait_queue_ready wait_queue_init;
  wait_queue_wake_ready q :
    wait_queue_ready q → (wait_queue_wake_all q).1 = true ∧ wait_queue_ready (wait_queue_wake_all q).2;
}.

(** ** States, owners and requests *)
Section operations.
Context {H : Type} `{!ObjectHeap H} {Q : Type} `{!WaitQueue Q}.

Record kernel_record_lock_state := mk_state { root : tree; waiters : Q }.
(** The locks by address, the owners' list heads, the lock states of the
    inodes and the heap. *)
Record world := mk_world {
  locks : gmap Z kernel_record_lock;
  heads : gmap Z Z;
  states : gmap Z kernel_record_lock_state;
  heap : H;
}.
Definition set_lock (w : world) (a : Z) (d : kernel_record_lock) : world :=
  mk_world (<[a := d]> w.(locks)) w.(heads) w.(states) w.(heap).
Definition set_head (w : world) (h a : Z) : world :=
  mk_world w.(locks) (<[h := a]> w.(heads)) w.(states) w.(heap).
Definition set_state (w : world) (st : Z) (x : kernel_record_lock_state) : world :=
  mk_world w.(locks) w.(heads) (<[st := x]> w.(states)) w.(heap).
Definition load_head (w : world) (h : Z) : outcome Z :=
  match w.(heads) !! h with Some a => Done a | None => Fault Out_of_bounds end.
Definition load_state (w : world) (st : Z) : outcome kernel_record_lock_state :=
  match w.(states) !! st with Some x => Done x | None => Fault Out_of_bounds end.
Definition set_root (w : world) (st : Z) (t : tree) : outcome world :=
  x ← load_state w st; Done (set_state w st (mk_state t x.(waiters))).

Definition write_place (w : world) (p : place) (a : Z) : outcome world :=
  match p with
  | Owner_head h => _ ← load_head w h; Done (set_head w h a)
  | Owner_next x => d ← load w.(locks) x; Done (set_lock w x (with_links d a d.(owner_previous)))
  end.
Definition set_previous (w : world) (a : Z) (p : place) : outcome world :=
  if decide (a ≠ 0) then d ← load w.(locks) a; Done (set_lock w a (with_links d d.(owner_next) (Some p)))
  else Done w.
Definition owner_insert (w : world) (head lock : Z) : outcome world :=
  first ← load_head w head;
  d ← load w.(locks) lock;
  let w := set_lock w lock (with_links d first (Some (Owner_head head))) in
  w ← set_previous w first (Owner_next lock);
  Done (set_head w head lock).
Definition owner_remove (w : world) (lock : Z) : outcome world :=
  d ← load w.(locks) lock;
  match d.(owner_previous) with
  | None => trap
  | Some p =>
      w ← write_place w p d.(owner_next);
      w ← set_previous w d.(owner_next) p;
      d ← load w.(locks) lock;
      Done (set_lock w lock (with_links d 0 None))
  end.
Definition publish (w : world) (st head lock : Z) : outcome world :=
  d ← load w.(locks) lock;
  let w := set_lock w lock (with_state d st) in
  w ← owner_insert w head lock;
  x ← load_state w st;
  t ← tree_insert w.(locks) x.(root) lock;
  set_root w st t.

Definition kernel_record_lock_state_init (w : world) (st : Z) : world :=
  set_state w st (mk_state Nil wait_queue_init).
Definition kernel_record_lock_state_empty (x : kernel_record_lock_state) : bool :=
  bool_decide (x.(root) = Nil ∧ wait_queue_head x.(waiters) = 0).

(** What [kernel_record_lock_get] stores; [None] leaves the field alone. *)
Record kernel_record_lock_conflict := mk_conflict {
  c_type : Z; c_owner : Z; c_kind : Z; c_range : option (Z * Z * Z);
}.
Definition kernel_record_lock_get (w : world) (st o k s e ty : Z) : outcome kernel_record_lock_conflict :=
  x ← load_state w st;
  lock ← conflict w.(locks) x.(root) o k s e ty;
  if decide (lock ≠ 0) then
    d ← load w.(locks) lock;
    Done (mk_conflict d.(type) d.(owner) d.(kind)
            (Some (d.(start), d.(end_), if decide (d.(kind) ≠ 0) then -1 else d.(pid))))
  else Done (mk_conflict 2 0 0 None).

Definition sizeof_record_lock : Z := 80.
(** The new lock, or 0 when memory is short. *)
Definition allocate (w : world) : outcome (Z * world) :=
  let '(status, a, h) := heap_allocate w.(heap) sizeof_record_lock in
  if decide (status = KERNEL_HEAP_STATUS_EMPTY) then Done (0, mk_world w.(locks) w.(heads) w.(states) h)
  else if decide (status ≠ KERNEL_HEAP_STATUS_OK) then trap
  else Done (a, mk_world (<[a := zeroed]> w.(locks)) w.(heads) w.(states) h).
Definition release (w : world) (lock : Z) : world :=
  mk_world (delete lock w.(locks)) w.(heads) w.(states) (heap_free w.(heap) lock).

(** [spares] is the list threaded through the [owner_next] fields of locks that
    are not published; [None] after a failed allocation, when the spares are
    back in the heap. *)
Fixpoint allocate_spares (count : nat) (w : world) (spares : list Z) : outcome (option (list Z) * world) :=
  match count with
  | O => Done (Some spares, w)
  | S count =>
      '(fresh, w) ← allocate w;
      if decide (fresh = 0) then Done (None, foldl release w spares)
      else allocate_spares count w (fresh :: spares)
  end.
(** The lock [old] that overlapped the edited range [s, e]: what is left of it
    outside is published again. *)
Definition edit_old (w : world) (st head o k s e old : Z) (spares : list Z) : outcome (world * list Z) :=
  d ← load w.(locks) old;
  let left := bool_decide (d.(start) < s) in
  let right := bool_decide (d.(end_) > e) in
  w ← owner_remove w old;
  w ← (if left then
         d' ← load w.(locks) old;
         publish (set_lock w old (with_range d' d'.(start) (s - 1))) st head old
       else Done w);
  if right then
    if left then
      match spares with
      | [] => trap
      | tail :: spares =>
          d' ← load w.(locks) tail;
          let d' := with_range (with_identity d' o k d.(pid) d.(type)) (e + 1) d.(end_) in
          w ← publish (set_lock w tail d') st head tail;
          Done (w, spares)
      end
    else
      d' ← load w.(locks) old;
      w ← publish (set_lock w old (with_range d' (e + 1) d.(end_))) st head old;
      Done (w, spares)
  else if left then Done (w, spares)
  else Done (release w old, spares).
Fixpoint edit_loop (olds : list Z) (w : world) (st head o k s e : Z) (spares : list Z) : outcome (world * list Z) :=
  match olds with
  | [] => Done (w, spares)
  | old :: olds =>
      '(w, spares) ← edit_old w st head o k s e old spares;
      edit_loop olds w st head o k s e spares
  end.
Definition wake_waiters (w : world) (st : Z) : outcome world :=
  x ← load_state w st;
  let '(ok, q) := wait_queue_wake_all x.(waiters) in
  if ok then Done (set_state w st (mk_state x.(root) q)) else trap.

(** [if (type != 2)]: the lock that was asked for. *)
Definition publish_request (w : world) (st head o k p s e ty : Z) (spares : list Z) : outcome (world * list Z) :=
  if decide (ty ≠ 2) then
    match spares with
    | [] => trap
    | fresh :: spares =>
        d ← load w.(locks) fresh;
        w ← publish (set_lock w fresh (with_range (with_identity d o k p ty) s e)) st head fresh;
        Done (w, spares)
    end
  else Done (w, spares).
Definition kernel_record_lock_set (w : world) (st head o k p s e ty : Z) : outcome (Z * world) :=
  let needed := if decide (ty = 2) then 0%nat else 1%nat in
  x ← load_state w st;
  blocked ← (if decide (ty ≠ 2) then conflict w.(locks) x.(root) o k s e ty else Done 0);
  if decide (blocked ≠ 0) then Done (- KERNEL_EAGAIN, w)
  else
    ed ← prepare_edit w.(locks) x.(root) o k ty (mk_edit s e needed);
    let s := ed.(e_start) in let e := ed.(e_end) in
    '(spares, w) ← allocate_spares ed.(e_needed) w [];
    match spares with
    | None => Done (- KERNEL_ENOLCK, w)
    | Some spares =>
        '(t, olds) ← extract_owned w.(locks) x.(root) o k s e [];
        w ← set_root w st t;
        '(w, spares) ← edit_loop olds w st head o k s e spares;
        '(w, spares) ← publish_request w st head o k p s e ty spares;
        _ ← trap_if (spares ≠ []);
        w ← wake_waiters w st;
        Done (0, w)
    end.

(** The walk visits each lock of the owner once. *)
Fixpoint release_loop (fuel : nat) (w : world) (st lock : Z) (changed : bool) : outcome (world * bool) :=
  match fuel with
  | O => Fault Out_of_fuel
  | S fuel =>
      if decide (lock = 0) then Done (w, changed)
      else
        d ← load w.(locks) lock;
        if decide (d.(state) = st) then
          x ← load_state w st;
          t ← tree_remove w.(locks) x.(root) lock;
          w ← set_root w st t;
          w ← owner_remove w lock;
          release_loop fuel (release w lock) st d.(owner_next) true
        else release_loop fuel w st d.(owner_next) changed
  end.
Definition kernel_record_lock_release (w : world) (st head : Z) : outcome world :=
  lock ← load_head w head;
  '(w, changed) ← release_loop (S (size w.(locks))) w st lock false;
  if (changed : bool) then wake_waiters w st else Done w.

(** ** [fcntl] requests *)
Record linux_flock := mk_flock { f_type : Z; f_whence : Z; f_start : Z; f_length : Z; f_pid : Z }.
(** The status, or [*start] and [*end] when it is 0. *)
Definition range_from_base (f : linux_flock) (base : Z) : Z + (Z * Z) :=
  let s := base + f.(f_start) in
  if decide (¬ is_i64 s) then inl (- KERNEL_EOVERFLOW)
  else if decide (s < 0) then inl (- KERNEL_EINVAL)
  else if decide (f.(f_length) > 0) then
    let e := s + (f.(f_length) - 1) in
    if decide (¬ is_i64 e) then inl (- KERNEL_EOVERFLOW) else inr (s, e)
  else if decide (f.(f_length) < 0) then
    let lower := s + f.(f_length) in
    if decide (¬ is_i64 lower ∨ lower < 0) then inl (- KERNEL_EINVAL) else inr (lower, s - 1)
  else inr (s, INT64_MAX).
(** [offset] and [size] are those of the open file. *)
Definition range_from_flock (f : linux_flock) (offset size : Z) : Z + (Z * Z) :=
  if decide (f.(f_whence) = 0) then range_from_base f 0
  else if decide (f.(f_whence) = 1) then
    if decide (offset > INT64_MAX) then inl (- KERNEL_EOVERFLOW) else range_from_base f offset
  else if decide (f.(f_whence) = 2) then
    if decide (size > INT64_MAX) then inl (- KERNEL_EOVERFLOW) else range_from_base f size
  else inl (- KERNEL_EINVAL).

(** The waiting requests, newest first. *)
Record lock_wait_edge := mk_wait_edge {
  w_state : Z; w_owner : Z; w_blocker : Z; w_start : Z; w_end : Z; w_type : Z;
}.
(** [levels] is [10 - depth]. *)
Fixpoint deadlocked (levels : nat) (w : world) (waiting : list lock_wait_edge) (o requester : Z) : outcome bool :=
  match levels with
  | O => Done false
  | S levels =>
      (fix scan (edges : list lock_wait_edge) : outcome bool :=
        match edges with
        | [] => Done false
        | edge :: edges =>
            if decide (edge.(w_owner) ≠ o) then scan edges
            else
              current ← kernel_record_lock_get w edge.(w_state) edge.(w_owner) 0 edge.(w_start) edge.(w_end) edge.(w_type);
              if decide (current.(c_kind) ≠ 0 ∨ current.(c_owner) ≠ edge.(w_blocker)) then scan edges
              else if decide (edge.(w_blocker) = requester) then Done true
              else
                deeper ← deadlocked levels w waiting edge.(w_blocker) requester;
                if (deeper : bool) then Done true else scan edges
        end) waiting
  end.
End operations.
Arguments kernel_record_lock_state Q : clear implicits.
Arguments world H Q : clear implicits.

End RecordLock.
