(* ===== verification/LockTreeTheory.v ===== *)
(** * Interval trees and sets of locks *)
From S2P Require Import Prelude RecordLock.
Import RecordLock.
#[local] Open Scope Z_scope.

Fixpoint elems (t : tree) : list Z :=
  match t with Nil => [] | Node l x r _ _ => elems l ++ x :: elems r end.

Lemma split_unique (a : Z) l1 l2 k1 k2 :
  NoDup (l1 ++ a :: l2) → l1 ++ a :: l2 = k1 ++ a :: k2 → l1 = k1 ∧ l2 = k2.
Proof.
  revert k1. induction l1 as [|x l1 IH]; intros [|y k1] Hn E; cbn in *.
  - by injection E as ->.
  - injection E as <- E. apply NoDup_cons in Hn as [Hn _]. set_solver.
  - injection E as -> E. apply NoDup_cons in Hn as [Hn _]. set_solver.
  - injection E as <- E. apply NoDup_cons in Hn as [_ Hn]. destruct (IH k1 Hn E) as [-> ->]. done.
Qed.

Section trees.
Context (s : gmap Z kernel_record_lock).

(** The largest end of a node, from its own end and its children. *)
Definition node_max (e : Z) (l r : tree) : Z :=
  let m := match l with Nil => e | Node _ _ _ _ ml => maximum e ml end in
  match r with Nil => m | Node _ _ _ _ mr => maximum m mr end.
(** Stored heights and maxima are right, and the tree is balanced. *)
Fixpoint good (t : tree) : Prop :=
  match t with
  | Nil => True
  | Node l x r h m => good l ∧ good r ∧ -1 ≤ height l - height r ≤ 1 ∧
      h = 1 + Z.max (height l) (height r) ∧ ∃ d, s !! x = Some d ∧ m = node_max d.(end_) l r
  end.
Definition precedes (x y : Z) : Prop :=
  ∃ dx dy, s !! x = Some dx ∧ s !! y = Some dy ∧ (dx.(start) < dy.(start) ∨ (dx.(start) = dy.(start) ∧ x < y)).
Definition ordered (l : list Z) : Prop := StronglySorted precedes l.

Lemma load_Done x d : s !! x = Some d → load s x = Done d.
Proof. unfold load. by intros ->. Qed.
Lemma maximum_max a b : maximum a b = Z.max a b.
Proof. unfold maximum. destruct (decide (a > b)); lia. Qed.
Lemma s8_small x : -128 ≤ x ≤ 127 → s8 x = x.
Proof. intros. unfold s8. rewrite Z.mod_small; lia. Qed.

(** ** Height *)
Lemma good_height t : good t → 0 ≤ height t ∧ (height t = 0 ↔ t = Nil).
Proof.
  induction t as [|l IHl x r IHr h m]; simpl; [done|]. intros (Hl & Hr & _ & -> & _).
  specialize (IHl Hl) as [? _]. specialize (IHr Hr) as [? _]. split; [lia|]. split; [lia|done].
Qed.
(** A balanced tree of [n] nodes is at most [2 log2 (n + 1)] high. *)
Lemma good_size t : good t → 2 ^ height t ≤ (Z.of_nat (length (elems t)) + 1) ^ 2.
Proof.
  induction t as [|l IHl x r IHr h m]; simpl; [done|]. intros (Hl & Hr & Hb & -> & _).
  specialize (IHl Hl). specialize (IHr Hr). destruct (good_height l Hl) as [Hl0 _], (good_height r Hr) as [Hr0 _].
  rewrite length_app. simpl. set (nl := Z.of_nat (length (elems l))) in *. set (nr := Z.of_nat (length (elems r))) in *.
  replace (Z.of_nat (length (elems l) + S (length (elems r))) + 1) with ((nl + 1) + (nr + 1)) by lia.
  set (low := Z.min (height l) (height r)). assert (Hlow : 0 ≤ low) by lia.
  assert (Hp : 2 ^ (1 + Z.max (height l) (height r)) ≤ 4 * 2 ^ low).
  { change 4 with (2 ^ 2). rewrite <- Z.pow_add_r by lia. apply Z.pow_le_mono_r; lia. }
  assert (Hl2 : 2 ^ low ≤ 2 ^ height l) by (apply Z.pow_le_mono_r; lia).
  assert (Hr2 : 2 ^ low ≤ 2 ^ height r) by (apply Z.pow_le_mono_r; lia).
  assert (Hn : 0 ≤ nl ∧ 0 ≤ nr) by lia. clearbody nl nr low. rewrite !Z.pow_2_r in *. nia.
Qed.
Definition small (l : list Z) : Prop := Z.of_nat (length l) < 2 ^ 60.
Lemma small_height t : good t → small (elems t) → height t ≤ 120.
Proof.
  intros Hg Hs. pose proof (good_size t Hg) as Hz. destruct (good_height t Hg) as [H0 _]. unfold small in Hs.
  apply Z.lt_succ_r. apply (Z.pow_lt_mono_r_iff 2); [lia|lia|].
  apply Z.le_lt_trans with ((2 ^ 60) ^ 2); [|by rewrite <- Z.pow_mul_r; [apply Z.pow_lt_mono_r; lia|lia..]].
  etransitivity; [exact Hz|]. apply Z.pow_le_mono_l. lia.
Qed.

(** ** Rebalancing *)
Lemma update_run l x r d :
  good l → good r → s !! x = Some d → height l ≤ 126 → height r ≤ 126 →
  update s l x r = Done (Node l x r (1 + Z.max (height l) (height r)) (node_max d.(end_) l r)).
Proof.
  intros Hl Hr Hx Hhl Hhr. unfold update. rewrite (load_Done x d Hx). run.
  destruct (good_height l Hl) as [? _], (good_height r Hr) as [? _].
  rewrite s8_small by (destruct (decide _); lia). do 2 f_equal. destruct (decide _); lia.
Qed.
Lemma good_node l x r d :
  good l → good r → s !! x = Some d → -1 ≤ height l - height r ≤ 1 →
  good (Node l x r (1 + Z.max (height l) (height r)) (node_max d.(end_) l r)).
Proof. intros. simpl. split_and!; try done; try lia. by exists d. Qed.

(** What a rebalancing of [l], [x], [r] yields. *)
Definition joined (l : tree) (x : Z) (r t : tree) : Prop :=
  good t ∧ elems t = elems l ++ x :: elems r ∧
  Z.max (height l) (height r) ≤ height t ≤ 1 + Z.max (height l) (height r).
Ltac heights :=
  repeat match goal with H : good ?t |- _ => lazymatch goal with
    | _ : 0 ≤ height t |- _ => fail | _ => pose proof (proj1 (good_height t H)) end end.
Lemma balance_left_run l x r d :
  good l → good r → s !! x = Some d → height l - height r = 2 → height l ≤ 122 →
  ∃ t, balance s l x r = Done t ∧ joined l x r t.
Proof.
  intros Hl Hr Hx Hd Hh. unfold balance. heights. rewrite (update_run l x r d) by (done || lia). run.
  rewrite decide_True by lia. destruct l as [|ll lx lr lh lm]; [simpl in *; lia|].
  destruct Hl as (Hll & Hlr & Hb & -> & dl & Hdl & ->). heights. cbn [height] in *.
  destruct (decide (height ll < height lr)) as [Hlt|Hge].
  - destruct lr as [|a y b hy my]; [simpl in *; lia|]. destruct Hlr as (Ha & Hb' & Hbal & -> & dy & Hdy & ->). heights.
    cbn [height] in *. unfold rotate_left. rewrite (update_run ll lx a dl) by (done || lia). run.
    rewrite (update_run _ y b dy); [|by apply good_node; [done..|lia]|done|done|cbn [height]; lia|lia].
    run. unfold rotate_right. rewrite (update_run b x r d) by (done || lia). run.
    rewrite (update_run _ y _ dy); [|by apply good_node; [done..|lia]|by apply good_node; [done..|lia]|done|cbn [height]; lia..].
    eexists. split; [done|]. unfold joined. cbn [height elems]. split; [|split; [by list_simplifier|lia]].
    apply good_node; [by apply good_node; [done..|lia]|by apply good_node; [done..|lia]|done|cbn [height]; lia].
  - run. unfold rotate_right. rewrite (update_run lr x r d) by (done || lia). run.
    rewrite (update_run ll lx _ dl); [|done|by apply good_node; [done..|lia]|done|cbn [height]; lia..].
    eexists. split; [done|]. unfold joined. cbn [height elems]. split; [|split; [by list_simplifier|lia]].
    apply good_node; [done|by apply good_node; [done..|lia]|done|cbn [height]; lia].
Qed.
Lemma balance_right_run l x r d :
  good l → good r → s !! x = Some d → height r - height l = 2 → height r ≤ 122 →
  ∃ t, balance s l x r = Done t ∧ joined l x r t.
Proof.
  intros Hl Hr Hx Hd Hh. unfold balance. heights. rewrite (update_run l x r d) by (done || lia). run.
  rewrite decide_False, decide_True by lia. destruct r as [|rl rx rr rh rm]; [simpl in *; lia|].
  destruct Hr as (Hrl & Hrr & Hb & -> & dr & Hdr & ->). heights. cbn [height] in *.
  destruct (decide (height rr < height rl)) as [Hlt|Hge].
  - destruct rl as [|a y b hy my]; [simpl in *; lia|]. destruct Hrl as (Ha & Hb' & Hbal & -> & dy & Hdy & ->). heights.
    cbn [height] in *. unfold rotate_right. rewrite (update_run b rx rr dr) by (done || lia). run.
    rewrite (update_run a y _ dy); [|done|by apply good_node; [done..|lia]|done|lia|cbn [height]; lia].
    run. unfold rotate_left. rewrite (update_run l x a d) by (done || lia). run.
    rewrite (update_run _ y _ dy); [|by apply good_node; [done..|lia]|by apply good_node; [done..|lia]|done|cbn [height]; lia..].
    eexists. split; [done|]. unfold joined. cbn [height elems]. split; [|split; [by list_simplifier|lia]].
    apply good_node; [by apply good_node; [done..|lia]|by apply good_node; [done..|lia]|done|cbn [height]; lia].
  - run. unfold rotate_left. rewrite (update_run l x rl d) by (done || lia). run.
    rewrite (update_run _ rx rr dr); [|by apply good_node; [done..|lia]|done|done|cbn [height]; lia..].
    eexists. split; [done|]. unfold joined. cbn [height elems]. split; [|split; [by list_simplifier|lia]].
    apply good_node; [by apply good_node; [done..|lia]|done|done|cbn [height]; lia].
Qed.
Lemma balance_run l x r d :
  good l → good r → s !! x = Some d → -2 ≤ height l - height r ≤ 2 → height l ≤ 122 → height r ≤ 122 →
  ∃ t, balance s l x r = Done t ∧ joined l x r t ∧
    (-1 ≤ height l - height r ≤ 1 → height t = 1 + Z.max (height l) (height r)).
Proof.
  intros Hl Hr Hx Hd Hhl Hhr.
  destruct (decide (height l - height r = 2)) as [E|]; [|destruct (decide (height r - height l = 2)) as [E|]].
  - destruct (balance_left_run l x r d) as (t & ? & ?); [done..|]. exists t. split_and!; [done..|lia].
  - destruct (balance_right_run l x r d) as (t & ? & ?); [done..|]. exists t. split_and!; [done..|lia].
  - unfold balance. heights. rewrite (update_run l x r d) by (done || lia). run.
    rewrite !decide_False by lia. eexists. split; [done|]. unfold joined. cbn [height elems].
    split; [|done]. split; [by apply good_node; [done..|lia]|]. split; [done|lia].
Qed.

(** ** Insertion and removal *)
Lemma precedes_trans x y z : precedes x y → precedes y z → precedes x z.
Proof.
  intros (dx & dy & Hx & Hy & H1) (dy' & dz & Hy' & Hz & H2). rewrite Hy in Hy'. injection Hy' as <-.
  exists dx, dz. split_and!; [done..|lia].
Qed.
Lemma precedes_irrefl x : ¬ precedes x x.
Proof. intros (d & d' & H1 & H2 & H). rewrite H1 in H2. injection H2 as <-. lia. Qed.
Lemma lock_ordered_app l1 l2 : ordered (l1 ++ l2) ↔ ordered l1 ∧ ordered l2 ∧ ∀ x y, x ∈ l1 → y ∈ l2 → precedes x y.
Proof.
  unfold ordered. split.
  - intros Ho. split; [by eapply StronglySorted_app_1_l|]. split; [by eapply StronglySorted_app_1_r|].
    intros x y Hx Hy. by eapply StronglySorted_app_1_elem_of.
  - intros (H1 & H2 & H). by apply StronglySorted_app_2.
Qed.
Lemma ordered_cons x l : ordered (x :: l) ↔ ordered l ∧ ∀ y, y ∈ l → precedes x y.
Proof.
  unfold ordered. split.
  - intros [Ho Hf]%StronglySorted_inv. by rewrite Forall_forall in Hf.
  - intros [? ?]. constructor; [done|]. by apply Forall_forall.
Qed.
Lemma ordered_middle l1 x l2 :
  ordered (l1 ++ x :: l2) ↔ ordered l1 ∧ ordered l2 ∧ (∀ y, y ∈ l1 → precedes y x) ∧ (∀ y, y ∈ l2 → precedes x y).
Proof.
  rewrite lock_ordered_app, ordered_cons. split.
  - intros (H1 & [H2 H3] & H). split_and!; try done. intros y Hy. apply H; [done|by left].
  - intros (H1 & H2 & H3 & H4). split_and!; try done. intros y z Hy [->|Hz]%elem_of_cons; [auto|].
    eapply precedes_trans; eauto.
Qed.
Lemma ordered_filter (P : Z → Prop) `{!∀ x, Decision (P x)} l : ordered l → ordered (filter P l).
Proof.
  induction l as [|x l IH]; [done|]. intros [Ho Hx]%ordered_cons. rewrite filter_cons. destruct (decide (P x)); [|auto].
  apply ordered_cons. split; [auto|]. intros y [_ Hy]%list_elem_of_filter. auto.
Qed.
Lemma ordered_NoDup l : ordered l → NoDup l.
Proof.
  induction l as [|x l IH]; [constructor|]. intros [Ho Hx]%ordered_cons. constructor; [|auto].
  intros Hin. by apply (precedes_irrefl x), Hx.
Qed.
Lemma before_run x y dx dy :
  s !! x = Some dx → s !! y = Some dy → x ≠ y →
  ∃ b, before s x y = Done b ∧ (if b : bool then precedes x y else precedes y x).
Proof.
  intros Hx Hy Hne. unfold before. rewrite (load_Done x dx Hx), (load_Done y dy Hy). run.
  eexists. split; [done|]. case_bool_decide as Hb.
  - by exists dx, dy.
  - exists dy, dx. split_and!; [done..|lia].
Qed.
Lemma good_elem t x : good t → x ∈ elems t → ∃ d, s !! x = Some d.
Proof.
  induction t as [|l IHl y r IHr h m]; simpl; [by intros _ ?%elem_of_nil|].
  intros (Hl & Hr & _ & _ & d & Hd & _). rewrite elem_of_app, elem_of_cons. intros [?|[->|?]]; eauto.
Qed.

Lemma tree_insert_run t a d :
  good t → ordered (elems t) → height t ≤ 120 → s !! a = Some d → a ∉ elems t →
  ∃ t' l1 l2, tree_insert s t a = Done t' ∧ good t' ∧ height t ≤ height t' ≤ height t + 1 ∧
    elems t = l1 ++ l2 ∧ elems t' = l1 ++ a :: l2 ∧ ordered (elems t').
Proof.
  intros Hg Ho Hh Ha Hin. induction t as [|l IHl x r IHr h m]; cbn [tree_insert].
  { rewrite (load_Done a d Ha). run. exists (Node Nil a Nil 1 (end_ d)), [], []. split; [done|].
    split; [by apply (good_node Nil a Nil d)|]. split; [done|]. split; [done|]. split; [done|]. by repeat constructor. }
  destruct Hg as (Hl & Hr & Hb & -> & dx & Hx & ->). cbn [elems height] in *.
  rewrite elem_of_app, elem_of_cons in Hin. apply ordered_middle in Ho as (Hol & Hor & Hlx & Hxr). heights.
  destruct (before_run a x d dx Ha Hx) as (b & -> & Hbx); [by intros ->; tauto|]. run. destruct b.
  - destruct IHl as (l' & l1 & l2 & -> & Hl' & Hh' & E & E' & Ho'); [done|done|lia|tauto|]. run. heights.
    destruct (balance_run l' x r dx) as (t' & -> & (Ht' & Et' & Hht) & Hex); [done|done|done|lia|lia|lia|].
    exists t', l1, (l2 ++ x :: elems r). split; [done|]. split; [done|]. split; [lia|]. rewrite E, Et', E'.
    split; [by list_simplifier|]. split; [by list_simplifier|]. apply ordered_middle. rewrite <- E'. split_and!; try done.
    intros y. rewrite E', elem_of_app, elem_of_cons. intros [?|[->|?]]; [|done|];
      apply Hlx; rewrite E, elem_of_app; tauto.
  - destruct IHr as (r' & l1 & l2 & -> & Hr' & Hh' & E & E' & Ho'); [done|done|lia|tauto|]. run. heights.
    destruct (balance_run l x r' dx) as (t' & -> & (Ht' & Et' & Hht) & Hex); [done|done|done|lia|lia|lia|].
    exists t', (elems l ++ x :: l1), l2. split; [done|]. split; [done|]. split; [lia|]. rewrite E, Et', E'.
    split; [by list_simplifier|]. split; [by list_simplifier|]. apply ordered_middle. rewrite <- E'. split_and!; try done.
    intros y. rewrite E', elem_of_app, elem_of_cons. intros [?|[->|?]]; [|done|];
      apply Hxr; rewrite E, elem_of_app; tauto.
Qed.

Lemma extract_min_run t :
  good t → height t ≤ 120 → t ≠ Nil →
  ∃ x t', extract_min s t = Done (x, t') ∧ good t' ∧ height t - 1 ≤ height t' ≤ height t ∧ elems t = x :: elems t'.
Proof.
  intros Hg Hh Hne. induction t as [|l IHl x r IHr h m]; [done|]. clear Hne IHr.
  destruct Hg as (Hl & Hr & Hb & -> & dx & Hx & ->). cbn [elems height] in *. heights.
  destruct (decide (l = Nil)) as [->|Hln].
  { exists x, r. cbn [extract_min elems height] in *. split_and!; try done; lia. }
  destruct IHl as (y & l' & E & Hl' & Hh' & El); [done|lia|done|].
  assert (Hstep : extract_min s (Node l x r (1 + height l `max` height r) (node_max (end_ dx) l r)) =
    ('(minimum, l0) ← extract_min s l; t ← balance s l0 x r; Done (minimum, t))) by (by destruct l).
  rewrite Hstep, E. run. heights.
  destruct (balance_run l' x r dx) as (t' & -> & (Ht' & Et' & Hht) & Hex); [done|done|done|lia|lia|lia|].
  run. exists y, t'. split; [done|]. split; [done|]. split; [lia|]. by rewrite El, Et'.
Qed.

Lemma tree_remove_run t a l1 l2 :
  good t → ordered (elems t) → height t ≤ 120 → elems t = l1 ++ a :: l2 →
  ∃ t', tree_remove s t a = Done t' ∧ good t' ∧ height t - 1 ≤ height t' ≤ height t ∧ elems t' = l1 ++ l2.
Proof.
  revert l1 l2. induction t as [|l IHl x r IHr h m]; intros l1 l2 Hg Ho Hh E; [by destruct l1|].
  pose proof Hg as (Hl & Hr & Hb & -> & dx & Hx & ->). cbn [elems height tree_remove] in *. heights.
  assert (Hno : NoDup (elems l ++ x :: elems r)) by (by apply ordered_NoDup).
  pose proof Ho as (Hol & Hor & Hlx & Hxr)%ordered_middle.
  destruct (decide (x ≠ a)) as [Hne|Hxa]; [|apply dec_stable in Hxa; subst x].
  - assert (Ha : a ∈ elems l ∨ a ∈ elems r).
    { assert (Hin : a ∈ elems l ++ x :: elems r) by (rewrite E; set_solver). set_solver. }
    destruct (good_elem _ a Hg) as [da Hda]; [cbn [elems]; set_solver|].
    destruct (before_run a x da dx Hda Hx) as (b & -> & Hbx); [done|]. run.
    destruct Ha as [Ha|Ha].
    + destruct b; [|destruct (precedes_irrefl a); eapply precedes_trans; eauto].
      apply list_elem_of_split in Ha as (k1 & k2 & Ek). rewrite Ek in E, Hno.
      assert (l1 = k1 ∧ l2 = k2 ++ x :: elems r) as [-> ->].
      { apply (split_unique a); [rewrite <- E|rewrite <- E]; by list_simplifier. }
      destruct (IHl k1 k2) as (l' & -> & Hl' & Hh' & El); [done|done|lia|done|]. run. heights.
      destruct (balance_run l' x r dx) as (t' & -> & (Ht' & Et' & Hht) & Hex); [done|done|done|lia|lia|lia|].
      exists t'. split; [done|]. split; [done|]. split; [lia|]. rewrite Et', El. by list_simplifier.
    + destruct b; [destruct (precedes_irrefl a); eapply precedes_trans; eauto|].
      apply list_elem_of_split in Ha as (k1 & k2 & Ek). rewrite Ek in E, Hno.
      assert (l1 = elems l ++ x :: k1 ∧ l2 = k2) as [-> ->].
      { apply (split_unique a); [rewrite <- E|rewrite <- E]; by list_simplifier. }
      destruct (IHr k1 k2) as (r' & -> & Hr' & Hh' & Er); [done|done|lia|done|]. run. heights.
      destruct (balance_run l x r' dx) as (t' & -> & (Ht' & Et' & Hht) & Hex); [done|done|done|lia|lia|lia|].
      exists t'. split; [done|]. split; [done|]. split; [lia|]. rewrite Et', Er. by list_simplifier.
  - assert (l1 = elems l ∧ l2 = elems r) as [-> ->] by (apply (split_unique a); by rewrite <- E).
    destruct (decide (l = Nil)) as [->|Hln]; [exists r; cbn [height elems] in *; split_and!; try done; lia|].
    destruct (decide (r = Nil)) as [->|Hrn].
    { exists l. rewrite app_nil_r. destruct l; [done|]. split_and!; try done; cbn [height] in *; lia. }
    destruct (extract_min_run r) as (y & r' & Hrun & Hr' & Hh' & Er); [done|lia|done|].
    replace (match l with Nil => _ | _ => _ end) with ('(next, r0) ← extract_min s r; balance s l next r0) by (by destruct l, r).
    rewrite Hrun. run. heights. destruct (good_elem r y Hr) as [dy Hy]; [rewrite Er; by left|].
    destruct (balance_run l y r' dy) as (t' & -> & (Ht' & Et' & Hht) & Hex); [done|done|done|lia|lia|lia|].
    exists t'. split; [done|]. split; [done|]. split; [lia|]. by rewrite Et', Er.
Qed.

(** ** Joining *)
Lemma join_root_eq l x r :
  join_root s l x r =
    if decide (height l > height r + 1) then
      match l with Nil => Fault Out_of_bounds | Node a y b _ _ => t ← join_root s b x r; balance s a y t end
    else if decide (height r > height l + 1) then
      match r with Nil => Fault Out_of_bounds | Node a y b _ _ => t ← join_root s l x a; balance s t y b end
    else update s l x r.
Proof. by destruct l, r. Qed.
Lemma join_root_run l x r d :
  good l → good r → s !! x = Some d → height l ≤ 120 → height r ≤ 120 →
  ∃ t, join_root s l x r = Done t ∧ joined l x r t.
Proof.
  intros Hl Hr Hx. revert r Hr. induction l as [l IHl] using (well_founded_ind (well_founded_ltof _ (λ t, length (elems t)))).
  intros r Hr. induction r as [r IHr] using (well_founded_ind (well_founded_ltof _ (λ t, length (elems t)))).
  intros Hhl Hhr. unfold ltof in *. rewrite join_root_eq. heights.
  destruct (decide (height l > height r + 1)) as [Hgt|Hgt]; [|destruct (decide (height r > height l + 1)) as [Hlt|Hlt]].
  - destruct l as [|ll lx lr lh lm]; [cbn [height] in *; lia|].
    destruct Hl as (Hll & Hlr & Hb & -> & dl & Hdl & ->). cbn [height] in *. heights.
    destruct (IHl lr) with (r := r) as (t & -> & Ht & Et & Hht);
      [cbn [elems]; rewrite length_app; cbn; lia|done|done|lia|done|]. run.
    destruct (balance_run ll lx t dl) as (t' & -> & (Ht' & Et' & Hht') & Hex); [done|done|done|lia|lia|lia|].
    exists t'. split; [done|]. unfold joined. rewrite Et', Et. cbn [height elems]. split; [done|]. split; [by list_simplifier|lia].
  - destruct r as [|rl rx rr rh rm]; [cbn [height] in *; lia|].
    destruct Hr as (Hrl & Hrr & Hb & -> & dr & Hdr & ->). cbn [height] in *. heights.
    destruct (IHr rl) as (t & -> & Ht & Et & Hht); [cbn [elems]; rewrite length_app; cbn; lia|done|done|lia|]. run.
    destruct (balance_run t rx rr dr) as (t' & -> & (Ht' & Et' & Hht') & Hex); [done|done|done|lia|lia|lia|].
    exists t'. split; [done|]. unfold joined. rewrite Et', Et. cbn [height elems]. split; [done|]. split; [by list_simplifier|lia].
  - rewrite (update_run l x r d) by (done || lia). eexists. split; [done|]. unfold joined. cbn [height elems].
    split; [by apply good_node; [done..|lia]|]. split; [done|lia].
Qed.
Lemma join_trees_run l r :
  good l → good r → height l ≤ 120 → height r ≤ 120 →
  ∃ t, join_trees s l r = Done t ∧ good t ∧ elems t = elems l ++ elems r ∧ height t ≤ 1 + Z.max (height l) (height r).
Proof.
  intros Hl Hr Hhl Hhr. heights. destruct (decide (l = Nil)) as [->|Hln].
  { exists r. split_and!; try done. cbn [height]. lia. }
  destruct (decide (r = Nil)) as [->|Hrn].
  { exists l. rewrite app_nil_r. split_and!; [by destruct l|done..|]. cbn [height]. lia. }
  destruct (extract_min_run r) as (y & r' & Hrun & Hr' & Hh' & Er); [done|lia|done|].
  assert (Hstep : join_trees s l r = ('(y, r0) ← extract_min s r; join_root s l y r0)) by (by destruct l, r).
  rewrite Hstep, Hrun. run. destruct (good_elem r y Hr) as [dy Hy]; [rewrite Er; by left|].
  destruct (join_root_run l y r' dy) as (t & -> & Ht & Et & Hht); [done|done|done|lia|lia|].
  exists t. rewrite Et, Er. split_and!; try done. lia.
Qed.

(** ** Searches *)
Lemma good_max l x r h m y :
  good (Node l x r h m) → y ∈ elems (Node l x r h m) → ∃ d, s !! y = Some d ∧ d.(end_) ≤ m.
Proof.
  assert (Hm : ∀ t, good t → match t with Nil => True | Node _ _ _ _ m => ∀ y, y ∈ elems t → ∃ d, s !! y = Some d ∧ d.(end_) ≤ m end).
  { clear. induction t as [|l IHl x r IHr h m]; [done|]. intros (Hl & Hr & _ & _ & d & Hd & ->) y.
    specialize (IHl Hl). specialize (IHr Hr). cbn [elems]. rewrite elem_of_app, elem_of_cons.
    assert (Hb : (match l with Nil => True | Node _ _ _ _ ml => ml ≤ node_max (end_ d) l r end) ∧
                 (match r with Nil => True | Node _ _ _ _ mr => mr ≤ node_max (end_ d) l r end) ∧ end_ d ≤ node_max (end_ d) l r).
    { unfold node_max. destruct l, r; rewrite ?maximum_max; split_and!; try done; lia. }
    destruct Hb as (Hbl & Hbr & Hbd). intros [Hy|[->|Hy]].
    - destruct l as [|? ? ? ? ml]; [by apply elem_of_nil in Hy|]. destruct (IHl y Hy) as (dy & ? & ?). exists dy. split; [done|lia].
    - by exists d.
    - destruct r as [|? ? ? ? mr]; [by apply elem_of_nil in Hy|]. destruct (IHr y Hy) as (dy & ? & ?). exists dy. split; [done|lia]. }
  intros Hg. exact (Hm (Node l x r h m) Hg y).
Qed.
(** Locks right of [x] do not start before it. *)
Lemma precedes_start x y d : precedes x y → s !! x = Some d → ∃ dy, s !! y = Some dy ∧ d.(start) ≤ dy.(start).
Proof. intros (dx & dy & Hx & Hy & H) Hd. rewrite Hd in Hx. injection Hx as <-. exists dy. split; [done|lia]. Qed.

Definition clash (o k st en ty : Z) (x : Z) : Prop :=
  match s !! x with
  | Some d => d.(start) ≤ en ∧ st ≤ d.(end_) ∧ (d.(owner) ≠ o ∨ d.(kind) ≠ k) ∧ (ty = 1 ∨ d.(type) = 1)
  | None => False
  end.
#[export] Instance clash_dec o k st en ty x : Decision (clash o k st en ty x).
Proof. unfold clash. destruct (s !! x); apply _. Defined.

(** The search finds the first lock that clashes. *)
Lemma conflict_run t o k st en ty :
  good t → ordered (elems t) → 0 ∉ elems t →
  conflict s t o k st en ty = Done (default 0 (head (filter (clash o k st en ty) (elems t)))).
Proof.
  intros Hg Ho H0. induction t as [|l IHl x r IHr h m]; [done|]. cbn [conflict].
  pose proof Hg as (Hl & Hr & _ & _ & d & Hx & Hm). cbn [elems] in *.
  pose proof Ho as (Hol & Hor & Hlx & Hxr)%ordered_middle.
  rewrite elem_of_app, elem_of_cons in H0.
  destruct (decide (m < st)) as [Hlt|Hge].
  { rewrite filter_none; [done|]. apply Forall_forall. intros y Hy. destruct (good_max l x r h m y Hg Hy) as (dy & Hdy & ?).
    unfold clash. rewrite Hdy. lia. }
  assert (Hleft : match l with Nil => Done 0 | Node _ _ _ _ ml => if decide (st ≤ ml) then conflict s l o k st en ty else Done 0 end
    = Done (default 0 (head (filter (clash o k st en ty) (elems l))))).
  { destruct l as [|l' x' r' h' m']; [done|]. destruct (decide (st ≤ m')); [apply IHl; [done|done|tauto]|].
    rewrite filter_none; [done|]. apply Forall_forall. intros y Hy. destruct (good_max _ _ _ _ _ y Hl Hy) as (dy & Hdy & ?).
    unfold clash. rewrite Hdy. lia. }
  rewrite Hleft. run. rewrite filter_app. clear Hleft IHl.
  destruct (filter (clash o k st en ty) (elems l)) as [|y ys] eqn:E; cbn [default head app].
  2: { rewrite decide_True; [done|]. intros Hz; cbn in Hz; subst y. apply H0. left.
       assert (Hin : 0 ∈ filter (clash o k st en ty) (elems l)) by (rewrite E; by left). by apply list_elem_of_filter in Hin as [_ ?]. }
  rewrite decide_False by (by intros []). rewrite (load_Done x d Hx). run. rewrite filter_cons.
  assert (Hc : clash o k st en ty x ↔ start d ≤ en ∧ st ≤ end_ d ∧ (owner d ≠ o ∨ kind d ≠ k) ∧ (ty = 1 ∨ type d = 1))
    by (unfold clash; by rewrite Hx).
  destruct (decide (start d ≤ en ∧ _)) as [Hyes|Hno].
  { by rewrite decide_True by (by apply Hc). }
  rewrite (decide_False (P := clash o k st en ty x)) by (intros Hcl; by apply Hno, Hc). destruct (decide (start d ≤ en)) as [Hs|Hs]; [apply IHr; [done|done|tauto]|].
  rewrite filter_none; [done|]. apply Forall_forall. intros y Hy.
  destruct (precedes_start x y d (Hxr y Hy) Hx) as (dy & Hdy & ?). unfold clash. rewrite Hdy. lia.
Qed.

(** ** The edit walks *)
Definition edit_ok (e : edit) : Prop := is_i64 e.(e_start) ∧ is_i64 e.(e_end) ∧ e.(e_start) ≤ e.(e_end).
Definition range_ok (d : kernel_record_lock) : Prop := is_i64 d.(start) ∧ is_i64 d.(end_) ∧ d.(start) ≤ d.(end_).
Definition ranges_ok (l : list Z) : Prop := ∀ x, x ∈ l → ∃ d, s !! x = Some d ∧ range_ok d.
Definition edit_at (o k ty : Z) (e : edit) (x : Z) : edit :=
  match s !! x with Some d => edit_lock d o k ty e | None => e end.

Lemma edit_lock_ok d o k ty e : range_ok d → edit_ok e → edit_ok (edit_lock d o k ty e).
Proof.
  unfold range_ok, edit_ok, edit_lock. intros Hd He.
  repeat (destruct (decide _); cbn [e_start e_end] in *); try done; mlia.
Qed.
Lemma foldl_edit_ok o k ty l e : ranges_ok l → edit_ok e → edit_ok (foldl (edit_at o k ty) e l).
Proof.
  revert e. induction l as [|x l IH]; intros e Hl He; [done|]. cbn [foldl]. apply IH; [intros y Hy; apply Hl; by right|].
  destruct (Hl x) as (d & Hd & Hr); [by left|]. unfold edit_at. rewrite Hd. by apply edit_lock_ok.
Qed.
Lemma edit_lock_left d o k ty e :
  range_ok d → edit_ok e →
  d.(end_) < (if decide (ty ≠ 2 ∧ e.(e_start) ≠ INT64_MIN) then e.(e_start) - 1 else e.(e_start)) →
  edit_lock d o k ty e = e.
Proof.
  unfold range_ok, edit_ok, edit_lock, touching, adjacent. intros Hd He Hlt.
  destruct (decide (owner d = o ∧ kind d = k)); [|done].
  destruct (decide (ty ≠ 2 ∧ e_start e ≠ INT64_MIN)); rewrite decide_False by mlia; by rewrite decide_False by lia.
Qed.
Lemma edit_lock_right d o k ty e :
  range_ok d → edit_ok e →
  d.(start) > (if decide (ty ≠ 2 ∧ e.(e_end) ≠ INT64_MAX) then e.(e_end) + 1 else e.(e_end)) →
  edit_lock d o k ty e = e.
Proof.
  unfold range_ok, edit_ok, edit_lock, touching, adjacent. intros Hd He Hlt.
  destruct (decide (owner d = o ∧ kind d = k)); [|done].
  destruct (decide (ty ≠ 2 ∧ e_end e ≠ INT64_MAX)); rewrite decide_False by mlia; by rewrite decide_False by lia.
Qed.
Lemma foldl_same {A B} (f : A → B → A) e l : (∀ x, x ∈ l → f e x = e) → foldl f e l = e.
Proof.
  induction l as [|x l IH]; intros Hl; [done|]. cbn [foldl]. rewrite Hl by (by left). apply IH. intros y Hy. apply Hl. by right.
Qed.

(** Pruning changes nothing: the walk does what a scan of all locks does. *)
Lemma prepare_edit_run t o k ty e :
  good t → ordered (elems t) → ranges_ok (elems t) → edit_ok e →
  prepare_edit s t o k ty e = Done (foldl (edit_at o k ty) e (elems t)).
Proof.
  revert e. induction t as [|l IHl x r IHr h m]; intros e Hg Ho Hr He; [done|]. cbn [prepare_edit].
  pose proof Hg as (Hl & Hr' & _ & _ & d & Hx & Hm). cbn [elems] in *.
  pose proof Ho as (Hol & Hor & Hlx & Hxr)%ordered_middle.
  destruct (decide (m < _)) as [Hlt|Hge].
  { rewrite foldl_same; [done|]. intros y Hy. destruct (Hr y Hy) as (dy & Hdy & Hry). unfold edit_at. rewrite Hdy.
    apply edit_lock_left; [done..|]. destruct (good_max l x r h m y Hg Hy) as (dy' & Hdy' & ?).
    rewrite Hdy in Hdy'. injection Hdy' as <-. lia. }
  rewrite IHl; [|done|done|intros y Hy; apply Hr; set_solver|done]. run. rewrite foldl_app. cbn [foldl].
  set (e' := foldl (edit_at o k ty) e (elems l)).
  assert (He' : edit_ok e') by (apply foldl_edit_ok; [intros y Hy; apply Hr; set_solver|done]).
  destruct (Hr x) as (d' & Hd' & Hrx); [set_solver|]. rewrite Hx in Hd'. injection Hd' as <-.
  rewrite (load_Done x d Hx). run. unfold edit_at at 2. rewrite Hx. destruct (decide (start d > _)) as [Hgt|Hle].
  - rewrite (edit_lock_right d o k ty e' Hrx He' Hgt). rewrite foldl_same; [done|]. intros y Hy.
    destruct (Hr y) as (dy & Hdy & Hry); [set_solver|]. destruct (precedes_start x y d (Hxr y Hy) Hx) as (dy' & Hdy' & ?).
    rewrite Hdy in Hdy'. injection Hdy' as <-. unfold edit_at. rewrite Hdy. apply edit_lock_right; [done..|lia].
  - apply IHr; [done|done|intros y Hy; apply Hr; set_solver|]. by apply edit_lock_ok.
Qed.

(** A lock of the owner that overlaps the range. *)
Definition own (o k st en : Z) (x : Z) : Prop :=
  match s !! x with
  | Some d => d.(owner) = o ∧ d.(kind) = k ∧ d.(start) ≤ en ∧ st ≤ d.(end_)
  | None => False
  end.
#[export] Instance own_dec o k st en x : Decision (own o k st en x).
Proof. unfold own. destruct (s !! x); apply _. Defined.
Lemma filter_own_none o k st en l :
  (∀ x, x ∈ l → ¬ own o k st en x) → filter (own o k st en) l = [] ∧ filter (λ x, ¬ own o k st en x) l = l.
Proof. intros H. split; [apply filter_none|apply filter_all]; by apply Forall_forall. Qed.
Lemma extract_owned_run t o k st en removed :
  good t → ordered (elems t) → height t ≤ 120 →
  ∃ t' olds, extract_owned s t o k st en removed = Done (t', olds ++ removed) ∧
    olds ≡ₚ filter (own o k st en) (elems t) ∧ good t' ∧ elems t' = filter (λ x, ¬ own o k st en x) (elems t) ∧ height t' ≤ height t.
Proof.
  revert removed. induction t as [|l IHl x r IHr h m]; intros removed Hg Ho Hh; [by exists Nil, []|]. cbn [extract_owned].
  pose proof Hg as (Hl & Hr & Hb & Eh & d & Hx & Hm). cbn [elems height] in *. heights.
  pose proof Ho as (Hol & Hor & Hlx & Hxr)%ordered_middle.
  destruct (decide (m < st)) as [Hlt|Hge].
  { exists (Node l x r h m), []. cbn [elems height]. destruct (filter_own_none o k st en (elems l ++ x :: elems r)) as [-> ->]; [|done].
    intros y Hy. destruct (good_max l x r h m y Hg Hy) as (dy & Hdy & ?). unfold own. rewrite Hdy. lia. }
  destruct (IHl removed) as (l' & ol & -> & Pl & Hl' & El & Hhl); [done|done|lia|]. run. heights.
  rewrite (load_Done x d Hx). run. rewrite !filter_app.
  assert (Hox : own o k st en x ↔ owner d = o ∧ kind d = k ∧ start d ≤ en ∧ st ≤ end_ d) by (unfold own; by rewrite Hx).
  destruct (decide (start d > en)) as [Hgt|Hle].
  { destruct (filter_own_none o k st en (x :: elems r)) as [-> ->].
    { intros y [->|Hy]%elem_of_cons; [rewrite Hox; lia|].
      destruct (precedes_start x y d (Hxr y Hy) Hx) as (dy & Hdy & ?). unfold own. rewrite Hdy. lia. }
    destruct (join_root_run l' x r d) as (t & -> & Ht & Et & Hht); [done|done|done|lia|lia|]. run. rewrite app_nil_r.
    exists t, ol. rewrite Et, El. split_and!; try done. lia. }
  destruct (IHr (ol ++ removed)) as (r' & or & -> & Pr & Hr' & Er & Hhr); [done|done|lia|]. run. heights.
  rewrite !filter_cons. destruct (decide (owner d ≠ o ∨ _)) as [Hno|Hyes].
  - rewrite (decide_False (P := own o k st en x)), (decide_True (P := ¬ own o k st en x)) by (rewrite Hox; lia).
    destruct (join_root_run l' x r' d) as (t & -> & Ht & Et & Hht); [done|done|done|lia|lia|]. run.
    exists t, (or ++ ol). rewrite Et, El, Er, <- app_assoc. split; [done|]. split; [rewrite Pl, Pr; apply Permutation_app_comm|]. split_and!; try done; lia.
  - rewrite (decide_True (P := own o k st en x)), (decide_False (P := ¬ own o k st en x)) by (rewrite Hox; lia).
    destruct (join_trees_run l' r') as (t & -> & Ht & Et & Hht); [done|done|lia|lia|]. run.
    exists t, (x :: or ++ ol). rewrite Et, El, Er. cbn [app]. rewrite <- app_assoc. split; [done|].
    split; [|split_and!; try done; lia]. rewrite Pl, Pr, <- Permutation_middle. f_equiv. apply Permutation_app_comm.
Qed.
End trees.

(** ** Setting a lock, on the list of locks

    What a lock request means, apart from trees and pointers: the locks of an
    inode are a list of records in which locks of one owner are disjoint and
    coalesced, and locks of different owners overlap only when both are shared.
    Extending the range, cutting the overlapped locks and adding the new one
    keeps that, and changes the owner's bytes in the requested range only. *)
Import RecordLock.

(** ** Pairwise relations *)
Fixpoint pairwise {A} (R : A → A → Prop) (l : list A) : Prop :=
  match l with [] => True | x :: l => (∀ y, y ∈ l → R x y) ∧ pairwise R l end.
Lemma pairwise_app {A} (R : A → A → Prop) l1 l2 :
  pairwise R (l1 ++ l2) ↔ pairwise R l1 ∧ pairwise R l2 ∧ ∀ x y, x ∈ l1 → y ∈ l2 → R x y.
Proof.
  induction l1 as [|x l1 IH]; simpl.
  { split; [intros ?; split_and!; [done|done|]; by intros ? ? ?%elem_of_nil|tauto]. }
  rewrite IH. setoid_rewrite elem_of_app. setoid_rewrite elem_of_cons. split; [naive_solver|].
  intros ((H1 & H2) & H3 & H4). split_and!; try done; naive_solver.
Qed.
Lemma pairwise_elem {A} (R : A → A → Prop) `{!Symmetric R} l x y :
  pairwise R l → x ∈ l → y ∈ l → x = y ∨ R x y.
Proof.
  induction l as [|z l IH]; simpl; [by intros _ ?%elem_of_nil|]. intros [Hz Hl].
  rewrite !elem_of_cons. intros [->|Hx] [->|Hy]; auto.
Qed.
Section pairwise.
Context {A : Type} (R : A → A → Prop) `{!Symmetric R}.
#[export] Instance pairwise_perm : Proper ((≡ₚ) ==> iff) (pairwise R).
Proof.
  intros l l' Hp. induction Hp as [|x l l' Hp IH|x y l|l1 l2 l3 _ IH1 _ IH2]; simpl.
  - done.
  - rewrite IH. by setoid_rewrite Hp.
  - setoid_rewrite elem_of_cons. split; intros (H1 & H2 & H3); split_and!; try done; naive_solver.
  - by rewrite IH1.
Qed.
End pairwise.

Lemma lock_filter_split {A} (P : A → Prop) `{∀ x, Decision (P x)} (l : list A) :
  filter P l ++ filter (λ x, ¬ P x) l ≡ₚ l.
Proof.
  induction l as [|x l IH]; [done|]. rewrite !filter_cons. destruct (decide (P x)).
  - rewrite decide_False by tauto. cbn. by f_equiv.
  - rewrite decide_True by done. rewrite <- Permutation_middle. by f_equiv.
Qed.

(** ** Locks as data *)
Definition same_owner (a b : kernel_record_lock) : Prop := a.(owner) = b.(owner) ∧ a.(kind) = b.(kind).
Definition overlap (a b : kernel_record_lock) : Prop := a.(start) ≤ b.(end_) ∧ b.(start) ≤ a.(end_).
Definition abut (a b : kernel_record_lock) : Prop := a.(end_) + 1 = b.(start) ∨ b.(end_) + 1 = a.(start).
Definition compat (a b : kernel_record_lock) : Prop :=
  (same_owner a b → ¬ overlap a b ∧ (a.(type) = b.(type) → ¬ abut a b)) ∧
  (¬ same_owner a b → overlap a b → a.(type) ≠ 1 ∧ b.(type) ≠ 1).
#[export] Instance compat_symmetric : Symmetric compat.
Proof.
  intros a b [H1 H2]. unfold compat, same_owner, overlap, abut in *. split.
  - intros [E1 E2]. destruct H1 as [H1 H1']; [done|]. split; [lia|]. intros E3. specialize (H1' (eq_sym E3)). lia.
  - intros Hs Ho. destruct H2 as [? ?]; [naive_solver|lia|]. done.
Qed.
(** Some lock of [l] gives the owner the byte. *)
Definition holds (l : list kernel_record_lock) (o k b ty : Z) : Prop :=
  ∃ d, d ∈ l ∧ d.(owner) = o ∧ d.(kind) = k ∧ d.(type) = ty ∧ d.(start) ≤ b ≤ d.(end_).
(** A lock without its links: what it says. *)
Definition bare (d : kernel_record_lock) : kernel_record_lock := with_links (with_state d 0) 0 None.

(** Part of a lock conflicts with no more than the lock. *)
Lemma compat_part a a' b :
  compat a b → a'.(owner) = a.(owner) → a'.(kind) = a.(kind) → a'.(type) = a.(type) →
  a.(start) ≤ a'.(start) → a'.(end_) ≤ a.(end_) → a'.(start) ≤ a'.(end_) → b.(start) ≤ b.(end_) → compat a' b.
Proof.
  intros [H1 H2] Eo Ek Et Hs He Ha Hb. unfold compat, same_owner, overlap, abut in *. rewrite Eo, Ek, Et. split.
  - intros E. destruct (H1 E) as [Hno Hab]. split; [lia|]. intros Ety. specialize (Hab Ety). lia.
  - intros Hn Hov. apply H2; [done|lia].
Qed.

(** ** One request *)
Section request.
Context (o k p ty s0 e0 : Z).
Hypothesis Hs0 : is_i64 s0.
Hypothesis He0 : is_i64 e0.
Hypothesis Hse : s0 ≤ e0.
Definition mine (d : kernel_record_lock) : Prop := d.(owner) = o ∧ d.(kind) = k.
#[export] Instance mine_dec d : Decision (mine d).
Proof. unfold mine. apply _. Defined.
Definition locks_ok (l : list kernel_record_lock) : Prop :=
  pairwise compat l ∧ ∀ d, d ∈ l → range_ok d ∧ (d.(type) = 0 ∨ d.(type) = 1).
Definition by_start (l : list kernel_record_lock) : Prop := StronglySorted (λ a b, a.(start) ≤ b.(start)) l.

Definition splits (e : edit) (d : kernel_record_lock) : Prop := mine d ∧ d.(start) < e.(e_start) ∧ e.(e_end) < d.(end_).
#[export] Instance splits_dec e d : Decision (splits e d).
Proof. unfold splits. apply _. Defined.
(** The extended range [e] after the locks of [l] were seen, [n] more locks
    being needed at the start. *)
Record extended (n : nat) (l : list kernel_record_lock) (e : edit) : Prop := {
  ext_ok : edit_ok e;
  ext_covers : e.(e_start) ≤ s0 ∧ e0 ≤ e.(e_end);
  ext_mine b : e.(e_start) ≤ b ≤ e.(e_end) → s0 ≤ b ≤ e0 ∨ (ty ≠ 2 ∧ ∃ d, d ∈ l ∧ mine d ∧ d.(type) = ty ∧ d.(start) ≤ b ≤ d.(end_));
  ext_merged d : d ∈ l → ty ≠ 2 → mine d → d.(type) = ty →
    (e.(e_start) ≤ d.(start) ∧ d.(end_) ≤ e.(e_end)) ∨ d.(end_) + 1 < e.(e_start) ∨ e.(e_end) + 1 < d.(start);
  ext_needed : e.(e_needed) = (n + length (filter (splits e) l))%nat;
}.

(** At most one lock of the owner sticks out on both sides. *)
Lemma splits_once e l : edit_ok e → locks_ok l → (length (filter (splits e) l) ≤ 1)%nat.
Proof.
  intros He [Hp Hr]. assert (Hf : ∀ d, d ∈ filter (splits e) l → splits e d ∧ d ∈ l) by (intros d; by rewrite list_elem_of_filter).
  assert (Hq : pairwise compat (filter (splits e) l)).
  { clear Hr Hf. induction l as [|d l IH]; [done|]. destruct Hp as [Hd Hp]. rewrite filter_cons. destruct (decide (splits e d)); [|by apply IH].
    split; [|by apply IH]. intros y [_ Hy]%list_elem_of_filter. by apply Hd. }
  destruct (filter (splits e) l) as [|d [|d' l']]; [simpl; lia..|]. exfalso. destruct Hq as [Hdd _].
  destruct (Hf d ltac:(set_solver)) as [([Eo Ek] & ? & ?) _]. destruct (Hf d' ltac:(set_solver)) as [([Eo' Ek'] & ? & ?) _].
  destruct (Hdd d' ltac:(left)) as [Hc _]. destruct Hc as [Hno _]; [by split; congruence|]. unfold overlap, edit_ok in *. lia.
Qed.
Lemma needed_bound n l e : extended n l e → locks_ok l → (e.(e_needed) ≤ n + 1)%nat.
Proof. intros Hx Hl. rewrite (ext_needed _ _ _ Hx). pose proof (splits_once e l (ext_ok _ _ _ Hx) Hl). lia. Qed.
(** A later lock of the owner starts beyond an earlier one. *)
Lemma mine_after l d d' :
  locks_ok (l ++ [d]) → by_start (l ++ [d]) → d' ∈ l → mine d' → mine d →
  d'.(end_) < d.(start) ∧ (d'.(type) = d.(type) → d'.(end_) + 1 < d.(start)).
Proof.
  intros [Hp Hr] Hb Hd' [Eo' Ek'] [Eo Ek]. apply pairwise_app in Hp as (_ & _ & Hp).
  destruct (Hp d' d Hd') as [Hc _]; [by left|]. destruct Hc as [Hno Hab]; [by split; congruence|].
  assert (start d' ≤ start d) by (by apply (StronglySorted_app_1_elem_of (λ a b, start a ≤ start b) l [d]); [..|left]).
  destruct (Hr d') as [(_ & _ & ?) _]; [set_solver|]. destruct (Hr d) as [(_ & _ & ?) _]; [set_solver|].
  unfold overlap, abut in *. split; [lia|]. intros Et. specialize (Hab Et). lia.
Qed.
(** The owner's lock [d] is merged into the range. *)
Definition merges (e : edit) (d : kernel_record_lock) : Prop :=
  ty ≠ 2 ∧ d.(type) = ty ∧ (touching d e.(e_start) e.(e_end) ∨ adjacent d e.(e_start) e.(e_end)).
Lemma extended_merge n l d e :
  locks_ok (l ++ [d]) → by_start (l ++ [d]) → extended n l e → mine d → merges e d →
  extended n (l ++ [d]) (mk_edit (Z.min d.(start) e.(e_start)) (Z.max d.(end_) e.(e_end)) e.(e_needed)).
Proof.
  intros Hl Hb [Hok Hcov Hmine Hmer Hneed] Hd (Hty & Etd & Hta). pose proof Hl as [_ Hr].
  destruct (Hr d) as [Hrd _]; [set_solver|]. unfold touching, adjacent, range_ok, edit_ok in *. split; cbn [e_start e_end e_needed].
  - unfold edit_ok. cbn. mlia.
  - lia.
  - intros b Hbr. destruct (decide (start d ≤ b ≤ end_ d)) as [Hin|Hout].
    { right. split; [done|]. exists d. split_and!; [set_solver|done..|lia|lia]. }
    destruct (Hmine b) as [?|(_ & d' & ? & ? & ? & ?)]; [lia|by left|]. right. split; [done|]. exists d'. set_solver.
  - intros d' [Hd'|Hd']%elem_of_app _ Hm' Et'.
    + destruct (mine_after l d d' Hl Hb Hd' Hm' Hd) as [Hlt Hgap]. specialize (Hgap (eq_trans Et' (eq_sym Etd))).
      destruct (Hr d') as [(_ & _ & ?) _]; [set_solver|]. destruct (Hmer d' Hd' Hty Hm' Et') as [?|[?|?]]; lia.
    + apply list_elem_of_singleton in Hd' as ->. lia.
  - rewrite Hneed, filter_app, length_app. assert (filter (splits (mk_edit (start d `min` e_start e) (end_ d `max` e_end e) (e_needed e))) [d] = []) as Hnil.
    { rewrite filter_cons_False; [done|]. unfold splits. cbn. lia. }
    rewrite Hneed in Hnil. rewrite Hnil, Nat.add_0_r. f_equal. f_equal. apply filter_ext_in. intros d' Hd'.
    unfold splits. cbn. split; [|intros [? ?]; split; [done|lia]]. intros (Hm' & H1 & H2).
    destruct (mine_after l d d' Hl Hb Hd' Hm' Hd) as [Hlt _]. lia.
Qed.
Lemma extended_keep n l d e e' :
  locks_ok (l ++ [d]) → extended n l e → (mine d → ¬ merges e d) →
  e'.(e_start) = e.(e_start) → e'.(e_end) = e.(e_end) →
  e'.(e_needed) = (if decide (splits e d) then S e.(e_needed) else e.(e_needed)) →
  extended n (l ++ [d]) e'.
Proof.
  intros Hl [Hok Hcov Hmine Hmer Hneed] Hno Es Ee En. pose proof Hl as [_ Hr]. destruct (Hr d) as [Hrd _]; [set_solver|].
  split; rewrite ?Es, ?Ee; try done.
  - unfold edit_ok. by rewrite Es, Ee.
  - intros b Hb. destruct (Hmine b Hb) as [?|(? & d' & ? & ? & ? & ?)]; [by left|]. right. split; [done|]. exists d'. set_solver.
  - intros d' [Hd'|Hd']%elem_of_app Hty Hm Et; [by apply Hmer|]. apply list_elem_of_singleton in Hd' as ->.
    assert (Hn : ¬ (touching d (e_start e) (e_end e) ∨ adjacent d (e_start e) (e_end e))) by (intros ?; by apply Hno).
    unfold touching, adjacent, range_ok, edit_ok in *. mlia.
  - rewrite En, Hneed, filter_app, length_app.
    assert (Hf : ∀ x, splits e' x ↔ splits e x) by (intros x; unfold splits; by rewrite Es, Ee).
    rewrite (filter_ext_in (splits e') (splits e) l), (filter_ext_in (splits e') (splits e) [d]) by (intros; apply Hf).
    rewrite filter_cons. destruct (decide (splits e d)); cbn; lia.
Qed.
Lemma extended_fold n l :
  locks_ok l → by_start l → extended n l (foldl (λ e d, edit_lock d o k ty e) (mk_edit s0 e0 n) l).
Proof.
  induction l as [|d l IH] using rev_ind; intros Hl Hb.
  { split; cbn; [done|lia|intros b Hb'; by left|by intros ? ?%elem_of_nil|lia]. }
  assert (locks_ok l ∧ by_start l) as [Hl1 Hl2].
  { destruct Hl as [Hp Hr]. split; [split|].
    - by apply pairwise_app in Hp as [? _].
    - intros x Hx. apply Hr. set_solver.
    - by eapply StronglySorted_app_1_l. }
  specialize (IH Hl1 Hl2). rewrite foldl_snoc. set (e := foldl _ _ l) in *. unfold edit_lock.
  destruct (decide (owner d = o ∧ kind d = k)) as [Hm|Hm].
  - destruct (decide (ty ≠ 2 ∧ _)) as [Hmg|Hmg].
    + pose proof (extended_merge n l d e Hl Hb IH Hm Hmg) as Hx.
      replace (if decide (start d < e_start e) then start d else e_start e) with (Z.min (start d) (e_start e)) by (destruct (decide _); lia).
      replace (if decide (end_ d > e_end e) then end_ d else e_end e) with (Z.max (end_ d) (e_end e)) by (destruct (decide _); lia).
      done.
    + destruct (decide (start d < e_start e ∧ end_ d > e_end e)) as [Hsp|Hsp].
      * apply (extended_keep n l d e); try done. cbn. rewrite decide_True; [done|]. split; [done|lia].
      * apply (extended_keep n l d e); try done. rewrite decide_False; [done|]. intros (_ & ? & ?). lia.
  - apply (extended_keep n l d e); try done. rewrite decide_False; [done|]. by intros (? & _).
Qed.

(** ** The locks after the request *)
Definition hit (e : edit) (d : kernel_record_lock) : Prop := mine d ∧ d.(start) ≤ e.(e_end) ∧ e.(e_start) ≤ d.(end_).
#[export] Instance hit_dec e d : Decision (hit e d).
Proof. unfold hit. apply _. Defined.
Definition pieces (e : edit) (d : kernel_record_lock) : list kernel_record_lock :=
  (if decide (d.(start) < e.(e_start)) then [with_range d d.(start) (e.(e_start) - 1)] else []) ++
  (if decide (e.(e_end) < d.(end_)) then [with_range d (e.(e_end) + 1) d.(end_)] else []).
Definition fresh_lock (e : edit) : kernel_record_lock := mk_lock 0 None 0 o e.(e_start) e.(e_end) p ty k.
Definition requested (e : edit) (l : list kernel_record_lock) : list kernel_record_lock :=
  filter (λ d, ¬ hit e d) l ++ (filter (hit e) l ≫= pieces e) ++ (if decide (ty = 2) then [] else [fresh_lock e]).
(** No other owner's lock stands against the request. *)
Definition unopposed (l : list kernel_record_lock) : Prop :=
  ty ≠ 2 → ∀ d, d ∈ l → ¬ mine d → d.(start) ≤ e0 → s0 ≤ d.(end_) → ty ≠ 1 ∧ d.(type) ≠ 1.

Lemma pieces_spec e d d' :
  edit_ok e → range_ok d → hit e d → d' ∈ pieces e d →
  d'.(owner) = d.(owner) ∧ d'.(kind) = d.(kind) ∧ d'.(type) = d.(type) ∧ range_ok d' ∧
  d.(start) ≤ d'.(start) ∧ d'.(end_) ≤ d.(end_) ∧ (d'.(end_) < e.(e_start) ∨ e.(e_end) < d'.(start)).
Proof.
  unfold pieces, edit_ok, range_ok. intros He Hd (_ & Hh1 & Hh2). rewrite elem_of_app. intros [Hin|Hin];
    [destruct (decide (start d < e_start e))|destruct (decide (e_end e < end_ d))];
    try (by apply elem_of_nil in Hin); apply list_elem_of_singleton in Hin as ->;
    unfold with_range; cbn; split_and!; try done; mlia.
Qed.
Lemma pieces_byte e d b :
  d.(start) ≤ b ≤ d.(end_) → (b < e.(e_start) ∨ e.(e_end) < b) →
  ∃ d', d' ∈ pieces e d ∧ d'.(owner) = d.(owner) ∧ d'.(kind) = d.(kind) ∧ d'.(type) = d.(type) ∧ d'.(start) ≤ b ≤ d'.(end_).
Proof.
  unfold pieces. intros Hb [Hlt|Hgt].
  - exists (with_range d (start d) (e_start e - 1)). rewrite decide_True by lia. split; [set_solver|]. cbn. split_and!; try done; lia.
  - exists (with_range d (e_end e + 1) (end_ d)). rewrite (decide_True (P := e_end e < end_ d)) by lia.
    split; [set_solver|]. cbn. split_and!; try done; lia.
Qed.
Lemma pieces_pairwise e d : edit_ok e → range_ok d → pairwise compat (pieces e d).
Proof.
  unfold pieces, edit_ok, range_ok. intros He Hd.
  destruct (decide (start d < e_start e)), (decide (e_end e < end_ d)); cbn; try (split; [by intros ? ?%elem_of_nil|done]); [|done].
  split; [|split; [by intros ? ?%elem_of_nil|done]]. intros y ->%list_elem_of_singleton.
  unfold compat, same_owner, overlap, abut. cbn. split; [intros _; split; [lia|lia]|]. intros []. done.
Qed.
Lemma pieces_all_pairwise e l :
  edit_ok e → locks_ok l → (∀ d, d ∈ l → hit e d) → pairwise compat (l ≫= pieces e).
Proof.
  intros He [Hp Hr] Hhit. induction l as [|d l IH]; [done|]. destruct Hp as [Hd Hp]. rewrite bind_cons. apply pairwise_app.
  destruct (Hr d) as [Hrd _]; [by left|]. split; [by apply pieces_pairwise|]. split; [apply IH; [done|intros x Hx; apply Hr; by right|intros x Hx; apply Hhit; by right]|].
  intros x y Hx (d' & Hy & Hd')%list_elem_of_bind. destruct (Hr d') as [Hrd' _]; [by right|].
  destruct (pieces_spec e d x He Hrd (Hhit d ltac:(by left)) Hx) as (? & ? & ? & (? & ? & ?) & ? & ? & _).
  destruct (pieces_spec e d' y He Hrd' (Hhit d' ltac:(by right)) Hy) as (? & ? & ? & (? & ? & ?) & ? & ? & _).
  destruct Hrd as (_ & _ & ?), Hrd' as (_ & _ & ?).
  apply (compat_part d); try done. symmetry. apply (compat_part d'); try done. symmetry. auto.
Qed.

(** The new lock against every lock that is left. *)
Lemma fresh_compat n l e d :
  locks_ok l → unopposed l → extended n l e → ty ≠ 2 → d ∈ l → ¬ hit e d → compat (fresh_lock e) d.
Proof.
  intros [Hp Hr] Hun [Hok Hcov Hmine Hmer _] Hty Hd Hnh. destruct (Hr d Hd) as [(_ & _ & ?) _]. unfold edit_ok in Hok.
  unfold compat, same_owner, overlap, abut, hit in *. cbn. split.
  - intros [Eo Ek]. assert (Hm : mine d) by (split; congruence). split; [intros ?; apply Hnh; split; [done|lia]|].
    intros Et. destruct (Hmer d Hd Hty Hm (eq_sym Et)) as [?|[?|?]]; [|lia|lia]. exfalso. apply Hnh. split; [done|lia].
  - intros Hno Hov. assert (Hm : ¬ mine d) by (intros [? ?]; apply Hno; split; congruence).
    set (b := Z.max (e_start e) (start d)). destruct (Hmine b) as [Hb|(_ & d' & Hd' & Hm' & Et' & Hb)]; [lia|apply Hun; try done; lia|].
    destruct (pairwise_elem compat l d' d Hp Hd' Hd) as [->|[_ Hc]]; [done|]. destruct Hc as [? ?].
    + intros [? ?]. apply Hm. destruct Hm' as [? ?]. split; congruence.
    + unfold overlap. lia.
    + split; congruence.
Qed.
Lemma fresh_compat_piece n l e d d' :
  locks_ok l → extended n l e → ty ≠ 2 → d ∈ l → hit e d → d' ∈ pieces e d → compat (fresh_lock e) d'.
Proof.
  intros [Hp Hr] [Hok Hcov Hmine Hmer _] Hty Hd Hh Hd'. destruct (Hr d Hd) as [Hrd _].
  destruct (pieces_spec e d d' Hok Hrd Hh Hd') as (Eo & Ek & Et & (_ & _ & ?) & Hs & He & Hout). destruct Hh as ([? ?] & Hh1 & Hh2).
  unfold compat, same_owner, overlap, abut, edit_ok in *. cbn. rewrite Eo, Ek, Et. split; [|intros []; split; congruence].
  intros _. split; [lia|]. intros Ety. destruct (Hmer d Hd Hty) as [?|[?|?]]; [by split|done|lia|lia|lia].
Qed.
Lemma requested_ok n l e :
  (ty = 0 ∨ ty = 1 ∨ ty = 2) → locks_ok l → unopposed l → extended n l e → locks_ok (requested e l).
Proof.
  intros Htv Hl Hun Hx. pose proof Hl as [Hp Hr]. pose proof (ext_ok _ _ _ Hx) as Hok.
  assert (Hsplit : pairwise compat (filter (λ d, ¬ hit e d) l ++ filter (hit e) l)).
  { by rewrite Permutation_app_comm, lock_filter_split. }
  apply pairwise_app in Hsplit as (Hkeep & Hhit & Hcross). unfold requested. split.
  - apply pairwise_app. split; [done|]. rewrite pairwise_app. split; [split; [|split]|].
    + apply pieces_all_pairwise; [done| |by intros d [? _]%list_elem_of_filter].
      split; [done|]. intros d [_ ?]%list_elem_of_filter. auto.
    + destruct (decide (ty = 2)); [done|]. split; [by intros ? ?%elem_of_nil|done].
    + intros x y (d & Hx' & [Hh Hd]%list_elem_of_filter)%list_elem_of_bind Hy. destruct (decide (ty = 2)); [by apply elem_of_nil in Hy|].
      apply list_elem_of_singleton in Hy as ->. symmetry. by apply (fresh_compat_piece n l e d).
    + intros x y Hxk. pose proof Hxk as [Hxn Hxl]%list_elem_of_filter. rewrite elem_of_app. intros [Hy|Hy].
      * apply list_elem_of_bind in Hy as (d & Hy & Hd). pose proof Hd as [Hdh Hdl]%list_elem_of_filter.
        destruct (Hr d Hdl) as [Hrd _]. destruct (pieces_spec e d y Hok Hrd Hdh Hy) as (? & ? & ? & (_ & _ & ?) & ? & ? & _).
        symmetry. apply (compat_part d); try done; [symmetry; auto|]. by destruct (Hr x Hxl) as [(_ & _ & ?) _].
      * destruct (decide (ty = 2)); [by apply elem_of_nil in Hy|]. apply list_elem_of_singleton in Hy as ->.
        symmetry. by apply (fresh_compat n l).
  - intros d. rewrite !elem_of_app. intros [[_ Hd]%list_elem_of_filter|[Hd|Hd]]; [auto| |].
    + apply list_elem_of_bind in Hd as (d' & Hd & [Hdh Hd']%list_elem_of_filter). destruct (Hr d' Hd') as [Hrd Ht].
      destruct (pieces_spec e d' d Hok Hrd Hdh Hd) as (_ & _ & -> & ? & _). done.
    + destruct (decide (ty = 2)); [by apply elem_of_nil in Hd|]. apply list_elem_of_singleton in Hd as ->.
      split; [exact Hok|]. cbn. lia.
Qed.

(** The request changes the owner's bytes in the requested range and nothing
    else. *)
Lemma requested_bytes n l e o' k' b ty' :
  locks_ok l → extended n l e →
  holds (requested e l) o' k' b ty' ↔
    if decide (o' = o ∧ k' = k ∧ s0 ≤ b ≤ e0) then ty ≠ 2 ∧ ty' = ty else holds l o' k' b ty'.
Proof.
  intros [Hp Hr] [Hok Hcov Hmine Hmer _]. split.
  - intros (d & Hd & <- & <- & <- & Hb). unfold requested in Hd. rewrite !elem_of_app in Hd. destruct Hd as [Hd|[Hd|Hd]].
    + apply list_elem_of_filter in Hd as [Hn Hd]. rewrite decide_False; [by exists d|]. intros (? & ? & ?). apply Hn.
      split; [by split|lia].
    + apply list_elem_of_bind in Hd as (d' & Hd & [Hh Hd']%list_elem_of_filter). destruct (Hr d' Hd') as [Hrd _].
      destruct (pieces_spec e d' d Hok Hrd Hh Hd) as (-> & -> & -> & _ & ? & ? & ?).
      rewrite decide_False by lia. exists d'. split_and!; try done; lia.
    + destruct (decide (ty = 2)) as [|Hty]; [by apply elem_of_nil in Hd|]. apply list_elem_of_singleton in Hd as ->. cbn in *.
      destruct (decide _) as [|Hn]; [done|]. destruct (Hmine b Hb) as [?|(_ & d & ? & [? ?] & ? & ?)]; [tauto|]. by exists d.
  - destruct (decide _) as [(-> & -> & Hb)|Hout].
    + intros [Hty ->]. exists (fresh_lock e). unfold requested. rewrite decide_False by done. split; [set_solver|].
      cbn. split_and!; try done; lia.
    + intros (d & Hd & <- & <- & <- & Hb). destruct (decide (hit e d)) as [Hh|Hh].
      2: { exists d. split; [|done]. apply elem_of_app. left. by apply list_elem_of_filter. }
      destruct (decide (e_start e ≤ b ≤ e_end e)) as [Hin|Hex].
      * destruct Hh as ([Eo Ek] & _). destruct (Hmine b Hin) as [?|(Hty & d' & Hd' & [Eo' Ek'] & Et & Hb')]; [tauto|].
        exists (fresh_lock e). unfold requested. rewrite decide_False by done. split; [set_solver|]. cbn.
        destruct (pairwise_elem compat l d d' Hp Hd Hd') as [->|[Hc _]]; [done|].
        destruct Hc as [Hc _]; [split; congruence|]. destruct Hc. unfold overlap. lia.
      * destruct (pieces_byte e d b Hb) as (d' & Hd' & ?); [lia|]. exists d'. split; [|done]. unfold requested.
        rewrite !elem_of_app. right. left. apply list_elem_of_bind. exists d. split; [done|]. by apply list_elem_of_filter.
Qed.
(** Every lock that the edit splits is one that it hits. *)
Lemma splits_hit e (l : list kernel_record_lock) : edit_ok e → filter (splits e) (filter (hit e) l) = filter (splits e) l.
Proof.
  intros (_ & _ & Hse'). rewrite list_filter_filter. apply filter_ext_in. intros d _. unfold splits, hit.
  split; [tauto|]. intros (? & ? & ?). split_and!; try done; lia.
Qed.
End request.
