(* ===== verification/LockOpsTheory.v ===== *)
(** * Owner lists, and the operations on trees and lists *)
From S2P Require Import Prelude Heap RecordLock LockTreeTheory.
Import Heap RecordLock.
#[local] Open Scope Z_scope.

(** From pointer [p], stored at [at_], the links run through [l] to [q]. *)
Fixpoint oseg (s : gmap Z kernel_record_lock) (at_ : place) (p : Z) (l : list Z) (q : Z) : Prop :=
  match l with
  | [] => p = q
  | x :: l => p = x ∧ x ≠ 0 ∧ ∃ d, s !! x = Some d ∧ d.(owner_previous) = Some at_ ∧ oseg s (Owner_next x) d.(owner_next) l q
  end.
Definition after (at_ : place) (l : list Z) : place :=
  match last l with Some y => Owner_next y | None => at_ end.

Lemma oseg_app s at_ p l1 l2 q :
  oseg s at_ p (l1 ++ l2) q ↔ ∃ m, oseg s at_ p l1 m ∧ oseg s (after at_ l1) m l2 q.
Proof.
  revert at_ p. induction l1 as [|x l1 IH]; intros at_ p; cbn.
  { split; [intros H; by exists p|by intros (m & <- & ?)]. }
  assert (Ha : ∀ a, after a (x :: l1) = after (Owner_next x) l1) by (intros a; unfold after; rewrite last_cons; by destruct (last l1)).
  rewrite Ha. split.
  - intros (-> & Hx & d & Hd & Hp & (m & H1 & H2)%IH). exists m. split; [|done]. split_and!; try done. by exists d.
  - intros (m & (-> & Hx & d & Hd & Hp & H1) & H2). split_and!; try done. exists d. split_and!; try done. apply IH. eauto.
Qed.
Lemma oseg_ext s s' at_ p l q :
  (∀ y, y ∈ l → s' !! y = s !! y) → oseg s at_ p l q → oseg s' at_ p l q.
Proof.
  revert at_ p. induction l as [|x l IH]; intros at_ p He; cbn; [done|]. intros (-> & Hx & d & Hd & Hp & Ho).
  split_and!; try done. exists d. rewrite (He x) by (by left). split_and!; try done. apply IH; [|done].
  intros y Hy. apply He. by right.
Qed.
Lemma oseg_elem s at_ p l q y : oseg s at_ p l q → y ∈ l → y ≠ 0 ∧ is_Some (s !! y).
Proof.
  revert at_ p. induction l as [|x l IH]; intros at_ p; cbn; [by intros _ ?%elem_of_nil|].
  intros (-> & Hx & d & Hd & Hp & Ho) [->|Hy]%elem_of_cons; [by rewrite Hd|eauto].
Qed.
(** Redirecting the last pointer, and moving the first. *)
Lemma oseg_last s at_ p l y q q' d :
  NoDup (l ++ [y]) → oseg s at_ p (l ++ [y]) q → s !! y = Some d →
  oseg (<[y := with_links d q' d.(owner_previous)]> s) at_ p (l ++ [y]) q'.
Proof.
  intros Hn (m & H1 & (-> & Hy & d' & Hd' & Hp & Hq))%oseg_app Hd. rewrite Hd in Hd'. injection Hd' as <-.
  apply NoDup_app in Hn as (_ & Hn & _). apply oseg_app. exists y. split.
  - eapply oseg_ext; [|done]. intros z Hz. rewrite lookup_insert_ne; [done|]. intros ->. apply (Hn z Hz). by left.
  - cbn. split_and!; try done. eexists. rewrite lookup_insert_eq. split_and!; done.
Qed.
Lemma oseg_first s at_ at_' p l q d :
  NoDup (p :: l) → oseg s at_ p (p :: l) q → s !! p = Some d →
  oseg (<[p := with_links d d.(owner_next) (Some at_')]> s) at_' p (p :: l) q.
Proof.
  intros Hn (_ & Hp & d' & Hd' & Hprev & Ho) Hd. rewrite Hd in Hd'. injection Hd' as <-. apply NoDup_cons in Hn as [Hn _].
  cbn. split_and!; try done. eexists. rewrite lookup_insert_eq. split_and!; [done|done|]. eapply oseg_ext; [|done].
  intros y Hy. rewrite lookup_insert_ne; [done|]. by intros ->.
Qed.

(** ** All lists *)
(** The fields that are not links. *)
Definition data (d : kernel_record_lock) : kernel_record_lock := with_links d 0 None.
Definition same_data (s s' : gmap Z kernel_record_lock) : Prop := ∀ y, data <$> s' !! y = data <$> s !! y.
Lemma same_data_refl s : same_data s s.
Proof. done. Qed.
Lemma same_data_trans s1 s2 s3 : same_data s1 s2 → same_data s2 s3 → same_data s1 s3.
Proof. intros H1 H2 y. by rewrite H2, H1. Qed.
Lemma same_data_links s x d next previous :
  s !! x = Some d → same_data s (<[x := with_links d next previous]> s).
Proof.
  intros Hd y. destruct (decide (y = x)) as [->|]; [by rewrite lookup_insert_eq, Hd|by rewrite lookup_insert_ne].
Qed.
Lemma same_data_Some s s' y d : same_data s s' → s !! y = Some d → ∃ d', s' !! y = Some d' ∧ data d' = data d.
Proof. intros H Hd. specialize (H y). rewrite Hd in H. destruct (s' !! y) as [d'|]; [|done]. apply (inj Some) in H. eauto. Qed.
Lemma same_data_sym s s' : same_data s s' → same_data s' s.
Proof. intros H y. by rewrite H. Qed.

Lemma same_data_dom s s' : same_data s s' → dom s' = dom s.
Proof. intros H. apply set_eq. intros y. rewrite !elem_of_dom. specialize (H y). destruct (s' !! y), (s !! y); naive_solver. Qed.
Lemma same_data_owner s s' y d :
  same_data s s' → s !! y = Some d → ∃ d', s' !! y = Some d' ∧ d'.(owner) = d.(owner) ∧ d'.(kind) = d.(kind).
Proof.
  intros Hs Hd. destruct (same_data_Some s s' y d Hs Hd) as (d' & Hd' & E). exists d'. split; [done|].
  unfold data, with_links in E. by injection E.
Qed.

Record lists_inv (s : gmap Z kernel_record_lock) (hs : gmap Z Z) (g : Z → list Z) : Prop := {
  li_list h a : hs !! h = Some a → oseg s (Owner_head h) a (g h) 0;
  li_none h : hs !! h = None → g h = [];
  li_nodup h : NoDup (g h);
  li_disjoint h h' x : x ∈ g h → x ∈ g h' → h = h';
}.
Definition upd (g : Z → list Z) (h : Z) (l : list Z) : Z → list Z := λ h', if decide (h' = h) then l else g h'.
Lemma upd_eq g h l : upd g h l h = l.
Proof. unfold upd. by rewrite decide_True. Qed.
Lemma upd_ne g h l h' : h' ≠ h → upd g h l h' = g h'.
Proof. intros. unfold upd. by rewrite decide_False. Qed.

Section lists.
Context {H : Type} `{!ObjectHeap H} {Q : Type} `{!WaitQueue Q}.
Implicit Types w : world H Q.

(** A world in which only links and heads changed. *)
Definition relinked w w' : Prop :=
  w'.(states) = w.(states) ∧ w'.(heap) = w.(heap) ∧ dom w'.(heads) = dom w.(heads) ∧ same_data w.(locks) w'.(locks).

Definition with_locks w (s : gmap Z kernel_record_lock) : world H Q := mk_world s w.(heads) w.(states) w.(heap).
(** Only the locks of [l] may have changed, and only in their links. *)
Definition touched (l : list Z) (s s' : gmap Z kernel_record_lock) : Prop :=
  same_data s s' ∧ ∀ y, y ∉ l → s' !! y = s !! y.

Lemma set_previous_run w at_ at_' p l :
  oseg w.(locks) at_ p l 0 → NoDup l →
  ∃ s', set_previous w p at_' = Done (with_locks w s') ∧ oseg s' at_' p l 0 ∧ touched l w.(locks) s'.
Proof.
  intros Hseg Hn. unfold set_previous. destruct l as [|a l].
  - cbn in Hseg. subst p. rewrite decide_False by lia. exists (locks w). by destruct w.
  - pose proof Hseg as (-> & Ha0 & d & Hd & Hprev & Ho). rewrite decide_True by done. rewrite (load_Done _ a d Hd). run.
    eexists. split; [done|]. split; [by apply (oseg_first _ at_)|]. split; [by apply same_data_links|].
    intros y Hy. rewrite lookup_insert_ne; [done|]. intros ->. apply Hy. by left.
Qed.
Lemma write_place_run w h a l x n :
  w.(heads) !! h = Some a → oseg w.(locks) (Owner_head h) a l x → NoDup l →
  ∃ s' a', write_place w (after (Owner_head h) l) n = Done (mk_world s' (<[h := a']> w.(heads)) w.(states) w.(heap)) ∧
    oseg s' (Owner_head h) a' l n ∧ touched l w.(locks) s'.
Proof.
  intros Ha Hseg Hn. destruct l as [|y l _] using rev_ind.
  - unfold write_place, load_head, after. cbn. rewrite Ha. run. exists (locks w), n. done.
  - unfold after. rewrite last_snoc. destruct (oseg_elem _ _ _ _ _ y Hseg) as [Hy0 [d Hd]]; [set_solver|].
    unfold write_place. rewrite (load_Done _ y d Hd). run. eexists _, a. rewrite (insert_id (heads w)) by done.
    split; [done|]. split; [by apply (oseg_last _ _ _ _ _ x)|]. split; [by apply same_data_links|].
    intros z Hz. rewrite lookup_insert_ne; [done|]. set_solver.
Qed.

Lemma owner_insert_run w g h x d :
  lists_inv w.(locks) w.(heads) g → is_Some (w.(heads) !! h) → w.(locks) !! x = Some d → x ≠ 0 → (∀ h', x ∉ g h') →
  ∃ w', owner_insert w h x = Done w' ∧ relinked w w' ∧ lists_inv w'.(locks) w'.(heads) (upd g h (x :: g h)).
Proof.
  intros [Hl Hn Hnd Hdis] [a Ha] Hx Hx0 Hout. unfold owner_insert, load_head. rewrite Ha. run.
  rewrite (load_Done _ x d Hx). run. set (s1 := <[x := with_links d a (Some (Owner_head h))]> (locks w)).
  pose proof (Hl h a Ha) as Hseg.
  assert (Hx1 : ∀ y, y ≠ x → s1 !! y = locks w !! y) by (intros; unfold s1; by rewrite lookup_insert_ne).
  destruct (set_previous_run (set_lock w x (with_links d a (Some (Owner_head h)))) (Owner_head h) (Owner_next x) a (g h))
    as (s2 & -> & Hseg2 & Hsd & Hoth); [|apply Hnd|].
  { apply (oseg_ext (locks w)); [|done]. intros y Hy. apply Hx1. intros ->. by apply (Hout h). }
  cbn in Hsd, Hoth. fold s1 in Hsd, Hoth. assert (Hx2 : s2 !! x = s1 !! x) by apply Hoth, Hout. run.
  eexists. split; [done|]. cbn. split; [split_and!; try done|].
  - cbn. rewrite dom_insert_L. apply elem_of_dom_2 in Ha. set_solver.
  - cbn. eapply same_data_trans; [|exact Hsd]. by apply same_data_links.
  - split.
    + intros h' a'. destruct (decide (h' = h)) as [->|Hne].
      * rewrite lookup_insert_eq, upd_eq. intros [= <-]. cbn. split_and!; try done.
        eexists. rewrite Hx2. unfold s1. rewrite lookup_insert_eq. split_and!; done.
      * rewrite lookup_insert_ne, upd_ne by done. intros Ha'. eapply oseg_ext; [|by apply Hl]. intros y Hy.
        rewrite Hoth by (intros Hy'; by apply Hne, (Hdis h' h y)). apply Hx1. intros ->. by apply (Hout h').
    + intros h' Hh'. destruct (decide (h' = h)) as [->|Hne]; [by rewrite lookup_insert_eq in Hh'|].
      rewrite lookup_insert_ne in Hh' by done. rewrite upd_ne by done. auto.
    + intros h'. destruct (decide (h' = h)) as [->|Hne]; [|rewrite upd_ne by done; apply Hnd].
      rewrite upd_eq. constructor; [apply Hout|apply Hnd].
    + intros h1 h2 y. unfold upd. destruct (decide (h1 = h)) as [->|], (decide (h2 = h)) as [->|]; try done; [| |apply Hdis].
      * intros [->|Hy]%elem_of_cons Hy'; [by destruct (Hout h2)|eapply Hdis; eauto].
      * intros Hy [->|Hy']%elem_of_cons; [by destruct (Hout h1)|eapply Hdis; eauto].
Qed.

Lemma owner_remove_run w g h x l1 l2 :
  lists_inv w.(locks) w.(heads) g → g h = l1 ++ x :: l2 →
  ∃ w', owner_remove w x = Done w' ∧ relinked w w' ∧ lists_inv w'.(locks) w'.(heads) (upd g h (l1 ++ l2)).
Proof.
  intros [Hl Hn Hnd Hdis] E. destruct (heads w !! h) as [a|] eqn:Ha; [|by rewrite Hn in E by done; destruct l1].
  pose proof (Hl h a Ha) as Hseg. rewrite E in Hseg. apply oseg_app in Hseg as (m & Hs1 & (-> & Hx0 & d & Hd & Hprev & Hs2)).
  pose proof (Hnd h) as Hn1. rewrite E in Hn1. pose proof Hn1 as (Hnl1 & Hx1 & [Hx2 Hnl2]%NoDup_cons)%NoDup_app.
  assert (Hx1' : x ∉ l1) by (intros Hx; apply (Hx1 x Hx); by left).
  assert (H12 : ∀ y, y ∈ l1 → y ∉ l2) by (intros y Hy Hy2; apply (Hx1 y Hy); by right).
  unfold owner_remove. rewrite (load_Done _ x d Hd). run. rewrite Hprev.
  destruct (write_place_run w h a l1 x (owner_next d) Ha Hs1 Hnl1) as (s1 & a' & -> & Hseg1 & Hsd1 & Hoth1). run.
  destruct (set_previous_run (mk_world s1 (<[h:=a']> (heads w)) (states w) (heap w)) (Owner_next x) (after (Owner_head h) l1)
    (owner_next d) l2) as (s2 & -> & Hseg2 & Hsd2 & Hoth2); [|done|].
  { eapply oseg_ext; [|exact Hs2]. intros y Hy. apply Hoth1. intros Hy1. by apply (H12 y). }
  cbn in Hsd2, Hoth2. run. cbn. assert (Hdx : s2 !! x = Some d) by (by rewrite Hoth2, Hoth1).
  rewrite (load_Done _ x d Hdx). run. eexists. split; [done|]. cbn.
  assert (Hkeep : ∀ y, y ∉ l1 → y ∉ l2 → y ≠ x → <[x := with_links d 0 None]> s2 !! y = locks w !! y).
  { intros y ? ? ?. by rewrite lookup_insert_ne, Hoth2, Hoth1. }
  split; [split_and!; try done|].
  - cbn. rewrite dom_insert_L. apply elem_of_dom_2 in Ha. set_solver.
  - cbn. eapply same_data_trans; [exact Hsd1|]. eapply same_data_trans; [exact Hsd2|]. by apply same_data_links.
  - split.
    + intros h' b. destruct (decide (h' = h)) as [->|Hne].
      * rewrite lookup_insert_eq, upd_eq. intros [= <-]. apply oseg_app. exists (owner_next d). split.
        -- eapply oseg_ext; [|exact Hseg1]. intros y Hy. rewrite lookup_insert_ne by (by intros ->). apply Hoth2. auto.
        -- eapply oseg_ext; [|exact Hseg2]. intros y Hy. by rewrite lookup_insert_ne by (by intros ->).
      * rewrite lookup_insert_ne, upd_ne by done. intros Hb. eapply oseg_ext; [|by apply Hl]. intros y Hy.
        assert (Hy' : y ∉ g h) by (intros Hy'; by apply Hne, (Hdis h' h y)). rewrite E in Hy'. apply Hkeep; set_solver.
    + intros h' Hh'. destruct (decide (h' = h)) as [->|Hne]; [by rewrite lookup_insert_eq in Hh'|].
      rewrite lookup_insert_ne in Hh' by done. rewrite upd_ne by done. auto.
    + intros h'. destruct (decide (h' = h)) as [->|Hne]; [|rewrite upd_ne by done; apply Hnd].
      rewrite upd_eq. apply NoDup_app. done.
    + assert (Hsub : ∀ h0 y, y ∈ upd g h (l1 ++ l2) h0 → y ∈ g h0).
      { intros h0 y. unfold upd. destruct (decide (h0 = h)) as [->|]; [rewrite E; set_solver|done]. }
      intros h1 h2 y Hy1 Hy2. eapply Hdis; eauto.
Qed.
End lists.

(** ** Lock operations on the tree and the owners' lists

    [wip] is the invariant of the component while an operation runs: besides
    the published locks there are [olds], still on their owner's list but out of
    the tree, and [spares], on neither.  Between operations both are empty. *)
Import Heap RecordLock.

(** The locks at the addresses [l], without their links. *)
Definition records (s : gmap Z kernel_record_lock) (l : list Z) : list kernel_record_lock :=
  omap (λ y, bare <$> s !! y) l.
Definition tree_ok (s : gmap Z kernel_record_lock) (st : Z) (t : tree) : Prop :=
  good s t ∧ ordered s (elems t) ∧ ∀ y, y ∈ elems t → y ≠ 0 ∧ ∃ d, s !! y = Some d ∧ d.(state) = st.

(** ** What depends on the data of the locks only *)
Lemma data_bare d d' : data d = data d' → bare d = bare d'.
Proof. unfold data, bare, with_links, with_state. intros E. injection E as E1 E2 E3 E4 E5 E6 E7. cbn. congruence. Qed.
Lemma records_ext s s' l : (∀ y, y ∈ l → data <$> s' !! y = data <$> s !! y) → records s' l = records s l.
Proof.
  intros He. induction l as [|x l IH]; [done|]. unfold records in *. cbn. rewrite IH by (intros; apply He; by right).
  specialize (He x ltac:(by left)). destruct (s' !! x) as [d'|], (s !! x) as [d|]; try done. cbn.
  apply (inj Some) in He. by rewrite (data_bare _ _ He).
Qed.
Lemma good_ext s s' t : (∀ y, y ∈ elems t → data <$> s' !! y = data <$> s !! y) → good s t → good s' t.
Proof.
  induction t as [|l IHl x r IHr h m]; [done|]. intros He (Hl & Hr & Hb & Hh & d & Hd & Hm). cbn [elems] in He.
  split_and!; [apply IHl; [set_solver|done]|apply IHr; [set_solver|done]|lia|lia|done|].
  specialize (He x ltac:(set_solver)). rewrite Hd in He. destruct (s' !! x) as [d'|]; [|done]. apply (inj Some) in He.
  exists d'. split; [done|]. rewrite Hm. f_equal. unfold data, with_links in He. by injection He.
Qed.
Lemma ordered_ext s s' l : (∀ y, y ∈ l → data <$> s' !! y = data <$> s !! y) → ordered s l → ordered s' l.
Proof.
  intros He Ho. assert (Hd : ∀ y d, y ∈ l → s !! y = Some d → ∃ d', s' !! y = Some d' ∧ d'.(start) = d.(start)).
  { intros y d Hy Hd. specialize (He y Hy). rewrite Hd in He. destruct (s' !! y) as [d'|]; [|done].
    apply (inj Some) in He. unfold data, with_links in He. exists d'. split; [done|]. by injection He. }
  clear He. induction l as [|x l IH]; [constructor|]. apply ordered_cons in Ho as [Ho Hx]. apply ordered_cons.
  split; [apply IH; [done|]; intros; eapply Hd; [by right|done]|]. intros y Hy.
  destruct (Hx y Hy) as (dx & dy & Hdx & Hdy & Hlt).
  destruct (Hd x dx) as (dx' & ? & ?); [by left|done|]. destruct (Hd y dy) as (dy' & ? & ?); [by right|done|].
  exists dx', dy'. split_and!; [done..|lia].
Qed.
Lemma tree_ok_ext s s' st t :
  (∀ y, y ∈ elems t → data <$> s' !! y = data <$> s !! y) → tree_ok s st t → tree_ok s' st t.
Proof.
  intros He (Hg & Ho & Hy). split_and!; [by eapply good_ext|by eapply ordered_ext|]. intros y Hin.
  destruct (Hy y Hin) as (Hy0 & d & Hd & Hs). split; [done|]. specialize (He y Hin). rewrite Hd in He.
  destruct (s' !! y) as [d'|]; [|done]. apply (inj Some) in He. unfold data, with_links in He. exists d'. split; [done|].
  injection He. congruence.
Qed.
Lemma records_cons s x l d : s !! x = Some d → records s (x :: l) = bare d :: records s l.
Proof. intros Hd. unfold records. cbn. by rewrite Hd. Qed.
Lemma records_length s l : (length (records s l) ≤ length l)%nat.
Proof. induction l as [|x l IH]; [done|]. unfold records in *. cbn. destruct (s !! x); cbn; lia. Qed.
Lemma records_elem s l d : d ∈ records s l ↔ ∃ y d', y ∈ l ∧ s !! y = Some d' ∧ d = bare d'.
Proof.
  unfold records. rewrite list_elem_of_omap. split.
  - intros (y & Hy & (d' & Hd & ->)%fmap_Some). eauto.
  - intros (y & d' & Hy & Hd & ->). exists y. split; [done|]. by rewrite Hd.
Qed.
Lemma records_sorted s l : ordered s l → by_start (records s l).
Proof.
  induction l as [|x l IH]; [constructor|]. intros [Ho Hx]%ordered_cons. unfold records, by_start. cbn.
  destruct (s !! x) as [d|] eqn:Hd; cbn; [|by apply IH]. constructor; [by apply IH|]. apply Forall_forall.
  intros d' (y & dy & Hy & Hdy & ->)%records_elem. destruct (precedes_start s x y d (Hx y Hy) Hd) as (dy' & Hdy' & ?).
  rewrite Hdy in Hdy'. injection Hdy' as <-. done.
Qed.
#[export] Instance records_perm s : Proper ((≡ₚ) ==> (≡ₚ)) (records s).
Proof. intros l l' Hp. unfold records. by rewrite Hp. Qed.

Lemma records_fold s l o k ty e :
  (∀ y, y ∈ l → is_Some (s !! y)) →
  foldl (edit_at s o k ty) e l = foldl (λ e d, edit_lock d o k ty e) e (records s l).
Proof.
  revert e. induction l as [|x l IH]; intros e Hl; [done|]. destruct (Hl x) as [d Hd]; [by left|].
  rewrite (records_cons _ _ _ _ Hd). cbn [foldl]. unfold edit_at at 2. rewrite Hd. apply IH. intros y Hy. apply Hl. by right.
Qed.
Lemma records_filter s l (P : Z → Prop) `{!∀ y, Decision (P y)} (P' : kernel_record_lock → Prop) `{!∀ d, Decision (P' d)} :
  (∀ y d, y ∈ l → s !! y = Some d → P y ↔ P' (bare d)) → (∀ y, y ∈ l → is_Some (s !! y)) →
  records s (filter P l) = filter P' (records s l).
Proof.
  induction l as [|x l IH]; intros HP Hl; [done|]. destruct (Hl x) as [d Hd]; [by left|].
  rewrite (records_cons _ _ _ _ Hd), !filter_cons. pose proof (HP x d ltac:(by left) Hd) as Hx.
  rewrite <- IH; [|intros; apply HP; [by right|done]|intros; apply Hl; by right].
  destruct (decide (P x)), (decide (P' (bare d))); try tauto. by rewrite (records_cons _ _ _ _ Hd).
Qed.

Section ops.
Context {H : Type} `{!ObjectHeap H} {Q : Type} `{!WaitQueue Q}.
(** Where the owner keeps its list: the fd table or the open file. *)
Context (head_of : Z → Z → Z).
Implicit Types w : world H Q.

Definition in_trees w (y : Z) : Prop := ∃ st x, w.(states) !! st = Some x ∧ y ∈ elems x.(root).
Definition contents w (st : Z) : list kernel_record_lock :=
  match w.(states) !! st with Some x => records w.(locks) (elems x.(root)) | None => [] end.

Record wip w (g : Z → list Z) (olds spares : list Z) : Prop := {
  wi_lists : lists_inv w.(locks) w.(heads) g;
  wi_trees st x : w.(states) !! st = Some x → tree_ok w.(locks) st x.(root) ∧ wait_queue_ready x.(waiters);
  wi_linked h y : y ∈ g h ↔ ∃ d, w.(locks) !! y = Some d ∧ head_of d.(owner) d.(kind) = h ∧ (in_trees w y ∨ y ∈ olds);
  wi_known y : is_Some (w.(locks) !! y) ↔ in_trees w y ∨ y ∈ olds ∨ y ∈ spares;
  wi_loose y : y ∈ olds ++ spares → y ≠ 0 ∧ ¬ in_trees w y;
  wi_nodup : NoDup (olds ++ spares);
  wi_heap : dom w.(locks) ⊆ heap_live w.(heap);
  wi_small : Z.of_nat (size w.(locks)) < 2 ^ 60;
}.
(** The data of every lock but [x] is what it was. *)
Definition others (x : Z) w w' : Prop := ∀ y, y ≠ x → data <$> w'.(locks) !! y = data <$> w.(locks) !! y.
(** Nothing but the state [st] changed for an observer. *)
Definition framed (st : Z) w w' : Prop :=
  dom w'.(states) = dom w.(states) ∧ dom w'.(heads) = dom w.(heads) ∧ ∀ st', st' ≠ st → contents w' st' = contents w st'.
Lemma framed_refl st w : framed st w w.
Proof. done. Qed.
Lemma framed_trans st w1 w2 w3 : framed st w1 w2 → framed st w2 w3 → framed st w1 w3.
Proof.
  intros (A1 & A2 & A3) (B1 & B2 & B3). split; [congruence|]. split; [congruence|]. intros st' Hst. by rewrite B3, A3.
Qed.
Lemma contents_relinked w w' st : relinked w w' → contents w' st = contents w st.
Proof.
  intros (Es & _ & _ & Hd). unfold contents. rewrite Es. destruct (states w !! st); [|done]. apply records_ext. auto.
Qed.
Lemma relinked_framed st w w' : relinked w w' → framed st w w'.
Proof. intros Hr. pose proof Hr as (Es & _ & Eh & _). split; [congruence|]. split; [done|]. intros. by apply contents_relinked. Qed.

Lemma elems_bound w g olds spares st x :
  wip w g olds spares → w.(states) !! st = Some x → (length (elems x.(root)) ≤ size w.(locks))%nat.
Proof.
  intros Hw Hx. destruct (wi_trees _ _ _ _ Hw st x Hx) as [(_ & Ho & Hy) _].
  rewrite <- size_dom, <- (size_list_to_set (C := gset Z)) by (by eapply ordered_NoDup). apply subseteq_size.
  intros y Hin%elem_of_list_to_set. destruct (Hy y Hin) as (_ & d & Hd & _). by eapply elem_of_dom_2.
Qed.
Lemma tree_small w g olds spares st x :
  wip w g olds spares → w.(states) !! st = Some x → height x.(root) ≤ 120.
Proof.
  intros Hw Hx. apply (small_height (locks w)); [apply (wi_trees _ _ _ _ Hw st x Hx)|].
  pose proof (elems_bound _ _ _ _ _ _ Hw Hx). pose proof (wi_small _ _ _ _ Hw). unfold small. lia.
Qed.
(** Taking a lock off its owner's list. *)
Lemma detach_old w g old olds spares :
  wip w g (old :: olds) spares →
  ∃ w' g', owner_remove w old = Done w' ∧ wip w' g' olds (old :: spares) ∧ relinked w w' ∧
    ∀ h l1 l2, g h = l1 ++ old :: l2 → g' h = l1 ++ l2.
Proof.
  intros Hw. pose proof Hw as [Hl Ht Hk Hn Ho Hd Hh Hs].
  assert (Hold : is_Some (locks w !! old)) by (apply Hn; right; left; by left). destruct Hold as [d Hdo].
  assert (Hin : old ∈ g (head_of d.(owner) d.(kind))) by (apply Hk; exists d; split_and!; [done|done|]; right; by left).
  apply list_elem_of_split in Hin as (l1 & l2 & E).
  destruct (owner_remove_run w g _ old l1 l2 Hl E) as (w' & Hrun & Hr & Hl').
  exists w', (upd g (head_of d.(owner) d.(kind)) (l1 ++ l2)). split; [done|]. pose proof Hr as (Es & Eh & Edh & Hsd).
  assert (Hit : ∀ y, in_trees w' y ↔ in_trees w y) by (intros y; unfold in_trees; by rewrite Es).
  assert (Hnd : NoDup (g (head_of d.(owner) d.(kind)))) by apply Hl. rewrite E in Hnd.
  cbn in Hd. apply NoDup_cons in Hd as [Hdx Hd]. split; [split|split; [done|]].
  - done.
  - rewrite Es. intros st x Hx. destruct (Ht st x Hx) as [? ?]. split; [|done]. eapply tree_ok_ext; [|done]. auto.
  - intros h y. assert (Hg : y ∈ upd g (head_of d.(owner) d.(kind)) (l1 ++ l2) h ↔ y ∈ g h ∧ y ≠ old).
    { unfold upd. destruct (decide (h = _)) as [->|Hne].
      - rewrite E. apply NoDup_app in Hnd as (_ & Hn1 & [Hn2 _]%NoDup_cons).
        assert (old ∉ l1) by (intros Hx; apply (Hn1 old Hx); by left). set_solver.
      - split; [|tauto]. intros Hy. split; [done|]. intros ->. apply Hne. eapply (li_disjoint _ _ _ Hl); [done|]. rewrite E. set_solver. }
    rewrite Hg, (Hk h y). setoid_rewrite Hit. split.
    + intros ((d' & Hd' & Eh' & Hor) & Hne). destruct (same_data_owner _ _ _ _ Hsd Hd') as (d2 & Hd2 & Eo & Ek). exists d2.
      split; [done|]. split; [congruence|]. destruct Hor as [?|[->|?]%elem_of_cons]; [by left|done|by right].
    + intros (d2 & Hd2 & Eh' & Hor).
      destruct (same_data_owner _ _ _ _ (same_data_sym _ _ Hsd) Hd2) as (d' & Hd' & Eo & Ek). split.
      * exists d'. split; [done|]. split; [congruence|]. destruct Hor; [by left|]. right. by right.
      * intros ->. destruct Hor as [Hor|Hor]; [|set_solver]. apply (Ho old); [by left|done].
  - intros y. rewrite Hit, <- elem_of_dom, (same_data_dom _ _ Hsd), elem_of_dom, Hn. set_solver.
  - intros y Hy. rewrite Hit. apply Ho. set_solver.
  - rewrite <- Permutation_middle. by constructor.
  - by rewrite Eh, (same_data_dom _ _ Hsd).
  - by rewrite <- size_dom, (same_data_dom _ _ Hsd), size_dom.
  - intros h k1 k2 Ek. assert (h = head_of d.(owner) d.(kind)) as ->.
    { eapply (li_disjoint _ _ _ Hl _ _ old); rewrite ?Ek, ?E; set_solver. }
    rewrite upd_eq. rewrite E in Ek. by destruct (split_unique old l1 l2 k1 k2 Hnd Ek) as [-> ->].
Qed.

(** Changing the locks outside trees and lists. *)
Lemma unlisted w g olds x spares h : wip w g olds (x :: spares) → x ∉ g h.
Proof.
  intros Hw Hx. apply (wi_linked _ _ _ _ Hw) in Hx as (d & _ & _ & Hor). destruct (wi_loose _ _ _ _ Hw x) as [_ Hn]; [set_solver|].
  pose proof (wi_nodup _ _ _ _ Hw) as (_ & Hno & _)%NoDup_app. destruct Hor as [?|Hor]; [done|]. apply (Hno x Hor). by left.
Qed.
Lemma lists_inv_ext s s' hs g : (∀ h y, y ∈ g h → s' !! y = s !! y) → lists_inv s hs g → lists_inv s' hs g.
Proof. intros He [Hl Hn Hnd Hdis]. split; try done. intros h a Ha. eapply oseg_ext; [|by apply Hl]. eauto. Qed.
Lemma set_detached w g olds x spares d' :
  wip w g olds (x :: spares) → wip (set_lock w x d') g olds (x :: spares) ∧ ∀ st, contents (set_lock w x d') st = contents w st.
Proof.
  intros Hw. pose proof Hw as [Hl Ht Hk Hn Ho Hd Hh Hs].
  destruct (Ho x) as [Hx0 Hxt]; [set_solver|]. assert (Hlive : is_Some (locks w !! x)) by (apply Hn; set_solver).
  assert (Hne : ∀ st' X y, states w !! st' = Some X → y ∈ elems X.(root) → (<[x := d']> (locks w)) !! y = locks w !! y).
  { intros st' X y HX Hy. rewrite lookup_insert_ne; [done|]. intros ->. apply Hxt. by exists st', X. }
  split; [split; cbn; try done|].
  - eapply lists_inv_ext; [|done]. intros h y Hy. rewrite lookup_insert_ne; [done|]. intros ->. by eapply unlisted.
  - intros st' X HX. destruct (Ht st' X HX) as [? ?]. split; [|done]. eapply tree_ok_ext; [|done]. intros y Hy. by rewrite (Hne st' X).
  - intros h y. rewrite Hk. split; intros (d & Hd' & Eh & Hor); exists d; split_and!; try done.
    + rewrite lookup_insert_ne; [done|]. intros ->. by eapply (unlisted w g olds y spares h), Hk; eauto.
    + destruct (decide (y = x)) as [->|]; [|by rewrite lookup_insert_ne in Hd']. exfalso.
      destruct Hlive as [d0 Hd0]. by eapply (unlisted w g olds x spares), Hk; eauto.
  - intros y. transitivity (is_Some (locks w !! y)); [|exact (Hn y)].
    destruct (decide (y = x)) as [->|]; [rewrite lookup_insert_eq; naive_solver|by rewrite lookup_insert_ne].
  - rewrite dom_insert_L. destruct Hlive as [d0 Hd0%elem_of_dom_2]. set_solver.
  - rewrite map_size_insert_Some by done. lia.
  - intros st'. unfold contents. cbn. destruct (states w !! st') as [X|] eqn:HX; [|done]. apply records_ext. intros y Hy. by rewrite (Hne st' X).
Qed.
Lemma release_detached w g olds x spares :
  wip w g olds (x :: spares) → wip (release w x) g olds spares ∧ ∀ st, contents (release w x) st = contents w st.
Proof.
  intros Hw. pose proof Hw as [Hl Ht Hk Hn Ho Hd Hh Hs].
  destruct (Ho x) as [Hx0 Hxt]; [set_solver|]. assert (Hlive : is_Some (locks w !! x)) by (apply Hn; set_solver).
  assert (Hne : ∀ st' X y, states w !! st' = Some X → y ∈ elems X.(root) → delete x (locks w) !! y = locks w !! y).
  { intros st' X y HX Hy. rewrite lookup_delete_ne; [done|]. intros ->. apply Hxt. by exists st', X. }
  rewrite <- Permutation_middle in Hd. apply NoDup_cons in Hd as [Hdx Hd].
  split; [split; cbn; try done|].
  - eapply lists_inv_ext; [|done]. intros h y Hy. rewrite lookup_delete_ne; [done|]. intros ->. by eapply unlisted.
  - intros st' X HX. destruct (Ht st' X HX) as [? ?]. split; [|done]. eapply tree_ok_ext; [|done]. intros y Hy. by rewrite (Hne st' X).
  - intros h y. rewrite Hk. split; intros (d & Hd' & Eh & Hor); exists d; split_and!; try done.
    + rewrite lookup_delete_ne; [done|]. intros ->. by eapply (unlisted w g olds y spares h), Hk; eauto.
    + by apply lookup_delete_Some in Hd' as [_ ?].
  - intros y. destruct (decide (y = x)) as [->|Hyx].
    + rewrite lookup_delete_eq. split; [by intros [? ?]|]. intros [?|Hor]; [done|]. apply not_elem_of_app in Hdx. set_solver.
    + rewrite lookup_delete_ne by done. etransitivity; [exact (Hn y)|]. change (in_trees (release w x) y) with (in_trees w y). set_solver.
  - intros y Hy. apply Ho. set_solver.
  - rewrite heap_free_live, dom_delete_L. set_solver.
  - rewrite map_size_delete. destruct Hlive as [d0 ->]. lia.
  - intros st'. unfold contents. cbn. destruct (states w !! st') as [X|] eqn:HX; [|done]. apply records_ext. intros y Hy. by rewrite (Hne st' X).
Qed.

(** Replacing a tree: locks that leave it become [olds]. *)
Lemma set_root_wip w g olds moved spares st x t :
  wip w g olds spares → w.(states) !! st = Some x → tree_ok w.(locks) st t → elems x.(root) ≡ₚ elems t ++ moved →
  ∃ w', set_root w st t = Done w' ∧ wip w' g (moved ++ olds) spares ∧ framed st w w' ∧
    w'.(locks) = w.(locks) ∧ w'.(states) = <[st := mk_state t x.(waiters)]> w.(states).
Proof.
  intros Hw Hx Ht Hp. pose proof Hw as [Hl Htr Hk Hn Ho Hd Hh Hs]. unfold set_root, load_state. rewrite Hx. run.
  eexists. split; [done|]. destruct (Htr st x Hx) as [(Hg & Hord & Hst) Hq].
  assert (Hno : NoDup (elems t ++ moved)) by (rewrite <- Hp; by eapply ordered_NoDup).
  apply NoDup_app in Hno as (_ & Hno & Hnm).
  assert (Hother : ∀ st' X y, states w !! st' = Some X → y ∈ elems X.(root) → y ∈ elems x.(root) → st' = st).
  { intros st' X y HX Hy Hy'. destruct (Htr st' X HX) as [(_ & _ & Hst') _]. destruct (Hst' y Hy) as (_ & d1 & Hd1 & <-).
    destruct (Hst y Hy') as (_ & d2 & Hd2 & <-). congruence. }
  assert (Hmv : ∀ y, y ∈ elems (root x) ↔ y ∈ elems t ∨ y ∈ moved) by (intros y; by rewrite Hp, elem_of_app).
  assert (Hin : ∀ y, in_trees (set_state w st (mk_state t (waiters x))) y ↔ in_trees w y ∧ y ∉ moved).
  { intros y. unfold in_trees. cbn. split.
    - intros (st' & X & HX & Hy). destruct (decide (st' = st)) as [->|Hne].
      + rewrite lookup_insert_eq in HX. injection HX as <-. cbn in Hy. split; [|by intros Hm; apply (Hno y)].
        exists st, x. split; [done|]. apply Hmv. by left.
      + rewrite lookup_insert_ne in HX by done. split; [by exists st', X|]. intros Hm. apply Hne. eapply Hother; [done..|]. apply Hmv. by right.
    - intros [(st' & X & HX & Hy) Hm]. destruct (decide (st' = st)) as [->|Hne].
      + exists st. eexists. rewrite lookup_insert_eq. split; [done|]. cbn. rewrite Hx in HX. injection HX as <-. apply Hmv in Hy. tauto.
      + exists st', X. by rewrite lookup_insert_ne. }
  assert (Hmt : ∀ y, y ∈ moved → in_trees w y) by (intros y Hy; exists st, x; split; [done|]; apply Hmv; by right).
  split; [split|split; [|done]]; cbn; try done.
  - intros st' X. destruct (decide (st' = st)) as [->|Hne]; [rewrite lookup_insert_eq; intros [= <-]|rewrite lookup_insert_ne by done; apply Htr]. done.
  - intros h y. rewrite Hk. setoid_rewrite Hin. setoid_rewrite elem_of_app. split; intros (d & Hd' & Eh & Hor); exists d; split_and!; try done.
    + destruct (decide (y ∈ moved)); [tauto|]. tauto.
    + specialize (Hmt y). tauto.
  - intros y. rewrite Hn, Hin, elem_of_app. specialize (Hmt y). destruct (decide (y ∈ moved)); tauto.
  - intros y Hy. rewrite <- app_assoc, elem_of_app in Hy. rewrite Hin. destruct Hy as [Hy|Hy].
    + split; [|tauto]. destruct (Hst y) as [? _]; [apply Hmv; by right|]. done.
    + destruct (Ho y Hy). tauto.
  - rewrite <- app_assoc. apply NoDup_app. split_and!; try done. intros y Hy Hy'. by apply (Ho y Hy'), Hmt.
  - split; [cbn; rewrite dom_insert_L; apply elem_of_dom_2 in Hx; set_solver|]. split; [done|]. intros st' Hne.
    unfold contents. cbn. by rewrite lookup_insert_ne.
Qed.

(** Publishing puts a loose lock into the tree and on its owner's list. *)
Lemma insert_tree_ok s st t x d :
  tree_ok s st t → height t ≤ 120 → s !! x = Some d → d.(state) = st → x ≠ 0 → x ∉ elems t →
  ∃ t', tree_insert s t x = Done t' ∧ tree_ok s st t' ∧ elems t' ≡ₚ x :: elems t.
Proof.
  intros (Hg & Hord & Hst) Hh Hd Est Hx0 Hxt.
  destruct (tree_insert_run s t x d) as (t' & l1 & l2 & -> & Hgt & _ & E & E' & Hot); [done..|].
  exists t'. split; [done|]. split; [|by rewrite E, E', Permutation_middle]. split_and!; [done..|]. intros y Hy.
  assert (y = x ∨ y ∈ elems t) as [->|Hy'] by (rewrite E' in Hy; rewrite E; set_solver); [by eauto|auto].
Qed.
(** The state after [x] joined the list of [h] and the tree of [st]. *)
Lemma publish_wip w w2 g olds x spares st X t d :
  wip w g olds (x :: spares) → w.(states) !! st = Some X → w.(locks) !! x = Some d →
  relinked w w2 → lists_inv w2.(locks) w2.(heads) (upd g (head_of d.(owner) d.(kind)) (x :: g (head_of d.(owner) d.(kind)))) →
  tree_ok w2.(locks) st t → elems t ≡ₚ x :: elems X.(root) →
  wip (set_state w2 st (mk_state t X.(waiters))) (upd g (head_of d.(owner) d.(kind)) (x :: g (head_of d.(owner) d.(kind)))) olds spares.
Proof.
  intros Hw HX Hd Hr Hl2 Htt Hp. pose proof Hw as [Hl Ht Hk Hn Ho Hnd Hhp Hs]. pose proof Hr as (Es & Eh & Edh & Hsd).
  rewrite <- Permutation_middle in Hnd. apply NoDup_cons in Hnd as [Hxn Hnd].
  assert (Hin : ∀ y, in_trees (set_state w2 st (mk_state t (waiters X))) y ↔ in_trees w y ∨ y = x).
  { intros y. unfold in_trees. cbn. rewrite Es. split.
    - intros (st' & Y & HY & Hy). destruct (decide (st' = st)) as [->|Hne].
      + rewrite lookup_insert_eq in HY. injection HY as <-. cbn in Hy. rewrite Hp in Hy.
        apply elem_of_cons in Hy as [->|Hy]; [by right|]. left. by exists st, X.
      + rewrite lookup_insert_ne in HY by done. left. by exists st', Y.
    - intros [(st' & Y & HY & Hy)| ->].
      + destruct (decide (st' = st)) as [->|Hne]; [|exists st', Y; by rewrite lookup_insert_ne].
        exists st. eexists. rewrite lookup_insert_eq. split; [done|]. cbn. rewrite Hp. right. congruence.
      + exists st. eexists. rewrite lookup_insert_eq. split; [done|]. cbn. rewrite Hp. by left. }
  destruct (same_data_owner _ _ _ _ Hsd Hd) as (d2 & Hd2 & Eo & Ek).
  split; cbn; try done.
  - rewrite Es. intros st' Y. destruct (decide (st' = st)) as [->|Hne].
    + rewrite lookup_insert_eq. intros [= <-]. split; [done|]. by apply (Ht st X).
    + rewrite lookup_insert_ne by done. intros HY. destruct (Ht st' Y HY) as [? ?]. split; [|done]. eapply tree_ok_ext; [|done]. auto.
  - intros h y. setoid_rewrite Hin. destruct (decide (y = x)) as [->|Hyx].
    + rewrite Hd2. unfold upd. destruct (decide (h = _)) as [->|Hne].
      * split; [|by left]. intros _. exists d2. split; [done|]. split; [congruence|]. left. by right.
      * split; [intros Hx; by apply (unlisted w g olds x spares h) in Hx|]. intros (d' & [= <-] & Eh' & _). congruence.
    + assert (Hg : y ∈ upd g (head_of (owner d) (kind d)) (x :: g (head_of (owner d) (kind d))) h ↔ y ∈ g h).
      { unfold upd. destruct (decide (h = _)) as [->|]; [|done]. rewrite elem_of_cons. naive_solver. }
      rewrite Hg, Hk. split; intros (d' & Hd' & Eh' & Hor).
      * destruct (same_data_owner _ _ _ _ Hsd Hd') as (d3 & ? & ? & ?). exists d3. split; [done|]. split; [congruence|]. tauto.
      * destruct (same_data_owner _ _ _ _ (same_data_sym _ _ Hsd) Hd') as (d3 & ? & ? & ?). exists d3.
        split; [done|]. split; [congruence|]. tauto.
  - intros y. rewrite Hin, <- elem_of_dom, (same_data_dom _ _ Hsd), elem_of_dom, Hn. set_solver.
  - intros y Hy. rewrite Hin. destruct (Ho y) as [? ?]; [set_solver|]. split; [done|]. intros [?| ->]; done.
  - by rewrite Eh, (same_data_dom _ _ Hsd).
  - by rewrite <- size_dom, (same_data_dom _ _ Hsd), size_dom.
Qed.
Lemma lock_publish_run w g olds x spares st X d :
  wip w g olds (x :: spares) → w.(states) !! st = Some X → w.(locks) !! x = Some d →
  is_Some (w.(heads) !! head_of d.(owner) d.(kind)) →
  ∃ w' g', publish w st (head_of d.(owner) d.(kind)) x = Done w' ∧ wip w' g' olds spares ∧ framed st w w' ∧ others x w w' ∧
    contents w' st ≡ₚ bare d :: contents w st.
Proof.
  intros Hw0 HX Hd0 Hh. unfold publish. rewrite (load_Done _ x d Hd0). run.
  set (d1 := with_state d st). set (w1 := set_lock w x d1).
  destruct (set_detached w g olds x spares d1 Hw0) as [Hw Hc1]. fold w1 in Hw, Hc1.
  destruct (wi_loose _ _ _ _ Hw x) as [Hx0 Hxt]; [set_solver|]. assert (Hd1 : locks w1 !! x = Some d1) by apply lookup_insert_eq.
  destruct (owner_insert_run w1 g (head_of d.(owner) d.(kind)) x d1 (wi_lists _ _ _ _ Hw) Hh Hd1 Hx0) as (w2 & -> & Hr & Hl2);
    [intros; by eapply unlisted|]. run.
  pose proof Hr as (Es & Eh & Edh & Hsd). unfold load_state, set_root, load_state. rewrite Es. cbn. rewrite HX. run.
  destruct (same_data_Some _ _ _ _ Hsd Hd1) as (d2 & Hd2 & Ed2).
  assert (Hst2 : state d2 = st) by (unfold data, with_links in Ed2; by injection Ed2).
  destruct (insert_tree_ok (locks w2) st X.(root) x d2) as (t & -> & Htt & Hp); [|by eapply (tree_small w1)|done..| |].
  { eapply tree_ok_ext; [|by apply (wi_trees _ _ _ _ Hw)]. auto. }
  { intros Hin. apply Hxt. by exists st, X. }
  run. eexists _, _. split; [done|].
  split; [exact (publish_wip w1 w2 g olds x spares st X t d1 Hw HX Hd1 Hr Hl2 Htt Hp)|].
  assert (Hc : contents (set_state w2 st (mk_state t (waiters X))) st = records (locks w2) (elems t)).
  { unfold contents. cbn. by rewrite lookup_insert_eq. }
  assert (Hcw : contents w1 st = contents w2 st) by (symmetry; by apply contents_relinked).
  split; [split; [|split]|split].
  - cbn. rewrite Es, dom_insert_L. apply elem_of_dom_2 in HX. cbn. set_solver.
  - cbn. done.
  - intros st' Hne. rewrite <- Hc1, <- (contents_relinked w1 w2 st' Hr). unfold contents. cbn. by rewrite lookup_insert_ne.
  - intros y Hy. cbn. rewrite (Hsd y). unfold w1. cbn. by rewrite lookup_insert_ne.
  - rewrite Hc, Hp, (records_cons _ _ _ _ Hd2), <- Hc1, Hcw. unfold contents. rewrite Es. cbn. rewrite HX.
    rewrite (data_bare d2 d1 Ed2). done.
Qed.
End ops.
