(* ===== verification/LockRequestTheory.v ===== *)
(** * Lock requests

    [kernel_record_lock_set] and [kernel_record_lock_release] keep the trees,
    the lists and the exclusion between owners, give back every spare, and do to
    the bytes of the file what the request says. *)
From S2P Require Import Prelude Heap RecordLock LockTreeTheory LockOpsTheory.
Import Heap RecordLock.
#[local] Open Scope Z_scope.

Section requests.
Context {H : Type} `{!ObjectHeap H} {Q : Type} `{!WaitQueue Q}.
Context (head_of : Z → Z → Z).
Implicit Types w : world H Q.
Notation wip := (wip head_of).
(** The heap answers a request for one lock with memory or with EMPTY. *)
Definition heap_answers : Prop := ∀ h : H,
  (heap_allocate h sizeof_record_lock).1.1 = KERNEL_HEAP_STATUS_OK ∨
  (heap_allocate h sizeof_record_lock).1.1 = KERNEL_HEAP_STATUS_EMPTY.

(** One of [n] requests for a lock, one after the other, finds the heap empty. *)
Fixpoint lacks (n : nat) (h : H) : Prop :=
  match n with
  | O => False
  | S n => (heap_allocate h sizeof_record_lock).1.1 = KERNEL_HEAP_STATUS_EMPTY ∨ lacks n (heap_allocate h sizeof_record_lock).2
  end.
Lemma lacks_more n m h : (n ≤ m)%nat → lacks n h → lacks m h.
Proof. revert m h. induction n as [|n IH]; intros m h Hle; [done|]. destruct m as [|m]; [lia|]. intros [?|?]; [by left|right]. apply (IH m); [lia|done]. Qed.
(** The heap cannot give the two locks a request needs at most. *)
Definition memory_short (h : H) : Prop := lacks 2 h.
(** What every observer sees is the same. *)
Definition unseen w w' : Prop :=
  w'.(states) = w.(states) ∧ w'.(heads) = w.(heads) ∧ ∀ y, in_trees w y → w'.(locks) !! y = w.(locks) !! y.
Lemma unseen_trans w1 w2 w3 : unseen w1 w2 → unseen w2 w3 → unseen w1 w3.
Proof.
  intros (A1 & A2 & A3) (B1 & B2 & B3). split; [congruence|]. split; [congruence|]. intros y Hy. rewrite B3, A3; [done..|].
  unfold in_trees in *. by rewrite A1.
Qed.
Lemma unseen_contents w w' st : unseen w w' → contents w' st = contents w st.
Proof.
  intros (E & _ & Hl). unfold contents. rewrite E. destruct (states w !! st) as [x|] eqn:Hx; [|done].
  apply records_ext. intros y Hy. rewrite Hl; [done|]. by exists st, x.
Qed.

Lemma unseen_framed st w w' : unseen w w' → framed st w w'.
Proof. intros Hu. pose proof Hu as (E1 & E2 & _). split; [congruence|]. split; [congruence|]. intros. by apply unseen_contents. Qed.

(** ** Spares *)
Lemma lock_allocate_run w g spares :
  heap_answers → wip w g [] spares → Z.of_nat (size w.(locks)) + 1 < 2 ^ 60 →
  ∃ a w', allocate w = Done (a, w') ∧ unseen w w' ∧
    w'.(heap) = (heap_allocate w.(heap) sizeof_record_lock).2 ∧
    (a = 0 ∧ wip w' g [] spares ∧ (heap_allocate w.(heap) sizeof_record_lock).1.1 = KERNEL_HEAP_STATUS_EMPTY ∨
     a ≠ 0 ∧ wip w' g [] (a :: spares) ∧ size w'.(locks) = S (size w.(locks))).
Proof.
  intros Hans Hw Hsz. pose proof Hw as [Hl Ht Hk Hn Ho Hd Hh Hs]. unfold allocate. pose proof (Hans w.(heap)) as Ha.
  destruct (heap_allocate (heap w) sizeof_record_lock) as [[status a] h'] eqn:E. cbn in Ha.
  destruct Ha as [->| ->].
  2: { rewrite decide_True by done. eexists _, _. split; [done|]. split; [done|]. split; [done|]. left. split; [done|].
       pose proof (heap_allocate_failed _ _ _ _ _ E ltac:(done)) as El.
       split; [split; cbn; try done; by rewrite El|done]. }
  rewrite decide_False by done. rewrite decide_False by (intros Hc; by apply Hc).
  destruct (heap_allocate_ok _ _ _ _ E) as (Ha0 & Hfresh & Hlive).
  assert (Hna : locks w !! a = None) by (apply not_elem_of_dom; set_solver).
  assert (Hnt : ¬ in_trees w a) by (intros Hin; assert (is_Some (locks w !! a)) as [? ?] by (apply Hn; tauto); congruence).
  assert (Hne : ∀ y, is_Some (locks w !! y) → y ≠ a) by (intros y [? ?] ->; congruence).
  eexists _, _. split; [done|]. split.
  { split_and!; try done. intros y Hy. cbn. rewrite lookup_insert_ne; [done|]. intros <-. done. }
  split; [done|]. right. split; [done|]. split; [|cbn; by rewrite map_size_insert_None]. split; cbn; try done.
  - eapply lists_inv_ext; [|done]. intros h y (d & Hd' & _)%Hk. rewrite lookup_insert_ne; [done|]. intros <-. congruence.
  - intros st x Hx. destruct (Ht st x Hx) as [? ?]. split; [|done]. eapply tree_ok_ext; [|done]. intros y Hy.
    rewrite lookup_insert_ne; [done|]. intros <-. apply Hnt. by exists st, x.
  - intros h y. rewrite Hk. split; intros (d & Hd' & Eh & Hor); exists d; split_and!; try done.
    + rewrite lookup_insert_ne; [done|]. intros <-. congruence.
    + destruct (decide (y = a)) as [->|]; [|by rewrite lookup_insert_ne in Hd']. destruct Hor as [?|?%elem_of_nil]; done.
  - intros y. change (in_trees _ y) with (in_trees w y). destruct (decide (y = a)) as [->|Hya].
    + rewrite lookup_insert_eq. split; [|done]. intros _. right. right. by left.
    + rewrite lookup_insert_ne, (Hn y) by done. set_solver.
  - intros y [->|Hy]%elem_of_cons; [done|]. by apply Ho.
  - constructor; [|done]. intros Hin. assert (is_Some (locks w !! a)) as [? ?] by (apply Hn; right; by right). congruence.
  - rewrite dom_insert_L, Hlive. set_solver.
  - rewrite map_size_insert_None by done. lia.
Qed.
Lemma release_spares w g spares : wip w g [] spares → wip (foldl release w spares) g [] [] ∧ unseen w (foldl release w spares).
Proof.
  revert w. induction spares as [|x spares IH]; intros w Hw; [done|]. cbn [foldl].
  destruct (release_detached _ _ _ _ _ _ Hw) as [Hw' _]. destruct (IH _ Hw') as [Hw'' Hun]. split; [done|].
  eapply unseen_trans; [|exact Hun]. split_and!; try done. intros y Hy. cbn. rewrite lookup_delete_ne; [done|]. intros ->.
  by eapply (wi_loose _ _ _ _ _ Hw y); [set_solver|].
Qed.
Lemma allocate_spares_run n w g spares :
  heap_answers → wip w g [] spares → Z.of_nat (size w.(locks)) + Z.of_nat n < 2 ^ 60 →
  ∃ r w', allocate_spares n w spares = Done (r, w') ∧ unseen w w' ∧
    match r with
    | Some spares' => wip w' g [] spares' ∧ length spares' = (length spares + n)%nat
    | None => wip w' g [] [] ∧ lacks n w.(heap)
    end.
Proof.
  intros Hans. revert w spares. induction n as [|n IH]; intros w spares Hw Hsz; cbn [allocate_spares].
  { eexists _, _. split; [done|]. split; [done|]. split; [done|lia]. }
  destruct (lock_allocate_run w g spares Hans Hw) as (a & w' & -> & Hun & Eh & [(-> & Hw' & Hshort)|(Ha & Hw' & Es)]); [lia|..]; run.
  - rewrite decide_True by done. eexists _, _. split; [done|]. destruct (release_spares _ _ _ Hw') as [? ?].
    split; [by eapply unseen_trans|]. split; [done|by left].
  - rewrite decide_False by done. destruct (IH w' (a :: spares) Hw') as (r & w2 & -> & Hun2 & Hr); [lia|].
    eexists _, _. split; [done|]. split; [by eapply unseen_trans|]. destruct r; [cbn in Hr; split; [tauto|lia]|]. split; [tauto|]. right. rewrite <-Eh. tauto.
Qed.

(** ** The edit *)
(** Give a loose lock new contents and publish it. *)
Lemma republish_run w g olds x spares st d o k :
  wip w g olds (x :: spares) → is_Some (w.(states) !! st) → is_Some (w.(heads) !! head_of o k) →
  d.(owner) = o → d.(kind) = k →
  ∃ w' g', publish (set_lock w x d) st (head_of o k) x = Done w' ∧ wip w' g' olds spares ∧ framed st w w' ∧ others x w w' ∧
    contents w' st ≡ₚ bare d :: contents w st.
Proof.
  intros Hw [X HX] Hh <- <-. destruct (set_detached head_of w g olds x spares d Hw) as [Hw' Hc].
  destruct (lock_publish_run head_of (set_lock w x d) g olds x spares st X d) as (w' & g' & -> & Hw2 & Hf & Hot & Hcs);
    [done|done|apply lookup_insert_eq|done|].
  exists w', g'. split; [done|]. split; [done|]. rewrite <- Hc. split_and!; try done.
  - destruct Hf as (H1 & H2 & H3). split; [done|]. split; [done|]. intros st' Hne. by rewrite H3, Hc.
  - intros y Hy. rewrite Hot by done. cbn. by rewrite lookup_insert_ne.
Qed.
Lemma framed_state st w w' : framed st w w' → is_Some (w.(states) !! st) → is_Some (w'.(states) !! st).
Proof. intros (E & _) Hs. apply elem_of_dom. rewrite E. by apply elem_of_dom. Qed.
Lemma framed_head st w w' h : framed st w w' → is_Some (w.(heads) !! h) → is_Some (w'.(heads) !! h).
Proof. intros (_ & E & _) Hs. apply elem_of_dom. rewrite E. by apply elem_of_dom. Qed.
Lemma bare_range d d' a b : data d' = data d → bare (with_range d' a b) = with_range (bare d) a b.
Proof. unfold data, bare, with_links, with_range, with_state. intros E. injection E as E1 E2 E3 E4 E5 E6 E7. cbn. congruence. Qed.
Lemma known_data w g olds x spares : wip w g olds (x :: spares) → ∃ d, w.(locks) !! x = Some d.
Proof. intros Hw. destruct (proj2 (wi_known _ _ _ _ _ Hw x)) as [d Hd]; [set_solver|by exists d]. Qed.

(** The lock [old] as it was found, and the world after it left its list. *)
Record unhooked w w1 (g1 : Z → list Z) (olds : list Z) (old : Z) (spares : list Z) (st o k : Z) (d d1 : kernel_record_lock) : Prop := {
  uh_wip : wip w1 g1 olds (old :: spares);
  uh_framed : framed st w w1;
  uh_contents : contents w1 st = contents w st;
  uh_state : is_Some (w1.(states) !! st);
  uh_head : is_Some (w1.(heads) !! head_of o k);
  uh_lock : w1.(locks) !! old = Some d1;
  uh_data : data d1 = data d;
  uh_owner : d.(owner) = o ∧ d.(kind) = k;
  uh_others y : y ∈ olds → data <$> w1.(locks) !! y = data <$> w.(locks) !! y;
}.
Lemma unhooked_data w w1 g1 olds old spares st o k d d1 :
  unhooked w w1 g1 olds old spares st o k d d1 → d1.(owner) = o ∧ d1.(kind) = k ∧ d1.(start) = d.(start).
Proof.
  intros Hu. pose proof (uh_data _ _ _ _ _ _ _ _ _ _ _ Hu) as E. destruct (uh_owner _ _ _ _ _ _ _ _ _ _ _ Hu) as [<- <-].
  unfold data, with_links in E. by injection E.
Qed.
Lemma unhooked_fresh w w1 g1 olds old spares st o k d d1 y :
  unhooked w w1 g1 olds old spares st o k d d1 → y ∈ olds → y ≠ old ∧ y ∉ spares.
Proof.
  intros Hu Hy. pose proof (wi_nodup _ _ _ _ _ (uh_wip _ _ _ _ _ _ _ _ _ _ _ Hu)) as (_ & Hn & _)%NoDup_app.
  specialize (Hn y Hy). set_solver.
Qed.
(** What an edited lock leaves behind. *)
Definition edited w (w' : world H Q) (olds : list Z) (st : Z) (e : edit) (d : kernel_record_lock) : Prop :=
  framed st w w' ∧ (∀ y, y ∈ olds → data <$> w'.(locks) !! y = data <$> w.(locks) !! y) ∧
  contents w' st ≡ₚ pieces e (bare d) ++ contents w st.

(** The part left of the range is published, and the part right of it in a spare. *)
Lemma edit_left_run w w1 g1 olds old spares st o k d d1 e :
  unhooked w w1 g1 olds old spares st o k d d1 → d.(start) < e.(e_start) →
  (e.(e_end) < d.(end_) → spares ≠ []) →
  ∃ w2 g2, publish (set_lock w1 old (with_range d1 d1.(start) (e.(e_start) - 1))) st (head_of o k) old = Done w2 ∧
    (e.(e_end) < d.(end_) → ∃ tail spares' dt w3 g3, spares = tail :: spares' ∧ w2.(locks) !! tail = Some dt ∧
       publish (set_lock w2 tail (with_range (with_identity dt o k d.(pid) d.(type)) (e.(e_end) + 1) d.(end_))) st (head_of o k) tail = Done w3 ∧
       wip w3 g3 olds spares' ∧ edited w w3 olds st e d) ∧
    (¬ e.(e_end) < d.(end_) → wip w2 g2 olds spares ∧ edited w w2 olds st e d).
Proof.
  intros Hu Hleft Hsp. pose proof Hu as [Hw1 Hf1 Hc1 Hst1 Hh1 Hd1 Ed1 [Eo Ek] Hol]. destruct (unhooked_data _ _ _ _ _ _ _ _ _ _ _ Hu) as (Eo1 & Ek1 & Es1).
  destruct (republish_run w1 g1 olds old spares st (with_range d1 (start d1) (e_start e - 1)) o k)
    as (w2 & g2 & Hrun & Hw2 & Hf2 & Hot2 & Hc2); [done..|].
  rewrite (bare_range d d1 _ _ Ed1), Es1, Hc1 in Hc2. exists w2, g2. split; [done|].
  assert (Hold2 : ∀ y, y ∈ olds → data <$> locks w2 !! y = data <$> locks w !! y).
  { intros y Hy. rewrite Hot2 by (by eapply unhooked_fresh). auto. }
  unfold edited, pieces. cbn [start end_ bare with_links with_state]. rewrite (decide_True (P := start d < e_start e)) by done. split.
  - intros Hright. rewrite decide_True by done. destruct spares as [|tail spares]; [by destruct Hsp|].
    destruct (known_data _ _ _ _ _ Hw2) as [dt Hdt].
    destruct (republish_run w2 g2 olds tail spares st (with_range (with_identity dt o k (pid d) (type d)) (e_end e + 1) (end_ d)) o k)
      as (w3 & g3 & Hrun3 & Hw3 & Hf3 & Hot3 & Hc3); [done|by eapply framed_state|by eapply framed_head|done|done|].
    exists tail, spares, dt, w3, g3. split; [done|]. split; [done|]. split; [done|]. split; [done|].
    split; [eapply framed_trans; [done|by eapply framed_trans]|]. split.
    + intros y Hy. rewrite Hot3; [auto|]. intros ->. destruct (unhooked_fresh _ _ _ _ _ _ _ _ _ _ _ _ Hu Hy). set_solver.
    + rewrite Hc3, Hc2. cbn [app]. rewrite Permutation_swap.
      unfold bare, with_range, with_identity, with_links, with_state. cbn. by rewrite Eo, Ek.
  - intros Hright. rewrite decide_False by lia. split; [done|]. split; [by eapply framed_trans|]. split; [done|].
    by rewrite Hc2, app_nil_r.
Qed.
Lemma edit_old_run w g olds old spares st o k e d :
  wip w g (old :: olds) spares → is_Some (w.(states) !! st) → is_Some (w.(heads) !! head_of o k) →
  w.(locks) !! old = Some d → d.(owner) = o → d.(kind) = k →
  (d.(start) < e.(e_start) ∧ e.(e_end) < d.(end_) → spares ≠ []) →
  ∃ w' g', edit_old w st (head_of o k) o k e.(e_start) e.(e_end) old spares =
      Done (w', if decide (d.(start) < e.(e_start) ∧ e.(e_end) < d.(end_)) then tail spares else spares) ∧
    wip w' g' olds (if decide (d.(start) < e.(e_start) ∧ e.(e_end) < d.(end_)) then tail spares else spares) ∧
    edited w w' olds st e d.
Proof.
  intros Hw Hst Hh Hd Eo Ek Hsp. unfold edit_old. rewrite (load_Done _ old d Hd). run.
  destruct (detach_old _ _ _ _ _ _ Hw) as (w1 & g1 & -> & Hw1 & Hr & _). run. pose proof (relinked_framed st _ _ Hr) as Hf1.
  pose proof Hr as (_ & _ & _ & Hsd). destruct (same_data_Some _ _ _ _ Hsd Hd) as (d1 & Hd1 & Ed1).
  assert (Hu : unhooked w w1 g1 olds old spares st o k d d1).
  { split; try done; [by apply contents_relinked|by eapply framed_state|by eapply framed_head]. }
  destruct (decide (start d < e_start e)) as [Hleft|Hleft].
  - rewrite (bool_decide_true (start d < e_start e)) by done. rewrite (load_Done _ old d1 Hd1). run.
    destruct (edit_left_run _ _ _ _ _ _ _ _ _ _ _ e Hu Hleft) as (w2 & g2 & -> & Hyes & Hno); [auto|]. run.
    destruct (decide (e_end e < end_ d)) as [Hright|Hright].
    + rewrite (bool_decide_true (end_ d > e_end e)) by lia. rewrite decide_True by done.
      destruct (Hyes Hright) as (tl & spares' & dt & w3 & g3 & -> & Hdt & Hrun & ? & ?). rewrite (load_Done _ tl dt Hdt). run.
      rewrite Hrun. run. by exists w3, g3.
    + rewrite (bool_decide_false (end_ d > e_end e)) by lia. rewrite decide_False by lia. exists w2, g2. split; [done|]. auto.
  - rewrite (bool_decide_false (start d < e_start e)) by lia. run. rewrite (decide_False (P := start d < e_start e ∧ e_end e < end_ d)) by lia.
    destruct (unhooked_data _ _ _ _ _ _ _ _ _ _ _ Hu) as (Eo1 & Ek1 & Es1). pose proof (uh_contents _ _ _ _ _ _ _ _ _ _ _ Hu) as Hc1.
    unfold edited, pieces. cbn [start end_ bare with_links with_state]. rewrite (decide_False (P := start d < e_start e)) by done.
    destruct (decide (e_end e < end_ d)) as [Hright|Hright].
    + rewrite (bool_decide_true (end_ d > e_end e)) by lia. rewrite (load_Done _ old d1 Hd1). run.
      destruct (republish_run w1 g1 olds old spares st (with_range d1 (e_end e + 1) (end_ d)) o k)
        as (w2 & g2 & -> & Hw2 & Hf2 & Hot2 & Hc2); [done|apply Hu|apply Hu|done|done|]. run. rewrite (bare_range d d1 _ _ Ed1), Hc1 in Hc2.
      exists w2, g2. split; [done|]. split; [done|]. split; [by eapply framed_trans|]. split; [|done].
      intros y Hy. rewrite Hot2 by (by eapply unhooked_fresh). apply Hsd.
    + rewrite (bool_decide_false (end_ d > e_end e)) by lia. destruct (release_detached _ _ _ _ _ _ Hw1) as [Hw2 Hc2].
      eexists _, g1. split; [done|]. split; [done|]. split; [|split].
      * destruct Hf1 as (? & ? & H3). split; [done|]. split; [done|]. intros st' Hne. rewrite Hc2. auto.
      * intros y Hy. cbn. destruct (unhooked_fresh _ _ _ _ _ _ _ _ _ _ _ _ Hu Hy). rewrite lookup_delete_ne by done. apply Hsd.
      * by rewrite Hc2, Hc1.
Qed.

Lemma edit_loop_run olds w g spares st o k e extra :
  wip w g olds spares → is_Some (w.(states) !! st) → is_Some (w.(heads) !! head_of o k) →
  (∀ y, y ∈ olds → ∃ d, w.(locks) !! y = Some d ∧ d.(owner) = o ∧ d.(kind) = k) →
  length spares = (extra + length (filter (splits o k e) (records w.(locks) olds)))%nat →
  ∃ w' g' spares', edit_loop olds w st (head_of o k) o k e.(e_start) e.(e_end) spares = Done (w', spares') ∧
    wip w' g' [] spares' ∧ length spares' = extra ∧ framed st w w' ∧
    contents w' st ≡ₚ (records w.(locks) olds ≫= pieces e) ++ contents w st.
Proof.
  revert w g spares. induction olds as [|old olds IH]; intros w g spares Hw Hst Hh Hol Hlen; cbn [edit_loop].
  { exists w, g, spares. cbn in Hlen. split_and!; try done. lia. }
  destruct (Hol old) as (d & Hd & Eo & Ek); [by left|]. rewrite (records_cons _ _ _ _ Hd) in *. rewrite filter_cons in Hlen.
  assert (Hsp : splits o k e (bare d) ↔ start d < e_start e ∧ e_end e < end_ d).
  { unfold splits, mine, bare, with_links, with_state. cbn. tauto. }
  destruct (edit_old_run w g olds old spares st o k e d) as (w1 & g1 & -> & Hw1 & Hf1 & Hol1 & Hc1); try done.
  { intros Hsplit. rewrite decide_True in Hlen by (by apply Hsp). cbn in Hlen. intros ->. cbn in Hlen. lia. }
  run. set (spares1 := if decide _ then tail spares else spares) in *.
  assert (Hrec : records (locks w1) olds = records (locks w) olds) by (by apply records_ext).
  destruct (IH w1 g1 spares1) as (w2 & g2 & spares2 & -> & Hw2 & Hlen2 & Hf2 & Hc2);
    [done|by eapply framed_state|by eapply framed_head|..].
  - intros y Hy. destruct (Hol y) as (dy & Hdy & ? & ?); [by right|]. specialize (Hol1 y Hy). rewrite Hdy in Hol1.
    destruct (locks w1 !! y) as [dy'|]; [|done]. apply (inj Some) in Hol1. exists dy'. split; [done|].
    unfold data, with_links in Hol1. injection Hol1. intros. split; congruence.
  - rewrite Hrec. unfold spares1. destruct (decide (start d < _ ∧ _)) as [Hy|Hy].
    + rewrite decide_True in Hlen by (by apply Hsp). cbn in Hlen. destruct spares; cbn in *; lia.
    + rewrite decide_False in Hlen by (by rewrite Hsp). done.
  - exists w2, g2, spares2. split; [done|]. split; [done|]. split; [done|]. split; [by eapply framed_trans|].
    rewrite Hc2, Hrec, Hc1, bind_cons. rewrite !app_assoc. f_equiv. apply Permutation_app_comm.
Qed.

(** Between operations: owners exclude each other on every inode. *)
Definition exclusive w : Prop := ∀ st, locks_ok (contents w st).
Lemma elems_known w g olds spares st x y :
  wip w g olds spares → w.(states) !! st = Some x → y ∈ elems x.(root) → is_Some (w.(locks) !! y).
Proof. intros Hw Hx Hy. destruct (wi_trees _ _ _ _ _ Hw st x Hx) as [(_ & _ & Hs) _]. by destruct (Hs y Hy) as (_ & d & -> & _). Qed.
Lemma conflict_found w g st x o k s e ty :
  wip w g [] [] → w.(states) !! st = Some x →
  ∃ a, conflict w.(locks) x.(root) o k s e ty = Done a ∧
    ((a = 0 ∧ ∀ d, d ∈ contents w st → ¬ (d.(start) ≤ e ∧ s ≤ d.(end_) ∧ ¬ mine o k d ∧ (ty = 1 ∨ d.(type) = 1))) ∨
     (a ≠ 0 ∧ ∃ d, w.(locks) !! a = Some d ∧ bare d ∈ contents w st ∧ d.(start) ≤ e ∧ s ≤ d.(end_) ∧ ¬ mine o k d ∧ (ty = 1 ∨ d.(type) = 1))).
Proof.
  intros Hw Hx. destruct (wi_trees _ _ _ _ _ Hw st x Hx) as [(Hg & Ho & Hs) _].
  rewrite conflict_run; [|done|done|intros H0; by destruct (Hs 0 H0)]. eexists. split; [done|].
  assert (Hc : contents w st = records (locks w) (elems (root x))) by (unfold contents; by rewrite Hx). rewrite Hc. unfold mine.
  destruct (filter _ (elems (root x))) as [|a l] eqn:E; cbn; [left|right]; (split; [try done|]).
  - intros d' (y & d & Hy & Hd & ->)%records_elem Hcl. apply filter_nil in E. rewrite Forall_forall in E.
    apply (E y Hy). unfold clash. rewrite Hd. cbn in Hcl. split_and!; lia.
  - assert (Ha : a ∈ filter (clash (locks w) o k s e ty) (elems (root x))) by (rewrite E; by left).
    apply list_elem_of_filter in Ha as [_ Ha]. by destruct (Hs a Ha).
  - assert (Ha : a ∈ filter (clash (locks w) o k s e ty) (elems (root x))) by (rewrite E; by left).
    apply list_elem_of_filter in Ha as [Hcl Ha]. unfold clash in Hcl. destruct (locks w !! a) as [d|] eqn:Hd; [|done].
    exists d. split; [done|]. split; [apply records_elem; eauto|]. split_and!; lia.
Qed.

(** ** [kernel_record_lock_set] *)
Definition request_ok w (st o k s e ty : Z) : Prop :=
  is_Some (w.(states) !! st) ∧ is_Some (w.(heads) !! head_of o k) ∧ is_i64 s ∧ is_i64 e ∧ s ≤ e ∧
  (ty = 0 ∨ ty = 1 ∨ ty = 2) ∧ Z.of_nat (size w.(locks)) < 2 ^ 58.
(** The locks a request needs besides those for splitting. *)
Definition base_need (ty : Z) : nat := if decide (ty = 2) then 0%nat else 1%nat.

Lemma need_bound w g st o k s e ty x ed :
  wip w g [] [] → w.(states) !! st = Some x → extended o k ty s e (base_need ty) (contents w st) ed →
  Z.of_nat (size w.(locks)) < 2 ^ 58 → Z.of_nat (size w.(locks)) + Z.of_nat ed.(e_needed) < 2 ^ 60.
Proof.
  intros Hw Hx Hext Hsz. rewrite (ext_needed _ _ _ _ _ _ _ _ Hext).
  assert (Hl : (length (filter (splits o k ed) (contents w st)) ≤ size (locks w))%nat).
  { etransitivity; [apply length_filter|]. unfold contents. rewrite Hx. etransitivity; [apply records_length|].
    by eapply elems_bound. }
  unfold base_need. destruct (decide (ty = 2)); lia.
Qed.
Lemma extract_run w g spares (st : Z) x o k (ed : edit) :
  wip w g [] spares → w.(states) !! st = Some x →
  ∃ t olds w', extract_owned w.(locks) x.(root) o k ed.(e_start) ed.(e_end) [] = Done (t, olds) ∧
    set_root w st t = Done w' ∧ wip w' g olds spares ∧ framed st w w' ∧
    (∀ y, y ∈ olds → ∃ d, w'.(locks) !! y = Some d ∧ d.(owner) = o ∧ d.(kind) = k) ∧
    records w'.(locks) olds ≡ₚ filter (hit o k ed) (contents w st) ∧
    contents w' st = filter (λ d, ¬ hit o k ed d) (contents w st).
Proof.
  intros Hw Hx. destruct (wi_trees _ _ _ _ _ Hw st x Hx) as [(Hg & Ho & Hs) _].
  assert (Hcx : contents w st = records (locks w) (elems (root x))) by (unfold contents; by rewrite Hx).
  assert (Hknown : ∀ y, y ∈ elems (root x) → is_Some (locks w !! y)) by (intros y; by eapply elems_known).
  destruct (extract_owned_run (locks w) (root x) o k (e_start ed) (e_end ed) []) as (t & olds & Hrun & Holds & Hgt & Et & _);
    [done|done|by eapply tree_small|]. rewrite app_nil_r in Hrun.
  assert (Hown : ∀ y d, y ∈ elems (root x) → locks w !! y = Some d → own (locks w) o k (e_start ed) (e_end ed) y ↔ hit o k ed (bare d)).
  { intros y d _ Hd. unfold own, hit, mine. rewrite Hd. cbn. tauto. }
  assert (Hsplit : elems (root x) ≡ₚ elems t ++ olds) by (by rewrite Et, Holds, Permutation_app_comm, lock_filter_split).
  assert (Htt : tree_ok (locks w) st t).
  { split_and!; [done|rewrite Et; by apply ordered_filter|]. intros y Hy. apply Hs. rewrite Hsplit. set_solver. }
  destruct (set_root_wip _ w g [] olds spares st x t Hw Hx Htt Hsplit) as (w1 & Hroot & Hw1 & Hf1 & El & Es1). rewrite app_nil_r in Hw1.
  exists t, olds, w1. split; [done|]. split; [done|]. split; [done|]. split; [done|]. rewrite El. split; [|split].
  - intros y Hy. rewrite Holds in Hy. apply list_elem_of_filter in Hy as [Hy _]. unfold own in Hy.
    destruct (locks w !! y) as [d|]; [|done]. exists d. tauto.
  - rewrite Holds, Hcx. by rewrite (records_filter _ _ _ (hit o k ed)).
  - unfold contents at 1. rewrite Es1, lookup_insert_eq, El. cbn. rewrite Et, Hcx. apply records_filter; [|done].
    intros y d Hy Hd. by rewrite (Hown y d Hy Hd).
Qed.
Lemma publish_request_run w g spares st o k p ed ty :
  wip w g [] spares → is_Some (w.(states) !! st) → is_Some (w.(heads) !! head_of o k) → length spares = base_need ty →
  ∃ w' g', publish_request w st (head_of o k) o k p ed.(e_start) ed.(e_end) ty spares = Done (w', []) ∧ wip w' g' [] [] ∧
    framed st w w' ∧ contents w' st ≡ₚ contents w st ++ (if decide (ty = 2) then [] else [fresh_lock o k p ty ed]).
Proof.
  unfold publish_request, base_need. intros Hw Hst Hh Hlen. destruct (decide (ty = 2)) as [->|Hne].
  - rewrite decide_False by tauto. destruct spares; [|done]. exists w, g. rewrite app_nil_r. done.
  - rewrite decide_True by done. destruct spares as [|fresh [|]]; try done. destruct (known_data _ _ _ _ _ Hw) as [d Hd].
    rewrite (load_Done _ fresh d Hd). run.
    destruct (republish_run w g [] fresh [] st (with_range (with_identity d o k p ty) (e_start ed) (e_end ed)) o k)
      as (w3 & g3 & -> & Hw3 & Hf3 & _ & Hc3); [done..|]. run.
    exists w3, g3. split; [done|]. split; [done|]. split; [done|]. rewrite Hc3. apply Permutation_cons_append.
Qed.
Lemma wake_run w g st :
  wip w g [] [] → is_Some (w.(states) !! st) →
  ∃ w', wake_waiters w st = Done w' ∧ wip w' g [] [] ∧ framed st w w' ∧ contents w' st = contents w st.
Proof.
  intros Hw [x Hx]. pose proof Hw as [Hl Ht Hk Hn Ho Hd Hh Hs]. unfold wake_waiters, load_state. rewrite Hx. run.
  destruct (Ht st x Hx) as [Htree Hq]. destruct (wait_queue_wake_ready _ Hq) as [Hok Hq'].
  destruct (wait_queue_wake_all (waiters x)) as [ok q]. cbn in Hok, Hq'. subst ok. eexists. split; [done|].
  assert (Hin : ∀ y, in_trees (set_state w st (mk_state (root x) q)) y ↔ in_trees w y).
  { intros y. unfold in_trees. cbn. split; intros (st' & X & HX & Hy); destruct (decide (st' = st)) as [->|Hne].
    - rewrite lookup_insert_eq in HX. injection HX as <-. by exists st, x.
    - rewrite lookup_insert_ne in HX by done. by exists st', X.
    - exists st. eexists. rewrite lookup_insert_eq. split; [done|]. cbn. congruence.
    - exists st', X. by rewrite lookup_insert_ne. }
  split; [split; cbn; try done|split; [split; [|split]|]].
  - intros st' X. destruct (decide (st' = st)) as [->|Hne]; [|rewrite lookup_insert_ne by done; apply Ht].
    rewrite lookup_insert_eq. by intros [= <-].
  - intros h y. setoid_rewrite Hin. apply Hk.
  - intros y. rewrite Hin. apply Hn.
  - by intros y ?%elem_of_nil.
  - cbn. rewrite dom_insert_L. apply elem_of_dom_2 in Hx. set_solver.
  - done.
  - intros st' Hne. unfold contents. cbn. by rewrite lookup_insert_ne.
  - unfold contents. cbn. rewrite lookup_insert_eq, Hx. done.
Qed.

(** The search before the edit. *)
Lemma block_check w g st x o k s e ty :
  wip w g [] [] → w.(states) !! st = Some x →
  ∃ a, (if decide (ty ≠ 2) then conflict w.(locks) x.(root) o k s e ty else Done 0) = Done a ∧
    (a = 0 ∧ unopposed o k ty s e (contents w st) ∨ a ≠ 0 ∧ ty ≠ 2 ∧
        ∃ d, d ∈ contents w st ∧ d.(start) ≤ e ∧ s ≤ d.(end_) ∧ ¬ mine o k d ∧ (ty = 1 ∨ d.(type) = 1)).
Proof.
  intros Hw Hx. destruct (decide (ty ≠ 2)) as [Hne|Heq]; [|exists 0; split; [done|]; left; split; [done|]; intros ?; tauto].
  destruct (conflict_found w g st x o k s e ty Hw Hx) as (a & -> & [[-> Hno]|(Ha & d & _ & ? & ?)]); eexists; (split; [done|]).
  - left. split; [done|]. intros _ d Hd Hm ? ?. specialize (Hno d Hd). split; intros ?; tauto.
  - right. split; [done|]. split; [done|]. by exists (bare d).
Qed.
Lemma contents_ranges w g st x :
  wip w g [] [] → w.(states) !! st = Some x → locks_ok (contents w st) → ranges_ok w.(locks) (elems x.(root)).
Proof.
  intros Hw Hx [_ Hlk] y Hy. destruct (wi_trees _ _ _ _ _ Hw st x Hx) as [(_ & _ & Htr) _].
  destruct (Htr y Hy) as (_ & d & Hd & _). exists d. split; [done|].
  destruct (Hlk (bare d)) as [Hr _]; [|exact Hr]. unfold contents. rewrite Hx. apply records_elem. eauto.
Qed.
Lemma set_run w g st o k p s e ty :
  heap_answers → wip w g [] [] → exclusive w → request_ok w st o k s e ty →
  ∃ r w' g', kernel_record_lock_set w st (head_of o k) o k p s e ty = Done (r, w') ∧ wip w' g' [] [] ∧ framed st w w' ∧
    ((r = - KERNEL_EAGAIN ∧ w' = w ∧ ty ≠ 2 ∧
        ∃ d, d ∈ contents w st ∧ d.(start) ≤ e ∧ s ≤ d.(end_) ∧ ¬ mine o k d ∧ (ty = 1 ∨ d.(type) = 1)) ∨
     (r = - KERNEL_ENOLCK ∧ contents w' st = contents w st ∧ memory_short w.(heap) ∧ unopposed o k ty s e (contents w st)) ∨
     (r = 0 ∧ unopposed o k ty s e (contents w st) ∧ ∃ n ed, extended o k ty s e n (contents w st) ed ∧
        contents w' st ≡ₚ requested o k p ty ed (contents w st))).
Proof.
  intros Hans Hw Hex ([x Hx] & Hh & Hs & He & Hse & Hty & Hsz). unfold kernel_record_lock_set, load_state. rewrite Hx. run.
  fold (base_need ty). pose proof (Hex st) as Hlk. assert (Hst : is_Some (states w !! st)) by (by exists x).
  assert (Hcx : contents w st = records (locks w) (elems (root x))) by (unfold contents; by rewrite Hx).
  destruct (wi_trees _ _ _ _ _ Hw st x Hx) as [(Hg & Ho & Htr) _].
  destruct (block_check w g st x o k s e ty Hw Hx) as (a & -> & [[-> Hun]|(Ha & Hne & Hd)]); run.
  2: { rewrite decide_True by done. eexists _, w, g. split; [done|]. split; [done|]. split; [done|]. left. done. }
  rewrite decide_False by (intros []; done).
  pose proof (contents_ranges w g st x Hw Hx Hlk) as Hranges.
  rewrite prepare_edit_run; [|done|done|done|by split_and!]. run.
  rewrite (records_fold _ _ _ _ _ _ ltac:(intros; by eapply elems_known)), <- Hcx.
  pose proof (extended_fold o k ty s e Hs He Hse (base_need ty) (contents w st) Hlk ltac:(rewrite Hcx; by apply records_sorted)) as Hext.
  set (ed := foldl _ _ _) in *.
  destruct (allocate_spares_run ed.(e_needed) w g [] Hans Hw) as (r & w1 & -> & Hun1 & Hr1); [by eapply (need_bound w g st o k s e ty x)|].
  run. pose proof (unseen_framed st _ _ Hun1) as Hf1. pose proof (unseen_contents _ _ st Hun1) as Hc1.
  destruct r as [spares|]; [|exists (- KERNEL_ENOLCK), w1, g; split; [done|]; split; [tauto|]; split; [done|]; right; left; split; [done|]; split; [done|]; split; [|done]; apply (lacks_more ed.(e_needed)); [|tauto]; 
    pose proof (needed_bound o k ty s e Hs He Hse _ _ _ Hext Hlk); unfold base_need in *; destruct (decide (ty = 2)); lia].
  destruct Hr1 as [Hw1 Hlen]. assert (Hx1 : states w1 !! st = Some x) by (destruct Hun1 as [-> _]; done).
  destruct (extract_run w1 g spares st x o k ed Hw1 Hx1) as (t & olds & w2 & -> & Hroot & Hw2 & Hf2 & Hown & Hrec & Hkeep). run.
  rewrite Hroot. run. rewrite Hc1 in Hrec, Hkeep. assert (Hf12 : framed st w w2) by (by eapply framed_trans).
  destruct (edit_loop_run olds w2 g spares st o k ed (base_need ty)) as (w3 & g3 & spares3 & -> & Hw3 & Hlen3 & Hf3 & Hc3);
    [done|by eapply framed_state|by eapply framed_head|done|..].
  { rewrite Hlen, (ext_needed _ _ _ _ _ _ _ _ Hext), Hrec, splits_hit by apply Hext. done. }
  run. assert (Hf : framed st w w3) by (by eapply framed_trans).
  destruct (publish_request_run w3 g3 spares3 st o k p ed ty) as (w4 & g4 & -> & Hw4 & Hf4 & Hc4);
    [done|by eapply framed_state|by eapply framed_head|done|]. run. rewrite trap_if_ok by tauto. run.
  assert (Hf' : framed st w w4) by (by eapply framed_trans).
  destruct (wake_run w4 g4 st Hw4) as (w5 & -> & Hw5 & Hf5 & Hc5); [by eapply framed_state|]. run.
  exists 0, w5, g4. split; [done|]. split; [done|]. split; [by eapply framed_trans|].
  right. right. split; [done|]. split; [done|]. exists (base_need ty), ed. split; [done|].
  rewrite Hc5, Hc4, Hc3, Hkeep. unfold requested. rewrite app_assoc. f_equiv. rewrite (Hrec : records _ _ ≡ₚ _). apply Permutation_app_comm.
Qed.
End requests.

(** ** [kernel_record_lock_release] *)
Section releases.
Context {H : Type} `{!ObjectHeap H} {Q : Type} `{!WaitQueue Q}.
Context (head_of : Z → Z → Z).
Implicit Types w : world H Q.
Notation wip := (wip head_of).

Lemma oseg_head s at_ p l : oseg s at_ p l 0 → p = default 0 (head l).
Proof. destruct l; cbn; [done|]. by intros (-> & _). Qed.
(** One lock of the list leaves the tree of [st], its list and the heap. *)
Lemma remove_one w g st x y h l1 l2 d :
  wip w g [] [] → w.(states) !! st = Some x → g h = l1 ++ y :: l2 → w.(locks) !! y = Some d → d.(state) = st →
  ∃ t w1 w2 g2, tree_remove w.(locks) x.(root) y = Done t ∧ set_root w st t = Done w1 ∧ owner_remove w1 y = Done w2 ∧
    wip (release w2 y) g2 [] [] ∧ g2 h = l1 ++ l2 ∧ framed st w (release w2 y) ∧
    (∃ x2, (release w2 y).(states) !! st = Some x2 ∧ elems x2.(root) = filter (λ z, z ≠ y) (elems x.(root))) ∧
    (∀ z, z ≠ y → data <$> (release w2 y).(locks) !! z = data <$> w.(locks) !! z).
Proof.
  intros Hw Hx Eg Hd Est. destruct (wi_trees _ _ _ _ _ Hw st x Hx) as [(Hg & Ho & Hs) _].
  assert (Hin : y ∈ elems x.(root)).
  { assert (Hy : y ∈ g h) by (rewrite Eg; set_solver). apply (wi_linked _ _ _ _ _ Hw) in Hy as (d' & Hd' & _ & [(st' & x' & Hx' & Hy)|Hy]);
      [|by apply elem_of_nil in Hy]. destruct (wi_trees _ _ _ _ _ Hw st' x' Hx') as [(_ & _ & Hs') _].
    destruct (Hs' y Hy) as (_ & d2 & Hd2 & E2). congruence. }
  pose proof (ordered_NoDup _ _ Ho) as Hnd. apply list_elem_of_split in Hin as (k1 & k2 & Ek). rewrite Ek in Hnd.
  destruct (tree_remove_run (locks w) x.(root) y k1 k2) as (t & Hrun & Hgt & _ & Et); [done|done|by eapply tree_small|done|].
  assert (Hflt : filter (λ z, z ≠ y) (elems (root x)) = k1 ++ k2).
  { rewrite Ek, filter_app, filter_cons_False by tauto. apply NoDup_app in Hnd as (_ & Hn1 & [Hn2 _]%NoDup_cons).
    f_equal; apply filter_all, Forall_forall; [|by intros z Hz ->]. intros z Hz ->. apply (Hn1 y Hz). by left. }
  assert (Htt : tree_ok (locks w) st t).
  { split_and!; [done|rewrite Et, <- Hflt; by apply ordered_filter|]. intros z Hz. apply Hs. rewrite Ek. rewrite Et in Hz. set_solver. }
  destruct (set_root_wip _ w g [] [y] [] st x t Hw Hx Htt) as (w1 & Hroot & Hw1 & Hf1 & El & Es1).
  { rewrite Ek, Et, <- Permutation_middle. apply Permutation_cons_append. }
  destruct (detach_old _ _ _ _ _ _ Hw1) as (w2 & g2 & Hrem & Hw2 & Hr & Hg2).
  destruct (release_detached _ _ _ _ _ _ Hw2) as [Hw3 Hc3]. pose proof (relinked_framed st _ _ Hr) as Hf2. pose proof Hr as (Es2 & _ & _ & Hsd).
  exists t, w1, w2, g2. split; [done|]. split; [done|]. split; [done|]. split; [done|]. split; [by apply Hg2|]. split; [|split].
  - eapply framed_trans; [exact Hf1|]. destruct Hf2 as (? & ? & H3). split; [done|]. split; [done|]. intros st' Hne. rewrite Hc3. auto.
  - eexists. cbn. rewrite Es2, Es1, lookup_insert_eq. split; [done|]. cbn. by rewrite Et, Hflt.
  - intros z Hz. cbn. by rewrite lookup_delete_ne, (Hsd z), El by done.
Qed.
Lemma release_loop_run fuel w g st x h l1 l2 changed :
  wip w g [] [] → w.(states) !! st = Some x → is_Some (w.(heads) !! h) → g h = l1 ++ l2 → (length l2 < fuel)%nat →
  ∃ w' g' changed', release_loop fuel w st (default 0 (head l2)) changed = Done (w', changed') ∧
    wip w' g' [] [] ∧ framed st w w' ∧
    (∃ x', w'.(states) !! st = Some x' ∧ elems x'.(root) = filter (λ z, z ∉ l2) (elems x.(root)) ∧
       ∀ z, z ∈ elems x'.(root) → data <$> w'.(locks) !! z = data <$> w.(locks) !! z).
Proof.
  revert w g x l1 l2 changed. induction fuel as [|fuel IH]; intros w g x l1 l2 changed Hw Hx Hh Eg Hf; [lia|]. cbn [release_loop].
  destruct l2 as [|y l2].
  { cbn.  exists w, g, changed. split_and!; try done. exists x. split; [done|]. split; [|done].
    symmetry. apply filter_all, Forall_forall. intros z _ ?%elem_of_nil. done. }
  pose proof Hh as [a Ha]. pose proof (li_list _ _ _ (wi_lists _ _ _ _ _ Hw) h a Ha) as Hseg. rewrite Eg in Hseg.
  apply oseg_app in Hseg as (m & _ & (_ & Hy0 & d & Hd & _ & Hseg)). apply oseg_head in Hseg.
  change (default 0 (head (y :: l2))) with y. rewrite decide_False by done. rewrite (load_Done _ y d Hd). run. rewrite Hseg.
  assert (Hndg : NoDup (g h)) by apply (wi_lists _ _ _ _ _ Hw). rewrite Eg in Hndg.
  destruct (decide (state d = st)) as [Est|Est].
  - unfold load_state. rewrite Hx. run.
    destruct (remove_one w g st x y h l1 l2 d Hw Hx Eg Hd Est) as (t & w1 & w2 & g2 & -> & Hr1 & Hr2 & Hw2 & Eg2 & Hf2 & (x2 & Hx2 & E2) & Hd2).
    run. rewrite Hr1. run. rewrite Hr2. run.
    destruct (IH (release w2 y) g2 x2 l1 l2 true) as (w' & g' & ch & Hrun & Hw' & Hf' & x' & Hx' & E' & Hd');
      [done|done|by eapply framed_head|done|cbn in Hf; lia|].
    exists w', g', ch. split; [done|]. split; [done|]. split; [by eapply framed_trans|]. exists x'. split; [done|].
    assert (Efin : elems (root x') = filter (λ z, z ∉ y :: l2) (elems (root x))).
    { rewrite E', E2, list_filter_filter. apply filter_ext_in. intros z _. rewrite not_elem_of_cons. tauto. }
    split; [done|]. intros z Hz. rewrite Hd' by done. apply Hd2. rewrite Efin in Hz. apply list_elem_of_filter in Hz as [Hz _]. set_solver.
  - destruct (IH w g x (l1 ++ [y]) l2 changed) as (w' & g' & ch & -> & Hw' & Hf' & x' & Hx' & E' & Hd');
      [done|done|done|by rewrite <- app_assoc|cbn in Hf; lia|].
    exists w', g', ch. split; [done|]. split; [done|]. split; [done|]. exists x'. split; [done|]. split; [|done]. rewrite E'.
    apply filter_ext_in. intros z Hz. rewrite not_elem_of_cons. split; [|tauto]. intros Hzl. split; [|done]. intros ->.
    destruct (wi_trees _ _ _ _ _ Hw st x Hx) as [(_ & _ & Hs) _]. destruct (Hs y Hz) as (_ & d' & Hd'' & E''). congruence.
Qed.
Lemma lock_release_run w g st h :
  wip w g [] [] → is_Some (w.(states) !! st) → is_Some (w.(heads) !! h) →
  ∃ w' g', kernel_record_lock_release w st h = Done w' ∧ wip w' g' [] [] ∧ framed st w w' ∧
    contents w' st = filter (λ d, head_of d.(owner) d.(kind) ≠ h) (contents w st).
Proof.
  intros Hw [x Hx] [a Ha]. unfold kernel_record_lock_release, load_head. rewrite Ha. run.
  pose proof (wi_lists _ _ _ _ _ Hw) as Hli. rewrite (oseg_head _ _ _ _ (li_list _ _ _ Hli h a Ha)).
  destruct (release_loop_run (S (size (locks w))) w g st x h [] (g h) false) as (w' & g' & ch & -> & Hw' & Hf & x' & Hx' & E & Hd);
    [done|done|by exists a|done| |].
  { apply Nat.lt_succ_r. rewrite <- size_dom, <- (size_list_to_set (C := gset Z)) by apply Hli. apply subseteq_size.
    intros y Hy%elem_of_list_to_set. apply (wi_linked _ _ _ _ _ Hw) in Hy as (d & Hy & _). by eapply elem_of_dom_2. }
  run. assert (Hc : contents w' st = filter (λ d, head_of d.(owner) d.(kind) ≠ h) (contents w st)).
  { unfold contents. rewrite Hx', Hx, (records_ext (locks w) (locks w') _ Hd), E. apply records_filter.
    - intros y d Hy Hdy. rewrite (wi_linked _ _ _ _ _ Hw h y). cbn. split.
      + intros Hno Eh. apply Hno. exists d. split_and!; [done..|]. left. by exists st, x.
      + intros Hne (d' & Hd' & Eh & _). congruence.
    - intros y Hy. by eapply elems_known. }
  destruct ch; [|by exists w', g'].
  destruct (wake_run head_of w' g' st Hw') as (w2 & -> & Hw2 & Hf2 & Hc2); [by exists x'|].
  exists w2, g'. split; [done|]. split; [done|]. split; [by eapply framed_trans|]. by rewrite Hc2.
Qed.
End releases.
