(* ===== verification/LockClaims.v ===== *)
(** * Byte-range locks: the theorems

    What a request does to the bytes of a file, what every history of requests
    keeps, and how [fcntl] arguments become ranges. *)
From S2P Require Import Prelude Heap RecordLock LockTreeTheory LockOpsTheory LockRequestTheory.
Import Heap RecordLock.
#[local] Open Scope Z_scope.

Lemma locks_ok_perm l l' : l ≡ₚ l' → locks_ok l → locks_ok l'.
Proof. intros Hp [H1 H2]. split; [by rewrite <- Hp|]. intros d. rewrite <- Hp. auto. Qed.
Lemma holds_perm l l' o k b ty : l ≡ₚ l' → holds l o k b ty ↔ holds l' o k b ty.
Proof. intros Hp. unfold holds. by setoid_rewrite Hp. Qed.
Lemma locks_ok_filter (P : kernel_record_lock → Prop) `{!∀ d, Decision (P d)} l : locks_ok l → locks_ok (filter P l).
Proof.
  intros [Hp Hr]. split; [|intros d [_ ?]%list_elem_of_filter; auto].
  rewrite <- (lock_filter_split P l) in Hp. by apply pairwise_app in Hp as [? _].
Qed.

Section claims.
Context {H : Type} `{!ObjectHeap H} {Q : Type} `{!WaitQueue Q}.
Context (head_of : Z → Z → Z).
Implicit Types w : world H Q.
(** Trees, lists and heap agree, and the owners exclude each other. *)
Definition consistent w : Prop := (∃ g, wip head_of w g [] []) ∧ exclusive w.
(** Another owner holds a byte of the range in a way that stands against [ty]. *)
Definition opposed w (st o k s e ty : Z) : Prop :=
  ∃ o' k' b ty', ¬ (o' = o ∧ k' = k) ∧ s ≤ b ≤ e ∧ holds (contents w st) o' k' b ty' ∧ (ty = 1 ∨ ty' = 1).

Lemma opposed_lock w st o k s e ty d :
  s ≤ e → d ∈ contents w st → d.(start) ≤ d.(end_) → d.(start) ≤ e → s ≤ d.(end_) → ¬ mine o k d → (ty = 1 ∨ d.(type) = 1) →
  opposed w st o k s e ty.
Proof.
  intros Hse Hd Hr Hs He Hm Ht. exists d.(owner), d.(kind), (Z.max s d.(start)), d.(type). split; [done|]. split; [lia|].
  split; [|done]. exists d. split_and!; try done; lia.
Qed.
Lemma unopposed_bytes w st o k s e ty :
  ty ≠ 2 → unopposed o k ty s e (contents w st) → ¬ opposed w st o k s e ty.
Proof.
  intros Hty Hun (o' & k' & b & ty' & Hne & Hb & (d & Hd & <- & <- & <- & Hdb) & Hor).
  destruct (Hun Hty d Hd) as [? ?]; [done|lia|lia|]. tauto.
Qed.

(** C3: on a consistent state a lock request answers EAGAIN exactly when another
    owner holds a byte of the range incompatibly, and then changes nothing;
    ENOLCK only when the heap fails one of the at most two allocations of the
    request, and then no lock changes; otherwise 0, and
    then, byte by byte, the owner holds exactly the requested type on the
    requested range (nothing, for an unlock) and every other byte of every owner
    is as before.  No spare lock is missing or left over, no trap or dangling
    pointer is reached, other inodes are untouched, and the state stays
    consistent. *)
Theorem record_lock_set_exact w st o k p s e ty :
  heap_answers (H := H) → consistent w → request_ok head_of w st o k s e ty →
  ∃ r w', kernel_record_lock_set w st (head_of o k) o k p s e ty = Done (r, w') ∧ consistent w' ∧
    (∀ st', st' ≠ st → contents w' st' = contents w st') ∧
    ((r = - KERNEL_EAGAIN ∧ w' = w ∧ ty ≠ 2 ∧ opposed w st o k s e ty) ∨
     (r = - KERNEL_ENOLCK ∧ contents w' st = contents w st ∧ memory_short w.(heap) ∧ (ty ≠ 2 → ¬ opposed w st o k s e ty)) ∨
     (r = 0 ∧ (ty ≠ 2 → ¬ opposed w st o k s e ty) ∧
      ∀ o' k' b ty', holds (contents w' st) o' k' b ty' ↔
        if decide (o' = o ∧ k' = k ∧ s ≤ b ≤ e) then ty ≠ 2 ∧ ty' = ty else holds (contents w st) o' k' b ty')).
Proof.
  intros Ha [[g Hw] Hex] Hreq. pose proof Hreq as (_ & _ & Hs & He & Hse & Hty & _).
  destruct (set_run head_of w g st o k p s e ty Ha Hw Hex Hreq) as (r & w' & g' & -> & Hw' & (_ & _ & Hoth) & Hr).
  assert (Hex' : locks_ok (contents w' st) → exclusive w').
  { intros Hst st'. destruct (decide (st' = st)) as [->|Hne]; [done|]. rewrite Hoth by done. apply Hex. }
  exists r, w'. split; [done|]. destruct Hr as [(-> & -> & Hne & d & Hd & ? & ? & ? & ?)|[(-> & Hc & Hm & Hun)|(-> & Hun & n & ed & Hext & Hc)]].
  - split; [by split; [exists g|]|]. split; [done|]. left. split_and!; try done. destruct (Hex st) as [_ Hr].
    destruct (Hr d Hd) as [(_ & _ & ?) _]. by eapply opposed_lock.
  - split; [split; [by exists g'|]; apply Hex'; by rewrite Hc|]. split; [done|]. right. left. split_and!; try done.
    intros Hne. by apply unopposed_bytes.
  - split; [split; [by exists g'|]; apply Hex'|].
    { eapply locks_ok_perm; [symmetry; exact Hc|]. by eapply requested_ok. }
    split; [done|]. right. right. split; [done|]. split; [intros Hne; by apply unopposed_bytes|].
    intros o' k' b ty'. rewrite (holds_perm _ _ _ _ _ _ Hc). by eapply requested_bytes.
Qed.

(** ** Queries and releases *)
Lemma lock_get_run w st o k s e ty :
  consistent w → is_Some (w.(states) !! st) →
  ∃ c, kernel_record_lock_get w st o k s e ty = Done c ∧
    ((c.(c_type) = 2 ∧ c.(c_owner) = 0 ∧ ∀ d, d ∈ contents w st → ¬ (d.(start) ≤ e ∧ s ≤ d.(end_) ∧ ¬ mine o k d ∧ (ty = 1 ∨ d.(type) = 1))) ∨
     (∃ d, d ∈ contents w st ∧ d.(start) ≤ e ∧ s ≤ d.(end_) ∧ ¬ mine o k d ∧ (ty = 1 ∨ d.(type) = 1) ∧
        c = mk_conflict d.(type) d.(owner) d.(kind) (Some (d.(start), d.(end_), if decide (d.(kind) ≠ 0) then -1 else d.(pid))))).
Proof.
  intros [[g Hw] _] [x Hx]. unfold kernel_record_lock_get, load_state. rewrite Hx. run.
  destruct (conflict_found head_of w g st x o k s e ty Hw Hx) as (a & -> & [[-> Hno]|(Ha & d & Hd & Hin & ? & ? & ? & ?)]); run.
  - rewrite decide_False by (intros []; done). eexists. split; [done|]. left. done.
  - rewrite decide_True by done. rewrite (load_Done _ a d Hd). run. eexists. split; [done|]. right. exists (bare d). done.
Qed.
Lemma release_consistent w st h :
  consistent w → is_Some (w.(states) !! st) → is_Some (w.(heads) !! h) →
  ∃ w', kernel_record_lock_release w st h = Done w' ∧ consistent w' ∧
    contents w' st = filter (λ d, head_of d.(owner) d.(kind) ≠ h) (contents w st).
Proof.
  intros [[g Hw] Hex] Hst Hh. destruct (lock_release_run head_of w g st h Hw Hst Hh) as (w' & g' & -> & Hw' & (_ & _ & Hoth) & Hc).
  exists w'. split; [done|]. split; [|done]. split; [by exists g'|]. intros st'. destruct (decide (st' = st)) as [->|Hne].
  - rewrite Hc. apply locks_ok_filter, Hex.
  - rewrite Hoth by done. apply Hex.
Qed.

(** ** Histories *)
Inductive request :=
  | Set_lock (st o k p s e ty : Z)
  | Get_lock (st o k s e ty : Z)
  | Release_locks (st o k : Z).
Definition run_request w (r : request) : outcome (world H Q) :=
  match r with
  | Set_lock st o k p s e ty => '(_, w) ← kernel_record_lock_set w st (head_of o k) o k p s e ty; Done w
  | Get_lock st o k s e ty => _ ← kernel_record_lock_get w st o k s e ty; Done w
  | Release_locks st o k => kernel_record_lock_release w st (head_of o k)
  end.
Fixpoint run_requests w (rs : list request) : outcome (world H Q) :=
  match rs with [] => Done w | r :: rs => w ← run_request w r; run_requests w rs end.
(** Inode and owner exist, the range is one [range_from_flock] makes. *)
Definition admissible w (r : request) : Prop :=
  match r with
  | Set_lock st o k p s e ty => request_ok head_of w st o k s e ty
  | Get_lock st o k s e ty => is_Some (w.(states) !! st)
  | Release_locks st o k => is_Some (w.(states) !! st) ∧ is_Some (w.(heads) !! head_of o k)
  end.
Fixpoint all_admissible w (rs : list request) : Prop :=
  match rs with
  | [] => True
  | r :: rs => admissible w r ∧ ∀ w', run_request w r = Done w' → all_admissible w' rs
  end.
Lemma run_request_consistent w r :
  heap_answers (H := H) → consistent w → admissible w r → ∃ w', run_request w r = Done w' ∧ consistent w'.
Proof.
  intros Ha Hc Hr. destruct r as [st o k p s e ty|st o k s e ty|st o k]; cbn [run_request admissible] in *.
  - destruct Hc as [[g Hw] Hex]. pose proof Hr as (_ & _ & Hs & He & Hse & Hty & _).
    destruct (set_run head_of w g st o k p s e ty Ha Hw Hex Hr) as (r & w' & g' & -> & Hw' & (_ & _ & Hoth) & Hcase). run.
    exists w'. split; [done|]. split; [by exists g'|]. intros st'. destruct (decide (st' = st)) as [->|Hne]; [|rewrite Hoth by done; apply Hex].
    destruct Hcase as [(_ & -> & _)|[(_ & -> & _)|(_ & Hun & n & ed & Hext & Hc)]]; [apply Hex..|].
    eapply locks_ok_perm; [symmetry; exact Hc|]. by eapply requested_ok.
  - destruct (lock_get_run w st o k s e ty Hc Hr) as (c & -> & _). run. eauto.
  - destruct Hr as [Hst Hh]. destruct (release_consistent w st (head_of o k) Hc Hst Hh) as (w' & -> & ? & _). eauto.
Qed.
Lemma run_requests_consistent w rs :
  heap_answers (H := H) → consistent w → all_admissible w rs → ∃ w', run_requests w rs = Done w' ∧ consistent w'.
Proof.
  intros Ha. revert w. induction rs as [|r rs IH]; intros w Hc Hrs; cbn in *; [eauto|]. destruct Hrs as [Hr Hrs].
  destruct (run_request_consistent w r Ha Hc Hr) as (w1 & Hrun & Hc1). rewrite Hrun. run. auto.
Qed.
Lemma exclusive_bytes w st o k o' k' b ty :
  exclusive w → holds (contents w st) o k b 1 → holds (contents w st) o' k' b ty → o' = o ∧ k' = k ∧ ty = 1.
Proof.
  intros Hex (d & Hd & <- & <- & Et & Hb) (d' & Hd' & <- & <- & <- & Hb'). destruct (Hex st) as [Hp _].
  destruct (pairwise_elem compat _ d d' Hp Hd Hd') as [->|[H1 H2]]; [done|]. assert (Hov : overlap d d') by (unfold overlap; lia).
  destruct (decide (owner d = owner d' ∧ kind d = kind d')) as [Hs|Hs]; [by destruct (H1 Hs)|]. by destruct (H2 Hs Hov).
Qed.

(** C9: in every history of lock requests, queries and releases no operation
    traps, dereferences a dangling pointer or walks an endless list, and
    afterwards: on every inode a byte that one owner holds exclusively is held
    by nobody else; an owner holds a byte with at most one type; every
    allocated lock is in the tree of its inode, so none leaks; and each tree of
    [n] locks is at most [2 log2 (n + 1)] high. *)
Theorem record_locks_exclude w rs :
  heap_answers (H := H) → consistent w → all_admissible w rs →
  ∃ w', run_requests w rs = Done w' ∧
    (∀ st o k o' k' b ty, holds (contents w' st) o k b 1 → holds (contents w' st) o' k' b ty → o' = o ∧ k' = k ∧ ty = 1) ∧
    (∀ y, is_Some (w'.(locks) !! y) ↔ ∃ st x, w'.(states) !! st = Some x ∧ y ∈ elems x.(root)) ∧
    (∀ st x, w'.(states) !! st = Some x → 2 ^ height x.(root) ≤ (Z.of_nat (length (elems x.(root))) + 1) ^ 2).
Proof.
  intros Ha Hc Hrs. destruct (run_requests_consistent w rs Ha Hc Hrs) as (w' & -> & [g Hw] & Hex). exists w'. split; [done|].
  split; [intros st o k o' k' b ty; by apply exclusive_bytes|]. split.
  - intros y. rewrite (wi_known _ _ _ _ _ Hw y). split; [|by left]. intros [?|[?%elem_of_nil|?%elem_of_nil]]; done.
  - intros st x Hx. apply (good_size w'.(locks)). by apply (wi_trees _ _ _ _ _ Hw st x Hx).
Qed.
End claims.

(** ** [fcntl] ranges *)
Lemma range_from_base_exact f base s e :
  is_i64 f.(f_start) → is_i64 f.(f_length) → 0 ≤ base ≤ INT64_MAX →
  range_from_base f base = inr (s, e) ↔
    0 ≤ s ≤ e ∧ e ≤ INT64_MAX ∧ base + f.(f_start) ≤ INT64_MAX ∧
    ((0 < f.(f_length) ∧ s = base + f.(f_start) ∧ e = s + f.(f_length) - 1) ∨
     (f.(f_length) < 0 ∧ e = base + f.(f_start) - 1 ∧ s = base + f.(f_start) + f.(f_length)) ∨
     (f.(f_length) = 0 ∧ s = base + f.(f_start) ∧ e = INT64_MAX)).
Proof.
  intros Hs Hl Hb. unfold range_from_base.
  destruct (decide (¬ is_i64 _)) as [Hi|Hi]; [split; [done|]; mlia|].
  destruct (decide (base + f_start f < 0)); [split; [done|]; mlia|].
  destruct (decide (f_length f > 0)).
  { destruct (decide (¬ is_i64 _)) as [Hi2|Hi2]; [split; [done|]; mlia|]. split; [intros [= <- <-]; mlia|].
    intros ?. f_equal. f_equal; mlia. }
  destruct (decide (f_length f < 0)).
  { destruct (decide (_ ∨ _)) as [Hi2|Hi2]; [split; [done|]; mlia|]. split; [intros [= <- <-]; mlia|].
    intros ?. f_equal. f_equal; mlia. }
  split; [intros [= <- <-]; mlia|]. intros ?. f_equal. f_equal; mlia.
Qed.
(** the range of a [struct flock] is accepted exactly when POSIX gives it a
    meaning in signed 64-bit offsets: the base is 0, the file position or the
    file size; a positive length counts bytes upward from the start, a negative
    one downward, zero reaches the largest offset.  An accepted range is
    non-empty, within [0, INT64_MAX], and computed without overflow. *)
Theorem range_from_flock_exact f offset size s e :
  is_i64 f.(f_start) → is_i64 f.(f_length) → 0 ≤ offset → 0 ≤ size →
  range_from_flock f offset size = inr (s, e) ↔
    0 ≤ s ≤ e ∧ e ≤ INT64_MAX ∧
    ∃ base, ((f.(f_whence) = 0 ∧ base = 0) ∨ (f.(f_whence) = 1 ∧ base = offset) ∨ (f.(f_whence) = 2 ∧ base = size)) ∧
      base ≤ INT64_MAX ∧ base + f.(f_start) ≤ INT64_MAX ∧
      ((0 < f.(f_length) ∧ s = base + f.(f_start) ∧ e = s + f.(f_length) - 1) ∨
       (f.(f_length) < 0 ∧ e = base + f.(f_start) - 1 ∧ s = base + f.(f_start) + f.(f_length)) ∨
       (f.(f_length) = 0 ∧ s = base + f.(f_start) ∧ e = INT64_MAX)).
Proof.
  intros Hs Hl Ho Hz. unfold range_from_flock.
  destruct (decide (f_whence f = 0)) as [Hw|Hw0].
  { rewrite range_from_base_exact by (done || mlia). split; [intros ?; split_and!; try lia; exists 0; mlia|].
    intros (? & ? & base & Hb & ?). assert (base = 0) by lia. subst base. mlia. }
  destruct (decide (f_whence f = 1)) as [Hw|Hw1].
  { destruct (decide (offset > INT64_MAX)); [split; [done|]; intros (? & ? & base & ? & ?); mlia|].
    rewrite range_from_base_exact by (done || mlia). split; [intros ?; split_and!; try lia; exists offset; mlia|].
    intros (? & ? & base & Hb & ?). assert (base = offset) by lia. subst base. mlia. }
  destruct (decide (f_whence f = 2)) as [Hw|Hw2]; [|split; [done|]; intros (? & ? & base & ? & ?); lia].
  destruct (decide (size > INT64_MAX)); [split; [done|]; intros (? & ? & base & ? & ?); mlia|].
  rewrite range_from_base_exact by (done || mlia). split; [intros ?; split_and!; try lia; exists size; mlia|].
  intros (? & ? & base & Hb & ?). assert (base = size) by lia. subst base. mlia.
Qed.
(** The last 100 bytes before a file end at 4096. *)
Lemma range_from_flock_exact_witness :
  range_from_flock (mk_flock 1 2 0 (-100) 0) 0 4096 = inr (3996, 4095) ∧
  0 ≤ 3996 ≤ 4095 ∧ 4095 ≤ INT64_MAX ∧
  ∃ base, ((2 = 0 ∧ base = 0) ∨ (2 = 1 ∧ base = 0) ∨ (2 = 2 ∧ base = 4096)) ∧
    base ≤ INT64_MAX ∧ base + 0 ≤ INT64_MAX ∧
    ((0 < -100 ∧ 3996 = base + 0 ∧ 4095 = 3996 + -100 - 1) ∨
     (-100 < 0 ∧ 4095 = base + 0 - 1 ∧ 3996 = base + 0 + -100) ∨
     (-100 = 0 ∧ 3996 = base + 0 ∧ 4095 = INT64_MAX)).
Proof.
  assert (E : range_from_flock (mk_flock 1 2 0 (-100) 0) 0 4096 = inr (3996, 4095)) by (by vm_compute).
  split; [exact E|].
  refine (proj1 (range_from_flock_exact (mk_flock 1 2 0 (-100) 0) 0 4096 3996 4095 _ _ _ _) E); by_decide.
Defined.

(** ** Deadlocks *)
Section deadlocks.
Context {H : Type} `{!ObjectHeap H} {Q : Type} `{!WaitQueue Q}.
Context (head_of : Z → Z → Z).
Implicit Types w : world H Q.

(** The lock the edge waits for is still held by its blocker. *)
Definition live_edge w (e : lock_wait_edge) : Prop :=
  ∃ c, kernel_record_lock_get w e.(w_state) e.(w_owner) 0 e.(w_start) e.(w_end) e.(w_type) = Done c ∧
    c.(c_kind) = 0 ∧ c.(c_owner) = e.(w_blocker).
(** At most [n] live edges lead from [o] to [r]. *)
Inductive waits_for w (waiting : list lock_wait_edge) : nat → Z → Z → Prop :=
  | waits_one n e : e ∈ waiting → live_edge w e → waits_for w waiting (S n) e.(w_owner) e.(w_blocker)
  | waits_more n e r : e ∈ waiting → live_edge w e → waits_for w waiting n e.(w_blocker) r →
      waits_for w waiting (S n) e.(w_owner) r.

Lemma deadlocked_run n w waiting o r :
  consistent head_of w → (∀ e, e ∈ waiting → is_Some (w.(states) !! e.(w_state))) →
  ∃ b, deadlocked n w waiting o r = Done b ∧ (b = true ↔ waits_for w waiting n o r).
Proof.
  intros Hc Hst. revert o. induction n as [|n IH]; intros o; cbn [deadlocked].
  { exists false. split; [done|]. split; [done|]. intros Hw. inversion Hw. }
  set (scan := fix scan edges := match edges with [] => _ | edge :: edges => _ end).
  set (leads := λ e, w_owner e = o ∧ live_edge w e ∧ (w_blocker e = r ∨ waits_for w waiting n (w_blocker e) r)).
  assert (Hscan : ∀ l, (∀ e, e ∈ l → e ∈ waiting) → ∃ b, scan l = Done b ∧ (b = true ↔ Exists leads l)).
  { induction l as [|e l IHl]; intros Hl; cbn.
    { exists false. split; [done|]. by rewrite Exists_nil. }
    destruct IHl as (bl & Hbl & Hbl2); [intros; apply Hl; by right|].
    assert (Hno : ¬ leads e → ∃ b, scan l = Done b ∧ (b = true ↔ Exists leads (e :: l))).
    { intros Hn. exists bl. split; [done|]. rewrite Exists_cons, Hbl2. tauto. }
    assert (Hyes : leads e → ∃ b, Done true = Done b ∧ (b = true ↔ Exists leads (e :: l))).
    { intros Hy. exists true. split; [done|]. rewrite Exists_cons. tauto. }
    destruct (decide (w_owner e ≠ o)) as [Hne|Heq]; [apply Hno; by intros [? _]|]. apply dec_stable in Heq.
    destruct (lock_get_run head_of w (w_state e) (w_owner e) 0 (w_start e) (w_end e) (w_type e) Hc) as (c & Hget & _); [apply Hst, Hl; by left|].
    rewrite Hget. run. destruct (decide (c_kind c ≠ 0 ∨ c_owner c ≠ w_blocker e)) as [Hdead|Hlive].
    { apply Hno. intros (_ & (c' & Hg' & ? & ?) & _). rewrite Hget in Hg'. injection Hg' as <-. lia. }
    assert (Hle : live_edge w e) by (exists c; split_and!; [done|lia|lia]).
    destruct (decide (w_blocker e = r)) as [Hr|Hr]; [apply Hyes; split_and!; tauto|].
    destruct (IH (w_blocker e)) as (bd & -> & Hbd). run. destruct bd; [apply Hyes; split_and!; tauto|].
    apply Hno. intros (_ & _ & [?|?]); [done|]. by apply Hbd in H0. }
  destruct (Hscan waiting) as (b & -> & Hb); [done|]. exists b. split; [done|]. rewrite Hb, Exists_exists. split.
  - intros (e & He & <- & Hle & [<-|Hmore]); [by apply waits_one|by apply waits_more].
  - intros Hw. inversion Hw as [? e|? e]; subst; exists e; unfold leads; tauto.
Qed.
End deadlocks.

(** ** A small system *)
(** A queue that counts its sleepers. *)
Record counted_queue := mk_queue { asleep : Z; woken : Z }.
#[export, refine] Instance counted_queue_ops : WaitQueue counted_queue := {
  wait_queue_init := mk_queue 0 0;
  wait_queue_head q := q.(asleep);
  wait_queue_wake_all q := (true, mk_queue 0 (q.(woken) + q.(asleep)));
  wait_queue_ready _ := True;
}.
Proof. - done. - done. Defined.

(** Before the first request: no lock, empty lists, empty trees. *)
Lemma initial_consistent {H : Type} `{!ObjectHeap H} {Q : Type} `{!WaitQueue Q} (head_of : Z → Z → Z) (w : world H Q) :
  w.(locks) = ∅ → (∀ h a, w.(heads) !! h = Some a → a = 0) →
  (∀ st x, w.(states) !! st = Some x → x.(root) = Nil ∧ wait_queue_ready x.(waiters)) → consistent head_of w.
Proof.
  intros Hl Hh Hs. assert (Hin : ∀ y, ¬ in_trees w y).
  { intros y (st & x & Hx & Hy). destruct (Hs st x Hx) as [E _]. rewrite E in Hy. by apply elem_of_nil in Hy. }
  split.
  - exists (λ _, []). split.
    + split; [intros h a Ha; cbn; eauto|done|intros; apply NoDup_nil_2|by intros ? ? ? ?%elem_of_nil].
    + intros st x Hx. destruct (Hs st x Hx) as [-> ?]. split; [|done]. split; [done|]. split; [constructor|]. by intros y ?%elem_of_nil.
    + intros h y. split; [by intros ?%elem_of_nil|]. rewrite Hl. by intros (d & ? & _).
    + intros y. rewrite Hl. split; [by intros [? ?]|]. intros [?|[?%elem_of_nil|?%elem_of_nil]]; [by destruct (Hin y)|done|done].
    + by intros y ?%elem_of_nil.
    + constructor.
    + rewrite Hl. set_solver.
    + by rewrite Hl.
  - intros st. unfold contents. destruct (states w !! st) as [x|] eqn:Hx; [|by split; [|intros ? ?%elem_of_nil]].
    destruct (Hs st x Hx) as [-> _]. split; [done|]. by intros ? ?%elem_of_nil.
Qed.
Lemma object_heap_answers : heap_answers (H := object_heap).
Proof. intros h. cbn. destruct (decide _); [by left|by right]. Qed.

(** Two owners, 1 and 2, with lists at 11 and 12, on the inodes 7 and 8. *)
Definition demo_head (o k : Z) : Z := 10 + o.
Definition demo_locks : world object_heap counted_queue :=
  mk_world ∅ {[11 := 0; 12 := 0]} {[7 := mk_state Nil (mk_queue 1 0); 8 := mk_state Nil (mk_queue 0 0)]}
    {| oh_limit := 8; oh_live := ∅ |}.
Lemma demo_consistent : consistent demo_head demo_locks.
Proof.
  apply initial_consistent; [done|..].
  - intros h a Ha. cbn in Ha. apply lookup_insert_Some in Ha as [[_ <-]|[_ Ha]]; [done|]. by apply lookup_singleton_Some in Ha as [_ <-].
  - intros st x Hx. cbn in Hx. apply lookup_insert_Some in Hx as [[_ <-]|[_ Hx]]; [done|]. by apply lookup_singleton_Some in Hx as [_ <-].
Qed.

(** An exclusive lock on the first 100 bytes of an unlocked inode. *)
Lemma record_lock_set_exact_witness :
  ∃ r w', kernel_record_lock_set demo_locks 7 (demo_head 1 0) 1 0 500 0 99 1 = Done (r, w') ∧ consistent demo_head w' ∧
    ((r = - KERNEL_EAGAIN ∧ w' = demo_locks) ∨ (r = - KERNEL_ENOLCK ∧ contents w' 7 = contents demo_locks 7) ∨
     (r = 0 ∧ holds (contents w' 7) 1 0 50 1)).
Proof.
  destruct (record_lock_set_exact demo_head demo_locks 7 1 0 500 0 99 1 object_heap_answers demo_consistent)
    as (r & w' & Hrun & Hc & _ & Hr).
  { unfold request_ok. split_and!; by_decide. }
  exists r, w'. split; [done|]. split; [done|]. destruct Hr as [(? & ? & _)|[(? & ? & _)|(? & _ & Hb)]]; [tauto..|].
  right. right. split; [done|]. apply Hb. by rewrite decide_True by lia.
Defined.

(** [all_admissible] as a computation. *)
Section checking.
Context {H : Type} `{!ObjectHeap H} {Q : Type} `{!WaitQueue Q} (head_of : Z → Z → Z).
#[export] Instance admissible_dec (w : world H Q) r : Decision (admissible head_of w r).
Proof. destruct r; cbn; unfold request_ok, is_i64; apply _. Defined.
Fixpoint all_admissibleb (w : world H Q) (rs : list request) : bool :=
  match rs with
  | [] => true
  | r :: rs => bool_decide (admissible head_of w r) &&
      match run_request head_of w r with Done w => all_admissibleb w rs | Fault _ => false end
  end.
Lemma all_admissibleb_sound w rs : all_admissibleb w rs = true → all_admissible head_of w rs.
Proof.
  revert w. induction rs as [|r rs IH]; intros w; cbn; [done|]. intros [Hr Hrs]%andb_true_iff.
  apply bool_decide_eq_true in Hr. split; [done|]. intros w' Hrun. rewrite Hrun in Hrs. auto.
Qed.
End checking.

(** Owner 1 locks, extends and splits; owner 2 is refused, shares what is
    shared, waits out the rest, and owner 1 leaves. *)
Definition demo_requests : list request :=
  [Set_lock 7 1 0 500 0 99 1; Set_lock 7 1 0 500 100 199 1; Set_lock 7 2 0 600 150 160 0; Set_lock 7 1 0 500 50 149 0;
   Set_lock 7 2 0 600 60 70 0; Set_lock 7 1 0 500 90 94 2; Get_lock 7 2 0 0 10 1; Set_lock 8 1 0 500 0 9 1; Release_locks 7 1 0;
   Set_lock 7 2 0 600 0 INT64_MAX 1].
Definition outcome_or {A} (x : A) (o : outcome A) : A := match o with Done a => a | Fault _ => x end.
Lemma record_locks_exclude_witness :
  ∃ w', run_requests demo_head demo_locks demo_requests = Done w' ∧
    ((λ d, (d.(owner), d.(start), d.(end_), d.(type))) <$> contents w' 7 = [(2, 0, INT64_MAX, 1)] ∧
     (λ d, (d.(owner), d.(start), d.(end_), d.(type))) <$> contents w' 8 = [(1, 0, 9, 1)]) ∧
    (∀ st o k o' k' b ty, holds (contents w' st) o k b 1 → holds (contents w' st) o' k' b ty → o' = o ∧ k' = k ∧ ty = 1).
Proof.
  destruct (record_locks_exclude demo_head demo_locks demo_requests object_heap_answers demo_consistent
    ltac:(apply all_admissibleb_sound; by vm_compute)) as (w' & Hrun & Hex & _).
  exists w'. split; [exact Hrun|]. split; [|exact Hex].
  assert (E : outcome_or demo_locks (run_requests demo_head demo_locks demo_requests) = w') by (by rewrite Hrun).
  rewrite <- E. split; by vm_compute.
Defined.
