(* ===== verification/PhysicalPage.v ===== *)
(** * The physical page allocator ([kernel/physical_page.c])

    During boot pages come from the usable ranges in order and from a list of
    recycled pages linked through the pages themselves.  [finalize] turns the
    allocator into a buddy system: each range is cut into naturally aligned
    root extents, each root has a binary tree of 3-bit states packed into a byte
    array, the first page of a block carries its metadata, and the free blocks
    of each order are a doubly linked list through that metadata.

    Flat page indices, orders and addresses are integers; the arrays [metadata],
    [roots] and [tree] that the code places in reserved pages are lists, the null
    pointer an empty one.  States are the numbers the code packs into bits, since
    a corrupted array may hold others.  The cost counters of the diagnostic
    build are left out; a fatal release ends in [__builtin_trap]. *)
From S2P Require Import Prelude BootMemory.
#[local] Open Scope Z_scope.

Module PhysicalPage.
Import BootMemory.

Definition BOAROS_PAGE_SHIFT : Z := 12.
Definition BOAROS_PAGE_SIZE : Z := 4096.
Definition BOAROS_PAGE_MASK : Z := 4095.
Definition PHYSICAL_PAGE_MAX_ORDER : nat := 31.
Definition PHYSICAL_PAGE_ALLOCATOR_INITIALIZED : Z := 0x50414745.
Definition PHYSICAL_PAGE_ALLOCATOR_FINALIZED : Z := 0x42554459.
Definition PHYSICAL_PAGE_NONE : Z := UINT64_MAX.
Definition PHYSICAL_PAGE_INDEX_NONE : Z := UINT32_MAX.

Inductive physical_page_status :=
  | PHYSICAL_PAGE_STATUS_OK
  | PHYSICAL_PAGE_STATUS_INVALID
  | PHYSICAL_PAGE_STATUS_EMPTY
  | PHYSICAL_PAGE_STATUS_DOUBLE_FREE
  | PHYSICAL_PAGE_STATUS_STATE.
#[export] Instance physical_page_status_eq_dec : EqDecision physical_page_status.
Proof. solve_decision. Defined.

(** [enum physical_page_state], as stored in a byte. *)
Definition PHYSICAL_PAGE_STATE_ALLOCATED_HEAD : Z := 0.
Definition PHYSICAL_PAGE_STATE_ALLOCATED_TAIL : Z := 1.
Definition PHYSICAL_PAGE_STATE_CANDIDATE : Z := 2.
Definition PHYSICAL_PAGE_STATE_FREE_HEAD : Z := 3.
Definition PHYSICAL_PAGE_STATE_FREE_TAIL : Z := 4.
Definition PHYSICAL_PAGE_STATE_INTERNAL : Z := 5.

(** [enum buddy_state], as stored in three bits. *)
Definition BUDDY_INACTIVE : Z := 0.
Definition BUDDY_FREE : Z := 1.
Definition BUDDY_SPLIT : Z := 2.
Definition BUDDY_ALLOCATED : Z := 3.
Definition BUDDY_INTERNAL : Z := 4.

Record physical_page_metadata := mk_metadata {
  m_next : Z;
  m_previous : Z;
  m_reference_count : Z;
  m_order : Z;
  m_state : Z;
  m_reserved : Z;
}.
Record physical_page_root := mk_root {
  r_address : Z;
  r_node_offset : Z;
  r_first_page_index : Z;
  r_order : Z;
  r_range_index : Z;
  r_reserved : Z;
}.
Record physical_page_range := mk_page_range {
  g_base : Z;
  g_next : Z;
  g_end : Z;
  g_first_page_index : Z;
}.
#[export] Instance physical_page_metadata_eq_dec : EqDecision physical_page_metadata.
Proof. solve_decision. Defined.
#[export] Instance physical_page_root_eq_dec : EqDecision physical_page_root.
Proof. solve_decision. Defined.

(** The fields the operations below read; [a_access] is whether the callback is
    bound, and the callback itself is a parameter. *)
Record physical_page_allocator := mk_allocator {
  a_total_pages : Z;
  a_available_pages : Z;
  a_recycled_head : Z;
  a_metadata_address : Z;
  a_metadata_pages : Z;
  a_range_count : Z;
  a_initialized : Z;
  a_finalized : Z;
  a_access : bool;
  a_metadata : list physical_page_metadata;
  a_roots : list physical_page_root;
  a_tree : list Z;
  a_tree_nodes : Z;
  a_root_count : Z;
  a_free_heads : list Z;
  a_ranges : list physical_page_range;
}.

Definition set_metadata (a : physical_page_allocator) (m : list physical_page_metadata) : physical_page_allocator :=
  mk_allocator a.(a_total_pages) a.(a_available_pages) a.(a_recycled_head) a.(a_metadata_address) a.(a_metadata_pages)
    a.(a_range_count) a.(a_initialized) a.(a_finalized) a.(a_access) m a.(a_roots) a.(a_tree) a.(a_tree_nodes)
    a.(a_root_count) a.(a_free_heads) a.(a_ranges).
Definition set_tree (a : physical_page_allocator) (t : list Z) : physical_page_allocator :=
  mk_allocator a.(a_total_pages) a.(a_available_pages) a.(a_recycled_head) a.(a_metadata_address) a.(a_metadata_pages)
    a.(a_range_count) a.(a_initialized) a.(a_finalized) a.(a_access) a.(a_metadata) a.(a_roots) t a.(a_tree_nodes)
    a.(a_root_count) a.(a_free_heads) a.(a_ranges).
Definition set_free_heads (a : physical_page_allocator) (h : list Z) : physical_page_allocator :=
  mk_allocator a.(a_total_pages) a.(a_available_pages) a.(a_recycled_head) a.(a_metadata_address) a.(a_metadata_pages)
    a.(a_range_count) a.(a_initialized) a.(a_finalized) a.(a_access) a.(a_metadata) a.(a_roots) a.(a_tree) a.(a_tree_nodes)
    a.(a_root_count) h a.(a_ranges).
Definition set_available (a : physical_page_allocator) (n : Z) : physical_page_allocator :=
  mk_allocator a.(a_total_pages) n a.(a_recycled_head) a.(a_metadata_address) a.(a_metadata_pages)
    a.(a_range_count) a.(a_initialized) a.(a_finalized) a.(a_access) a.(a_metadata) a.(a_roots) a.(a_tree) a.(a_tree_nodes)
    a.(a_root_count) a.(a_free_heads) a.(a_ranges).
Definition set_roots (a : physical_page_allocator) (r : list physical_page_root) : physical_page_allocator :=
  mk_allocator a.(a_total_pages) a.(a_available_pages) a.(a_recycled_head) a.(a_metadata_address) a.(a_metadata_pages)
    a.(a_range_count) a.(a_initialized) a.(a_finalized) a.(a_access) a.(a_metadata) r a.(a_tree) a.(a_tree_nodes)
    a.(a_root_count) a.(a_free_heads) a.(a_ranges).
Definition set_ranges (a : physical_page_allocator) (g : list physical_page_range) : physical_page_allocator :=
  mk_allocator a.(a_total_pages) a.(a_available_pages) a.(a_recycled_head) a.(a_metadata_address) a.(a_metadata_pages)
    a.(a_range_count) a.(a_initialized) a.(a_finalized) a.(a_access) a.(a_metadata) a.(a_roots) a.(a_tree) a.(a_tree_nodes)
    a.(a_root_count) a.(a_free_heads) g.
Definition set_recycled (a : physical_page_allocator) (head : Z) : physical_page_allocator :=
  mk_allocator a.(a_total_pages) a.(a_available_pages) head a.(a_metadata_address) a.(a_metadata_pages)
    a.(a_range_count) a.(a_initialized) a.(a_finalized) a.(a_access) a.(a_metadata) a.(a_roots) a.(a_tree) a.(a_tree_nodes)
    a.(a_root_count) a.(a_free_heads) a.(a_ranges).

Definition allocator_initialized (a : physical_page_allocator) : bool :=
  bool_decide (a.(a_initialized) = PHYSICAL_PAGE_ALLOCATOR_INITIALIZED).
Definition physical_page_allocator_is_finalized (a : physical_page_allocator) : bool :=
  allocator_initialized a && bool_decide (a.(a_finalized) = PHYSICAL_PAGE_ALLOCATOR_FINALIZED).

(** Every caller has bounded [order] by [PHYSICAL_PAGE_MAX_ORDER]. *)
Definition order_page_count (order : Z) : Z := Z.shiftl 1 order.

(** ** Root extents *)

Fixpoint fitting_order (order : nat) (address pages : Z) : Z :=
  match order with
  | O => 0
  | S smaller =>
      let count := order_page_count (Z.of_nat order) in
      if decide (Z.land address (Z.shiftl count BOAROS_PAGE_SHIFT - 1) ≠ 0 ∨ pages < count)
      then fitting_order smaller address pages
      else Z.of_nat order
  end.
Definition largest_fitting_order (address pages : Z) : Z :=
  fitting_order PHYSICAL_PAGE_MAX_ORDER address pages.

Definition root_valid (a : physical_page_allocator) (r : physical_page_root) : outcome bool :=
  if decide (Z.of_nat PHYSICAL_PAGE_MAX_ORDER < r.(r_order) ∨ r.(r_reserved) ≠ 0 ∨
             a.(a_range_count) ≤ r.(r_range_index))
  then Done false
  else
    range ← aread a.(a_ranges) (Z.to_nat r.(r_range_index));
    let n := order_page_count r.(r_order) in
    let bytes := Z.shiftl n BOAROS_PAGE_SHIFT in
    let range_pages := Z.shiftr (u64 (range.(g_end) - range.(g_base))) BOAROS_PAGE_SHIFT in
    Done (bool_decide (¬
      (r.(r_first_page_index) < range.(g_first_page_index) ∨ a.(a_total_pages) < n ∨ range_pages < n ∨
       range_pages - n < r.(r_first_page_index) - range.(g_first_page_index) ∨
       a.(a_total_pages) - n < r.(r_first_page_index) ∨
       r.(r_address) ≠ u64 (range.(g_base) +
         Z.shiftl (r.(r_first_page_index) - range.(g_first_page_index)) BOAROS_PAGE_SHIFT) ∨
       Z.land r.(r_address) (bytes - 1) ≠ 0 ∨ range.(g_end) ≤ r.(r_address) ∨
       range.(g_end) - r.(r_address) < bytes ∨
       a.(a_tree_nodes) < r.(r_node_offset) ∨ a.(a_tree_nodes) - r.(r_node_offset) < 2 * n - 1))).

(** The binary searches: [lo] after the loop, where [key] is the root's first
    page or its address.  The interval shrinks each round. *)
Fixpoint roots_search (key : physical_page_root → Z) (roots : list physical_page_root) (fuel : nat)
    (lo hi target : Z) : outcome Z :=
  if decide (lo < hi) then
    match fuel with
    | O => Fault Out_of_fuel
    | S fuel =>
        let mid := lo + (hi - lo) / 2 in
        r ← aread roots (Z.to_nat mid);
        if decide (key r ≤ target) then roots_search key roots fuel (mid + 1) hi target
        else roots_search key roots fuel lo mid target
    end
  else Done lo.

Definition root_for_page (a : physical_page_allocator) (page : Z) : outcome (option physical_page_root) :=
  lo ← roots_search r_first_page_index a.(a_roots) (Z.to_nat a.(a_root_count)) 0 a.(a_root_count) page;
  if decide (lo = 0) then Done None
  else
    r ← aread a.(a_roots) (Z.to_nat (lo - 1));
    valid ← root_valid a r;
    _ ← trap_if (valid = false);
    Done (if decide (u64 (page - r.(r_first_page_index)) < order_page_count r.(r_order)) then Some r else None).

Definition root_for_address (a : physical_page_allocator) (address : Z) : outcome (option physical_page_root) :=
  lo ← roots_search r_address a.(a_roots) (Z.to_nat a.(a_root_count)) 0 a.(a_root_count) address;
  if decide (lo = 0) then Done None
  else
    r ← aread a.(a_roots) (Z.to_nat (lo - 1));
    valid ← root_valid a r;
    _ ← trap_if (valid = false);
    Done (if decide (u64 (address - r.(r_address)) < Z.shiftl (order_page_count r.(r_order)) BOAROS_PAGE_SHIFT)
          then Some r else None).

(** ** The packed state trees *)

Definition tree_read (a : physical_page_allocator) (root : physical_page_root) (node : Z) : outcome Z :=
  let bit := u64 ((root.(r_node_offset) + node) * 3) in
  let byte := Z.to_nat (bit / 8) in
  let shift := bit mod 8 in
  value ← aread a.(a_tree) byte;
  value ← (if decide (5 < shift)
           then high ← aread a.(a_tree) (S byte); Done (Z.lor value (Z.shiftl high 8))
           else Done value);
  Done (Z.land (Z.shiftr value shift) 7).

Definition tree_get (a : physical_page_allocator) (root : physical_page_root) (node : Z) : outcome Z :=
  let index := u64 (root.(r_node_offset) + node) in
  _ ← trap_if (2 * order_page_count root.(r_order) - 1 ≤ node ∨ a.(a_tree_nodes) ≤ index);
  tree_read a root node.

Definition tree_set (a : physical_page_allocator) (root : physical_page_root) (node state : Z)
    : outcome physical_page_allocator :=
  let index := u64 (root.(r_node_offset) + node) in
  _ ← trap_if (BUDDY_INTERNAL < state ∨ 2 * order_page_count root.(r_order) - 1 ≤ node ∨
               a.(a_tree_nodes) ≤ index);
  let bit := u64 (index * 3) in
  let byte := Z.to_nat (bit / 8) in
  let shift := bit mod 8 in
  value ← aread a.(a_tree) byte;
  value ← (if decide (5 < shift)
           then high ← aread a.(a_tree) (S byte); Done (Z.lor value (Z.shiftl high 8))
           else Done value);
  let value := Z.lor (Z.land value (Z.lnot (Z.shiftl 7 shift))) (Z.shiftl state shift) in
  tree ← awrite a.(a_tree) byte (value mod 256);
  tree ← (if decide (5 < shift) then awrite tree (S byte) (Z.shiftr value 8 mod 256) else Done tree);
  Done (set_tree a tree).

(** ** Owners: the active node above a page *)

Record buddy_owner := mk_owner {
  o_root : physical_page_root;
  o_node : Z;
  o_first : Z;
  o_order : Z;
  o_state : Z;
}.

(** The loop of [owner_walk]; the order falls each round, so [order + 1] rounds
    are enough.  The flag is the C result. *)
Fixpoint walk_loop (fuel : nat) (a : physical_page_allocator) (page : Z) (owner : buddy_owner)
    : outcome (bool * buddy_owner) :=
  match fuel with
  | O => Fault Out_of_fuel
  | S fuel =>
      let r := owner.(o_root) in
      state ← tree_read a r owner.(o_node);
      let owner := mk_owner r owner.(o_node) owner.(o_first) owner.(o_order) state in
      if decide (state ≠ BUDDY_SPLIT)
      then Done (bool_decide (BUDDY_FREE ≤ state ≤ BUDDY_INTERNAL), owner)
      else if decide (owner.(o_order) = 0) then Done (false, owner)
      else
        let order := owner.(o_order) - 1 in
        let right_ := bool_decide (order_page_count order ≤ u64 (page - owner.(o_first))) in
        walk_loop fuel a page
          (mk_owner r (2 * owner.(o_node) + 1 + Z.b2z right_)
             (if right_ then u32 (owner.(o_first) + u32 (order_page_count order)) else owner.(o_first))
             order state)
  end.
Definition owner_walk (a : physical_page_allocator) (r : physical_page_root) (page : Z)
    : outcome (bool * buddy_owner) :=
  walk_loop (S (Z.to_nat r.(r_order))) a page (mk_owner r 0 r.(r_first_page_index) r.(r_order) 0).

(** The owner, when the C function answers 1. *)
Definition owner_find (a : physical_page_allocator) (page : Z) : outcome (option buddy_owner) :=
  root ← root_for_page a page;
  match root with
  | None => Done None
  | Some r => '(found, owner) ← owner_walk a r page; Done (if found : bool then Some owner else None)
  end.

(** The answers 0, -1 and 1 of [owner_at_address]. *)
Inductive owner_answer :=
  | Address_refused
  | Tree_corrupt
  | Owner_of (page : Z) (owner : buddy_owner).

Definition owner_hint (a : physical_page_allocator) (r : physical_page_root) (page : Z)
    : outcome (option buddy_owner) :=
  hint ← aread a.(a_metadata) (Z.to_nat page);
  let offset := u32 (page - r.(r_first_page_index)) in
  if decide (hint.(m_state) = PHYSICAL_PAGE_STATE_ALLOCATED_HEAD ∧ hint.(m_order) ≤ r.(r_order) ∧
             Z.land offset (order_page_count hint.(m_order) - 1) = 0)
  then
    let depth := r.(r_order) - hint.(m_order) in
    let node := (order_page_count depth - 1) + Z.shiftr offset hint.(m_order) in
    state ← tree_get a r node;
    Done (if decide (state = BUDDY_ALLOCATED)
          then Some (mk_owner r node page hint.(m_order) BUDDY_ALLOCATED) else None)
  else Done None.

Definition owner_at_address (a : physical_page_allocator) (address : Z) (read_only : bool) : outcome owner_answer :=
  if decide (Z.land address BOAROS_PAGE_MASK ≠ 0) then Done Address_refused
  else
    root ← root_for_address a address;
    match root with
    | None => Done Address_refused
    | Some r =>
        let page := u32 (r.(r_first_page_index) + u32 (Z.shiftr (address - r.(r_address)) BOAROS_PAGE_SHIFT)) in
        hint ← (if read_only then owner_hint a r page else Done None);
        match hint with
        | Some owner => Done (Owner_of page owner)
        | None =>
            '(found, owner) ← owner_walk a r page;
            Done (if found : bool then Owner_of page owner else Tree_corrupt)
        end
    end.

Definition owner_address (owner : buddy_owner) : Z :=
  u64 (owner.(o_root).(r_address) +
       Z.shiftl (u64 (owner.(o_first) - owner.(o_root).(r_first_page_index))) BOAROS_PAGE_SHIFT).

(** ** Block heads and free lists *)

Definition store_metadata (a : physical_page_allocator) (page : Z) (m : physical_page_metadata)
    : outcome physical_page_allocator :=
  ms ← awrite a.(a_metadata) (Z.to_nat page) m; Done (set_metadata a ms).
Definition load_metadata (a : physical_page_allocator) (page : Z) : outcome physical_page_metadata :=
  aread a.(a_metadata) (Z.to_nat page).
Definition with_links (m : physical_page_metadata) (next previous : Z) : physical_page_metadata :=
  mk_metadata next previous m.(m_reference_count) m.(m_order) m.(m_state) m.(m_reserved).
Definition with_count (m : physical_page_metadata) (n : Z) : physical_page_metadata :=
  mk_metadata m.(m_next) m.(m_previous) n m.(m_order) m.(m_state) m.(m_reserved).
Definition store_next (a : physical_page_allocator) (page next : Z) : outcome physical_page_allocator :=
  m ← load_metadata a page; store_metadata a page (with_links m next m.(m_previous)).
Definition store_previous (a : physical_page_allocator) (page previous : Z) : outcome physical_page_allocator :=
  m ← load_metadata a page; store_metadata a page (with_links m m.(m_next) previous).

Definition mark_head (a : physical_page_allocator) (page order state : Z) : outcome physical_page_allocator :=
  store_metadata a page
    (mk_metadata PHYSICAL_PAGE_INDEX_NONE PHYSICAL_PAGE_INDEX_NONE
       (if decide (state = PHYSICAL_PAGE_STATE_ALLOCATED_HEAD) then 1 else 0) order state 0).

Definition head_valid (a : physical_page_allocator) (owner : buddy_owner) : outcome bool :=
  m ← load_metadata a owner.(o_first);
  Done
    (if decide (m.(m_order) ≠ owner.(o_order) ∨ m.(m_reserved) ≠ 0) then false
     else if decide (owner.(o_state) = BUDDY_FREE)
     then bool_decide (m.(m_state) = PHYSICAL_PAGE_STATE_FREE_HEAD ∧ m.(m_reference_count) = 0)
     else if decide (m.(m_next) ≠ PHYSICAL_PAGE_INDEX_NONE ∨ m.(m_previous) ≠ PHYSICAL_PAGE_INDEX_NONE) then false
     else if decide (owner.(o_state) = BUDDY_INTERNAL)
     then bool_decide (m.(m_state) = PHYSICAL_PAGE_STATE_INTERNAL ∧ m.(m_reference_count) = 0)
     else bool_decide (owner.(o_state) = BUDDY_ALLOCATED ∧ m.(m_state) = PHYSICAL_PAGE_STATE_ALLOCATED_HEAD ∧
                       m.(m_reference_count) ≠ 0 ∧ (owner.(o_order) = 0 ∨ m.(m_reference_count) = 1))).

Definition free_head_plain (a : physical_page_allocator) (page order : Z) : outcome bool :=
  found ← owner_find a page;
  match found with
  | None => Done false
  | Some owner =>
      if decide (owner.(o_first) = page ∧ owner.(o_order) = order ∧ owner.(o_state) = BUDDY_FREE)
      then head_valid a owner else Done false
  end.

(** The check of one neighbour: itself a free head of this order that points
    back. *)
Definition neighbour_valid (a : physical_page_allocator) (page order neighbour : Z)
    (back : physical_page_metadata → Z) : outcome bool :=
  if decide (neighbour = page) then Done false
  else
    plain ← free_head_plain a neighbour order;
    if plain : bool
    then m ← load_metadata a neighbour; Done (bool_decide (back m = page))
    else Done false.

Definition free_head_valid (a : physical_page_allocator) (owner : buddy_owner) : outcome bool :=
  valid ← (if decide (owner.(o_state) ≠ BUDDY_FREE) then Done false else head_valid a owner);
  if negb valid then Done false
  else
    let page := owner.(o_first) in
    let order := owner.(o_order) in
    m ← load_metadata a page;
    left_ ← (if decide (m.(m_previous) = PHYSICAL_PAGE_INDEX_NONE)
             then head ← aread a.(a_free_heads) (Z.to_nat order); Done (bool_decide (head = page))
             else neighbour_valid a page order m.(m_previous) m_next);
    if negb left_ then Done false
    else if decide (m.(m_next) ≠ PHYSICAL_PAGE_INDEX_NONE)
    then neighbour_valid a page order m.(m_next) m_previous
    else Done true.

Definition free_remove (a : physical_page_allocator) (page : Z) : outcome physical_page_allocator :=
  m ← load_metadata a page;
  let previous := m.(m_previous) in
  let next := m.(m_next) in
  a ← (if decide (previous = PHYSICAL_PAGE_INDEX_NONE)
       then heads ← awrite a.(a_free_heads) (Z.to_nat m.(m_order)) next; Done (set_free_heads a heads)
       else store_next a previous next);
  a ← (if decide (next ≠ PHYSICAL_PAGE_INDEX_NONE) then store_previous a next previous else Done a);
  m ← load_metadata a page;
  store_metadata a page (with_links m PHYSICAL_PAGE_INDEX_NONE PHYSICAL_PAGE_INDEX_NONE).

(** [None] is the answer 0. *)
Definition free_insert (a : physical_page_allocator) (page order : Z) : outcome (option physical_page_allocator) :=
  old ← aread a.(a_free_heads) (Z.to_nat order);
  ready ← (if decide (old ≠ PHYSICAL_PAGE_INDEX_NONE) then
             found ← owner_find a old;
             match found with
             | None => Done false
             | Some owner =>
                 if decide (owner.(o_first) ≠ old ∨ owner.(o_order) ≠ order) then Done false
                 else
                   valid ← free_head_valid a owner;
                   if negb valid then Done false
                   else m ← load_metadata a old; Done (bool_decide (m.(m_previous) = PHYSICAL_PAGE_INDEX_NONE))
             end
           else Done true);
  if negb ready then Done None
  else
    m ← load_metadata a page;
    a ← store_metadata a page (with_links m old PHYSICAL_PAGE_INDEX_NONE);
    a ← (if decide (old ≠ PHYSICAL_PAGE_INDEX_NONE) then store_previous a old page else Done a);
    heads ← awrite a.(a_free_heads) (Z.to_nat order) page;
    Done (Some (set_free_heads a heads)).

(** ** Allocation and release of blocks *)

(** The first order from [found] on whose list is not empty, [None] when there
    is none; [count] orders are left. *)
Fixpoint find_order (a : physical_page_allocator) (found : Z) (count : nat) : outcome (option Z) :=
  match count with
  | O => Done None
  | S count =>
      head ← aread a.(a_free_heads) (Z.to_nat found);
      if decide (head ≠ PHYSICAL_PAGE_INDEX_NONE) then Done (Some found)
      else find_order a (found + 1) count
  end.

(** [while (found > order)], [steps] being their difference: cut the block in
    halves and put the upper one on its free list.  The node reached. *)
Fixpoint split_down (steps : nat) (a : physical_page_allocator) (root : physical_page_root) (node page found : Z)
    : outcome (physical_page_allocator * Z) :=
  match steps with
  | O => Done (a, node)
  | S steps =>
      left_ ← tree_get a root (2 * node + 1);
      _ ← trap_if (left_ ≠ BUDDY_INACTIVE);
      right_ ← tree_get a root (2 * node + 2);
      _ ← trap_if (right_ ≠ BUDDY_INACTIVE);
      let found := found - 1 in
      let upper := u32 (page + u32 (order_page_count found)) in
      a ← tree_set a root (2 * node + 1) BUDDY_FREE;
      a ← tree_set a root (2 * node + 2) BUDDY_FREE;
      a ← tree_set a root node BUDDY_SPLIT;
      a ← mark_head a upper found PHYSICAL_PAGE_STATE_FREE_HEAD;
      inserted ← free_insert a upper found;
      match inserted with
      | None => trap
      | Some a => split_down steps a root (2 * node + 1) page found
      end
  end.

(** The reclaim hooks the caller may borrow are not part of this state. *)
Definition physical_page_allocate_order_once (a : physical_page_allocator) (order : Z)
    : outcome (physical_page_status * physical_page_allocator * option Z) :=
  if decide (allocator_initialized a = false ∨ Z.of_nat PHYSICAL_PAGE_MAX_ORDER < order)
  then Done (PHYSICAL_PAGE_STATUS_INVALID, a, None)
  else if decide (physical_page_allocator_is_finalized a = false)
  then Done (PHYSICAL_PAGE_STATUS_STATE, a, None)
  else
    first ← find_order a order (Z.to_nat (Z.of_nat PHYSICAL_PAGE_MAX_ORDER + 1 - order));
    match first with
    | None => Done (PHYSICAL_PAGE_STATUS_EMPTY, a, None)
    | Some found =>
        page ← aread a.(a_free_heads) (Z.to_nat found);
        answer ← owner_find a page;
        match answer with
        | None => trap
        | Some owner =>
            _ ← trap_if (owner.(o_first) ≠ page ∨ owner.(o_order) ≠ found);
            valid ← free_head_valid a owner;
            _ ← trap_if (valid = false);
            let pa := owner_address owner in
            _ ← trap_if (a.(a_available_pages) < order_page_count order ∨
                         a.(a_total_pages) < a.(a_available_pages));
            a ← free_remove a page;
            '(a, node) ← split_down (Z.to_nat (found - order)) a owner.(o_root) owner.(o_node) page found;
            a ← tree_set a owner.(o_root) node BUDDY_ALLOCATED;
            a ← mark_head a page order PHYSICAL_PAGE_STATE_ALLOCATED_HEAD;
            Done (PHYSICAL_PAGE_STATUS_OK,
                  set_available a (u64 (a.(a_available_pages) - order_page_count order)), Some pa)
        end
    end.

(** [page_lookup] of a finalized allocator. *)
Definition page_lookup_finalized (a : physical_page_allocator) (address : Z) : outcome (option Z) :=
  root ← root_for_address a address;
  Done (match root with
        | None => None
        | Some r => Some (u32 (r.(r_first_page_index) + u32 (Z.shiftr (address - r.(r_address)) BOAROS_PAGE_SHIFT)))
        end).
(** The scan of the ranges before [finalize]: range and page index. *)
Fixpoint page_lookup_ranges (steps : nat) (a : physical_page_allocator) (index : nat) (address : Z)
    : outcome (option (Z * Z)) :=
  match steps with
  | O => Done None
  | S steps =>
      range ← aread a.(a_ranges) index;
      if decide (range.(g_base) ≤ address ∧ address < range.(g_end)) then
        let flat := range.(g_first_page_index) + Z.shiftr (address - range.(g_base)) BOAROS_PAGE_SHIFT in
        Done (if decide (a.(a_total_pages) ≤ flat ∨ UINT32_MAX < flat) then None
              else Some (Z.of_nat index, flat))
      else page_lookup_ranges steps a (S index) address
  end.
Definition page_lookup (a : physical_page_allocator) (address : Z) : outcome (option Z) :=
  if decide (Z.land address BOAROS_PAGE_MASK ≠ 0) then Done None
  else if physical_page_allocator_is_finalized a then page_lookup_finalized a address
  else
    found ← page_lookup_ranges (Z.to_nat a.(a_range_count)) a 0 address;
    Done (match found with Some (_, page) => Some page | None => None end).

(** The merging loop; the order grows to the root's, so [root order - order]
    rounds are enough.  The owner reached. *)
Fixpoint merge_up (steps : nat) (a : physical_page_allocator) (owner : buddy_owner)
    : outcome (physical_page_allocator * buddy_owner) :=
  let r := owner.(o_root) in
  if decide (owner.(o_order) < r.(r_order)) then
    match steps with
    | O => Fault Out_of_fuel
    | S steps =>
        let node := owner.(o_node) in
        let sibling := if decide (Z.land node 1 ≠ 0) then node + 1 else node - 1 in
        let buddy := u32 (r.(r_first_page_index) +
                          Z.lxor (u32 (owner.(o_first) - r.(r_first_page_index)))
                                 (u32 (order_page_count owner.(o_order)))) in
        state ← tree_get a r sibling;
        if decide (state = BUDDY_FREE) then
          valid ← free_head_valid a (mk_owner r sibling buddy owner.(o_order) state);
          _ ← trap_if (valid = false);
          a ← free_remove a buddy;
          a ← tree_set a r node BUDDY_INACTIVE;
          a ← tree_set a r sibling BUDDY_INACTIVE;
          let owner := mk_owner r ((node - 1) / 2)
                         (if decide (buddy < owner.(o_first)) then buddy else owner.(o_first))
                         (owner.(o_order) + 1) owner.(o_state) in
          a ← tree_set a r owner.(o_node) BUDDY_FREE;
          a ← mark_head a owner.(o_first) owner.(o_order) PHYSICAL_PAGE_STATE_FREE_HEAD;
          merge_up steps a owner
        else
          _ ← trap_if (state ≠ BUDDY_ALLOCATED ∧ state ≠ BUDDY_INTERNAL ∧ state ≠ BUDDY_SPLIT);
          Done (a, owner)
    end
  else Done (a, owner).

(** The owner the code makes up to check a head without a walk; its root is the
    null pointer. *)
Definition head_only (page order : Z) : buddy_owner := mk_owner (mk_root 0 0 0 0 0 0) 0 page order BUDDY_ALLOCATED.
(** The shared-page fast path of [release_order]: [Some] when it answered. *)
Definition release_shared (a : physical_page_allocator) (address order : Z)
    : outcome (option physical_page_allocator) :=
  if decide (order ≠ 0) then Done None
  else
    found ← page_lookup a address;
    match found with
    | None => Done None
    | Some page =>
        m ← load_metadata a page;
        if decide (m.(m_state) = PHYSICAL_PAGE_STATE_ALLOCATED_HEAD ∧ m.(m_order) = 0 ∧ 1 < m.(m_reference_count))
        then
          valid ← head_valid a (head_only page 0);
          _ ← trap_if (valid = false);
          a ← store_metadata a page (with_count m (m.(m_reference_count) - 1));
          Done (Some a)
        else Done None
    end.

Definition physical_page_release_order (a : physical_page_allocator) (address order : Z)
    : outcome (physical_page_status * physical_page_allocator) :=
  _ ← trap_if (allocator_initialized a = false);
  _ ← trap_if (Z.of_nat PHYSICAL_PAGE_MAX_ORDER < order);
  _ ← trap_if (Z.land address BOAROS_PAGE_MASK ≠ 0);
  _ ← trap_if (physical_page_allocator_is_finalized a = false);
  shared ← release_shared a address order;
  match shared with
  | Some a => Done (PHYSICAL_PAGE_STATUS_OK, a)
  | None =>
      answer ← owner_at_address a address false;
      match answer with
      | Address_refused | Tree_corrupt => trap
      | Owner_of page owner =>
          _ ← trap_if (owner.(o_state) = BUDDY_FREE);
          _ ← trap_if (owner.(o_state) ≠ BUDDY_ALLOCATED ∨ owner.(o_first) ≠ page);
          _ ← trap_if (owner.(o_order) ≠ order);
          m ← load_metadata a page;
          _ ← trap_if (m.(m_reference_count) = 0);
          valid ← head_valid a owner;
          _ ← trap_if (valid = false);
          if decide (1 < m.(m_reference_count)) then
            a ← store_metadata a page (with_count m (m.(m_reference_count) - 1));
            Done (PHYSICAL_PAGE_STATUS_OK, a)
          else
            let pages := order_page_count order in
            _ ← trap_if (a.(a_total_pages) < a.(a_available_pages) ∨
                         a.(a_total_pages) - a.(a_available_pages) < pages);
            a ← tree_set a owner.(o_root) owner.(o_node) BUDDY_FREE;
            a ← mark_head a page order PHYSICAL_PAGE_STATE_FREE_HEAD;
            '(a, owner) ← merge_up (Z.to_nat (owner.(o_root).(r_order) - owner.(o_order))) a owner;
            inserted ← free_insert a owner.(o_first) owner.(o_order);
            match inserted with
            | None => trap
            | Some a => Done (PHYSICAL_PAGE_STATUS_OK, set_available a (u64 (a.(a_available_pages) + pages)))
            end
      end
  end.

(** ** Shared pages and queries *)

Definition physical_page_acquire (a : physical_page_allocator) (address : Z)
    : outcome (physical_page_status * physical_page_allocator) :=
  _ ← trap_if (physical_page_allocator_is_finalized a = false);
  found ← page_lookup a address;
  match found with
  | None => trap
  | Some page =>
      valid ← head_valid a (head_only page 0);
      m ← load_metadata a page;
      _ ← trap_if (valid = false ∨ m.(m_state) ≠ PHYSICAL_PAGE_STATE_ALLOCATED_HEAD ∨
                   m.(m_reference_count) = UINT32_MAX);
      a ← store_metadata a page (with_count m (m.(m_reference_count) + 1));
      Done (PHYSICAL_PAGE_STATUS_OK, a)
  end.

Definition physical_page_reference_count (a : physical_page_allocator) (address : Z)
    : outcome (physical_page_status * Z) :=
  _ ← trap_if (physical_page_allocator_is_finalized a = false);
  found ← page_lookup a address;
  match found with
  | None => trap
  | Some page =>
      m ← load_metadata a page;
      _ ← trap_if (m.(m_state) ≠ PHYSICAL_PAGE_STATE_ALLOCATED_HEAD);
      valid ← head_valid a (head_only page m.(m_order));
      _ ← trap_if (valid = false);
      Done (PHYSICAL_PAGE_STATUS_OK, m.(m_reference_count))
  end.

Definition physical_page_allocation_order (a : physical_page_allocator) (address : Z)
    : outcome (physical_page_status * option Z) :=
  if decide (allocator_initialized a = false) then Done (PHYSICAL_PAGE_STATUS_INVALID, None)
  else if decide (physical_page_allocator_is_finalized a = false) then
    found ← page_lookup a address;
    Done (match found with Some _ => PHYSICAL_PAGE_STATUS_STATE | None => PHYSICAL_PAGE_STATUS_INVALID end, None)
  else
    answer ← owner_at_address a address true;
    match answer with
    | Address_refused => Done (PHYSICAL_PAGE_STATUS_INVALID, None)
    | Tree_corrupt => trap
    | Owner_of page owner =>
        if decide (owner.(o_state) = BUDDY_FREE) then Done (PHYSICAL_PAGE_STATUS_DOUBLE_FREE, None)
        else if decide (owner.(o_state) ≠ BUDDY_ALLOCATED ∨ owner.(o_first) ≠ page)
        then Done (PHYSICAL_PAGE_STATUS_INVALID, None)
        else
          valid ← head_valid a owner;
          _ ← trap_if (valid = false);
          Done (PHYSICAL_PAGE_STATUS_OK, Some owner.(o_order))
    end.

(** A page was handed out before [finalize] when it lies below [next]. *)
Fixpoint handed_out (steps : nat) (a : physical_page_allocator) (index : nat) (address : Z) : outcome bool :=
  match steps with
  | O => Done false
  | S steps =>
      range ← aread a.(a_ranges) index;
      if decide (range.(g_base) ≤ address ∧ address < range.(g_next)) then Done true
      else handed_out steps a (S index) address
  end.
Definition address_was_allocated (a : physical_page_allocator) (address : Z) : outcome bool :=
  if decide (Z.land address BOAROS_PAGE_MASK ≠ 0) then Done false
  else handed_out (Z.to_nat a.(a_range_count)) a 0 address.

(** [access] is the callback of the platform: the pointer to a page, 0 for the
    null pointer. *)
Definition physical_page_resolve (access : Z → Z) (a : physical_page_allocator) (address : Z)
    : outcome (physical_page_status * option Z) :=
  if decide (allocator_initialized a = false) then Done (PHYSICAL_PAGE_STATUS_INVALID, None)
  else if decide (a.(a_access) = false) then Done (PHYSICAL_PAGE_STATUS_STATE, None)
  else
    owned ← (if physical_page_allocator_is_finalized a then
               answer ← owner_at_address a address true;
               match answer with
               | Address_refused => Done false
               | Tree_corrupt => trap
               | Owner_of page owner =>
                   if decide (owner.(o_state) ≠ BUDDY_ALLOCATED) then Done false
                   else
                     valid ← head_valid a owner;
                     _ ← trap_if (valid = false);
                     Done true
               end
             else address_was_allocated a address);
    Done (if negb owned then (PHYSICAL_PAGE_STATUS_INVALID, None)
          else if decide (access address = 0) then (PHYSICAL_PAGE_STATUS_INVALID, None)
          else (PHYSICAL_PAGE_STATUS_OK, Some (access address))).

Definition physical_page_total (a : physical_page_allocator) : Z :=
  if allocator_initialized a then a.(a_total_pages) else 0.
Definition physical_page_available (a : physical_page_allocator) : Z :=
  if allocator_initialized a then a.(a_available_pages) else 0.
Definition physical_page_metadata_pages (a : physical_page_allocator) : Z :=
  if physical_page_allocator_is_finalized a then a.(a_metadata_pages) else 0.

End PhysicalPage.
