(* ===== verification/PageBoot.v ===== *)
(** * The physical page allocator during boot ([kernel/physical_page.c])

    [init] takes over the usable ranges of the boot memory layout, the bootstrap
    operations hand out pages from them in order and keep released pages in a
    list through the pages themselves, and [finalize] builds the buddy system in
    pages it reserves.  [audit] is the code's own check of the whole structure.

    [access] is the callback of the platform that maps a page: the pointer to
    its bytes, 0 when it has none.  The bytes behind the pointers are a map from
    pointers to bytes; [access] gives different pages disjoint memory, so the
    arrays that [finalize] places in the reserved pages do not overlap the list
    of recycled pages.  What the arrays hold before they are written is
    arbitrary ([junk]). *)
From S2P Require Import Prelude BootMemory PhysicalPage.
#[local] Open Scope Z_scope.

Module PageBoot.
Import BootMemory PhysicalPage.

Definition page_floor (address : Z) : Z := Z.land address (Z.lnot BOAROS_PAGE_MASK).

(** ** Taking over the usable ranges *)

Definition set_sizes (a : physical_page_allocator) (ranges : list physical_page_range) (count total : Z)
    : physical_page_allocator :=
  mk_allocator total a.(a_available_pages) a.(a_recycled_head) a.(a_metadata_address) a.(a_metadata_pages)
    count a.(a_initialized) a.(a_finalized) a.(a_access) a.(a_metadata) a.(a_roots) a.(a_tree) a.(a_tree_nodes)
    a.(a_root_count) a.(a_free_heads) ranges.
Definition set_initialized (a : physical_page_allocator) (available flag : Z) : physical_page_allocator :=
  mk_allocator a.(a_total_pages) available a.(a_recycled_head) a.(a_metadata_address) a.(a_metadata_pages)
    a.(a_range_count) flag a.(a_finalized) a.(a_access) a.(a_metadata) a.(a_roots) a.(a_tree) a.(a_tree_nodes)
    a.(a_root_count) a.(a_free_heads) a.(a_ranges).

(** [result] before the loop over the ranges. *)
Definition allocator_blank : physical_page_allocator :=
  mk_allocator 0 0 PHYSICAL_PAGE_NONE PHYSICAL_PAGE_NONE 0 0 0 0 false [] [] [] 0 0
    (replicate (S PHYSICAL_PAGE_MAX_ORDER) PHYSICAL_PAGE_INDEX_NONE)
    (replicate BOOT_MEMORY_MAX_USABLE_RANGES (mk_page_range 0 0 0 0)).

(** The pages inside the range [base, end): added to the table unless there are
    none; [None] when the indices run out. *)
Definition add_range (a : physical_page_allocator) (base end_ : Z) : outcome (option physical_page_allocator) :=
  if decide (UINT64_MAX - BOAROS_PAGE_MASK < base) then Done (Some a)
  else
    let aligned_base := page_floor (base + BOAROS_PAGE_MASK) in
    let aligned_end := page_floor end_ in
    if decide (aligned_end ≤ aligned_base) then Done (Some a)
    else
      let page_count := Z.shiftr (aligned_end - aligned_base) BOAROS_PAGE_SHIFT in
      if decide (u64 (UINT32_MAX - a.(a_total_pages)) < page_count) then Done None
      else
        ranges ← awrite a.(a_ranges) (Z.to_nat a.(a_range_count))
                   (mk_page_range aligned_base aligned_base aligned_end (u32 a.(a_total_pages)));
        Done (Some (set_sizes a ranges (u32 (a.(a_range_count) + 1)) (u64 (a.(a_total_pages) + page_count)))).

(** [None] is [PHYSICAL_PAGE_STATUS_INVALID]. *)
Fixpoint init_ranges (steps : nat) (usable : list dtb_memory_range) (index : nat) (previous_end : Z)
    (a : physical_page_allocator) : outcome (option physical_page_allocator) :=
  match steps with
  | O => Done (Some a)
  | S steps =>
      range ← aread usable index;
      match range_end range.(rg_base) range.(rg_size) with
      | None => Done None
      | Some end_ =>
          if decide (range.(rg_size) = 0 ∨ ((0 < index)%nat ∧ range.(rg_base) < previous_end)) then Done None
          else
            added ← add_range a range.(rg_base) end_;
            match added with
            | None => Done None
            | Some a => init_ranges steps usable (S index) end_ a
            end
      end
  end.

Definition physical_page_allocator_init (allocator : physical_page_allocator) (layout : boot_memory_layout)
    : outcome (physical_page_status * physical_page_allocator) :=
  if decide (layout.(bl_usable_count) = 0%nat ∨ (BOOT_MEMORY_MAX_USABLE_RANGES < layout.(bl_usable_count))%nat)
  then Done (PHYSICAL_PAGE_STATUS_INVALID, allocator)
  else
    ready ← init_ranges layout.(bl_usable_count) layout.(bl_usable) 0 0 allocator_blank;
    Done (match ready with
          | None => (PHYSICAL_PAGE_STATUS_INVALID, allocator)
          | Some result =>
              if decide (result.(a_total_pages) = 0) then (PHYSICAL_PAGE_STATUS_EMPTY, allocator)
              else (PHYSICAL_PAGE_STATUS_OK,
                    set_initialized result result.(a_total_pages) PHYSICAL_PAGE_ALLOCATOR_INITIALIZED)
          end).

Definition set_access (a : physical_page_allocator) (bound : bool) : physical_page_allocator :=
  mk_allocator a.(a_total_pages) a.(a_available_pages) a.(a_recycled_head) a.(a_metadata_address) a.(a_metadata_pages)
    a.(a_range_count) a.(a_initialized) a.(a_finalized) bound a.(a_metadata) a.(a_roots) a.(a_tree) a.(a_tree_nodes)
    a.(a_root_count) a.(a_free_heads) a.(a_ranges).
(** Bound with a callback that is not null. *)
Definition physical_page_allocator_bind_access (a : physical_page_allocator)
    : physical_page_status * physical_page_allocator :=
  if decide (allocator_initialized a = false) then (PHYSICAL_PAGE_STATUS_INVALID, a)
  else if decide (a.(a_access) = true) then (PHYSICAL_PAGE_STATUS_STATE, a)
  else (PHYSICAL_PAGE_STATUS_OK, set_access a true).

(** ** Bootstrap pages *)

Notation memory := (gmap Z Z).
Section boot.
Context (access : Z → Z).

(** The loops over the eight bytes of a list node. *)
Fixpoint read_bytes (steps : nat) (mem : memory) (bytes index result : Z) : outcome Z :=
  match steps with
  | O => Done result
  | S steps =>
      match mem !! (bytes + index) with
      | None => Fault Out_of_bounds
      | Some byte => read_bytes steps mem bytes (index + 1) (Z.lor result (u64 (Z.shiftl byte (index * 8))))
      end
  end.
Fixpoint write_bytes (steps : nat) (mem : memory) (bytes index value : Z) : outcome memory :=
  match steps with
  | O => Done mem
  | S steps =>
      match mem !! (bytes + index) with
      | None => Fault Out_of_bounds
      | Some _ => write_bytes steps (<[bytes + index := Z.shiftr value (index * 8) mod 256]> mem) bytes (index + 1) value
      end
  end.
(** [None] is the answer 0. *)
Definition read_recycled_node (mem : memory) (address : Z) : outcome (option Z) :=
  if decide (access address = 0) then Done None
  else value ← read_bytes 8 mem (access address) 0 0; Done (Some value).
Definition write_recycled_node (mem : memory) (address value : Z) : outcome (option memory) :=
  if decide (access address = 0) then Done None
  else mem ← write_bytes 8 mem (access address) 0 value; Done (Some mem).

(** The first range with a page never handed out. *)
Fixpoint take_next (steps : nat) (ranges : list physical_page_range) (index : nat)
    : outcome (option (list physical_page_range * Z)) :=
  match steps with
  | O => Done None
  | S steps =>
      range ← aread ranges index;
      if decide (range.(g_next) < range.(g_end)) then
        ranges ← awrite ranges index
          (mk_page_range range.(g_base) (u64 (range.(g_next) + BOAROS_PAGE_SIZE)) range.(g_end) range.(g_first_page_index));
        Done (Some (ranges, range.(g_next)))
      else take_next steps ranges (S index)
  end.

Definition physical_page_allocate_bootstrap (mem : memory) (a : physical_page_allocator)
    : outcome (physical_page_status * physical_page_allocator * option Z) :=
  if decide (a.(a_available_pages) = 0) then Done (PHYSICAL_PAGE_STATUS_EMPTY, a, None)
  else if decide (a.(a_recycled_head) ≠ PHYSICAL_PAGE_NONE) then
    let result := a.(a_recycled_head) in
    if decide (a.(a_access) = false) then Done (PHYSICAL_PAGE_STATUS_STATE, a, None)
    else
      was ← address_was_allocated a result;
      if negb was then Done (PHYSICAL_PAGE_STATUS_INVALID, a, None)
      else
        node ← read_recycled_node mem result;
        match node with
        | None => Done (PHYSICAL_PAGE_STATUS_INVALID, a, None)
        | Some next =>
            good ← (if decide (next ≠ PHYSICAL_PAGE_NONE) then address_was_allocated a next else Done true);
            if negb good then Done (PHYSICAL_PAGE_STATUS_INVALID, a, None)
            else Done (PHYSICAL_PAGE_STATUS_OK,
                       set_available (set_recycled a next) (u64 (a.(a_available_pages) - 1)), Some result)
        end
  else
    taken ← take_next (Z.to_nat a.(a_range_count)) a.(a_ranges) 0;
    Done (match taken with
          | None => (PHYSICAL_PAGE_STATUS_INVALID, a, None)
          | Some (ranges, result) =>
              (PHYSICAL_PAGE_STATUS_OK, set_available (set_ranges a ranges) (u64 (a.(a_available_pages) - 1)), Some result)
          end).

(** The walk along the recycled pages: where it stops.  [scanned] grows to the
    number of pages, so that many rounds are enough. *)
Fixpoint chain_scan (fuel : nat) (mem : memory) (a : physical_page_allocator) (address current scanned : Z) : outcome Z :=
  if decide (current ≠ PHYSICAL_PAGE_NONE ∧ scanned < a.(a_total_pages)) then
    match fuel with
    | O => Fault Out_of_fuel
    | S fuel =>
        _ ← trap_if (current = address);
        was ← address_was_allocated a current;
        _ ← trap_if (was = false);
        node ← read_recycled_node mem current;
        match node with
        | None => trap
        | Some next => chain_scan fuel mem a address next (scanned + 1)
        end
    end
  else Done current.

Definition physical_page_release_bootstrap (mem : memory) (a : physical_page_allocator) (address : Z)
    : outcome (physical_page_status * memory * physical_page_allocator) :=
  was ← address_was_allocated a address;
  _ ← trap_if (was = false);
  _ ← trap_if (a.(a_access) = false);
  last ← chain_scan (Z.to_nat a.(a_total_pages)) mem a address a.(a_recycled_head) 0;
  _ ← trap_if (last ≠ PHYSICAL_PAGE_NONE);
  _ ← trap_if (a.(a_total_pages) ≤ a.(a_available_pages));
  written ← write_recycled_node mem address a.(a_recycled_head);
  match written with
  | None => trap
  | Some mem => Done (PHYSICAL_PAGE_STATUS_OK, mem,
                      set_available (set_recycled a address) (u64 (a.(a_available_pages) + 1)))
  end.

(** [physical_page_allocate] and [physical_page_release] choose by the state;
    no reclaimer is bound. *)
Definition physical_page_allocate (mem : memory) (a : physical_page_allocator)
    : outcome (physical_page_status * physical_page_allocator * option Z) :=
  if decide (allocator_initialized a = false) then Done (PHYSICAL_PAGE_STATUS_INVALID, a, None)
  else if physical_page_allocator_is_finalized a then physical_page_allocate_order_once a 0
  else physical_page_allocate_bootstrap mem a.
Definition physical_page_release (mem : memory) (a : physical_page_allocator) (address : Z)
    : outcome (physical_page_status * memory * physical_page_allocator) :=
  _ ← trap_if (allocator_initialized a = false);
  if physical_page_allocator_is_finalized a then
    '(status, a) ← physical_page_release_order a address 0; Done (status, mem, a)
  else physical_page_release_bootstrap mem a address.

End boot.

End PageBoot.
