(* ===== verification/PageFinal.v ===== *)
(** * Building and auditing the buddy system ([kernel/physical_page.c])

    [physical_page_allocator_finalize]: the ranges are cut into root extents,
    the arrays are reserved in the first range that has room, every page is
    marked as held, reserved or free, and each root's tree is built bottom up and
    its free blocks published.  [physical_page_allocator_audit] walks all trees
    and lists and traps on the first thing that is wrong. *)
From S2P Require Import Prelude BootMemory PhysicalPage PageBoot.
#[local] Open Scope Z_scope.

Module PageFinal.
Import BootMemory PhysicalPage PageBoot.

Definition SIZEOF_METADATA : Z := 16.
Definition SIZEOF_ROOT : Z := 32.

(** ** Trees *)

Definition build_leaf (state : Z) : Z :=
  if decide (state = PHYSICAL_PAGE_STATE_CANDIDATE) then BUDDY_FREE
  else if decide (state = PHYSICAL_PAGE_STATE_INTERNAL) then BUDDY_INTERNAL
  else BUDDY_ALLOCATED.
Definition head_state (state : Z) : Z :=
  if decide (state = BUDDY_FREE) then PHYSICAL_PAGE_STATE_FREE_HEAD
  else if decide (state = BUDDY_INTERNAL) then PHYSICAL_PAGE_STATE_INTERNAL
  else PHYSICAL_PAGE_STATE_ALLOCATED_HEAD.

(** The end of [build_tree]: the node's own state and head. *)
Definition build_node (a : physical_page_allocator) (r : physical_page_root) (node page order state : Z)
    : outcome (physical_page_allocator * Z) :=
  a ← tree_set a r node state;
  a ← (if decide (state ≠ BUDDY_SPLIT) then mark_head a page order (head_state state) else Done a);
  Done (a, state).
Fixpoint build_tree (order : nat) (a : physical_page_allocator) (r : physical_page_root) (node page : Z)
    : outcome (physical_page_allocator * Z) :=
  match order with
  | O =>
      m ← load_metadata a page;
      build_node a r node page 0 (build_leaf m.(m_state))
  | S below =>
      '(a, left_) ← build_tree below a r (2 * node + 1) page;
      '(a, right_) ← build_tree below a r (2 * node + 2) (u32 (page + u32 (order_page_count (Z.of_nat below))));
      if decide (left_ = right_ ∧ (left_ = BUDDY_FREE ∨ left_ = BUDDY_INTERNAL)) then
        a ← tree_set a r (2 * node + 1) BUDDY_INACTIVE;
        a ← tree_set a r (2 * node + 2) BUDDY_INACTIVE;
        build_node a r node page (Z.of_nat order) left_
      else build_node a r node page (Z.of_nat order) BUDDY_SPLIT
  end.

(** [None] is the answer 0. *)
Fixpoint publish_free_heads (order : nat) (a : physical_page_allocator) (r : physical_page_root) (node page free_pages : Z)
    : outcome (option (physical_page_allocator * Z)) :=
  state ← tree_get a r node;
  if decide (state = BUDDY_SPLIT) then
    match order with
    | O => Done None
    | S below =>
        first ← publish_free_heads below a r (2 * node + 1) page free_pages;
        match first with
        | None => Done None
        | Some (a, free_pages) =>
            publish_free_heads below a r (2 * node + 2) (u32 (page + u32 (order_page_count (Z.of_nat below)))) free_pages
        end
    end
  else if decide (state = BUDDY_FREE) then
    inserted ← free_insert a page (Z.of_nat order);
    Done (match inserted with
          | None => None
          | Some a => Some (a, u64 (free_pages + order_page_count (Z.of_nat order)))
          end)
  else Done (if decide (BUDDY_FREE ≤ state ≤ BUDDY_INTERNAL) then Some (a, free_pages) else None).

Fixpoint build_all (roots : list physical_page_root) (a : physical_page_allocator) : outcome physical_page_allocator :=
  match roots with
  | [] => Done a
  | r :: roots =>
      '(a, _) ← build_tree (Z.to_nat r.(r_order)) a r 0 r.(r_first_page_index);
      build_all roots a
  end.
Fixpoint publish_all (roots : list physical_page_root) (a : physical_page_allocator) (free_pages : Z)
    : outcome (option (physical_page_allocator * Z)) :=
  match roots with
  | [] => Done (Some (a, free_pages))
  | r :: roots =>
      published ← publish_free_heads (Z.to_nat r.(r_order)) a r 0 r.(r_first_page_index) free_pages;
      match published with
      | None => Done None
      | Some (a, free_pages) => publish_all roots a free_pages
      end
  end.

(** ** Root extents of the ranges *)

(** One range; [address] moves up by at least a page each round. *)
Fixpoint count_range (fuel : nat) (address end_ nodes count : Z) : outcome (Z * Z) :=
  if decide (address < end_) then
    match fuel with
    | O => Fault Out_of_fuel
    | S fuel =>
        let order := largest_fitting_order address (Z.shiftr (end_ - address) BOAROS_PAGE_SHIFT) in
        count_range fuel (u64 (address + Z.shiftl (order_page_count order) BOAROS_PAGE_SHIFT)) end_
          (u64 (nodes + u64 (2 * order_page_count order - 1))) (u64 (count + 1))
    end
  else Done (nodes, count).
Definition range_fuel (range : physical_page_range) : nat := Z.to_nat ((range.(g_end) - range.(g_base)) / BOAROS_PAGE_SIZE).
Fixpoint count_roots (steps : nat) (a : physical_page_allocator) (index : nat) (nodes count : Z) : outcome (Z * Z) :=
  match steps with
  | O => Done (nodes, count)
  | S steps =>
      range ← aread a.(a_ranges) index;
      '(nodes, count) ← count_range (range_fuel range) range.(g_base) range.(g_end) nodes count;
      count_roots steps a (S index) nodes count
  end.

Fixpoint lay_range (fuel : nat) (range : physical_page_range) (index pa : Z) (roots : list physical_page_root)
    (root : nat) (offset : Z) : outcome (list physical_page_root * nat * Z) :=
  if decide (pa < range.(g_end)) then
    match fuel with
    | O => Fault Out_of_fuel
    | S fuel =>
        let order := largest_fitting_order pa (Z.shiftr (range.(g_end) - pa) BOAROS_PAGE_SHIFT) in
        roots ← awrite roots root
          (mk_root pa offset
             (u32 (range.(g_first_page_index) + u32 (Z.shiftr (pa - range.(g_base)) BOAROS_PAGE_SHIFT))) order index 0);
        lay_range fuel range index (u64 (pa + Z.shiftl (order_page_count order) BOAROS_PAGE_SHIFT)) roots (S root)
          (u64 (offset + u64 (2 * order_page_count order - 1)))
    end
  else Done (roots, root, offset).
Fixpoint lay_roots (steps : nat) (a : physical_page_allocator) (index : nat) (roots : list physical_page_root)
    (root : nat) (offset : Z) : outcome (list physical_page_root) :=
  match steps with
  | O => Done roots
  | S steps =>
      range ← aread a.(a_ranges) index;
      '(roots, root, offset) ← lay_range (range_fuel range) range (Z.of_nat index) range.(g_base) roots root offset;
      lay_roots steps a (S index) roots root offset
  end.

(** ** The state of each page *)

Fixpoint mark_all (steps : nat) (a : physical_page_allocator) (index : Z) : outcome physical_page_allocator :=
  match steps with
  | O => Done a
  | S steps => a ← mark_head a index 0 PHYSICAL_PAGE_STATE_ALLOCATED_HEAD; mark_all steps a (index + 1)
  end.
(** The pages from [pa] to [stop], each held by then when [held]; [None] is
    [PHYSICAL_PAGE_STATUS_INVALID]. *)
Fixpoint mark_span (fuel : nat) (a : physical_page_allocator) (held : bool) (state pa stop count : Z)
    : outcome (option (physical_page_allocator * Z)) :=
  if decide (pa < stop) then
    match fuel with
    | O => Fault Out_of_fuel
    | S fuel =>
        found ← page_lookup a pa;
        match found with
        | None => Done None
        | Some index =>
            m ← load_metadata a index;
            if decide (held = true ∧ m.(m_state) ≠ PHYSICAL_PAGE_STATE_ALLOCATED_HEAD) then Done None
            else
              a ← mark_head a index 0 state;
              mark_span fuel a held state (u64 (pa + BOAROS_PAGE_SIZE)) stop (count + 1)
        end
    end
  else Done (Some (a, count)).
Definition span_fuel (pa stop : Z) : nat := Z.to_nat ((stop - pa) / BOAROS_PAGE_SIZE).
Fixpoint mark_virgin (steps : nat) (a : physical_page_allocator) (index : nat) (virgin : Z)
    : outcome (option (physical_page_allocator * Z)) :=
  match steps with
  | O => Done (Some (a, virgin))
  | S steps =>
      range ← aread a.(a_ranges) index;
      marked ← mark_span (span_fuel range.(g_next) range.(g_end)) a true PHYSICAL_PAGE_STATE_CANDIDATE
                 range.(g_next) range.(g_end) virgin;
      match marked with
      | None => Done None
      | Some (a, virgin) => mark_virgin steps a (S index) virgin
      end
  end.

(** The first range with [span] bytes never handed out. *)
Fixpoint select_range (steps : nat) (a : physical_page_allocator) (index : nat) (span : Z) : outcome (option (nat * Z)) :=
  match steps with
  | O => Done None
  | S steps =>
      range ← aread a.(a_ranges) index;
      if decide (range.(g_next) ≤ range.(g_end) ∧ span ≤ range.(g_end) - range.(g_next))
      then Done (Some (index, range.(g_next)))
      else select_range steps a (S index) span
  end.

(** ** The audit *)

Record audit_frame := mk_frame { f_node : Z; f_page : Z; f_order : Z; f_active : bool }.
(** Free pages, blocks per order and reserved pages so far. *)
Record audit_sums := mk_sums { s_free : Z; s_by_order : list Z; s_internal : Z }.

(** The checks of an active node that is not split. *)
Definition audit_leaf (a : physical_page_allocator) (r : physical_page_root) (f : audit_frame) (state : Z) (s : audit_sums)
    : outcome audit_sums :=
  let owner := mk_owner r f.(f_node) f.(f_page) f.(f_order) state in
  valid ← head_valid a owner;
  _ ← trap_if (valid = false);
  let address := owner_address owner in
  let bytes := Z.shiftl (order_page_count f.(f_order)) BOAROS_PAGE_SHIFT in
  let reserved := u64 (Z.shiftl a.(a_metadata_pages) BOAROS_PAGE_SHIFT) in
  if decide (state = BUDDY_FREE) then
    valid ← free_head_valid a owner;
    _ ← trap_if (valid = false);
    n ← aread s.(s_by_order) (Z.to_nat f.(f_order));
    by_order ← awrite s.(s_by_order) (Z.to_nat f.(f_order)) (u64 (n + 1));
    Done (mk_sums (u64 (s.(s_free) + order_page_count f.(f_order))) by_order s.(s_internal))
  else if decide (state = BUDDY_INTERNAL) then
    _ ← trap_if (address < a.(a_metadata_address) ∨ reserved < address - a.(a_metadata_address) ∨
                 reserved - (address - a.(a_metadata_address)) < bytes);
    Done (mk_sums s.(s_free) s.(s_by_order) (u64 (s.(s_internal) + order_page_count f.(f_order))))
  else
    _ ← trap_if (address < u64 (a.(a_metadata_address) + reserved) ∧ a.(a_metadata_address) < u64 (address + bytes));
    Done s.

(** The loop over the stack, its top first; it holds at most
    [PHYSICAL_PAGE_MAX_ORDER + 1] frames.  Each node of the tree is popped
    once. *)
Fixpoint audit_stack (fuel : nat) (a : physical_page_allocator) (r : physical_page_root) (stack : list audit_frame)
    (s : audit_sums) : outcome audit_sums :=
  match stack with
  | [] => Done s
  | f :: stack =>
      match fuel with
      | O => Fault Out_of_fuel
      | S fuel =>
          state ← tree_get a r f.(f_node);
          _ ← trap_if ((f.(f_active) = false ∧ state ≠ BUDDY_INACTIVE) ∨
                       (f.(f_active) = true ∧ (state < BUDDY_FREE ∨ BUDDY_INTERNAL < state)) ∨
                       (state = BUDDY_SPLIT ∧ f.(f_order) = 0));
          s ← (if decide (f.(f_active) = true ∧ state ≠ BUDDY_SPLIT) then audit_leaf a r f state s else Done s);
          if decide (f.(f_order) ≠ 0) then
            _ ← trap_if (Z.of_nat PHYSICAL_PAGE_MAX_ORDER + 1 < Z.of_nat (length stack) + 2);
            let active := f.(f_active) && bool_decide (state = BUDDY_SPLIT) in
            let order := f.(f_order) - 1 in
            audit_stack fuel a r
              (mk_frame (2 * f.(f_node) + 1) f.(f_page) order active ::
               mk_frame (2 * f.(f_node) + 2) (u32 (f.(f_page) + u32 (order_page_count order))) order active :: stack) s
          else audit_stack fuel a r stack s
      end
  end.

(** Where the next root must lie. *)
Record audit_place := mk_place { p_covered : Z; p_nodes : Z; p_range : Z; p_address : Z }.
Fixpoint audit_roots (a : physical_page_allocator) (roots : list physical_page_root) (p : audit_place) (s : audit_sums)
    : outcome (audit_place * audit_sums) :=
  match roots with
  | [] => Done (p, s)
  | r :: roots =>
      valid ← root_valid a r;
      _ ← trap_if (valid = false ∨ r.(r_first_page_index) ≠ p.(p_covered) ∨ r.(r_node_offset) ≠ p.(p_nodes) ∨
                   r.(r_range_index) ≠ p.(p_range) ∨ r.(r_address) ≠ p.(p_address));
      s ← audit_stack (Z.to_nat (2 * order_page_count r.(r_order) - 1)) a r
            [mk_frame 0 r.(r_first_page_index) r.(r_order) true] s;
      let address := u64 (p.(p_address) + Z.shiftl (order_page_count r.(r_order)) BOAROS_PAGE_SHIFT) in
      range ← aread a.(a_ranges) (Z.to_nat p.(p_range));
      '(next, address) ←
        (if decide (address = range.(g_end) ∧ roots ≠ []) then
           _ ← trap_if (a.(a_range_count) ≤ p.(p_range) + 1);
           range ← aread a.(a_ranges) (Z.to_nat (p.(p_range) + 1));
           Done (p.(p_range) + 1, range.(g_base))
         else Done (p.(p_range), address));
      audit_roots a roots
        (mk_place (u64 (p.(p_covered) + order_page_count r.(r_order)))
           (u64 (p.(p_nodes) + (2 * order_page_count r.(r_order) - 1))) next address) s
  end.

(** One free list: [limit] is the number of blocks the trees hold. *)
Fixpoint audit_list (fuel : nat) (a : physical_page_allocator) (order limit page previous visited : Z) : outcome Z :=
  if decide (page ≠ PHYSICAL_PAGE_INDEX_NONE) then
    match fuel with
    | O => Fault Out_of_fuel
    | S fuel =>
        _ ← trap_if (limit < visited + 1);
        plain ← free_head_plain a page order;
        _ ← trap_if (plain = false);
        m ← load_metadata a page;
        _ ← trap_if (m.(m_previous) ≠ previous);
        audit_list fuel a order limit m.(m_next) page (visited + 1)
    end
  else Done visited.
Fixpoint audit_lists (steps : nat) (a : physical_page_allocator) (order : Z) (by_order : list Z) : outcome unit :=
  match steps with
  | O => Done tt
  | S steps =>
      limit ← aread by_order (Z.to_nat order);
      head ← aread a.(a_free_heads) (Z.to_nat order);
      visited ← audit_list (S (Z.to_nat limit)) a order limit head PHYSICAL_PAGE_INDEX_NONE 0;
      _ ← trap_if (visited ≠ limit);
      audit_lists steps a (order + 1) by_order
  end.

Definition physical_page_allocator_audit (a : physical_page_allocator) : outcome physical_page_status :=
  if decide (allocator_initialized a = false) then Done PHYSICAL_PAGE_STATUS_INVALID
  else if decide (physical_page_allocator_is_finalized a = false) then Done PHYSICAL_PAGE_STATUS_STATE
  else
    _ ← trap_if (a.(a_roots) = [] ∨ a.(a_tree) = [] ∨ a.(a_metadata) = [] ∨ a.(a_root_count) = 0);
    range ← aread a.(a_ranges) 0;
    '(p, s) ← audit_roots a a.(a_roots) (mk_place 0 0 0 range.(g_base))
                (mk_sums 0 (replicate (S PHYSICAL_PAGE_MAX_ORDER) 0) 0);
    range ← aread a.(a_ranges) (Z.to_nat p.(p_range));
    _ ← trap_if (p.(p_covered) ≠ a.(a_total_pages) ∨ p.(p_nodes) ≠ a.(a_tree_nodes) ∨
                 s.(s_free) ≠ a.(a_available_pages) ∨ s.(s_internal) ≠ a.(a_metadata_pages) ∨
                 p.(p_range) + 1 ≠ a.(a_range_count) ∨ p.(p_address) ≠ range.(g_end));
    _ ← audit_lists (S PHYSICAL_PAGE_MAX_ORDER) a 0 s.(s_by_order);
    Done PHYSICAL_PAGE_STATUS_OK.

(** ** [physical_page_allocator_finalize] *)

(** The bytes of the three arrays: page metadata, roots, packed states. *)
Definition tree_bytes (nodes : Z) : Z := (nodes * 3 + 7) / 8.
(** The reserved pages, or the status that ends the call. *)
Definition reserve_size (a : physical_page_allocator) (nodes root_count : Z) : physical_page_status + Z :=
  if decide (UINT32_MAX < root_count ∨ (UINT64_MAX - 7) / 3 < nodes ∨ UINT64_MAX / SIZEOF_ROOT < root_count ∨
             UINT64_MAX / SIZEOF_METADATA < a.(a_total_pages))
  then inl PHYSICAL_PAGE_STATUS_INVALID
  else
    let payload := a.(a_total_pages) * SIZEOF_METADATA in
    let roots := root_count * SIZEOF_ROOT in
    let tree := tree_bytes nodes in
    if decide (UINT64_MAX - payload < roots ∨ UINT64_MAX - payload - roots < tree ∨
               UINT64_MAX - BOAROS_PAGE_MASK < payload + roots + tree)
    then inl PHYSICAL_PAGE_STATUS_INVALID
    else
      let metadata_pages := Z.shiftr (payload + roots + tree + BOAROS_PAGE_MASK) BOAROS_PAGE_SHIFT in
      if decide (metadata_pages = 0 ∨ a.(a_available_pages) < metadata_pages ∨
                 Z.shiftr UINT64_MAX BOAROS_PAGE_SHIFT < metadata_pages)
      then inl PHYSICAL_PAGE_STATUS_EMPTY
      else inr metadata_pages.

Definition set_arrays (a : physical_page_allocator) (address pages : Z) (metadata : list physical_page_metadata)
    (roots : list physical_page_root) (tree : list Z) (nodes count : Z) (ranges : list physical_page_range)
    : physical_page_allocator :=
  mk_allocator a.(a_total_pages) a.(a_available_pages) a.(a_recycled_head) address pages
    a.(a_range_count) a.(a_initialized) a.(a_finalized) a.(a_access) metadata roots tree nodes count
    (replicate (S PHYSICAL_PAGE_MAX_ORDER) PHYSICAL_PAGE_INDEX_NONE) ranges.
Definition set_finalized (a : physical_page_allocator) (free_pages : Z) : physical_page_allocator :=
  mk_allocator a.(a_total_pages) free_pages PHYSICAL_PAGE_NONE a.(a_metadata_address) a.(a_metadata_pages)
    a.(a_range_count) a.(a_initialized) PHYSICAL_PAGE_ALLOCATOR_FINALIZED a.(a_access) a.(a_metadata) a.(a_roots)
    a.(a_tree) a.(a_tree_nodes) a.(a_root_count) a.(a_free_heads) a.(a_ranges).

Section finalize.
Context (access : Z → Z).

(** The recycled pages become candidates; [allocator] is the state before. *)
Fixpoint mark_recycled (fuel : nat) (mem : memory) (allocator result : physical_page_allocator) (recycled current : Z)
    : outcome (option (physical_page_allocator * Z)) :=
  if decide (current ≠ PHYSICAL_PAGE_NONE) then
    match fuel with
    | O => Fault Out_of_fuel
    | S fuel =>
        if decide (allocator.(a_total_pages) ≤ recycled) then Done None
        else
          was ← address_was_allocated allocator current;
          if negb was then Done None
          else
            found ← page_lookup result current;
            match found with
            | None => Done None
            | Some index =>
                m ← load_metadata result index;
                if decide (m.(m_state) ≠ PHYSICAL_PAGE_STATE_ALLOCATED_HEAD) then Done None
                else
                  node ← read_recycled_node access mem current;
                  match node with
                  | None => Done None
                  | Some next =>
                      good ← (if decide (next ≠ PHYSICAL_PAGE_NONE) then address_was_allocated allocator next
                              else Done true);
                      if negb good then Done None
                      else
                        result ← mark_head result index 0 PHYSICAL_PAGE_STATE_CANDIDATE;
                        mark_recycled fuel mem allocator result (recycled + 1) next
                  end
            end
    end
  else Done (Some (result, recycled)).

(** Marking the pages: the reserved ones, then the free ones. *)
Definition mark_pages (mem : memory) (allocator result : physical_page_allocator) (address span metadata_pages : Z)
    : outcome (option physical_page_allocator) :=
  result ← mark_all (Z.to_nat result.(a_total_pages)) result 0;
  reserved ← mark_span (span_fuel address (address + span)) result false PHYSICAL_PAGE_STATE_INTERNAL
               address (u64 (address + span)) 0;
  match reserved with
  | None => Done None
  | Some (result, _) =>
      chained ← mark_recycled (S (Z.to_nat allocator.(a_total_pages))) mem allocator result 0 allocator.(a_recycled_head);
      match chained with
      | None => Done None
      | Some (result, recycled) =>
          rest ← mark_virgin (Z.to_nat result.(a_range_count)) result 0 0;
          Done (match rest with
                | None => None
                | Some (result, virgin) =>
                    if decide (u64 (recycled + virgin) ≠ allocator.(a_available_pages) - metadata_pages) then None
                    else Some result
                end)
      end
  end.

(** From the marked pages to the published structure. *)
Definition build_and_publish (allocator result : physical_page_allocator) (metadata_pages : Z)
    : outcome (physical_page_status * physical_page_allocator) :=
  roots ← lay_roots (Z.to_nat result.(a_range_count)) result 0 result.(a_roots) 0 0;
  result ← build_all roots (set_roots result roots);
  published ← publish_all roots result 0;
  match published with
  | None => Done (PHYSICAL_PAGE_STATUS_INVALID, allocator)
  | Some (result, free_pages) =>
      if decide (free_pages ≠ allocator.(a_available_pages) - metadata_pages)
      then Done (PHYSICAL_PAGE_STATUS_INVALID, allocator)
      else
        let result := set_finalized result free_pages in
        _ ← physical_page_allocator_audit result;
        Done (PHYSICAL_PAGE_STATUS_OK, result)
  end.

(** [junk] and [junk_root] are what the reserved memory held before. *)
Definition physical_page_allocator_finalize (junk : physical_page_metadata) (junk_root : physical_page_root) (mem : memory)
    (allocator : physical_page_allocator) : outcome (physical_page_status * physical_page_allocator) :=
  if decide (allocator_initialized allocator = false) then Done (PHYSICAL_PAGE_STATUS_INVALID, allocator)
  else if decide (physical_page_allocator_is_finalized allocator = true ∨ allocator.(a_access) = false)
  then Done (PHYSICAL_PAGE_STATUS_STATE, allocator)
  else if decide (UINT32_MAX < allocator.(a_total_pages)) then Done (PHYSICAL_PAGE_STATUS_INVALID, allocator)
  else
    '(nodes, root_count) ← count_roots (Z.to_nat allocator.(a_range_count)) allocator 0 0 0;
    match reserve_size allocator nodes root_count with
    | inl status => Done (status, allocator)
    | inr metadata_pages =>
        let span := Z.shiftl metadata_pages BOAROS_PAGE_SHIFT in
        selected ← select_range (Z.to_nat allocator.(a_range_count)) allocator 0 span;
        match selected with
        | None => Done (PHYSICAL_PAGE_STATUS_EMPTY, allocator)
        | Some (index, address) =>
            let first := access address in
            let last := access (u64 (address + span - BOAROS_PAGE_SIZE)) in
            if decide (first = 0 ∨ last = 0 ∨ UINT64_MAX - (span - BOAROS_PAGE_SIZE) < first ∨
                       last ≠ first + span - BOAROS_PAGE_SIZE)
            then Done (PHYSICAL_PAGE_STATUS_INVALID, allocator)
            else
              range ← aread allocator.(a_ranges) index;
              ranges ← awrite allocator.(a_ranges) index
                (mk_page_range range.(g_base) (u64 (range.(g_next) + span)) range.(g_end) range.(g_first_page_index));
              marked ← mark_pages mem allocator
                (set_arrays allocator address metadata_pages
                   (replicate (Z.to_nat allocator.(a_total_pages)) junk) (replicate (Z.to_nat root_count) junk_root)
                   (replicate (Z.to_nat (tree_bytes nodes)) 0) nodes (u32 root_count) ranges)
                address span metadata_pages;
              match marked with
              | None => Done (PHYSICAL_PAGE_STATUS_INVALID, allocator)
              | Some result => build_and_publish allocator result metadata_pages
              end
        end
    end.

End finalize.

End PageFinal.
