(* ===== verification/PageSpec.v ===== *)
(** * What the page allocator promises

    The abstract pool: the free pages, and the held blocks with their order and
    the number of owners.  [spec_of] computes it from an allocator by asking for
    the owner of each page; [page_step] says what each operation may do to it. *)
From S2P Require Import Prelude BootMemory PhysicalPage.
#[local] Open Scope Z_scope.

Module PageSpec.
Import PhysicalPage.

(** The addresses of the pages of a block. *)
Definition pages_of (address order : Z) : gset Z :=
  list_to_set (map (λ i, address + i * BOAROS_PAGE_SIZE) (seqZ 0 (2 ^ order))).

(** An extent is an address and an order; [fits] are the naturally aligned
    blocks inside one. *)
Definition fits (extents : list (Z * Z)) (address order : Z) : Prop :=
  ∃ base top k, (base, top) ∈ extents ∧ 0 ≤ order ≤ top ∧ 0 ≤ k < 2 ^ (top - order) ∧
    address = base + k * (2 ^ order * BOAROS_PAGE_SIZE).

Record page_spec := mk_spec { sp_free : gset Z; sp_blocks : gmap Z (Z * Z) }.

Inductive page_op :=
  | Op_allocate (order : Z)
  | Op_release (address order : Z)
  | Op_acquire (address : Z)
  | Op_order (address : Z)
  | Op_count (address : Z).
Definition page_answer : Type := physical_page_status * option Z.

Inductive page_step (extents : list (Z * Z)) (s : page_spec) : page_op → page_answer → page_spec → Prop :=
  | step_allocated order address :
      fits extents address order → pages_of address order ⊆ s.(sp_free) →
      page_step extents s (Op_allocate order) (PHYSICAL_PAGE_STATUS_OK, Some address)
        (mk_spec (s.(sp_free) ∖ pages_of address order) (<[address := (order, 1)]> s.(sp_blocks)))
  | step_empty order :
      (∀ address, fits extents address order → ¬ pages_of address order ⊆ s.(sp_free)) →
      page_step extents s (Op_allocate order) (PHYSICAL_PAGE_STATUS_EMPTY, None) s
  | step_released_shared address order n :
      s.(sp_blocks) !! address = Some (order, n) → 1 < n →
      page_step extents s (Op_release address order) (PHYSICAL_PAGE_STATUS_OK, None)
        (mk_spec s.(sp_free) (<[address := (order, n - 1)]> s.(sp_blocks)))
  | step_released address order :
      s.(sp_blocks) !! address = Some (order, 1) →
      page_step extents s (Op_release address order) (PHYSICAL_PAGE_STATUS_OK, None)
        (mk_spec (s.(sp_free) ∪ pages_of address order) (delete address s.(sp_blocks)))
  | step_acquired address n :
      s.(sp_blocks) !! address = Some (0, n) → n < UINT32_MAX →
      page_step extents s (Op_acquire address) (PHYSICAL_PAGE_STATUS_OK, None)
        (mk_spec s.(sp_free) (<[address := (0, n + 1)]> s.(sp_blocks)))
  | step_order address order n :
      s.(sp_blocks) !! address = Some (order, n) →
      page_step extents s (Op_order address) (PHYSICAL_PAGE_STATUS_OK, Some order) s
  | step_order_free address :
      address ∈ s.(sp_free) → page_step extents s (Op_order address) (PHYSICAL_PAGE_STATUS_DOUBLE_FREE, None) s
  | step_order_other address :
      s.(sp_blocks) !! address = None → address ∉ s.(sp_free) →
      page_step extents s (Op_order address) (PHYSICAL_PAGE_STATUS_INVALID, None) s
  | step_count address order n :
      s.(sp_blocks) !! address = Some (order, n) →
      page_step extents s (Op_count address) (PHYSICAL_PAGE_STATUS_OK, Some n) s.

(** What a caller may ask for; anything else ends in a trap. *)
Definition allowed (s : page_spec) (op : page_op) : Prop :=
  match op with
  | Op_allocate _ | Op_order _ => True
  | Op_release address order => ∃ n, s.(sp_blocks) !! address = Some (order, n)
  | Op_acquire address => ∃ n, s.(sp_blocks) !! address = Some (0, n) ∧ n < UINT32_MAX
  | Op_count address => is_Some (s.(sp_blocks) !! address)
  end.
(** Arguments of their C types, orders in range. *)
Definition op_typed (op : page_op) : Prop :=
  match op with
  | Op_allocate order => 0 ≤ order ≤ 31
  | Op_release address order => is_u64 address ∧ 0 ≤ order ≤ 31
  | Op_acquire address | Op_order address | Op_count address => is_u64 address
  end.

(** ** The abstraction *)

Definition page_owner_at (a : physical_page_allocator) (page : Z) : option buddy_owner :=
  match owner_find a page with Done found => found | Fault _ => None end.
Definition free_at (a : physical_page_allocator) (page : Z) : option Z :=
  match page_owner_at a page with
  | Some owner => if decide (owner.(o_state) = BUDDY_FREE)
                  then Some (owner_address owner + (page - owner.(o_first)) * BOAROS_PAGE_SIZE) else None
  | None => None
  end.
Definition block_at (a : physical_page_allocator) (page : Z) : option (Z * (Z * Z)) :=
  match page_owner_at a page, a.(a_metadata) !! Z.to_nat page with
  | Some owner, Some m =>
      if decide (owner.(o_state) = BUDDY_ALLOCATED ∧ owner.(o_first) = page)
      then Some (owner_address owner, (owner.(o_order), m.(m_reference_count))) else None
  | _, _ => None
  end.
Definition spec_of (a : physical_page_allocator) : page_spec :=
  mk_spec (list_to_set (omap (free_at a) (seqZ 0 a.(a_total_pages))))
          (list_to_map (omap (block_at a) (seqZ 0 a.(a_total_pages)))).
Definition extents_of (a : physical_page_allocator) : list (Z * Z) :=
  map (λ r, (r.(r_address), r.(r_order))) a.(a_roots).

(** Running an operation. *)
Definition exec (a : physical_page_allocator) (op : page_op) : outcome (page_answer * physical_page_allocator) :=
  match op with
  | Op_allocate order => '(status, a, address) ← physical_page_allocate_order_once a order; Done ((status, address), a)
  | Op_release address order => '(status, a) ← physical_page_release_order a address order; Done ((status, None), a)
  | Op_acquire address => '(status, a) ← physical_page_acquire a address; Done ((status, None), a)
  | Op_order address => '(status, order) ← physical_page_allocation_order a address; Done ((status, order), a)
  | Op_count address => '(status, n) ← physical_page_reference_count a address; Done ((status, Some n), a)
  end.
Fixpoint exec_all (a : physical_page_allocator) (ops : list page_op) : outcome (list page_answer * physical_page_allocator) :=
  match ops with
  | [] => Done ([], a)
  | op :: ops =>
      '(answer, a) ← exec a op;
      '(answers, a) ← exec_all a ops;
      Done (answer :: answers, a)
  end.

End PageSpec.
