(* ===== verification/PageStateTheory.v ===== *)
(** * The packed trees, the geometry and the abstract state of the buddy system *)
From S2P Require Import Prelude Bytes BootMemory PhysicalPage.
Import PhysicalPage.
#[local] Open Scope Z_scope.
#[local] Ltac Zify.zify_post_hook ::= Z.to_euclidean_division_equations.

Definition tree_bit (tree : list Z) (i : Z) : bool :=
  Z.testbit (default 0 (tree !! Z.to_nat (i / 8))) (i mod 8).
(** The state at a global node index. *)
Definition state_at (tree : list Z) (g : Z) : Z :=
  Z.b2z (tree_bit tree (3 * g)) + 2 * Z.b2z (tree_bit tree (3 * g + 1)) + 4 * Z.b2z (tree_bit tree (3 * g + 2)).

Record packed (tree : list Z) (nodes : Z) : Prop := {
  packed_bytes : Forall byte_ok tree;
  packed_length : Z.of_nat (length tree) = (nodes * 3 + 7) / 8;
  packed_bound : 0 ≤ nodes ∧ nodes * 3 + 7 ≤ UINT64_MAX;
}.

Lemma byte_bit_high b k : byte_ok b → 8 ≤ k → Z.testbit b k = false.
Proof.
  intros Hb Hk. apply Z.testbit_false; [lia|]. rewrite Z.div_small; [done|]. unfold byte_ok in Hb.
  split; [lia|]. apply (Z.lt_le_trans _ (2 ^ 8)); [lia|]. apply Z.pow_le_mono_r; lia.
Qed.
Lemma three_bits v :
  Z.land v 7 = Z.b2z (Z.testbit v 0) + 2 * Z.b2z (Z.testbit v 1) + 4 * Z.b2z (Z.testbit v 2).
Proof.
  change 7 with (Z.ones 3). rewrite Z.land_ones by lia.
  rewrite !Z.testbit_spec' by lia. change (2 ^ 0) with 1. change (2 ^ 1) with 2. change (2 ^ 2) with 4.
  change (2 ^ 3) with 8. rewrite Z.div_1_r. lia.
Qed.
Lemma three_bits_small s : 0 ≤ s < 8 →
  s = Z.b2z (Z.testbit s 0) + 2 * Z.b2z (Z.testbit s 1) + 4 * Z.b2z (Z.testbit s 2).
Proof. intros Hs. rewrite <-three_bits. change 7 with (Z.ones 3). rewrite Z.land_ones, Z.mod_small; lia. Qed.
Lemma state_at_bounds tree g : 0 ≤ state_at tree g < 8.
Proof. unfold state_at. repeat destruct (tree_bit _ _); simpl; lia. Qed.

(** The one or two bytes that hold the node at bit [3 * g]. *)
Definition window (tree : list Z) (g : Z) : Z :=
  let byte := Z.to_nat (3 * g / 8) in
  let low := default 0 (tree !! byte) in
  if decide (5 < 3 * g mod 8) then Z.lor low (Z.shiftl (default 0 (tree !! S byte)) 8) else low.

Section packed_tree.
Context (tree : list Z) (nodes g : Z).
Hypothesis Hp : packed tree nodes.
Hypothesis Hg : 0 ≤ g < nodes.

Lemma byte_default i : byte_ok (default 0 (tree !! i)).
Proof.
  destruct (tree !! i) as [b|] eqn:E; [|done]. simpl.
  destruct Hp as [Hb _ _]. rewrite Forall_lookup in Hb. by apply (Hb i).
Qed.
Lemma window_low : tree !! Z.to_nat (3 * g / 8) = Some (default 0 (tree !! Z.to_nat (3 * g / 8))).
Proof.
  destruct Hp as [_ Hl _]. destruct (lookup_lt_is_Some_2 tree (Z.to_nat (3 * g / 8))) as [b Hb]; [lia|].
  by rewrite Hb.
Qed.
Lemma window_high : 5 < 3 * g mod 8 →
  tree !! S (Z.to_nat (3 * g / 8)) = Some (default 0 (tree !! S (Z.to_nat (3 * g / 8)))).
Proof.
  intros H5. destruct Hp as [_ Hl _].
  destruct (lookup_lt_is_Some_2 tree (S (Z.to_nat (3 * g / 8)))) as [b Hb]; [lia|]. by rewrite Hb.
Qed.
Lemma window_bit k : 0 ≤ k < (if decide (5 < 3 * g mod 8) then 16 else 8) →
  Z.testbit (window tree g) k = tree_bit tree (8 * (3 * g / 8) + k).
Proof.
  intros Hk. unfold window, tree_bit. set (q := 3 * g / 8) in *.
  assert (Hq : 0 ≤ q) by (unfold q; lia).
  destruct (decide (k < 8)) as [Hk8|Hk8].
  - replace ((8 * q + k) / 8) with q by lia. replace ((8 * q + k) mod 8) with k by lia.
    destruct (decide _); [|done].
    rewrite Z.lor_spec, Z.shiftl_spec_low by lia. apply orb_false_r.
  - destruct (decide _) as [H5|]; [|lia].
    replace ((8 * q + k) / 8) with (q + 1) by lia. replace ((8 * q + k) mod 8) with (k - 8) by lia.
    rewrite Z.lor_spec, Z.shiftl_spec by lia. rewrite byte_bit_high by (try apply byte_default; lia).
    by replace (Z.to_nat (q + 1)) with (S (Z.to_nat q)) by lia.
Qed.
Lemma window_state : Z.land (Z.shiftr (window tree g) (3 * g mod 8)) 7 = state_at tree g.
Proof.
  rewrite three_bits, !Z.shiftr_spec by lia.
  rewrite !window_bit by (destruct (decide _); lia). unfold state_at.
  assert (E : ∀ j, 8 * (3 * g / 8) + (j + 3 * g mod 8) = 3 * g + j) by lia.
  by rewrite !E, Z.add_0_r.
Qed.
End packed_tree.

(** ** Reading and writing nodes *)
Lemma tree_read_state a r node nodes :
  packed a.(a_tree) nodes → 0 ≤ r.(r_node_offset) + node < nodes →
  tree_read a r node = Done (state_at a.(a_tree) (r.(r_node_offset) + node)).
Proof.
  intros Hp Hg. set (g := r.(r_node_offset) + node) in *. unfold tree_read. fold g.
  destruct (packed_bound _ _ Hp).
  rewrite (Z.mul_comm g 3), (u64_small (3 * g)) by mlia.
  rewrite (aread_ok _ _ _ (window_low _ _ _ Hp Hg)). run.
  rewrite <-(window_state _ _ _ Hp Hg). unfold window. destruct (decide _) as [H5|]; [|done].
  by rewrite (aread_ok _ _ _ (window_high _ _ _ Hp Hg H5)).
Qed.

(** The new bytes of a write. *)
Definition window_set (tree : list Z) (g state : Z) : Z :=
  Z.lor (Z.land (window tree g) (Z.lnot (Z.shiftl 7 (3 * g mod 8)))) (Z.shiftl state (3 * g mod 8)).
Definition written (tree : list Z) (g state : Z) : list Z :=
  let byte := Z.to_nat (3 * g / 8) in
  let tree' := <[byte := window_set tree g state mod 256]> tree in
  if decide (5 < 3 * g mod 8) then <[S byte := Z.shiftr (window_set tree g state) 8 mod 256]> tree' else tree'.

Lemma tree_set_written a r node state nodes :
  packed a.(a_tree) nodes → a.(a_tree_nodes) = nodes → 0 ≤ r.(r_node_offset) → 0 ≤ node < 2 * order_page_count r.(r_order) - 1 →
  r.(r_node_offset) + node < nodes → state ≤ BUDDY_INTERNAL →
  tree_set a r node state = Done (set_tree a (written a.(a_tree) (r.(r_node_offset) + node) state)).
Proof.
  intros Hp Hn H0 Hnode Hg Hs. set (g := r.(r_node_offset) + node) in *. unfold tree_set. fold g.
  destruct (packed_bound _ _ Hp). assert (Hg' : 0 ≤ g < nodes) by lia.
  rewrite (u64_small g) by mlia. rewrite trap_if_ok by lia. run.
  rewrite (Z.mul_comm g 3), (u64_small (3 * g)) by mlia.
  pose proof (window_low _ _ _ Hp Hg') as Hlow.
  rewrite (aread_ok _ _ _ Hlow). run. unfold written, window_set, window.
  destruct (decide _) as [H5|].
  - pose proof (window_high _ _ _ Hp Hg' H5) as Hhigh.
    rewrite (aread_ok _ _ _ Hhigh). run.
    rewrite awrite_ok by (by eapply lookup_lt_Some). run.
    rewrite awrite_ok by (rewrite length_insert; by eapply lookup_lt_Some). done.
  - run. rewrite awrite_ok by (by eapply lookup_lt_Some). done.
Qed.

Lemma testbit_mod256 v k : 0 ≤ k < 8 → Z.testbit (v mod 256) k = Z.testbit v k.
Proof. intros Hk. change 256 with (2 ^ 8). apply Z.mod_pow2_bits_low. lia. Qed.
Lemma window_set_bit tree g state k :
  0 ≤ state < 8 → 0 ≤ k →
  Z.testbit (window_set tree g state) k =
    if decide (3 * g mod 8 ≤ k < 3 * g mod 8 + 3) then Z.testbit state (k - 3 * g mod 8)
    else Z.testbit (window tree g) k.
Proof.
  intros Hs Hk. unfold window_set. set (s := 3 * g mod 8). assert (0 ≤ s < 8) by (unfold s; lia).
  rewrite Z.lor_spec, Z.land_spec, Z.lnot_spec, !Z.shiftl_spec by lia.
  change 7 with (Z.ones 3). rewrite Z.testbit_ones by lia.
  destruct (decide _) as [Hin|Hout].
  - replace (0 <=? k - s) with true by (symmetry; apply Z.leb_le; lia).
    replace (k - s <? 3) with true by (symmetry; apply Z.ltb_lt; lia). by rewrite andb_false_r.
  - assert (Z.testbit state (k - s) = false) as ->.
    { destruct (decide (k < s)); [by apply Z.testbit_neg_r; lia|]. apply Z.testbit_false; [lia|].
      rewrite Z.div_small; [done|]. split; [lia|]. apply (Z.lt_le_trans _ (2 ^ 3)); [lia|]. apply Z.pow_le_mono_r; lia. }
    assert ((0 <=? k - s) && (k - s <? 3) = false) as ->.
    { apply andb_false_iff. rewrite Z.leb_gt, Z.ltb_ge. lia. }
    by rewrite andb_true_r, orb_false_r.
Qed.
Lemma written_bit tree nodes g state i :
  packed tree nodes → 0 ≤ g < nodes → 0 ≤ state < 8 → 0 ≤ i →
  tree_bit (written tree g state) i =
    if decide (3 * g ≤ i < 3 * g + 3) then Z.testbit state (i - 3 * g) else tree_bit tree i.
Proof.
  intros Hp Hg Hs Hi. set (q := 3 * g / 8). set (s := 3 * g mod 8).
  assert (Hqs : 3 * g = 8 * q + s ∧ 0 ≤ s < 8 ∧ 0 ≤ q) by (unfold q, s; lia).
  pose proof (window_low _ _ _ Hp Hg) as Hlow%lookup_lt_Some. fold q in Hlow.
  assert (Hwin : ∀ k, 0 ≤ k < (if decide (5 < s) then 16 else 8) →
    Z.testbit (window_set tree g state) k =
      if decide (3 * g ≤ 8 * q + k < 3 * g + 3) then Z.testbit state (8 * q + k - 3 * g) else tree_bit tree (8 * q + k)).
  { intros k Hk. rewrite window_set_bit by lia. fold s.
    destruct (decide (s ≤ k < s + 3)), (decide (3 * g ≤ 8 * q + k < 3 * g + 3)); try lia; [f_equal; lia|].
    by rewrite (window_bit _ _ _ Hp). }
  unfold written. fold q s. unfold tree_bit at 1.
  destruct (decide (i / 8 = q)) as [Hiq|Hiq]; [|destruct (decide (5 < s ∧ i / 8 = q + 1)) as [[H5 Hiq1]|Hno]].
  - assert (default 0 ((if decide (5 < s) then _ else _) !! Z.to_nat (i / 8)) = window_set tree g state mod 256) as ->.
    { rewrite Hiq. destruct (decide (5 < s)); [rewrite list_lookup_insert_ne by lia|];
        by rewrite list_lookup_insert_eq. }
    rewrite testbit_mod256, Hwin by (destruct (decide _); lia).
    by replace (8 * q + i mod 8) with i by lia.
  - pose proof (window_high _ _ _ Hp Hg H5) as Hhigh%lookup_lt_Some. fold q in Hhigh.
    assert (default 0 ((if decide (5 < s) then _ else _) !! Z.to_nat (i / 8)) =
      Z.shiftr (window_set tree g state) 8 mod 256) as ->.
    { rewrite decide_True by done. replace (Z.to_nat (i / 8)) with (S (Z.to_nat q)) by lia.
      by rewrite list_lookup_insert_eq by (by rewrite length_insert). }
    rewrite testbit_mod256, Z.shiftr_spec, Hwin by (try destruct (decide _); lia).
    by replace (8 * q + (i mod 8 + 8)) with i by lia.
  - rewrite (decide_False (P := 3 * g ≤ i < 3 * g + 3)) by lia. unfold tree_bit. do 2 f_equal.
    destruct (decide (5 < s)); [rewrite list_lookup_insert_ne by lia|]; by rewrite list_lookup_insert_ne by lia.
Qed.

Lemma written_state tree nodes g state g' :
  packed tree nodes → 0 ≤ g < nodes → 0 ≤ state < 8 → 0 ≤ g' →
  state_at (written tree g state) g' = if decide (g' = g) then state else state_at tree g'.
Proof.
  intros Hp Hg Hs Hg'. unfold state_at. rewrite !(written_bit _ _ _ _ _ Hp Hg Hs) by lia.
  destruct (decide (g' = g)) as [->|Hne].
  - rewrite !decide_True by lia. symmetry.
    replace (3 * g - 3 * g) with 0 by lia. replace (3 * g + 1 - 3 * g) with 1 by lia.
    replace (3 * g + 2 - 3 * g) with 2 by lia. by apply three_bits_small.
  - by rewrite !decide_False by lia.
Qed.
Lemma written_packed tree nodes g state :
  packed tree nodes → packed (written tree g state) nodes.
Proof.
  intros [Hb Hl Hn]. split; [| |done].
  - assert (∀ z, byte_ok (z mod 256)) by (intros; unfold byte_ok; lia).
    unfold written. destruct (decide _); repeat apply Forall_insert; auto.
  - unfold written. by destruct (decide _); rewrite !length_insert.
Qed.

(** ** Blocks, nodes and roots of the page allocator

    A block is a naturally aligned run of [2 ^ o] pages of a root; node numbers
    count the blocks of a root breadth first.  The roots lie one after the other
    in page indices, in tree nodes and in addresses, so that the binary searches
    find the root of a page or of an address. *)
Import PhysicalPage.
#[local] Ltac Zify.zify_post_hook ::= Z.to_euclidean_division_equations.

Notation first_page := r_first_page_index.

Lemma order_page_count_pow o : 0 ≤ o → order_page_count o = 2 ^ o.
Proof. intros. unfold order_page_count. by rewrite Z.shiftl_1_l. Qed.
Lemma pow_split o R : 0 ≤ o ≤ R → 2 ^ R = 2 ^ (R - o) * 2 ^ o.
Proof. intros. rewrite <-Z.pow_add_r by lia. f_equal. lia. Qed.
Lemma pow_succ o : 0 ≤ o → 2 ^ (o + 1) = 2 * 2 ^ o.
Proof. intros. rewrite Z.pow_add_r by lia. lia. Qed.
Lemma pow_pos o : 0 ≤ o → 0 < 2 ^ o.
Proof. intros. apply Z.pow_pos_nonneg; lia. Qed.
Lemma pow_order o : 0 ≤ o ≤ 31 → 1 ≤ 2 ^ o ≤ 2147483648.
Proof.
  intros Ho. change 1 with (2 ^ 0) at 1. change 2147483648 with (2 ^ 31).
  split; apply Z.pow_le_mono_r; lia.
Qed.

(** ** Blocks of a root *)
Definition block (r : physical_page_root) (p o : Z) : Prop :=
  0 ≤ o ≤ r.(r_order) ∧ ∃ k, 0 ≤ k < 2 ^ (r.(r_order) - o) ∧ p = r.(first_page) + k * 2 ^ o.
Definition node (r : physical_page_root) (p o : Z) : Z :=
  2 ^ (r.(r_order) - o) - 1 + (p - r.(first_page)) / 2 ^ o.

Lemma node_index r o k : 0 ≤ o → node r (r.(first_page) + k * 2 ^ o) o = 2 ^ (r.(r_order) - o) - 1 + k.
Proof.
  intros Ho. unfold node. replace (r.(first_page) + k * 2 ^ o - r.(first_page)) with (k * 2 ^ o) by lia.
  rewrite Z.div_mul; [done|]. pose proof (pow_pos o Ho). lia.
Qed.
Lemma block_top r : 0 ≤ r.(r_order) → block r r.(first_page) r.(r_order).
Proof.
  intros. split; [lia|]. exists 0. rewrite Z.sub_diag. split; [|lia]. change (2 ^ 0) with 1. lia.
Qed.
Lemma node_top r : node r r.(first_page) r.(r_order) = 0.
Proof. unfold node. by rewrite !Z.sub_diag. Qed.
Lemma block_children r p o : 0 ≤ o → block r p (o + 1) → block r p o ∧ block r (p + 2 ^ o) o.
Proof.
  intros Ho [Ho' (k & Hk & ->)]. rewrite pow_succ by done.
  assert (E : 2 ^ (r.(r_order) - o) = 2 * 2 ^ (r.(r_order) - (o + 1))) by (rewrite <-pow_succ by lia; f_equal; lia).
  split; (split; [lia|]); [exists (2 * k)|exists (2 * k + 1)]; rewrite E; (split; [lia|ring]).
Qed.
Lemma node_children r p o :
  0 ≤ o → block r p (o + 1) →
  node r p o = 2 * node r p (o + 1) + 1 ∧ node r (p + 2 ^ o) o = 2 * node r p (o + 1) + 2.
Proof.
  intros Ho [Ho' (k & Hk & ->)]. rewrite (node_index r (o + 1)) by lia. rewrite pow_succ by done.
  assert (E : 2 ^ (r.(r_order) - o) = 2 * 2 ^ (r.(r_order) - (o + 1))) by (rewrite <-pow_succ by lia; f_equal; lia).
  replace (r.(first_page) + k * (2 * 2 ^ o)) with (r.(first_page) + (2 * k) * 2 ^ o) by ring.
  replace (r.(first_page) + (2 * k) * 2 ^ o + 2 ^ o) with (r.(first_page) + (2 * k + 1) * 2 ^ o) by ring.
  rewrite !node_index, E by done. lia.
Qed.
(** A block below the top is a half of a block. *)
Lemma block_parent r p o :
  block r p o → o < r.(r_order) → ∃ q, block r q (o + 1) ∧ (p = q ∨ p = q + 2 ^ o).
Proof.
  intros [Ho (k & Hk & ->)] Hlt. exists (r.(first_page) + (k / 2) * 2 ^ (o + 1)).
  assert (E : 2 ^ (r.(r_order) - o) = 2 * 2 ^ (r.(r_order) - (o + 1))) by (rewrite <-pow_succ by lia; f_equal; lia).
  split; [split; [lia|]; exists (k / 2); split; [|done]; split; [apply Z.div_pos; lia|apply Z.div_lt_upper_bound; lia]|].
  rewrite pow_succ by lia. pose proof (Z.div_mod k 2 ltac:(lia)) as Hd. pose proof (Z.mod_pos_bound k 2 ltac:(lia)).
  assert (k mod 2 = 0 ∨ k mod 2 = 1) as [Hm|Hm] by lia; rewrite Hm in Hd; [left|right]; nia.
Qed.
Lemma node_bounds r p o : block r p o → 0 ≤ node r p o < 2 * 2 ^ r.(r_order) - 1.
Proof.
  intros [Ho (k & Hk & ->)]. rewrite node_index by lia. pose proof (pow_pos (r.(r_order) - o)).
  assert (2 ^ (r.(r_order) - o) ≤ 2 ^ r.(r_order)) by (apply Z.pow_le_mono_r; lia). lia.
Qed.
Lemma block_inside r p o : block r p o → r.(first_page) ≤ p ∧ p + 2 ^ o ≤ r.(first_page) + 2 ^ r.(r_order).
Proof.
  intros [Ho (k & Hk & ->)]. rewrite (pow_split o r.(r_order)) by lia. pose proof (pow_pos o). nia.
Qed.
Lemma node_inj r p o p' o' : block r p o → block r p' o' → node r p o = node r p' o' → p = p' ∧ o = o'.
Proof.
  intros [Ho (k & Hk & ->)] [Ho' (k' & Hk' & ->)]. rewrite !node_index by lia. intros E.
  set (d := r.(r_order) - o) in *. set (d' := r.(r_order) - o') in *.
  assert (d = d') as Hd.
  { destruct (Z.lt_trichotomy d d') as [H|[H|H]]; [|done|].
    - assert (2 ^ (d + 1) ≤ 2 ^ d') by (apply Z.pow_le_mono_r; lia). rewrite pow_succ in * by lia. lia.
    - assert (2 ^ (d' + 1) ≤ 2 ^ d) by (apply Z.pow_le_mono_r; lia). rewrite pow_succ in * by lia. lia. }
  assert (o = o') as -> by lia. rewrite Hd in E. split; [|done]. do 2 f_equal. lia.
Qed.
(** Two blocks of a root are disjoint or nested. *)
Lemma block_nested r p o p' o' :
  block r p o → block r p' o' → o' ≤ o →
  (p ≤ p' ∧ p' + 2 ^ o' ≤ p + 2 ^ o) ∨ p' + 2 ^ o' ≤ p ∨ p + 2 ^ o ≤ p'.
Proof.
  intros [Ho (k & Hk & ->)] [Ho' (k' & Hk' & ->)] Hle. rewrite (pow_split o' o) by lia.
  pose proof (pow_pos o' ltac:(lia)). pose proof (pow_pos (o - o') ltac:(lia)).
  set (c := 2 ^ (o - o')) in *. set (u := 2 ^ o') in *.
  destruct (decide (k' < k * c)); [right; left; nia|].
  destruct (decide (k' < k * c + c)); [left; nia|right; right; nia].
Qed.

(** ** Roots laid end to end *)
Fixpoint laid (first nodes : Z) (roots : list physical_page_root) (total tree_nodes : Z) : Prop :=
  match roots with
  | [] => first = total ∧ nodes = tree_nodes
  | r :: rs => r.(first_page) = first ∧ r.(r_node_offset) = nodes ∧
      laid (first + 2 ^ r.(r_order)) (nodes + (2 * 2 ^ r.(r_order) - 1)) rs total tree_nodes
  end.
Definition bytes_of (r : physical_page_root) : Z := 2 ^ r.(r_order) * BOAROS_PAGE_SIZE.
Definition holds_page (r : physical_page_root) (page : Z) : Prop :=
  r.(first_page) ≤ page < r.(first_page) + 2 ^ r.(r_order).
Definition holds_address (r : physical_page_root) (address : Z) : Prop :=
  r.(r_address) ≤ address < r.(r_address) + bytes_of r.
Definition orders_ok (roots : list physical_page_root) : Prop := Forall (λ r, 0 ≤ r.(r_order) ≤ 31) roots.

Record geometry (a : physical_page_allocator) : Prop := {
  geo_orders : orders_ok a.(a_roots);
  geo_valid : Forall (λ r, root_valid a r = Done true) a.(a_roots);
  geo_address : Forall (λ r, 0 ≤ r.(r_address) ∧ r.(r_address) + bytes_of r ≤ UINT64_MAX ∧
    r.(r_address) mod bytes_of r = 0) a.(a_roots);
  geo_laid : laid 0 0 a.(a_roots) a.(a_total_pages) a.(a_tree_nodes);
  geo_sorted : StronglySorted (λ r r', r.(r_address) + bytes_of r ≤ r'.(r_address)) a.(a_roots);
  geo_count : a.(a_root_count) = Z.of_nat (length a.(a_roots));
  geo_total : a.(a_total_pages) ≤ UINT32_MAX;
  geo_packed : packed a.(a_tree) a.(a_tree_nodes);
  geo_metadata : Z.of_nat (length a.(a_metadata)) = a.(a_total_pages);
  geo_heads : length a.(a_free_heads) = 32%nat;
}.

Lemma laid_bounds first nodes roots total tree_nodes :
  orders_ok roots → laid first nodes roots total tree_nodes →
  first ≤ total ∧ nodes ≤ tree_nodes ∧
  ∀ r, r ∈ roots → first ≤ r.(first_page) ∧ r.(first_page) + 2 ^ r.(r_order) ≤ total ∧
    nodes ≤ r.(r_node_offset) ∧ r.(r_node_offset) + (2 * 2 ^ r.(r_order) - 1) ≤ tree_nodes.
Proof.
  intros Ho. revert first nodes. induction Ho as [|r rs Hr _ IH]; intros first nodes.
  - intros [-> ->]. split_and!; [lia..|]. by intros r ?%elem_of_nil.
  - intros (H1 & H2 & (H3 & H4 & H5)%IH). pose proof (pow_order _ Hr).
    split_and!; [lia..|]. intros r' [->|Hin]%elem_of_cons; [lia|]. specialize (H5 r' Hin). lia.
Qed.
Lemma laid_order first nodes roots total tree_nodes i j r r' :
  orders_ok roots → laid first nodes roots total tree_nodes → (i < j)%nat →
  roots !! i = Some r → roots !! j = Some r' →
  r.(first_page) + 2 ^ r.(r_order) ≤ r'.(first_page) ∧
  r.(r_node_offset) + (2 * 2 ^ r.(r_order) - 1) ≤ r'.(r_node_offset).
Proof.
  intros Ho. revert first nodes i j. induction Ho as [|r0 rs Hr Hrs IH]; intros first nodes i j Hl Hij Hi Hj; [done|].
  destruct j as [|j]; [lia|]. destruct Hl as (H1 & H2 & Hl). destruct i as [|i]; simpl in *.
  - injection Hi as ->. apply list_elem_of_lookup_2 in Hj.
    destruct (laid_bounds _ _ _ _ _ Hrs Hl) as (_ & _ & Hb). specialize (Hb _ Hj). lia.
  - apply (IH _ _ i j Hl); [lia|done..].
Qed.
Lemma laid_cover first nodes roots total tree_nodes page :
  laid first nodes roots total tree_nodes → first ≤ page < total →
  ∃ i r, roots !! i = Some r ∧ holds_page r page.
Proof.
  revert first nodes. induction roots as [|r rs IH]; intros first nodes Hl Hp; [destruct Hl; lia|].
  destruct Hl as (H1 & H2 & Hl). destruct (decide (page < first + 2 ^ r.(r_order))).
  - exists 0%nat, r. split; [done|]. unfold holds_page. lia.
  - destruct (IH _ _ Hl ltac:(lia)) as (i & r' & ? & ?). by exists (S i), r'.
Qed.

(** ** The binary searches *)
Lemma roots_search_spec (key : physical_page_root → Z) roots target :
  (∀ i j r r', (i < j)%nat → roots !! i = Some r → roots !! j = Some r' → key r ≤ key r') →
  ∀ fuel lo hi, 0 ≤ lo ≤ hi → hi ≤ Z.of_nat (length roots) → hi - lo ≤ Z.of_nat fuel →
  ∃ n, roots_search key roots fuel lo hi target = Done n ∧ lo ≤ n ≤ hi ∧
    (∀ i r, lo ≤ Z.of_nat i < n → roots !! i = Some r → key r ≤ target) ∧
    (∀ i r, n ≤ Z.of_nat i < hi → roots !! i = Some r → target < key r).
Proof.
  intros Hs fuel. induction fuel as [|fuel IH]; intros lo hi Hlo Hhi Hf; cbn [roots_search].
  - rewrite decide_False by lia. exists lo. split_and!; try done; lia.
  - destruct (decide (lo < hi)) as [Hlt|]; [|exists lo; split_and!; try done; lia].
    set (mid := lo + (hi - lo) / 2).
    assert (Hmid : lo ≤ mid < hi) by (unfold mid; lia).
    destruct (lookup_lt_is_Some_2 roots (Z.to_nat mid)) as [r Hr]; [lia|].
    rewrite (aread_ok _ _ _ Hr). run. destruct (decide (key r ≤ target)) as [Hk|Hk].
    + destruct (IH (mid + 1) hi ltac:(lia) Hhi ltac:(lia)) as (n & -> & Hn & H1 & H2).
      exists n. split_and!; [done|lia..| |done].
      intros i ri Hi Hri. destruct (decide (mid + 1 ≤ Z.of_nat i)); [apply (H1 i); [lia|done]|].
      destruct (decide (Z.of_nat i = mid)) as [<-|]; [rewrite Nat2Z.id in Hr; congruence|].
      specialize (Hs i (Z.to_nat mid) ri r ltac:(lia) Hri Hr). lia.
    + destruct (IH lo mid ltac:(lia) ltac:(lia) ltac:(lia)) as (n & -> & Hn & H1 & H2).
      exists n. split_and!; [done|lia..|done|].
      intros i ri Hi Hri. destruct (decide (Z.of_nat i < mid)); [apply (H2 i); [lia|done]|].
      destruct (decide (Z.of_nat i = mid)) as [<-|]; [rewrite Nat2Z.id in Hr; replace ri with r by congruence; lia|].
      specialize (Hs (Z.to_nat mid) i r ri ltac:(lia) Hr Hri). lia.
Qed.

Section geometry.
Context (a : physical_page_allocator).
Hypothesis Hgeo : geometry a.

Lemma root_order r : r ∈ a.(a_roots) → 0 ≤ r.(r_order) ≤ 31.
Proof. intros Hr. pose proof (geo_orders _ Hgeo) as H. unfold orders_ok in H. rewrite Forall_forall in H. auto. Qed.
Lemma root_bounds r : r ∈ a.(a_roots) →
  0 ≤ r.(first_page) ∧ r.(first_page) + 2 ^ r.(r_order) ≤ a.(a_total_pages) ∧
  0 ≤ r.(r_node_offset) ∧ r.(r_node_offset) + (2 * 2 ^ r.(r_order) - 1) ≤ a.(a_tree_nodes).
Proof.
  intros Hr. destruct (laid_bounds _ _ _ _ _ (geo_orders _ Hgeo) (geo_laid _ Hgeo)) as (_ & _ & H). by apply H.
Qed.
Lemma root_placed r : r ∈ a.(a_roots) →
  0 ≤ r.(r_address) ∧ r.(r_address) + bytes_of r ≤ UINT64_MAX ∧ r.(r_address) mod bytes_of r = 0.
Proof. intros Hr. pose proof (geo_address _ Hgeo) as H. rewrite Forall_forall in H. auto. Qed.
Lemma root_is_valid r : r ∈ a.(a_roots) → root_valid a r = Done true.
Proof. intros Hr. pose proof (geo_valid _ Hgeo) as H. rewrite Forall_forall in H. auto. Qed.
Lemma bytes_of_pos r : r ∈ a.(a_roots) → 0 < bytes_of r.
Proof. intros Hr%root_order. pose proof (pow_order _ Hr). unfold bytes_of, BOAROS_PAGE_SIZE. lia. Qed.

(** A search by a key that separates the roots finds the root that holds the
    target. *)
Lemma search_hit (key : physical_page_root → Z) (width : physical_page_root → Z) target i r :
  (∀ r, r ∈ a.(a_roots) → 0 < width r) →
  (∀ i j r r', (i < j)%nat → a.(a_roots) !! i = Some r → a.(a_roots) !! j = Some r' → key r + width r ≤ key r') →
  a.(a_roots) !! i = Some r → key r ≤ target < key r + width r →
  roots_search key a.(a_roots) (Z.to_nat a.(a_root_count)) 0 a.(a_root_count) target = Done (Z.of_nat i + 1).
Proof.
  intros Hw Hs Hi Ht. pose proof (geo_count _ Hgeo) as Hc. pose proof (lookup_lt_Some _ _ _ Hi).
  destruct (roots_search_spec key a.(a_roots) target) with (fuel := Z.to_nat a.(a_root_count)) (lo := 0) (hi := a.(a_root_count))
    as (n & -> & Hn & H1 & H2); [|lia..|].
  { intros j k rj rk Hjk Hj Hk. pose proof (Hs j k rj rk Hjk Hj Hk).
    pose proof (Hw rj (list_elem_of_lookup_2 _ _ _ Hj)). lia. }
  f_equal. destruct (decide (n ≤ Z.of_nat i)) as [Hni|Hni]; [specialize (H2 i r ltac:(lia) Hi); lia|].
  destruct (decide (n ≤ Z.of_nat i + 1)) as [|Hni']; [lia|].
  destruct (lookup_lt_is_Some_2 a.(a_roots) (S i)) as [r' Hr']; [lia|].
  specialize (H1 (S i) r' ltac:(lia) Hr'). specialize (Hs i (S i) r r' ltac:(lia) Hi Hr'). lia.
Qed.
Lemma pages_apart i j r r' : (i < j)%nat → a.(a_roots) !! i = Some r → a.(a_roots) !! j = Some r' →
  r.(first_page) + 2 ^ r.(r_order) ≤ r'.(first_page).
Proof. intros. by destruct (laid_order _ _ _ _ _ i j r r' (geo_orders _ Hgeo) (geo_laid _ Hgeo)). Qed.

Lemma root_for_page_ok r page : r ∈ a.(a_roots) → holds_page r page → root_for_page a page = Done (Some r).
Proof.
  intros Hr Hp. pose proof Hr as [i Hi]%list_elem_of_lookup_1. unfold root_for_page.
  rewrite (search_hit first_page (λ r, 2 ^ r.(r_order)) page i r); [|..|done|done].
  2: { intros r' Hr'%root_order. pose proof (pow_order _ Hr'). lia. }
  2: { intros. by apply (pages_apart i0 j). }
  run. rewrite decide_False by lia. replace (Z.to_nat (Z.of_nat i + 1 - 1)) with i by lia.
  rewrite (aread_ok _ _ _ Hi). run. rewrite root_is_valid by done. run. rewrite trap_if_ok by done. run.
  pose proof (root_bounds r Hr). pose proof (geo_total _ Hgeo). pose proof (root_order r Hr).
  unfold holds_page in Hp. rewrite order_page_count_pow, u64_small by mlia. by rewrite decide_True by lia.
Qed.
Lemma shift_page x : Z.shiftl x BOAROS_PAGE_SHIFT = x * BOAROS_PAGE_SIZE.
Proof. unfold BOAROS_PAGE_SHIFT, BOAROS_PAGE_SIZE. by rewrite Z.shiftl_mul_pow2. Qed.
Lemma root_for_address_spec address : is_u64 address →
  ∃ found, root_for_address a address = Done found ∧
    match found with
    | Some r => r ∈ a.(a_roots) ∧ holds_address r address
    | None => ∀ r, r ∈ a.(a_roots) → ¬ holds_address r address
    end.
Proof.
  intros Ha. pose proof (geo_count _ Hgeo) as Hc. unfold root_for_address.
  assert (Hs : ∀ i j r r', (i < j)%nat → a.(a_roots) !! i = Some r → a.(a_roots) !! j = Some r' →
    r.(r_address) + bytes_of r ≤ r'.(r_address)).
  { intros i j r r' Hij Hi Hj. by apply (StronglySorted_ordered _ _ i j r r' (geo_sorted _ Hgeo)). }
  destruct (roots_search_spec r_address a.(a_roots) address) with (fuel := Z.to_nat a.(a_root_count)) (lo := 0) (hi := a.(a_root_count))
    as (n & -> & Hn & H1 & H2); [|lia..|].
  { intros i j r r' Hij Hi Hj. pose proof (Hs i j r r' Hij Hi Hj).
    pose proof (bytes_of_pos r (list_elem_of_lookup_2 _ _ _ Hi)). lia. }
  run. destruct (decide (n = 0)) as [->|Hn0].
  - exists None. split; [done|]. intros r Hr [Hlo Hhi]. apply list_elem_of_lookup_1 in Hr as [i Hi].
    specialize (H2 i r). apply lookup_lt_Some in Hi as Hlt. specialize (H2 ltac:(lia) Hi). lia.
  - destruct (lookup_lt_is_Some_2 a.(a_roots) (Z.to_nat (n - 1))) as [r Hr]; [lia|].
    rewrite (aread_ok _ _ _ Hr). run. pose proof (list_elem_of_lookup_2 _ _ _ Hr) as Hin.
    rewrite root_is_valid by done. run. rewrite trap_if_ok by done. run.
    pose proof (H1 (Z.to_nat (n - 1)) r ltac:(lia) Hr) as Hle. pose proof (root_placed r Hin).
    rewrite order_page_count_pow, shift_page, u64_small by (try (by apply root_order); mlia).
    fold (bytes_of r). eexists. split; [done|]. destruct (decide _) as [Hd|Hd]; [split; [done|unfold holds_address; lia]|].
    intros r' Hr' [Hlo Hhi]. apply list_elem_of_lookup_1 in Hr' as [i Hi]. apply lookup_lt_Some in Hi as Hlt.
    destruct (decide (n ≤ Z.of_nat i)); [specialize (H2 i r' ltac:(lia) Hi); lia|].
    destruct (decide (Z.of_nat i = n - 1)) as [E|].
    + replace (Z.to_nat (n - 1)) with i in Hr by lia. replace r' with r in * by congruence. lia.
    + specialize (Hs i (Z.to_nat (n - 1)) r' r ltac:(lia) Hi Hr). lia.
Qed.
Lemma root_for_address_ok r address :
  r ∈ a.(a_roots) → holds_address r address → root_for_address a address = Done (Some r).
Proof.
  intros Hr Hh. pose proof (root_placed r Hr) as Hp.
  destruct (root_for_address_spec address) as ([r'|] & -> & H); [unfold holds_address in Hh; mlia| |by destruct (H r)].
  destruct H as [Hr' Hh']. do 2 f_equal. apply list_elem_of_lookup_1 in Hr as [i Hi]. apply list_elem_of_lookup_1 in Hr' as [j Hj].
  unfold holds_address in *. destruct (Nat.lt_trichotomy i j) as [H|[->|H]]; [|congruence|].
  - pose proof (StronglySorted_ordered _ _ i j r r' (geo_sorted _ Hgeo) H Hi Hj). simpl in *. lia.
  - pose proof (StronglySorted_ordered _ _ j i r' r (geo_sorted _ Hgeo) H Hj Hi). simpl in *. lia.
Qed.
(** Pages and tree nodes belong to one root. *)
Lemma root_unique r r' page : r ∈ a.(a_roots) → r' ∈ a.(a_roots) → holds_page r page → holds_page r' page → r = r'.
Proof.
  intros Hr Hr' H H'. pose proof (root_for_page_ok r page Hr H). pose proof (root_for_page_ok r' page Hr' H'). congruence.
Qed.
Lemma node_global_inj r r' p o p' o' :
  r ∈ a.(a_roots) → r' ∈ a.(a_roots) → block r p o → block r' p' o' →
  r.(r_node_offset) + node r p o = r'.(r_node_offset) + node r' p' o' → r = r' ∧ p = p' ∧ o = o'.
Proof.
  intros Hr Hr' Hb Hb' E. pose proof (node_bounds _ _ _ Hb). pose proof (node_bounds _ _ _ Hb').
  pose proof Hr as [i Hi]%list_elem_of_lookup_1. pose proof Hr' as [j Hj]%list_elem_of_lookup_1.
  destruct (Nat.lt_trichotomy i j) as [Hij|[->|Hij]].
  - destruct (laid_order _ _ _ _ _ i j r r' (geo_orders _ Hgeo) (geo_laid _ Hgeo) Hij Hi Hj). lia.
  - replace r' with r in * by congruence. split; [done|]. apply (node_inj r); [done..|lia].
  - destruct (laid_order _ _ _ _ _ j i r' r (geo_orders _ Hgeo) (geo_laid _ Hgeo) Hij Hj Hi). lia.
Qed.
Lemma page_has_root page : 0 ≤ page < a.(a_total_pages) → ∃ r, r ∈ a.(a_roots) ∧ holds_page r page.
Proof.
  intros Hp. destruct (laid_cover _ _ _ _ _ page (geo_laid _ Hgeo) Hp) as (i & r & Hi & Hh).
  exists r. split; [by eapply list_elem_of_lookup_2|done].
Qed.
End geometry.

(** ** The states of blocks

    [σ p o] is the state of the block of [2 ^ o] pages at [p]; it abstracts the
    packed trees.  The shape of a tree: a split node has two active halves, every
    other node has none below it.  Then each page has one leaf above it, which
    is what the owner walk finds. *)
Import PhysicalPage.

Notation states := (Z → Z → Z).
Definition put (σ : states) (p o s : Z) : states := λ p' o', if decide (p' = p ∧ o' = o) then s else σ p' o'.
Lemma put_eq σ p o s : put σ p o s p o = s.
Proof. unfold put. by rewrite decide_True. Qed.
Lemma put_ne σ p o s p' o' : ¬ (p' = p ∧ o' = o) → put σ p o s p' o' = σ p' o'.
Proof. intros. unfold put. by rewrite decide_False. Qed.

(** The trees hold the states [σ]. *)
Definition tree_is (a : physical_page_allocator) (σ : states) : Prop :=
  ∀ r p o, r ∈ a.(a_roots) → block r p o → state_at a.(a_tree) (r.(r_node_offset) + node r p o) = σ p o.

Lemma geometry_set_tree a t : packed t a.(a_tree_nodes) → geometry a → geometry (set_tree a t).
Proof. intros Ht []. by split. Qed.
Lemma geometry_set_metadata a m : length m = length a.(a_metadata) → geometry a → geometry (set_metadata a m).
Proof. intros Hm []. split; try done. simpl. by rewrite Hm. Qed.
Lemma geometry_set_heads a h : length h = 32%nat → geometry a → geometry (set_free_heads a h).
Proof. intros Hh []. by split. Qed.
Lemma geometry_set_available a n : geometry a → geometry (set_available a n).
Proof. intros []. by split. Qed.

Section tree_access.
Context (a : physical_page_allocator) (σ : states).
Hypothesis Hgeo : geometry a.
Hypothesis His : tree_is a σ.

Lemma node_in_tree r p o : r ∈ a.(a_roots) → block r p o →
  0 ≤ r.(r_node_offset) + node r p o < a.(a_tree_nodes) ∧ 0 ≤ r.(r_node_offset) ∧ 0 ≤ node r p o < 2 * order_page_count r.(r_order) - 1.
Proof.
  intros Hr Hb. pose proof (root_bounds a Hgeo r Hr). pose proof (node_bounds _ _ _ Hb).
  pose proof (root_order a Hgeo r Hr). rewrite order_page_count_pow by lia. lia.
Qed.
Lemma tree_read_is r p o : r ∈ a.(a_roots) → block r p o → tree_read a r (node r p o) = Done (σ p o).
Proof.
  intros Hr Hb. destruct (node_in_tree r p o Hr Hb) as (H1 & _).
  rewrite (tree_read_state a r _ _ (geo_packed _ Hgeo) H1). by rewrite His.
Qed.
Lemma tree_get_is r p o : r ∈ a.(a_roots) → block r p o → tree_get a r (node r p o) = Done (σ p o).
Proof.
  intros Hr Hb. destruct (node_in_tree r p o Hr Hb) as (H1 & H2 & H3). unfold tree_get.
  destruct (packed_bound _ _ (geo_packed _ Hgeo)). rewrite u64_small by mlia.
  rewrite trap_if_ok by lia. run. by apply tree_read_is.
Qed.
Lemma tree_set_is r p o s : r ∈ a.(a_roots) → block r p o → 0 ≤ s ≤ 4 →
  ∃ t, tree_set a r (node r p o) s = Done (set_tree a t) ∧ geometry (set_tree a t) ∧
    tree_is (set_tree a t) (put σ p o s).
Proof.
  intros Hr Hb Hs. destruct (node_in_tree r p o Hr Hb) as (H1 & H2 & H3).
  pose proof (geo_packed _ Hgeo) as Hp. eexists. split; [|split].
  - apply (tree_set_written _ _ _ _ _ Hp); try done; [lia|unfold BUDDY_INTERNAL; lia].
  - apply geometry_set_tree; [|done]. by apply written_packed.
  - intros r' p' o' Hr' Hb'. simpl in *. destruct (node_in_tree r' p' o' Hr' Hb') as (H1' & _).
    rewrite (written_state _ _ _ _ _ Hp) by lia. unfold put.
    destruct (decide (_ = r.(r_node_offset) + node r p o)) as [E|E].
    + destruct (node_global_inj a Hgeo r' r p' o' p o Hr' Hr Hb' Hb E) as (-> & -> & ->). by rewrite decide_True.
    + rewrite decide_False; [by apply His|]. intros [-> ->]. apply E.
      assert (r = r') as ->; [|done]. pose proof (block_inside _ _ _ Hb). pose proof (block_inside _ _ _ Hb').
      pose proof (pow_pos o ltac:(destruct Hb; lia)).
      apply (root_unique a Hgeo r r' p); [done..| |]; unfold holds_page; lia.
Qed.
End tree_access.

(** ** The shape of the trees *)
Definition leaf (s : Z) : Prop := s = BUDDY_FREE ∨ s = BUDDY_ALLOCATED ∨ s = BUDDY_INTERNAL.
#[export] Instance leaf_dec s : Decision (leaf s).
Proof. unfold leaf. apply _. Defined.

Record shape (roots : list physical_page_root) (σ : states) : Prop := {
  shape_top r : r ∈ roots → σ r.(first_page) r.(r_order) ≠ BUDDY_INACTIVE;
  shape_halves r p o : r ∈ roots → 0 ≤ o → block r p (o + 1) →
    if decide (σ p (o + 1) = BUDDY_SPLIT)
    then σ p o ≠ BUDDY_INACTIVE ∧ σ (p + 2 ^ o) o ≠ BUDDY_INACTIVE
    else σ p o = BUDDY_INACTIVE ∧ σ (p + 2 ^ o) o = BUDDY_INACTIVE;
  shape_range r p o : r ∈ roots → block r p o → 0 ≤ σ p o ≤ 4;
  shape_bottom r p : r ∈ roots → block r p 0 → σ p 0 ≠ BUDDY_SPLIT;
}.

Lemma not_split_leaf roots σ r p o :
  shape roots σ → r ∈ roots → block r p o → σ p o ≠ BUDDY_INACTIVE → σ p o ≠ BUDDY_SPLIT → leaf (σ p o).
Proof.
  intros Hs Hr Hb. pose proof (shape_range _ _ Hs r p o Hr Hb).
  unfold leaf, BUDDY_INACTIVE, BUDDY_SPLIT, BUDDY_FREE, BUDDY_ALLOCATED, BUDDY_INTERNAL. lia.
Qed.
(** Nothing is active below a node that is not split. *)
Lemma below_inactive roots σ r p o p' o' :
  shape roots σ → r ∈ roots → block r p o → block r p' o' → o' < o →
  p ≤ p' → p' + 2 ^ o' ≤ p + 2 ^ o → σ p o ≠ BUDDY_SPLIT → σ p' o' = BUDDY_INACTIVE.
Proof.
  intros Hs Hr Hb Hb' Hlt. remember (Z.to_nat (o - o')) as n eqn:Hn. revert p' o' Hb' Hlt Hn.
  induction n as [|n IH]; intros p' o' Hb' Hlt Hn H1 H2 Hne; [lia|].
  destruct (block_parent _ _ _ Hb') as (q & Hq & Hpq); [destruct Hb; lia|].
  assert (Ho' : 0 ≤ o') by (destruct Hb'; lia). pose proof (pow_pos o' Ho'). pose proof (pow_succ o' Ho').
  pose proof (shape_halves _ _ Hs r q o' Hr Ho' Hq) as Hh.
  assert (σ q (o' + 1) ≠ BUDDY_SPLIT) as Hqs.
  { destruct (block_nested r p o q (o' + 1) Hb Hq ltac:(lia)) as [[Hi1 Hi2]|[Hd|Hd]]; [|destruct Hpq; lia..].
    destruct (decide (o' + 1 = o)) as [E|].
    - subst o. by assert (q = p) as -> by lia.
    - rewrite (IH q (o' + 1)); [done|done|lia|lia|lia|lia|done]. }
  rewrite decide_False in Hh by done. destruct Hpq as [->| ->]; tauto.
Qed.
(** Each page has one leaf above it. *)
Lemma leaf_unique a σ r p o r' p' o' page :
  geometry a → shape a.(a_roots) σ → r ∈ a.(a_roots) → r' ∈ a.(a_roots) → block r p o → block r' p' o' →
  leaf (σ p o) → leaf (σ p' o') → p ≤ page < p + 2 ^ o → p' ≤ page < p' + 2 ^ o' →
  r = r' ∧ p = p' ∧ o = o'.
Proof.
  intros Hgeo Hs Hr Hr' Hb Hb' Hl Hl' Hp Hp'.
  pose proof (block_inside _ _ _ Hb). pose proof (block_inside _ _ _ Hb').
  assert (r = r') as <- by (apply (root_unique a Hgeo r r' page); try done; unfold holds_page; lia).
  assert (Hwlog : ∀ p o p' o', block r p o → block r p' o' → leaf (σ p o) → leaf (σ p' o') →
    p ≤ page < p + 2 ^ o → p' ≤ page < p' + 2 ^ o' → o' ≤ o → p = p' ∧ o = o').
  { clear - Hs Hr. intros p o p' o' Hb Hb' Hl Hl' Hp Hp' Hle.
    destruct (block_nested r p o p' o' Hb Hb' Hle) as [[H1 H2]|[?|?]]; [|lia..].
    destruct (decide (o' = o)) as [->|Hne]; [split; [lia|done]|].
    assert (σ p' o' = BUDDY_INACTIVE) as E.
    { apply (below_inactive a.(a_roots) σ r p o); try done; [lia|]. by destruct Hl as [->|[->| ->]]. }
    rewrite E in Hl'. by destruct Hl' as [?|[?|?]]. }
  split; [done|]. destruct (decide (o' ≤ o)).
  - by apply Hwlog.
  - destruct (Hwlog p' o' p o) as [-> ->]; try done. lia.
Qed.

(** ** The owner walk *)
Section owners.
Context (a : physical_page_allocator) (σ : states).
Hypothesis Hgeo : geometry a.
Hypothesis His : tree_is a σ.
Hypothesis Hshape : shape a.(a_roots) σ.

Lemma walk_loop_leaf r page : r ∈ a.(a_roots) → ∀ fuel p o, block r p o → (Z.to_nat o < fuel)%nat →
  σ p o ≠ BUDDY_INACTIVE → p ≤ page < p + 2 ^ o →
  ∃ p' o', block r p' o' ∧ leaf (σ p' o') ∧ p' ≤ page < p' + 2 ^ o' ∧ o' ≤ o ∧
    ∀ s, walk_loop fuel a page (mk_owner r (node r p o) p o s) = Done (true, mk_owner r (node r p' o') p' o' (σ p' o')).
Proof.
  intros Hr fuel. induction fuel as [|fuel IH]; intros p o Hb Hf Hact Hin; [lia|].
  assert (Ho : 0 ≤ o ≤ r.(r_order)) by (by destruct Hb).
  pose proof (shape_range _ _ Hshape r p o Hr Hb) as Hrange.
  destruct (decide (σ p o = BUDDY_SPLIT)) as [Hsplit|Hns].
  2: { exists p, o. split_and!; try done; [by eapply not_split_leaf|lia..|].
       intros s. cbn [walk_loop o_root o_node o_first o_order]. rewrite (tree_read_is a σ) by done. run.
       rewrite decide_True by done. rewrite bool_decide_true; [done|].
       unfold BUDDY_FREE, BUDDY_INTERNAL, BUDDY_INACTIVE in *. lia. }
  assert (o ≠ 0) as Ho0 by (intros ->; by apply (shape_bottom _ _ Hshape r p)).
  set (o1 := o - 1). assert (Ho1 : 0 ≤ o1) by (unfold o1; lia).
  assert (Hb1 : block r p (o1 + 1)) by (unfold o1; by replace (o - 1 + 1) with o by lia).
  pose proof (shape_halves _ _ Hshape r p o1 Hr Ho1 Hb1) as Hkids.
  replace (o1 + 1) with o in Hkids by (unfold o1; lia). rewrite decide_True in Hkids by done.
  destruct (block_children r p o1 Ho1 Hb1) as [HbL HbR]. destruct (node_children r p o1 Ho1 Hb1) as [HnL HnR].
  replace (o1 + 1) with o in HnL, HnR by (unfold o1; lia).
  pose proof (pow_succ o1 Ho1) as Hpow. replace (o1 + 1) with o in Hpow by (unfold o1; lia).
  pose proof (root_bounds a Hgeo r Hr). pose proof (geo_total _ Hgeo). pose proof (block_inside _ _ _ Hb).
  pose proof (root_order a Hgeo r Hr). pose proof (pow_order o ltac:(lia)).
  assert (Hstep : ∀ s, walk_loop (S fuel) a page (mk_owner r (node r p o) p o s) =
    walk_loop fuel a page (mk_owner r (2 * node r p o + 1 + Z.b2z (bool_decide (2 ^ o1 ≤ page - p)))
      (if bool_decide (2 ^ o1 ≤ page - p) then p + 2 ^ o1 else p) o1 BUDDY_SPLIT)).
  { intros s. cbn [walk_loop o_root o_node o_first o_order]. rewrite (tree_read_is a σ) by done. run.
    rewrite Hsplit. rewrite decide_False by auto. rewrite decide_False by done. cbv zeta. fold o1.
    rewrite order_page_count_pow by done. rewrite (u64_small (page - p)) by mlia.
    rewrite (u32_small (2 ^ o1)) by mlia. rewrite (u32_small (p + 2 ^ o1)) by mlia. done. }
  destruct (decide (2 ^ o1 ≤ page - p)) as [Hright|Hleft].
  - destruct (IH (p + 2 ^ o1) o1) as (p' & o' & G1 & G2 & G3 & G4 & G5); [done|unfold o1; lia|tauto|lia|].
    exists p', o'. split_and!; try done; [lia..|unfold o1 in *; lia|]. intros s. rewrite Hstep, bool_decide_true by done.
    simpl. replace (2 * node r p o + 1 + 1) with (node r (p + 2 ^ o1) o1) by lia. apply G5.
  - destruct (IH p o1) as (p' & o' & G1 & G2 & G3 & G4 & G5); [done|unfold o1; lia|tauto|lia|].
    exists p', o'. split_and!; try done; [lia..|unfold o1 in *; lia|]. intros s. rewrite Hstep, bool_decide_false by done.
    simpl. replace (2 * node r p o + 1 + 0) with (node r p o1) by lia. apply G5.
Qed.
Lemma owner_walk_page r page : r ∈ a.(a_roots) → holds_page r page →
  ∃ p o, block r p o ∧ leaf (σ p o) ∧ p ≤ page < p + 2 ^ o ∧
    owner_walk a r page = Done (true, mk_owner r (node r p o) p o (σ p o)).
Proof.
  intros Hr Hp. pose proof (root_order a Hgeo r Hr).
  destruct (walk_loop_leaf r page Hr (S (Z.to_nat r.(r_order))) r.(first_page) r.(r_order)) as (p & o & H1 & H2 & H3 & _ & G5).
  - apply block_top. lia.
  - lia.
  - by apply (shape_top _ _ Hshape).
  - done.
  - exists p, o. split_and!; try done; [lia..|]. unfold owner_walk. rewrite <-(node_top r). apply G5.
Qed.
Lemma owner_walk_leaf r p o page : r ∈ a.(a_roots) → block r p o → leaf (σ p o) → p ≤ page < p + 2 ^ o →
  owner_walk a r page = Done (true, mk_owner r (node r p o) p o (σ p o)).
Proof.
  intros Hr Hb Hl Hp. pose proof (block_inside _ _ _ Hb).
  destruct (owner_walk_page r page Hr) as (p' & o' & Hb' & Hl' & Hp' & ->); [unfold holds_page; lia|].
  by destruct (leaf_unique a σ r p o r p' o' page) as (_ & -> & ->).
Qed.
Lemma owner_find_leaf r p o page : r ∈ a.(a_roots) → block r p o → leaf (σ p o) → p ≤ page < p + 2 ^ o →
  owner_find a page = Done (Some (mk_owner r (node r p o) p o (σ p o))).
Proof.
  intros Hr Hb Hl Hp. pose proof (block_inside _ _ _ Hb). unfold owner_find.
  rewrite (root_for_page_ok a Hgeo r page) by (try done; unfold holds_page; lia). run.
  by rewrite (owner_walk_leaf r p o).
Qed.
Lemma page_owner page : 0 ≤ page < a.(a_total_pages) →
  ∃ r p o, r ∈ a.(a_roots) ∧ block r p o ∧ leaf (σ p o) ∧ p ≤ page < p + 2 ^ o.
Proof.
  intros Hp. destruct (page_has_root a Hgeo page Hp) as (r & Hr & Hh).
  destruct (owner_walk_page r page Hr Hh) as (p & o & H1 & H2 & H3 & _). eauto 10.
Qed.
End owners.
