(* ===== verification/PageFreeTheory.v ===== *)
(** * Free lists and block heads

    The free blocks of an order form a doubly linked list through the metadata
    of their first pages.  While an operation runs, some free blocks ([out]) are
    on no list and their metadata may be stale. *)
From S2P Require Import Prelude BootMemory PhysicalPage PageStateTheory.
Import PhysicalPage.
#[local] Open Scope Z_scope.

Notation NONE := PHYSICAL_PAGE_INDEX_NONE.
Notation heads := (list physical_page_metadata).
Definition mget (m : heads) (p : Z) : option physical_page_metadata := m !! Z.to_nat p.
Definition mset (m : heads) (p : Z) (x : physical_page_metadata) : heads := <[Z.to_nat p := x]> m.
Lemma mget_mset m p x q : 0 ≤ p → 0 ≤ q → is_Some (mget m p) →
  mget (mset m p x) q = if decide (q = p) then Some x else mget m q.
Proof.
  intros Hp Hq Hs%lookup_lt_is_Some. unfold mget, mset in *. destruct (decide (q = p)) as [->|Hne].
  - by apply list_lookup_insert_eq.
  - apply list_lookup_insert_ne. lia.
Qed.
Lemma mget_mset_ne m p x q : 0 ≤ p → 0 ≤ q → q ≠ p → mget (mset m p x) q = mget m q.
Proof. intros. unfold mget, mset. apply list_lookup_insert_ne. lia. Qed.
Lemma mget_mset_eq m p x : is_Some (mget m p) → mget (mset m p x) p = Some x.
Proof. intros Hs%lookup_lt_is_Some. unfold mget, mset. by apply list_lookup_insert_eq. Qed.
Lemma length_mset m p x : length (mset m p x) = length m.
Proof. apply length_insert. Qed.

Lemma load_metadata_ok a p x : mget a.(a_metadata) p = Some x → load_metadata a p = Done x.
Proof. apply aread_ok. Qed.
Lemma store_metadata_ok a p x : is_Some (mget a.(a_metadata) p) →
  store_metadata a p x = Done (set_metadata a (mset a.(a_metadata) p x)).
Proof. intros Hs%lookup_lt_is_Some. unfold store_metadata. by rewrite awrite_ok. Qed.
Lemma store_next_ok a p x n : mget a.(a_metadata) p = Some x →
  store_next a p n = Done (set_metadata a (mset a.(a_metadata) p (with_links x n x.(m_previous)))).
Proof. intros Hx. unfold store_next. rewrite (load_metadata_ok _ _ _ Hx). run. by rewrite store_metadata_ok. Qed.
Lemma store_previous_ok a p x n : mget a.(a_metadata) p = Some x →
  store_previous a p n = Done (set_metadata a (mset a.(a_metadata) p (with_links x x.(m_next) n))).
Proof. intros Hx. unfold store_previous. rewrite (load_metadata_ok _ _ _ Hx). run. by rewrite store_metadata_ok. Qed.

(** ** Doubly linked segments: what precedes the first and follows the last *)
Fixpoint seg (m : heads) (before : Z) (l : list Z) (after : Z) : Prop :=
  match l with
  | [] => True
  | p :: l' => (∃ x, mget m p = Some x ∧ x.(m_next) = hd after l' ∧ x.(m_previous) = before) ∧ seg m p l' after
  end.
Lemma seg_app m before l1 l2 after :
  seg m before (l1 ++ l2) after ↔ seg m before l1 (hd after l2) ∧ seg m (default before (last l1)) l2 after.
Proof.
  revert before. induction l1 as [|p l1 IH]; intros before; [simpl; tauto|].
  cbn [app seg]. rewrite IH. replace (default before (last (p :: l1))) with (default p (last l1)).
  2: { rewrite last_cons. by destruct (last l1). }
  replace (hd after (l1 ++ l2)) with (hd (hd after l2) l1) by (by destruct l1). tauto.
Qed.
Lemma seg_ext m m' before l after :
  (∀ q, q ∈ l → mget m' q = mget m q) → seg m before l after → seg m' before l after.
Proof.
  revert before. induction l as [|p l IH]; intros before He; [done|]. intros [(x & Hx & H) Hl].
  split; [exists x; by rewrite He by left|]. apply IH; [|done]. intros. apply He. by right.
Qed.
(** Redirecting the ends. *)
Lemma seg_set_after m before l q after x n :
  Forall (λ p, 0 ≤ p) (l ++ [q]) → NoDup (l ++ [q]) → seg m before (l ++ [q]) after → mget m q = Some x →
  seg (mset m q (with_links x n x.(m_previous))) before (l ++ [q]) n.
Proof.
  intros Hpos Hnd Hs Hx. apply seg_app in Hs as [H1 [(y & Hy & _ & Hprev) _]]. apply seg_app.
  assert (y = x) as -> by congruence. apply NoDup_app in Hnd as (_ & Hd & _).
  rewrite Forall_app, Forall_singleton in Hpos. destruct Hpos as [Hp1 Hp2]. split.
  - revert H1. apply seg_ext. intros p Hp. apply mget_mset_ne; [done| |].
    + rewrite Forall_forall in Hp1. by apply Hp1.
    + intros ->. apply (Hd q Hp). by left.
  - split; [|done]. eexists. rewrite mget_mset_eq by (by rewrite Hx). split_and!; [done|done|]. simpl. by rewrite Hprev.
Qed.
Lemma seg_set_before m before q l after x b :
  Forall (λ p, 0 ≤ p) (q :: l) → NoDup (q :: l) → seg m before (q :: l) after → mget m q = Some x →
  seg (mset m q (with_links x x.(m_next) b)) b (q :: l) after.
Proof.
  intros [Hq Hl]%Forall_cons [Hnin Hnd]%NoDup_cons [(y & Hy & Hnext & _) Hs] Hx. assert (y = x) as -> by congruence. split.
  - eexists. rewrite mget_mset_eq by (by rewrite Hx). done.
  - revert Hs. apply seg_ext. intros p Hp. apply mget_mset_ne; [done| |].
    + rewrite Forall_forall in Hl. by apply Hl.
    + by intros ->.
Qed.

(** ** The invariant *)
Definition head_ok (x : physical_page_metadata) (o s : Z) : Prop :=
  x.(m_order) = o ∧ x.(m_reserved) = 0 ∧
  (s = BUDDY_FREE → x.(m_state) = PHYSICAL_PAGE_STATE_FREE_HEAD ∧ x.(m_reference_count) = 0) ∧
  (s ≠ BUDDY_FREE → x.(m_next) = NONE ∧ x.(m_previous) = NONE) ∧
  (s = BUDDY_INTERNAL → x.(m_state) = PHYSICAL_PAGE_STATE_INTERNAL ∧ x.(m_reference_count) = 0) ∧
  (s = BUDDY_ALLOCATED → x.(m_state) = PHYSICAL_PAGE_STATE_ALLOCATED_HEAD ∧
     1 ≤ x.(m_reference_count) ≤ UINT32_MAX ∧ (o = 0 ∨ x.(m_reference_count) = 1)).
Definition is_block (a : physical_page_allocator) (p o : Z) : Prop := ∃ r, r ∈ a.(a_roots) ∧ block r p o.
Notation free_lists := (Z → list Z).

(** The last field: no stale head inside a block claims to be allocated, which
    the paths that read the metadata without walking a tree rely on. *)
Record heap (a : physical_page_allocator) (σ : states) (fl : free_lists) (out : list (Z * Z)) : Prop := {
  heap_geo : geometry a;
  heap_tree : tree_is a σ;
  heap_shape : shape a.(a_roots) σ;
  heap_heads o : 0 ≤ o ≤ 31 → a.(a_free_heads) !! Z.to_nat o = Some (hd NONE (fl o));
  heap_linked o : 0 ≤ o ≤ 31 → seg a.(a_metadata) NONE (fl o) NONE;
  heap_nodup o : 0 ≤ o ≤ 31 → NoDup (fl o);
  heap_members o p : 0 ≤ o ≤ 31 → p ∈ fl o ↔ is_block a p o ∧ σ p o = BUDDY_FREE ∧ (p, o) ∉ out;
  heap_meta p o : is_block a p o → leaf (σ p o) → (p, o) ∉ out →
    ∃ x, mget a.(a_metadata) p = Some x ∧ head_ok x o (σ p o);
  heap_honest p x : 0 ≤ p → mget a.(a_metadata) p = Some x → x.(m_state) = PHYSICAL_PAGE_STATE_ALLOCATED_HEAD →
    is_block a p x.(m_order) ∧ σ p x.(m_order) = BUDDY_ALLOCATED;
}.

Lemma is_block_bounds a p o : geometry a → is_block a p o →
  0 ≤ o ≤ 31 ∧ 0 ≤ p ∧ p + 2 ^ o ≤ a.(a_total_pages) ∧ p < UINT32_MAX ∧ 1 ≤ 2 ^ o ≤ 2147483648 ∧
  is_Some (mget a.(a_metadata) p).
Proof.
  intros Hgeo (r & Hr & Hb). pose proof (block_inside _ _ _ Hb). pose proof (root_bounds a Hgeo r Hr).
  pose proof (root_order a Hgeo r Hr). destruct Hb as [Ho _]. pose proof (pow_order o ltac:(lia)).
  pose proof (geo_total _ Hgeo). pose proof (geo_metadata _ Hgeo).
  split_and!; [lia..|mlia|lia|lia|]. apply lookup_lt_is_Some. lia.
Qed.
Lemma leaf_apart a σ p o p' o' :
  geometry a → shape a.(a_roots) σ → is_block a p o → is_block a p' o' → leaf (σ p o) → leaf (σ p' o') →
  (p = p' ∧ o = o') ∨ p + 2 ^ o ≤ p' ∨ p' + 2 ^ o' ≤ p.
Proof.
  intros Hgeo Hs Hb Hb' Hl Hl'. pose proof (is_block_bounds _ _ _ Hgeo Hb). pose proof (is_block_bounds _ _ _ Hgeo Hb').
  destruct Hb as (r & Hr & Hb), Hb' as (r' & Hr' & Hb').
  destruct (decide (p + 2 ^ o ≤ p' ∨ p' + 2 ^ o' ≤ p)) as [?|Hn]; [by right|left].
  destruct (leaf_unique a σ r p o r' p' o' (Z.max p p')) as (_ & ? & ?); try done; lia.
Qed.
Lemma leaf_same_page a σ p o o' :
  geometry a → shape a.(a_roots) σ → is_block a p o → is_block a p o' → leaf (σ p o) → leaf (σ p o') → o = o'.
Proof.
  intros Hgeo Hs Hb Hb' Hl Hl'. pose proof (is_block_bounds _ _ _ Hgeo Hb). pose proof (is_block_bounds _ _ _ Hgeo Hb').
  destruct (leaf_apart a σ p o p o' Hgeo Hs Hb Hb' Hl Hl') as [[_ ?]|[?|?]]; [done|lia..].
Qed.

Section heap.
Context (a : physical_page_allocator) (σ : states) (fl : free_lists) (out : list (Z * Z)).
Hypothesis Hh : heap a σ fl out.
#[local] Notation Hgeo := (heap_geo _ _ _ _ Hh).
#[local] Notation Hshape := (heap_shape _ _ _ _ Hh).

Lemma member_block o p : 0 ≤ o ≤ 31 → p ∈ fl o → is_block a p o ∧ σ p o = BUDDY_FREE ∧ (p, o) ∉ out.
Proof. intros Ho. by apply (heap_members _ _ _ _ Hh). Qed.
Lemma member_meta o p : 0 ≤ o ≤ 31 → p ∈ fl o → ∃ x, mget a.(a_metadata) p = Some x ∧ head_ok x o BUDDY_FREE.
Proof.
  intros Ho Hp. destruct (member_block o p Ho Hp) as (Hb & Hs & Hout). rewrite <-Hs.
  apply (heap_meta _ _ _ _ Hh); [done| |done]. rewrite Hs. by left.
Qed.
Lemma members_nonneg o : 0 ≤ o ≤ 31 → Forall (λ p, 0 ≤ p) (fl o).
Proof.
  intros Ho. apply Forall_forall. intros p Hp. destruct (member_block o p Ho Hp) as (Hb & _).
  by destruct (is_block_bounds _ _ _ Hgeo Hb) as (_ & ? & _).
Qed.
Lemma head_valid_ok r n p o s x : mget a.(a_metadata) p = Some x → head_ok x o s → leaf s →
  head_valid a (mk_owner r n p o s) = Done true.
Proof.
  intros Hx (H1 & H2 & H3 & H4 & H5 & H6) Hl. unfold head_valid. simpl. rewrite (load_metadata_ok _ _ _ Hx). run.
  rewrite decide_False by lia. f_equal. destruct (decide (s = BUDDY_FREE)) as [Hs|Hs]; [by rewrite bool_decide_true by auto|].
  destruct (H4 Hs) as [Hn Hp]. rewrite decide_False by (rewrite Hn, Hp; tauto).
  destruct (decide (s = BUDDY_INTERNAL)) as [Hi|Hi]; [by rewrite bool_decide_true by auto|].
  assert (s = BUDDY_ALLOCATED) as Ha by (unfold leaf in Hl; tauto).
  destruct (H6 Ha) as (? & ? & ?). rewrite bool_decide_true; [done|]. split_and!; try done. lia.
Qed.
Lemma free_owner o p : 0 ≤ o ≤ 31 → p ∈ fl o →
  ∃ r, r ∈ a.(a_roots) ∧ block r p o ∧ owner_find a p = Done (Some (mk_owner r (node r p o) p o BUDDY_FREE)).
Proof.
  intros Ho Hp. destruct (member_block o p Ho Hp) as ((r & Hr & Hb) & Hs & _). exists r. split_and!; try done.
  rewrite <-Hs. apply owner_find_leaf; try done; [apply Hgeo|apply Hh|apply Hshape|rewrite Hs; by left|].
  pose proof (pow_pos o ltac:(lia)). lia.
Qed.
Lemma free_head_plain_ok o p : 0 ≤ o ≤ 31 → p ∈ fl o → free_head_plain a p o = Done true.
Proof.
  intros Ho Hp. destruct (free_owner o p Ho Hp) as (r & _ & _ & E). unfold free_head_plain. rewrite E. run. simpl.
  rewrite decide_True by done. destruct (member_meta o p Ho Hp) as (x & Hx & Hok).
  by apply (head_valid_ok _ _ _ _ _ x); [..|left].
Qed.
Lemma neighbour_valid_ok o p q x back : 0 ≤ o ≤ 31 → q ∈ fl o → q ≠ p → mget a.(a_metadata) q = Some x → back x = p →
  neighbour_valid a p o q back = Done true.
Proof.
  intros Ho Hq Hne Hx Hback. unfold neighbour_valid. rewrite decide_False by done.
  rewrite free_head_plain_ok by done. run. rewrite (load_metadata_ok _ _ _ Hx). run. by rewrite bool_decide_true.
Qed.
(** A member with its neighbours. *)
Lemma member_split o p : 0 ≤ o ≤ 31 → p ∈ fl o → ∃ l1 l2 x, fl o = l1 ++ p :: l2 ∧ p ∉ l1 ∧ p ∉ l2 ∧
  mget a.(a_metadata) p = Some x ∧ head_ok x o BUDDY_FREE ∧
  x.(m_next) = hd NONE l2 ∧ x.(m_previous) = default NONE (last l1).
Proof.
  intros Ho Hp. apply list_elem_of_split in Hp as Hsp. destruct Hsp as (l1 & l2 & E).
  pose proof (heap_nodup _ _ _ _ Hh o Ho) as Hnd. pose proof (heap_linked _ _ _ _ Hh o Ho) as Hl. rewrite E in Hnd, Hl.
  apply NoDup_app in Hnd as (_ & Hd & [Hn2 _]%NoDup_cons). apply seg_app in Hl as [_ [(x & Hx & Hnext & Hprev) _]].
  exists l1, l2, x. destruct (member_meta o p Ho Hp) as (y & Hy & Hok). assert (y = x) as -> by congruence.
  split_and!; try done. intros Hin. apply (Hd p Hin). by left.
Qed.
Lemma free_head_valid_ok r n o p : 0 ≤ o ≤ 31 → p ∈ fl o → free_head_valid a (mk_owner r n p o BUDDY_FREE) = Done true.
Proof.
  intros Ho Hp. destruct (member_split o p Ho Hp) as (l1 & l2 & x & E & Hn1 & Hn2 & Hx & Hok & Hnext & Hprev).
  unfold free_head_valid. cbn [o_state o_first o_order]. rewrite decide_False by auto. run.
  rewrite (head_valid_ok r n p o BUDDY_FREE x Hx Hok) by (by left). run. simpl.
  rewrite (load_metadata_ok _ _ _ Hx). run. pose proof (heap_linked _ _ _ _ Hh o Ho) as Hl. rewrite E in Hl.
  assert (Hin : ∀ q, q ∈ l1 ++ p :: l2 → q ∈ fl o ∧ q ≠ NONE).
  { intros q Hq. rewrite <-E in Hq. split; [done|]. destruct (member_block o q Ho Hq) as (Hb & _).
    pose proof (is_block_bounds _ _ _ Hgeo Hb). unfold NONE. lia. }
  assert (Hleft : (if decide (m_previous x = NONE)
     then head ← aread a.(a_free_heads) (Z.to_nat o); Done (bool_decide (head = p))
     else neighbour_valid a p o (m_previous x) m_next) = Done true).
  { rewrite Hprev. destruct l1 as [|q l1 _] using rev_ind.
    - rewrite decide_True by done. rewrite (aread_ok _ _ _ (heap_heads _ _ _ _ Hh o Ho)), E. run. by rewrite bool_decide_true.
    - rewrite last_snoc. simpl. destruct (Hin q ltac:(set_solver)) as [Hq Hqn]. rewrite decide_False by done.
      rewrite <-app_assoc in Hl. apply seg_app in Hl as [_ [(y & Hy & Hynext & _) _]].
      apply (neighbour_valid_ok o p q y); try done. intros ->. apply Hn1. set_solver. }
  rewrite Hleft. run. simpl. rewrite Hnext. destruct l2 as [|q l2]; simpl; [done|].
  destruct (Hin q ltac:(set_solver)) as [Hq Hqn]. rewrite decide_True by done.
  apply seg_app in Hl as [_ [_ [(y & Hy & _ & Hyprev) _]]]. apply (neighbour_valid_ok o p q y); try done. set_solver.
Qed.
End heap.

(** ** Relinking *)
Definition lput (fl : free_lists) (o : Z) (l : list Z) : free_lists := λ o', if decide (o' = o) then l else fl o'.
Lemma lput_eq fl o l : lput fl o l o = l.
Proof. unfold lput. by rewrite decide_True. Qed.
Lemma lput_ne fl o l o' : o' ≠ o → lput fl o l o' = fl o'.
Proof. intros. unfold lput. by rewrite decide_False. Qed.

(** [m'] differs from [m] in links only. *)
Definition relinked (m m' : heads) : Prop :=
  ∀ q x, 0 ≤ q → mget m q = Some x → ∃ n b, mget m' q = Some (with_links x n b).
Lemma relinked_refl m : relinked m m.
Proof. intros q x _ Hx. exists x.(m_next), x.(m_previous). rewrite Hx. by destruct x. Qed.
Lemma relinked_trans m1 m2 m3 : relinked m1 m2 → relinked m2 m3 → relinked m1 m3.
Proof. intros H1 H2 q x Hq Hx. destruct (H1 q x Hq Hx) as (n & b & Hx2). destruct (H2 q _ Hq Hx2) as (n' & b' & ?). by exists n', b'. Qed.
Lemma relinked_mset m q x n b : 0 ≤ q → mget m q = Some x → relinked m (mset m q (with_links x n b)).
Proof.
  intros Hq Hx p y Hp Hy. rewrite mget_mset by (try done; by eexists). destruct (decide (p = q)) as [->|].
  - assert (y = x) as -> by congruence. eauto.
  - rewrite Hy. exists y.(m_next), y.(m_previous). by destruct y.
Qed.
Lemma relinked_back m m' q x' : 0 ≤ q → length m' = length m → relinked m m' → mget m' q = Some x' →
  ∃ x n b, mget m q = Some x ∧ x' = with_links x n b.
Proof.
  intros Hq Hlen Hr Hx'. apply lookup_lt_Some in Hx' as Hlt. rewrite Hlen in Hlt. apply lookup_lt_is_Some in Hlt as [x Hx].
  destruct (Hr q x Hq Hx) as (n & b & E). exists x, n, b. split; [done|congruence].
Qed.
Lemma relinked_head m m' q x o : 0 ≤ q → relinked m m' → mget m q = Some x → head_ok x o BUDDY_FREE →
  ∃ x', mget m' q = Some x' ∧ head_ok x' o BUDDY_FREE.
Proof.
  intros Hq Hr Hx (H1 & H2 & H3 & H4 & H5 & H6). destruct (Hr q x Hq Hx) as (n & b & Hx'). eexists. split; [done|].
  split_and!; [done..| | |]; intros; done.
Qed.

(** The last of [l] is followed by [v]; the first of [l] is preceded by [v]. *)
Definition set_after (m : heads) (l : list Z) (v : Z) : heads :=
  match last l with
  | None => m
  | Some q => match mget m q with Some x => mset m q (with_links x v x.(m_previous)) | None => m end
  end.
Definition set_before (m : heads) (l : list Z) (v : Z) : heads :=
  match l with
  | [] => m
  | q :: _ => match mget m q with Some x => mset m q (with_links x x.(m_next) v) | None => m end
  end.
Lemma set_after_spec m l before after v :
  Forall (λ p, 0 ≤ p) l → NoDup l → seg m before l after →
  seg (set_after m l v) before l v ∧ length (set_after m l v) = length m ∧ relinked m (set_after m l v) ∧
  ∀ q, 0 ≤ q → q ∉ l → mget (set_after m l v) q = mget m q.
Proof.
  intros Hpos Hnd Hs. unfold set_after. destruct l as [|q l _] using rev_ind; [split_and!; try done; apply relinked_refl|].
  rewrite last_snoc. pose proof Hs as [_ [(x & Hx & _) _]]%seg_app. rewrite Hx.
  rewrite Forall_app, Forall_singleton in Hpos. destruct Hpos as [Hpl Hq].
  split_and!; [|apply length_mset|by apply relinked_mset|].
  - apply (seg_set_after _ _ _ _ after); try done. by rewrite Forall_app, Forall_singleton.
  - intros p Hp Hnin. apply mget_mset_ne; [done..|]. intros ->. set_solver.
Qed.
Lemma set_before_spec m l before after v :
  Forall (λ p, 0 ≤ p) l → NoDup l → seg m before l after →
  seg (set_before m l v) v l after ∧ length (set_before m l v) = length m ∧ relinked m (set_before m l v) ∧
  ∀ q, 0 ≤ q → q ∉ l → mget (set_before m l v) q = mget m q.
Proof.
  intros Hpos Hnd Hs. unfold set_before. destruct l as [|q l]; [split_and!; try done; apply relinked_refl|].
  pose proof Hs as [(x & Hx & _) _]. rewrite Hx. apply Forall_cons in Hpos as Hpos'. destruct Hpos' as [Hq Hpl].
  split_and!; [by apply (seg_set_before _ before)|apply length_mset|by apply relinked_mset|].
  intros p Hp Hnin. apply mget_mset_ne; [done..|]. intros ->. set_solver.
Qed.

(** A heap whose list of order [o] and whose heads' links change. *)
Lemma heap_relink a σ fl out out' o l m' :
  heap a σ fl out → 0 ≤ o ≤ 31 →
  length m' = length a.(a_metadata) → relinked a.(a_metadata) m' → seg m' NONE l NONE → NoDup l →
  (∀ p, p ∈ l ↔ is_block a p o ∧ σ p o = BUDDY_FREE ∧ (p, o) ∉ out') →
  (∀ p o', ¬ (o' = o ∧ σ p o = BUDDY_FREE) → (p, o') ∈ out' ↔ (p, o') ∈ out) →
  (∀ p o', is_block a p o' → leaf (σ p o') → ¬ (o' = o ∧ σ p o = BUDDY_FREE) → (p, o') ∉ out' →
     mget m' p = mget a.(a_metadata) p) →
  (∀ p, p ∈ l → ∃ x, mget m' p = Some x ∧ head_ok x o BUDDY_FREE) →
  heap (set_free_heads (set_metadata a m') (<[Z.to_nat o := hd NONE l]> a.(a_free_heads))) σ (lput fl o l) out'.
Proof.
  intros Hh Ho Hlen Hrel Hseg Hnd Hmem Hout Hframe Hmeta. pose proof Hh as [Hgeo Htree Hshape Hheads Hlink Hnds Hms Hmd Hhn].
  split; [| |done|..].
  - apply geometry_set_heads; [rewrite length_insert; apply (geo_heads _ Hgeo)|]. by apply geometry_set_metadata.
  - done.
  - intros o' Ho'. simpl. pose proof (geo_heads _ Hgeo). destruct (decide (o' = o)) as [->|Hne].
    + rewrite lput_eq. apply list_lookup_insert_eq. lia.
    + rewrite lput_ne by done. rewrite list_lookup_insert_ne by lia. by apply Hheads.
  - intros o' Ho'. simpl. destruct (decide (o' = o)) as [->|Hne]; [by rewrite lput_eq|].
    rewrite lput_ne by done. apply (seg_ext a.(a_metadata)); [|by apply Hlink].
    intros p Hp. apply Hms in Hp as (Hb & Hs & Hno); [|done]. apply (Hframe p o'); try done; [rewrite Hs; by left|tauto|].
    by rewrite Hout by tauto.
  - intros o' Ho'. destruct (decide (o' = o)) as [->|Hne]; [by rewrite lput_eq|]. rewrite lput_ne by done. by apply Hnds.
  - intros o' p Ho'. destruct (decide (o' = o)) as [->|Hne]; [rewrite lput_eq; apply Hmem|].
    rewrite lput_ne, Hms by done. by rewrite Hout by tauto.
  - intros p o' Hb Hl Hno. simpl. destruct (decide (o' = o ∧ σ p o = BUDDY_FREE)) as [[-> Hs]|Hc].
    + rewrite Hs. apply Hmeta, Hmem. done.
    + rewrite (Hframe p o') by done. apply Hmd; [done..|]. by rewrite <-Hout.
  - intros p x' Hp Hx' Hst. destruct (relinked_back _ _ p x' Hp Hlen Hrel Hx') as (x & n & b & Hx & ->). exact (Hhn p x Hp Hx Hst).
Qed.

Section relink.
Context (a : physical_page_allocator) (σ : states) (fl : free_lists) (out : list (Z * Z)).
Hypothesis Hh : heap a σ fl out.
#[local] Notation Hgeo := (heap_geo _ _ _ _ Hh).
#[local] Notation Hshape := (heap_shape _ _ _ _ Hh).

Lemma none_or_page o p : 0 ≤ o ≤ 31 → p ∈ fl o → p ≠ NONE ∧ 0 ≤ p.
Proof.
  intros Ho Hp. destruct (member_block a σ fl out Hh o p Ho Hp) as (Hb & _).
  pose proof (is_block_bounds _ _ _ Hgeo Hb). unfold NONE. lia.
Qed.
(** What [free_remove] does to the metadata. *)
Definition removed (m : heads) (l1 : list Z) (p : Z) (l2 : list Z) (x : physical_page_metadata) : heads :=
  mset (set_before (set_after m l1 (hd NONE l2)) l2 (default NONE (last l1))) p (with_links x NONE NONE).

Lemma removed_spec o p l1 l2 x : 0 ≤ o ≤ 31 → fl o = l1 ++ p :: l2 → mget a.(a_metadata) p = Some x →
  let m' := removed a.(a_metadata) l1 p l2 x in
  seg m' NONE (l1 ++ l2) NONE ∧ length m' = length a.(a_metadata) ∧ relinked a.(a_metadata) m' ∧
  (∀ q, 0 ≤ q → q ∉ fl o → mget m' q = mget a.(a_metadata) q) ∧ mget m' p = Some (with_links x NONE NONE).
Proof.
  intros Ho E Hx. pose proof (heap_linked _ _ _ _ Hh o Ho) as Hl. pose proof (heap_nodup _ _ _ _ Hh o Ho) as Hnd.
  pose proof (members_nonneg a σ fl out Hh o Ho) as Hpos. rewrite E in *.
  apply Forall_app in Hpos as [Hpos1 [Hp Hpos2]%Forall_cons]. apply NoDup_app in Hnd as (Hnd1 & Hd & [Hn2 Hnd2]%NoDup_cons).
  apply seg_app in Hl as [Hs1 [_ Hs2]].
  destruct (set_after_spec _ _ _ _ (hd NONE l2) Hpos1 Hnd1 Hs1) as (Ha1 & Ha2 & Ha3 & Ha4).
  set (m1 := set_after a.(a_metadata) l1 (hd NONE l2)) in *.
  assert (Hs2' : seg m1 p l2 NONE).
  { apply (seg_ext a.(a_metadata)); [|done]. intros q Hq. apply Ha4; [rewrite Forall_forall in Hpos2; by apply Hpos2|].
    intros Hq1. apply (Hd q Hq1). by right. }
  destruct (set_before_spec _ _ _ _ (default NONE (last l1)) Hpos2 Hnd2 Hs2') as (Hb1 & Hb2 & Hb3 & Hb4).
  unfold removed. fold m1. set (m2 := set_before m1 l2 (default NONE (last l1))) in *.
  assert (Hp1 : p ∉ l1) by (intros Hq1; apply (Hd p Hq1); by left).
  assert (Hm2 : mget m2 p = Some x) by (rewrite Hb4, Ha4; done).
  assert (Hne : ∀ q, 0 ≤ q → q ≠ p → mget (mset m2 p (with_links x NONE NONE)) q = mget m2 q) by (intros; by apply mget_mset_ne).
  split_and!.
  - apply seg_app. split.
    + apply (seg_ext m1); [|done]. intros q Hq. rewrite Forall_forall in Hpos1. rewrite Hne; [|by apply Hpos1|by intros ->].
      apply Hb4; [by apply Hpos1|]. intros Hq2. apply (Hd q Hq). by right.
    + apply (seg_ext m2); [|done]. intros q Hq. rewrite Forall_forall in Hpos2. apply Hne; [by apply Hpos2|by intros ->].
  - rewrite length_mset. congruence.
  - eapply relinked_trans; [exact Ha3|]. eapply relinked_trans; [exact Hb3|]. by apply relinked_mset.
  - intros q Hq Hnin. rewrite Hne by (try done; set_solver). rewrite Hb4, Ha4 by (try done; set_solver). done.
  - apply mget_mset_eq. by eexists.
Qed.

Lemma free_remove_eq o p l1 l2 x : 0 ≤ o ≤ 31 → fl o = l1 ++ p :: l2 → mget a.(a_metadata) p = Some x →
  x.(m_order) = o → x.(m_next) = hd NONE l2 → x.(m_previous) = default NONE (last l1) →
  free_remove a p = Done (set_free_heads (set_metadata a (removed a.(a_metadata) l1 p l2 x))
                            (<[Z.to_nat o := hd NONE (l1 ++ l2)]> a.(a_free_heads))).
Proof.
  intros Ho E Hx Hord Hnext Hprev. pose proof (geo_heads _ Hgeo) as Hlen.
  pose proof (heap_heads _ _ _ _ Hh o Ho) as Hhead. pose proof (heap_nodup _ _ _ _ Hh o Ho) as Hnd.
  pose proof (heap_linked _ _ _ _ Hh o Ho) as Hl. rewrite E in Hhead, Hnd, Hl.
  assert (Hin : ∀ q, q ∈ l1 ++ p :: l2 → q ≠ NONE ∧ 0 ≤ q) by (intros q Hq; apply (none_or_page o); [done|by rewrite E]).
  destruct (Hin p ltac:(set_solver)) as [Hpn Hp0].
  unfold free_remove. rewrite (load_metadata_ok _ _ _ Hx). run. rewrite Hnext, Hprev, Hord. unfold removed.
  (* The predecessor *)
  set (m1 := set_after a.(a_metadata) l1 (hd NONE l2)).
  assert (H1 : (if decide (default NONE (last l1) = NONE)
      then heads ← awrite a.(a_free_heads) (Z.to_nat o) (hd NONE l2); Done (set_free_heads a heads)
      else store_next a (default NONE (last l1)) (hd NONE l2)) =
    Done (set_free_heads (set_metadata a m1) (<[Z.to_nat o := hd NONE (l1 ++ l2)]> a.(a_free_heads)))).
  { unfold m1, set_after. destruct l1 as [|q l1 _] using rev_ind.
    - rewrite decide_True by done. rewrite awrite_ok by lia. by destruct a.
    - rewrite last_snoc. simpl. rewrite decide_False by (apply Hin; set_solver).
      rewrite <-app_assoc in Hl. apply seg_app in Hl as [_ [(y & Hy & _) _]]. rewrite Hy.
      rewrite (store_next_ok _ _ _ _ Hy). f_equal.
      rewrite (list_insert_id a.(a_free_heads)); [by destruct a|]. rewrite Hhead. f_equal. by destruct l1. }
  rewrite H1. run. clear H1. simpl.
  (* The successor *)
  set (h' := <[Z.to_nat o := hd NONE (l1 ++ l2)]> a.(a_free_heads)).
  assert (Hm1p : mget m1 p = Some x ∧ ∀ q, q ∈ l2 → mget m1 q = mget a.(a_metadata) q).
  { apply NoDup_app in Hnd as (Hnd1 & Hd & _). apply seg_app in Hl as [Hs1 _].
    assert (Hpos1 : Forall (λ p, 0 ≤ p) l1) by (apply Forall_forall; intros q Hq; apply Hin; set_solver).
    destruct (set_after_spec a.(a_metadata) l1 _ _ (hd NONE l2) Hpos1 Hnd1 Hs1) as (_ & _ & _ & Hf).
    unfold m1. split; [rewrite Hf; [done|done|]; intros Hp1; apply (Hd p Hp1); left|].
    intros q Hq. apply Hf; [apply Hin; set_solver|]. intros Hq1. apply (Hd q Hq1). by right. }
  destruct Hm1p as [Hm1p Hm1]. set (m2 := set_before m1 l2 (default NONE (last l1))).
  assert (H2 : (if decide (hd NONE l2 ≠ NONE)
      then store_previous (set_free_heads (set_metadata a m1) h') (hd NONE l2) (default NONE (last l1))
      else Done (set_free_heads (set_metadata a m1) h')) = Done (set_free_heads (set_metadata a m2) h')).
  { unfold m2, set_before. destruct l2 as [|q l2]; [by rewrite decide_False by auto|]. simpl.
    rewrite decide_True by (apply Hin; set_solver). apply seg_app in Hl as [_ [_ [(y & Hy & _) _]]].
    rewrite (Hm1 q) by left. rewrite Hy. rewrite (store_previous_ok _ _ y) by (simpl; rewrite Hm1 by left; done). done. }
  rewrite H2. run. clear H2.
  assert (Hm2p : mget m2 p = Some x).
  { unfold m2, set_before. destruct l2 as [|q l2]; [done|]. destruct (mget m1 q) eqn:Eq; [|done].
    rewrite mget_mset_ne; [done|apply Hin; set_solver|done|]. apply NoDup_app in Hnd as (_ & _ & [Hn _]%NoDup_cons). set_solver. }
  rewrite (load_metadata_ok _ p x) by done. run. rewrite store_metadata_ok by (by eexists). done.
Qed.
Lemma free_remove_run o p : 0 ≤ o ≤ 31 → p ∈ fl o →
  ∃ l1 l2 m' x, let a' := set_free_heads (set_metadata a m') (<[Z.to_nat o := hd NONE (l1 ++ l2)]> a.(a_free_heads)) in
    fl o = l1 ++ p :: l2 ∧ free_remove a p = Done a' ∧ heap a' σ (lput fl o (l1 ++ l2)) ((p, o) :: out) ∧
    (∀ q, 0 ≤ q → q ∉ fl o → mget m' q = mget a.(a_metadata) q) ∧
    mget a.(a_metadata) p = Some x ∧ mget m' p = Some (with_links x NONE NONE).
Proof.
  intros Ho Hp. destruct (member_split a σ fl out Hh o p Ho Hp) as (l1 & l2 & x & E & Hn1 & Hn2 & Hx & Hok & Hnext & Hprev).
  destruct (member_block a σ fl out Hh o p Ho Hp) as (Hb & Hs & Hno).
  exists l1, l2, (removed a.(a_metadata) l1 p l2 x), x.
  destruct (removed_spec o p l1 l2 x Ho E Hx) as (Hseg & Hlen & Hrel & Hframe & Hp').
  split_and!; try done; [by apply free_remove_eq; [..|apply Hok| |]|].
  pose proof (heap_nodup _ _ _ _ Hh o Ho) as Hnd. rewrite E in Hnd.
  apply heap_relink with (out := out); try done.
  - apply NoDup_app in Hnd as (H1 & H2 & [_ H3]%NoDup_cons). apply NoDup_app. split_and!; try done. set_solver.
  - intros q. rewrite not_elem_of_cons. pose proof (heap_members _ _ _ _ Hh o q Ho) as Hm. rewrite E in Hm.
    split.
    + intros Hq. assert (q ≠ p) by set_solver. destruct Hm as [Hm _]. destruct Hm as (? & ? & ?); [set_solver|].
      split_and!; try done. congruence.
    + intros (? & ? & Hne & ?). assert (q ≠ p) by congruence. destruct Hm as [_ Hm]. specialize (Hm ltac:(done)). set_solver.
  - intros q o' Hc. rewrite elem_of_cons. split; [|by right]. intros [[= -> ->]|?]; [tauto|done].
  - intros q o' Hbq Hlq Hc Hnin. apply Hframe; [by apply (is_block_bounds _ _ _ Hgeo Hbq)|].
    intros Hq. destruct (member_block a σ fl out Hh o q Ho Hq) as (Hbq' & Hsq & _).
    apply Hc. split; [|done]. apply (leaf_same_page a σ q o' o Hgeo Hshape); try done. rewrite Hsq. by left.
  - intros q Hq. assert (Hq' : q ∈ fl o) by (rewrite E; set_solver).
    destruct (member_meta a σ fl out Hh o q Ho Hq') as (y & Hy & Hoky).
    apply (relinked_head a.(a_metadata) _ q y); try done. by apply (none_or_page o).
Qed.

Definition inserted (m : heads) (p : Z) (l : list Z) (x : physical_page_metadata) : heads :=
  set_before (mset m p (with_links x (hd NONE l) NONE)) l p.
Lemma inserted_spec o p x : 0 ≤ o ≤ 31 → 0 ≤ p → p ∉ fl o → mget a.(a_metadata) p = Some x →
  let m' := inserted a.(a_metadata) p (fl o) x in
  seg m' NONE (p :: fl o) NONE ∧ length m' = length a.(a_metadata) ∧ relinked a.(a_metadata) m' ∧
  (∀ q, 0 ≤ q → q ∉ p :: fl o → mget m' q = mget a.(a_metadata) q).
Proof.
  intros Ho Hp Hnin Hx. pose proof (heap_linked _ _ _ _ Hh o Ho) as Hl. pose proof (heap_nodup _ _ _ _ Hh o Ho) as Hnd.
  pose proof (members_nonneg a σ fl out Hh o Ho) as Hpos.
  set (m1 := mset a.(a_metadata) p (with_links x (hd NONE (fl o)) NONE)).
  assert (Hl1 : seg m1 NONE (fl o) NONE).
  { apply (seg_ext a.(a_metadata)); [|done]. intros q Hq. apply mget_mset_ne; [done| |by intros ->].
    rewrite Forall_forall in Hpos. by apply Hpos. }
  destruct (set_before_spec m1 (fl o) _ _ p Hpos Hnd Hl1) as (H1 & H2 & H3 & H4). unfold inserted. fold m1. split_and!.
  - split; [|done]. eexists. rewrite H4 by done. unfold m1. rewrite mget_mset_eq by (by eexists). by split_and!.
  - rewrite H2. apply length_mset.
  - eapply relinked_trans; [|exact H3]. by apply relinked_mset.
  - intros q Hq Hnq. rewrite H4 by (try done; set_solver). apply mget_mset_ne; [done..|]. set_solver.
Qed.
Lemma free_insert_eq o p x : 0 ≤ o ≤ 31 → 0 ≤ p → p ∉ fl o → mget a.(a_metadata) p = Some x →
  free_insert a p o = Done (Some (set_free_heads (set_metadata a (inserted a.(a_metadata) p (fl o) x))
                                   (<[Z.to_nat o := p]> a.(a_free_heads)))).
Proof.
  intros Ho Hp Hnin Hx. pose proof (heap_heads _ _ _ _ Hh o Ho) as Hhead. pose proof (geo_heads _ Hgeo) as Hlen.
  unfold free_insert. rewrite (aread_ok _ _ _ Hhead). run. unfold inserted, set_before.
  destruct (fl o) as [|q l] eqn:E; simpl.
  - rewrite (load_metadata_ok _ _ _ Hx). run. rewrite store_metadata_ok by (by eexists). run. by rewrite awrite_ok by (simpl; lia).
  - assert (Hq : q ∈ fl o) by (rewrite E; left). destruct (none_or_page o q Ho Hq) as [Hqn Hq0].
    rewrite (decide_True (P := q ≠ NONE)) by done.
    destruct (free_owner a σ fl out Hh o q Ho Hq) as (r & _ & _ & ->). run.
    rewrite decide_False by (simpl; tauto). rewrite free_head_valid_ok with (σ := σ) (fl := fl) (out := out) by done. run. simpl.
    pose proof (heap_linked _ _ _ _ Hh o Ho) as Hl. rewrite E in Hl. destruct Hl as [(y & Hy & _ & Hprev) _].
    rewrite (load_metadata_ok _ _ _ Hy). run. rewrite bool_decide_true by done. simpl.
    rewrite (load_metadata_ok _ _ _ Hx). run. rewrite store_metadata_ok by (by eexists). run.
    assert (Hne : q ≠ p) by set_solver.
    assert (Hy' : mget (mset a.(a_metadata) p (with_links x q NONE)) q = Some y) by (by rewrite mget_mset_ne).
    rewrite (decide_True (P := q ≠ NONE)) by done. rewrite (store_previous_ok _ _ y) by done. run. rewrite awrite_ok by (simpl; lia). run.
    by rewrite Hy'.
Qed.
Lemma free_insert_run o p x out0 :
  out = (p, o) :: out0 → (p, o) ∉ out0 → is_block a p o → σ p o = BUDDY_FREE →
  mget a.(a_metadata) p = Some x → head_ok x o BUDDY_FREE →
  ∃ m', let a' := set_free_heads (set_metadata a m') (<[Z.to_nat o := p]> a.(a_free_heads)) in
    free_insert a p o = Done (Some a') ∧ heap a' σ (lput fl o (p :: fl o)) out0 ∧
    (∀ q, 0 ≤ q → q ∉ p :: fl o → mget m' q = mget a.(a_metadata) q).
Proof.
  intros Hout Hno Hb Hs Hx Hok. destruct (is_block_bounds _ _ _ Hgeo Hb) as (Ho & Hp & _).
  assert (Hnin : p ∉ fl o).
  { intros Hin. destruct (member_block a σ fl out Hh o p Ho Hin) as (_ & _ & H). apply H. rewrite Hout. left. }
  exists (inserted a.(a_metadata) p (fl o) x). destruct (inserted_spec o p x Ho Hp Hnin Hx) as (Hseg & Hlen & Hrel & Hframe).
  split_and!; [by apply free_insert_eq| |done].
  assert (Hsame : ∀ q, q ∈ fl o → σ q o = BUDDY_FREE) by (intros q Hq; by apply (member_block a σ fl out Hh o q Ho Hq)).
  apply (heap_relink a σ fl out out0 o (p :: fl o)); try done.
  - apply NoDup_cons. split; [done|]. by apply (heap_nodup _ _ _ _ Hh).
  - intros q. rewrite elem_of_cons, (heap_members _ _ _ _ Hh o q Ho), Hout, not_elem_of_cons. split.
    + intros [->|(? & ? & ? & ?)]; by split_and!.
    + intros (? & ? & ?). destruct (decide (q = p)) as [->|]; [by left|right]. split_and!; try done. congruence.
  - intros q o' Hc. rewrite Hout, elem_of_cons. split; [by right|]. intros [[= -> ->]|?]; [tauto|done].
  - intros q o' Hbq Hlq Hc Hnq. apply Hframe; [by apply (is_block_bounds _ _ _ Hgeo Hbq)|].
    assert (Hcase : ∀ q', q' = q → is_block a q' o → σ q' o = BUDDY_FREE → False).
    { intros q' -> Hbq' Hsq. apply Hc. split; [|done]. apply (leaf_same_page a σ q o' o Hgeo Hshape); try done. rewrite Hsq. by left. }
    rewrite not_elem_of_cons. split; [intros ->; by apply (Hcase p)|].
    intros Hq. destruct (member_block a σ fl out Hh o q Ho Hq) as (? & ? & _). by apply (Hcase q).
  - intros q [->|Hq]%elem_of_cons.
    + by apply (relinked_head a.(a_metadata) _ p x).
    + destruct (member_meta a σ fl out Hh o q Ho Hq) as (y & Hy & Hoky).
      apply (relinked_head a.(a_metadata) _ q y); try done. by apply (none_or_page o).
Qed.
End relink.
