(* ===== verification/PageAllocTheory.v ===== *)
(** * Blocks of the buddy system, and allocation *)
From S2P Require Import Prelude BootMemory PhysicalPage PageStateTheory PageFreeTheory.
Import PhysicalPage.
#[local] Open Scope Z_scope.

(** Both halves of the block of order [o + 1] at [p] get state [h], the block
    itself state [s]. *)
Definition halves (σ : states) (p o h s : Z) : states := λ p' o',
  if decide (o' = o ∧ (p' = p ∨ p' = p + 2 ^ o)) then h
  else if decide (o' = o + 1 ∧ p' = p) then s else σ p' o'.
Lemma halves_left σ p o h s : halves σ p o h s p o = h.
Proof. unfold halves. rewrite decide_True; tauto. Qed.
Lemma halves_right σ p o h s : halves σ p o h s (p + 2 ^ o) o = h.
Proof. unfold halves. rewrite decide_True; tauto. Qed.
Lemma halves_whole σ p o h s : halves σ p o h s p (o + 1) = s.
Proof. unfold halves. rewrite decide_False, decide_True; [done|tauto|lia]. Qed.
Lemma halves_other σ p o h s p' o' :
  ¬ (o' = o ∧ (p' = p ∨ p' = p + 2 ^ o)) → ¬ (o' = o + 1 ∧ p' = p) → halves σ p o h s p' o' = σ p' o'.
Proof. intros. unfold halves. by rewrite !decide_False. Qed.

Lemma half_parent r p q o : 0 ≤ o → block r p (o + 1) → block r q (o + 1) →
  (q = p ∨ q = p + 2 ^ o ∨ q + 2 ^ o = p ∨ q + 2 ^ o = p + 2 ^ o) → q = p.
Proof.
  intros Ho Hp Hq Hc. pose proof (pow_pos o Ho). pose proof (pow_succ o Ho).
  destruct (block_nested r p (o + 1) q (o + 1) Hp Hq) as [?|[?|?]]; lia.
Qed.
Lemma same_root a r r' p o q o' : geometry a → r ∈ a.(a_roots) → r' ∈ a.(a_roots) → block r p o → block r' q o' →
  p ≤ q < p + 2 ^ o → r = r'.
Proof.
  intros Hgeo Hr Hr' Hb Hb' Hq. pose proof (block_inside _ _ _ Hb). pose proof (block_inside _ _ _ Hb').
  pose proof (pow_pos o' ltac:(destruct Hb'; lia)).
  apply (root_unique a Hgeo r r' q); try done; unfold holds_page; lia.
Qed.

(** [σ'] has the states of [σ] but at one block and its halves. *)
Lemma shape_halves_change a σ r p o h s :
  geometry a → shape a.(a_roots) σ → r ∈ a.(a_roots) → 0 ≤ o → block r p (o + 1) →
  σ p (o + 1) ≠ BUDDY_INACTIVE →
  (∀ q o', o' < o → block r q o' → p ≤ q → q + 2 ^ o' ≤ p + 2 ^ (o + 1) → σ q o' = BUDDY_INACTIVE) →
  (s = BUDDY_SPLIT ∧ h = BUDDY_FREE) ∨ (s = BUDDY_FREE ∧ h = BUDDY_INACTIVE) →
  shape a.(a_roots) (halves σ p o h s).
Proof.
  intros Hgeo Hs Hr Ho Hb Hact Hbelow Hhs. pose proof (pow_pos o Ho). pose proof (pow_succ o Ho).
  destruct (block_children r p o Ho Hb) as [HbL HbR].
  assert (Hh : h ≠ BUDDY_SPLIT) by (destruct Hhs as [[-> ->]|[-> ->]]; done).
  assert (Hs0 : s ≠ BUDDY_INACTIVE) by (destruct Hhs as [[-> ->]|[-> ->]]; done).
  split.
  - intros r' Hr'. unfold halves. destruct (decide _) as [[E Hp]|]; [|destruct (decide _); [done|by apply (shape_top _ _ Hs)]].
    exfalso. assert (r = r') as <-.
    { pose proof (root_order a Hgeo r' Hr'). apply (same_root a r r' p (o + 1) r'.(first_page) r'.(r_order)); try done; [apply block_top; lia|lia]. }
    destruct Hb; lia.
  - intros r' q o' Hr' Ho' Hq. pose proof (pow_pos o' Ho').
    pose proof (shape_halves _ _ Hs r' q o' Hr' Ho' Hq) as Hold.
    destruct (decide (o' = o)) as [->|Hne].
    + destruct (decide (q = p)) as [->|Hqp].
      * rewrite halves_whole, halves_left, halves_right. destruct Hhs as [[-> ->]|[-> ->]]; by cbn.
      * assert (Hno : ¬ (q = p ∨ q = p + 2 ^ o ∨ q + 2 ^ o = p ∨ q + 2 ^ o = p + 2 ^ o)).
        { intros Hc. apply Hqp. apply (half_parent r p q o Ho Hb); [|done].
          assert (r = r') as ->; [|done]. destruct Hc as [Hc|[Hc|[Hc|Hc]]].
          - apply (same_root a r r' p (o + 1) q (o + 1)); try done; lia.
          - apply (same_root a r r' p (o + 1) q (o + 1)); try done; lia.
          - symmetry. apply (same_root a r' r q (o + 1) p (o + 1)); try done; lia.
          - apply (same_root a r r' p (o + 1) q (o + 1)); try done; lia. }
        rewrite !halves_other; [done|lia..].
    + destruct (decide (o' + 1 = o ∧ (q = p ∨ q = p + 2 ^ o))) as [[E Hqp]|Hnb].
      * (* Below a half *)
        assert (r = r') as <- by (apply (same_root a r r' p (o + 1) q (o' + 1)); try done; destruct Hqp; lia).
        assert (Eh : halves σ p o h s q (o' + 1) = h) by (unfold halves; rewrite decide_True; tauto). rewrite Eh, decide_False by done.
        destruct (block_children r q o' Ho' Hq) as [HqL HqR]. rewrite !halves_other by lia.
        assert (2 ^ o = 2 * 2 ^ o') by (rewrite <-E; by apply pow_succ).
        split; apply Hbelow; try done; try lia; destruct Hqp; lia.
      * rewrite (halves_other σ p o h s q (o' + 1)); [|tauto|lia].
        destruct (decide (o' = o + 1)) as [->|Hne2]; [|by rewrite !halves_other by lia].
        (* The block is itself a half *)
        assert (Hc : ∀ z, σ z (o + 1) ≠ BUDDY_INACTIVE → halves σ p o h s z (o + 1) ≠ BUDDY_INACTIVE).
        { intros z Hz. unfold halves. rewrite decide_False by lia. by destruct (decide (o + 1 = o + 1 ∧ z = p)). }
        destruct (decide (σ q (o + 1 + 1) = BUDDY_SPLIT)); [destruct Hold; by split; apply Hc|].
        destruct Hold as [Hz1 Hz2]. rewrite !halves_other; [done|lia| |lia|]; intros [_ E]; rewrite E in *; done.
  - intros r' q o' Hr' Hq. unfold halves. repeat destruct (decide _); [..|by apply (shape_range _ _ Hs r')];
      destruct Hhs as [[-> ->]|[-> ->]]; by cbv.
  - intros r' q Hr' Hq. unfold halves. destruct (decide _); [done|]. destruct (decide _); [lia|by apply (shape_bottom _ _ Hs r')].
Qed.
(** A leaf may change hands. *)
Lemma shape_leaf_change roots σ p o s : shape roots σ → leaf (σ p o) → leaf s → shape roots (put σ p o s).
Proof.
  intros Hs Hl Hl'.
  assert (Hact : ∀ q o', put σ p o s q o' = BUDDY_INACTIVE ↔ σ q o' = BUDDY_INACTIVE).
  { intros q o'. unfold put. destruct (decide _) as [[-> ->]|]; [|done].
    unfold leaf, BUDDY_INACTIVE, BUDDY_FREE, BUDDY_ALLOCATED, BUDDY_INTERNAL in *. lia. }
  assert (Hsplit : ∀ q o', put σ p o s q o' = BUDDY_SPLIT ↔ σ q o' = BUDDY_SPLIT).
  { intros q o'. unfold put. destruct (decide _) as [[-> ->]|]; [|done].
    unfold leaf, BUDDY_SPLIT, BUDDY_FREE, BUDDY_ALLOCATED, BUDDY_INTERNAL in *. lia. }
  split.
  - intros r Hr. rewrite Hact. by apply (shape_top _ _ Hs).
  - intros r q o' Hr Ho' Hq. pose proof (shape_halves _ _ Hs r q o' Hr Ho' Hq) as Hold.
    destruct (decide (σ q (o' + 1) = BUDDY_SPLIT)) as [E|E].
    + rewrite decide_True by (by apply Hsplit). by rewrite !Hact.
    + rewrite decide_False by (by rewrite Hsplit). by rewrite !Hact.
  - intros r q o' Hr Hq. unfold put. destruct (decide _); [|by apply (shape_range _ _ Hs r)].
    unfold leaf, BUDDY_FREE, BUDDY_ALLOCATED, BUDDY_INTERNAL in *. lia.
  - intros r q Hr Hq. rewrite Hsplit. by apply (shape_bottom _ _ Hs r).
Qed.

Lemma tree_is_ext a σ σ' : (∀ p o, σ p o = σ' p o) → tree_is a σ → tree_is a σ'.
Proof. intros He Ht r p o Hr Hb. rewrite <-He. by apply Ht. Qed.

(** ** The heap with other trees, or with another block head *)
Lemma heap_retree a σ fl out t σ' out' :
  heap a σ fl out → geometry (set_tree a t) → tree_is (set_tree a t) σ' → shape a.(a_roots) σ' →
  (∀ p o, is_block a p o → σ' p o = BUDDY_FREE ∧ (p, o) ∉ out' ↔ σ p o = BUDDY_FREE ∧ (p, o) ∉ out) →
  (∀ p o, is_block a p o → leaf (σ' p o) → (p, o) ∉ out' → σ p o = σ' p o ∧ (p, o) ∉ out) →
  (∀ p o x, is_block a p o → mget a.(a_metadata) p = Some x → x.(m_state) = PHYSICAL_PAGE_STATE_ALLOCATED_HEAD →
     σ p o = BUDDY_ALLOCATED → σ' p o = BUDDY_ALLOCATED) →
  heap (set_tree a t) σ' fl out'.
Proof.
  intros [Hgeo Htree Hshape Hheads Hlink Hnds Hms Hmd Hhn] Hgeo' Htree' Hshape' Hfree Hleaf Hall. split; try done.
  - intros o p Ho. rewrite Hms by done. split; intros (Hb & H); (split; [done|]); by apply Hfree.
  - intros p o Hb Hl Hno. destruct (Hleaf p o Hb Hl Hno) as [E Hno']. simpl. rewrite <-E. apply Hmd; [done| |done]. by rewrite E.
  - intros p x Hp Hx Hst. destruct (Hhn p x Hp Hx Hst) as [Hb E]. split; [done|]. by apply (Hall p _ x).
Qed.
Lemma heap_mark a σ fl out p x :
  heap a σ fl out → is_Some (mget a.(a_metadata) p) → 0 ≤ p →
  (∀ o, is_block a p o → leaf (σ p o) → (p, o) ∈ out) →
  (x.(m_state) = PHYSICAL_PAGE_STATE_ALLOCATED_HEAD → is_block a p x.(m_order) ∧ σ p x.(m_order) = BUDDY_ALLOCATED) →
  heap (set_metadata a (mset a.(a_metadata) p x)) σ fl out.
Proof.
  intros Hh Hsome Hp Hout Hst. pose proof Hh as [Hgeo Htree Hshape Hheads Hlink Hnds Hms Hmd Hhn].
  assert (Hfree : ∀ o q, 0 ≤ o ≤ 31 → q ∈ fl o → mget (mset a.(a_metadata) p x) q = mget a.(a_metadata) q).
  { intros o q Ho Hq. apply mget_mset_ne; [done|by apply (none_or_page a σ fl out Hh o)|]. intros ->.
    apply Hms in Hq as (Hb & Hs & Hno); [|done]. apply Hno, Hout; [done|]. rewrite Hs. by left. }
  split; try done.
  - apply geometry_set_metadata; [apply length_mset|done].
  - intros o Ho. apply (seg_ext a.(a_metadata)); [|by apply Hlink]. intros q Hq. by apply (Hfree o).
  - intros q o Hb Hl Hno. simpl. rewrite mget_mset_ne; [by apply Hmd|done|by apply (is_block_bounds _ _ _ Hgeo Hb)|].
    intros ->. by apply Hno, Hout.
  - intros q y Hq. simpl. rewrite mget_mset by done. destruct (decide (q = p)) as [->|]; [intros [= <-]; apply Hst|apply Hhn, Hq].
Qed.
Lemma mark_head_ok a p o s : is_Some (mget a.(a_metadata) p) →
  mark_head a p o s = Done (set_metadata a (mset a.(a_metadata) p
    (mk_metadata NONE NONE (if decide (s = PHYSICAL_PAGE_STATE_ALLOCATED_HEAD) then 1 else 0) o s 0))).
Proof. apply store_metadata_ok. Qed.
Lemma free_head_ok o : head_ok (mk_metadata NONE NONE 0 o PHYSICAL_PAGE_STATE_FREE_HEAD 0) o BUDDY_FREE.
Proof. by split_and!; intros. Qed.
Lemma is_block_halves a r p o : r ∈ a.(a_roots) → 0 ≤ o → block r p (o + 1) → is_block a p o ∧ is_block a (p + 2 ^ o) o.
Proof. intros Hr Ho Hb. destruct (block_children r p o Ho Hb). by split; exists r. Qed.

(** ** What an operation leaves alone *)
Definition upd (a : physical_page_allocator) (t : list Z) (m : heads) (h : list Z) : physical_page_allocator :=
  set_free_heads (set_metadata (set_tree a t) m) h.
(** The blocks that are not free, with their metadata. *)
Definition taken (a : physical_page_allocator) (σ : states) (p o s : Z) (x : physical_page_metadata) : Prop :=
  is_block a p o ∧ σ p o = s ∧ (s = BUDDY_ALLOCATED ∨ s = BUDDY_INTERNAL) ∧ mget a.(a_metadata) p = Some x.
(** No two free halves, but for the blocks in [out]. *)
Definition coalesced (a : physical_page_allocator) (σ : states) (out : list (Z * Z)) : Prop :=
  ∀ r p o, r ∈ a.(a_roots) → 0 ≤ o → block r p (o + 1) → σ p o = BUDDY_FREE → σ (p + 2 ^ o) o = BUDDY_FREE →
    (p, o) ∈ out ∨ (p + 2 ^ o, o) ∈ out.
(** The pages on the free lists. *)
Definition list_pages (l : list Z) (o : Z) : Z := Z.of_nat (length l) * 2 ^ o.
Fixpoint pages_below (n : nat) (fl : free_lists) : Z :=
  match n with O => 0 | S n => pages_below n fl + list_pages (fl (Z.of_nat n)) (Z.of_nat n) end.
Definition free_pages (fl : free_lists) : Z := pages_below 32 fl.

Lemma pages_below_lput n fl o l : 0 ≤ o →
  pages_below n (lput fl o l) =
    pages_below n fl + (if decide (o < Z.of_nat n) then list_pages l o - list_pages (fl o) o else 0).
Proof.
  intros Ho. induction n as [|n IH]; [simpl; rewrite decide_False by lia; lia|]. cbn [pages_below]. rewrite IH.
  destruct (decide (Z.of_nat n = o)) as [<-|Hne].
  - rewrite lput_eq. rewrite decide_False by lia. rewrite decide_True by lia. lia.
  - rewrite lput_ne by done. destruct (decide (o < Z.of_nat n)), (decide (o < Z.of_nat (S n))); lia.
Qed.
Lemma free_pages_lput fl o l : 0 ≤ o ≤ 31 →
  free_pages (lput fl o l) = free_pages fl + list_pages l o - list_pages (fl o) o.
Proof. intros Ho. unfold free_pages. rewrite pages_below_lput, decide_True by lia. lia. Qed.
Lemma free_pages_insert fl o p : 0 ≤ o ≤ 31 → free_pages (lput fl o (p :: fl o)) = free_pages fl + 2 ^ o.
Proof. intros Ho. rewrite free_pages_lput by done. unfold list_pages. cbn [length]. lia. Qed.
Lemma free_pages_remove fl o p l1 l2 : 0 ≤ o ≤ 31 → fl o = l1 ++ p :: l2 →
  free_pages (lput fl o (l1 ++ l2)) = free_pages fl - 2 ^ o.
Proof. intros Ho E. rewrite free_pages_lput by done. unfold list_pages. rewrite E, !length_app. cbn [length]. lia. Qed.

(** Writing the states of a block and its halves, in either order. *)
Lemma set_halves_run a σ r p o h s q q' :
  geometry a → tree_is a σ → r ∈ a.(a_roots) → 0 ≤ o → block r p (o + 1) → 0 ≤ h ≤ 4 → 0 ≤ s ≤ 4 →
  (q = p ∧ q' = p + 2 ^ o) ∨ (q = p + 2 ^ o ∧ q' = p) →
  ∃ t1 t2 t3, tree_set a r (node r q o) h = Done (set_tree a t1) ∧
    tree_set (set_tree a t1) r (node r q' o) h = Done (set_tree a t2) ∧
    tree_set (set_tree a t2) r (node r p (o + 1)) s = Done (set_tree a t3) ∧
    geometry (set_tree a t3) ∧ tree_is (set_tree a t3) (halves σ p o h s).
Proof.
  intros Hgeo Htree Hr Ho Hb Hh Hs Hq. destruct (block_children r p o Ho Hb) as [HbL HbR].
  assert (Hbq : block r q o ∧ block r q' o) by (destruct Hq as [[-> ->]|[-> ->]]; done). destruct Hbq as [Hbq Hbq'].
  destruct (tree_set_is a σ Hgeo Htree r q o h Hr Hbq Hh) as (t1 & E1 & Hg1 & Ht1).
  destruct (tree_set_is _ _ Hg1 Ht1 r q' o h Hr Hbq' Hh) as (t2 & E2 & Hg2 & Ht2).
  destruct (tree_set_is _ _ Hg2 Ht2 r p (o + 1) s Hr Hb Hs) as (t3 & E3 & Hg3 & Ht3).
  exists t1, t2, t3. split_and!; try done. revert Ht3. apply tree_is_ext. intros p' o'. unfold put, halves.
  pose proof (pow_pos o Ho). repeat destruct (decide _); try done; exfalso; destruct Hq as [[-> ->]|[-> ->]]; lia.
Qed.

(** ** Allocating a block

    The free block found is taken off its list and halved until it has the
    requested order; each upper half goes to its free list. *)
Import PhysicalPage.

(** What is taken does not depend on the metadata of free blocks. *)
Lemma taken_frame a a' σ σ' :
  a'.(a_roots) = a.(a_roots) →
  (∀ p o, is_block a p o → σ' p o = BUDDY_ALLOCATED ∨ σ' p o = BUDDY_INTERNAL ∨ σ p o = BUDDY_ALLOCATED ∨ σ p o = BUDDY_INTERNAL →
     σ' p o = σ p o ∧ mget a'.(a_metadata) p = mget a.(a_metadata) p) →
  ∀ p o s x, taken a' σ' p o s x ↔ taken a σ p o s x.
Proof.
  intros Hr He p o s x. unfold taken, is_block. rewrite Hr. split.
  - intros (Hb & Hs & Hs' & Hx). destruct (He p o Hb) as [E1 E2]; [rewrite Hs; tauto|]. split_and!; congruence.
  - intros (Hb & Hs & Hs' & Hx). destruct (He p o Hb) as [E1 E2]; [rewrite Hs; tauto|]. split_and!; congruence.
Qed.
(** ... so relinking free blocks of one order leaves it alone. *)
Lemma taken_relinked a a' σ fl out o (L : list Z) : heap a σ fl out → a'.(a_roots) = a.(a_roots) →
  (∀ q, q ∈ L → is_block a q o ∧ σ q o = BUDDY_FREE) →
  (∀ q, 0 ≤ q → q ∉ L → mget a'.(a_metadata) q = mget a.(a_metadata) q) →
  ∀ p k s x, taken a' σ p k s x ↔ taken a σ p k s x.
Proof.
  intros Hh Hr HL Hframe. apply taken_frame; [done|]. intros q k Hq Hs. split; [done|].
  apply Hframe; [by apply (is_block_bounds a q k (heap_geo _ _ _ _ Hh) Hq)|]. intros [Hb Hf]%HL.
  assert (k = o) as ->.
  { apply (leaf_same_page a σ q); try done; [apply Hh|apply Hh| |rewrite Hf; by left]. unfold leaf. tauto. }
  rewrite Hf in Hs. by destruct Hs as [?|[?|[?|?]]].
Qed.

Section split.
Context (a : physical_page_allocator) (σ : states) (fl : free_lists) (r : physical_page_root) (p o : Z).
Hypothesis Hh : heap a σ fl [(p, o + 1)].
Hypothesis Hr : r ∈ a.(a_roots).
Hypothesis Ho : 0 ≤ o.
Hypothesis Hb : block r p (o + 1).
Hypothesis Hfree : σ p (o + 1) = BUDDY_FREE.
#[local] Notation σ1 := (halves σ p o BUDDY_FREE BUDDY_SPLIT).
#[local] Notation up := (p + 2 ^ o).

Lemma split_kids : σ p o = BUDDY_INACTIVE ∧ σ up o = BUDDY_INACTIVE.
Proof.
  pose proof (shape_halves _ _ (heap_shape _ _ _ _ Hh) r p o Hr Ho Hb) as H. rewrite decide_False in H; [done|]. by rewrite Hfree.
Qed.
Lemma split_shape : shape a.(a_roots) σ1.
Proof.
  pose proof (heap_shape _ _ _ _ Hh) as Hs.
  apply (shape_halves_change a σ r); try done; [apply Hh|by rewrite Hfree| |by left].
  intros q o' Hlt Hq H1 H2. apply (below_inactive a.(a_roots) σ r p (o + 1)); try done; [lia|by rewrite Hfree].
Qed.
Lemma split_cases q o' : σ1 q o' = BUDDY_FREE ∧ o' = o ∧ σ q o' = BUDDY_INACTIVE ∧ (q = p ∨ q = up) ∨
  σ1 q o' = BUDDY_SPLIT ∧ o' = o + 1 ∧ q = p ∨ σ1 q o' = σ q o' ∧ ¬ (o' = o ∧ (q = p ∨ q = up)) ∧ ¬ (o' = o + 1 ∧ q = p).
Proof.
  destruct split_kids as [H1 H2]. unfold halves. destruct (decide _) as [[-> Hq]|]; [left; destruct Hq as [-> | ->]; tauto|].
  destruct (decide _) as [[-> ->]|]; [tauto|]. right; right. tauto.
Qed.
Lemma split_heap t : geometry (set_tree a t) → tree_is (set_tree a t) σ1 → heap (set_tree a t) σ1 fl [(up, o); (p, o)].
Proof.
  intros Hg Ht. pose proof (pow_pos o Ho). apply (heap_retree a σ fl [(p, o + 1)]); try done; [apply split_shape|..].
  - intros q o' Hq. rewrite !not_elem_of_cons. destruct (split_cases q o') as [(-> & -> & -> & Hc)|[(-> & -> & ->)|(-> & H1 & H2)]].
    + split; [|by intros [? _]]. intros (_ & H1 & H2 & _). destruct Hc; congruence.
    + split; [by intros [? _]|]. by intros (_ & ? & _).
    + split; intros [? _]; (split_and!; [done|..]); try apply not_elem_of_nil; intros [= -> ->]; tauto.
  - intros q o' Hq Hl. rewrite !not_elem_of_cons. destruct (split_cases q o') as [(_ & -> & _ & Hc)|[(E & -> & ->)|(-> & H1 & H2)]].
    + intros (H1 & H2 & _). destruct Hc; congruence.
    + rewrite E in Hl. unfold leaf in Hl. by destruct Hl as [?|[?|?]].
    + intros _. split_and!; [done| |apply not_elem_of_nil]. intros [= -> ->]. tauto.
  - intros q o' x _ _ _. destruct (split_cases q o') as [(_ & -> & -> & _)|[(_ & -> & ->)|(-> & _)]]; [done| |done]. by rewrite Hfree.
Qed.
Lemma split_coalesced a' out : a'.(a_roots) = a.(a_roots) → coalesced a σ [(p, o + 1)] → coalesced a' σ1 ((p, o) :: out).
Proof.
  intros Hroots Hc r' q o' Hr' Ho' Hq H1 H2. rewrite Hroots in Hr'.
  destruct (split_cases q o') as [(_ & -> & _ & Hqp)|[(E & _)|(E1 & N1 & N2)]]; [|rewrite E in H1; done|].
  - left. assert (q = p) as ->; [|left]. apply (half_parent r p q o Ho Hb); [|tauto].
    assert (r = r') as ->; [|done]. pose proof (pow_pos o Ho). pose proof (pow_succ o Ho).
    apply (same_root a r r' p (o + 1) q (o + 1)); try done; [apply Hh|]. destruct Hqp; lia.
  - destruct (split_cases (q + 2 ^ o') o') as [(_ & -> & _ & Hqp)|[(E & _)|(E2 & N3 & N4)]]; [|rewrite E in H2; done|].
    + exfalso. apply N1. split; [done|]. left. pose proof (pow_pos o Ho). pose proof (pow_succ o Ho).
      apply (half_parent r p q o Ho Hb); [|lia]. assert (r = r') as ->; [|done].
      destruct (block_children r' q o Ho' Hq) as [_ Hq2].
      apply (same_root a r r' p (o + 1) (q + 2 ^ o) o); try done; [apply Hh|]. destruct Hqp; lia.
    + rewrite E1 in H1. rewrite E2 in H2. destruct (Hc r' q o' Hr' Ho' Hq H1 H2) as [Hi|Hi];
        apply list_elem_of_singleton in Hi; injection Hi as ? ?; tauto.
Qed.
End split.

(** One round of the loop. *)
Lemma split_once a σ fl r p o n :
  heap a σ fl [(p, o + 1)] → coalesced a σ [(p, o + 1)] → r ∈ a.(a_roots) → 0 ≤ o → block r p (o + 1) → σ p (o + 1) = BUDDY_FREE →
  ∃ t m h fl', let a' := upd a t m h in
    split_down (S n) a r (node r p (o + 1)) p (o + 1) = split_down n a' r (node r p o) p o ∧
    heap a' (halves σ p o BUDDY_FREE BUDDY_SPLIT) fl' [(p, o)] ∧ coalesced a' (halves σ p o BUDDY_FREE BUDDY_SPLIT) [(p, o)] ∧
    free_pages fl' = free_pages fl + 2 ^ o ∧
    ∀ q o' s x, taken a' (halves σ p o BUDDY_FREE BUDDY_SPLIT) q o' s x ↔ taken a σ q o' s x.
Proof.
  intros Hh Hc Hr Ho Hb Hfree. pose proof (heap_geo _ _ _ _ Hh) as Hgeo. pose proof (heap_tree _ _ _ _ Hh) as Htree.
  destruct (split_kids a σ fl r p o Hh Hr Ho Hb Hfree) as [K1 K2].
  destruct (block_children r p o Ho Hb) as [HbL HbR]. destruct (node_children r p o Ho Hb) as [NL NR].
  destruct (set_halves_run a σ r p o BUDDY_FREE BUDDY_SPLIT p (p + 2 ^ o)) as (t1 & t2 & t & E1 & E2 & E3 & Hg & Ht); try done; [by left|].
  pose proof (split_heap a σ fl r p o Hh Hr Ho Hb Hfree t Hg Ht) as Hh1. set (σ1 := halves σ p o BUDDY_FREE BUDDY_SPLIT) in *.
  assert (Hbup : is_block a (p + 2 ^ o) o) by (by exists r).
  destruct (is_block_bounds a (p + 2 ^ o) o Hgeo Hbup) as (Ho31 & Hup0 & Hup1 & Hup2 & Hpow & Hsome).
  destruct (is_block_bounds a p o Hgeo ltac:(by exists r)) as (_ & Hp0 & _). pose proof (geo_total _ Hgeo).
  assert (Hfup : σ1 (p + 2 ^ o) o = BUDDY_FREE) by apply halves_right.
  set (x := mk_metadata NONE NONE 0 o PHYSICAL_PAGE_STATE_FREE_HEAD 0).
  set (m1 := mset a.(a_metadata) (p + 2 ^ o) x).
  assert (Hh2 : heap (set_metadata (set_tree a t) m1) σ1 fl [(p + 2 ^ o, o); (p, o)]).
  { apply (heap_mark (set_tree a t) σ1 fl _ (p + 2 ^ o) x); [done|done|lia| |done]. intros o' Hb' Hl'.
    assert (o' = o) as ->; [|left]. apply (leaf_same_page (set_tree a t) σ1 (p + 2 ^ o)); try done; [apply Hh1|].
    rewrite Hfup. by left. }
  destruct (free_insert_run _ _ _ _ Hh2 o (p + 2 ^ o) x [(p, o)]) as (m & E4 & Hh3 & Hframe);
    [done| |done|done|by apply mget_mset_eq|apply free_head_ok|].
  { rewrite list_elem_of_singleton. intros [= E]. lia. }
  exists t, m, (<[Z.to_nat o := p + 2 ^ o]> a.(a_free_heads)), (lput fl o (p + 2 ^ o :: fl o)). split_and!.
  - cbn [split_down]. rewrite <-NL, <-NR.
    rewrite (tree_get_is a σ Hgeo Htree r p o), K1 by done. run. rewrite trap_if_ok by auto. run.
    rewrite (tree_get_is a σ Hgeo Htree r (p + 2 ^ o) o), K2 by done. run. rewrite trap_if_ok by auto. run.
    replace (o + 1 - 1) with o by lia. rewrite order_page_count_pow by done.
    rewrite (u32_small (2 ^ o)) by mlia. rewrite (u32_small (p + 2 ^ o)) by mlia.
    rewrite E1. run. rewrite E2. run. rewrite E3. run. rewrite mark_head_ok by done. run.
    rewrite (decide_False (P := PHYSICAL_PAGE_STATE_FREE_HEAD = _)) by done. fold x. simpl. fold m1. rewrite E4. run. done.
  - done.
  - by apply (split_coalesced a σ fl r p o Hh Hr Ho Hb Hfree).
  - by apply free_pages_insert.
  - apply taken_frame; [done|]. intros q o' Hq Hs'.
    destruct (split_cases a σ fl r p o Hh Hr Ho Hb Hfree q o') as [(Es & -> & E0 & _)|[(Es & -> & ->)|(Es & N1 & N2)]].
    + fold σ1 in Es. rewrite Es, E0 in Hs'. by destruct Hs' as [?|[?|[?|?]]].
    + fold σ1 in Es. rewrite Es, Hfree in Hs'. by destruct Hs' as [?|[?|[?|?]]].
    + fold σ1 in Es. split; [done|]. rewrite Es in Hs'. assert (Hl : leaf (σ1 q o')) by (rewrite Es; unfold leaf; tauto).
      assert (Hne : ∀ q', is_block a q' o → σ1 q' o = BUDDY_FREE → q ≠ q').
      { intros q' Hq' Hf ->. assert (o = o') as ->.
        { apply (leaf_same_page (set_tree a t) σ1 q'); try done; [apply Hh1|rewrite Hf; by left]. }
        rewrite Hf in Es. rewrite <-Es in Hs'. by destruct Hs' as [?|[?|[?|?]]]. }
      assert (Hq0 : 0 ≤ q) by (by apply (is_block_bounds a q o' Hgeo Hq)).
      simpl. rewrite Hframe; [| done|].
      * simpl. apply mget_mset_ne; [lia|done|]. by apply Hne.
      * rewrite not_elem_of_cons. split; [by apply Hne|]. intros Hin.
        destruct (member_block _ _ _ _ Hh2 o q ltac:(lia) Hin) as (Hbq & Hsq & _). by apply (Hne q).
Qed.

Lemma split_down_run r p : ∀ n a σ fl o f,
  heap a σ fl [(p, f)] → coalesced a σ [(p, f)] → r ∈ a.(a_roots) → 0 ≤ o → f = o + Z.of_nat n → block r p f → σ p f = BUDDY_FREE →
  ∃ t m h σ' fl', let a' := upd a t m h in
    split_down n a r (node r p f) p f = Done (a', node r p o) ∧ heap a' σ' fl' [(p, o)] ∧ coalesced a' σ' [(p, o)] ∧
    σ' p o = BUDDY_FREE ∧ free_pages fl' + 2 ^ o = free_pages fl + 2 ^ f ∧
    ∀ q o' s x, taken a' σ' q o' s x ↔ taken a σ q o' s x.
Proof.
  induction n as [|n IH]; intros a σ fl o f Hh Hc Hr Ho Hf Hb Hfree.
  - replace f with o in * by lia. exists a.(a_tree), a.(a_metadata), a.(a_free_heads), σ, fl.
    replace (upd a _ _ _) with a by (by destruct a). split_and!; try done.
  - set (f1 := f - 1). assert (Ef : f = f1 + 1) by (unfold f1; lia). rewrite Ef in *.
    destruct (split_once a σ fl r p f1 n Hh Hc Hr ltac:(unfold f1; lia) Hb Hfree) as (t & m & h & fl1 & E & Hh1 & Hc1 & Hp1 & Ht1).
    destruct (IH _ _ _ o f1 Hh1 Hc1 Hr Ho ltac:(lia)) as (t' & m' & h' & σ' & fl' & E' & Hh' & Hc' & Hf' & Hp' & Ht').
    { by apply (block_children r p f1 ltac:(lia)). }
    { apply halves_left. }
    exists t', m', h', σ', fl'. cbv zeta in *. rewrite E, E'. split_and!; try done.
    + rewrite Hp', Hp1. rewrite pow_succ by lia. lia.
    + intros q o' s x. by rewrite <-(Ht1 q o' s x), <-(Ht' q o' s x).
Qed.

(** ** The search for a free block *)
Lemma find_order_spec a σ fl out : heap a σ fl out → ∀ n f, 0 ≤ f → f + Z.of_nat n = 32 →
  ∃ res, find_order a f n = Done res ∧
    match res with
    | Some f' => f ≤ f' ≤ 31 ∧ ∃ p l, fl f' = p :: l
    | None => ∀ f', f ≤ f' ≤ 31 → fl f' = []
    end.
Proof.
  intros Hh n. induction n as [|n IH]; intros f Hf Hn; cbn [find_order].
  - exists None. split; [done|]. intros. lia.
  - rewrite (aread_ok _ _ _ (heap_heads _ _ _ _ Hh f ltac:(lia))). run.
    destruct (fl f) as [|p l] eqn:E; simpl.
    + destruct (IH (f + 1)) as (res & -> & Hres); [lia..|]. exists res. split; [done|].
      destruct res as [f'|]; [destruct Hres; split; [lia|done]|].
      intros f' Hf'. destruct (decide (f' = f)) as [->|]; [done|]. apply Hres. lia.
    + destruct (none_or_page a σ fl out Hh f p) as [Hp _]; [lia|rewrite E; left|]. rewrite decide_True by done.
      exists (Some f). split; [done|]. split; [lia|]. by exists p, l.
Qed.

(** ** Counting pages *)
Definition block_pages (b : Z * Z) : list Z := seqZ b.1 (2 ^ b.2).
Lemma blocks_fit a σ (L : list (Z * Z)) : geometry a → shape a.(a_roots) σ → NoDup L →
  Forall (λ b, is_block a b.1 b.2 ∧ leaf (σ b.1 b.2)) L →
  foldr (λ b n, 2 ^ b.2 + n) 0 L ≤ a.(a_total_pages).
Proof.
  intros Hgeo Hs Hnd Hall.
  assert (Hlen : Forall (λ b, is_block a b.1 b.2 ∧ leaf (σ b.1 b.2)) L →
    Z.of_nat (length (concat (map block_pages L))) = foldr (λ b n, 2 ^ b.2 + n) 0 L).
  { clear Hnd Hall. induction 1 as [|[p o] L [Hb _] _ IH]; [done|]. cbn [map concat foldr fst snd]. rewrite length_app, Nat2Z.inj_add.
    rewrite IH. unfold block_pages. simpl. rewrite length_seqZ.
    pose proof (is_block_bounds _ _ _ Hgeo Hb). lia. }
  rewrite <-Hlen by done. clear Hlen.
  assert (Hin : ∀ x, x ∈ concat (map block_pages L) → ∃ b, b ∈ L ∧ b.1 ≤ x < b.1 + 2 ^ b.2).
  { intros x Hx. apply list_elem_of_In, in_concat in Hx as (l & Hl & Hx). apply in_map_iff in Hl as (b & <- & Hb).
    exists b. apply list_elem_of_In in Hb, Hx. split; [done|]. apply elem_of_seqZ in Hx. done. }
  assert (Hndp : NoDup (concat (map block_pages L))).
  { clear Hin. induction Hall as [|[p o] L [Hb Hl] Hall IH]; [constructor|]. apply NoDup_cons in Hnd as [Hnin Hnd].
    cbn [map concat]. apply NoDup_app. split_and!; [apply NoDup_seqZ| |by apply IH].
    intros x Hx Hx'. apply elem_of_seqZ in Hx. simpl in Hx.
    apply list_elem_of_In, in_concat in Hx' as (l & Hl' & Hx'). apply in_map_iff in Hl' as ([p' o'] & <- & Hb').
    apply list_elem_of_In in Hb', Hx'. apply elem_of_seqZ in Hx'. simpl in Hx'.
    rewrite Forall_forall in Hall. destruct (Hall _ Hb') as [Hbb Hll]. simpl in *.
    destruct (leaf_apart a σ p o p' o' Hgeo Hs Hb Hbb Hl Hll) as [[-> ->]|?]; [done|lia]. }
  pose proof (geo_metadata _ Hgeo). rewrite Forall_forall in Hall.
  assert (Hsub : concat (map block_pages L) ⊆+ seqZ 0 a.(a_total_pages)).
  { apply NoDup_submseteq; [done|]. intros x Hx. destruct (Hin x Hx) as ([p o] & Hb & Hx'). simpl in Hx'.
    destruct (Hall _ Hb) as [Hbb _]. pose proof (is_block_bounds _ _ _ Hgeo Hbb) as Hbounds. simpl in Hbounds. apply elem_of_seqZ. lia. }
  apply submseteq_length in Hsub. rewrite length_seqZ in Hsub. lia.
Qed.
Definition listed (n : nat) (fl : free_lists) : list (Z * Z) :=
  concat (map (λ k, map (λ p, (p, Z.of_nat k)) (fl (Z.of_nat k))) (seq 0 n)).
Lemma listed_S n fl : listed (S n) fl = listed n fl ++ map (λ p, (p, Z.of_nat n)) (fl (Z.of_nat n)).
Proof. unfold listed. rewrite seq_S, map_app, concat_app. simpl. by rewrite app_nil_r. Qed.
Lemma elem_of_listed n fl p o : (p, o) ∈ listed n fl ↔ 0 ≤ o < Z.of_nat n ∧ p ∈ fl o.
Proof.
  induction n as [|n IH]; [unfold listed; simpl; rewrite elem_of_nil; lia|].
  rewrite listed_S, elem_of_app, IH. split.
  - intros [[? ?]|Hin]; [split; [lia|done]|]. apply list_elem_of_In, in_map_iff in Hin as (q & [= -> <-] & Hq).
    split; [lia|by apply list_elem_of_In].
  - intros [Hlt Hin]. destruct (decide (o = Z.of_nat n)) as [->|]; [right|left; split; [lia|done]].
    apply list_elem_of_In, in_map_iff. exists p. split; [done|]. by apply list_elem_of_In.
Qed.
Lemma listed_nodup n fl : (∀ o, 0 ≤ o < Z.of_nat n → NoDup (fl o)) → NoDup (listed n fl).
Proof.
  induction n as [|n IH]; intros Hnd; [constructor|]. rewrite listed_S. apply NoDup_app. split_and!.
  - apply IH. intros. apply Hnd. lia.
  - intros [p o] Hin Hin'. apply elem_of_listed in Hin as [? _].
    apply list_elem_of_In, in_map_iff in Hin' as (q & [= _ <-] & _). lia.
  - apply (NoDup_fmap_2 (λ p, (p, Z.of_nat n))). apply Hnd. lia.
Qed.
Lemma listed_pages n fl : foldr (λ b s, 2 ^ b.2 + s) 0 (listed n fl) = pages_below n fl.
Proof.
  assert (Happ : ∀ l1 l2, foldr (λ b : Z * Z, λ s, 2 ^ b.2 + s) 0 (l1 ++ l2) =
    foldr (λ b s, 2 ^ b.2 + s) 0 l1 + foldr (λ b s, 2 ^ b.2 + s) 0 l2).
  { intros l1 l2. induction l1 as [|b l1 IH]; [done|]. simpl. rewrite IH. lia. }
  induction n as [|n IH]; [done|]. rewrite listed_S, Happ, IH. cbn [pages_below]. f_equal. unfold list_pages.
  induction (fl (Z.of_nat n)) as [|p l IHl]; [done|]. cbn [map foldr length snd]. rewrite IHl. lia.
Qed.
(** The free pages and any other leaf fit in the memory. *)
Lemma free_pages_fit a σ fl out (L : list (Z * Z)) : heap a σ fl out → NoDup L →
  Forall (λ b, is_block a b.1 b.2 ∧ leaf (σ b.1 b.2) ∧ b.1 ∉ fl b.2) L →
  free_pages fl + foldr (λ b n, 2 ^ b.2 + n) 0 L ≤ a.(a_total_pages).
Proof.
  intros Hh Hnd Hall. pose proof Hh as [Hgeo _ Hs _ _ Hnds Hms _].
  assert (Hfold : ∀ l1 l2, foldr (λ b : Z * Z, λ s, 2 ^ b.2 + s) 0 (l1 ++ l2) =
    foldr (λ b s, 2 ^ b.2 + s) 0 l1 + foldr (λ b s, 2 ^ b.2 + s) 0 l2).
  { intros l1 l2. induction l1 as [|b l1 IH]; [done|]. simpl. rewrite IH. lia. }
  unfold free_pages. rewrite <-listed_pages, <-Hfold. apply (blocks_fit a σ); try done.
  - apply NoDup_app. split_and!; [|..|done].
    + apply listed_nodup. intros. apply Hnds. lia.
    + intros [p o] [Ho Hin]%elem_of_listed HL. rewrite Forall_forall in Hall. by destruct (Hall _ HL) as (_ & _ & []).
  - apply Forall_app. split; [|eapply Forall_impl; [done|]; by intros b (? & ? & _)].
    apply Forall_forall. intros [p o] [Ho Hin]%elem_of_listed. apply Hms in Hin as (? & E & _); [|lia]. split; [done|]. simpl. rewrite E. by left.
Qed.
Lemma member_pages a σ fl out o p : heap a σ fl out → 0 ≤ o ≤ 31 → p ∈ fl o → 2 ^ o ≤ free_pages fl.
Proof.
  intros Hh Ho Hp. apply list_elem_of_split in Hp as (l1 & l2 & E).
  pose proof (free_pages_remove fl o p l1 l2 Ho E) as Hrem.
  assert (0 ≤ free_pages (lput fl o (l1 ++ l2))); [|lia]. unfold free_pages. generalize 32%nat.
  intros n. induction n as [|n IH]; [done|]. cbn [pages_below]. unfold list_pages. pose proof (pow_pos (Z.of_nat n)). nia.
Qed.

(** ** The state between operations *)
Record pool (a : physical_page_allocator) (σ : states) (fl : free_lists) : Prop := {
  pool_heap : heap a σ fl [];
  pool_coalesced : coalesced a σ [];
  pool_available : a.(a_available_pages) = free_pages fl;
  pool_finalized : physical_page_allocator_is_finalized a = true;
}.
Lemma pool_initialized a σ fl : pool a σ fl → allocator_initialized a = true.
Proof. intros [_ _ _ Hf]. unfold physical_page_allocator_is_finalized in Hf. by apply andb_prop in Hf as []. Qed.

(** A block that is no longer free leaves [out] once its head is written. *)
Lemma heap_settle a σ fl out p o x : heap a σ fl ((p, o) :: out) → σ p o ≠ BUDDY_FREE →
  mget a.(a_metadata) p = Some x → head_ok x o (σ p o) → heap a σ fl out.
Proof.
  intros [Hgeo Htree Hshape Hheads Hlink Hnds Hms Hmd Hhn] Hne Hx Hok. split; try done.
  - intros o' q Ho'. rewrite Hms by done. rewrite not_elem_of_cons. split; [tauto|]. intros (? & ? & ?). split_and!; try done. congruence.
  - intros q o' Hb Hl Hno. destruct (decide ((q, o') = (p, o))) as [[= -> ->]|Hn]; [by exists x|].
    apply Hmd; [done..|]. by rewrite not_elem_of_cons.
Qed.
Lemma heap_set_available a σ fl out n : heap a σ fl out → heap (set_available a n) σ fl out.
Proof. intros []. split; try done. by apply geometry_set_available. Qed.

Definition page_address (r : physical_page_root) (p : Z) : Z := r.(r_address) + (p - r.(first_page)) * BOAROS_PAGE_SIZE.
Lemma page_address_bounds a r p o : geometry a → r ∈ a.(a_roots) → block r p o →
  r.(r_address) ≤ page_address r p ∧ page_address r p + 2 ^ o * BOAROS_PAGE_SIZE ≤ r.(r_address) + bytes_of r ∧
  0 ≤ page_address r p ∧ page_address r p + 2 ^ o * BOAROS_PAGE_SIZE ≤ UINT64_MAX.
Proof.
  intros Hgeo Hr Hb. pose proof (block_inside _ _ _ Hb). pose proof (root_placed a Hgeo r Hr).
  unfold page_address, bytes_of, BOAROS_PAGE_SIZE in *. lia.
Qed.
Lemma owner_address_block a r n p o s : geometry a → r ∈ a.(a_roots) → block r p o →
  owner_address (mk_owner r n p o s) = page_address r p.
Proof.
  intros Hgeo Hr Hb. pose proof (page_address_bounds a r p o Hgeo Hr Hb) as Hpa. pose proof (block_inside _ _ _ Hb).
  pose proof (root_bounds a Hgeo r Hr). pose proof (geo_total _ Hgeo).
  assert (Ho : 0 ≤ o) by (destruct Hb; lia). pose proof (pow_pos o Ho).
  unfold owner_address. simpl. rewrite (u64_small (p - r.(first_page))) by mlia. rewrite shift_page.
  apply u64_small. unfold page_address, BOAROS_PAGE_SIZE in *. mlia.
Qed.

(** The block in flight becomes an allocated block. *)
Lemma settle_allocated a σ fl r p o :
  heap a σ fl [(p, o)] → coalesced a σ [(p, o)] → r ∈ a.(a_roots) → block r p o → σ p o = BUDDY_FREE →
  ∃ t, let x := mk_metadata NONE NONE 1 o PHYSICAL_PAGE_STATE_ALLOCATED_HEAD 0 in
       let a' := set_metadata (set_tree a t) (mset a.(a_metadata) p x) in
       let σ' := put σ p o BUDDY_ALLOCATED in
    tree_set a r (node r p o) BUDDY_ALLOCATED = Done (set_tree a t) ∧
    mark_head (set_tree a t) p o PHYSICAL_PAGE_STATE_ALLOCATED_HEAD = Done a' ∧
    heap a' σ' fl [] ∧ coalesced a' σ' [] ∧
    ∀ q o' s y, taken a' σ' q o' s y ↔ taken a σ q o' s y ∨ (q = p ∧ o' = o ∧ s = BUDDY_ALLOCATED ∧ y = x).
Proof.
  intros Hh Hc Hr Hb Hf. pose proof (heap_geo _ _ _ _ Hh) as Hgeo. pose proof (heap_shape _ _ _ _ Hh) as Hshape.
  assert (Hib : is_block a p o) by (by exists r).
  destruct (is_block_bounds a p o Hgeo Hib) as (Ho & Hp0 & _ & _ & _ & Hsome).
  destruct (tree_set_is a σ Hgeo (heap_tree _ _ _ _ Hh) r p o BUDDY_ALLOCATED Hr Hb ltac:(done)) as (t & E & Hg & Ht).
  exists t. set (σ' := put σ p o BUDDY_ALLOCATED) in *. set (x := mk_metadata _ _ _ _ _ _).
  assert (Hs' : shape a.(a_roots) σ') by (apply shape_leaf_change; [done|rewrite Hf; by left|right; by left]).
  assert (Hp : σ' p o = BUDDY_ALLOCATED) by apply put_eq.
  assert (Hne : ∀ q o', ¬ (q = p ∧ o' = o) → σ' q o' = σ q o') by (intros; by apply put_ne).
  assert (Hh1 : heap (set_tree a t) σ' fl [(p, o)]).
  { apply (heap_retree a σ fl [(p, o)]); try done.
    - intros q o' _. rewrite list_elem_of_singleton. split; intros [H1 H2]; (split; [|done]);
        rewrite Hne in * by (intros [-> ->]; done); done.
    - intros q o' _ _. rewrite list_elem_of_singleton. intros H2. split; [|done]. rewrite Hne; [done|]. intros [-> ->]; done.
    - intros q o' y _ _ _ Hq. destruct (decide (q = p ∧ o' = o)) as [[-> ->]|]; [done|by rewrite Hne]. }
  assert (Hx : mget (mset a.(a_metadata) p x) p = Some x) by (by apply mget_mset_eq).
  assert (Hone : ∀ q o', is_block a q o' → leaf (σ' q o') → q = p → o' = o).
  { intros q o' Hq Hl ->. apply (leaf_same_page a σ' p); try done. rewrite Hp. right; by left. }
  assert (Hh2 : heap (set_metadata (set_tree a t) (mset a.(a_metadata) p x)) σ' fl [(p, o)]).
  { apply (heap_mark (set_tree a t) σ' fl [(p, o)] p x); try done. intros o' Hq Hl. apply list_elem_of_singleton.
    by rewrite (Hone p o'). }
  split_and!.
  - done.
  - by rewrite mark_head_ok.
  - apply (heap_settle _ _ _ _ p o x); try done; [by rewrite Hp|]. rewrite Hp. by split_and!; intros; try split_and!; auto; try done.
  - intros r' q o' Hr' Ho' Hq H1 H2. exfalso. simpl in Hr'.
    assert (N1 : ¬ (q = p ∧ o' = o)) by (intros [-> ->]; by rewrite Hp in H1).
    assert (N2 : ¬ (q + 2 ^ o' = p ∧ o' = o)) by (intros [E1 ->]; by rewrite E1, Hp in H2).
    rewrite Hne in H1, H2 by done. destruct (Hc r' q o' Hr' Ho' Hq H1 H2) as [Hi|Hi]; apply list_elem_of_singleton in Hi;
      injection Hi as ? ?; tauto.
  - intros q o' s y. unfold taken. simpl. change (is_block (set_metadata _ _) q o') with (is_block a q o').
    destruct (decide (q = p ∧ o' = o)) as [[-> ->]|Hn].
    + rewrite Hp, Hx, Hf. split.
      * intros (_ & <- & _ & [= <-]). by right.
      * intros [(_ & <- & [?|?] & _)|(_ & _ & -> & ->)]; [done..|]. split_and!; try done. by left.
    + rewrite Hne by done. assert (Hcase : is_block a q o' → leaf (σ q o') → mget (mset a.(a_metadata) p x) q = mget a.(a_metadata) q).
      { intros Hq Hl. apply mget_mset_ne; [done|by apply (is_block_bounds a q o' Hgeo Hq)|]. intros ->. apply Hn. split; [done|].
        apply (Hone p o'); try done. by rewrite Hne. }
      split.
      * intros (Hq & <- & Hs & Hy). left. rewrite Hcase in Hy; [done..|]. unfold leaf; tauto.
      * intros [(Hq & <- & Hs & Hy)|(-> & -> & _)]; [|tauto]. rewrite Hcase; [done..|]. unfold leaf; tauto.
Qed.

Lemma put_lists_taken a t m h σ p o s x : taken (upd a t m h) σ p o s x ↔ is_block a p o ∧ σ p o = s ∧
  (s = BUDDY_ALLOCATED ∨ s = BUDDY_INTERNAL) ∧ mget m p = Some x.
Proof. done. Qed.
Definition allocated_head (o : Z) : physical_page_metadata :=
  mk_metadata NONE NONE 1 o PHYSICAL_PAGE_STATE_ALLOCATED_HEAD 0.

Lemma allocate_once_run a σ fl o : pool a σ fl → 0 ≤ o ≤ 31 →
  (physical_page_allocate_order_once a o = Done (PHYSICAL_PAGE_STATUS_EMPTY, a, None) ∧ ∀ f, o ≤ f ≤ 31 → fl f = []) ∨
  ∃ r p f t m h σ' fl', let a' := set_available (upd a t m h) (a.(a_available_pages) - 2 ^ o) in
    physical_page_allocate_order_once a o = Done (PHYSICAL_PAGE_STATUS_OK, a', Some (page_address r p)) ∧
    r ∈ a.(a_roots) ∧ block r p o ∧ o ≤ f ≤ 31 ∧ is_block a p f ∧ σ p f = BUDDY_FREE ∧ pool a' σ' fl' ∧
    ∀ q o' s y, taken a' σ' q o' s y ↔ taken a σ q o' s y ∨ (q = p ∧ o' = o ∧ s = BUDDY_ALLOCATED ∧ y = allocated_head o).
Proof.
  intros Hpool Ho. pose proof (pool_initialized _ _ _ Hpool) as Hinit. destruct Hpool as [Hh Hc Havail Hfin].
  pose proof (heap_geo _ _ _ _ Hh) as Hgeo. unfold physical_page_allocate_order_once.
  rewrite decide_False by (rewrite Hinit; intros [?|H]; [done|unfold PHYSICAL_PAGE_MAX_ORDER in H; lia]). rewrite decide_False by (by rewrite Hfin).
  change (Z.of_nat PHYSICAL_PAGE_MAX_ORDER) with 31.
  destruct (find_order_spec a σ fl [] Hh (Z.to_nat (31 + 1 - o)) o) as ([f|] & -> & Hres); [lia..| |]; run; [right|by left].
  destruct Hres as [Hf (p & l & El)]. assert (Hpf : p ∈ fl f) by (rewrite El; left).
  destruct (member_block a σ fl [] Hh f p ltac:(lia) Hpf) as (Hbf & Hsf & _).
  rewrite (aread_ok _ _ _ (heap_heads _ _ _ _ Hh f ltac:(lia))), El. run. cbn [hd].
  destruct (free_owner a σ fl [] Hh f p ltac:(lia) Hpf) as (r & Hr & Hb & ->). run.
  cbn [o_first o_order]. rewrite (trap_if_ok (p ≠ p ∨ f ≠ f)) by (intros [H|H]; by apply H). run. rewrite (free_head_valid_ok a σ fl []) by (try done; lia). run. rewrite (trap_if_ok (true = false)) by done. run.
  rewrite (owner_address_block a r _ p f) by done. rewrite order_page_count_pow by lia.
  pose proof (member_pages a σ fl [] f p Hh ltac:(lia) Hpf) as Hmem.
  assert (2 ^ o ≤ 2 ^ f) by (apply Z.pow_le_mono_r; lia).
  pose proof (free_pages_fit a σ fl [] [] Hh ltac:(constructor) ltac:(constructor)) as Hfit. simpl in Hfit.
  rewrite trap_if_ok by lia. run.
  destruct (free_remove_run a σ fl [] Hh f p ltac:(lia) Hpf) as (l1 & l2 & m1 & x & E1 & -> & Hh1 & Hframe & Hx & _). run. cbn [o_root o_node].
  set (a1 := set_free_heads (set_metadata a m1) _) in *. set (fl1 := lput fl f (l1 ++ l2)) in *.
  assert (Hc1 : coalesced a1 σ [(p, f)]).
  { intros r' q o' Hr' Ho' Hq H1 H2. by destruct (Hc r' q o' Hr' Ho' Hq H1 H2) as [[]%elem_of_nil|[]%elem_of_nil]. }
  destruct (split_down_run r p (Z.to_nat (f - o)) a1 σ fl1 o f) as (t2 & m2 & h2 & σ2 & fl2 & E2 & Hh2 & Hc2 & Hf2 & Hp2 & Ht2);
    try done; [lia|lia|]. rewrite E2. run.
  assert (Hbo : block r p o).
  { destruct Hb as [Hb0 (k & Hk & ->)]. split; [lia|]. exists (k * 2 ^ (f - o)). pose proof (pow_pos (f - o) ltac:(lia)).
    rewrite (pow_split o f) by lia. split; [|ring].
    assert (2 ^ (r_order r - o) = 2 ^ (r_order r - f) * 2 ^ (f - o)) as -> by (rewrite <-Z.pow_add_r by lia; f_equal; lia). nia. }
  destruct (settle_allocated (upd a1 t2 m2 h2) σ2 fl2 r p o) as (t3 & E3 & E4 & Hh3 & Hc3 & Ht3); try done.
  cbv zeta in *. rewrite E3. run. rewrite E4. run.
  exists r, p, f, t3, (mset m2 p (allocated_head o)), h2, (put σ2 p o BUDDY_ALLOCATED), fl2.
  assert (Eav : u64 (a.(a_available_pages) - 2 ^ o) = a.(a_available_pages) - 2 ^ o).
  { apply u64_small. pose proof (pow_pos o ltac:(lia)). pose proof (geo_total _ Hgeo). mlia. }
  split_and!; try done; [by simpl; rewrite Eav|lia..| |].
  - split; [by apply heap_set_available|done| |done]. simpl. pose proof (free_pages_remove fl f p l1 l2 ltac:(lia) E1) as Hrem.
    fold fl1 in Hrem. lia.
  - intros q o' s y. etrans; [apply (Ht3 q o' s y)|]. apply or_iff_compat_r. etrans; [apply (Ht2 q o' s y)|].
    apply (taken_relinked a _ σ fl [] f (fl f)); try done.
    intros q' Hin. by destruct (member_block a σ fl [] Hh f q' ltac:(lia) Hin) as (Hbq & Hsq & _).
Qed.
