(* ===== verification/PageReleaseTheory.v ===== *)
(** * Release, references and queries of the buddy system *)
From S2P Require Import Prelude BootMemory PhysicalPage PageStateTheory PageFreeTheory PageAllocTheory.
Import PhysicalPage.
#[local] Open Scope Z_scope.

Lemma land_one x : Z.land x 1 = x mod 2.
Proof. change 1 with (Z.ones 1) at 1. rewrite Z.land_ones by lia. done. Qed.
Lemma lxor_one_even j : Z.lxor (2 * j) 1 = 2 * j + 1.
Proof.
  symmetry. apply Z.add_nocarry_lxor. rewrite land_one. by rewrite Z.mul_comm, Z.mod_mul.
Qed.
Lemma lxor_one_odd j : Z.lxor (2 * j + 1) 1 = 2 * j.
Proof. rewrite <-lxor_one_even, Z.lxor_assoc, Z.lxor_nilpotent. apply Z.lxor_0_r. Qed.
Lemma lxor_buddy k o : 0 ≤ o → Z.lxor (k * 2 ^ o) (2 ^ o) = Z.lxor k 1 * 2 ^ o.
Proof.
  intros Ho. rewrite <-(Z.mul_1_l (2 ^ o)) at 2. rewrite <-!Z.shiftl_mul_pow2 by done. symmetry. apply Z.shiftl_lxor.
Qed.

(** The buddy of a block below the top, as the code computes it. *)
Lemma buddy_of r p o : 0 ≤ r.(first_page) → block r p o → o < r.(r_order) →
  ∃ q b, block r q (o + 1) ∧ ((p = q ∧ b = q + 2 ^ o) ∨ (p = q + 2 ^ o ∧ b = q)) ∧ block r b o ∧
    r.(first_page) + Z.lxor (p - r.(first_page)) (2 ^ o) = b ∧
    (if decide (Z.land (node r p o) 1 ≠ 0) then node r p o + 1 else node r p o - 1) = node r b o ∧
    (node r p o - 1) / 2 = node r q (o + 1) ∧ (if decide (b < p) then b else p) = q.
Proof.
  intros H0 Hb Hlt. pose proof Hb as [Ho (k & Hk & Ep)]. assert (Ho0 : 0 ≤ o) by lia. pose proof (pow_pos o Ho0) as Hpos.
  destruct (block_parent r p o Hb Hlt) as (q & Hq & Hpq). destruct (block_children r q o Ho0 Hq) as [HL HR].
  destruct (node_children r q o Ho0 Hq) as [NL NR]. pose proof Hq as [_ (k' & Hk' & Eq)].
  rewrite pow_succ in Eq by done.
  assert (Hx : Z.lxor (p - r.(first_page)) (2 ^ o) = Z.lxor k 1 * 2 ^ o) by (rewrite Ep, <-lxor_buddy by done; f_equal; lia).
  rewrite land_one. destruct Hpq as [->| ->].
  - exists q, (q + 2 ^ o). assert (k = 2 * k') as -> by nia. rewrite Hx, lxor_one_even, NL, NR.
    split_and!; try done; [by left|lia| | |by rewrite decide_False by lia].
    + rewrite decide_True; [lia|]. rewrite Z.add_comm, Z.mul_comm, Z.mod_add by lia. done.
    + replace (2 * node r q (o + 1) + 1 - 1) with (node r q (o + 1) * 2) by lia. by rewrite Z.div_mul.
  - exists q, q. assert (k = 2 * k' + 1) as -> by nia. rewrite Hx, lxor_one_odd, NL, NR.
    split_and!; try done; [by right|lia| | |by rewrite decide_True by lia].
    + rewrite decide_False; [lia|]. replace (2 * node r q (o + 1) + 2) with (0 + (node r q (o + 1) + 1) * 2) by lia. rewrite Z.mod_add by lia. tauto.
    + replace (2 * node r q (o + 1) + 2 - 1) with (1 + node r q (o + 1) * 2) by lia. rewrite Z.div_add by lia. done.
Qed.

Section join.
Context (a : physical_page_allocator) (σ : states) (r : physical_page_root) (q o : Z).
Hypothesis Hgeo : geometry a.
Hypothesis Hshape : shape a.(a_roots) σ.
Hypothesis Hr : r ∈ a.(a_roots).
Hypothesis Ho : 0 ≤ o.
Hypothesis Hb : block r q (o + 1).
Hypothesis Hleft : σ q o = BUDDY_FREE.
Hypothesis Hright : σ (q + 2 ^ o) o = BUDDY_FREE.
#[local] Notation σ1 := (halves σ q o BUDDY_INACTIVE BUDDY_FREE).

Lemma join_split : σ q (o + 1) = BUDDY_SPLIT.
Proof.
  pose proof (shape_halves _ _ Hshape r q o Hr Ho Hb) as H. destruct (decide _) as [|]; [done|]. destruct H as [H _].
  by rewrite Hleft in H.
Qed.
Lemma join_shape : shape a.(a_roots) σ1.
Proof.
  pose proof (pow_pos o Ho). pose proof (pow_succ o Ho). destruct (block_children r q o Ho Hb) as [HL HR].
  apply (shape_halves_change a σ r); try done; [by rewrite join_split| |by right].
  intros z o' Hlt Hz H1 H2. pose proof (pow_pos o' ltac:(destruct Hz; lia)).
  destruct (block_nested r q o z o' HL Hz ltac:(lia)) as [[? ?]|[?|?]]; [|lia|].
  - apply (below_inactive a.(a_roots) σ r q o); try done. by rewrite Hleft.
  - destruct (block_nested r (q + 2 ^ o) o z o' HR Hz ltac:(lia)) as [[? ?]|[?|?]]; [|lia|lia].
    apply (below_inactive a.(a_roots) σ r (q + 2 ^ o) o); try done. by rewrite Hright.
Qed.
Lemma join_cases z o' : σ1 z o' = BUDDY_INACTIVE ∧ o' = o ∧ σ z o' = BUDDY_FREE ∧ (z = q ∨ z = q + 2 ^ o) ∨
  σ1 z o' = BUDDY_FREE ∧ o' = o + 1 ∧ z = q ∨
  σ1 z o' = σ z o' ∧ ¬ (o' = o ∧ (z = q ∨ z = q + 2 ^ o)) ∧ ¬ (o' = o + 1 ∧ z = q).
Proof.
  unfold halves. destruct (decide _) as [[-> Hz]|]; [left; destruct Hz as [-> | ->]; tauto|].
  destruct (decide _) as [[-> ->]|]; [tauto|]. right; right. tauto.
Qed.
Lemma join_heap fl b p t :
  (b = q ∧ p = q + 2 ^ o ∨ b = q + 2 ^ o ∧ p = q) → heap a σ fl [(b, o); (p, o)] →
  geometry (set_tree a t) → tree_is (set_tree a t) σ1 → heap (set_tree a t) σ1 fl [(q, o + 1)].
Proof.
  intros Hbp Hh Hg Ht. apply (heap_retree a σ fl [(b, o); (p, o)]); try done; [apply join_shape|..].
  - intros z o' Hz. rewrite !not_elem_of_cons. destruct (join_cases z o') as [(-> & -> & _ & Hc)|[(-> & -> & ->)|(-> & H1 & H2)]].
    + split; [by intros [? _]|]. intros (_ & N1 & N2 & _). exfalso.
      destruct Hc as [->| ->], Hbp as [[-> ->]|[-> ->]]; congruence.
    + split; [by intros (_ & ? & _)|]. rewrite join_split. by intros [? _].
    + split; intros [? _]; (split_and!; [done|..]); try apply not_elem_of_nil; intros [= -> ->]; tauto.
  - intros z o' Hz Hl. rewrite !not_elem_of_cons. destruct (join_cases z o') as [(E & _)|[(_ & -> & ->)|(-> & H1 & H2)]].
    + rewrite E in Hl. unfold leaf in Hl. by destruct Hl as [?|[?|?]].
    + by intros (? & _).
    + intros _. split_and!; [done|..|apply not_elem_of_nil]; intros [= -> ->]; tauto.
  - intros z o' x _ _ _. destruct (join_cases z o') as [(_ & -> & -> & _)|[(_ & -> & ->)|(-> & _)]]; [done| |done]. by rewrite join_split.
Qed.
Lemma join_coalesced a' p : a'.(a_roots) = a.(a_roots) → (p = q ∨ p = q + 2 ^ o) → coalesced a σ [(p, o)] → coalesced a' σ1 [(q, o + 1)].
Proof.
  intros Hroots Hp Hc r' z o' Hr' Ho' Hz H1 H2. rewrite Hroots in Hr'. rewrite !list_elem_of_singleton.
  destruct (join_cases z o') as [(E & _)|[(_ & -> & ->)|(E1 & N1 & N2)]]; [by rewrite E in H1|by left|].
  destruct (join_cases (z + 2 ^ o') o') as [(E & _)|[(_ & -> & Ez)|(E2 & N3 & N4)]]; [by rewrite E in H2|right; by rewrite Ez|].
  rewrite E1 in H1. rewrite E2 in H2. exfalso.
  destruct (Hc r' z o' Hr' Ho' Hz H1 H2) as [Hi|Hi]; apply list_elem_of_singleton in Hi; injection Hi as ? ?; subst; tauto.
Qed.
Lemma join_taken fl out a' m1 y :
  heap a σ fl out → shape a.(a_roots) σ1 → a'.(a_roots) = a.(a_roots) → a'.(a_metadata) = mset m1 q y →
  (∀ z, 0 ≤ z → z ∉ fl o → mget m1 z = mget a.(a_metadata) z) →
  ∀ z o' s x, taken a' σ1 z o' s x ↔ taken a σ z o' s x.
Proof.
  intros Hh Hs1 Hroots Hm Hframe. apply taken_frame; [done|]. intros z o' Hz Hs. rewrite Hm.
  destruct (is_block_bounds a z o' Hgeo Hz) as (_ & Hz0 & _).
  assert (Hqb : is_block a q (o + 1)) by (by exists r). destruct (is_block_bounds a q (o + 1) Hgeo Hqb) as (? & Hq0 & _).
  destruct (join_cases z o') as [(E & -> & F & _)|[(E & -> & ->)|(E & N1 & N2)]].
  - rewrite E, F in Hs. by destruct Hs as [?|[?|[?|?]]].
  - rewrite E, join_split in Hs. by destruct Hs as [?|[?|[?|?]]].
  - split; [done|]. rewrite E in Hs. assert (Hl : leaf (σ z o')) by (unfold leaf; tauto).
    rewrite mget_mset_ne; [apply Hframe|..]; try done.
    + intros Hin. destruct (member_block a σ fl out Hh o z ltac:(lia) Hin) as (Hzo & Hf & _).
      assert (o' = o) as -> by (apply (leaf_same_page a σ z); try done; rewrite Hf; by left).
      rewrite Hf in Hs. by destruct Hs as [?|[?|[?|?]]].
    + intros ->. apply N2. split; [|done]. apply (leaf_same_page a σ1 q); try done; [by rewrite E|rewrite halves_whole; by left].
Qed.
End join.

(** With a buddy that is not free, nothing is left to join. *)
Lemma coalesced_done a σ r q p b o :
  geometry a → r ∈ a.(a_roots) → 0 ≤ o → block r q (o + 1) → ((p = q ∧ b = q + 2 ^ o) ∨ (p = q + 2 ^ o ∧ b = q)) →
  coalesced a σ [(p, o)] → σ b o ≠ BUDDY_FREE → coalesced a σ [].
Proof.
  intros Hgeo Hr Ho Hq Hpb Hc Hne r' z o' Hr' Ho' Hz H1 H2. exfalso. pose proof (pow_pos o Ho). pose proof (pow_succ o Ho).
  assert (Hzq : o' = o → (z = p ∨ z + 2 ^ o = p) → z = q).
  { intros -> Hzp. assert (Hin : q ≤ z + 2 ^ o < q + 2 ^ (o + 1) ∨ q ≤ z < q + 2 ^ (o + 1)) by lia.
    assert (r = r') as <-; [|apply (half_parent r q z o Ho Hq Hz); lia].
    destruct Hin; [|by apply (same_root a r r' q (o + 1) z (o + 1))].
    apply (same_root a r r' q (o + 1) (z + 2 ^ o) o); try done. by apply (block_children r' z o Ho). }
  destruct (Hc r' z o' Hr' Ho' Hz H1 H2) as [Hi|Hi]; apply list_elem_of_singleton in Hi; injection Hi as Ez Eo;
    pose proof (Hzq Eo ltac:(subst o'; tauto)) as ->; subst o'; apply Hne; destruct Hpb as [[-> ->]|[-> ->]]; first [done|lia].
Qed.

(** The body of the loop, in terms of the parent [q] and the buddy [b]. *)
Lemma merge_step_eq a σ fl out r p o s n :
  heap a σ fl out → r ∈ a.(a_roots) → block r p o → o < r.(r_order) →
  ∃ q b, block r q (o + 1) ∧ ((p = q ∧ b = q + 2 ^ o) ∨ (p = q + 2 ^ o ∧ b = q)) ∧ block r b o ∧
  merge_up (S n) a (mk_owner r (node r p o) p o s) =
    if decide (σ b o = BUDDY_FREE) then
      valid ← free_head_valid a (mk_owner r (node r b o) b o (σ b o));
      _ ← trap_if (valid = false);
      a ← free_remove a b;
      a ← tree_set a r (node r p o) BUDDY_INACTIVE;
      a ← tree_set a r (node r b o) BUDDY_INACTIVE;
      a ← tree_set a r (node r q (o + 1)) BUDDY_FREE;
      a ← mark_head a q (o + 1) PHYSICAL_PAGE_STATE_FREE_HEAD;
      merge_up n a (mk_owner r (node r q (o + 1)) q (o + 1) s)
    else
      _ ← trap_if (σ b o ≠ BUDDY_ALLOCATED ∧ σ b o ≠ BUDDY_INTERNAL ∧ σ b o ≠ BUDDY_SPLIT);
      Done (a, mk_owner r (node r p o) p o s).
Proof.
  intros Hh Hr Hb Hlt. pose proof (heap_geo _ _ _ _ Hh) as Hgeo. pose proof (heap_tree _ _ _ _ Hh) as Htree.
  pose proof (root_bounds a Hgeo r Hr) as Hrb. pose proof (block_inside _ _ _ Hb).
  destruct (is_block_bounds a p o Hgeo ltac:(by exists r)) as (Ho31 & Hp0 & Hp1 & Hp2 & Hpow & _). pose proof (geo_total _ Hgeo).
  destruct (buddy_of r p o ltac:(lia) Hb Hlt) as (q & b & Hq & Hpb & Hbb & Eb & Esib & Epar & Eq).
  destruct (is_block_bounds a b o Hgeo ltac:(by exists r)) as (_ & Hb0 & _ & Hb2 & _).
  exists q, b. split_and!; [done..|]. cbn [merge_up o_root o_order o_node o_first o_state].
  rewrite (decide_True (P := o < r.(r_order))) by lia. rewrite order_page_count_pow by lia.
  rewrite (u32_small (p - _)), (u32_small (2 ^ o)), Eb, (u32_small b), Esib, Epar, Eq by mlia.
  rewrite (tree_get_is a σ Hgeo Htree r b o Hr Hbb). run. by destruct (decide _).
Qed.
(** The buddy of an active block is active. *)
Lemma buddy_active roots σ r q p b o : shape roots σ → r ∈ roots → 0 ≤ o → block r q (o + 1) →
  ((p = q ∧ b = q + 2 ^ o) ∨ (p = q + 2 ^ o ∧ b = q)) → σ p o ≠ BUDDY_INACTIVE → σ b o ≠ BUDDY_INACTIVE.
Proof.
  intros Hs Hr Ho Hq Hpb Hp. pose proof (shape_halves _ _ Hs r q o Hr Ho Hq) as Hhv.
  destruct (decide _) as [|]; destruct Hhv as [G1 G2]; destruct Hpb as [[-> ->]|[-> ->]]; done.
Qed.

(** What is left after a join with the free buddy. *)
Definition joined (a : physical_page_allocator) (σ : states) (fl : free_lists) (r : physical_page_root) (o q : Z)
    (a' : physical_page_allocator) (fl' : free_lists) : Prop :=
  let σ' := halves σ q o BUDDY_INACTIVE BUDDY_FREE in
  heap a' σ' fl' [(q, o + 1)] ∧ coalesced a' σ' [(q, o + 1)] ∧ block r q (o + 1) ∧ free_pages fl' + 2 ^ o = free_pages fl ∧
  mget a'.(a_metadata) q = Some (mk_metadata NONE NONE 0 (o + 1) PHYSICAL_PAGE_STATE_FREE_HEAD 0) ∧
  ∀ z o' s x, taken a' σ' z o' s x ↔ taken a σ z o' s x.

Lemma merge_once a σ fl r p o s n :
  heap a σ fl [(p, o)] → coalesced a σ [(p, o)] → r ∈ a.(a_roots) → block r p o → σ p o = BUDDY_FREE → o < r.(r_order) →
  (∃ t m h q fl', let a' := upd a t m h in
     merge_up (S n) a (mk_owner r (node r p o) p o s) = merge_up n a' (mk_owner r (node r q (o + 1)) q (o + 1) s) ∧
     joined a σ fl r o q a' fl') ∨
  (merge_up (S n) a (mk_owner r (node r p o) p o s) = Done (a, mk_owner r (node r p o) p o s) ∧ coalesced a σ []).
Proof.
  intros Hh Hc Hr Hb Hf Hlt. pose proof (heap_geo _ _ _ _ Hh) as Hgeo. pose proof (heap_shape _ _ _ _ Hh) as Hshape.
  destruct (is_block_bounds a p o Hgeo ltac:(by exists r)) as (Ho31 & Hp0 & _).
  destruct (merge_step_eq a σ fl _ r p o s n Hh Hr Hb Hlt) as (q & b & Hq & Hpb & Hbb & ->).
  destruct (decide (σ b o = BUDDY_FREE)) as [Hsb|Hsb]; [left|right].
  - assert (Hne : b ≠ p) by (pose proof (pow_pos o ltac:(lia)); destruct Hpb; lia).
    assert (Hbin : b ∈ fl o).
    { apply (heap_members _ _ _ _ Hh); [done|]. split_and!; [by exists r|done|]. rewrite list_elem_of_singleton. congruence. }
    destruct (free_remove_run a σ fl _ Hh o b Ho31 Hbin) as (l1 & l2 & m1 & x & E1 & Erem & Hh1 & Hframe & _).
    rewrite Hsb. rewrite (free_head_valid_ok a σ fl [(p, o)]) by done. run. rewrite (trap_if_ok (true = false)) by done. run.
    rewrite Erem. run. set (a1 := set_free_heads (set_metadata a m1) _) in *.
    assert (Hkids : σ q o = BUDDY_FREE ∧ σ (q + 2 ^ o) o = BUDDY_FREE) by (destruct Hpb as [[-> ->]|[-> ->]]; done).
    destruct Hkids as [Kl Kr].
    destruct (set_halves_run a1 σ r q o BUDDY_INACTIVE BUDDY_FREE p b) as (t1 & t2 & t & T1 & T2 & T3 & Hg & Ht);
      [apply Hh1|apply Hh1|done|lia|done|done|done|destruct Hpb as [[-> ->]|[-> ->]]; tauto|].
    rewrite T1. run. rewrite T2. run. rewrite T3. run. set (σ1 := halves σ q o BUDDY_INACTIVE BUDDY_FREE) in *.
    assert (Hh2 : heap (set_tree a1 t) σ1 (lput fl o (l1 ++ l2)) [(q, o + 1)]).
    { apply (join_heap a1 σ r q o (heap_geo _ _ _ _ Hh1) Hshape Hr ltac:(lia) Hq Kl Kr _ b p); try done. destruct Hpb; tauto. }
    destruct (is_block_bounds (set_tree a1 t) q (o + 1) Hg ltac:(by exists r)) as (_ & Hq0 & _ & _ & _ & Hqs).
    rewrite mark_head_ok by done. run. rewrite (decide_False (P := PHYSICAL_PAGE_STATE_FREE_HEAD = _)) by done.
    set (y := mk_metadata NONE NONE 0 (o + 1) PHYSICAL_PAGE_STATE_FREE_HEAD 0).
    exists t, (mset m1 q y), (<[Z.to_nat o := hd NONE (l1 ++ l2)]> a.(a_free_heads)), q, (lput fl o (l1 ++ l2)).
    split; [done|]. split_and!; [| |done| | |].
    + apply (heap_mark (set_tree a1 t) _ _ [(q, o + 1)] q y); try done. intros o' Hz Hl. apply list_elem_of_singleton. f_equal.
      apply (leaf_same_page (set_tree a1 t) σ1 q); try done; [apply Hh2|by exists r|]. unfold σ1. rewrite halves_whole. by left.
    + apply (join_coalesced a σ q o Kl Kr _ p); try done. destruct Hpb; tauto.
    + rewrite (free_pages_remove fl o b l1 l2) by done. lia.
    + by apply mget_mset_eq.
    + apply (join_taken a σ r q o Hgeo Hshape Hr ltac:(lia) Hq Kl Kr fl [(p, o)] _ m1 y); try done. apply Hh2.
  - pose proof (shape_range _ _ Hshape r b o Hr Hbb) as Hrange.
    pose proof (buddy_active _ _ r q p b o Hshape Hr ltac:(lia) Hq Hpb ltac:(by rewrite Hf)) as Hact.
    rewrite trap_if_ok by (unfold BUDDY_INACTIVE, BUDDY_FREE, BUDDY_ALLOCATED, BUDDY_INTERNAL, BUDDY_SPLIT in *; lia).
    split; [done|]. by apply (coalesced_done a σ r q p b o ltac:(done) ltac:(done) ltac:(lia)).
Qed.

(** The top block has no buddy. *)
Lemma coalesced_top a σ r p o : geometry a → r ∈ a.(a_roots) → block r p o → r.(r_order) ≤ o →
  coalesced a σ [(p, o)] → coalesced a σ [].
Proof.
  intros Hgeo Hr Hb Hle Hc r' z o' Hr' Ho' Hz H1 H2. exfalso. destruct (block_children r' z o' Ho' Hz) as [HL HR].
  assert (Hno : ∀ w, block r' w o' → ¬ (w = p ∧ o' = o)).
  { intros w Hw [-> ->]. pose proof (pow_pos o Ho').
    assert (r = r') as <- by (apply (same_root a r r' p o p o); try done; lia). destruct Hz; lia. }
  destruct (Hc r' z o' Hr' Ho' Hz H1 H2) as [Hi|Hi]; apply list_elem_of_singleton in Hi; injection Hi as ? ?.
  - by apply (Hno z HL).
  - by apply (Hno (z + 2 ^ o') HR).
Qed.

(** The outcome of the loop: a fully merged block that is not yet on a list. *)
Definition merged (a : physical_page_allocator) (σ : states) (fl : free_lists) (r : physical_page_root) (p o : Z)
    (a' : physical_page_allocator) (σ' : states) (fl' : free_lists) (p' o' : Z) : Prop :=
  heap a' σ' fl' [(p', o')] ∧ coalesced a' σ' [] ∧ block r p' o' ∧ σ' p' o' = BUDDY_FREE ∧
  (∃ x, mget a'.(a_metadata) p' = Some x ∧ head_ok x o' BUDDY_FREE) ∧
  free_pages fl' + 2 ^ o' = free_pages fl + 2 ^ o ∧ ∀ z k s x, taken a' σ' z k s x ↔ taken a σ z k s x.
Lemma merged_here a σ fl r p o x : heap a σ fl [(p, o)] → coalesced a σ [] → block r p o → σ p o = BUDDY_FREE →
  mget a.(a_metadata) p = Some x → head_ok x o BUDDY_FREE → merged a σ fl r p o (upd a a.(a_tree) a.(a_metadata) a.(a_free_heads)) σ fl p o.
Proof. intros. replace (upd a _ _ _) with a by (by destruct a). split_and!; try done. by exists x. Qed.
Lemma merged_trans a σ fl r p o q a1 fl1 a2 σ2 fl2 p' o' : 0 ≤ o → joined a σ fl r o q a1 fl1 →
  merged a1 (halves σ q o BUDDY_INACTIVE BUDDY_FREE) fl1 r q (o + 1) a2 σ2 fl2 p' o' → merged a σ fl r p o a2 σ2 fl2 p' o'.
Proof.
  intros Ho (_ & _ & _ & Hp1 & _ & Ht1) (? & ? & ? & ? & ? & Hp2 & Ht2). split_and!; try done.
  - rewrite Hp2. rewrite pow_succ by done. lia.
  - intros z k s y. by rewrite <-(Ht1 z k s y), <-(Ht2 z k s y).
Qed.
Lemma merge_up_run r s : ∀ n a σ fl p o x,
  heap a σ fl [(p, o)] → coalesced a σ [(p, o)] → r ∈ a.(a_roots) → block r p o → σ p o = BUDDY_FREE →
  r.(r_order) ≤ o + Z.of_nat n → mget a.(a_metadata) p = Some x → head_ok x o BUDDY_FREE →
  ∃ t m h σ' fl' p' o',
    merge_up n a (mk_owner r (node r p o) p o s) = Done (upd a t m h, mk_owner r (node r p' o') p' o' s) ∧
    merged a σ fl r p o (upd a t m h) σ' fl' p' o'.
Proof.
  intros n. induction n as [|n IH]; intros a σ fl p o x Hh Hc Hr Hb Hf Hn Hx Hok; destruct (decide (o < r.(r_order))) as [Hlt|Hlt];
    [lia| | |].
  1, 3: pose proof (coalesced_top a σ r p o (heap_geo _ _ _ _ Hh) Hr Hb ltac:(lia) Hc) as Hc'; do 7 eexists;
    (split; [|by apply (merged_here a σ fl r p o x)]); cbn [merge_up o_root o_order]; rewrite decide_False by done; by destruct a.
  destruct (merge_once a σ fl r p o s n Hh Hc Hr Hb Hf Hlt) as [(t & m & h & q & fl1 & E & J)|[E Hc']].
  - pose proof J as (Hh1 & Hc1 & Hq & Hp1 & Hm1 & Ht1).
    destruct (IH (upd a t m h) _ fl1 q (o + 1) _ Hh1 Hc1 Hr Hq (halves_whole _ _ _ _ _) ltac:(lia) Hm1 (free_head_ok _))
      as (t' & m' & h' & σ' & fl' & p' & o' & E' & M).
    exists t', m', h', σ', fl', p', o'. cbv zeta in *. rewrite E, E'. split; [done|].
    apply (merged_trans a σ fl r p o q (upd a t m h) fl1); [destruct Hb; lia|done|done].
  - do 7 eexists. split; [|by apply (merged_here a σ fl r p o x)]. rewrite E. by destruct a.
Qed.

(** ** What lies at an address *)
Lemma page_address_aligned a r p : geometry a → r ∈ a.(a_roots) → Z.land (page_address r p) BOAROS_PAGE_MASK = 0.
Proof.
  intros Hgeo Hr. destruct (root_placed a Hgeo r Hr) as (H0 & _ & Hm). pose proof (root_order a Hgeo r Hr) as Ho.
  change BOAROS_PAGE_MASK with (Z.ones 12). rewrite Z.land_ones by lia. change (2 ^ 12) with BOAROS_PAGE_SIZE.
  unfold page_address. rewrite Z.mod_add by done. unfold bytes_of in Hm. apply Z.mod_divide in Hm as [k ->].
  - rewrite Z.mul_assoc. by apply Z.mod_mul.
  - pose proof (pow_pos r.(r_order)). unfold BOAROS_PAGE_SIZE. nia.
Qed.
Lemma page_address_holds a r p o z : geometry a → r ∈ a.(a_roots) → block r p o → p ≤ z < p + 2 ^ o → holds_address r (page_address r z).
Proof. intros Hgeo Hr Hb Hz. pose proof (block_inside _ _ _ Hb). unfold holds_address, page_address, bytes_of, BOAROS_PAGE_SIZE. lia. Qed.
(** The page of an aligned address. *)
Lemma address_page a r z : geometry a → r ∈ a.(a_roots) → holds_page r z →
  u32 (r.(first_page) + u32 (Z.shiftr (page_address r z - r.(r_address)) BOAROS_PAGE_SHIFT)) = z.
Proof.
  intros Hgeo Hr Hz. unfold holds_page in Hz. pose proof (root_bounds a Hgeo r Hr). pose proof (geo_total _ Hgeo).
  unfold page_address. replace (r_address r + (z - first_page r) * BOAROS_PAGE_SIZE - r_address r) with ((z - first_page r) * BOAROS_PAGE_SIZE) by lia.
  rewrite Z.shiftr_div_pow2 by done. change (2 ^ BOAROS_PAGE_SHIFT) with BOAROS_PAGE_SIZE. rewrite Z.div_mul by done.
  rewrite (u32_small (z - first_page r)) by mlia. rewrite u32_small by mlia. lia.
Qed.
(** An aligned address is that of a page, or of none. *)
Lemma aligned_page a r address : geometry a → r ∈ a.(a_roots) → Z.land address BOAROS_PAGE_MASK = 0 → holds_address r address →
  ∃ z, holds_page r z ∧ address = page_address r z.
Proof.
  intros Hgeo Hr Hal Hh. destruct (root_placed a Hgeo r Hr) as (H0 & _ & Hm). unfold holds_address, bytes_of in Hh.
  pose proof (pow_pos r.(r_order) ltac:(apply (root_order a Hgeo r Hr))) as Hpos.
  change BOAROS_PAGE_MASK with (Z.ones 12) in Hal. rewrite Z.land_ones in Hal by lia. change (2 ^ 12) with BOAROS_PAGE_SIZE in Hal.
  apply Z.mod_divide in Hal as [k ->]; [|done]. unfold bytes_of in Hm. apply Z.mod_divide in Hm as [j Ej]; [|unfold BOAROS_PAGE_SIZE; nia].
  exists (r.(first_page) + (k - j * 2 ^ r.(r_order))). unfold holds_page, page_address, BOAROS_PAGE_SIZE in *. split; nia.
Qed.
Lemma page_address_inj a r r' z z' : geometry a → r ∈ a.(a_roots) → r' ∈ a.(a_roots) → holds_page r z → holds_page r' z' →
  page_address r z = page_address r' z' → r = r' ∧ z = z'.
Proof.
  intros Hgeo Hr Hr' Hz Hz' E.
  assert (Hin : ∀ r z, holds_page r z → holds_address r (page_address r z)).
  { clear. intros r z Hz. unfold holds_page, holds_address, page_address, bytes_of, BOAROS_PAGE_SIZE in *. lia. }
  pose proof (root_for_address_ok a Hgeo r _ Hr (Hin r z Hz)) as E1. rewrite E in E1.
  rewrite (root_for_address_ok a Hgeo r' _ Hr' (Hin r' z' Hz')) in E1. injection E1 as ->. split; [done|].
  unfold page_address, BOAROS_PAGE_SIZE in E. lia.
Qed.

Section lookup.
Context (a : physical_page_allocator) (σ : states) (fl : free_lists) (out : list (Z * Z)).
Hypothesis Hh : heap a σ fl out.
#[local] Notation Hgeo := (heap_geo _ _ _ _ Hh).

Lemma page_lookup_page r z : r ∈ a.(a_roots) → holds_page r z → physical_page_allocator_is_finalized a = true →
  page_lookup a (page_address r z) = Done (Some z).
Proof.
  intros Hr Hz Hf. unfold page_lookup. rewrite (page_address_aligned a r z Hgeo Hr). rewrite decide_False by auto. rewrite Hf.
  unfold page_lookup_finalized. rewrite (root_for_address_ok a Hgeo r).
  - run. by rewrite (address_page a r z Hgeo Hr Hz).
  - done.
  - unfold holds_page, holds_address, page_address, bytes_of, BOAROS_PAGE_SIZE in *. lia.
Qed.
Lemma owner_walked r p o z : r ∈ a.(a_roots) → block r p o → leaf (σ p o) → p ≤ z < p + 2 ^ o →
  owner_at_address a (page_address r z) false = Done (Owner_of z (mk_owner r (node r p o) p o (σ p o))).
Proof.
  intros Hr Hb Hl Hz. pose proof (block_inside _ _ _ Hb). unfold owner_at_address.
  rewrite (page_address_aligned a r z Hgeo Hr). rewrite decide_False by auto.
  rewrite (root_for_address_ok a Hgeo r); [|done|by apply (page_address_holds a r p o z Hgeo Hr Hb)]. run.
  rewrite (address_page a r z Hgeo Hr) by (unfold holds_page; lia).
  by rewrite (owner_walk_leaf a σ Hgeo (heap_tree _ _ _ _ Hh) (heap_shape _ _ _ _ Hh) r p o).
Qed.
End lookup.

(** ** Writing the head of a block that is not free *)
Lemma heap_defer a σ fl out p o : heap a σ fl out → σ p o ≠ BUDDY_FREE → heap a σ fl ((p, o) :: out).
Proof.
  intros [Hgeo Htree Hshape Hheads Hlink Hnds Hms Hmd Hhn] Hne. split; try done.
  - intros o' q Ho'. rewrite Hms by done. rewrite not_elem_of_cons. split; [|tauto]. intros (? & ? & ?). split_and!; try done. congruence.
  - intros q o' Hb Hl [_ Hno]%not_elem_of_cons. by apply Hmd.
Qed.
Section held.
Context (a : physical_page_allocator) (σ : states) (fl : free_lists) (p o : Z) (x : physical_page_metadata).
Hypothesis Hh : heap a σ fl [].
Hypothesis Htaken : taken a σ p o BUDDY_ALLOCATED x.
#[local] Notation Hgeo := (heap_geo _ _ _ _ Hh).
#[local] Notation Hshape := (heap_shape _ _ _ _ Hh).

Lemma held_leaf : is_block a p o ∧ leaf (σ p o) ∧ σ p o = BUDDY_ALLOCATED ∧ mget a.(a_metadata) p = Some x ∧ 0 ≤ p ∧ 0 ≤ o ≤ 31 ∧
  head_ok x o BUDDY_ALLOCATED.
Proof.
  destruct Htaken as (Hb & Hs & _ & Hx). destruct (is_block_bounds _ _ _ Hgeo Hb) as (? & ? & _).
  assert (Hl : leaf (σ p o)) by (rewrite Hs; right; by left).
  destruct (heap_meta _ _ _ _ Hh p o Hb Hl ltac:(apply not_elem_of_nil)) as (y & Hy & Hok). rewrite Hs in Hok.
  assert (y = x) as -> by congruence. tauto.
Qed.
Lemma held_only k : is_block a p k → leaf (σ p k) → k = o.
Proof. intros Hb Hl. destruct held_leaf as (? & ? & _). by apply (leaf_same_page a σ p k o Hgeo Hshape). Qed.
(** Another head for the block. *)
Lemma held_mark y : (y.(m_state) = PHYSICAL_PAGE_STATE_ALLOCATED_HEAD → y.(m_order) = o) →
  heap (set_metadata a (mset a.(a_metadata) p y)) σ fl [(p, o)].
Proof.
  intros Hst. destruct held_leaf as (Hb & Hl & Hs & Hx & Hp & _). apply heap_mark; [|by eexists|done| |].
  - apply heap_defer; [done|by rewrite Hs].
  - intros k Hk Hlk. rewrite (held_only k Hk Hlk). by left.
  - intros Hy. by rewrite Hst.
Qed.
Lemma held_others a' σ' y : a'.(a_roots) = a.(a_roots) → a'.(a_metadata) = mset a.(a_metadata) p y →
  (∀ z k, ¬ (z = p ∧ k = o) → σ' z k = σ z k) →
  ∀ z k s w, ¬ (z = p ∧ k = o) → taken a' σ' z k s w ↔ taken a σ z k s w.
Proof.
  intros Hr Hm Hσ z k s w Hn. unfold taken, is_block. rewrite Hr, Hm, Hσ by done. fold (is_block a z k).
  destruct held_leaf as (_ & _ & _ & _ & Hp & _).
  assert (Hcase : is_block a z k → leaf (σ z k) → mget (mset a.(a_metadata) p y) z = mget a.(a_metadata) z).
  { intros Hz Hl. apply mget_mset_ne; [done|by apply (is_block_bounds a z k Hgeo Hz)|]. intros ->. apply Hn. split; [done|by apply held_only]. }
  split; intros (Hz & Hs & Hs' & Hw); (split_and!; [done..|]); rewrite Hcase in *; try done; unfold leaf; rewrite Hs; tauto.
Qed.
Lemma held_count n : o = 0 → 1 ≤ n ≤ UINT32_MAX → heap (set_metadata a (mset a.(a_metadata) p (with_count x n))) σ fl [].
Proof.
  intros E Hn. destruct held_leaf as (Hb & Hl & Hs & Hx & Hp & _ & Hok). destruct Hok as (H1 & H2 & _ & H4 & _ & H6).
  apply (heap_settle _ _ _ _ p o (with_count x n)); [apply held_mark; intros _; exact H1|by rewrite Hs|by apply mget_mset_eq; eexists|].
  rewrite Hs. split_and!; try done. intros _. destruct (H6 eq_refl) as (H7 & _ & _). simpl. split_and!; [done|lia..|by left].
Qed.
(** The block becomes free, not yet on a list. *)
Lemma held_freed r t : r ∈ a.(a_roots) → block r p o → geometry (set_tree a t) → tree_is (set_tree a t) (put σ p o BUDDY_FREE) →
  coalesced a σ [] →
  let y := mk_metadata NONE NONE 0 o PHYSICAL_PAGE_STATE_FREE_HEAD 0 in
  let a' := set_metadata (set_tree a t) (mset a.(a_metadata) p y) in
  heap a' (put σ p o BUDDY_FREE) fl [(p, o)] ∧ coalesced a' (put σ p o BUDDY_FREE) [(p, o)] ∧
  mget a'.(a_metadata) p = Some y ∧
  ∀ z k s w, taken a' (put σ p o BUDDY_FREE) z k s w ↔ taken a σ z k s w ∧ ¬ (z = p ∧ k = o).
Proof.
  intros Hr Hb Hg Ht Hc y a'. destruct held_leaf as (Hib & Hl & Hs & Hx & Hp & _ & Hok).
  assert (Hne : ∀ z k, ¬ (z = p ∧ k = o) → put σ p o BUDDY_FREE z k = σ z k) by (intros; by apply put_ne).
  assert (Hs' : shape a.(a_roots) (put σ p o BUDDY_FREE)) by (apply shape_leaf_change; [apply Hshape|done|by left]).
  split_and!.
  - assert (Hmark : heap (set_metadata a (mset a.(a_metadata) p y)) σ fl [(p, o)]) by (by apply held_mark).
    apply (heap_retree (set_metadata a (mset a.(a_metadata) p y)) σ fl [(p, o)] t); try done.
    + apply (geometry_set_metadata (set_tree a t) (mset a.(a_metadata) p y)); [apply length_mset|done].
    + intros z k _. rewrite list_elem_of_singleton.
      destruct (decide (z = p ∧ k = o)) as [[-> ->]|Hn]; [split; intros [_ []]; done|by rewrite Hne].
    + intros z k _ _. rewrite list_elem_of_singleton. intros H2. split; [|done]. rewrite Hne; [done|]. intros [-> ->]; done.
    + intros z k w Hz Hw Hst E. rewrite Hne; [done|]. intros [-> ->]. simpl in Hw. rewrite mget_mset_eq in Hw by (by eexists).
      by injection Hw as <-.
  - intros r' z k Hr' Hk Hz H1 H2. rewrite !list_elem_of_singleton.
    destruct (decide (z = p ∧ k = o)) as [[-> ->]|N1]; [by left|]. destruct (decide (z + 2 ^ k = p ∧ k = o)) as [[E1 E2]|N2]; [right; congruence|].
    rewrite Hne in H1, H2 by done. by destruct (Hc r' z k Hr' Hk Hz H1 H2) as [[]%elem_of_nil|[]%elem_of_nil].
  - by apply mget_mset_eq; eexists.
  - intros z k s w. destruct (decide (z = p ∧ k = o)) as [[-> ->]|Hn].
    + split; [|tauto]. intros (_ & E & Hcase & _). rewrite put_eq in E. subst s. by destruct Hcase.
    + rewrite (held_others a' (put σ p o BUDDY_FREE) y) by done. tauto.
Qed.
End held.

(** ** [physical_page_release_order] *)
Lemma free_pages_nonneg fl : 0 ≤ free_pages fl.
Proof.
  unfold free_pages. generalize 32%nat. intros n. induction n as [|n IH]; [done|]. cbn [pages_below]. unfold list_pages.
  pose proof (pow_pos (Z.of_nat n)). nia.
Qed.
Lemma block_holds a r p o : geometry a → r ∈ a.(a_roots) → block r p o → holds_page r p.
Proof. intros Hgeo Hr Hb. pose proof (block_inside _ _ _ Hb). pose proof (pow_pos o ltac:(destruct Hb; lia)). unfold holds_page. lia. Qed.

(** The guards up to the shared path. *)
Lemma release_guards a σ fl address order : pool a σ fl → 0 ≤ order ≤ 31 → Z.land address BOAROS_PAGE_MASK = 0 →
  physical_page_release_order a address order =
  (shared ← release_shared a address order;
   match shared with
   | Some a => Done (PHYSICAL_PAGE_STATUS_OK, a)
   | None =>
       answer ← owner_at_address a address false;
       match answer with
       | Address_refused | Tree_corrupt => trap
       | Owner_of page owner =>
           _ ← trap_if (owner.(o_state) = BUDDY_FREE);
           _ ← trap_if (owner.(o_state) ≠ BUDDY_ALLOCATED ∨ owner.(o_first) ≠ page);
           _ ← trap_if (owner.(o_order) ≠ order);
           m ← load_metadata a page;
           _ ← trap_if (m.(m_reference_count) = 0);
           valid ← head_valid a owner;
           _ ← trap_if (valid = false);
           if decide (1 < m.(m_reference_count)) then
             a ← store_metadata a page (with_count m (m.(m_reference_count) - 1));
             Done (PHYSICAL_PAGE_STATUS_OK, a)
           else
             let pages := order_page_count order in
             _ ← trap_if (a.(a_total_pages) < a.(a_available_pages) ∨ a.(a_total_pages) - a.(a_available_pages) < pages);
             a ← tree_set a owner.(o_root) owner.(o_node) BUDDY_FREE;
             a ← mark_head a page order PHYSICAL_PAGE_STATE_FREE_HEAD;
             '(a, owner) ← merge_up (Z.to_nat (owner.(o_root).(r_order) - owner.(o_order))) a owner;
             inserted ← free_insert a owner.(o_first) owner.(o_order);
             match inserted with
             | None => trap
             | Some a => Done (PHYSICAL_PAGE_STATUS_OK, set_available a (u64 (a.(a_available_pages) + pages)))
             end
       end
   end).
Proof.
  intros Hpool Ho Hal. unfold physical_page_release_order. rewrite (pool_initialized _ _ _ Hpool), (pool_finalized _ _ _ Hpool).
  rewrite (trap_if_ok (true = false)) by done. run. rewrite (trap_if_ok (Z.of_nat PHYSICAL_PAGE_MAX_ORDER < order)) by (unfold PHYSICAL_PAGE_MAX_ORDER; lia).
  run. rewrite (trap_if_ok (Z.land address BOAROS_PAGE_MASK ≠ 0)) by (rewrite Hal; auto). run. done.
Qed.

Lemma release_counted a σ fl r p o x : pool a σ fl → r ∈ a.(a_roots) → block r p o → taken a σ p o BUDDY_ALLOCATED x →
  1 < x.(m_reference_count) → o = 0 ∧
  physical_page_release_order a (page_address r p) o =
    Done (PHYSICAL_PAGE_STATUS_OK, set_metadata a (mset a.(a_metadata) p (with_count x (x.(m_reference_count) - 1)))).
Proof.
  intros Hpool Hr Hb Htk Hn. pose proof (pool_heap _ _ _ Hpool) as Hh. pose proof (heap_geo _ _ _ _ Hh) as Hgeo.
  destruct (held_leaf a σ fl p o x Hh Htk) as (Hib & Hl & Hs & Hx & Hp & Ho & Hok). pose proof Hok as (H1 & _ & _ & _ & _ & H6).
  destruct (H6 eq_refl) as (H7 & H8 & H9). assert (E : o = 0) by lia. split; [done|]. rewrite E in H1. subst o.
  rewrite (release_guards a σ fl) by (try done; by apply (page_address_aligned a r p)).
  unfold release_shared. rewrite (decide_False (P := 0 ≠ 0)) by auto.
  rewrite (page_lookup_page a σ fl [] Hh r p Hr (block_holds a r p 0 Hgeo Hr Hb) (pool_finalized _ _ _ Hpool)). run.
  rewrite (load_metadata_ok _ _ _ Hx). run. rewrite decide_True by (split_and!; [done|lia|lia]).
  unfold head_only. rewrite (head_valid_ok a _ _ p 0 BUDDY_ALLOCATED x Hx Hok ltac:(right; by left)). run. rewrite (trap_if_ok (true = false)) by done. run.
  by rewrite store_metadata_ok by (by eexists).
Qed.

Lemma release_last a σ fl r p o x : pool a σ fl → r ∈ a.(a_roots) → block r p o → taken a σ p o BUDDY_ALLOCATED x →
  x.(m_reference_count) = 1 →
  ∃ t m h σ' fl', let a' := set_available (upd a t m h) (a.(a_available_pages) + 2 ^ o) in
    physical_page_release_order a (page_address r p) o = Done (PHYSICAL_PAGE_STATUS_OK, a') ∧ pool a' σ' fl' ∧
    ∀ z k s w, taken a' σ' z k s w ↔ taken a σ z k s w ∧ ¬ (z = p ∧ k = o).
Proof.
  intros Hpool Hr Hb Htk Hn. pose proof Hpool as [Hh Hc Hav Hfin]. pose proof (heap_geo _ _ _ _ Hh) as Hgeo.
  destruct (held_leaf a σ fl p o x Hh Htk) as (Hib & Hl & Hs & Hx & Hp & Ho & Hok).
  pose proof (pow_pos o ltac:(lia)) as Hpos.
  rewrite (release_guards a σ fl) by (try done; by apply (page_address_aligned a r p)).
  assert (Hsh : release_shared a (page_address r p) o = Done None).
  { unfold release_shared. destruct (decide (o ≠ 0)); [done|].
    rewrite (page_lookup_page a σ fl [] Hh r p Hr (block_holds a r p o Hgeo Hr Hb) Hfin). run.
    rewrite (load_metadata_ok _ _ _ Hx). run. by rewrite decide_False by lia. }
  rewrite Hsh. run. rewrite (owner_walked a σ fl [] Hh r p o p Hr Hb Hl) by lia. run. cbn [o_state o_first o_order o_root o_node].
  rewrite Hs. rewrite (trap_if_ok (BUDDY_ALLOCATED = BUDDY_FREE)) by done. run.
  rewrite (trap_if_ok (BUDDY_ALLOCATED ≠ BUDDY_ALLOCATED ∨ p ≠ p)) by tauto. run. rewrite (trap_if_ok (o ≠ o)) by tauto. run.
  rewrite (load_metadata_ok _ _ _ Hx). run. rewrite (trap_if_ok (_ = 0)) by lia. run.
  rewrite (head_valid_ok a r _ p o BUDDY_ALLOCATED x Hx Hok) by (right; by left). run. rewrite (trap_if_ok (true = false)) by done. run.
  rewrite (decide_False (P := 1 < _)) by lia. rewrite order_page_count_pow by lia.
  assert (Hnin : p ∉ fl o). { intros Hin. destruct (member_block a σ fl [] Hh o p Ho Hin) as (_ & E & _). by rewrite E in Hs. }
  pose proof (free_pages_fit a σ fl [] [(p, o)] Hh ltac:(apply NoDup_singleton) ltac:(apply Forall_singleton; by simpl)) as Hfit.
  simpl in Hfit. rewrite trap_if_ok by lia. run.
  destruct (tree_set_is a σ Hgeo (heap_tree _ _ _ _ Hh) r p o BUDDY_FREE Hr Hb ltac:(done)) as (t1 & -> & Hg1 & Ht1). run.
  rewrite mark_head_ok by (by eexists). run. rewrite (decide_False (P := PHYSICAL_PAGE_STATE_FREE_HEAD = _)) by done.
  destruct (held_freed a σ fl p o x Hh Htk r t1 Hr Hb Hg1 Ht1 Hc) as (Hh1 & Hc1 & Hm1 & Htk1).
  cbv zeta in *. set (a1 := set_metadata (set_tree a t1) _) in *.
  destruct (merge_up_run r BUDDY_ALLOCATED (Z.to_nat (r.(r_order) - o)) a1 (put σ p o BUDDY_FREE) fl p o _ Hh1 Hc1 Hr Hb
    (put_eq _ _ _ _) ltac:(destruct Hb; lia) Hm1 (free_head_ok o)) as (t2 & m2 & h2 & σ2 & fl2 & q & k & -> & M). run. cbn [o_first o_order].
  destruct M as (Hh2 & Hc2 & Hq & Hf2 & (y & Hy & Hyok) & Hp2 & Htk2).
  assert (Hqb : is_block a q k) by (by exists r). destruct (is_block_bounds a q k Hgeo Hqb) as (Hk & _).
  destruct (free_insert_run _ _ _ _ Hh2 k q y [] eq_refl ltac:(apply not_elem_of_nil) ltac:(done) Hf2 Hy Hyok) as (m3 & -> & Hh3 & Hframe). run.
  exists t2, m3, (<[Z.to_nat k := q]> h2), σ2, (lput fl2 k (q :: fl2 k)). pose proof (geo_total _ Hgeo). pose proof (free_pages_nonneg fl). split_and!.
  - simpl. by rewrite u64_small by mlia.
  - split; [by apply heap_set_available|done| |done]. simpl. rewrite free_pages_insert by done. lia.
  - intros z j s w. etrans; [|etrans; [apply (Htk2 z j s w)|apply (Htk1 z j s w)]].
    apply (taken_relinked (upd a1 t2 m2 h2) _ σ2 fl2 [(q, k)] k (q :: fl2 k)); try done.
    intros q' [->|Hin]%elem_of_cons; [done|]. by destruct (member_block _ _ _ _ Hh2 k q' Hk Hin) as (? & ? & _).
Qed.

(** Everything else is fatal. *)
Lemma lookup_cases a σ fl address : pool a σ fl → is_u64 address → Z.land address BOAROS_PAGE_MASK = 0 →
  (page_lookup a address = Done None ∧ (∀ b, owner_at_address a address b = Done Address_refused) ∧
   ∀ r z, r ∈ a.(a_roots) → holds_page r z → address ≠ page_address r z) ∨
  ∃ r z, r ∈ a.(a_roots) ∧ holds_page r z ∧ address = page_address r z.
Proof.
  intros Hpool Hu Hal. pose proof (heap_geo _ _ _ _ (pool_heap _ _ _ Hpool)) as Hgeo.
  destruct (root_for_address_spec a Hgeo address Hu) as ([r|] & E & Hr); [right|left].
  - destruct Hr as [Hr Hh]. destruct (aligned_page a r address Hgeo Hr Hal Hh) as (z & ? & ?). by exists r, z.
  - unfold page_lookup, owner_at_address. rewrite Hal, (pool_finalized _ _ _ Hpool). rewrite !decide_False by auto.
    unfold page_lookup_finalized. rewrite E. run. split_and!; [done|done|]. intros r z Hr' Hz ->. apply (Hr r Hr').
    unfold holds_page, holds_address, page_address, bytes_of, BOAROS_PAGE_SIZE in *. lia.
Qed.
Lemma release_refused a σ fl address order : pool a σ fl → is_u64 address → 0 ≤ order ≤ 31 →
  (∀ r p x, r ∈ a.(a_roots) → block r p order → taken a σ p order BUDDY_ALLOCATED x → address ≠ page_address r p) →
  physical_page_release_order a address order = trap.
Proof.
  intros Hpool Hu Ho Hno. pose proof Hpool as [Hh Hc Hav Hfin]. pose proof (heap_geo _ _ _ _ Hh) as Hgeo.
  destruct (decide (Z.land address BOAROS_PAGE_MASK = 0)) as [Hal|Hal].
  2: { unfold physical_page_release_order. rewrite (pool_initialized _ _ _ Hpool). rewrite (trap_if_ok (true = false)) by done. run.
       rewrite (trap_if_ok (_ < order)) by (unfold PHYSICAL_PAGE_MAX_ORDER; lia). run. by rewrite (trap_if_fault (Z.land address BOAROS_PAGE_MASK ≠ 0)). }
  rewrite (release_guards a σ fl) by done.
  destruct (lookup_cases a σ fl address Hpool Hu Hal) as [(E1 & E2 & _)|(r & z & Hr & Hz & ->)].
  { unfold release_shared. rewrite E1, E2. run. by destruct (decide (order ≠ 0)). }
  destruct (owner_walk_page a σ Hgeo (heap_tree _ _ _ _ Hh) (heap_shape _ _ _ _ Hh) r z Hr Hz) as (p & o & Hb & Hl & Hin & _).
  assert (Hsh : release_shared a (page_address r z) order = Done None).
  { unfold release_shared. destruct (decide (order ≠ 0)) as [|E]; [done|]. rewrite (page_lookup_page a σ fl [] Hh r z Hr Hz Hfin). run.
    pose proof (root_bounds a Hgeo r Hr). pose proof (geo_metadata _ Hgeo).
    assert (is_Some (mget a.(a_metadata) z)) as [x Hx] by (apply lookup_lt_is_Some; unfold holds_page in Hz; lia).
    rewrite (load_metadata_ok _ _ _ Hx). run. rewrite decide_False; [done|]. intros (Hst & Hord & _).
    destruct (heap_honest _ _ _ _ Hh z x ltac:(unfold holds_page in Hz; lia) Hx Hst) as [Hzb Hzs].
    assert (order = 0) as -> by lia. rewrite Hord in *. pose proof Hzb as (r' & Hr' & Hb').
    assert (r' = r) as -> by (apply (root_unique a Hgeo r' r z Hr' Hr); [by apply (block_holds a r' z 0)|done]).
    apply (Hno r z x Hr Hb'); [|done]. split_and!; try done. by left. }
  rewrite Hsh. run. rewrite (owner_walked a σ fl [] Hh r p o z Hr Hb Hl Hin). run. cbn [o_state o_first o_order o_root o_node].
  destruct (decide (σ p o = BUDDY_FREE)) as [Hf|Hnf]; [by rewrite (trap_if_fault _ Hf)|]. rewrite (trap_if_ok _ Hnf). run.
  destruct (decide (σ p o ≠ BUDDY_ALLOCATED ∨ p ≠ z)) as [Hy|Hna]; [by rewrite (trap_if_fault _ Hy)|]. rewrite (trap_if_ok _ Hna). run.
  destruct (decide (o ≠ order)) as [Hy|Hoo]; [by rewrite (trap_if_fault _ Hy)|]. exfalso.
  assert (o = order) as <- by lia. assert (p = z) as <- by lia. assert (Hs : σ p o = BUDDY_ALLOCATED) by (apply dec_stable; tauto).
  destruct (heap_meta _ _ _ _ Hh p o ltac:(by exists r) Hl ltac:(apply not_elem_of_nil)) as (x & Hx & _).
  apply (Hno r p x Hr Hb); [|done]. split_and!; try done; [by exists r|by left].
Qed.

(** ** Pages of a pool

    Each page belongs to one leaf: it is free, held or reserved.  Free runs are
    always merged into free blocks, the hints of the read-only paths agree with
    the walk, and the operations on shared pages change one count. *)
Import PhysicalPage.

Definition page_free (a : physical_page_allocator) (σ : states) (z : Z) : Prop :=
  ∃ p o, is_block a p o ∧ σ p o = BUDDY_FREE ∧ p ≤ z < p + 2 ^ o.
Definition page_taken (a : physical_page_allocator) (σ : states) (z : Z) : Prop :=
  ∃ p o s x, taken a σ p o s x ∧ p ≤ z < p + 2 ^ o.

Section pool.
Context (a : physical_page_allocator) (σ : states) (fl : free_lists).
Hypothesis Hpool : pool a σ fl.
#[local] Notation Hh := (pool_heap _ _ _ Hpool).
#[local] Notation Hgeo := (heap_geo _ _ _ _ Hh).
#[local] Notation Hshape := (heap_shape _ _ _ _ Hh).

(** A page is free when no held or reserved block covers it. *)
Lemma page_free_taken z : 0 ≤ z < a.(a_total_pages) → page_free a σ z ↔ ¬ page_taken a σ z.
Proof.
  intros Hz. destruct (page_owner a σ Hgeo (heap_tree _ _ _ _ Hh) Hshape z Hz) as (r & p & o & Hr & Hb & Hl & Hin).
  assert (Hib : is_block a p o) by (by exists r). split.
  - intros (q & k & Hq & Hf & Hqz) (q' & k' & s & x & (Hq' & Hs & Hs' & _) & Hqz').
    assert (Hl1 : leaf (σ q k)) by (rewrite Hf; by left). assert (Hl2 : leaf (σ q' k')) by (unfold leaf; rewrite Hs; tauto).
    destruct (leaf_apart a σ q k q' k' Hgeo Hshape Hq Hq' Hl1 Hl2) as [[-> ->]|?]; [|lia].
    rewrite Hf in Hs. subst s. by destruct Hs'.
  - intros Hn. exists p, o. split_and!; [done| |lia..]. destruct Hl as [?|Hl]; [done|]. exfalso. apply Hn.
    destruct (heap_meta _ _ _ _ Hh p o Hib ltac:(unfold leaf; tauto) ltac:(apply not_elem_of_nil)) as (x & Hx & _).
    by exists p, o, (σ p o), x.
Qed.
Lemma page_free_bounds z : page_free a σ z → 0 ≤ z < a.(a_total_pages).
Proof. intros (p & o & Hb & _ & Hz). pose proof (is_block_bounds a p o Hgeo Hb). lia. Qed.

(** An active block whose pages are all free is free: its halves would have been
    merged. *)
Lemma free_active r : r ∈ a.(a_roots) → ∀ n p o, o = Z.of_nat n → block r p o → σ p o ≠ BUDDY_INACTIVE →
  (∀ z, p ≤ z < p + 2 ^ o → page_free a σ z) → σ p o = BUDDY_FREE.
Proof.
  intros Hr n. induction n as [|n IH]; intros p o Ho Hb Hact Hall.
  - assert (Hl : leaf (σ p o)). { apply (not_split_leaf _ _ r p o Hshape Hr Hb Hact). subst o. by apply (shape_bottom _ _ Hshape r). }
    pose proof (pow_pos o ltac:(lia)). destruct (Hall p ltac:(lia)) as (q & k & Hq & Hf & Hqz).
    destruct (leaf_apart a σ p o q k Hgeo Hshape ltac:(by exists r) Hq Hl ltac:(rewrite Hf; by left)) as [[-> ->]|?]; [done|lia].
  - destruct (decide (σ p o = BUDDY_SPLIT)) as [Hs|Hs].
    + exfalso. set (k := Z.of_nat n). assert (Ek : o = k + 1) by (unfold k; lia). rewrite Ek in *.
      pose proof (shape_halves _ _ Hshape r p k Hr ltac:(lia) Hb) as Hv. rewrite decide_True in Hv by done.
      destruct (block_children r p k ltac:(lia) Hb) as [HL HR]. pose proof (pow_pos k ltac:(lia)). pose proof (pow_succ k ltac:(lia)).
      assert (F1 : σ p k = BUDDY_FREE) by (apply (IH p k eq_refl HL); [tauto|intros; apply Hall; lia]).
      assert (F2 : σ (p + 2 ^ k) k = BUDDY_FREE) by (apply (IH _ k eq_refl HR); [tauto|intros; apply Hall; lia]).
      by destruct (pool_coalesced _ _ _ Hpool r p k Hr ltac:(lia) Hb F1 F2) as [[]%elem_of_nil|[]%elem_of_nil].
    + assert (Hl : leaf (σ p o)) by (by apply (not_split_leaf _ _ r p o Hshape)).
      pose proof (pow_pos o ltac:(lia)). destruct (Hall p ltac:(lia)) as (q & k & Hq & Hf & Hqz).
      destruct (leaf_apart a σ p o q k Hgeo Hshape ltac:(by exists r) Hq Hl ltac:(rewrite Hf; by left)) as [[-> ->]|?]; [done|lia].
Qed.
(** So a free run that is a block lies in a free block of a list. *)
Lemma free_run_listed r p o : r ∈ a.(a_roots) → block r p o → (∀ z, p ≤ z < p + 2 ^ o → page_free a σ z) →
  ∃ f q, o ≤ f ≤ 31 ∧ q ∈ fl f.
Proof.
  intros Hr Hb Hall. assert (Ho : 0 ≤ o) by (destruct Hb; lia). pose proof (pow_pos o Ho).
  assert (Hfound : ∀ q f, is_block a q f → σ q f = BUDDY_FREE → o ≤ f → ∃ f q, o ≤ f ≤ 31 ∧ q ∈ fl f).
  { intros q f Hq Hf Hle. destruct (is_block_bounds a q f Hgeo Hq) as (Hf31 & _). exists f, q. split; [lia|].
    apply (heap_members _ _ _ _ Hh); [lia|]. split_and!; try done. apply not_elem_of_nil. }
  destruct (decide (σ p o = BUDDY_INACTIVE)) as [Hi|Hact].
  - destruct (Hall p ltac:(lia)) as (q & f & Hq & Hf & Hqz). apply (Hfound q f Hq Hf). destruct (decide (o ≤ f)) as [|Hlt]; [done|exfalso].
    pose proof Hq as (r' & Hr' & Hq'). pose proof (block_inside _ _ _ Hb). pose proof (block_inside _ _ _ Hq').
    assert (r' = r) as -> by (apply (root_unique a Hgeo r' r p); try done; unfold holds_page; lia).
    assert (Hqi : σ q f = BUDDY_INACTIVE).
    { destruct (block_nested r p o q f Hb Hq' ltac:(lia)) as [[? ?]|?]; [|lia].
      apply (below_inactive a.(a_roots) σ r p o); try done; [apply Hshape|lia|by rewrite Hi]. }
    by rewrite Hqi in Hf.
  - apply (Hfound p o); [by exists r| |lia]. by apply (free_active r Hr (Z.to_nat o) p o ltac:(lia) Hb).
Qed.

Lemma page_meta r z : r ∈ a.(a_roots) → holds_page r z → 0 ≤ z ∧ is_Some (mget a.(a_metadata) z).
Proof.
  intros Hr Hz. pose proof (root_bounds a Hgeo r Hr). pose proof (geo_metadata _ Hgeo). unfold holds_page in Hz.
  split; [lia|]. apply lookup_lt_is_Some. lia.
Qed.
(** A head that says so is held. *)
Lemma honest_taken r z x : r ∈ a.(a_roots) → holds_page r z → mget a.(a_metadata) z = Some x →
  x.(m_state) = PHYSICAL_PAGE_STATE_ALLOCATED_HEAD → block r z x.(m_order) ∧ taken a σ z x.(m_order) BUDDY_ALLOCATED x.
Proof.
  intros Hr Hz Hx Hst. destruct (page_meta r z Hr Hz) as [Hz0 _]. destruct (heap_honest _ _ _ _ Hh z x Hz0 Hx Hst) as [Hb Hs].
  pose proof Hb as (r' & Hr' & Hb').
  assert (r' = r) as -> by (apply (root_unique a Hgeo r' r z Hr' Hr); [exact (block_holds a r' z _ Hgeo Hr' Hb')|done]).
  split; [done|]. split_and!; try done. by left.
Qed.
(** The read-only path answers as the walk does. *)
Lemma owner_hint_walk r z : r ∈ a.(a_roots) → holds_page r z →
  owner_at_address a (page_address r z) true = owner_at_address a (page_address r z) false.
Proof.
  intros Hr Hz. destruct (page_meta r z Hr Hz) as [Hz0 [x Hx]]. pose proof (root_bounds a Hgeo r Hr). pose proof (geo_total _ Hgeo).
  destruct (decide (x.(m_state) = PHYSICAL_PAGE_STATE_ALLOCATED_HEAD)) as [Hst|Hst].
  - destruct (honest_taken r z x Hr Hz Hx Hst) as [Hb Htk]. set (o := x.(m_order)) in *.
    destruct (held_leaf a σ fl z o x Hh Htk) as (_ & Hl & Hs & _). pose proof Hb as [Ho _]. pose proof (pow_pos o ltac:(lia)).
    rewrite (owner_walked a σ fl [] Hh r z o z Hr Hb Hl) by lia. unfold owner_at_address.
    rewrite (page_address_aligned a r z Hgeo Hr). rewrite decide_False by auto.
    rewrite (root_for_address_ok a Hgeo r); [|done|by apply (page_address_holds a r z o z Hgeo Hr Hb); lia]. run.
    rewrite (address_page a r z Hgeo Hr Hz). unfold owner_hint. rewrite (aread_ok _ _ _ Hx). run.
    unfold holds_page in Hz. rewrite (u32_small (z - _)) by mlia. fold o. rewrite !order_page_count_pow by lia.
    assert (Hal : Z.land (z - r.(first_page)) (2 ^ o - 1) = 0).
    { replace (2 ^ o - 1) with (Z.ones o) by (rewrite Z.ones_equiv; lia). rewrite Z.land_ones by lia. destruct Hb as [_ (k & _ & ->)].
      replace (_ + _ - _) with (k * 2 ^ o) by lia. apply Z.mod_mul. lia. }
    rewrite decide_True by (split_and!; [done|lia|done]). rewrite Z.shiftr_div_pow2 by lia.
    change (2 ^ (r.(r_order) - o) - 1 + (z - r.(first_page)) / 2 ^ o) with (node r z o).
    rewrite (tree_get_is a σ Hgeo (heap_tree _ _ _ _ Hh) r z o Hr Hb), Hs. run. by rewrite decide_True.
  - unfold owner_at_address. rewrite (page_address_aligned a r z Hgeo Hr). rewrite !decide_False by auto.
    rewrite (root_for_address_ok a Hgeo r); [|done|]. 2: { unfold holds_page, holds_address, page_address, bytes_of, BOAROS_PAGE_SIZE in *. lia. }
    run. rewrite (address_page a r z Hgeo Hr Hz). unfold owner_hint. rewrite (aread_ok _ _ _ Hx). run.
    rewrite decide_False by tauto. done.
Qed.

(** ** Shared pages *)
Lemma acquire_run r z x : r ∈ a.(a_roots) → block r z 0 → taken a σ z 0 BUDDY_ALLOCATED x → x.(m_reference_count) < UINT32_MAX →
  physical_page_acquire a (page_address r z) =
    Done (PHYSICAL_PAGE_STATUS_OK, set_metadata a (mset a.(a_metadata) z (with_count x (x.(m_reference_count) + 1)))).
Proof.
  intros Hr Hb Htk Hn. destruct (held_leaf a σ fl z 0 x Hh Htk) as (_ & Hl & Hs & Hx & _ & _ & Hok).
  pose proof Hok as (_ & _ & _ & _ & _ & H6). destruct (H6 eq_refl) as (Hst & _). unfold physical_page_acquire.
  rewrite (pool_finalized _ _ _ Hpool). rewrite (trap_if_ok (true = false)) by done. run.
  rewrite (page_lookup_page a σ fl [] Hh r z Hr (block_holds a r z 0 Hgeo Hr Hb) (pool_finalized _ _ _ Hpool)). run.
  unfold head_only. rewrite (head_valid_ok a _ _ z 0 BUDDY_ALLOCATED x Hx Hok) by (right; by left). run.
  rewrite (load_metadata_ok _ _ _ Hx). run. rewrite trap_if_ok by (intros [?|[?|?]]; [done|tauto|lia]). run.
  by rewrite store_metadata_ok by (by eexists).
Qed.
Lemma head_only_invalid p o x : mget a.(a_metadata) p = Some x → x.(m_order) ≠ o → head_valid a (head_only p o) = Done false.
Proof. intros Hx Hne. unfold head_valid. simpl. rewrite (load_metadata_ok _ _ _ Hx). run. by rewrite decide_True by tauto. Qed.
Lemma head_only_some p o x : mget a.(a_metadata) p = Some x → ∃ b, head_valid a (head_only p o) = Done b.
Proof. intros Hx. unfold head_valid. simpl. rewrite (load_metadata_ok _ _ _ Hx). run. eauto. Qed.

Lemma acquire_refused address : is_u64 address →
  (∀ r z x, r ∈ a.(a_roots) → block r z 0 → taken a σ z 0 BUDDY_ALLOCATED x → x.(m_reference_count) < UINT32_MAX →
     address ≠ page_address r z) →
  physical_page_acquire a address = trap.
Proof.
  intros Hu Hno. unfold physical_page_acquire. rewrite (pool_finalized _ _ _ Hpool). rewrite (trap_if_ok (true = false)) by done. run.
  destruct (decide (Z.land address BOAROS_PAGE_MASK = 0)) as [Hal|Hal]; [|unfold page_lookup; by rewrite (decide_True (P := Z.land _ _ ≠ 0))].
  destruct (lookup_cases a σ fl address Hpool Hu Hal) as [(E1 & _)|(r & z & Hr & Hz & ->)]; [by rewrite E1|].
  rewrite (page_lookup_page a σ fl [] Hh r z Hr Hz (pool_finalized _ _ _ Hpool)). run.
  destruct (page_meta r z Hr Hz) as [_ [x Hx]]. destruct (head_only_some z 0 x Hx) as [b Eb]. rewrite Eb. run.
  rewrite (load_metadata_ok _ _ _ Hx). run. rewrite trap_if_fault; [done|].
  destruct (decide (x.(m_state) = PHYSICAL_PAGE_STATE_ALLOCATED_HEAD)) as [Hst|]; [|tauto].
  destruct (honest_taken r z x Hr Hz Hx Hst) as [Hb Htk]. destruct (decide (x.(m_order) = 0)) as [E|E].
  - right; right. rewrite E in *. destruct (held_leaf a σ fl z 0 x Hh Htk) as (_ & _ & _ & _ & _ & _ & (_ & _ & _ & _ & _ & H6)).
    destruct (H6 eq_refl) as (_ & Hrc & _). destruct (decide (x.(m_reference_count) < UINT32_MAX)) as [Hlt|]; [|lia].
    by destruct (Hno r z x Hr Hb Htk Hlt).
  - left. rewrite (head_only_invalid z 0 x Hx E) in Eb. congruence.
Qed.
End pool.
