(* ===== verification/PageRefine.v ===== *)
(** * The page allocator implements its specification *)
From S2P Require Import Prelude BootMemory PhysicalPage PageSpec PageStateTheory PageFreeTheory PageAllocTheory PageReleaseTheory.
Import PhysicalPage PageSpec.
#[local] Open Scope Z_scope.

Lemma elem_of_pages x address o : x ∈ pages_of address o ↔ ∃ i, 0 ≤ i < 2 ^ o ∧ x = address + i * BOAROS_PAGE_SIZE.
Proof.
  unfold pages_of. rewrite elem_of_list_to_set, list_elem_of_In, in_map_iff. split.
  - intros (i & <- & Hi). apply list_elem_of_In, elem_of_seqZ in Hi. exists i. split; [lia|done].
  - intros (i & Hi & ->). exists i. split; [done|]. apply list_elem_of_In, elem_of_seqZ. lia.
Qed.

Section abstraction.
Context (a : physical_page_allocator) (σ : states) (fl : free_lists).
Hypothesis Hpool : pool a σ fl.
#[local] Notation Hh := (pool_heap _ _ _ Hpool).
#[local] Notation Hgeo := (heap_geo _ _ _ _ Hh).
#[local] Notation Hshape := (heap_shape _ _ _ _ Hh).

Lemma elem_of_block_pages r p o x : r ∈ a.(a_roots) → block r p o →
  x ∈ pages_of (page_address r p) o ↔ ∃ z, p ≤ z < p + 2 ^ o ∧ x = page_address r z.
Proof.
  intros Hr Hb. rewrite elem_of_pages. unfold page_address. split.
  - intros (i & Hi & ->). exists (p + i). split; [lia|ring].
  - intros (z & Hz & ->). exists (z - p). split; [lia|ring].
Qed.
Lemma fits_block address o : fits (extents_of a) address o ↔ ∃ r p, r ∈ a.(a_roots) ∧ block r p o ∧ address = page_address r p.
Proof.
  unfold fits, extents_of, block, page_address. split.
  - intros (base & top & k & Hin & Ho & Hk & ->). apply list_elem_of_In, in_map_iff in Hin as (r & [= <- <-] & Hr).
    exists r, (r.(first_page) + k * 2 ^ o). split_and!; [by apply list_elem_of_In|lia..|by exists k|ring].
  - intros (r & p & Hr & (Ho & k & Hk & ->) & ->). exists r.(r_address), r.(r_order), k.
    split_and!; [|lia..|ring]. apply list_elem_of_In, in_map_iff. exists r. split; [done|by apply list_elem_of_In].
Qed.
(** The owner of each page. *)
Lemma page_owner_ok r p o z : r ∈ a.(a_roots) → block r p o → leaf (σ p o) → p ≤ z < p + 2 ^ o →
  page_owner_at a z = Some (mk_owner r (node r p o) p o (σ p o)).
Proof.
  intros Hr Hb Hl Hz. unfold page_owner_at.
  by rewrite (owner_find_leaf a σ Hgeo (heap_tree _ _ _ _ Hh) Hshape r p o z Hr Hb Hl Hz).
Qed.
Lemma elem_of_free x : x ∈ (spec_of a).(sp_free) ↔
  ∃ r z, r ∈ a.(a_roots) ∧ holds_page r z ∧ page_free a σ z ∧ x = page_address r z.
Proof.
  simpl. rewrite elem_of_list_to_set, list_elem_of_omap. split.
  - intros (z & Hz & E). apply elem_of_seqZ in Hz.
    destruct (page_owner a σ Hgeo (heap_tree _ _ _ _ Hh) Hshape z ltac:(lia)) as (r & p & o & Hr & Hb & Hl & Hin).
    unfold free_at in E. rewrite (page_owner_ok r p o z Hr Hb Hl Hin) in E. cbn [o_state o_first] in E.
    destruct (decide (σ p o = BUDDY_FREE)) as [Hf|]; [|done]. injection E as <-. pose proof (block_inside _ _ _ Hb).
    exists r, z. split; [done|]. split; [unfold holds_page; lia|]. split; [exists p, o; split; [by exists r|done]|].
    rewrite (owner_address_block a r _ p o _ Hgeo Hr Hb). unfold page_address. ring.
  - intros (r & z & Hr & Hz & Hf & ->). exists z. pose proof (page_free_bounds a σ fl Hpool z Hf). split; [apply elem_of_seqZ; lia|].
    destruct Hf as (p & o & (r' & Hr' & Hb) & Hs & Hin). pose proof (block_inside _ _ _ Hb).
    assert (r' = r) as -> by (apply (root_unique a Hgeo r' r z Hr' Hr); [unfold holds_page; lia|done]).
    unfold free_at. rewrite (page_owner_ok r p o z Hr Hb) by (try done; rewrite Hs; by left). cbn [o_state o_first].
    rewrite Hs, decide_True by done. rewrite (owner_address_block a r _ p o _ Hgeo Hr Hb). f_equal. unfold page_address. ring.
Qed.
Lemma block_at_spec z x o n : 0 ≤ z < a.(a_total_pages) → block_at a z = Some (x, (o, n)) ↔
  ∃ r y, r ∈ a.(a_roots) ∧ block r z o ∧ taken a σ z o BUDDY_ALLOCATED y ∧ x = page_address r z ∧ n = y.(m_reference_count).
Proof.
  intros Hz. unfold block_at. split.
  - destruct (page_owner a σ Hgeo (heap_tree _ _ _ _ Hh) Hshape z Hz) as (r & p & k & Hr & Hb & Hl & Hin).
    rewrite (page_owner_ok r p k z Hr Hb Hl Hin). destruct (a_metadata a !! Z.to_nat z) as [y|] eqn:Hy; [|done]. cbn [o_state o_first o_order].
    destruct (decide _) as [[Hs ->]|]; [|done]. intros [= <- <- <-]. exists r, y. rewrite (owner_address_block a r _ z k _ Hgeo Hr Hb).
    split_and!; try done. split; [by exists r|]. split_and!; [done|by left|done].
  - intros (r & y & Hr & Hb & (_ & Hs & _ & Hy) & -> & ->). pose proof (pow_pos o ltac:(destruct Hb; lia)).
    rewrite (page_owner_ok r z o z Hr Hb) by (try lia; rewrite Hs; right; by left). unfold mget in Hy. rewrite Hy. cbn [o_state o_first o_order].
    rewrite decide_True by done. by rewrite (owner_address_block a r _ z o _ Hgeo Hr Hb).
Qed.
Lemma lookup_blocks x o n : (spec_of a).(sp_blocks) !! x = Some (o, n) ↔
  ∃ r z y, r ∈ a.(a_roots) ∧ block r z o ∧ taken a σ z o BUDDY_ALLOCATED y ∧ x = page_address r z ∧ n = y.(m_reference_count).
Proof.
  simpl. split.
  - intros Hx%elem_of_list_to_map_2. apply list_elem_of_omap in Hx as (z & Hz & E). apply elem_of_seqZ in Hz.
    apply block_at_spec in E as (r & y & ?); [|lia]. by exists r, z, y.
  - intros (r & z & y & Hr & Hb & Htk & Hx & Hn). destruct (is_block_bounds a z o Hgeo ltac:(by exists r)) as (_ & ? & ? & _).
    pose proof (pow_pos o ltac:(destruct Hb; lia)). apply elem_of_list_to_map_1'.
    + intros [o' n'] Hv. apply list_elem_of_omap in Hv as (z' & Hz' & E). apply elem_of_seqZ in Hz'.
      apply block_at_spec in E as (r' & y' & Hr' & Hb' & Htk' & Hx' & Hn'); [|lia]. rewrite Hx in Hx'.
      destruct (page_address_inj a r r' z z' Hgeo Hr Hr') as [<- <-]; [by apply (block_holds a r z o Hgeo)|by apply (block_holds a r' z' o' Hgeo)|done|].
      assert (o' = o) as -> by (apply (held_only a σ fl z o y Hh Htk); [apply Htk'|destruct Htk' as (_ & -> & _); right; by left]).
      destruct Htk as (_ & _ & _ & Hy), Htk' as (_ & _ & _ & Hy'). congruence.
    + apply list_elem_of_omap. exists z. split; [apply elem_of_seqZ; lia|]. apply block_at_spec; [lia|]. by exists r, y.
Qed.
End abstraction.

(** ** How the abstract pool changes *)
Section change.
Context (a : physical_page_allocator) (σ : states) (fl : free_lists) (a' : physical_page_allocator) (σ' : states) (fl' : free_lists).
Hypothesis Hpool : pool a σ fl.
Hypothesis Hpool' : pool a' σ' fl'.
Hypothesis Hroots : a'.(a_roots) = a.(a_roots).
Hypothesis Htotal : a'.(a_total_pages) = a.(a_total_pages).
#[local] Notation Hgeo := (heap_geo _ _ _ _ (pool_heap _ _ _ Hpool)).

Lemma root_page_bounds r z : r ∈ a.(a_roots) → holds_page r z → 0 ≤ z < a.(a_total_pages).
Proof. intros Hr Hz. pose proof (root_bounds a Hgeo r Hr). unfold holds_page in Hz. lia. Qed.
Lemma spec_change F B :
  (∀ r z, r ∈ a.(a_roots) → holds_page r z → page_free a' σ' z ↔ page_address r z ∈ F) →
  (∀ x, x ∈ F → ∃ r z, r ∈ a.(a_roots) ∧ holds_page r z ∧ x = page_address r z) →
  (∀ x o n, B !! x = Some (o, n) ↔ ∃ r z y, r ∈ a.(a_roots) ∧ block r z o ∧ taken a' σ' z o BUDDY_ALLOCATED y ∧
     x = page_address r z ∧ n = y.(m_reference_count)) →
  spec_of a' = mk_spec F B.
Proof.
  intros HF HF' HB. assert (E : ∀ s, s = mk_spec s.(sp_free) s.(sp_blocks)) by (by intros []). rewrite (E (spec_of a')). f_equal.
  - apply set_eq. intros x. rewrite (elem_of_free a' σ' fl' Hpool' x). rewrite Hroots. split.
    + intros (r & z & Hr & Hz & Hf & ->). by apply HF.
    + intros Hx. destruct (HF' x Hx) as (r & z & Hr & Hz & ->). exists r, z. split; [done|]. split; [done|]. split; [|done]. by apply (HF r z).
  - apply map_eq. intros x. apply option_eq. intros [o n]. rewrite HB, (lookup_blocks a' σ' fl' Hpool'). by rewrite Hroots.
Qed.

Lemma spec_allocate r p o :
  r ∈ a.(a_roots) → block r p o → (∀ z, p ≤ z < p + 2 ^ o → page_free a σ z) →
  (∀ q k s y, taken a' σ' q k s y ↔ taken a σ q k s y ∨ (q = p ∧ k = o ∧ s = BUDDY_ALLOCATED ∧ y = allocated_head o)) →
  spec_of a' = mk_spec ((spec_of a).(sp_free) ∖ pages_of (page_address r p) o)
                       (<[page_address r p := (o, 1)]> (spec_of a).(sp_blocks)).
Proof.
  intros Hr Hb Hall Htk. pose proof (block_holds a r p o Hgeo Hr Hb) as Hhold. apply spec_change.
  - intros r' z Hr' Hz. rewrite elem_of_difference, (elem_of_free a σ fl Hpool), (elem_of_block_pages a r p o) by done.
    pose proof (root_page_bounds r' z Hr' Hz) as Hzb. rewrite (page_free_taken a' σ' fl' Hpool') by (by rewrite Htotal). split.
    + intros Hn. split.
      * exists r', z. split; [done|]. split; [done|]. split; [|done]. apply (page_free_taken a σ fl Hpool); [done|]. intros (q & k & s & y & Hq & Hin).
        apply Hn. exists q, k, s, y. split; [|done]. apply Htk. by left.
      * intros (w & Hw & E). destruct (page_address_inj a r' r z w Hgeo Hr' Hr Hz) as [-> ->]; [pose proof (block_inside _ _ _ Hb); unfold holds_page; lia|done|].
        apply Hn. exists p, o, BUDDY_ALLOCATED, (allocated_head o). split; [|done]. apply Htk. by right.
    + intros [(r2 & z2 & Hr2 & Hz2 & Hf & E) Hout]. destruct (page_address_inj a r' r2 z z2 Hgeo Hr' Hr2 Hz Hz2 E) as [<- <-].
      intros (q & k & s & y & Hq & Hin). apply Htk in Hq as [Hq|(-> & -> & -> & ->)].
      * apply (page_free_taken a σ fl Hpool z Hzb) in Hf. apply Hf. by exists q, k, s, y.
      * apply Hout. exists z. split; [done|]. f_equal. apply (root_unique a Hgeo r' r z Hr' Hr Hz). pose proof (block_inside _ _ _ Hb). unfold holds_page; lia.
  - intros x [Hx _]%elem_of_difference. apply (elem_of_free a σ fl Hpool) in Hx as (r' & z & ? & ? & _ & ?). by exists r', z.
  - intros x k n. destruct (decide (x = page_address r p)) as [->|Hne].
    + rewrite lookup_insert_eq. split.
      * intros [= <- <-]. exists r, p, (allocated_head o). split_and!; try done. apply Htk. by right.
      * intros (r2 & z2 & y & Hr2 & Hb2 & Hy & E & ->). apply Htk in Hy.
        destruct (page_address_inj a r r2 p z2 Hgeo Hr Hr2 Hhold (block_holds a r2 z2 k Hgeo Hr2 Hb2) E) as [<- <-].
        destruct Hy as [Hy|(_ & -> & _ & ->)]; [|done]. exfalso. pose proof (pow_pos o ltac:(destruct Hb; lia)).
        apply (page_free_taken a σ fl Hpool p (root_page_bounds r p Hr Hhold)); [apply Hall; lia|].
        exists p, k, BUDDY_ALLOCATED, y. pose proof (pow_pos k ltac:(destruct Hb2; lia)). split; [done|lia].
    + rewrite lookup_insert_ne by done. rewrite (lookup_blocks a σ fl Hpool). split; intros (r2 & z2 & y & Hr2 & Hb2 & Hy & E & ->); exists r2, z2, y.
      * split_and!; try done. apply Htk. by left.
      * apply Htk in Hy. split_and!; try done. destruct Hy as [Hy|(-> & -> & _)]; [done|]. exfalso. apply Hne. rewrite E. f_equal.
        by apply (same_root a r2 r p o p o Hgeo Hr2 Hr Hb2 Hb); pose proof (pow_pos o ltac:(destruct Hb; lia)); lia.
Qed.

(** The free pages when the taken blocks differ by the block [r], [p], [o]. *)
Lemma spec_release r p o y :
  r ∈ a.(a_roots) → block r p o → taken a σ p o BUDDY_ALLOCATED y →
  (∀ z k s w, taken a' σ' z k s w ↔ taken a σ z k s w ∧ ¬ (z = p ∧ k = o)) →
  spec_of a' = mk_spec ((spec_of a).(sp_free) ∪ pages_of (page_address r p) o) (delete (page_address r p) (spec_of a).(sp_blocks)).
Proof.
  intros Hr Hb Hy Htk. pose proof (block_holds a r p o Hgeo Hr Hb) as Hhold. pose proof (block_inside _ _ _ Hb) as Hin.
  assert (Hone : ∀ q k s w z, taken a σ q k s w → q ≤ z < q + 2 ^ k → p ≤ z < p + 2 ^ o → q = p ∧ k = o).
  { intros q k s w z (Hq & Hs & Hs' & _) H1 H2. destruct Hy as (Hp & Hps & _).
    destruct (leaf_apart a σ q k p o Hgeo (heap_shape _ _ _ _ (pool_heap _ _ _ Hpool)) Hq Hp) as [?|?]; [unfold leaf; rewrite Hs; tauto|rewrite Hps; right; by left|done|lia]. }
  apply spec_change.
  - intros r' z Hr' Hz. rewrite elem_of_union, (elem_of_free a σ fl Hpool), (elem_of_block_pages a r p o) by done.
    pose proof (root_page_bounds r' z Hr' Hz) as Hzb. rewrite (page_free_taken a' σ' fl' Hpool') by (by rewrite Htotal). split.
    + intros Hn. destruct (decide (p ≤ z < p + 2 ^ o)) as [Hzp|Hzp].
      * right. exists z. split; [done|]. f_equal. apply (root_unique a Hgeo r' r z Hr' Hr Hz). unfold holds_page; lia.
      * left. exists r', z. split; [done|]. split; [done|]. split; [|done]. apply (page_free_taken a σ fl Hpool); [done|].
        intros (q & k & s & w & Hq & Hqz). apply Hn. exists q, k, s, w. split; [|done]. apply Htk. split; [done|]. intros [-> ->]. lia.
    + intros Hc (q & k & s & w & Hq & Hqz). apply Htk in Hq as [Hq Hne]. destruct Hc as [(r2 & z2 & Hr2 & Hz2 & Hf & E)|(w' & Hw & E)].
      * destruct (page_address_inj a r' r2 z z2 Hgeo Hr' Hr2 Hz Hz2 E) as [<- <-].
        apply (page_free_taken a σ fl Hpool z Hzb) in Hf. apply Hf. by exists q, k, s, w.
      * destruct (page_address_inj a r' r z w' Hgeo Hr' Hr Hz ltac:(unfold holds_page; lia) E) as [-> ->]. by apply Hne, (Hone q k s w w').
  - intros x [Hx|Hx]%elem_of_union.
    + apply (elem_of_free a σ fl Hpool) in Hx as (r' & z & ? & ? & _ & ?). by exists r', z.
    + apply (elem_of_block_pages a r p o) in Hx as (z & ? & ->); [|done..]. exists r, z. split; [done|]. split; [unfold holds_page; lia|done].
  - intros x k n. rewrite lookup_delete_Some, (lookup_blocks a σ fl Hpool). split.
    + intros (Hne & r2 & z2 & w & Hr2 & Hb2 & Hw & -> & ->). exists r2, z2, w. split_and!; try done. apply Htk. split; [done|].
      intros [-> ->]. apply Hne. f_equal. pose proof (pow_pos o ltac:(destruct Hb; lia)). apply (same_root a r r2 p o p o Hgeo Hr Hr2 Hb Hb2). lia.
    + intros (r2 & z2 & w & Hr2 & Hb2 & Hw & -> & ->). apply Htk in Hw as [Hw Hne]. split; [|by exists r2, z2, w]. intros E.
      destruct (page_address_inj a r r2 p z2 Hgeo Hr Hr2 Hhold (block_holds a r2 z2 k Hgeo Hr2 Hb2) E) as [<- <-].
      apply Hne. pose proof (pow_pos o ltac:(destruct Hb; lia)). pose proof (pow_pos k ltac:(destruct Hb2; lia)). apply (Hone p k BUDDY_ALLOCATED w p Hw); lia.
Qed.
(** A count of owners changes. *)
Lemma spec_count r p o y n :
  r ∈ a.(a_roots) → block r p o → taken a σ p o BUDDY_ALLOCATED y →
  (∀ z k s w, taken a' σ' z k s w ↔ (taken a σ z k s w ∧ ¬ (z = p ∧ k = o)) ∨ (z = p ∧ k = o ∧ s = BUDDY_ALLOCATED ∧ w = with_count y n)) →
  spec_of a' = mk_spec (spec_of a).(sp_free) (<[page_address r p := (o, n)]> (spec_of a).(sp_blocks)).
Proof.
  intros Hr Hb Hy Htk. pose proof (block_holds a r p o Hgeo Hr Hb) as Hhold. apply spec_change.
  - intros r' z Hr' Hz. rewrite (elem_of_free a σ fl Hpool). pose proof (root_page_bounds r' z Hr' Hz) as Hzb.
    rewrite (page_free_taken a' σ' fl' Hpool') by (by rewrite Htotal).
    assert (Hsame : page_taken a' σ' z ↔ page_taken a σ z).
    { split; intros (q & k & s & w & Hq & Hin).
      - apply Htk in Hq as [[Hq _]|(-> & -> & -> & ->)]; [by exists q, k, s, w|by exists p, o, BUDDY_ALLOCATED, y].
      - destruct (decide (q = p ∧ k = o)) as [[-> ->]|Hne].
        + exists p, o, BUDDY_ALLOCATED, (with_count y n). split; [apply Htk; by right|done].
        + exists q, k, s, w. split; [apply Htk; by left|done]. }
    rewrite Hsame, <-(page_free_taken a σ fl Hpool z Hzb). split.
    + intros Hf. by exists r', z.
    + intros (r2 & z2 & Hr2 & Hz2 & Hf & E). by destruct (page_address_inj a r' r2 z z2 Hgeo Hr' Hr2 Hz Hz2 E) as [<- <-].
  - intros x Hx. apply (elem_of_free a σ fl Hpool) in Hx as (r' & z & ? & ? & _ & ?). by exists r', z.
  - intros x k m. destruct (decide (x = page_address r p)) as [->|Hne].
    + rewrite lookup_insert_eq. split.
      * intros [= <- <-]. exists r, p, (with_count y n). split_and!; try done. apply Htk. by right.
      * intros (r2 & z2 & w & Hr2 & Hb2 & Hw & E & ->). apply Htk in Hw.
        destruct (page_address_inj a r r2 p z2 Hgeo Hr Hr2 Hhold (block_holds a r2 z2 k Hgeo Hr2 Hb2) E) as [<- <-].
        destruct Hw as [[Hw Hn]|(_ & -> & _ & ->)]; [|done]. exfalso. apply Hn. split; [done|].
        apply (held_only a σ fl p o y (pool_heap _ _ _ Hpool) Hy k); [apply Hw|]. destruct Hw as (_ & -> & _). right; by left.
    + rewrite lookup_insert_ne by done. rewrite (lookup_blocks a σ fl Hpool). split; intros (r2 & z2 & w & Hr2 & Hb2 & Hw & E & ->); exists r2, z2, w.
      * split_and!; try done. apply Htk. left. split; [done|]. intros [-> ->]. apply Hne. rewrite E. f_equal.
        pose proof (pow_pos o ltac:(destruct Hb; lia)). apply (same_root a r2 r p o p o Hgeo Hr2 Hr Hb2 Hb). lia.
      * apply Htk in Hw. split_and!; try done. destruct Hw as [[Hw _]|(-> & -> & _)]; [done|]. exfalso. apply Hne. rewrite E. f_equal.
        pose proof (pow_pos o ltac:(destruct Hb; lia)). apply (same_root a r2 r p o p o Hgeo Hr2 Hr Hb2 Hb). lia.
Qed.
End change.

(** ** One operation *)
Lemma pool_count a σ fl p y n : pool a σ fl → taken a σ p 0 BUDDY_ALLOCATED y → 1 ≤ n ≤ UINT32_MAX →
  pool (set_metadata a (mset a.(a_metadata) p (with_count y n))) σ fl.
Proof. intros Hp Hy Hn. split; [by apply held_count with (o := 0); [apply Hp|..]|apply Hp..]. Qed.
Lemma taken_count a σ fl p y n : pool a σ fl → taken a σ p 0 BUDDY_ALLOCATED y →
  ∀ z k s w, taken (set_metadata a (mset a.(a_metadata) p (with_count y n))) σ z k s w ↔
    (taken a σ z k s w ∧ ¬ (z = p ∧ k = 0)) ∨ (z = p ∧ k = 0 ∧ s = BUDDY_ALLOCATED ∧ w = with_count y n).
Proof.
  intros Hp Hy z k s w. pose proof (pool_heap _ _ _ Hp) as Hh. destruct (held_leaf a σ fl p 0 y Hh Hy) as (Hb & _ & Hs & Hx & _).
  destruct (decide (z = p ∧ k = 0)) as [[-> ->]|Hne].
  - unfold taken at 1. simpl. rewrite mget_mset_eq by (by eexists). rewrite Hs. split.
    + intros (_ & <- & _ & [= <-]). by right.
    + intros [[_ []]|(_ & _ & -> & ->)]; [done|]. split_and!; [done..|by left|done].
  - rewrite (held_others a σ fl p 0 y Hh Hy _ σ (with_count y n)) by done. tauto.
Qed.

(** What every operation leaves in place. *)
Record kept (a : physical_page_allocator) (σ : states) (a' : physical_page_allocator) (σ' : states) : Prop := {
  kept_roots : a'.(a_roots) = a.(a_roots);
  kept_total : a'.(a_total_pages) = a.(a_total_pages);
  kept_ranges : a'.(a_ranges) = a.(a_ranges);
  kept_range_count : a'.(a_range_count) = a.(a_range_count);
  kept_address : a'.(a_metadata_address) = a.(a_metadata_address);
  kept_pages : a'.(a_metadata_pages) = a.(a_metadata_pages);
  kept_access : a'.(a_access) = a.(a_access);
  kept_internal z k x : taken a' σ' z k BUDDY_INTERNAL x ↔ taken a σ z k BUDDY_INTERNAL x;
}.
Lemma kept_refl a σ : kept a σ a σ.
Proof. by split. Qed.
Lemma kept_trans a σ a1 σ1 a2 σ2 : kept a σ a1 σ1 → kept a1 σ1 a2 σ2 → kept a σ a2 σ2.
Proof. intros [] []. split; [congruence..|]. intros. etrans; eauto. Qed.
Lemma kept_count a σ fl p y n : pool a σ fl → taken a σ p 0 BUDDY_ALLOCATED y →
  kept a σ (set_metadata a (mset a.(a_metadata) p (with_count y n))) σ.
Proof.
  intros Hp Hy. split; try done. intros z k x. rewrite (taken_count a σ fl p y n Hp Hy).
  split; [intros [[? _]|(_ & _ & ? & _)]; done|]. intros Hx. left. split; [done|].
  intros [-> ->]. destruct Hx as (_ & E1 & _), Hy as (_ & E2 & _). by rewrite E1 in E2.
Qed.

Definition refined (a : physical_page_allocator) (σ : states) (op : page_op) : Prop :=
  ∃ ans a' σ' fl', exec a op = Done (ans, a') ∧ pool a' σ' fl' ∧ kept a σ a' σ' ∧
    page_step (extents_of a) (spec_of a) op ans (spec_of a').

Lemma allocate_refined a σ fl o : pool a σ fl → 0 ≤ o ≤ 31 → refined a σ (Op_allocate o).
Proof.
  intros Hp Ho. pose proof (heap_geo _ _ _ _ (pool_heap _ _ _ Hp)) as Hgeo.
  destruct (allocate_once_run a σ fl o Hp Ho) as [[E Hnone]|(r & p & f & t & m & h & σ' & fl' & E & Hr & Hb & Hf & Hbf & Hsf & Hp' & Htk)].
  - exists (PHYSICAL_PAGE_STATUS_EMPTY, None), a, σ, fl. split_and!; [by unfold exec; rewrite E|done|apply kept_refl|]. constructor.
    intros address (r & p & Hr & Hb & ->)%fits_block Hsub.
    destruct (free_run_listed a σ fl Hp r p o Hr Hb) as (f & q & Hfo & Hq).
    + intros z Hz. assert (Hin : page_address r z ∈ (spec_of a).(sp_free)) by (rewrite elem_of_subseteq in Hsub; apply Hsub; apply (elem_of_block_pages a r p o); [done..|by exists z]).
      apply (elem_of_free a σ fl Hp) in Hin as (r' & z' & Hr' & Hz' & Hfree & E'). pose proof (block_inside _ _ _ Hb).
      by destruct (page_address_inj a r r' z z' Hgeo Hr Hr' ltac:(unfold holds_page; lia) Hz' E') as [-> ->].
    + rewrite (Hnone f Hfo) in Hq. by apply elem_of_nil in Hq.
  - exists (PHYSICAL_PAGE_STATUS_OK, Some (page_address r p)). eexists _, σ', fl'. split_and!; [by unfold exec; rewrite E|done|..].
    + split; try done. intros z k x. rewrite Htk. split; [|tauto]. intros [?|(_ & _ & ? & _)]; done.
    + assert (Hpow : 2 ^ o ≤ 2 ^ f) by (apply Z.pow_le_mono_r; lia).
      assert (Hall : ∀ z, p ≤ z < p + 2 ^ o → page_free a σ z) by (intros z Hz; exists p, f; split_and!; [done..|lia|lia]).
      cbv zeta in *. rewrite (spec_allocate a σ fl _ σ' fl' Hp Hp' eq_refl eq_refl r p o Hr Hb Hall Htk). constructor.
      * apply fits_block. by exists r, p.
      * intros x. rewrite (elem_of_block_pages a r p o) by done. intros (z & Hz & ->). apply (elem_of_free a σ fl Hp).
        exists r, z. pose proof (block_inside _ _ _ Hb). split; [done|]. split; [unfold holds_page; lia|]. split; [by apply Hall|done].
Qed.
Lemma release_refined a σ fl address o : pool a σ fl → (∃ n, (spec_of a).(sp_blocks) !! address = Some (o, n)) →
  refined a σ (Op_release address o).
Proof.
  intros Hp [n Hn]. pose proof Hn as Hn'. apply (lookup_blocks a σ fl Hp) in Hn' as (r & p & y & Hr & Hb & Hy & -> & ->).
  pose proof (pool_heap _ _ _ Hp) as Hh. destruct (held_leaf a σ fl p o y Hh Hy) as (_ & _ & _ & _ & _ & _ & Hok).
  destruct Hok as (_ & _ & _ & _ & _ & H6). destruct (H6 eq_refl) as (_ & Hc & _).
  destruct (decide (1 < y.(m_reference_count))) as [Hlt|Hlt].
  - destruct (release_counted a σ fl r p o y Hp Hr Hb Hy Hlt) as [E0 E]. subst o.
    pose proof (pool_count a σ fl p y (y.(m_reference_count) - 1) Hp Hy ltac:(lia)) as Hp'.
    pose proof (taken_count a σ fl p y (y.(m_reference_count) - 1) Hp Hy) as Htk.
    eexists (PHYSICAL_PAGE_STATUS_OK, None), _, σ, fl. split_and!; [by unfold exec; rewrite E|done|..].
    + by apply (kept_count a σ fl p y).
    + rewrite (spec_count a σ fl _ σ fl Hp Hp' eq_refl eq_refl r p 0 y _ Hr Hb Hy Htk). by constructor.
  - destruct (release_last a σ fl r p o y Hp Hr Hb Hy ltac:(lia)) as (t & m & h & σ' & fl' & E & Hp' & Htk).
    eexists (PHYSICAL_PAGE_STATUS_OK, None), _, σ', fl'. split_and!; [by unfold exec; rewrite E|done|..].
    + split; try done. intros z k x. rewrite Htk. split; [tauto|]. intros Hx. split; [done|].
      intros [-> ->]. destruct Hx as (_ & E1 & _), Hy as (_ & E2 & _). by rewrite E1 in E2.
    + rewrite (spec_release a σ fl _ σ' fl' Hp Hp' eq_refl eq_refl r p o y Hr Hb Hy Htk). constructor.
      rewrite Hn. do 2 f_equal. lia.
Qed.
Lemma acquire_refined a σ fl address : pool a σ fl → allowed (spec_of a) (Op_acquire address) → refined a σ (Op_acquire address).
Proof.
  intros Hp (n & Hn & Hlt). pose proof Hn as Hn'. apply (lookup_blocks a σ fl Hp) in Hn' as (r & p & y & Hr & Hb & Hy & -> & ->).
  pose proof (pool_heap _ _ _ Hp) as Hh. destruct (held_leaf a σ fl p 0 y Hh Hy) as (_ & _ & _ & _ & _ & _ & Hok).
  destruct Hok as (_ & _ & _ & _ & _ & H6). destruct (H6 eq_refl) as (_ & Hc & _).
  pose proof (pool_count a σ fl p y (y.(m_reference_count) + 1) Hp Hy ltac:(lia)) as Hp'.
  pose proof (taken_count a σ fl p y (y.(m_reference_count) + 1) Hp Hy) as Htk.
  eexists (PHYSICAL_PAGE_STATUS_OK, None), _, σ, fl. split_and!; [by unfold exec; rewrite (acquire_run a σ fl Hp r p y)|done|..].
  + by apply (kept_count a σ fl p y).
  + rewrite (spec_count a σ fl _ σ fl Hp Hp' eq_refl eq_refl r p 0 y _ Hr Hb Hy Htk). by constructor.
Qed.

(** An address that is no page's is in no part of the pool. *)
Lemma spec_nowhere a σ fl address : pool a σ fl →
  (∀ r z, r ∈ a.(a_roots) → holds_page r z → address ≠ page_address r z) →
  (spec_of a).(sp_blocks) !! address = None ∧ address ∉ (spec_of a).(sp_free).
Proof.
  intros Hp Hno. pose proof (heap_geo _ _ _ _ (pool_heap _ _ _ Hp)) as Hgeo. split.
  - apply eq_None_not_Some. intros [[o n] Ho]. apply (lookup_blocks a σ fl Hp) in Ho as (r & p & y & Hr & Hb & _ & E & _).
    by apply (Hno r p Hr (block_holds a r p o Hgeo Hr Hb)).
  - intros Hf. apply (elem_of_free a σ fl Hp) in Hf as (r & z & Hr & Hz & _ & E). by apply (Hno r z).
Qed.
(** A page of a leaf that is not free, and one that does not start a held
    block. *)
Lemma spec_not_free a σ fl r z p o : pool a σ fl → r ∈ a.(a_roots) → holds_page r z → is_block a p o → leaf (σ p o) →
  p ≤ z < p + 2 ^ o → σ p o ≠ BUDDY_FREE → page_address r z ∉ (spec_of a).(sp_free).
Proof.
  intros Hp Hr Hz Hib Hl Hin Hf Hin'. pose proof (pool_heap _ _ _ Hp) as Hh. pose proof (heap_geo _ _ _ _ Hh) as Hgeo.
  apply (elem_of_free a σ fl Hp) in Hin' as (r' & z' & Hr' & Hz' & (q & k & Hq & Hs & Hqz) & E).
  destruct (page_address_inj a r r' z z' Hgeo Hr Hr' Hz Hz' E) as [-> ->].
  destruct (leaf_apart a σ q k p o Hgeo (heap_shape _ _ _ _ Hh) Hq Hib) as [[-> ->]|?]; [rewrite Hs; by left|done|done|lia].
Qed.
Lemma spec_not_head a σ fl r z p o : pool a σ fl → r ∈ a.(a_roots) → holds_page r z → is_block a p o → leaf (σ p o) →
  p ≤ z < p + 2 ^ o → σ p o ≠ BUDDY_ALLOCATED ∨ p ≠ z → (spec_of a).(sp_blocks) !! page_address r z = None.
Proof.
  intros Hp Hr Hz Hib Hl Hin Hn. pose proof (pool_heap _ _ _ Hp) as Hh. pose proof (heap_geo _ _ _ _ Hh) as Hgeo.
  apply eq_None_not_Some. intros [[k n] Hk].
  apply (lookup_blocks a σ fl Hp) in Hk as (r' & p' & y & Hr' & Hb' & Hy & E & _).
  destruct (page_address_inj a r r' z p' Hgeo Hr Hr' Hz (block_holds a r' p' k Hgeo Hr' Hb') E) as [<- <-].
  destruct (held_leaf a σ fl z k y Hh Hy) as (Hzb & Hzl & Hzs & _). pose proof (pow_pos k ltac:(destruct Hb'; lia)).
  destruct (leaf_apart a σ z k p o Hgeo (heap_shape _ _ _ _ Hh) Hzb Hib Hzl Hl) as [[-> ->]|?]; [tauto|lia].
Qed.
Lemma order_guard a σ fl address : pool a σ fl → physical_page_allocation_order a address =
  (answer ← owner_at_address a address true;
   match answer with
   | Address_refused => Done (PHYSICAL_PAGE_STATUS_INVALID, None)
   | Tree_corrupt => trap
   | Owner_of page owner =>
       if decide (owner.(o_state) = BUDDY_FREE) then Done (PHYSICAL_PAGE_STATUS_DOUBLE_FREE, None)
       else if decide (owner.(o_state) ≠ BUDDY_ALLOCATED ∨ owner.(o_first) ≠ page) then Done (PHYSICAL_PAGE_STATUS_INVALID, None)
       else valid ← head_valid a owner; _ ← trap_if (valid = false); Done (PHYSICAL_PAGE_STATUS_OK, Some owner.(o_order))
   end).
Proof.
  intros Hp. unfold physical_page_allocation_order. rewrite (pool_initialized _ _ _ Hp), (pool_finalized _ _ _ Hp). by rewrite !decide_False.
Qed.
(** The questions change nothing. *)
Lemma order_refined a σ fl address : pool a σ fl → is_u64 address → refined a σ (Op_order address).
Proof.
  intros Hp Hu. pose proof (pool_heap _ _ _ Hp) as Hh. pose proof (heap_geo _ _ _ _ Hh) as Hgeo.
  pose proof (order_guard a σ fl address Hp) as Hguard.
  assert (Hdone : ∀ s v, physical_page_allocation_order a address = Done (s, v) →
    page_step (extents_of a) (spec_of a) (Op_order address) (s, v) (spec_of a) → refined a σ (Op_order address)).
  { intros s v E Hst. exists (s, v), a, σ, fl. split_and!; [by unfold exec; rewrite E|done|apply kept_refl|done]. }
  destruct (decide (Z.land address BOAROS_PAGE_MASK = 0)) as [Hal|Hal].
  2: { apply (Hdone PHYSICAL_PAGE_STATUS_INVALID None).
       - rewrite Hguard. unfold owner_at_address. by rewrite (decide_True (P := Z.land _ _ ≠ 0)).
       - destruct (spec_nowhere a σ fl address Hp); [|by constructor].
         intros r z Hr _ ->. apply Hal, (page_address_aligned a r z Hgeo Hr). }
  destruct (lookup_cases a σ fl address Hp Hu Hal) as [(_ & E & Hno)|(r & z & Hr & Hz & ->)].
  { apply (Hdone PHYSICAL_PAGE_STATUS_INVALID None); [by rewrite Hguard, E|]. destruct (spec_nowhere a σ fl _ Hp Hno). by constructor. }
  destruct (owner_walk_page a σ Hgeo (heap_tree _ _ _ _ Hh) (heap_shape _ _ _ _ Hh) r z Hr Hz) as (p & o & Hb & Hl & Hin & _).
  rewrite (owner_hint_walk a σ fl Hp r z Hr Hz), (owner_walked a σ fl [] Hh r p o z Hr Hb Hl Hin) in Hguard.
  cbn [mbind outcome_bind o_state o_first o_order] in Hguard. assert (Hib : is_block a p o) by (by exists r).
  destruct (decide (σ p o = BUDDY_FREE)) as [Hf|Hf].
  - apply (Hdone PHYSICAL_PAGE_STATUS_DOUBLE_FREE None); [done|]. constructor. apply (elem_of_free a σ fl Hp). exists r, z.
    split; [done|]. split; [done|]. split; [by exists p, o|done].
  - destruct (decide (σ p o ≠ BUDDY_ALLOCATED ∨ p ≠ z)) as [Hn|Hn].
    + apply (Hdone PHYSICAL_PAGE_STATUS_INVALID None); [done|].
      constructor; [by apply (spec_not_head a σ fl r z p o)|by apply (spec_not_free a σ fl r z p o)].
    + assert (p = z) as -> by lia. assert (Hs : σ z o = BUDDY_ALLOCATED) by (apply dec_stable; tauto).
      destruct (heap_meta _ _ _ _ Hh z o Hib Hl ltac:(apply not_elem_of_nil)) as (x & Hx & Hok).
      assert (Hy : taken a σ z o BUDDY_ALLOCATED x) by (split; [done|]; split_and!; [done|by left|done]).
      apply (Hdone PHYSICAL_PAGE_STATUS_OK (Some o)).
      * rewrite Hguard. rewrite (head_valid_ok a r _ z o _ x Hx Hok Hl). run. by rewrite trap_if_ok.
      * apply (step_order _ _ _ _ x.(m_reference_count)). apply (lookup_blocks a σ fl Hp). by exists r, z, x.
Qed.
Lemma count_run a σ fl address o n : pool a σ fl → (spec_of a).(sp_blocks) !! address = Some (o, n) →
  physical_page_reference_count a address = Done (PHYSICAL_PAGE_STATUS_OK, n).
Proof.
  intros Hp Hn. apply (lookup_blocks a σ fl Hp) in Hn as (r & p & y & Hr & Hb & Hy & -> & ->).
  pose proof (pool_heap _ _ _ Hp) as Hh. pose proof (heap_geo _ _ _ _ Hh) as Hgeo.
  destruct (held_leaf a σ fl p o y Hh Hy) as (_ & Hl & Hs & Hx & _ & _ & Hok). pose proof Hok as (Eo & _ & _ & _ & _ & H6).
  destruct (H6 eq_refl) as (Hst & _). unfold physical_page_reference_count. rewrite (pool_finalized _ _ _ Hp).
  rewrite (trap_if_ok (true = false)) by done. run.
  rewrite (page_lookup_page a σ fl [] Hh r p Hr (block_holds a r p o Hgeo Hr Hb) (pool_finalized _ _ _ Hp)). run.
  rewrite (load_metadata_ok _ _ _ Hx). run. rewrite (trap_if_ok (_ ≠ _)) by tauto. run. unfold head_only. rewrite Eo.
  rewrite (head_valid_ok a _ _ p o BUDDY_ALLOCATED y Hx Hok) by (right; by left). run. by rewrite trap_if_ok.
Qed.
Lemma count_refused a σ fl address : pool a σ fl → is_u64 address → (spec_of a).(sp_blocks) !! address = None →
  physical_page_reference_count a address = trap.
Proof.
  intros Hp Hu Hn. pose proof (pool_heap _ _ _ Hp) as Hh. unfold physical_page_reference_count. rewrite (pool_finalized _ _ _ Hp).
  rewrite (trap_if_ok (true = false)) by done. run.
  destruct (decide (Z.land address BOAROS_PAGE_MASK = 0)) as [Hal|Hal]; [|unfold page_lookup; by rewrite (decide_True (P := Z.land _ _ ≠ 0))].
  destruct (lookup_cases a σ fl address Hp Hu Hal) as [(E1 & _)|(r & z & Hr & Hz & ->)]; [by rewrite E1|].
  rewrite (page_lookup_page a σ fl [] Hh r z Hr Hz (pool_finalized _ _ _ Hp)). run.
  destruct (page_meta a σ fl Hp r z Hr Hz) as [_ [x Hx]]. rewrite (load_metadata_ok _ _ _ Hx). run. rewrite trap_if_fault; [done|]. intros Hst.
  destruct (honest_taken a σ fl Hp r z x Hr Hz Hx Hst) as [Hb Hy].
  assert (E : (spec_of a).(sp_blocks) !! page_address r z = Some (x.(m_order), x.(m_reference_count))) by (apply (lookup_blocks a σ fl Hp); by exists r, z, x).
  by rewrite E in Hn.
Qed.

Lemma exec_refined a σ fl op : pool a σ fl → op_typed op → allowed (spec_of a) op → refined a σ op.
Proof.
  intros Hp Ht Hall. destruct op as [o|address o|address|address|address].
  - by apply (allocate_refined a σ fl).
  - by apply (release_refined a σ fl).
  - by apply (acquire_refined a σ fl).
  - by apply (order_refined a σ fl).
  - destruct Hall as [[o n] Hn]. exists (PHYSICAL_PAGE_STATUS_OK, Some n), a, σ, fl.
    split_and!; [by unfold exec; rewrite (count_run a σ fl address o n Hp Hn)|done|apply kept_refl|]. by apply (step_count _ _ _ o).
Qed.
Lemma exec_refused a σ fl op : pool a σ fl → op_typed op → ¬ allowed (spec_of a) op → exec a op = trap.
Proof.
  intros Hp Ht Hno. destruct op as [o|address o|address|address|address]; simpl in *; try tauto.
  - rewrite (release_refused a σ fl address o Hp); [done|tauto|lia|]. intros r p x Hr Hb Hx ->. apply Hno.
    exists x.(m_reference_count). apply (lookup_blocks a σ fl Hp). by exists r, p, x.
  - rewrite (acquire_refused a σ fl Hp address Ht); [done|]. intros r z x Hr Hb Hx Hlt ->. apply Hno.
    exists x.(m_reference_count). split; [|done]. apply (lookup_blocks a σ fl Hp). by exists r, z, x.
  - rewrite (count_refused a σ fl address Hp Ht); [done|]. by apply eq_None_not_Some.
Qed.
