(* ===== verification/PageBuildTheory.v ===== *)
(** * [finalize]: building and publishing the trees *)
From S2P Require Import Prelude BootMemory PhysicalPage PageBoot PageFinal PageStateTheory PageFreeTheory PageAllocTheory PageReleaseTheory.
Import PhysicalPage PageBoot PageFinal.
#[local] Open Scope Z_scope.

(** All pages of the block have state [s]. *)
Definition uniform (g : Z → Z) (p o s : Z) : Prop := Forall (λ z, g z = s) (seqZ p (2 ^ o)).
#[export] Instance uniform_dec g p o s : Decision (uniform g p o s).
Proof. unfold uniform. apply _. Defined.
Definition merged_state (g : Z → Z) (p o : Z) : Prop := uniform g p o BUDDY_FREE ∨ uniform g p o BUDDY_INTERNAL.
#[export] Instance merged_state_dec g p o : Decision (merged_state g p o).
Proof. unfold merged_state. apply _. Defined.
(** The state of an active block. *)
Definition value (g : Z → Z) (p o : Z) : Z :=
  if decide (uniform g p o BUDDY_FREE) then BUDDY_FREE
  else if decide (uniform g p o BUDDY_INTERNAL) then BUDDY_INTERNAL
  else if decide (o = 0) then BUDDY_ALLOCATED else BUDDY_SPLIT.
Definition parent_of (r : physical_page_root) (p o : Z) : Z :=
  r.(first_page) + (p - r.(first_page)) / 2 ^ (o + 1) * 2 ^ (o + 1).
(** The state of a block in the finished tree of its root. *)
Definition settled (r : physical_page_root) (g : Z → Z) (p o : Z) : Z :=
  if decide (merged_state g (parent_of r p o) (o + 1)) then BUDDY_INACTIVE else value g p o.
Definition within (p o q k : Z) : Prop := q ≤ p ∧ p + 2 ^ o ≤ q + 2 ^ k ∧ 0 ≤ o ≤ k.
(** ... and while only the block [q], [k] is built. *)
Definition built (r : physical_page_root) (g : Z → Z) (σ : states) (q k : Z) : states := λ p o,
  if decide (within p o q k) then (if decide (p = q ∧ o = k) then value g q k else settled r g p o) else σ p o.

Lemma uniform_spec g p o s : uniform g p o s ↔ ∀ z, p ≤ z < p + 2 ^ o → g z = s.
Proof.
  unfold uniform. rewrite Forall_forall. split; intros H z Hz; apply H.
  - apply elem_of_seqZ. lia.
  - by apply elem_of_seqZ in Hz.
Qed.
Lemma uniform_halves g p o s : 0 ≤ o → uniform g p (o + 1) s ↔ uniform g p o s ∧ uniform g (p + 2 ^ o) o s.
Proof.
  intros Ho. rewrite !uniform_spec. pose proof (pow_pos o Ho). rewrite pow_succ by done. split.
  - intros H1. split; intros; apply H1; lia.
  - intros [H1 H2] z Hz. destruct (decide (z < p + 2 ^ o)); [apply H1|apply H2]; lia.
Qed.
Lemma uniform_one g p o s s' : 0 ≤ o → uniform g p o s → uniform g p o s' → s = s'.
Proof. rewrite !uniform_spec. intros Ho H1 H2. pose proof (pow_pos o Ho). rewrite <-(H1 p), <-(H2 p); [done|lia..]. Qed.
Lemma value_merged g p o s : 0 ≤ o → s = BUDDY_FREE ∨ s = BUDDY_INTERNAL → value g p o = s ↔ uniform g p o s.
Proof.
  intros Ho Hs. unfold value. destruct (decide (uniform g p o BUDDY_FREE)) as [U1|U1].
  - split; [by intros <-|]. intros U. by apply (uniform_one g p o).
  - destruct (decide (uniform g p o BUDDY_INTERNAL)) as [U2|U2].
    + split; [by intros <-|]. intros U. by apply (uniform_one g p o).
    + split; [|intros U; destruct Hs as [->| ->]; done]. intros E. by destruct Hs as [->| ->]; destruct (decide (o = 0)).
Qed.
Lemma value_range g p o : 0 ≤ value g p o ≤ 4 ∧ value g p o ≠ BUDDY_INACTIVE.
Proof. unfold value. by repeat destruct (decide _). Qed.
(** What the two halves decide. *)
Lemma value_halves g p o : 0 ≤ o →
  (value g p o = value g (p + 2 ^ o) o ∧ (value g p o = BUDDY_FREE ∨ value g p o = BUDDY_INTERNAL) ∧
   merged_state g p (o + 1) ∧ value g p (o + 1) = value g p o) ∨
  (¬ (value g p o = value g (p + 2 ^ o) o ∧ (value g p o = BUDDY_FREE ∨ value g p o = BUDDY_INTERNAL)) ∧
   ¬ merged_state g p (o + 1) ∧ value g p (o + 1) = BUDDY_SPLIT).
Proof.
  intros Ho. assert (Ho1 : 0 ≤ o + 1) by lia.
  destruct (decide (merged_state g p (o + 1))) as [Hm|Hm].
  - left. assert (∃ s, (s = BUDDY_FREE ∨ s = BUDDY_INTERNAL) ∧ uniform g p (o + 1) s) as (s & Hs & Hu).
    { destruct Hm; [by exists BUDDY_FREE; split; [left|]|by exists BUDDY_INTERNAL; split; [right|]]. }
    pose proof Hu as [H1 H2]%uniform_halves; [|done].
    apply (value_merged g p o s Ho Hs) in H1. apply (value_merged g (p + 2 ^ o) o s Ho Hs) in H2.
    apply (value_merged g p (o + 1) s Ho1 Hs) in Hu. by rewrite H1, H2, Hu.
  - right. split_and!; [|done|].
    + intros [E Hs]. apply Hm. destruct Hs as [Hs|Hs]; [left|right]; apply uniform_halves; try done; split.
      * by apply (value_merged g p o); [..|left|].
      * apply (value_merged g (p + 2 ^ o) o); [done|by left|congruence].
      * by apply (value_merged g p o); [..|right|].
      * apply (value_merged g (p + 2 ^ o) o); [done|by right|congruence].
    + unfold merged_state in Hm. unfold value. rewrite !decide_False; [done|lia|tauto|tauto].
Qed.

Lemma parent_halves r q o : 0 ≤ o → block r q (o + 1) → parent_of r q o = q ∧ parent_of r (q + 2 ^ o) o = q.
Proof.
  intros Ho [_ (k & _ & ->)]. unfold parent_of. pose proof (pow_pos o Ho). rewrite pow_succ by done.
  replace (r.(first_page) + k * (2 * 2 ^ o) - r.(first_page)) with (k * (2 * 2 ^ o)) by lia.
  replace (r.(first_page) + k * (2 * 2 ^ o) + 2 ^ o - r.(first_page)) with (2 ^ o + k * (2 * 2 ^ o)) by lia.
  rewrite Z.div_mul, Z.div_add by lia. rewrite (Z.div_small (2 ^ o)) by lia. split; ring.
Qed.

(** The step from the two halves to the block. *)
Lemma within_half r p o q k : 0 ≤ k → block r q (k + 1) → block r p o →
  within p o q (k + 1) ↔ (p = q ∧ o = k + 1) ∨ within p o q k ∨ within p o (q + 2 ^ k) k.
Proof.
  intros Hk Hq Hp. destruct (block_children r q k Hk Hq) as [HL HR]. pose proof (pow_pos k Hk). pose proof (pow_succ k Hk).
  assert (Ho : 0 ≤ o) by (destruct Hp; lia). pose proof (pow_pos o Ho). unfold within. split.
  - intros (W1 & W2 & W3). destruct (decide (o = k + 1)) as [->|Hne]; [left; lia|]. right.
    destruct (block_nested r q k p o HL Hp ltac:(lia)) as [?|[?|?]]; [left; lia|lia|].
    destruct (block_nested r (q + 2 ^ k) k p o HR Hp ltac:(lia)) as [?|[?|?]]; [right; lia|lia|lia].
  - intros [[-> ->]|[?|?]]; lia.
Qed.
Lemma within_apart p o q k : 0 ≤ k → within p o q k → within p o (q + 2 ^ k) k → False.
Proof. intros Hk (? & ? & ?) (? & ? & ?). pose proof (pow_pos o ltac:(lia)). lia. Qed.
Lemma within_refl p o : 0 ≤ o → within p o p o.
Proof. unfold within. lia. Qed.

(** Both halves built. *)
Lemma built_halves r g σ q k p o : 0 ≤ k → block r q (k + 1) → block r p o →
  built r g (built r g σ q k) (q + 2 ^ k) k p o =
    if decide ((p = q ∨ p = q + 2 ^ k) ∧ o = k) then value g p k
    else if decide (within p o q (k + 1) ∧ o ≠ k + 1) then settled r g p o else σ p o.
Proof.
  intros Hk Hq Hp. pose proof (pow_pos k Hk). pose proof (within_half r p o q k Hk Hq Hp) as Hw. unfold built.
  destruct (decide (within p o (q + 2 ^ k) k)) as [WR|WR].
  - destruct (decide (p = q + 2 ^ k ∧ o = k)) as [[-> ->]|Hne]; [by rewrite decide_True by tauto|].
    assert (p ≠ q) by (intros ->; destruct WR; lia). rewrite decide_False by tauto. rewrite decide_True; [done|].
    split; [tauto|]. destruct WR; lia.
  - destruct (decide (within p o q k)) as [WL|WL].
    + destruct (decide (p = q ∧ o = k)) as [[-> ->]|Hne]; [by rewrite decide_True by tauto|].
      assert (Hn : ¬ ((p = q ∨ p = q + 2 ^ k) ∧ o = k)).
      { intros [[->| ->] ->]; [tauto|]. apply WR. by apply within_refl. }
      rewrite (decide_False (P := (p = q ∨ p = q + 2 ^ k) ∧ o = k)) by exact Hn. rewrite decide_True; [done|]. split; [tauto|]. destruct WL; lia.
    + assert (Hn : ¬ ((p = q ∨ p = q + 2 ^ k) ∧ o = k)) by (intros [[->| ->] ->]; [apply WL|apply WR]; by apply within_refl).
      rewrite (decide_False (P := (p = q ∨ p = q + 2 ^ k) ∧ o = k)) by exact Hn. rewrite decide_False; [done|]. intros [W Hne]. apply Hw in W as [[-> ->]|[?|?]]; tauto.
Qed.
Lemma settled_half r g q k p : 0 ≤ k → block r q (k + 1) → p = q ∨ p = q + 2 ^ k →
  settled r g p k = if decide (merged_state g q (k + 1)) then BUDDY_INACTIVE else value g p k.
Proof. intros Hk Hq Hp. unfold settled. destruct (parent_halves r q k Hk Hq) as [E1 E2]. by destruct Hp as [->| ->]; rewrite ?E1, ?E2. Qed.

Lemma built_split r g σ q k p o : 0 ≤ k → block r q (k + 1) → block r p o → ¬ merged_state g q (k + 1) → value g q (k + 1) = BUDDY_SPLIT →
  put (built r g (built r g σ q k) (q + 2 ^ k) k) q (k + 1) BUDDY_SPLIT p o = built r g σ q (k + 1) p o.
Proof.
  intros Hk Hq Hp Hm Hv. unfold put. rewrite (built_halves r g σ q k p o Hk Hq Hp). unfold built.
  destruct (decide (p = q ∧ o = k + 1)) as [[-> ->]|Hne]; [by rewrite decide_True by (apply within_refl; lia)|].
  destruct (decide ((p = q ∨ p = q + 2 ^ k) ∧ o = k)) as [[Hpq ->]|Hn].
  - rewrite decide_True; [|apply (within_half r p k q k Hk Hq Hp); destruct Hpq as [->| ->]; right; [left|right]; by apply within_refl].
    rewrite (settled_half r g q k p Hk Hq Hpq). by rewrite decide_False.
  - destruct (decide (within p o q (k + 1))) as [W|W]; [|by rewrite decide_False by tauto].
    rewrite decide_True; [done|]. split; [done|]. intros ->. apply Hne. split; [|done]. destruct W as (? & ? & ?). lia.
Qed.
Lemma built_merge r g σ q k p o : 0 ≤ k → block r q (k + 1) → block r p o → merged_state g q (k + 1) →
  put (put (put (built r g (built r g σ q k) (q + 2 ^ k) k) q k BUDDY_INACTIVE) (q + 2 ^ k) k BUDDY_INACTIVE) q (k + 1) (value g q (k + 1)) p o =
  built r g σ q (k + 1) p o.
Proof.
  intros Hk Hq Hp Hm. unfold put. rewrite (built_halves r g σ q k p o Hk Hq Hp). unfold built.
  destruct (decide (p = q ∧ o = k + 1)) as [[-> ->]|Hne]; [by rewrite decide_True by (apply within_refl; lia)|].
  destruct (decide ((p = q ∨ p = q + 2 ^ k) ∧ o = k)) as [[Hpq ->]|Hn].
  - rewrite (decide_True (P := within p k q (k + 1))).
    + rewrite (settled_half r g q k p Hk Hq Hpq). rewrite (decide_True (P := merged_state _ _ _)) by done.
      by destruct Hpq as [->| ->]; repeat destruct (decide _); tauto.
    + apply (within_half r p k q k Hk Hq Hp). destruct Hpq as [->| ->]; right; [left|right]; by apply within_refl.
  - rewrite (decide_False (P := p = q + 2 ^ k ∧ o = k)) by tauto. rewrite (decide_False (P := p = q ∧ o = k)) by tauto.
    destruct (decide (within p o q (k + 1))) as [W|W]; [|by rewrite decide_False by tauto].
    rewrite decide_True; [done|]. split; [done|]. intros ->. apply Hne. split; [|done]. destruct W as (? & ? & ?). lia.
Qed.

(** ** The recursion *)
Definition head_of (s o : Z) : physical_page_metadata :=
  mk_metadata NONE NONE (if decide (head_state s = PHYSICAL_PAGE_STATE_ALLOCATED_HEAD) then 1 else 0) o (head_state s) 0.
Definition inner (r : physical_page_root) (g : Z → Z) (q k p o : Z) : Z :=
  if decide (p = q ∧ o = k) then value g q k else settled r g p o.
Record heads_built (r : physical_page_root) (g : Z → Z) (m m' : heads) (q k : Z) : Prop := {
  hb_length : length m' = length m;
  hb_outside z : 0 ≤ z → ¬ q ≤ z < q + 2 ^ k → mget m' z = mget m z;
  hb_leaf p o : block r p o → within p o q k → leaf (inner r g q k p o) → mget m' p = Some (head_of (inner r g q k p o) o);
  hb_honest z x : q ≤ z < q + 2 ^ k → mget m' z = Some x → x.(m_state) = PHYSICAL_PAGE_STATE_ALLOCATED_HEAD →
    g z = BUDDY_ALLOCATED ∧ x.(m_order) = 0;
}.
Lemma head_state_allocated s : leaf s → head_state s = PHYSICAL_PAGE_STATE_ALLOCATED_HEAD → s = BUDDY_ALLOCATED.
Proof. by intros [->|[->| ->]]. Qed.
Lemma value_page g p : leaf (g p) → value g p 0 = g p.
Proof.
  intros Hl. unfold value. assert (U : ∀ s, uniform g p 0 s ↔ g p = s).
  { intros s. rewrite uniform_spec. change (2 ^ 0) with 1. split; [intros H; apply H; lia|]. intros H z Hz. by replace z with p by lia. }
  destruct (decide (uniform g p 0 BUDDY_FREE)) as [H|H]; rewrite U in H; [done|].
  destruct (decide (uniform g p 0 BUDDY_INTERNAL)) as [H'|H']; rewrite U in H'; [done|].
  rewrite decide_True by done. by destruct Hl as [?|[?|?]].
Qed.
Lemma tree_is_ext_blocks a σ σ' : (∀ r p o, r ∈ a.(a_roots) → block r p o → σ p o = σ' p o) → tree_is a σ → tree_is a σ'.
Proof. intros He Ht r p o Hr Hb. rewrite <-(He r) by done. by apply Ht. Qed.
(** States may be compared on the blocks of one root when they agree outside
    [q], [k]. *)
Lemma built_elsewhere a r r' g σ q k p o : geometry a → r ∈ a.(a_roots) → r' ∈ a.(a_roots) → block r q k → block r' p o →
  r' ≠ r → built r g σ q k p o = σ p o.
Proof.
  intros Hgeo Hr Hr' Hq Hp Hne. unfold built. rewrite decide_False; [done|]. intros (H1 & H2 & H3). apply Hne. symmetry.
  pose proof (pow_pos o ltac:(lia)). apply (same_root a r r' q k p o Hgeo Hr Hr' Hq Hp). lia.
Qed.
Lemma build_node_run a σ r p o s : geometry a → tree_is a σ → r ∈ a.(a_roots) → block r p o → 0 ≤ s ≤ 4 →
  ∃ t, build_node a r (node r p o) p o s = Done (set_metadata (set_tree a t) (if decide (s = BUDDY_SPLIT) then a.(a_metadata) else mset a.(a_metadata) p (head_of s o)), s) ∧
    geometry (set_tree a t) ∧ tree_is (set_tree a t) (put σ p o s).
Proof.
  intros Hgeo Ht Hr Hb Hs. destruct (tree_set_is a σ Hgeo Ht r p o s Hr Hb Hs) as (t & E & Hg & Ht'). exists t. split_and!; try done.
  unfold build_node. rewrite E. run. destruct (decide (s = BUDDY_SPLIT)) as [Hsp|Hsp].
  - rewrite decide_False by tauto. run. by destruct a.
  - rewrite decide_True by done. destruct (is_block_bounds a p o Hgeo ltac:(by exists r)) as (_ & _ & _ & _ & _ & Hsome).
    rewrite mark_head_ok by done. run. done.
Qed.

(** The heads of a block from those of its halves. *)
Section heads.
Context (r : physical_page_root) (g : Z → Z) (m m1 m2 : heads) (q k : Z).
Hypothesis Hk : 0 ≤ k.
Hypothesis Hq : block r q (k + 1).
Hypothesis Hleaf : ∀ z, leaf (g z).
Hypothesis HL : heads_built r g m m1 q k.
Hypothesis HR : heads_built r g m1 m2 (q + 2 ^ k) k.
Hypothesis Hq0 : 0 ≤ q.

Lemma heads_outside z : 0 ≤ z → ¬ q ≤ z < q + 2 ^ (k + 1) → mget m2 z = mget m z.
Proof.
  intros Hz Hn. pose proof (pow_pos k Hk). rewrite pow_succ in Hn by done.
  rewrite (hb_outside _ _ _ _ _ _ HR), (hb_outside _ _ _ _ _ _ HL) by lia. done.
Qed.
Lemma heads_honest z x : q ≤ z < q + 2 ^ (k + 1) → mget m2 z = Some x → x.(m_state) = PHYSICAL_PAGE_STATE_ALLOCATED_HEAD →
  g z = BUDDY_ALLOCATED ∧ x.(m_order) = 0.
Proof.
  intros Hz Hx Hst. pose proof (pow_pos k Hk). rewrite pow_succ in Hz by done. destruct (decide (z < q + 2 ^ k)).
  - apply (hb_honest _ _ _ _ _ _ HL z x); [lia| |done]. rewrite <-Hx. symmetry. apply (hb_outside _ _ _ _ _ _ HR); lia.
  - apply (hb_honest _ _ _ _ _ _ HR z x); [lia|done|done].
Qed.
Lemma heads_split : ¬ merged_state g q (k + 1) → value g q (k + 1) = BUDDY_SPLIT → heads_built r g m m2 q (k + 1).
Proof.
  intros Hm Hv. pose proof (pow_pos k Hk). split; [by rewrite (hb_length _ _ _ _ _ _ HR), (hb_length _ _ _ _ _ _ HL)|apply heads_outside| |apply heads_honest].
  intros p o Hp Hw Hl. assert (Hne : ¬ (p = q ∧ o = k + 1)) by (intros [-> ->]; unfold inner in Hl; rewrite decide_True in Hl by done; rewrite Hv in Hl; by destruct Hl as [?|[?|?]]).
  assert (Ei : inner r g q (k + 1) p o = settled r g p o) by (unfold inner; by rewrite decide_False). rewrite Ei in *.
  assert (Hhalf : ∀ q', q' = q ∨ q' = q + 2 ^ k → inner r g q' k p o = settled r g p o).
  { intros q' Hq'. unfold inner. destruct (decide (p = q' ∧ o = k)) as [[-> ->]|]; [|done].
    rewrite (settled_half r g q k q' Hk Hq Hq'). by rewrite decide_False. }
  apply (within_half r p o q k Hk Hq Hp) in Hw as [?|[W|W]]; [done|..].
  - rewrite <-(Hhalf q) in * by tauto. rewrite <-(hb_leaf _ _ _ _ _ _ HL p o Hp W Hl).
    destruct W as (? & ? & ?). pose proof (pow_pos o ltac:(lia)). apply (hb_outside _ _ _ _ _ _ HR); lia.
  - rewrite <-(Hhalf (q + 2 ^ k)) in * by tauto. by apply (hb_leaf _ _ _ _ _ _ HR).
Qed.
Lemma heads_merge : merged_state g q (k + 1) → is_Some (mget m2 q) →
  heads_built r g m (mset m2 q (head_of (value g q (k + 1)) (k + 1))) q (k + 1).
Proof.
  intros Hm Hs. pose proof (pow_pos k Hk). pose proof (pow_succ k Hk). split.
  - rewrite length_mset. by rewrite (hb_length _ _ _ _ _ _ HR), (hb_length _ _ _ _ _ _ HL).
  - intros z Hz Hn. rewrite mget_mset_ne by lia. by apply heads_outside.
  - intros p o Hp Hw Hl. unfold inner in *. destruct (decide (p = q ∧ o = k + 1)) as [[-> ->]|Hne]; [by apply mget_mset_eq|].
    exfalso. unfold settled in Hl. rewrite decide_True in Hl; [by destruct Hl as [?|[?|?]]|].
    (* everything strictly inside has a merged parent *)
    assert (Ho : 0 ≤ o ≤ k) by (destruct Hw as (? & ? & ?); destruct (decide (o = k + 1)) as [->|]; [exfalso; apply Hne; lia|lia]).
    destruct (block_parent r p o Hp) as (w & Hw' & Hpw); [destruct Hq; lia|]. destruct (parent_halves r w o ltac:(lia) Hw') as [E1 E2].
    assert (parent_of r p o = w) as -> by (destruct Hpw as [->| ->]; done).
    destruct Hw as (W1 & W2 & W3). pose proof (pow_pos o ltac:(lia)). pose proof (pow_succ o ltac:(lia)).
    destruct (block_nested r q (k + 1) w (o + 1) Hq Hw' ltac:(lia)) as [[N1 N2]|[?|?]]; [|destruct Hpw; lia..].
    destruct Hm as [Hm|Hm]; [left|right]; rewrite uniform_spec in *; intros z Hz; apply Hm; lia.
  - intros z x Hz. rewrite mget_mset by (try done; lia). destruct (decide (z = q)) as [->|]; [|by apply heads_honest].
    intros [= <-] Hst. simpl in Hst. exfalso.
    assert (value g q (k + 1) = BUDDY_FREE ∨ value g q (k + 1) = BUDDY_INTERNAL) as [E|E].
    { destruct Hm as [Hm|Hm]; [left|right]; apply value_merged; (try done); [lia|by left|lia|by right]. }
    all: rewrite E in Hst; done.
Qed.
End heads.

(** What [build_tree] needs of the pages, and what it leaves. *)
Definition pages_say (m : heads) (g : Z → Z) (q k : Z) : Prop :=
  ∀ z, q ≤ z < q + 2 ^ k → ∃ x, mget m z = Some x ∧ build_leaf x.(m_state) = g z.
Definition set_both (a : physical_page_allocator) (t : list Z) (m : heads) : physical_page_allocator := set_metadata (set_tree a t) m.

(** The page index of the right half, as the code computes it. *)
Lemma right_page a r q k : geometry a → r ∈ a.(a_roots) → 0 ≤ k → block r q (k + 1) →
  u32 (q + u32 (order_page_count k)) = q + 2 ^ k.
Proof.
  intros Hgeo Hr Hk Hq. destruct (is_block_bounds a q (k + 1) Hgeo ltac:(by exists r)) as (? & ? & ? & ? & ? & _).
  pose proof (geo_total _ Hgeo). pose proof (pow_pos k Hk). pose proof (pow_succ k Hk). rewrite order_page_count_pow by done.
  rewrite (u32_small (2 ^ k)) by mlia. apply u32_small. mlia.
Qed.

Lemma built_tree a r g σ q k σ1 : geometry a → r ∈ a.(a_roots) → 0 ≤ k → block r q (k + 1) →
  (∀ p o, block r p o → σ1 p o = built r g σ q (k + 1) p o) →
  (∀ r' p o, r' ∈ a.(a_roots) → r' ≠ r → block r' p o → σ1 p o = σ p o) →
  tree_is a σ1 → tree_is a (built r g σ q (k + 1)).
Proof.
  intros Hgeo Hr Hk Hq H1 H2. apply tree_is_ext_blocks. intros r' p o Hr' Hp. destruct (decide (r' = r)) as [->|Hne]; [by apply H1|].
  rewrite (built_elsewhere a r r') by done. by apply (H2 r').
Qed.
Lemma put_elsewhere a r r' σ q k s p o : geometry a → r ∈ a.(a_roots) → r' ∈ a.(a_roots) → r' ≠ r → block r q k → block r' p o →
  put σ q k s p o = σ p o.
Proof.
  intros Hgeo Hr Hr' Hne Hq Hp. apply put_ne. intros [-> ->]. apply Hne. pose proof (pow_pos k ltac:(destruct Hq; lia)).
  symmetry. apply (same_root a r r' q k q k Hgeo Hr Hr' Hq Hp). lia.
Qed.

Definition tree_built (r : physical_page_root) (g : Z → Z) (m : heads) (σ : states) (q k : Z) (a' : physical_page_allocator) : Prop :=
  geometry a' ∧ tree_is a' (built r g σ q k) ∧ heads_built r g m a'.(a_metadata) q k.

(** One page. *)
Lemma build_page_run a σ r g q : (∀ z, leaf (g z)) → geometry a → tree_is a σ → r ∈ a.(a_roots) → block r q 0 →
  pages_say a.(a_metadata) g q 0 →
  ∃ t m, build_tree 0 a r (node r q 0) q = Done (set_both a t m, value g q 0) ∧ tree_built r g a.(a_metadata) σ q 0 (set_both a t m).
Proof.
  intros Hleaf Hgeo Ht Hr Hq Hsay. destruct (Hsay q) as (x & Hx & Hgx); [change (2 ^ 0) with 1; lia|].
  destruct (build_node_run a σ r q 0 (g q) Hgeo Ht Hr Hq) as (t & E & Hg & Ht'); [destruct (Hleaf q) as [->|[->| ->]]; by cbv|].
  assert (Hns : g q ≠ BUDDY_SPLIT) by (by destruct (Hleaf q) as [->|[->| ->]]). rewrite decide_False in E by done.
  exists t, (mset a.(a_metadata) q (head_of (g q) 0)). destruct (is_block_bounds a q 0 Hgeo ltac:(by exists r)) as (_ & Hq0 & _).
  split; [|split; [|split]].
  - cbn [build_tree]. rewrite (load_metadata_ok _ _ _ Hx). run. by rewrite Hgx, E, value_page.
  - apply geometry_set_metadata; [apply length_mset|done].
  - apply (tree_is_ext_blocks (set_tree a t) (put σ q 0 (g q))); [|done]. intros r' p o Hr' Hp. unfold put, built.
    destruct (decide (p = q ∧ o = 0)) as [[-> ->]|Hne]; [by rewrite decide_True, value_page by (done || (by apply within_refl))|].
    rewrite decide_False; [done|]. intros (H1 & H2 & H3). apply Hne. assert (o = 0) as -> by lia. change (2 ^ 0) with 1 in H2. lia.
  - split; [apply length_mset|..].
    + intros z Hz Hn. apply mget_mset_ne; [done..|]. change (2 ^ 0) with 1 in Hn. lia.
    + intros p o Hp (H1 & H2 & H3) Hl. assert (o = 0) as -> by lia. change (2 ^ 0) with 1 in H2. assert (p = q) as -> by lia.
      unfold inner. rewrite decide_True by done. rewrite value_page by done. apply mget_mset_eq. by eexists.
    + intros z y Hz. change (2 ^ 0) with 1 in Hz. assert (z = q) as -> by lia. simpl. rewrite mget_mset_eq by (by eexists).
      intros [= <-] Hst. split; [|done]. by apply head_state_allocated.
Qed.

(** Two halves: left as they are, or merged. *)
Section halves.
Context (a b : physical_page_allocator) (r : physical_page_root) (g : Z → Z) (σ : states) (m1 : heads) (q j : Z).
Hypothesis Hj : 0 ≤ j.
Hypothesis Hr : r ∈ b.(a_roots).
Hypothesis Hq : block r q (j + 1).
Hypothesis Hq0 : 0 ≤ q.
Hypothesis Hleaf : ∀ z, leaf (g z).
Hypothesis HL : heads_built r g a.(a_metadata) m1 q j.
Hypothesis HR : tree_built r g m1 (built r g σ q j) (q + 2 ^ j) j b.

Lemma build_split_run : ¬ merged_state g q (j + 1) → value g q (j + 1) = BUDDY_SPLIT →
  ∃ t, build_node b r (node r q (j + 1)) q (j + 1) BUDDY_SPLIT = Done (set_both b t b.(a_metadata), BUDDY_SPLIT) ∧
    tree_built r g a.(a_metadata) σ q (j + 1) (set_both b t b.(a_metadata)).
Proof.
  intros Hm Hv. destruct HR as (Hg & Ht & Hh). destruct (block_children r q j Hj Hq) as [HbL HbR].
  destruct (build_node_run b _ r q (j + 1) BUDDY_SPLIT Hg Ht Hr Hq ltac:(done)) as (t & E & Hg' & Ht').
  rewrite decide_True in E by done. exists t.
  split; [done|]. split; [by apply geometry_set_metadata|]. split; [|by apply (heads_split r g a.(a_metadata) m1)].
  apply (built_tree (set_tree b t) r g σ q j _ Hg' Hr Hj Hq) in Ht'; [done|..].
  - intros p o Hp. by apply built_split.
  - intros r' p o Hr' Hne Hp. rewrite (put_elsewhere b r r') by done. by rewrite !(built_elsewhere b r r').
Qed.
Lemma build_merge_run s : merged_state g q (j + 1) → value g q (j + 1) = s →
  ∃ t1 t2 t, let m := mset b.(a_metadata) q (head_of s (j + 1)) in
    tree_set b r (node r q j) BUDDY_INACTIVE = Done (set_tree b t1) ∧
    tree_set (set_tree b t1) r (node r (q + 2 ^ j) j) BUDDY_INACTIVE = Done (set_tree b t2) ∧
    build_node (set_tree b t2) r (node r q (j + 1)) q (j + 1) s = Done (set_both b t m, s) ∧
    tree_built r g a.(a_metadata) σ q (j + 1) (set_both b t m).
Proof.
  intros Hm Hv. destruct HR as (Hg & Ht & Hh). destruct (block_children r q j Hj Hq) as [HbL HbR].
  destruct (tree_set_is b _ Hg Ht r q j BUDDY_INACTIVE Hr HbL ltac:(done)) as (t1 & E1 & Hg1 & Ht1).
  destruct (tree_set_is _ _ Hg1 Ht1 r (q + 2 ^ j) j BUDDY_INACTIVE Hr HbR ltac:(done)) as (t2 & E2 & Hg2 & Ht2).
  destruct (build_node_run _ _ r q (j + 1) s Hg2 Ht2 Hr Hq) as (t & E & Hg' & Ht'); [rewrite <-Hv; apply value_range|].
  assert (Hs : s = BUDDY_FREE ∨ s = BUDDY_INTERNAL).
  { rewrite <-Hv. destruct Hm as [Hm|Hm]; [left|right]; apply value_merged; (try done); [lia|by left|lia|by right]. }
  rewrite decide_False in E by (by destruct Hs as [->| ->]). exists t1, t2, t.
  split; [done|]. split; [done|]. split; [done|]. split; [|split].
  - apply geometry_set_metadata; [apply length_mset|done].
  - apply (built_tree (set_tree b t) r g σ q j _ Hg' Hr Hj Hq) in Ht'; [done|..].
    + intros p o Hp. rewrite <-Hv. by apply built_merge.
    + intros r' p o Hr' Hne Hp. rewrite (put_elsewhere b r r') by done. rewrite (put_elsewhere b r r' _ (q + 2 ^ j) j) by done.
      rewrite (put_elsewhere b r r' _ q j) by done. by rewrite !(built_elsewhere b r r').
  - rewrite <-Hv. apply (heads_merge r g a.(a_metadata) m1); try done.
    by destruct (is_block_bounds b q (j + 1) Hg ltac:(by exists r)) as (_ & _ & _ & _ & _ & Hsome).
Qed.
End halves.

Lemma build_tree_run r g : (∀ z, leaf (g z)) → ∀ n a σ q k,
  geometry a → tree_is a σ → r ∈ a.(a_roots) → block r q k → k = Z.of_nat n → pages_say a.(a_metadata) g q k →
  ∃ t m, build_tree n a r (node r q k) q = Done (set_both a t m, value g q k) ∧ tree_built r g a.(a_metadata) σ q k (set_both a t m).
Proof.
  intros Hleaf n. induction n as [|n IH]; intros a σ q k Hgeo Ht Hr Hq Hk Hsay; [subst k; by apply build_page_run|].
  assert (Ek : k = Z.of_nat n + 1) by lia. set (j := Z.of_nat n) in *. assert (Hj : 0 ≤ j) by (unfold j; lia). rewrite Ek in *.
  destruct (block_children r q j Hj Hq) as [HbL HbR]. destruct (node_children r q j Hj Hq) as [NL NR].
  pose proof (pow_pos j Hj). pose proof (pow_succ j Hj). destruct (is_block_bounds a q (j + 1) Hgeo ltac:(by exists r)) as (_ & Hq0 & _).
  destruct (IH a σ q j Hgeo Ht Hr HbL eq_refl) as (t1 & m1 & E1 & Hg1 & Ht1 & Hm1); [intros z Hz; apply Hsay; lia|].
  destruct (IH (set_both a t1 m1) (built r g σ q j) (q + 2 ^ j) j Hg1 Ht1 Hr HbR eq_refl) as (t2 & m2 & E2 & H2).
  { intros z Hz. destruct (Hsay z ltac:(lia)) as (x & Hx & Hgx). exists x. split; [|done]. rewrite <-Hx. apply (hb_outside _ _ _ _ _ _ Hm1); lia. }
  cbn [build_tree]. fold j. rewrite <-NL, <-NR, E1. run. rewrite (right_page a r q j Hgeo Hr Hj Hq), E2. run.
  replace (Z.of_nat (S n)) with (j + 1) by (unfold j; lia).
  destruct (value_halves g q j Hj) as [(V1 & V2 & Hmg & V3)|(V1 & Hmg & V3)].
  - rewrite decide_True by done.
    destruct (build_merge_run a (set_both a t2 m2) r g σ m1 q j Hj Hr Hq Hq0 Hm1 H2 (value g q j) Hmg V3) as (u1 & u2 & u & F1 & F2 & F3 & HB).
    change (set_both (set_both a t1 m1) t2 m2) with (set_both a t2 m2). rewrite F1. run. rewrite F2. run. rewrite F3, V3. eauto.
  - rewrite decide_False by done.
    destruct (build_split_run a (set_both a t2 m2) r g σ m1 q j Hj Hr Hq Hq0 Hm1 H2 Hmg V3) as (u & F & HB).
    change (set_both (set_both a t1 m1) t2 m2) with (set_both a t2 m2). rewrite F, V3. eauto.
Qed.

(** ** All roots *)
Definition top (r : physical_page_root) (g : Z → Z) (p o : Z) : Z := inner r g r.(first_page) r.(r_order) p o.
Definition built_all (g : Z → Z) (σ : states) (roots : list physical_page_root) : states :=
  foldl (λ σ r, built r g σ r.(first_page) r.(r_order)) σ roots.
Record heads_all (g : Z → Z) (m m' : heads) (roots : list physical_page_root) : Prop := {
  ha_length : length m' = length m;
  ha_outside z : 0 ≤ z → (∀ r, r ∈ roots → ¬ holds_page r z) → mget m' z = mget m z;
  ha_leaf r p o : r ∈ roots → block r p o → leaf (top r g p o) → mget m' p = Some (head_of (top r g p o) o);
  ha_honest r z x : r ∈ roots → holds_page r z → mget m' z = Some x → x.(m_state) = PHYSICAL_PAGE_STATE_ALLOCATED_HEAD →
    g z = BUDDY_ALLOCATED ∧ x.(m_order) = 0;
}.
Lemma block_within r p o : block r p o → within p o r.(first_page) r.(r_order).
Proof. intros Hb. pose proof (block_inside _ _ _ Hb). destruct Hb as [? _]. unfold within. lia. Qed.
Lemma built_all_root a g roots σ r p o : geometry a → (∀ r, r ∈ roots → r ∈ a.(a_roots)) → NoDup roots → r ∈ roots → block r p o →
  built_all g σ roots p o = top r g p o.
Proof.
  intros Hgeo. revert σ. induction roots as [|r0 roots IH]; intros σ Hsub Hnd Hr Hb; [by apply elem_of_nil in Hr|].
  apply NoDup_cons in Hnd as [Hnin Hnd]. apply elem_of_cons in Hr as [->|Hr]; [|apply IH; try done; intros; apply Hsub; by right].
  simpl. assert (Hlater : ∀ rs τ, (∀ r, r ∈ rs → r ∈ a.(a_roots)) → r0 ∉ rs → built_all g τ rs p o = τ p o).
  { clear - Hgeo Hb Hsub. induction rs as [|r1 rs IH']; intros τ Hs Hn; [done|]. simpl. rewrite IH'.
    - apply (built_elsewhere a r1 r0 g τ); try done; [apply Hs; left|apply Hsub; left|apply block_top|intros ->; apply Hn; left].
      pose proof (root_order a Hgeo r1 ltac:(apply Hs; left)). lia.
    - intros; apply Hs; by right.
    - intros ?. apply Hn. by right. }
  rewrite Hlater by (try done; intros; apply Hsub; by right). unfold built, top, inner. by rewrite decide_True by (by apply block_within).
Qed.
Lemma holds_top r z : holds_page r z ↔ r.(first_page) ≤ z < r.(first_page) + 2 ^ r.(r_order).
Proof. done. Qed.

Lemma build_all_run g : (∀ z, leaf (g z)) → ∀ roots a σ,
  geometry a → tree_is a σ → (∀ r, r ∈ roots → r ∈ a.(a_roots)) → NoDup roots →
  (∀ r, r ∈ roots → pages_say a.(a_metadata) g r.(first_page) r.(r_order)) →
  ∃ t m, build_all roots a = Done (set_both a t m) ∧ geometry (set_both a t m) ∧ tree_is (set_both a t m) (built_all g σ roots) ∧
    heads_all g a.(a_metadata) m roots.
Proof.
  intros Hleaf roots. induction roots as [|r roots IH]; intros a σ Hgeo Ht Hsub Hnd Hsay.
  - exists a.(a_tree), a.(a_metadata). replace (set_both a a.(a_tree) a.(a_metadata)) with a by (by destruct a). split_and!; try done.
    split; try done; intros r ? ? []%elem_of_nil.
  - apply NoDup_cons in Hnd as [Hnin Hnd]. assert (Hr : r ∈ a.(a_roots)) by (apply Hsub; left).
    pose proof (root_order a Hgeo r Hr) as Ho. pose proof (root_bounds a Hgeo r Hr) as Hrb.
    destruct (build_tree_run r g Hleaf (Z.to_nat r.(r_order)) a σ r.(first_page) r.(r_order) Hgeo Ht Hr) as (t1 & m1 & E1 & Hg1 & Ht1 & Hm1);
      [apply block_top; lia|lia|apply Hsay; left|].
    assert (Hapart : ∀ r', r' ∈ roots → ∀ z, holds_page r' z → ¬ holds_page r z).
    { intros r' Hr' z H1 H2. assert (r = r') as <- by (apply (root_unique a Hgeo r r' z); try done; apply Hsub; by right). done. }
    destruct (IH (set_both a t1 m1) _ Hg1 Ht1) as (t2 & m2 & E2 & Hg2 & Ht2 & Hm2); [intros; apply Hsub; by right|done|..].
    { intros r' Hr' z Hz. destruct (Hsay r' ltac:(by right) z Hz) as (x & Hx & Hgx). exists x. split; [|done]. rewrite <-Hx.
      pose proof (root_bounds a Hgeo r' ltac:(apply Hsub; by right)).
      apply (hb_outside _ _ _ _ _ _ Hm1); [lia|]. by apply (Hapart r' Hr'). }
    exists t2, m2. change (set_both (set_both a t1 m1) t2 m2) with (set_both a t2 m2) in *. split_and!.
    + cbn [build_all]. rewrite node_top in E1. rewrite E1. run. done.
    + done.
    + done.
    + change (a_metadata (set_both a t1 m1)) with m1 in Hm2. change (a_metadata (set_both a t1 m1)) with m1 in Hm1. split.
      * by rewrite (ha_length _ _ _ _ Hm2), (hb_length _ _ _ _ _ _ Hm1).
      * intros z Hz Hn. rewrite (ha_outside _ _ _ _ Hm2) by (try done; intros; apply Hn; by right).
        apply (hb_outside _ _ _ _ _ _ Hm1); [done|]. apply (Hn r). left.
      * intros r' p o [->|Hr']%elem_of_cons Hb Hl; [|by apply (ha_leaf _ _ _ _ Hm2)].
        destruct (is_block_bounds a p o Hgeo ltac:(by exists r)) as (_ & Hp0 & _).
        rewrite (ha_outside _ _ _ _ Hm2 p Hp0); [by apply (hb_leaf _ _ _ _ _ _ Hm1); [..|by apply block_within|]|].
        intros r' Hr' Hh. apply (Hapart r' Hr' p Hh). pose proof (block_inside _ _ _ Hb). pose proof (pow_pos o ltac:(destruct Hb; lia)). unfold holds_page. lia.
      * intros r' z x [->|Hr']%elem_of_cons Hz Hx Hst; [|by apply (ha_honest _ _ _ _ Hm2 r' z x)].
        apply (hb_honest _ _ _ _ _ _ Hm1 z x Hz); [|done]. rewrite <-Hx. symmetry. apply (ha_outside _ _ _ _ Hm2); [unfold holds_page in Hz; lia|].
        intros r' Hr' Hh. by apply (Hapart r' Hr' z Hh).
Qed.

(** ** The finished trees *)
Section finished.
Context (a : physical_page_allocator) (g : Z → Z) (σ : states).
Hypothesis Hgeo : geometry a.
Hypothesis Hleaf : ∀ z, leaf (g z).
Hypothesis Htop : ∀ r p o, r ∈ a.(a_roots) → block r p o → σ p o = top r g p o.

Lemma below_top r p o : r ∈ a.(a_roots) → 0 ≤ o → block r p (o + 1) →
  ∀ c, c = p ∨ c = p + 2 ^ o → σ c o = if decide (merged_state g p (o + 1)) then BUDDY_INACTIVE else value g c o.
Proof.
  intros Hr Ho Hb c Hc. destruct (block_children r p o Ho Hb) as [HL HR].
  assert (Hbc : block r c o) by (destruct Hc as [->| ->]; done). rewrite (Htop r c o Hr Hbc). unfold top, inner.
  rewrite decide_False; [by apply settled_half|]. destruct Hb as [? _]. lia.
Qed.
(** A block that is not the top is inactive exactly below a merged one. *)
Lemma finished_cases r p o : r ∈ a.(a_roots) → block r p o →
  σ p o = value g p o ∨ (σ p o = BUDDY_INACTIVE ∧ merged_state g p o).
Proof.
  intros Hr Hb. destruct (decide (o < r.(r_order))) as [Hlt|Hlt].
  - destruct (block_parent r p o Hb Hlt) as (q & Hq & Hpq). assert (Ho : 0 ≤ o) by (destruct Hb; lia).
    rewrite (below_top r q o Hr Ho Hq p Hpq). destruct (decide _) as [Hm|]; [right|by left]. split; [done|].
    destruct Hm as [Hm|Hm]; [left|right]; apply uniform_halves in Hm as [? ?]; try done; by destruct Hpq as [->| ->].
  - left. rewrite (Htop r p o Hr Hb). unfold top, inner. destruct Hb as [Ho (k & Hk & Ep)].
    assert (o = r.(r_order)) as -> by lia. rewrite Z.sub_diag in Hk. change (2 ^ 0) with 1 in Hk.
    assert (p = r.(first_page)) as -> by nia. by rewrite decide_True.
Qed.
Lemma finished_shape : shape a.(a_roots) σ.
Proof.
  split.
  - intros r Hr. pose proof (root_order a Hgeo r Hr). rewrite (Htop r _ _ Hr) by (apply block_top; lia).
    unfold top, inner. rewrite decide_True by done. apply value_range.
  - intros r p o Hr Ho Hb. rewrite !(below_top r p o Hr Ho Hb) by tauto.
    destruct (value_halves g p o Ho) as [(V1 & V2 & Hm & V3)|(V1 & Hm & V3)].
    + rewrite !(decide_True (P := merged_state g p (o + 1))) by done. rewrite decide_False; [done|].
      destruct (finished_cases r p (o + 1) Hr Hb) as [->|[-> _]]; [|done]. rewrite V3. by destruct V2 as [->| ->].
    + rewrite !(decide_False (P := merged_state g p (o + 1))) by done. rewrite decide_True; [split; apply value_range|].
      by destruct (finished_cases r p (o + 1) Hr Hb) as [->|[_ ?]].
  - intros r p o Hr Hb. destruct (finished_cases r p o Hr Hb) as [->|[-> _]]; [apply value_range|done].
  - intros r p Hr Hb. destruct (finished_cases r p 0 Hr Hb) as [->|[-> _]]; [|done]. rewrite value_page by done.
    by destruct (Hleaf p) as [->|[->| ->]].
Qed.
Lemma finished_coalesced : coalesced a σ [].
Proof.
  intros r p o Hr Ho Hb H1 H2. exfalso. rewrite (below_top r p o Hr Ho Hb) in H1, H2 by tauto.
  destruct (decide (merged_state g p (o + 1))) as [|Hm]; [done|]. apply Hm. left. apply uniform_halves; [done|].
  split; apply (value_merged g _ o BUDDY_FREE Ho); try done; by left.
Qed.
(** A page is in a block of its own state. *)
Lemma finished_pages r p o z : r ∈ a.(a_roots) → block r p o → leaf (σ p o) → p ≤ z < p + 2 ^ o → g z = σ p o.
Proof.
  intros Hr Hb Hl Hz. destruct (finished_cases r p o Hr Hb) as [E|[E _]]; [|rewrite E in Hl; by destruct Hl as [?|[?|?]]].
  assert (Ho : 0 ≤ o) by (destruct Hb; lia).
  assert (Hcase : ∀ s, s = BUDDY_FREE ∨ s = BUDDY_INTERNAL → σ p o = s → g z = σ p o).
  { intros s Hs Es. rewrite Es in *. symmetry in E. apply (value_merged g p o s Ho Hs) in E. rewrite uniform_spec in E. by apply E. }
  destruct Hl as [Hl|[Hl|Hl]]; [by apply (Hcase BUDDY_FREE); [left|]| |by apply (Hcase BUDDY_INTERNAL); [right|]].
  (* held pages are leaves of order 0 *)
  assert (o = 0) as ->. { rewrite E in Hl. unfold value in Hl. by repeat destruct (decide _). }
  change (2 ^ 0) with 1 in Hz. assert (z = p) as -> by lia. rewrite E. by rewrite value_page.
Qed.
Lemma finished_held r z : r ∈ a.(a_roots) → holds_page r z → g z = BUDDY_ALLOCATED → block r z 0 ∧ σ z 0 = BUDDY_ALLOCATED.
Proof.
  intros Hr Hz Hg. pose proof (root_order a Hgeo r Hr).
  assert (Hb : block r z 0).
  { split; [lia|]. exists (z - r.(first_page)). unfold holds_page in Hz. change (2 ^ 0) with 1. rewrite Z.sub_0_r. lia. }
  split; [done|]. destruct (finished_cases r z 0 Hr Hb) as [->|[_ Hm]]; [by rewrite value_page|]. exfalso.
  destruct Hm as [Hm|Hm]; rewrite uniform_spec in Hm; specialize (Hm z ltac:(change (2 ^ 0) with 1; lia)); by rewrite Hg in Hm.
Qed.
End finished.

(** ** Publishing the free blocks

    [publish_free_heads] visits the active nodes of a tree from left to right
    and inserts each free block; the blocks still to come are the heap's blocks
    in flight. *)
Import PhysicalPage PageBoot PageFinal.

(** The blocks of a subtree in state [s], in the order of the visit. *)
Fixpoint state_leaves (s : Z) (n : nat) (σ : states) (p : Z) : list (Z * Z) :=
  if decide (σ p (Z.of_nat n) = BUDDY_SPLIT) then
    match n with O => [] | S n' => state_leaves s n' σ p ++ state_leaves s n' σ (p + 2 ^ Z.of_nat n') end
  else if decide (σ p (Z.of_nat n) = s) then [(p, Z.of_nat n)] else [].
Definition all_leaves (s : Z) (σ : states) (roots : list physical_page_root) : list (Z * Z) :=
  concat (map (λ r, state_leaves s (Z.to_nat r.(r_order)) σ r.(first_page)) roots).

Lemma leaf_other s : leaf s → s ≠ BUDDY_SPLIT ∧ s ≠ BUDDY_INACTIVE.
Proof. by intros [->|[->| ->]]. Qed.

Section leaves.
Context (a : physical_page_allocator) (σ : states) (r : physical_page_root) (s : Z).
Hypothesis Hst : leaf s.
Hypothesis Hgeo : geometry a.
Hypothesis Hshape : shape a.(a_roots) σ.
Hypothesis Hr : r ∈ a.(a_roots).

Lemma state_leaves_spec n : ∀ p, block r p (Z.of_nat n) → σ p (Z.of_nat n) ≠ BUDDY_INACTIVE →
  ∀ z k, (z, k) ∈ state_leaves s n σ p ↔ block r z k ∧ within z k p (Z.of_nat n) ∧ σ z k = s.
Proof.
  induction n as [|n IH]; intros p Hb Hact z k; cbn [state_leaves].
  - rewrite decide_False by (by apply (shape_bottom _ _ Hshape r)). change (Z.of_nat 0) with 0 in *.
    assert (Hone : within z k p 0 ↔ z = p ∧ k = 0). { unfold within. split; [|intros [-> ->]; lia]. intros (? & ? & ?). assert (k = 0) as -> by lia. change (2 ^ 0) with 1 in *. lia. }
    rewrite Hone. destruct (decide (σ p 0 = s)) as [Hf|Hf].
    + rewrite list_elem_of_singleton. split; [by intros [= -> ->]|]. by intros (_ & [-> ->] & _).
    + split; [intros []%elem_of_nil|]. by intros (_ & [-> ->] & ?).
  - set (j := Z.of_nat n) in *. assert (Ej : Z.of_nat (S n) = j + 1) by (unfold j; lia). rewrite Ej in *. assert (Hj : 0 ≤ j) by (unfold j; lia).
    destruct (block_children r p j Hj Hb) as [HL HR]. pose proof (shape_halves _ _ Hshape r p j Hr Hj Hb) as Hv.
    destruct (decide (σ p (j + 1) = BUDDY_SPLIT)) as [Hs|Hs].
    + destruct Hv as [A1 A2]. rewrite elem_of_app, (IH p HL A1), (IH (p + 2 ^ j) HR A2). split.
      * intros [(Hz & W & F)|(Hz & W & F)]; (split_and!; [done| |done]); apply (within_half r z k p j Hj Hb Hz); tauto.
      * intros (Hz & W & F). apply (within_half r z k p j Hj Hb Hz) in W as [[-> ->]|[W|W]]; [destruct (leaf_other s Hst); congruence|by left|by right].
    + assert (Hin : ∀ z k, block r z k → within z k p (j + 1) → σ z k = s → z = p ∧ k = j + 1).
      { intros z' k' Hz W F. destruct (decide (k' = j + 1)) as [->|Hne]; [destruct W; lia|]. exfalso. destruct W as (? & ? & ?).
        destruct (leaf_other s Hst) as [_ Hn]. rewrite (below_inactive a.(a_roots) σ r p (j + 1) z' k') in F; try done; lia. }
      destruct (decide (σ p (j + 1) = s)) as [Hf|Hf].
      * rewrite list_elem_of_singleton. split; [intros [= -> ->]; split_and!; [done|apply within_refl; lia|done]|].
        intros (Hz & W & F). by destruct (Hin z k Hz W F) as [-> ->].
      * split; [intros []%elem_of_nil|]. intros (Hz & W & F). by destruct (Hin z k Hz W F) as [-> ->].
Qed.
Lemma state_leaves_nodup n : ∀ p, block r p (Z.of_nat n) → σ p (Z.of_nat n) ≠ BUDDY_INACTIVE → NoDup (state_leaves s n σ p).
Proof.
  induction n as [|n IH]; intros p Hb Hact; cbn [state_leaves].
  - destruct (decide _); [constructor|]. destruct (decide _); [apply NoDup_singleton|constructor].
  - set (j := Z.of_nat n) in *. assert (Ej : Z.of_nat (S n) = j + 1) by (unfold j; lia). rewrite Ej in *. assert (Hj : 0 ≤ j) by (unfold j; lia).
    destruct (block_children r p j Hj Hb) as [HL HR]. pose proof (shape_halves _ _ Hshape r p j Hr Hj Hb) as Hv.
    destruct (decide (σ p (j + 1) = BUDDY_SPLIT)); [|destruct (decide _); [apply NoDup_singleton|constructor]].
    destruct Hv as [A1 A2]. apply NoDup_app. split_and!; [by apply IH| |by apply IH]. intros [z k] H1 H2.
    apply (state_leaves_spec n p HL A1) in H1 as (_ & W1 & _). apply (state_leaves_spec n _ HR A2) in H2 as (_ & W2 & _).
    by apply (within_apart z k p j Hj).
Qed.
End leaves.

Lemma root_leaves a σ r s : leaf s → geometry a → shape a.(a_roots) σ → r ∈ a.(a_roots) →
  NoDup (state_leaves s (Z.to_nat r.(r_order)) σ r.(first_page)) ∧
  ∀ z k, (z, k) ∈ state_leaves s (Z.to_nat r.(r_order)) σ r.(first_page) ↔ block r z k ∧ σ z k = s.
Proof.
  intros Hst Hgeo Hs Hr. pose proof (root_order a Hgeo r Hr) as Ho. pose proof (shape_top _ _ Hs r Hr) as Ht.
  assert (Hb : block r r.(first_page) (Z.of_nat (Z.to_nat r.(r_order)))) by (rewrite Z2Nat.id by lia; apply block_top; lia).
  rewrite <-(Z2Nat.id r.(r_order)) in Ht by lia. split; [by apply (state_leaves_nodup a σ r s Hst Hs Hr)|].
  intros z k. rewrite (state_leaves_spec a σ r s Hst Hs Hr _ _ Hb Ht). rewrite Z2Nat.id by lia. split; [tauto|].
  intros [Hz F]. split_and!; [done|by apply block_within|done].
Qed.
Lemma all_leaves_spec a σ roots s : leaf s → geometry a → shape a.(a_roots) σ → (∀ r, r ∈ roots → r ∈ a.(a_roots)) → NoDup roots →
  NoDup (all_leaves s σ roots) ∧ ∀ z k, (z, k) ∈ all_leaves s σ roots ↔ ∃ r, r ∈ roots ∧ block r z k ∧ σ z k = s.
Proof.
  intros Hst Hgeo Hs. induction roots as [|r roots IH]; intros Hsub Hnd.
  - split; [constructor|]. intros z k. split; [intros []%elem_of_nil|]. by intros (r & []%elem_of_nil & _).
  - apply NoDup_cons in Hnd as [Hnin Hnd]. destruct IH as [IHn IHs]; [intros; apply Hsub; by right|done|].
    destruct (root_leaves a σ r s Hst Hgeo Hs) as [Hn Hl]; [apply Hsub; left|].
    change (all_leaves s σ (r :: roots)) with (state_leaves s (Z.to_nat r.(r_order)) σ r.(first_page) ++ all_leaves s σ roots). split.
    + apply NoDup_app. split_and!; try done. intros [z k] [H1 _]%Hl (r' & Hr' & H2 & _)%IHs.
      assert (r = r') as <-; [|done]. pose proof (pow_pos k ltac:(destruct H1; lia)).
      apply (same_root a r r' z k z k Hgeo); try done; [apply Hsub; left|apply Hsub; by right|lia].
    + intros z k. rewrite elem_of_app, Hl, IHs. split.
      * intros [[? ?]|(r' & ? & ? & ?)]; [exists r; split; [left|done]|exists r'; split; [by right|done]].
      * intros (r' & [->|Hr']%elem_of_cons & ? & ?); [by left|right; by exists r'].
Qed.

(** ** The visit *)
Record ready (a : physical_page_allocator) (σ : states) (fl : free_lists) (out : list (Z * Z)) : Prop := {
  rd_heap : heap a σ fl out;
  rd_nodup : NoDup out;
  rd_out p o : (p, o) ∈ out → is_block a p o ∧ σ p o = BUDDY_FREE ∧ ∃ x, mget a.(a_metadata) p = Some x ∧ head_ok x o BUDDY_FREE;
  rd_single p o : is_block a p o → σ p o = BUDDY_ALLOCATED → ∃ x, mget a.(a_metadata) p = Some x ∧ o = 0 ∧ x.(m_reference_count) = 1;
}.
Definition relist (a : physical_page_allocator) (m : heads) (h : list Z) : physical_page_allocator := set_free_heads (set_metadata a m) h.

Lemma insert_ready a σ fl p o out : ready a σ fl ((p, o) :: out) →
  ∃ m h, free_insert a p o = Done (Some (relist a m h)) ∧ ready (relist a m h) σ (lput fl o (p :: fl o)) out.
Proof.
  intros [Hh Hnd Hout Hone]. apply NoDup_cons in Hnd as [Hnin Hnd]. destruct (Hout p o ltac:(left)) as (Hb & Hf & x & Hx & Hok).
  pose proof (heap_geo _ _ _ _ Hh) as Hgeo. pose proof (heap_shape _ _ _ _ Hh) as Hs. destruct (is_block_bounds a p o Hgeo Hb) as (Ho & _).
  destruct (free_insert_run a σ fl _ Hh o p x out eq_refl Hnin Hb Hf Hx Hok) as (m & E & Hh' & Hframe).
  assert (Hsame : ∀ q k, is_block a q k → leaf (σ q k) → (p, o) ≠ (q, k) → (q ∈ fl o → o = k → False) → mget m q = mget a.(a_metadata) q).
  { intros q k Hbq Hlq Hne Hno. apply Hframe; [by apply (is_block_bounds a q k Hgeo Hbq)|]. rewrite not_elem_of_cons. split.
    - intros ->. apply Hne. f_equal. apply (leaf_same_page a σ p); try done. rewrite Hf. by left.
    - intros Hin. destruct (member_block a σ fl _ Hh o q Ho Hin) as (Hb' & Hf' & _). apply (Hno Hin). apply (leaf_same_page a σ q); try done. rewrite Hf'. by left. }
  exists m, (<[Z.to_nat o := p]> a.(a_free_heads)). split; [done|]. split; [done|done| |].
  - intros q k Hq. destruct (Hout q k ltac:(by right)) as (Hbq & Hfq & y & Hy & Hoky). split_and!; try done. exists y. split; [|done].
    simpl. rewrite (Hsame q k Hbq); [done|rewrite Hfq; by left|by intros [= -> ->]|]. intros Hin ->. destruct (member_block a σ fl _ Hh k q Ho Hin) as (_ & _ & Hno). apply Hno. by right.
  - intros q k Hbq Hq. destruct (Hone q k Hbq Hq) as (y & Hy & ?). exists y. split; [|done]. simpl. rewrite (Hsame q k Hbq); [done|rewrite Hq; right; by left| |].
    + intros [= -> ->]. by rewrite Hf in Hq.
    + intros Hin ->. destruct (member_block a σ fl _ Hh k q Ho Hin) as (_ & Hf' & _). by rewrite Hf' in Hq.
Qed.
Lemma ready_pages a σ fl out : ready a σ fl out → 0 ≤ free_pages fl ≤ a.(a_total_pages).
Proof.
  intros [Hh _ _ _]. pose proof (free_pages_fit a σ fl out [] Hh ltac:(constructor) ltac:(constructor)) as Hf. simpl in Hf.
  pose proof (free_pages_nonneg fl). lia.
Qed.

(** A node that is not split. *)
Definition publish_here (a : physical_page_allocator) (page order state free_pages : Z) : outcome (option (physical_page_allocator * Z)) :=
  if decide (state = BUDDY_FREE) then
    inserted ← free_insert a page order;
    Done (match inserted with None => None | Some a => Some (a, u64 (free_pages + order_page_count order)) end)
  else Done (if decide (BUDDY_FREE ≤ state ≤ BUDDY_INTERNAL) then Some (a, free_pages) else None).
Lemma publish_leaf a σ fl r p k rest : r ∈ a.(a_roots) → block r p k → σ p k ≠ BUDDY_INACTIVE →
  ready a σ fl ((if decide (σ p k = BUDDY_FREE) then [(p, k)] else []) ++ rest) →
  ∃ m h fl', publish_here a p k (σ p k) (free_pages fl) = Done (Some (relist a m h, free_pages fl')) ∧ ready (relist a m h) σ fl' rest.
Proof.
  intros Hr Hb Hact Hrd. pose proof (heap_geo _ _ _ _ (rd_heap _ _ _ _ Hrd)) as Hgeo. pose proof (geo_total _ Hgeo).
  destruct (is_block_bounds a p k Hgeo ltac:(by exists r)) as (Hk & _). unfold publish_here.
  destruct (decide (σ p k = BUDDY_FREE)) as [Hf|Hf].
  - destruct (insert_ready a σ fl p k rest Hrd) as (m & h & E & Hrd1). exists m, h, (lput fl k (p :: fl k)). rewrite E. run.
    split; [|done]. pose proof (ready_pages _ _ _ _ Hrd1) as Hpg. rewrite free_pages_insert in * by lia.
    rewrite order_page_count_pow by lia. simpl in Hpg. pose proof (pow_pos k ltac:(lia)). by rewrite u64_small by mlia.
  - exists a.(a_metadata), a.(a_free_heads), fl. replace (relist a _ _) with a by (by destruct a). split; [|done].
    pose proof (shape_range _ _ (heap_shape _ _ _ _ (rd_heap _ _ _ _ Hrd)) r p k Hr Hb).
    rewrite decide_True; [done|]. unfold BUDDY_FREE, BUDDY_INTERNAL, BUDDY_INACTIVE in *. lia.
Qed.
Lemma publish_tree_run r n : ∀ a σ fl p rest, r ∈ a.(a_roots) → block r p (Z.of_nat n) → σ p (Z.of_nat n) ≠ BUDDY_INACTIVE →
  ready a σ fl (state_leaves BUDDY_FREE n σ p ++ rest) →
  ∃ m h fl', publish_free_heads n a r (node r p (Z.of_nat n)) p (free_pages fl) = Done (Some (relist a m h, free_pages fl')) ∧
    ready (relist a m h) σ fl' rest.
Proof.
  induction n as [|n IH]; intros a σ fl p rest Hr Hb Hact Hrd; pose proof (heap_geo _ _ _ _ (rd_heap _ _ _ _ Hrd)) as Hgeo;
    pose proof (heap_tree _ _ _ _ (rd_heap _ _ _ _ Hrd)) as Ht; pose proof (heap_shape _ _ _ _ (rd_heap _ _ _ _ Hrd)) as Hs;
    cbn [publish_free_heads]; rewrite (tree_get_is a σ Hgeo Ht r p _ Hr Hb); run; cbn [state_leaves] in Hrd.
  - change (Z.of_nat 0) with 0 in *. pose proof (shape_bottom _ _ Hs r p Hr Hb).
    destruct (decide (σ p 0 = BUDDY_SPLIT)) as [Hsp|Hsp]; [done|]. by apply (publish_leaf a σ fl r p).
  - destruct (decide (σ p (Z.of_nat (S n)) = BUDDY_SPLIT)) as [Hsp|Hsp]; [|by apply (publish_leaf a σ fl r p)].
    set (j := Z.of_nat n) in *. assert (Ej : Z.of_nat (S n) = j + 1) by (unfold j; lia). assert (Hj : 0 ≤ j) by (unfold j; lia). rewrite Ej in *.
    destruct (block_children r p j Hj Hb) as [HL HR]. destruct (node_children r p j Hj Hb) as [NL NR].
    pose proof (shape_halves _ _ Hs r p j Hr Hj Hb) as Hv. rewrite decide_True in Hv by done. destruct Hv as [A1 A2].
    rewrite <-app_assoc in Hrd. destruct (IH a σ fl p _ Hr HL A1 Hrd) as (m1 & h1 & fl1 & E1 & Hrd1).
    destruct (IH (relist a m1 h1) σ fl1 (p + 2 ^ j) rest Hr HR A2 Hrd1) as (m2 & h2 & fl2 & E2 & Hrd2).
    exists m2, h2, fl2. rewrite <-NL, <-NR, E1. run. rewrite (right_page a r p j Hgeo Hr Hj Hb). done.
Qed.
Lemma publish_all_run roots : ∀ a σ fl, (∀ r, r ∈ roots → r ∈ a.(a_roots)) → ready a σ fl (all_leaves BUDDY_FREE σ roots) →
  ∃ m h fl', publish_all roots a (free_pages fl) = Done (Some (relist a m h, free_pages fl')) ∧ ready (relist a m h) σ fl' [].
Proof.
  induction roots as [|r roots IH]; intros a σ fl Hsub Hrd.
  - exists a.(a_metadata), a.(a_free_heads), fl. by replace (relist a _ _) with a by (by destruct a).
  - pose proof (heap_geo _ _ _ _ (rd_heap _ _ _ _ Hrd)) as Hgeo. pose proof (heap_shape _ _ _ _ (rd_heap _ _ _ _ Hrd)) as Hs.
    assert (Hr : r ∈ a.(a_roots)) by (apply Hsub; left). pose proof (root_order a Hgeo r Hr) as Ho. pose proof (shape_top _ _ Hs r Hr) as Htop.
    assert (Hb : block r r.(first_page) (Z.of_nat (Z.to_nat r.(r_order)))) by (rewrite Z2Nat.id by lia; apply block_top; lia).
    destruct (publish_tree_run r (Z.to_nat r.(r_order)) a σ fl r.(first_page) (all_leaves BUDDY_FREE σ roots) Hr Hb) as (m1 & h1 & fl1 & E1 & Hrd1);
      [by rewrite Z2Nat.id by lia|done|].
    rewrite Z2Nat.id in E1 by lia. rewrite node_top in E1.
    destruct (IH (relist a m1 h1) σ fl1) as (m2 & h2 & fl2 & E2 & Hrd2); [intros; apply Hsub; by right|done|].
    exists m2, h2, fl2. cbn [publish_all]. rewrite E1. run. done.
Qed.

(** ** From marked pages to a pool *)
Lemma roots_nodup a : geometry a → NoDup a.(a_roots).
Proof.
  intros Hgeo. apply NoDup_alt. intros i j r Hi Hj. destruct (Nat.lt_trichotomy i j) as [H|[H|H]]; [|done|].
  - pose proof (pages_apart a Hgeo i j r r H Hi Hj). pose proof (root_order a Hgeo r ltac:(by eapply list_elem_of_lookup_2)).
    pose proof (pow_pos r.(r_order)). lia.
  - pose proof (pages_apart a Hgeo j i r r H Hj Hi). pose proof (root_order a Hgeo r ltac:(by eapply list_elem_of_lookup_2)).
    pose proof (pow_pos r.(r_order)). lia.
Qed.
Lemma head_of_ok s o : leaf s → (s = BUDDY_ALLOCATED → o = 0) → head_ok (head_of s o) o s.
Proof. by intros [->|[->| ->]] Ho; split_and!; try done; intros; split_and!; try done; auto. Qed.

Lemma built_ready a g σ m0 : geometry a → (∀ z, leaf (g z)) → tree_is a σ →
  (∀ r p o, r ∈ a.(a_roots) → block r p o → σ p o = top r g p o) → heads_all g m0 a.(a_metadata) a.(a_roots) →
  (∀ o, 0 ≤ o ≤ 31 → a.(a_free_heads) !! Z.to_nat o = Some NONE) →
  ready a σ (λ _, []) (all_leaves BUDDY_FREE σ a.(a_roots)).
Proof.
  intros Hgeo Hleaf Ht Htop Hm Hheads. pose proof (finished_shape a g σ Hgeo Hleaf Htop) as Hs.
  destruct (all_leaves_spec a σ a.(a_roots) BUDDY_FREE ltac:(by left) Hgeo Hs ltac:(done) (roots_nodup a Hgeo)) as [Hnd Hfree].
  assert (Hmeta : ∀ p o, is_block a p o → leaf (σ p o) → mget a.(a_metadata) p = Some (head_of (σ p o) o) ∧ (σ p o = BUDDY_ALLOCATED → o = 0)).
  { intros p o (r & Hr & Hb) Hl. split.
    - rewrite (Htop r p o Hr Hb) in *. by apply (ha_leaf _ _ _ _ Hm).
    - intros E. destruct (finished_cases a g σ Htop r p o Hr Hb) as [E'|[E' _]]; rewrite E in E'; [|done].
      unfold value in E'. by repeat destruct (decide _). }
  assert (Hhead : ∀ p o, is_block a p o → leaf (σ p o) → ∃ x, mget a.(a_metadata) p = Some x ∧ head_ok x o (σ p o)).
  { intros p o Hb Hl. destruct (Hmeta p o Hb Hl) as [E H0]. exists (head_of (σ p o) o). split; [done|by apply head_of_ok]. }
  split; [|done| |].
  - split; try done; [constructor| |by intros p o Hb Hl _; apply Hhead|].
    + intros o p _. split; [intros []%elem_of_nil|]. intros ((r & Hr & Hb) & Hf & Hno). exfalso. apply Hno, Hfree. by exists r.
    + intros p x Hp Hx Hst. assert (Hlt : 0 ≤ p < a.(a_total_pages)).
      { apply lookup_lt_Some in Hx. pose proof (geo_metadata _ Hgeo). lia. }
      destruct (page_has_root a Hgeo p Hlt) as (r & Hr & Hz). destruct (ha_honest _ _ _ _ Hm r p x Hr Hz Hx Hst) as [Hg Ho].
      destruct (finished_held a g σ Hgeo Hleaf Htop r p Hr Hz Hg) as [Hb Hσ]. rewrite Ho. split; [by exists r|done].
  - intros p o (r & Hr & Hb & Hf)%Hfree. assert (Hib : is_block a p o) by (by exists r). split_and!; try done.
    rewrite <-Hf. apply Hhead; [done|]. rewrite Hf. by left.
  - intros p o Hb Hp. destruct (Hmeta p o Hb ltac:(rewrite Hp; right; by left)) as [E H0]. exists (head_of (σ p o) o). split; [done|]. rewrite Hp. split; [by apply H0|done].
Qed.

(** [build_all] and [publish_all] on marked pages. *)
Lemma build_publish_run a g : geometry a → (∀ z, leaf (g z)) → tree_is a (λ _ _, BUDDY_INACTIVE) →
  (∀ z, 0 ≤ z < a.(a_total_pages) → ∃ x, mget a.(a_metadata) z = Some x ∧ build_leaf x.(m_state) = g z) →
  (∀ o, 0 ≤ o ≤ 31 → a.(a_free_heads) !! Z.to_nat o = Some NONE) →
  ∃ t m m' h σ fl, build_all a.(a_roots) a = Done (set_both a t m) ∧
    publish_all a.(a_roots) (set_both a t m) 0 = Done (Some (upd a t m' h, free_pages fl)) ∧
    heap (upd a t m' h) σ fl [] ∧ coalesced a σ [] ∧
    (∀ p o, is_block a p o → σ p o = BUDDY_ALLOCATED → ∃ x, mget m' p = Some x ∧ o = 0 ∧ x.(m_reference_count) = 1) ∧
    ∀ r p o z, r ∈ a.(a_roots) → block r p o → leaf (σ p o) → p ≤ z < p + 2 ^ o → g z = σ p o.
Proof.
  intros Hgeo Hleaf Ht Hsay Hheads.
  destruct (build_all_run g Hleaf a.(a_roots) a _ Hgeo Ht ltac:(done) (roots_nodup a Hgeo)) as (t & m & E1 & Hg1 & Ht1 & Hm1).
  { intros r Hr z Hz. apply Hsay. pose proof (root_bounds a Hgeo r Hr). lia. }
  set (σ := built_all g (λ _ _, BUDDY_INACTIVE) a.(a_roots)) in *.
  assert (Htop : ∀ r p o, r ∈ a.(a_roots) → block r p o → σ p o = top r g p o).
  { intros r p o Hr Hb. by apply (built_all_root a g a.(a_roots)); [| |apply roots_nodup|..]. }
  pose proof (built_ready (set_both a t m) g σ a.(a_metadata) Hg1 Hleaf Ht1 Htop Hm1 Hheads) as Hrd.
  destruct (publish_all_run a.(a_roots) (set_both a t m) σ (λ _, []) ltac:(done) Hrd) as (m' & h & fl & E2 & Hrd2).
  exists t, m, m', h, σ, fl. split_and!; [done|exact E2|apply Hrd2|by apply (finished_coalesced a g)|intros p o Hb Hp; by apply (rd_single _ _ _ _ Hrd2)|].
  intros r p o z Hr Hb Hl Hz. by apply (finished_pages a g σ Hleaf Htop r).
Qed.
