(* ===== verification/PageLayTheory.v ===== *)
(** * Cutting the ranges into roots

    Each range is cut greedily into the largest naturally aligned extents.  They
    tile the range, so together they tile the memory. *)
From S2P Require Import Prelude BootMemory PhysicalPage PageBoot PageFinal PageStateTheory.
Import PhysicalPage PageBoot PageFinal.
#[local] Open Scope Z_scope.

Notation PAGE := BOAROS_PAGE_SIZE.
Definition aligned (x : Z) : Prop := x mod PAGE = 0.

(** ** The largest fitting order *)
Lemma mask_aligned address o : 0 ≤ o → Z.land address (Z.shiftl (order_page_count o) BOAROS_PAGE_SHIFT - 1) = address mod (2 ^ o * PAGE).
Proof.
  intros Ho. rewrite order_page_count_pow, shift_page by done. replace (2 ^ o * PAGE) with (2 ^ (o + 12)) by (by rewrite Z.pow_add_r by lia).
  replace (2 ^ (o + 12) - 1) with (Z.ones (o + 12)) by (rewrite Z.ones_equiv; lia). apply Z.land_ones. lia.
Qed.
Definition fits_here (address pages o : Z) : Prop := address mod (2 ^ o * PAGE) = 0 ∧ 2 ^ o ≤ pages.
Lemma fitting_order_spec n address pages : aligned address → 1 ≤ pages →
  let o := fitting_order n address pages in
  0 ≤ o ≤ Z.of_nat n ∧ fits_here address pages o ∧ ∀ o', o < o' ≤ Z.of_nat n → ¬ fits_here address pages o'.
Proof.
  intros Hal Hp. induction n as [|n IH]; cbv zeta; cbn [fitting_order].
  - split; [lia|]. split; [|intros; lia]. unfold fits_here. change (2 ^ 0) with 1. by rewrite Z.mul_1_l.
  - rewrite mask_aligned by lia. rewrite order_page_count_pow by lia. cbv zeta in IH.
    destruct (decide _) as [Hd|Hd].
    + destruct IH as (H1 & H2 & H3). split; [lia|]. split; [done|]. intros o' Ho'. destruct (decide (o' ≤ Z.of_nat n)); [apply H3; lia|].
      assert (o' = Z.of_nat (S n)) as -> by lia. intros [? ?]. destruct Hd; [done|lia].
    + split; [lia|]. split; [|intros; lia]. unfold fits_here. destruct (decide (address mod (2 ^ Z.of_nat (S n) * PAGE) = 0)); [|tauto]. split; [done|lia].
Qed.

(** ** One range *)
Record range_ok (g : physical_page_range) : Prop := {
  rk_base : aligned g.(g_base);
  rk_end : aligned g.(g_end);
  rk_next : aligned g.(g_next);
  rk_bounds : 0 ≤ g.(g_base) ≤ g.(g_next) ∧ g.(g_next) ≤ g.(g_end) ≤ UINT64_MAX;
  rk_some : g.(g_base) < g.(g_end);
}.
Definition pages_in (g : physical_page_range) : Z := (g.(g_end) - g.(g_base)) / PAGE.
(** The extents from [pa] on. *)
Fixpoint cut (fuel : nat) (g : physical_page_range) (index pa offset : Z) : list physical_page_root :=
  match fuel with
  | O => []
  | S fuel =>
      if decide (pa < g.(g_end)) then
        let o := largest_fitting_order pa ((g.(g_end) - pa) / PAGE) in
        mk_root pa offset (g.(g_first_page_index) + (pa - g.(g_base)) / PAGE) o index 0 ::
        cut fuel g index (pa + 2 ^ o * PAGE) (offset + (2 * 2 ^ o - 1))
      else []
  end.
Definition node_count (roots : list physical_page_root) : Z := foldr (λ r n, 2 * 2 ^ r.(r_order) - 1 + n) 0 roots.

Lemma shiftr_page x : Z.shiftr x BOAROS_PAGE_SHIFT = x / PAGE.
Proof. by rewrite Z.shiftr_div_pow2. Qed.

Lemma aligned_exact x y : aligned x → aligned y → (x - y) / PAGE * PAGE = x - y.
Proof.
  unfold aligned. intros Hx Hy. symmetry. rewrite Z.mul_comm. apply Z.div_exact; [done|].
  by rewrite Zminus_mod, Hx, Hy.
Qed.
Lemma page_aligned_add x k : aligned x → aligned (x + k * PAGE).
Proof. unfold aligned. intros Hx. by rewrite Z.mod_add. Qed.
Lemma minus_add x y k : (x + k * PAGE - y) / PAGE = (x - y) / PAGE + k.
Proof. replace (x + k * PAGE - y) with (x - y + k * PAGE) by lia. by rewrite Z.div_add. Qed.
Lemma minus_minus x y k : (x - (y + k * PAGE)) / PAGE = (x - y) / PAGE - k.
Proof. replace (x - (y + k * PAGE)) with (x - y + (- k) * PAGE) by lia. by rewrite Z.div_add. Qed.
Ltac plia := unfold BOAROS_PAGE_SIZE in *; lia.
Ltac pmlia := unfold BOAROS_PAGE_SIZE in *; mlia.

Section range.
Context (g : physical_page_range) (index : Z).
Hypothesis Hg : range_ok g.
Definition pages_left (pa : Z) : Z := (g.(g_end) - pa) / PAGE.
Lemma left_exact pa : aligned pa → pages_left pa * PAGE = g.(g_end) - pa.
Proof. intros. apply aligned_exact; [apply Hg|done]. Qed.
Lemma left_step pa k : pages_left (pa + k * PAGE) = pages_left pa - k.
Proof. apply minus_minus. Qed.
Lemma left_total pa : aligned pa → (pa - g.(g_base)) / PAGE + pages_left pa = pages_in g.
Proof.
  intros Hal. pose proof (left_exact pa Hal). pose proof (aligned_exact pa g.(g_base) Hal (rk_base _ Hg)).
  pose proof (aligned_exact g.(g_end) g.(g_base) (rk_end _ Hg) (rk_base _ Hg)). unfold pages_in. plia.
Qed.

(** One extent. *)
Lemma extent_step pa : aligned pa → g.(g_base) ≤ pa < g.(g_end) →
  let o := largest_fitting_order pa (pages_left pa) in
  0 ≤ o ≤ 31 ∧ pa mod (2 ^ o * PAGE) = 0 ∧ pa + 2 ^ o * PAGE ≤ g.(g_end) ∧ aligned (pa + 2 ^ o * PAGE) ∧ 1 ≤ 2 ^ o ∧
  ∀ o', o < o' ≤ 31 → pa mod (2 ^ o' * PAGE) = 0 → g.(g_end) < pa + 2 ^ o' * PAGE.
Proof.
  intros Hal Hpa o. pose proof (left_exact pa Hal) as Hex.
  destruct (fitting_order_spec PHYSICAL_PAGE_MAX_ORDER pa (pages_left pa) Hal) as (H1 & [H2 H3] & H4); [plia|].
  fold (largest_fitting_order pa (pages_left pa)) in *. fold o in H1, H2, H3, H4. change (Z.of_nat PHYSICAL_PAGE_MAX_ORDER) with 31 in *.
  pose proof (pow_pos o ltac:(lia)). split_and!; try done; try lia.
  - plia.
  - by apply page_aligned_add.
  - intros o' Ho' Hm. destruct (decide (g.(g_end) < pa + 2 ^ o' * PAGE)); [done|]. exfalso. apply (H4 o' Ho'). split; [done|]. plia.
Qed.

Record root_in (r : physical_page_root) : Prop := {
  ri_index : r.(r_range_index) = index;
  ri_reserved : r.(r_reserved) = 0;
  ri_order : 0 ≤ r.(r_order) ≤ 31;
  ri_aligned : r.(r_address) mod bytes_of r = 0;
  ri_base : g.(g_base) ≤ r.(r_address);
  ri_end : r.(r_address) + bytes_of r ≤ g.(g_end);
  ri_page : r.(first_page) = g.(g_first_page_index) + (r.(r_address) - g.(g_base)) / PAGE;
}.
Lemma cut_spec fuel : ∀ pa offset, aligned pa → g.(g_base) ≤ pa ≤ g.(g_end) → pages_left pa ≤ Z.of_nat fuel →
  let L := cut fuel g index pa offset in
  laid (g.(g_first_page_index) + (pa - g.(g_base)) / PAGE) offset L (g.(g_first_page_index) + pages_in g) (offset + node_count L) ∧
  Forall (λ r, root_in r ∧ pa ≤ r.(r_address)) L ∧
  StronglySorted (λ r r', r.(r_address) + bytes_of r ≤ r'.(r_address)) L ∧
  Z.of_nat (length L) ≤ pages_left pa ∧ 0 ≤ node_count L ≤ 2 * pages_left pa.
Proof.
  pose proof (rk_bounds _ Hg).
  induction fuel as [|fuel IH]; intros pa offset Hal Hpa Hf; cbv zeta; cbn [cut]; pose proof (left_exact pa Hal) as Hex;
    pose proof (left_total pa Hal) as Htot.
  - simpl. split_and!; try constructor; plia.
  - fold (pages_left pa). destruct (decide (pa < g.(g_end))) as [Hlt|Hlt]; [|simpl; split_and!; try constructor; plia].
    destruct (extent_step pa Hal ltac:(lia)) as (Ho & Hm & Hend & Hal' & Hpow & _).
    set (o := largest_fitting_order pa (pages_left pa)) in *.
    destruct (IH (pa + 2 ^ o * PAGE) (offset + (2 * 2 ^ o - 1)) Hal') as (L1 & L2 & L3 & L4 & L5); [plia|rewrite left_step; lia|].
    set (L := cut fuel g index (pa + 2 ^ o * PAGE) (offset + (2 * 2 ^ o - 1))) in *. cbv zeta in *. rewrite left_step in L4, L5.
    rewrite minus_add in L1. split_and!.
    + cbn [laid r_first_page_index r_node_offset r_order]. split_and!; [done|done|].
      replace (g.(g_first_page_index) + (pa - g.(g_base)) / PAGE + 2 ^ o) with (g.(g_first_page_index) + ((pa - g.(g_base)) / PAGE + 2 ^ o)) by lia.
      cbn [node_count foldr r_order]. fold (node_count L). replace (offset + (2 * 2 ^ o - 1 + node_count L)) with (offset + (2 * 2 ^ o - 1) + node_count L) by lia. done.
    + constructor.
      * split; [|simpl; lia]. split; simpl; try done; unfold bytes_of; simpl; lia.
      * eapply Forall_impl; [exact L2|]. intros r [? ?]. split; [done|]. plia.
    + constructor; [done|]. eapply Forall_impl; [exact L2|]. intros r [_ ?]. unfold bytes_of. simpl. done.
    + cbn [length]. lia.
    + cbn [node_count foldr r_order]. fold (node_count L). lia.
    + cbn [node_count foldr r_order]. fold (node_count L). lia.
Qed.
Lemma count_range_run fuel : ∀ pa offset nodes count, aligned pa → g.(g_base) ≤ pa ≤ g.(g_end) → pages_left pa ≤ Z.of_nat fuel →
  0 ≤ nodes → nodes + 2 * pages_left pa ≤ UINT64_MAX → 0 ≤ count → count + pages_left pa ≤ UINT64_MAX →
  count_range fuel pa g.(g_end) nodes count =
    Done (nodes + node_count (cut fuel g index pa offset), count + Z.of_nat (length (cut fuel g index pa offset))).
Proof.
  pose proof (rk_bounds _ Hg).
  induction fuel as [|fuel IH]; intros pa offset nodes count Hal Hpa Hf Hn1 Hn2 Hc1 Hc2; cbn [count_range cut]; pose proof (left_exact pa Hal) as Hex.
  - rewrite decide_False by plia. simpl. by rewrite !Z.add_0_r.
  - rewrite shiftr_page. fold (pages_left pa). destruct (decide (pa < g.(g_end))) as [Hlt|Hlt]; [|simpl; by rewrite !Z.add_0_r].
    destruct (extent_step pa Hal ltac:(lia)) as (Ho & Hm & Hend & Hal' & Hpow & _).
    set (o := largest_fitting_order pa (pages_left pa)) in *. rewrite order_page_count_pow, shift_page by lia.
    pose proof (pow_order o ltac:(lia)). assert (2 ^ o ≤ pages_left pa) by plia.
    rewrite (u64_small (pa + _)) by pmlia. rewrite (u64_small (2 * 2 ^ o - 1)) by mlia.
    rewrite (u64_small (nodes + _)), (u64_small (count + 1)) by mlia.
    rewrite (IH _ (offset + (2 * 2 ^ o - 1))) by (try done; rewrite ?left_step; plia).
    set (L := cut fuel g index (pa + 2 ^ o * PAGE) (offset + (2 * 2 ^ o - 1))).
    cbn [node_count foldr length r_order]. fold (node_count L). do 2 f_equal; lia.
Qed.
Lemma lay_range_run fuel : ∀ pa offset acc junk, aligned pa → g.(g_base) ≤ pa ≤ g.(g_end) → pages_left pa ≤ Z.of_nat fuel →
  0 ≤ offset → offset + 2 * pages_left pa ≤ UINT64_MAX → 0 ≤ g.(g_first_page_index) → g.(g_first_page_index) + pages_in g ≤ UINT32_MAX →
  let L := cut fuel g index pa offset in
  (length L ≤ length junk)%nat →
  lay_range fuel g index pa (acc ++ junk) (length acc) offset =
    Done (acc ++ L ++ drop (length L) junk, (length acc + length L)%nat, offset + node_count L).
Proof.
  pose proof (rk_bounds _ Hg).
  induction fuel as [|fuel IH]; intros pa offset acc junk Hal Hpa Hf Hn1 Hn2 Hi1 Hi2; cbv zeta; cbn [lay_range cut];
    pose proof (left_exact pa Hal) as Hex; pose proof (left_total pa Hal) as Htot; pose proof (aligned_exact pa _ Hal (rk_base _ Hg)) as Hexb.
  - intros _. rewrite decide_False by plia. simpl. by rewrite Z.add_0_r, Nat.add_0_r.
  - rewrite !shiftr_page. fold (pages_left pa). destruct (decide (pa < g.(g_end))) as [Hlt|Hlt]; [|intros _; simpl; by rewrite Z.add_0_r, Nat.add_0_r].
    destruct (extent_step pa Hal ltac:(lia)) as (Ho & Hm & Hend & Hal' & Hpow & _).
    set (o := largest_fitting_order pa (pages_left pa)) in *. rewrite order_page_count_pow, shift_page by lia.
    pose proof (pow_order o ltac:(lia)). assert (2 ^ o ≤ pages_left pa) by plia. assert (0 ≤ (pa - g.(g_base)) / PAGE) by plia.
    rewrite (u64_small (pa + _)) by pmlia. rewrite (u64_small (2 * 2 ^ o - 1)) by mlia.
    rewrite (u64_small (offset + _)) by mlia. rewrite (u32_small ((pa - _) / PAGE)) by mlia.
    rewrite (u32_small (g.(g_first_page_index) + _)) by mlia.
    set (x := mk_root _ _ _ _ _ _). set (L := cut fuel g index (pa + 2 ^ o * PAGE) (offset + (2 * 2 ^ o - 1))).
    intros Hlen. cbn [length] in Hlen. destruct junk as [|y junk]; [simpl in Hlen; lia|]. cbn [length] in Hlen.
    rewrite awrite_ok by (rewrite length_app; simpl; lia). run.
    replace (<[length acc:=x]> (acc ++ y :: junk)) with ((acc ++ [x]) ++ junk) by (rewrite insert_app_r_alt, Nat.sub_diag by lia; simpl; by rewrite <-app_assoc).
    replace (S (length acc)) with (length (acc ++ [x])) by (rewrite length_app; simpl; lia).
    rewrite (IH (pa + 2 ^ o * PAGE) (offset + (2 * 2 ^ o - 1)) (acc ++ [x]) junk) by (try done; rewrite ?left_step; try plia; fold L; lia). fold L.
    cbn [length drop node_count foldr]. fold (node_count L). rewrite length_app. simpl. rewrite <-!app_assoc. simpl.
    replace (length acc + 1 + length L)%nat with (length acc + S (length L))%nat by lia. do 2 f_equal. unfold x. simpl. lia.
Qed.
End range.

(** ** All ranges *)
Fixpoint ranges_laid (first : Z) (rs : list physical_page_range) (total : Z) : Prop :=
  match rs with
  | [] => first = total
  | g :: rs => g.(g_first_page_index) = first ∧ ranges_laid (first + pages_in g) rs total
  end.
Record ranges_ok (rs : list physical_page_range) (total : Z) : Prop := {
  ro_each : Forall range_ok rs;
  ro_sorted : StronglySorted (λ g g', g.(g_end) ≤ g'.(g_base)) rs;
  ro_laid : ranges_laid 0 rs total;
  ro_total : total ≤ UINT32_MAX;
}.
Fixpoint cut_all (index : Z) (rs : list physical_page_range) (offset : Z) : list physical_page_root :=
  match rs with
  | [] => []
  | g :: rs =>
      let L := cut (range_fuel g) g index g.(g_base) offset in
      L ++ cut_all (index + 1) rs (offset + node_count L)
  end.
Lemma node_count_app l1 l2 : node_count (l1 ++ l2) = node_count l1 + node_count l2.
Proof. unfold node_count. induction l1 as [|r l1 IH]; [done|]. cbn [app foldr]. rewrite IH. lia. Qed.
Lemma cut_all_app l1 l2 : ∀ index offset, cut_all index (l1 ++ l2) offset =
  cut_all index l1 offset ++ cut_all (index + Z.of_nat (length l1)) l2 (offset + node_count (cut_all index l1 offset)).
Proof.
  induction l1 as [|g l1 IH]; intros index offset; cbn [app cut_all length]; [by rewrite !Z.add_0_r|]. rewrite IH, <-app_assoc, node_count_app.
  by replace (index + 1 + Z.of_nat (length l1)) with (index + Z.of_nat (S (length l1))) by lia; rewrite Z.add_assoc.
Qed.
Lemma laid_app first nodes l1 l2 mid mid_nodes total tree_nodes :
  laid first nodes l1 mid mid_nodes → laid mid mid_nodes l2 total tree_nodes → laid first nodes (l1 ++ l2) total tree_nodes.
Proof.
  revert first nodes. induction l1 as [|r l1 IH]; intros first nodes H1 H2; [by destruct H1 as [-> ->]|].
  destruct H1 as (? & ? & H1). simpl. split_and!; try done. by apply IH.
Qed.
Lemma range_pages g : range_ok g → pages_in g * PAGE = g.(g_end) - g.(g_base) ∧ 1 ≤ pages_in g ∧ range_fuel g = Z.to_nat (pages_in g).
Proof.
  intros Hg. pose proof (aligned_exact _ _ (rk_end _ Hg) (rk_base _ Hg)) as E. pose proof (rk_some _ Hg). unfold pages_in in *.
  split_and!; [done|plia|done].
Qed.
(** The facts of [cut_spec] for a whole range. *)
Lemma cut_range g index offset : range_ok g →
  let L := cut (range_fuel g) g index g.(g_base) offset in
  laid g.(g_first_page_index) offset L (g.(g_first_page_index) + pages_in g) (offset + node_count L) ∧
  Forall (root_in g index) L ∧ StronglySorted (λ r r', r.(r_address) + bytes_of r ≤ r'.(r_address)) L ∧
  Z.of_nat (length L) ≤ pages_in g ∧ 0 ≤ node_count L ≤ 2 * pages_in g.
Proof.
  intros Hg. destruct (range_pages g Hg) as (E & Hp & Ef). pose proof (rk_bounds _ Hg).
  destruct (cut_spec g index Hg (range_fuel g) g.(g_base) offset (rk_base _ Hg)) as (L1 & L2 & L3 & L4 & L5);
    [lia|change (pages_left g g.(g_base)) with (pages_in g); lia|].
  rewrite Z.sub_diag in L1. change (0 / PAGE) with 0 in L1. rewrite Z.add_0_r in L1.
  change (pages_left g g.(g_base)) with (pages_in g) in *. split_and!; try done; try lia.
  eapply Forall_impl; [exact L2|]. by intros r [? _].
Qed.

Section all.
Context (total : Z).
Lemma ranges_laid_le first rs : Forall range_ok rs → ranges_laid first rs total → first ≤ total.
Proof.
  intros Hok. revert first. induction Hok as [|g rs Hg _ IH]; intros first Hl; simpl in Hl; [lia|].
  destruct Hl as [_ Hl]. pose proof (IH _ Hl). pose proof (range_pages g Hg). lia.
Qed.
Lemma cut_all_spec rs : ∀ index first offset, Forall range_ok rs → StronglySorted (λ g g', g.(g_end) ≤ g'.(g_base)) rs →
  ranges_laid first rs total →
  let L := cut_all index rs offset in
  laid first offset L total (offset + node_count L) ∧
  StronglySorted (λ r r', r.(r_address) + bytes_of r ≤ r'.(r_address)) L ∧
  (∀ r, r ∈ L → ∃ i g, rs !! i = Some g ∧ root_in g (index + Z.of_nat i) r) ∧
  Z.of_nat (length L) ≤ total - first ∧ 0 ≤ node_count L ≤ 2 * (total - first).
Proof.
  induction rs as [|g rs IH]; intros index first offset Hok Hs Hl; cbv zeta; simpl in Hl |- *.
  - subst first. split_and!; try constructor; try lia. intros r []%elem_of_nil.
  - apply Forall_cons in Hok as [Hg Hok]. apply StronglySorted_inv in Hs as [Hs Hall]. destruct Hl as [Ef Hl].
    destruct (cut_range g index offset Hg) as (C1 & C2 & C3 & C4 & C5). cbv zeta in *. set (L := cut (range_fuel g) g index g.(g_base) offset) in *.
    destruct (IH (index + 1) (first + pages_in g) (offset + node_count L) Hok Hs Hl) as (D1 & D2 & D3 & D4 & D5).
    set (M := cut_all (index + 1) rs (offset + node_count L)) in *. rewrite node_count_app, length_app.
    rewrite Ef in C1. split_and!.
    + rewrite Z.add_assoc. by apply (laid_app _ _ _ _ (first + pages_in g) (offset + node_count L)).
    + apply StronglySorted_app_2; [|done|done]. intros r r' Hr Hr'. rewrite Forall_forall in C2. destruct (C2 r Hr) as [_ _ _ _ _ He _].
      destruct (D3 r' Hr') as (i & g' & Hi & Hin). destruct Hin as [_ _ _ _ Hb _ _].
      rewrite Forall_forall in Hall. pose proof (Hall g' ltac:(by eapply list_elem_of_lookup_2)). lia.
    + intros r [Hr|Hr]%elem_of_app.
      * exists 0%nat, g. split; [done|]. rewrite Z.add_0_r. rewrite Forall_forall in C2. by apply C2.
      * destruct (D3 r Hr) as (i & g' & Hi & Hin). exists (S i), g'. split; [done|]. by replace (index + Z.of_nat (S i)) with (index + 1 + Z.of_nat i) by lia.
    + lia.
    + lia.
    + lia.
Qed.
Lemma count_roots_run a rs : ∀ pre post nodes count first, a.(a_ranges) = pre ++ rs ++ post → Forall range_ok rs →
  ranges_laid first rs total → 0 ≤ first → total ≤ UINT32_MAX → 0 ≤ nodes ≤ 2 * first → 0 ≤ count ≤ first →
  let L := cut_all (Z.of_nat (length pre)) rs nodes in
  count_roots (length rs) a (length pre) nodes count = Done (nodes + node_count L, count + Z.of_nat (length L)).
Proof.
  induction rs as [|g rs IH]; intros pre post nodes count first Ea Hok Hl Hf Ht Hn Hc; cbv zeta; cbn [count_roots cut_all length].
  - simpl. by rewrite !Z.add_0_r.
  - apply Forall_cons in Hok as [Hg Hok]. destruct Hl as [Ef Hl]. pose proof (ranges_laid_le _ _ Hok Hl).
    destruct (range_pages g Hg) as (E & Hp & Efu). pose proof (rk_bounds _ Hg).
    assert (Hi : a.(a_ranges) !! length pre = Some g) by (rewrite Ea; by rewrite lookup_app_r, Nat.sub_diag by lia).
    rewrite (aread_ok _ _ _ Hi). run. destruct (cut_range g (Z.of_nat (length pre)) nodes Hg) as (_ & _ & _ & C4 & C5). cbv zeta in *.
    rewrite (count_range_run g (Z.of_nat (length pre)) Hg (range_fuel g) g.(g_base) nodes nodes count (rk_base _ Hg));
      [|lia|change (pages_left g g.(g_base)) with (pages_in g); mlia..]. run.
    set (L := cut (range_fuel g) g (Z.of_nat (length pre)) g.(g_base) nodes) in *.
    replace (S (length pre)) with (length (pre ++ [g])) by (rewrite length_app; simpl; lia).
    rewrite (IH (pre ++ [g]) post (nodes + node_count L) (count + Z.of_nat (length L)) (first + pages_in g)); [|by rewrite Ea, <-!app_assoc|done|done|lia|done|lia|lia].
    cbv zeta. replace (Z.of_nat (length (pre ++ [g]))) with (Z.of_nat (length pre) + 1) by (rewrite length_app; simpl; lia).
    rewrite node_count_app, length_app. do 2 f_equal; lia.
Qed.
Lemma lay_roots_run a rs : ∀ pre post acc junk offset first, a.(a_ranges) = pre ++ rs ++ post → Forall range_ok rs →
  ranges_laid first rs total → 0 ≤ first → total ≤ UINT32_MAX → 0 ≤ offset ≤ 2 * first →
  let L := cut_all (Z.of_nat (length pre)) rs offset in
  length junk = length L →
  lay_roots (length rs) a (length pre) (acc ++ junk) (length acc) offset = Done (acc ++ L).
Proof.
  induction rs as [|g rs IH]; intros pre post acc junk offset first Ea Hok Hl Hf Ht Hn; cbv zeta; cbn [lay_roots cut_all length].
  - intros ->%nil_length_inv. done.
  - apply Forall_cons in Hok as [Hg Hok]. destruct Hl as [Ef Hl]. pose proof (ranges_laid_le _ _ Hok Hl).
    destruct (range_pages g Hg) as (E & Hp & Efu). pose proof (rk_bounds _ Hg).
    assert (Hi : a.(a_ranges) !! length pre = Some g) by (rewrite Ea; by rewrite lookup_app_r, Nat.sub_diag by lia).
    rewrite (aread_ok _ _ _ Hi). run. destruct (cut_range g (Z.of_nat (length pre)) offset Hg) as (_ & _ & _ & C4 & C5). cbv zeta in *.
    set (L := cut (range_fuel g) g (Z.of_nat (length pre)) g.(g_base) offset) in *. intros Hlen. rewrite length_app in Hlen.
    rewrite (lay_range_run g (Z.of_nat (length pre)) Hg (range_fuel g) g.(g_base) offset acc junk (rk_base _ Hg));
      [|lia|change (pages_left g g.(g_base)) with (pages_in g); mlia|lia|change (pages_left g g.(g_base)) with (pages_in g); mlia|lia|lia|fold L; lia].
    run. fold L. replace (S (length pre)) with (length (pre ++ [g])) by (rewrite length_app; simpl; lia).
    rewrite app_assoc. replace (length acc + length L)%nat with (length (acc ++ L)) by (by rewrite length_app).
    rewrite (IH (pre ++ [g]) post (acc ++ L) (drop (length L) junk) (offset + node_count L) (first + pages_in g));
      [|by rewrite Ea, <-!app_assoc|done|done|lia|done|lia|].
    + cbv zeta. replace (Z.of_nat (length (pre ++ [g]))) with (Z.of_nat (length pre) + 1) by (rewrite length_app; simpl; lia). by rewrite <-app_assoc.
    + rewrite length_drop. replace (Z.of_nat (length (pre ++ [g]))) with (Z.of_nat (length pre) + 1) by (rewrite length_app; simpl; lia). lia.
Qed.
End all.

(** ** The geometry of the roots *)
Lemma ranges_laid_lookup total rs : ∀ first i g, Forall range_ok rs → ranges_laid first rs total → rs !! i = Some g →
  first ≤ g.(g_first_page_index) ∧ g.(g_first_page_index) + pages_in g ≤ total.
Proof.
  induction rs as [|g0 rs IH]; intros first i g Hok Hl Hi; [done|]. apply Forall_cons in Hok as [Hg Hok]. destruct Hl as [Ef Hl].
  pose proof (range_pages g0 Hg). destruct i as [|i]; simpl in Hi.
  - injection Hi as ->. pose proof (ranges_laid_le total _ _ Hok Hl). lia.
  - destruct (IH _ i g Hok Hl Hi). lia.
Qed.
Lemma mod_mul_page x o : 0 ≤ o → x mod (2 ^ o * PAGE) = 0 → aligned x.
Proof.
  intros Ho Hm. pose proof (pow_pos o Ho). apply Z.mod_divide in Hm as [k ->]; [|plia]. unfold aligned. rewrite Z.mul_assoc. by apply Z.mod_mul.
Qed.
Lemma root_valid_in a g r : r.(r_range_index) < a.(a_range_count) → a.(a_ranges) !! Z.to_nat r.(r_range_index) = Some g → range_ok g →
  root_in g r.(r_range_index) r → g.(g_first_page_index) + pages_in g ≤ a.(a_total_pages) ≤ UINT32_MAX → 0 ≤ g.(g_first_page_index) →
  0 ≤ r.(r_node_offset) → r.(r_node_offset) + (2 * 2 ^ r.(r_order) - 1) ≤ a.(a_tree_nodes) → root_valid a r = Done true.
Proof.
  intros Hc Hi Hg [_ Hres Ho Hal Hb He Hp] Ht Hf Hn1 Hn2. unfold root_valid. unfold bytes_of in *.
  rewrite decide_False by (change (Z.of_nat PHYSICAL_PAGE_MAX_ORDER) with 31; lia). rewrite (aread_ok _ _ _ Hi). run.
  destruct (range_pages g Hg) as (E & Hpg & _). pose proof (rk_bounds _ Hg). pose proof (pow_order r.(r_order) ltac:(lia)).
  assert (Ha : aligned r.(r_address)) by (apply (mod_mul_page _ r.(r_order)); [lia|done]).
  pose proof (aligned_exact _ _ Ha (rk_base _ Hg)) as Ex. rewrite mask_aligned, Hal by lia. rewrite order_page_count_pow, !shift_page by lia.
  rewrite (u64_small (g_end g - g_base g)), shiftr_page by mlia. fold (pages_in g). rewrite Hp.
  replace (g_first_page_index g + (r_address r - g_base g) / PAGE - g_first_page_index g) with ((r_address r - g_base g) / PAGE) by lia.
  rewrite Ex. rewrite u64_small by pmlia.
  assert ((r_address r - g_base g) / PAGE + 2 ^ r_order r ≤ pages_in g) by plia. assert (0 ≤ (r_address r - g_base g) / PAGE) by plia.
  rewrite bool_decide_true; [done|]. intros Hbad. plia.
Qed.
Record laid_out (a : physical_page_allocator) (rs : list physical_page_range) : Prop := {
  lo_ranges : ∃ post, a.(a_ranges) = rs ++ post;
  lo_count : a.(a_range_count) = Z.of_nat (length rs);
  lo_ok : ranges_ok rs a.(a_total_pages);
  lo_roots : a.(a_roots) = cut_all 0 rs 0;
  lo_root_count : a.(a_root_count) = Z.of_nat (length a.(a_roots));
  lo_nodes : a.(a_tree_nodes) = node_count a.(a_roots);
  lo_packed : packed a.(a_tree) a.(a_tree_nodes);
  lo_metadata : Z.of_nat (length a.(a_metadata)) = a.(a_total_pages);
  lo_heads : length a.(a_free_heads) = 32%nat;
}.
Lemma laid_out_root a rs r : laid_out a rs → r ∈ a.(a_roots) →
  ∃ i g, rs !! i = Some g ∧ a.(a_ranges) !! i = Some g ∧ range_ok g ∧ root_in g (Z.of_nat i) r.
Proof.
  intros [[post Er] Hc [Hok Hs Hl Ht] Eroots _ _ _ _ _] Hr. rewrite Eroots in Hr.
  destruct (cut_all_spec a.(a_total_pages) rs 0 0 0 Hok Hs Hl) as (_ & _ & L3 & _). destruct (L3 r Hr) as (i & g & Hi & Hin).
  exists i, g. split_and!; try done; [|rewrite Forall_lookup in Hok; by apply (Hok i)]. rewrite Er. by apply lookup_app_l_Some.
Qed.
Lemma laid_out_geometry a rs : laid_out a rs → geometry a.
Proof.
  intros Hlo. pose proof Hlo as [[post Er] Hc [Hok Hs Hl Ht] Eroots Erc En Hpk Hm Hh].
  destruct (cut_all_spec a.(a_total_pages) rs 0 0 0 Hok Hs Hl) as (L1 & L2 & L3 & L4 & L5). rewrite <-Eroots in L1, L2. cbv zeta in *.
  rewrite Z.add_0_l, <-En in L1.
  assert (Hor : orders_ok a.(a_roots)).
  { apply Forall_forall. intros r Hr. destruct (laid_out_root a rs r Hlo Hr) as (i & g & _ & _ & _ & Hin). apply Hin. }
  destruct (laid_bounds _ _ _ _ _ Hor L1) as (_ & _ & Hb).
  split; try done.
  - apply Forall_forall. intros r Hr. destruct (laid_out_root a rs r Hlo Hr) as (i & g & Hi & Hia & Hg & Hin).
    pose proof (ri_index _ _ _ Hin) as Ei. destruct (ranges_laid_lookup _ _ _ _ _ Hok Hl Hi) as [B1 B2]. destruct (Hb r Hr) as (? & ? & ? & ?).
    apply (root_valid_in a g r); try done.
    + rewrite Ei, Hc. apply lookup_lt_Some in Hi. lia.
    + by rewrite Ei, Nat2Z.id.
    + by rewrite Ei.
  - apply Forall_forall. intros r Hr. destruct (laid_out_root a rs r Hlo Hr) as (i & g & Hi & _ & Hg & [_ _ Ho Hal Hba He _]).
    pose proof (rk_bounds _ Hg). split_and!; [lia|lia|done].
Qed.

(** The greedy cut loses nothing: a naturally aligned block of a range lies in
    one extent. *)
Lemma cut_natural g index (Hg : range_ok g) address o : 0 ≤ o ≤ 31 → address mod (2 ^ o * PAGE) = 0 → address + 2 ^ o * PAGE ≤ g.(g_end) →
  ∀ fuel pa offset, aligned pa → g.(g_base) ≤ pa ≤ address → pages_left g pa ≤ Z.of_nat fuel →
  ∃ r k, r ∈ cut fuel g index pa offset ∧ o ≤ r.(r_order) ∧ 0 ≤ k < 2 ^ (r.(r_order) - o) ∧ address = r.(r_address) + k * (2 ^ o * PAGE).
Proof.
  intros Ho Hm He. pose proof (pow_pos o ltac:(lia)). induction fuel as [|fuel IH]; intros pa offset Hal Hpa Hf; pose proof (left_exact g Hg pa Hal) as Hex.
  - plia.
  - cbn [cut]. rewrite decide_True by plia. fold (pages_left g pa).
    destruct (extent_step g Hg pa Hal ltac:(plia)) as (Hk & Hkm & Hkend & Hkal & Hkp & Hmax).
    set (k := largest_fitting_order pa (pages_left g pa)) in *.
    destruct (decide (pa + 2 ^ k * PAGE ≤ address)) as [Hge|Hlt].
    + destruct (IH (pa + 2 ^ k * PAGE) (offset + (2 * 2 ^ k - 1)) Hkal ltac:(plia)) as (r & j & Hr & Hrest); [rewrite left_step; lia|].
      exists r, j. split; [by right|done].
    + apply Z.mod_divide in Hm as [u Hu]; [|plia]. apply Z.mod_divide in Hkm as [v Hv]; [|plia].
      destruct (decide (o ≤ k)) as [Hok|Hok].
      * eexists _, _. split; [left|]. cbn [r_order r_address]. pose proof (pow_split o k ltac:(lia)) as Hsp. pose proof (pow_pos (k - o) ltac:(lia)).
        assert (Eu : address = pa + (u - v * 2 ^ (k - o)) * (2 ^ o * PAGE)) by (rewrite Hsp in Hv; lia).
        split; [done|]. split; [|exact Eu]. rewrite Hsp in Hlt. split; nia.
      * exfalso. pose proof (pow_split k o ltac:(lia)) as Hsp.
        assert (Eau : address = u * 2 ^ (o - k) * (2 ^ k * PAGE)) by (rewrite Hu, Hsp; ring).
        assert (Hc : 0 < 2 ^ k * PAGE) by plia.
        assert (u * 2 ^ (o - k) = v) as Ew by (clear - Eau Hv Hpa Hlt Hc; set (c := 2 ^ k * PAGE) in *; set (w := u * 2 ^ (o - k)) in *; nia).
        assert (address = pa) as -> by (by rewrite Eau, Ew, Hv). apply (Z.lt_irrefl (g_end g)). eapply Z.lt_le_trans; [apply (Hmax o); [lia|]|done].
        apply Z.mod_divide; [plia|]. by exists u.
Qed.
