(* ===== verification/PageBootTheory.v ===== *)
(** * The bootstrap allocator and [init] *)
From S2P Require Import Prelude BootMemory BootMemoryTheory PhysicalPage PageBoot PageFinal PageStateTheory PageLayTheory.
Import BootMemory PhysicalPage PageBoot PageFinal.
#[local] Open Scope Z_scope.

Lemma land_mask x : Z.land x BOAROS_PAGE_MASK = x mod PAGE.
Proof. change BOAROS_PAGE_MASK with (Z.ones 12). by rewrite Z.land_ones. Qed.
Lemma land_mask_aligned x : Z.land x BOAROS_PAGE_MASK = 0 ↔ aligned x.
Proof. by rewrite land_mask. Qed.

(** Pages of the ranges, and those handed out so far. *)
Definition page_of (rs : list physical_page_range) (x : Z) : Prop :=
  aligned x ∧ ∃ g, g ∈ rs ∧ g.(g_base) ≤ x < g.(g_end).
Definition handed (rs : list physical_page_range) (x : Z) : Prop :=
  aligned x ∧ ∃ g, g ∈ rs ∧ g.(g_base) ≤ x < g.(g_next).

Section scan.
Context (a : physical_page_allocator) (rs post : list physical_page_range).
Hypothesis Ea : a.(a_ranges) = rs ++ post.
Hypothesis Ec : a.(a_range_count) = Z.of_nat (length rs).

Lemma handed_out_run l : ∀ pre x, rs = pre ++ l → ∃ b, handed_out (length l) a (length pre) x = Done b ∧
  (b = true ↔ ∃ g, g ∈ l ∧ g.(g_base) ≤ x < g.(g_next)).
Proof.
  induction l as [|g l IH]; intros pre x E; cbn [handed_out length].
  - exists false. split; [done|]. split; [done|]. by intros (? & []%elem_of_nil & _).
  - assert (Hi : a.(a_ranges) !! length pre = Some g) by (rewrite Ea, E, <-app_assoc; by rewrite lookup_app_r, Nat.sub_diag by lia).
    rewrite (aread_ok _ _ _ Hi). run. destruct (decide (g.(g_base) ≤ x ∧ x < g.(g_next))) as [Hx|Hx].
    + exists true. split; [done|]. split; [|done]. intros _. exists g. split; [left|done].
    + replace (S (length pre)) with (length (pre ++ [g])) by (rewrite length_app; simpl; lia).
      destruct (IH (pre ++ [g]) x) as (b & E' & Hb); [by rewrite <-app_assoc|]. exists b. split; [done|]. rewrite Hb. split.
      * intros (g' & Hg' & ?). exists g'. split; [by right|done].
      * intros (g' & [->|Hg']%elem_of_cons & Hx'); [lia|]. by exists g'.
Qed.
Lemma was_allocated_run x : ∃ b, address_was_allocated a x = Done b ∧ (b = true ↔ handed rs x).
Proof.
  unfold address_was_allocated, handed. pose proof (land_mask_aligned x) as Hal. destruct (decide (Z.land x BOAROS_PAGE_MASK ≠ 0)) as [Hx|Hx].
  - exists false. split; [done|]. split; [done|tauto].
  - rewrite Ec, Nat2Z.id. destruct (handed_out_run rs [] x eq_refl) as (b & E & Hb). exists b. split; [done|]. rewrite Hb.
    assert (aligned x) by (apply Hal; lia). tauto.
Qed.
Lemma was_allocated_true x : handed rs x → address_was_allocated a x = Done true.
Proof. intros Hx. destruct (was_allocated_run x) as ([] & E & Hb); [done|]. by apply Hb in Hx. Qed.

(** The lookup among the ranges. *)
Definition flat (g : physical_page_range) (x : Z) : Z := g.(g_first_page_index) + (x - g.(g_base)) / PAGE.
Lemma lookup_ranges_run l : ∀ pre x g, rs = pre ++ l → g ∈ l → g.(g_base) ≤ x < g.(g_end) →
  StronglySorted (λ g g', g.(g_end) ≤ g'.(g_base)) l → flat g x < a.(a_total_pages) ≤ UINT32_MAX →
  ∃ i, page_lookup_ranges (length l) a (length pre) x = Done (Some (i, flat g x)).
Proof.
  induction l as [|g0 l IH]; intros pre x g E Hg Hx Hs Hf; [by apply elem_of_nil in Hg|]. cbn [page_lookup_ranges length].
  assert (Hi : a.(a_ranges) !! length pre = Some g0) by (rewrite Ea, E, <-app_assoc; by rewrite lookup_app_r, Nat.sub_diag by lia).
  rewrite (aread_ok _ _ _ Hi). run. apply StronglySorted_inv in Hs as [Hs Hall].
  destruct (decide (g0.(g_base) ≤ x ∧ x < g0.(g_end))) as [Hin|Hin].
  - assert (g0 = g) as ->.
    { apply elem_of_cons in Hg as [->|Hg]; [done|]. rewrite Forall_forall in Hall. pose proof (Hall g Hg). lia. }
    rewrite shiftr_page. fold (flat g x). rewrite decide_False by lia. eauto.
  - apply elem_of_cons in Hg as [->|Hg]; [lia|]. replace (S (length pre)) with (length (pre ++ [g0])) by (rewrite length_app; simpl; lia).
    apply (IH (pre ++ [g0]) x g); try done. by rewrite <-app_assoc.
Qed.
Lemma page_lookup_range x g : ranges_ok rs a.(a_total_pages) → physical_page_allocator_is_finalized a = false →
  g ∈ rs → aligned x → g.(g_base) ≤ x < g.(g_end) → page_lookup a x = Done (Some (flat g x)).
Proof.
  intros [Hok Hs Hl Ht] Hf Hg Hal Hx. unfold page_lookup. rewrite decide_False by (rewrite land_mask_aligned; tauto). rewrite Hf.
  pose proof Hg as [i Hi]%list_elem_of_lookup_1. destruct (ranges_laid_lookup _ _ _ _ _ Hok Hl Hi) as [B1 B2].
  rewrite Forall_lookup in Hok. pose proof (Hok i g Hi) as Hgk. destruct (range_pages g Hgk) as (E & _).
  pose proof (aligned_exact x g.(g_base) Hal (rk_base _ Hgk)) as Ex.
  destruct (lookup_ranges_run rs [] x g eq_refl Hg Hx Hs) as [j Ej].
  - unfold flat. split; [plia|done].
  - rewrite Ec, Nat2Z.id. cbn [length] in Ej. rewrite Ej. run. done.
Qed.
End scan.

(** ** The list node in a page: eight bytes, least significant first *)
Lemma next_byte v i : 0 ≤ v → 0 ≤ i →
  Z.lor (v mod 2 ^ (8 * i)) (Z.shiftl (Z.shiftr v (i * 8) mod 256) (i * 8)) = v mod 2 ^ (8 * (i + 1)).
Proof.
  intros Hv Hi. apply Z.bits_inj'. intros n Hn. change 256 with (2 ^ 8). rewrite Z.lor_spec, Z.shiftl_spec by lia.
  destruct (decide (n < 8 * i)) as [Hlt|Hge].
  - rewrite !Z.mod_pow2_bits_low by lia. rewrite (Z.testbit_neg_r _ (n - i * 8)) by lia. by rewrite orb_false_r.
  - rewrite (Z.mod_pow2_bits_high _ (8 * i)) by lia. simpl. destruct (decide (n < 8 * (i + 1))) as [Hlt|Hge'].
    + rewrite !Z.mod_pow2_bits_low by lia. rewrite Z.shiftr_spec by lia. f_equal. lia.
    + by rewrite !Z.mod_pow2_bits_high by lia.
Qed.
(** The node at pointer [b] holds [v]. *)
Definition holds_value (mem : memory) (b v : Z) : Prop := ∀ i, 0 ≤ i < 8 → mem !! (b + i) = Some (Z.shiftr v (i * 8) mod 256).
Lemma read_bytes_run mem b v : is_u64 v → holds_value mem b v → ∀ n i, i + Z.of_nat n = 8 → 0 ≤ i →
  read_bytes n mem b i (v mod 2 ^ (8 * i)) = Done v.
Proof.
  intros Hv Hm n. induction n as [|n IH]; intros i Hi H0; cbn [read_bytes].
  - assert (i = 8) as -> by lia. change (2 ^ (8 * 8)) with (2 ^ 64). f_equal. apply Z.mod_small. change (2 ^ 64) with 18446744073709551616. mlia.
  - rewrite (Hm i ltac:(lia)). pose proof (Z.mod_pos_bound (Z.shiftr v (i * 8)) 256 ltac:(lia)) as Hb.
    assert (Hsmall : 0 ≤ Z.shiftl (Z.shiftr v (i * 8) mod 256) (i * 8) ≤ UINT64_MAX).
    { rewrite Z.shiftl_mul_pow2 by lia. assert (2 ^ (i * 8) ≤ 2 ^ 56) by (apply Z.pow_le_mono_r; lia). pose proof (pow_pos (i * 8) ltac:(lia)).
      change (2 ^ 56) with 72057594037927936 in *. unfold UINT64_MAX. nia. }
    rewrite u64_small by mlia. rewrite next_byte by mlia. apply IH; lia.
Qed.
Lemma read_node_run access mem x v : access x ≠ 0 → is_u64 v → holds_value mem (access x) v →
  read_recycled_node access mem x = Done (Some v).
Proof.
  intros Hx Hv Hm. unfold read_recycled_node. rewrite decide_False by done.
  pose proof (read_bytes_run mem (access x) v Hv Hm 8 0 eq_refl ltac:(lia)) as E. change (v mod 2 ^ (8 * 0)) with (v mod 1) in E.
  rewrite Z.mod_1_r in E. by rewrite E.
Qed.
Lemma write_bytes_run b v n : ∀ mem i, 0 ≤ i → i + Z.of_nat n = 8 → (∀ k, 0 ≤ k < 8 → is_Some (mem !! (b + k))) →
  ∃ mem', write_bytes n mem b i v = Done mem' ∧
    (∀ k, i ≤ k < 8 → mem' !! (b + k) = Some (Z.shiftr v (k * 8) mod 256)) ∧
    (∀ q, ¬ b + i ≤ q < b + 8 → mem' !! q = mem !! q) ∧ (∀ q, is_Some (mem' !! q) ↔ is_Some (mem !! q)).
Proof.
  induction n as [|n IH]; intros mem i Hi Hn Hs; cbn [write_bytes].
  - exists mem. split_and!; try done. lia.
  - destruct (Hs i ltac:(lia)) as [y Hy]. rewrite Hy. set (m1 := <[b + i := _]> mem).
    assert (H1 : ∀ q, is_Some (m1 !! q) ↔ is_Some (mem !! q)).
    { intros q. unfold m1. destruct (decide (q = b + i)) as [->|]; [rewrite lookup_insert_eq, Hy; by split; eexists|by rewrite lookup_insert_ne]. }
    destruct (IH m1 (i + 1)) as (mem' & E & Hv & Hf & Hd); [lia|lia|intros k Hk; by apply H1, Hs|]. exists mem'. split_and!; try done.
    + intros k Hk. destruct (decide (k = i)) as [->|]; [|apply Hv; lia]. rewrite Hf by lia. unfold m1. by rewrite lookup_insert_eq.
    + intros q Hq. rewrite Hf by lia. unfold m1. by rewrite lookup_insert_ne by lia.
    + intros q. by rewrite Hd, H1.
Qed.
Lemma write_node_run access mem x v : access x ≠ 0 → (∀ k, 0 ≤ k < 8 → is_Some (mem !! (access x + k))) →
  ∃ mem', write_recycled_node access mem x v = Done (Some mem') ∧ holds_value mem' (access x) v ∧
    (∀ q, ¬ access x ≤ q < access x + 8 → mem' !! q = mem !! q) ∧ (∀ q, is_Some (mem' !! q) ↔ is_Some (mem !! q)).
Proof.
  intros Hx Hs. destruct (write_bytes_run (access x) v 8 mem 0 ltac:(lia) eq_refl Hs) as (mem' & E & Hv & Hf & Hd).
  exists mem'. unfold write_recycled_node. rewrite decide_False, E by done. split_and!; try done. intros q Hq. apply Hf. lia.
Qed.

(** ** Counting pages *)
Definition span_pages (from to_ : Z) : list Z := map (λ i, from + i * PAGE) (seqZ 0 ((to_ - from) / PAGE)).
Definition handed_pages (rs : list physical_page_range) : list Z := concat (map (λ g, span_pages g.(g_base) g.(g_next)) rs).
Definition virgin_pages (rs : list physical_page_range) : list Z := concat (map (λ g, span_pages g.(g_next) g.(g_end)) rs).

Lemma elem_of_span from to_ x : aligned from → aligned to_ → x ∈ span_pages from to_ ↔ aligned x ∧ from ≤ x < to_.
Proof.
  intros Hf Ht. pose proof (aligned_exact to_ from Ht Hf) as E. unfold span_pages. rewrite list_elem_of_In, in_map_iff. split.
  - intros (i & <- & Hi). apply list_elem_of_In, elem_of_seqZ in Hi. split; [by apply page_aligned_add|]. plia.
  - intros [Hal Hx]. pose proof (aligned_exact x from Hal Hf) as Ex. exists ((x - from) / PAGE). split; [lia|].
    apply list_elem_of_In, elem_of_seqZ. plia.
Qed.
Lemma elem_of_concat_ranges (f : physical_page_range → list Z) rs x : x ∈ concat (map f rs) ↔ ∃ g, g ∈ rs ∧ x ∈ f g.
Proof.
  rewrite list_elem_of_In, in_concat. split.
  - intros (l & Hl & Hx). apply in_map_iff in Hl as (g & <- & Hg). exists g. by rewrite !list_elem_of_In.
  - intros (g & Hg & Hx). exists (f g). apply list_elem_of_In in Hg, Hx. split; [by apply in_map|done].
Qed.
Lemma elem_of_handed rs x : Forall range_ok rs → x ∈ handed_pages rs ↔ handed rs x.
Proof.
  intros Hok. unfold handed_pages, handed. rewrite elem_of_concat_ranges. rewrite Forall_forall in Hok. split.
  - intros (g & Hg & Hx). pose proof (Hok g Hg). apply elem_of_span in Hx as [? ?]; [|by apply rk_base|by apply rk_next]. split; [done|by exists g].
  - intros (Hal & g & Hg & Hx). pose proof (Hok g Hg). exists g. split; [done|]. apply elem_of_span; [by apply rk_base|by apply rk_next|done].
Qed.
Lemma elem_of_virgin rs x : Forall range_ok rs → x ∈ virgin_pages rs ↔ aligned x ∧ ∃ g, g ∈ rs ∧ g.(g_next) ≤ x < g.(g_end).
Proof.
  intros Hok. unfold virgin_pages. rewrite elem_of_concat_ranges. rewrite Forall_forall in Hok. split.
  - intros (g & Hg & Hx). pose proof (Hok g Hg). apply elem_of_span in Hx as [? ?]; [|by apply rk_next|by apply rk_end]. split; [done|by exists g].
  - intros (Hal & g & Hg & Hx). pose proof (Hok g Hg). exists g. split; [done|]. apply elem_of_span; [by apply rk_next|by apply rk_end|done].
Qed.
Lemma span_nodup from to_ : NoDup (span_pages from to_).
Proof. unfold span_pages. apply NoDup_fmap_2; [|apply NoDup_seqZ]. intros i j E. plia. Qed.
Lemma length_span from to_ : from ≤ to_ → Z.of_nat (length (span_pages from to_)) = (to_ - from) / PAGE.
Proof.
  intros H. unfold span_pages. rewrite length_map, length_seqZ. pose proof (Z.div_pos (to_ - from) PAGE ltac:(lia) ltac:(done)). lia.
Qed.
(** Spans inside sorted ranges do not overlap. *)
Lemma concat_ranges_nodup (f : physical_page_range → list Z) rs :
  (∀ g, g ∈ rs → NoDup (f g) ∧ ∀ x, x ∈ f g → g.(g_base) ≤ x < g.(g_end)) →
  StronglySorted (λ g g', g.(g_end) ≤ g'.(g_base)) rs → NoDup (concat (map f rs)).
Proof.
  induction rs as [|g rs IH]; intros Hf Hs; [constructor|]. apply StronglySorted_inv in Hs as [Hs Hall]. cbn [map concat].
  apply NoDup_app. destruct (Hf g ltac:(left)) as [Hn Hin]. split_and!; [done| |apply IH; [intros; apply Hf; by right|done]].
  intros x Hx Hx'. apply elem_of_concat_ranges in Hx' as (g' & Hg' & Hx'). rewrite Forall_forall in Hall. pose proof (Hall g' Hg').
  destruct (Hf g' ltac:(by right)) as [_ Hin']. pose proof (Hin x Hx). pose proof (Hin' x Hx'). lia.
Qed.
Lemma handed_nodup rs : Forall range_ok rs → StronglySorted (λ g g', g.(g_end) ≤ g'.(g_base)) rs → NoDup (handed_pages rs).
Proof.
  intros Hok Hs. apply concat_ranges_nodup; [|done]. intros g Hg. rewrite Forall_forall in Hok. pose proof (Hok g Hg) as Hgk.
  split; [apply span_nodup|]. intros x Hx. apply elem_of_span in Hx as [_ ?]; [|by apply rk_base|by apply rk_next]. pose proof (rk_bounds _ Hgk). lia.
Qed.
Lemma virgin_nodup rs : Forall range_ok rs → StronglySorted (λ g g', g.(g_end) ≤ g'.(g_base)) rs → NoDup (virgin_pages rs).
Proof.
  intros Hok Hs. apply concat_ranges_nodup; [|done]. intros g Hg. rewrite Forall_forall in Hok. pose proof (Hok g Hg) as Hgk.
  split; [apply span_nodup|]. intros x Hx. apply elem_of_span in Hx as [_ ?]; [|by apply rk_next|by apply rk_end]. pose proof (rk_bounds _ Hgk). lia.
Qed.
Lemma pages_total first rs total : Forall range_ok rs → ranges_laid first rs total →
  Z.of_nat (length (handed_pages rs)) + Z.of_nat (length (virgin_pages rs)) = total - first.
Proof.
  intros Hok. revert first. induction Hok as [|g rs Hg _ IH]; intros first Hl; simpl in Hl; [subst; simpl; lia|].
  destruct Hl as [_ Hl]. specialize (IH _ Hl). unfold handed_pages, virgin_pages in *. cbn [map concat]. rewrite !length_app, !Nat2Z.inj_add.
  pose proof (rk_bounds _ Hg). rewrite !length_span by lia. destruct (range_pages g Hg) as (E & _).
  pose proof (aligned_exact _ _ (rk_next _ Hg) (rk_base _ Hg)). pose proof (aligned_exact _ _ (rk_end _ Hg) (rk_next _ Hg)). plia.
Qed.

(** ** The invariant *)
(** What the platform's mapping promises: every page has its own bytes. *)
Record mapped (access : Z → Z) (mem : memory) (rs : list physical_page_range) : Prop := {
  mp_some x : page_of rs x → access x ≠ 0 ∧ ∀ k, 0 ≤ k < 8 → is_Some (mem !! (access x + k));
  mp_apart x y : page_of rs x → page_of rs y → x ≠ y → access x + PAGE ≤ access y ∨ access y + PAGE ≤ access x;
}.
Fixpoint chained (access : Z → Z) (mem : memory) (l : list Z) : Prop :=
  match l with
  | [] => True
  | x :: l' => holds_value mem (access x) (hd PHYSICAL_PAGE_NONE l') ∧ chained access mem l'
  end.
Record boot_ok (access : Z → Z) (mem : memory) (a : physical_page_allocator) (rs : list physical_page_range) (chain : list Z) : Prop := {
  bo_initialized : allocator_initialized a = true;
  bo_bootstrap : physical_page_allocator_is_finalized a = false;
  bo_ranges : ∃ post, a.(a_ranges) = rs ++ post;
  bo_count : a.(a_range_count) = Z.of_nat (length rs);
  bo_ok : ranges_ok rs a.(a_total_pages);
  bo_mapped : mapped access mem rs;
  bo_head : a.(a_recycled_head) = hd PHYSICAL_PAGE_NONE chain;
  bo_chain : chained access mem chain;
  bo_nodup : NoDup chain;
  bo_handed x : x ∈ chain → handed rs x;
  bo_access : chain ≠ [] → a.(a_access) = true;
  bo_available : a.(a_available_pages) = Z.of_nat (length (virgin_pages rs)) + Z.of_nat (length chain);
}.
(** The pages in use. *)
Definition in_use (rs : list physical_page_range) (chain : list Z) (x : Z) : Prop := handed rs x ∧ x ∉ chain.

Lemma handed_page rs x : Forall range_ok rs → handed rs x → page_of rs x ∧ is_u64 x ∧ x ≠ PHYSICAL_PAGE_NONE.
Proof.
  intros Hok (Hal & g & Hg & Hx). rewrite Forall_forall in Hok. pose proof (rk_bounds _ (Hok g Hg)). split_and!.
  - split; [done|]. exists g. split; [done|lia].
  - mlia.
  - intros ->. unfold aligned in Hal. by vm_compute in Hal.
Qed.

Section boot.
Context (access : Z → Z) (mem : memory) (a : physical_page_allocator) (rs : list physical_page_range) (chain : list Z).
Hypothesis Hb : boot_ok access mem a rs chain.
#[local] Notation Hok := (ro_each _ _ (bo_ok _ _ _ _ _ Hb)).
#[local] Notation Hsort := (ro_sorted _ _ (bo_ok _ _ _ _ _ Hb)).

Lemma chain_handed x : handed rs x → address_was_allocated a x = Done true.
Proof. destruct (bo_ranges _ _ _ _ _ Hb) as [post E]. apply (was_allocated_true a rs post E (bo_count _ _ _ _ _ Hb)). Qed.
Lemma chain_refused x : ¬ handed rs x → address_was_allocated a x = Done false.
Proof.
  intros Hn. destruct (bo_ranges _ _ _ _ _ Hb) as [post E].
  destruct (was_allocated_run a rs post E (bo_count _ _ _ _ _ Hb) x) as ([] & Ex & Hx); [by destruct Hn; apply Hx|done].
Qed.
(** The next address along the list. *)
Lemma next_word l x l' : chain = l ++ x :: l' → is_u64 (hd PHYSICAL_PAGE_NONE l') ∧ (l' = [] ∨ hd PHYSICAL_PAGE_NONE l' ∈ chain).
Proof.
  intros E. destruct l' as [|y l']; [split; [by vm_compute|by left]|]. assert (Hy : y ∈ chain) by (rewrite E; set_solver).
  split; [|by right]. by destruct (handed_page rs y Hok (bo_handed _ _ _ _ _ Hb y Hy)) as (_ & ? & _).
Qed.
Lemma chained_app l1 l2 : chained access mem (l1 ++ l2) → chained access mem l2.
Proof. induction l1 as [|x l1 IH]; [done|]. intros [_ H]. by apply IH. Qed.
Lemma read_chain l x l' : chain = l ++ x :: l' → read_recycled_node access mem x = Done (Some (hd PHYSICAL_PAGE_NONE l')).
Proof.
  intros E. assert (Hx : x ∈ chain) by (rewrite E; set_solver).
  destruct (handed_page rs x Hok (bo_handed _ _ _ _ _ Hb x Hx)) as (Hp & _). apply read_node_run.
  - by apply (mp_some _ _ _ (bo_mapped _ _ _ _ _ Hb)).
  - by apply (next_word l x l').
  - pose proof (bo_chain _ _ _ _ _ Hb) as Hc. rewrite E in Hc. by apply chained_app in Hc as [? _].
Qed.
Lemma chain_length x : in_use rs chain x → (length chain < length (handed_pages rs))%nat.
Proof.
  intros [Hx Hn]. assert (Hsub : x :: chain ⊆+ handed_pages rs).
  { apply NoDup_submseteq; [apply NoDup_cons; split; [done|apply Hb]|]. intros y Hy. apply (elem_of_handed rs y Hok).
    apply elem_of_cons in Hy as [->|Hy]; [done|by apply Hb]. }
  apply submseteq_length in Hsub. simpl in Hsub. lia.
Qed.
Lemma chain_length_le : (length chain ≤ length (handed_pages rs))%nat.
Proof.
  apply submseteq_length, NoDup_submseteq; [apply Hb|]. intros y Hy. apply (elem_of_handed rs y Hok). by apply Hb.
Qed.
Lemma total_pages : a.(a_total_pages) = Z.of_nat (length (handed_pages rs)) + Z.of_nat (length (virgin_pages rs)).
Proof. pose proof (pages_total 0 rs _ Hok (ro_laid _ _ (bo_ok _ _ _ _ _ Hb))). lia. Qed.

(** The walk over the recycled pages ends, unless it meets the page. *)
Lemma chain_scan_run x l' : ∀ l n fuel, chain = l ++ l' → x ∉ l' → n + Z.of_nat (length l') ≤ a.(a_total_pages) → (length l' ≤ fuel)%nat →
  chain_scan access fuel mem a x (hd PHYSICAL_PAGE_NONE l') n = Done PHYSICAL_PAGE_NONE.
Proof.
  induction l' as [|y l' IH]; intros l n fuel E Hx Hn Hf; simpl hd.
  - destruct fuel; cbn [chain_scan]; by rewrite decide_False by tauto.
  - destruct fuel as [|fuel]; [simpl in Hf; lia|]. assert (Hy : y ∈ chain) by (rewrite E; set_solver).
    pose proof (bo_handed _ _ _ _ _ Hb y Hy) as Hyh. destruct (handed_page rs y Hok Hyh) as (_ & _ & Hyn). cbn [chain_scan]. cbn [length] in *.
    rewrite decide_True by (split; [done|lia]). rewrite trap_if_ok by set_solver. run. rewrite (chain_handed y Hyh). run.
    rewrite (trap_if_ok (true = false)) by done. run. rewrite (read_chain l y l' E). run.
    apply (IH (l ++ [y])); [by rewrite <-app_assoc|set_solver|lia|lia].
Qed.
Lemma chain_scan_hit x l' : ∀ l n fuel, chain = l ++ l' → x ∈ l' → n + Z.of_nat (length l') ≤ a.(a_total_pages) → (length l' ≤ fuel)%nat →
  chain_scan access fuel mem a x (hd PHYSICAL_PAGE_NONE l') n = trap.
Proof.
  induction l' as [|y l' IH]; intros l n fuel E Hx Hn Hf; [by apply elem_of_nil in Hx|]. simpl hd.
  destruct fuel as [|fuel]; [simpl in Hf; lia|]. assert (Hy : y ∈ chain) by (rewrite E; set_solver).
  pose proof (bo_handed _ _ _ _ _ Hb y Hy) as Hyh. destruct (handed_page rs y Hok Hyh) as (_ & _ & Hyn). cbn [chain_scan]. cbn [length] in *.
  rewrite decide_True by (split; [done|lia]). destruct (decide (y = x)) as [->|Hne]; [by rewrite trap_if_fault|].
  rewrite trap_if_ok by done. run. rewrite (chain_handed y Hyh). run.
  rewrite (trap_if_ok (true = false)) by done. run. rewrite (read_chain l y l' E). run.
  apply (IH (l ++ [y])); [by rewrite <-app_assoc|set_solver|lia|lia].
Qed.
End boot.

(** ** Releasing and allocating *)
Lemma mapped_domain access mem mem' rs : (∀ q, is_Some (mem' !! q) ↔ is_Some (mem !! q)) → mapped access mem rs → mapped access mem' rs.
Proof. intros Hd [H1 H2]. split; [|done]. intros x Hx. destruct (H1 x Hx) as [? Hs]. split; [done|]. intros k Hk. by apply Hd, Hs. Qed.
Lemma chained_ext access mem mem' l : (∀ y i, y ∈ l → 0 ≤ i < 8 → mem' !! (access y + i) = mem !! (access y + i)) →
  chained access mem l → chained access mem' l.
Proof.
  induction l as [|y l IH]; intros He; [done|]. intros [Hv Hc]. split.
  - intros i Hi. rewrite He by (try done; left). by apply Hv.
  - apply IH; [|done]. intros z i Hz. apply He. by right.
Qed.

Lemma release_bootstrap_run access mem a rs chain x : boot_ok access mem a rs chain → in_use rs chain x → a.(a_access) = true →
  ∃ mem' a', physical_page_release_bootstrap access mem a x = Done (PHYSICAL_PAGE_STATUS_OK, mem', a') ∧
    boot_ok access mem' a' rs (x :: chain) ∧ a'.(a_total_pages) = a.(a_total_pages) ∧ a'.(a_available_pages) = a.(a_available_pages) + 1.
Proof.
  intros Hb [Hx Hn] Hacc. pose proof (ro_each _ _ (bo_ok _ _ _ _ _ Hb)) as Hok. pose proof (ro_total _ _ (bo_ok _ _ _ _ _ Hb)) as Htot.
  pose proof (chain_length access mem a rs chain Hb x ltac:(by split)) as Hlen. pose proof (total_pages access mem a rs chain Hb) as Et.
  pose proof (bo_available _ _ _ _ _ Hb) as Eav. destruct (handed_page rs x Hok Hx) as (Hpx & Hux & Hxn).
  destruct (mp_some _ _ _ (bo_mapped _ _ _ _ _ Hb) x Hpx) as [Hx0 Hxs].
  unfold physical_page_release_bootstrap. rewrite (chain_handed access mem a rs chain Hb x Hx). run.
  rewrite (trap_if_ok (true = false)) by done. run. rewrite Hacc. rewrite (trap_if_ok (true = false)) by done. run.
  rewrite (bo_head _ _ _ _ _ Hb). rewrite (chain_scan_run access mem a rs chain Hb x chain []) by (done || lia). run.
  rewrite (trap_if_ok (PHYSICAL_PAGE_NONE ≠ _)) by tauto. run. rewrite trap_if_ok by lia. run.
  destruct (write_node_run access mem x (hd PHYSICAL_PAGE_NONE chain) Hx0 Hxs) as (mem' & -> & Hv & Hf & Hd). run.
  rewrite u64_small by mlia. eexists mem', _. split_and!; [done| |done|done].
  destruct Hb as [B1 B2 B3 B4 B5 B6 B7 B8 B9 B10 B11 B12]. split; try done.
  - by apply (mapped_domain access mem).
  - split; [done|]. apply (chained_ext access mem); [|done]. intros y i Hy Hi. apply Hf.
    destruct (handed_page rs y Hok (B10 y Hy)) as (Hpy & _). destruct (mp_apart _ _ _ B6 x y Hpx Hpy) as [?|?]; [by intros ->|plia|plia].
  - by apply NoDup_cons.
  - intros y [->|Hy]%elem_of_cons; [done|by apply B10].
  - simpl. lia.
Qed.
Lemma release_bootstrap_refused access mem a rs chain x : boot_ok access mem a rs chain → ¬ in_use rs chain x ∨ a.(a_access) = false →
  physical_page_release_bootstrap access mem a x = trap.
Proof.
  intros Hb Hno. pose proof (chain_length_le access mem a rs chain Hb) as Hlen. pose proof (total_pages access mem a rs chain Hb) as Et.
  unfold physical_page_release_bootstrap.
  destruct (bo_ranges _ _ _ _ _ Hb) as [post E]. destruct (was_allocated_run a rs post E (bo_count _ _ _ _ _ Hb) x) as (b & -> & Hbx). run.
  destruct b; [|by rewrite (trap_if_fault (false = false))]. rewrite (trap_if_ok (true = false)) by done. run.
  destruct (a.(a_access)) eqn:Eacc; [|by rewrite (trap_if_fault (false = false))]. rewrite (trap_if_ok (true = false)) by done. run.
  assert (Hin : x ∈ chain). { destruct (decide (x ∈ chain)) as [|Hn]; [done|]. destruct Hno as [Hno|]; [|done]. destruct Hno. split; [by apply Hbx|done]. }
  rewrite (bo_head _ _ _ _ _ Hb). rewrite (chain_scan_hit access mem a rs chain Hb x chain []); (done || lia).
Qed.

(** One more page of one range is handed out. *)
Definition bump (g : physical_page_range) (n : Z) : physical_page_range := mk_page_range g.(g_base) n g.(g_end) g.(g_first_page_index).
Lemma take_next_run (l : list physical_page_range) : ∀ pre post, Forall range_ok l → virgin_pages l ≠ [] →
  ∃ l1 g l2, l = l1 ++ g :: l2 ∧ g.(g_next) < g.(g_end) ∧
    take_next (length l) (pre ++ l ++ post) (length pre) =
      Done (Some ((pre ++ l1) ++ bump g (u64 (g.(g_next) + PAGE)) :: l2 ++ post, g.(g_next))).
Proof.
  induction l as [|g l IH]; intros pre post Hok Hv; [done|]. apply Forall_cons in Hok as [Hg Hok]. cbn [take_next length].
  assert (Hi : (pre ++ (g :: l) ++ post) !! length pre = Some g) by (by rewrite lookup_app_r, Nat.sub_diag by lia).
  rewrite (aread_ok _ _ _ Hi). run. destruct (decide (g.(g_next) < g.(g_end))) as [Hlt|Hlt].
  - exists [], g, l. split_and!; try done. rewrite awrite_ok by (rewrite !length_app; simpl; lia). run.
    rewrite insert_app_r_alt, Nat.sub_diag by lia. simpl. by rewrite app_nil_r.
  - assert (Hvl : virgin_pages l ≠ []).
    { intros E. apply Hv. unfold virgin_pages in *. cbn [map concat]. rewrite E, app_nil_r. pose proof (rk_bounds _ Hg).
      unfold span_pages. replace (g.(g_end) - g.(g_next)) with 0 by lia. done. }
    replace (S (length pre)) with (length (pre ++ [g])) by (rewrite length_app; simpl; lia).
    destruct (IH (pre ++ [g]) post Hok Hvl) as (l1 & g' & l2 & -> & Hlt' & E). exists (g :: l1), g', l2. split_and!; try done.
    replace (pre ++ (g :: l1 ++ g' :: l2) ++ post) with ((pre ++ [g]) ++ (l1 ++ g' :: l2) ++ post) by (rewrite <-!app_assoc; simpl; by rewrite <-!app_assoc).
    rewrite E. do 3 f_equal. by rewrite <-!app_assoc.
Qed.

(** A page at or above [next] was never handed out. *)
Lemma next_not_handed l1 g l2 total y : ranges_ok (l1 ++ g :: l2) total → g.(g_next) ≤ y < g.(g_end) → ¬ handed (l1 ++ g :: l2) y.
Proof.
  intros [Hf Hs _ _] Hy (_ & h & Hh & Hx). apply Forall_app in Hf as [Hf1 [Hg _]%Forall_cons]. pose proof (rk_bounds _ Hg).
  apply elem_of_app in Hh as [Hh|[->|Hh]%elem_of_cons]; [|lia|].
  - pose proof (StronglySorted_app_1_elem_of _ l1 (g :: l2) h g Hs Hh ltac:(left)). simpl in *. rewrite Forall_forall in Hf1. pose proof (rk_bounds _ (Hf1 h Hh)). lia.
  - pose proof (StronglySorted_app_1_r _ _ _ Hs) as Hs2. apply StronglySorted_inv in Hs2 as [_ Ha]. rewrite Forall_forall in Ha. pose proof (Ha h Hh). simpl in *. lia.
Qed.
Lemma virgin_not_handed rs total y : ranges_ok rs total → y ∈ virgin_pages rs → ¬ handed rs y.
Proof.
  intros Hok Hy. apply elem_of_virgin in Hy as (_ & g & Hg & Hy); [|apply Hok]. apply list_elem_of_split in Hg as (l1 & l2 & ->). by eapply next_not_handed.
Qed.

Section bump.
Context (l1 l2 : list physical_page_range) (g : physical_page_range) (n total : Z).
Hypothesis Hok : ranges_ok (l1 ++ g :: l2) total.
Hypothesis Hn : g.(g_next) ≤ n ≤ g.(g_end).
Hypothesis Hal : aligned n.
#[local] Notation rs := (l1 ++ g :: l2).
#[local] Notation rs' := (l1 ++ bump g n :: l2).

Lemma bump_range : range_ok (bump g n).
Proof.
  pose proof (ro_each _ _ Hok) as Hf. apply Forall_app in Hf as [_ [[? ? ? ? ?] _]%Forall_cons]. split; simpl; try done; lia.
Qed.
Lemma bump_ok : ranges_ok rs' total.
Proof.
  pose proof bump_range as Hb. destruct Hok as [Hf Hs Hl Ht]. split; [| | |done].
  - apply Forall_app in Hf as [? [_ ?]%Forall_cons]. apply Forall_app. split; [done|]. by constructor.
  - clear - Hs. induction l1 as [|g0 l IH]; simpl in *; apply StronglySorted_inv in Hs as [Hs Ha]; constructor; [done|done|by apply IH|].
    apply Forall_app in Ha as [? [? ?]%Forall_cons]. apply Forall_app. split; [done|]. by constructor.
  - clear - Hl. revert Hl. generalize 0. induction l1 as [|g0 l IH]; intros first Hl; simpl in *; [done|]. destruct Hl. split; [done|by apply IH].
Qed.
Lemma elem_of_bump (P : physical_page_range → Prop) : (∃ h, h ∈ rs' ∧ P h) ↔ (∃ h, h ∈ l1 ++ l2 ∧ P h) ∨ P (bump g n).
Proof. setoid_rewrite elem_of_app. setoid_rewrite elem_of_cons. naive_solver. Qed.
Lemma elem_of_old (P : physical_page_range → Prop) : (∃ h, h ∈ rs ∧ P h) ↔ (∃ h, h ∈ l1 ++ l2 ∧ P h) ∨ P g.
Proof. setoid_rewrite elem_of_app. setoid_rewrite elem_of_cons. naive_solver. Qed.
Lemma bump_pages x : page_of rs' x ↔ page_of rs x.
Proof. unfold page_of. by rewrite elem_of_bump, elem_of_old. Qed.
Lemma bump_handed x : handed rs' x ↔ handed rs x ∨ (aligned x ∧ g.(g_next) ≤ x < n).
Proof.
  unfold handed. rewrite elem_of_bump, elem_of_old. simpl.
  pose proof (ro_each _ _ Hok) as Hf. apply Forall_app in Hf as [_ [Hg _]%Forall_cons]. pose proof (rk_bounds _ Hg).
  assert (g.(g_base) ≤ x < n ↔ g.(g_base) ≤ x < g.(g_next) ∨ g.(g_next) ≤ x < n) by lia. tauto.
Qed.
Lemma bump_virgin_length : Z.of_nat (length (virgin_pages rs')) = Z.of_nat (length (virgin_pages rs)) - (n - g.(g_next)) / PAGE.
Proof.
  pose proof (ro_each _ _ Hok) as Hf. apply Forall_app in Hf as [_ [Hg _]%Forall_cons]. pose proof (rk_bounds _ Hg).
  unfold virgin_pages. rewrite !map_app, !concat_app, !length_app. cbn [map concat]. rewrite !length_app, !Nat2Z.inj_add. rewrite !length_span by (simpl; lia).
  simpl. pose proof (aligned_exact _ _ (rk_end _ Hg) (rk_next _ Hg)). pose proof (aligned_exact _ _ (rk_end _ Hg) Hal).
  pose proof (aligned_exact _ _ Hal (rk_next _ Hg)). plia.
Qed.
Lemma bump_virgin x : x ∈ virgin_pages rs' ↔ x ∈ virgin_pages rs ∧ ¬ g.(g_next) ≤ x < n.
Proof.
  rewrite !elem_of_virgin by (apply bump_ok || apply Hok). rewrite elem_of_bump, elem_of_old. simpl.
  pose proof Hok as [Hf Hs _ _]. apply Forall_app in Hf as Hf'. destruct Hf' as [Hf1 [Hg Hf2]%Forall_cons]. pose proof (rk_bounds _ Hg).
  assert (Hapart : ∀ h, h ∈ l1 ++ l2 → h.(g_next) ≤ x < h.(g_end) → ¬ g.(g_next) ≤ x < n).
  { intros h Hh Hx Hx'. rewrite Forall_app, Forall_forall, Forall_forall in * |-. 
    assert (Hhk : range_ok h) by (apply elem_of_app in Hh as [?|?]; [by apply Hf1|by apply Hf2]). pose proof (rk_bounds _ Hhk).
    apply elem_of_app in Hh as [Hh|Hh].
    - pose proof (StronglySorted_app_1_elem_of _ l1 (g :: l2) h g Hs Hh ltac:(left)). simpl in *. lia.
    - pose proof (StronglySorted_app_1_r _ _ _ Hs) as Hs2. apply StronglySorted_inv in Hs2 as [_ Ha]. rewrite Forall_forall in Ha.
      pose proof (Ha h Hh). simpl in *. lia. }
  split.
  - intros (Hax & [(h & Hh & Hx)|Hx]); [|split; [|lia]; split; [done|right; lia]]. split; [|by apply (Hapart h)]. split; [done|]. left. by exists h.
  - intros ((Hax & [(h & Hh & Hx)|Hx]) & Hout); (split; [done|]); [left; by exists h|right; lia].
Qed.
End bump.

(** What stays: the ends of the ranges. *)
Definition bounds (rs : list physical_page_range) : list (Z * Z) := map (λ g, (g.(g_base), g.(g_end))) rs.
Lemma bounds_exists rs (P : Z → Z → Prop) : (∃ g, g ∈ rs ∧ P g.(g_base) g.(g_end)) ↔ ∃ b e, (b, e) ∈ bounds rs ∧ P b e.
Proof.
  unfold bounds. split.
  - intros (g & Hg & HP). exists g.(g_base), g.(g_end). split; [|done]. apply list_elem_of_In, in_map_iff. exists g. split; [done|]. by apply list_elem_of_In.
  - intros (b & e & Hin & HP). apply list_elem_of_In, in_map_iff in Hin as (g & [= <- <-] & Hg%list_elem_of_In). by exists g.
Qed.
Lemma page_of_bounds rs rs' x : bounds rs = bounds rs' → page_of rs x ↔ page_of rs' x.
Proof. intros E. unfold page_of. by rewrite (bounds_exists rs (λ b e, b ≤ x < e)), (bounds_exists rs' (λ b e, b ≤ x < e)), E. Qed.
Lemma bump_bounds l1 g n l2 : bounds (l1 ++ bump g n :: l2) = bounds (l1 ++ g :: l2).
Proof. unfold bounds. by rewrite !map_app. Qed.

(** What an allocation before [finalize] does. *)
Definition boot_allocated (access : Z → Z) (mem : memory) (a : physical_page_allocator) (rs : list physical_page_range) (chain : list Z) (x : Z)
    (a' : physical_page_allocator) (rs' : list physical_page_range) (chain' : list Z) : Prop :=
  boot_ok access mem a' rs' chain' ∧ page_of rs x ∧ ¬ in_use rs chain x ∧ (∀ y, in_use rs' chain' y ↔ in_use rs chain y ∨ y = x) ∧
  bounds rs' = bounds rs ∧ a'.(a_total_pages) = a.(a_total_pages) ∧ a'.(a_available_pages) = a.(a_available_pages) - 1.

Section allocate.
Context (access : Z → Z) (mem : memory) (a : physical_page_allocator) (rs : list physical_page_range).

Lemma allocate_recycled x chain : boot_ok access mem a rs (x :: chain) →
  let a' := set_available (set_recycled a (hd PHYSICAL_PAGE_NONE chain)) (a.(a_available_pages) - 1) in
  physical_page_allocate_bootstrap access mem a = Done (PHYSICAL_PAGE_STATUS_OK, a', Some x) ∧
  boot_allocated access mem a rs (x :: chain) x a' rs chain.
Proof.
  intros Hb a'. pose proof (ro_each _ _ (bo_ok _ _ _ _ _ Hb)) as Hok. pose proof (bo_handed _ _ _ _ _ Hb x ltac:(left)) as Hx.
  destruct (handed_page rs x Hok Hx) as (Hpx & Hux & Hxn). pose proof (bo_available _ _ _ _ _ Hb) as Eav. cbn [length] in Eav.
  pose proof (total_pages access mem a rs _ Hb) as Et. pose proof (chain_length_le access mem a rs _ Hb) as Hlen. cbn [length] in Hlen.
  pose proof (ro_total _ _ (bo_ok _ _ _ _ _ Hb)).
  pose proof (bo_nodup _ _ _ _ _ Hb) as [Hnin Hnd]%NoDup_cons. split.
  - unfold physical_page_allocate_bootstrap. rewrite decide_False by lia. rewrite (bo_head _ _ _ _ _ Hb). simpl hd. rewrite decide_True by done.
    rewrite (bo_access _ _ _ _ _ Hb) by done. rewrite (decide_False (P := true = false)) by done.
    rewrite (chain_handed access mem a rs _ Hb x Hx). run. rewrite (read_chain access mem a rs _ Hb [] x chain eq_refl). run.
    assert (Hgood : (if decide (hd PHYSICAL_PAGE_NONE chain ≠ PHYSICAL_PAGE_NONE)
                     then address_was_allocated a (hd PHYSICAL_PAGE_NONE chain) else Done true) = Done true).
    { destruct (decide _) as [Hne|]; [|done]. destruct (next_word access mem a rs _ Hb [] x chain eq_refl) as [_ [->|Hin]]; [done|].
      by apply (chain_handed access mem a rs _ Hb), (bo_handed _ _ _ _ _ Hb). }
    rewrite Hgood. run. unfold a'. by rewrite u64_small by mlia.
  - split_and!; try done; [|by intros [_ []]; left|].
    + destruct Hb as [B1 B2 B3 B4 B5 B6 B7 [_ B8] B9 B10 B11 B12]. split; try done; [|by intros _; apply B11|simpl in *; lia].
      intros y Hy. apply B10. by right.
    + intros y. unfold in_use. rewrite not_elem_of_cons. destruct (decide (y = x)) as [->|]; naive_solver.
Qed.
Lemma allocate_virgin : boot_ok access mem a rs [] → a.(a_available_pages) ≠ 0 →
  ∃ x a' rs', physical_page_allocate_bootstrap access mem a = Done (PHYSICAL_PAGE_STATUS_OK, a', Some x) ∧
    boot_allocated access mem a rs [] x a' rs' [].
Proof.
  intros Hb Hne. destruct (bo_ranges _ _ _ _ _ Hb) as [post Er]. pose proof (bo_available _ _ _ _ _ Hb) as Eav. cbn [length] in Eav.
  pose proof (bo_ok _ _ _ _ _ Hb) as Hok. pose proof (ro_each _ _ Hok) as Hf. pose proof (total_pages access mem a rs _ Hb) as Et. pose proof (ro_total _ _ Hok).
  destruct (take_next_run rs [] post Hf) as (l1 & g & l2 & E & Hlt & Etake).
  { intros Hv. rewrite Hv in Eav. simpl in Eav. lia. }
  rewrite E in *. assert (Hg : range_ok g) by (by apply Forall_app in Hf as [_ [? _]%Forall_cons]). pose proof (rk_bounds _ Hg).
  pose proof (aligned_exact _ _ (rk_end _ Hg) (rk_next _ Hg)). rewrite u64_small in Etake by pmlia.
  assert (Hn : g.(g_next) ≤ g.(g_next) + PAGE ≤ g.(g_end)) by plia. assert (Hal : aligned (g.(g_next) + PAGE)).
  { replace (g.(g_next) + PAGE) with (g.(g_next) + 1 * PAGE) by lia. apply page_aligned_add, Hg. }
  assert (Hone : ∀ y, aligned y ∧ g.(g_next) ≤ y < g.(g_next) + PAGE ↔ y = g.(g_next)).
  { intros y. split; [|intros ->; split; [apply Hg|plia]]. intros [Hy Hy']. pose proof (aligned_exact _ _ Hy (rk_next _ Hg)). plia. }
  exists g.(g_next), (set_available (set_ranges a (l1 ++ bump g (g.(g_next) + PAGE) :: l2 ++ post)) (a.(a_available_pages) - 1)), (l1 ++ bump g (g.(g_next) + PAGE) :: l2).
  split.
  - unfold physical_page_allocate_bootstrap. rewrite decide_False by done. rewrite (bo_head _ _ _ _ _ Hb). simpl hd. rewrite decide_False by tauto.
    rewrite (bo_count _ _ _ _ _ Hb), Nat2Z.id, Er. cbn [app length] in Etake. rewrite Etake. run. by rewrite u64_small by mlia.
  - split_and!; try done.
    + pose proof (bump_virgin_length l1 l2 g _ _ Hok Hn Hal) as Hvl. replace (g.(g_next) + PAGE - g.(g_next)) with (1 * PAGE) in Hvl by lia. rewrite Z.div_mul in Hvl by done.
      destruct Hb as [B1 B2 B3 B4 B5 B6 B7 B8 B9 B10 B11 B12]. split; try done.
      * exists post. simpl. by rewrite <-app_assoc.
      * simpl. rewrite B4, !length_app. simpl. lia.
      * by apply bump_ok.
      * destruct B6 as [M1 M2]. split; [intros y Hy; apply (bump_pages l1 l2 g _ Hn) in Hy; by apply M1|intros y z Hy Hz; apply (bump_pages l1 l2 g _ Hn) in Hy, Hz; by apply M2].
      * intros y []%elem_of_nil.
      * simpl in *. lia.
    + split; [apply Hg|]. exists g. split; [set_solver|]. lia.
    + intros [Hx _]. by apply (next_not_handed l1 g l2 _ g.(g_next) Hok).
    + intros y. unfold in_use. rewrite (bump_handed l1 l2 g _ _ Hok Hn), Hone. pose proof (not_elem_of_nil y). tauto.
    + apply bump_bounds.
Qed.
Lemma allocate_bootstrap_run chain : boot_ok access mem a rs chain →
  (a.(a_available_pages) = 0 ∧ physical_page_allocate_bootstrap access mem a = Done (PHYSICAL_PAGE_STATUS_EMPTY, a, None)) ∨
  ∃ x a' rs' chain', physical_page_allocate_bootstrap access mem a = Done (PHYSICAL_PAGE_STATUS_OK, a', Some x) ∧
    boot_allocated access mem a rs chain x a' rs' chain'.
Proof.
  intros Hb. destruct (decide (a.(a_available_pages) = 0)) as [E|Hne]; [left; split; [done|]; unfold physical_page_allocate_bootstrap; by rewrite decide_True|right].
  destruct chain as [|x chain].
  - destruct (allocate_virgin Hb Hne) as (x & a' & rs' & E & H). by exists x, a', rs', [].
  - destruct (allocate_recycled x chain Hb) as [E H]. eexists x, _, rs, chain. done.
Qed.
End allocate.

(** ** Taking over the usable ranges of the boot memory layout

    [physical_page_allocator_init] accepts a sorted list of disjoint ranges and
    manages exactly the pages that lie inside one of them. *)
Import BootMemory PhysicalPage PageBoot.

(** ** What the loop computes *)
Definition range_first (r : dtb_memory_range) : Z := (r.(rg_base) + (PAGE - 1)) / PAGE.
Definition range_last (r : dtb_memory_range) : Z := (r.(rg_base) + r.(rg_size)) / PAGE.
Definition whole_page (r : dtb_memory_range) (x : Z) : Prop :=
  aligned x ∧ r.(rg_base) ≤ x ∧ x + PAGE ≤ r.(rg_base) + r.(rg_size).

Fixpoint take_over (first : Z) (l : list dtb_memory_range) : list physical_page_range :=
  match l with
  | [] => []
  | r :: l =>
      if decide (range_first r < range_last r) then
        mk_page_range (range_first r * PAGE) (range_first r * PAGE) (range_last r * PAGE) first ::
        take_over (first + (range_last r - range_first r)) l
      else take_over first l
  end.
Fixpoint whole_pages (l : list dtb_memory_range) : Z :=
  match l with
  | [] => 0
  | r :: l => Z.max 0 (range_last r - range_first r) + whole_pages l
  end.
(** Sorted, disjoint, not empty and inside the address space. *)
Fixpoint usable_ok (previous : Z) (l : list dtb_memory_range) : Prop :=
  match l with
  | [] => True
  | r :: l =>
      0 < r.(rg_size) ∧ r.(rg_base) + r.(rg_size) ≤ UINT64_MAX ∧ previous ≤ r.(rg_base) ∧
      usable_ok (r.(rg_base) + r.(rg_size)) l
  end.
#[export] Instance usable_ok_dec l : ∀ previous, Decision (usable_ok previous l).
Proof. induction l as [|r l IH]; intros previous; simpl; apply _. Defined.
Definition range_typed (r : dtb_memory_range) : Prop := is_u64 r.(rg_base) ∧ is_u64 r.(rg_size).

Lemma page_floor_mul x : page_floor x = x / PAGE * PAGE.
Proof.
  unfold page_floor. change BOAROS_PAGE_MASK with (Z.ones 12). rewrite <-Z.ldiff_land, Z.ldiff_ones_r by done.
  by rewrite Z.shiftr_div_pow2, Z.shiftl_mul_pow2.
Qed.
Lemma whole_page_iff r x : aligned x → (whole_page r x ↔ range_first r * PAGE ≤ x < range_last r * PAGE).
Proof.
  unfold whole_page, aligned, range_first, range_last, BOAROS_PAGE_SIZE. intros Hx. split; [intros (_ & ? & ?)|intros ?; split; [done|]]; Z.to_euclidean_division_equations; lia.
Qed.
Lemma aligned_mul n : aligned (n * PAGE).
Proof. apply Z.mod_mul. done. Qed.
Lemma whole_pages_nonneg l : 0 ≤ whole_pages l.
Proof. induction l; simpl; lia. Qed.

(** The table of ranges is as large as the layout's. *)
Definition blank_range : physical_page_range := mk_page_range 0 0 0 0.
Definition table (rs : list physical_page_range) : list physical_page_range :=
  rs ++ replicate (BOOT_MEMORY_MAX_USABLE_RANGES - length rs) blank_range.
Definition grown (rs : list physical_page_range) (total : Z) : physical_page_allocator :=
  set_sizes allocator_blank (table rs) (Z.of_nat (length rs)) total.

(** ** The loop *)
Lemma table_length rs : (length rs ≤ BOOT_MEMORY_MAX_USABLE_RANGES)%nat → length (table rs) = BOOT_MEMORY_MAX_USABLE_RANGES.
Proof. intros. unfold table. rewrite length_app, length_replicate. lia. Qed.
Lemma table_snoc rs g : (length rs < BOOT_MEMORY_MAX_USABLE_RANGES)%nat → <[length rs := g]> (table rs) = table (rs ++ [g]).
Proof.
  intros Hl. unfold table. rewrite insert_app_r_alt, Nat.sub_diag, length_app by lia. simpl length.
  replace (BOOT_MEMORY_MAX_USABLE_RANGES - length rs)%nat with (S (BOOT_MEMORY_MAX_USABLE_RANGES - (length rs + 1)))%nat by lia.
  simpl. by rewrite <-app_assoc.
Qed.

Section add.
Context (rs : list physical_page_range) (total : Z) (r : dtb_memory_range).
Hypothesis Hlen : (length rs < BOOT_MEMORY_MAX_USABLE_RANGES)%nat.
Hypothesis Htot : 0 ≤ total ≤ UINT32_MAX.
Hypothesis Hr : range_typed r.
Hypothesis Hfit : r.(rg_base) + r.(rg_size) ≤ UINT64_MAX.
#[local] Notation add := (add_range (grown rs total) r.(rg_base) (r.(rg_base) + r.(rg_size))).

Lemma add_range_run : add =
  Done (if decide (range_first r < range_last r) then
          if decide (UINT32_MAX < total + (range_last r - range_first r)) then None
          else Some (grown (rs ++ [mk_page_range (range_first r * PAGE) (range_first r * PAGE) (range_last r * PAGE) total])
                       (total + (range_last r - range_first r)))
        else Some (grown rs total)).
Proof.
  destruct Hr as [Hb Hs]. unfold add_range, grown. rewrite !page_floor_mul. fold (range_last r).
  change (r.(rg_base) + BOAROS_PAGE_MASK) with (r.(rg_base) + (PAGE - 1)). fold (range_first r).
  assert (Hf : range_first r * PAGE < r.(rg_base) + PAGE ≤ range_first r * PAGE + PAGE) by (unfold range_first, BOAROS_PAGE_SIZE; Z.to_euclidean_division_equations; lia).
  assert (Hl : range_last r * PAGE ≤ r.(rg_base) + r.(rg_size)) by (unfold range_last, BOAROS_PAGE_SIZE; Z.to_euclidean_division_equations; lia).
  destruct (decide (range_first r < range_last r)) as [Hlt|Hge].
  - rewrite (decide_False (P := UINT64_MAX - BOAROS_PAGE_MASK < _)) by (unfold BOAROS_PAGE_MASK, BOAROS_PAGE_SIZE in *; mlia).
    rewrite (decide_False (P := _ ≤ _)) by plia. rewrite shiftr_page, <-Z.mul_sub_distr_r, Z.div_mul by done. cbn [a_total_pages a_ranges a_range_count set_sizes].
    rewrite u64_small by mlia. destruct (decide (UINT32_MAX < _)) as [Ho|Ho]; [by rewrite decide_True by lia|rewrite decide_False by lia].
    rewrite Nat2Z.id, awrite_ok by (rewrite table_length; lia). run. rewrite table_snoc by done.
    assert (Z.of_nat (length rs) < 1000) by (unfold BOOT_MEMORY_MAX_USABLE_RANGES, BOOT_MEMORY_MAX_RESERVED_RANGES in Hlen; simpl in Hlen; lia).
    rewrite (u32_small (_ + 1)), (u32_small total), u64_small by mlia. do 3 f_equal. rewrite length_app. simpl. lia.
  - destruct (decide (UINT64_MAX - BOAROS_PAGE_MASK < _)); [done|]. by rewrite decide_True by plia.
Qed.
End add.

Lemma init_ranges_run usable l : ∀ pre post rs total prev, usable = pre ++ l ++ post → Forall range_typed l →
  (length rs ≤ length pre)%nat → (length pre + length l ≤ BOOT_MEMORY_MAX_USABLE_RANGES)%nat → 0 ≤ total ≤ UINT32_MAX → (pre = [] → prev = 0) →
  (usable_ok prev l ∧ total + whole_pages l ≤ UINT32_MAX →
   init_ranges (length l) usable (length pre) prev (grown rs total) = Done (Some (grown (rs ++ take_over total l) (total + whole_pages l)))) ∧
  (¬ (usable_ok prev l ∧ total + whole_pages l ≤ UINT32_MAX) → init_ranges (length l) usable (length pre) prev (grown rs total) = Done None).
Proof.
  induction l as [|r l IH]; intros pre post rs total prev E Ht Hrs Hlen Htot Hp; cbn [init_ranges length usable_ok whole_pages take_over].
  { split; [|intros []; lia]. intros _. by rewrite app_nil_r, Z.add_0_r. }
  apply Forall_cons in Ht as [Hr Ht]. simpl in Hlen. pose proof (whole_pages_nonneg l).
  assert (Hi : usable !! length pre = Some r) by (subst; by rewrite lookup_app_r, Nat.sub_diag by lia). rewrite (aread_ok _ _ _ Hi). run.
  pose proof Hr as [Hrb Hrs']. unfold range_end. destruct (decide (r.(rg_size) > UINT64_MAX - r.(rg_base))) as [Hd|Hd]; [split; [intros [(_ & ? & _) _]; lia|done]|].
  destruct (decide (r.(rg_size) = 0 ∨ _)) as [Hd2|Hd2].
  { split; [|done]. intros [(? & _ & ? & _) _]. lia. }
  assert (prev ≤ r.(rg_base)). { destruct pre; [rewrite Hp by done; apply Hrb|simpl in Hd2; lia]. }
  rewrite add_range_run by (done || lia). run.
  assert (E' : usable = (pre ++ [r]) ++ l ++ post) by (by rewrite E, <-app_assoc). assert (Hn : pre ++ [r] = [] → r.(rg_base) + r.(rg_size) = 0) by (by destruct pre).
  replace (S (length pre)) with (length (pre ++ [r])) by (rewrite length_app; simpl; lia).
  destruct (decide (range_first r < range_last r)) as [Hlt|Hge].
  - rewrite Z.max_r by lia. destruct (decide (UINT32_MAX < _)) as [Ho|Ho]; [split; [intros [_ ?]; lia|done]|].
    destruct (IH (pre ++ [r]) post (rs ++ [mk_page_range (range_first r * PAGE) (range_first r * PAGE) (range_last r * PAGE) total])
      (total + (range_last r - range_first r)) _ E' Ht ltac:(rewrite !length_app; simpl; lia) ltac:(rewrite length_app; simpl; lia) ltac:(lia) Hn) as [H1 H2].
    rewrite <-app_assoc, <-Z.add_assoc in H1. rewrite <-Z.add_assoc in H2. split; [intros [(? & ? & ? & ?) ?]; by apply H1|].
    intros Hno. apply H2. intros [? ?]. apply Hno. split; [|done]. split; [mlia|]. split; [lia|done].
  - rewrite Z.max_l, Z.add_0_l by lia. destruct (IH (pre ++ [r]) post rs total _ E' Ht ltac:(rewrite length_app; simpl; lia) ltac:(rewrite length_app; simpl; lia) Htot Hn) as [H1 H2].
    split; [intros [(? & ? & ? & ?) ?]; by apply H1|]. intros Hno. apply H2. intros [? ?]. apply Hno. split; [|done]. split; [mlia|]. split; [lia|done].
Qed.

(** ** The table *)
Lemma take_over_base l : ∀ first prev g, Forall range_typed l → usable_ok prev l → g ∈ take_over first l →
  prev ≤ g.(g_base) ∧ range_ok g ∧ g.(g_next) = g.(g_base).
Proof.
  induction l as [|r l IH]; intros first prev g Ht Hu Hg; simpl in *; [by apply elem_of_nil in Hg|]. apply Forall_cons in Ht as [[Hb Hs] Ht].
  destruct Hu as (? & ? & ? & Hu). destruct (decide _) as [Hlt|]; [apply elem_of_cons in Hg as [->|Hg]|].
  - assert (r.(rg_base) ≤ range_first r * PAGE ∧ range_last r * PAGE ≤ r.(rg_base) + r.(rg_size)) as [? ?]
      by (unfold range_first, range_last, BOAROS_PAGE_SIZE; Z.to_euclidean_division_equations; lia).
    cbn [g_base g_next]. split; [lia|]. split; [|done]. split; cbn [g_base g_next g_end]; try apply aligned_mul; [|plia]. split; [mlia|]. split; [plia|mlia].
  - destruct (IH _ _ _ Ht Hu Hg) as (? & ? & ?). split; [mlia|done].
  - destruct (IH _ _ _ Ht Hu Hg) as (? & ? & ?). split; [mlia|done].
Qed.
Lemma take_over_laid l : ∀ first, ranges_laid first (take_over first l) (first + whole_pages l).
Proof.
  induction l as [|r l IH]; intros first; simpl; [lia|]. destruct (decide _) as [Hlt|].
  - simpl. split; [done|]. unfold pages_in. cbn [g_end g_base]. rewrite <-Z.mul_sub_distr_r, Z.div_mul by done. rewrite Z.max_r, Z.add_assoc by lia. apply IH.
  - rewrite Z.max_l by lia. apply IH.
Qed.
Lemma take_over_sorted l : ∀ first prev, Forall range_typed l → usable_ok prev l → StronglySorted (λ g g', g.(g_end) ≤ g'.(g_base)) (take_over first l).
Proof.
  induction l as [|r l IH]; intros first prev Ht Hu; simpl in *; [constructor|]. apply Forall_cons in Ht as [Hr Ht]. destruct Hu as (? & ? & ? & Hu).
  destruct (decide _); [|by eapply IH]. constructor; [by eapply IH|]. apply Forall_forall. intros g Hg. destruct (take_over_base _ _ _ _ Ht Hu Hg) as [? _].
  cbn [g_end]. assert (range_last r * PAGE ≤ r.(rg_base) + r.(rg_size)) by (unfold range_last, BOAROS_PAGE_SIZE; Z.to_euclidean_division_equations; lia). lia.
Qed.
Lemma take_over_page l x : ∀ first, page_of (take_over first l) x ↔ ∃ r, r ∈ l ∧ whole_page r x.
Proof.
  unfold page_of. induction l as [|r l IH]; intros first; simpl.
  { split; [intros (_ & g & []%elem_of_nil & _)|intros (r & []%elem_of_nil & _)]. }
  setoid_rewrite elem_of_cons. destruct (decide _) as [Hlt|Hge].
  - specialize (IH (first + (range_last r - range_first r))). setoid_rewrite elem_of_cons. split.
    + intros (Hal & g & [->|Hg] & Hx); [exists r; split; [by left|]; by apply whole_page_iff|]. destruct (proj1 IH ltac:(by eauto)) as (r' & ? & ?). eauto.
    + intros (r' & [->|Hr'] & Hx); [|destruct (proj2 IH ltac:(by eauto)) as (? & g & ? & ?); eauto].
      pose proof (proj1 Hx) as Hal. apply whole_page_iff in Hx; [|done]. split; [done|]. eexists. split; [by left|done].
  - specialize (IH first). split; [intros H; destruct (proj1 IH H) as (r' & ? & ?); eauto|]. intros (r' & [->|Hr'] & Hx); [|apply IH; eauto].
    pose proof (proj1 Hx) as Hal. apply whole_page_iff in Hx; [plia|done].
Qed.
Lemma take_over_span l x n : aligned x → 0 < n → ∀ first,
  (∃ g, g ∈ take_over first l ∧ g.(g_base) ≤ x ∧ x + n * PAGE ≤ g.(g_end)) ↔
  ∃ r, r ∈ l ∧ r.(rg_base) ≤ x ∧ x + n * PAGE ≤ r.(rg_base) + r.(rg_size).
Proof.
  intros Hal Hn. assert (Hr : ∀ r, range_first r * PAGE ≤ x ∧ x + n * PAGE ≤ range_last r * PAGE ↔ r.(rg_base) ≤ x ∧ x + n * PAGE ≤ r.(rg_base) + r.(rg_size)).
  { intros r. unfold aligned, range_first, range_last, BOAROS_PAGE_SIZE in *. split; intros [? ?]; split; Z.to_euclidean_division_equations; lia. }
  induction l as [|r l IH]; intros first; simpl; [split; intros (? & []%elem_of_nil & _)|]. setoid_rewrite elem_of_cons. destruct (decide _) as [Hlt|Hge].
  - specialize (IH (first + (range_last r - range_first r))). setoid_rewrite elem_of_cons. split.
    + intros (g & [->|Hg] & Hx); [exists r; split; [by left|by apply Hr]|]. destruct (proj1 IH ltac:(by exists g)) as (r' & ? & ?). exists r'. by split; [right|].
    + intros (r' & [->|Hr'] & Hx); [eexists; split; [by left|by apply Hr in Hx]|]. destruct (proj2 IH ltac:(by exists r')) as (g & ? & ?). exists g. by split; [right|].
  - specialize (IH first). split.
    + intros H. destruct (proj1 IH H) as (r' & ? & ?). exists r'. by split; [right|].
    + intros (r' & [->|Hr'] & Hx); [exfalso; apply Hr in Hx; plia|]. apply IH. by exists r'.
Qed.
Lemma take_over_ok l : Forall range_typed l → usable_ok 0 l → whole_pages l ≤ UINT32_MAX → ranges_ok (take_over 0 l) (whole_pages l).
Proof.
  intros Ht Hu Hw. split; [|by eapply take_over_sorted|apply (take_over_laid l 0)|done].
  apply Forall_forall. intros g Hg. by eapply take_over_base in Hg as (_ & ? & _).
Qed.
Lemma take_over_virgin l : Forall range_typed l → usable_ok 0 l → handed_pages (take_over 0 l) = [].
Proof.
  intros Ht Hu. unfold handed_pages. assert (Hn : ∀ g, g ∈ take_over 0 l → g.(g_next) = g.(g_base)) by (intros g Hg; by eapply take_over_base in Hg as (_ & _ & ?)).
  induction (take_over 0 l) as [|g rs IH]; [done|]. simpl. rewrite IH by (intros; apply Hn; by right). rewrite (Hn g) by left. unfold span_pages. by rewrite Z.sub_diag.
Qed.

Lemma init_boot_ok access mem l : Forall range_typed l → usable_ok 0 l → whole_pages l ≤ UINT32_MAX → mapped access mem (take_over 0 l) →
  boot_ok access mem (set_initialized (grown (take_over 0 l) (whole_pages l)) (whole_pages l) PHYSICAL_PAGE_ALLOCATOR_INITIALIZED) (take_over 0 l) [].
Proof.
  intros Ht Hu Hw Hm. pose proof (take_over_ok l Ht Hu Hw) as Hok. split; try done.
  - by eexists.
  - constructor.
  - intros x []%elem_of_nil.
  - simpl. pose proof (pages_total 0 _ _ (ro_each _ _ Hok) (ro_laid _ _ Hok)) as E. rewrite take_over_virgin in E by done. simpl in E. lia.
Qed.
(** Binding the callback changes nothing else. *)
Lemma bind_access_ok access mem a rs chain : boot_ok access mem a rs chain →
  ∃ s a', physical_page_allocator_bind_access a = (s, a') ∧ boot_ok access mem a' rs chain ∧ a'.(a_access) = true ∧
    (s = PHYSICAL_PAGE_STATUS_OK ∨ (s = PHYSICAL_PAGE_STATUS_STATE ∧ a' = a)).
Proof.
  intros Hb. unfold physical_page_allocator_bind_access. rewrite decide_False by (by rewrite (bo_initialized _ _ _ _ _ Hb)).
  destruct (decide (a.(a_access) = true)); eexists _, _; (split; [done|]); [tauto|]. split; [|split; [done|by left]]. by destruct Hb.
Qed.

(** ** The whole operation *)
Definition usable_of (layout : boot_memory_layout) : list dtb_memory_range := take layout.(bl_usable_count) layout.(bl_usable).
Definition init_accepts (layout : boot_memory_layout) : Prop :=
  (0 < layout.(bl_usable_count) ≤ BOOT_MEMORY_MAX_USABLE_RANGES)%nat ∧ usable_ok 0 (usable_of layout) ∧ whole_pages (usable_of layout) ≤ UINT32_MAX.
#[export] Instance init_accepts_dec layout : Decision (init_accepts layout).
Proof. unfold init_accepts. apply _. Defined.

Section init.
Context (allocator : physical_page_allocator) (layout : boot_memory_layout).
Hypothesis Hlen : (layout.(bl_usable_count) ≤ length layout.(bl_usable))%nat.
Hypothesis Ht : Forall range_typed (usable_of layout).
#[local] Notation l := (usable_of layout).

Lemma init_ranges_all : (layout.(bl_usable_count) ≤ BOOT_MEMORY_MAX_USABLE_RANGES)%nat →
  (usable_ok 0 l ∧ whole_pages l ≤ UINT32_MAX →
   init_ranges layout.(bl_usable_count) layout.(bl_usable) 0 0 allocator_blank = Done (Some (grown (take_over 0 l) (whole_pages l)))) ∧
  (¬ (usable_ok 0 l ∧ whole_pages l ≤ UINT32_MAX) → init_ranges layout.(bl_usable_count) layout.(bl_usable) 0 0 allocator_blank = Done None).
Proof.
  intros Hc. assert (El : length l = layout.(bl_usable_count)) by (unfold usable_of; rewrite length_take; lia).
  destruct (init_ranges_run layout.(bl_usable) l [] (drop layout.(bl_usable_count) layout.(bl_usable)) [] 0 0) as [H1 H2];
    [by rewrite <-(take_drop layout.(bl_usable_count) layout.(bl_usable)) at 1|done|simpl; lia|simpl; lia|mlia|done|].
  rewrite El in H1, H2. by split.
Qed.
(** Refused input leaves the allocator alone; accepted input without a whole
    page is empty; otherwise the pages inside the ranges are managed, all free. *)
Lemma init_run :
  (¬ init_accepts layout → physical_page_allocator_init allocator layout = Done (PHYSICAL_PAGE_STATUS_INVALID, allocator)) ∧
  (init_accepts layout → whole_pages l = 0 → physical_page_allocator_init allocator layout = Done (PHYSICAL_PAGE_STATUS_EMPTY, allocator)) ∧
  (init_accepts layout → whole_pages l ≠ 0 →
   physical_page_allocator_init allocator layout =
     Done (PHYSICAL_PAGE_STATUS_OK, set_initialized (grown (take_over 0 l) (whole_pages l)) (whole_pages l) PHYSICAL_PAGE_ALLOCATOR_INITIALIZED)).
Proof.
  unfold init_accepts, physical_page_allocator_init. destruct (decide (_ ∨ _)) as [Hd|Hd].
  { split; [done|]. split; intros [? _]; lia. }
  destruct (init_ranges_all ltac:(lia)) as [H1 H2]. split; [|split].
  - intros Hno. rewrite H2 by (intros ?; apply Hno; split; [lia|done]). done.
  - intros [_ Hok] E. rewrite H1 by done. run. by rewrite decide_True.
  - intros [_ Hok] E. rewrite H1 by done. run. by rewrite decide_False.
Qed.
End init.

(** ** After the boot memory layout *)
Lemma sorted_usable lo hi l : ∀ prev, Forall (clipped lo hi) l → StronglySorted ordered l → hi ≤ UINT64_MAX → (∀ r, r ∈ l → prev ≤ r.(rg_base)) → usable_ok prev l.
Proof.
  induction l as [|r l IH]; intros prev Hc Hs Hh Hp; simpl; [done|]. apply Forall_cons in Hc as [(? & ? & ?) Hc]. apply StronglySorted_inv in Hs as [Hs Ha].
  unfold rg_end in *. split; [done|]. split; [lia|]. split; [apply Hp; left|]. apply IH; try done. intros r' Hr'. rewrite Forall_forall in Ha. exact (Ha r' Hr').
Qed.
Lemma whole_pages_bound hi l : ∀ prev, usable_ok prev l → Forall (λ r, r.(rg_base) + r.(rg_size) ≤ hi) l → prev ≤ hi → whole_pages l * PAGE ≤ hi - prev.
Proof.
  induction l as [|r l IH]; intros prev Hu Hf Hp; simpl in *; [plia|]. destruct Hu as (? & ? & ? & Hu). apply Forall_cons in Hf as [Hr Hf].
  specialize (IH _ Hu Hf Hr). assert (Z.max 0 (range_last r - range_first r) * PAGE ≤ r.(rg_size))
    by (unfold range_first, range_last, BOAROS_PAGE_SIZE; Z.to_euclidean_division_equations; lia). lia.
Qed.
Lemma layout_accepted info ks ke dtb layout : layout_exact info ks ke dtb layout → 0 ≤ info.(bi_memory).(rg_base) →
  rg_end info.(bi_memory) ≤ UINT64_MAX →
  (init_accepts layout ↔ whole_pages (usable_of layout) ≤ UINT32_MAX) ∧ whole_pages (usable_of layout) * PAGE ≤ info.(bi_memory).(rg_size) ∧
  Forall range_typed (usable_of layout) ∧ (layout.(bl_usable_count) ≤ length layout.(bl_usable))%nat.
Proof.
  intros (Hc & El & _ & Hf & Hs & _) H0 Hh. fold (usable_of layout) in *. unfold rg_end in *.
  assert (Hu : ∀ p, p ≤ info.(bi_memory).(rg_base) → usable_ok p (usable_of layout)).
  { intros p Hp. eapply sorted_usable; [exact Hf|done|exact Hh|]. intros r Hr. rewrite Forall_forall in Hf. destruct (Hf r Hr) as (_ & ? & _). lia. }
  split; [split; [by intros (_ & _ & ?)|intros Hp; split_and!; [lia|lia|by apply Hu|done]]|].
  split; [|split; [apply (Forall_impl _ _ _ Hf); intros r (? & ? & ?); unfold rg_end in *; split; mlia|lia]]. pose proof (whole_pages_bound (info.(bi_memory).(rg_base) + info.(bi_memory).(rg_size)) _ _ (Hu _ (Z.le_refl _))) as Hw.
  unfold BOAROS_PAGE_SIZE in *. assert (0 ≤ info.(bi_memory).(rg_size)) by (destruct (usable_of layout) as [|r ?] eqn:E;
    [exfalso; apply (f_equal length) in E; unfold usable_of in E; rewrite length_take in E; simpl in E; lia|apply Forall_cons in Hf as [(? & ? & ?) _]; unfold rg_end in *; lia]).
  assert (Forall (λ r, r.(rg_base) + r.(rg_size) ≤ info.(bi_memory).(rg_base) + info.(bi_memory).(rg_size)) (usable_of layout)) by (apply (Forall_impl _ _ _ Hf); by intros r (? & ? & ?)).
  specialize (Hw ltac:(done) ltac:(lia)). lia.
Qed.
(** A managed page is free memory to its last byte. *)
Lemma managed_free info ks ke dtb layout x y : layout_exact info ks ke dtb layout → page_of (take_over 0 (usable_of layout)) x → x ≤ y < x + PAGE →
  info.(bi_memory).(rg_base) ≤ y < rg_end info.(bi_memory) ∧ ¬ occupied info ks ke dtb y.
Proof.
  intros (_ & _ & _ & _ & _ & Hc & _) (r & Hr & _ & ? & ?)%take_over_page Hy. apply Hc, Exists_exists. exists r. split; [done|]. unfold in_range, rg_end. lia.
Qed.
