(* ===== verification/PageAuditTheory.v ===== *)
(** * Marking the bootstrap pages, and the audit *)
From S2P Require Import Prelude BootMemory PhysicalPage PageBoot PageFinal PageStateTheory PageFreeTheory PageAllocTheory PageReleaseTheory PageBuildTheory PageLayTheory PageBootTheory.
Import PhysicalPage PageBoot PageFinal.
#[local] Open Scope Z_scope.

(** ** Addresses and page numbers *)
Definition index_of (rs : list physical_page_range) (x z : Z) : Prop :=
  aligned x ∧ ∃ g, g ∈ rs ∧ g.(g_base) ≤ x < g.(g_end) ∧ z = flat g x.
Lemma index_exists rs x : page_of rs x → ∃ z, index_of rs x z.
Proof. intros (Hal & g & Hg & Hx). exists (flat g x). split; [done|]. by exists g. Qed.
Lemma index_page rs x z : index_of rs x z → page_of rs x.
Proof. intros (Hal & g & Hg & Hx & _). split; [done|]. by exists g. Qed.

Section index.
Context (rs : list physical_page_range) (total : Z).
Hypothesis Hok : ranges_ok rs total.

Lemma flat_bounds g x : range_ok g → aligned x → g.(g_base) ≤ x < g.(g_end) →
  g.(g_first_page_index) ≤ flat g x < g.(g_first_page_index) + pages_in g ∧ (flat g x - g.(g_first_page_index)) * PAGE = x - g.(g_base).
Proof.
  intros Hg Hal Hx. destruct (range_pages g Hg) as (E & _). pose proof (aligned_exact x g.(g_base) Hal (rk_base _ Hg)) as Ex. unfold flat. plia.
Qed.
Lemma index_bounds x z : index_of rs x z → 0 ≤ z < total.
Proof.
  intros (Hal & g & Hg & Hx & ->). pose proof Hg as [i Hi]%list_elem_of_lookup_1. destruct Hok as [Hf _ Hl _].
  destruct (ranges_laid_lookup _ _ _ _ _ Hf Hl Hi) as [B1 B2]. rewrite Forall_forall in Hf. pose proof (flat_bounds g x (Hf g Hg) Hal Hx). lia.
Qed.
Lemma ranges_laid_apart l : ∀ first i j g h, Forall range_ok l → ranges_laid first l total → l !! i = Some g → l !! j = Some h → (i < j)%nat →
  g.(g_first_page_index) + pages_in g ≤ h.(g_first_page_index).
Proof.
  induction l as [|g0 l IH]; intros first i j g h Hf Hl Hi Hj Hij; [done|]. apply Forall_cons in Hf as [Hg Hf]. destruct Hl as [Ef Hl].
  destruct j as [|j]; [lia|]. simpl in Hj. destruct i as [|i]; simpl in Hi.
  - injection Hi as ->. destruct (ranges_laid_lookup _ _ _ _ _ Hf Hl Hj). lia.
  - eapply (IH _ i j); try done. lia.
Qed.
Lemma index_inj x y z : index_of rs x z → index_of rs y z → x = y.
Proof.
  intros (Hax & g & Hg & Hx & ->) (Hay & h & Hh & Hy & E). destruct Hok as [Hf _ Hl _].
  pose proof Hg as [i Hi]%list_elem_of_lookup_1. pose proof Hh as [j Hj]%list_elem_of_lookup_1.
  pose proof Hf as Hf'. rewrite Forall_forall in Hf'. destruct (flat_bounds g x (Hf' g Hg) Hax Hx) as [Bx Ex]. destruct (flat_bounds h y (Hf' h Hh) Hay Hy) as [By Ey].
  destruct (Nat.lt_trichotomy i j) as [Hij|[->|Hij]].
  - pose proof (ranges_laid_apart rs _ _ _ _ _ Hf Hl Hi Hj Hij). lia.
  - assert (g = h) as -> by congruence. plia.
  - pose proof (ranges_laid_apart rs _ _ _ _ _ Hf Hl Hj Hi Hij). lia.
Qed.
End index.

(** ** The states of the pages *)
Definition marks (rs : list physical_page_range) (m : heads) (F : Z → Z) : Prop :=
  ∀ x z, index_of rs x z → ∃ h, mget m z = Some h ∧ h.(m_state) = F x.
Definition paint (F : Z → Z) (xs : list Z) (s : Z) : Z → Z := λ y, if decide (y ∈ xs) then s else F y.
Lemma marks_ext rs m F F' : (∀ x, page_of rs x → F x = F' x) → marks rs m F → marks rs m F'.
Proof. intros He Hm x z Hx. destruct (Hm x z Hx) as (h & ? & ?). exists h. rewrite <-He by (by eapply index_page). done. Qed.
Lemma paint_nil F s y : paint F [] s y = F y.
Proof. unfold paint. by rewrite decide_False by apply not_elem_of_nil. Qed.
Lemma paint_app F xs ys s y : paint (paint F xs s) ys s y = paint F (xs ++ ys) s y.
Proof. unfold paint. repeat case_decide; set_solver. Qed.

(** Spans, page by page. *)
Lemma span_cons pa stop : pa + PAGE ≤ stop → span_pages pa stop = pa :: span_pages (pa + PAGE) stop.
Proof.
  intros Hle. unfold span_pages. replace (stop - pa) with (stop - (pa + PAGE) + 1 * PAGE) by lia. rewrite Z.div_add by done.
  set (n := (stop - (pa + PAGE)) / PAGE). assert (0 ≤ n) by (apply Z.div_pos; [lia|done]). rewrite seqZ_cons by lia. cbn [map].
  rewrite Z.mul_0_l, Z.add_0_r. f_equal. replace (Z.pred (n + 1)) with n by lia. change (Z.succ 0) with (1 + 0). rewrite <-fmap_add_seqZ. 
  trans ((λ i, pa + i * PAGE) <$> (Z.add 1 <$> seqZ 0 n)); [done|]. rewrite <-list_fmap_compose. apply list_fmap_ext. intros _ i _. simpl. lia.
Qed.
Lemma span_above pa stop x : x ∈ span_pages pa stop → pa ≤ x.
Proof. unfold span_pages. rewrite list_elem_of_In, in_map_iff. intros (i & <- & Hi). apply list_elem_of_In, elem_of_seqZ in Hi. plia. Qed.

Section mark.
Context (A : physical_page_allocator) (rs post : list physical_page_range).
Hypothesis Er : A.(a_ranges) = rs ++ post.
Hypothesis Ec : A.(a_range_count) = Z.of_nat (length rs).
Hypothesis Hok : ranges_ok rs A.(a_total_pages).
Hypothesis Hfin : physical_page_allocator_is_finalized A = false.
#[local] Notation sized m := (Z.of_nat (length m) = A.(a_total_pages)).
#[local] Notation HELD := PHYSICAL_PAGE_STATE_ALLOCATED_HEAD.

Lemma lookup_index m x z : index_of rs x z → page_lookup (set_metadata A m) x = Done (Some z).
Proof. intros (Hal & g & Hg & Hx & ->). by apply (page_lookup_range (set_metadata A m) rs post). Qed.
Lemma index_fun x z w : index_of rs x z → index_of rs x w → z = w.
Proof. intros Hz%(lookup_index []) Hw%(lookup_index []). congruence. Qed.
Lemma sized_some m z : sized m → 0 ≤ z < A.(a_total_pages) → is_Some (mget m z).
Proof. intros Hl Hz. unfold mget. apply lookup_lt_is_Some. lia. Qed.
Lemma mark_step m F x z s : sized m → marks rs m F → index_of rs x z →
  ∃ m', mark_head (set_metadata A m) z 0 s = Done (set_metadata A m') ∧ sized m' ∧ marks rs m' (paint F [x] s).
Proof.
  intros Hl Hm Hx. pose proof (index_bounds rs _ Hok x z Hx) as Hz. pose proof (sized_some m z Hl Hz) as Hs.
  eexists. rewrite mark_head_ok by done. split; [done|]. split; [by rewrite length_mset|].
  intros y w Hy. simpl. pose proof (index_bounds rs _ Hok y w Hy) as Hw. rewrite mget_mset by (done || lia). unfold paint. destruct (decide (w = z)) as [->|Hne].
  - rewrite (index_inj rs _ Hok y x z Hy Hx). rewrite (decide_True (P := x ∈ [x])) by (by apply list_elem_of_singleton). eauto.
  - rewrite (decide_False (P := y ∈ [x])); [by apply Hm|]. rewrite list_elem_of_singleton. intros ->. by apply Hne, (index_fun x).
Qed.

(** First, every page is held. *)
Lemma mark_all_run n : ∀ i m, sized m → i + Z.of_nat n = A.(a_total_pages) → 0 ≤ i → (∀ z, 0 ≤ z < i → ∃ h, mget m z = Some h ∧ h.(m_state) = HELD) →
  ∃ m', mark_all n (set_metadata A m) i = Done (set_metadata A m') ∧ sized m' ∧ marks rs m' (λ _, HELD).
Proof.
  induction n as [|n IH]; intros i m Hl Hn Hi Hm; cbn [mark_all].
  - exists m. split; [done|]. split; [done|]. intros x z Hx. apply Hm. pose proof (index_bounds rs _ Hok x z Hx). lia.
  - pose proof (sized_some m i Hl ltac:(lia)) as Hs. rewrite mark_head_ok by done. run. apply IH; simpl; [by rewrite length_mset|lia|lia|].
    intros z Hz. rewrite mget_mset by (done || lia). destruct (decide (z = i)); [eauto|]. apply Hm. lia.
Qed.

(** Then the pages of a span. *)
Lemma mark_span_run held s stop n : ∀ m F pa count, sized m → marks rs m F → aligned pa → 0 ≤ pa → stop = pa + Z.of_nat n * PAGE → stop ≤ UINT64_MAX →
  (∀ y, y ∈ span_pages pa stop → page_of rs y ∧ (held = true → F y = HELD)) →
  ∃ m', mark_span n (set_metadata A m) held s pa stop count = Done (Some (set_metadata A m', count + Z.of_nat n)) ∧ sized m' ∧ marks rs m' (paint F (span_pages pa stop) s).
Proof.
  induction n as [|n IH]; intros m F pa count Hl Hm Hal Hpa Es Hmax Hin; cbn [mark_span].
  { rewrite decide_False by lia. exists m. rewrite Z.add_0_r. split; [done|]. split; [done|]. apply (marks_ext rs m F); [|done].
    intros x _. unfold span_pages. replace (stop - pa) with 0 by lia. symmetry. apply paint_nil. }
  assert (Hsp : span_pages pa stop = pa :: span_pages (pa + PAGE) stop) by (apply span_cons; plia).
  rewrite Hsp in *. destruct (Hin pa ltac:(left)) as [Hpage HF]. destruct (index_exists rs pa Hpage) as [z Hz].
  rewrite decide_True by plia. rewrite (lookup_index m pa z Hz). run. destruct (Hm pa z Hz) as (h & Hh & Eh). rewrite (load_metadata_ok (set_metadata A m) z h Hh). run.
  rewrite decide_False by (intros [-> Hne]; apply Hne; rewrite Eh; by apply HF).
  destruct (mark_step m F pa z s Hl Hm Hz) as (m1 & E1 & Hl1 & Hm1). rewrite E1. run. rewrite u64_small by pmlia.
  destruct (IH m1 _ (pa + PAGE) (count + 1) Hl1 Hm1) as (m2 & E2 & Hl2 & Hm2); [|plia|plia|done| |].
  - replace (pa + PAGE) with (pa + 1 * PAGE) by lia. by apply page_aligned_add.
  - intros y Hy. destruct (Hin y ltac:(by right)) as [Hyp HyF]. split; [done|]. intros Hh'. unfold paint. rewrite decide_False; [by apply HyF|].
    rewrite list_elem_of_singleton. intros ->. apply (span_above (pa + PAGE) stop pa) in Hy. plia.
  - exists m2. rewrite E2. split; [do 3 f_equal; lia|]. split; [done|]. apply (marks_ext rs m2 _ _ ltac:(intros y _; by apply paint_app) Hm2).
Qed.

(** The pages never handed out. *)
Lemma mark_virgin_run l : ∀ pre m F count, rs = pre ++ l → sized m → marks rs m F → (∀ y, y ∈ virgin_pages l → F y = HELD) →
  ∃ m', mark_virgin (length l) (set_metadata A m) (length pre) count = Done (Some (set_metadata A m', count + Z.of_nat (length (virgin_pages l)))) ∧
    sized m' ∧ marks rs m' (paint F (virgin_pages l) PHYSICAL_PAGE_STATE_CANDIDATE).
Proof.
  induction l as [|g l IH]; intros pre m F count E Hl Hm HF; cbn [mark_virgin length].
  { exists m. simpl. rewrite Z.add_0_r. split; [done|]. split; [done|]. apply (marks_ext rs m F); [|done]. intros x _. symmetry. apply paint_nil. }
  pose proof (ro_each _ _ Hok) as Hf. rewrite Forall_forall in Hf. assert (Hg : g ∈ rs) by (rewrite E; set_solver). pose proof (Hf g Hg) as Hgk.
  pose proof (rk_bounds _ Hgk). pose proof (aligned_exact _ _ (rk_end _ Hgk) (rk_next _ Hgk)) as Ex.
  change (virgin_pages (g :: l)) with (span_pages g.(g_next) g.(g_end) ++ virgin_pages l) in *.
  assert (Hi : (set_metadata A m).(a_ranges) !! length pre = Some g) by (simpl; rewrite Er, E, <-app_assoc; by rewrite lookup_app_r, Nat.sub_diag by lia).
  rewrite (aread_ok _ _ _ Hi). run. unfold span_fuel.
  destruct (mark_span_run true PHYSICAL_PAGE_STATE_CANDIDATE g.(g_end) (Z.to_nat ((g.(g_end) - g.(g_next)) / PAGE)) m F g.(g_next) count Hl Hm (rk_next _ Hgk)) as (m1 & E1 & Hl1 & Hm1);
    [lia|plia|lia| |].
  { intros y Hy. split; [|intros _; apply HF; set_solver]. apply elem_of_span in Hy as [? ?]; [|apply Hgk..]. split; [done|]. exists g. split; [done|lia]. }
  rewrite E1. run. replace (S (length pre)) with (length (pre ++ [g])) by (rewrite length_app; simpl; lia).
  destruct (IH (pre ++ [g]) m1 (paint F (span_pages g.(g_next) g.(g_end)) PHYSICAL_PAGE_STATE_CANDIDATE) (count + Z.of_nat (Z.to_nat ((g.(g_end) - g.(g_next)) / PAGE))))
    as (m2 & E2 & Hl2 & Hm2); [by rewrite <-app_assoc|done|done| |].
  { intros y Hy. unfold paint. rewrite decide_False; [apply HF; set_solver|]. intros Hy'. pose proof (virgin_nodup rs (ro_each _ _ Hok) (ro_sorted _ _ Hok)) as Hnd.
    rewrite E in Hnd. unfold virgin_pages in Hnd. rewrite map_app, concat_app in Hnd. apply NoDup_app in Hnd as (_ & _ & Hnd). cbn [map concat] in Hnd.
    apply NoDup_app in Hnd as (_ & Hd & _). by apply (Hd y). }
  exists m2. rewrite E2. split; [|split; [done|]].
  - do 3 f_equal. rewrite length_app, Nat2Z.inj_add, length_span by lia. plia.
  - apply (marks_ext rs m2 _ _ ltac:(intros y _; by apply paint_app) Hm2).
Qed.

(** The recycled pages. *)
Section recycled.
Context (access : Z → Z) (mem : memory) (allocator : physical_page_allocator) (rs0 : list physical_page_range) (chain : list Z).
Hypothesis Hb : boot_ok access mem allocator rs0 chain.
Hypothesis Hsame : ∀ y, page_of rs0 y → page_of rs y.

Lemma mark_recycled_run l' : ∀ l m F n fuel, chain = l ++ l' → sized m → marks rs m F → (∀ y, y ∈ l' → F y = HELD) →
  n + Z.of_nat (length l') ≤ allocator.(a_total_pages) → (length l' ≤ fuel)%nat →
  ∃ m', mark_recycled access fuel mem allocator (set_metadata A m) n (hd PHYSICAL_PAGE_NONE l') = Done (Some (set_metadata A m', n + Z.of_nat (length l'))) ∧
    sized m' ∧ marks rs m' (paint F l' PHYSICAL_PAGE_STATE_CANDIDATE).
Proof.
  induction l' as [|y l' IH]; intros l m F n fuel E Hl Hm HF Hn Hfu; simpl hd.
  { exists m. rewrite Z.add_0_r. split; [destruct fuel; cbn [mark_recycled]; by rewrite decide_False by tauto|]. split; [done|].
    apply (marks_ext rs m F); [|done]. intros x _. symmetry. apply paint_nil. }
  destruct fuel as [|fuel]; [simpl in Hfu; lia|]. assert (Hy : y ∈ chain) by (rewrite E; set_solver).
  pose proof (bo_handed _ _ _ _ _ Hb y Hy) as Hyh. destruct (handed_page rs0 y (ro_each _ _ (bo_ok _ _ _ _ _ Hb)) Hyh) as (Hyp & _ & Hyn).
  destruct (index_exists rs y (Hsame y Hyp)) as [z Hz]. destruct (Hm y z Hz) as (h & Hh & Eh). cbn [mark_recycled]. cbn [length] in *.
  rewrite decide_True, decide_False by (done || lia). rewrite (chain_handed access mem allocator rs0 chain Hb y Hyh). run.
  rewrite (lookup_index m y z Hz). run. rewrite (load_metadata_ok (set_metadata A m) z h Hh). run.
  rewrite decide_False by (intros Hne; apply Hne; rewrite Eh; apply HF; left). rewrite (read_chain access mem allocator rs0 chain Hb l y l' E). run.
  assert (Hgood : (if decide (hd PHYSICAL_PAGE_NONE l' ≠ PHYSICAL_PAGE_NONE)
                   then address_was_allocated allocator (hd PHYSICAL_PAGE_NONE l') else Done true) = Done true).
  { destruct (decide _) as [Hne|]; [|done]. destruct (next_word access mem allocator rs0 chain Hb l y l' E) as [_ [->|Hin]]; [done|].
    by apply (chain_handed access mem allocator rs0 chain Hb), (bo_handed _ _ _ _ _ Hb). }
  rewrite Hgood. run. destruct (mark_step m F y z PHYSICAL_PAGE_STATE_CANDIDATE Hl Hm Hz) as (m1 & E1 & Hl1 & Hm1). rewrite E1. run.
  pose proof (bo_nodup _ _ _ _ _ Hb) as Hnd. rewrite E in Hnd. apply NoDup_app in Hnd as (_ & _ & [Hnin _]%NoDup_cons).
  destruct (IH (l ++ [y]) m1 _ (n + 1) fuel ltac:(by rewrite <-app_assoc) Hl1 Hm1) as (m2 & E2 & Hl2 & Hm2); [|lia|lia|].
  { intros w Hw. unfold paint. rewrite decide_False; [apply HF; by right|]. rewrite list_elem_of_singleton. by intros ->. }
  exists m2. rewrite E2. split; [do 3 f_equal; lia|]. split; [done|]. apply (marks_ext rs m2 _ _ ltac:(intros w _; by apply paint_app) Hm2).
Qed.
End recycled.
End mark.

(** ** All of it *)
Section pages.
Context (access : Z → Z) (mem : memory) (allocator A : physical_page_allocator).
Context (l1 l2 post : list physical_page_range) (g : physical_page_range) (chain : list Z) (pages : Z).
#[local] Notation rs0 := (l1 ++ g :: l2).
#[local] Notation stop := (g.(g_next) + pages * PAGE).
#[local] Notation rs := (l1 ++ bump g stop :: l2).
Hypothesis Hb : boot_ok access mem allocator rs0 chain.
Hypothesis Hpages : 0 < pages.
Hypothesis Hroom : stop ≤ g.(g_end).
Hypothesis Er : A.(a_ranges) = rs ++ post.
Hypothesis Ec : A.(a_range_count) = Z.of_nat (length rs).
Hypothesis Et : A.(a_total_pages) = allocator.(a_total_pages).
Hypothesis Hfin : physical_page_allocator_is_finalized A = false.
Hypothesis Hlen : Z.of_nat (length A.(a_metadata)) = A.(a_total_pages).

(** The state of each page when all are marked. *)
Definition page_mark (y : Z) : Z :=
  paint (paint (paint (λ _, PHYSICAL_PAGE_STATE_ALLOCATED_HEAD) (span_pages g.(g_next) stop) PHYSICAL_PAGE_STATE_INTERNAL)
    chain PHYSICAL_PAGE_STATE_CANDIDATE) (virgin_pages rs) PHYSICAL_PAGE_STATE_CANDIDATE y.

#[local] Notation Hok0 := (bo_ok _ _ _ _ _ Hb).
Lemma reserve_room : g.(g_next) ≤ stop ≤ g.(g_end).
Proof. split; [plia|done]. Qed.
Lemma selected_ok : range_ok g.
Proof. pose proof (ro_each _ _ Hok0) as Hf. by apply Forall_app in Hf as [_ [? _]%Forall_cons]. Qed.
Lemma stop_aligned : aligned stop.
Proof. apply page_aligned_add, selected_ok. Qed.
Lemma reserved_ok : ranges_ok rs A.(a_total_pages).
Proof. rewrite Et. apply bump_ok; [exact Hok0|apply reserve_room|apply stop_aligned]. Qed.
Lemma selected_span y : y ∈ span_pages g.(g_next) stop ↔ aligned y ∧ g.(g_next) ≤ y < stop.
Proof. apply elem_of_span; [apply selected_ok|apply stop_aligned]. Qed.
Lemma chain_mark y : y ∈ chain → y ∉ span_pages g.(g_next) stop ∧ y ∉ virgin_pages rs.
Proof.
  intros Hy. pose proof (bo_handed _ _ _ _ _ Hb y Hy) as Hh. split.
  - rewrite selected_span. intros [_ Hs]. apply (next_not_handed l1 g l2 _ y Hok0); [lia|done].
  - intros [Hv _]%(bump_virgin l1 l2 g _ _ Hok0 reserve_room stop_aligned). by apply (virgin_not_handed rs0 _ y Hok0).
Qed.
Lemma virgin_mark y : y ∈ virgin_pages rs → y ∉ span_pages g.(g_next) stop.
Proof. intros [_ Hn]%(bump_virgin l1 l2 g _ _ Hok0 reserve_room stop_aligned). rewrite selected_span. tauto. Qed.

(** What the marks say: reserved, free or held. *)
Lemma page_mark_spec y : page_of rs0 y →
  (page_mark y = PHYSICAL_PAGE_STATE_INTERNAL ↔ g.(g_next) ≤ y < stop) ∧
  (page_mark y = PHYSICAL_PAGE_STATE_CANDIDATE ↔ ¬ in_use rs0 chain y ∧ ¬ g.(g_next) ≤ y < stop) ∧
  (page_mark y = PHYSICAL_PAGE_STATE_ALLOCATED_HEAD ↔ in_use rs0 chain y).
Proof.
  intros Hp. pose proof (proj1 Hp) as Hal. pose proof (selected_span y) as Hs. pose proof (chain_mark y) as Hc. pose proof (virgin_mark y) as Hv.
  pose proof (bump_virgin l1 l2 g _ _ Hok0 reserve_room stop_aligned y) as Hbv. pose proof (bo_handed _ _ _ _ _ Hb y) as Hch.
  assert (Hcase : (y ∈ virgin_pages rs0 ∧ ¬ handed rs0 y) ∨ (y ∉ virgin_pages rs0 ∧ handed rs0 y)).
  { destruct Hp as (_ & h & Hh & Hy). destruct (decide (h.(g_next) ≤ y)).
    - left. assert (y ∈ virgin_pages rs0) by (apply elem_of_virgin; [apply Hok0|]; split; [done|]; exists h; split; [done|lia]).
      split; [done|]. by apply (virgin_not_handed rs0 _ y Hok0).
    - right. assert (handed rs0 y) by (split; [done|]; exists h; split; [done|lia]). split; [|done]. intros Hy'. by apply (virgin_not_handed rs0 _ y Hok0). }
  assert (Hsp : g.(g_next) ≤ y < stop → ¬ handed rs0 y) by (intros Hs'; apply (next_not_handed l1 g l2 _ y Hok0); pose proof reserve_room; lia).
  unfold page_mark, paint, in_use. repeat case_decide; split_and!; split; intros; try done; tauto.
Qed.

Lemma pages_count : Z.of_nat (length chain) + Z.of_nat (length (virgin_pages rs)) = allocator.(a_available_pages) - pages ∧
  allocator.(a_available_pages) ≤ allocator.(a_total_pages).
Proof.
  pose proof (bump_virgin_length l1 l2 g stop _ Hok0 reserve_room stop_aligned) as Hv. pose proof (bo_available _ _ _ _ _ Hb) as Ha.
  replace (stop - g.(g_next)) with (pages * PAGE) in Hv by lia. rewrite Z.div_mul in Hv by done. split; [lia|].
  pose proof (total_pages access mem allocator rs0 chain Hb). pose proof (chain_length_le access mem allocator rs0 chain Hb). lia.
Qed.
Lemma mark_pages_run :
  ∃ m, mark_pages access mem allocator A g.(g_next) (pages * PAGE) pages = Done (Some (set_metadata A m)) ∧
    Z.of_nat (length m) = A.(a_total_pages) ∧ marks rs m page_mark.
Proof.
  pose proof reserved_ok as Hok. pose proof selected_ok as Hg. pose proof (rk_bounds _ Hg) as Hgb. pose proof reserve_room as Hroom'.
  pose proof pages_count as [Hcount Hle]. pose proof (ro_total _ _ Hok0) as Htot. unfold mark_pages.
  destruct (mark_all_run A rs Hok (Z.to_nat A.(a_total_pages)) 0 A.(a_metadata) Hlen ltac:(lia) ltac:(lia) ltac:(intros; lia)) as (m1 & E1 & L1 & M1).
  replace (set_metadata A A.(a_metadata)) with A in E1 by (by destruct A). rewrite E1. run. unfold span_fuel.
  replace ((stop - g.(g_next)) / PAGE) with pages by (replace (stop - g.(g_next)) with (pages * PAGE) by lia; by rewrite Z.div_mul). rewrite u64_small by mlia.
  destruct (mark_span_run A rs post Er Ec Hok Hfin false PHYSICAL_PAGE_STATE_INTERNAL stop (Z.to_nat pages) m1 _ g.(g_next) 0 L1 M1 (rk_next _ Hg)) as (m2 & E2 & L2 & M2);
    [lia|lia|lia| |].
  { intros y [Hy1 Hy2]%selected_span. split; [|done]. apply bump_pages; [done|]. split; [done|]. exists g. split; [set_solver|lia]. }
  rewrite E2. run. pose proof (chain_length_le access mem allocator rs0 chain Hb). pose proof (total_pages access mem allocator rs0 chain Hb). rewrite (bo_head _ _ _ _ _ Hb).
  destruct (mark_recycled_run A rs post Er Ec Hok Hfin access mem allocator rs0 chain Hb ltac:(intros y Hy; by apply bump_pages)
    chain [] m2 _ 0 (S (Z.to_nat allocator.(a_total_pages))) eq_refl L2 M2) as (m3 & E3 & L3 & M3); [|lia|lia|].
  { intros y Hy. unfold paint. rewrite decide_False; [done|]. by apply chain_mark. }
  rewrite E3. run. cbn [a_range_count set_metadata]. rewrite Ec, Nat2Z.id.
  destruct (mark_virgin_run A rs post Er Ec Hok Hfin rs [] m3 _ 0 eq_refl L3 M3) as (m4 & E4 & L4 & M4).
  { intros y Hy. unfold paint. rewrite decide_False by (intros Hc; by apply (chain_mark y)). rewrite decide_False; [done|]. by apply virgin_mark. }
  cbn [length] in E4. rewrite E4. run. rewrite !Z.add_0_l, Hcount, u64_small by mlia. rewrite decide_False by tauto. by exists m4.
Qed.
End pages.

(** ** The audit never traps on a well-formed allocator

    [physical_page_allocator_audit] walks every tree and every free list and
    compares its sums with the counters. *)
Import PhysicalPage PageBoot PageFinal.

(** ** The reserved region *)
(** The roots tile the ranges, and the reserved pages are the ones of the region
    that starts at page [f]. *)
Record arena (a : physical_page_allocator) (σ : states) (rs : list physical_page_range) (f : Z) : Prop := {
  ar_ranges : ∃ post, a.(a_ranges) = rs ++ post;
  ar_count : a.(a_range_count) = Z.of_nat (length rs);
  ar_ok : ranges_ok rs a.(a_total_pages);
  ar_roots : a.(a_roots) = cut_all 0 rs 0;
  ar_pages : 0 < a.(a_metadata_pages);
  ar_place : ∃ g, g ∈ rs ∧ aligned a.(a_metadata_address) ∧ g.(g_base) ≤ a.(a_metadata_address) ∧
    a.(a_metadata_address) + a.(a_metadata_pages) * PAGE ≤ g.(g_end) ∧ f = flat g a.(a_metadata_address);
  ar_internal p o z : is_block a p o → leaf (σ p o) → p ≤ z < p + 2 ^ o →
    (σ p o = BUDDY_INTERNAL ↔ f ≤ z < f + a.(a_metadata_pages));
}.

(** What [laid] leaves no choice about. *)
Lemma laid_fun roots : ∀ first nodes t t' n n', laid first nodes roots t n → laid first nodes roots t' n' → t = t' ∧ n = n'.
Proof.
  induction roots as [|r roots IH]; intros first nodes t t' n n'; simpl; [intros [? ?] [? ?]; by simplify_eq|].
  intros (_ & _ & H1) (_ & _ & H2). by apply (IH _ _ _ _ _ _ H1).
Qed.
(** Page numbers follow addresses. *)
Lemma index_mono rs total x y z w : ranges_ok rs total → index_of rs x z → index_of rs y w → z < w → x + PAGE ≤ y.
Proof.
  intros [Hf Hs Hl _] (Hax & g & Hg & Hx & ->) (Hay & h & Hh & Hy & ->) Hlt.
  pose proof Hg as [i Hi]%list_elem_of_lookup_1. pose proof Hh as [j Hj]%list_elem_of_lookup_1.
  pose proof Hf as Hf'. rewrite Forall_forall in Hf'. destruct (flat_bounds g x (Hf' g Hg) Hax Hx) as [Bx Ex]. destruct (flat_bounds h y (Hf' h Hh) Hay Hy) as [By Ey].
  destruct (Nat.lt_trichotomy i j) as [Hij|[->|Hij]].
  - pose proof (StronglySorted_ordered _ rs i j g h Hs Hij Hi Hj). pose proof (aligned_exact _ _ (rk_end _ (Hf' g Hg)) Hax). simpl in *. plia.
  - assert (g = h) as -> by congruence. plia.
  - pose proof (ranges_laid_apart total rs _ _ _ _ _ Hf Hl Hj Hi Hij). lia.
Qed.

Lemma laid_index a rs r z : laid_out a rs → r ∈ a.(a_roots) → holds_page r z → index_of rs (page_address r z) z.
Proof.
  intros Hlo Hr Hz. destruct (laid_out_root a rs r Hlo Hr) as (i & g & Hi & _ & Hg & [_ _ Ho Hm Hb He Hp]). unfold holds_page in Hz. unfold bytes_of in *.
  assert (Hal : aligned r.(r_address)) by (by apply (mod_mul_page _ r.(r_order)); [lia|]).
  assert (aligned (page_address r z)) by (by apply page_aligned_add). split; [done|]. exists g. unfold page_address. split; [by eapply list_elem_of_lookup_2|]. split; [plia|].
  unfold flat. rewrite minus_add. lia.
Qed.

Section arena.
Context (a : physical_page_allocator) (σ : states) (rs : list physical_page_range) (f : Z).
Hypothesis Hgeo : geometry a.
Hypothesis Har : arena a σ rs f.
#[local] Notation meta := a.(a_metadata_address).
#[local] Notation pages := a.(a_metadata_pages).

Lemma arena_laid : laid_out a rs.
Proof.
  destruct Har as [H1 H2 H3 H4 _ _ _]. split; try done; try apply Hgeo.
  destruct (cut_all_spec a.(a_total_pages) rs 0 0 0 (ro_each _ _ H3) (ro_sorted _ _ H3) (ro_laid _ _ H3)) as (L1 & _). cbv zeta in L1. rewrite <-H4 in L1.
  pose proof (geo_laid _ Hgeo) as L2. destruct (laid_fun _ _ _ _ _ _ _ L1 L2) as [_ <-]. lia.
Qed.
Lemma arena_index r z : r ∈ a.(a_roots) → holds_page r z → index_of rs (page_address r z) z.
Proof. apply laid_index, arena_laid. Qed.
Lemma arena_bounds : 0 ≤ meta ∧ 0 ≤ f ∧ f + pages ≤ a.(a_total_pages) ∧ meta + pages * PAGE ≤ UINT64_MAX.
Proof.
  destruct (ar_place _ _ _ _ Har) as (g & Hg & Hal & Hb & He & ->). pose proof (ar_pages _ _ _ _ Har). pose proof (ar_ok _ _ _ _ Har) as [Hf _ Hl _].
  pose proof Hg as [i Hi]%list_elem_of_lookup_1. destruct (ranges_laid_lookup _ _ _ _ _ Hf Hl Hi) as [B1 B2]. rewrite Forall_forall in Hf. pose proof (Hf g Hg) as Hgk.
  pose proof (rk_bounds _ Hgk). destruct (range_pages g Hgk) as (E & _). pose proof (aligned_exact _ _ Hal (rk_base _ Hgk)) as Ex. unfold flat. split_and!; plia.
Qed.
Lemma region_index k : 0 ≤ k < pages → index_of rs (meta + k * PAGE) (f + k).
Proof.
  intros Hk. destruct (ar_place _ _ _ _ Har) as (g & Hg & Hal & Hb & He & ->). split; [by apply page_aligned_add|]. exists g. split; [done|]. split; [plia|].
  unfold flat. rewrite minus_add. lia.
Qed.
Lemma arena_region r z : r ∈ a.(a_roots) → holds_page r z →
  (z < f → page_address r z + PAGE ≤ meta) ∧ (f ≤ z < f + pages → page_address r z = meta + (z - f) * PAGE) ∧
  (f + pages ≤ z → meta + pages * PAGE ≤ page_address r z).
Proof.
  intros Hr Hz. pose proof (arena_index r z Hr Hz) as Hx. pose proof (ar_ok _ _ _ _ Har) as Hok. pose proof (ar_pages _ _ _ _ Har). split_and!; intros Hc.
  - pose proof (region_index 0 ltac:(lia)) as Hy. rewrite Z.mul_0_l, !Z.add_0_r in Hy. by apply (index_mono rs _ _ _ z f Hok Hx Hy).
  - pose proof (region_index (z - f) ltac:(lia)) as Hy. replace (f + (z - f)) with z in Hy by lia. exact (index_inj rs _ Hok _ _ z Hx Hy).
  - pose proof (region_index (pages - 1) ltac:(lia)) as Hy. pose proof (index_mono rs _ _ _ _ z Hok Hy Hx ltac:(lia)). plia.
Qed.
End arena.

(** ** The sums *)
Definition blocks_pages (L : list (Z * Z)) : Z := foldr (λ b n, 2 ^ b.2 + n) 0 L.
Definition count_order (o : Z) (L : list (Z * Z)) : nat := length (filter (λ b, b.2 = o) L).
Record audited (s : audit_sums) (F I : list (Z * Z)) : Prop := {
  au_free : s.(s_free) = blocks_pages F;
  au_internal : s.(s_internal) = blocks_pages I;
  au_length : length s.(s_by_order) = 32%nat;
  au_by_order o : 0 ≤ o ≤ 31 → s.(s_by_order) !! Z.to_nat o = Some (Z.of_nat (count_order o F));
}.
Lemma blocks_pages_app L M : blocks_pages (L ++ M) = blocks_pages L + blocks_pages M.
Proof. unfold blocks_pages. induction L as [|b L IH]; [done|]. cbn [app foldr]. rewrite IH. lia. Qed.
Lemma blocks_pages_nonneg L : 0 ≤ blocks_pages L.
Proof. unfold blocks_pages. induction L as [|b L IH]; [done|]. cbn [foldr]. pose proof (Z.pow_nonneg 2 b.2). lia. Qed.
Lemma count_order_app o L M : count_order o (L ++ M) = (count_order o L + count_order o M)%nat.
Proof. unfold count_order. by rewrite filter_app, length_app. Qed.
Lemma count_order_one o p o' : count_order o [(p, o')] = if decide (o' = o) then 1%nat else 0%nat.
Proof. unfold count_order. rewrite filter_cons. cbn [snd]. by destruct (decide _). Qed.
Lemma count_order_le o L : (∀ b, b ∈ L → 0 ≤ b.2) → Z.of_nat (count_order o L) ≤ blocks_pages L.
Proof.
  unfold count_order. induction L as [|b L IH]; intros HL; [done|]. change (blocks_pages (b :: L)) with (2 ^ b.2 + blocks_pages L).
  pose proof (pow_pos b.2 (HL b ltac:(left))). specialize (IH ltac:(intros; apply HL; by right)). rewrite filter_cons. destruct (decide _); cbn [length]; lia.
Qed.

(** ** One tree *)
Section tree.
Context (a : physical_page_allocator) (σ : states) (fl : free_lists) (rs : list physical_page_range) (f : Z).
Hypothesis Hheap : heap a σ fl [].
Hypothesis Har : arena a σ rs f.
#[local] Notation Hgeo := (heap_geo _ _ _ _ Hheap).
#[local] Notation Hshape := (heap_shape _ _ _ _ Hheap).
#[local] Notation meta := a.(a_metadata_address).
#[local] Notation pages := a.(a_metadata_pages).

(** What the sums so far leave room for. *)
Definition sums_below (F I : list (Z * Z)) (page : Z) : Prop :=
  blocks_pages F + blocks_pages I ≤ page ∧ ∀ b, b ∈ F → 0 ≤ b.2.
Definition one (s p o : Z) : list (Z * Z) := if decide (σ p o = s) then [(p, o)] else [].

Lemma sums_below_one F I p o : 0 ≤ o → sums_below F I p → sums_below (F ++ one BUDDY_FREE p o) (I ++ one BUDDY_INTERNAL p o) (p + 2 ^ o).
Proof.
  intros Ho [Hle HF]. unfold one. pose proof (pow_pos o Ho). split.
  - rewrite !blocks_pages_app. destruct (decide (σ p o = BUDDY_FREE)) as [E|]; [rewrite E, decide_False by done|destruct (decide _)]; simpl; lia.
  - intros b [Hb|Hb]%elem_of_app; [by apply HF|]. destruct (decide _); [apply list_elem_of_singleton in Hb as ->; done|by apply elem_of_nil in Hb].
Qed.
Lemma audit_leaf_run r n p o s F I b : r ∈ a.(a_roots) → block r p o → leaf (σ p o) → audited s F I → sums_below F I p →
  ∃ s', audit_leaf a r (mk_frame n p o b) (σ p o) s = Done s' ∧ audited s' (F ++ one BUDDY_FREE p o) (I ++ one BUDDY_INTERNAL p o).
Proof.
  intros Hr Hb Hl Hau [Hle HF]. assert (Hib : is_block a p o) by (by exists r). destruct (is_block_bounds a p o Hgeo Hib) as (Ho & Hp0 & Hpt & _ & Hpow & _).
  pose proof (geo_total _ Hgeo) as Htot. pose proof (arena_bounds a σ rs f Har) as (Hm0 & Hf0 & Hft & Hmx). pose proof (ar_pages _ _ _ _ Har) as Hpg.
  destruct (heap_meta _ _ _ _ Hheap p o Hib Hl (not_elem_of_nil _)) as (x & Hx & Hok).
  destruct (page_address_bounds a r p o Hgeo Hr Hb) as (_ & _ & Ha0 & Hamax). pose proof (block_inside _ _ _ Hb) as Hin.
  pose proof (blocks_pages_nonneg F). pose proof (blocks_pages_nonneg I).
  unfold audit_leaf. cbn [f_node f_page f_order]. rewrite (head_valid_ok a r n p o (σ p o) x Hx Hok Hl). run. rewrite (trap_if_ok (true = false)) by done. run.
  rewrite (owner_address_block a r n p o _ Hgeo Hr Hb). rewrite order_page_count_pow, !shift_page by lia. rewrite (u64_small (pages * PAGE)) by pmlia.
  assert (Hreg : ∀ z, p ≤ z < p + 2 ^ o → holds_page r z) by (intros z Hz; unfold holds_page; lia).
  assert (Hadd : ∀ z, page_address r z = page_address r p + (z - p) * PAGE) by (intros z; unfold page_address; ring).
  unfold one. destruct (decide (σ p o = BUDDY_FREE)) as [Ef|Hnf]; [|destruct (decide (σ p o = BUDDY_INTERNAL)) as [Ei|Hni]].
  - rewrite Ef, (decide_False (P := BUDDY_FREE = BUDDY_INTERNAL)), app_nil_r by done.
    rewrite (free_head_valid_ok a σ fl []); [|done|done|by apply (heap_members _ _ _ _ Hheap); [|split_and!; [..|apply not_elem_of_nil]]]. run.
    rewrite (trap_if_ok (true = false)) by done. run. pose proof (count_order_le o F HF). rewrite (aread_ok _ _ _ (au_by_order _ _ _ Hau o Ho)). run.
    rewrite awrite_ok by (rewrite (au_length _ _ _ Hau); lia). run. rewrite (au_free _ _ _ Hau), !u64_small by mlia. eexists. split; [done|].
    destruct Hau as [U1 U2 U3 U4]. split; cbn [s_free s_internal s_by_order].
    + rewrite blocks_pages_app. simpl. lia.
    + done.
    + by rewrite length_insert.
    + intros o' Ho'. rewrite count_order_app, count_order_one. destruct (decide (o = o')) as [<-|Hne].
      * rewrite list_lookup_insert_eq by lia. simpl. f_equal. lia.
      * rewrite list_lookup_insert_ne by lia. rewrite U4 by done. simpl. f_equal. lia.
  - rewrite app_nil_r. destruct (arena_region a σ rs f Hgeo Har r p Hr ltac:(apply Hreg; lia)) as (_ & R1 & _).
    destruct (arena_region a σ rs f Hgeo Har r (p + 2 ^ o - 1) Hr ltac:(apply Hreg; lia)) as (_ & R2 & _).
    pose proof (proj1 (ar_internal _ _ _ _ Har p o p Hib Hl ltac:(lia)) Ei). pose proof (proj1 (ar_internal _ _ _ _ Har p o (p + 2 ^ o - 1) Hib Hl ltac:(lia)) Ei).
    specialize (R1 ltac:(lia)). specialize (R2 ltac:(lia)). rewrite trap_if_ok by plia. run. rewrite (au_internal _ _ _ Hau), u64_small by mlia.
    eexists. split; [done|]. destruct Hau as [U1 U2 U3 U4]. split; try done. cbn [s_internal]. rewrite blocks_pages_app. simpl. lia.
  - rewrite !app_nil_r. rewrite (u64_small (meta + _)), (u64_small (page_address r p + _)) by pmlia. exists s. split; [|done].
    assert (Hout : ∀ z, p ≤ z < p + 2 ^ o → ¬ f ≤ z < f + pages) by (intros z Hz Hc; by apply Hni, (ar_internal _ _ _ _ Har p o z Hib Hl Hz)).
    destruct (decide (p < f)) as [Hlt|Hge].
    + destruct (arena_region a σ rs f Hgeo Har r (p + 2 ^ o - 1) Hr ltac:(apply Hreg; lia)) as (R1 & _).
      assert (p + 2 ^ o ≤ f) by (destruct (decide (p + 2 ^ o ≤ f)); [done|]; exfalso; apply (Hout f); lia). specialize (R1 ltac:(lia)). rewrite Hadd in R1.
      rewrite trap_if_ok by plia. done.
    + destruct (arena_region a σ rs f Hgeo Har r p Hr ltac:(apply Hreg; lia)) as (_ & _ & R1). specialize (R1 ltac:(pose proof (Hout p ltac:(lia)); lia)).
      rewrite trap_if_ok by plia. done.
Qed.

(** The nodes of a subtree: one round each. *)
Fixpoint rounds (n : nat) : nat := match n with O => 1 | S n => S (rounds n + rounds n) end.
Lemma rounds_pow n : Z.of_nat (rounds n) = 2 * 2 ^ Z.of_nat n - 1.
Proof. induction n as [|n IH]; [done|]. cbn [rounds]. rewrite (Nat2Z.inj_succ n), Z.pow_succ_r by lia. lia. Qed.

(** The frame of a block, and what the round of a node with halves pushes. *)
Definition frame (r : physical_page_root) (p : Z) (n : nat) (active : bool) : audit_frame := mk_frame (node r p (Z.of_nat n)) p (Z.of_nat n) active.
Lemma audit_push r p n active : r ∈ a.(a_roots) → block r p (Z.of_nat (S n)) →
  mk_frame (2 * node r p (Z.of_nat (S n)) + 1) p (Z.of_nat (S n) - 1) active = frame r p n active ∧
  mk_frame (2 * node r p (Z.of_nat (S n)) + 2) (u32 (p + u32 (order_page_count (Z.of_nat (S n) - 1)))) (Z.of_nat (S n) - 1) active = frame r (p + 2 ^ Z.of_nat n) n active.
Proof.
  intros Hr Hb. replace (Z.of_nat (S n) - 1) with (Z.of_nat n) by lia. rewrite Nat2Z.inj_succ, <-Z.add_1_r in *. unfold frame.
  destruct (node_children r p (Z.of_nat n) ltac:(lia) Hb) as [-> ->]. by rewrite (right_page a r p (Z.of_nat n) Hgeo Hr ltac:(lia) Hb).
Qed.
Lemma audit_idle r n : ∀ p stack rest s, r ∈ a.(a_roots) → block r p (Z.of_nat n) → σ p (Z.of_nat n) = BUDDY_INACTIVE →
  (length stack + n ≤ PHYSICAL_PAGE_MAX_ORDER)%nat →
  audit_stack (rounds n + rest) a r (frame r p n false :: stack) s = audit_stack rest a r stack s.
Proof.
  induction n as [|n IH]; intros p stack rest s Hr Hb Hs Hlen; cbn [rounds Nat.add audit_stack]; cbn [frame f_node f_active f_order f_page];
    rewrite (tree_get_is a σ Hgeo (heap_tree _ _ _ _ Hheap) r p _ Hr Hb); run; rewrite Hs; rewrite (trap_if_ok (_ ∨ _)) by (unfold BUDDY_INACTIVE, BUDDY_SPLIT; intuition (done || lia)); run;
    rewrite (decide_False (P := false = true ∧ _)) by (by intros [? _]); run.
  - rewrite decide_False by (intros H; by apply H). done.
  - rewrite decide_True by lia. rewrite trap_if_ok by lia. run. cbn [andb]. destruct (audit_push r p n false Hr Hb) as [-> ->].
    rewrite Nat2Z.inj_succ, <-Z.add_1_r in *. destruct (block_children r p (Z.of_nat n) ltac:(lia) Hb) as [HL HR].
    pose proof (shape_halves _ _ Hshape r p (Z.of_nat n) Hr ltac:(lia) Hb) as Hv. rewrite decide_False in Hv by (by rewrite Hs). destruct Hv as [V1 V2].
    rewrite <-Nat.add_assoc, IH by (try done; simpl; lia). rewrite IH by (try done; lia). done.
Qed.
(** A leaf above its idle halves. *)
Lemma audit_below r n p stack rest s : r ∈ a.(a_roots) → block r p (Z.of_nat n) → leaf (σ p (Z.of_nat n)) → (length stack + n ≤ PHYSICAL_PAGE_MAX_ORDER)%nat →
  (if decide (Z.of_nat n ≠ 0) then
     _ ← trap_if (Z.of_nat PHYSICAL_PAGE_MAX_ORDER + 1 < Z.of_nat (length stack) + 2);
     audit_stack (pred (rounds n) + rest) a r
       (mk_frame (2 * node r p (Z.of_nat n) + 1) p (Z.of_nat n - 1) false ::
        mk_frame (2 * node r p (Z.of_nat n) + 2) (u32 (p + u32 (order_page_count (Z.of_nat n - 1)))) (Z.of_nat n - 1) false :: stack) s
   else audit_stack (pred (rounds n) + rest) a r stack s) = audit_stack rest a r stack s.
Proof.
  intros Hr Hb Hl Hlen. destruct n as [|n]; [by rewrite decide_False by (intros H; by apply H)|]. rewrite decide_True by lia. rewrite trap_if_ok by lia. run.
  destruct (audit_push r p n false Hr Hb) as [-> ->]. rewrite Nat2Z.inj_succ, <-Z.add_1_r in *. destruct (block_children r p (Z.of_nat n) ltac:(lia) Hb) as [HL HR].
  pose proof (shape_halves _ _ Hshape r p (Z.of_nat n) Hr ltac:(lia) Hb) as Hv. rewrite decide_False in Hv by (by apply leaf_other). destruct Hv as [V1 V2].
  cbn [rounds pred]. rewrite <-Nat.add_assoc, audit_idle by (try done; simpl; lia). by rewrite audit_idle by (try done; lia).
Qed.
Lemma audit_tree_run r n : ∀ p stack rest s F I, r ∈ a.(a_roots) → block r p (Z.of_nat n) → σ p (Z.of_nat n) ≠ BUDDY_INACTIVE →
  (length stack + n ≤ PHYSICAL_PAGE_MAX_ORDER)%nat → audited s F I → sums_below F I p →
  let F' := F ++ state_leaves BUDDY_FREE n σ p in let I' := I ++ state_leaves BUDDY_INTERNAL n σ p in
  ∃ s', audit_stack (rounds n + rest) a r (frame r p n true :: stack) s = audit_stack rest a r stack s' ∧
    audited s' F' I' ∧ sums_below F' I' (p + 2 ^ Z.of_nat n).
Proof.
  induction n as [|n IH]; intros p stack rest s F I Hr Hb Hact Hlen Hau Hsum; cbv zeta; pose proof (shape_range _ _ Hshape r p _ Hr Hb) as Hrange;
    cbn [rounds Nat.add audit_stack state_leaves]; cbn [frame f_node f_active f_order f_page];
    rewrite (tree_get_is a σ Hgeo (heap_tree _ _ _ _ Hheap) r p _ Hr Hb); run.
  - pose proof (shape_bottom _ _ Hshape r p Hr Hb) as Hbot. assert (Hl : leaf (σ p (Z.of_nat 0))) by (by apply (not_split_leaf a.(a_roots) σ r p _ Hshape)).
    rewrite (trap_if_ok (_ ∨ _)) by (unfold BUDDY_INACTIVE, BUDDY_SPLIT, BUDDY_FREE, BUDDY_INTERNAL in *; intuition (done || lia)). run.
    rewrite !(decide_False (P := σ p (Z.of_nat 0) = BUDDY_SPLIT)) by done. rewrite decide_True by done.
    destruct (audit_leaf_run r (node r p 0) p 0 s F I true Hr Hb Hl Hau Hsum) as (s' & E & Hau'). change (mk_frame (node r p 0) p 0 true) with (frame r p 0 true) in E. change (Z.of_nat 0) with 0 in *. rewrite E. run.
    rewrite decide_False by (intros H; by apply H). exists s'. split; [done|]. split; [done|]. apply sums_below_one; [lia|done].
  - destruct (decide (σ p (Z.of_nat (S n)) = BUDDY_SPLIT)) as [Hsp|Hsp].
    + rewrite (trap_if_ok (_ ∨ _)) by (unfold BUDDY_INACTIVE, BUDDY_SPLIT, BUDDY_FREE, BUDDY_INTERNAL in *; intuition (done || lia)). run.
      rewrite decide_False by tauto. run. rewrite decide_True by lia. rewrite trap_if_ok by lia. run. rewrite bool_decide_true by done. cbn [andb].
      destruct (audit_push r p n true Hr Hb) as [-> ->]. rewrite Nat2Z.inj_succ, <-Z.add_1_r in *. destruct (block_children r p (Z.of_nat n) ltac:(lia) Hb) as [HL HR].
      pose proof (shape_halves _ _ Hshape r p (Z.of_nat n) Hr ltac:(lia) Hb) as Hv. rewrite decide_True in Hv by done. destruct Hv as [V1 V2]. rewrite <-Nat.add_assoc.
      destruct (IH p (frame r (p + 2 ^ Z.of_nat n) n true :: stack) (rounds n + rest)%nat s F I Hr HL V1 ltac:(simpl; lia) Hau Hsum) as (s1 & E1 & Hau1 & Hsum1).
      destruct (IH (p + 2 ^ Z.of_nat n) stack rest s1 _ _ Hr HR V2 ltac:(lia) Hau1 Hsum1) as (s2 & E2 & Hau2 & Hsum2).
      exists s2. rewrite E1, E2. split; [done|]. rewrite <-!app_assoc in *. split; [done|]. rewrite Z.pow_add_r by lia. by replace (p + 2 ^ Z.of_nat n * 2 ^ 1) with (p + 2 ^ Z.of_nat n + 2 ^ Z.of_nat n) by lia.
    + assert (Hl : leaf (σ p (Z.of_nat (S n)))) by (by apply (not_split_leaf a.(a_roots) σ r p _ Hshape)).
      rewrite (trap_if_ok (_ ∨ _)) by (unfold BUDDY_INACTIVE, BUDDY_SPLIT, BUDDY_FREE, BUDDY_INTERNAL in *; intuition (done || lia)). run.
      rewrite decide_True by done. destruct (audit_leaf_run r (node r p (Z.of_nat (S n))) p (Z.of_nat (S n)) s F I true Hr Hb Hl Hau Hsum) as (s' & E & Hau').
      fold (frame r p (S n) true) in E. rewrite E. run. rewrite bool_decide_false by done. cbn [andb]. pose proof (audit_below r (S n) p stack rest s' Hr Hb Hl Hlen) as Eb. cbn [rounds pred] in Eb. rewrite Eb.
      exists s'. split; [done|]. split; [done|]. apply sums_below_one; [lia|done].
Qed.

(** ** All roots *)
Lemma all_leaves_app s L M : all_leaves s σ (L ++ M) = all_leaves s σ L ++ all_leaves s σ M.
Proof. unfold all_leaves. by rewrite map_app, concat_app. Qed.
Lemma cut_some g index offset : range_ok g → cut (range_fuel g) g index g.(g_base) offset ≠ [].
Proof.
  intros Hg. destruct (range_pages g Hg) as (_ & Hp & Ef). pose proof (rk_some _ Hg). destruct (range_fuel g) as [|n] eqn:E; [lia|]. cbn [cut]. by rewrite decide_True.
Qed.
Lemma audit_root_run r s F I : r ∈ a.(a_roots) → audited s F I → sums_below F I r.(first_page) →
  let F' := F ++ all_leaves BUDDY_FREE σ [r] in let I' := I ++ all_leaves BUDDY_INTERNAL σ [r] in
  ∃ s', audit_stack (Z.to_nat (2 * order_page_count r.(r_order) - 1)) a r [mk_frame 0 r.(first_page) r.(r_order) true] s = Done s' ∧
    audited s' F' I' ∧ sums_below F' I' (r.(first_page) + 2 ^ r.(r_order)).
Proof.
  intros Hr Hau Hsum. pose proof (root_order a Hgeo r Hr) as Ho. pose proof (shape_top _ _ Hshape r Hr) as Ht. unfold all_leaves. cbn [map concat]. rewrite !app_nil_r.
  set (n := Z.to_nat r.(r_order)). assert (En : Z.of_nat n = r.(r_order)) by (unfold n; lia).
  assert (Hb : block r r.(first_page) (Z.of_nat n)) by (rewrite En; apply block_top; lia). rewrite <-En in Ht.
  destruct (audit_tree_run r n r.(first_page) [] 0 s F I Hr Hb Ht ltac:(unfold n, PHYSICAL_PAGE_MAX_ORDER; simpl; lia) Hau Hsum) as (s' & E & Hau' & Hsum').
  exists s'. rewrite En in Hsum'. split; [|done]. unfold frame in E. rewrite En, node_top, Nat.add_0_r in E. rewrite order_page_count_pow, <-En, <-rounds_pow, Nat2Z.id, En by lia. done.
Qed.
Lemma nodes_bound : a.(a_tree_nodes) ≤ 2 * a.(a_total_pages).
Proof.
  pose proof (arena_laid a σ rs f Hgeo Har) as Hlo. rewrite (lo_nodes _ _ Hlo), (lo_roots _ _ Hlo). pose proof (ar_ok _ _ _ _ Har) as [H1 H2 H3 _].
  destruct (cut_all_spec _ rs 0 0 0 H1 H2 H3) as (_ & _ & _ & _ & ?). cbv zeta in *. lia.
Qed.

(** The place after a range: the next one, unless it is the last. *)
Section range.
Context (i : nat) (g h : physical_page_range) (tail : list physical_page_root).
Hypothesis Hg : range_ok g.
Hypothesis Hi : a.(a_ranges) !! i = Some g.
Hypothesis Hh : tail ≠ [] → a.(a_ranges) !! S i = Some h ∧ Z.of_nat (S i) < a.(a_range_count).
Definition after (covered nodes : Z) : audit_place :=
  if decide (tail = []) then mk_place covered nodes (Z.of_nat i) g.(g_end) else mk_place covered nodes (Z.of_nat (S i)) h.(g_base).

Lemma audit_cut fuel : ∀ pa offset s F I, aligned pa → g.(g_base) ≤ pa < g.(g_end) → pages_left g pa ≤ Z.of_nat fuel →
  (∀ r, r ∈ cut fuel g (Z.of_nat i) pa offset → r ∈ a.(a_roots)) → audited s F I → sums_below F I (g.(g_first_page_index) + (pa - g.(g_base)) / PAGE) →
  let L := cut fuel g (Z.of_nat i) pa offset in let F' := F ++ all_leaves BUDDY_FREE σ L in let I' := I ++ all_leaves BUDDY_INTERNAL σ L in
  ∃ s', audit_roots a (L ++ tail) (mk_place (g.(g_first_page_index) + (pa - g.(g_base)) / PAGE) offset (Z.of_nat i) pa) s =
          audit_roots a tail (after (g.(g_first_page_index) + pages_in g) (offset + node_count L)) s' ∧
    audited s' F' I' ∧ sums_below F' I' (g.(g_first_page_index) + pages_in g).
Proof.
  pose proof (rk_bounds _ Hg) as Hgb. pose proof (geo_total _ Hgeo) as Htot. pose proof nodes_bound as Hnb.
  induction fuel as [|fuel IH]; intros pa offset s F I Hal Hpa Hfu Hsub Hau Hsum; pose proof (left_exact g Hg pa Hal) as Hex; [exfalso; plia|].
  cbn [cut] in *. fold (pages_left g pa) in *. rewrite decide_True in * by lia. cbv zeta in *.
  destruct (extent_step g Hg pa Hal Hpa) as (Ho & Hm & Hend & Hal' & Hpow & _). set (o := largest_fitting_order pa (pages_left g pa)) in *.
  set (L := cut fuel g (Z.of_nat i) (pa + 2 ^ o * PAGE) (offset + (2 * 2 ^ o - 1))) in *.
  set (r := mk_root pa offset (g.(g_first_page_index) + (pa - g.(g_base)) / PAGE) o (Z.of_nat i) 0) in *.
  assert (Hr : r ∈ a.(a_roots)) by (apply Hsub; left). destruct (root_bounds a Hgeo r Hr) as (B1 & B2 & B3 & B4). simpl in B1, B2, B3, B4.
  assert (Hv : root_valid a r = Done true) by (pose proof (geo_valid _ Hgeo) as Hv; rewrite Forall_forall in Hv; by apply Hv).
  cbn [app audit_roots]. rewrite Hv. run. rewrite (trap_if_ok (_ ∨ _)) by (cbn; intuition congruence). run.
  destruct (audit_root_run r s F I Hr Hau Hsum) as (s1 & E1 & Hau1 & Hsum1). rewrite E1. run. cbn [r_order p_address p_covered p_nodes p_range r].
  rewrite order_page_count_pow, shift_page by lia. rewrite Nat2Z.id, (aread_ok _ _ _ Hi). run. rewrite !u64_small by pmlia.
  change (node_count (r :: L)) with (2 * 2 ^ o - 1 + node_count L). change (all_leaves BUDDY_FREE σ (r :: L)) with (state_leaves BUDDY_FREE (Z.to_nat o) σ r.(first_page) ++ all_leaves BUDDY_FREE σ L).
  change (all_leaves BUDDY_INTERNAL σ (r :: L)) with (state_leaves BUDDY_INTERNAL (Z.to_nat o) σ r.(first_page) ++ all_leaves BUDDY_INTERNAL σ L).
  unfold all_leaves in Hau1, Hsum1. cbn [map concat] in Hau1, Hsum1. rewrite !app_nil_r in Hau1, Hsum1. cbn [r_order r_first_page_index r] in Hsum1.
  destruct (decide (pa + 2 ^ o * PAGE = g.(g_end))) as [Elast|Hmore].
  - assert (EL : L = []) by (unfold L; destruct fuel; [done|]; cbn [cut]; by rewrite decide_False by lia). rewrite EL in *. cbn [app].
    pose proof (left_total g Hg pa Hal) as Hlt. assert (Epg : pages_left g pa = 2 ^ o) by plia. exists s1. unfold after. change (all_leaves BUDDY_FREE σ []) with (@nil (Z * Z)).
    change (all_leaves BUDDY_INTERNAL σ []) with (@nil (Z * Z)). rewrite !app_nil_r.
    replace (g.(g_first_page_index) + (pa - g.(g_base)) / PAGE + 2 ^ o) with (g.(g_first_page_index) + pages_in g) in * by lia. split; [|done]. rewrite Z.add_0_r.
    destruct (decide (tail = [])) as [->|Hne]; [by rewrite decide_False by tauto; rewrite Elast|]. rewrite decide_True by done.
    destruct (Hh Hne) as [Hh1 Hh2]. rewrite trap_if_ok by lia. run. replace (Z.to_nat (Z.of_nat i + 1)) with (S i) by lia. rewrite (aread_ok _ _ _ Hh1). run.
    by replace (Z.of_nat i + 1) with (Z.of_nat (S i)) by lia.
  - rewrite decide_False by tauto. run. replace (g.(g_first_page_index) + (pa - g.(g_base)) / PAGE + 2 ^ o) with (g.(g_first_page_index) + (pa + 2 ^ o * PAGE - g.(g_base)) / PAGE) in * by (rewrite minus_add; lia).
    destruct (IH (pa + 2 ^ o * PAGE) (offset + (2 * 2 ^ o - 1)) s1 _ _ Hal' ltac:(plia) ltac:(rewrite left_step; lia) ltac:(intros r' Hr'; apply Hsub; by right) Hau1 Hsum1) as (s2 & E2 & Hau2 & Hsum2).
    exists s2. fold L in E2, Hau2, Hsum2. rewrite E2, Z.add_assoc. rewrite <-!app_assoc in *. done.
Qed.
End range.
Lemma audit_ranges l : ∀ pre g offset first s F I, rs = pre ++ g :: l → (∀ r, r ∈ cut_all (Z.of_nat (length pre)) (g :: l) offset → r ∈ a.(a_roots)) →
  ranges_laid first (g :: l) a.(a_total_pages) → audited s F I → sums_below F I first →
  let L := cut_all (Z.of_nat (length pre)) (g :: l) offset in
  ∃ s' h, audit_roots a L (mk_place first offset (Z.of_nat (length pre)) g.(g_base)) s =
      Done (mk_place a.(a_total_pages) (offset + node_count L) (Z.of_nat (length rs) - 1) h.(g_end), s') ∧ last rs = Some h ∧
    audited s' (F ++ all_leaves BUDDY_FREE σ L) (I ++ all_leaves BUDDY_INTERNAL σ L).
Proof.
  destruct (ar_ranges _ _ _ _ Har) as [post Er]. pose proof (ar_ok _ _ _ _ Har) as [Hf _ _ _]. pose proof (ar_count _ _ _ _ Har) as Ec.
  induction l as [|g' l IH]; intros pre g offset first s F I E Hsub Hl Hau Hsum; cbv zeta; destruct Hl as [Ef Hl];
    (assert (Hg : range_ok g) by (rewrite Forall_forall in Hf; apply Hf; rewrite E; set_solver)); destruct (range_pages g Hg) as (_ & Hp1 & Efu); pose proof (rk_bounds _ Hg); pose proof (rk_some _ Hg);
    (assert (Hi : a.(a_ranges) !! length pre = Some g) by (rewrite Er, E, <-app_assoc; by rewrite lookup_app_r, Nat.sub_diag by lia)).
  - cbn [cut_all] in *. rewrite app_nil_r in *. simpl in Hl.
    destruct (audit_cut (length pre) g g [] Hg Hi ltac:(done) (range_fuel g) g.(g_base) offset s F I (rk_base _ Hg) ltac:(lia) ltac:(change (pages_left g g.(g_base)) with (pages_in g); lia) Hsub Hau)
      as (s' & E' & Hau' & _); [rewrite Z.sub_diag; change (0 / PAGE) with 0; by rewrite Z.add_0_r, Ef|].
    rewrite Z.sub_diag in E'. change (0 / PAGE) with 0 in E'. rewrite app_nil_r, Z.add_0_r, Ef, Hl in E'. exists s', g. rewrite E'. unfold after. rewrite decide_True by done. split_and!; [|by rewrite E, last_snoc|done].
    cbn [audit_roots]. rewrite E, length_app. simpl. do 3 f_equal. lia.
  - set (C := cut (range_fuel g) g (Z.of_nat (length pre)) g.(g_base) offset). set (M := cut_all (Z.of_nat (length pre) + 1) (g' :: l) (offset + node_count C)).
    change (cut_all (Z.of_nat (length pre)) (g :: g' :: l) offset) with (C ++ M) in *.
    destruct (audit_cut (length pre) g g' M Hg Hi) with (fuel := range_fuel g) (pa := g.(g_base)) (offset := offset) (s := s) (F := F) (I := I) as (s1 & E1 & Hau1 & Hsum1);
      [|by apply rk_base|lia|change (pages_left g g.(g_base)) with (pages_in g); lia|intros r Hr; apply Hsub; set_solver|done|rewrite Z.sub_diag; change (0 / PAGE) with 0; by rewrite Z.add_0_r, Ef|].
    { intros _. split; [|rewrite Ec, E, length_app; simpl; lia]. rewrite Er, E, <-app_assoc. rewrite lookup_app_r by lia. by replace (S (length pre) - length pre)%nat with 1%nat by lia. }
    assert (HM : M ≠ []).
    { assert (Hg' : range_ok g') by (rewrite Forall_forall in Hf; apply Hf; rewrite E; set_solver). intros [E' _]%app_eq_nil. by apply (cut_some g' _ _ Hg' E'). }
    fold C in E1, Hau1, Hsum1. rewrite Z.sub_diag in E1. change (0 / PAGE) with 0 in E1. rewrite Z.add_0_r, Ef in E1. rewrite Ef in Hsum1. unfold after in E1. rewrite decide_False in E1 by done.
    assert (El : Z.of_nat (length (pre ++ [g])) = Z.of_nat (length pre) + 1) by (rewrite length_app; simpl; lia).
    destruct (IH (pre ++ [g]) g' (offset + node_count C) (first + pages_in g) s1 (F ++ all_leaves BUDDY_FREE σ C) (I ++ all_leaves BUDDY_INTERNAL σ C)) as (s2 & h & E2 & Hlast & Hau2);
      [by rewrite <-app_assoc|rewrite El; intros r Hr; apply Hsub, elem_of_app; by right|done|done|done|].
    exists s2, h. rewrite El in E2, Hau2. fold M in E2, Hau2. replace (Z.of_nat (S (length pre))) with (Z.of_nat (length pre) + 1) in E1 by lia. rewrite E1, E2.
    rewrite <-!app_assoc in Hau2. split_and!; [by rewrite node_count_app, Z.add_assoc|done|by rewrite !all_leaves_app].
Qed.

(** ** The lists *)
Lemma audit_list_run o l : ∀ pre n fuel, 0 ≤ o ≤ 31 → fl o = pre ++ l → n + Z.of_nat (length l) = Z.of_nat (length (fl o)) → (length l < fuel)%nat →
  audit_list fuel a o (Z.of_nat (length (fl o))) (hd NONE l) (default NONE (last pre)) n = Done (Z.of_nat (length (fl o))).
Proof.
  induction l as [|p l IH]; intros pre n fuel Ho E Hn Hfu; cbn [hd length] in *.
  { destruct fuel; cbn [audit_list]; rewrite decide_False by tauto; f_equal; lia. }
  destruct fuel as [|fuel]; [lia|]. cbn [audit_list]. assert (Hp : p ∈ fl o) by (rewrite E; set_solver). destruct (member_block a σ fl [] Hheap o p Ho Hp) as (Hb & _).
  destruct (is_block_bounds a p o Hgeo Hb) as (_ & _ & _ & Hpn & _). rewrite decide_True by (unfold PHYSICAL_PAGE_INDEX_NONE; mlia).
  rewrite trap_if_ok by lia. run. rewrite (free_head_plain_ok a σ fl [] Hheap o p Ho Hp). run. rewrite (trap_if_ok (true = false)) by done. run.
  pose proof (heap_linked _ _ _ _ Hheap o Ho) as Hl. rewrite E in Hl. apply seg_app in Hl as [_ [(x & Hx & Hnx & Hpx) _]].
  rewrite (load_metadata_ok _ _ _ Hx). run. rewrite trap_if_ok by tauto. run. rewrite Hnx.
  pose proof (IH (pre ++ [p]) (n + 1) fuel Ho ltac:(by rewrite <-app_assoc) ltac:(lia) ltac:(lia)) as IH'. by rewrite last_snoc in IH'.
Qed.
Lemma audit_lists_run n : ∀ o by_order, 0 ≤ o → o + Z.of_nat n = 32 → (∀ o, 0 ≤ o ≤ 31 → by_order !! Z.to_nat o = Some (Z.of_nat (length (fl o)))) →
  audit_lists n a o by_order = Done tt.
Proof.
  induction n as [|n IH]; intros o by_order Ho Hn Hby; cbn [audit_lists]; [done|]. rewrite (aread_ok _ _ _ (Hby o ltac:(lia))). run.
  rewrite (aread_ok _ _ _ (heap_heads _ _ _ _ Hheap o ltac:(lia))). run.
  pose proof (audit_list_run o (fl o) [] 0 (S (Z.to_nat (Z.of_nat (length (fl o))))) ltac:(lia) eq_refl ltac:(lia) ltac:(lia)) as E. cbn [last default] in E. rewrite E. run.
  rewrite trap_if_ok by tauto. run. apply IH; [lia|lia|done].
Qed.

(** ** The sums are the counters *)
#[local] Notation free_blocks := (all_leaves BUDDY_FREE σ a.(a_roots)).
#[local] Notation internal_blocks := (all_leaves BUDDY_INTERNAL σ a.(a_roots)).
Lemma leaves_blocks s : leaf s → NoDup (all_leaves s σ a.(a_roots)) ∧ ∀ z k, (z, k) ∈ all_leaves s σ a.(a_roots) ↔ is_block a z k ∧ σ z k = s.
Proof.
  intros Hs. destruct (all_leaves_spec a σ a.(a_roots) s Hs Hgeo Hshape ltac:(done) (roots_nodup a Hgeo)) as [H1 H2]. split; [done|]. intros z k. rewrite H2. unfold is_block. naive_solver.
Qed.
Lemma free_count o : 0 ≤ o ≤ 31 → count_order o free_blocks = length (fl o).
Proof.
  intros Ho. destruct (leaves_blocks BUDDY_FREE ltac:(by left)) as [Hnd Hin]. unfold count_order. rewrite <-(length_fmap (λ p, (p, o)) (fl o)). apply Permutation_length.
  apply NoDup_Permutation; [by apply NoDup_filter|apply NoDup_fmap_2; [intros p q ?; by simplify_eq|by apply (heap_nodup _ _ _ _ Hheap)]|].
  intros [z k]. rewrite list_elem_of_filter, Hin, list_elem_of_fmap. cbn [snd]. split.
  - intros [-> [Hb Hf]]. exists z. split; [done|]. apply (heap_members _ _ _ _ Hheap); [done|]. split_and!; [done|done|apply not_elem_of_nil].
  - intros (p & [= -> ->] & Hp). destruct (member_block a σ fl [] Hheap o p Ho Hp) as (? & ? & _). done.
Qed.
End tree.

(** Pages by order. *)
Fixpoint weigh (n : nat) (c : Z → nat) : Z := match n with O => 0 | S n => weigh n c + Z.of_nat (c (Z.of_nat n)) * 2 ^ Z.of_nat n end.
Lemma weigh_ext n c c' : (∀ o, 0 ≤ o < Z.of_nat n → c o = c' o) → weigh n c = weigh n c'.
Proof. induction n as [|n IH]; intros He; [done|]. cbn [weigh]. rewrite IH by (intros; apply He; lia). by rewrite He by lia. Qed.
Lemma weigh_step n c k : 0 ≤ k < Z.of_nat n → weigh n (λ o, if decide (k = o) then S (c o) else c o) = 2 ^ k + weigh n c.
Proof.
  induction n as [|n IH]; intros Hk; [lia|]. cbn [weigh]. destruct (decide (k = Z.of_nat n)) as [->|Hne].
  - rewrite (weigh_ext n _ c); [lia|]. intros o Ho. by rewrite decide_False by lia.
  - rewrite IH by lia. lia.
Qed.
Lemma blocks_pages_weigh n L : (∀ b, b ∈ L → 0 ≤ b.2 < Z.of_nat n) → blocks_pages L = weigh n (λ o, count_order o L).
Proof.
  induction L as [|b L IH]; intros HL.
  - induction n as [|n IHn]; [done|]. cbn [weigh]. rewrite <-IHn; [done|]. intros b []%elem_of_nil.
  - change (blocks_pages (b :: L)) with (2 ^ b.2 + blocks_pages L). rewrite IH by (intros; apply HL; by right). rewrite <-weigh_step by (apply HL; left).
    apply weigh_ext. intros o Ho. unfold count_order. rewrite filter_cons. by destruct (decide _).
Qed.
Lemma pages_below_weigh n fl : pages_below n fl = weigh n (λ o, length (fl o)).
Proof. induction n as [|n IH]; [done|]. cbn [pages_below weigh]. by rewrite IH. Qed.

(** Pages one by one. *)
Definition each_page (L : list (Z * Z)) : list Z := concat (map (λ b, seqZ b.1 (2 ^ b.2)) L).
Lemma elem_of_each L z : z ∈ each_page L ↔ ∃ p o, (p, o) ∈ L ∧ p ≤ z < p + 2 ^ o.
Proof.
  unfold each_page. rewrite list_elem_of_In, in_concat. split.
  - intros (l & Hl & Hz). apply in_map_iff in Hl as ([p o] & <- & Hb). apply list_elem_of_In, elem_of_seqZ in Hz. exists p, o. by rewrite list_elem_of_In.
  - intros (p & o & Hb & Hz). exists (seqZ p (2 ^ o)). split; [by apply (in_map (λ b, seqZ b.1 (2 ^ b.2)) L (p, o)), list_elem_of_In|by apply list_elem_of_In, elem_of_seqZ].
Qed.
Lemma each_length L : (∀ b, b ∈ L → 0 ≤ b.2) → Z.of_nat (length (each_page L)) = blocks_pages L.
Proof.
  unfold each_page. induction L as [|b L IH]; intros HL; [done|]. cbn [map concat]. rewrite length_app, length_seqZ, Nat2Z.inj_add, IH by (intros; apply HL; by right).
  pose proof (pow_pos b.2 (HL b ltac:(left))). change (blocks_pages (b :: L)) with (2 ^ b.2 + blocks_pages L). lia.
Qed.
Lemma each_nodup L : NoDup L → (∀ p o q k, (p, o) ∈ L → (q, k) ∈ L → (p = q ∧ o = k) ∨ p + 2 ^ o ≤ q ∨ q + 2 ^ k ≤ p) → NoDup (each_page L).
Proof.
  induction L as [|[p o] L IH]; intros Hnd Hap; [constructor|]. apply NoDup_cons in Hnd as [Hnin Hnd]. change (each_page ((p, o) :: L)) with (seqZ p (2 ^ o) ++ each_page L).
  apply NoDup_app. split_and!; [apply NoDup_seqZ| |apply IH; [done|]; intros; apply Hap; by right]. intros z Hz (q & k & Hq & Hzq)%elem_of_each. apply elem_of_seqZ in Hz.
  destruct (Hap p o q k ltac:(left) ltac:(by right)) as [[-> ->]|?]; [done|lia].
Qed.

Section free.
Context (a : physical_page_allocator) (σ : states) (fl : free_lists).
Hypothesis Hheap : heap a σ fl [].
#[local] Notation Hgeo := (heap_geo _ _ _ _ Hheap).
Lemma leaves_orders s b : leaf s → b ∈ all_leaves s σ a.(a_roots) → 0 ≤ b.2 < 32.
Proof.
  intros Hs Hb. destruct b as [p o]. apply (leaves_blocks a σ fl Hheap s Hs) in Hb as [Hb _]. destruct (is_block_bounds a p o Hgeo Hb). simpl. lia.
Qed.
Lemma free_sum : blocks_pages (all_leaves BUDDY_FREE σ a.(a_roots)) = free_pages fl.
Proof.
  unfold free_pages. rewrite pages_below_weigh, (blocks_pages_weigh 32) by (intros b Hb; by apply (leaves_orders BUDDY_FREE); [left|]).
  apply weigh_ext. intros o Ho. apply (free_count a σ fl Hheap). lia.
Qed.
End free.

(** ** The whole audit *)
Section audit.
Context (a : physical_page_allocator) (σ : states) (fl : free_lists) (rs : list physical_page_range) (f : Z).
Hypothesis Hpool : pool a σ fl.
Hypothesis Har : arena a σ rs f.
#[local] Notation Hheap := (pool_heap _ _ _ Hpool).
#[local] Notation Hgeo := (heap_geo _ _ _ _ Hheap).
#[local] Notation Hshape := (heap_shape _ _ _ _ Hheap).

Lemma internal_sum : blocks_pages (all_leaves BUDDY_INTERNAL σ a.(a_roots)) = a.(a_metadata_pages).
Proof.
  assert (Hl : leaf BUDDY_INTERNAL) by (right; by right). destruct (leaves_blocks a σ fl Hheap BUDDY_INTERNAL Hl) as [Hnd Hin].
  pose proof (ar_pages _ _ _ _ Har). pose proof (arena_bounds a σ rs f Har) as (_ & Hf0 & Hft & _).
  rewrite <-each_length by (intros b Hb; by apply (leaves_orders a σ fl Hheap BUDDY_INTERNAL)).
  rewrite (Permutation_length (l' := seqZ f a.(a_metadata_pages))); [rewrite length_seqZ; lia|]. apply NoDup_Permutation; [|apply NoDup_seqZ|].
  - apply each_nodup; [done|]. intros p o q k [Hp Ep]%Hin [Hq Eq]%Hin. apply (leaf_apart a σ p o q k Hgeo Hshape Hp Hq); by rewrite ?Ep, ?Eq.
  - intros z. rewrite elem_of_each, elem_of_seqZ. split.
    + intros (p & o & [Hp Ep]%Hin & Hz). apply (ar_internal _ _ _ _ Har p o z Hp); [by rewrite Ep|done|done].
    + intros Hz. destruct (page_owner a σ Hgeo (heap_tree _ _ _ _ Hheap) Hshape z ltac:(lia)) as (r & p & o & Hr & Hb & Hlf & Hzp). exists p, o. split; [|done].
      apply Hin. assert (Hib : is_block a p o) by (by exists r). split; [done|]. by apply (ar_internal _ _ _ _ Har p o z).
Qed.
Lemma arena_some : ∃ g l, rs = g :: l.
Proof. destruct (ar_place _ _ _ _ Har) as (g & Hg & _). destruct rs as [|h l]; [by apply elem_of_nil in Hg|by exists h, l]. Qed.
Lemma arena_roots_some : a.(a_roots) ≠ [].
Proof.
  destruct arena_some as (g & l & E). rewrite (ar_roots _ _ _ _ Har), E. cbn [cut_all]. intros [E' _]%app_eq_nil. pose proof (ro_each _ _ (ar_ok _ _ _ _ Har)) as Hf.
  rewrite E in Hf. apply Forall_cons in Hf as [Hg _]. by apply (cut_some g _ _ Hg E').
Qed.
Lemma audit_run : physical_page_allocator_audit a = Done PHYSICAL_PAGE_STATUS_OK.
Proof.
  destruct arena_some as (g & l & E). pose proof arena_roots_some as Hne. pose proof (arena_laid a σ rs f Hgeo Har) as Hlo. destruct (ar_ranges _ _ _ _ Har) as [post Er].
  pose proof (arena_bounds a σ rs f Har) as (_ & Hf0 & Hft & _). pose proof (ar_pages _ _ _ _ Har) as Hpg. pose proof (geo_metadata _ Hgeo) as Hm. pose proof (geo_count _ Hgeo) as Hrc.
  assert (Htr : a.(a_tree) ≠ []).
  { destruct a.(a_roots) as [|r roots] eqn:Eroots; [done|]. assert (Hr : r ∈ a.(a_roots)) by (rewrite Eroots; left). pose proof (root_bounds a Hgeo r Hr). pose proof (root_order a Hgeo r Hr).
    pose proof (pow_pos r.(r_order) ltac:(lia)). pose proof (packed_length _ _ (geo_packed _ Hgeo)) as Hpl. intros Et. rewrite Et in Hpl. simpl in Hpl. Z.to_euclidean_division_equations; lia. }
  unfold physical_page_allocator_audit. rewrite decide_False by (by rewrite (pool_initialized a σ fl Hpool)). rewrite decide_False by (by rewrite (pool_finalized _ _ _ Hpool)).
  rewrite trap_if_ok by (intros [?|[?|[Em|E0]]]; [done|done|rewrite Em in Hm; simpl in Hm; lia|rewrite Hrc in E0; destruct a.(a_roots); [done|simpl in E0; lia]]). run.
  rewrite (aread_ok a.(a_ranges) 0 g) by (by rewrite Er, E). run.
  destruct (audit_ranges a σ fl rs f Hheap Har l [] g 0 0 (mk_sums 0 (replicate (S PHYSICAL_PAGE_MAX_ORDER) 0) 0) [] []) as (s & h & Ea & Hlast & Hau).
  - done.
  - cbn [length]. change (Z.of_nat 0) with 0. by rewrite <-E, <-(ar_roots _ _ _ _ Har).
  - rewrite <-E. apply (ro_laid _ _ (ar_ok _ _ _ _ Har)).
  - split; try done. intros o Ho. cbn [s_by_order]. apply lookup_replicate. split; [done|]. unfold PHYSICAL_PAGE_MAX_ORDER. lia.
  - split; [done|]. intros b []%elem_of_nil.
  - cbn [length] in Ea, Hau. change (Z.of_nat 0) with 0 in Ea, Hau. rewrite <-E, <-(ar_roots _ _ _ _ Har), Z.add_0_l in Ea. rewrite <-E, <-(ar_roots _ _ _ _ Har) in Hau. cbn [app] in Hau. rewrite Ea. run.
    cbn [p_range p_covered p_nodes p_address]. assert (Hlen : (0 < length rs)%nat) by (rewrite E; simpl; lia).
    rewrite (aread_ok a.(a_ranges) _ h). 2:{ rewrite last_lookup in Hlast. rewrite Er, lookup_app_l by lia. by replace (Z.to_nat (Z.of_nat (length rs) - 1)) with (pred (length rs)) by lia. }
    run. rewrite (au_free _ _ _ Hau), (au_internal _ _ _ Hau), (free_sum a σ fl Hheap), internal_sum, <-(pool_available _ _ _ Hpool), (ar_count _ _ _ _ Har), (lo_nodes _ _ Hlo). rewrite (trap_if_ok (_ ∨ _)) by (intuition (try congruence; lia)). run.
    rewrite (audit_lists_run a σ fl rs f Hheap Har) by (try done; intros o Ho; rewrite (au_by_order _ _ _ Hau o Ho), (free_count a σ fl Hheap o Ho); done). done.
Qed.
End audit.
