(* ===== verification/PageFinalTheory.v ===== *)
(** * [physical_page_allocator_finalize]

    The buddy system that the call builds satisfies the invariant of the
    allocator, passes its own audit, and starts with exactly the pages free that
    were free before, less the ones it reserves for itself. *)
From S2P Require Import Prelude BootMemory PhysicalPage PageBoot PageFinal PageSpec PageStateTheory PageFreeTheory PageAllocTheory PageReleaseTheory PageRefine PageBuildTheory PageLayTheory PageBootTheory PageAuditTheory.
Import PhysicalPage PageBoot PageFinal PageSpec.
#[local] Open Scope Z_scope.

(** [set_finalized] changes neither the trees nor the lists. *)
Lemma heap_finalized a σ fl es n : heap a σ fl es → heap (set_finalized a n) σ fl es.
Proof. intros [[] ? ? ? ? ? ? ? ?]. by split. Qed.

(** ** The reserved size *)
Definition extents (rs : list physical_page_range) : list physical_page_root := cut_all 0 rs 0.
Definition reserve_bytes (rs : list physical_page_range) (total : Z) : Z :=
  total * SIZEOF_METADATA + Z.of_nat (length (extents rs)) * SIZEOF_ROOT + tree_bytes (node_count (extents rs)).
Definition reserve_pages (rs : list physical_page_range) (total : Z) : Z := (reserve_bytes rs total + BOAROS_PAGE_MASK) / PAGE.

Section reserve.
Context (access : Z → Z) (mem : memory) (a : physical_page_allocator) (rs : list physical_page_range) (chain : list Z).
Hypothesis Hb : boot_ok access mem a rs chain.
#[local] Notation Hok := (bo_ok _ _ _ _ _ Hb).
#[local] Notation pages := (reserve_pages rs a.(a_total_pages)).

Lemma extents_bounds : 0 ≤ a.(a_total_pages) ≤ UINT32_MAX ∧ Z.of_nat (length (extents rs)) ≤ a.(a_total_pages) ∧ 0 ≤ node_count (extents rs) ≤ 2 * a.(a_total_pages).
Proof.
  destruct (cut_all_spec _ rs 0 0 0 (ro_each _ _ Hok) (ro_sorted _ _ Hok) (ro_laid _ _ Hok)) as (_ & _ & _ & H1 & H2). cbv zeta in *. fold (extents rs) in *.
  pose proof (ro_total _ _ Hok). lia.
Qed.
Lemma count_roots_all : count_roots (Z.to_nat a.(a_range_count)) a 0 0 0 = Done (node_count (extents rs), Z.of_nat (length (extents rs))).
Proof.
  destruct (bo_ranges _ _ _ _ _ Hb) as [post Er]. rewrite (bo_count _ _ _ _ _ Hb), Nat2Z.id.
  exact (count_roots_run a.(a_total_pages) a rs [] post 0 0 0 Er (ro_each _ _ Hok) (ro_laid _ _ Hok) ltac:(lia) (ro_total _ _ Hok) ltac:(lia) ltac:(lia)).
Qed.
Lemma pages_bounds : 0 ≤ pages ≤ UINT32_MAX.
Proof.
  pose proof extents_bounds. unfold reserve_pages, reserve_bytes, tree_bytes, SIZEOF_METADATA, SIZEOF_ROOT, BOAROS_PAGE_MASK, BOAROS_PAGE_SIZE.
  assert (0 ≤ (node_count (extents rs) * 3 + 7) / 8 ≤ node_count (extents rs) + 7) by (Z.to_euclidean_division_equations; lia).
  assert (0 ≤ a.(a_total_pages) * 16 + Z.of_nat (length (extents rs)) * 32 + (node_count (extents rs) * 3 + 7) / 8 ≤ 60 * UINT32_MAX) by mlia.
  split; [apply Z.div_pos; lia|]. apply Z.div_le_upper_bound; [done|]. mlia.
Qed.
Lemma reserve_size_run : reserve_size a (node_count (extents rs)) (Z.of_nat (length (extents rs))) =
  if decide (pages = 0 ∨ a.(a_available_pages) < pages) then inl PHYSICAL_PAGE_STATUS_EMPTY else inr pages.
Proof.
  pose proof extents_bounds as (H1 & H2 & H3). pose proof pages_bounds as H4. unfold reserve_size. fold SIZEOF_METADATA.
  assert (H5 : 0 ≤ tree_bytes (node_count (extents rs)) ≤ node_count (extents rs) + 7) by (unfold tree_bytes; Z.to_euclidean_division_equations; lia).
  rewrite (decide_False (P := UINT32_MAX < _ ∨ _)) by (unfold SIZEOF_ROOT, SIZEOF_METADATA; change ((UINT64_MAX - 7) / 3) with 6148914691236517202; change (UINT64_MAX / 32) with 576460752303423487; change (UINT64_MAX / 16) with 1152921504606846975; mlia).
  rewrite (decide_False (P := UINT64_MAX - _ < _ ∨ _)) by (unfold SIZEOF_ROOT, SIZEOF_METADATA, BOAROS_PAGE_MASK, BOAROS_PAGE_SIZE; mlia).
  rewrite shiftr_page. fold (reserve_bytes rs a.(a_total_pages)). fold (reserve_pages rs a.(a_total_pages)).
  assert (Hs : pages ≤ Z.shiftr UINT64_MAX BOAROS_PAGE_SHIFT) by (change (Z.shiftr UINT64_MAX BOAROS_PAGE_SHIFT) with 4503599627370495; mlia).
  destruct (decide (pages = 0 ∨ a.(a_available_pages) < pages)); [by rewrite decide_True by tauto|by rewrite decide_False by (intros [?|[?|?]]; [tauto..|lia])].
Qed.

(** The first range with room. *)
Definition roomy (g : physical_page_range) : Prop := pages * PAGE ≤ g.(g_end) - g.(g_next).
#[export] Instance roomy_dec g : Decision (roomy g).
Proof. unfold roomy. apply _. Defined.
Lemma select_range_run l : ∀ pre, rs = pre ++ l →
  (Forall (λ g, ¬ roomy g) l ∧ select_range (length l) a (length pre) (pages * PAGE) = Done None) ∨
  ∃ l1 g l2, l = l1 ++ g :: l2 ∧ Forall (λ g, ¬ roomy g) l1 ∧ roomy g ∧
    select_range (length l) a (length pre) (pages * PAGE) = Done (Some ((length pre + length l1)%nat, g.(g_next))).
Proof.
  destruct (bo_ranges _ _ _ _ _ Hb) as [post Er]. induction l as [|g l IH]; intros pre E; [left; split; [constructor|done]|]. cbn [select_range length].
  assert (Hg : range_ok g) by (pose proof (ro_each _ _ Hok) as Hf; rewrite Forall_forall in Hf; apply Hf; rewrite E; set_solver). pose proof (rk_bounds _ Hg).
  assert (Hi : a.(a_ranges) !! length pre = Some g) by (rewrite Er, E, <-app_assoc; by rewrite lookup_app_r, Nat.sub_diag by lia).
  rewrite (aread_ok _ _ _ Hi). run. destruct (decide (roomy g)) as [Hr|Hr].
  - right. exists [], g, l. rewrite decide_True by (split; [lia|done]). split_and!; try done. by rewrite Nat.add_0_r.
  - rewrite decide_False by (intros [_ ?]; done). destruct (IH (pre ++ [g]) ltac:(by rewrite <-app_assoc)) as [[Hf Es]|(l1 & h & l2 & -> & Hf & Hh & Es)]; replace (length (pre ++ [g])) with (S (length pre)) in Es by (rewrite length_app; simpl; lia).
    + left. split; [by constructor|done].
    + right. exists (g :: l1), h, l2. split_and!; [done|by constructor|done|]. rewrite Es. do 3 f_equal. simpl. lia.
Qed.
End reserve.

(** ** The arrays *)
Lemma cut_bump fuel g n index : ∀ pa offset, cut fuel (bump g n) index pa offset = cut fuel g index pa offset.
Proof. induction fuel as [|fuel IH]; intros pa offset; cbn [cut]; [done|]. cbn [g_end g_base g_first_page_index bump]. destruct (decide _); [by rewrite IH|done]. Qed.
Lemma extents_bump l1 g n l2 : extents (l1 ++ bump g n :: l2) = extents (l1 ++ g :: l2).
Proof.
  unfold extents. generalize 0 at 1 3. generalize 0. induction l1 as [|h l1 IH]; intros offset index; cbn [app cut_all].
  - change (range_fuel (bump g n)) with (range_fuel g). cbn [g_base bump]. by rewrite cut_bump.
  - by rewrite IH.
Qed.
Lemma zero_state n i : state_at (replicate n 0) i = 0.
Proof.
  assert (Hb : ∀ k, tree_bit (replicate n 0) k = false).
  { intros k. unfold tree_bit. destruct (replicate n 0 !! Z.to_nat (k / 8)) as [b|] eqn:E; [|by rewrite Z.testbit_0_l]. apply lookup_replicate in E as [-> _]. by rewrite Z.testbit_0_l. }
  unfold state_at. by rewrite !Hb.
Qed.
Lemma zero_packed nodes : 0 ≤ nodes ≤ 2 * UINT32_MAX → packed (replicate (Z.to_nat (tree_bytes nodes)) 0) nodes.
Proof.
  intros Hn. split.
  - apply Forall_forall. intros b Hb. apply elem_of_replicate in Hb as [-> _]. done.
  - rewrite length_replicate. unfold tree_bytes. pose proof (Z.div_pos (nodes * 3 + 7) 8). lia.
  - mlia.
Qed.

(** ** The structure *)
Section finish.
Context (access : Z → Z) (mem : memory) (allocator : physical_page_allocator).
Context (l1 l2 post : list physical_page_range) (g : physical_page_range) (chain : list Z).
Context (junk : physical_page_metadata) (junk_root : physical_page_root).
#[local] Notation rs0 := (l1 ++ g :: l2).
#[local] Notation total := allocator.(a_total_pages).
#[local] Notation pages := (reserve_pages rs0 total).
#[local] Notation stop := (g.(g_next) + pages * PAGE).
#[local] Notation rs := (l1 ++ bump g stop :: l2).
#[local] Notation mark := (page_mark l1 l2 g chain pages).
Hypothesis Hb : boot_ok access mem allocator rs0 chain.
Hypothesis Er0 : allocator.(a_ranges) = rs0 ++ post.
Hypothesis Hpages : 0 < pages.
Hypothesis Hroom : stop ≤ g.(g_end).

Definition arrays : physical_page_allocator :=
  set_arrays allocator g.(g_next) pages (replicate (Z.to_nat total) junk) (replicate (length (extents rs0)) junk_root)
    (replicate (Z.to_nat (tree_bytes (node_count (extents rs0)))) 0) (node_count (extents rs0)) (u32 (Z.of_nat (length (extents rs0)))) (rs ++ post).

Lemma finish_ranges : ranges_ok rs total.
Proof. exact (reserved_ok access mem allocator allocator l1 l2 g chain pages Hb Hpages Hroom eq_refl). Qed.
Lemma mark_arrays : ∃ m, mark_pages access mem allocator arrays g.(g_next) (pages * PAGE) pages = Done (Some (set_metadata arrays m)) ∧
  Z.of_nat (length m) = total ∧ marks rs m mark.
Proof.
  pose proof (extents_bounds _ _ _ _ _ Hb) as (Ht & _).
  apply (mark_pages_run access mem allocator arrays l1 l2 post g chain pages Hb Hpages Hroom); try done.
  - simpl. rewrite (bo_count _ _ _ _ _ Hb), !length_app. done.
  - apply Hb.
  - simpl. rewrite length_replicate. lia.
Qed.

Section marked.
Context (m : heads).
Hypothesis Hlen : Z.of_nat (length m) = total.
Hypothesis Hmarks : marks rs m mark.
Definition laid_arrays : physical_page_allocator := set_roots (set_metadata arrays m) (extents rs).

Lemma laid_arrays_ok : laid_out laid_arrays rs.
Proof.
  pose proof (extents_bounds _ _ _ _ _ Hb) as (Ht & Hl & Hn). split; simpl.
  - by exists post.
  - rewrite (bo_count _ _ _ _ _ Hb), !length_app. done.
  - apply finish_ranges.
  - done.
  - rewrite extents_bump, u32_small by mlia. done.
  - by rewrite extents_bump.
  - apply zero_packed. lia.
  - done.
  - done.
Qed.
Lemma lay_arrays : lay_roots (Z.to_nat arrays.(a_range_count)) (set_metadata arrays m) 0 arrays.(a_roots) 0 0 = Done (extents rs).
Proof.
  simpl. rewrite (bo_count _ _ _ _ _ Hb), Nat2Z.id. replace (length rs0) with (length rs) by (by rewrite !length_app). pose proof finish_ranges as [H1 _ H2 H3].
  apply (lay_roots_run total (set_metadata arrays m) rs [] post [] _ 0 0 eq_refl H1 H2); try done. rewrite length_replicate. cbn [length]. change (Z.of_nat 0) with 0. fold (extents rs). by rewrite extents_bump.
Qed.

Definition page_state (z : Z) : Z := match mget m z with Some h => build_leaf h.(m_state) | None => BUDDY_FREE end.
Lemma page_state_leaf z : leaf (page_state z).
Proof. unfold page_state, build_leaf. destruct (mget m z); [|by left]. repeat destruct (decide _); [by left|right; by right|right; by left]. Qed.
Lemma page_state_at x z : index_of rs x z → page_state z = build_leaf (mark x).
Proof. intros Hx. destruct (Hmarks x z Hx) as (h & Hh & E). unfold page_state. by rewrite Hh, E. Qed.
Lemma build_mark x : page_of rs0 x →
  (build_leaf (mark x) = BUDDY_INTERNAL ↔ g.(g_next) ≤ x < stop) ∧
  (build_leaf (mark x) = BUDDY_FREE ↔ ¬ in_use rs0 chain x ∧ ¬ g.(g_next) ≤ x < stop) ∧
  (build_leaf (mark x) = BUDDY_ALLOCATED ↔ in_use rs0 chain x).
Proof.
  intros Hx. destruct (page_mark_spec access mem allocator allocator l1 l2 g chain pages Hb Hpages Hroom x Hx) as (<- & <- & <-).
  unfold page_mark, paint, build_leaf. repeat (destruct (decide (x ∈ _)); try done).
Qed.
(** The published structure. *)
Lemma finish_run : ∃ t m1 m2 h σ fl,
  build_all (extents rs) laid_arrays = Done (set_both laid_arrays t m1) ∧
  publish_all (extents rs) (set_both laid_arrays t m1) 0 = Done (Some (upd laid_arrays t m2 h, free_pages fl)) ∧
  heap (upd laid_arrays t m2 h) σ fl [] ∧ coalesced laid_arrays σ [] ∧
  (∀ p o, is_block laid_arrays p o → σ p o = BUDDY_ALLOCATED → ∃ x, mget m2 p = Some x ∧ o = 0 ∧ x.(m_reference_count) = 1) ∧
  ∀ r p o z, r ∈ extents rs → block r p o → leaf (σ p o) → p ≤ z < p + 2 ^ o → page_state z = σ p o.
Proof.
  apply (build_publish_run laid_arrays page_state (laid_out_geometry _ _ laid_arrays_ok) page_state_leaf).
  - intros r p o _ _. apply zero_state.
  - intros z Hz. simpl in *. destruct (lookup_lt_is_Some_2 m (Z.to_nat z) ltac:(lia)) as [x Hx]. exists x. split; [done|]. unfold page_state, mget. by rewrite Hx.
  - intros o Ho. simpl. apply (lookup_replicate_2 (S PHYSICAL_PAGE_MAX_ORDER)). unfold PHYSICAL_PAGE_MAX_ORDER. lia.
Qed.

(** *** What it holds *)
Section built.
Context (t h : list Z) (m2 : heads) (σ : states) (fl : free_lists).
#[local] Notation B := (upd laid_arrays t m2 h).
Hypothesis Hheap : heap B σ fl [].
Hypothesis Hco : coalesced laid_arrays σ [].
Hypothesis Hsingle : ∀ p o, is_block laid_arrays p o → σ p o = BUDDY_ALLOCATED → ∃ x, mget m2 p = Some x ∧ o = 0 ∧ x.(m_reference_count) = 1.
Hypothesis Hstate : ∀ r p o z, r ∈ extents rs → block r p o → leaf (σ p o) → p ≤ z < p + 2 ^ o → page_state z = σ p o.
#[local] Notation Hgeo := (heap_geo _ _ _ _ Hheap).

Lemma built_laid : laid_out B rs.
Proof. destruct laid_arrays_ok as [H1 H2 H3 H4 H5 H6 _ _ _]. split; try done; apply Hgeo. Qed.
Lemma leaf_page r p o z : r ∈ extents rs → block r p o → leaf (σ p o) → p ≤ z < p + 2 ^ o →
  index_of rs (page_address r z) z ∧ page_of rs0 (page_address r z) ∧ build_leaf (mark (page_address r z)) = σ p o.
Proof.
  intros Hr Hbl Hl Hz. pose proof (block_inside _ _ _ Hbl). assert (Hx : index_of rs (page_address r z) z) by (apply (laid_index B rs r z built_laid Hr); unfold holds_page; lia).
  split; [done|]. split; [apply (bump_pages l1 l2 g stop); [split; [plia|done]|by eapply index_page]|]. by rewrite <-(page_state_at _ z Hx), <-(Hstate r p o z Hr Hbl Hl Hz).
Qed.
(** The leaf of a page. *)
Lemma page_leaf x : page_of rs0 x →
  ∃ r z p o, r ∈ extents rs ∧ holds_page r z ∧ block r p o ∧ leaf (σ p o) ∧ p ≤ z < p + 2 ^ o ∧ x = page_address r z ∧ index_of rs x z ∧ build_leaf (mark x) = σ p o.
Proof.
  intros Hx. assert (Hx' : page_of rs x) by (apply (bump_pages l1 l2 g stop); [split; [plia|done]|done]). destruct (index_exists rs x Hx') as [z Hz].
  pose proof (index_bounds rs _ finish_ranges x z Hz) as Hzb. destruct (page_owner B σ Hgeo (heap_tree _ _ _ _ Hheap) (heap_shape _ _ _ _ Hheap) z Hzb) as (r & p & o & Hr & Hbl & Hl & Hzp).
  destruct (leaf_page r p o z Hr Hbl Hl Hzp) as (Hi & _ & Em). pose proof (index_inj rs _ finish_ranges x _ z Hz Hi) as ->. pose proof (block_inside _ _ _ Hbl).
  exists r, z, p, o. split_and!; try done; unfold holds_page; lia.
Qed.

(** The free pages are the recycled ones and the ones never handed out. *)
Definition number (x : Z) : Z := match page_lookup (set_metadata arrays m) x with Done (Some z) => z | _ => 0 end.
Lemma number_index x z : index_of rs x z → number x = z.
Proof.
  intros Hx. unfold number. rewrite (lookup_index arrays rs post eq_refl) with (z := z); try done.
  - simpl. rewrite (bo_count _ _ _ _ _ Hb), !length_app. done.
  - apply finish_ranges.
  - apply Hb.
Qed.
Lemma free_page x : page_of rs x → (build_leaf (mark x) = BUDDY_FREE ↔ x ∈ chain ++ virgin_pages rs).
Proof.
  intros _. unfold page_mark, paint, build_leaf. rewrite elem_of_app. repeat (destruct (decide (x ∈ _)); try tauto); (split; [done|tauto]).
Qed.
Lemma free_total : free_pages fl = allocator.(a_available_pages) - pages.
Proof.
  destruct (pages_count access mem allocator allocator l1 l2 g chain pages Hb Hpages Hroom) as [<- _]. rewrite <-Nat2Z.inj_add, <-length_app. set (xs := chain ++ virgin_pages rs).
  assert (Hleaf : leaf BUDDY_FREE) by (by left). destruct (leaves_blocks B σ fl Hheap BUDDY_FREE Hleaf) as [Hnd Hin].
  rewrite <-(free_sum B σ fl Hheap), <-each_length by (intros b Hbl; by apply (leaves_orders B σ fl Hheap BUDDY_FREE)). f_equal.
  assert (Hxs : ∀ x, x ∈ xs → page_of rs x).
  { intros x [Hx|Hx]%elem_of_app.
    - apply (bump_pages l1 l2 g stop); [split; [plia|done]|]. by apply (handed_page rs0 x (ro_each _ _ (bo_ok _ _ _ _ _ Hb))), (bo_handed _ _ _ _ _ Hb).
    - apply elem_of_virgin in Hx as (Hal & k & Hk & Hx); [|apply finish_ranges]. pose proof (ro_each _ _ finish_ranges) as Hf. rewrite Forall_forall in Hf.
      pose proof (rk_bounds _ (Hf k Hk)). split; [done|]. exists k. split; [done|lia]. }
  rewrite <-(length_fmap number xs). apply Permutation_length, NoDup_Permutation.
  - apply each_nodup; [done|]. intros p o q k [Hp Ep]%Hin [Hq Eq]%Hin. apply (leaf_apart B σ p o q k Hgeo (heap_shape _ _ _ _ Hheap) Hp Hq); by rewrite ?Ep, ?Eq.
  - apply NoDup_fmap_2_strong.
    + intros x y Hx Hy E. destruct (index_exists rs x (Hxs x Hx)) as [z Hz]. destruct (index_exists rs y (Hxs y Hy)) as [w Hw].
      rewrite (number_index x z Hz), (number_index y w Hw) in E. subst w. by apply (index_inj rs _ finish_ranges x y z).
    + apply NoDup_app. split_and!; [apply Hb| |apply virgin_nodup; apply finish_ranges]. intros x Hx Hv. by apply (chain_mark access mem allocator allocator l1 l2 g chain pages Hb Hpages Hroom x Hx).
  - intros z. rewrite elem_of_each, list_elem_of_fmap. split.
    + intros (p & o & [(r & Hr & Hbl) Ep]%Hin & Hz). destruct (leaf_page r p o z Hr Hbl ltac:(by rewrite Ep) Hz) as (Hi & _ & Em). exists (page_address r z).
      split; [symmetry; by apply number_index|]. apply free_page; [by eapply index_page|]. by rewrite Em.
    + intros (x & -> & Hx). pose proof (Hxs x Hx) as Hpx. destruct (page_leaf x) as (r & z & p & o & Hr & _ & Hbl & _ & Hz & -> & Hi & Em); [by apply (bump_pages l1 l2 g stop) in Hpx; [|split; [plia|done]]|].
      rewrite (number_index _ z Hi). exists p, o. split; [|done]. apply Hin. split; [by exists r|]. rewrite <-Em. by apply free_page.
Qed.

(** *** The result *)
Definition final : physical_page_allocator := set_finalized B (free_pages fl).
Lemma final_pool : pool final σ fl.
Proof.
  split; [exact (heap_finalized B σ fl _ (free_pages fl) Hheap)|exact Hco|done|].
  - pose proof (bo_initialized _ _ _ _ _ Hb) as Hi. unfold physical_page_allocator_is_finalized, allocator_initialized in *. simpl. by rewrite Hi.
Qed.
Lemma region_pages x z : index_of rs x z → (g.(g_next) ≤ x < stop ↔ flat g g.(g_next) ≤ z < flat g g.(g_next) + pages).
Proof.
  intros Hx. pose proof (selected_ok access mem allocator l1 l2 g chain Hb) as Hg. pose proof (rk_bounds _ Hg).
  assert (Hk : ∀ k, 0 ≤ k < pages → index_of rs (g.(g_next) + k * PAGE) (flat g g.(g_next) + k)).
  { intros k Hk. split; [apply page_aligned_add, Hg|]. exists (bump g stop). split; [set_solver|]. split; [cbn [g_base g_end bump]; plia|]. unfold flat. cbn [g_base g_first_page_index bump]. rewrite minus_add. lia. }
  split; intros Hc.
  - pose proof (aligned_exact x _ (proj1 Hx) (rk_next _ Hg)) as Ex. pose proof (Hk ((x - g.(g_next)) / PAGE) ltac:(plia)) as Hi. rewrite Ex in Hi. replace (g.(g_next) + (x - g.(g_next))) with x in Hi by lia.
    rewrite <-(number_index x z Hx), (number_index x _ Hi). plia.
  - pose proof (Hk (z - flat g g.(g_next)) ltac:(lia)) as Hi. replace (flat g g.(g_next) + (z - flat g g.(g_next))) with z in Hi by lia.
    rewrite (index_inj rs _ finish_ranges x _ z Hx Hi). plia.
Qed.
Lemma final_arena : arena final σ rs (flat g g.(g_next)).
Proof.
  pose proof (selected_ok access mem allocator l1 l2 g chain Hb) as Hg. pose proof (rk_bounds _ Hg). destruct laid_arrays_ok as [H1 H2 H3 H4 _ _ _ _ _]. split; try done.
  - exists (bump g stop). split; [set_solver|]. cbn [a_metadata_address a_metadata_pages final set_finalized upd set_free_heads set_metadata set_tree laid_arrays set_roots arrays set_arrays g_base g_end bump].
    split_and!; [apply Hg|lia|done|done].
  - intros p o z (r & Hr & Hbl) Hl Hz. destruct (leaf_page r p o z Hr Hbl Hl Hz) as (Hi & Hpx & Em). rewrite <-(region_pages _ z Hi), <-Em. by apply build_mark.
Qed.
(** Free exactly the pages not in use and not reserved; each page in use is held
    once. *)
Lemma final_spec x :
  (x ∈ (spec_of final).(sp_free) ↔ page_of rs0 x ∧ ¬ in_use rs0 chain x ∧ ¬ g.(g_next) ≤ x < stop) ∧
  (∀ o n, (spec_of final).(sp_blocks) !! x = Some (o, n) ↔ in_use rs0 chain x ∧ o = 0 ∧ n = 1).
Proof.
  rewrite (elem_of_free final σ fl final_pool x). split; [|intros o n; rewrite (lookup_blocks final σ fl final_pool x)]; split.
  - intros (r & z & Hr & Hz & (p & o & (r' & Hr' & Hbl) & Ep & Hzp) & ->). assert (r' = r) as -> by (pose proof (block_inside _ _ _ Hbl); apply (root_unique B Hgeo r' r z Hr' Hr); [unfold holds_page; lia|done]).
    destruct (leaf_page r p o z Hr Hbl ltac:(rewrite Ep; by left) Hzp) as (_ & Hpx & Em). split; [done|]. apply (build_mark _ Hpx). by rewrite Em.
  - intros [Hpx Hfree]. destruct (page_leaf x Hpx) as (r & z & p & o & Hr & Hh & Hbl & _ & Hz & -> & _ & Em). exists r, z. split_and!; try done. exists p, o. split_and!; [by exists r| |lia|lia].
    rewrite <-Em. by apply (build_mark _ Hpx).
  - intros (r & z & y & Hr & Hbl & (Hib & Ep & _ & Hy) & -> & ->). pose proof (pow_pos o ltac:(destruct Hbl; lia)).
    destruct (leaf_page r z o z Hr Hbl ltac:(rewrite Ep; right; by left) ltac:(lia)) as (_ & Hpx & Em). destruct (Hsingle z o Hib Ep) as (y' & Hy' & -> & E1).
    assert (y' = y) as -> by (simpl in Hy; congruence). split; [|done]. apply (build_mark _ Hpx). by rewrite Em.
  - intros (Hu & -> & ->). destruct (handed_page rs0 x (ro_each _ _ (bo_ok _ _ _ _ _ Hb)) (proj1 Hu)) as (Hpx & _).
    destruct (page_leaf x Hpx) as (r & z & p & o & Hr & Hh & Hbl & _ & Hz & -> & _ & Em). pose proof (proj2 (proj2 (proj2 (build_mark _ Hpx))) Hu) as Ea. rewrite Em in Ea.
    assert (Hib : is_block laid_arrays p o) by (by exists r). destruct (Hsingle p o Hib Ea) as (y & Hy & -> & E1). change (2 ^ 0) with 1 in Hz. assert (z = p) as -> by lia.
    exists r, p, y. split_and!; try done. split; [exact Hib|]. split; [done|]. split; [by left|done].
Qed.
Lemma publish_final m1 : build_all (extents rs) laid_arrays = Done (set_both laid_arrays t m1) →
  publish_all (extents rs) (set_both laid_arrays t m1) 0 = Done (Some (B, free_pages fl)) →
  build_and_publish allocator (set_metadata arrays m) pages = Done (PHYSICAL_PAGE_STATUS_OK, final).
Proof.
  intros E1 E2. unfold build_and_publish. change ((set_metadata arrays m).(a_roots)) with arrays.(a_roots). change ((set_metadata arrays m).(a_range_count)) with arrays.(a_range_count).
  rewrite lay_arrays. run. fold laid_arrays. rewrite E1. run. rewrite E2. run. rewrite decide_False by (rewrite free_total; tauto). fold final.
  by rewrite (audit_run final σ fl rs _ final_pool final_arena).
Qed.
End built.
End marked.
End finish.

(** The first element outside [P] is determined. *)
Lemma first_split {A} (P : A → Prop) l1 k1 x y l2 k2 : l1 ++ x :: l2 = k1 ++ y :: k2 → Forall P l1 → Forall P k1 → ¬ P x → ¬ P y → l1 = k1 ∧ x = y ∧ l2 = k2.
Proof.
  intros E H1. revert k1 E. induction H1 as [|z l1 Hz _ IH]; intros k1 E H2 Hx Hy; destruct H2 as [|w k1 Hw H2]; simplify_eq/=; try done.
  destruct (IH k1 ltac:(done) H2 Hx Hy) as (-> & -> & ->). done.
Qed.

(** ** The whole call *)
(** The mapping of the reserved span, as far as the code looks at it. *)
Definition contiguous (access : Z → Z) (address span : Z) : Prop :=
  access address ≤ UINT64_MAX - (span - PAGE) ∧ access (address + span - PAGE) = access address + span - PAGE.
Record finalized (a : physical_page_allocator) (l1 : list physical_page_range) (g : physical_page_range) (l2 : list physical_page_range) (chain : list Z)
    (a' : physical_page_allocator) (σ : states) (fl : free_lists) : Prop := {
  fz_pool : pool a' σ fl;
  fz_arena : arena a' σ (l1 ++ bump g (g.(g_next) + reserve_pages (l1 ++ g :: l2) a.(a_total_pages) * PAGE) :: l2) (flat g g.(g_next));
  fz_address : a'.(a_metadata_address) = g.(g_next);
  fz_size : a'.(a_metadata_pages) = reserve_pages (l1 ++ g :: l2) a.(a_total_pages);
  fz_free x : x ∈ (spec_of a').(sp_free) ↔ page_of (l1 ++ g :: l2) x ∧ ¬ in_use (l1 ++ g :: l2) chain x ∧
    ¬ g.(g_next) ≤ x < g.(g_next) + reserve_pages (l1 ++ g :: l2) a.(a_total_pages) * PAGE;
  fz_blocks x o n : (spec_of a').(sp_blocks) !! x = Some (o, n) ↔ in_use (l1 ++ g :: l2) chain x ∧ o = 0 ∧ n = 1;
  fz_access : a'.(a_access) = true;
}.

Section whole.
Context (access : Z → Z) (mem : memory) (a : physical_page_allocator) (rs : list physical_page_range) (chain : list Z).
Context (junk : physical_page_metadata) (junk_root : physical_page_root).
Hypothesis Hb : boot_ok access mem a rs chain.
Hypothesis Hacc : a.(a_access) = true.
#[local] Notation pages := (reserve_pages rs a.(a_total_pages)).
#[local] Notation finalize := (physical_page_allocator_finalize access junk junk_root mem a).

Lemma reserve_some g : g ∈ rs → 0 < pages.
Proof.
  intros Hg. pose proof (extents_bounds _ _ _ _ _ Hb) as (Ht & _ & Hn). pose proof (ro_each _ _ (bo_ok _ _ _ _ _ Hb)) as Hf. pose proof Hg as [i Hi]%list_elem_of_lookup_1.
  destruct (ranges_laid_lookup _ _ _ _ _ Hf (ro_laid _ _ (bo_ok _ _ _ _ _ Hb)) Hi) as [B1 B2]. rewrite Forall_forall in Hf. destruct (range_pages g (Hf g Hg)) as (_ & Hp & _).
  unfold reserve_pages, reserve_bytes, tree_bytes, SIZEOF_METADATA, SIZEOF_ROOT, BOAROS_PAGE_MASK, BOAROS_PAGE_SIZE. pose proof (Z.div_pos (node_count (extents rs) * 3 + 7) 8).
  apply Z.div_str_pos. lia.
Qed.
Lemma roomy_available l1 g l2 : rs = l1 ++ g :: l2 → roomy a rs g → pages ≤ a.(a_available_pages) ∧ g.(g_next) + pages * PAGE ≤ g.(g_end).
Proof.
  intros E Hr. unfold roomy in Hr. split; [|lia]. assert (Hg : g ∈ rs) by (rewrite E; set_solver). pose proof (reserve_some g Hg).
  pose proof (bo_ok _ _ _ _ _ Hb) as Hok. pose proof (bo_available _ _ _ _ _ Hb) as Ha. rewrite E in Hok, Ha.
  pose proof (ro_each _ _ Hok) as Hf. apply Forall_app in Hf as [_ [Hgk _]%Forall_cons].
  pose proof (bump_virgin_length l1 l2 g (g.(g_next) + pages * PAGE) _ Hok ltac:(plia) ltac:(apply page_aligned_add, Hgk)) as Hv.
  replace (g.(g_next) + pages * PAGE - g.(g_next)) with (pages * PAGE) in Hv by lia. rewrite Z.div_mul in Hv by done. lia.
Qed.
Lemma finalize_select : finalize =
  (if decide (pages = 0 ∨ a.(a_available_pages) < pages) then Done (PHYSICAL_PAGE_STATUS_EMPTY, a) else
   selected ← select_range (Z.to_nat a.(a_range_count)) a 0 (pages * PAGE);
   match selected with
   | None => Done (PHYSICAL_PAGE_STATUS_EMPTY, a)
   | Some (index, address) =>
       if decide (access address = 0 ∨ access (u64 (address + pages * PAGE - PAGE)) = 0 ∨ UINT64_MAX - (pages * PAGE - PAGE) < access address ∨
                  access (u64 (address + pages * PAGE - PAGE)) ≠ access address + pages * PAGE - PAGE)
       then Done (PHYSICAL_PAGE_STATUS_INVALID, a)
       else
         range ← aread a.(a_ranges) index;
         ranges ← awrite a.(a_ranges) index (mk_page_range range.(g_base) (u64 (range.(g_next) + pages * PAGE)) range.(g_end) range.(g_first_page_index));
         marked ← mark_pages access mem a
           (set_arrays a address pages (replicate (Z.to_nat a.(a_total_pages)) junk) (replicate (length (extents rs)) junk_root)
              (replicate (Z.to_nat (tree_bytes (node_count (extents rs)))) 0) (node_count (extents rs)) (u32 (Z.of_nat (length (extents rs)))) ranges)
           address (pages * PAGE) pages;
         match marked with None => Done (PHYSICAL_PAGE_STATUS_INVALID, a) | Some result => build_and_publish a result pages end
   end).
Proof.
  pose proof (extents_bounds _ _ _ _ _ Hb) as (Ht & _). unfold physical_page_allocator_finalize.
  rewrite decide_False by (by rewrite (bo_initialized _ _ _ _ _ Hb)). rewrite decide_False by (rewrite (bo_bootstrap _ _ _ _ _ Hb), Hacc; by intros [?|?]).
  rewrite decide_False by lia. rewrite (count_roots_all _ _ _ _ _ Hb). run. rewrite (reserve_size_run _ _ _ _ _ Hb), Nat2Z.id.
  destruct (decide (pages = 0 ∨ _)); [done|]. by rewrite shift_page.
Qed.
(** Without a range that has room, the allocator stays as it was. *)
Lemma finalize_empty : Forall (λ g, ¬ roomy a rs g) rs → finalize = Done (PHYSICAL_PAGE_STATUS_EMPTY, a).
Proof.
  intros Hno. rewrite finalize_select. destruct (decide _); [done|]. rewrite (bo_count _ _ _ _ _ Hb), Nat2Z.id.
  destruct (select_range_run access mem a rs chain Hb rs [] eq_refl) as [[_ Es]|(l1 & g & l2 & E & _ & Hr & _)]; [cbn [length] in Es; rewrite Es; by run|].
  exfalso. rewrite Forall_forall in Hno. apply (Hno g); [|done]. rewrite E. set_solver.
Qed.
(** With room in [g]: refused when the mapping is not contiguous, else done. *)
Lemma finalize_room l1 g l2 : rs = l1 ++ g :: l2 → Forall (λ g, ¬ roomy a rs g) l1 → roomy a rs g →
  (¬ contiguous access g.(g_next) (pages * PAGE) → finalize = Done (PHYSICAL_PAGE_STATUS_INVALID, a)) ∧
  (contiguous access g.(g_next) (pages * PAGE) →
   ∃ a' σ fl, finalize = Done (PHYSICAL_PAGE_STATUS_OK, a') ∧ finalized a l1 g l2 chain a' σ fl).
Proof.
  intros E Hno Hr. assert (Hg : g ∈ rs) by (rewrite E; set_solver). pose proof (reserve_some g Hg) as Hpos. destruct (roomy_available l1 g l2 E Hr) as [Hav Hroom].
  pose proof (ro_each _ _ (bo_ok _ _ _ _ _ Hb)) as Hf. rewrite Forall_forall in Hf. pose proof (Hf g Hg) as Hgk. pose proof (rk_bounds _ Hgk) as Hgb.
  destruct (bo_ranges _ _ _ _ _ Hb) as [post Er].
  assert (Hsel : select_range (Z.to_nat a.(a_range_count)) a 0 (pages * PAGE) = Done (Some (length l1, g.(g_next)))).
  { rewrite (bo_count _ _ _ _ _ Hb), Nat2Z.id. destruct (select_range_run access mem a rs chain Hb rs [] eq_refl) as [[Hall _]|(k1 & h & k2 & E' & Hno' & Hr' & Es)].
    - rewrite Forall_forall in Hall. by destruct (Hall g Hg).
    - rewrite E in E' at 1. destruct (first_split (λ g, ¬ roomy a rs g) l1 k1 g h l2 k2 E' Hno Hno') as (-> & -> & _); [tauto..|]. done. }
  assert (Hmap : ∀ x, aligned x → g.(g_next) ≤ x < g.(g_end) → access x ≠ 0).
  { intros x Hal Hx. apply (mp_some _ _ _ (bo_mapped _ _ _ _ _ Hb)). split; [done|]. exists g. split; [done|lia]. }
  assert (Hn1 : access g.(g_next) ≠ 0) by (apply Hmap; [apply Hgk|plia]).
  assert (Hn2 : access (g.(g_next) + pages * PAGE - PAGE) ≠ 0).
  { apply Hmap; [|plia]. replace (g.(g_next) + pages * PAGE - PAGE) with (g.(g_next) + (pages - 1) * PAGE) by lia. apply page_aligned_add, Hgk. }
  rewrite finalize_select, decide_False, Hsel by lia. run. rewrite u64_small by pmlia. unfold contiguous. split.
  - intros Hc. rewrite decide_True; [done|]. right; right. destruct (decide (UINT64_MAX - (pages * PAGE - PAGE) < access g.(g_next))); [by left|right]. intros Ee. apply Hc. split; [lia|done].
  - intros [Hc1 Hc2]. rewrite decide_False by (intros [?|[?|[?|?]]]; [done|done|lia|done]).
    assert (Hi : a.(a_ranges) !! length l1 = Some g) by (rewrite Er, E, <-app_assoc; by rewrite lookup_app_r, Nat.sub_diag by lia).
    rewrite (aread_ok _ _ _ Hi). run. rewrite awrite_ok by (by apply lookup_lt_is_Some; eexists). run. rewrite u64_small by pmlia. fold (bump g (g.(g_next) + pages * PAGE)).
    assert (Ei : <[length l1 := bump g (g.(g_next) + pages * PAGE)]> a.(a_ranges) = (l1 ++ bump g (g.(g_next) + pages * PAGE) :: l2) ++ post)
      by (rewrite Er; rewrite E at 2; rewrite <-!app_assoc, insert_app_r_alt, Nat.sub_diag by lia; done). rewrite Ei. clear Hsel Ei. subst rs.
    destruct (mark_arrays access mem a l1 l2 post g chain junk junk_root Hb Hpos Hroom) as (m & Em & Hlen & Hmarks). unfold arrays in Em at 1. rewrite Em. run.
    destruct (finish_run access mem a l1 l2 post g chain junk junk_root Hb Hpos Hroom m Hlen) as (t & m1 & m2 & h & σ & fl & E1 & E2 & Hh & Hco & Hone & Hst).
    exists (final a l1 l2 post g junk junk_root m t h m2 fl), σ, fl. split.
    + by apply (publish_final access mem a l1 l2 post g chain junk junk_root Hb) with (σ := σ) (m1 := m1).
    + split.
      * by apply (final_pool access mem a l1 l2 post g chain junk junk_root Hb).
      * by apply (final_arena access mem a l1 l2 post g chain junk junk_root Hb).
      * done.
      * done.
      * intros x. by apply (final_spec access mem a l1 l2 post g chain junk junk_root Hb) with (σ := σ).
      * intros x. by apply (final_spec access mem a l1 l2 post g chain junk junk_root Hb) with (σ := σ).
      * exact Hacc.
Qed.
End whole.
