(* ===== verification/PageClaims.v ===== *)
(** * Histories of the page allocator, and what its callers rely on *)
From S2P Require Import Prelude BootMemory BootMemoryTheory PhysicalPage PageBoot PageFinal PageSpec PageStateTheory PageFreeTheory PageAllocTheory PageReleaseTheory PageRefine PageBuildTheory PageLayTheory PageBootTheory PageAuditTheory PageFinalTheory.
Import PhysicalPage PageBoot PageFinal PageSpec.
#[local] Open Scope Z_scope.

(** ** The reserved region stays *)
Lemma arena_kept a σ fl a' σ' fl' rs f : pool a σ fl → arena a σ rs f → pool a' σ' fl' → kept a σ a' σ' → arena a' σ' rs f.
Proof.
  intros Hp Har Hp' [K1 K2 K3 K4 K5 K6 _ K7]. pose proof (pool_heap _ _ _ Hp) as Hh. pose proof (pool_heap _ _ _ Hp') as Hh'. pose proof Har as [A1 A2 A3 A4 A5 A6 A7].
  pose proof (heap_geo _ _ _ _ Hh) as Hgeo. pose proof (heap_geo _ _ _ _ Hh') as Hgeo'.
  assert (Hib : ∀ p o, is_block a' p o ↔ is_block a p o) by (intros; unfold is_block; by rewrite K1).
  split; rewrite ?K1, ?K2, ?K3, ?K4, ?K5, ?K6; try done. intros p o z Hb Hl Hz. split.
  - intros Hs. destruct (heap_meta _ _ _ _ Hh' p o Hb Hl (not_elem_of_nil _)) as (x & Hx & _).
    assert (Htk : taken a' σ' p o BUDDY_INTERNAL x) by (split_and!; [done|done|by right|done]). apply K7 in Htk as (Hb0 & Hs0 & _). apply (A7 p o z); [done|rewrite Hs0; right; by right|done|done].
  - intros Hin. destruct (arena_bounds a σ rs f Har) as (_ & ? & ? & _).
    destruct (page_owner a σ Hgeo (heap_tree _ _ _ _ Hh) (heap_shape _ _ _ _ Hh) z ltac:(lia)) as (r & q & k & Hr & Hbq & Hlq & Hzq). assert (Hq : is_block a q k) by (by exists r).
    pose proof (proj2 (A7 q k z Hq Hlq Hzq) Hin) as Hsq. destruct (heap_meta _ _ _ _ Hh q k Hq Hlq (not_elem_of_nil _)) as (x & Hx & _).
    assert (Htk : taken a σ q k BUDDY_INTERNAL x) by (split_and!; [done|done|by right|done]). apply K7 in Htk as (Hb1 & Hs1 & _).
    destruct (leaf_apart a' σ' p o q k Hgeo' (heap_shape _ _ _ _ Hh') Hb Hb1 Hl) as [[-> ->]|?]; [rewrite Hs1; right; by right|done|lia].
Qed.

(** ** What the abstraction of a pool looks like *)
Section spec.
Context (a : physical_page_allocator) (σ : states) (fl : free_lists).
Hypothesis Hpool : pool a σ fl.
#[local] Notation Hheap := (pool_heap _ _ _ Hpool).
#[local] Notation Hgeo := (heap_geo _ _ _ _ Hheap).
#[local] Notation Hshape := (heap_shape _ _ _ _ Hheap).

(** No page is in two held blocks, and none of a held block is free. *)
Lemma held_apart x o n y k m : (spec_of a).(sp_blocks) !! x = Some (o, n) → (spec_of a).(sp_blocks) !! y = Some (k, m) → x ≠ y → pages_of x o ## pages_of y k.
Proof.
  intros (r & p & u & Hr & Hb & (Hib & Es & _) & -> & ->)%(lookup_blocks a σ fl Hpool) (r' & q & v & Hr' & Hb' & (Hib' & Es' & _) & -> & ->)%(lookup_blocks a σ fl Hpool) Hne w Hw Hw'.
  apply (elem_of_block_pages a r p o) in Hw as (z & Hz & ->); [|done..]. apply (elem_of_block_pages a r' q k) in Hw' as (z' & Hz' & E); [|done..].
  pose proof (block_inside _ _ _ Hb). pose proof (block_inside _ _ _ Hb'). destruct (page_address_inj a r r' z z' Hgeo Hr Hr') as [-> ->]; [unfold holds_page; lia..|done|].
  destruct (leaf_apart a σ p o q k Hgeo Hshape Hib Hib') as [[-> ->]|?]; [rewrite Es; right; by left|rewrite Es'; right; by left|done|lia].
Qed.
Lemma held_not_free x o n : (spec_of a).(sp_blocks) !! x = Some (o, n) → pages_of x o ## (spec_of a).(sp_free).
Proof.
  intros (r & p & u & Hr & Hb & (Hib & Es & _) & -> & ->)%(lookup_blocks a σ fl Hpool) w Hw Hf.
  apply (elem_of_block_pages a r p o) in Hw as (z & Hz & ->); [|done..]. pose proof (block_inside _ _ _ Hb).
  apply (spec_not_free a σ fl r z p o Hpool Hr) in Hf; try done; [unfold holds_page; lia|rewrite Es; right; by left|by rewrite Es].
Qed.
(** The free pages are as many as the counter says. *)
Lemma free_at_page r z : r ∈ a.(a_roots) → holds_page r z → page_free a σ z → free_at a z = Some (page_address r z).
Proof.
  intros Hr Hz (p & o & (r' & Hr' & Hb) & Es & Hzp). pose proof (block_inside _ _ _ Hb). assert (r' = r) as -> by (apply (root_unique a Hgeo r' r z Hr' Hr); [unfold holds_page; lia|done]).
  unfold free_at. rewrite (page_owner_ok a σ fl Hpool r p o z Hr Hb ltac:(rewrite Es; by left) Hzp). cbn [o_state o_first]. rewrite decide_True by done.
  rewrite (owner_address_block a r _ p o _ Hgeo Hr Hb). f_equal. unfold page_address. ring.
Qed.
Lemma free_size : Z.of_nat (size (spec_of a).(sp_free)) = a.(a_available_pages).
Proof.
  assert (Hl : leaf BUDDY_FREE) by (by left). destruct (leaves_blocks a σ fl Hheap BUDDY_FREE Hl) as [Hnd Hin]. set (L := each_page (all_leaves BUDDY_FREE σ a.(a_roots))).
  assert (HL : ∀ z, z ∈ L ↔ page_free a σ z).
  { intros z. unfold L, page_free. rewrite elem_of_each. split; intros (p & o & H); exists p, o; rewrite Hin in *; naive_solver. }
  assert (Hat : ∀ z, z ∈ L → ∃ r, r ∈ a.(a_roots) ∧ holds_page r z ∧ free_at a z = Some (page_address r z)).
  { intros z Hz%HL. destruct Hz as (p & o & (r & Hr & Hb) & Es & Hzp). pose proof (block_inside _ _ _ Hb). assert (Hh : holds_page r z) by (unfold holds_page; lia).
    exists r. split_and!; try done. apply free_at_page; try done. exists p, o. split; [by exists r|]. split; [done|lia]. }
  replace (spec_of a).(sp_free) with (list_to_set ((λ z, default 0 (free_at a z)) <$> L) : gset Z).
  - rewrite size_list_to_set, length_fmap.
    + rewrite (pool_available _ _ _ Hpool), <-(free_sum a σ fl Hheap). apply each_length. intros b Hb. by apply (leaves_orders a σ fl Hheap BUDDY_FREE).
    + apply NoDup_fmap_2_strong.
      * intros x y Hx Hy. destruct (Hat x Hx) as (r & Hr & Hxr & ->). destruct (Hat y Hy) as (r' & Hr' & Hyr & ->). simpl. intros E. by destruct (page_address_inj a r r' x y Hgeo Hr Hr' Hxr Hyr E).
      * apply each_nodup; [done|]. intros p o q k [Hp Ep]%Hin [Hq Eq]%Hin. apply (leaf_apart a σ p o q k Hgeo Hshape Hp Hq); by rewrite ?Ep, ?Eq.
  - apply set_eq. intros x. rewrite elem_of_list_to_set, list_elem_of_fmap, (elem_of_free a σ fl Hpool). split.
    + intros (z & -> & Hz). destruct (Hat z Hz) as (r & Hr & Hh & ->). exists r, z. split_and!; try done. by apply HL.
    + intros (r & z & Hr & Hz & Hf & ->). exists z. split; [by rewrite (free_at_page r z Hr Hz Hf)|by apply HL].
Qed.
(** Every page is free, held or reserved. *)
Lemma page_cases rs f x : arena a σ rs f → page_of rs x →
  x ∈ (spec_of a).(sp_free) ∨ (∃ y o n, (spec_of a).(sp_blocks) !! y = Some (o, n) ∧ x ∈ pages_of y o) ∨
  a.(a_metadata_address) ≤ x < a.(a_metadata_address) + a.(a_metadata_pages) * PAGE.
Proof.
  intros Har Hx. destruct (index_exists rs x Hx) as [z Hz]. pose proof (index_bounds rs _ (ar_ok _ _ _ _ Har) x z Hz) as Hzb.
  destruct (page_owner a σ Hgeo (heap_tree _ _ _ _ Hheap) Hshape z Hzb) as (r & p & o & Hr & Hb & Hl & Hzp). pose proof (block_inside _ _ _ Hb). assert (Hh : holds_page r z) by (unfold holds_page; lia).
  pose proof (index_inj rs _ (ar_ok _ _ _ _ Har) x _ z Hz (arena_index a σ rs f Hgeo Har r z Hr Hh)) as ->. assert (Hib : is_block a p o) by (by exists r).
  destruct Hl as [Es|[Es|Es]].
  - left. apply (elem_of_free a σ fl Hpool). exists r, z. split_and!; try done. exists p, o. split_and!; try done; lia.
  - right; left. destruct (heap_meta _ _ _ _ Hheap p o Hib ltac:(rewrite Es; right; by left) (not_elem_of_nil _)) as (y & Hy & _). exists (page_address r p), o, y.(m_reference_count). split.
    + apply (lookup_blocks a σ fl Hpool). exists r, p, y. split_and!; try done. split; [done|]. split; [done|]. split; [by left|done].
    + apply (elem_of_block_pages a r p o); [done..|]. by exists z.
  - right; right. pose proof (proj1 (ar_internal _ _ _ _ Har p o z Hib ltac:(rewrite Es; right; by right) Hzp) Es) as Hin.
    destruct (arena_region a σ rs f Hgeo Har r z Hr Hh) as (_ & -> & _); [|done]. plia.
Qed.
End spec.

(** ** Sequences of calls *)
#[export] Instance allowed_dec s op : Decision (allowed s op).
Proof.
  destruct op as [o|x o|x|x|x]; simpl; try apply _.
  - destruct (s.(sp_blocks) !! x) as [[k n]|]; [|right; by intros [n ?]]. destruct (decide (k = o)) as [->|Hne]; [left; by exists n|right; intros [m ?]; simplify_eq].
  - destruct (s.(sp_blocks) !! x) as [[k n]|]; [|right; by intros (n & ? & _)].
    destruct (decide (k = 0 ∧ n < UINT32_MAX)) as [[-> ?]|Hne]; [left; by exists n|right; intros (m & ? & ?); simplify_eq; tauto].
Defined.
Inductive page_run (extents : list (Z * Z)) : page_spec → list page_op → list page_answer → page_spec → Prop :=
  | run_done s : page_run extents s [] [] s
  | run_step s op ans s1 ops answers s2 :
      page_step extents s op ans s1 → page_run extents s1 ops answers s2 → page_run extents s (op :: ops) (ans :: answers) s2.

Lemma exec_all_run ops : ∀ a σ fl, pool a σ fl → Forall op_typed ops →
  (∃ answers a' σ' fl', exec_all a ops = Done (answers, a') ∧ pool a' σ' fl' ∧ kept a σ a' σ' ∧ page_run (extents_of a) (spec_of a) ops answers (spec_of a')) ∨
  (∃ before op after answers a' , ops = before ++ op :: after ∧ exec_all a before = Done (answers, a') ∧ ¬ allowed (spec_of a') op ∧ exec_all a ops = trap).
Proof.
  induction ops as [|op ops IH]; intros a σ fl Hp Ht.
  { left. exists [], a, σ, fl. split_and!; [done|done|apply kept_refl|constructor]. }
  apply Forall_cons in Ht as [Hop Ht]. destruct (decide (allowed (spec_of a) op)) as [Hall|Hno].
  - destruct (exec_refined a σ fl op Hp Hop Hall) as (ans & a1 & σ1 & fl1 & E1 & Hp1 & Hk1 & Hs1).
    assert (Hext : extents_of a1 = extents_of a) by (unfold extents_of; by rewrite (kept_roots _ _ _ _ Hk1)).
    destruct (IH a1 σ1 fl1 Hp1 Ht) as [(answers & a2 & σ2 & fl2 & E2 & Hp2 & Hk2 & Hr2)|(before & bad & rest & answers & a2 & -> & E2 & Hbad & E3)].
    + left. exists (ans :: answers), a2, σ2, fl2. cbn [exec_all]. rewrite E1. run. rewrite E2. run. split_and!; [done|done|by eapply kept_trans|].
      econstructor; [done|]. by rewrite <-Hext.
    + right. exists (op :: before), bad, rest, (ans :: answers), a2. cbn [exec_all app]. rewrite E1. run. rewrite E2, E3. by run.
  - right. exists [], op, ops, [], a. split_and!; [done|done|done|]. cbn [exec_all]. by rewrite (exec_refused a σ fl op Hp Hop Hno).
Qed.

(** ** What the page allocator guarantees

    From the boot memory layout to the running system: which pages are managed,
    what the calls before and after [finalize] do, and that no history of calls
    leads to a state that fails the audit. *)
Import BootMemory PhysicalPage PageBoot PageFinal PageSpec.

(** ** Histories before [finalize] *)
(** The states that [init] and the bootstrap calls reach, with the pages that
    their callers hold; a caller may write to the pages it holds. *)
Inductive boot_reaches (access : Z → Z) (layout : boot_memory_layout) : memory → physical_page_allocator → gset Z → Prop :=
  | boot_init mem old a :
      mapped access mem (take_over 0 (usable_of layout)) → physical_page_allocator_init old layout = Done (PHYSICAL_PAGE_STATUS_OK, a) →
      boot_reaches access layout mem a ∅
  | boot_bind mem a held s a' :
      boot_reaches access layout mem a held → physical_page_allocator_bind_access a = (s, a') → boot_reaches access layout mem a' held
  | boot_allocate mem a held s a' x :
      boot_reaches access layout mem a held → physical_page_allocate access mem a = Done (s, a', x) →
      boot_reaches access layout mem a' (held ∪ list_to_set (option_list x))
  | boot_release mem a held x s mem' a' :
      boot_reaches access layout mem a held → physical_page_release access mem a x = Done (s, mem', a') →
      boot_reaches access layout mem' a' (held ∖ {[x]})
  | boot_write mem a held x k v :
      boot_reaches access layout mem a held → x ∈ held → 0 ≤ k < PAGE → is_Some (mem !! (access x + k)) →
      boot_reaches access layout (<[access x + k := v]> mem) a held.

Lemma boot_dispatch access mem a rs chain x : boot_ok access mem a rs chain →
  physical_page_allocate access mem a = physical_page_allocate_bootstrap access mem a ∧
  physical_page_release access mem a x = physical_page_release_bootstrap access mem a x.
Proof.
  intros Hb. unfold physical_page_allocate, physical_page_release. rewrite (bo_bootstrap _ _ _ _ _ Hb), (bo_initialized _ _ _ _ _ Hb).
  rewrite decide_False by done. rewrite (trap_if_ok (true = false)) by done. by run.
Qed.
(** A write to a page in use leaves the list of recycled pages alone. *)
Lemma boot_written access mem a rs chain x k v : boot_ok access mem a rs chain → in_use rs chain x → 0 ≤ k < PAGE → is_Some (mem !! (access x + k)) →
  boot_ok access (<[access x + k := v]> mem) a rs chain.
Proof.
  intros Hb [Hx Hn] Hk Hs. pose proof (ro_each _ _ (bo_ok _ _ _ _ _ Hb)) as Hok. destruct (handed_page rs x Hok Hx) as (Hpx & _).
  pose proof Hb as [B1 B2 B3 B4 B5 B6 B7 B8 B9 B10 B11 B12]. split; try done.
  - apply (mapped_domain access mem); [|done]. intros q. destruct (decide (q = access x + k)) as [->|]; [rewrite lookup_insert_eq|by rewrite lookup_insert_ne by done]. split; [done|by eexists].
  - apply (chained_ext access mem); [|done]. intros y i Hy Hi. rewrite lookup_insert_ne; [done|]. destruct (handed_page rs y Hok (B10 y Hy)) as (Hpy & _).
    destruct (mp_apart _ _ _ B6 x y Hpx Hpy) as [?|?]; [intros ->; done|plia|plia].
Qed.
(** What holds in every state reached. *)
Definition boot_inv (access : Z → Z) (layout : boot_memory_layout) (mem : memory) (a : physical_page_allocator) (held : gset Z) : Prop :=
  ∃ rs chain, boot_ok access mem a rs chain ∧ bounds rs = bounds (take_over 0 (usable_of layout)) ∧
    (∀ x, x ∈ held ↔ in_use rs chain x).
Lemma boot_reaches_inv access layout mem a held : (layout.(bl_usable_count) ≤ length layout.(bl_usable))%nat → Forall range_typed (usable_of layout) →
  boot_reaches access layout mem a held → boot_inv access layout mem a held.
Proof.
  intros Hlen Ht. induction 1 as [mem old a Hm E|mem a held s a' _ (rs & chain & Hb & Hp & Hh) E|mem a held s a' x _ (rs & chain & Hb & Hp & Hh) E|
    mem a held x s mem' a' _ (rs & chain & Hb & Hp & Hh) E|mem a held x k v _ (rs & chain & Hb & Hp & Hh) Hx Hk Hs].
  - destruct (init_run old layout Hlen Ht) as (Hno & Hempty & Hyes). destruct (decide (init_accepts layout)) as [Hacc|Hacc]; [|rewrite Hno in E by done; done].
    destruct (decide (whole_pages (usable_of layout) = 0)) as [E0|Hne]; [rewrite Hempty in E by done; done|]. rewrite Hyes in E by done. injection E as <-.
    destruct Hacc as (_ & Hu & Hw). exists (take_over 0 (usable_of layout)), []. split; [by apply init_boot_ok|]. split; [done|].
    intros x. split; [by intros []%elem_of_empty|]. intros [Hx _]. exfalso. apply (elem_of_handed _ _ (ro_each _ _ (take_over_ok _ Ht Hu Hw))) in Hx. by rewrite take_over_virgin in Hx; [apply elem_of_nil in Hx|..].
  - destruct (bind_access_ok access mem a rs chain Hb) as (s' & a2 & E2 & Hb2 & _). rewrite E2 in E. injection E as <- <-. by exists rs, chain.
  - rewrite (proj1 (boot_dispatch access mem a rs chain 0 Hb)) in E. destruct (allocate_bootstrap_run access mem a rs chain Hb) as [[_ E2]|(y & a2 & rs' & chain' & E2 & Hb2 & _ & _ & Hu & Hpg & _)];
      rewrite E2 in E; injection E as <- <- <-.
    + exists rs, chain. split_and!; try done. intros y. rewrite <-Hh. set_solver.
    + exists rs', chain'. split; [done|]. split; [congruence|]. intros z. rewrite Hu, <-Hh. set_solver.
  - rewrite (proj2 (boot_dispatch access mem a rs chain x Hb)) in E. destruct (decide (x ∈ held ∧ a.(a_access) = true)) as [[Hx Hacc]|Hno].
    + destruct (release_bootstrap_run access mem a rs chain x Hb (proj1 (Hh x) Hx) Hacc) as (mem2 & a2 & E2 & Hb2 & _). rewrite E2 in E. injection E as <- <- <-.
      exists rs, (x :: chain). split_and!; try done. intros y. unfold in_use. rewrite elem_of_difference, Hh, elem_of_singleton, not_elem_of_cons. unfold in_use. tauto.
    + rewrite (release_bootstrap_refused access mem a rs chain x Hb) in E; [done|]. rewrite <-Hh. destruct a.(a_access); [left; tauto|by right].
  - exists rs, chain. split; [apply boot_written; try done; by apply Hh|done].
Qed.

(** ** The running system *)
(** The states reached from a [finalize] that succeeded. *)
Inductive system_reaches (access : Z → Z) (layout : boot_memory_layout) : physical_page_allocator → Prop :=
  | system_start mem a held junk junk_root a' :
      boot_reaches access layout mem a held → physical_page_allocator_finalize access junk junk_root mem a = Done (PHYSICAL_PAGE_STATUS_OK, a') →
      system_reaches access layout a'
  | system_step a op ans a' :
      system_reaches access layout a → op_typed op → exec a op = Done (ans, a') → system_reaches access layout a'.
Definition system_inv (layout : boot_memory_layout) (a : physical_page_allocator) : Prop :=
  ∃ σ fl rs f, pool a σ fl ∧ arena a σ rs f ∧ bounds rs = bounds (take_over 0 (usable_of layout)).

Lemma finalize_ok access mem a rs chain junk junk_root a' : boot_ok access mem a rs chain →
  physical_page_allocator_finalize access junk junk_root mem a = Done (PHYSICAL_PAGE_STATUS_OK, a') →
  ∃ l1 g l2 σ fl, rs = l1 ++ g :: l2 ∧ finalized a l1 g l2 chain a' σ fl ∧ g.(g_next) ≤ g.(g_next) + reserve_pages rs a.(a_total_pages) * PAGE ≤ g.(g_end).
Proof.
  intros Hb E. assert (Hacc : a.(a_access) = true).
  { destruct a.(a_access) eqn:Ea; [done|]. unfold physical_page_allocator_finalize in E. rewrite decide_False in E by (by rewrite (bo_initialized _ _ _ _ _ Hb)). rewrite decide_True in E by (by right). done. }
  destruct (select_range_run access mem a rs chain Hb rs [] eq_refl) as [[Hno _]|(l1 & g & l2 & E1 & Hno & Hr & _)].
  - by rewrite (finalize_empty access mem a rs chain junk junk_root Hb Hacc Hno) in E.
  - destruct (finalize_room access mem a rs chain junk junk_root Hb Hacc l1 g l2 E1 Hno Hr) as [Hbad Hok].
    destruct (decide (contiguous access g.(g_next) (reserve_pages rs a.(a_total_pages) * PAGE))) as [Hc|Hc]; [|by rewrite Hbad in E].
    destruct (Hok Hc) as (a2 & σ & fl & E2 & Hf). rewrite E2 in E. injection E as <-. exists l1, g, l2, σ, fl. split; [done|]. split; [done|].
    destruct (roomy_available access mem a rs chain Hb Hacc l1 g l2 E1 Hr) as [_ ?]. pose proof (reserve_some access mem a rs chain Hb g ltac:(rewrite E1; set_solver)). plia.
Qed.
Lemma system_reaches_inv access layout a : (layout.(bl_usable_count) ≤ length layout.(bl_usable))%nat → Forall range_typed (usable_of layout) →
  system_reaches access layout a → system_inv layout a.
Proof.
  intros Hlen Ht. induction 1 as [mem a held junk junk_root a' Hr E|a op ans a' _ (σ & fl & rs & f & Hp & Har & Hpg) Hop E].
  - destruct (boot_reaches_inv access layout mem a held Hlen Ht Hr) as (rs & chain & Hb & Hpg & _).
    destruct (finalize_ok access mem a rs chain junk junk_root a' Hb E) as (l1 & g & l2 & σ & fl & -> & [F1 F2 _ _ _ _ _] & Hroom). eexists σ, fl, _, _. split_and!; [done|done|].
    by rewrite bump_bounds.
  - destruct (decide (allowed (spec_of a) op)) as [Hall|Hno]; [|by rewrite (exec_refused a σ fl op Hp Hop Hno) in E].
    destruct (exec_refined a σ fl op Hp Hop Hall) as (ans2 & a2 & σ2 & fl2 & E2 & Hp2 & Hk2 & _). rewrite E2 in E. injection E as <- <-.
    exists σ2, fl2, rs, f. split_and!; [done|by apply (arena_kept a σ fl a2 σ2 fl2)|done].
Qed.

(** ** Natural blocks *)
(** The extents hold every naturally aligned block of every range. *)
Lemma fits_natural a σ rs f address o : geometry a → arena a σ rs f → 0 ≤ o ≤ 31 →
  fits (extents_of a) address o ↔ address mod (2 ^ o * PAGE) = 0 ∧ ∃ g, g ∈ rs ∧ g.(g_base) ≤ address ∧ address + 2 ^ o * PAGE ≤ g.(g_end).
Proof.
  intros Hgeo Har Ho. pose proof (arena_laid a σ rs f Hgeo Har) as Hlo. pose proof (pow_pos o ltac:(lia)). split.
  - intros (base & top & k & Hin & Hot & Hk & ->). unfold extents_of in Hin. apply list_elem_of_In, in_map_iff in Hin as (r & [= <- <-] & Hr%list_elem_of_In).
    destruct (laid_out_root a rs r Hlo Hr) as (i & g & Hi & _ & Hg & [_ _ Hro Hm Hb He _]). unfold bytes_of in *. assert (Hpow : 2 ^ r.(r_order) = 2 ^ (r.(r_order) - o) * 2 ^ o) by (rewrite <-Z.pow_add_r by lia; f_equal; lia).
    split.
    + apply Z.mod_divide in Hm as [c Hc]; [|pose proof (pow_pos r.(r_order) ltac:(lia)); plia]. apply Z.mod_divide; [plia|]. exists (c * 2 ^ (r.(r_order) - o) + k). rewrite Hc, Hpow. ring.
    + exists g. split; [by eapply list_elem_of_lookup_2|]. rewrite Hpow, <-Z.mul_assoc in He. set (B := 2 ^ o * PAGE) in *. assert (HB : 0 ≤ B) by (unfold B; plia).
      pose proof (Z.mul_nonneg_nonneg k B ltac:(lia) HB). pose proof (Z.mul_le_mono_nonneg_r (k + 1) (2 ^ (r.(r_order) - o)) B HB ltac:(lia)). lia.
  - intros [Hm (g & Hg & Hb & He)]. pose proof (ro_each _ _ (ar_ok _ _ _ _ Har)) as Hf. pose proof Hf as Hf'. rewrite Forall_forall in Hf'. pose proof (Hf' g Hg) as Hgk.
    destruct (range_pages g Hgk) as (Ep & Hp1 & Efu). apply list_elem_of_split in Hg as (l1 & l2 & El).
    destruct (cut_natural g (0 + Z.of_nat (length l1)) Hgk address o Ho Hm He (range_fuel g) g.(g_base) (0 + node_count (cut_all 0 l1 0)) (rk_base _ Hgk)) as (r & k & Hr & Hro & Hk & Ea);
      [lia|change (pages_left g g.(g_base)) with (pages_in g); lia|].
    exists r.(r_address), r.(r_order), k. split_and!; try done; try lia. unfold extents_of. apply list_elem_of_In, in_map_iff. exists r. split; [done|]. apply list_elem_of_In.
    rewrite (ar_roots _ _ _ _ Har), El. rewrite cut_all_app. apply elem_of_app. right. cbn [cut_all]. apply elem_of_app. by left.
Qed.

(** ** The guarantees *)
(** A page of the usable memory, and the pages that [finalize] keeps. *)
Definition managed (layout : boot_memory_layout) (x : Z) : Prop := ∃ r, r ∈ usable_of layout ∧ whole_page r x.
Definition reserved (a : physical_page_allocator) (x : Z) : Prop :=
  a.(a_metadata_address) ≤ x < a.(a_metadata_address) + a.(a_metadata_pages) * PAGE.
(** A naturally aligned block inside one usable range. *)
Definition natural (layout : boot_memory_layout) (address o : Z) : Prop :=
  address mod (2 ^ o * PAGE) = 0 ∧ ∃ r, r ∈ usable_of layout ∧ r.(rg_base) ≤ address ∧ address + 2 ^ o * PAGE ≤ r.(rg_base) + r.(rg_size).

Lemma managed_page layout rs x : bounds rs = bounds (take_over 0 (usable_of layout)) → page_of rs x ↔ managed layout x.
Proof. intros E. rewrite (page_of_bounds rs (take_over 0 (usable_of layout)) x E). apply take_over_page. Qed.
Lemma fits_layout layout a σ rs f address o : geometry a → arena a σ rs f → bounds rs = bounds (take_over 0 (usable_of layout)) → 0 ≤ o ≤ 31 →
  fits (extents_of a) address o ↔ natural layout address o.
Proof.
  intros Hgeo Har E Ho. rewrite (fits_natural a σ rs f address o Hgeo Har Ho). unfold natural. pose proof (pow_pos o ltac:(lia)).
  assert (Hspan : aligned address → (∃ g, g ∈ rs ∧ g.(g_base) ≤ address ∧ address + 2 ^ o * PAGE ≤ g.(g_end)) ↔
    ∃ r, r ∈ usable_of layout ∧ r.(rg_base) ≤ address ∧ address + 2 ^ o * PAGE ≤ r.(rg_base) + r.(rg_size)).
  { intros Hal. rewrite <-(take_over_span (usable_of layout) address (2 ^ o) Hal ltac:(lia) 0). rewrite (bounds_exists rs (λ b e, b ≤ address ∧ address + 2 ^ o * PAGE ≤ e)), E. symmetry.
    apply (bounds_exists (take_over 0 (usable_of layout)) (λ b e, b ≤ address ∧ address + 2 ^ o * PAGE ≤ e)). }
  split; intros [Hm Hx]; (split; [done|]); apply Hspan; try done; apply (mod_mul_page _ o); [lia|done|lia|done].
Qed.
(** The pages of a held block are managed and not reserved. *)
Lemma held_managed layout a σ fl rs f x o n y : pool a σ fl → arena a σ rs f → bounds rs = bounds (take_over 0 (usable_of layout)) →
  (spec_of a).(sp_blocks) !! x = Some (o, n) → y ∈ pages_of x o → managed layout y ∧ ¬ reserved a y.
Proof.
  intros Hp Har E (r & p & u & Hr & Hb & (Hib & Es & _) & -> & ->)%(lookup_blocks a σ fl Hp) Hy. pose proof (heap_geo _ _ _ _ (pool_heap _ _ _ Hp)) as Hgeo.
  apply (elem_of_block_pages a r p o) in Hy as (z & Hz & ->); [|done..]. pose proof (block_inside _ _ _ Hb). assert (Hh : holds_page r z) by (unfold holds_page; lia). split.
  - apply (managed_page layout rs _ E). eapply index_page, (arena_index a σ rs f Hgeo Har r z Hr Hh).
  - assert (Hno : ¬ f ≤ z < f + a.(a_metadata_pages)).
    { intros Hc. apply (ar_internal _ _ _ _ Har p o z Hib) in Hc; [by rewrite Es in Hc|rewrite Es; right; by left|done]. }
    destruct (arena_region a σ rs f Hgeo Har r z Hr Hh) as (R1 & _ & R3). unfold reserved. destruct (decide (z < f)); [specialize (R1 ltac:(lia)); plia|specialize (R3 ltac:(lia)); lia].
Qed.

(** C1: In every state that the kernel can reach after [finalize], the audit
    passes; the counter of available pages is the number of free pages; every
    page of the usable memory is free, held or reserved, and held blocks overlap
    neither each other nor the free or the reserved pages; and every call does
    what the abstract allocator does, or traps when that one does not allow it. *)
Theorem page_system_sound access layout a : (layout.(bl_usable_count) ≤ length layout.(bl_usable))%nat → Forall range_typed (usable_of layout) →
  system_reaches access layout a →
  physical_page_allocator_audit a = Done PHYSICAL_PAGE_STATUS_OK ∧
  Z.of_nat (size (spec_of a).(sp_free)) = a.(a_available_pages) ∧
  (∀ x, managed layout x → x ∈ (spec_of a).(sp_free) ∨ (∃ y o n, (spec_of a).(sp_blocks) !! y = Some (o, n) ∧ x ∈ pages_of y o) ∨ reserved a x) ∧
  (∀ x o n, (spec_of a).(sp_blocks) !! x = Some (o, n) → pages_of x o ## (spec_of a).(sp_free) ∧
     (∀ y, y ∈ pages_of x o → managed layout y ∧ ¬ reserved a y) ∧
     ∀ y k m, (spec_of a).(sp_blocks) !! y = Some (k, m) → x ≠ y → pages_of x o ## pages_of y k) ∧
  (∀ op, op_typed op →
     if decide (allowed (spec_of a) op) then ∃ ans a', exec a op = Done (ans, a') ∧ page_step (extents_of a) (spec_of a) op ans (spec_of a')
     else exec a op = trap).
Proof.
  intros Hlen Ht Hr. destruct (system_reaches_inv access layout a Hlen Ht Hr) as (σ & fl & rs & f & Hp & Har & E). split_and!.
  - by apply (audit_run a σ fl rs f).
  - by apply (free_size a σ fl).
  - intros x Hx. apply (managed_page layout rs x E) in Hx. by apply (page_cases a σ fl Hp rs f).
  - intros x o n Hx. split_and!; [by apply (held_not_free a σ fl Hp x o n)|by intros y Hy; apply (held_managed layout a σ fl rs f x o n y)|].
    intros y k m Hy Hne. by apply (held_apart a σ fl Hp x o n y k m).
  - intros op Hop. destruct (decide _) as [Hall|Hno]; [|by apply (exec_refused a σ fl)].
    destruct (exec_refined a σ fl op Hp Hop Hall) as (ans & a' & _ & _ & E2 & _ & _ & Hs). by exists ans, a'.
Qed.

(** C5: An allocation of order [o] succeeds exactly when some naturally aligned
    block of [2^o] pages inside one usable range is free; it then takes one such
    block, with reference count 1, and nothing else. *)
Theorem page_allocate_exact access layout a o : (layout.(bl_usable_count) ≤ length layout.(bl_usable))%nat → Forall range_typed (usable_of layout) →
  system_reaches access layout a → 0 ≤ o ≤ 31 →
  (∃ address a', physical_page_allocate_order_once a o = Done (PHYSICAL_PAGE_STATUS_OK, a', Some address) ∧
     natural layout address o ∧ pages_of address o ⊆ (spec_of a).(sp_free) ∧
     spec_of a' = mk_spec ((spec_of a).(sp_free) ∖ pages_of address o) (<[address := (o, 1)]> (spec_of a).(sp_blocks))) ∨
  (∃ a', physical_page_allocate_order_once a o = Done (PHYSICAL_PAGE_STATUS_EMPTY, a', None) ∧ spec_of a' = spec_of a ∧
     ∀ address, natural layout address o → ¬ pages_of address o ⊆ (spec_of a).(sp_free)).
Proof.
  intros Hlen Ht Hr Ho. destruct (system_reaches_inv access layout a Hlen Ht Hr) as (σ & fl & rs & f & Hp & Har & E).
  pose proof (heap_geo _ _ _ _ (pool_heap _ _ _ Hp)) as Hgeo. destruct (allocate_refined a σ fl o Hp Ho) as (ans & a' & _ & _ & Ex & _ & _ & Hs).
  unfold exec in Ex. destruct (physical_page_allocate_order_once a o) as [[[s a2] address]|] eqn:E1; [|done]. cbn in Ex. injection Ex as <- <-.
  remember (spec_of a2) as s2 eqn:Es2. remember (spec_of a) as s1 eqn:Es1. inversion Hs as [o' address' Hfit Hsub|o' Hno| | | | | | |]; subst.
  - left. exists address', a2. split_and!; try done. by apply (fits_layout layout a σ rs f).
  - right. exists a2. split_and!; try done. intros x Hx. apply Hno. by apply (fits_layout layout a σ rs f).
Qed.

(** ** Before [finalize] *)
(** The ranges in the table, and the pages of callers among them. *)
Definition live (a : physical_page_allocator) : list physical_page_range := take (Z.to_nat a.(a_range_count)) a.(a_ranges).
Lemma live_ranges access mem a rs chain : boot_ok access mem a rs chain → live a = rs.
Proof. intros Hb. destruct (bo_ranges _ _ _ _ _ Hb) as [post E]. unfold live. by rewrite E, (bo_count _ _ _ _ _ Hb), Nat2Z.id, take_app_length. Qed.
Lemma held_size access mem a rs chain (held : gset Z) : boot_ok access mem a rs chain → (∀ x, x ∈ held ↔ in_use rs chain x) →
  Z.of_nat (size held) = a.(a_total_pages) - a.(a_available_pages).
Proof.
  intros Hb Hh. pose proof (bo_ok _ _ _ _ _ Hb) as Hok. rewrite (total_pages access mem a rs chain Hb), (bo_available _ _ _ _ _ Hb).
  assert (Hperm : handed_pages rs ≡ₚ elements held ++ chain).
  { apply NoDup_Permutation; [apply handed_nodup; apply Hok|apply NoDup_app; split_and!; [apply NoDup_elements| |apply Hb]|].
    - intros x Hx Hc. by apply elem_of_elements, Hh in Hx as [_ ?].
    - intros x. rewrite (elem_of_handed rs x (ro_each _ _ Hok)), elem_of_app, elem_of_elements, Hh. pose proof (bo_handed _ _ _ _ _ Hb x). unfold in_use. destruct (decide (x ∈ chain)); tauto. }
  apply Permutation_length in Hperm. rewrite length_app in Hperm. unfold size, set_size. simpl. lia.
Qed.

(** C19: Before [finalize], callers hold only whole pages of the usable memory and
    the counters agree with what they hold; an allocation returns a page that
    nobody holds and fails only when none is left; a release succeeds exactly for
    a page that is held, once the page access callback is bound, and traps
    otherwise. *)
Theorem page_bootstrap_exact access layout mem a held : (layout.(bl_usable_count) ≤ length layout.(bl_usable))%nat → Forall range_typed (usable_of layout) →
  boot_reaches access layout mem a held →
  (∀ x, x ∈ held → managed layout x) ∧ Z.of_nat (size held) = a.(a_total_pages) - a.(a_available_pages) ∧
  ((a.(a_available_pages) = 0 ∧ physical_page_allocate access mem a = Done (PHYSICAL_PAGE_STATUS_EMPTY, a, None)) ∨
   ∃ x a', physical_page_allocate access mem a = Done (PHYSICAL_PAGE_STATUS_OK, a', Some x) ∧ managed layout x ∧ x ∉ held ∧
     a'.(a_available_pages) = a.(a_available_pages) - 1) ∧
  (∀ x, if decide (x ∈ held ∧ a.(a_access) = true)
        then ∃ mem' a', physical_page_release access mem a x = Done (PHYSICAL_PAGE_STATUS_OK, mem', a') ∧ a'.(a_available_pages) = a.(a_available_pages) + 1
        else physical_page_release access mem a x = trap).
Proof.
  intros Hlen Ht Hr. destruct (boot_reaches_inv access layout mem a held Hlen Ht Hr) as (rs & chain & Hb & E & Hh). pose proof (ro_each _ _ (bo_ok _ _ _ _ _ Hb)) as Hok. split_and!.
  - intros x [Hx _]%Hh. apply (managed_page layout rs x E). by apply (handed_page rs x Hok).
  - by apply (held_size access mem a rs chain).
  - rewrite (proj1 (boot_dispatch access mem a rs chain 0 Hb)). destruct (allocate_bootstrap_run access mem a rs chain Hb) as [H|(x & a' & rs' & chain' & Ex & _ & Hp & Hn & _ & _ & _ & Hav)]; [by left|right].
    exists x, a'. split_and!; [done|by apply (managed_page layout rs x E)|by rewrite Hh|done].
  - intros x. rewrite (proj2 (boot_dispatch access mem a rs chain x Hb)). destruct (decide (x ∈ held ∧ _)) as [[Hx Hacc]|Hno].
    + destruct (release_bootstrap_run access mem a rs chain x Hb (proj1 (Hh x) Hx) Hacc) as (mem' & a' & Ex & _ & _ & Hav). by exists mem', a'.
    + apply (release_bootstrap_refused access mem a rs chain x Hb). rewrite <-Hh. destruct a.(a_access); [left; tauto|by right].
Qed.

(** The first range with room for [span] bytes. *)
Definition selects (span : Z) (rs l1 : list physical_page_range) (g : physical_page_range) (l2 : list physical_page_range) : Prop :=
  rs = l1 ++ g :: l2 ∧ Forall (λ h, h.(g_end) - h.(g_next) < span) l1 ∧ span ≤ g.(g_end) - g.(g_next).
(** C12: what [finalize] answers is decided by four exclusive cases: [STATE]
    exactly without the access callback; [EMPTY] exactly when no range has room
    for the arrays; otherwise the first range with room is selected, and the
    answer is [INVALID] exactly when the callback does not map its room
    contiguously.  A refusal changes nothing.  Otherwise it returns with its audit
    passed, the arrays reserve exactly that room, every page that a caller holds
    is a block of one page with one reference, and exactly the other pages are
    free. *)
Theorem page_finalize_exact access layout mem a held junk junk_root : (layout.(bl_usable_count) ≤ length layout.(bl_usable))%nat → Forall range_typed (usable_of layout) →
  boot_reaches access layout mem a held →
  let pages := reserve_pages (live a) a.(a_total_pages) in
  let finalize := physical_page_allocator_finalize access junk junk_root mem a in
  (a.(a_access) = false ∧ finalize = Done (PHYSICAL_PAGE_STATUS_STATE, a)) ∨
  (a.(a_access) = true ∧ Forall (λ g, g.(g_end) - g.(g_next) < pages * PAGE) (live a) ∧ finalize = Done (PHYSICAL_PAGE_STATUS_EMPTY, a)) ∨
  (a.(a_access) = true ∧ ∃ l1 g l2, selects (pages * PAGE) (live a) l1 g l2 ∧ ¬ contiguous access g.(g_next) (pages * PAGE) ∧ finalize = Done (PHYSICAL_PAGE_STATUS_INVALID, a)) ∨
  (a.(a_access) = true ∧ ∃ l1 g l2 a', selects (pages * PAGE) (live a) l1 g l2 ∧ contiguous access g.(g_next) (pages * PAGE) ∧
     finalize = Done (PHYSICAL_PAGE_STATUS_OK, a') ∧ a'.(a_metadata_address) = g.(g_next) ∧ a'.(a_metadata_pages) = pages ∧
     ∀ x, (x ∈ (spec_of a').(sp_free) ↔ managed layout x ∧ x ∉ held ∧ ¬ reserved a' x) ∧
       ∀ o n, (spec_of a').(sp_blocks) !! x = Some (o, n) ↔ x ∈ held ∧ o = 0 ∧ n = 1).
Proof.
  intros Hlen Ht Hr pages finalize. destruct (boot_reaches_inv access layout mem a held Hlen Ht Hr) as (rs & chain & Hb & E & Hh).
  pose proof (live_ranges access mem a rs chain Hb) as El. unfold pages, finalize in *. rewrite El. destruct (a.(a_access)) eqn:Hacc.
  - right. destruct (select_range_run access mem a rs chain Hb rs [] eq_refl) as [[Hno _]|(l1 & g & l2 & Er & Hno & Hroom & _)].
    + left. split; [done|]. split; [|by apply finalize_empty with (rs := rs) (chain := chain)]. apply (Forall_impl _ _ _ Hno). intros g Hg. unfold roomy in Hg. lia.
    + right. destruct (finalize_room access mem a rs chain junk junk_root Hb Hacc l1 g l2 Er Hno Hroom) as [Hbad Hgood].
      assert (Hsel : selects (reserve_pages rs a.(a_total_pages) * PAGE) rs l1 g l2) by (split_and!; [done|apply (Forall_impl _ _ _ Hno); intros h Hh'; unfold roomy in Hh'; lia|exact Hroom]).
      destruct (decide (contiguous access g.(g_next) (reserve_pages rs a.(a_total_pages) * PAGE))) as [Hc|Hc]; [right|left; split; [done|]; exists l1, g, l2; split; [done|]; by split; [|apply Hbad]]. split; [done|].
      destruct (Hgood Hc) as (a' & σ & fl & Ex & [_ _ F3 F4 F5 F6]). exists l1, g, l2, a'. unfold reserved. rewrite F3, F4, <-Er in *. split_and!; [exact Hsel|exact Hc|done|done|done|]. intros x. split.
      * rewrite F5, Hh. by rewrite (managed_page layout rs x E).
      * intros o n. by rewrite F6, Hh.
  - left. split; [done|]. unfold physical_page_allocator_finalize. rewrite decide_False by (by rewrite (bo_initialized _ _ _ _ _ Hb)). by rewrite decide_True by (by right).
Qed.

(** C23: [init] accepts exactly sorted, disjoint, non-empty ranges inside the
    address space that hold at most [2^32 - 1] pages, and leaves the allocator
    alone otherwise; it reports EMPTY exactly when no page fits, and else manages
    exactly the whole pages of the ranges, all of them available. *)
Theorem page_init_exact old layout : (layout.(bl_usable_count) ≤ length layout.(bl_usable))%nat → Forall range_typed (usable_of layout) →
  (¬ init_accepts layout ∧ physical_page_allocator_init old layout = Done (PHYSICAL_PAGE_STATUS_INVALID, old)) ∨
  (init_accepts layout ∧ (∀ x, ¬ managed layout x) ∧ physical_page_allocator_init old layout = Done (PHYSICAL_PAGE_STATUS_EMPTY, old)) ∨
  (init_accepts layout ∧ ∃ a (all : gset Z), physical_page_allocator_init old layout = Done (PHYSICAL_PAGE_STATUS_OK, a) ∧
     (∀ x, x ∈ all ↔ managed layout x) ∧ a.(a_total_pages) = Z.of_nat (size all) ∧ a.(a_available_pages) = Z.of_nat (size all) ∧ all ≠ ∅).
Proof.
  intros Hlen Ht. destruct (init_run old layout Hlen Ht) as (Hno & Hempty & Hyes). destruct (decide (init_accepts layout)) as [Hacc|Hacc]; [|left; split; [done|by apply Hno]].
  pose proof Hacc as (_ & Hu & Hw). pose proof (take_over_ok _ Ht Hu Hw) as Hok. set (rs := take_over 0 (usable_of layout)) in *.
  set (all := list_to_set (virgin_pages rs) : gset Z). assert (Hall : ∀ x, x ∈ all ↔ managed layout x).
  { intros x. unfold all. rewrite elem_of_list_to_set, (elem_of_virgin rs x (ro_each _ _ Hok)). unfold managed. rewrite <-(take_over_page (usable_of layout) x 0). fold rs. unfold page_of.
    split; intros (Hal & g & Hg & Hx); (split; [done|]); exists g; (split; [done|]); destruct (take_over_base _ _ _ _ Ht Hu Hg) as (_ & Hgk & En); pose proof (rk_bounds _ Hgk); lia. }
  assert (Hsz : Z.of_nat (size all) = whole_pages (usable_of layout)).
  { unfold all. rewrite size_list_to_set by (apply virgin_nodup; apply Hok). pose proof (pages_total 0 rs _ (ro_each _ _ Hok) (ro_laid _ _ Hok)) as E. unfold rs in E at 1. rewrite take_over_virgin in E by done. simpl in E. lia. }
  destruct (decide (whole_pages (usable_of layout) = 0)) as [E0|Hne]; right; [left|right].
  - split; [done|]. split; [|by apply Hempty]. intros x Hx%Hall. assert (Hz : size all = 0%nat) by lia. apply size_empty_inv in Hz. set_solver.
  - split; [done|]. eexists _, all. split; [by apply Hyes|]. split; [done|]. simpl. split; [lia|]. split; [lia|]. intros ->. rewrite size_empty in Hsz. simpl in Hsz. lia.
Qed.

(** C13: From the device tree to the allocator.  With the layout that
    [boot_memory_build] computes, [init] answers [INVALID] exactly when the usable
    ranges hold more than [2^32 - 1] whole pages (never with less than 16 TiB of
    memory), [EMPTY] exactly when they hold none, and otherwise succeeds with all
    of them; and every byte of a page that is ever handed out, before or after
    [finalize], is memory that neither the kernel image, the device tree nor a
    reserved range occupies. *)
Theorem boot_pages_free junk info kernel_start kernel_end dtb layout : build_typed info kernel_start kernel_end dtb → build_accepts info kernel_start kernel_end dtb →
  boot_memory_build junk info kernel_start kernel_end dtb = Done (BOOT_MEMORY_STATUS_OK, Some layout) →
  let pages := whole_pages (usable_of layout) in
  (∀ old, if decide (UINT32_MAX < pages) then physical_page_allocator_init old layout = Done (PHYSICAL_PAGE_STATUS_INVALID, old)
          else if decide (pages = 0) then physical_page_allocator_init old layout = Done (PHYSICAL_PAGE_STATUS_EMPTY, old)
          else ∃ a, physical_page_allocator_init old layout = Done (PHYSICAL_PAGE_STATUS_OK, a) ∧ a.(a_total_pages) = pages ∧ a.(a_available_pages) = pages) ∧
  pages * PAGE ≤ info.(bi_memory).(rg_size) ∧
  (∀ access mem a held x y, boot_reaches access layout mem a held → x ∈ held → x ≤ y < x + PAGE →
     info.(bi_memory).(rg_base) ≤ y < rg_end info.(bi_memory) ∧ ¬ occupied info kernel_start kernel_end dtb y) ∧
  (∀ access a x o n p y, system_reaches access layout a → (spec_of a).(sp_blocks) !! x = Some (o, n) → p ∈ pages_of x o → p ≤ y < p + PAGE →
     info.(bi_memory).(rg_base) ≤ y < rg_end info.(bi_memory) ∧ ¬ occupied info kernel_start kernel_end dtb y).
Proof.
  intros Hty Hac E pages. assert (Hex : layout_exact info kernel_start kernel_end dtb layout).
  { destruct (build_exact junk info kernel_start kernel_end dtb Hty Hac) as [(l & E2 & Hl)|[E2 _]]; rewrite E2 in E; by simplify_eq. }
  assert (H0 : 0 ≤ info.(bi_memory).(rg_base) ∧ rg_end info.(bi_memory) ≤ UINT64_MAX) by (destruct Hty, Hac as (_ & _ & ? & _); done). destruct H0 as [H0 H1].
  destruct (layout_accepted info kernel_start kernel_end dtb layout Hex H0 H1) as (Hacc & Hsz & Ht & Hlen).
  assert (Hfree : ∀ x y, managed layout x → x ≤ y < x + PAGE → info.(bi_memory).(rg_base) ≤ y < rg_end info.(bi_memory) ∧ ¬ occupied info kernel_start kernel_end dtb y).
  { intros x y Hx. apply (managed_free info kernel_start kernel_end dtb layout x y Hex). by apply take_over_page. }
  split_and!.
  - intros old. destruct (init_run old layout Hlen Ht) as (Hno & Hempty & Hyes). unfold pages. rewrite Hacc in Hno, Hempty, Hyes. case_decide; [apply Hno; lia|]. case_decide; [apply Hempty; [lia|done]|].
    eexists. split; [apply Hyes; [lia|done]|done].
  - exact Hsz.
  - intros access mem a held x y Hr Hx. apply Hfree. destruct (boot_reaches_inv access layout mem a held Hlen Ht Hr) as (rs & chain & Hb & Eb & Hh).
    apply (managed_page layout rs x Eb). destruct (proj1 (Hh x) Hx) as [Hu _]. by apply (handed_page rs x (ro_each _ _ (bo_ok _ _ _ _ _ Hb))).
  - intros access a x o n p y Hr Hx Hp. apply Hfree. destruct (system_reaches_inv access layout a Hlen Ht Hr) as (σ & fl & rs & f & Hpl & Har & Eb). by apply (held_managed layout a σ fl rs f x o n p).
Qed.

(** C22: The read-only lookup of the block that holds an address, which trusts the
    page's metadata and one tree node, answers exactly as the walk from the root
    does, for every address. *)
Theorem owner_hint_exact access layout a address : (layout.(bl_usable_count) ≤ length layout.(bl_usable))%nat → Forall range_typed (usable_of layout) →
  system_reaches access layout a → is_u64 address →
  owner_at_address a address true = owner_at_address a address false.
Proof.
  intros Hlen Ht Hr Hu. destruct (system_reaches_inv access layout a Hlen Ht Hr) as (σ & fl & rs & f & Hp & _).
  destruct (decide (Z.land address BOAROS_PAGE_MASK = 0)) as [Hal|Hal]; [|unfold owner_at_address; by rewrite !decide_True by done].
  destruct (lookup_cases a σ fl address Hp Hu Hal) as [(_ & Hno & _)|(r & z & Hr' & Hz & ->)]; [by rewrite !Hno|]. by apply (owner_hint_walk a σ fl Hp).
Qed.

(** ** A small machine *)
(** Two usable ranges with 9 and 5 whole pages, mapped at an offset. *)
Definition demo_layout : boot_memory_layout := {|
  bl_reserved_count := 0; bl_usable_count := 2; bl_reserved := [];
  bl_usable := mk_range 0x80000800 0x9800 :: mk_range 0x90003000 0x5000 :: replicate (BOOT_MEMORY_MAX_USABLE_RANGES - 2) (mk_range 0 0) |}.
Definition demo_access (x : Z) : Z := x + 0x1000000000.
Definition demo_ranges : list physical_page_range := take_over 0 (usable_of demo_layout).
Definition demo_mem : memory :=
  list_to_map (concat (map (λ x, map (λ k, (demo_access x + k, 0)) (seqZ 0 8)) (virgin_pages demo_ranges))).
Lemma demo_length : (demo_layout.(bl_usable_count) ≤ length demo_layout.(bl_usable))%nat.
Proof. by_decide. Qed.
Lemma demo_range_typed : Forall range_typed (usable_of demo_layout).
Proof. repeat constructor; by_decide. Qed.
Lemma demo_accepted : init_accepts demo_layout.
Proof. by_decide. Qed.
Lemma demo_pages_mapped : mapped demo_access demo_mem demo_ranges.
Proof.
  pose proof demo_accepted as (_ & Hu & Hw). pose proof (take_over_ok _ demo_range_typed Hu Hw) as Hok. fold demo_ranges in Hok.
  assert (Hpages : Forall (λ x, demo_access x ≠ 0 ∧ Forall (λ k, is_Some (demo_mem !! (demo_access x + k))) (seqZ 0 8)) (virgin_pages demo_ranges)) by by_decide.
  split.
  - intros x (Hal & g & Hg & Hx). assert (Hv : x ∈ virgin_pages demo_ranges).
    { apply elem_of_virgin; [apply Hok|]. split; [done|]. exists g. split; [done|]. destruct (take_over_base _ _ _ _ demo_range_typed Hu Hg) as (_ & _ & ->). lia. }
    rewrite Forall_forall in Hpages. destruct (Hpages x Hv) as [H1 H2]. split; [done|]. intros k Hk. rewrite Forall_forall in H2. apply H2, elem_of_seqZ. lia.
  - intros x y [Hx _] [Hy _] Hne. pose proof (aligned_exact x y Hx Hy). unfold demo_access. plia.
Qed.

Definition done_or {A} (d : A) (o : outcome A) : A := match o with Done x => x | Fault _ => d end.
(** Two pages are taken and the first is given back, then the buddy system is
    built. *)
Definition demo_init : physical_page_allocator := (done_or (PHYSICAL_PAGE_STATUS_OK, allocator_blank) (physical_page_allocator_init allocator_blank demo_layout)).2.
Definition demo_bound : physical_page_allocator := (physical_page_allocator_bind_access demo_init).2.
Definition demo_one : physical_page_allocator := (done_or (PHYSICAL_PAGE_STATUS_OK, demo_bound, None) (physical_page_allocate demo_access demo_mem demo_bound)).1.2.
Definition demo_two : physical_page_allocator := (done_or (PHYSICAL_PAGE_STATUS_OK, demo_one, None) (physical_page_allocate demo_access demo_mem demo_one)).1.2.
Definition demo_released : physical_page_status * memory * physical_page_allocator :=
  done_or (PHYSICAL_PAGE_STATUS_OK, demo_mem, demo_two) (physical_page_release demo_access demo_mem demo_two 0x80001000).
Definition demo_junk : physical_page_metadata := mk_metadata 7 7 7 7 7 7.
Definition demo_junk_root : physical_page_root := mk_root 1 2 3 4 5 6.
Definition demo_finalized : outcome (physical_page_status * physical_page_allocator) :=
  physical_page_allocator_finalize demo_access demo_junk demo_junk_root demo_released.1.2 demo_released.2.
Definition demo_system : physical_page_allocator := (done_or (PHYSICAL_PAGE_STATUS_OK, demo_two) demo_finalized).2.

Lemma demo_booted : boot_reaches demo_access demo_layout demo_mem demo_two {[0x80001000; 0x80002000]}.
Proof.
  assert (H0 : boot_reaches demo_access demo_layout demo_mem demo_init ∅) by (apply (boot_init _ _ _ allocator_blank); [exact demo_pages_mapped|by vm_compute]).
  assert (H1 : boot_reaches demo_access demo_layout demo_mem demo_bound ∅) by (by eapply boot_bind; [exact H0|apply surjective_pairing]).
  assert (H2 : boot_reaches demo_access demo_layout demo_mem demo_one (∅ ∪ list_to_set (option_list (Some 0x80001000)))) by (eapply boot_allocate; [exact H1|by vm_compute]).
  assert (H3 : boot_reaches demo_access demo_layout demo_mem demo_two (∅ ∪ list_to_set (option_list (Some 0x80001000)) ∪ list_to_set (option_list (Some 0x80002000)))) by (eapply boot_allocate; [exact H2|by vm_compute]).
  by replace ({[0x80001000; 0x80002000]} : gset Z) with (∅ ∪ list_to_set (option_list (Some 0x80001000)) ∪ list_to_set (option_list (Some 0x80002000)) : gset Z) by set_solver.
Qed.
Lemma demo_recycled : boot_reaches demo_access demo_layout demo_released.1.2 demo_released.2 ({[0x80001000; 0x80002000]} ∖ {[0x80001000]}).
Proof.
  apply (boot_release demo_access demo_layout demo_mem demo_two _ 0x80001000 PHYSICAL_PAGE_STATUS_OK demo_released.1.2 demo_released.2 demo_booted). vm_compute. reflexivity.
Qed.
Lemma demo_running : system_reaches demo_access demo_layout demo_system.
Proof. apply (system_start demo_access demo_layout _ _ _ demo_junk demo_junk_root demo_system demo_recycled). vm_compute. reflexivity. Qed.

Lemma page_system_sound_witness :
  physical_page_allocator_audit demo_system = Done PHYSICAL_PAGE_STATUS_OK ∧ Z.of_nat (size (spec_of demo_system).(sp_free)) = demo_system.(a_available_pages) ∧
  exec demo_system (Op_release 0x80001000 0) = trap ∧
  ∃ ans a', exec demo_system (Op_release 0x80002000 0) = Done (ans, a') ∧ page_step (extents_of demo_system) (spec_of demo_system) (Op_release 0x80002000 0) ans (spec_of a').
Proof.
  destruct (page_system_sound demo_access demo_layout demo_system demo_length demo_range_typed demo_running) as (H1 & H2 & _ & _ & H3).
  pose proof (H3 (Op_release 0x80001000 0) ltac:(by_decide)) as H4. rewrite decide_False in H4 by (apply (bool_decide_unpack (¬ _)); by vm_compute).
  pose proof (H3 (Op_release 0x80002000 0) ltac:(by_decide)) as H5. rewrite decide_True in H5 by (apply (bool_decide_unpack _); by vm_compute).
  exact (conj H1 (conj H2 (conj H4 H5))).
Defined.
Lemma page_allocate_exact_witness :
  ∃ address a', physical_page_allocate_order_once demo_system 2 = Done (PHYSICAL_PAGE_STATUS_OK, a', Some address) ∧ natural demo_layout address 2.
Proof.
  destruct (page_allocate_exact demo_access demo_layout demo_system 2 demo_length demo_range_typed demo_running ltac:(lia)) as [(x & a' & E & Hn & _)|(a' & E & _)].
  - exact (ex_intro _ x (ex_intro _ a' (conj E Hn))).
  - vm_compute in E. discriminate E.
Defined.
Lemma page_bootstrap_exact_witness :
  Z.of_nat (size ({[0x80001000; 0x80002000]} : gset Z)) = demo_two.(a_total_pages) - demo_two.(a_available_pages) ∧
  physical_page_release demo_access demo_mem demo_two 0x80003000 = trap.
Proof.
  destruct (page_bootstrap_exact demo_access demo_layout demo_mem demo_two _ demo_length demo_range_typed demo_booted) as (_ & H1 & _ & H2).
  pose proof (H2 0x80003000) as H3. rewrite (decide_False (P := 0x80003000 ∈ _ ∧ _)) in H3 by by_decide. exact (conj H1 H3).
Defined.
Lemma page_finalize_exact_witness :
  ∃ a', demo_finalized = Done (PHYSICAL_PAGE_STATUS_OK, a') ∧ (spec_of a').(sp_blocks) !! 0x80002000 = Some (0, 1) ∧ 0x80001000 ∈ (spec_of a').(sp_free).
Proof.
  destruct (page_finalize_exact demo_access demo_layout demo_released.1.2 demo_released.2 _ demo_junk demo_junk_root demo_length demo_range_typed demo_recycled)
    as [[_ H]|[(_ & _ & H)|[(_ & l1 & g & l2 & _ & _ & H)|(_ & l1 & g & l2 & a' & _ & _ & E & _ & Hp & H)]]]; [vm_compute in H; discriminate H..|].
  exists a'. split; [exact E|]. split; [apply (proj2 (H 0x80002000)); by_decide|]. apply (proj1 (H 0x80001000)). split; [exists (mk_range 0x80000800 0x9800); split; [by_decide|by_decide]|]. split; [by_decide|].
  assert (a' = demo_system) as -> by (pose proof E as E2; fold demo_finalized in E2; unfold demo_system; rewrite E2; reflexivity). intros [Hle _]. vm_compute in Hle. exact (Hle eq_refl).
Defined.
Lemma page_init_exact_witness : ∃ a (all : gset Z), physical_page_allocator_init allocator_blank demo_layout = Done (PHYSICAL_PAGE_STATUS_OK, a) ∧
  (∀ x, x ∈ all ↔ managed demo_layout x) ∧ a.(a_total_pages) = Z.of_nat (size all).
Proof.
  destruct (page_init_exact allocator_blank demo_layout demo_length demo_range_typed) as [[H _]|[(_ & _ & H)|(_ & a & all & E & H1 & H2 & _)]].
  - exfalso. exact (H demo_accepted).
  - vm_compute in H. discriminate H.
  - exists a, all. exact (conj E (conj H1 H2)).
Defined.
Lemma owner_hint_exact_witness : owner_at_address demo_system 0x80002000 true = owner_at_address demo_system 0x80002000 false.
Proof. exact (owner_hint_exact demo_access demo_layout demo_system 0x80002000 demo_length demo_range_typed demo_running ltac:(by_decide)). Defined.
(** The layout of the machine of [demo_info]. *)
Definition demo_boot_layout : boot_memory_layout :=
  match boot_memory_build (mk_range 0 0) demo_info 0x80200000 0x80400000 0x87e00000 with Done (_, Some l) => l | _ => demo_layout end.
Lemma boot_pages_free_witness :
  ∃ a, physical_page_allocator_init allocator_blank demo_boot_layout = Done (PHYSICAL_PAGE_STATUS_OK, a) ∧ a.(a_total_pages) = whole_pages (usable_of demo_boot_layout).
Proof.
  assert (Hbuild : boot_memory_build (mk_range 0 0) demo_info 0x80200000 0x80400000 0x87e00000 = Done (BOOT_MEMORY_STATUS_OK, Some demo_boot_layout)) by (vm_compute; reflexivity).
  pose proof (proj1 (boot_pages_free (mk_range 0 0) demo_info 0x80200000 0x80400000 0x87e00000 demo_boot_layout demo_typed demo_build_accepts Hbuild) allocator_blank) as H.
  rewrite !decide_False in H by by_decide. destruct H as (a & E & Ht & _). exists a. exact (conj E Ht).
Defined.
