(* ===== verification/PageReclaim.v ===== *)
(** * Allocation with reclaim ([kernel/physical_page.c])

    [physical_page_allocate_order] tries once; when nothing fits and a reclaimer
    is bound it lets the callbacks of the page cache give pages back, as long as
    they make progress, and tries again.  The callbacks are code outside this
    file: they act on a [world] of their own and may call the allocator, except
    [retain], which runs under the allocator's lock.  The word behind [depth()] is
    part of the world. *)
From S2P Require Import Prelude PhysicalPage.
#[local] Open Scope Z_scope.

Module PageReclaim.
Import PhysicalPage.

Section reclaim.
Context {world : Type}.

Definition callback : Type := world → physical_page_allocator → outcome (world * physical_page_allocator).
Record depth_word := mk_depth { d_get : world → Z; d_set : world → Z → world }.
Record physical_page_reclaim_hooks := mk_hooks {
  h_reclaim : option (world → physical_page_allocator → Z → outcome (Z * world * physical_page_allocator));
  h_notify : option callback;
  h_wait : option callback;
  h_depth : option depth_word;
  h_retain : option (world → world);
  h_release : option callback;
}.
Definition no_hooks : physical_page_reclaim_hooks := mk_hooks None None None None None None.

(** The allocator with its binding and its word [reclaiming]. *)
Record page_system := mk_system {
  sy_allocator : physical_page_allocator;
  sy_hooks : physical_page_reclaim_hooks;
  sy_reclaiming : Z;
  sy_world : world;
}.
Definition set_world (s : page_system) (w : world) (a : physical_page_allocator) : page_system :=
  mk_system a s.(sy_hooks) s.(sy_reclaiming) w.
Definition call (c : option callback) (s : page_system) : outcome page_system :=
  match c with
  | Some c => '(w, a) ← c s.(sy_world) s.(sy_allocator); Done (set_world s w a)
  | None => Done s
  end.
Definition retained (hooks : physical_page_reclaim_hooks) (w : world) : world :=
  match hooks.(h_retain) with Some retain => retain w | None => w end.

(** One attempt; the first one also borrows the binding, under the same lock. *)
Definition attempt (s : page_system) (order : Z) : outcome (physical_page_status * option Z * page_system) :=
  '(status, a, address) ← physical_page_allocate_order_once s.(sy_allocator) order;
  Done (status, address, set_world s s.(sy_world) a).
Definition first_attempt (s : page_system) (order : Z)
    : outcome (physical_page_status * option Z * physical_page_reclaim_hooks * page_system) :=
  if decide (allocator_initialized s.(sy_allocator) = false ∨ Z.of_nat PHYSICAL_PAGE_MAX_ORDER < order)
  then Done (PHYSICAL_PAGE_STATUS_INVALID, None, no_hooks, s)
  else if decide (physical_page_allocator_is_finalized s.(sy_allocator) = false)
  then Done (PHYSICAL_PAGE_STATUS_STATE, None, no_hooks, s)
  else
    '(status, address, s) ← attempt (set_world s (retained s.(sy_hooks) s.(sy_world)) s.(sy_allocator)) order;
    Done (status, address, s.(sy_hooks), s).

(** The word that keeps the reclaimer from running inside itself. *)
Definition depth_of (hooks : physical_page_reclaim_hooks) (s : page_system) : Z :=
  match hooks.(h_depth) with Some d => d.(d_get) s.(sy_world) | None => s.(sy_reclaiming) end.
Definition set_depth (hooks : physical_page_reclaim_hooks) (s : page_system) (value : Z) : page_system :=
  match hooks.(h_depth) with
  | Some d => set_world s (d.(d_set) s.(sy_world) value) s.(sy_allocator)
  | None => mk_system s.(sy_allocator) s.(sy_hooks) value s.(sy_world)
  end.

(** The loop: as often as the reclaimer reports progress. *)
Fixpoint reclaim_loop (fuel : nat) (reclaim : world → physical_page_allocator → Z → outcome (Z * world * physical_page_allocator))
    (s : page_system) (order : Z) : outcome (physical_page_status * option Z * page_system) :=
  match fuel with
  | O => Fault Out_of_fuel
  | S fuel =>
      '(released, w, a) ← reclaim s.(sy_world) s.(sy_allocator) (order_page_count order);
      '(status, address, s) ← attempt (set_world s w a) order;
      if decide (status = PHYSICAL_PAGE_STATUS_EMPTY ∧ released ≠ 0) then reclaim_loop fuel reclaim s order
      else Done (status, address, s)
  end.

Definition physical_page_allocate_order (fuel : nat) (s : page_system) (order : Z) : outcome (physical_page_status * option Z * page_system) :=
  '(status, address, hooks, s) ← first_attempt s order;
  s ← call hooks.(h_notify) s;
  '(status, address, s) ←
    match hooks.(h_reclaim) with
    | Some reclaim =>
        if decide (status = PHYSICAL_PAGE_STATUS_EMPTY ∧ depth_of hooks s = 0) then
          '(status, address, s) ← reclaim_loop fuel reclaim (set_depth hooks s 1) order;
          let s := set_depth hooks s 0 in
          match hooks.(h_wait) with
          | Some wait =>
              if decide (status = PHYSICAL_PAGE_STATUS_EMPTY ∧ physical_page_available s.(sy_allocator) < order_page_count order)
              then s ← call (Some wait) s; attempt s order
              else Done (status, address, s)
          | None => Done (status, address, s)
          end
        else Done (status, address, s)
    | None => Done (status, address, s)
    end;
  s ← call hooks.(h_release) s;
  Done (status, address, s).

(** The binding holds one reference of its own. *)
Definition physical_page_allocator_set_reclaimer (s : page_system) (hooks : physical_page_reclaim_hooks) : physical_page_status * page_system :=
  if decide (physical_page_allocator_is_finalized s.(sy_allocator) = false ∨ hooks.(h_reclaim) = None ∨
             bool_decide (is_Some hooks.(h_retain)) ≠ bool_decide (is_Some hooks.(h_release)))
  then (PHYSICAL_PAGE_STATUS_INVALID, s)
  else match s.(sy_hooks).(h_reclaim) with
       | Some _ => (PHYSICAL_PAGE_STATUS_STATE, s)
       | None => (PHYSICAL_PAGE_STATUS_OK, mk_system s.(sy_allocator) hooks s.(sy_reclaiming) (retained hooks s.(sy_world)))
       end.
Definition physical_page_allocator_clear_reclaimer (s : page_system) : outcome (physical_page_status * page_system) :=
  if decide (physical_page_allocator_is_finalized s.(sy_allocator) = false) then Done (PHYSICAL_PAGE_STATUS_INVALID, s)
  else match s.(sy_hooks).(h_reclaim) with
       | None => Done (PHYSICAL_PAGE_STATUS_STATE, s)
       | Some _ =>
           let hooks := s.(sy_hooks) in
           s ← call hooks.(h_release) (mk_system s.(sy_allocator) no_hooks s.(sy_reclaiming) s.(sy_world));
           Done (PHYSICAL_PAGE_STATUS_OK, s)
       end.
End reclaim.
Arguments callback : clear implicits.
Arguments physical_page_reclaim_hooks : clear implicits.
Arguments page_system : clear implicits.
Arguments depth_word : clear implicits.

End PageReclaim.
