(* ===== verification/PageReclaimTheory.v ===== *)
(** * The page allocator for its clients, and allocation with reclaim *)
From S2P Require Import Prelude BootMemory BootMemoryTheory PhysicalPage PageBoot PageFinal PageSpec PageStateTheory PageFreeTheory PageAllocTheory PageReleaseTheory PageRefine PageBuildTheory PageLayTheory PageBootTheory PageAuditTheory PageFinalTheory PageClaims PageReclaim.
Import BootMemory PhysicalPage PageBoot PageFinal PageSpec.
#[local] Open Scope Z_scope.

Definition serving (layout : boot_memory_layout) (a : physical_page_allocator) : Prop := system_inv layout a ∧ a.(a_access) = true.
#[local] Abbreviation free a := (spec_of a).(sp_free).
#[local] Abbreviation blocks a := (spec_of a).(sp_blocks).

Lemma serving_reached access layout a : (layout.(bl_usable_count) ≤ length layout.(bl_usable))%nat → Forall range_typed (usable_of layout) →
  system_reaches access layout a → serving layout a.
Proof.
  intros Hlen Ht Hr. split; [by apply (system_reaches_inv access)|]. induction Hr as [mem a held junk junk_root a' Hr E|a op ans a' Hr IH Hop E].
  - destruct (boot_reaches_inv access layout mem a held Hlen Ht Hr) as (rs & chain & Hb & _).
    by destruct (finalize_ok access mem a rs chain junk junk_root a' Hb E) as (l1 & g & l2 & σ & fl & _ & Hf & _); destruct Hf.
  - destruct (system_reaches_inv access layout a Hlen Ht Hr) as (σ & fl & _ & _ & Hp & _).
    destruct (decide (allowed (spec_of a) op)) as [Hall|Hno]; [|by rewrite (exec_refused a σ fl op Hp Hop Hno) in E].
    destruct (exec_refined a σ fl op Hp Hop Hall) as (ans2 & a2 & σ2 & fl2 & E2 & _ & Hk & _). rewrite E2 in E. injection E as <- <-. by rewrite (kept_access _ _ _ _ Hk).
Qed.

Section serving.
Context (layout : boot_memory_layout).
#[local] Abbreviation serves := (serving layout).

Lemma serving_exec a op : serves a → op_typed op → allowed (spec_of a) op →
  ∃ ans a', exec a op = Done (ans, a') ∧ serves a' ∧ page_step (extents_of a) (spec_of a) op ans (spec_of a').
Proof.
  intros [(σ & fl & rs & f & Hp & Har & E) Hacc] Hop Hall. destruct (exec_refined a σ fl op Hp Hop Hall) as (ans & a' & σ' & fl' & Ex & Hp' & Hk & Hs).
  exists ans, a'. split; [done|]. split; [|done]. split; [|by rewrite (kept_access _ _ _ _ Hk)]. exists σ', fl', rs, f. split_and!; [done|by apply (arena_kept a σ fl a' σ' fl')|done].
Qed.
Lemma serving_fits a x o : serves a → 0 ≤ o ≤ 31 → fits (extents_of a) x o ↔ natural layout x o.
Proof. intros [(σ & fl & rs & f & Hp & Har & E) _] Ho. apply (fits_layout layout a σ rs f); try done. apply (heap_geo _ _ _ _ (pool_heap _ _ _ Hp)). Qed.
Lemma serving_finalized a : serves a → physical_page_allocator_is_finalized a = true ∧ allocator_initialized a = true.
Proof. intros [(σ & fl & rs & f & Hp & _) _]. split; [apply Hp|by apply (pool_initialized a σ fl)]. Qed.

(** ** The calls *)
Lemma serving_allocate a o : serves a → 0 ≤ o ≤ 31 →
  (∃ x a', physical_page_allocate_order_once a o = Done (PHYSICAL_PAGE_STATUS_OK, a', Some x) ∧ serves a' ∧ natural layout x o ∧ pages_of x o ⊆ free a ∧
     spec_of a' = mk_spec (free a ∖ pages_of x o) (<[x := (o, 1)]> (blocks a))) ∨
  (∃ a', physical_page_allocate_order_once a o = Done (PHYSICAL_PAGE_STATUS_EMPTY, a', None) ∧ serves a' ∧ spec_of a' = spec_of a ∧
     ∀ x, natural layout x o → ¬ pages_of x o ⊆ free a).
Proof.
  intros Hs Ho. destruct (serving_exec a (Op_allocate o) Hs Ho I) as (ans & a' & Ex & Hs' & Hst). unfold exec in Ex.
  destruct (physical_page_allocate_order_once a o) as [[[st a1] ad]|] eqn:E1; [|done]. cbn in Ex. injection Ex as <- <-. remember (spec_of a1) as s1 eqn:Es.
  inversion Hst; subst.
  - left. exists address, a1. split_and!; try done. by apply (serving_fits a).
  - right. exists a1. split_and!; try done. intros x Hx. match goal with H : ∀ _, fits _ _ _ → _ |- _ => by apply H, (serving_fits a) end.
Qed.
Lemma serving_release a x o : serves a → is_u64 x → 0 ≤ o ≤ 31 → blocks a !! x = Some (o, 1) →
  ∃ a', physical_page_release_order a x o = Done (PHYSICAL_PAGE_STATUS_OK, a') ∧ serves a' ∧
    spec_of a' = mk_spec (free a ∪ pages_of x o) (delete x (blocks a)).
Proof.
  intros Hs Hx Ho Hb. destruct (serving_exec a (Op_release x o) Hs) as (ans & a' & Ex & Hs' & Hst); [done|by exists 1|]. unfold exec in Ex.
  destruct (physical_page_release_order a x o) as [[st a1]|] eqn:E1; [|done]. cbn in Ex. injection Ex as <- <-. remember (spec_of a1) as s1 eqn:Es.
  inversion Hst; subst; [|by exists a1]. match goal with H : blocks a !! x = Some (o, ?n) |- _ => rewrite Hb in H; simplify_eq end. lia.
Qed.
Lemma serving_order a x : serves a → is_u64 x →
  physical_page_allocation_order a x =
    Done (match blocks a !! x with
          | Some (o, _) => (PHYSICAL_PAGE_STATUS_OK, Some o)
          | None => (if decide (x ∈ free a) then PHYSICAL_PAGE_STATUS_DOUBLE_FREE else PHYSICAL_PAGE_STATUS_INVALID, None)
          end).
Proof.
  intros Hs Hx. destruct (serving_exec a (Op_order x) Hs Hx I) as (ans & a' & Ex & Hs' & Hst). unfold exec in Ex.
  destruct (physical_page_allocation_order a x) as [[st o]|] eqn:E1; [|done]. cbn in Ex. injection Ex as <- <-. f_equal. remember (spec_of a) as s1 eqn:Es.
  inversion Hst; subst.
  - match goal with H : blocks a !! x = Some _ |- _ => by rewrite H end.
  - rewrite decide_True by done. destruct (blocks a !! x) as [[o n]|] eqn:Eb; [|done]. exfalso.
    destruct Hs as [(σ & fl & rs & f & Hp & _) _]. pose proof (held_not_free a σ fl Hp x o n Eb) as Hd. apply (Hd x); [|done].
    apply elem_of_pages. exists 0. split; [|lia]. apply (lookup_blocks a σ fl Hp) in Eb as (r & p & y & _ & Hb & _). destruct Hb as (? & _). pose proof (pow_pos o). lia.
  - match goal with H : blocks a !! x = None |- _ => by rewrite H, decide_False by done end.
Qed.
Lemma serving_resolve access a x o n : serves a → is_u64 x → blocks a !! x = Some (o, n) → access x ≠ 0 →
  physical_page_resolve access a x = Done (PHYSICAL_PAGE_STATUS_OK, Some (access x)).
Proof.
  intros Hs Hx Hb Hax. pose proof (serving_order a x Hs Hx) as E. rewrite Hb in E. unfold physical_page_allocation_order in E. unfold physical_page_resolve.
  destruct (serving_finalized a Hs) as [Hf Hi]. destruct Hs as [_ Hacc]. rewrite Hf, Hi, Hacc in *. rewrite !decide_False in E by done. rewrite !decide_False by done.
  destruct (owner_at_address a x true) as [[| |page owner]|]; run; try done. cbn [mbind outcome_bind] in E.
  destruct (decide (o_state owner = BUDDY_FREE)); [done|]. destruct (decide (o_state owner ≠ BUDDY_ALLOCATED ∨ _)) as [|Hd]; [done|]. rewrite decide_False by tauto.
  destruct (head_valid a owner) as [[]|]; [|done..]. run. rewrite trap_if_ok by done. by run.
Qed.

(** ** Held blocks *)
Lemma serving_block a x o n : serves a → blocks a !! x = Some (o, n) → 0 ≤ o ≤ 31 ∧ natural layout x o ∧ is_u64 x ∧ 1 ≤ n.
Proof.
  intros Hs Hb. pose proof Hs as [(σ & fl & rs & f & Hp & Har & E) _]. pose proof (heap_geo _ _ _ _ (pool_heap _ _ _ Hp)) as Hgeo.
  pose proof Hb as Hb'. apply (lookup_blocks a σ fl Hp) in Hb' as (r & p & y & Hr & Hbl & Hy & -> & ->).
  destruct (held_leaf a σ fl p o y (pool_heap _ _ _ Hp) Hy) as (_ & _ & _ & _ & _ & Ho & Hok). split; [done|]. split; [|split].
  - apply (serving_fits a); [done|done|]. apply fits_block. by exists r, p.
  - pose proof (page_address_bounds a r p o Hgeo Hr Hbl) as (_ & _ & ? & ?). pose proof (pow_pos o ltac:(lia)). pmlia.
  - destruct Hok as (_ & _ & _ & _ & _ & H6). by destruct (H6 eq_refl) as (_ & [? _] & _).
Qed.
End serving.

(** ** Allocation with reclaim returns, and what it returns

    The callbacks belong to other components; [hooks_ok] is what they promise:
    from a serving allocator and a world that satisfies [J] a callback returns to
    such a state, related to the old one by [R], and the reclaimer cannot report
    progress more than [rounds] times.  Then the allocation returns, and its
    answer is the one of the abstract allocator at some moment of the call. *)
Import BootMemory PhysicalPage PageSpec PageReclaim.

Section reclaim.
Context {world : Type} (layout : boot_memory_layout).
Context (J : world → page_spec → Prop) (R : world → page_spec → world → page_spec → Prop) (rounds : world → nat).
#[local] Abbreviation serves := (serving layout).

(** A state in which a callback may run. *)
Definition ready (w : world) (a : physical_page_allocator) : Prop := serves a ∧ J w (spec_of a).
(** A block handed out, as the pool sees it. *)
Definition grant (s : page_spec) (x o : Z) : page_spec := mk_spec (s.(sp_free) ∖ pages_of x o) (<[x := (o, 1)]> s.(sp_blocks)).

Definition moves (w : world) (a : physical_page_allocator) (w' : world) (a' : physical_page_allocator) : Prop :=
  ready w' a' ∧ R w (spec_of a) w' (spec_of a').
Definition callback_ok (c : callback world) : Prop :=
  ∀ w a, ready w a → ∃ w' a', c w a = Done (w', a') ∧ moves w a w' a'.
Definition quiet_ok (f : world → world) : Prop := ∀ w a, ready w a → moves w a (f w) a ∧ (rounds (f w) ≤ rounds w)%nat.

Record hooks_ok (hooks : physical_page_reclaim_hooks world) : Prop := {
  ho_reclaim c : hooks.(h_reclaim) = Some c → ∀ w a n, ready w a →
    ∃ released w' a', c w a n = Done (released, w', a') ∧ moves w a w' a' ∧ (released ≠ 0 → (rounds w' < rounds w)%nat);
  ho_notify c : hooks.(h_notify) = Some c → ∀ w a, ready w a →
    ∃ w' a', c w a = Done (w', a') ∧ moves w a w' a' ∧ (rounds w' ≤ rounds w)%nat;
  ho_wait c : hooks.(h_wait) = Some c → callback_ok c;
  ho_release c : hooks.(h_release) = Some c → callback_ok c;
  ho_retain f : hooks.(h_retain) = Some f → quiet_ok f;
  ho_depth d v : hooks.(h_depth) = Some d → quiet_ok (λ w, d.(d_set) w v);
}.
Lemma no_hooks_ok : hooks_ok no_hooks.
Proof. by split. Qed.

(** What the other components' invariant must bear: blocks being handed out. *)
Class Growing : Prop := {
  gr_refl w s : R w s w s;
  gr_trans w1 s1 w2 s2 w3 s3 : R w1 s1 w2 s2 → R w2 s2 w3 s3 → R w1 s1 w3 s3;
  gr_grant w s x o : J w s → 0 ≤ o ≤ 31 → natural layout x o → pages_of x o ⊆ s.(sp_free) → J w (grant s x o);
}.
Context `{Growing} (hooks : physical_page_reclaim_hooks world) (Hok : hooks_ok hooks).

Definition same_binding (s s' : page_system world) : Prop := s'.(sy_hooks) = s.(sy_hooks) ∧ s'.(sy_reclaiming) = s.(sy_reclaiming).
#[local] Abbreviation specs s := (spec_of s.(sy_allocator)).
(** The answer at the moment [w], [p]. *)
Definition answers (order : Z) (w : world) (p : page_spec) (status : physical_page_status) (address : option Z) (p' : page_spec) : Prop :=
  (status = PHYSICAL_PAGE_STATUS_EMPTY ∧ address = None ∧ p' = p ∧ ∀ x, natural layout x order → ¬ pages_of x order ⊆ p.(sp_free)) ∨
  (∃ x, status = PHYSICAL_PAGE_STATUS_OK ∧ address = Some x ∧ natural layout x order ∧ pages_of x order ⊆ p.(sp_free) ∧ p' = grant p x order).
(** No block of the order is free. *)
Definition none_free (order : Z) (p : page_spec) : Prop := ∀ x, natural layout x order → ¬ pages_of x order ⊆ p.(sp_free).
(** An attempt somewhere on the way from [s] to [s']. *)
Definition attempted (order : Z) (s : page_system world) (status : physical_page_status) (address : option Z) (s' : page_system world) : Prop :=
  ready s'.(sy_world) s'.(sy_allocator) ∧ ∃ w p p', R s.(sy_world) (specs s) w p ∧ (∃ a, p = spec_of a ∧ ready w a) ∧ answers order w p status address p' ∧ R w p' s'.(sy_world) (specs s').

Lemma attempt_run order s : ready s.(sy_world) s.(sy_allocator) → 0 ≤ order ≤ 31 →
  ∃ status address a', attempt s order = Done (status, address, set_world s s.(sy_world) a') ∧
    attempted order s status address (set_world s s.(sy_world) a') ∧ (status = PHYSICAL_PAGE_STATUS_EMPTY → none_free order (specs s)).
Proof.
  intros [Hs Hj] Ho. unfold attempt. destruct (serving_allocate layout _ order Hs Ho) as [(x & a' & -> & Hs' & Hn & Hf & E)|(a' & -> & Hs' & E & Hno)]; run.
  - eexists _, _, a'. split; [done|]. assert (Hg : J s.(sy_world) (grant (specs s) x order)) by (by apply gr_grant).
    split; [|done]. split; [split; [done|]; simpl; by rewrite E|]. exists s.(sy_world), (specs s), (grant (specs s) x order). simpl. rewrite E.
    split; [apply gr_refl|]. split; [by exists s.(sy_allocator)|]. split; [right; by exists x|apply gr_refl].
  - eexists _, _, a'. split; [done|]. split; [|done]. split; [split; [done|]; simpl; by rewrite E|].
    exists s.(sy_world), (specs s), (specs s). simpl. rewrite E. split; [apply gr_refl|]. split; [by exists s.(sy_allocator)|]. split; [by left|apply gr_refl].
Qed.
(** The way to an attempt and the way after it. *)
Lemma attempted_after order s s1 status address s' :
  R s.(sy_world) (specs s) s1.(sy_world) (specs s1) → attempted order s1 status address s' → attempted order s status address s'.
Proof. intros Hr (Hrd & w & p & p' & H1 & Hj & Ha & H2). split; [done|]. exists w, p, p'. split_and!; try done. by eapply gr_trans. Qed.
Lemma attempted_before order s status address s1 s' : attempted order s status address s1 →
  moves s1.(sy_world) s1.(sy_allocator) s'.(sy_world) s'.(sy_allocator) → attempted order s status address s'.
Proof. intros (Hrd & w & p & p' & H1 & Hj & Ha & H2) [Hrd' Hr]. split; [done|]. exists w, p, p'. split_and!; try done. by eapply gr_trans. Qed.
(** A world and allocator changed by a callback. *)
Lemma moved order s w a status address s' : moves s.(sy_world) s.(sy_allocator) w a → attempted order (set_world s w a) status address s' →
  attempted order s status address s'.
Proof. intros [_ Hr]. by apply attempted_after. Qed.

Lemma call_run c s : (∀ f, c = Some f → callback_ok f) → ready s.(sy_world) s.(sy_allocator) →
  ∃ s', call c s = Done s' ∧ same_binding s s' ∧ moves s.(sy_world) s.(sy_allocator) s'.(sy_world) s'.(sy_allocator).
Proof.
  intros Hc Hr. destruct c as [c|]; cbn [call]; [|exists s; split; [done|]; split; [done|split; [done|apply gr_refl]]].
  destruct (Hc c eq_refl _ _ Hr) as (w' & a' & -> & Hm). run. eexists. split; [done|]. split; [done|exact Hm].
Qed.

Lemma reclaim_loop_run c order : hooks.(h_reclaim) = Some c → 0 ≤ order ≤ 31 → ∀ fuel s,
  (rounds s.(sy_world) < fuel)%nat → ready s.(sy_world) s.(sy_allocator) →
  ∃ status address s', reclaim_loop fuel c s order = Done (status, address, s') ∧ same_binding s s' ∧ attempted order s status address s'.
Proof.
  intros Hc Ho fuel. induction fuel as [|fuel IH]; intros s Hf Hr; [lia|]. cbn [reclaim_loop].
  destruct (ho_reclaim _ Hok c Hc _ _ (order_page_count order) Hr) as (released & w & a & -> & Hm & Hdec). run.
  destruct (attempt_run order (set_world s w a) (proj1 Hm) Ho) as (status & address & a' & -> & Ha & _). run.
  case_decide as Hd.
  - destruct Hd as [-> Hne]. destruct (IH (set_world (set_world s w a) (set_world s w a).(sy_world) a')) as (status & address' & s' & -> & Hb & Ha'); [simpl; specialize (Hdec Hne); lia|by apply Ha|].
    exists status, address', s'. split; [done|]. split; [exact Hb|]. apply (moved _ _ w a); [done|]. eapply attempted_after; [|exact Ha'].
    destruct Ha as (_ & w1 & p & p' & H1 & _ & [(_ & _ & -> & _)|(x & ? & _)] & H2); [by eapply gr_trans|done].
  - eexists _, _, _. split; [done|]. split; [done|]. by apply (moved _ _ w a).
Qed.

Lemma set_depth_run s v : s.(sy_hooks) = hooks → ready s.(sy_world) s.(sy_allocator) →
  moves s.(sy_world) s.(sy_allocator) (set_depth hooks s v).(sy_world) (set_depth hooks s v).(sy_allocator) ∧
  (rounds (set_depth hooks s v).(sy_world) ≤ rounds s.(sy_world))%nat ∧ (set_depth hooks s v).(sy_hooks) = hooks.
Proof.
  intros Hh Hr. unfold set_depth. destruct (h_depth hooks) as [d|] eqn:E; simpl; [|split; [split; [done|apply gr_refl]|by split]].
  destruct (ho_depth _ Hok d v E _ _ Hr) as [Hm Hn]. split; [exact Hm|]. by split.
Qed.

Lemma first_attempt_run order s : s.(sy_hooks) = hooks → ready s.(sy_world) s.(sy_allocator) → 0 ≤ order ≤ 31 →
  ∃ status address s', first_attempt s order = Done (status, address, hooks, s') ∧ same_binding s s' ∧
    attempted order s status address s' ∧ (status = PHYSICAL_PAGE_STATUS_EMPTY → none_free order (specs s)) ∧ (rounds s'.(sy_world) ≤ rounds s.(sy_world))%nat.
Proof.
  intros Hh Hr Ho. unfold first_attempt. destruct (serving_finalized layout _ (proj1 Hr)) as [Hf Hi]. rewrite Hf, Hi.
  rewrite decide_False by (intros [?|?]; [done|unfold PHYSICAL_PAGE_MAX_ORDER in *; lia]). rewrite decide_False by done.
  assert (Hm : moves s.(sy_world) s.(sy_allocator) (retained s.(sy_hooks) s.(sy_world)) s.(sy_allocator) ∧ (rounds (retained s.(sy_hooks) s.(sy_world)) ≤ rounds s.(sy_world))%nat).
  { rewrite Hh. unfold retained. destruct (h_retain hooks) as [f|] eqn:E; [by apply (ho_retain _ Hok f E)|]. split; [split; [done|apply gr_refl]|done]. }
  destruct Hm as [Hm Hn]. destruct (attempt_run order (set_world s (retained s.(sy_hooks) s.(sy_world)) s.(sy_allocator)) (proj1 Hm) Ho) as (status & address & a' & -> & Ha & He).
  run. eexists _, _, _. simpl. rewrite Hh. split; [done|]. split; [done|]. split; [|split; [exact He|by rewrite <-Hh]]. rewrite Hh in Hm, Ha. by eapply moved.
Qed.

(** The middle part: reclaim as often as it helps, then perhaps wait. *)
Definition insist (fuel : nat) (c : world → physical_page_allocator → Z → outcome (Z * world * physical_page_allocator)) (s : page_system world) (order : Z)
    : outcome (physical_page_status * option Z * page_system world) :=
  '(status, address, s) ← reclaim_loop fuel c (set_depth hooks s 1) order;
  let s := set_depth hooks s 0 in
  match hooks.(h_wait) with
  | Some wait =>
      if decide (status = PHYSICAL_PAGE_STATUS_EMPTY ∧ physical_page_available s.(sy_allocator) < order_page_count order)
      then s ← call (Some wait) s; attempt s order
      else Done (status, address, s)
  | None => Done (status, address, s)
  end.
Lemma insist_run c order fuel s : hooks.(h_reclaim) = Some c → s.(sy_hooks) = hooks → depth_of hooks s = 0 → 0 ≤ order ≤ 31 →
  (rounds s.(sy_world) < fuel)%nat → ready s.(sy_world) s.(sy_allocator) →
  ∃ status address s', insist fuel c s order = Done (status, address, s') ∧ same_binding s s' ∧ attempted order s status address s'.
Proof.
  intros Hc Hh Hd Ho Hf Hr. unfold insist. destruct (set_depth_run s 1 Hh Hr) as (Hm1 & Hn1 & Hh1).
  destruct (reclaim_loop_run c order Hc Ho fuel (set_depth hooks s 1) ltac:(lia) (proj1 Hm1)) as (status & address & s2 & -> & [Hb1 Hb2] & Ha). run.
  rewrite Hh1 in Hb1. destruct (set_depth_run s2 0 Hb1 (proj1 Ha)) as (Hm3 & _ & Hh3). set (s3 := set_depth hooks s2 0) in *.
  assert (Ha3 : attempted order s status address s3) by (eapply attempted_before; [eapply attempted_after; [apply Hm1|exact Ha]|done]).
  assert (Hb3 : same_binding s s3).
  { split; [congruence|]. unfold s3, set_depth, depth_of in *. destruct (h_depth hooks) as [d|]; simpl in *; [exact Hb2|done]. }
  destruct (h_wait hooks) as [wait|] eqn:Ew; [|by eexists _, _, _]. case_decide as He; [|by eexists _, _, _].
  destruct (call_run (Some wait) s3) as (s4 & E4 & [Hb4 Hb5] & Hm4); [intros f [= <-]; by apply (ho_wait _ Hok)|apply Ha3|]. rewrite E4. run.
  destruct (attempt_run order s4 (proj1 Hm4) Ho) as (status' & address' & a' & -> & Ha5 & _). eexists _, _, _. split; [done|]. split; [split; simpl; destruct Hb3; congruence|].
  eapply attempted_after; [|exact Ha5]. destruct He as [-> _]. destruct Ha3 as (_ & w & p & p' & H1 & _ & [(_ & _ & -> & _)|(x & ? & _)] & H2); [|done].
  eapply gr_trans; [exact H1|]. eapply gr_trans; [exact H2|]. apply Hm4.
Qed.

Lemma allocate_order_run order s : s.(sy_hooks) = hooks → ready s.(sy_world) s.(sy_allocator) → 0 ≤ order ≤ 31 →
  ∃ status address s', physical_page_allocate_order (S (rounds s.(sy_world))) s order = Done (status, address, s') ∧ same_binding s s' ∧
    attempted order s status address s' ∧ (status = PHYSICAL_PAGE_STATUS_EMPTY → none_free order (specs s)).
Proof.
  intros Hh Hr Ho. unfold physical_page_allocate_order.
  destruct (first_attempt_run order s Hh Hr Ho) as (st1 & ad1 & s1 & -> & [Hb1 Hc1] & Ha1 & He1 & Hn1). run.
  assert (Hnote : ∃ s2, call hooks.(h_notify) s1 = Done s2 ∧ same_binding s1 s2 ∧ moves s1.(sy_world) s1.(sy_allocator) s2.(sy_world) s2.(sy_allocator) ∧
    (rounds s2.(sy_world) ≤ rounds s1.(sy_world))%nat).
  { destruct (h_notify hooks) as [c|] eqn:E; cbn [call]; [|exists s1; split; [done|]; split; [done|]; split; [split; [apply Ha1|apply gr_refl]|done]].
    destruct (ho_notify _ Hok c E _ _ (proj1 Ha1)) as (w & a & -> & Hm & Hn). run. eexists. split; [done|]. split; [done|]. by split. }
  destruct Hnote as (s2 & -> & [Hb2 Hc2] & Hm2 & Hn2). run. pose proof (attempted_before _ _ _ _ _ _ Ha1 Hm2) as Ha2.
  assert (Hmid : ∃ st ad s3, match hooks.(h_reclaim) with
      | Some c => if decide (st1 = PHYSICAL_PAGE_STATUS_EMPTY ∧ depth_of hooks s2 = 0) then insist (S (rounds s.(sy_world))) c s2 order else Done (st1, ad1, s2)
      | None => Done (st1, ad1, s2) end = Done (st, ad, s3) ∧ same_binding s2 s3 ∧ attempted order s st ad s3 ∧ (st = PHYSICAL_PAGE_STATUS_EMPTY → none_free order (specs s))).
  { destruct (h_reclaim hooks) as [c|] eqn:E; [|by eexists _, _, s2]. case_decide as He; [|by eexists _, _, s2]. destruct He as [-> He].
    destruct (insist_run c order (S (rounds s.(sy_world))) s2 E ltac:(congruence) He Ho ltac:(lia) (proj1 Ha2)) as (st & ad & s3 & E3 & Hb3 & Ha3).
    exists st, ad, s3. split; [done|]. split; [done|]. split; [|by intros _; apply He1]. eapply attempted_after; [|exact Ha3].
    destruct Ha2 as (_ & w & p & p' & H1 & _ & [(_ & _ & -> & _)|(x & ? & _)] & H2); [by eapply gr_trans|done]. }
  destruct Hmid as (st & ad & s3 & E3 & [Hb3 Hc3] & Ha3 & He3). unfold insist in E3. rewrite E3. run.
  destruct (call_run (h_release hooks) s3) as (s4 & -> & [Hb4 Hc4] & Hm4); [apply (ho_release _ Hok)|apply Ha3|]. run.
  eexists _, _, s4. split; [done|]. split; [split; congruence|]. split; [by eapply attempted_before|done].
Qed.

(** C21: an allocation that may reclaim returns, whatever the callbacks of the
    page cache do within their promise: the loop ends because the reclaimer can
    report progress at most [rounds] times.  The binding of the reclaimer is as
    before, and the answer is exact for the pool at one moment of the call: a
    naturally aligned free block of the order was taken and nothing else, or the
    answer is [EMPTY] and there was none. *)
Theorem page_reclaim_returns order s : s.(sy_hooks) = hooks → ready s.(sy_world) s.(sy_allocator) → 0 ≤ order ≤ 31 →
  ∃ status address s', physical_page_allocate_order (S (rounds s.(sy_world))) s order = Done (status, address, s') ∧ same_binding s s' ∧
    attempted order s status address s'.
Proof. intros Hh Hr Ho. destruct (allocate_order_run order s Hh Hr Ho) as (status & address & s' & E & Hb & Ha & _). by exists status, address, s'. Qed.
End reclaim.
