(* ===== verification/DirectMap.v ===== *)
(** * The direct map ([arch/riscv/direct_map.c], [platform/loongarch_virt.c])

    All physical memory is mapped at a fixed offset.  [DirectMap] states what the
    page allocator's and the heap's callbacks promise; the callbacks of both
    platforms are instances for every set of pages inside their window. *)
From S2P Require Import Prelude PhysicalPage.
#[local] Open Scope Z_scope.

Module DirectMap.
Import PhysicalPage.

(** ** RISC-V; [None] is [RISCV_DIRECT_MAP_STATUS_INVALID] *)
Definition RISCV_DIRECT_MAP_BASE : Z := 0xffffffc000000000.
Definition RISCV_DIRECT_MAP_SIZE : Z := 0x2000000000.
Definition range_within (offset size limit : Z) : bool :=
  bool_decide (size ≠ 0) && bool_decide (offset < limit) && bool_decide (size ≤ limit - offset).
Definition riscv_direct_map_pa_to_va (physical_address size : Z) : option Z :=
  if range_within physical_address size RISCV_DIRECT_MAP_SIZE then Some (u64 (RISCV_DIRECT_MAP_BASE + physical_address)) else None.
Definition riscv_direct_map_va_to_pa (virtual_address size : Z) : option Z :=
  if decide (virtual_address < RISCV_DIRECT_MAP_BASE) then None
  else
    let offset := virtual_address - RISCV_DIRECT_MAP_BASE in
    if range_within offset size RISCV_DIRECT_MAP_SIZE then Some offset else None.
Definition direct_map_page_access (physical_address : Z) : Z :=
  match riscv_direct_map_pa_to_va physical_address BOAROS_PAGE_SIZE with Some v => v | None => 0 end.
Definition direct_map_heap_address (pointer : Z) : option Z := riscv_direct_map_va_to_pa pointer 1.

(** ** LoongArch *)
Definition LA_DIRECT_BASE : Z := 0x9000000000000000.
Definition la_virt_page_access (address : Z) : Z := u64 (LA_DIRECT_BASE + address).
Definition la_virt_physical_address (pointer : Z) : option Z :=
  if decide (pointer < LA_DIRECT_BASE ∨ Z.shiftl 1 48 ≤ pointer - LA_DIRECT_BASE) then None
  else Some (pointer - LA_DIRECT_BASE).

(** ** The promise, for the pages of a predicate *)
Class DirectMap (page : Z → Prop) (access : Z → Z) (physical : Z → option Z) := {
  dm_base : Z;
  dm_base_ok : 0 < dm_base ∧ dm_base mod BOAROS_PAGE_SIZE = 0;
  dm_access x : page x → access x = dm_base + x ∧ 0 ≤ x ∧ dm_base + x + BOAROS_PAGE_SIZE ≤ UINT64_MAX;
  dm_physical x : page x → physical (dm_base + x) = Some x;
  dm_inverse p x : physical p = Some x → p = dm_base + x;
}.

Section instances.
Context (page : Z → Prop) (limit : Z) (Hpage : ∀ x, page x → 0 ≤ x ∧ x + BOAROS_PAGE_SIZE ≤ limit).
#[local] Obligation Tactic := idtac.
#[local] Ltac dm_unfold := unfold RISCV_DIRECT_MAP_BASE, RISCV_DIRECT_MAP_SIZE, LA_DIRECT_BASE, BOAROS_PAGE_SIZE in *.

Lemma range_within_spec offset size l : range_within offset size l = true ↔ size ≠ 0 ∧ offset < l ∧ size ≤ l - offset.
Proof. unfold range_within. rewrite !andb_true_iff, !bool_decide_eq_true. tauto. Qed.

#[export] Program Instance riscv_direct_map (Hl : limit ≤ RISCV_DIRECT_MAP_SIZE) :
  DirectMap page direct_map_page_access direct_map_heap_address := {| dm_base := RISCV_DIRECT_MAP_BASE |}.
Next Obligation. by intros _. Qed.
Next Obligation.
  intros Hl x Hx. destruct (Hpage x Hx). dm_unfold.
  unfold direct_map_page_access, riscv_direct_map_pa_to_va. rewrite (proj2 (range_within_spec _ _ _)) by (dm_unfold; lia).
  rewrite u64_small by (dm_unfold; mlia). dm_unfold. split_and!; mlia.
Qed.
Next Obligation.
  intros Hl x Hx. destruct (Hpage x Hx). unfold direct_map_heap_address, riscv_direct_map_va_to_pa.
  rewrite decide_False by lia. rewrite (proj2 (range_within_spec _ _ _)) by (dm_unfold; lia). f_equal. lia.
Qed.
Next Obligation.
  intros Hl p x. unfold direct_map_heap_address, riscv_direct_map_va_to_pa. case_decide; [done|].
  destruct (range_within _ _ _); [|done]. intros [= <-]. lia.
Qed.

#[export] Program Instance loongarch_direct_map (Hl : limit ≤ 2 ^ 48) :
  DirectMap page la_virt_page_access la_virt_physical_address := {| dm_base := LA_DIRECT_BASE |}.
Next Obligation. by intros _. Qed.
Next Obligation.
  intros Hl x Hx. destruct (Hpage x Hx). dm_unfold. unfold la_virt_page_access.
  rewrite u64_small by (dm_unfold; mlia). dm_unfold. split_and!; mlia.
Qed.
Next Obligation.
  intros Hl x Hx. destruct (Hpage x Hx). unfold la_virt_physical_address.
  rewrite decide_False by (change (Z.shiftl 1 48) with (2 ^ 48); dm_unfold; lia). f_equal. lia.
Qed.
Next Obligation.
  intros Hl p x. unfold la_virt_physical_address. case_decide; [done|]. intros [= <-]. lia.
Qed.
End instances.

End DirectMap.
