(* ===== verification/SlabHeap.v ===== *)
(** * The kernel heap ([mm/heap.c])

    Small objects come from slabs: one page with a header ([struct kernel_slab])
    and slots of one size class, the free slots linked through their first four
    bytes; the slabs of a class that have a free slot form a doubly linked list.
    Larger objects are blocks of the page allocator.

    Slab headers and slots are bytes of the kernel's memory, as in the code: a
    header is read and written as the 80 bytes of its struct.  The state is the
    page allocator with its reclaimer ([PageReclaim.page_system]), whose world is
    this memory, the [struct kernel_heap] and whatever else the reclaimer works
    on; so a callback may itself use the heap. *)
From S2P Require Import Prelude Bytes Heap StringOps PhysicalPage PageReclaim.
#[local] Open Scope Z_scope.

Module SlabHeap.
Import Heap StringOps PhysicalPage PageReclaim.

Definition KERNEL_HEAP_INITIALIZED : Z := 0x48454150.
Definition KERNEL_SLAB_MAGIC : Z := 0x424f4152534c4142.
Definition KERNEL_HEAP_MIN_CLASS_SHIFT : Z := 4.
Definition KERNEL_HEAP_SIZE_CLASS_COUNT : nat := 8.
Definition KERNEL_SLAB_BITMAP_WORDS : nat := 4.
Definition KERNEL_SLAB_INDEX_NONE : Z := UINT32_MAX.
Definition u16 (x : Z) : Z := x mod 65536.

(** ** The objects *)

Record kernel_slab := mk_slab {
  s_magic : Z;
  s_heap : Z;
  s_next : Z;
  s_previous : Z;
  s_allocated : list Z;
  s_free_head : Z;
  s_class_index : Z;
  s_slot_count : Z;
  s_free_count : Z;
  s_slot_offset : Z;
  s_reserved : Z;
}.
Definition SIZEOF_SLAB : Z := 80.
(** The layout of the struct: sizes of its fields in order. *)
Definition slab_bytes (s : kernel_slab) : list Z :=
  le_bytes 8 s.(s_magic) ++ le_bytes 8 s.(s_heap) ++ le_bytes 8 s.(s_next) ++ le_bytes 8 s.(s_previous) ++
  concat (map (le_bytes 8) s.(s_allocated)) ++
  le_bytes 4 s.(s_free_head) ++ le_bytes 2 s.(s_class_index) ++ le_bytes 2 s.(s_slot_count) ++
  le_bytes 2 s.(s_free_count) ++ le_bytes 2 s.(s_slot_offset) ++ le_bytes 4 s.(s_reserved).
Definition field (l : list Z) (offset size : nat) : Z := le_value (take size (drop offset l)).
Definition slab_value (l : list Z) : kernel_slab :=
  mk_slab (field l 0 8) (field l 8 8) (field l 16 8) (field l 24 8)
    [field l 32 8; field l 40 8; field l 48 8; field l 56 8]
    (field l 64 4) (field l 68 2) (field l 70 2) (field l 72 2) (field l 74 2) (field l 76 4).
Definition load_slab (m : mem) (p : Z) : outcome kernel_slab :=
  l ← load_bytes m p (Z.to_nat SIZEOF_SLAB); Done (slab_value l).
Definition store_slab (m : mem) (p : Z) (s : kernel_slab) : outcome mem := store_bytes m p (slab_bytes s).

Definition with_links (s : kernel_slab) (next previous : Z) : kernel_slab :=
  mk_slab s.(s_magic) s.(s_heap) next previous s.(s_allocated) s.(s_free_head) s.(s_class_index) s.(s_slot_count)
    s.(s_free_count) s.(s_slot_offset) s.(s_reserved).
Definition with_slots (s : kernel_slab) (allocated : list Z) (free_head free_count : Z) : kernel_slab :=
  mk_slab s.(s_magic) s.(s_heap) s.(s_next) s.(s_previous) allocated free_head s.(s_class_index) s.(s_slot_count)
    free_count s.(s_slot_offset) s.(s_reserved).
Definition with_magic (s : kernel_slab) (magic : Z) : kernel_slab :=
  mk_slab magic s.(s_heap) s.(s_next) s.(s_previous) s.(s_allocated) s.(s_free_head) s.(s_class_index) s.(s_slot_count)
    s.(s_free_count) s.(s_slot_offset) s.(s_reserved).

Record kernel_heap_statistics := mk_statistics {
  allocation_calls : Z;
  allocation_failures : Z;
  live_allocations : Z;
  current_pages : Z;
  peak_pages : Z;
}.
(** [h_page_allocator] and [h_physical_address]: whether the pointers are set. *)
Record kernel_heap := mk_heap {
  h_page_allocator : bool;
  h_physical_address : bool;
  partial_slabs : list Z;
  statistics : kernel_heap_statistics;
  h_initialized : Z;
}.
Definition set_partial (h : kernel_heap) (l : list Z) : kernel_heap :=
  mk_heap h.(h_page_allocator) h.(h_physical_address) l h.(statistics) h.(h_initialized).
Definition set_statistics (h : kernel_heap) (t : kernel_heap_statistics) : kernel_heap :=
  mk_heap h.(h_page_allocator) h.(h_physical_address) h.(partial_slabs) t h.(h_initialized).
Definition count_call (t : kernel_heap_statistics) : kernel_heap_statistics :=
  mk_statistics (u64 (t.(allocation_calls) + 1)) t.(allocation_failures) t.(live_allocations) t.(current_pages) t.(peak_pages).
Definition count_failure (t : kernel_heap_statistics) : kernel_heap_statistics :=
  mk_statistics t.(allocation_calls) (u64 (t.(allocation_failures) + 1)) t.(live_allocations) t.(current_pages) t.(peak_pages).
Definition set_live (t : kernel_heap_statistics) (n : Z) : kernel_heap_statistics :=
  mk_statistics t.(allocation_calls) t.(allocation_failures) n t.(current_pages) t.(peak_pages).
Definition set_pages (t : kernel_heap_statistics) (current peak : Z) : kernel_heap_statistics :=
  mk_statistics t.(allocation_calls) t.(allocation_failures) t.(live_allocations) current peak.

Definition heap_initialized (h : kernel_heap) : bool :=
  bool_decide (h.(h_initialized) = KERNEL_HEAP_INITIALIZED) && h.(h_page_allocator) && h.(h_physical_address).
Definition page_status_to_heap (status : physical_page_status) : kernel_heap_status :=
  match status with
  | PHYSICAL_PAGE_STATUS_OK => KERNEL_HEAP_STATUS_OK
  | PHYSICAL_PAGE_STATUS_EMPTY => KERNEL_HEAP_STATUS_EMPTY
  | PHYSICAL_PAGE_STATUS_DOUBLE_FREE => KERNEL_HEAP_STATUS_DOUBLE_FREE
  | PHYSICAL_PAGE_STATUS_STATE => KERNEL_HEAP_STATUS_STATE
  | PHYSICAL_PAGE_STATUS_INVALID => KERNEL_HEAP_STATUS_INVALID
  end.

(** ** Sizes *)

Definition class_size (class_index : Z) : Z := Z.shiftl 1 (KERNEL_HEAP_MIN_CLASS_SHIFT + class_index).
(** The loop, at most [steps] more rounds: [index + 1 < KERNEL_HEAP_SIZE_CLASS_COUNT]. *)
Fixpoint class_search (steps : nat) (size capacity index : Z) : Z * Z :=
  match steps with
  | O => (capacity, index)
  | S steps => if decide (capacity < size) then class_search steps size (Z.shiftl capacity 1) (index + 1) else (capacity, index)
  end.
Definition small_class_for_size (size : Z) : option Z :=
  let '(capacity, index) :=
    class_search (pred KERNEL_HEAP_SIZE_CLASS_COUNT) size (Z.shiftl 1 KERNEL_HEAP_MIN_CLASS_SHIFT) 0 in
  if decide (capacity < size) then None else Some index.
Fixpoint order_search (steps : nat) (pages capacity result : Z) : Z * Z :=
  match steps with
  | O => (capacity, result)
  | S steps => if decide (capacity < pages) then order_search steps pages (Z.shiftl capacity 1) (result + 1) else (capacity, result)
  end.
Definition allocation_order_for_size (size : Z) : option Z :=
  if decide (size = 0 ∨ UINT64_MAX - BOAROS_PAGE_MASK < size) then None
  else
    let pages := Z.shiftr (size + BOAROS_PAGE_MASK) BOAROS_PAGE_SHIFT in
    let '(capacity, result) := order_search PHYSICAL_PAGE_MAX_ORDER pages 1 0 in
    if decide (capacity < pages) then None else Some result.

(** ** Bitmaps *)

Definition bitmap_test (words : list Z) (slot_index : Z) : outcome bool :=
  word ← aread words (Z.to_nat (slot_index / 64));
  Done (bool_decide (Z.land word (Z.shiftl 1 (slot_index mod 64)) ≠ 0)).
Definition bitmap_set (words : list Z) (slot_index : Z) : outcome (list Z) :=
  word ← aread words (Z.to_nat (slot_index / 64));
  awrite words (Z.to_nat (slot_index / 64)) (Z.lor word (Z.shiftl 1 (slot_index mod 64))).
Definition bitmap_clear (words : list Z) (slot_index : Z) : outcome (list Z) :=
  word ← aread words (Z.to_nat (slot_index / 64));
  awrite words (Z.to_nat (slot_index / 64)) (Z.land word (Z.lnot (Z.shiftl 1 (slot_index mod 64)))).
(** The number of set bits, by adding neighbours in parallel. *)
Definition bitmap_count (value : Z) : Z :=
  let value := u64 (value - Z.land (Z.shiftr value 1) 0x5555555555555555) in
  let value := u64 (Z.land value 0x3333333333333333 + Z.land (Z.shiftr value 2) 0x3333333333333333) in
  let value := Z.land (u64 (value + Z.shiftr value 4)) 0x0f0f0f0f0f0f0f0f in
  u32 (Z.shiftr (u64 (value * 0x0101010101010101)) 56).
(** The mask of the slots of a word, and the slots left after it. *)
Definition word_mask (slots_remaining : Z) : Z * Z :=
  if decide (64 ≤ slots_remaining) then (UINT64_MAX, slots_remaining - 64)
  else if decide (slots_remaining = 0) then (0, 0)
  else (Z.shiftl 1 slots_remaining - 1, 0).
(** [None] when a bit without a slot is set. *)
Fixpoint count_words (words : list Z) (slots_remaining allocated_count : Z) : option Z :=
  match words with
  | [] => Some allocated_count
  | word :: words =>
      let '(mask, slots_remaining) := word_mask slots_remaining in
      if decide (Z.land word (u64 (Z.lnot mask)) ≠ 0) then None
      else count_words words slots_remaining (u32 (allocated_count + bitmap_count (Z.land word mask)))
  end.

Section heap.
Context {ext : Type}.
(** What the heap shares with the reclaimer, and the rest of the kernel. *)
Record heap_world := mk_world { w_heap : kernel_heap; w_mem : mem; w_ext : ext }.
Abbreviation state := (page_system heap_world).
Abbreviation M := (ST state).
(** The address of the [struct kernel_heap]; the two callbacks of the platform
    (0 and [None] for a refusal); how often the reclaimer can still make
    progress. *)
Context (heap : Z) (access : Z → Z) (physical_address : Z → option Z) (rounds : heap_world → nat).

Definition get_heap : M kernel_heap := λ s, Done (s.(sy_world).(w_heap), s).
Definition put_heap (h : kernel_heap) : M unit := λ s,
  Done (tt, set_world s (mk_world h s.(sy_world).(w_mem) s.(sy_world).(w_ext)) s.(sy_allocator)).
Definition get_mem : M mem := λ s, Done (s.(sy_world).(w_mem), s).
Definition put_mem (m : mem) : M unit := λ s,
  Done (tt, set_world s (mk_world s.(sy_world).(w_heap) m s.(sy_world).(w_ext)) s.(sy_allocator)).
Definition read_slab (p : Z) : M kernel_slab := m ← get_mem; lift (load_slab m p).
Definition write_slab (p : Z) (slab : kernel_slab) : M unit := m ← get_mem; m ← lift (store_slab m p slab); put_mem m.
Definition count (f : kernel_heap_statistics → kernel_heap_statistics) : M unit :=
  h ← get_heap; put_heap (set_statistics h (f h.(statistics))).

Definition page_allocate (order : Z) : M (physical_page_status * option Z) := λ s,
  '(status, address, s) ← physical_page_allocate_order (S (rounds s.(sy_world))) s order; Done ((status, address), s).
Definition page_release (address order : Z) : M physical_page_status := λ s,
  '(status, a) ← physical_page_release_order s.(sy_allocator) address order; Done (status, set_world s s.(sy_world) a).
Definition page_resolve (address : Z) : M (physical_page_status * option Z) := λ s,
  r ← physical_page_resolve access s.(sy_allocator) address; Done (r, s).
Definition page_order (address : Z) : M (physical_page_status * option Z) := λ s,
  r ← physical_page_allocation_order s.(sy_allocator) address; Done (r, s).

Definition statistics_add_pages (order : Z) : M unit :=
  count (λ t, let current := u64 (t.(current_pages) + Z.shiftl 1 order) in
              set_pages t current (if decide (t.(peak_pages) < current) then current else t.(peak_pages))).
Definition statistics_remove_pages (order : Z) : M unit :=
  h ← get_heap;
  let pages := Z.shiftl 1 order in
  if decide (pages ≤ h.(statistics).(current_pages))
  then count (λ t, set_pages t (t.(current_pages) - pages) t.(peak_pages))
  else lift trap.

(** ** The lists of slabs with a free slot *)

Definition partial_insert (p : Z) : M unit :=
  slab ← read_slab p;
  h ← get_heap;
  head ← lift (aread h.(partial_slabs) (Z.to_nat slab.(s_class_index)));
  _ ← write_slab p (with_links slab head 0);
  _ ← (if decide (head ≠ 0) then
         first ← read_slab head; write_slab head (with_links first first.(s_next) p)
       else mret tt);
  l ← lift (awrite h.(partial_slabs) (Z.to_nat slab.(s_class_index)) p);
  put_heap (set_partial h l).

(** The neighbour before (after) [p] does not point back to it. *)
Definition broken_before (p : Z) (slab : kernel_slab) (head : Z) : M bool :=
  if decide (slab.(s_previous) ≠ 0) then
    before ← read_slab slab.(s_previous); mret (bool_decide (before.(s_next) ≠ p))
  else mret (bool_decide (head ≠ p)).
Definition broken_after (p : Z) (slab : kernel_slab) : M bool :=
  if decide (slab.(s_next) ≠ 0) then
    after ← read_slab slab.(s_next); mret (bool_decide (after.(s_previous) ≠ p))
  else mret false.
Definition partial_remove (p : Z) : M unit :=
  slab ← read_slab p;
  h ← get_heap;
  head ← lift (aread h.(partial_slabs) (Z.to_nat slab.(s_class_index)));
  before ← broken_before p slab head;
  after ← broken_after p slab;
  _ ← lift (trap_if (before = true ∨ after = true));
  _ ← (if decide (slab.(s_previous) ≠ 0) then
         other ← read_slab slab.(s_previous); write_slab slab.(s_previous) (with_links other slab.(s_next) other.(s_previous))
       else
         l ← lift (awrite h.(partial_slabs) (Z.to_nat slab.(s_class_index)) slab.(s_next));
         put_heap (set_partial h l));
  _ ← (if decide (slab.(s_next) ≠ 0) then
         other ← read_slab slab.(s_next); write_slab slab.(s_next) (with_links other other.(s_next) slab.(s_previous))
       else mret tt);
  write_slab p (with_links slab 0 0).

(** ** Slots *)

Definition slab_slot (p : Z) (slab : kernel_slab) (slot_index : Z) : Z :=
  p + slab.(s_slot_offset) + class_size slab.(s_class_index) * slot_index.
Fixpoint slot_read (steps : nat) (m : mem) (slot index result : Z) : outcome Z :=
  match steps with
  | O => Done result
  | S steps =>
      byte ← load m (slot + index);
      slot_read steps m slot (index + 1) (Z.lor result (u32 (Z.shiftl byte (index * 8))))
  end.
Definition slot_next (p : Z) (slab : kernel_slab) (slot_index : Z) : M Z :=
  m ← get_mem; lift (slot_read 4 m (slab_slot p slab slot_index) 0 0).
Fixpoint slot_write (steps : nat) (m : mem) (slot index next : Z) : outcome mem :=
  match steps with
  | O => Done m
  | S steps =>
      m ← store m (slot + index) (Z.shiftr next (index * 8) mod 256);
      slot_write steps m slot (index + 1) next
  end.
Definition slot_set_next (p : Z) (slab : kernel_slab) (slot_index next : Z) : M unit :=
  m ← get_mem; m ← lift (slot_write 4 m (slab_slot p slab slot_index) 0 next); put_mem m.

(** The bitmap has its two checks, the list of free slots its first two. *)
Definition slots_valid (p : Z) (slab : kernel_slab) : M bool :=
  if decide (slab.(s_free_count) = 0) then mret (bool_decide (slab.(s_free_head) = KERNEL_SLAB_INDEX_NONE))
  else if decide (slab.(s_slot_count) ≤ slab.(s_free_head)) then mret false
  else
    used ← lift (bitmap_test slab.(s_allocated) slab.(s_free_head));
    if (used : bool) then mret false
    else
      next ← slot_next p slab slab.(s_free_head);
      if decide (next = KERNEL_SLAB_INDEX_NONE) then mret true
      else if decide (slab.(s_slot_count) ≤ next) then mret false
      else used ← lift (bitmap_test slab.(s_allocated) next); mret (negb used).
(** A neighbour of the list: a slab of the same heap and class. *)
Definition same_list (slab other : kernel_slab) : bool :=
  bool_decide (other.(s_magic) = KERNEL_SLAB_MAGIC ∧ other.(s_heap) = heap ∧ other.(s_class_index) = slab.(s_class_index)).
Definition links_valid (p : Z) (slab : kernel_slab) : M bool :=
  if decide (slab.(s_free_count) = 0) then mret (bool_decide (slab.(s_next) = 0 ∧ slab.(s_previous) = 0))
  else
    before ← (if decide (slab.(s_previous) = 0) then
                h ← get_heap;
                head ← lift (aread h.(partial_slabs) (Z.to_nat slab.(s_class_index)));
                mret (bool_decide (head = p))
              else
                other ← read_slab slab.(s_previous);
                mret (same_list slab other && bool_decide (other.(s_next) = p)));
    if (negb before : bool) then mret false
    else if decide (slab.(s_next) = 0) then mret true
    else
      other ← read_slab slab.(s_next);
      mret (same_list slab other && bool_decide (other.(s_previous) = p)).
Definition slab_metadata_valid (p : Z) : M bool :=
  slab ← read_slab p;
  if decide (slab.(s_magic) ≠ KERNEL_SLAB_MAGIC ∨ slab.(s_heap) ≠ heap ∨
             Z.of_nat KERNEL_HEAP_SIZE_CLASS_COUNT ≤ slab.(s_class_index) ∨ slab.(s_slot_offset) ≠ SIZEOF_SLAB ∨
             slab.(s_slot_count) = 0 ∨ Z.of_nat KERNEL_SLAB_BITMAP_WORDS * 64 < slab.(s_slot_count) ∨
             slab.(s_reserved) ≠ 0 ∨ slab.(s_slot_count) < slab.(s_free_count))
  then mret false
  else
    match count_words slab.(s_allocated) slab.(s_slot_count) 0 with
    | None => mret false
    | Some allocated_count =>
        if decide (u32 (allocated_count + slab.(s_free_count)) ≠ slab.(s_slot_count)) then mret false
        else
          slots ← slots_valid p slab;
          if (negb slots : bool) then mret false else links_valid p slab
    end.

(** ** Slabs *)

Definition slot_count_of (class_index : Z) : Z := (BOAROS_PAGE_SIZE - SIZEOF_SLAB) / class_size class_index.
Definition new_slab (class_index slot_count : Z) : kernel_slab :=
  mk_slab KERNEL_SLAB_MAGIC heap 0 0 (replicate KERNEL_SLAB_BITMAP_WORDS 0) 0 (u16 class_index) (u16 slot_count) (u16 slot_count)
    SIZEOF_SLAB 0.
Fixpoint link_slots (steps : nat) (p : Z) (slab : kernel_slab) (slot_count index : Z) : M unit :=
  match steps with
  | O => mret tt
  | S steps =>
      _ ← slot_set_next p slab index (if decide (index + 1 < slot_count) then index + 1 else KERNEL_SLAB_INDEX_NONE);
      link_slots steps p slab slot_count (index + 1)
  end.
Definition slab_create (class_index : Z) : M (kernel_heap_status * Z) :=
  '(status, address) ← page_allocate 0;
  if decide (status ≠ PHYSICAL_PAGE_STATUS_OK) then mret (page_status_to_heap status, 0)
  else
    let address := default 0 address in
    '(status, pointer) ← page_resolve address;
    if decide (status ≠ PHYSICAL_PAGE_STATUS_OK) then
      _ ← page_release address 0; mret (page_status_to_heap status, 0)
    else
      let p := default 0 pointer in
      let slot_count := slot_count_of class_index in
      if decide (slot_count = 0 ∨ Z.of_nat KERNEL_SLAB_BITMAP_WORDS * 64 < slot_count) then
        _ ← page_release address 0; mret (KERNEL_HEAP_STATUS_STATE, 0)
      else
        _ ← write_slab p (new_slab class_index slot_count);
        _ ← link_slots (Z.to_nat slot_count) p (new_slab class_index slot_count) slot_count 0;
        mret (KERNEL_HEAP_STATUS_OK, p).

Definition slab_allocate_slot (p class_index : Z) : M (kernel_heap_status * Z) :=
  slab ← read_slab p;
  if decide (slab.(s_magic) ≠ KERNEL_SLAB_MAGIC ∨ slab.(s_heap) ≠ heap ∨ slab.(s_class_index) ≠ class_index ∨
             slab.(s_free_count) = 0 ∨ slab.(s_slot_count) ≤ slab.(s_free_head))
  then mret (KERNEL_HEAP_STATUS_STATE, 0)
  else
    let slot_index := slab.(s_free_head) in
    next ← slot_next p slab slot_index;
    let slab := with_slots slab slab.(s_allocated) next slab.(s_free_count) in
    _ ← write_slab p slab;
    used ← lift (bitmap_test slab.(s_allocated) slot_index);
    if (used : bool) then mret (KERNEL_HEAP_STATUS_STATE, 0)
    else
      words ← lift (bitmap_set slab.(s_allocated) slot_index);
      let slab := with_slots slab words next (u16 (slab.(s_free_count) - 1)) in
      _ ← write_slab p slab;
      _ ← (if decide (slab.(s_free_count) = 0) then partial_remove p else mret tt);
      _ ← count (λ t, set_live t (u64 (t.(live_allocations) + 1)));
      mret (KERNEL_HEAP_STATUS_OK, slab_slot p slab slot_index).

Definition allocate_small (class_index : Z) : M (kernel_heap_status * Z) :=
  h ← get_heap;
  slab ← lift (aread h.(partial_slabs) (Z.to_nat class_index));
  if decide (slab ≠ 0) then slab_allocate_slot slab class_index
  else
    '(status, prepared) ← slab_create class_index;
    if decide (status ≠ KERNEL_HEAP_STATUS_OK) then mret (status, 0)
    else
      _ ← partial_insert prepared;
      _ ← statistics_add_pages 0;
      slab_allocate_slot prepared class_index.

Definition allocate_large (size : Z) : M (kernel_heap_status * Z) :=
  match allocation_order_for_size size with
  | None => mret (KERNEL_HEAP_STATUS_OVERFLOW, 0)
  | Some order =>
      '(status, address) ← page_allocate order;
      if decide (status ≠ PHYSICAL_PAGE_STATUS_OK) then mret (page_status_to_heap status, 0)
      else
        let address := default 0 address in
        '(status, pointer) ← page_resolve address;
        if decide (status ≠ PHYSICAL_PAGE_STATUS_OK) then
          _ ← page_release address order; mret (page_status_to_heap status, 0)
        else
          _ ← statistics_add_pages order;
          _ ← count (λ t, set_live t (u64 (t.(live_allocations) + 1)));
          mret (KERNEL_HEAP_STATUS_OK, default 0 pointer)
  end.

(** ** The interface *)

Definition kernel_heap_init (s : state) : kernel_heap_status * state :=
  if decide (physical_page_allocator_is_finalized s.(sy_allocator) = false) then (KERNEL_HEAP_STATUS_STATE, s)
  else
    (KERNEL_HEAP_STATUS_OK,
     set_world s (mk_world (mk_heap true true (replicate KERNEL_HEAP_SIZE_CLASS_COUNT 0) (mk_statistics 0 0 0 0 0)
                              KERNEL_HEAP_INITIALIZED)
                    s.(sy_world).(w_mem) s.(sy_world).(w_ext)) s.(sy_allocator)).

Definition kernel_heap_allocate (size : Z) : M (kernel_heap_status * Z) :=
  h ← get_heap;
  if decide (heap_initialized h = false) then mret (KERNEL_HEAP_STATUS_INVALID, 0)
  else
    _ ← count count_call;
    if decide (size = 0) then mret (KERNEL_HEAP_STATUS_OK, 0)
    else
      '(status, result) ← match small_class_for_size size with
                          | Some class_index => allocate_small class_index
                          | None => allocate_large size
                          end;
      if decide (status ≠ KERNEL_HEAP_STATUS_OK) then _ ← count count_failure; mret (status, 0)
      else mret (KERNEL_HEAP_STATUS_OK, result).

Definition kernel_heap_allocate_zeroed (n size : Z) : M (kernel_heap_status * Z) :=
  h ← get_heap;
  if decide (heap_initialized h = false) then mret (KERNEL_HEAP_STATUS_INVALID, 0)
  else if decide (size ≠ 0 ∧ UINT64_MAX / size < n) then
    _ ← count (λ t, count_failure (count_call t)); mret (KERNEL_HEAP_STATUS_OVERFLOW, 0)
  else
    let total := u64 (n * size) in
    '(status, result) ← kernel_heap_allocate total;
    if decide (status ≠ KERNEL_HEAP_STATUS_OK) then mret (status, 0)
    else
      m ← get_mem;
      '(_, m) ← lift (memset m result 0 total);
      _ ← put_mem m;
      mret (KERNEL_HEAP_STATUS_OK, result).

(** What a pointer denotes: the page, its order, the capacity and, for a slot,
    the slab and the index. *)
Record allocation := mk_allocation {
  al_address : Z;
  al_order : Z;
  al_capacity : Z;
  al_slot : option (Z * Z);
}.
(** The slot of a pointer inside a slab; an error when it is none. *)
Definition slot_information (page_value value page_address : Z) (slab : kernel_slab) : outcome (kernel_heap_status + allocation) :=
  if decide (slab.(s_magic) ≠ KERNEL_SLAB_MAGIC ∨ slab.(s_heap) ≠ heap ∨
             Z.of_nat KERNEL_HEAP_SIZE_CLASS_COUNT ≤ slab.(s_class_index) ∨ slab.(s_slot_offset) ≠ SIZEOF_SLAB ∨
             slab.(s_slot_count) = 0 ∨ Z.of_nat KERNEL_SLAB_BITMAP_WORDS * 64 < slab.(s_slot_count))
  then Done (inl KERNEL_HEAP_STATUS_INVALID)
  else
    let slot_size := class_size slab.(s_class_index) in
    let slot_start := u64 (page_value + slab.(s_slot_offset)) in
    if decide (value < slot_start) then Done (inl KERNEL_HEAP_STATUS_INVALID)
    else
      let slot_offset := value - slot_start in
      if decide (slot_offset mod slot_size ≠ 0) then Done (inl KERNEL_HEAP_STATUS_INVALID)
      else
        let slot_index := u32 (slot_offset / slot_size) in
        if decide (slab.(s_slot_count) ≤ slot_index) then Done (inl KERNEL_HEAP_STATUS_INVALID)
        else
          used ← bitmap_test slab.(s_allocated) slot_index;
          Done (if (used : bool) then inr (mk_allocation page_address 0 slot_size (Some (page_value, slot_index)))
                else inl KERNEL_HEAP_STATUS_DOUBLE_FREE).
Definition allocation_information (value : Z) : M (kernel_heap_status + allocation) :=
  let page_value := Z.land value (Z.lnot BOAROS_PAGE_MASK) in
  match physical_address page_value with
  | None => mret (inl KERNEL_HEAP_STATUS_INVALID)
  | Some page_address =>
      if decide (Z.land page_address BOAROS_PAGE_MASK ≠ 0) then mret (inl KERNEL_HEAP_STATUS_INVALID)
      else
        '(status, order) ← page_order page_address;
        if decide (status ≠ PHYSICAL_PAGE_STATUS_OK) then mret (inl (page_status_to_heap status))
        else
          let order := default 0 order in
          if decide (Z.land value BOAROS_PAGE_MASK = 0) then
            if decide (Z.of_nat PHYSICAL_PAGE_MAX_ORDER < order ∨ 8 * 8 - BOAROS_PAGE_SHIFT - 1 < order)
            then mret (inl KERNEL_HEAP_STATUS_STATE)
            else mret (inr (mk_allocation page_address order (Z.shiftl BOAROS_PAGE_SIZE order) None))
          else if decide (order ≠ 0) then mret (inl KERNEL_HEAP_STATUS_INVALID)
          else
            slab ← read_slab page_value;
            lift (slot_information page_value value page_address slab)
  end.

Definition release_slot (p slot_index page_address : Z) : M unit :=
  slab ← read_slab p;
  _ ← lift (trap_if (slab.(s_slot_count) ≤ slab.(s_free_count)));
  words ← lift (bitmap_clear slab.(s_allocated) slot_index);
  let was_full := bool_decide (slab.(s_free_count) = 0) in
  _ ← write_slab p (with_slots slab words slab.(s_free_head) slab.(s_free_count));
  _ ← slot_set_next p slab slot_index slab.(s_free_head);
  let slab := with_slots slab words slot_index (u16 (slab.(s_free_count) + 1)) in
  _ ← write_slab p slab;
  _ ← (if (was_full : bool) then partial_insert p else mret tt);
  if decide (slab.(s_free_count) = slab.(s_slot_count)) then
    _ ← partial_remove p;
    slab ← read_slab p;
    _ ← write_slab p (with_magic slab 0);
    _ ← page_release page_address 0;
    statistics_remove_pages 0
  else mret tt.
Definition kernel_heap_release (pointer : Z) : M unit :=
  h ← get_heap;
  _ ← lift (trap_if (heap_initialized h = false));
  if decide (pointer = 0) then mret tt
  else
    info ← allocation_information pointer;
    match info with
    | inl _ => lift trap
    | inr info =>
        valid ← match info.(al_slot) with Some (p, _) => slab_metadata_valid p | None => mret true end;
        _ ← lift (trap_if (valid = false ∨ h.(statistics).(live_allocations) = 0));
        _ ← match info.(al_slot) with
            | None => _ ← page_release info.(al_address) info.(al_order); statistics_remove_pages info.(al_order)
            | Some (p, slot_index) => release_slot p slot_index info.(al_address)
            end;
        count (λ t, set_live t (u64 (t.(live_allocations) - 1)))
    end.

Definition kernel_heap_resize (old_pointer new_size : Z) : M (kernel_heap_status * Z) :=
  h ← get_heap;
  if decide (heap_initialized h = false) then mret (KERNEL_HEAP_STATUS_INVALID, 0)
  else if decide (old_pointer = 0) then kernel_heap_allocate new_size
  else if decide (new_size = 0) then _ ← kernel_heap_release old_pointer; mret (KERNEL_HEAP_STATUS_OK, 0)
  else
    match allocation_order_for_size new_size with
    | None => mret (KERNEL_HEAP_STATUS_OVERFLOW, 0)
    | Some _ =>
        info ← allocation_information old_pointer;
        match info with
        | inl status => mret (status, 0)
        | inr info =>
            if decide (new_size ≤ info.(al_capacity)) then mret (KERNEL_HEAP_STATUS_OK, old_pointer)
            else
              '(status, result) ← kernel_heap_allocate new_size;
              if decide (status ≠ KERNEL_HEAP_STATUS_OK) then mret (status, 0)
              else
                m ← get_mem;
                '(_, m) ← lift (memcpy m result old_pointer info.(al_capacity));
                _ ← put_mem m;
                _ ← kernel_heap_release old_pointer;
                mret (KERNEL_HEAP_STATUS_OK, result)
        end
    end.

Definition kernel_heap_get_statistics : M (option kernel_heap_statistics) :=
  h ← get_heap; mret (if heap_initialized h then Some h.(statistics) else None).

End heap.
Arguments heap_world : clear implicits.

End SlabHeap.
