(* ===== verification/SlabBitsTheory.v ===== *)
(** * The slab bitmaps

    [bitmap_count] adds the bits of a word by summing digits in ever larger
    bases; the bitmap of a slab is a list of words, read as one set of slots. *)
From S2P Require Import Prelude SlabHeap.
Import SlabHeap.
#[local] Open Scope Z_scope.

(** ** Digits *)

(** [f] of each of the [k] low digits of [v] in base [b], and the sum of those
    digits. *)
Fixpoint digits (b : Z) (f : Z → Z) (k : nat) (v : Z) : Z :=
  match k with O => 0 | S k => f (v mod b) + b * digits b f k (v / b) end.
Fixpoint digit_sum (b : Z) (k : nat) (v : Z) : Z :=
  match k with O => 0 | S k => v mod b + digit_sum b k (v / b) end.
(** A digit in base [b * b] replaced by the sum of its two digits in base [b]. *)
Definition pair_sum (b d : Z) : Z := d mod b + d / b.

Lemma digits_bound b f k v : 0 < b → (∀ d, 0 ≤ d < b → 0 ≤ f d < b) → 0 ≤ digits b f k v < b ^ Z.of_nat k.
Proof.
  intros Hb Hf. revert v. induction k as [|k IH]; intros v; cbn [digits]; [simpl; lia|].
  specialize (IH (v / b)). pose proof (Hf (v mod b) (Z.mod_pos_bound v b Hb)).
  replace (Z.of_nat (S k)) with (Z.succ (Z.of_nat k)) by lia. rewrite Z.pow_succ_r by lia. nia.
Qed.
Lemma digits_step b f k v : 0 < b → (∀ d, 0 ≤ d < b → 0 ≤ f d < b) →
  digits b f (S k) v mod b = f (v mod b) ∧ digits b f (S k) v / b = digits b f k (v / b).
Proof.
  intros Hb Hf. cbn [digits]. pose proof (Hf (v mod b) (Z.mod_pos_bound v b Hb)).
  split; [symmetry; apply (Z.mod_unique _ _ (digits b f k (v / b)))|symmetry; apply (Z.div_unique _ _ _ (f (v mod b)))]; lia.
Qed.
Lemma pair_sum_digits b k v : 1 < b → (∀ d, 0 ≤ d < b * b → 0 ≤ pair_sum b d < b * b) →
  digit_sum (b * b) k (digits (b * b) (pair_sum b) k v) = digit_sum b (2 * k) v.
Proof.
  intros Hb Hf. revert v. induction k as [|k IH]; intros v; [done|]. replace (2 * S k)%nat with (S (S (2 * k))) by lia.
  cbn [digit_sum]. destruct (digits_step (b * b) (pair_sum b) k v) as [-> ->]; [nia|done|]. rewrite IH.
  unfold pair_sum. rewrite Z.div_div, Z.add_assoc by lia. f_equal. f_equal.
  - rewrite Z.mod_mod_divide; [done|by exists b].
  - rewrite Z.rem_mul_r by lia. rewrite (Z.mul_comm b (_ mod b)), Z.div_add by lia. rewrite Z.div_small by (apply Z.mod_pos_bound; lia). lia.
Qed.
Lemma land_split x y n b : 0 ≤ n → b = 2 ^ n → Z.land x y = Z.land (x mod b) (y mod b) + b * Z.land (x / b) (y / b).
Proof.
  intros Hn ->. assert (Hp : 0 < 2 ^ n) by (apply Z.pow_pos_nonneg; lia).
  rewrite <-!Z.land_ones, <-!Z.shiftr_div_pow2, <-Z.shiftr_land by done.
  replace (Z.land (Z.land x (Z.ones n)) (Z.land y (Z.ones n))) with (Z.land (Z.land x y) (Z.ones n)).
  - rewrite Z.land_ones, Z.shiftr_div_pow2 by done. pose proof (Z.div_mod (Z.land x y) (2 ^ n)). lia.
  - apply Z.bits_inj'. intros i _. rewrite !Z.land_spec. destruct (Z.testbit x i), (Z.testbit y i), (Z.testbit (Z.ones n) i); done.
Qed.

(** ** The four steps, on [k] digits *)
Fixpoint mask (b d : Z) (k : nat) : Z := match k with O => 0 | S k => d + b * mask b d k end.
Lemma mask_step b d k : 0 ≤ d < b → mask b d (S k) mod b = d ∧ mask b d (S k) / b = mask b d k.
Proof.
  intros Hd. cbn [mask]. split; [symmetry; apply (Z.mod_unique _ _ (mask b d k))|symmetry; apply (Z.div_unique _ _ _ d)]; lia.
Qed.
#[local] Ltac digit_cases := Z.to_euclidean_division_equations; lia.

Lemma count_pairs k v : 0 ≤ v < 4 ^ Z.of_nat k → v - Z.land (Z.shiftr v 1) (mask 4 1 k) = digits 4 (pair_sum 2) k v.
Proof.
  revert v. induction k as [|k IH]; intros v Hv; [simpl in *; rewrite Z.land_0_r; lia|].
  replace (Z.of_nat (S k)) with (Z.succ (Z.of_nat k)) in Hv by lia. rewrite Z.pow_succ_r in Hv by lia.
  rewrite (land_split _ _ 2 4) by done. destruct (mask_step 4 1 k ltac:(done)) as [-> ->]. cbn [digits].
  rewrite <-IH by digit_cases. rewrite !Z.shiftr_div_pow2 by lia. change (2 ^ 1) with 2. change 1 with (Z.ones 1) at 1. rewrite Z.land_ones by lia. change (2 ^ 1) with 2.
  replace (v / 2 / 4) with (v / 4 / 2) by (rewrite !Z.div_div; [done|lia..]). unfold pair_sum. digit_cases.
Qed.
Lemma count_nibbles k w : 0 ≤ w → Z.land w (mask 16 3 k) + Z.land (Z.shiftr w 2) (mask 16 3 k) = digits 16 (pair_sum 4) k w.
Proof.
  revert w. induction k as [|k IH]; intros w Hw; [simpl; rewrite !Z.land_0_r; lia|].
  rewrite (land_split w _ 4 16), (land_split (Z.shiftr w 2) _ 4 16) by done. destruct (mask_step 16 3 k ltac:(done)) as [-> ->]. cbn [digits].
  rewrite <-IH by digit_cases. rewrite !Z.shiftr_div_pow2 by lia. change (2 ^ 2) with 4. change 3 with (Z.ones 2). rewrite !Z.land_ones by lia. change (2 ^ 2) with 4.
  replace (w / 4 / 16) with (w / 16 / 4) by (rewrite !Z.div_div; [done|lia..]). unfold pair_sum.
  replace (w / 4 mod 16 mod 4) with (w mod 16 / 4) by digit_cases. lia.
Qed.
(** All digits in base 16 at most 6. *)
Fixpoint small_nibbles (k : nat) (x : Z) : Prop :=
  match k with O => x = 0 | S k => x mod 16 ≤ 6 ∧ small_nibbles k (x / 16) end.
Lemma pair_sum_nibbles k w : small_nibbles k (digits 16 (pair_sum 4) k w).
Proof.
  revert w. induction k as [|k IH]; intros w; [done|]. cbn [small_nibbles].
  destruct (digits_step 16 (pair_sum 4) k w) as [-> ->]; [done|intros d Hd; unfold pair_sum; digit_cases|].
  split; [unfold pair_sum; pose proof (Z.mod_pos_bound w 16); digit_cases|apply IH].
Qed.
Lemma small_nibbles_bound k x : 0 ≤ x → small_nibbles k x → 2 * x < 16 ^ Z.of_nat k.
Proof.
  revert x. induction k as [|k IH]; intros x Hx Hs; [simpl in *; lia|]. destruct Hs as [H1 H2]. specialize (IH (x / 16) ltac:(digit_cases) H2).
  replace (Z.of_nat (S k)) with (Z.succ (Z.of_nat k)) by lia. rewrite Z.pow_succ_r by lia. assert (x = 16 * (x / 16) + x mod 16) by (apply Z.div_mod; lia).
  assert (2 * (x / 16) + 1 ≤ 16 ^ Z.of_nat k) by lia. lia.
Qed.
Lemma count_bytes k x : 0 ≤ x → small_nibbles (2 * k) x → Z.land (x + Z.shiftr x 4) (mask 256 15 k) = digits 256 (pair_sum 16) k x.
Proof.
  revert x. induction k as [|k IH]; intros x Hx Hs; [simpl; by rewrite Z.land_0_r|].
  replace (2 * S k)%nat with (S (S (2 * k))) in Hs by lia. destruct Hs as (H0 & H1 & Hs).
  assert (H2 : x / 16 / 16 mod 16 ≤ 6) by (destruct (2 * k)%nat; [cbn [small_nibbles] in Hs; by rewrite Hs|apply Hs]).
  replace (x / 16 / 16) with (x / 256) in * by (rewrite Z.div_div; [done|lia..]).
  rewrite (land_split _ _ 8 256) by done. destruct (mask_step 256 15 k ltac:(done)) as [-> ->]. cbn [digits].
  rewrite <-IH by (try done; digit_cases). rewrite !Z.shiftr_div_pow2 by lia. change (2 ^ 4) with 16. change 15 with (Z.ones 4) at 1. rewrite Z.land_ones by lia. change (2 ^ 4) with 16.
  unfold pair_sum. replace ((x + x / 16) / 256) with (x / 256 + x / 256 / 16) by digit_cases. f_equal. digit_cases.
Qed.
Lemma digit_sum_cons c y k : 0 ≤ c < 256 → digit_sum 256 (S k) (c + 256 * y) = c + digit_sum 256 k y.
Proof.
  intros Hc. cbn [digit_sum]. f_equal; [symmetry; by apply (Z.mod_unique _ _ y); lia|]. f_equal. symmetry. apply (Z.div_unique _ _ _ c); lia.
Qed.
Lemma byte_split y b : 0 ≤ y < 256 * b → ∃ c y', 0 ≤ c < 256 ∧ y = c + 256 * y' ∧ 0 ≤ y' < b.
Proof.
  intros Hy. exists (y mod 256), (y / 256). pose proof (Z.mod_pos_bound y 256). pose proof (Z.div_mod y 256). lia.
Qed.
Lemma multiply_sum y : 0 ≤ y < 256 ^ 8 → digit_sum 256 8 y < 256 →
  Z.shiftr (u64 (y * 0x0101010101010101)) 56 = digit_sum 256 8 y.
Proof.
  intros Hy Hs. rewrite Z.shiftr_div_pow2 by lia. unfold u64. change (256 ^ 8) with (256 * 256 ^ 7) in Hy.
  apply byte_split in Hy as (c0 & y0 & H0 & -> & Hy). change (256 ^ 7) with (256 * 256 ^ 6) in Hy.
  apply byte_split in Hy as (c1 & y1 & H1 & -> & Hy). change (256 ^ 6) with (256 * 256 ^ 5) in Hy.
  apply byte_split in Hy as (c2 & y2 & H2 & -> & Hy). change (256 ^ 5) with (256 * 256 ^ 4) in Hy.
  apply byte_split in Hy as (c3 & y3 & H3 & -> & Hy). change (256 ^ 4) with (256 * 256 ^ 3) in Hy.
  apply byte_split in Hy as (c4 & y4 & H4 & -> & Hy). change (256 ^ 3) with (256 * 256 ^ 2) in Hy.
  apply byte_split in Hy as (c5 & y5 & H5 & -> & Hy). change (256 ^ 2) with (256 * 256) in Hy.
  apply byte_split in Hy as (c6 & c7 & H6 & -> & H7). rewrite !digit_sum_cons in Hs by done. rewrite !digit_sum_cons by done.
  cbn [digit_sum] in *. rewrite (Z.mod_small c7) in * by done. rewrite Z.add_0_r in *. set (total := c0 + (c1 + (c2 + (c3 + (c4 + (c5 + (c6 + c7))))))) in *.
  set (low := c0 * 282578800148737 + c1 * 282578800148736 + c2 * 282578800148480 + c3 * 282578800082944 + c4 * 282578783305728 + c5 * 282574488338432 + c6 * 281474976710656).
  set (high := c1 * 1 + c2 * 257 + c3 * 65793 + c4 * 16843009 + c5 * 4311810305 + c6 * 1103823438081 + c7 * 282578800148737).
  assert (Hl : 0 ≤ low < 2 ^ 56) by (unfold low, total in *; change (2 ^ 56) with 72057594037927936; lia).
  assert (Ht : 0 ≤ total) by (unfold total; lia).
  assert (E : (c0 + 256 * (c1 + 256 * (c2 + 256 * (c3 + 256 * (c4 + 256 * (c5 + 256 * (c6 + 256 * c7))))))) * 72340172838076673 =
    (low + total * 2 ^ 56) + high * 18446744073709551616) by (unfold low, high, total; change (2 ^ 56) with 72057594037927936; lia).
  rewrite E, Z.mod_add, Z.mod_small by (change (2 ^ 56) with 72057594037927936 in *; lia).
  rewrite Z.div_add, Z.div_small by lia. lia.
Qed.

(** ** [bitmap_count] *)
Definition popcount (v : Z) : Z := digit_sum 2 64 v.
Lemma digit_sum_bound b k v : 0 < b → 0 ≤ digit_sum b k v ≤ Z.of_nat k * (b - 1).
Proof.
  intros Hb. revert v. induction k as [|k IH]; intros v; cbn [digit_sum]; [lia|].
  specialize (IH (v / b)). pose proof (Z.mod_pos_bound v b Hb). lia.
Qed.
Lemma bitmap_count_spec v : is_u64 v → bitmap_count v = popcount v.
Proof.
  intros Hv. unfold bitmap_count.
  assert (Hp : ∀ b, 1 < b → ∀ d, 0 ≤ d < b * b → 0 ≤ pair_sum b d < b * b).
  { intros b Hb d Hd. unfold pair_sum. pose proof (Z.mod_pos_bound d b). assert (d / b < b) by (apply Z.div_lt_upper_bound; lia). pose proof (Z.div_pos d b). nia. }
  pose proof (count_pairs 32 v ltac:(change (4 ^ Z.of_nat 32) with 18446744073709551616; mlia)) as E1.
  change (mask 4 1 32) with 0x5555555555555555 in E1. rewrite E1. set (w := digits 4 (pair_sum 2) 32 v).
  assert (Hw : 0 ≤ w < 4 ^ Z.of_nat 32) by (apply (digits_bound 4); [done|apply (Hp 2); lia]).
  change (4 ^ Z.of_nat 32) with 18446744073709551616 in Hw. rewrite (u64_small w) by mlia.
  pose proof (count_nibbles 16 w ltac:(lia)) as E2. change (mask 16 3 16) with 0x3333333333333333 in E2. rewrite E2. set (x := digits 16 (pair_sum 4) 16 w).
  assert (Hs : small_nibbles 16 x) by apply pair_sum_nibbles.
  assert (Hx : 0 ≤ x < 16 ^ Z.of_nat 16) by (apply (digits_bound 16); [done|apply (Hp 4); lia]).
  pose proof (small_nibbles_bound 16 x ltac:(lia) Hs) as Hx2. change (16 ^ Z.of_nat 16) with 18446744073709551616 in *.
  assert (Hsh : 0 ≤ Z.shiftr x 4 ≤ x) by (rewrite Z.shiftr_div_pow2 by lia; change (2 ^ 4) with 16; Z.to_euclidean_division_equations; lia).
  rewrite (u64_small x) by mlia. rewrite (u64_small (x + _)) by mlia.
  pose proof (count_bytes 8 x ltac:(lia) Hs) as E3. change (mask 256 15 8) with 0x0f0f0f0f0f0f0f0f in E3. rewrite E3. set (y := digits 256 (pair_sum 16) 8 x).
  assert (Hy : 0 ≤ y < 256 ^ Z.of_nat 8) by (apply (digits_bound 256); [done|apply (Hp 16); lia]).
  assert (Esum : digit_sum 256 8 y = popcount v).
  { pose proof (pair_sum_digits 16 8 x ltac:(lia) (Hp 16 ltac:(lia))) as S1. pose proof (pair_sum_digits 4 16 w ltac:(lia) (Hp 4 ltac:(lia))) as S2.
    pose proof (pair_sum_digits 2 32 v ltac:(lia) (Hp 2 ltac:(lia))) as S3. unfold popcount. exact (eq_trans S1 (eq_trans S2 S3)). }
  pose proof (digit_sum_bound 2 64 v ltac:(lia)) as Hpop. fold (popcount v) in Hpop.
  rewrite multiply_sum by (try exact Hy; rewrite Esum; lia). rewrite Esum. apply u32_small. mlia.
Qed.

(** ** Counting *)
Fixpoint bits_below (f : Z → bool) (n : nat) : Z :=
  match n with O => 0 | S n => bits_below f n + Z.b2z (f (Z.of_nat n)) end.
Lemma bits_below_ext f g n : (∀ i, 0 ≤ i < Z.of_nat n → f i = g i) → bits_below f n = bits_below g n.
Proof. induction n as [|n IH]; intros Hfg; [done|]. cbn [bits_below]. rewrite IH, Hfg by (try (intros; apply Hfg); lia). done. Qed.
Lemma bits_below_bound f n : 0 ≤ bits_below f n ≤ Z.of_nat n.
Proof. induction n as [|n IH]; cbn [bits_below]; [lia|]. destruct (f _); simpl Z.b2z; lia. Qed.
Lemma bits_below_add f a b : bits_below f (a + b) = bits_below f a + bits_below (λ i, f (Z.of_nat a + i)) b.
Proof.
  induction b as [|b IH]; [rewrite Nat.add_0_r; simpl; lia|]. rewrite Nat.add_succ_r. cbn [bits_below]. rewrite IH.
  replace (Z.of_nat (a + b)) with (Z.of_nat a + Z.of_nat b) by lia. lia.
Qed.
Lemma bits_below_none f n : (∀ i, 0 ≤ i < Z.of_nat n → f i = false) → bits_below f n = 0.
Proof. intros Hf. rewrite (bits_below_ext f (λ _, false)) by done. clear. induction n; cbn [bits_below]; simpl Z.b2z; lia. Qed.
Lemma bits_below_cons f n : bits_below f (S n) = Z.b2z (f 0) + bits_below (λ i, f (1 + i)) n.
Proof. exact (bits_below_add f 1 n). Qed.
Lemma popcount_bits v : popcount v = bits_below (Z.testbit v) 64.
Proof.
  unfold popcount. generalize 64%nat. intros n. revert v. induction n as [|n IH]; intros v; [done|].
  rewrite bits_below_cons. cbn [digit_sum]. rewrite IH, <-Z.bit0_mod. f_equal.
  apply bits_below_ext. intros i Hi. rewrite Z.div2_bits by lia. f_equal. lia.
Qed.
(** A list without repetition has as many elements as it marks. *)
Lemma bits_below_list (l : list Z) n : NoDup l → (∀ i, i ∈ l → 0 ≤ i < Z.of_nat n) →
  bits_below (λ i, bool_decide (i ∈ l)) n = Z.of_nat (length l).
Proof.
  revert l. induction n as [|n IH]; intros l Hd Hb.
  { destruct l as [|x l]; [done|]. specialize (Hb x ltac:(left)). lia. }
  cbn [bits_below]. destruct (decide (Z.of_nat n ∈ l)) as [Hin|Hin].
  - rewrite bool_decide_true by done. apply list_elem_of_split in Hin as (l1 & l2 & ->).
    assert (Hp : l1 ++ Z.of_nat n :: l2 ≡ₚ Z.of_nat n :: (l1 ++ l2)) by (by rewrite Permutation_middle).
    rewrite Hp in Hd. apply NoDup_cons in Hd as [Hn Hd]. rewrite Hp. cbn [length]. specialize (IH (l1 ++ l2) Hd).
    rewrite (bits_below_ext _ (λ i, bool_decide (i ∈ l1 ++ l2))).
    + rewrite IH; [simpl Z.b2z; lia|]. intros i Hi. specialize (Hb i ltac:(rewrite Hp; by right)). assert (i ≠ Z.of_nat n) by (intros ->; done). lia.
    + intros i Hi. apply bool_decide_ext. rewrite Hp, elem_of_cons. split; [intros [?|?]; [lia|done]|by right].
  - rewrite bool_decide_false by done. simpl Z.b2z. rewrite IH; [lia|done|]. intros i Hi. specialize (Hb i Hi). assert (i ≠ Z.of_nat n) by (intros ->; done). lia.
Qed.
Lemma bits_below_complement f n : bits_below (λ i, negb (f i)) n = Z.of_nat n - bits_below f n.
Proof. induction n as [|n IH]; cbn [bits_below]; [lia|]. destruct (f _); simpl; lia. Qed.

(** ** Bitmaps as sets of slots *)
Definition bit (words : list Z) (i : Z) : bool :=
  match words !! Z.to_nat (i / 64) with Some w => Z.testbit w (i mod 64) | None => false end.
Lemma bit_cons w words i : 0 ≤ i → bit (w :: words) i = if decide (i < 64) then Z.testbit w i else bit words (i - 64).
Proof.
  intros Hi. unfold bit. case_decide.
  - rewrite Z.div_small, Z.mod_small by lia. done.
  - replace (i / 64) with (1 + (i - 64) / 64) by (Z.to_euclidean_division_equations; lia).
    replace (i mod 64) with ((i - 64) mod 64) by (Z.to_euclidean_division_equations; lia).
    rewrite Z2Nat.inj_add by (try done; apply Z.div_pos; lia). done.
Qed.
Lemma bit_end words i : 64 * Z.of_nat (length words) ≤ i → bit words i = false.
Proof.
  intros Hi. unfold bit. rewrite lookup_ge_None_2; [done|]. assert (Z.of_nat (length words) ≤ i / 64) by (apply Z.div_le_lower_bound; lia). lia.
Qed.
Lemma bit_new n i : bit (replicate n 0) i = false.
Proof.
  unfold bit. destruct (replicate n 0 !! _) as [w|] eqn:E; [|done]. apply lookup_replicate in E as [-> _]. apply Z.testbit_0_l.
Qed.
Lemma set_slot w i k : 0 ≤ i → 0 ≤ k → Z.testbit (Z.lor w (Z.shiftl 1 i)) k = if decide (k = i) then true else Z.testbit w k.
Proof.
  intros Hi Hk. rewrite Z.lor_spec, testbit_single by lia. case_decide; [rewrite bool_decide_true by done; apply orb_true_r|].
  rewrite bool_decide_false by done. apply orb_false_r.
Qed.
Lemma clear_slot w i k : 0 ≤ i → 0 ≤ k → Z.testbit (Z.land w (Z.lnot (Z.shiftl 1 i))) k = if decide (k = i) then false else Z.testbit w k.
Proof.
  intros Hi Hk. rewrite Z.land_spec, Z.lnot_spec, testbit_single by lia. case_decide; [rewrite bool_decide_true by done; apply andb_false_r|].
  rewrite bool_decide_false by done. apply andb_true_r.
Qed.
Section words.
Context (words : list Z) (n : nat) (Hl : length words = n) (Hw : Forall is_u64 words).
Lemma word_at i : 0 ≤ i < 64 * Z.of_nat n → ∃ w, words !! Z.to_nat (i / 64) = Some w ∧ is_u64 w ∧ (Z.to_nat (i / 64) < length words)%nat ∧ 0 ≤ i mod 64 < 64.
Proof.
  intros Hi. assert (i / 64 < Z.of_nat n) by (apply Z.div_lt_upper_bound; lia). pose proof (Z.div_pos i 64).
  destruct (lookup_lt_is_Some_2 words (Z.to_nat (i / 64))) as [w Hx]; [lia|]. exists w. split; [done|]. split; [by eapply Forall_lookup_1|].
  split; [lia|apply Z.mod_pos_bound; lia].
Qed.
Lemma bitmap_test_run i : 0 ≤ i < 64 * Z.of_nat n → bitmap_test words i = Done (bit words i).
Proof.
  intros Hi. destruct (word_at i Hi) as (w & Ew & _ & _ & Hm). unfold bitmap_test, bit. rewrite (aread_ok _ _ _ Ew), Ew. run. f_equal.
  apply eq_bool_prop_intro. rewrite bool_decide_spec, land_single by lia. by destruct (Z.testbit w (i mod 64)).
Qed.
(** One word replaced. *)
Lemma bit_insert i w j (b : bool) : 0 ≤ i < 64 * Z.of_nat n → 0 ≤ j → (∀ k, 0 ≤ k < 64 → Z.testbit w k = if decide (k = i mod 64) then b else bit words (64 * (i / 64) + k)) →
  bit (<[Z.to_nat (i / 64) := w]> words) j = if decide (j = i) then b else bit words j.
Proof.
  intros Hi Hj Hb. destruct (word_at i Hi) as (w0 & Ew & _ & Hlt & _). unfold bit at 1. pose proof (Z.div_pos i 64). pose proof (Z.div_pos j 64). pose proof (Z.mod_pos_bound j 64).
  pose proof (Z.div_mod i 64). pose proof (Z.div_mod j 64). destruct (decide (j / 64 = i / 64)) as [E|E].
  - rewrite E, list_lookup_insert_eq by done. rewrite Hb by lia. case_decide; case_decide; try done; try lia.
    f_equal. lia.
  - rewrite list_lookup_insert_ne by lia. rewrite decide_False by congruence. done.
Qed.
Lemma bit_word i w k : words !! Z.to_nat (i / 64) = Some w → 0 ≤ i → 0 ≤ k < 64 → bit words (64 * (i / 64) + k) = Z.testbit w k.
Proof.
  intros Ew Hi Hk. unfold bit. replace ((64 * (i / 64) + k) / 64) with (i / 64) by (Z.to_euclidean_division_equations; lia).
  rewrite Ew. f_equal. Z.to_euclidean_division_equations; lia.
Qed.
Lemma bitmap_set_run i : 0 ≤ i < 64 * Z.of_nat n → ∃ words', bitmap_set words i = Done words' ∧ length words' = n ∧ Forall is_u64 words' ∧
  ∀ j, 0 ≤ j → bit words' j = if decide (j = i) then true else bit words j.
Proof.
  intros Hi. destruct (word_at i Hi) as (w & Ew & Hu & Hlt & Hm). unfold bitmap_set. rewrite (aread_ok _ _ _ Ew). run. rewrite awrite_ok by done.
  eexists. split; [done|]. split; [by rewrite length_insert|]. split.
  - apply Forall_insert; [done|]. apply (is_u64_update w _ i true Hu); [apply Z.lor_nonneg; rewrite Z.shiftl_1_l; split; [mlia|apply Z.pow_nonneg; lia]|].
    intros k Hk. apply set_slot; lia.
  - intros j Hj. apply bit_insert; [done|done|]. intros k Hk. rewrite (bit_word i w k) by (done || lia). apply set_slot; lia.
Qed.
Lemma bitmap_clear_run i : 0 ≤ i < 64 * Z.of_nat n → ∃ words', bitmap_clear words i = Done words' ∧ length words' = n ∧ Forall is_u64 words' ∧
  ∀ j, 0 ≤ j → bit words' j = if decide (j = i) then false else bit words j.
Proof.
  intros Hi. destruct (word_at i Hi) as (w & Ew & Hu & Hlt & Hm). unfold bitmap_clear. rewrite (aread_ok _ _ _ Ew). run. rewrite awrite_ok by done.
  eexists. split; [done|]. split; [by rewrite length_insert|]. split; [apply Forall_insert; [done|by apply is_u64_land]|].
  intros j Hj. apply bit_insert; [done|done|]. intros k Hk. rewrite (bit_word i w k) by (done || lia). apply clear_slot; lia.
Qed.
End words.

(** ** The bitmap check *)
Lemma word_mask_ones n : 0 ≤ n → word_mask n = (Z.ones (Z.min n 64), Z.max 0 (n - 64)).
Proof.
  intros Hn. unfold word_mask. case_decide; [rewrite Z.min_r, Z.max_r by lia; done|]. case_decide; [by subst|].
  rewrite Z.min_l, Z.max_l by lia. reflexivity.
Qed.
Lemma masked_word w n : is_u64 w → 0 ≤ n ≤ 64 → (∀ k, n ≤ k < 64 → Z.testbit w k = false) →
  Z.land w (u64 (Z.lnot (Z.ones n))) = 0 ∧ Z.land w (Z.ones n) = w.
Proof.
  intros [H0 Hw]%is_u64_bits Hn Hz. assert (Hhigh : ∀ k, n ≤ k → Z.testbit w k = false).
  { intros k Hk. destruct (decide (k < 64)); [apply Hz; lia|apply Hw; lia]. }
  split; apply Z.bits_inj'; intros k Hk.
  - rewrite Z.land_spec, Z.bits_0. destruct (decide (n ≤ k)); [by rewrite Hhigh|]. unfold u64. change 18446744073709551616 with (2 ^ 64).
    rewrite Z.mod_pow2_bits_low, Z.lnot_spec, Z.ones_spec_low by lia. apply andb_false_r.
  - rewrite Z.land_spec. destruct (decide (n ≤ k)); [by rewrite Hhigh|]. rewrite Z.ones_spec_low by lia. apply andb_true_r.
Qed.
Lemma count_words_run words : ∀ n acc, Forall is_u64 words → 0 ≤ n → (∀ i, n ≤ i → bit words i = false) →
  0 ≤ acc → acc + 64 * Z.of_nat (length words) ≤ UINT32_MAX →
  count_words words n acc = Some (acc + bits_below (bit words) (64 * length words)).
Proof.
  induction words as [|w words IH]; intros n acc Hf Hn Hz Ha Hmax; cbn [count_words length]; [f_equal; simpl; lia|].
  cbn [length] in Hmax. apply Forall_cons in Hf as [Hu Hf]. rewrite word_mask_ones by done. cbv iota beta.
  assert (Hlow : ∀ k, Z.min n 64 ≤ k < 64 → Z.testbit w k = false).
  { intros k Hk. specialize (Hz k ltac:(lia)). rewrite bit_cons in Hz by lia. by rewrite decide_True in Hz by lia. }
  destruct (masked_word w (Z.min n 64) Hu ltac:(lia) Hlow) as [-> ->]. rewrite decide_False by lia. rewrite bitmap_count_spec, popcount_bits by done.
  pose proof (bits_below_bound (Z.testbit w) 64) as Hb64. change (Z.of_nat 64) with 64 in Hb64. rewrite u32_small by mlia.
  rewrite IH; [|done|lia| |lia|mlia].
  - apply f_equal. replace (64 * S (length words))%nat with (64 + 64 * length words)%nat by lia. rewrite bits_below_add.
    rewrite (bits_below_ext (bit (w :: words)) (Z.testbit w) 64) by (intros i Hi; rewrite bit_cons by lia; by rewrite decide_True by lia).
    rewrite (bits_below_ext (λ i, bit (w :: words) (Z.of_nat 64 + i)) (bit words)); [symmetry; apply Z.add_assoc|].
    intros i Hi. rewrite bit_cons, decide_False by lia. f_equal. lia.
  - intros i Hi. specialize (Hz (i + 64) ltac:(lia)). rewrite bit_cons, decide_False in Hz by lia. by rewrite Z.add_simpl_r in Hz.
Qed.

(** The slots that are not used, as a list. *)
Definition free_slots (words : list Z) (count : Z) (free : list Z) : Prop :=
  NoDup free ∧ ∀ i, i ∈ free ↔ 0 ≤ i < count ∧ bit words i = false.
Lemma free_slots_count words count free : 0 ≤ count → free_slots words count free →
  Z.of_nat (length free) = count - bits_below (bit words) (Z.to_nat count).
Proof.
  intros Hc [Hd Hf]. rewrite <-(bits_below_list free (Z.to_nat count)) by (try done; intros i Hi%Hf; lia).
  rewrite (bits_below_ext _ (λ i, negb (bit words i))); [rewrite bits_below_complement; lia|].
  intros i Hi. destruct (bit words i) eqn:E; [apply bool_decide_false; rewrite Hf, E; naive_solver|apply bool_decide_true, Hf; split; [lia|done]].
Qed.
(** Enough zero bits behind. *)
Lemma bits_below_more f n m : (n ≤ m)%nat → (∀ i, Z.of_nat n ≤ i → f i = false) → bits_below f m = bits_below f n.
Proof.
  intros Hn Hz. replace m with (n + (m - n))%nat by lia. rewrite bits_below_add, (bits_below_none _ (m - n)); [lia|].
  intros i Hi. apply Hz. lia.
Qed.
