(* ===== verification/SlabListTheory.v ===== *)
(** * Slabs in memory, their lists, and the operations on the lists *)
From S2P Require Import Prelude Bytes Heap StringOps StringCopyTheory PhysicalPage PageReclaim SlabHeap SlabBitsTheory.
Import StringOps PhysicalPage SlabHeap.
#[local] Open Scope Z_scope.

(** ** Little-endian fields *)
Lemma le_value_le_bytes n w : le_value (le_bytes n w) = w mod 256 ^ Z.of_nat n.
Proof.
  revert w. induction n as [|n IH]; intros w; cbn [le_bytes le_value]; [by rewrite Z.mod_1_r|].
  rewrite IH. replace (Z.of_nat (S n)) with (1 + Z.of_nat n) by lia. rewrite Z.pow_add_r, Z.pow_1_r, Z.rem_mul_r by lia. done.
Qed.
Lemma length_le_bytes n w : length (le_bytes n w) = n.
Proof. revert w. induction n as [|n IH]; intros w; cbn [le_bytes length]; [done|by rewrite IH]. Qed.
Lemma le_bytes_ok n w : Forall byte_ok (le_bytes n w).
Proof.
  revert w. induction n as [|n IH]; intros w; cbn [le_bytes]; constructor; [|apply IH]. unfold byte_ok. apply Z.mod_pos_bound. done.
Qed.
Lemma field_value n w : 0 ≤ w < 256 ^ Z.of_nat n → le_value (le_bytes n w) = w.
Proof. intros Hw. rewrite le_value_le_bytes. by apply Z.mod_small. Qed.

(** ** The header *)
Record slab_typed (s : kernel_slab) : Prop := {
  ty_magic : is_u64 s.(s_magic);
  ty_heap : is_u64 s.(s_heap);
  ty_next : is_u64 s.(s_next);
  ty_previous : is_u64 s.(s_previous);
  ty_words : length s.(s_allocated) = 4%nat ∧ Forall is_u64 s.(s_allocated);
  ty_head : is_u32 s.(s_free_head);
  ty_class : 0 ≤ s.(s_class_index) < 65536;
  ty_count : 0 ≤ s.(s_slot_count) < 65536;
  ty_free : 0 ≤ s.(s_free_count) < 65536;
  ty_offset : 0 ≤ s.(s_slot_offset) < 65536;
  ty_reserved : is_u32 s.(s_reserved);
}.
Lemma slab_words s : slab_typed s → ∃ w0 w1 w2 w3, s.(s_allocated) = [w0; w1; w2; w3] ∧ is_u64 w0 ∧ is_u64 w1 ∧ is_u64 w2 ∧ is_u64 w3.
Proof.
  intros Ht. destruct (ty_words _ Ht) as [Hl Hf]. destruct s.(s_allocated) as [|w0 [|w1 [|w2 [|w3 [|]]]]]; try done.
  apply Forall_cons in Hf as [? Hf]. apply Forall_cons in Hf as [? Hf]. apply Forall_cons in Hf as [? Hf]. apply Forall_cons in Hf as [? _]. by exists w0, w1, w2, w3.
Qed.
Lemma length_slab_bytes s : slab_typed s → length (slab_bytes s) = 80%nat.
Proof. intros Ht. destruct (slab_words s Ht) as (w0 & w1 & w2 & w3 & E & _). unfold slab_bytes. by rewrite E. Qed.
Lemma slab_bytes_ok s : Forall byte_ok (slab_bytes s).
Proof.
  unfold slab_bytes. rewrite !Forall_app. split_and!; try apply le_bytes_ok. apply Forall_concat, Forall_map, Forall_forall. intros w _. apply le_bytes_ok.
Qed.
Lemma slab_roundtrip s : slab_typed s → slab_value (slab_bytes s) = s.
Proof.
  intros Ht. destruct (slab_words s Ht) as (w0 & w1 & w2 & w3 & E & H0 & H1 & H2 & H3). destruct Ht as [T1 T2 T3 T4 _ T5 T6 T7 T8 T9 T10].
  assert (H8 : ∀ w, is_u64 w → le_value (le_bytes 8 w) = w) by (intros w Hw; apply field_value; change (256 ^ Z.of_nat 8) with 18446744073709551616; mlia).
  assert (H4 : ∀ w, is_u32 w → le_value (le_bytes 4 w) = w) by (intros w Hw; apply field_value; change (256 ^ Z.of_nat 4) with 4294967296; mlia).
  assert (Hs : ∀ w, 0 ≤ w < 65536 → le_value (le_bytes 2 w) = w) by (intros w Hw; apply field_value; change (256 ^ Z.of_nat 2) with 65536; done).
  destruct s as [mg hp nx pv al fh ci sc fc so re]; simpl in *. subst al.
  unfold slab_value. f_equal; [by apply H8..| |by apply H4|by apply Hs|by apply Hs|by apply Hs|by apply Hs|by apply H4].
  f_equal; [by apply H8|]. f_equal; [by apply H8|]. f_equal; [by apply H8|]. f_equal. by apply H8.
Qed.

(** [header m p s]: the struct at [p] is [s]. *)
Definition header (m : mem) (p : Z) (s : kernel_slab) : Prop := slab_typed s ∧ peek m p 80 = slab_bytes s.
Lemma load_slab_run m p s : mapped m p 80 → header m p s → load_slab m p = Done s.
Proof. intros Hm [Ht E]. unfold load_slab. change (Z.to_nat SIZEOF_SLAB) with 80%nat. rewrite (load_bytes_peek m p 80) by done. run. by rewrite E, slab_roundtrip. Qed.
Lemma store_slab_run m p s : mapped m p 80 → slab_typed s → store_slab m p s = Done (put m p (slab_bytes s)).
Proof. intros Hm Ht. apply store_bytes_put. by rewrite length_slab_bytes. Qed.
Lemma peek_put m p l : peek (put m p l) p (length l) = l.
Proof.
  apply list_eq_same_length with (n := length l); [done|apply length_peek|]. intros i x y Hi Hx Hy.
  rewrite lookup_peek in Hx by done. rewrite lookup_put, decide_True in Hx by lia. replace (Z.to_nat (p + Z.of_nat i - p)) with i in Hx by lia.
  rewrite Hy in Hx. simpl in Hx. congruence.
Qed.
Lemma header_put m p s : slab_typed s → header (put m p (slab_bytes s)) p s.
Proof. intros Ht. split; [done|]. rewrite <-(length_slab_bytes s Ht). apply peek_put. Qed.
Lemma header_ext m m' p s : (∀ x, p ≤ x < p + 80 → m' !! x = m !! x) → header m p s → header m' p s.
Proof. intros He [Ht E]. split; [done|]. rewrite <-E. apply peek_ext. intros x Hx. apply He. lia. Qed.

(** What a write leaves alone. *)
Lemma put_outside m a l x : ¬ a ≤ x < a + Z.of_nat (length l) → put m a l !! x = m !! x.
Proof. intros Hx. by rewrite lookup_put, decide_False. Qed.
Lemma put_mapped m a l x : mapped m a (Z.of_nat (length l)) → is_Some (put m a l !! x) ↔ is_Some (m !! x).
Proof.
  intros Hm. rewrite lookup_put. case_decide as Hx; [|done]. split; [intros _; apply Hm; lia|].
  intros _. apply lookup_lt_is_Some. lia.
Qed.
Lemma put_bytes_ok m a l : mem_ok m → Forall byte_ok l → mem_ok (put m a l).
Proof.
  intros Hm Hl x b. rewrite lookup_put. case_decide; [|apply Hm]. intros Hx. by eapply Forall_lookup_1.
Qed.

(** ** Size classes *)
Lemma class_cases c (P : Z → Prop) : P 0 → P 1 → P 2 → P 3 → P 4 → P 5 → P 6 → P 7 → 0 ≤ c < 8 → P c.
Proof.
  intros. destruct (decide (c = 0)); [by subst|]. destruct (decide (c = 1)); [by subst|]. destruct (decide (c = 2)); [by subst|]. destruct (decide (c = 3)); [by subst|].
  destruct (decide (c = 4)); [by subst|]. destruct (decide (c = 5)); [by subst|]. destruct (decide (c = 6)); [by subst|]. by replace c with 7 by lia.
Qed.
Lemma class_facts c : 0 ≤ c < 8 →
  16 ≤ class_size c ≤ 2048 ∧ class_size c = 16 * 2 ^ c ∧ 1 ≤ slot_count_of c ≤ 251 ∧ 80 + class_size c * slot_count_of c ≤ 4096.
Proof.
  intros Hc. pattern c. revert Hc. apply class_cases; by_decide.
Qed.
Definition slot_at (p c i : Z) : Z := p + 80 + class_size c * i.
(** Slots lie in the page, behind the header, and do not overlap. *)
Lemma slot_inside p c i : 0 ≤ c < 8 → 0 ≤ i < slot_count_of c → p + 80 ≤ slot_at p c i ∧ slot_at p c i + class_size c ≤ p + 4096.
Proof. intros Hc Hi. destruct (class_facts c Hc) as (? & _ & ? & ?). unfold slot_at. nia. Qed.
Lemma slot_apart p c i j : 0 ≤ c < 8 → 0 ≤ i → 0 ≤ j → i ≠ j → slot_at p c i + class_size c ≤ slot_at p c j ∨ slot_at p c j + class_size c ≤ slot_at p c i.
Proof. intros Hc Hi Hj Hne. destruct (class_facts c Hc) as (? & _). unfold slot_at. nia. Qed.

(** ** The links of the free slots *)
Lemma slot_read_run m a : mem_ok m → mapped m a 4 → slot_read 4 m a 0 0 = Done (le_value (peek m a 4)).
Proof.
  intros Hm Hd. assert (Hb : ∀ i, 0 ≤ i < 4 → ∃ b, m !! (a + i) = Some b ∧ byte_ok b).
  { intros i Hi. destruct (Hd (a + i) ltac:(lia)) as [b Eb]. exists b. split; [done|]. by apply (Hm (a + i)). }
  destruct (Hb 0 ltac:(lia)) as (b0 & E0 & H0), (Hb 1 ltac:(lia)) as (b1 & E1 & H1), (Hb 2 ltac:(lia)) as (b2 & E2 & H2), (Hb 3 ltac:(lia)) as (b3 & E3 & H3).
  cbn [slot_read peek le_value]. unfold load. change (0 + 1) with 1. change (1 + 1) with 2. change (2 + 1) with 3. replace (a + 1 + 1) with (a + 2) by lia. replace (a + 2 + 1) with (a + 3) by lia.
  replace (m !! a) with (Some b0) by (by rewrite <-E0, Z.add_0_r). rewrite E0, E1, E2, E3. run. cbn [default from_option]. unfold byte_ok in *. f_equal.
  rewrite !u32_small by (rewrite Z.shiftl_mul_pow2 by lia; change (2 ^ (0 * 8)) with 1; change (2 ^ (1 * 8)) with 256; change (2 ^ (2 * 8)) with 65536; change (2 ^ (3 * 8)) with 16777216; mlia).
  rewrite Z.lor_0_l. change (0 * 8) with 0. rewrite Z.shiftl_0_r. change (1 * 8) with 8. rewrite (lor_shift b0 b1 8) by (change (2 ^ 8) with 256; lia). change (2 ^ 8) with 256.
  change (2 * 8) with 16. rewrite (lor_shift (b0 + b1 * 256) b2 16) by (change (2 ^ 16) with 65536; lia). change (2 ^ 16) with 65536.
  change (3 * 8) with 24. rewrite (lor_shift _ b3 24) by (change (2 ^ 24) with 16777216; lia). change (2 ^ 24) with 16777216. unfold id. lia.
Qed.
Lemma slot_write_run m a v : mapped m a 4 → slot_write 4 m a 0 v = Done (put m a (le_bytes 4 v)).
Proof.
  intros Hd. rewrite <-store_bytes_put by (by rewrite length_le_bytes). cbn [slot_write le_bytes store_bytes].
  change (0 + 1) with 1. change (1 + 1) with 2. change (2 + 1) with 3. rewrite Z.add_0_r. replace (a + 1 + 1) with (a + 2) by lia. replace (a + 2 + 1) with (a + 3) by lia.
  rewrite !Z.shiftr_div_pow2 by lia. change (2 ^ (0 * 8)) with 1. change (2 ^ (1 * 8)) with 256. change (2 ^ (2 * 8)) with (256 * 256). change (2 ^ (3 * 8)) with (256 * 256 * 256).
  rewrite Z.div_1_r, <-!Z.div_div by lia. done.
Qed.

(** The next free slot is in the first bytes of each. *)
Fixpoint chained (m : mem) (slot : Z → Z) (l : list Z) : Prop :=
  match l with
  | [] => True
  | i :: l => le_value (peek m (slot i) 4) = default KERNEL_SLAB_INDEX_NONE (head l) ∧ chained m slot l
  end.
Lemma slots_chained_ext m m' slot l : (∀ i x, i ∈ l → slot i ≤ x < slot i + 4 → m' !! x = m !! x) → chained m slot l → chained m' slot l.
Proof.
  induction l as [|i l IH]; intros He; [done|]. intros [E Hl]. split.
  - rewrite <-E. f_equal. apply peek_ext. intros x Hx. apply (He i); [left|simpl in Hx; lia].
  - apply IH; [|done]. intros j x Hj. apply He. by right.
Qed.

(** ** The slabs of a heap and their lists

    [slabs_ok] relates the memory and the list heads to a map of slabs (class,
    bitmap words, free slots in order) and, per class, the list of the slabs with
    a free slot.  The lemmas change one slab, add or drop one, and move one in or
    out of its list. *)
Import StringOps PhysicalPage PageReclaim SlabHeap.

Record slab_info := mk_info { i_class : Z; i_words : list Z; i_free : list Z }.
Definition i_count (i : slab_info) : Z := slot_count_of i.(i_class).
Record info_ok (i : slab_info) : Prop := {
  io_class : 0 ≤ i.(i_class) < 8;
  io_length : length i.(i_words) = 4%nat;
  io_words : Forall is_u64 i.(i_words);
  io_high k : i_count i ≤ k → bit i.(i_words) k = false;
  io_free : free_slots i.(i_words) (i_count i) i.(i_free);
}.
Lemma info_count i : info_ok i → 1 ≤ i_count i ≤ 251 ∧ 16 ≤ class_size i.(i_class) ≤ 2048.
Proof. intros Hi. destruct (class_facts _ (io_class _ Hi)) as (? & _ & ? & _). done. Qed.
Lemma info_free i : info_ok i → Z.of_nat (length i.(i_free)) = i_count i - bits_below (bit i.(i_words)) (Z.to_nat (i_count i)) ∧ 0 ≤ Z.of_nat (length i.(i_free)) ≤ i_count i.
Proof.
  intros Hi. destruct (info_count i Hi). pose proof (free_slots_count _ (i_count i) _ ltac:(lia) (io_free _ Hi)) as E. split; [done|].
  pose proof (bits_below_bound (bit i.(i_words)) (Z.to_nat (i_count i))). lia.
Qed.
Definition info_head (i : slab_info) : Z := default KERNEL_SLAB_INDEX_NONE (head i.(i_free)).
Lemma info_head_bounds i : info_ok i → is_u32 (info_head i).
Proof.
  intros Hi. unfold info_head. destruct i.(i_free) as [|x l] eqn:E; simpl; [unfold KERNEL_SLAB_INDEX_NONE; mlia|].
  destruct (info_count i Hi). destruct (io_free _ Hi) as [_ Hf]. pose proof (proj1 (Hf x) ltac:(rewrite E; left)). mlia.
Qed.

(** ** Neighbours in a list *)

(** The neighbours of [p] in a list; no neighbours outside it. *)
Definition neighbours (l : list Z) (p nx pv : Z) : Prop :=
  (p ∉ l ∧ nx = 0 ∧ pv = 0) ∨ ∃ l1 l2, l = l1 ++ p :: l2 ∧ pv = default 0 (last l1) ∧ nx = default 0 (head l2).
Lemma neighbours_exist l p : ∃ nx pv, neighbours l p nx pv.
Proof.
  destruct (decide (p ∈ l)) as [(l1 & l2 & ->)%list_elem_of_split|Hn]; [|exists 0, 0; by left]. eexists _, _. right. by exists l1, l2.
Qed.
Lemma neighbours_unique l p nx pv nx' pv' : NoDup l → neighbours l p nx pv → neighbours l p nx' pv' → nx = nx' ∧ pv = pv'.
Proof.
  intros Hd [(Hn & -> & ->)|(l1 & l2 & -> & -> & ->)] [(Hn' & -> & ->)|(k1 & k2 & E & -> & ->)]; try done.
  - destruct Hn. rewrite E. set_solver.
  - destruct Hn'. set_solver.
  - assert (l1 = k1 ∧ l2 = k2) as [-> ->]; [|done]. revert k1 E. induction l1 as [|x l1 IH]; intros [|y k1] E; cbn [app] in *.
    + by injection E as ->.
    + injection E as E1 E2. subst y. apply NoDup_cons in Hd as [Hx _]. destruct Hx. rewrite E2. set_solver.
    + injection E as E1 E2. subst x. apply NoDup_cons in Hd as [Hx _]. destruct Hx. set_solver.
    + injection E as E1 E2. apply NoDup_cons in Hd as [_ Hd]. subst y. by destruct (IH Hd k1 E2) as [-> ->].
Qed.
Lemma neighbours_in l p nx pv q : neighbours l p nx pv → q = nx ∨ q = pv → q ≠ 0 → q ∈ l.
Proof.
  intros [(_ & -> & ->)|(l1 & l2 & -> & -> & ->)] [->| ->] Hne; try done.
  - destruct l2 as [|y l2]; simpl in *; [done|]. set_solver.
  - destruct (last l1) as [y|] eqn:E; simpl in *; [|done]. apply last_Some in E as [k ->]. set_solver.
Qed.

(** The same as a function. *)
Fixpoint links_from (pv : Z) (l : list Z) (q : Z) : Z * Z :=
  match l with [] => (0, 0) | x :: l => if decide (x = q) then (default 0 (head l), pv) else links_from x l q end.
Lemma links_from_spec l q : ∀ l0 pv, q ∉ l0 → pv = default 0 (last l0) →
  (q ∈ l → ∃ l1 l2, l0 ++ l = l1 ++ q :: l2 ∧ (links_from pv l q).2 = default 0 (last l1) ∧ (links_from pv l q).1 = default 0 (head l2)) ∧
  (q ∉ l → links_from pv l q = (0, 0)).
Proof.
  induction l as [|x l IH]; intros l0 pv H0 Epv; cbn [links_from]; [split; [by intros ?%elem_of_nil|done]|]. case_decide as E.
  - subst x. split; [intros _; by exists l0, l|set_solver].
  - destruct (IH (l0 ++ [x]) x) as [IH1 IH2]; [set_solver|by rewrite last_snoc|]. rewrite <-app_assoc in IH1. split; [|set_solver].
    intros [?|Hin]%elem_of_cons; [congruence|]. by apply IH1.
Qed.
Lemma links_neighbours l q : neighbours l q (links_from 0 l q).1 (links_from 0 l q).2.
Proof.
  destruct (links_from_spec l q [] 0) as [H1 H2]; [set_solver|done|]. destruct (decide (q ∈ l)) as [Hin|Hn]; [|rewrite (H2 Hn); by left].
  destruct (H1 Hin) as (l1 & l2 & E & E2 & E1). right. by exists l1, l2.
Qed.
(** ** Into a list and out of it *)
Lemma neighbours_cons p l q nx pv : q ≠ p → q ≠ 0 → q ≠ default 0 (head l) → neighbours (p :: l) q nx pv → neighbours l q nx pv.
Proof.
  intros Hp H0 Hh [(Hn & -> & ->)|(l1 & l2 & E & -> & ->)]; [left; split; [set_solver|done]|]. destruct l1 as [|y l1]; cbn [app] in E; injection E as -> E; [done|].
  right. exists l1, l2. split; [done|]. split; [|done]. destruct l1 as [|z l1]; [simpl in E; subst l; done|]. by rewrite last_cons_cons.
Qed.
Lemma neighbours_second p y l nx pv : p ≠ y → NoDup (p :: y :: l) → neighbours (p :: y :: l) y nx pv → pv = p ∧ neighbours (y :: l) y nx 0.
Proof.
  intros Hne Hd Hn. destruct (neighbours_unique (p :: y :: l) y nx pv (default 0 (head l)) p Hd Hn) as [-> ->]; [right; by exists [p], l|].
  split; [done|]. right. by exists [], l.
Qed.
Lemma neighbours_first p l nx pv : NoDup (p :: l) → neighbours (p :: l) p nx pv → nx = default 0 (head l) ∧ pv = 0.
Proof. intros Hd Hn. apply (neighbours_unique (p :: l) p nx pv _ _ Hd Hn). right. by exists [], l. Qed.

Lemma last_default_in (l : list Z) q : q ≠ 0 → q = default 0 (last l) → q ∈ l.
Proof. intros H0 ->. destruct (last l) as [y|] eqn:E; simpl in *; [|done]. apply last_Some in E as [k ->]. set_solver. Qed.
Lemma head_default_in (l : list Z) q : q ≠ 0 → q = default 0 (head l) → q ∈ l.
Proof. intros H0 ->. destruct l; simpl in *; [done|]. left. Qed.
Lemma neighbours_remove l1 l2 p q nx pv : NoDup (l1 ++ p :: l2) → q ≠ p → q ≠ 0 → neighbours (l1 ++ l2) q nx pv →
  (q = default 0 (last l1) ∧ nx = default 0 (head l2) ∧ neighbours (l1 ++ p :: l2) q p pv) ∨
  (q = default 0 (head l2) ∧ pv = default 0 (last l1) ∧ neighbours (l1 ++ p :: l2) q nx p) ∨
  (q ≠ default 0 (last l1) ∧ q ≠ default 0 (head l2) ∧ neighbours (l1 ++ p :: l2) q nx pv).
Proof.
  intros Hd Hqp H0 Hn. pose proof Hd as Hd'. apply NoDup_app in Hd' as (Hd1 & Hdis & Hd2). apply NoDup_cons in Hd2 as [Hp2 Hd2].
  assert (Hd12 : NoDup (l1 ++ l2)) by (apply NoDup_app; split_and!; set_solver).
  destruct (decide (q ∈ l1)) as [(a & b & ->)%list_elem_of_split|Hn1]; [|destruct (decide (q ∈ l2)) as [(a & b & ->)%list_elem_of_split|Hn2]].
  - destruct (neighbours_unique _ q nx pv (default 0 (head (b ++ l2))) (default 0 (last a)) Hd12 Hn) as [-> ->]; [right; exists a, (b ++ l2); by rewrite <-app_assoc|].
    destruct b as [|y b].
    + left. rewrite last_snoc. split; [done|]. split; [done|]. right. exists a, (p :: l2). by rewrite <-app_assoc.
    + right; right. apply NoDup_app in Hd1 as (_ & _ & Hd1). apply NoDup_cons in Hd1 as [Hq _]. split_and!.
      * intros E. rewrite last_app_cons in E. cbn [app] in E. destruct Hq. rewrite last_cons_cons in E. by apply last_default_in.
      * intros E%head_default_in; [|done]. apply (Hdis q); set_solver.
      * right. exists a, ((y :: b) ++ p :: l2). by rewrite <-app_assoc.
  - destruct (neighbours_unique _ q nx pv (default 0 (head b)) (default 0 (last (l1 ++ a))) Hd12 Hn) as [-> ->]; [right; exists (l1 ++ a), b; by rewrite <-app_assoc|].
    destruct a as [|y a].
    + right; left. rewrite app_nil_r. split; [done|]. split; [done|]. right. exists (l1 ++ [p]), b. rewrite <-app_assoc, last_snoc. done.
    + right; right. cbn [app] in Hd2. apply NoDup_cons in Hd2 as [Hy _]. split_and!.
      * intros E%last_default_in; [|done]. done.
      * cbn. intros ->. destruct Hy. set_solver.
      * right. exists (l1 ++ p :: y :: a), b. rewrite <-app_assoc. split; [done|]. split; [|done]. by rewrite !last_app_cons, last_cons_cons.
  - right; right. split_and!.
    + by intros ?%last_default_in.
    + by intros ?%head_default_in.
    + left. destruct Hn as [(_ & -> & ->)|(k1 & k2 & E & _)]; [split; [set_solver|done]|]. assert (q ∈ l1 ++ l2) by (rewrite E; set_solver). set_solver.
Qed.
Lemma slab_pages_apart p q : p mod 4096 = 0 → q mod 4096 = 0 → p ≠ q → p + 4096 ≤ q ∨ q + 4096 ≤ p.
Proof. intros Hp Hq Hne. apply Z.mod_divide in Hp as [a ->]; [|done]. apply Z.mod_divide in Hq as [b ->]; [|done]. nia. Qed.

Section slabs.
Context {ext : Type} (heap : Z) (Hheap : is_u64 heap).
#[local] Abbreviation state := (page_system (heap_world ext)).

Definition header_of (i : slab_info) (nx pv : Z) : kernel_slab :=
  mk_slab KERNEL_SLAB_MAGIC heap nx pv i.(i_words) (info_head i) i.(i_class) (i_count i) (Z.of_nat (length i.(i_free))) SIZEOF_SLAB 0.
Lemma header_of_typed i nx pv : info_ok i → is_u64 nx → is_u64 pv → slab_typed (header_of i nx pv).
Proof.
  intros Hi Hn Hp. destruct (info_count i Hi), (info_free i Hi) as [_ ?]. pose proof (io_class _ Hi).
  split; cbn [header_of s_magic s_heap s_next s_previous s_allocated s_free_head s_class_index s_slot_count s_free_count s_slot_offset s_reserved]; try done; try lia.
  - split; apply Hi.
  - by apply info_head_bounds.
Qed.

Record slabs_ok (m : mem) (partial : list Z) (slabs : gmap Z slab_info) (lists : list (list Z)) : Prop := {
  so_bytes : mem_ok m;
  so_page p i : slabs !! p = Some i → p mod 4096 = 0 ∧ 0 < p ∧ p + 4096 ≤ UINT64_MAX ∧ mapped m p 4096;
  so_info p i : slabs !! p = Some i → info_ok i;
  so_header p i l nx pv : slabs !! p = Some i → lists !! Z.to_nat i.(i_class) = Some l → neighbours l p nx pv → header m p (header_of i nx pv);
  so_chain p i : slabs !! p = Some i → chained m (slot_at p i.(i_class)) i.(i_free);
  so_lists : length lists = 8%nat;
  so_heads : partial = (λ l, default 0 (head l)) <$> lists;
  so_nodup c l : lists !! c = Some l → NoDup l;
  so_listed c l p : lists !! c = Some l → p ∈ l → ∃ i, slabs !! p = Some i ∧ i.(i_class) = Z.of_nat c;
}.

Section facts.
Context (m : mem) (partial : list Z) (slabs : gmap Z slab_info) (lists : list (list Z)) (Hok : slabs_ok m partial slabs lists).
Lemma slab_list p i : slabs !! p = Some i → ∃ l, lists !! Z.to_nat i.(i_class) = Some l ∧ NoDup l.
Proof.
  intros Hp. pose proof (io_class _ (so_info _ _ _ _ Hok p i Hp)). destruct (lookup_lt_is_Some_2 lists (Z.to_nat i.(i_class))) as [l Hl]; [rewrite (so_lists _ _ _ _ Hok); lia|].
  exists l. split; [done|by apply (so_nodup _ _ _ _ Hok _ _ Hl)].
Qed.
Lemma slab_links p i : slabs !! p = Some i → ∃ l nx pv, lists !! Z.to_nat i.(i_class) = Some l ∧ NoDup l ∧ neighbours l p nx pv ∧ header m p (header_of i nx pv).
Proof.
  intros Hp. destruct (slab_list p i Hp) as (l & Hl & Hd). destruct (neighbours_exist l p) as (nx & pv & Hn). exists l, nx, pv. split_and!; try done.
  by apply (so_header _ _ _ _ Hok p i l).
Qed.
Lemma slab_mapped p i : slabs !! p = Some i → mapped m p 80.
Proof. intros Hp x Hx. destruct (so_page _ _ _ _ Hok p i Hp) as (_ & _ & _ & Hm). apply Hm. lia. Qed.
Lemma slab_load p i l nx pv : slabs !! p = Some i → lists !! Z.to_nat i.(i_class) = Some l → neighbours l p nx pv → load_slab m p = Done (header_of i nx pv).
Proof. intros Hp Hl Hn. apply load_slab_run; [by eapply slab_mapped|]. by apply (so_header _ _ _ _ Hok p i l). Qed.
Lemma slab_u64 p i : slabs !! p = Some i → is_u64 p ∧ p ≠ 0.
Proof. intros Hp. destruct (so_page _ _ _ _ Hok p i Hp) as (_ & ? & ? & _). split; [mlia|lia]. Qed.
(** A neighbour is a slab of the same class. *)
Lemma slab_neighbour p i l nx pv q : slabs !! p = Some i → lists !! Z.to_nat i.(i_class) = Some l → neighbours l p nx pv → q = nx ∨ q = pv → q ≠ 0 →
  ∃ j, slabs !! q = Some j ∧ j.(i_class) = i.(i_class) ∧ q ∈ l.
Proof.
  intros Hp Hl Hn Hq Hne. pose proof (neighbours_in _ _ _ _ _ Hn Hq Hne) as Hin. destruct (so_listed _ _ _ _ Hok _ _ _ Hl Hin) as (j & Hj & Ej).
  exists j. split_and!; try done. pose proof (io_class _ (so_info _ _ _ _ Hok p i Hp)). lia.
Qed.
Lemma neighbour_u64 p i l nx pv : slabs !! p = Some i → lists !! Z.to_nat i.(i_class) = Some l → neighbours l p nx pv → is_u64 nx ∧ is_u64 pv.
Proof.
  intros Hp Hl Hn. assert (H0 : is_u64 0) by mlia. split.
  - destruct (decide (nx = 0)) as [->|Hne]; [done|]. destruct (slab_neighbour p i l nx pv nx Hp Hl Hn ltac:(by left) Hne) as (j & Hj & _). by apply (slab_u64 nx j).
  - destruct (decide (pv = 0)) as [->|Hne]; [done|]. destruct (slab_neighbour p i l nx pv pv Hp Hl Hn ltac:(by right) Hne) as (j & Hj & _). by apply (slab_u64 pv j).
Qed.
Lemma slab_head c l : lists !! c = Some l → partial !! c = Some (default 0 (head l)).
Proof. intros Hl. rewrite (so_heads _ _ _ _ Hok), list_lookup_fmap, Hl. done. Qed.
End facts.

(** ** One slab changed *)
(** Memory that differs only inside the page of [p]. *)
Definition same_outside (m m' : mem) (p : Z) : Prop := ∀ x, ¬ p ≤ x < p + 4096 → m' !! x = m !! x.
Definition same_domain (m m' : mem) : Prop := ∀ x, is_Some (m' !! x) ↔ is_Some (m !! x).
Lemma mapped_same_domain m m' a n : same_domain m m' → mapped m a n → mapped m' a n.
Proof. intros Hd Hm x Hx. apply Hd. by apply Hm. Qed.

Lemma slabs_change m partial slabs lists m' p i i' : slabs_ok m partial slabs lists → slabs !! p = Some i → info_ok i' → i'.(i_class) = i.(i_class) →
  mem_ok m' → same_domain m m' → same_outside m m' p →
  (∀ l nx pv, lists !! Z.to_nat i.(i_class) = Some l → neighbours l p nx pv → header m' p (header_of i' nx pv)) →
  chained m' (slot_at p i'.(i_class)) i'.(i_free) → slabs_ok m' partial (<[p := i']> slabs) lists.
Proof.
  intros Hok Hp Hi' Hc Hm Hd Ho Hh Hch. destruct (so_page _ _ _ _ Hok p i Hp) as (Hap & _).
  assert (Hother : ∀ q j x, slabs !! q = Some j → q ≠ p → q ≤ x < q + 4096 → m' !! x = m !! x).
  { intros q j x Hq Hne Hx. apply Ho. destruct (so_page _ _ _ _ Hok q j Hq) as (Haq & _). destruct (slab_pages_apart p q Hap Haq (not_eq_sym Hne)); lia. }
  split; try apply Hok; try done.
  - intros q j [[<- <-]|[Hne Hq]]%lookup_insert_Some; [destruct (so_page _ _ _ _ Hok p i Hp) as (? & ? & ? & ?)|destruct (so_page _ _ _ _ Hok q j Hq) as (? & ? & ? & ?)];
      split_and!; try done; by eapply mapped_same_domain.
  - intros q j [[<- <-]|[Hne Hq]]%lookup_insert_Some; [done|]. by apply (so_info _ _ _ _ Hok q j).
  - intros q j l nx pv [[<- <-]|[Hne Hq]]%lookup_insert_Some Hl Hn; [rewrite Hc in Hl; by apply (Hh l)|].
    apply (header_ext m); [|by apply (so_header _ _ _ _ Hok q j l)]. intros x Hx. apply (Hother q j); [done|congruence|lia].
  - intros q j [[<- <-]|[Hne Hq]]%lookup_insert_Some; [done|]. apply (slots_chained_ext m); [|by apply (so_chain _ _ _ _ Hok q j)].
    intros k x Hk Hx. apply (Hother q j); [done|congruence|]. pose proof (so_info _ _ _ _ Hok q j Hq) as Hj. destruct (io_free _ Hj) as [_ Hf]. apply Hf in Hk as [Hk _].
    pose proof (slot_inside q j.(i_class) k (io_class _ Hj) Hk). destruct (info_count j Hj). lia.
  - intros c l q Hl Hin. destruct (so_listed _ _ _ _ Hok c l q Hl Hin) as (j & Hj & Ej). destruct (decide (q = p)) as [->|Hne].
    + exists i'. rewrite lookup_insert_eq. split; [done|]. rewrite Hp in Hj. injection Hj as <-. congruence.
    + exists j. by rewrite lookup_insert_ne.
Qed.

(** ** Headers rewritten *)
Lemma slabs_relink m partial slabs lists m' partial' lists' : slabs_ok m partial slabs lists → mem_ok m' → same_domain m m' →
  (∀ p i x, slabs !! p = Some i → p + 80 ≤ x < p + 4096 → m' !! x = m !! x) →
  (∀ p i l nx pv, slabs !! p = Some i → lists' !! Z.to_nat i.(i_class) = Some l → neighbours l p nx pv → header m' p (header_of i nx pv)) →
  length lists' = 8%nat → partial' = (λ l, default 0 (head l)) <$> lists' → (∀ c l, lists' !! c = Some l → NoDup l) →
  (∀ c l p, lists' !! c = Some l → p ∈ l → ∃ i, slabs !! p = Some i ∧ i.(i_class) = Z.of_nat c) → slabs_ok m' partial' slabs lists'.
Proof.
  intros Hok Hm Hd Hs Hh Hl Hp Hnd Hin. split; try done.
  - intros p i Hpi. destruct (so_page _ _ _ _ Hok p i Hpi) as (? & ? & ? & ?). split_and!; try done. by eapply mapped_same_domain.
  - apply Hok.
  - intros p i Hpi. pose proof (so_info _ _ _ _ Hok p i Hpi) as Hi. apply (slots_chained_ext m); [|by apply (so_chain _ _ _ _ Hok)].
    intros k x Hk Hx. apply (Hs p i); [done|]. destruct (io_free _ Hi) as [_ Hf]. apply Hf in Hk as [Hk _].
    pose proof (slot_inside p i.(i_class) k (io_class _ Hi) Hk). destruct (info_count i Hi). lia.
Qed.
(** The headers alone, with the links of each slab as a function: the state
    between two writes of a list operation. *)
Definition headers_ok (m : mem) (slabs : gmap Z slab_info) (L : Z → Z * Z) : Prop :=
  mem_ok m ∧ ∀ p i, slabs !! p = Some i →
    p mod 4096 = 0 ∧ is_u64 p ∧ mapped m p 80 ∧ info_ok i ∧ is_u64 (L p).1 ∧ is_u64 (L p).2 ∧ header m p (header_of i (L p).1 (L p).2).
(** Only headers of slabs were written. *)
Definition headers_only (slabs : gmap Z slab_info) (m m' : mem) : Prop :=
  same_domain m m' ∧ ∀ x, (∀ q j, slabs !! q = Some j → ¬ q ≤ x < q + 80) → m' !! x = m !! x.
Definition relink (L : Z → Z * Z) (p nx pv : Z) (q : Z) : Z * Z := if decide (q = p) then (nx, pv) else L q.

Lemma headers_only_refl slabs m : headers_only slabs m m.
Proof. by split. Qed.
Lemma headers_only_trans slabs m1 m2 m3 : headers_only slabs m1 m2 → headers_only slabs m2 m3 → headers_only slabs m1 m3.
Proof. intros [H1 H2] [H3 H4]. split; [intros x; by rewrite (H3 x), (H1 x)|]. intros x Hx. by rewrite H4, H2. Qed.

Lemma header_write m slabs L p i nx pv : headers_ok m slabs L → slabs !! p = Some i → is_u64 nx → is_u64 pv →
  ∃ m', store_slab m p (header_of i nx pv) = Done m' ∧ headers_ok m' slabs (relink L p nx pv) ∧ headers_only slabs m m'.
Proof.
  intros [Hb Hs] Hp Hnx Hpv. destruct (Hs p i Hp) as (Ha & Hu & Hm & Hi & _). pose proof (header_of_typed i nx pv Hi Hnx Hpv) as Ht. pose proof (length_slab_bytes _ Ht) as Hl.
  exists (put m p (slab_bytes (header_of i nx pv))). assert (Hd : same_domain m (put m p (slab_bytes (header_of i nx pv)))) by (intros x; apply put_mapped; by rewrite Hl).
  split; [by apply store_slab_run|]. split; [split; [apply put_bytes_ok; [done|apply slab_bytes_ok]|]|split; [done|]].
  - intros q j Hq. destruct (Hs q j Hq) as (Haq & Huq & Hmq & Hj & Hl1 & Hl2 & Hh). unfold relink. case_decide as E; [subst q; rewrite Hp in Hq; injection Hq as <-|]; split_and!; try done;
      [by eapply mapped_same_domain|by apply header_put|by eapply mapped_same_domain|].
    apply (header_ext m); [|done]. intros x Hx. apply put_outside. rewrite Hl. destruct (slab_pages_apart p q Ha Haq (not_eq_sym E)); lia.
  - intros x Hx. apply put_outside. rewrite Hl. specialize (Hx p i Hp). lia.
Qed.
Lemma header_read m slabs L p i : headers_ok m slabs L → slabs !! p = Some i → load_slab m p = Done (header_of i (L p).1 (L p).2).
Proof. intros [_ Hs] Hp. destruct (Hs p i Hp) as (_ & _ & Hm & _ & _ & _ & Hh). by apply load_slab_run. Qed.

(** The links that the lists prescribe. *)
Definition links_of (slabs : gmap Z slab_info) (lists : list (list Z)) (q : Z) : Z * Z :=
  match slabs !! q with Some i => links_from 0 (default [] (lists !! Z.to_nat i.(i_class))) q | None => (0, 0) end.
Lemma slabs_headers m partial slabs lists : slabs_ok m partial slabs lists → headers_ok m slabs (links_of slabs lists).
Proof.
  intros Hok. split; [apply Hok|]. intros p i Hp. destruct (so_page _ _ _ _ Hok p i Hp) as (Ha & _). destruct (slab_list _ _ _ _ Hok p i Hp) as (l & Hl & _).
  pose proof (links_neighbours l p) as Hn. assert (El : links_of slabs lists p = links_from 0 l p) by (unfold links_of; by rewrite Hp, Hl). rewrite El.
  destruct (neighbour_u64 _ _ _ _ Hok p i l _ _ Hp Hl Hn). split_and!; try done; [by apply (slab_u64 _ _ _ _ Hok p i)|by eapply (slab_mapped _ _ _ _ Hok)|by apply (so_info _ _ _ _ Hok p)|].
  by apply (so_header _ _ _ _ Hok p i l).
Qed.
Lemma slabs_relinked m partial slabs lists m' partial' lists' L : slabs_ok m partial slabs lists → headers_ok m' slabs L → headers_only slabs m m' →
  length lists' = 8%nat → partial' = (λ l, default 0 (head l)) <$> lists' → (∀ c l, lists' !! c = Some l → NoDup l) →
  (∀ c l p, lists' !! c = Some l → p ∈ l → ∃ i, slabs !! p = Some i ∧ i.(i_class) = Z.of_nat c) →
  (∀ p i l nx pv, slabs !! p = Some i → lists' !! Z.to_nat i.(i_class) = Some l → neighbours l p nx pv → L p = (nx, pv)) →
  slabs_ok m' partial' slabs lists'.
Proof.
  intros Hok [Hb Hh] [Hd Ho] Hl Hp Hnd Hin HL. apply (slabs_relink m partial slabs lists); try done.
  - intros p i x Hpi Hx. apply Ho. intros q j Hq Hc. destruct (so_page _ _ _ _ Hok q j Hq) as (Haq & _), (so_page _ _ _ _ Hok p i Hpi) as (Hap & _).
    destruct (decide (p = q)) as [->|Hne]; [lia|]. destruct (slab_pages_apart p q Hap Haq Hne); lia.
  - intros p i l nx pv Hpi Hli Hn. destruct (Hh p i Hpi) as (_ & _ & _ & _ & _ & _ & Hhd). by rewrite (HL p i l nx pv Hpi Hli Hn) in Hhd.
Qed.

End slabs.

(** ** The list and slot operations of the heap

    What [partial_insert], [partial_remove], [slab_allocate_slot], the slot part of
    [kernel_heap_release] and [slab_metadata_valid] do to a heap that satisfies
    [slabs_ok]. *)
Import Heap StringOps PhysicalPage PageReclaim SlabHeap.

Section ops.
Context {ext : Type} (heap : Z) (Hheap : is_u64 heap).
#[local] Abbreviation state := (page_system (heap_world ext)).
#[local] Abbreviation ok := (slabs_ok heap).
#[local] Abbreviation head_of := (header_of heap).

(** The state with another heap struct and memory. *)
Definition st (s : state) (h : kernel_heap) (m : mem) : state := set_world s (mk_world h m s.(sy_world).(w_ext)) s.(sy_allocator).
Lemma st_id s : s = st s s.(sy_world).(w_heap) s.(sy_world).(w_mem).
Proof. by destruct s as [a hk r [h m e]]. Qed.
Lemma get_heap_st s h m : get_heap (st s h m) = Done (h, st s h m).
Proof. done. Qed.
Lemma put_heap_st s h m h' : put_heap h' (st s h m) = Done (tt, st s h' m).
Proof. done. Qed.
Lemma read_slab_st s h m p v : load_slab m p = Done v → read_slab p (st s h m) = Done (v, st s h m).
Proof. intros E. unfold read_slab, mbind, ST_bind, get_mem. simpl. by rewrite E. Qed.
Lemma write_slab_st s h m p v m' : store_slab m p v = Done m' → write_slab p v (st s h m) = Done (tt, st s h m').
Proof. intros E. unfold write_slab, mbind, ST_bind, get_mem. simpl. by rewrite E. Qed.
Lemma count_st s h m f : count f (st s h m) = Done (tt, st s (set_statistics h (f h.(statistics))) m).
Proof. done. Qed.

(** One header read or written, on the state. *)
Lemma read_header s h m slabs L p i : headers_ok heap m slabs L → slabs !! p = Some i → read_slab p (st s h m) = Done (head_of i (L p).1 (L p).2, st s h m).
Proof. intros Hh Hp. apply read_slab_st. by apply header_read with slabs. Qed.
Lemma write_header s h m slabs L p i nx pv : headers_ok heap m slabs L → slabs !! p = Some i → is_u64 nx → is_u64 pv →
  ∃ m', write_slab p (head_of i nx pv) (st s h m) = Done (tt, st s h m') ∧ headers_ok heap m' slabs (relink L p nx pv) ∧ headers_only slabs m m'.
Proof.
  intros Hh Hp Hnx Hpv. destruct (header_write heap Hheap m slabs L p i nx pv Hh Hp Hnx Hpv) as (m' & E & H1 & H2). exists m'. split; [by apply write_slab_st|done].
Qed.
Lemma relink_eq L p nx pv : relink L p nx pv p = (nx, pv).
Proof. unfold relink. by rewrite decide_True. Qed.
Lemma relink_ne L p nx pv q : q ≠ p → relink L p nx pv q = L q.
Proof. intros. unfold relink. by rewrite decide_False. Qed.

Section lists.
Context (s : state) (h : kernel_heap) (m : mem) (slabs : gmap Z slab_info) (lists : list (list Z)).
Hypothesis Hok : ok m h.(partial_slabs) slabs lists.
#[local] Abbreviation L0 := (links_of slabs lists).
Lemma links_unique p i l nx pv : slabs !! p = Some i → lists !! Z.to_nat i.(i_class) = Some l → neighbours l p nx pv → L0 p = (nx, pv).
Proof.
  intros Hp Hl Hn. unfold links_of. rewrite Hp, Hl. change (default [] (Some l)) with l. pose proof (so_nodup _ _ _ _ _ Hok _ _ Hl) as Hd.
  destruct (neighbours_unique l p _ _ _ _ Hd (links_neighbours l p) Hn) as [E1 E2]. rewrite (surjective_pairing (links_from 0 l p)). congruence.
Qed.
Lemma listed_class p i l q : slabs !! p = Some i → lists !! Z.to_nat i.(i_class) = Some l → q ∈ l → ∃ j, slabs !! q = Some j ∧ i_class j = i_class i.
Proof.
  intros Hp Hl Hq. destruct (so_listed _ _ _ _ _ Hok _ _ _ Hl Hq) as (j & Hj & Ej). exists j. split; [done|].
  pose proof (io_class _ (so_info _ _ _ _ _ Hok p i Hp)). lia.
Qed.
(** The other lists stay. *)
Lemma lists_insert i l l' c k : lists !! Z.to_nat i.(i_class) = Some l → <[Z.to_nat i.(i_class) := l']> lists !! c = Some k →
  (c = Z.to_nat i.(i_class) ∧ k = l') ∨ (c ≠ Z.to_nat i.(i_class) ∧ lists !! c = Some k).
Proof. intros Hl [(<- & -> & _)|[Hne Hk]]%list_lookup_insert_Some; [by left|right; by split]. Qed.
Lemma heads_insert i l l' x : lists !! Z.to_nat i.(i_class) = Some l → x = default 0 (head l') →
  <[Z.to_nat i.(i_class) := x]> h.(partial_slabs) = (λ l, default 0 (head l)) <$> <[Z.to_nat i.(i_class) := l']> lists.
Proof. intros Hl ->. rewrite (so_heads _ _ _ _ _ Hok). by rewrite list_fmap_insert. Qed.

Lemma partial_insert_run p i l : slabs !! p = Some i → lists !! Z.to_nat i.(i_class) = Some l → p ∉ l →
  ∃ m', partial_insert p (st s h m) = Done (tt, st s (set_partial h (<[Z.to_nat i.(i_class) := p]> h.(partial_slabs))) m') ∧
    ok m' (<[Z.to_nat i.(i_class) := p]> h.(partial_slabs)) slabs (<[Z.to_nat i.(i_class) := p :: l]> lists) ∧ headers_only slabs m m'.
Proof.
  intros Hp Hl Hn. set (c := Z.to_nat i.(i_class)) in *. pose proof (so_nodup _ _ _ _ _ Hok _ _ Hl) as Hd. set (hd := default 0 (head l)).
  pose proof (slabs_headers _ _ _ _ _ Hok) as H0. assert (Hu0 : is_u64 0) by mlia. destruct (slab_u64 _ _ _ _ _ Hok p i Hp) as [Hup Hp0].
  assert (Hdp : NoDup (p :: l)) by (by constructor). assert (Hlt : (c < length (partial_slabs h))%nat) by (apply lookup_lt_is_Some; exists hd; by apply (slab_head _ _ _ _ _ Hok)).
  assert (Hhd : hd ≠ 0 → hd ≠ p ∧ ∃ j, slabs !! hd = Some j ∧ i_class j = i_class i).
  { intros Hne. assert (Hin : hd ∈ l) by (by apply head_default_in). split; [by intros ->|by apply (listed_class p i l)]. }
  assert (Hhu : is_u64 hd). { destruct (decide (hd = 0)) as [->|Hne]; [done|]. destruct (Hhd Hne) as (_ & j & Hj & _). by apply (slab_u64 _ _ _ _ _ Hok hd j). }
  unfold partial_insert. step (read_header s h m slabs L0 p i H0 Hp). rewrite (links_unique p i l 0 0 Hp Hl ltac:(by left)). cbn [fst snd]. step (get_heap_st s h m).
  assert (Eh : aread h.(partial_slabs) (Z.to_nat (s_class_index (head_of i 0 0))) = Done hd) by (apply aread_ok; by apply (slab_head _ _ _ _ _ Hok)). step Eh.
  destruct (write_header s h m slabs L0 p i hd 0 H0 Hp Hhu Hu0) as (m1 & E1 & H1 & Ho1). change (with_links (head_of i 0 0) hd 0) with (head_of i hd 0). step E1.
  assert (Hsecond : ∃ m2 L2, (if decide (hd ≠ 0) then first ← read_slab hd; write_slab hd (with_links first first.(s_next) p) else mret tt) (st s h m1) = Done (tt, st s h m2) ∧
    headers_ok heap m2 slabs L2 ∧ headers_only slabs m m2 ∧ L2 p = (hd, 0) ∧ (hd ≠ 0 → L2 hd = ((L0 hd).1, p)) ∧ ∀ q, q ≠ p → q ≠ hd → L2 q = L0 q).
  { case_decide as Hne.
    - destruct (Hhd Hne) as (Hhp & j & Hj & _). step (read_header s h m1 slabs _ hd j H1 Hj). rewrite (relink_ne L0 p hd 0 hd Hhp).
      change (with_links (head_of j (L0 hd).1 (L0 hd).2) (s_next (head_of j (L0 hd).1 (L0 hd).2)) p) with (head_of j (L0 hd).1 p).
      destruct H0 as [_ H0]. destruct (H0 hd j Hj) as (_ & _ & _ & _ & Hul & _).
      destruct (write_header s h m1 slabs _ hd j (L0 hd).1 p H1 Hj Hul Hup) as (m2 & E2 & H2 & Ho2). exists m2. eexists. split; [exact E2|]. split; [exact H2|]. split; [by eapply headers_only_trans|].
      split; [by rewrite relink_ne, relink_eq|]. split; [intros _; by rewrite relink_eq|]. intros q Hqp Hqh. by rewrite !relink_ne.
    - exists m1. eexists. split; [done|]. split; [exact H1|]. split; [done|]. split; [by rewrite relink_eq|]. split; [done|]. intros q Hqp _. by rewrite relink_ne. }
  destruct Hsecond as (m2 & L2 & E2 & H2 & Ho2 & Lp & Lh & Lo). step E2. assert (Ew : awrite h.(partial_slabs) (Z.to_nat (s_class_index (head_of i 0 0))) p = Done (<[c := p]> h.(partial_slabs))) by (by apply awrite_ok).
  step Ew. exists m2. split; [done|]. split; [|done]. apply (slabs_relinked heap m (partial_slabs h) slabs lists m2 _ _ L2); try done.
  - rewrite length_insert. apply Hok.
  - by apply (heads_insert i l).
  - intros k lk Hk. destruct (lists_insert i l _ k lk Hl Hk) as [[_ ->]|[_ Hk']]; [done|by apply (so_nodup _ _ _ _ _ Hok k)].
  - intros k lk q Hk Hq. destruct (lists_insert i l _ k lk Hl Hk) as [[-> ->]|[_ Hk']]; [|by apply (so_listed _ _ _ _ _ Hok k lk)].
    apply elem_of_cons in Hq as [->|Hq]; [|by apply (so_listed _ _ _ _ _ Hok c l)]. exists i. split; [done|]. pose proof (io_class _ (so_info _ _ _ _ _ Hok p i Hp)). unfold c. lia.
  - intros q j lq nx pv Hq Hlq Hnq. destruct (slab_u64 _ _ _ _ _ Hok q j Hq) as [_ Hq0]. destruct (lists_insert i l _ _ _ Hl Hlq) as [[Ec ->]|[Ec Hlq']].
    + destruct (decide (q = p)) as [->|Hqp]; [destruct (neighbours_first p l nx pv Hdp Hnq) as [-> ->]; done|].
      assert (Hlj : lists !! Z.to_nat j.(i_class) = Some l) by (by rewrite Ec). destruct (decide (q = hd)) as [->|Hqh].
      * destruct l as [|y l2]; [done|]. cbn in hd. subst hd. destruct (neighbours_second p y l2 nx pv (not_eq_sym Hqp) Hdp Hnq) as [-> Hn2].
        rewrite (Lh Hq0). by rewrite (links_unique y j (y :: l2) nx 0 Hq Hlj Hn2).
      * rewrite Lo by done. apply (links_unique q j l nx pv Hq Hlj). by apply neighbours_cons in Hnq.
    + assert (Hqp : q ≠ p) by (intros ->; congruence). rewrite Lo; [by apply (links_unique q j lq)|done|].
      intros ->. destruct (Hhd Hq0) as (_ & j' & Hj' & Ej'). rewrite Hq in Hj'. injection Hj' as <-. by rewrite Ej' in Ec.
Qed.

(** Out of a list: the neighbours point to each other. *)
Lemma set_partial_same c x : h.(partial_slabs) !! c = Some x → set_partial h (<[c := x]> h.(partial_slabs)) = h.
Proof. intros Hx. rewrite list_insert_id by done. by destruct h. Qed.
(** The slabs before and after a listed one point to it. *)
Lemma listed_before p i l1 l2 : slabs !! p = Some i → lists !! Z.to_nat i.(i_class) = Some (l1 ++ p :: l2) → let q := default 0 (last l1) in
  if decide (q = 0) then l1 = [] else ∃ j pv, slabs !! q = Some j ∧ j.(i_class) = i.(i_class) ∧ read_slab q (st s h m) = Done (head_of j p pv, st s h m).
Proof.
  intros Hp Hl q. pose proof (slabs_headers _ _ _ _ _ Hok) as H0. destruct (last l1) as [y|] eqn:E; [|by apply last_None in E]. change q with y. apply last_Some in E as [k ->].
  destruct (listed_class p i _ y Hp Hl) as (j & Hj & Ej); [set_solver|]. destruct (slab_u64 _ _ _ _ _ Hok y j Hj) as [_ Hy]. rewrite decide_False by done.
  assert (Hn : neighbours ((k ++ [y]) ++ p :: l2) y p (default 0 (last k))) by (right; exists k, (p :: l2); by rewrite <-app_assoc).
  exists j, (default 0 (last k)). split; [done|]. split; [done|]. rewrite (read_header s h m slabs L0 y j H0 Hj). by rewrite (links_unique y j _ _ _ Hj ltac:(by rewrite Ej) Hn).
Qed.
Lemma listed_after p i l1 l2 : slabs !! p = Some i → lists !! Z.to_nat i.(i_class) = Some (l1 ++ p :: l2) → let q := default 0 (head l2) in
  q ≠ 0 → ∃ j nx, slabs !! q = Some j ∧ j.(i_class) = i.(i_class) ∧ read_slab q (st s h m) = Done (head_of j nx p, st s h m).
Proof.
  intros Hp Hl q Hq. pose proof (slabs_headers _ _ _ _ _ Hok) as H0. destruct l2 as [|y l2]; [done|]. change q with y. destruct (listed_class p i _ y Hp Hl) as (j & Hj & Ej); [set_solver|].
  assert (Hn : neighbours (l1 ++ p :: y :: l2) y (default 0 (head l2)) p) by (right; exists (l1 ++ [p]), l2; rewrite <-app_assoc, last_snoc; done).
  exists j, (default 0 (head l2)). split; [done|]. split; [done|]. rewrite (read_header s h m slabs L0 y j H0 Hj). by rewrite (links_unique y j _ _ _ Hj ltac:(by rewrite Ej) Hn).
Qed.
Lemma partial_remove_checks p i l1 l2 : slabs !! p = Some i → lists !! Z.to_nat i.(i_class) = Some (l1 ++ p :: l2) →
  let slab := head_of i (default 0 (head l2)) (default 0 (last l1)) in
  broken_before p slab (default 0 (head (l1 ++ p :: l2))) (st s h m) = Done (false, st s h m) ∧ broken_after p slab (st s h m) = Done (false, st s h m).
Proof.
  intros Hp Hl slab. pose proof (listed_before p i l1 l2 Hp Hl) as Hb. pose proof (listed_after p i l1 l2 Hp Hl) as Ha. cbv zeta in Hb, Ha. split.
  - unfold broken_before. cbn [slab header_of s_previous]. destruct (decide (default 0 (last l1) = 0)) as [E|E].
    + rewrite decide_False by (by intros Hx; apply Hx). subst l1. cbn [app head default]. by rewrite bool_decide_false by (intros Hx; by apply Hx).
    + rewrite decide_True by done. destruct Hb as (j & pv & _ & _ & Er). step Er. cbn [header_of s_next]. by rewrite bool_decide_false by (intros Hx; by apply Hx).
  - unfold broken_after. cbn [slab header_of s_next]. clear Hb. case_decide as Hne; [|done]. destruct (Ha Hne) as (j & nx & _ & _ & Er). step Er.
    cbn [header_of s_previous]. by rewrite bool_decide_false by (intros Hx; by apply Hx).
Qed.
(** What [slab_metadata_valid] checks of the links. *)
Lemma links_valid_run p i l1 l2 : slabs !! p = Some i → lists !! Z.to_nat i.(i_class) = Some (l1 ++ p :: l2) → i.(i_free) ≠ [] →
  links_valid heap p (head_of i (default 0 (head l2)) (default 0 (last l1))) (st s h m) = Done (true, st s h m).
Proof.
  intros Hp Hl Hf. pose proof (listed_before p i l1 l2 Hp Hl) as Hb. pose proof (listed_after p i l1 l2 Hp Hl) as Ha. cbv zeta in Hb, Ha.
  unfold links_valid. cbn [header_of s_free_count s_previous s_next s_class_index]. rewrite decide_False by (destruct (i_free i); simpl; [done|lia]).
  assert (Eb : (if decide (default 0 (last l1) = 0) then (h ← get_heap; x ← lift (aread h.(partial_slabs) (Z.to_nat i.(i_class))); mret (bool_decide (x = p)))
     else (other ← read_slab (default 0 (last l1)); mret (same_list heap (head_of i (default 0 (head l2)) (default 0 (last l1))) other && bool_decide (other.(s_next) = p)))) (st s h m) = Done (true, st s h m)).
  { destruct (decide (default 0 (last l1) = 0)) as [E|E].
    - subst l1. step (get_heap_st s h m). assert (Eh : aread h.(partial_slabs) (Z.to_nat i.(i_class)) = Done p) by (apply aread_ok; by apply (slab_head _ _ _ _ _ Hok _ _ Hl)). step Eh. by rewrite bool_decide_true.
    - destruct Hb as (j & pv & _ & Ej & Er). step Er. unfold same_list. cbn [header_of s_magic s_heap s_class_index s_next]. by rewrite !bool_decide_true. }
  step Eb. clear Hb Eb. cbn [negb]. case_decide as Hne; [done|]. destruct (Ha Hne) as (j & nx & _ & Ej & Er). step Er.
  unfold same_list. cbn [header_of s_magic s_heap s_class_index s_previous]. by rewrite !bool_decide_true.
Qed.
Lemma partial_remove_run p i l1 l2 : slabs !! p = Some i → lists !! Z.to_nat i.(i_class) = Some (l1 ++ p :: l2) →
  let partial := <[Z.to_nat i.(i_class) := default 0 (head (l1 ++ l2))]> h.(partial_slabs) in
  ∃ m', partial_remove p (st s h m) = Done (tt, st s (set_partial h partial) m') ∧ ok m' partial slabs (<[Z.to_nat i.(i_class) := l1 ++ l2]> lists) ∧ headers_only slabs m m'.
Proof.
  intros Hp Hl partial. set (c := Z.to_nat i.(i_class)) in *. pose proof (so_nodup _ _ _ _ _ Hok _ _ Hl) as Hd. set (nx := default 0 (head l2)). set (pv := default 0 (last l1)).
  pose proof (slabs_headers _ _ _ _ _ Hok) as H0. assert (Hu0 : is_u64 0) by mlia.
  assert (Hn : neighbours (l1 ++ p :: l2) p nx pv) by (right; by exists l1, l2). destruct (neighbour_u64 _ _ _ _ _ Hok p i _ _ _ Hp Hl Hn) as [Hunx Hupv].
  pose proof (slab_head _ _ _ _ _ Hok c _ Hl) as Hhead. assert (Hlt : (c < length (partial_slabs h))%nat) by (by apply lookup_lt_is_Some; eexists).
  unfold partial_remove. step (read_header s h m slabs L0 p i H0 Hp). rewrite (links_unique p i _ _ _ Hp Hl Hn). cbn [fst snd]. step (get_heap_st s h m).
  assert (Eh : aread h.(partial_slabs) (Z.to_nat (s_class_index (head_of i nx pv))) = Done (default 0 (head (l1 ++ p :: l2)))) by (by apply aread_ok). step Eh.
  destruct (partial_remove_checks p i l1 l2 Hp Hl) as [Eb Ea]. fold nx pv in Eb, Ea. step Eb. step Ea. rewrite (ST_lift_bind _ _ _ tt) by (apply trap_if_ok; by intros [?|?]). cbn [header_of s_previous s_next s_class_index].
  assert (Hpc : ∀ q, q = pv ∨ q = nx → q ≠ 0 → q ≠ p ∧ ∃ j, slabs !! q = Some j ∧ i_class j = i_class i).
  { intros q Hq Hq0. assert (Hin : q ∈ l1 ++ p :: l2) by (apply (neighbours_in _ _ _ _ q Hn); [tauto|done]). split; [|by apply (listed_class p i _ q Hp Hl)].
    intros ->. apply NoDup_app in Hd as (_ & Hdis & Hd2). apply NoDup_cons in Hd2 as [Hp2 _].
    destruct Hq as [Hq|Hq]; [apply (Hdis p); [by apply last_default_in|left]|apply Hp2; by apply head_default_in]. }
  assert (Hpn : pv ≠ 0 → pv ≠ nx).
  { intros Hne E. apply NoDup_app in Hd as (_ & Hdis & _). apply (Hdis pv); [by apply last_default_in|]. right. rewrite E. apply head_default_in; [by rewrite <-E|done]. }
  assert (Hfirst : ∃ m1 L1, (if decide (pv ≠ 0) then other ← read_slab pv; write_slab pv (with_links other nx other.(s_previous))
      else l ← lift (awrite h.(partial_slabs) c nx); put_heap (set_partial h l)) (st s h m) = Done (tt, st s (set_partial h partial) m1) ∧
    headers_ok heap m1 slabs L1 ∧ headers_only slabs m m1 ∧ (pv ≠ 0 → L1 pv = (nx, (L0 pv).2)) ∧ ∀ q, q ≠ 0 → q ≠ pv → L1 q = L0 q).
  { case_decide as Hne.
    - destruct (Hpc pv ltac:(by left) Hne) as (_ & j & Hj & Ej). step (read_header s h m slabs L0 pv j H0 Hj). destruct H0 as [Hb H0]. destruct (H0 pv j Hj) as (_ & _ & _ & _ & _ & Hul & _).
      destruct (write_header s h m slabs L0 pv j nx (L0 pv).2 (conj Hb H0) Hj Hunx Hul) as (m1 & E1 & H1 & Ho1). exists m1. eexists.
      assert (Es : set_partial h partial = h). { apply set_partial_same. rewrite Hhead. f_equal. unfold pv in Hne. by destruct l1. }
      rewrite Es. split; [exact E1|]. split; [exact H1|]. split; [done|]. split; [intros _; by rewrite relink_eq|]. intros q _ Hq. by rewrite relink_ne.
    - exists m, L0. assert (El : l1 = []). { destruct l1 as [|y l1]; [done|]. exfalso. destruct (last (y :: l1)) as [z|] eqn:Ez; [|by apply last_None in Ez]. unfold pv in Hne.
        cbn [default] in Hne. assert (Hz : z ∈ y :: l1) by (apply last_Some in Ez as [k ->]; set_solver). destruct (listed_class p i _ z Hp Hl) as (j & Hj & _); [set_solver|].
        by destruct (slab_u64 _ _ _ _ _ Hok z j Hj). }
      step (awrite_ok h.(partial_slabs) c nx Hlt). unfold partial. rewrite El. split; [done|]. split; [done|]. split; [apply headers_only_refl|]. split; [done|]. done. }
  destruct Hfirst as (m1 & L1 & E1 & H1 & Ho1 & Lpv & Lo1). step E1. clear E1. set (h1 := set_partial h partial) in *.
  assert (Hsecond : ∃ m2 L2, (if decide (nx ≠ 0) then other ← read_slab nx; write_slab nx (with_links other other.(s_next) pv) else mret tt) (st s h1 m1) = Done (tt, st s h1 m2) ∧
    headers_ok heap m2 slabs L2 ∧ headers_only slabs m m2 ∧ (nx ≠ 0 → L2 nx = ((L0 nx).1, pv)) ∧ ∀ q, q ≠ nx → L2 q = L1 q).
  { case_decide as Hne.
    - destruct (Hpc nx ltac:(by right) Hne) as (_ & j & Hj & Ej). step (read_header s h1 m1 slabs L1 nx j H1 Hj). rewrite (Lo1 nx Hne) by (intros E; apply Hpn; [by rewrite <-E|done]).
      destruct H0 as [_ H0]. destruct (H0 nx j Hj) as (_ & _ & _ & _ & Hul & _).
      destruct (write_header s h1 m1 slabs L1 nx j (L0 nx).1 pv H1 Hj Hul Hupv) as (m2 & E2 & H2 & Ho2). exists m2. eexists.
      split; [exact E2|]. split; [exact H2|]. split; [by eapply headers_only_trans|]. split; [intros _; by rewrite relink_eq|]. intros q Hq. by rewrite relink_ne.
    - by exists m1, L1. }
  destruct Hsecond as (m2 & L2 & E2 & H2 & Ho2 & Lnx & Lo2). step E2.
  destruct (write_header s h1 m2 slabs L2 p i 0 0 H2 Hp Hu0 Hu0) as (m3 & E3 & H3 & Ho3). change (with_links (head_of i nx pv) 0 0) with (head_of i 0 0). rewrite E3.
  exists m3. split; [done|]. split; [|by eapply headers_only_trans].
  apply (slabs_relinked heap m (partial_slabs h) slabs lists m3 _ _ (relink L2 p 0 0)); try done; [by eapply headers_only_trans|..].
  - rewrite length_insert. apply Hok.
  - by apply (heads_insert i (l1 ++ p :: l2)).
  - intros k lk Hk. destruct (lists_insert i _ _ k lk Hl Hk) as [[_ ->]|[_ Hk']]; [|by apply (so_nodup _ _ _ _ _ Hok k)].
    apply NoDup_app in Hd as (? & ? & Hd2). apply NoDup_cons in Hd2 as [? ?]. apply NoDup_app. split_and!; set_solver.
  - intros k lk q Hk Hq. destruct (lists_insert i _ _ k lk Hl Hk) as [[-> ->]|[_ Hk']]; [|by apply (so_listed _ _ _ _ _ Hok k lk)]. apply (so_listed _ _ _ _ _ Hok c _ q Hl). set_solver.
  - intros q j lq nx' pv' Hq Hlq Hnq. destruct (slab_u64 _ _ _ _ _ Hok q j Hq) as [_ Hq0]. destruct (decide (q = p)) as [->|Hqp].
    { rewrite relink_eq. rewrite Hp in Hq. injection Hq as <-. destruct (lists_insert i _ _ _ _ Hl Hlq) as [[_ ->]|[? _]]; [|done].
      destruct Hnq as [(_ & -> & ->)|(k1 & k2 & E & _)]; [done|]. exfalso. assert (Hin : p ∈ l1 ++ l2) by (rewrite E; set_solver).
      apply NoDup_app in Hd as (_ & Hdis & Hd2). apply NoDup_cons in Hd2 as [? _]. apply elem_of_app in Hin as [?|?]; [by apply (Hdis p); [|left]|done]. }
    rewrite relink_ne by done. destruct (lists_insert i _ _ _ _ Hl Hlq) as [[Ec ->]|[Ec Hlq']].
    + assert (Hlj : lists !! Z.to_nat j.(i_class) = Some (l1 ++ p :: l2)) by (by rewrite Ec).
      destruct (neighbours_remove l1 l2 p q nx' pv' Hd Hqp Hq0 Hnq) as [(-> & -> & Hn')|[(-> & -> & Hn')|(Hn1 & Hn2 & Hn')]]; fold nx pv.
      * fold pv in Hq, Hq0, Hn'. rewrite Lo2 by (by apply Hpn). rewrite (Lpv Hq0). by rewrite (links_unique pv j _ _ _ Hq Hlj Hn').
      * fold nx in Hq, Hq0, Hn'. rewrite (Lnx Hq0). by rewrite (links_unique nx j _ _ _ Hq Hlj Hn').
      * rewrite Lo2, Lo1 by done. by apply (links_unique q j _ _ _ Hq Hlj).
    + assert (Hne : ∀ x, x = pv ∨ x = nx → q ≠ x). { intros x Hx ->. destruct (Hpc x Hx Hq0) as (_ & j' & Hj' & Ej'). rewrite Hq in Hj'. injection Hj' as <-. by rewrite Ej' in Ec. }
      rewrite Lo2, Lo1 by (try done; apply Hne; tauto). by apply (links_unique q j lq).
Qed.
End lists.
End ops.
