(* ===== verification/SlabSlotTheory.v ===== *)
(** * Slots taken and returned

    [slab_create], [slab_allocate_slot], [slab_metadata_valid] and the slot part of
    [kernel_heap_release] on a heap whose lists hold exactly the slabs with a
    free slot. *)
From S2P Require Import Prelude Bytes Heap StringOps StringCopyTheory PhysicalPage PageReclaim SlabHeap SlabBitsTheory SlabListTheory.
Import Heap StringOps PhysicalPage PageReclaim SlabHeap.
#[local] Open Scope Z_scope.

(** ** Information of a slab after a slot was taken or returned *)
Definition take_slot (i : slab_info) (words : list Z) : slab_info := mk_info i.(i_class) words (tail i.(i_free)).
Definition give_slot (i : slab_info) (words : list Z) (x : Z) : slab_info := mk_info i.(i_class) words (x :: i.(i_free)).
Definition fresh_info (c : Z) : slab_info := mk_info c (replicate 4 0) (seqZ 0 (slot_count_of c)).
Definition used (i : slab_info) (x : Z) : Prop := 0 ≤ x < i_count i ∧ bit i.(i_words) x = true.
#[export] Instance used_dec i x : Decision (used i x).
Proof. unfold used. apply _. Defined.

Lemma take_slot_ok i x l words : info_ok i → i.(i_free) = x :: l → length words = 4%nat → Forall is_u64 words →
  (∀ j, 0 ≤ j → bit words j = if decide (j = x) then true else bit i.(i_words) j) → info_ok (take_slot i words).
Proof.
  intros Hi Ef Hl Hw Hb. destruct (io_free _ Hi) as [Hd Hf]. pose proof (proj1 (Hf x) ltac:(rewrite Ef; left)) as [Hx Hx0]. destruct (info_count i Hi).
  rewrite Ef in Hd. apply NoDup_cons in Hd as [Hxl Hd]. split; try done; [apply Hi|..].
  - change (i_count (take_slot i words)) with (i_count i). intros k Hk. rewrite Hb by lia. rewrite decide_False by lia. by apply (io_high _ Hi).
  - change (i_count (take_slot i words)) with (i_count i). cbn [take_slot i_words i_free]. rewrite Ef. cbn [tail]. split; [done|]. intros j. split.
    + intros Hj. assert (j ≠ x) by (by intros ->). pose proof (proj1 (Hf j) ltac:(rewrite Ef; by right)) as [? ?]. split; [done|]. rewrite Hb by lia. by rewrite decide_False.
    + intros [Hj E]. rewrite Hb in E by lia. case_decide; [done|]. assert (Hin : j ∈ x :: l) by (rewrite <-Ef; by apply Hf). apply elem_of_cons in Hin as [?|?]; done.
Qed.
Lemma give_slot_ok i x words : info_ok i → used i x → length words = 4%nat → Forall is_u64 words →
  (∀ j, 0 ≤ j → bit words j = if decide (j = x) then false else bit i.(i_words) j) → info_ok (give_slot i words x).
Proof.
  intros Hi [Hx Hx1] Hl Hw Hb. destruct (io_free _ Hi) as [Hd Hf]. destruct (info_count i Hi). split; try done; [apply Hi|..].
  - change (i_count (give_slot i words x)) with (i_count i). intros k Hk. rewrite Hb by lia. case_decide; [done|]. by apply (io_high _ Hi).
  - change (i_count (give_slot i words x)) with (i_count i). cbn [give_slot i_words i_free]. split.
    + constructor; [|done]. intros Hin. apply Hf in Hin as [_ ?]. congruence.
    + intros j. rewrite elem_of_cons, Hf. split.
      * intros [->|[Hj E]]; [split; [done|]; rewrite Hb by lia; by rewrite decide_True|]. split; [done|]. rewrite Hb by lia. by case_decide.
      * intros [Hj E]. rewrite Hb in E by lia. case_decide; [by left|by right].
Qed.
Lemma fresh_info_ok c : 0 ≤ c < 8 → info_ok (fresh_info c).
Proof.
  intros Hc. destruct (class_facts c Hc) as (_ & _ & ? & _). split; try done.
  - apply Forall_replicate. mlia.
  - intros k _. apply bit_new.
  - split; [apply NoDup_seqZ|]. intros k. change (i_count (fresh_info c)) with (slot_count_of c). cbn [fresh_info i_free i_words]. rewrite elem_of_seqZ, bit_new. split; [intros; split; [lia|done]|intros [? _]; lia].
Qed.
(** A slot is used or free. *)
Lemma used_or_free i x : info_ok i → 0 ≤ x < i_count i → used i x ∨ x ∈ i.(i_free).
Proof. intros Hi Hx. destruct (io_free _ Hi) as [_ Hf]. destruct (bit i.(i_words) x) eqn:E; [by left|right; by apply Hf]. Qed.
Lemma used_not_free i x : info_ok i → used i x → x ∉ i.(i_free).
Proof. intros Hi [_ E] Hin. destruct (io_free _ Hi) as [_ Hf]. apply Hf in Hin as [_ ?]. congruence. Qed.
Lemma used_room i x : info_ok i → used i x → Z.of_nat (length i.(i_free)) < i_count i.
Proof.
  intros Hi Hu. destruct (info_free i Hi) as [E ?]. destruct (decide (Z.of_nat (length i.(i_free)) = i_count i)) as [E2|]; [|lia]. exfalso.
  assert (Hz : bits_below (bit i.(i_words)) (Z.to_nat (i_count i)) = 0) by lia. destruct Hu as [Hx Hb].
  replace (Z.to_nat (i_count i)) with (Z.to_nat x + S (Z.to_nat (i_count i) - Z.to_nat x - 1))%nat in Hz by lia. rewrite bits_below_add, bits_below_cons in Hz.
  rewrite Z.add_0_r, Z2Nat.id, Hb in Hz by lia. cbn [Z.b2z] in Hz.
  pose proof (bits_below_bound (bit i.(i_words)) (Z.to_nat x)). match type of Hz with context [1 + bits_below ?f ?n] => pose proof (bits_below_bound f n) end. lia.
Qed.

Section slots.
Context {ext : Type} (heap : Z) (Hheap : is_u64 heap).
#[local] Abbreviation state := (page_system (heap_world ext)).
#[local] Abbreviation ok := (slabs_ok heap).
#[local] Abbreviation head_of := (header_of heap).

(** The lists hold exactly the slabs with a free slot. *)
Definition settled (slabs : gmap Z slab_info) (lists : list (list Z)) : Prop :=
  ∀ p i l, slabs !! p = Some i → lists !! Z.to_nat i.(i_class) = Some l → (p ∈ l ↔ i.(i_free) ≠ []).

(** ** Raw writes *)
Lemma raw_write (s : state) h m p v : mem_ok m → mapped m p 80 → slab_typed v →
  ∃ m', write_slab p v (st s h m) = Done (tt, st s h m') ∧ mem_ok m' ∧ same_domain m m' ∧ header m' p v ∧ ∀ x, ¬ p ≤ x < p + 80 → m' !! x = m !! x.
Proof.
  intros Hb Hm Ht. pose proof (length_slab_bytes _ Ht) as Hl. exists (put m p (slab_bytes v)). split_and!.
  - apply write_slab_st. by apply store_slab_run.
  - apply put_bytes_ok; [done|apply slab_bytes_ok].
  - intros x. apply put_mapped. by rewrite Hl.
  - by apply header_put.
  - intros x Hx. apply put_outside. rewrite Hl. lia.
Qed.
Lemma slot_next_run (s : state) h m p i nx pv x : mem_ok m → mapped m p 4096 → info_ok i → 0 ≤ x < i_count i →
  slot_next p (head_of i nx pv) x (st s h m) = Done (le_value (peek m (slot_at p i.(i_class) x) 4), st s h m).
Proof.
  intros Hb Hm Hi Hx. unfold slot_next, mbind, ST_bind, get_mem. cbn [st set_world sy_world w_mem lift]. change (slab_slot p (head_of i nx pv) x) with (slot_at p i.(i_class) x).
  pose proof (slot_inside p _ x (io_class _ Hi) Hx). destruct (info_count i Hi). rewrite slot_read_run; [done|done|]. intros y Hy. apply Hm. lia.
Qed.
Lemma slot_set_run (s : state) h m p slab c x v : mem_ok m → mapped m p 4096 → 0 ≤ c < 8 → 0 ≤ x < slot_count_of c → slab.(s_slot_offset) = 80 → slab.(s_class_index) = c → is_u32 v →
  ∃ m', slot_set_next p slab x v (st s h m) = Done (tt, st s h m') ∧ mem_ok m' ∧ same_domain m m' ∧ le_value (peek m' (slot_at p c x) 4) = v ∧
    ∀ y, ¬ slot_at p c x ≤ y < slot_at p c x + 4 → m' !! y = m !! y.
Proof.
  intros Hb Hm Hc Hx Eo Ec Hv. pose proof (slot_inside p c x Hc Hx). destruct (class_facts c Hc) as (? & _).
  assert (Hm4 : mapped m (slot_at p c x) 4) by (intros y Hy; apply Hm; lia). exists (put m (slot_at p c x) (le_bytes 4 v)).
  assert (Hl : length (le_bytes 4 v) = 4%nat) by apply length_le_bytes. split_and!.
  - unfold slot_set_next, mbind, ST_bind, get_mem. cbn [st set_world sy_world w_mem lift]. unfold slab_slot. rewrite Eo, Ec. fold (slot_at p c x). by rewrite slot_write_run.
  - apply put_bytes_ok; [done|apply le_bytes_ok].
  - intros y. apply put_mapped. by rewrite Hl.
  - rewrite <-Hl, peek_put, Hl at 1. apply field_value. change (256 ^ Z.of_nat 4) with 4294967296. mlia.
  - intros y Hy. apply put_outside. rewrite Hl. lia.
Qed.

(** ** A slab added or dropped *)
Lemma slabs_add m partial slabs lists m' p i : ok m partial slabs lists → slabs !! p = None → p mod 4096 = 0 → 0 < p → p + 4096 ≤ UINT64_MAX → mapped m p 4096 →
  info_ok i → mem_ok m' → same_domain m m' → same_outside m m' p → header m' p (head_of i 0 0) → chained m' (slot_at p i.(i_class)) i.(i_free) →
  ok m' partial (<[p := i]> slabs) lists.
Proof.
  intros Hok Hp Ha H0 Hu Hmp Hi Hb Hd Ho Hh Hch.
  assert (Hother : ∀ q j x, slabs !! q = Some j → q ≤ x < q + 4096 → m' !! x = m !! x).
  { intros q j x Hq Hx. apply Ho. destruct (so_page _ _ _ _ _ Hok q j Hq) as (Haq & _). destruct (slab_pages_apart p q Ha Haq) as [?|?]; [intros ->; congruence|lia|lia]. }
  assert (Hnot : ∀ c l, lists !! c = Some l → p ∉ l) by (intros c l Hl Hin; destruct (so_listed _ _ _ _ _ Hok c l p Hl Hin) as (j & ? & _); congruence).
  split; try apply Hok; try done.
  - intros q j [[<- <-]|[Hne Hq]]%lookup_insert_Some; [split_and!; try done; by eapply mapped_same_domain|]. destruct (so_page _ _ _ _ _ Hok q j Hq) as (? & ? & ? & ?). split_and!; try done. by eapply mapped_same_domain.
  - intros q j [[<- <-]|[Hne Hq]]%lookup_insert_Some; [done|]. by apply (so_info _ _ _ _ _ Hok q j).
  - intros q j l nx pv [[<- <-]|[Hne Hq]]%lookup_insert_Some Hl Hn.
    + specialize (Hnot _ _ Hl). destruct Hn as [(_ & -> & ->)|(l1 & l2 & -> & _)]; [done|]. destruct Hnot. set_solver.
    + apply (header_ext m); [|by apply (so_header _ _ _ _ _ Hok q j l)]. intros x Hx. apply (Hother q j); [done|lia].
  - intros q j [[<- <-]|[Hne Hq]]%lookup_insert_Some; [done|]. apply (slots_chained_ext m); [|by apply (so_chain _ _ _ _ _ Hok q j)].
    intros k x Hk Hx. apply (Hother q j); [done|]. pose proof (so_info _ _ _ _ _ Hok q j Hq) as Hj. destruct (io_free _ Hj) as [_ Hf]. apply Hf in Hk as [Hk _].
    pose proof (slot_inside q j.(i_class) k (io_class _ Hj) Hk). destruct (info_count j Hj). lia.
  - intros c l q Hl Hin. destruct (so_listed _ _ _ _ _ Hok c l q Hl Hin) as (j & Hj & Ej). exists j. rewrite lookup_insert_ne; [done|]. intros ->. by apply (Hnot c l Hl).
Qed.
Lemma slabs_drop m partial slabs lists m' p i : ok m partial slabs lists → slabs !! p = Some i → (∀ c l, lists !! c = Some l → p ∉ l) →
  mem_ok m' → same_domain m m' → same_outside m m' p → ok m' partial (delete p slabs) lists.
Proof.
  intros Hok Hp Hnot Hb Hd Ho. destruct (so_page _ _ _ _ _ Hok p i Hp) as (Ha & _).
  assert (Hother : ∀ q j x, slabs !! q = Some j → q ≠ p → q ≤ x < q + 4096 → m' !! x = m !! x).
  { intros q j x Hq Hne Hx. apply Ho. destruct (so_page _ _ _ _ _ Hok q j Hq) as (Haq & _). destruct (slab_pages_apart p q Ha Haq (not_eq_sym Hne)); lia. }
  split; try apply Hok; try done.
  - intros q j [Hne Hq]%lookup_delete_Some. destruct (so_page _ _ _ _ _ Hok q j Hq) as (? & ? & ? & ?). split_and!; try done. by eapply mapped_same_domain.
  - intros q j [Hne Hq]%lookup_delete_Some. by apply (so_info _ _ _ _ _ Hok q j).
  - intros q j l nx pv [Hne Hq]%lookup_delete_Some Hl Hn. apply (header_ext m); [|by apply (so_header _ _ _ _ _ Hok q j l)]. intros x Hx. apply (Hother q j); [done|congruence|lia].
  - intros q j [Hne Hq]%lookup_delete_Some. apply (slots_chained_ext m); [|by apply (so_chain _ _ _ _ _ Hok q j)].
    intros k x Hk Hx. apply (Hother q j); [done|congruence|]. pose proof (so_info _ _ _ _ _ Hok q j Hq) as Hj. destruct (io_free _ Hj) as [_ Hf]. apply Hf in Hk as [Hk _].
    pose proof (slot_inside q j.(i_class) k (io_class _ Hj) Hk). destruct (info_count j Hj). lia.
  - intros c l q Hl Hin. destruct (so_listed _ _ _ _ _ Hok c l q Hl Hin) as (j & Hj & Ej). exists j. rewrite lookup_delete_ne; [done|]. intros ->. by apply (Hnot c l Hl).
Qed.
(** Writes outside the headers and the links of free slots do not matter. *)
Lemma slabs_user m partial slabs lists m' : ok m partial slabs lists → mem_ok m' → same_domain m m' →
  (∀ p i x, slabs !! p = Some i → p ≤ x < p + 4096 → m' !! x ≠ m !! x → ∃ k, used i k ∧ slot_at p i.(i_class) k ≤ x < slot_at p i.(i_class) k + class_size i.(i_class)) →
  ok m' partial slabs lists.
Proof.
  intros Hok Hb Hd Hs. split; try apply Hok; try done.
  - intros q j Hq. destruct (so_page _ _ _ _ _ Hok q j Hq) as (? & ? & ? & ?). split_and!; try done. by eapply mapped_same_domain.
  - intros q j l nx pv Hq Hl Hn. apply (header_ext m); [|by apply (so_header _ _ _ _ _ Hok q j l)]. intros x Hx. apply dec_stable. intros Hne.
    pose proof (so_info _ _ _ _ _ Hok q j Hq) as Hj. destruct (Hs q j x Hq ltac:(lia) Hne) as (k & [Hk _] & Hkx). pose proof (slot_inside q j.(i_class) k (io_class _ Hj) Hk). lia.
  - intros q j Hq. pose proof (so_info _ _ _ _ _ Hok q j Hq) as Hj. apply (slots_chained_ext m); [|by apply (so_chain _ _ _ _ _ Hok q j)]. intros k x Hk Hx. apply dec_stable. intros Hne.
    assert (Hkb : 0 ≤ k < i_count j) by (destruct (io_free _ Hj) as [_ Hf]; by apply Hf). pose proof (slot_inside q j.(i_class) k (io_class _ Hj) Hkb). destruct (info_count j Hj).
    destruct (Hs q j x Hq ltac:(lia) Hne) as (k' & Hu & Hkx). assert (k' ≠ k) by (intros ->; by apply (used_not_free j k)). destruct Hu as [Hk' _].
    destruct (slot_apart q j.(i_class) k k' (io_class _ Hj)); lia.
Qed.

(** ** Taking a slot *)
Lemma headers_only_insert slabs m m' p i j : slabs !! p = Some i → headers_only (<[p := j]> slabs) m m' → headers_only slabs m m'.
Proof.
  intros Hp [Hd Ho]. split; [done|]. intros x Hx. apply Ho. intros q k [[<- <-]|[Hne Hq]]%lookup_insert_Some; [by apply (Hx p i)|by apply (Hx q k)].
Qed.
Lemma headers_only_page slabs m m' p i : slabs !! p = Some i → same_domain m m' → (∀ x, ¬ p ≤ x < p + 80 → m' !! x = m !! x) → headers_only slabs m m'.
Proof. intros Hp Hd Ho. split; [done|]. intros x Hx. apply Ho. by apply (Hx p i). Qed.
(** The header of [p] replaced, its lists untouched. *)
Lemma slabs_reheader m partial slabs lists m' p i i' l nx pv : ok m partial slabs lists → slabs !! p = Some i → lists !! Z.to_nat i.(i_class) = Some l → neighbours l p nx pv →
  info_ok i' → i'.(i_class) = i.(i_class) → mem_ok m' → same_domain m m' → same_outside m m' p → header m' p (head_of i' nx pv) →
  chained m' (slot_at p i'.(i_class)) i'.(i_free) → ok m' partial (<[p := i']> slabs) lists.
Proof.
  intros Hok Hp Hl Hn Hi Hc Hb Hd Ho Hh Hch. apply (slabs_change heap m _ _ _ m' p i i' Hok Hp); try done. intros l' nx' pv' Hl' Hn'.
  rewrite Hl in Hl'. injection Hl' as <-. by destruct (neighbours_unique l p nx pv nx' pv' (so_nodup _ _ _ _ _ Hok _ _ Hl) Hn Hn') as [<- <-].
Qed.
Lemma settled_insert slabs lists p i i' l' : settled slabs lists → slabs !! p = Some i → i'.(i_class) = i.(i_class) → is_Some (lists !! Z.to_nat i.(i_class)) →
  (∀ l q, lists !! Z.to_nat i.(i_class) = Some l → q ≠ p → (q ∈ l' ↔ q ∈ l)) → (p ∈ l' ↔ i'.(i_free) ≠ []) →
  settled (<[p := i']> slabs) (<[Z.to_nat i.(i_class) := l']> lists).
Proof.
  intros Hs Hp Hc [l Hl] Hq Hpl q j k [[<- <-]|[Hne Hj]]%lookup_insert_Some Hk.
  - rewrite Hc, list_lookup_insert_eq in Hk by (by apply lookup_lt_is_Some; eexists). by injection Hk as <-.
  - apply list_lookup_insert_Some in Hk as [(E & <- & _)|[Hne2 Hk]]; [|by apply (Hs q j)]. rewrite (Hq l q Hl) by done. apply (Hs q j); [done|by rewrite <-E].
Qed.

Lemma settled_keep slabs lists p i i' : settled slabs lists → slabs !! p = Some i → i'.(i_class) = i.(i_class) → (i.(i_free) ≠ [] ↔ i'.(i_free) ≠ []) → settled (<[p := i']> slabs) lists.
Proof.
  intros Hs Hp Hc Hf q j k [[<- <-]|[Hne Hj]]%lookup_insert_Some Hk; [|by apply (Hs q j)]. rewrite <-Hf. apply (Hs p i); [done|by rewrite <-Hc].
Qed.
(** A slab that has just lost a slot leaves its list when that was its last. *)
Lemma leave_full (s : state) h m slabs lists p i i' : ok m h.(partial_slabs) (<[p := i']> slabs) lists → settled slabs lists → slabs !! p = Some i →
  i.(i_free) ≠ [] → i'.(i_class) = i.(i_class) →
  ∃ partial m' lists', (if decide (Z.of_nat (length i'.(i_free)) = 0) then partial_remove p else mret tt) (st s h m) = Done (tt, st s (set_partial h partial) m') ∧
    ok m' partial (<[p := i']> slabs) lists' ∧ settled (<[p := i']> slabs) lists' ∧ headers_only slabs m m'.
Proof.
  intros Hok Hset Hp Hf Hc. assert (Hp' : <[p := i']> slabs !! p = Some i') by apply lookup_insert_eq. destruct (slab_list _ _ _ _ _ Hok p i' Hp') as (l & Hl & Hd). rewrite Hc in Hl.
  pose proof (proj2 (Hset p i l Hp Hl) Hf) as Hin. destruct (decide (Z.of_nat (length i'.(i_free)) = 0)) as [E|E].
  - apply list_elem_of_split in Hin as (l1 & l2 & ->). destruct (partial_remove_run heap Hheap s h m _ _ Hok p i' l1 l2 Hp' ltac:(by rewrite Hc)) as (m' & E1 & Hok1 & Ho1). rewrite Hc in E1, Hok1.
    eexists _, m', _. split; [exact E1|]. split; [done|]. split; [|by apply (headers_only_insert _ _ _ p i i')]. apply (settled_insert slabs lists p i i' _ Hset Hp Hc ltac:(by eexists)).
    + intros l q Hl' Hq. rewrite Hl in Hl'. injection Hl' as <-. set_solver.
    + apply NoDup_app in Hd as (_ & Hd1 & Hd2). apply NoDup_cons in Hd2 as [Hd2 _]. destruct (i_free i'); cbn in E; [|lia]. split; [|done]. intros [Hq|Hq]%elem_of_app; [|done]. destruct (Hd1 p Hq). left.
  - exists h.(partial_slabs), m, lists. split; [by destruct h|]. split; [done|]. split; [|apply headers_only_refl].
    apply (settled_keep slabs lists p i i' Hset Hp Hc). split; [intros _ E0; by rewrite E0 in E|done].
Qed.

Lemma slab_allocate_slot_run (s : state) h m slabs lists p i x l : ok m h.(partial_slabs) slabs lists → settled slabs lists → slabs !! p = Some i → i.(i_free) = x :: l →
  ∃ h' m' words lists', slab_allocate_slot heap p i.(i_class) (st s h m) = Done ((KERNEL_HEAP_STATUS_OK, slot_at p i.(i_class) x), st s h' m') ∧
    (∀ j, 0 ≤ j → bit words j = if decide (j = x) then true else bit i.(i_words) j) ∧ info_ok (take_slot i words) ∧
    ok m' h'.(partial_slabs) (<[p := take_slot i words]> slabs) lists' ∧ settled (<[p := take_slot i words]> slabs) lists' ∧
    h' = set_statistics (set_partial h h'.(partial_slabs)) (set_live h.(statistics) (u64 (h.(statistics).(live_allocations) + 1))) ∧ headers_only slabs m m'.
Proof.
  intros Hok Hset Hp Ef. pose proof (so_info _ _ _ _ _ Hok p i Hp) as Hi. destruct (io_free _ Hi) as [Hd Hf]. pose proof (proj1 (Hf x) ltac:(rewrite Ef; left)) as [Hx Hx0].
  destruct (info_count i Hi) as [Hcnt _]. destruct (info_free i Hi) as [_ Hlen]. destruct (so_page _ _ _ _ _ Hok p i Hp) as (Ha & _ & _ & Hmap).
  destruct (slab_links _ _ _ _ _ Hok p i Hp) as (lp & nx & pv & Hlp & Hdp & Hn & Hh). destruct (neighbour_u64 _ _ _ _ _ Hok p i lp nx pv Hp Hlp Hn) as [Hunx Hupv].
  assert (Ehd : info_head i = x) by (unfold info_head; by rewrite Ef). assert (El : length (i_free i) = S (length l)) by (by rewrite Ef).
  unfold slab_allocate_slot. step (read_slab_st s h m p _ (slab_load _ _ _ _ _ Hok p i lp nx pv Hp Hlp Hn)).
  cbn [header_of s_magic s_heap s_class_index s_free_count s_slot_count s_free_head s_allocated]. rewrite Ehd. rewrite decide_False by (intros [?|[?|[?|[?|?]]]]; try done; lia).
  pose proof (slot_next_run s h m p i nx pv x (so_bytes _ _ _ _ _ Hok) Hmap Hi Hx) as Esn. pose proof (so_chain _ _ _ _ _ Hok p i Hp) as Hch. rewrite Ef in Hch. destruct Hch as [Enx Hch]. rewrite Enx in Esn. step Esn.
  set (next := default KERNEL_SLAB_INDEX_NONE (head l)) in *. assert (Hnext : is_u32 next).
  { destruct (bitmap_set_run i.(i_words) 4 (io_length _ Hi) (io_words _ Hi) x ltac:(lia)) as (w' & _ & Hw1 & Hw2 & Hw3). pose proof (info_head_bounds _ (take_slot_ok i x l w' Hi Ef Hw1 Hw2 Hw3)) as Hb.
    unfold info_head, take_slot in Hb. cbn [i_free] in Hb. by rewrite Ef in Hb. }
  pose proof (header_of_typed heap Hheap i nx pv Hi Hunx Hupv) as Ht.
  set (v1 := with_slots (head_of i nx pv) (i_words i) next (Z.of_nat (length (i_free i)))). assert (Ht1 : slab_typed v1) by (destruct Ht; by split).
  destruct (raw_write s h m p v1 (so_bytes _ _ _ _ _ Hok) (slab_mapped _ _ _ _ _ Hok p i Hp) Ht1) as (m1 & E1 & Hb1 & Hd1 & Hh1 & Ho1). step E1.
  step (bitmap_test_run i.(i_words) 4 (io_length _ Hi) (io_words _ Hi) x ltac:(lia)). rewrite Hx0. cbv iota.
  destruct (bitmap_set_run i.(i_words) 4 (io_length _ Hi) (io_words _ Hi) x ltac:(lia)) as (words & Ew & Hw1 & Hw2 & Hw3). step Ew.
  pose proof (take_slot_ok i x l words Hi Ef Hw1 Hw2 Hw3) as Hi'. set (i' := take_slot i words) in *.
  assert (Ev : with_slots v1 words next (u16 (s_free_count v1 - 1)) = head_of i' nx pv).
  { unfold v1, with_slots, header_of, i', take_slot, info_head. cbn. rewrite Ef. cbn [tail head length]. f_equal. unfold u16. rewrite Z.mod_small; lia. }
  rewrite Ev. assert (Hm1 : mapped m1 p 80) by (eapply mapped_same_domain; [done|by eapply (slab_mapped _ _ _ _ _ Hok)]).
  destruct (raw_write s h m1 p (head_of i' nx pv) Hb1 Hm1 (header_of_typed heap Hheap i' nx pv Hi' Hunx Hupv)) as (m2 & E2 & Hb2 & Hd2 & Hh2 & Ho2). step E2.
  assert (Hd12 : same_domain m m2) by (intros y; by rewrite (Hd2 y), (Hd1 y)). assert (Ho12 : ∀ y, ¬ p ≤ y < p + 80 → m2 !! y = m !! y) by (intros y Hy; by rewrite Ho2, Ho1).
  assert (Hok2 : ok m2 h.(partial_slabs) (<[p := i']> slabs) lists).
  { apply (slabs_reheader m _ slabs lists m2 p i i' lp nx pv); try done; [intros y Hy; apply Ho12; lia|]. cbn [i' take_slot i_class i_free]. rewrite Ef. cbn [tail]. apply (slots_chained_ext m); [|done].
    intros k y Hk Hy. apply Ho12. pose proof (proj1 (Hf k) ltac:(rewrite Ef; by right)) as [Hkb _]. pose proof (slot_inside p i.(i_class) k (io_class _ Hi) Hkb). lia. }
  assert (Hne : i_free i ≠ []) by (by rewrite Ef).
  destruct (leave_full s h m2 slabs lists p i i' Hok2 Hset Hp Hne eq_refl) as (partial & m3 & lists' & E3 & Hok3 & Hset3 & Ho3). step E3. step (count_st s (set_partial h partial) m3 (λ t, set_live t (u64 (t.(live_allocations) + 1)))).
  eexists (set_statistics (set_partial h partial) _), m3, words, lists'. split; [reflexivity|]. split; [done|]. split; [done|]. split; [done|]. split; [done|]. split; [done|].
  apply (headers_only_trans _ _ m2); [by apply (headers_only_page _ _ _ p i)|done].
Qed.

(** ** The metadata of a slab is valid *)
Lemma slots_valid_run (s : state) h m slabs lists p i nx pv : ok m h.(partial_slabs) slabs lists → slabs !! p = Some i →
  slots_valid p (head_of i nx pv) (st s h m) = Done (true, st s h m).
Proof.
  intros Hok Hp. pose proof (so_info _ _ _ _ _ Hok p i Hp) as Hi. destruct (io_free _ Hi) as [_ Hf]. destruct (info_count i Hi) as [Hcnt _]. destruct (so_page _ _ _ _ _ Hok p i Hp) as (_ & _ & _ & Hmap).
  pose proof (so_chain _ _ _ _ _ Hok p i Hp) as Hch. unfold slots_valid. cbn [header_of s_free_count s_free_head s_slot_count s_allocated]. unfold info_head.
  destruct (i_free i) as [|x l] eqn:Ef; cbn [length head].
  { rewrite decide_True by done. by rewrite bool_decide_true. }
  change (default KERNEL_SLAB_INDEX_NONE (Some x)) with x. destruct (proj1 (Hf x) ltac:(left)) as [Hx Hx0]. rewrite !decide_False by lia.
  step (bitmap_test_run i.(i_words) 4 (io_length _ Hi) (io_words _ Hi) x ltac:(lia)). rewrite Hx0. cbv iota. destruct Hch as [En _].
  pose proof (slot_next_run s h m p i nx pv x (so_bytes _ _ _ _ _ Hok) Hmap Hi Hx) as E. rewrite En in E. step E.
  destruct l as [|y l]; [done|]. change (default KERNEL_SLAB_INDEX_NONE (head (y :: l))) with y. destruct (proj1 (Hf y) ltac:(right; left)) as [Hy Hy0].
  rewrite decide_False by (unfold KERNEL_SLAB_INDEX_NONE; mlia). rewrite decide_False by lia.
  step (bitmap_test_run i.(i_words) 4 (io_length _ Hi) (io_words _ Hi) y ltac:(lia)). by rewrite Hy0.
Qed.
Lemma slab_metadata_valid_run (s : state) h m slabs lists p i : ok m h.(partial_slabs) slabs lists → settled slabs lists → slabs !! p = Some i →
  slab_metadata_valid heap p (st s h m) = Done (true, st s h m).
Proof.
  intros Hok Hset Hp. pose proof (so_info _ _ _ _ _ Hok p i Hp) as Hi. destruct (info_count i Hi) as [Hcnt _]. destruct (info_free i Hi) as [Efree Hlen]. pose proof (io_class _ Hi) as Hc.
  destruct (slab_links _ _ _ _ _ Hok p i Hp) as (l & nx & pv & Hl & Hd & Hn & _).
  unfold slab_metadata_valid. step (read_slab_st s h m p _ (slab_load _ _ _ _ _ Hok p i l nx pv Hp Hl Hn)).
  rewrite decide_False by (cbn [header_of s_magic s_heap s_class_index s_slot_offset s_slot_count s_reserved s_free_count]; intros [?|[?|[?|[?|[?|[?|[?|?]]]]]]]; try done; unfold KERNEL_HEAP_SIZE_CLASS_COUNT, KERNEL_SLAB_BITMAP_WORDS in *; lia).
  cbn [header_of s_allocated s_slot_count s_free_count]. rewrite (count_words_run i.(i_words) (i_count i) 0 (io_words _ Hi)); [|lia|apply (io_high _ Hi)|lia|rewrite (io_length _ Hi); mlia].
  rewrite (io_length _ Hi). rewrite (bits_below_more _ (Z.to_nat (i_count i)) (64 * 4)) by (try lia; intros k Hk; apply (io_high _ Hi); lia).
  rewrite decide_False by (intros E; apply E; rewrite Z.add_0_l, Efree; unfold u32; rewrite Z.mod_small; mlia).
  fold (head_of i nx pv). step (slots_valid_run s h m slabs lists p i nx pv Hok Hp). cbn [negb].
  destruct (decide (i.(i_free) = [])) as [E|E].
  - assert (Hnl : p ∉ l) by (intros Hin; by apply (Hset p i l Hp Hl)). destruct Hn as [(_ & -> & ->)|(l1 & l2 & -> & _)]; [|set_solver]. unfold links_valid. cbn [header_of s_free_count s_next s_previous].
    rewrite decide_True by (by rewrite E). by rewrite bool_decide_true.
  - pose proof (proj2 (Hset p i l Hp Hl) E) as Hin. destruct Hn as [(? & _)|(l1 & l2 & -> & -> & ->)]; [done|]. by apply (links_valid_run heap Hheap s h m slabs lists Hok).
Qed.

(** ** A page made a slab *)
Lemma link_slots_run (s : state) h p slab c : 0 ≤ c < 8 → slab.(s_slot_offset) = 80 → slab.(s_class_index) = c → ∀ k m a, mem_ok m → mapped m p 4096 → 0 ≤ a → a + Z.of_nat k = slot_count_of c →
  ∃ m', link_slots k p slab (slot_count_of c) a (st s h m) = Done (tt, st s h m') ∧ mem_ok m' ∧ same_domain m m' ∧ chained m' (slot_at p c) (seqZ a (Z.of_nat k)) ∧
    ∀ y, (y < slot_at p c a ∨ p + 4096 ≤ y) → m' !! y = m !! y.
Proof.
  intros Hc Eo Ec. destruct (class_facts c Hc) as (Hsz & _ & Hcnt & _). induction k as [|k IH]; intros m a Hb Hm Ha Hk; cbn [link_slots].
  - exists m. by rewrite seqZ_nil by lia.
  - assert (Ein : 0 ≤ a < slot_count_of c) by lia. pose proof (slot_inside p c a Hc Ein) as Hsa. set (nx := if decide (a + 1 < slot_count_of c) then a + 1 else KERNEL_SLAB_INDEX_NONE).
    assert (Hnx : is_u32 nx) by (unfold nx, KERNEL_SLAB_INDEX_NONE; case_decide; mlia).
    destruct (slot_set_run s h m p slab c a nx Hb Hm Hc Ein Eo Ec Hnx) as (m1 & E1 & Hb1 & Hd1 & Hv1 & Ho1). step E1.
    destruct (IH m1 (a + 1) Hb1 ltac:(by eapply mapped_same_domain) ltac:(lia) ltac:(lia)) as (m2 & E2 & Hb2 & Hd2 & Hc2 & Ho2).
    assert (Hstep : slot_at p c (a + 1) = slot_at p c a + class_size c) by (unfold slot_at; lia).
    exists m2. split; [done|]. split; [done|]. split; [intros y; by rewrite (Hd2 y), (Hd1 y)|]. split.
    + rewrite seqZ_cons by lia. replace (Z.succ a) with (a + 1) by lia. replace (Z.pred (Z.of_nat (S k))) with (Z.of_nat k) by lia. split; [|done].
      rewrite (peek_ext m2 m1) by (intros y Hy; apply Ho2; lia). rewrite Hv1. unfold nx. case_decide; [rewrite seqZ_cons by lia; done|]. by rewrite seqZ_nil by lia.
    + intros y Hy. rewrite Ho2 by lia. apply Ho1. lia.
Qed.
Lemma slab_prepare_run (s : state) h m partial slabs lists p c : ok m partial slabs lists → slabs !! p = None → p mod 4096 = 0 → 0 < p → p + 4096 ≤ UINT64_MAX → mapped m p 4096 → 0 ≤ c < 8 →
  ∃ m', (_ ← write_slab p (new_slab heap c (slot_count_of c)); link_slots (Z.to_nat (slot_count_of c)) p (new_slab heap c (slot_count_of c)) (slot_count_of c) 0) (st s h m) = Done (tt, st s h m') ∧
    ok m' partial (<[p := fresh_info c]> slabs) lists ∧ same_domain m m' ∧ same_outside m m' p.
Proof.
  intros Hok Hp Ha H0 Hu Hm Hc. destruct (class_facts c Hc) as (Hsz & _ & Hcnt & _). pose proof (fresh_info_ok c Hc) as Hi. assert (Hz : is_u64 0) by mlia.
  assert (E : new_slab heap c (slot_count_of c) = head_of (fresh_info c) 0 0).
  { unfold new_slab, header_of, info_head. cbn [fresh_info i_words i_class i_free]. rewrite length_seqZ. change (i_count (fresh_info c)) with (slot_count_of c).
    rewrite seqZ_cons by lia. cbn [head]. unfold u16. rewrite !Z.mod_small by lia. rewrite Z2Nat.id by lia. done. }
  rewrite E. destruct (raw_write s h m p _ (so_bytes _ _ _ _ _ Hok) ltac:(intros x Hx; apply Hm; lia) (header_of_typed heap Hheap _ 0 0 Hi Hz Hz)) as (m1 & E1 & Hb1 & Hd1 & Hh1 & Ho1). step E1.
  destruct (link_slots_run s h p (head_of (fresh_info c) 0 0) c Hc eq_refl eq_refl (Z.to_nat (slot_count_of c)) m1 0 Hb1 ltac:(by eapply mapped_same_domain) ltac:(lia) ltac:(lia)) as (m2 & E2 & Hb2 & Hd2 & Hc2 & Ho2).
  rewrite Z2Nat.id in Hc2 by lia. assert (Es : slot_at p c 0 = p + 80) by (unfold slot_at; lia). exists m2. assert (Hd : same_domain m m2) by (intros y; by rewrite (Hd2 y), (Hd1 y)).
  assert (Ho : same_outside m m2 p) by (intros y Hy; rewrite Ho2 by lia; apply Ho1; lia). split; [done|]. split; [|done].
  apply (slabs_add m partial slabs lists m2 p (fresh_info c)); try done. apply (header_ext m1); [|done]. intros y Hy. apply Ho2. lia.
Qed.
(** The new slab enters its list. *)
Lemma slab_enter_run (s : state) h m slabs lists p i : ok m h.(partial_slabs) (<[p := i]> slabs) lists → settled slabs lists → i.(i_free) ≠ [] →
  (∀ c l, lists !! c = Some l → p ∉ l) →
  ∃ partial m' lists', partial_insert p (st s h m) = Done (tt, st s (set_partial h partial) m') ∧ ok m' partial (<[p := i]> slabs) lists' ∧ settled (<[p := i]> slabs) lists' ∧ headers_only (<[p := i]> slabs) m m'.
Proof.
  intros Hok Hset Hf Hnot. assert (Hp' : <[p := i]> slabs !! p = Some i) by apply lookup_insert_eq. destruct (slab_list _ _ _ _ _ Hok p i Hp') as (l & Hl & Hd).
  destruct (partial_insert_run heap Hheap s h m _ _ Hok p i l Hp' Hl (Hnot _ _ Hl)) as (m' & E & Hok' & Ho). eexists _, m', _. split; [exact E|]. split; [done|]. split; [|done].
  intros q j k [[<- <-]|[Hne Hj]]%lookup_insert_Some Hk.
  - rewrite list_lookup_insert_eq in Hk by (by eapply lookup_lt_Some). injection Hk as <-. split; [done|]. intros _. left.
  - apply list_lookup_insert_Some in Hk as [(Ec & <- & _)|[Hne2 Hk]]; [|by apply (Hset q j)]. rewrite elem_of_cons. rewrite <-(Hset q j l Hj ltac:(by rewrite <-Ec)). split; [intros [?|?]; [congruence|done]|by right].
Qed.

(** ** Returning a slot *)
(** The bitmap, the link of the slot and the count; the lists still untouched. *)
Lemma give_back_run (s : state) h m slabs lists p i x : ok m h.(partial_slabs) slabs lists → slabs !! p = Some i → used i x →
  ∃ words v1 l nx pv m1 m2 m3, let i' := give_slot i words x in lists !! Z.to_nat i.(i_class) = Some l ∧ neighbours l p nx pv ∧ (∀ j, 0 ≤ j → bit words j = if decide (j = x) then false else bit i.(i_words) j) ∧ info_ok i' ∧
    bitmap_clear i.(i_words) x = Done words ∧ v1 = with_slots (head_of i nx pv) words (info_head i) (Z.of_nat (length i.(i_free))) ∧ write_slab p v1 (st s h m) = Done (tt, st s h m1) ∧
    slot_set_next p (head_of i nx pv) x (info_head i) (st s h m1) = Done (tt, st s h m2) ∧ write_slab p (head_of i' nx pv) (st s h m2) = Done (tt, st s h m3) ∧
    ok m3 h.(partial_slabs) (<[p := i']> slabs) lists ∧ same_domain m m3 ∧ ∀ y, ¬ p ≤ y < p + 80 → ¬ slot_at p i.(i_class) x ≤ y < slot_at p i.(i_class) x + 4 → m3 !! y = m !! y.
Proof.
  intros Hok Hp Hu. pose proof (so_info _ _ _ _ _ Hok p i Hp) as Hi. destruct (io_free _ Hi) as [_ Hf]. destruct (info_count i Hi) as [Hcnt Hsz]. destruct (so_page _ _ _ _ _ Hok p i Hp) as (Ha & _ & _ & Hmap).
  destruct (slab_links _ _ _ _ _ Hok p i Hp) as (l & nx & pv & Hl & Hd & Hn & Hh). destruct (neighbour_u64 _ _ _ _ _ Hok p i l nx pv Hp Hl Hn) as [Hunx Hupv]. pose proof (proj1 Hu) as Hx.
  destruct (bitmap_clear_run i.(i_words) 4 (io_length _ Hi) (io_words _ Hi) x ltac:(lia)) as (words & Ew & Hw1 & Hw2 & Hw3). pose proof (give_slot_ok i x words Hi Hu Hw1 Hw2 Hw3) as Hi'.
  pose proof (header_of_typed heap Hheap i nx pv Hi Hunx Hupv) as Ht. pose proof (slot_inside p _ x (io_class _ Hi) Hx) as Hsx.
  set (v1 := with_slots (head_of i nx pv) words (info_head i) (Z.of_nat (length i.(i_free)))). assert (Ht1 : slab_typed v1) by (destruct Ht; by split).
  destruct (raw_write s h m p v1 (so_bytes _ _ _ _ _ Hok) (slab_mapped _ _ _ _ _ Hok p i Hp) Ht1) as (m1 & E1 & Hb1 & Hd1 & Hh1 & Ho1).
  destruct (slot_set_run s h m1 p (head_of i nx pv) i.(i_class) x (info_head i) Hb1 ltac:(by eapply mapped_same_domain) (io_class _ Hi) Hx eq_refl eq_refl (info_head_bounds i Hi)) as (m2 & E2 & Hb2 & Hd2 & Hv2 & Ho2).
  assert (Hd12 : same_domain m m2) by (intros y; by rewrite (Hd2 y), (Hd1 y)).
  destruct (raw_write s h m2 p _ Hb2 ltac:(eapply mapped_same_domain; [exact Hd12|by apply (slab_mapped _ _ _ _ _ Hok p i)]) (header_of_typed heap Hheap _ nx pv Hi' Hunx Hupv)) as (m3 & E3 & Hb3 & Hd3 & Hh3 & Ho3).
  assert (Hd13 : same_domain m m3) by (intros y; by rewrite (Hd3 y), (Hd12 y)).
  assert (Ho : ∀ y, ¬ p ≤ y < p + 80 → ¬ slot_at p i.(i_class) x ≤ y < slot_at p i.(i_class) x + 4 → m3 !! y = m !! y) by (intros y Hy Hy2; by rewrite Ho3, Ho2, Ho1).
  exists words, v1, l, nx, pv, m1, m2, m3. split_and!; try done. apply (slabs_reheader m _ slabs lists m3 p i _ l nx pv); try done; [intros y Hy; apply Ho; lia|].
  cbn [give_slot i_class i_free]. split; [rewrite (peek_ext m3 m2) by (intros y Hy; apply Ho3; lia); exact Hv2|].
  apply (slots_chained_ext m); [|by apply (so_chain _ _ _ _ _ Hok p i)]. intros k y Hk Hy. assert (k ≠ x) by (intros ->; by apply (used_not_free i x)). apply Hf in Hk as [Hk _].
  pose proof (slot_inside p _ k (io_class _ Hi) Hk). apply Ho; [lia|]. destruct (slot_apart p i.(i_class) k x (io_class _ Hi)); lia.
Qed.
(** A slab that was full enters its list. *)
Lemma enter_given (s : state) h m slabs lists p i i' : ok m h.(partial_slabs) (<[p := i']> slabs) lists → settled slabs lists → slabs !! p = Some i → i'.(i_class) = i.(i_class) → i'.(i_free) ≠ [] →
  ∃ partial m' lists', (if bool_decide (Z.of_nat (length i.(i_free)) = 0) then partial_insert p else mret tt) (st s h m) = Done (tt, st s (set_partial h partial) m') ∧
    ok m' partial (<[p := i']> slabs) lists' ∧ settled (<[p := i']> slabs) lists' ∧ headers_only slabs m m'.
Proof.
  intros Hok Hset Hp Hc Hf. destruct (i_free i) as [|y l] eqn:Ef.
  - rewrite bool_decide_true by done. destruct (slab_enter_run s h m slabs lists p i' Hok Hset Hf) as (partial & m' & lists' & E & Hok' & Hs & Ho).
    { intros c l Hl Hin. destruct (so_listed _ _ _ _ _ Hok c l p Hl Hin) as (j & Hj & Ej). rewrite lookup_insert_eq in Hj. injection Hj as <-. apply (Hset p i l Hp); [rewrite <-Hc, Ej, Nat2Z.id; done|done|done]. }
    exists partial, m', lists'. split_and!; try done. by apply (headers_only_insert _ _ _ p i i').
  - rewrite bool_decide_false by (simpl; lia). exists h.(partial_slabs), m, lists. split; [by destruct h|]. split; [done|]. split; [|apply headers_only_refl].
    apply (settled_keep slabs lists p i i' Hset Hp Hc). by rewrite Ef.
Qed.
(** The slab all of whose slots are free leaves its list and is no slab any more. *)
Lemma retire_run (s : state) h m slabs lists p i : ok m h.(partial_slabs) slabs lists → settled slabs lists → slabs !! p = Some i → i.(i_free) ≠ [] →
  ∃ partial m1 m2 v lists', partial_remove p (st s h m) = Done (tt, st s (set_partial h partial) m1) ∧ read_slab p (st s (set_partial h partial) m1) = Done (v, st s (set_partial h partial) m1) ∧
    write_slab p (with_magic v 0) (st s (set_partial h partial) m1) = Done (tt, st s (set_partial h partial) m2) ∧
    ok m2 partial (delete p slabs) lists' ∧ settled (delete p slabs) lists' ∧ headers_only slabs m m2.
Proof.
  intros Hok Hset Hp Hf. destruct (slab_list _ _ _ _ _ Hok p i Hp) as (l & Hl & Hd). pose proof (proj2 (Hset p i l Hp Hl) Hf) as Hin. apply list_elem_of_split in Hin as (l1 & l2 & ->).
  destruct (partial_remove_run heap Hheap s h m slabs lists Hok p i l1 l2 Hp Hl) as (m1 & E1 & Hok1 & Ho1). set (c := Z.to_nat i.(i_class)) in *. set (partial := <[c := default 0 (head (l1 ++ l2))]> h.(partial_slabs)) in *. set (lists' := <[c := l1 ++ l2]> lists) in *.
  pose proof (so_info _ _ _ _ _ Hok p i Hp) as Hi. assert (Hz : is_u64 0) by mlia. assert (Hl' : lists' !! c = Some (l1 ++ l2)) by (apply list_lookup_insert_eq; by eapply lookup_lt_Some).
  assert (Hnot : p ∉ l1 ++ l2) by (apply NoDup_app in Hd as (_ & Hd1 & Hd2); apply NoDup_cons in Hd2 as [Hd2 _]; intros [?|?]%elem_of_app; [by apply (Hd1 p); [|left]|done]).
  assert (Hn : neighbours (l1 ++ l2) p 0 0) by (by left). pose proof (read_slab_st s (set_partial h partial) m1 p _ (slab_load _ _ _ _ _ Hok1 p i _ 0 0 Hp Hl' Hn)) as E2.
  pose proof (header_of_typed heap Hheap i 0 0 Hi Hz Hz) as Ht. assert (Htm : slab_typed (with_magic (head_of i 0 0) 0)) by (destruct Ht; by split).
  destruct (raw_write s (set_partial h partial) m1 p _ (so_bytes _ _ _ _ _ Hok1) (slab_mapped _ _ _ _ _ Hok1 p i Hp) Htm) as (m2 & E3 & Hb3 & Hd3 & _ & Ho3).
  exists partial, m1, m2, (head_of i 0 0), lists'. split; [done|]. split; [done|]. split; [done|]. split; [|split].
  - apply (slabs_drop m1 partial slabs lists' m2 p i); try done; [|intros y Hy; apply Ho3; lia]. intros c' k Hk. apply list_lookup_insert_Some in Hk as [(_ & <- & _)|[Hne Hk]]; [done|].
    intros Hin. destruct (so_listed _ _ _ _ _ Hok c' k p Hk Hin) as (j & Hj & Ej). rewrite Hp in Hj. injection Hj as <-. apply Hne. unfold c. lia.
  - intros q j k [Hne Hj]%lookup_delete_Some Hk. apply list_lookup_insert_Some in Hk as [(Ec & <- & _)|[Hne2 Hk]]; [|by apply (Hset q j)].
    rewrite <-(Hset q j _ Hj ltac:(rewrite <-Ec; exact Hl)). set_solver.
  - apply (headers_only_trans _ _ m1); [done|]. by apply (headers_only_page _ _ _ p i).
Qed.

Definition without_slot (slabs : gmap Z slab_info) (p : Z) (i : slab_info) : gmap Z slab_info :=
  if decide (Z.of_nat (length i.(i_free)) = i_count i) then delete p slabs else <[p := i]> slabs.
Lemma release_slot_run (s : state) h m slabs lists p i x address : ok m h.(partial_slabs) slabs lists → settled slabs lists → slabs !! p = Some i → used i x →
  ∃ words partial m' lists', let i' := give_slot i words x in
    release_slot p x address (st s h m) = (if decide (Z.of_nat (length i'.(i_free)) = i_count i') then _ ← page_release address 0; statistics_remove_pages 0 else mret tt) (st s (set_partial h partial) m') ∧
    (∀ j, 0 ≤ j → bit words j = if decide (j = x) then false else bit i.(i_words) j) ∧ info_ok i' ∧
    ok m' partial (without_slot slabs p i') lists' ∧ settled (without_slot slabs p i') lists' ∧ same_domain m m' ∧
    ∀ y, (∀ q j, slabs !! q = Some j → ¬ q ≤ y < q + 80) → ¬ slot_at p i.(i_class) x ≤ y < slot_at p i.(i_class) x + 4 → m' !! y = m !! y.
Proof.
  intros Hok Hset Hp Hu. pose proof (so_info _ _ _ _ _ Hok p i Hp) as Hi. destruct (info_count i Hi) as [Hcnt _]. pose proof (used_room i x Hi Hu) as Hroom.
  destruct (give_back_run s h m slabs lists p i x Hok Hp Hu) as (words & v1 & l & nx & pv & m1 & m2 & m3 & Hl & Hn & Hw & Hi' & Ew & Ev & E1 & E2 & E3 & Hok3 & Hd3 & Ho3). set (i' := give_slot i words x) in *.
  destruct (enter_given s h m3 slabs lists p i i' Hok3 Hset Hp eq_refl ltac:(done)) as (partial & m4 & lists4 & E4 & Hok4 & Hs4 & [Hd4 Ho4]).
  assert (Hp' : <[p := i']> slabs !! p = Some i') by apply lookup_insert_eq.
  unfold release_slot. step (read_slab_st s h m p _ (slab_load _ _ _ _ _ Hok p i l nx pv Hp Hl Hn)). cbn [header_of s_slot_count s_free_count s_allocated s_free_head].
  rewrite (ST_lift_bind _ _ _ tt) by (apply trap_if_ok; lia). step Ew. fold (head_of i nx pv). rewrite <-Ev. step E1. step E2.
  assert (Eh : with_slots (head_of i nx pv) words x (u16 (Z.of_nat (length i.(i_free)) + 1)) = head_of i' nx pv).
  { unfold with_slots, header_of, i', give_slot, info_head. cbn. f_equal. unfold u16. rewrite Z.mod_small; lia. }
  rewrite Eh. step E3. step E4. exists words. change (s_free_count (head_of i' nx pv)) with (Z.of_nat (length i'.(i_free))). change (s_slot_count (head_of i' nx pv)) with (i_count i').
  cbv zeta. change (give_slot i words x) with i'. unfold without_slot. destruct (decide (Z.of_nat (length i'.(i_free)) = i_count i')) as [E|E].
  - destruct (retire_run s (set_partial h partial) m4 _ lists4 p i' Hok4 Hs4 Hp' ltac:(done)) as (partial5 & m5 & m6 & v & lists5 & E5 & E6 & E7 & Hok6 & Hs6 & [Hd6 Ho6]).
    rewrite delete_insert_eq in Hok6, Hs6. exists partial5, m6, lists5. split; [step E5; step E6; by step E7|]. split; [done|]. split; [done|]. split; [done|]. split; [done|]. split; [intros y; by rewrite (Hd6 y), (Hd4 y), (Hd3 y)|].
    intros y Hy Hy2. rewrite Ho6; [rewrite Ho4 by done; apply Ho3; [by apply (Hy p i)|done]|]. intros q j [[<- <-]|[Hne Hq]]%lookup_insert_Some; [by apply (Hy p i)|by apply (Hy q j)].
  - exists partial, m4, lists4. split; [done|]. split; [done|]. split; [done|]. split; [done|]. split; [done|]. split; [intros y; by rewrite (Hd4 y), (Hd3 y)|]. intros y Hy Hy2. rewrite Ho4 by done. apply Ho3; [by apply (Hy p i)|done].
Qed.
End slots.
