(* ===== verification/SlabWorldTheory.v ===== *)
(** * The pages of the heap, and the heap with its pages *)
From S2P Require Import Prelude Bytes BootMemory Heap StringOps PhysicalPage PageSpec PageStateTheory PageRefine PageLayTheory PageBootTheory StringCopyTheory PageClaims PageReclaim PageReclaimTheory DirectMap SlabHeap SlabBitsTheory SlabListTheory SlabSlotTheory.
Import BootMemory PhysicalPage PageSpec.
#[local] Open Scope Z_scope.

(** ** Sums *)
Definition sum_map {A} (f : A → Z) (m : gmap Z A) : Z := map_fold (λ _ a n, f a + n) 0 m.
Section sums.
Context {A : Type} (f : A → Z).
Lemma sum_map_empty : sum_map f ∅ = 0.
Proof. apply map_fold_empty. Qed.
Lemma sum_map_insert m k a : m !! k = None → sum_map f (<[k := a]> m) = f a + sum_map f m.
Proof. intros Hk. apply (map_fold_insert_L (λ _ a n, f a + n)); [|done]. intros. lia. Qed.
Lemma sum_map_delete m k a : m !! k = Some a → sum_map f m = f a + sum_map f (delete k m).
Proof. intros Hk. rewrite <-(insert_delete_id m k a Hk) at 1. apply sum_map_insert, lookup_delete_eq. Qed.
Lemma sum_map_replace m k a b : m !! k = Some a → sum_map f (<[k := b]> m) = sum_map f m - f a + f b.
Proof. intros Hk. rewrite <-insert_delete_eq, sum_map_insert by apply lookup_delete_eq. rewrite (sum_map_delete m k a Hk). lia. Qed.
Lemma sum_map_nonneg m : (∀ k a, m !! k = Some a → 0 ≤ f a) → 0 ≤ sum_map f m.
Proof.
  induction m as [|k a m Hk IH] using map_ind; intros Hf; [by rewrite sum_map_empty|]. rewrite sum_map_insert by done.
  pose proof (Hf k a (lookup_insert_eq _ _ _)). assert (0 ≤ sum_map f m); [|lia]. apply IH. intros j b Hj. apply (Hf j). rewrite lookup_insert_ne; [done|]. intros ->. congruence.
Qed.
Lemma sum_map_bound m b : (∀ k a, m !! k = Some a → f a ≤ b) → sum_map f m ≤ b * Z.of_nat (size m).
Proof.
  induction m as [|k a m Hk IH] using map_ind; intros Hf; [rewrite sum_map_empty, map_size_empty; lia|]. rewrite sum_map_insert, map_size_insert_None by done.
  pose proof (Hf k a (lookup_insert_eq _ _ _)). assert (sum_map f m ≤ b * Z.of_nat (size m)); [|lia]. apply IH. intros j c Hj. apply (Hf j). rewrite lookup_insert_ne; [done|]. intros ->. congruence.
Qed.
Lemma sum_map_size m : (∀ k a, m !! k = Some a → 1 ≤ f a) → Z.of_nat (size m) ≤ sum_map f m.
Proof.
  induction m as [|k a m Hk IH] using map_ind; intros Hf; [rewrite sum_map_empty, map_size_empty; lia|]. rewrite sum_map_insert, map_size_insert_None by done.
  pose proof (Hf k a (lookup_insert_eq _ _ _)). assert (Z.of_nat (size m) ≤ sum_map f m); [|lia]. apply IH. intros j c Hj. apply (Hf j). rewrite lookup_insert_ne; [done|]. intros ->. congruence.
Qed.
End sums.

(** ** Blocks of pages *)
Lemma pages_first x o : 0 ≤ o → x ∈ pages_of x o.
Proof. intros Ho. apply elem_of_pages. exists 0. pose proof (pow_pos o Ho). lia. Qed.
Lemma size_pages x o : 0 ≤ o → Z.of_nat (size (pages_of x o)) = 2 ^ o.
Proof.
  intros Ho. unfold pages_of. rewrite size_list_to_set, length_map, length_seqZ; [pose proof (pow_pos o Ho); lia|].
  apply (NoDup_fmap_2_strong (λ i, x + i * BOAROS_PAGE_SIZE)); [|apply NoDup_seqZ]. intros i j _ _. unfold BOAROS_PAGE_SIZE. lia.
Qed.
(** A byte of a block lies in one of its pages. *)
Lemma byte_page x o b : 0 ≤ o → x mod 4096 = 0 → x ≤ b < x + 4096 * 2 ^ o → b / 4096 * 4096 ∈ pages_of x o.
Proof.
  intros Ho Hx Hb. apply elem_of_pages. unfold BOAROS_PAGE_SIZE. exists (b / 4096 - x / 4096). pose proof (Z.div_mod x 4096). pose proof (Z.div_mod b 4096). pose proof (Z.mod_pos_bound b 4096). lia.
Qed.
Lemma bytes_apart x o y k : 0 ≤ o → 0 ≤ k → x mod 4096 = 0 → y mod 4096 = 0 → pages_of x o ## pages_of y k → x + 4096 * 2 ^ o ≤ y ∨ y + 4096 * 2 ^ k ≤ x.
Proof.
  intros Ho Hk Hx Hy Hd. pose proof (pow_pos o Ho). pose proof (pow_pos k Hk). destruct (decide (x + 4096 * 2 ^ o ≤ y)); [by left|]. destruct (decide (y + 4096 * 2 ^ k ≤ x)); [by right|]. exfalso.
  set (b := Z.max x y). apply (Hd (b / 4096 * 4096)); apply byte_page; unfold b; lia.
Qed.
Lemma natural_aligned layout x o : 0 ≤ o → natural layout x o → x mod 4096 = 0.
Proof.
  intros Ho [Hx _]. unfold BOAROS_PAGE_SIZE in Hx. pose proof (pow_pos o Ho). apply Z.mod_divide in Hx as [c ->]; [|lia]. apply Z.mod_divide; [lia|]. exists (c * 2 ^ o). lia.
Qed.
Lemma natural_managed layout x o y : 0 ≤ o → natural layout x o → y ∈ pages_of x o → managed layout y.
Proof.
  intros Ho Hn (i & Hi & ->)%elem_of_pages. pose proof (natural_aligned layout x o Ho Hn) as Ha. destruct Hn as (_ & r & Hr & Hb & Ht). exists r. split; [done|].
  unfold whole_page, PageLayTheory.aligned, BOAROS_PAGE_SIZE in *. split; [|nia]. rewrite Z.mod_add by lia. done.
Qed.

(** Disjoint blocks inside a set have at most its pages. *)
Lemma blocks_bound (at_ : Z → Z) (m : gmap Z Z) : ∀ S, (∀ p o, m !! p = Some o → 0 ≤ o ∧ pages_of (at_ p) o ⊆ S) →
  (∀ p o q k, m !! p = Some o → m !! q = Some k → p ≠ q → pages_of (at_ p) o ## pages_of (at_ q) k) → sum_map (λ o, 2 ^ o) m ≤ Z.of_nat (size S).
Proof.
  induction m as [|p o m Hp IH] using map_ind; intros S Hs Hd; [rewrite sum_map_empty; lia|]. rewrite sum_map_insert by done.
  destruct (Hs p o (lookup_insert_eq _ _ _)) as [Ho Hsub]. rewrite <-(size_pages (at_ p) o Ho). assert (Hne : ∀ q k, m !! q = Some k → q ≠ p) by (intros q k Hq ->; congruence).
  rewrite (union_difference_L (pages_of (at_ p) o) S Hsub), size_union by set_solver. assert (sum_map (λ o, 2 ^ o) m ≤ Z.of_nat (size (S ∖ pages_of (at_ p) o))); [|lia]. apply IH.
  - intros q k Hq. specialize (Hne q k Hq). destruct (Hs q k) as [Hk Hsq]; [by rewrite lookup_insert_ne|]. split; [done|].
    assert (pages_of (at_ p) o ## pages_of (at_ q) k); [|set_solver]. apply Hd; [apply lookup_insert_eq|by rewrite lookup_insert_ne|done].
  - intros q k r j Hq Hr. apply Hd; (rewrite lookup_insert_ne; [done|]); [by apply not_eq_sym, (Hne q k)|by apply not_eq_sym, (Hne r j)].
Qed.
(** All pages of the address space. *)
Definition all_pages : gset Z := list_to_set ((λ i, i * 4096) <$> seqZ 0 (2 ^ 52)).
Lemma size_all_pages : Z.of_nat (size all_pages) ≤ 2 ^ 52.
Proof.
  unfold all_pages. rewrite size_list_to_set by (apply (NoDup_fmap_2_strong (λ i, i * 4096)); [intros; lia|apply NoDup_seqZ]). rewrite length_fmap, length_seqZ. lia.
Qed.
Lemma in_all_pages y : y mod 4096 = 0 → 0 ≤ y ≤ UINT64_MAX → y ∈ all_pages.
Proof.
  intros Hm Hy. unfold all_pages. apply elem_of_list_to_set, list_elem_of_fmap. exists (y / 4096). pose proof (Z.div_mod y 4096). split; [lia|]. apply elem_of_seqZ. unfold UINT64_MAX in Hy. lia.
Qed.

(** ** The pool as a client sees it *)
Record pool_ok (layout : boot_memory_layout) (p : page_spec) : Prop := {
  po_block x o n : p.(sp_blocks) !! x = Some (o, n) → 0 ≤ o ≤ 31 ∧ natural layout x o ∧ pages_of x o ## p.(sp_free);
  po_apart x o n y k m : p.(sp_blocks) !! x = Some (o, n) → p.(sp_blocks) !! y = Some (k, m) → x ≠ y → pages_of x o ## pages_of y k;
}.
Lemma serving_pool layout a : serving layout a → pool_ok layout (spec_of a).
Proof.
  intros Hs. pose proof Hs as [(σ & fl & rs & f & Hp & _) _]. split.
  - intros x o n Hb. destruct (serving_block layout a x o n Hs Hb) as (? & ? & _). split; [done|]. split; [done|]. by apply (held_not_free a σ fl Hp x o n).
  - intros x o n y k m. apply (held_apart a σ fl Hp).
Qed.
Lemma grant_fresh layout p x o : pool_ok layout p → 0 ≤ o → pages_of x o ⊆ p.(sp_free) → p.(sp_blocks) !! x = None.
Proof.
  intros Hp Ho Hf. destruct (p.(sp_blocks) !! x) as [[k n]|] eqn:E; [|done]. destruct (po_block _ _ Hp x k n E) as (? & _ & Hd). destruct (Hd x); [by apply pages_first; lia|by apply Hf, pages_first].
Qed.
Lemma grant_pool layout p x o : pool_ok layout p → 0 ≤ o ≤ 31 → natural layout x o → pages_of x o ⊆ p.(sp_free) → pool_ok layout (grant p x o).
Proof.
  intros Hp Ho Hn Hf. split; unfold grant; cbn [sp_free sp_blocks].
  - intros y k n [[<- [= <- <-]]|[Hne Hy]]%lookup_insert_Some; simpl; [split_and!; try done; set_solver|]. destruct (po_block _ _ Hp y k n Hy) as (? & ? & ?). split_and!; try done; set_solver.
  - intros y k n z j m [[<- [= <- <-]]|[Hne Hy]]%lookup_insert_Some [[<- [= <- <-]]|[Hne' Hz]]%lookup_insert_Some Hyz; [done|..|by apply (po_apart _ _ Hp y k n z j m)].
    + destruct (po_block _ _ Hp z j m Hz) as (_ & _ & ?). set_solver.
    + destruct (po_block _ _ Hp y k n Hy) as (_ & _ & ?). set_solver.
Qed.

(** ** The heap and its pages

    What the heap's data structures mean: the slabs and the large blocks, the
    objects that live in them, and the pages of the page allocator behind them.
    The reclaimer may own objects and pages of its own; [keeps] says that nothing
    else changed. *)
Import Heap StringOps BootMemory PhysicalPage PageSpec PageReclaim DirectMap SlabHeap.

Record ghost := mk_ghost { g_slabs : gmap Z slab_info; g_large : gmap Z Z; g_lists : list (list Z) }.
(** The blocks of the heap, by pointer: slabs are single pages. *)
Definition heap_pages (g : ghost) : gmap Z Z := ((λ _, 0) <$> g.(g_slabs)) ∪ g.(g_large).
Definition used_count (i : slab_info) : Z := i_count i - Z.of_nat (length i.(i_free)).
(** An object and its capacity. *)
Definition in_slot (g : ghost) (q n : Z) : Prop :=
  ∃ p i k, g.(g_slabs) !! p = Some i ∧ used i k ∧ q = slot_at p i.(i_class) k ∧ n = class_size i.(i_class).
Definition in_block (g : ghost) (q n : Z) : Prop := ∃ o, g.(g_large) !! q = Some o ∧ n = BOAROS_PAGE_SIZE * 2 ^ o.
Definition live (g : ghost) (q n : Z) : Prop := in_slot g q n ∨ in_block g q n.

Section world.
Context {ext : Type} (layout : boot_memory_layout) (heap : Z) (Hheap : is_u64 heap).
Context (access : Z → Z) (physical_address : Z → option Z) `{DM : !DirectMap (managed layout) access physical_address}.
(** What the reclaimer owns: objects with their capacity, blocks of pages. *)
Context (own : ext → gmap Z Z) (own_blocks : ext → gmap Z (Z * Z)).
#[local] Abbreviation world := (heap_world ext).
#[local] Abbreviation base := (dm_base (DirectMap := DM)).

(** A block that is not the heap's. *)
Definition foreign (p : page_spec) (g : ghost) (x : Z) (b : Z * Z) : Prop := p.(sp_blocks) !! x = Some b ∧ heap_pages g !! (base + x) = None.

Record heap_ok (w : world) (p : page_spec) (g : ghost) : Prop := {
  hk_slabs : slabs_ok heap w.(w_mem) w.(w_heap).(partial_slabs) g.(g_slabs) g.(g_lists);
  hk_settled : settled g.(g_slabs) g.(g_lists);
  hk_init : heap_initialized w.(w_heap) = true;
  hk_disjoint q i : g.(g_slabs) !! q = Some i → g.(g_large) !! q = None;
  hk_pages q o : heap_pages g !! q = Some o → p.(sp_blocks) !! (q - base) = Some (o, 1);
  hk_mapped y : managed layout y → mapped w.(w_mem) (base + y) 4096;
  hk_pool : pool_ok layout p;
  hk_current : w.(w_heap).(statistics).(current_pages) = sum_map (λ o, 2 ^ o) (heap_pages g);
  hk_live : w.(w_heap).(statistics).(live_allocations) = sum_map used_count g.(g_slabs) + Z.of_nat (size g.(g_large));
  hk_peak : w.(w_heap).(statistics).(current_pages) ≤ w.(w_heap).(statistics).(peak_pages);
  hk_own q n : own w.(w_ext) !! q = Some n → live g q n;
  hk_own_blocks x b : own_blocks w.(w_ext) !! x = Some b → foreign p g x b;
}.

(** What belongs to everyone else: objects and blocks the reclaimer does not own. *)
Definition held (w : world) (g : ghost) (q n : Z) : Prop := live g q n ∧ own w.(w_ext) !! q = None.
Definition lent (w : world) (p : page_spec) (g : ghost) (x : Z) (b : Z * Z) : Prop := foreign p g x b ∧ own_blocks w.(w_ext) !! x = None.
Definition same_bytes (m m' : mem) (a n : Z) : Prop := ∀ x, a ≤ x < a + n → m' !! x = m !! x.
Record keeps (w : world) (p : page_spec) (g : ghost) (w' : world) (p' : page_spec) (g' : ghost) : Prop := {
  kp_held q n : held w' g' q n ↔ held w g q n;
  kp_bytes q n : held w g q n → same_bytes w.(w_mem) w'.(w_mem) q n;
  kp_lent x b : lent w p g x b → lent w' p' g' x b;
  kp_pages x o n : lent w p g x (o, n) → same_bytes w.(w_mem) w'.(w_mem) (base + x) (BOAROS_PAGE_SIZE * 2 ^ o);
}.
Lemma keeps_refl w p g : keeps w p g w p g.
Proof. by split. Qed.
Lemma keeps_trans w1 p1 g1 w2 p2 g2 w3 p3 g3 : keeps w1 p1 g1 w2 p2 g2 → keeps w2 p2 g2 w3 p3 g3 → keeps w1 p1 g1 w3 p3 g3.
Proof.
  intros H1 H2. split.
  - intros q n. by rewrite (kp_held _ _ _ _ _ _ H2), (kp_held _ _ _ _ _ _ H1).
  - intros q n Hq x Hx. rewrite (kp_bytes _ _ _ _ _ _ H2 q n) by (by try apply (kp_held _ _ _ _ _ _ H1)). by apply (kp_bytes _ _ _ _ _ _ H1 q n).
  - intros x b Hb. by apply (kp_lent _ _ _ _ _ _ H2), (kp_lent _ _ _ _ _ _ H1).
  - intros x o n Hb y Hy. rewrite (kp_pages _ _ _ _ _ _ H2 x o n) by (by try apply (kp_lent _ _ _ _ _ _ H1)). by apply (kp_pages _ _ _ _ _ _ H1 x o n).
Qed.

(** An object may be lost and one won, a block of pages spent. *)
Record differs (lost won : option (Z * Z)) (spent : option Z) (w : world) (p : page_spec) (g : ghost) (w' : world) (p' : page_spec) (g' : ghost) : Prop := {
  df_held q n : held w' g' q n ↔ (held w g q n ∧ lost ≠ Some (q, n)) ∨ won = Some (q, n);
  df_fresh q n k : won = Some (q, n) → ¬ held w g q k;
  df_bytes q n : held w g q n → lost ≠ Some (q, n) → same_bytes w.(w_mem) w'.(w_mem) q n;
  df_lent x b : lent w p g x b → spent ≠ Some x → lent w' p' g' x b;
  df_pages x o n : lent w p g x (o, n) → spent ≠ Some x → same_bytes w.(w_mem) w'.(w_mem) (base + x) (BOAROS_PAGE_SIZE * 2 ^ o);
}.
Lemma keeps_differs lost won spent w1 p1 g1 w2 p2 g2 w3 p3 g3 : keeps w1 p1 g1 w2 p2 g2 → differs lost won spent w2 p2 g2 w3 p3 g3 → differs lost won spent w1 p1 g1 w3 p3 g3.
Proof.
  intros H1 H2. split.
  - intros q n. by rewrite (df_held _ _ _ _ _ _ _ _ _ H2), (kp_held _ _ _ _ _ _ H1).
  - intros q n k E. rewrite <-(kp_held _ _ _ _ _ _ H1). by apply (df_fresh _ _ _ _ _ _ _ _ _ H2 q n k).
  - intros q n Hq Hn x Hx. rewrite (df_bytes _ _ _ _ _ _ _ _ _ H2 q n) by (by try apply (kp_held _ _ _ _ _ _ H1)). by apply (kp_bytes _ _ _ _ _ _ H1 q n).
  - intros x b Hb Hs. apply (df_lent _ _ _ _ _ _ _ _ _ H2); [by apply (kp_lent _ _ _ _ _ _ H1)|done].
  - intros x o n Hb Hs y Hy. rewrite (df_pages _ _ _ _ _ _ _ _ _ H2 x o n) by (by try apply (kp_lent _ _ _ _ _ _ H1)). by apply (kp_pages _ _ _ _ _ _ H1 x o n).
Qed.
(** A block that was not lent before does not count. *)
Lemma differs_unspent lost won x w p g w' p' g' : differs lost won (Some x) w p g w' p' g' → (∀ b, ¬ lent w p g x b) → differs lost won None w p g w' p' g'.
Proof.
  intros H Hx. split; try apply H.
  - intros y b Hy _. apply (df_lent _ _ _ _ _ _ _ _ _ H); [done|]. intros [= <-]. by apply (Hx b).
  - intros y o n Hy _. apply (df_pages _ _ _ _ _ _ _ _ _ H y o n); [done|]. intros [= <-]. by apply (Hx (o, n)).
Qed.
Lemma keeps_differ w p g w' p' g' : keeps w p g w' p' g' ↔ differs None None None w p g w' p' g'.
Proof.
  split; intros H; split; try done.
  - intros q n. rewrite (kp_held _ _ _ _ _ _ H). naive_solver.
  - intros q n Hq _. by apply (kp_bytes _ _ _ _ _ _ H).
  - intros x b Hb _. by apply (kp_lent _ _ _ _ _ _ H).
  - intros x o n Hb _. by apply (kp_pages _ _ _ _ _ _ H x o n).
  - intros q n. rewrite (df_held _ _ _ _ _ _ _ _ _ H). naive_solver.
  - intros q n Hq. by apply (df_bytes _ _ _ _ _ _ _ _ _ H).
  - intros x b Hb. by apply (df_lent _ _ _ _ _ _ _ _ _ H).
  - intros x o n Hb. by apply (df_pages _ _ _ _ _ _ _ _ _ H x o n).
Qed.

(** ** The reclaimer's view *)
Definition fine (w : world) (p : page_spec) : Prop := ∃ g, heap_ok w p g.
Definition evolves (w : world) (p : page_spec) (w' : world) (p' : page_spec) : Prop :=
  ∀ g, heap_ok w p g → ∃ g', heap_ok w' p' g' ∧ keeps w p g w' p' g'.

Lemma heap_grant w p g x o : heap_ok w p g → 0 ≤ o ≤ 31 → natural layout x o → pages_of x o ⊆ p.(sp_free) →
  heap_ok w (grant p x o) g ∧ lent w (grant p x o) g x (o, 1) ∧ keeps w p g w (grant p x o) g.
Proof.
  intros Hk Ho Hn Hf. pose proof (grant_fresh layout p x o (hk_pool _ _ _ Hk) ltac:(lia) Hf) as Hx.
  assert (Hold : ∀ y b, p.(sp_blocks) !! y = Some b → (grant p x o).(sp_blocks) !! y = Some b) by (intros y b Hy; simpl; rewrite lookup_insert_ne; [done|intros ->; congruence]).
  assert (Hnew : lent w (grant p x o) g x (o, 1)).
  { split; [split; [apply lookup_insert_eq|]|].
    - destruct (heap_pages g !! (base + x)) as [k|] eqn:E; [|done]. apply (hk_pages _ _ _ Hk) in E. replace (base + x - base) with x in E by lia. congruence.
    - destruct (own_blocks (w_ext w) !! x) as [b|] eqn:E; [|done]. apply (hk_own_blocks _ _ _ Hk) in E as [E _]. congruence. }
  split; [|split; [done|]].
  - destruct Hk. split; try done.
    + intros q k Hq. by apply Hold, hk_pages0.
    + by apply grant_pool.
    + intros y b Hy. destruct (hk_own_blocks0 y b Hy) as [H1 H2]. split; [by apply Hold|done].
  - split; try done. intros y b [[H1 H2] H3]. split; [split; [by apply Hold|done]|done].
Qed.
#[export] Instance heap_growing : Growing layout fine evolves.
Proof.
  split.
  - intros w p g Hk. exists g. split; [done|apply keeps_refl].
  - intros w1 p1 w2 p2 w3 p3 H1 H2 g Hk. destruct (H1 g Hk) as (g2 & Hk2 & K2). destruct (H2 g2 Hk2) as (g3 & Hk3 & K3). exists g3. split; [done|by eapply keeps_trans].
  - intros w p x o [g Hk] Ho Hn Hf. exists g. by apply heap_grant.
Qed.

(** ** Where objects are *)
Lemma slab_page g p i : g.(g_slabs) !! p = Some i → heap_pages g !! p = Some 0.
Proof. intros Hp. unfold heap_pages. apply lookup_union_Some_l. by rewrite lookup_fmap, Hp. Qed.
Section facts.
Context (w : world) (p : page_spec) (g : ghost) (Hk : heap_ok w p g).
Lemma large_page q o : g.(g_large) !! q = Some o → heap_pages g !! q = Some o.
Proof.
  intros Hq. unfold heap_pages. rewrite lookup_union_r; [done|]. rewrite lookup_fmap. destruct (g.(g_slabs) !! q) as [i|] eqn:E; [|done]. pose proof (hk_disjoint _ _ _ Hk q i E). congruence.
Qed.
(** The bytes of a held block. *)
Lemma block_bytes x o n : p.(sp_blocks) !! x = Some (o, n) →
  0 ≤ o ≤ 31 ∧ natural layout x o ∧ (base + x) mod 4096 = 0 ∧ 0 < base + x ∧ base + x + 4096 * 2 ^ o ≤ UINT64_MAX ∧ 0 ≤ x ∧ mapped w.(w_mem) (base + x) (4096 * 2 ^ o) ∧ access x = base + x ∧ physical_address (base + x) = Some x.
Proof.
  intros Hb. destruct (po_block _ _ (hk_pool _ _ _ Hk) x o n Hb) as (Ho & Hn & _). destruct dm_base_ok as [Hb0 Hb1]. change BOAROS_PAGE_SIZE with 4096 in Hb1.
  pose proof (natural_aligned layout x o ltac:(lia) Hn) as Ha. pose proof (pow_pos o ltac:(lia)) as Hpos.
  assert (Hm : ∀ y, y ∈ pages_of x o → managed layout y) by (intros y; apply natural_managed; [lia|done]).
  pose proof (Hm x (pages_first x o ltac:(lia))) as Hx. destruct (dm_access x Hx) as (Eax & Hx0 & Hxu). split; [done|]. split; [done|].
  split; [rewrite Z.add_mod, Hb1, Ha by lia; done|]. split; [lia|]. split; [|split; [done|split; [|split; [done|by apply dm_physical]]]].
  - destruct (dm_access (x + (2 ^ o - 1) * 4096)) as (_ & _ & Hu); [apply Hm, elem_of_pages; exists (2 ^ o - 1); split; [lia|done]|]. unfold BOAROS_PAGE_SIZE in Hu. lia.
  - intros b Hbb. pose proof (byte_page x o (b - base) ltac:(lia) Ha ltac:(lia)) as Hy. apply (hk_mapped _ _ _ Hk _ (Hm _ Hy)).
    pose proof (Z.div_mod (b - base) 4096). pose proof (Z.mod_pos_bound (b - base) 4096). lia.
Qed.
Lemma heap_block q o : heap_pages g !! q = Some o → ∃ x, q = base + x ∧ p.(sp_blocks) !! x = Some (o, 1).
Proof. intros Hq. exists (q - base). split; [lia|by apply (hk_pages _ _ _ Hk)]. Qed.
Lemma blocks_apart x o n y k m : p.(sp_blocks) !! x = Some (o, n) → p.(sp_blocks) !! y = Some (k, m) → x ≠ y → base + x + 4096 * 2 ^ o ≤ base + y ∨ base + y + 4096 * 2 ^ k ≤ base + x.
Proof.
  intros Hx Hy Hne. destruct (po_block _ _ (hk_pool _ _ _ Hk) x o n Hx) as (Ho & Hn & _). destruct (po_block _ _ (hk_pool _ _ _ Hk) y k m Hy) as (Hk' & Hn' & _).
  destruct (bytes_apart x o y k ltac:(lia) ltac:(lia)); [by apply (natural_aligned layout x o); [lia|]|by apply (natural_aligned layout y k); [lia|]|by apply (po_apart _ _ (hk_pool _ _ _ Hk) x o n y k m)|lia|lia].
Qed.
Lemma heap_apart q o q' k : heap_pages g !! q = Some o → heap_pages g !! q' = Some k → q ≠ q' → q + 4096 * 2 ^ o ≤ q' ∨ q' + 4096 * 2 ^ k ≤ q.
Proof. intros (x & -> & Hx)%heap_block (y & -> & Hy)%heap_block Hne. apply (blocks_apart x o 1 y k 1); [done|done|]. intros ->. done. Qed.
Lemma foreign_apart x o n q k : foreign p g x (o, n) → heap_pages g !! q = Some k → base + x + 4096 * 2 ^ o ≤ q ∨ q + 4096 * 2 ^ k ≤ base + x.
Proof. intros [Hx Hnx] Hq. pose proof (heap_block _ _ Hq) as (y & -> & Hy). apply (blocks_apart x o n y k 1); [done|done|]. intros ->. congruence. Qed.

(** An object lies in one block of the heap, behind the header of a slab. *)
Lemma live_block q n : live g q n → ∃ a o, heap_pages g !! a = Some o ∧ a ≤ q ∧ q + n ≤ a + 4096 * 2 ^ o ∧ 0 < n ∧ (∀ i, g.(g_slabs) !! a = Some i → a + 80 ≤ q).
Proof.
  intros [(a & i & k & Ha & [Hku _] & -> & ->)|(o & Hq & ->)].
  - pose proof (so_info _ _ _ _ _ (hk_slabs _ _ _ Hk) a i Ha) as Hi. destruct (slot_inside a i.(i_class) k (io_class _ Hi) Hku). destruct (class_facts _ (io_class _ Hi)) as (? & _).
    exists a, 0. split; [by apply (slab_page g a i)|]. change (2 ^ 0) with 1. split; [lia|]. split; [lia|]. split; [lia|]. intros; lia.
  - exists q, o. pose proof (large_page q o Hq) as Hp. pose proof (heap_block q o Hp) as (x & Ex & Hb). destruct (block_bytes x o 1 Hb) as (Ho & _). pose proof (pow_pos o ltac:(lia)). unfold BOAROS_PAGE_SIZE.
    split; [done|]. split; [lia|]. split; [lia|]. split; [lia|]. intros i Hi. pose proof (hk_disjoint _ _ _ Hk q i Hi). congruence.
Qed.
Lemma live_apart q n q' n' : live g q n → live g q' n' → q ≠ q' → q + n ≤ q' ∨ q' + n' ≤ q.
Proof.
  intros H1 H2 Hne. destruct (live_block q n H1) as (a & o & Ha & ? & ? & ? & _). destruct (live_block q' n' H2) as (a' & o' & Ha' & ? & ? & ? & _).
  destruct (decide (a = a')) as [<-|Hd]; [|destruct (heap_apart a o a' o' Ha Ha' Hd); lia]. rewrite Ha in Ha'. injection Ha' as <-.
  destruct H1 as [(b & i & k & Hb & [Hku _] & -> & ->)|(o1 & Hq & ->)]; destruct H2 as [(b' & i' & k' & Hb' & [Hku' _] & -> & ->)|(o2 & Hq' & ->)].
  - pose proof (so_info _ _ _ _ _ (hk_slabs _ _ _ Hk) b i Hb) as Hi. pose proof (so_info _ _ _ _ _ (hk_slabs _ _ _ Hk) b' i' Hb') as Hi'. destruct (slot_inside b _ k (io_class _ Hi) Hku). destruct (slot_inside b' _ k' (io_class _ Hi') Hku').
    destruct (decide (b = b')) as [<-|Hbb]; [|destruct (heap_apart b 0 b' 0 (slab_page g b i Hb) (slab_page g b' i' Hb') Hbb); simpl in *; lia].
    rewrite Hb in Hb'. injection Hb' as <-. destruct (slot_apart b i.(i_class) k k' (io_class _ Hi)); [lia|lia|by intros ->|lia|lia].
  - pose proof (so_info _ _ _ _ _ (hk_slabs _ _ _ Hk) b i Hb) as Hi. destruct (slot_inside b _ k (io_class _ Hi) Hku). pose proof (hk_disjoint _ _ _ Hk b i Hb).
    destruct (heap_apart b 0 q' o2 (slab_page g b i Hb) (large_page q' o2 Hq')); [by intros <-; congruence|simpl in *; lia|unfold BOAROS_PAGE_SIZE in *; lia].
  - pose proof (so_info _ _ _ _ _ (hk_slabs _ _ _ Hk) b' i' Hb') as Hi'. destruct (slot_inside b' _ k' (io_class _ Hi') Hku'). pose proof (hk_disjoint _ _ _ Hk b' i' Hb').
    destruct (heap_apart b' 0 q o1 (slab_page g b' i' Hb') (large_page q o1 Hq)); [by intros <-; congruence|simpl in *; lia|unfold BOAROS_PAGE_SIZE in *; lia].
  - destruct (heap_apart q o1 q' o2 (large_page q o1 Hq) (large_page q' o2 Hq') Hne); unfold BOAROS_PAGE_SIZE; lia.
Qed.
Lemma live_unique q n n' : live g q n → live g q n' → n = n'.
Proof.
  intros H1 H2. assert (Hslab : ∀ b i k, g.(g_slabs) !! b = Some i → used i k → b + 80 ≤ slot_at b i.(i_class) k ∧ slot_at b i.(i_class) k < b + 4096).
  { intros b i k Hb [Hku _]. pose proof (so_info _ _ _ _ _ (hk_slabs _ _ _ Hk) b i Hb) as Hi. destruct (slot_inside b _ k (io_class _ Hi) Hku). destruct (class_facts _ (io_class _ Hi)) as (? & _). lia. }
  assert (Hmix : ∀ b i k o, g.(g_slabs) !! b = Some i → used i k → g.(g_large) !! slot_at b i.(i_class) k = Some o → False).
  { intros b i k o Hb Hu Hl. destruct (Hslab b i k Hb Hu). pose proof (pow_pos o) as Hpo. destruct (heap_block _ _ (large_page _ _ Hl)) as (x & _ & Hx). destruct (block_bytes x o 1 Hx) as (? & _).
    destruct (heap_apart b 0 _ o (slab_page g b i Hb) (large_page _ _ Hl)); [lia|simpl in *; lia|lia]. }
  destruct H1 as [(b & i & k & Hb & Hu & -> & ->)|(o1 & Hq & ->)]; destruct H2 as [(b' & i' & k' & Hb' & Hu' & E & ->)|(o2 & Hq' & ->)].
  - destruct (Hslab b i k Hb Hu). destruct (Hslab b' i' k' Hb' Hu'). destruct (decide (b = b')) as [<-|Hbb]; [|destruct (heap_apart b 0 b' 0 (slab_page g b i Hb) (slab_page g b' i' Hb') Hbb); simpl in *; lia]. congruence.
  - by destruct (Hmix b i k o2 Hb Hu).
  - subst q. by destruct (Hmix b' i' k' o1 Hb' Hu').
  - congruence.
Qed.
Lemma slot_live r i k n : g.(g_slabs) !! r = Some i → 0 ≤ k < i_count i → live g (slot_at r i.(i_class) k) n → used i k.
Proof.
  intros Hr Hku Hl. pose proof (so_info _ _ _ _ _ (hk_slabs _ _ _ Hk) r i Hr) as Hi. destruct (slot_inside r _ k (io_class _ Hi) Hku). destruct (class_facts _ (io_class _ Hi)) as (? & _).
  destruct (live_block _ n Hl) as (a & o & Ha & ? & ? & ? & _). destruct (decide (r = a)) as [<-|Hne]; [|destruct (heap_apart r 0 a o (slab_page g r i Hr) Ha Hne); simpl in *; lia].
  destruct Hl as [(b & j & k' & Hb & Hu & E & _)|(o1 & Hq & _)].
  - pose proof (so_info _ _ _ _ _ (hk_slabs _ _ _ Hk) b j Hb) as Hj. destruct (slot_inside b _ k' (io_class _ Hj) (proj1 Hu)). destruct (class_facts _ (io_class _ Hj)) as (? & _).
    destruct (decide (r = b)) as [<-|Hbb]; [|destruct (heap_apart r 0 b 0 (slab_page g r i Hr) (slab_page g b j Hb) Hbb); simpl in *; lia].
    rewrite Hr in Hb. injection Hb as <-. destruct (decide (k = k')) as [->|Hkk]; [done|]. destruct Hu as [Hu _]. destruct (slot_apart r i.(i_class) k k' (io_class _ Hi)); lia.
  - destruct (heap_apart r 0 _ o1 (slab_page g r i Hr) (large_page _ _ Hq)); [lia|simpl in *; lia|]. pose proof (heap_block _ _ (large_page _ _ Hq)) as (x & _ & Hx). destruct (block_bytes x o1 1 Hx) as (? & _). pose proof (pow_pos o1). lia.
Qed.
Lemma live_no_header q n x r j : live g q n → q ≤ x < q + n → g.(g_slabs) !! r = Some j → ¬ r ≤ x < r + 80.
Proof.
  intros Hl Hx Hr. destruct (live_block q n Hl) as (a & o & Ha & ? & ? & ? & Hs). destruct (decide (r = a)) as [->|Hne]; [specialize (Hs j Hr); lia|].
  destruct (heap_apart r 0 a o (slab_page g r j Hr) Ha Hne); simpl in *; lia.
Qed.
Lemma foreign_no_slab x o n y r j : foreign p g x (o, n) → base + x ≤ y < base + x + BOAROS_PAGE_SIZE * 2 ^ o → g.(g_slabs) !! r = Some j → ¬ r ≤ y < r + 4096.
Proof. intros Hf Hy Hr. unfold BOAROS_PAGE_SIZE in Hy. destruct (foreign_apart x o n r 0 Hf (slab_page g r j Hr)); simpl in *; lia. Qed.

(** ** The statistics do not overflow *)
Lemma pages_bound : sum_map (λ o, 2 ^ o) (heap_pages g) ≤ 2 ^ 52.
Proof.
  etrans; [|apply size_all_pages]. apply (blocks_bound (λ q, q - base)).
  - intros q o Hq. pose proof (hk_pages _ _ _ Hk q o Hq) as Hb. destruct (block_bytes _ _ _ Hb) as (Ho & Hn & _ & _ & Hu & H0 & _). split; [lia|].
    pose proof (natural_aligned layout _ o ltac:(lia) Hn) as Ha. destruct dm_base_ok as [Hb0 _]. pose proof (pow_pos o ltac:(lia)).
    intros y (i & Hi & ->)%elem_of_pages. unfold BOAROS_PAGE_SIZE. apply in_all_pages; [rewrite Z.mod_add by lia; done|nia].
  - intros q o q' k Hq Hq' Hne. apply (po_apart _ _ (hk_pool _ _ _ Hk) _ o 1 _ k 1); [by apply (hk_pages _ _ _ Hk)|by apply (hk_pages _ _ _ Hk)|lia].
Qed.
Lemma used_count_bounds q i : g.(g_slabs) !! q = Some i → 0 ≤ used_count i ≤ 251.
Proof. intros Hq. pose proof (so_info _ _ _ _ _ (hk_slabs _ _ _ Hk) q i Hq) as Hi. destruct (info_free i Hi). destruct (info_count i Hi). unfold used_count. lia. Qed.
Lemma heap_page_order q o : heap_pages g !! q = Some o → 0 ≤ o ≤ 31.
Proof. intros Hq. by destruct (block_bytes _ _ _ (hk_pages _ _ _ Hk q o Hq)) as (? & _). Qed.
Lemma live_bound : 0 ≤ w.(w_heap).(statistics).(live_allocations) ≤ 252 * 2 ^ 52.
Proof.
  rewrite (hk_live _ _ _ Hk). pose proof pages_bound as Hb. assert (Hs : Z.of_nat (size (heap_pages g)) ≤ sum_map (λ o, 2 ^ o) (heap_pages g)).
  { apply sum_map_size. intros q o Hq. pose proof (heap_page_order q o Hq). pose proof (pow_pos o). lia. }
  assert (H1 : (size g.(g_slabs) ≤ size (heap_pages g))%nat).
  { rewrite <-!size_dom. apply subseteq_size. intros q [i Hq]%elem_of_dom. apply elem_of_dom. eexists. by apply (slab_page g q i). }
  assert (H2 : (size g.(g_large) ≤ size (heap_pages g))%nat).
  { rewrite <-!size_dom. apply subseteq_size. intros q [o Hq]%elem_of_dom. apply elem_of_dom. eexists. by apply large_page. }
  pose proof (sum_map_bound used_count g.(g_slabs) 251 (λ q i Hq, proj2 (used_count_bounds q i Hq))). pose proof (sum_map_nonneg used_count g.(g_slabs) (λ q i Hq, proj1 (used_count_bounds q i Hq))). lia.
Qed.
End facts.

(** ** Pages for the heap *)
Context (rounds : world → nat) (hooks : physical_page_reclaim_hooks world) (Hhooks : hooks_ok layout fine evolves rounds hooks).
#[local] Abbreviation state := (page_system world).
#[local] Abbreviation pool s := (spec_of s.(sy_allocator)).
Definition good (s : state) (g : ghost) : Prop := serving layout s.(sy_allocator) ∧ s.(sy_hooks) = hooks ∧ heap_ok s.(sy_world) (pool s) g.
Definition same (s : state) (g : ghost) (s' : state) (g' : ghost) : Prop := keeps s.(sy_world) (pool s) g s'.(sy_world) (pool s') g'.
Lemma page_allocate_run (s : state) g order : good s g → 0 ≤ order ≤ 31 →
  ∃ status address s' g', page_allocate rounds order s = Done ((status, address), s') ∧ good s' g' ∧ same s g s' g' ∧
    ((status = PHYSICAL_PAGE_STATUS_EMPTY ∧ address = None ∧ none_free layout order (pool s)) ∨
     (∃ x, status = PHYSICAL_PAGE_STATUS_OK ∧ address = Some x ∧ lent s'.(sy_world) (pool s') g' x (order, 1) ∧ ∀ b, ¬ lent s.(sy_world) (pool s) g x b)).
Proof.
  intros (Hs & Hh & Hk) Ho. unfold page_allocate. assert (Hr : ready layout fine s.(sy_world) s.(sy_allocator)) by (split; [done|by exists g]).
  destruct (allocate_order_run layout fine evolves rounds hooks Hhooks order s Hh Hr Ho) as (status & address & s' & -> & [Hb _] & [[Hs' _] (w & p & p' & H1 & (a1 & Ep & Hs1 & _) & Ha & H2)] & He).
  cbn [mbind outcome_bind]. destruct (H1 g Hk) as (g1 & Hk1 & K1). destruct Ha as [(-> & -> & -> & Hno)|(x & -> & -> & Hn & Hf & ->)].
  - destruct (H2 g1 Hk1) as (g2 & Hk2 & K2). exists PHYSICAL_PAGE_STATUS_EMPTY, None, s', g2. split; [done|]. split; [split; [done|split; [congruence|done]]|]. split; [by eapply keeps_trans|]. left. split; [done|]. split; [done|by apply He].
  - destruct (heap_grant w p g1 x order Hk1 Ho Hn Hf) as (Hkg & Hl & Kg). destruct (H2 g1 Hkg) as (g2 & Hk2 & K2). exists PHYSICAL_PAGE_STATUS_OK, (Some x), s', g2. split; [done|]. split; [split; [done|split; [congruence|done]]|].
    split; [eapply keeps_trans; [exact K1|]; by eapply keeps_trans|]. right. exists x. split; [done|]. split; [done|]. split; [by apply (kp_lent _ _ _ _ _ _ K2)|].
    intros b Hlb. apply (kp_lent _ _ _ _ _ _ K1) in Hlb as [[Hlb _] _]. rewrite (grant_fresh layout p x order (hk_pool _ _ _ Hk1)) in Hlb; [done|lia|done].
Qed.
End world.

Arguments large_page {ext layout heap access physical_address DM own own_blocks w p g} _.
Arguments block_bytes {ext layout heap access physical_address DM own own_blocks w p g} _.
Arguments heap_block {ext layout heap access physical_address DM own own_blocks w p g} _.
Arguments blocks_apart {ext layout heap access physical_address DM own own_blocks w p g} _.
Arguments heap_apart {ext layout heap access physical_address DM own own_blocks w p g} _.
Arguments foreign_apart {ext layout heap access physical_address DM own own_blocks w p g} _.
Arguments live_block {ext layout heap access physical_address DM own own_blocks w p g} _.
Arguments live_apart {ext layout heap access physical_address DM own own_blocks w p g} _.
Arguments live_unique {ext layout heap access physical_address DM own own_blocks w p g} _.
Arguments slot_live {ext layout heap access physical_address DM own own_blocks w p g} _.
Arguments live_no_header {ext layout heap access physical_address DM own own_blocks w p g} _.
Arguments foreign_no_slab {ext layout heap access physical_address DM own own_blocks w p g} _.
Arguments pages_bound {ext layout heap access physical_address DM own own_blocks w p g} _.
Arguments used_count_bounds {ext layout heap access physical_address DM own own_blocks w p g} _.
Arguments heap_page_order {ext layout heap access physical_address DM own own_blocks w p g} _.
Arguments live_bound {ext layout heap access physical_address DM own own_blocks w p g} _.
Arguments hk_slabs {ext layout heap access physical_address DM own own_blocks w p g} _.
Arguments hk_settled {ext layout heap access physical_address DM own own_blocks w p g} _.
Arguments hk_init {ext layout heap access physical_address DM own own_blocks w p g} _.
Arguments hk_disjoint {ext layout heap access physical_address DM own own_blocks w p g} _.
Arguments hk_pages {ext layout heap access physical_address DM own own_blocks w p g} _.
Arguments hk_mapped {ext layout heap access physical_address DM own own_blocks w p g} _.
Arguments hk_pool {ext layout heap access physical_address DM own own_blocks w p g} _.
Arguments hk_current {ext layout heap access physical_address DM own own_blocks w p g} _.
Arguments hk_live {ext layout heap access physical_address DM own own_blocks w p g} _.
Arguments hk_peak {ext layout heap access physical_address DM own own_blocks w p g} _.
Arguments hk_own {ext layout heap access physical_address DM own own_blocks w p g} _.
Arguments hk_own_blocks {ext layout heap access physical_address DM own own_blocks w p g} _.
Arguments kp_held {ext layout access physical_address DM own own_blocks w p g w' p' g'} _.
Arguments kp_bytes {ext layout access physical_address DM own own_blocks w p g w' p' g'} _.
Arguments kp_lent {ext layout access physical_address DM own own_blocks w p g w' p' g'} _.
Arguments kp_pages {ext layout access physical_address DM own own_blocks w p g w' p' g'} _.
Arguments df_held {ext layout access physical_address DM own own_blocks lost won spent w p g w' p' g'} _.
Arguments df_fresh {ext layout access physical_address DM own own_blocks lost won spent w p g w' p' g'} _.
Arguments df_bytes {ext layout access physical_address DM own own_blocks lost won spent w p g w' p' g'} _.
Arguments df_lent {ext layout access physical_address DM own own_blocks lost won spent w p g w' p' g'} _.
Arguments df_pages {ext layout access physical_address DM own own_blocks lost won spent w p g w' p' g'} _.
