(* ===== verification/SlabHeapTheory.v ===== *)
(** * The operations of the heap

    What each operation does to the objects, from any state that satisfies the
    invariant: one object more or one less, the rest with its bytes, the pages of
    others untouched. *)
From S2P Require Import Prelude Bytes BootMemory Heap StringOps StringCopyTheory PhysicalPage PageSpec PageStateTheory PageRefine PageClaims PageReclaim PageReclaimTheory DirectMap SlabHeap SlabBitsTheory SlabListTheory SlabSlotTheory SlabWorldTheory.
Import Heap StringOps BootMemory PhysicalPage PageSpec PageReclaim DirectMap SlabHeap.
#[local] Open Scope Z_scope.

(** ** Sizes *)
Lemma class_search_spec steps : ∀ size index, 0 ≤ index →
  ∃ i, class_search steps size (16 * 2 ^ index) index = (16 * 2 ^ i, i) ∧ index ≤ i ≤ index + Z.of_nat steps ∧ (16 * 2 ^ i < size → i = index + Z.of_nat steps) ∧ (i = index ∨ 16 * 2 ^ (i - 1) < size).
Proof.
  induction steps as [|steps IH]; intros size index Hi; cbn [class_search]; [exists index; split; [done|]; split; [lia|]; split; [lia|by left]|].
  case_decide as Hc; [|exists index; split; [done|]; split; [lia|]; split; [lia|by left]].
  rewrite Z.shiftl_mul_pow2 by lia. replace (16 * 2 ^ index * 2 ^ 1) with (16 * 2 ^ (index + 1)) by (rewrite Z.pow_add_r by lia; lia).
  destruct (IH size (index + 1) ltac:(lia)) as (i & E & H1 & H2 & H3). exists i. split; [done|]. split; [lia|]. split; [lia|]. right. destruct H3 as [->|?]; [|done]. by replace (index + 1 - 1) with index by lia.
Qed.
(** The smallest class the size fits in. *)
Lemma small_class_spec size : 0 < size →
  match small_class_for_size size with
  | Some c => 0 ≤ c < 8 ∧ size ≤ class_size c ∧ (c = 0 ∨ class_size (c - 1) < size)
  | None => 2048 < size
  end.
Proof.
  intros Hs. unfold small_class_for_size. destruct (class_search_spec 7 size 0 ltac:(lia)) as (i & E & H1 & H2 & H3). change (16 * 2 ^ 0) with 16 in E.
  change (pred KERNEL_HEAP_SIZE_CLASS_COUNT) with 7%nat. change (Z.shiftl 1 KERNEL_HEAP_MIN_CLASS_SHIFT) with 16. rewrite E. cbv iota beta. case_decide as Hd.
  - rewrite (H2 Hd) in Hd. change (16 * 2 ^ (0 + Z.of_nat 7)) with 2048 in Hd. done.
  - destruct (class_facts i ltac:(lia)) as (_ & Ec & _). split; [lia|]. split; [lia|]. destruct H3 as [?|H3]; [by left|]. destruct (decide (i = 0)); [by left|right]. by destruct (class_facts (i - 1) ltac:(lia)) as (_ & -> & _).
Qed.
Lemma order_search_spec steps : ∀ pages result, 0 ≤ result →
  ∃ o, order_search steps pages (2 ^ result) result = (2 ^ o, o) ∧ result ≤ o ≤ result + Z.of_nat steps ∧ (2 ^ o < pages → o = result + Z.of_nat steps) ∧ (o = result ∨ 2 ^ (o - 1) < pages).
Proof.
  induction steps as [|steps IH]; intros pages result Hi; cbn [order_search]; [exists result; split; [done|]; split; [lia|]; split; [lia|by left]|].
  case_decide as Hc; [|exists result; split; [done|]; split; [lia|]; split; [lia|by left]].
  rewrite Z.shiftl_mul_pow2 by lia. replace (2 ^ result * 2 ^ 1) with (2 ^ (result + 1)) by (by rewrite Z.pow_add_r by lia).
  destruct (IH pages (result + 1) ltac:(lia)) as (o & E & H1 & H2 & H3). exists o. split; [done|]. split; [lia|]. split; [lia|]. right. destruct H3 as [->|?]; [|done]. by replace (result + 1 - 1) with result by lia.
Qed.
(** The smallest order the size fits in. *)
Lemma allocation_order_spec size : is_u64 size → 0 < size →
  match allocation_order_for_size size with
  | Some o => 0 ≤ o ≤ 31 ∧ size ≤ 4096 * 2 ^ o ∧ (o = 0 ∨ 4096 * 2 ^ (o - 1) < size)
  | None => 4096 * 2 ^ 31 < size
  end.
Proof.
  intros Hu Hs. unfold allocation_order_for_size. case_decide as Hd.
  { destruct Hd as [?|Hd]; [lia|]. unfold BOAROS_PAGE_MASK in Hd. change (4096 * 2 ^ 31) with 8796093022208. mlia. }
  assert (Ep : Z.shiftr (size + BOAROS_PAGE_MASK) BOAROS_PAGE_SHIFT = (size + 4095) / 4096) by (by rewrite Z.shiftr_div_pow2). rewrite Ep. set (n := (size + 4095) / 4096).
  assert (Hn : 4096 * n < size + 4096 ∧ size ≤ 4096 * n) by (unfold n; pose proof (Z.div_mod (size + 4095) 4096); pose proof (Z.mod_pos_bound (size + 4095) 4096); lia).
  destruct (order_search_spec 31 n 0 ltac:(lia)) as (o & E & H1 & H2 & H3). change (2 ^ 0) with 1 in E. change PHYSICAL_PAGE_MAX_ORDER with 31%nat. rewrite E. cbv iota beta. case_decide as Hc.
  - rewrite (H2 Hc) in Hc. change (0 + Z.of_nat 31) with 31 in Hc. lia.
  - split; [lia|]. split; [lia|]. destruct H3 as [?|?]; [by left|right]. lia.
Qed.

(** ** Ghosts with one slab changed *)
Definition with_slab (g : ghost) (p : Z) (i : slab_info) (lists : list (list Z)) : ghost := mk_ghost (<[p := i]> g.(g_slabs)) g.(g_large) lists.
Lemma heap_pages_slab g p i j lists : g.(g_slabs) !! p = Some i → heap_pages (with_slab g p j lists) = heap_pages g.
Proof.
  intros Hp. unfold heap_pages. cbn [with_slab g_slabs g_large]. f_equal. rewrite fmap_insert. apply insert_id. by rewrite lookup_fmap, Hp.
Qed.
Lemma live_with g p i lists r k : live (with_slab g p i lists) r k ↔
  in_block g r k ∨ (∃ q j x, q ≠ p ∧ g.(g_slabs) !! q = Some j ∧ used j x ∧ r = slot_at q j.(i_class) x ∧ k = class_size j.(i_class)) ∨
  (∃ x, used i x ∧ r = slot_at p i.(i_class) x ∧ k = class_size i.(i_class)).
Proof.
  unfold live at 1, in_slot. cbn [with_slab g_slabs]. split.
  - intros [(q & j & x & [[<- <-]|[Hne Hq]]%lookup_insert_Some & Hu & -> & ->)|Hb]; [right; right; by exists x|right; left; by exists q, j, x|by left].
  - intros [Hb|[(q & j & x & Hne & Hq & Hu & -> & ->)|(x & Hu & -> & ->)]]; [by right|left; exists q, j, x; by rewrite lookup_insert_ne|left; exists p, i, x; by rewrite lookup_insert_eq].
Qed.
Lemma live_take g p i i' lists x : g.(g_slabs) !! p = Some i → i'.(i_class) = i.(i_class) → (∀ j, used i' j ↔ used i j ∨ j = x) →
  ∀ r k, live (with_slab g p i' lists) r k ↔ live g r k ∨ (r = slot_at p i.(i_class) x ∧ k = class_size i.(i_class)).
Proof.
  intros Hp Hc Hu r k. rewrite live_with, Hc. split.
  - intros [Hb|[(q & j & y & Hne & Hq & Hy & -> & ->)|(y & [Hy| ->]%Hu & -> & ->)]]; [left; by right|left; left; by exists q, j, y|left; left; by exists p, i, y|by right].
  - intros [[(q & j & y & Hq & Hy & -> & ->)|Hb]|[-> ->]]; [|by left|right; right; exists x; split; [apply Hu; by right|done]].
    destruct (decide (q = p)) as [->|Hne]; [rewrite Hp in Hq; injection Hq as <-; right; right; exists y; split; [apply Hu; by left|done]|right; left; by exists q, j, y].
Qed.

Section ops.
Context {ext : Type} (layout : boot_memory_layout) (heap : Z) (Hheap : is_u64 heap).
Context (access : Z → Z) (physical_address : Z → option Z) `{DM : !DirectMap (managed layout) access physical_address}.
Context (own : ext → gmap Z Z) (own_blocks : ext → gmap Z (Z * Z)).
#[local] Abbreviation world := (heap_world ext).
#[local] Abbreviation state := (page_system world).
#[local] Abbreviation base := (dm_base (DirectMap := DM)).
#[local] Abbreviation ok := (heap_ok layout heap access physical_address own own_blocks).
Context (rounds : world → nat) (hooks : physical_page_reclaim_hooks world).
Context (Hhooks : hooks_ok layout (fine layout heap access physical_address own own_blocks) (evolves layout heap access physical_address own own_blocks) rounds hooks).
#[local] Abbreviation pool s := (spec_of s.(sy_allocator)).
#[local] Abbreviation good := (SlabWorldTheory.good layout heap access physical_address own own_blocks hooks).
#[local] Abbreviation change lost won spent s g s' g' := (differs layout access physical_address own own_blocks lost won spent s.(sy_world) (pool s) g s'.(sy_world) (pool s') g').

(** Only the structures of the heap were written. *)
Lemma only_headers w p g m' : ok w p g → headers_only g.(g_slabs) w.(w_mem) m' →
  (∀ q n, live g q n → same_bytes w.(w_mem) m' q n) ∧ ∀ x o n, foreign layout access physical_address p g x (o, n) → same_bytes w.(w_mem) m' (base + x) (BOAROS_PAGE_SIZE * 2 ^ o).
Proof.
  intros Hk [_ Ho]. split.
  - intros q n Hl x Hx. apply Ho. intros r j Hr. by apply (live_no_header Hk q n x r j).
  - intros x o n Hf y Hy. apply Ho. intros r j Hr Hin. apply (foreign_no_slab Hk x o n y r j Hf Hy Hr). lia.
Qed.

(** One slab and the number of objects changed. *)
Lemma ok_with_slab w p g r i i' lists partial n m' : ok w p g → g.(g_slabs) !! r = Some i → slabs_ok heap m' partial (<[r := i']> g.(g_slabs)) lists → settled (<[r := i']> g.(g_slabs)) lists →
  same_domain w.(w_mem) m' → n = w.(w_heap).(statistics).(live_allocations) - used_count i + used_count i' → (∀ q k, own w.(w_ext) !! q = Some k → live (with_slab g r i' lists) q k) →
  ok (mk_world (set_statistics (set_partial w.(w_heap) partial) (set_live w.(w_heap).(statistics) n)) m' w.(w_ext)) p (with_slab g r i' lists).
Proof.
  intros Hk Hr Hok Hset Hd -> Hown. pose proof (heap_pages_slab g r i i' lists Hr) as Hpg.
  split; cbn [w_heap w_mem w_ext set_statistics set_partial statistics set_live current_pages peak_pages live_allocations g_slabs g_large with_slab g_lists partial_slabs]; try done.
  - by apply (hk_init Hk).
  - intros q j [[<- <-]|[Hne Hq]]%lookup_insert_Some; [by apply (hk_disjoint Hk r i)|by apply (hk_disjoint Hk q j)].
  - intros q o. rewrite Hpg. apply (hk_pages Hk).
  - intros y Hy. eapply mapped_same_domain; [exact Hd|by apply (hk_mapped Hk)].
  - by apply (hk_pool Hk).
  - rewrite Hpg. by apply (hk_current Hk).
  - rewrite (sum_map_replace _ _ _ _ _ Hr), (hk_live Hk). lia.
  - by apply (hk_peak Hk).
  - intros y b Hy. destruct (hk_own_blocks Hk y b Hy) as [H1 H2]. split; [done|by rewrite Hpg].
Qed.

(** ** A slot taken *)
Lemma take_used i x l words : i.(i_free) = x :: l → info_ok i → (∀ j, 0 ≤ j → bit words j = if decide (j = x) then true else bit i.(i_words) j) →
  (∀ j, used (take_slot i words) j ↔ used i j ∨ j = x) ∧ used_count (take_slot i words) = used_count i + 1.
Proof.
  intros Ef Hi Hb. destruct (io_free _ Hi) as [_ Hf]. destruct (proj1 (Hf x) ltac:(rewrite Ef; left)) as [Hx _]. unfold used, used_count. change (i_count (take_slot i words)) with (i_count i). cbn [take_slot i_words i_free]. split.
  - intros j. destruct (decide (0 ≤ j)) as [Hj|]; [|split; [lia|intros [?| ->]; lia]]. rewrite Hb by done. case_decide; naive_solver.
  - rewrite Ef. cbn [tail length]. lia.
Qed.
Lemma slot_taken (s : state) g p i x l : good s g → g.(g_slabs) !! p = Some i → i.(i_free) = x :: l →
  ∃ s' g', slab_allocate_slot heap p i.(i_class) s = Done ((KERNEL_HEAP_STATUS_OK, slot_at p i.(i_class) x), s') ∧ good s' g' ∧
    change None (Some (slot_at p i.(i_class) x, class_size i.(i_class))) None s g s' g'.
Proof.
  intros (Hs & Hh & Hk) Hp Ef. destruct s as [a hk re [h m e]]. cbn [sy_allocator sy_hooks sy_world] in *. subst hk. pose proof (so_info _ _ _ _ _ (hk_slabs Hk) p i Hp) as Hi.
  set (s := mk_system a hooks re (mk_world h m e)).
  destruct (slab_allocate_slot_run heap Hheap s h m _ _ p i x l (hk_slabs Hk) (hk_settled Hk) Hp Ef) as (h' & m' & words & lists' & E & Hb & Hi' & Hok' & Hset' & Eh & Hho).
  destruct (take_used i x l words Ef Hi Hb) as [Hu Hcnt]. set (i' := take_slot i words) in *. set (q := slot_at p i.(i_class) x) in *. set (g' := with_slab g p i' lists').
  pose proof (live_take g p i i' lists' x Hp eq_refl Hu) as Hlive. fold g' q in Hlive. destruct (io_free _ Hi) as [_ Hf]. destruct (proj1 (Hf x) ltac:(rewrite Ef; left)) as [Hx Hx0].
  assert (Hfresh : ∀ k, ¬ live g q k) by (intros k Hl; destruct (slot_live Hk p i x k Hp Hx Hl) as [_ ?]; congruence).
  assert (Hown : own e !! q = None) by (destruct (own e !! q) as [n|] eqn:E1; [by apply (hk_own Hk) in E1; apply Hfresh in E1|done]).
  assert (Hpg : heap_pages g' = heap_pages g) by (by apply (heap_pages_slab g p i)). destruct (only_headers _ _ g m' Hk Hho) as [Hbl Hbf]. pose proof (live_bound Hk) as Hlb. cbn [w_heap w_mem w_ext] in *.
  exists (st s h' m'), g'. split; [done|]. split; [split; [done|split; [done|]]|].
  - cbn [st set_world sy_world sy_allocator]. rewrite Eh. rewrite u64_small by mlia. destruct Hho as [Hd _].
    apply (ok_with_slab (mk_world h m e) _ g p i i' lists' h'.(partial_slabs) _ m' Hk Hp Hok' Hset' Hd); [cbn [w_heap]; lia|]. intros r n Hr. apply Hlive. left. by apply (hk_own Hk).
  - split; cbn [st set_world sy_world sy_allocator w_mem w_ext w_heap].
    + intros r n. unfold held. cbn [w_ext]. rewrite Hlive. split; [intros [[?|[-> ->]] ?]; [by left|by right]|intros [[[? ?] _]|[= <- <-]]; [split; [by left|done]|split; [by right|done]]].
    + intros r n k [= <- <-] [Hl _]. by apply (Hfresh k).
    + intros r n [Hl _] _. by apply Hbl.
    + intros y b [[H1 H2] H3] _. split; [split; [done|by rewrite Hpg]|done].
    + intros y o n [Hfo _] _. by apply (Hbf y o n).
Qed.

(** ** A block enters the heap *)
Definition more_pages (t : kernel_heap_statistics) (order : Z) : kernel_heap_statistics :=
  let current := u64 (t.(current_pages) + Z.shiftl 1 order) in set_pages t current (if decide (t.(peak_pages) < current) then current else t.(peak_pages)).
Lemma statistics_add_pages_st (s : state) h m order : statistics_add_pages order (st s h m) = Done (tt, st s (set_statistics h (more_pages h.(statistics) order)) m).
Proof. done. Qed.
Lemma more_pages_spec w p g order : ok w p g → 0 ≤ order ≤ 31 → let t := more_pages w.(w_heap).(statistics) order in
  t.(current_pages) = sum_map (λ o, 2 ^ o) (heap_pages g) + 2 ^ order ∧ t.(current_pages) ≤ t.(peak_pages) ∧ t.(live_allocations) = w.(w_heap).(statistics).(live_allocations).
Proof.
  intros Hk Ho. unfold more_pages. cbn [set_pages current_pages peak_pages live_allocations]. pose proof (pages_bound Hk) as Hb. pose proof (hk_current Hk) as Hc.
  assert (H0 : 0 ≤ sum_map (λ o, 2 ^ o) (heap_pages g)) by (apply sum_map_nonneg; intros q o Hq; pose proof (heap_page_order Hk q o Hq); pose proof (pow_pos o); lia).
  pose proof (pow_pos order ltac:(lia)). assert (2 ^ order ≤ 2 ^ 31) by (apply Z.pow_le_mono_r; lia). change (2 ^ 31) with 2147483648 in *. change (2 ^ 52) with 4503599627370496 in *.
  rewrite Z.shiftl_1_l, u64_small by mlia. rewrite Hc. split; [done|]. split; [|done]. case_decide; lia.
Qed.
(** The ghost with one more block. *)
Lemma ok_add_block w p g x o g' m' h' : ok w p g → lent layout access physical_address own_blocks w p g x (o, 1) → 0 ≤ o ≤ 31 → heap_pages g' = <[base + x := o]> (heap_pages g) →
  slabs_ok heap m' h'.(partial_slabs) g'.(g_slabs) g'.(g_lists) → settled g'.(g_slabs) g'.(g_lists) → heap_initialized h' = true → same_domain w.(w_mem) m' →
  (∀ q i, g'.(g_slabs) !! q = Some i → g'.(g_large) !! q = None) → h'.(statistics).(current_pages) = (more_pages w.(w_heap).(statistics) o).(current_pages) → h'.(statistics).(peak_pages) = (more_pages w.(w_heap).(statistics) o).(peak_pages) →
  h'.(statistics).(live_allocations) = sum_map used_count g'.(g_slabs) + Z.of_nat (size g'.(g_large)) → (∀ q k, live g q k → live g' q k) → ok (mk_world h' m' w.(w_ext)) p g'.
Proof.
  intros Hk [[Hb Hn] Hnot] Ho Hpg Hok Hset Hi Hd Hdis Ec Ep El Hlive. destruct (more_pages_spec w p g o Hk Ho) as (H1 & H2 & _).
  split; cbn [w_heap w_mem w_ext]; try done.
  - intros q k. rewrite Hpg. intros [[<- <-]|[_ Hq]]%lookup_insert_Some; [by replace (base + x - base) with x by lia|by apply (hk_pages Hk)].
  - intros y Hy. eapply mapped_same_domain; [exact Hd|by apply (hk_mapped Hk)].
  - by apply (hk_pool Hk).
  - rewrite Hpg, sum_map_insert by done. rewrite Ec, H1. lia.
  - lia.
  - intros q k Hq. by apply Hlive, (hk_own Hk).
  - intros y b Hy. destruct (hk_own_blocks Hk y b Hy) as [Hf1 Hf2]. split; [done|]. rewrite Hpg, lookup_insert_ne; [done|]. intros E. assert (y = x) as -> by lia. congruence.
Qed.
(** Other blocks stay as they were. *)
Lemma lent_others w p g g' x o h' m' : heap_pages g' = <[base + x := o]> (heap_pages g) →
  ∀ y b, lent layout access physical_address own_blocks w p g y b → Some x ≠ Some y → lent layout access physical_address own_blocks (mk_world h' m' w.(w_ext)) p g' y b.
Proof. intros Hpg y b [[H1 H2] H3] Hne. split; [split; [done|]|done]. rewrite Hpg, lookup_insert_ne; [done|]. intros E. apply Hne. f_equal. lia. Qed.

Lemma slab_made (s : state) g x c : good s g → lent layout access physical_address own_blocks s.(sy_world) (pool s) g x (0, 1) → 0 ≤ c < 8 →
  ∃ m1 s' g', (_ ← write_slab (base + x) (new_slab heap c (slot_count_of c)); link_slots (Z.to_nat (slot_count_of c)) (base + x) (new_slab heap c (slot_count_of c)) (slot_count_of c) 0) s = Done (tt, st s s.(sy_world).(w_heap) m1) ∧
    (_ ← partial_insert (base + x); statistics_add_pages 0) (st s s.(sy_world).(w_heap) m1) = Done (tt, s') ∧ good s' g' ∧ g'.(g_slabs) !! (base + x) = Some (fresh_info c) ∧ change None None (Some x) s g s' g'.
Proof.
  intros (Hs & Hh & Hk) Hl Hc. destruct s as [a hk re [h m e]]. cbn [sy_allocator sy_hooks sy_world w_heap] in *. subst hk. set (s := mk_system a hooks re (mk_world h m e)). set (p := base + x).
  pose proof Hl as [[Hb Hn] Hown]. destruct (block_bytes Hk x 0 1 Hb) as (_ & _ & Ha & H0 & Hu & _ & Hm & _). change (4096 * 2 ^ 0) with 4096 in *. fold p in Hn, Ha, H0, Hu, Hm.
  assert (Hns : g.(g_slabs) !! p = None) by (destruct (g.(g_slabs) !! p) as [j|] eqn:E; [by rewrite (slab_page g p j E) in Hn|done]).
  destruct (slab_prepare_run heap Hheap s h m _ _ _ p c (hk_slabs Hk) Hns Ha H0 Hu Hm Hc) as (m1 & E1 & Hok1 & Hd1 & Ho1).
  destruct (class_facts c Hc) as (_ & _ & Hcnt & _). assert (Hf : (fresh_info c).(i_free) ≠ []) by (cbn [fresh_info i_free]; rewrite seqZ_cons by lia; done).
  assert (Hnot : ∀ k l, g.(g_lists) !! k = Some l → p ∉ l) by (intros k l Hkl Hin; destruct (so_listed _ _ _ _ _ (hk_slabs Hk) k l p Hkl Hin) as (j & ? & _); congruence).
  destruct (slab_enter_run heap Hheap s h m1 _ _ p _ Hok1 (hk_settled Hk) Hf Hnot) as (partial & m2 & lists2 & E2 & Hok2 & Hset2 & [Hd2 Ho2]).
  set (g' := with_slab g p (fresh_info c) lists2). exists m1, (st s (set_statistics (set_partial h partial) (more_pages h.(statistics) 0)) m2), g'.
  assert (Hpg : heap_pages g' = <[p := 0]> (heap_pages g)) by (unfold heap_pages, g'; cbn [with_slab g_slabs g_large]; by rewrite fmap_insert, insert_union_l).
  assert (Hlive : ∀ r k, live g' r k ↔ live g r k).
  { intros r k. unfold g'. rewrite live_with. split.
    - intros [?|[(q & j & y & _ & Hq & Hy & -> & ->)|(y & [_ Hy] & _)]]; [by right|left; by exists q, j, y|]. cbn [fresh_info i_words] in Hy. by rewrite bit_new in Hy.
    - intros [(q & j & y & Hq & Hy & -> & ->)|?]; [right; left; exists q, j, y; split; [|done]; congruence|by left]. }
  assert (Hbytes : ∀ y, (∀ r j, g.(g_slabs) !! r = Some j → ¬ r ≤ y < r + 80) → ¬ p ≤ y < p + 4096 → m2 !! y = m !! y).
  { intros y Hy Hyp. rewrite Ho2; [by apply Ho1|]. intros r j [[<- <-]|[_ Hr]]%lookup_insert_Some; [lia|by apply (Hy r j)]. }
  split; [done|]. split; [step E2; done|]. split; [split; [done|split; [done|]]|split; [apply lookup_insert_eq|]].
  - cbn [st set_world sy_world sy_allocator]. apply (ok_add_block (mk_world h m e) _ g x 0 g' m2 _ Hk Hl); try done; [by apply (hk_init Hk)|intros y; by rewrite (Hd2 y), (Hd1 y)|..].
    + cbn [g' with_slab g_slabs g_large]. intros q i [[<- <-]|[_ Hq]]%lookup_insert_Some; [|by apply (hk_disjoint Hk q i)]. destruct (g.(g_large) !! p) as [o|] eqn:E; [by rewrite (large_page Hk p o E) in Hn|done].
    + cbn [set_statistics statistics g' with_slab g_slabs g_large]. pose proof (proj2 (proj2 (more_pages_spec _ _ _ 0 Hk ltac:(lia)))) as El. cbn [w_heap] in El. pose proof (hk_live Hk) as El2. cbn [w_heap] in El2. rewrite El, El2, sum_map_insert by done.
      unfold used_count. cbn [fresh_info i_free]. rewrite length_seqZ. change (i_count (fresh_info c)) with (slot_count_of c). lia.
    + intros q k. by rewrite Hlive.
  - split; cbn [st set_world sy_world sy_allocator w_mem]; [|done|..].
    + intros q n. unfold held. cbn [w_ext]. rewrite Hlive. naive_solver.
    + intros q n [Hq _] _ y Hy. apply Hbytes; [intros r j Hr; by apply (live_no_header Hk q n y r j)|]. destruct (live_block Hk q n Hq) as (b & o & Hbo & ? & ? & ? & _). destruct (foreign_apart Hk x 0 1 b o (proj1 Hl) Hbo); unfold p in *; simpl in *; lia.
    + by apply (lent_others (mk_world h m e) _ g g' x 0).
    + intros y o n [[Hy1 Hy2] _] Hne z Hz. apply Hbytes; [intros r j Hr Hin; apply (foreign_no_slab Hk y o n z r j); [done|done|done|lia]|].
      destruct (blocks_apart Hk x 0 1 y o n Hb Hy1); [by intros ->|unfold p, BOAROS_PAGE_SIZE in *; simpl in *; lia..].
Qed.

(** ** Small objects *)
#[local] Abbreviation same s g s' g' := (keeps layout access physical_address own own_blocks s.(sy_world) (pool s) g s'.(sy_world) (pool s') g').
#[local] Abbreviation lends s g := (lent layout access physical_address own_blocks s.(sy_world) (pool s) g).
(** A pointer the heap hands out. *)
Definition aligned16 (q : Z) : Prop := q ≠ 0 ∧ q mod 16 = 0.
Lemma page_resolve_run (s : state) g x o : good s g → lends s g x (o, 1) → page_resolve access x s = Done ((PHYSICAL_PAGE_STATUS_OK, Some (base + x)), s).
Proof.
  intros (Hs & _ & Hk) [[Hb _] _]. destruct (block_bytes Hk x o 1 Hb) as (_ & _ & _ & H0 & _ & _ & _ & Ea & _). destruct (serving_block layout _ x o 1 Hs Hb) as (_ & _ & Hu & _).
  unfold page_resolve. rewrite (serving_resolve layout access _ x o 1 Hs Hu Hb) by lia. by rewrite Ea.
Qed.
Lemma slot_aligned p c x : p mod 4096 = 0 → 0 < p → 0 ≤ c < 8 → 0 ≤ x → aligned16 (slot_at p c x).
Proof.
  intros Ha H0 Hc Hx. destruct (class_facts c Hc) as (? & E & _). unfold slot_at. split; [nia|]. apply Z.mod_divide in Ha as [k ->]; [|lia].
  apply Z.mod_divide; [lia|]. exists (k * 256 + 5 + 2 ^ c * x). rewrite E. lia.
Qed.
Lemma slot_taken_aligned (s : state) g p i x l : good s g → g.(g_slabs) !! p = Some i → i.(i_free) = x :: l → aligned16 (slot_at p i.(i_class) x).
Proof.
  intros (_ & _ & Hk) Hp Ef. destruct (so_page _ _ _ _ _ (hk_slabs Hk) p i Hp) as (Ha & H0 & _). pose proof (so_info _ _ _ _ _ (hk_slabs Hk) p i Hp) as Hi. destruct (io_free _ Hi) as [_ Hf].
  destruct (proj1 (Hf x) ltac:(rewrite Ef; left)) as [Hx _]. apply slot_aligned; [done|done|apply Hi|lia].
Qed.
(** Every slot of the class is taken. *)
Definition no_slot (g : ghost) (c : Z) : Prop := ∀ p i, g.(g_slabs) !! p = Some i → i.(i_class) = c → i.(i_free) = [].
(** A new object whose capacity satisfies [n], or [EMPTY] in the situation [short]. *)
Definition allocated (n : Z → Prop) (short : Prop) (s : state) (g : ghost) (status : kernel_heap_status) (q : Z) (s' : state) (g' : ghost) : Prop :=
  (status = KERNEL_HEAP_STATUS_OK ∧ aligned16 q ∧ ∃ k, n k ∧ change None (Some (q, k)) None s g s' g') ∨
  (status = KERNEL_HEAP_STATUS_EMPTY ∧ q = 0 ∧ same s g s' g' ∧ short).

Lemma slab_create_run (s : state) g c : good s g → 0 ≤ c < 8 →
  (∃ s' g', slab_create heap access rounds c s = Done ((KERNEL_HEAP_STATUS_EMPTY, 0), s') ∧ good s' g' ∧ same s g s' g' ∧ none_free layout 0 (pool s)) ∨
  (∃ p s1 s' g', slab_create heap access rounds c s = Done ((KERNEL_HEAP_STATUS_OK, p), s1) ∧ (_ ← partial_insert p; statistics_add_pages 0) s1 = Done (tt, s') ∧ good s' g' ∧
     g'.(g_slabs) !! p = Some (fresh_info c) ∧ same s g s' g').
Proof.
  intros Hg Hc. destruct (page_allocate_run layout heap access physical_address own own_blocks rounds hooks Hhooks s g 0 Hg ltac:(lia)) as (st1 & ad & s1 & g1 & E & Hg1 & Hsame & Hcase).
  unfold slab_create. step E. destruct Hcase as [(-> & -> & Hstarved)|(x & -> & -> & Hlent & Hnew)].
  - left. exists s1, g1. rewrite decide_True by done. by split_and!.
  - right. rewrite decide_False by (intros H; by apply H). cbn [default]. step (page_resolve_run s1 g1 x 0 Hg1 Hlent). rewrite decide_False by (intros H; by apply H). cbn [default].
    destruct (slab_made s1 g1 x c Hg1 Hlent Hc) as (m1 & s2 & g2 & E1 & E2 & Hg2 & Hp2 & Hch). destruct (class_facts c Hc) as (_ & _ & Hcnt & _).
    exists (base + x), (st s1 s1.(sy_world).(w_heap) m1), s2, g2. split; [|split; [done|split; [done|split; [done|]]]].
    + rewrite decide_False by (unfold KERNEL_SLAB_BITMAP_WORDS; lia). exact (ST_seq_eq _ _ _ _ _ _ E1).
    + apply keeps_differ, (differs_unspent _ _ _ _ _ _ _ x); [|done]. by eapply keeps_differs.
Qed.
Lemma unlisted_full (s : state) g c : good s g → 0 ≤ c → g.(g_lists) !! Z.to_nat c = Some [] → no_slot g c.
Proof.
  intros (_ & _ & Hk) Hc Hl p i Hp <-. destruct (i_free i) as [|x l] eqn:Ef; [done|]. exfalso. assert (H : p ∈ ([] : list Z)); [|by apply not_elem_of_nil in H].
  by apply (hk_settled Hk p i [] Hp Hl); rewrite Ef.
Qed.
Lemma allocate_small_run (s : state) g c : good s g → 0 ≤ c < 8 →
  ∃ status q s' g', allocate_small heap access rounds c s = Done ((status, q), s') ∧ good s' g' ∧ allocated (λ k, k = class_size c) (none_free layout 0 (pool s) ∧ no_slot g c) s g status q s' g'.
Proof.
  intros Hg Hc. pose proof Hg as (Hs & Hh & Hk). destruct (lookup_lt_is_Some_2 g.(g_lists) (Z.to_nat c)) as [l Hl]; [rewrite (so_lists _ _ _ _ _ (hk_slabs Hk)); lia|].
  pose proof (slab_head _ _ _ _ _ (hk_slabs Hk) _ _ Hl) as Hhead. unfold allocate_small. assert (Eg : get_heap s = Done (s.(sy_world).(w_heap), s)) by done. step Eg. step (aread_ok _ _ _ Hhead).
  destruct l as [|p l]; cbn [head default].
  - rewrite decide_False by (intros H; by apply H). destruct (slab_create_run s g c Hg Hc) as [(s1 & g1 & E & Hg1 & Hsame & Hst)|(p & s1 & s2 & g2 & E & E2 & Hg2 & Hp2 & Hsame)]; step E.
    + rewrite decide_True by done. exists KERNEL_HEAP_STATUS_EMPTY, 0, s1, g1. split; [done|]. split; [done|]. right. split_and!; try done. apply (unlisted_full s); [done|lia|done].
    + rewrite decide_False by (intros H; by apply H). rewrite (ST_seq_eq _ _ _ _ _ _ E2). destruct (class_facts c Hc) as (_ & _ & Hcnt & _).
      assert (Ef : (fresh_info c).(i_free) = 0 :: seqZ 1 (slot_count_of c - 1)) by (cbn [fresh_info i_free]; by rewrite seqZ_cons by lia).
      destruct (slot_taken s2 g2 p _ _ _ Hg2 Hp2 Ef) as (s3 & g3 & E3 & Hg3 & Hch). pose proof (slot_taken_aligned s2 g2 p _ _ _ Hg2 Hp2 Ef).
      exists KERNEL_HEAP_STATUS_OK, (slot_at p c 0), s3, g3. split; [done|]. split; [done|]. left. split; [done|]. split; [done|]. exists (class_size c). split; [done|]. by eapply keeps_differs.
  - destruct (so_listed _ _ _ _ _ (hk_slabs Hk) _ _ p Hl ltac:(left)) as (i & Hp & Ec). rewrite Z2Nat.id in Ec by lia. subst c. destruct (slab_u64 _ _ _ _ _ (hk_slabs Hk) p i Hp) as [_ Hp0]. change (id p) with p. rewrite decide_True by done.
    pose proof (proj1 (hk_settled Hk p i _ Hp Hl) ltac:(left)) as Hf. destruct (i_free i) as [|x l'] eqn:Ef; [done|]. destruct (slot_taken s g p i x l' Hg Hp Ef) as (s3 & g3 & E3 & Hg3 & Hch). pose proof (slot_taken_aligned s g p i x l' Hg Hp Ef).
    exists KERNEL_HEAP_STATUS_OK, (slot_at p (i_class i) x), s3, g3. split; [done|]. split; [done|]. left. split; [done|]. split; [done|]. by exists (class_size (i_class i)).
Qed.

(** ** Large objects *)
Lemma block_taken (s : state) g x o : good s g → lends s g x (o, 1) →
  ∃ s' g', (_ ← statistics_add_pages o; _ ← count (λ t, set_live t (u64 (t.(live_allocations) + 1))); mret (KERNEL_HEAP_STATUS_OK, base + x)) s = Done ((KERNEL_HEAP_STATUS_OK, base + x), s') ∧ good s' g' ∧
    change None (Some (base + x, BOAROS_PAGE_SIZE * 2 ^ o)) (Some x) s g s' g'.
Proof.
  intros (Hs & Hh & Hk) Hl. destruct s as [a hk re [h m e]]. cbn [sy_allocator sy_hooks sy_world w_heap] in *. subst hk. set (s := mk_system a hooks re (mk_world h m e)). set (p := base + x).
  pose proof Hl as [[Hb Hn] Hown]. destruct (block_bytes Hk x o 1 Hb) as (Ho & _). fold p in Hn. pose proof (live_bound Hk) as Hlb. cbn [w_heap] in Hlb.
  assert (Hns : g.(g_slabs) !! p = None) by (destruct (g.(g_slabs) !! p) as [j|] eqn:E; [by rewrite (slab_page g p j E) in Hn|done]).
  assert (Hnl : g.(g_large) !! p = None) by (destruct (g.(g_large) !! p) as [j|] eqn:E; [by rewrite (large_page Hk p j E) in Hn|done]).
  set (g' := mk_ghost g.(g_slabs) (<[p := o]> g.(g_large)) g.(g_lists)). destruct (more_pages_spec _ _ _ o Hk Ho) as (_ & _ & El). cbn [w_heap] in El.
  set (t := more_pages h.(statistics) o) in *. set (h' := set_statistics h (set_live t (u64 (t.(live_allocations) + 1)))). exists (st s h' m), g'. split; [done|].
  assert (Hpg : heap_pages g' = <[p := o]> (heap_pages g)) by (unfold heap_pages, g'; cbn [g_slabs g_large]; rewrite insert_union_r; [done|]; by rewrite lookup_fmap, Hns).
  assert (Hlive : ∀ r k, live g' r k ↔ live g r k ∨ (r = p ∧ k = BOAROS_PAGE_SIZE * 2 ^ o)).
  { intros r k. unfold live, in_block, in_slot, g'. cbn [g_slabs g_large]. split.
    - intros [?|(j & [[<- <-]|[Hne Hr]]%lookup_insert_Some & ->)]; [by left; left|by right|left; right; by exists j].
    - intros [[?|(j & Hr & ->)]|[-> ->]]; [by left|right; exists j; rewrite lookup_insert_ne; [done|congruence]|right; exists o; by rewrite lookup_insert_eq]. }
  assert (Hfresh : ∀ k, ¬ live g p k).
  { intros k Hlk. destruct (live_block Hk p k Hlk) as (b & j & Hbj & ? & ? & ? & _). pose proof (pow_pos o ltac:(lia)). destruct (foreign_apart Hk x o 1 b j (proj1 Hl) Hbj); unfold p in *; lia. }
  assert (Hownp : own e !! p = None) by (destruct (own e !! p) as [n|] eqn:E1; [by apply (hk_own Hk) in E1; apply Hfresh in E1|done]).
  split; [split; [done|split; [done|]]|].
  - cbn [st set_world sy_world sy_allocator]. apply (ok_add_block (mk_world h m e) _ g x o g' m _ Hk Hl); try done; try apply Hk.
    + cbn [g' g_slabs g_large]. intros q i Hq. rewrite lookup_insert_ne by congruence. by apply (hk_disjoint Hk q i).
    + cbn [h' set_statistics statistics set_live live_allocations g' g_slabs g_large]. rewrite u64_small by mlia. rewrite map_size_insert_None by done. pose proof (hk_live Hk) as E. cbn [w_heap] in E. lia.
    + intros q k Hq. apply Hlive. by left.
  - split; cbn [st set_world sy_world sy_allocator w_mem]; try done.
    + intros r n. unfold held. cbn [w_ext]. rewrite Hlive. split; [intros [[?|[-> ->]] ?]; [by left|by right]|intros [[[? ?] _]|[= <- <-]]; [split; [by left|done]|split; [by right|done]]].
    + intros r n k [= <- <-] [Hlk _]. by apply (Hfresh k).
    + by apply (lent_others (mk_world h m e) _ g g' x o).
Qed.
Lemma allocate_large_run (s : state) g size : good s g → is_u64 size → 0 < size →
  ∃ status q s' g', allocate_large access rounds size s = Done ((status, q), s') ∧ good s' g' ∧
    match allocation_order_for_size size with
    | Some o => allocated (λ k, size ≤ k) (none_free layout o (pool s)) s g status q s' g'
    | None => status = KERNEL_HEAP_STATUS_OVERFLOW ∧ q = 0 ∧ same s g s' g'
    end.
Proof.
  intros Hg Hu Hs. unfold allocate_large. pose proof (allocation_order_spec size Hu Hs) as Ho. destruct (allocation_order_for_size size) as [o|].
  2: { exists KERNEL_HEAP_STATUS_OVERFLOW, 0, s, g. split; [done|]. split; [done|]. split; [done|]. split; [done|apply keeps_refl]. }
  destruct Ho as (Ho & Hsz & _). destruct (page_allocate_run layout heap access physical_address own own_blocks rounds hooks Hhooks s g o Hg Ho) as (st1 & ad & s1 & g1 & E & Hg1 & Hsame & Hcase).
  step E. destruct Hcase as [(-> & -> & Hstarved)|(x & -> & -> & Hlent & Hnew)].
  - rewrite decide_True by done. exists KERNEL_HEAP_STATUS_EMPTY, 0, s1, g1. split; [done|]. split; [done|]. by right.
  - rewrite decide_False by (intros H; by apply H). cbn [default]. step (page_resolve_run s1 g1 x o Hg1 Hlent). rewrite decide_False by (intros H; by apply H). cbn [default].
    destruct (block_taken s1 g1 x o Hg1 Hlent) as (s2 & g2 & E2 & Hg2 & Hch). destruct Hg1 as (_ & _ & Hk1). destruct Hlent as [[Hb _] _]. destruct (block_bytes Hk1 x o 1 Hb) as (_ & _ & Ha & H0 & _).
    exists KERNEL_HEAP_STATUS_OK, (base + x), s2, g2. split; [exact E2|]. split; [done|]. left. split; [done|]. split.
    + split; [unfold not; lia|]. apply Z.mod_divide in Ha as [k ->]; [|lia]. apply Z.mod_divide; [lia|]. exists (k * 256). lia.
    + exists (BOAROS_PAGE_SIZE * 2 ^ o). split; [done|]. apply (differs_unspent _ _ _ _ _ _ _ x); [|done]. by eapply keeps_differs.
Qed.

(** ** Allocation *)
Lemma stat_count_run (s : state) g f : good s g → (∀ t, (f t).(current_pages) = t.(current_pages) ∧ (f t).(peak_pages) = t.(peak_pages) ∧ (f t).(live_allocations) = t.(live_allocations)) →
  ∃ s', count f s = Done (tt, s') ∧ good s' g ∧ same s g s' g ∧ pool s' = pool s.
Proof.
  intros (Hs & Hh & Hk) Hf. eexists. split; [reflexivity|]. destruct (Hf s.(sy_world).(w_heap).(statistics)) as (E1 & E2 & E3).
  assert (Hok : ∀ g', ok s.(sy_world) (pool s) g' → ok (mk_world (set_statistics s.(sy_world).(w_heap) (f s.(sy_world).(w_heap).(statistics))) s.(sy_world).(w_mem) s.(sy_world).(w_ext)) (pool s) g').
  { intros g' Hk'. destruct Hk'. split; try done; cbn [w_heap set_statistics statistics]; [by rewrite E1|by rewrite E3|by rewrite E1, E2]. }
  split; [split; [done|split; [done|by apply Hok]]|]. split; [by split|done].
Qed.
(** The order of the block behind an object of the size. *)
Definition order_of (size : Z) : Z := match small_class_for_size size with Some _ => 0 | None => default 0 (allocation_order_for_size size) end.
(** Nothing is left for an object of the size: no slot of its class is free,
    nor a block of the order that would hold it. *)
Definition exhausted (size : Z) (s : state) (g : ghost) : Prop :=
  none_free layout (order_of size) (pool s) ∧ ∀ c, small_class_for_size size = Some c → no_slot g c.
Definition served (size : Z) (s : state) (g : ghost) (status : kernel_heap_status) (q : Z) (s' : state) (g' : ghost) : Prop :=
  if decide (size = 0) then status = KERNEL_HEAP_STATUS_OK ∧ q = 0 ∧ same s g s' g'
  else if decide (4096 * 2 ^ 31 < size) then status = KERNEL_HEAP_STATUS_OVERFLOW ∧ q = 0 ∧ same s g s' g'
  else allocated (λ k, size ≤ k) (exhausted size s g) s g status q s' g'.
Lemma keeps_allocated n o (s s1 : state) g g1 status q s' g' : same s g s1 g1 → allocated n o s1 g1 status q s' g' → allocated n o s g status q s' g'.
Proof.
  intros Hsame [(-> & Hq & k & Hk & Hch)|(-> & -> & H2 & Hst)]; [left; split; [done|]; split; [done|]; exists k; split; [done|by eapply keeps_differs]|].
  right. split; [done|]. split; [done|]. split; [by eapply keeps_trans|done].
Qed.
Lemma allocated_weaken n n' (o o' : Prop) (s : state) g status q s' g' : (∀ k, n k → n' k) → (o → o') → allocated n o s g status q s' g' → allocated n' o' s g status q s' g'.
Proof. intros Hn Ho [(-> & Hq & k & Hk & Hch)|(-> & -> & Hsame & H)]; [left; split; [done|]; split; [done|]; exists k; split; [by apply Hn|done]|right; split_and!; try done; by apply Ho]. Qed.
Lemma some_memory_run (s : state) g size : good s g → is_u64 size → 0 < size →
  ∃ status q s' g', (match small_class_for_size size with Some class_index => allocate_small heap access rounds class_index | None => allocate_large access rounds size end) s = Done ((status, q), s') ∧ good s' g' ∧
    served size s g status q s' g'.
Proof.
  intros Hg Hu Hs. pose proof (small_class_spec size Hs) as Hc. pose proof (allocation_order_spec size Hu Hs) as Ho. destruct (small_class_for_size size) as [c|] eqn:E.
  - destruct Hc as (Hc & Hsz & _). destruct (class_facts c Hc) as (? & _). destruct (allocate_small_run s g c Hg Hc) as (status & q & s' & g' & E1 & Hg' & Ha).
    exists status, q, s', g'. split; [done|]. split; [done|]. unfold served, exhausted, order_of. rewrite !decide_False, E by (try change (4096 * 2 ^ 31) with 8796093022208; lia). eapply allocated_weaken; [| |exact Ha]; [by intros k ->|]. intros [Hn Hf]. split; [done|]. by intros ? [= <-].
  - destruct (allocate_large_run s g size Hg Hu Hs) as (status & q & s' & g' & E1 & Hg' & Ha). exists status, q, s', g'. split; [done|]. split; [done|].
    unfold served, exhausted, order_of. rewrite (decide_False (P := size = 0)), E by lia. destruct (allocation_order_for_size size) as [o|]; [|by rewrite decide_True]. destruct Ho as (Ho & Hsz & _).
    rewrite decide_False; [eapply allocated_weaken; [| |exact Ha]; done|]. assert (2 ^ o ≤ 2 ^ 31) by (apply Z.pow_le_mono_r; lia). lia.
Qed.
Lemma heap_allocate_run (s : state) g size : good s g → is_u64 size →
  ∃ status q s' g', kernel_heap_allocate heap access rounds size s = Done ((status, q), s') ∧ good s' g' ∧ served size s g status q s' g'.
Proof.
  intros Hg Hu. pose proof Hg as (_ & _ & Hk). unfold kernel_heap_allocate. assert (Eg : get_heap s = Done (s.(sy_world).(w_heap), s)) by done. step Eg. rewrite (hk_init Hk). rewrite decide_False by done.
  destruct (stat_count_run s g count_call Hg ltac:(done)) as (s1 & E1 & Hg1 & Hsame1 & Epool). step E1. case_decide as Hz.
  { subst size. exists KERNEL_HEAP_STATUS_OK, 0, s1, g. split; [done|]. split; [done|]. unfold served. by rewrite decide_True. }
  destruct (some_memory_run s1 g size Hg1 Hu ltac:(mlia)) as (status & q & s2 & g2 & E2 & Hg2 & Hs2). step E2. unfold served in Hs2. rewrite (decide_False (P := size = 0)) in Hs2 by done.
  destruct (stat_count_run s2 g2 count_failure Hg2 ltac:(done)) as (s3 & E3 & Hg3 & Hsame3 & _). destruct (decide (4096 * 2 ^ 31 < size)) as [Hbig|Hbig].
  - destruct Hs2 as (-> & -> & Hsame2). rewrite decide_True by done. step E3. exists KERNEL_HEAP_STATUS_OVERFLOW, 0, s3, g2. split; [done|]. split; [done|].
    unfold served. rewrite decide_False, decide_True by done. split; [done|]. split; [done|]. eapply keeps_trans; [exact Hsame1|]. by eapply keeps_trans.
  - unfold exhausted in Hs2. rewrite Epool in Hs2. apply (keeps_allocated _ _ s s1 g g) in Hs2; [|done]. destruct Hs2 as [(-> & Hq & k & Hk2 & Hch)|(-> & -> & Hsame2 & Hst)].
    + rewrite decide_False by (intros H; by apply H). exists KERNEL_HEAP_STATUS_OK, q, s2, g2. split; [done|]. split; [done|]. unfold served. rewrite !decide_False by done. left. split; [done|]. split; [done|]. by exists k.
    + rewrite decide_True by done. step E3. exists KERNEL_HEAP_STATUS_EMPTY, 0, s3, g2. split; [done|]. split; [done|]. unfold served. rewrite !decide_False by done. right. split; [done|]. split; [done|]. split; [by eapply keeps_trans|done].
Qed.
End ops.
