(* ===== verification/SlabReleaseTheory.v ===== *)
(** * Release, zeroed memory and resizing *)
From S2P Require Import Prelude Bytes BootMemory Heap StringOps StringCopyTheory StringTextTheory PhysicalPage PageSpec PageStateTheory PageRefine PageClaims PageReclaim PageReclaimTheory DirectMap SlabHeap SlabBitsTheory SlabListTheory SlabSlotTheory SlabWorldTheory SlabHeapTheory.
Import Heap StringOps BootMemory PhysicalPage PageSpec PageReclaim DirectMap SlabHeap.
#[local] Open Scope Z_scope.

(** ** Pages of pointers *)
Lemma land_page_mask v : Z.land v BOAROS_PAGE_MASK = v mod 4096.
Proof. change BOAROS_PAGE_MASK with (Z.ones 12). by rewrite Z.land_ones by lia. Qed.
Lemma page_value p v : p mod 4096 = 0 → p ≤ v < p + 4096 → Z.land v (Z.lnot BOAROS_PAGE_MASK) = p ∧ v mod 4096 = v - p.
Proof.
  intros Hp Hv. assert (Em : v mod 4096 = v - p) by (pose proof (Z.div_mod p 4096); pose proof (Z.div_mod v 4096); pose proof (Z.mod_pos_bound v 4096); lia).
  split; [|done]. change BOAROS_PAGE_MASK with (Z.ones 12). rewrite <-Z.ldiff_land, Z.ldiff_ones_r by lia. rewrite Z.shiftl_mul_pow2, Z.shiftr_div_pow2 by lia. change (2 ^ 12) with 4096. pose proof (Z.div_mod v 4096). lia.
Qed.

(** ** Ghosts with one object less *)
Lemma give_used i x words : info_ok i → used i x → (∀ j, 0 ≤ j → bit words j = if decide (j = x) then false else bit i.(i_words) j) →
  (∀ j, used (give_slot i words x) j ↔ used i j ∧ j ≠ x) ∧ used_count (give_slot i words x) = used_count i - 1.
Proof.
  intros Hi Hx Hb. unfold used, used_count in *. change (i_count (give_slot i words x)) with (i_count i). cbn [give_slot i_words i_free length]. split; [|lia].
  intros j. destruct (decide (0 ≤ j)) as [Hj|]; [|split; [lia|lia]]. rewrite Hb by done. case_decide; naive_solver.
Qed.
Lemma all_free i j : info_ok i → Z.of_nat (length i.(i_free)) = i_count i → ¬ used i j.
Proof. intros Hi E Hu. pose proof (used_room i j Hi Hu). lia. Qed.

Section ops.
Context {ext : Type} (layout : boot_memory_layout) (heap : Z) (Hheap : is_u64 heap).
Context (access : Z → Z) (physical_address : Z → option Z) `{DM : !DirectMap (managed layout) access physical_address}.
Context (own : ext → gmap Z Z) (own_blocks : ext → gmap Z (Z * Z)).
#[local] Abbreviation world := (heap_world ext).
#[local] Abbreviation state := (page_system world).
#[local] Abbreviation base := (dm_base (DirectMap := DM)).
#[local] Abbreviation ok := (heap_ok layout heap access physical_address own own_blocks).
Context (rounds : world → nat) (hooks : physical_page_reclaim_hooks world).
Context (Hhooks : hooks_ok layout (fine layout heap access physical_address own own_blocks) (evolves layout heap access physical_address own own_blocks) rounds hooks).
#[local] Abbreviation pool s := (spec_of s.(sy_allocator)).
#[local] Abbreviation good := (SlabWorldTheory.good layout heap access physical_address own own_blocks hooks).
#[local] Abbreviation change lost won spent s g s' g' := (differs layout access physical_address own own_blocks lost won spent s.(sy_world) (pool s) g s'.(sy_world) (pool s') g').
#[local] Abbreviation information := (allocation_information heap physical_address).

(** ** What a pointer denotes *)
Lemma slab_block w p g r i : ok w p g → g.(g_slabs) !! r = Some i → ∃ x, r = base + x ∧ p.(sp_blocks) !! x = Some (0, 1) ∧ physical_address r = Some x ∧ is_u64 x ∧ x mod 4096 = 0.
Proof.
  intros Hk Hr. destruct (heap_block Hk r 0 (slab_page g r i Hr)) as (x & -> & Hb). destruct (block_bytes Hk x 0 1 Hb) as (_ & Hn & _ & _ & Hu & H0 & _ & _ & Hp). exists x. split; [done|]. split; [done|]. split; [done|].
  destruct dm_base_ok as [Hb0 _]. split; [simpl in Hu; mlia|]. by apply (natural_aligned layout x 0).
Qed.
Lemma information_slot (s : state) g p i k : good s g → g.(g_slabs) !! p = Some i → 0 ≤ k < i_count i →
  ∃ x, p = base + x ∧ (pool s).(sp_blocks) !! x = Some (0, 1) ∧
    information (slot_at p i.(i_class) k) s = Done (if bit i.(i_words) k then inr (mk_allocation x 0 (class_size i.(i_class)) (Some (p, k))) else inl KERNEL_HEAP_STATUS_DOUBLE_FREE, s).
Proof.
  intros (Hs & _ & Hk) Hp Hkc. destruct (slab_block _ _ g p i Hk Hp) as (x & Ex & Hb & Hph & Hux & Hxm). exists x. split; [done|]. split; [done|].
  pose proof (so_info _ _ _ _ _ (hk_slabs Hk) p i Hp) as Hi. destruct (so_page _ _ _ _ _ (hk_slabs Hk) p i Hp) as (Ha & H0 & Hpu & _). destruct (info_count i Hi) as [Hcnt Hsz]. pose proof (io_class _ Hi) as Hc.
  destruct (slot_inside p i.(i_class) k Hc Hkc) as [Hs1 Hs2]. destruct (page_value p (slot_at p i.(i_class) k) Ha ltac:(lia)) as [Epv Em].
  unfold allocation_information. rewrite Epv, Hph, land_page_mask, Hxm, decide_False by (intros H; by apply H).
  assert (Eo : page_order x s = Done ((PHYSICAL_PAGE_STATUS_OK, Some 0), s)) by (unfold page_order; by rewrite (serving_order layout _ x Hs Hux), Hb). step Eo.
  rewrite decide_False by (intros H; by apply H). cbn [default]. rewrite land_page_mask, Em. rewrite decide_False by lia. rewrite decide_False by (intros H; by apply H).
  destruct (slab_links _ _ _ _ _ (hk_slabs Hk) p i Hp) as (l & nx & pv & Hl & _ & Hn & _). assert (Er : read_slab p s = Done (header_of heap i nx pv, s)).
  { destruct s as [a hk re [h m e]]. apply (read_slab_st (mk_system a hk re (mk_world h m e)) h m). by apply (slab_load _ _ _ _ _ (hk_slabs Hk) p i l). }
  step Er. unfold slot_information. cbn [header_of s_magic s_heap s_class_index s_slot_offset s_slot_count s_allocated].
  rewrite decide_False by (intros [?|[?|[?|[?|[?|?]]]]]; try done; unfold KERNEL_HEAP_SIZE_CLASS_COUNT, KERNEL_SLAB_BITMAP_WORDS in *; lia). unfold SIZEOF_SLAB. rewrite u64_small by mlia.
  rewrite decide_False by lia. replace (slot_at p i.(i_class) k - (p + 80)) with (k * class_size i.(i_class)) by (unfold slot_at; lia). rewrite Z.mod_mul, Z.div_mul by lia.
  rewrite decide_False by (intros H; by apply H). unfold u32. rewrite Z.mod_small by lia. rewrite decide_False by lia.
  rewrite (bitmap_test_run i.(i_words) 4 (io_length _ Hi) (io_words _ Hi) k ltac:(lia)). by destruct (bit i.(i_words) k).
Qed.
Lemma information_block (s : state) g q o : good s g → g.(g_large) !! q = Some o →
  ∃ x, q = base + x ∧ (pool s).(sp_blocks) !! x = Some (o, 1) ∧ is_u64 x ∧ information q s = Done (inr (mk_allocation x o (BOAROS_PAGE_SIZE * 2 ^ o) None), s).
Proof.
  intros (Hs & _ & Hk) Hq. destruct (heap_block Hk q o (large_page Hk q o Hq)) as (x & -> & Hb). destruct (block_bytes Hk x o 1 Hb) as (Ho & Hn & Ha & H0 & Hu & Hx0 & _ & _ & Hp).
  destruct (serving_block layout _ x o 1 Hs Hb) as (_ & _ & Hux & _). exists x. split; [done|]. split; [done|]. split; [done|]. destruct (page_value (base + x) (base + x) Ha ltac:(lia)) as [Epv Em].
  unfold allocation_information. rewrite Epv, Hp, land_page_mask, (natural_aligned layout x o ltac:(lia) Hn), decide_False by (intros H; by apply H).
  assert (Eo : page_order x s = Done ((PHYSICAL_PAGE_STATUS_OK, Some o), s)) by (unfold page_order; by rewrite (serving_order layout _ x Hs Hux), Hb). step Eo.
  rewrite decide_False by (intros H; by apply H). change (default 0 (Some o)) with o. rewrite land_page_mask, Em, decide_True by lia. rewrite decide_False by (unfold PHYSICAL_PAGE_MAX_ORDER, BOAROS_PAGE_SHIFT; lia).
  rewrite Z.shiftl_mul_pow2 by lia. done.
Qed.

(** ** A block leaves the heap *)
Definition returned (p : page_spec) (x o : Z) : page_spec := mk_spec (p.(sp_free) ∪ pages_of x o) (delete x p.(sp_blocks)).
Lemma ok_drop_block w p g x o g' m' h' : ok w p g → heap_pages g !! (base + x) = Some o → heap_pages g' = delete (base + x) (heap_pages g) → pool_ok layout (returned p x o) →
  slabs_ok heap m' h'.(partial_slabs) g'.(g_slabs) g'.(g_lists) → settled g'.(g_slabs) g'.(g_lists) → heap_initialized h' = true → same_domain w.(w_mem) m' →
  (∀ q i, g'.(g_slabs) !! q = Some i → g'.(g_large) !! q = None) → h'.(statistics).(current_pages) = w.(w_heap).(statistics).(current_pages) - 2 ^ o → h'.(statistics).(peak_pages) = w.(w_heap).(statistics).(peak_pages) →
  h'.(statistics).(live_allocations) = sum_map used_count g'.(g_slabs) + Z.of_nat (size g'.(g_large)) → (∀ q k, own w.(w_ext) !! q = Some k → live g' q k) → ok (mk_world h' m' w.(w_ext)) (returned p x o) g'.
Proof.
  intros Hk Hx Hpg Hpool Hok Hset Hi Hd Hdis Ec Ep El Hown. pose proof (heap_page_order Hk _ _ Hx) as Ho. pose proof (pow_pos o ltac:(lia)). pose proof (hk_peak Hk).
  split; cbn [w_heap w_mem w_ext]; try done.
  - intros q k. rewrite Hpg. intros [Hne Hq]%lookup_delete_Some. cbn [returned sp_blocks]. rewrite lookup_delete_ne by lia. by apply (hk_pages Hk).
  - intros y Hy. eapply mapped_same_domain; [exact Hd|by apply (hk_mapped Hk)].
  - rewrite Hpg, Ec, (hk_current Hk), (sum_map_delete _ _ _ _ Hx). lia.
  - lia.
  - intros y b Hy. destruct (hk_own_blocks Hk y b Hy) as [Hf1 Hf2]. assert (y ≠ x) by (intros ->; congruence). split; [cbn [returned sp_blocks]; by rewrite lookup_delete_ne|].
    rewrite Hpg, lookup_delete_ne by lia. done.
Qed.
Lemma lent_kept w p g g' x o h' m' : heap_pages g !! (base + x) = Some o → heap_pages g' = delete (base + x) (heap_pages g) →
  ∀ y b, lent layout access physical_address own_blocks w p g y b → lent layout access physical_address own_blocks (mk_world h' m' w.(w_ext)) (returned p x o) g' y b.
Proof.
  intros Hx Hpg y b [[H1 H2] H3]. assert (y ≠ x) by (intros ->; congruence). split; [split|done]; [cbn [returned sp_blocks]; by rewrite lookup_delete_ne|]. rewrite Hpg, lookup_delete_ne by lia. done.
Qed.
(** The pages go back to the page allocator, the statistics shrink. *)
Lemma pages_back (s : state) g x o h m : good s g → heap_pages g !! (base + x) = Some o → h.(statistics).(current_pages) = s.(sy_world).(w_heap).(statistics).(current_pages) →
  ∃ a', (_ ← page_release x o; statistics_remove_pages o) (st s h m) =
      Done (tt, set_world s (mk_world (set_statistics h (set_pages h.(statistics) (h.(statistics).(current_pages) - 2 ^ o) h.(statistics).(peak_pages))) m s.(sy_world).(w_ext)) a') ∧
    serving layout a' ∧ spec_of a' = returned (pool s) x o ∧ pool_ok layout (returned (pool s) x o).
Proof.
  intros (Hs & _ & Hk) Hx Ec. destruct (heap_block Hk _ _ Hx) as (y & Ey & Hb). assert (y = x) as -> by lia. destruct (serving_block layout _ x o 1 Hs Hb) as (Ho & _ & Hux & _).
  destruct (serving_release layout _ x o Hs Hux Ho Hb) as (a' & E & Hs' & Ea). exists a'.
  assert (E1 : page_release x o (st s h m) = Done (PHYSICAL_PAGE_STATUS_OK, set_world s (mk_world h m s.(sy_world).(w_ext)) a')) by (unfold page_release; cbn [st set_world sy_allocator]; by rewrite E).
  assert (Hcur : 2 ^ o ≤ h.(statistics).(current_pages)).
  { rewrite Ec, (hk_current Hk), (sum_map_delete _ _ _ _ Hx). assert (0 ≤ sum_map (λ o, 2 ^ o) (delete (base + x) (heap_pages g))); [|lia].
    apply sum_map_nonneg. intros q k [_ Hq]%lookup_delete_Some. pose proof (heap_page_order Hk q k Hq). pose proof (pow_pos k). lia. }
  split; [|split; [done|split; [done|unfold returned; rewrite <-Ea; by apply serving_pool]]]. step E1. unfold statistics_remove_pages, get_heap, mbind, ST_bind. cbn [set_world sy_world w_heap]. rewrite Z.shiftl_1_l, decide_True by done. done.
Qed.

(** ** A slot returned *)
Lemma slot_page w p g r i k : ok w p g → g.(g_slabs) !! r = Some i → used i k → r + 80 ≤ slot_at r i.(i_class) k < r + 4096 ∧ slot_at r i.(i_class) k mod 4096 ≠ 0.
Proof.
  intros Hk Hr [Hkc _]. pose proof (so_info _ _ _ _ _ (hk_slabs Hk) r i Hr) as Hi. destruct (slot_inside r _ k (io_class _ Hi) Hkc). destruct (info_count i Hi). destruct (so_page _ _ _ _ _ (hk_slabs Hk) r i Hr) as (Ha & _).
  split; [lia|]. rewrite (proj2 (page_value r (slot_at r i.(i_class) k) Ha ltac:(lia))). lia.
Qed.
Lemma slot_unique w p g r i k r' i' k' : ok w p g → g.(g_slabs) !! r = Some i → used i k → g.(g_slabs) !! r' = Some i' → used i' k' → slot_at r i.(i_class) k = slot_at r' i'.(i_class) k' → r = r' ∧ k = k'.
Proof.
  intros Hk Hr Hu Hr' Hu' E. destruct (slot_page _ _ g r i k Hk Hr Hu) as [H1 _]. destruct (slot_page _ _ g r' i' k' Hk Hr' Hu') as [H2 _].
  destruct (decide (r = r')) as [<-|Hne]; [|destruct (heap_apart Hk r 0 r' 0 (slab_page g r i Hr) (slab_page g r' i' Hr') Hne); simpl in *; lia]. split; [done|].
  rewrite Hr in Hr'. injection Hr' as <-. pose proof (so_info _ _ _ _ _ (hk_slabs Hk) r i Hr) as Hi. destruct (info_count i Hi). unfold slot_at in E. nia.
Qed.
Lemma live_give w p g r i i' lists x : ok w p g → g.(g_slabs) !! r = Some i → used i x → info_ok i' → i'.(i_class) = i.(i_class) → (∀ j, used i' j ↔ used i j ∧ j ≠ x) →
  ∀ q k, live (mk_ghost (without_slot g.(g_slabs) r i') g.(g_large) lists) q k ↔ live g q k ∧ q ≠ slot_at r i.(i_class) x.
Proof.
  intros Hk Hr Hx Hi' Hc Hu q k.
  assert (Hlook : ∀ a j y, (without_slot g.(g_slabs) r i' !! a = Some j ∧ used j y) ↔ (a ≠ r ∧ g.(g_slabs) !! a = Some j ∧ used j y) ∨ (a = r ∧ j = i' ∧ used i' y)).
  { intros a j y. unfold without_slot. case_decide as E.
    - rewrite lookup_delete_Some. split; [intros [[? ?] ?]; left; split; [congruence|done]|]. intros [(? & ? & ?)|(_ & _ & Hy)]; [split; [split; [congruence|done]|done]|by destruct (all_free i' y Hi' E)].
    - rewrite lookup_insert_Some. split; [intros [[[<- <-]|[? ?]] ?]; [by right|left; split; [congruence|done]]|]. intros [(? & ? & ?)|(-> & -> & ?)]; [split; [right; split; [congruence|done]|done]|split; [by left|done]]. }
  split.
  - intros [(a & j & y & Ha & Hy & -> & ->)|(o & Hq & ->)].
    + destruct (proj1 (Hlook a j y) (conj Ha Hy)) as [(Hne & Ha' & _)|(-> & -> & [Hy' Hyx]%Hu)].
      * split; [left; by exists a, j, y|]. intros E. by destruct (slot_unique _ _ g a j y r i x Hk Ha' Hy Hr Hx E).
      * rewrite Hc. split; [left; by exists r, i, y|]. intros E. by destruct (slot_unique _ _ g r i y r i x Hk Hr Hy' Hr Hx E).
    + split; [right; by exists o|]. intros ->. destruct (slot_page _ _ g r i x Hk Hr Hx) as [_ Hm]. destruct (heap_block Hk _ _ (large_page Hk _ o Hq)) as (y & Ey & Hb). destruct (block_bytes Hk y o 1 Hb) as (_ & _ & Ha & _). congruence.
  - intros [[(a & j & y & Ha & Hy & -> & ->)|(o & Hq & ->)] Hne]; [|right; by exists o]. left. destruct (decide (a = r)) as [->|Har].
    + rewrite Hr in Ha. injection Ha as <-. destruct (proj2 (Hlook r i' y)) as [H1 H2]; [right; split; [done|split; [done|apply Hu; split; [done|by intros ->]]]|]. exists r, i', y. by rewrite Hc.
    + destruct (proj2 (Hlook a j y)) as [H1 H2]; [left; done|]. by exists a, j, y.
Qed.
(** One object less; the others keep their bytes. *)
Lemma differs_less w p g m' h' p' g' q n : ok w p g → held own w g q n → (∀ r k, live g' r k ↔ live g r k ∧ r ≠ q) →
  (∀ y, (∀ r j, g.(g_slabs) !! r = Some j → ¬ r ≤ y < r + 80) → ¬ q ≤ y < q + n → m' !! y = w.(w_mem) !! y) →
  (∀ y b, lent layout access physical_address own_blocks w p g y b → lent layout access physical_address own_blocks (mk_world h' m' w.(w_ext)) p' g' y b) →
  differs layout access physical_address own own_blocks (Some (q, n)) None None w p g (mk_world h' m' w.(w_ext)) p' g'.
Proof.
  intros Hk [Hq Hq0] Hlive Hm Hlent. split; [|done|..].
  - intros r k. unfold held. cbn [w_ext]. rewrite Hlive. split; [|intros [[[Hl Ho] Hne]|?]; [|done]].
    + intros [[Hl Hne] Ho]. left. split; [done|]. by intros [= <- <-].
    + split; [split; [done|]|done]. intros ->. apply Hne. by rewrite (live_unique Hk q k n Hl Hq).
  - intros r k [Hl _] Hne y Hy. cbn [w_mem]. apply Hm; [intros a j Ha; by apply (live_no_header Hk r k y a j)|]. destruct (live_apart Hk r k q n Hl Hq); [|lia|lia].
    intros ->. apply Hne. by rewrite (live_unique Hk q k n Hl Hq).
  - intros y b Hy _. by apply Hlent.
  - intros y o k [Hf _] _ z Hz. cbn [w_mem]. apply Hm; [intros a j Ha Hin; apply (foreign_no_slab Hk y o k z a j Hf Hz Ha); lia|].
    destruct (live_block Hk q n Hq) as (a & o' & Ha & ? & ? & ? & _). unfold BOAROS_PAGE_SIZE in Hz. destruct (foreign_apart Hk y o k a o' Hf Ha); lia.
Qed.

(** Nothing is left where the pointer leads: a free slot, or no block. *)
Definition gone (s : state) (g : ghost) (q : Z) : Prop :=
  (∃ p i k, g.(g_slabs) !! p = Some i ∧ k ∈ i.(i_free) ∧ q = slot_at p i.(i_class) k) ∨
  (q ≠ 0 ∧ ∃ x, physical_address (Z.land q (Z.lnot BOAROS_PAGE_MASK)) = Some x ∧ is_u64 x ∧ (pool s).(sp_blocks) !! x = None).
#[local] Abbreviation one_less := (count (λ t, set_live t (u64 (t.(live_allocations) - 1)))).
Lemma slot_counts w p g r i k : ok w p g → g.(g_slabs) !! r = Some i → used i k → 1 ≤ w.(w_heap).(statistics).(live_allocations).
Proof.
  intros Hk Hr Hu. rewrite (hk_live Hk), (sum_map_delete _ _ _ _ Hr). pose proof (so_info _ _ _ _ _ (hk_slabs Hk) r i Hr) as Hi. pose proof (used_room i k Hi Hu).
  assert (0 ≤ sum_map used_count (delete r g.(g_slabs))) by (apply sum_map_nonneg; intros a j [_ Ha]%lookup_delete_Some; by apply (used_count_bounds Hk a j)). unfold used_count at 1. lia.
Qed.
Lemma slot_returned (s : state) g p i k x : good s g → g.(g_slabs) !! p = Some i → used i k → p = base + x → own s.(sy_world).(w_ext) !! slot_at p i.(i_class) k = None →
  ∃ s' g', (_ ← release_slot p k x; one_less) s = Done (tt, s') ∧ good s' g' ∧ change (Some (slot_at p i.(i_class) k, class_size i.(i_class))) None None s g s' g' ∧ gone s' g' (slot_at p i.(i_class) k).
Proof.
  intros Hg Hp Hu Ex Hno. pose proof Hg as (Hs & Hh & Hk). destruct s as [a hk re [h m e]]. cbn [sy_allocator sy_hooks sy_world w_ext] in *. subst hk. set (s := mk_system a hooks re (mk_world h m e)) in *.
  pose proof (so_info _ _ _ _ _ (hk_slabs Hk) p i Hp) as Hi. pose proof (slot_counts _ _ g p i k Hk Hp Hu) as H1. pose proof (live_bound Hk) as Hlb. cbn [w_heap] in H1, Hlb.
  destruct (release_slot_run heap Hheap s h m _ _ p i k x (hk_slabs Hk) (hk_settled Hk) Hp Hu) as (words & partial & m' & lists' & E & Hw & Hi' & Hok' & Hset' & Hd & Hm).
  destruct (give_used i k words Hi Hu Hw) as [Hu' Hcnt]. set (i' := give_slot i words k) in *. set (q := slot_at p i.(i_class) k) in *.
  pose proof (live_give _ _ g p i i' lists' k Hk Hp Hu Hi' eq_refl Hu') as Hlive. fold q in Hlive. set (g' := mk_ghost (without_slot g.(g_slabs) p i') g.(g_large) lists') in *.
  assert (Hown : ∀ r n, own e !! r = Some n → live g' r n) by (intros r n Hr; apply Hlive; split; [by apply (hk_own Hk)|congruence]).
  assert (Hheld : held own (mk_world h m e) g q (class_size i.(i_class))) by (split; [left; by exists p, i, k|done]). destruct (info_count i Hi) as [_ Hsz].
  assert (Hm' : ∀ y, (∀ r j, g.(g_slabs) !! r = Some j → ¬ r ≤ y < r + 80) → ¬ q ≤ y < q + class_size i.(i_class) → m' !! y = m !! y) by (intros y Hy1 Hy2; apply Hm; [done|lia]).
  unfold mbind at 1, ST_bind at 1. change s with (st s h m) at 1. rewrite E. unfold without_slot in Hok', Hset'. destruct (decide (Z.of_nat (length i'.(i_free)) = i_count i')) as [Efull|Efull].
  - assert (Hpx : heap_pages g !! (base + x) = Some 0) by (rewrite <-Ex; by apply (slab_page g p i)).
    destruct (pages_back s g x 0 (set_partial h partial) m' Hg Hpx eq_refl) as (a' & E2 & Hs' & Ea & Hpool). rewrite E2. eexists _, g'. split; [reflexivity|].
    assert (Eg : g_slabs g' = delete p g.(g_slabs)) by (unfold g', without_slot; cbn [g_slabs]; by rewrite decide_True).
    assert (Hpg : heap_pages g' = delete (base + x) (heap_pages g)).
    { unfold heap_pages. rewrite Eg, fmap_delete, delete_union, <-Ex. f_equal. cbn [g' g_large]. by rewrite delete_id by (by apply (hk_disjoint Hk p i)). }
    cbn [set_world sy_world sy_allocator]. split; [split; [done|split; [done|]]|split].
    + cbn [set_world st sy_world sy_allocator w_heap w_mem w_ext s]. rewrite Ea. apply (ok_drop_block (mk_world h m e) _ g x 0 g' m' _ Hk Hpx Hpg Hpool); try done.
      * by rewrite Eg.
      * by rewrite Eg.
      * by apply (hk_init Hk).
      * rewrite Eg. intros r j [_ Hr]%lookup_delete_Some. by apply (hk_disjoint Hk r j).
      * cbn [w_heap set_statistics set_partial statistics set_pages set_live live_allocations]. rewrite u64_small by mlia. rewrite Eg. cbn [g' g_large]. pose proof (hk_live Hk) as El. cbn [w_heap] in El. rewrite El, (sum_map_delete _ _ _ _ Hp).
        assert (used_count i' = 0) by (unfold used_count; lia). lia.
    + cbn [set_world st sy_world sy_allocator w_heap w_mem w_ext s]. rewrite Ea. apply (differs_less (mk_world h m e) _ g m' _ _ g' q _ Hk Hheld Hlive Hm'). by apply (lent_kept (mk_world h m e) _ g g' x 0).
    + right. cbn [set_world sy_allocator]. rewrite Ea. destruct (slot_page _ _ g p i k Hk Hp Hu) as [Hin _]. destruct (so_page _ _ _ _ _ (hk_slabs Hk) p i Hp) as (Hpm & Hp0 & _). fold q in Hin. split; [lia|].
      destruct (slab_block _ _ g p i Hk Hp) as (y & Ey & _ & Hph & Hux & _). assert (y = x) as -> by lia. rewrite (proj1 (page_value p q Hpm ltac:(lia))). exists x. split; [done|]. split; [done|]. apply lookup_delete_eq.
  - eexists _, (with_slab g p i' lists'). split; [reflexivity|]. assert (Eg : g' = with_slab g p i' lists') by (unfold g', without_slot, with_slab; by rewrite decide_False). rewrite <-Eg.
    cbn [st set_world sy_world sy_allocator w_heap w_mem w_ext set_partial statistics]. split; [split; [done|split; [done|]]|split].
    + cbn [set_world st sy_world sy_allocator w_heap w_mem w_ext s]. rewrite u64_small by mlia. rewrite Eg in *. apply (ok_with_slab layout heap access physical_address own own_blocks (mk_world h m e) _ g p i i' lists' partial _ m' Hk Hp Hok' Hset' Hd); [cbn [w_heap]; lia|done].
    + cbn [set_world st sy_world sy_allocator w_heap w_mem w_ext s]. apply (differs_less (mk_world h m e) _ g m' _ _ g' q _ Hk Hheld Hlive Hm'). intros y b [[Hy1 Hy2] Hy3]. split; [split; [done|]|done]. by rewrite Eg, (heap_pages_slab g p i).
    + left. exists p, i', k. rewrite Eg. split; [apply lookup_insert_eq|]. split; [left|done].
Qed.

(** ** A block returned *)
Lemma large_counts w p g q o : ok w p g → g.(g_large) !! q = Some o → 1 ≤ w.(w_heap).(statistics).(live_allocations).
Proof.
  intros Hk Hq. rewrite (hk_live Hk). assert (0 ≤ sum_map used_count g.(g_slabs)) by (apply sum_map_nonneg; intros a j Ha; by apply (used_count_bounds Hk a j)).
  assert (size g.(g_large) ≠ 0%nat) by (intros E; apply map_size_empty_inv in E; by rewrite E in Hq). lia.
Qed.
Lemma block_returned (s : state) g q o x : good s g → g.(g_large) !! q = Some o → q = base + x → own s.(sy_world).(w_ext) !! q = None →
  ∃ s' g', (_ ← (_ ← page_release x o; statistics_remove_pages o); one_less) s = Done (tt, s') ∧ good s' g' ∧ change (Some (q, BOAROS_PAGE_SIZE * 2 ^ o)) None None s g s' g' ∧ gone s' g' q.
Proof.
  intros Hg Hq Ex Hno. pose proof Hg as (Hs & Hh & Hk). destruct s as [a hk re [h m e]]. cbn [sy_allocator sy_hooks sy_world w_ext] in *. subst hk. set (s := mk_system a hooks re (mk_world h m e)) in *.
  pose proof (large_counts _ _ g q o Hk Hq) as H1. pose proof (live_bound Hk) as Hlb. cbn [w_heap] in H1, Hlb. assert (Hpx : heap_pages g !! (base + x) = Some o) by (rewrite <-Ex; by apply (large_page Hk)).
  assert (Hns : g.(g_slabs) !! q = None) by (destruct (g.(g_slabs) !! q) as [j|] eqn:E; [pose proof (hk_disjoint Hk q j E); congruence|done]).
  destruct (pages_back s g x o h m Hg Hpx eq_refl) as (a' & E2 & Hs' & Ea & Hpool). set (g' := mk_ghost g.(g_slabs) (delete q g.(g_large)) g.(g_lists)).
  assert (Hpg : heap_pages g' = delete (base + x) (heap_pages g)) by (unfold heap_pages, g'; cbn [g_slabs g_large]; rewrite delete_union, <-Ex; f_equal; rewrite delete_id; [done|]; by rewrite lookup_fmap, Hns).
  assert (Hlive : ∀ r k, live g' r k ↔ live g r k ∧ r ≠ q).
  { intros r k. unfold live, in_slot, in_block, g'. cbn [g_slabs g_large]. split.
    - intros [(b & j & y & Hb & Hy & -> & ->)|(o' & [Hne Hr]%lookup_delete_Some & ->)]; [|split; [right; by exists o'|congruence]]. split; [left; by exists b, j, y|].
      intros E. destruct (slot_page _ _ g b j y Hk Hb Hy) as [_ Hm]. destruct (heap_block Hk _ _ (large_page Hk q o Hq)) as (z & Ez & Hz). destruct (block_bytes Hk z o 1 Hz) as (_ & _ & Ha & _). congruence.
    - intros [[?|(o' & Hr & ->)] Hne]; [by left|right; exists o'; by rewrite lookup_delete_ne]. }
  assert (Hheld : held own (mk_world h m e) g q (BOAROS_PAGE_SIZE * 2 ^ o)) by (split; [right; by exists o|done]).
  unfold mbind at 1, ST_bind at 1. change s with (st s h m) at 1. rewrite E2. eexists _, g'. split; [reflexivity|]. cbn [set_world sy_world sy_allocator]. split; [split; [done|split; [done|]]|split].
  - cbn [set_world st sy_world sy_allocator w_heap w_mem w_ext s]. rewrite Ea. apply (ok_drop_block (mk_world h m e) _ g x o g' m _ Hk Hpx Hpg Hpool); try done; try apply Hk.
    + cbn [g' g_slabs g_large]. intros r j Hr. apply lookup_delete_None. right. by apply (hk_disjoint Hk r j).
    + cbn [set_statistics statistics set_pages set_live live_allocations g' g_slabs g_large]. rewrite u64_small by mlia. pose proof (hk_live Hk) as El. cbn [w_heap] in El. rewrite map_size_delete, Hq, El.
      assert (size g.(g_large) ≠ 0%nat) by (intros E; apply map_size_empty_inv in E; by rewrite E in Hq). cbn [w_heap] in *. lia.
    + intros r n Hr. cbn [w_ext] in Hr. apply Hlive. split; [by apply (hk_own Hk)|congruence].
  - cbn [set_world st sy_world sy_allocator w_heap w_mem w_ext s]. rewrite Ea. apply (differs_less (mk_world h m e) _ g m _ _ g' q _ Hk Hheld Hlive); [done|]. by apply (lent_kept (mk_world h m e) _ g g' x o).
  - right. cbn [set_world sy_allocator]. rewrite Ea. destruct (heap_block Hk _ _ Hpx) as (y & Ey & Hb). assert (y = x) as -> by lia. destruct (block_bytes Hk x o 1 Hb) as (_ & _ & Ha & H0 & _ & _ & _ & _ & Hph). destruct (serving_block layout _ x o 1 Hs Hb) as (_ & _ & Hux & _).
    split; [lia|]. exists x. rewrite Ex, (proj1 (page_value (base + x) (base + x) Ha ltac:(lia))). split; [done|]. split; [done|]. apply lookup_delete_eq.
Qed.

(** ** Release *)
Lemma heap_release_run (s : state) g q n : good s g → held own s.(sy_world) g q n →
  ∃ s' g', kernel_heap_release heap physical_address q s = Done (tt, s') ∧ good s' g' ∧ change (Some (q, n)) None None s g s' g' ∧ gone s' g' q.
Proof.
  intros Hg [Hl Hno]. pose proof Hg as (Hs & Hh & Hk). unfold kernel_heap_release. assert (Eg : get_heap s = Done (s.(sy_world).(w_heap), s)) by done. step Eg.
  rewrite (ST_lift_bind _ _ _ tt) by (apply trap_if_ok; by rewrite (hk_init Hk)). assert (Hq0 : q ≠ 0).
  { destruct (live_block Hk q n Hl) as (b & o & Hb & ? & _). destruct (heap_block Hk b o Hb) as (x & -> & Hx). destruct (block_bytes Hk x o 1 Hx) as (_ & _ & _ & ? & _). lia. }
  rewrite decide_False by done. destruct Hl as [(p & i & k & Hp & Hu & -> & ->)|(o & Hq & ->)].
  - destruct (information_slot s g p i k Hg Hp (proj1 Hu)) as (x & Ex & Hb & Ei). rewrite (proj2 Hu) in Ei. step Ei. cbn [al_slot al_address].
    assert (Ev : slab_metadata_valid heap p s = Done (true, s)).
    { destruct s as [a hk re [h m e]]. by apply (slab_metadata_valid_run heap Hheap (mk_system a hk re (mk_world h m e)) h m _ _ p i (hk_slabs Hk) (hk_settled Hk)). }
    step Ev. pose proof (slot_counts _ _ g p i k Hk Hp Hu). rewrite (ST_lift_bind _ _ _ tt) by (apply trap_if_ok; intros [?|?]; [done|lia]). by apply slot_returned.
  - destruct (information_block s g q o Hg Hq) as (x & Ex & Hb & Hux & Ei). step Ei. cbn [al_slot al_address al_order]. rewrite (ST_bind_eq _ _ _ true s) by done.
    pose proof (large_counts _ _ g q o Hk Hq). rewrite (ST_lift_bind _ _ _ tt) by (apply trap_if_ok; intros [?|?]; [done|lia]). by apply block_returned.
Qed.
(** Releasing a slot twice, or a pointer into a free page, traps. *)
Lemma release_free_slot_traps (s : state) g p i k : good s g → g.(g_slabs) !! p = Some i → k ∈ i.(i_free) → kernel_heap_release heap physical_address (slot_at p i.(i_class) k) s = trap.
Proof.
  intros Hg Hp Hin. pose proof Hg as (Hs & Hh & Hk). pose proof (so_info _ _ _ _ _ (hk_slabs Hk) p i Hp) as Hi. destruct (io_free _ Hi) as [_ Hf]. apply Hf in Hin as [Hkc Hb]. destruct (slot_inside p _ k (io_class _ Hi) Hkc).
  destruct (so_page _ _ _ _ _ (hk_slabs Hk) p i Hp) as (_ & Hp0 & _). unfold kernel_heap_release. assert (Eg : get_heap s = Done (s.(sy_world).(w_heap), s)) by done. step Eg.
  rewrite (ST_lift_bind _ _ _ tt) by (apply trap_if_ok; by rewrite (hk_init Hk)). rewrite decide_False by lia. destruct (information_slot s g p i k Hg Hp Hkc) as (x & _ & _ & Ei). rewrite Hb in Ei. by step Ei.
Qed.
Lemma release_free_page_traps (s : state) g q x : good s g → physical_address (Z.land q (Z.lnot BOAROS_PAGE_MASK)) = Some x → q ≠ 0 → is_u64 x → (pool s).(sp_blocks) !! x = None →
  kernel_heap_release heap physical_address q s = trap.
Proof.
  intros Hg Hph Hq Hux Hb. pose proof Hg as (Hs & Hh & Hk). unfold kernel_heap_release. assert (Eg : get_heap s = Done (s.(sy_world).(w_heap), s)) by done. step Eg.
  rewrite (ST_lift_bind _ _ _ tt) by (apply trap_if_ok; by rewrite (hk_init Hk)). rewrite decide_False by done. assert (Ei : ∃ e, information q s = Done (inl e, s)); [|destruct Ei as [e Ei]; by step Ei].
  unfold allocation_information. rewrite Hph. case_decide; [by eexists|]. assert (Eo : page_order x s = Done ((if decide (x ∈ (pool s).(sp_free)) then PHYSICAL_PAGE_STATUS_DOUBLE_FREE else PHYSICAL_PAGE_STATUS_INVALID, None), s)).
  { unfold page_order. by rewrite (serving_order layout _ x Hs Hux), Hb. }
  step Eo. rewrite decide_True by (by case_decide). by eexists.
Qed.
Lemma release_gone_traps (s : state) g q : good s g → gone s g q → kernel_heap_release heap physical_address q s = trap.
Proof.
  intros Hg [(p & i & k & Hp & Hk & ->)|(Hq & x & Hph & Hux & Hb)]; [by apply (release_free_slot_traps s g)|by apply (release_free_page_traps s g q x)].
Qed.
End ops.

(** ** Writing to objects, zeroed memory and resizing *)
Import Heap StringOps BootMemory PhysicalPage PageSpec PageReclaim DirectMap SlabHeap.

Section ops.
Context {ext : Type} (layout : boot_memory_layout) (heap : Z) (Hheap : is_u64 heap).
Context (access : Z → Z) (physical_address : Z → option Z) `{DM : !DirectMap (managed layout) access physical_address}.
Context (own : ext → gmap Z Z) (own_blocks : ext → gmap Z (Z * Z)).
#[local] Abbreviation world := (heap_world ext).
#[local] Abbreviation state := (page_system world).
#[local] Abbreviation base := (dm_base (DirectMap := DM)).
#[local] Abbreviation ok := (heap_ok layout heap access physical_address own own_blocks).
Context (rounds : world → nat) (hooks : physical_page_reclaim_hooks world).
Context (Hhooks : hooks_ok layout (fine layout heap access physical_address own own_blocks) (evolves layout heap access physical_address own own_blocks) rounds hooks).
#[local] Abbreviation pool s := (spec_of s.(sy_allocator)).
#[local] Abbreviation good := (SlabWorldTheory.good layout heap access physical_address own own_blocks hooks).
#[local] Abbreviation change lost won spent s g s' g' := (differs layout access physical_address own own_blocks lost won spent s.(sy_world) (pool s) g s'.(sy_world) (pool s') g').
#[local] Abbreviation same s g s' g' := (keeps layout access physical_address own own_blocks s.(sy_world) (pool s) g s'.(sy_world) (pool s') g').
#[local] Abbreviation served := (SlabHeapTheory.served layout access physical_address own own_blocks).
#[local] Abbreviation memory s := (s.(sy_world).(w_mem)).

(** ** Writing inside an object *)
Definition writes_in (m m' : mem) (q n : Z) : Prop := mem_ok m' ∧ same_domain m m' ∧ ∀ y, ¬ q ≤ y < q + n → m' !! y = m !! y.
Definition with_memory (s : state) (m : mem) : state := st s s.(sy_world).(w_heap) m.
Lemma good_write (s : state) g q n m' : good s g → live g q n → writes_in (memory s) m' q n → good (with_memory s m') g.
Proof.
  intros (Hs & Hh & Hk) Hl (Hb & Hd & Ho). split; [done|]. split; [done|]. cbn [with_memory st set_world sy_world sy_allocator].
  assert (Hok : slabs_ok heap m' s.(sy_world).(w_heap).(partial_slabs) g.(g_slabs) g.(g_lists)); [|destruct Hk; split; try done; intros y Hy; eapply mapped_same_domain; [exact Hd|by apply hk_mapped]].
  apply (slabs_user heap (memory s) _ _ _ m' (hk_slabs Hk) Hb Hd). intros r j y Hr Hy Hne. assert (Hin : q ≤ y < q + n) by (apply dec_stable; intros Hn; by apply Hne, Ho).
  destruct Hl as [(p & i & k & Hp & Hu & -> & ->)|(o & Hq & ->)].
  - destruct (decide (r = p)) as [->|Hrp]; [rewrite Hp in Hr; injection Hr as <-; by exists k|]. pose proof (so_info _ _ _ _ _ (hk_slabs Hk) p i Hp) as Hi. destruct (slot_inside p _ k (io_class _ Hi) (proj1 Hu)).
    destruct (heap_apart Hk r 0 p 0 (slab_page g r j Hr) (slab_page g p i Hp) Hrp); simpl in *; lia.
  - pose proof (hk_disjoint Hk r j Hr). unfold BOAROS_PAGE_SIZE in Hin. destruct (heap_apart Hk r 0 q o (slab_page g r j Hr) (large_page Hk q o Hq)); [by intros ->; congruence|simpl in *; lia..].
Qed.
Lemma differs_write (s s1 : state) g g1 q k m' : change None (Some (q, k)) None s g s1 g1 → good s1 g1 → writes_in (memory s1) m' q k → change None (Some (q, k)) None s g (with_memory s1 m') g1.
Proof.
  intros Hch (_ & _ & Hk) (_ & _ & Ho). assert (Hq : live g1 q k) by (apply (df_held Hch q k); by right).
  split; cbn [with_memory st set_world sy_world sy_allocator w_mem w_ext]; try apply Hch.
  - intros r n Hr Hne y Hy. rewrite Ho; [by apply (df_bytes Hch r n)|]. assert (Hr1 : live g1 r n) by (apply (df_held Hch r n); by left). destruct (live_apart Hk r n q k Hr1 Hq); [|lia|lia]. intros ->. by apply (df_fresh Hch q k n eq_refl).
  - intros x o n Hx Hne y Hy. rewrite Ho; [by apply (df_pages Hch x o n)|]. destruct (df_lent Hch x (o, n) Hx Hne) as [Hf _]. destruct (live_block Hk q k Hq) as (a & o' & Ha & ? & ? & ? & _).
    unfold BOAROS_PAGE_SIZE in Hy. destruct (foreign_apart Hk x o n a o' Hf Ha); lia.
Qed.
Lemma live_mapped w p g q n : ok w p g → live g q n → mapped w.(w_mem) q n.
Proof.
  intros Hk Hl. destruct (live_block Hk q n Hl) as (a & o & Ha & ? & ? & ? & _). destruct (heap_block Hk a o Ha) as (x & -> & Hb). destruct (block_bytes Hk x o 1 Hb) as (_ & _ & _ & _ & _ & _ & Hm & _).
  intros y Hy. apply Hm. lia.
Qed.

(** ** Zeroed memory *)
Lemma served_object size (s : state) g q s' g' : 0 < size → served size s g KERNEL_HEAP_STATUS_OK q s' g' → size ≤ 4096 * 2 ^ 31 ∧ ∃ k, size ≤ k ∧ change None (Some (q, k)) None s g s' g'.
Proof.
  intros Hs. unfold SlabHeapTheory.served. rewrite decide_False by lia. case_decide; [by intros (? & _)|]. intros [(_ & _ & k & Hk & Hch)|(? & _)]; [|done]. split; [lia|]. by exists k.
Qed.
Lemma served_again size (s : state) g q s1 s' g' : 0 < size → served size s g KERNEL_HEAP_STATUS_OK q s1 g' → (∀ k, size ≤ k → change None (Some (q, k)) None s g s1 g' → change None (Some (q, k)) None s g s' g') →
  served size s g KERNEL_HEAP_STATUS_OK q s' g'.
Proof.
  intros Hs. unfold SlabHeapTheory.served, allocated. rewrite !(decide_False (P := size = 0)) by lia. case_decide; [by intros (? & _)|]. intros [(_ & Hq & k & Hk & Hch)|(E0 & _)] Hn; [|discriminate E0]. left. split; [done|]. split; [done|]. exists k. split; [done|by apply Hn].
Qed.
Lemma memset_writes m q n k : mem_ok m → mapped m q n → 0 ≤ n ≤ k → ∃ m', memset m q 0 n = Done (q, m') ∧ writes_in m m' q k ∧ ∀ y, q ≤ y < q + n → m' !! y = Some 0.
Proof.
  intros Hb Hm Hn. destruct (memset_run m q 0 n ltac:(lia) Hm) as (m' & E & Hx). change (0 mod 256) with 0 in Hx. exists m'. split; [done|]. split; [|intros y Hy; rewrite Hx; by rewrite decide_True]. split; [|split].
  - intros y b. rewrite Hx. case_decide; [intros [= <-]; by unfold byte_ok|apply Hb].
  - intros y. rewrite Hx. case_decide; [|done]. split; [by intros _; apply Hm|by eexists].
  - intros y Hy. rewrite Hx. by rewrite decide_False by lia.
Qed.
Lemma with_memory_same (s : state) : with_memory s (memory s) = s.
Proof. by destruct s as [? ? ? [? ? ?]]. Qed.
Lemma heap_zeroed_run (s : state) g n size : good s g → is_u64 n → is_u64 size →
  ∃ status q s' g', kernel_heap_allocate_zeroed heap access rounds n size s = Done ((status, q), s') ∧ good s' g' ∧
    if decide (UINT64_MAX < n * size) then status = KERNEL_HEAP_STATUS_OVERFLOW ∧ q = 0 ∧ same s g s' g'
    else served (n * size) s g status q s' g' ∧ (status = KERNEL_HEAP_STATUS_OK → ∀ y, q ≤ y < q + n * size → memory s' !! y = Some 0).
Proof.
  intros Hg Hn Hz. pose proof Hg as (_ & _ & Hk). unfold kernel_heap_allocate_zeroed. assert (Eg : get_heap s = Done (s.(sy_world).(w_heap), s)) by done. step Eg. rewrite (hk_init Hk). rewrite decide_False by done.
  assert (Hover : (size ≠ 0 ∧ UINT64_MAX / size < n) ↔ UINT64_MAX < n * size).
  { unfold is_u64 in Hz, Hn. split.
    - intros [H0 H1]. assert (Hpos : 0 < size) by lia. pose proof (Z.mul_succ_div_gt UINT64_MAX size Hpos). assert (size * Z.succ (UINT64_MAX / size) ≤ size * n) by (apply Z.mul_le_mono_nonneg_l; lia). lia.
    - intros H1. assert (size ≠ 0) by (intros ->; rewrite Z.mul_0_r in H1; done). split; [done|]. apply Z.div_lt_upper_bound; lia. }
  destruct (decide (UINT64_MAX < n * size)) as [Hbig|Hbig].
  { rewrite decide_True by (by apply Hover). destruct (stat_count_run layout heap access physical_address own own_blocks hooks s g (λ t, count_failure (count_call t)) Hg ltac:(done)) as (s1 & E1 & Hg1 & Hsame & _). step E1. exists KERNEL_HEAP_STATUS_OVERFLOW, 0, s1, g. by split_and!. }
  rewrite decide_False by (by rewrite Hover). assert (Hu : is_u64 (n * size)) by (unfold is_u64 in *; nia). rewrite u64_small by done.
  destruct (heap_allocate_run layout heap Hheap access physical_address own own_blocks rounds hooks Hhooks s g (n * size) Hg Hu) as (status & q & s1 & g1 & E & Hg1 & Hserved). step E.
  destruct (decide (status ≠ KERNEL_HEAP_STATUS_OK)) as [Hs|Hs].
  { exists status, 0, s1, g1. split; [done|]. split; [done|]. split; [|done]. unfold SlabHeapTheory.served in *. case_decide; [by destruct Hserved|]. case_decide; [naive_solver|]. destruct Hserved as [(? & _)|(-> & -> & ?)]; [done|by right]. }
  apply dec_stable in Hs as ->. assert (Egm : get_mem s1 = Done (memory s1, s1)) by done. step Egm.
  assert (Hb1 : mem_ok (memory s1)) by (destruct Hg1 as (_ & _ & Hk1); apply (so_bytes _ _ _ _ _ (hk_slabs Hk1))).
  destruct (decide (n * size = 0)) as [E0|E0].
  - rewrite E0 in *. assert (q = 0) as -> by (unfold SlabHeapTheory.served in Hserved; rewrite decide_True in Hserved by done; by destruct Hserved as (_ & ? & _)).
    destruct (memset_writes (memory s1) 0 0 0 Hb1 ltac:(intros y; lia) ltac:(lia)) as (m' & Em & (_ & _ & Ho) & _). step Em. assert (m' = memory s1) as -> by (apply map_eq; intros y; apply Ho; lia).
    assert (Ep : put_mem (memory s1) s1 = Done (tt, s1)) by (by destruct s1 as [? ? ? [? ? ?]]). step Ep. exists KERNEL_HEAP_STATUS_OK, 0, s1, g1. split; [done|]. split; [done|]. split; [done|]. intros _ y Hy. lia.
  - destruct (served_object (n * size) s g q s1 g1 ltac:(mlia) Hserved) as (_ & k & Hk1 & Hch). assert (Hq : live g1 q k) by (apply (df_held Hch q k); by right).
    pose proof Hg1 as (_ & _ & Hok1). destruct (memset_writes (memory s1) q (n * size) k Hb1) as (m' & Em & Hw & Hz0); [intros y Hy; apply (live_mapped _ _ g1 q k Hok1 Hq); lia|mlia|]. step Em.
    assert (Ep : put_mem m' s1 = Done (tt, with_memory s1 m')) by done. step Ep. exists KERNEL_HEAP_STATUS_OK, q, (with_memory s1 m'), g1. split; [done|]. split; [by apply (good_write s1 g1 q k)|]. split; [|by intros _].
    apply (served_again (n * size) s g q s1); [mlia|done|]. intros k' Hk' Hch'. assert (k' = k) as -> by (apply (live_unique Hok1 q); [apply (df_held Hch' q k'); by right|done]). by apply differs_write.
Qed.

(** ** Resizing *)
Lemma differs_swap (s s1 s2 : state) g g1 g2 q n r k : held own s.(sy_world) g q n → change None (Some (r, k)) None s g s1 g1 → change (Some (q, n)) None None s1 g1 s2 g2 → change (Some (q, n)) (Some (r, k)) None s g s2 g2.
Proof.
  intros Hq H1 H2. assert (Hrq : r ≠ q) by (intros ->; by apply (df_fresh H1 q k n eq_refl)). split.
  - intros a b. rewrite (df_held H2), (df_held H1). split; [|naive_solver]. intros [[[[? _]|[= <- <-]] ?]|?]; [by left|by right|done].
  - intros a b c E. by apply (df_fresh H1 a b c).
  - intros a b Ha Hne y Hy. rewrite (df_bytes H2 a b) by (try done; apply (df_held H1); by left). by apply (df_bytes H1 a b).
  - intros x b Hx Hne. apply (df_lent H2); [by apply (df_lent H1)|done].
  - intros x o b Hx Hne y Hy. rewrite (df_pages H2 x o b) by (try done; by apply (df_lent H1)). by apply (df_pages H1 x o b).
Qed.
(** Where the object went, and its bytes. *)
Definition resized (size q n : Z) (s : state) (g : ghost) (status : kernel_heap_status) (r : Z) (s' : state) (g' : ghost) : Prop :=
  (status = KERNEL_HEAP_STATUS_OK ∧ aligned16 r ∧ ∃ k, size ≤ k ∧ change (Some (q, n)) (Some (r, k)) None s g s' g' ∧ (r + k ≤ q ∨ q + n ≤ r) ∧ ∀ y, 0 ≤ y < n → memory s' !! (r + y) = memory s !! (q + y)) ∨
  (status = KERNEL_HEAP_STATUS_EMPTY ∧ r = 0 ∧ same s g s' g' ∧ exhausted layout size s g).
Lemma memcpy_writes m r q n k : mem_ok m → mapped m r n → mapped m q n → 0 ≤ n ≤ k → r + n ≤ q ∨ q + n ≤ r → ∃ m', memcpy m r q n = Done (r, m') ∧ writes_in m m' r k ∧ ∀ y, 0 ≤ y < n → m' !! (r + y) = m !! (q + y).
Proof.
  intros Hb Hr Hq Hn Hapart. destruct (copy_forward_run m r q n Hb Hr Hq ltac:(lia) ltac:(lia)) as (m' & E & Hx). unfold copying in Hx. rewrite Z.add_0_r in Hx. exists m'. split; [done|]. split; [split; [|split]|].
  - intros y b. rewrite Hx. case_decide; apply Hb.
  - intros y. rewrite Hx. case_decide; [|done]. split; intros _; [apply Hr; lia|apply Hq; lia].
  - intros y Hy. rewrite Hx. by rewrite decide_False by lia.
  - intros y Hy. rewrite Hx, decide_True by lia. f_equal. lia.
Qed.
Lemma information_run (s : state) g q n : good s g → live g q n → ∃ x o slot, allocation_information heap physical_address q s = Done (inr (mk_allocation x o n slot), s).
Proof.
  intros Hg [(p & i & k & Hp & Hu & -> & ->)|(o & Hq & ->)].
  - destruct (information_slot layout heap access physical_address own own_blocks hooks s g p i k Hg Hp (proj1 Hu)) as (x & _ & _ & E). rewrite (proj2 Hu) in E. by eexists _, _, _.
  - destruct (information_block layout heap access physical_address own own_blocks hooks s g q o Hg Hq) as (x & _ & _ & _ & E). by eexists _, _, _.
Qed.
(** The move of an object to a larger one. *)
Lemma move_run (s : state) g q n size : good s g → held own s.(sy_world) g q n → is_u64 size → n < size → size ≤ 4096 * 2 ^ 31 →
  ∃ status r s' g', ('(status, result) ← kernel_heap_allocate heap access rounds size;
     if decide (status ≠ KERNEL_HEAP_STATUS_OK) then mret (status, 0)
     else m ← get_mem; '(_, m) ← lift (memcpy m result q n); _ ← put_mem m; _ ← kernel_heap_release heap physical_address q; mret (KERNEL_HEAP_STATUS_OK, result)) s = Done ((status, r), s') ∧
    good s' g' ∧ resized size q n s g status r s' g'.
Proof.
  intros Hg Hq Hu Hsz Hmax. pose proof Hg as (_ & _ & Hk0). destruct (live_block Hk0 q n (proj1 Hq)) as (_ & _ & _ & _ & _ & Hn0 & _).
  destruct (heap_allocate_run layout heap Hheap access physical_address own own_blocks rounds hooks Hhooks s g size Hg Hu) as (status & r & s1 & g1 & E & Hg1 & Hserved). step E.
  unfold SlabHeapTheory.served in Hserved. rewrite !decide_False in Hserved by lia. destruct Hserved as [(-> & Hr & k & Hk & Hch)|(-> & -> & Hsame & Hst)].
  2: { rewrite decide_True by done. exists KERNEL_HEAP_STATUS_EMPTY, 0, s1, g1. split; [done|]. split; [done|]. by right. }
  rewrite decide_False by (intros H; by apply H). assert (Egm : get_mem s1 = Done (memory s1, s1)) by done. step Egm. pose proof Hg1 as (_ & _ & Hk1).
  assert (Hl1 : live g1 r k) by (apply (df_held Hch r k); by right). assert (Hq1 : held own s1.(sy_world) g1 q n) by (apply (df_held Hch q n); left; by split).
  assert (Hne : q ≠ r) by (intros ->; by apply (df_fresh Hch r k n eq_refl)). pose proof (live_apart Hk1 q n r k (proj1 Hq1) Hl1 Hne) as Hap.
  destruct (memcpy_writes (memory s1) r q n k (so_bytes _ _ _ _ _ (hk_slabs Hk1))) as (m' & Em & Hw & Hcopy); [intros y Hy; apply (live_mapped _ _ g1 r k Hk1 Hl1); lia|by apply (live_mapped _ _ g1 q n Hk1), Hq1|lia|lia|]. step Em.
  assert (Ep : put_mem m' s1 = Done (tt, with_memory s1 m')) by done. step Ep. pose proof (good_write s1 g1 r k m' Hg1 Hl1 Hw) as Hg2. pose proof (differs_write s s1 g g1 r k m' Hch Hg1 Hw) as Hch2.
  destruct (heap_release_run layout heap Hheap access physical_address own own_blocks hooks (with_memory s1 m') g1 q n Hg2 Hq1) as (s3 & g3 & E3 & Hg3 & Hch3 & _). step E3.
  exists KERNEL_HEAP_STATUS_OK, r, s3, g3. split; [done|]. split; [done|]. left. split; [done|]. split; [done|]. exists k. split; [done|]. split; [by apply (differs_swap s (with_memory s1 m') s3 g g1 g3)|]. split; [lia|].
  intros y Hy. assert (Hr3 : held own s1.(sy_world) g1 r k) by (apply (df_held Hch r k); by right). rewrite (df_bytes Hch3 r k Hr3) by (try lia; intros [= -> _]; done). cbn [with_memory st set_world sy_world w_mem].
  rewrite Hcopy by done. apply (df_bytes Hch q n Hq); [done|lia].
Qed.
Lemma heap_resize_run (s : state) g q n size : good s g → held own s.(sy_world) g q n → is_u64 size →
  ∃ status r s' g', kernel_heap_resize heap access physical_address rounds q size s = Done ((status, r), s') ∧ good s' g' ∧
    if decide (size = 0) then status = KERNEL_HEAP_STATUS_OK ∧ r = 0 ∧ change (Some (q, n)) None None s g s' g'
    else if decide (4096 * 2 ^ 31 < size) then status = KERNEL_HEAP_STATUS_OVERFLOW ∧ r = 0 ∧ s' = s ∧ g' = g
    else if decide (size ≤ n) then status = KERNEL_HEAP_STATUS_OK ∧ r = q ∧ s' = s ∧ g' = g
    else resized size q n s g status r s' g'.
Proof.
  intros Hg Hq Hu. pose proof Hg as (_ & _ & Hk). unfold kernel_heap_resize. assert (Eg : get_heap s = Done (s.(sy_world).(w_heap), s)) by done. step Eg. rewrite (hk_init Hk), decide_False by done.
  assert (Hq0 : q ≠ 0).
  { destruct (live_block Hk q n (proj1 Hq)) as (b & o & Hb & ? & _). destruct (heap_block Hk b o Hb) as (x & -> & Hx). destruct (block_bytes Hk x o 1 Hx) as (_ & _ & _ & ? & _). lia. }
  rewrite decide_False by done. destruct (decide (size = 0)) as [Hz|Hz].
  { destruct (heap_release_run layout heap Hheap access physical_address own own_blocks hooks s g q n Hg Hq) as (s1 & g1 & E & Hg1 & Hch & _). step E. exists KERNEL_HEAP_STATUS_OK, 0, s1, g1. by split_and!. }
  pose proof (allocation_order_spec size Hu ltac:(mlia)) as Ho. destruct (allocation_order_for_size size) as [o|].
  2: { exists KERNEL_HEAP_STATUS_OVERFLOW, 0, s, g. rewrite decide_True by done. by split_and!. }
  destruct Ho as (Ho & Hsz & _). assert (2 ^ o ≤ 2 ^ 31) by (apply Z.pow_le_mono_r; lia). destruct (decide (4096 * 2 ^ 31 < size)) as [|_]; [lia|].
  destruct (information_run s g q n Hg (proj1 Hq)) as (x & o' & slot & Ei). step Ei. cbn [al_capacity]. destruct (decide (size ≤ n)) as [Hle|Hle].
  - exists KERNEL_HEAP_STATUS_OK, q, s, g. by split_and!.
  - apply move_run; try done; lia.
Qed.
End ops.
