(* ===== verification/SlabClaims.v ===== *)
(** * The kernel heap keeps its promise *)
From S2P Require Import Prelude Bytes BootMemory Heap StringOps PhysicalPage PageSpec PageStateTheory PageRefine PageBootTheory StringCopyTheory PageClaims PageReclaim PageReclaimTheory DirectMap SlabHeap SlabBitsTheory SlabListTheory SlabSlotTheory SlabWorldTheory SlabHeapTheory SlabReleaseTheory.
Import Heap StringOps BootMemory PhysicalPage PageSpec PageReclaim DirectMap SlabHeap.
#[local] Open Scope Z_scope.

(** ** The promise *)
Abbreviation objects := (gmap Z (list Z)).
#[local] Abbreviation len l := (Z.of_nat (length l)).
Inductive heap_op :=
  | H_allocate (size : Z)
  | H_zeroed (n size : Z)
  | H_free (q : Z)
  | H_resize (q size : Z)
  | H_write (q : Z) (bytes : list Z).
(** The largest object: 2{^31} pages. *)
Definition LARGEST : Z := 4096 * 2 ^ 31.
Definition clear_of (L : objects) (q n : Z) : Prop := ∀ r l, L !! r = Some l → q + n ≤ r ∨ r + len l ≤ q.

Inductive heap_step (L : objects) : heap_op → kernel_heap_status → Z → objects → Prop :=
  | step_nothing : heap_step L (H_allocate 0) KERNEL_HEAP_STATUS_OK 0 L
  | step_allocate size q l : 0 < size ≤ len l → aligned16 q → L !! q = None → clear_of L q (len l) →
      heap_step L (H_allocate size) KERNEL_HEAP_STATUS_OK q (<[q := l]> L)
  | step_too_large size : LARGEST < size → heap_step L (H_allocate size) KERNEL_HEAP_STATUS_OVERFLOW 0 L
  | step_no_pages size : 0 < size ≤ LARGEST → heap_step L (H_allocate size) KERNEL_HEAP_STATUS_EMPTY 0 L
  | step_zeroed n size status q L' : n * size ≤ UINT64_MAX → heap_step L (H_allocate (n * size)) status q L' →
      (∀ l, status = KERNEL_HEAP_STATUS_OK → L' !! q = Some l → take (Z.to_nat (n * size)) l = replicate (Z.to_nat (n * size)) 0) →
      heap_step L (H_zeroed n size) status q L'
  | step_product n size : UINT64_MAX < n * size → heap_step L (H_zeroed n size) KERNEL_HEAP_STATUS_OVERFLOW 0 L
  | step_free_nothing : heap_step L (H_free 0) KERNEL_HEAP_STATUS_OK 0 L
  | step_free q l : L !! q = Some l → heap_step L (H_free q) KERNEL_HEAP_STATUS_OK 0 (delete q L)
  | step_resize_nothing size status q L' : heap_step L (H_allocate size) status q L' → heap_step L (H_resize 0 size) status q L'
  | step_resize_away q l : L !! q = Some l → heap_step L (H_resize q 0) KERNEL_HEAP_STATUS_OK 0 (delete q L)
  | step_resize_large q l size : L !! q = Some l → LARGEST < size → heap_step L (H_resize q size) KERNEL_HEAP_STATUS_OVERFLOW 0 L
  | step_resize_stay q l size : L !! q = Some l → 0 < size ≤ len l → heap_step L (H_resize q size) KERNEL_HEAP_STATUS_OK q L
  | step_resize_move q l size r l' : L !! q = Some l → len l < size ≤ len l' → aligned16 r → L !! r = None → clear_of L r (len l') → take (length l) l' = l →
      heap_step L (H_resize q size) KERNEL_HEAP_STATUS_OK r (<[r := l']> (delete q L))
  | step_resize_empty q l size : L !! q = Some l → len l < size ≤ LARGEST → heap_step L (H_resize q size) KERNEL_HEAP_STATUS_EMPTY 0 L
  | step_write q l bytes : L !! q = Some l → (length bytes ≤ length l)%nat → heap_step L (H_write q bytes) KERNEL_HEAP_STATUS_OK 0 (<[q := bytes ++ drop (length bytes) l]> L).

(** What a client may ask: sizes are 64 bits wide, only objects it holds. *)
Definition heap_allowed (L : objects) (op : heap_op) : Prop :=
  match op with
  | H_allocate size => is_u64 size
  | H_zeroed n size => is_u64 n ∧ is_u64 size
  | H_free q => q = 0 ∨ is_Some (L !! q)
  | H_resize q size => is_u64 size ∧ (q = 0 ∨ is_Some (L !! q))
  | H_write q bytes => Forall byte_ok bytes ∧ ∃ l, L !! q = Some l ∧ (length bytes ≤ length l)%nat
  end.
Definition size_asked (op : heap_op) : Z :=
  match op with H_allocate size | H_resize _ size => size | H_zeroed n size => n * size | _ => 0 end.

Section claims.
Context {ext : Type} (layout : boot_memory_layout) (heap : Z) (Hheap : is_u64 heap).
Context (access : Z → Z) (physical_address : Z → option Z) `{DM : !DirectMap (managed layout) access physical_address}.
Context (own : ext → gmap Z Z) (own_blocks : ext → gmap Z (Z * Z)).
#[local] Abbreviation world := (heap_world ext).
#[local] Abbreviation state := (page_system world).
#[local] Abbreviation base := (dm_base (DirectMap := DM)).
Context (rounds : world → nat) (hooks : physical_page_reclaim_hooks world).
#[local] Abbreviation pool s := (spec_of s.(sy_allocator)).
#[local] Abbreviation good := (SlabWorldTheory.good layout heap access physical_address own own_blocks hooks).
#[local] Abbreviation change lost won spent s g s' g' := (differs layout access physical_address own own_blocks lost won spent s.(sy_world) (pool s) g s'.(sy_world) (pool s') g').
#[local] Abbreviation same s g s' g' := (keeps layout access physical_address own own_blocks s.(sy_world) (pool s) g s'.(sy_world) (pool s') g').
#[local] Abbreviation served := (SlabHeapTheory.served layout access physical_address own own_blocks).
#[local] Abbreviation lends s g := (lent layout access physical_address own_blocks s.(sy_world) (pool s) g).
#[local] Abbreviation memory s := (s.(sy_world).(w_mem)).

(** ** The code behind each operation *)
Definition heap_exec (op : heap_op) : ST state (kernel_heap_status * Z) :=
  match op with
  | H_allocate size => kernel_heap_allocate heap access rounds size
  | H_zeroed n size => kernel_heap_allocate_zeroed heap access rounds n size
  | H_free q => _ ← kernel_heap_release heap physical_address q; mret (KERNEL_HEAP_STATUS_OK, 0)
  | H_resize q size => kernel_heap_resize heap access physical_address rounds q size
  | H_write q bytes => λ s, Done ((KERNEL_HEAP_STATUS_OK, 0), with_memory s (put (memory s) q bytes))
  end.

(** ** The map of a state *)
Definition tracked (s : state) (g : ghost) (L : objects) : Prop :=
  good s g ∧ ∀ q l, L !! q = Some l ↔ ∃ n, held own s.(sy_world) g q n ∧ l = peek (memory s) q (Z.to_nat n).
Definition after (lost won : option (Z * Z)) (m : mem) (L : objects) : objects :=
  let L := match lost with Some (q, _) => delete q L | None => L end in
  match won with Some (q, k) => <[q := peek m q (Z.to_nat k)]> L | None => L end.
Lemma held_unique (s : state) g q n k : good s g → held own s.(sy_world) g q n → held own s.(sy_world) g q k → n = k.
Proof. intros (_ & _ & Hk) [H1 _] [H2 _]. by apply (live_unique Hk q). Qed.
Lemma tracked_change (s s' : state) g g' L lost won spent : tracked s g L → good s' g' → change lost won spent s g s' g' → (∀ q n, lost = Some (q, n) → held own s.(sy_world) g q n) →
  tracked s' g' (after lost won (memory s') L).
Proof.
  intros [Hg HL] Hg' Hch Hlost. split; [done|]. assert (Hl : ∀ q n, held own s.(sy_world) g q n → lost ≠ Some (q, n) → ∀ k, lost ≠ Some (q, k)).
  { intros q n Hq Hne k E. apply Hne. rewrite E. f_equal. f_equal. by apply (held_unique s g q k n Hg); [apply Hlost|]. }
  assert (Hold : ∀ q l, match lost with Some (q, _) => delete q L | None => L end !! q = Some l ↔ ∃ n, held own s.(sy_world) g q n ∧ lost ≠ Some (q, n) ∧ l = peek (memory s) q (Z.to_nat n)).
  { intros q l. destruct lost as [[d k]|]; cbv iota beta.
    - rewrite lookup_delete_Some, HL. split; [intros (Hne & n & Hn & ->); exists n; split; [done|]; split; [congruence|done]|]. intros (n & Hn & Hne & ->). split; [|by exists n]. intros ->. by apply (Hl q n Hn Hne k).
    - rewrite HL. split; [intros (n & Hn & ->); by exists n|intros (n & Hn & _ & ->); by exists n]. }
  assert (Hpeek : ∀ q n, held own s.(sy_world) g q n → lost ≠ Some (q, n) → peek (memory s') q (Z.to_nat n) = peek (memory s) q (Z.to_nat n)).
  { intros q n Hq Hne. apply peek_ext. intros x Hx. apply (df_bytes Hch q n Hq Hne). lia. }
  intros q l. unfold after. destruct won as [[r k]|].
  - rewrite lookup_insert_Some, Hold. split.
    + intros [[<- <-]|(Hne & n & Hn & Hno & ->)]; [exists k; split; [apply (df_held Hch); by right|done]|]. exists n. split; [apply (df_held Hch); by left|symmetry; by apply Hpeek].
    + intros (n & Hn & ->). apply (df_held Hch) in Hn as [[Hn Hno]|[= <- <-]]; [right|by left]. split; [intros ->; by apply (df_fresh Hch q k n eq_refl)|]. exists n. split; [done|]. split; [done|by apply Hpeek].
  - rewrite Hold. split; [intros (n & Hn & Hno & ->); exists n; split; [apply (df_held Hch); by left|symmetry; by apply Hpeek]|].
    intros (n & Hn & ->). apply (df_held Hch) in Hn as [[Hn Hno]|?]; [|done]. exists n. split; [done|]. split; [done|by apply Hpeek].
Qed.
Lemma tracked_same (s s' : state) g g' L : tracked s g L → good s' g' → same s g s' g' → tracked s' g' L.
Proof. intros HL Hg Hsame. apply keeps_differ in Hsame. by apply (tracked_change s s' g g' L None None None HL Hg Hsame). Qed.

Lemma tracked_held (s : state) g L q l : tracked s g L → L !! q = Some l → held own s.(sy_world) g q (len l) ∧ l = peek (memory s) q (length l) ∧ 0 < len l ∧ q ≠ 0.
Proof.
  intros [(Hs & Hh & Hk) HL] Hq. apply HL in Hq as (n & Hn & ->). destruct (live_block Hk q n (proj1 Hn)) as (a & o & Ha & Haq & _ & Hn0 & _). rewrite length_peek, Z2Nat.id by lia.
  split; [done|]. split; [done|]. split; [done|]. destruct (heap_block Hk a o Ha) as (x & -> & Hx). destruct (block_bytes Hk x o 1 Hx) as (_ & _ & _ & ? & _). lia.
Qed.
(** A new object does not touch the old ones. *)
Lemma new_object (s s' : state) g g' L q k : tracked s g L → good s' g' → change None (Some (q, k)) None s g s' g' → L !! q = None ∧ clear_of L q k ∧ 0 < k.
Proof.
  intros HL (_ & _ & Hk') Hch. assert (Hq : live g' q k) by (apply (df_held Hch q k); by right). destruct (live_block Hk' q k Hq) as (_ & _ & _ & _ & _ & Hk0 & _).
  assert (Hno : L !! q = None) by (destruct (L !! q) as [l|] eqn:E; [destruct (tracked_held s g L q l HL E) as [Hh _]; by apply (df_fresh Hch q k _ eq_refl) in Hh|done]). split; [done|]. split; [|done].
  intros r l Hr. destruct (tracked_held s g L r l HL Hr) as [Hh _]. assert (Hr' : live g' r (len l)) by (apply (df_held Hch r); by left). apply (live_apart Hk' q k r (len l) Hq Hr'). intros ->. congruence.
Qed.
(** What other parts of the kernel borrowed from the page allocator stays. *)
Definition pages_kept (s : state) (g : ghost) (s' : state) (g' : ghost) : Prop :=
  ∀ x o n, lends s g x (o, n) → lends s' g' x (o, n) ∧ same_bytes (memory s) (memory s') (base + x) (BOAROS_PAGE_SIZE * 2 ^ o).
Lemma change_pages lost won (s s' : state) g g' : change lost won None s g s' g' → pages_kept s g s' g'.
Proof. intros Hch x o n Hx. split; [by apply (df_lent Hch)|by apply (df_pages Hch x o n)]. Qed.
Lemma same_pages (s s' : state) g g' : same s g s' g' → pages_kept s g s' g'.
Proof. intros Hch x o n Hx. split; [by apply (kp_lent Hch)|by apply (kp_pages Hch x o n)]. Qed.
Definition does (op : heap_op) (s : state) (g : ghost) (L : objects) (status : kernel_heap_status) (q : Z) (s' : state) (g' : ghost) : Prop :=
  (∃ L', tracked s' g' L' ∧ heap_step L op status q L') ∧ (status = KERNEL_HEAP_STATUS_EMPTY → exhausted layout (size_asked op) s g) ∧ pages_kept s g s' g'.

Lemma served_does size (s : state) g L status q s' g' : tracked s g L → is_u64 size → good s' g' → served size s g status q s' g' → does (H_allocate size) s g L status q s' g'.
Proof.
  intros HL Hu Hg'. unfold SlabHeapTheory.served. case_decide as Hz; [|case_decide as Hbig].
  - intros (-> & -> & Hsame). subst size. split; [exists L; split; [by apply (tracked_same s s' g g')|constructor]|]. split; [done|by apply same_pages].
  - intros (-> & -> & Hsame). split; [exists L; split; [by apply (tracked_same s s' g g')|by constructor]|]. split; [done|by apply same_pages].
  - intros [(-> & Hq & k & Hk & Hch)|(-> & -> & Hsame & Hst)].
    + destruct (new_object s s' g g' L q k HL Hg' Hch) as (Hno & Hcl & Hk0). split; [|split; [done|by eapply change_pages]]. eexists. split; [by apply (tracked_change s s' g g' L None (Some (q, k)) None HL Hg' Hch)|].
      cbn [after]. assert (E : len (peek (memory s') q (Z.to_nat k)) = k) by (rewrite length_peek; lia). apply step_allocate; rewrite ?E; try done. mlia.
    + split; [exists L; split; [by apply (tracked_same s s' g g')|constructor; unfold LARGEST; mlia]|]. split; [done|by apply same_pages].
Qed.
Lemma freed (s s' : state) g g' L q l : tracked s g L → L !! q = Some l → good s' g' → change (Some (q, len l)) None None s g s' g' → tracked s' g' (delete q L).
Proof. intros HL Hq Hg' Hch. destruct (tracked_held s g L q l HL Hq) as [Hh _]. apply (tracked_change s s' g g' L (Some (q, len l)) None None HL Hg' Hch). by intros ? ? [= <- <-]. Qed.
Lemma resized_does size (s : state) g L q l status r s' g' : tracked s g L → L !! q = Some l → len l < size ≤ LARGEST → good s' g' →
  resized layout access physical_address own own_blocks size q (len l) s g status r s' g' → does (H_resize q size) s g L status r s' g'.
Proof.
  intros HL Hq Hsz Hg' [(-> & Hr & k & Hk & Hch & Hap & Hbytes)|(-> & -> & Hsame & Hst)].
  2: { split; [exists L; split; [by apply (tracked_same s s' g g')|by apply (step_resize_empty L q l)]|]. split; [done|by apply same_pages]. }
  destruct (tracked_held s g L q l HL Hq) as (Hh & El & Hl0 & _). pose proof Hg' as (_ & _ & Hk'). assert (Hlr : live g' r k) by (apply (df_held Hch r k); by right).
  assert (E : len (peek (memory s') r (Z.to_nat k)) = k) by (rewrite length_peek; lia). split; [|split; [done|by eapply change_pages]]. eexists. split; [apply (tracked_change s s' g g' L (Some (q, len l)) (Some (r, k)) None HL Hg' Hch); by intros ? ? [= <- <-]|].
  cbn [after]. apply (step_resize_move L q l); rewrite ?E; try done; [lia|..].
  - destruct (L !! r) as [l2|] eqn:Er; [|done]. destruct (tracked_held s g L r l2 HL Er) as [Hh2 _]. by apply (df_fresh Hch r k _ eq_refl) in Hh2.
  - intros a l2 Ha. destruct (decide (a = q)) as [->|Hne]; [rewrite Hq in Ha; by injection Ha as <-|]. destruct (tracked_held s g L a l2 HL Ha) as [Hh2 _].
    assert (Ha' : live g' a (len l2)) by (apply (df_held Hch a); left; split; [done|congruence]). apply (live_apart Hk' r k a (len l2) Hlr Ha'). intros ->. by apply (df_fresh Hch a k _ eq_refl) in Hh2.
  - rewrite take_peek by lia. rewrite El at 2. apply list_eq_same_length with (n := length l); [by rewrite length_peek|by rewrite length_peek|]. intros j x y Hj Hx Hy.
    rewrite lookup_peek in Hx, Hy by done. rewrite Hbytes in Hx by lia. congruence.
Qed.

Lemma write_does (s : state) g L q l bytes : tracked s g L → Forall byte_ok bytes → L !! q = Some l → (length bytes ≤ length l)%nat →
  does (H_write q bytes) s g L KERNEL_HEAP_STATUS_OK 0 (with_memory s (put (memory s) q bytes)) g.
Proof.
  intros HL Hbytes Hq Hlen. destruct (tracked_held s g L q l HL Hq) as (Hh & El & Hl0 & _). pose proof HL as [Hg HLr]. pose proof Hg as (_ & _ & Hk). set (m' := put (memory s) q bytes).
  pose proof (live_mapped layout heap access physical_address own own_blocks _ _ g q (len l) Hk (proj1 Hh)) as Hmap. assert (Hm8 : mapped (memory s) q (len bytes)) by (intros y Hy; apply Hmap; lia).
  assert (Hput : ∀ y, ¬ q ≤ y < q + len bytes → m' !! y = memory s !! y) by (intros y Hy; by apply put_outside).
  assert (Hw : writes_in (memory s) m' q (len l)).
  { split; [apply put_bytes_ok; [apply (so_bytes _ _ _ _ _ (hk_slabs Hk))|done]|]. split; [intros y; by apply put_mapped|]. intros y Hy. apply Hput. lia. }
  assert (Hother : ∀ r n, held own s.(sy_world) g r n → r ≠ q → same_bytes (memory s) m' r n).
  { intros r n Hr Hne y Hy. apply Hput. destruct (live_apart Hk r n q (len l) (proj1 Hr) (proj1 Hh) Hne); lia. }
  assert (Epeek : peek m' q (length l) = bytes ++ drop (length bytes) l).
  { replace (length l) with (length bytes + (length l - length bytes))%nat by lia. rewrite peek_app. f_equal; [apply peek_put|]. rewrite El at 2. rewrite drop_peek by lia. apply peek_ext. intros y Hy. apply Hput. lia. }
  split; [exists (<[q := bytes ++ drop (length bytes) l]> L); split; [split|]|split; [done|]].
  - exact (good_write layout heap access physical_address own own_blocks hooks s g q (len l) m' Hg (proj1 Hh) Hw).
  - intros r k. rewrite lookup_insert_Some. cbn [with_memory st set_world sy_world w_mem]. fold m'. split.
    + intros [[<- <-]|[Hne Hr]]; [exists (len l); split; [done|]; by rewrite Nat2Z.id|]. apply HLr in Hr as (n & Hn & ->). exists n. split; [done|]. apply peek_ext. intros y Hy. symmetry. apply (Hother r n Hn); [done|lia].
    + intros (n & Hn & ->). destruct (decide (r = q)) as [->|Hne]; [left; split; [done|]; assert (n = len l) as -> by (by apply (held_unique s g q)); by rewrite Nat2Z.id|right]. split; [done|].
      apply HLr. exists n. split; [done|]. apply peek_ext. intros y Hy. apply (Hother r n Hn); [done|lia].
  - by apply step_write.
  - intros x o n Hx. split; [done|]. intros y Hy. apply Hput. destruct (live_block Hk q (len l) (proj1 Hh)) as (a & o' & Ha & ? & ? & ? & _). unfold BOAROS_PAGE_SIZE in Hy. destruct (foreign_apart Hk x o n a o' (proj1 Hx) Ha); lia.
Qed.

Context (Hhooks : hooks_ok layout (fine layout heap access physical_address own own_blocks) (evolves layout heap access physical_address own own_blocks) rounds hooks).
Lemma zeroed_does (s : state) g L n size : tracked s g L → is_u64 n → is_u64 size →
  ∃ status q s' g', heap_exec (H_zeroed n size) s = Done ((status, q), s') ∧ does (H_zeroed n size) s g L status q s' g'.
Proof.
  intros HL Hn Hz. destruct (heap_zeroed_run layout heap Hheap access physical_address own own_blocks rounds hooks Hhooks s g n size (proj1 HL) Hn Hz) as (status & q & s' & g' & E & Hg' & Hcase). exists status, q, s', g'. split; [done|].
  destruct (decide (UINT64_MAX < n * size)) as [Hbig|Hbig].
  { destruct Hcase as (-> & -> & Hsame). split; [exists L; split; [by apply (tracked_same s s' g g')|by constructor]|]. split; [done|by apply same_pages]. }
  destruct Hcase as [Hserved Hzero]. destruct (served_does (n * size) s g L status q s' g' HL ltac:(unfold is_u64 in *; nia) Hg' Hserved) as ((L' & HL' & Hst) & Hempty & Hkept).
  split; [exists L'; split; [done|]|by split]. apply step_zeroed; [lia|done|]. intros l -> Hl. destruct (decide (n * size = 0)) as [->|Hnz]; [done|].
  destruct (served_object layout access physical_address own own_blocks (n * size) s g q s' g' ltac:(unfold is_u64 in *; nia) Hserved) as (_ & k & Hk & Hch).
  destruct (tracked_held s' g' L' q l HL' Hl) as (Hh & El & _). assert (Ek : len l = k) by (apply (held_unique s' g' q _ _ Hg' Hh); apply (df_held Hch); by right).
  rewrite El, take_peek by lia. apply list_eq_same_length with (n := Z.to_nat (n * size)); [by rewrite length_replicate|by rewrite length_peek|]. intros j x y Hj Hx Hy.
  rewrite lookup_peek in Hx by done. rewrite (Hzero eq_refl) in Hx by lia. rewrite lookup_replicate_2 in Hy by done. simpl in Hx. congruence.
Qed.
Lemma resize_does (s : state) g L q l size : tracked s g L → L !! q = Some l → is_u64 size → ∃ status r s' g', heap_exec (H_resize q size) s = Done ((status, r), s') ∧ does (H_resize q size) s g L status r s' g'.
Proof.
  intros HL Hq Hu. destruct (tracked_held s g L q l HL Hq) as (Hh & _ & Hl0 & _). pose proof HL as [Hg _].
  destruct (heap_resize_run layout heap Hheap access physical_address own own_blocks rounds hooks Hhooks s g q (len l) size Hg Hh Hu) as (status & r & s' & g' & E & Hg' & Hcase). exists status, r, s', g'. split; [done|].
  destruct (decide (size = 0)) as [->|Hz]; [|destruct (decide (4096 * 2 ^ 31 < size)); [|destruct (decide (size ≤ len l))]].
  - destruct Hcase as (-> & -> & Hch). split; [exists (delete q L); split; [by apply (freed s s' g g' L q l)|by apply (step_resize_away L q l)]|]. split; [done|by eapply change_pages].
  - destruct Hcase as (-> & -> & -> & ->). split; [exists L; split; [done|by apply (step_resize_large L q l)]|]. split; [done|by apply same_pages, keeps_refl].
  - destruct Hcase as (-> & -> & -> & ->). split; [exists L; split; [done|apply (step_resize_stay L q l); [done|mlia]]|]. split; [done|by apply same_pages, keeps_refl].
  - apply (resized_does size s g L q l); try done. unfold LARGEST. lia.
Qed.

Lemma heap_runs (s : state) g L op : tracked s g L → heap_allowed L op →
  ∃ status q s' g', heap_exec op s = Done ((status, q), s') ∧ does op s g L status q s' g'.
Proof.
  intros HL Hop. pose proof HL as [Hg _]. destruct op as [size|n size|q|q size|q bytes]; cbn [heap_allowed] in Hop.
  - destruct (heap_allocate_run layout heap Hheap access physical_address own own_blocks rounds hooks Hhooks s g size Hg Hop) as (status & q & s' & g' & E & Hg' & Hserved). exists status, q, s', g'. split; [done|by apply served_does].
  - destruct Hop. by apply zeroed_does.
  - destruct (decide (q = 0)) as [->|Hq0].
    + exists KERNEL_HEAP_STATUS_OK, 0, s, g. split; [|split; [exists L; split; [done|constructor]|split; [done|by apply same_pages, keeps_refl]]]. unfold heap_exec, kernel_heap_release. destruct Hg as (_ & _ & Hk).
      unfold mbind, ST_bind, get_heap, lift. by rewrite trap_if_ok by (by rewrite (hk_init Hk)).
    + destruct Hop as [?|[l Hq]]; [done|]. destruct (tracked_held s g L q l HL Hq) as (Hh & _). destruct (heap_release_run layout heap Hheap access physical_address own own_blocks hooks s g q (len l) Hg Hh) as (s' & g' & E & Hg' & Hch & _).
      exists KERNEL_HEAP_STATUS_OK, 0, s', g'. split; [unfold heap_exec; by step E|]. split; [exists (delete q L); split; [by apply (freed s s' g g' L q l)|by apply (step_free L q l)]|split; [done|by eapply change_pages]].
  - destruct Hop as [Hu Hq]. destruct (decide (q = 0)) as [->|Hq0]; [|destruct Hq as [?|[l Hq]]; [done|by apply (resize_does s g L q l)]].
    destruct (heap_allocate_run layout heap Hheap access physical_address own own_blocks rounds hooks Hhooks s g size Hg Hu) as (status & q & s' & g' & E & Hg' & Hserved). exists status, q, s', g'.
    split; [|destruct (served_does size s g L status q s' g' HL Hu Hg' Hserved) as ((L' & HL' & Hst) & Hrest); split; [exists L'; split; [done|by constructor]|done]].
    unfold heap_exec, kernel_heap_resize. destruct Hg as (_ & _ & Hk). unfold mbind at 1, ST_bind at 1, get_heap at 1. rewrite (hk_init Hk), decide_False by done. by rewrite decide_True.
  - destruct Hop as [Hb (l & Hq & Hl)]. eexists _, _, _, g. split; [reflexivity|by apply (write_does s g L q l)].
Qed.

Lemma live_aligned w p g q n : heap_ok layout heap access physical_address own own_blocks w p g → live g q n → aligned16 q.
Proof.
  intros Hk [(r & i & k & Hr & [Hu _] & -> & ->)|(o & Hq & ->)].
  - destruct (so_page _ _ _ _ _ (hk_slabs Hk) r i Hr) as (Ha & H0 & _). apply slot_aligned; [done|done|apply (so_info _ _ _ _ _ (hk_slabs Hk) r i Hr)|lia].
  - destruct (heap_block Hk q o (large_page Hk q o Hq)) as (x & -> & Hx). destruct (block_bytes Hk x o 1 Hx) as (_ & _ & Ha & H0 & _). split; [lia|]. apply Z.mod_divide in Ha as [k ->]; [|lia]. apply Z.mod_divide; [lia|]. exists (k * 256). lia.
Qed.

(** ** A heap from its beginning *)
Definition starts (s : state) : Prop :=
  serving layout s.(sy_allocator) ∧ s.(sy_hooks) = hooks ∧ mem_ok (memory s) ∧ (∀ y, managed layout y → mapped (memory s) (base + y) 4096) ∧
  own s.(sy_world).(w_ext) = ∅ ∧ ∀ x b, own_blocks s.(sy_world).(w_ext) !! x = Some b → (pool s).(sp_blocks) !! x = Some b.
Definition no_objects : ghost := mk_ghost ∅ ∅ (replicate 8 []).
Lemma nothing_live q n : ¬ live no_objects q n.
Proof. intros [(p & i & k & Hp & _)|(o & Hq & _)]; set_solver. Qed.
Lemma heap_init_run (s : state) : starts s → ∃ s', kernel_heap_init s = (KERNEL_HEAP_STATUS_OK, s') ∧ tracked s' no_objects ∅.
Proof.
  intros (Hs & Hh & Hb & Hm & Hown & Hblocks). unfold kernel_heap_init. destruct (serving_finalized layout _ Hs) as [-> _]. rewrite decide_False by done. eexists. split; [reflexivity|]. split; [split; [done|split; [done|]]|].
  - cbn [set_world sy_world sy_allocator]. split; cbn [w_heap w_mem w_ext no_objects g_slabs g_large g_lists]; try done.
    + split; try done; try set_solver.
      * intros c l Hl. apply lookup_replicate in Hl as [-> _]. constructor.
      * intros c l p Hl Hp. apply lookup_replicate in Hl as [-> _]. set_solver.
    + by apply serving_pool.
    + intros q n. rewrite Hown. set_solver.
    + intros x b Hx. split; [by apply Hblocks|]. done.
  - intros q l. split; [by rewrite lookup_empty|]. intros (n & [Hl _] & _). by apply nothing_live in Hl.
Qed.

(** The sizes a client asked for. *)
Definition client_after (op : heap_op) (status : kernel_heap_status) (q : Z) (R : gmap Z Z) : gmap Z Z :=
  match op, status with
  | H_free q', _ => delete q' R
  | H_write _ _, _ => R
  | H_resize q' size, KERNEL_HEAP_STATUS_OK => if decide (q = 0) then delete q' R else <[q := size]> (delete q' R)
  | _, KERNEL_HEAP_STATUS_OK => if decide (q = 0) then R else <[q := size_asked op]> R
  | _, _ => R
  end.
Definition client_may (R : gmap Z Z) (op : heap_op) : Prop :=
  match op with
  | H_allocate size => is_u64 size
  | H_zeroed n size => is_u64 n ∧ is_u64 size
  | H_free q => q = 0 ∨ is_Some (R !! q)
  | H_resize q size => is_u64 size ∧ (q = 0 ∨ is_Some (R !! q))
  | H_write q bytes => Forall byte_ok bytes ∧ ∃ n, R !! q = Some n ∧ len bytes ≤ n
  end.
Inductive heap_reaches : state → gmap Z Z → Prop :=
  | reach_start s s' : starts s → kernel_heap_init s = (KERNEL_HEAP_STATUS_OK, s') → heap_reaches s' ∅
  | reach_step s R op status q s' : heap_reaches s R → client_may R op → heap_exec op s = Done ((status, q), s') → heap_reaches s' (client_after op status q R).

(** Every object is as large as was asked for. *)
Definition covers (R : gmap Z Z) (L : objects) : Prop := ∀ q n, R !! q = Some n → ∃ l, L !! q = Some l ∧ 0 < n ≤ len l.
Lemma covers_may R L op : covers R L → client_may R op → heap_allowed L op.
Proof.
  intros Hc. destruct op as [size|n size|q|q size|q bytes]; cbn; try done.
  - intros [?|[n Hn]]; [by left|right]. destruct (Hc q n Hn) as (l & Hl & _). by eexists.
  - intros [Hu [?|[n Hn]]]; (split; [done|]); [by left|right]. destruct (Hc q n Hn) as (l & Hl & _). by eexists.
  - intros [Hb (n & Hn & Hle)]. split; [done|]. destruct (Hc q n Hn) as (l & Hl & ?). exists l. split; [done|lia].
Qed.
Lemma covers_insert R L q n l : covers R L → 0 < n ≤ len l → covers (<[q := n]> R) (<[q := l]> L).
Proof.
  intros Hc Hn r k [[<- <-]|[Hne Hr]]%lookup_insert_Some; [exists l; by rewrite lookup_insert_eq|]. destruct (Hc r k Hr) as (l' & Hl' & ?). exists l'. by rewrite lookup_insert_ne.
Qed.
Lemma covers_delete R L q : covers R L → covers (delete q R) (delete q L).
Proof. intros Hc r k [Hne Hr]%lookup_delete_Some. destruct (Hc r k Hr) as (l' & Hl' & ?). exists l'. by rewrite lookup_delete_ne. Qed.
Lemma covers_allocate R L size status q L' : covers R L → heap_step L (H_allocate size) status q L' →
  covers (match status with KERNEL_HEAP_STATUS_OK => if decide (q = 0) then R else <[q := size]> R | _ => R end) L'.
Proof.
  intros Hc Hst. inversion Hst; subst; [done| |done|done]. rewrite decide_False by (by match goal with H : aligned16 _ |- _ => destruct H end). by apply covers_insert.
Qed.
Lemma covers_step R L op status q L' : covers R L → (∀ l, L !! 0 = Some l → False) → heap_step L op status q L' → covers (client_after op status q R) L'.
Proof.
  intros Hc H0 Hst. assert (HR0 : R !! 0 = None) by (destruct (R !! 0) as [n|] eqn:E; [destruct (Hc 0 n E) as (l & Hl & _); by apply H0 in Hl|done]). destruct op as [size|n size|q0|q0 size|q0 bytes].
  - pose proof (covers_allocate R L size status q L' Hc Hst) as H. by destruct status.
  - inversion Hst; subst; [|done]. match goal with H : heap_step _ (H_allocate _) _ _ _ |- _ => pose proof (covers_allocate R L _ status q L' Hc H) end. by destruct status.
  - inversion Hst; subst; cbn [client_after]; [by rewrite delete_id|by apply covers_delete].
  - inversion Hst; subst; cbn [client_after].
    + match goal with H : heap_step _ (H_allocate _) _ _ _ |- _ => pose proof (covers_allocate R L _ status q L' Hc H) end. rewrite delete_id by done. by destruct status.
    + rewrite decide_True by done. by apply covers_delete.
    + done.
    + match goal with H : L' !! q = Some ?l |- _ => rewrite decide_False by (intros ->; by apply H0 in H); rewrite insert_delete_eq; rewrite <-(insert_id L' q l H); by apply covers_insert end.
    + rewrite decide_False by (by match goal with H : aligned16 _ |- _ => destruct H end). apply covers_insert; [by apply covers_delete|lia].
    + done.
  - inversion Hst; subst; cbn [client_after]. intros r k Hr. destruct (Hc r k Hr) as (l' & Hl' & ?). destruct (decide (r = q0)) as [->|Hne]; [|exists l'; by rewrite lookup_insert_ne].
    match goal with H : L !! q0 = Some ?l |- _ => rewrite Hl' in H; injection H as <- end. eexists. rewrite lookup_insert_eq. split; [done|]. rewrite length_app, length_drop. lia.
Qed.

Lemma reached_tracked (s : state) R : heap_reaches s R → ∃ g L, tracked s g L ∧ covers R L.
Proof.
  induction 1 as [s s' Hs E|s R op status q s' _ (g & L & HL & Hc) Hop E].
  - destruct (heap_init_run s Hs) as (s1 & E1 & HL). rewrite E1 in E. injection E as <-. exists no_objects, ∅. split; [done|]. intros q n. by rewrite lookup_empty.
  - destruct (heap_runs s g L op HL (covers_may R L op Hc Hop)) as (st2 & q2 & s2 & g2 & E2 & (L2 & HL2 & Hst) & _). rewrite E in E2. injection E2 as <- <- <-. exists g2, L2. split; [done|].
    apply (covers_step R L); [done| |done]. intros l Hl. by destruct (tracked_held s g L 0 l HL Hl) as (_ & _ & _ & ?).
Qed.
(** C2: the kernel heap implements a map from pointers to byte strings.  From
    every state that stands for a map, each operation its clients may ask for
    returns, without a fault and within the fuel, and does to the map one of the
    steps of [heap_step]: a new object is aligned to 16 bytes, at least as large
    as asked for and disjoint from every other; zeroed memory is zero; resizing
    keeps the bytes; everything else keeps its bytes.  [EMPTY] is answered only
    when the call began with no free slot of the size's class and no free block
    of the needed order.  The reclaimer may run inside, and blocks other
    components hold stay as they are. *)
Theorem heap_refines (s : state) g L op : tracked s g L → heap_allowed L op →
  ∃ status q s' g', heap_exec op s = Done ((status, q), s') ∧ does op s g L status q s' g'.
Proof. apply heap_runs. Qed.

(** C14: in every state a kernel reaches from [kernel_heap_init] by calls of the
    heap and stores of its clients, the live objects are aligned and mapped, as
    large as was asked for, and overlap neither each other, nor a page the page
    allocator counts as free, nor a page of the reclaimer; the page count of the
    statistics does not exceed its peak; and every further call returns. *)
Theorem heap_history (s : state) R : heap_reaches s R →
  (∀ q n, R !! q = Some n → aligned16 q ∧ 0 < n ∧ mapped (memory s) q n ∧
     (∀ r k, R !! r = Some k → q ≠ r → q + n ≤ r ∨ r + k ≤ q) ∧
     (∀ y, q ≤ y < q + n → (y - base) / 4096 * 4096 ∉ (pool s).(sp_free)) ∧
     (∀ x o c, own_blocks s.(sy_world).(w_ext) !! x = Some (o, c) → q + n ≤ base + x ∨ base + x + 4096 * 2 ^ o ≤ q)) ∧
  (∃ t, kernel_heap_get_statistics s = Done (Some t, s) ∧ t.(current_pages) ≤ t.(peak_pages)) ∧
  (∀ op, client_may R op → ∃ status q s', heap_exec op s = Done ((status, q), s')).
Proof.
  intros Hr. destruct (reached_tracked s R Hr) as (g & L & HL & Hc). pose proof HL as [(Hs & Hh & Hk) _]. split; [|split].
  - intros q n Hq. destruct (Hc q n Hq) as (l & Hl & Hn). destruct (tracked_held s g L q l HL Hl) as ([Hlive Hown] & _ & _ & _). destruct (live_block Hk q (len l) Hlive) as (a & o & Ha & Haq & Hqa & _).
    destruct (heap_block Hk a o Ha) as (x & -> & Hx). destruct (block_bytes Hk x o 1 Hx) as (Ho & Hnat & _ & _ & _ & _ & Hm & _). split; [by apply (live_aligned _ _ g q (len l) Hk)|]. split; [lia|]. split; [intros y Hy; apply Hm; lia|]. split; [|split].
    + intros r k Hrk Hne. destruct (Hc r k Hrk) as (l2 & Hl2 & Hk2). destruct (tracked_held s g L r l2 HL Hl2) as ([Hlive2 _] & _). destruct (live_apart Hk q (len l) r (len l2) Hlive Hlive2 Hne); lia.
    + intros y Hy. destruct (po_block _ _ (hk_pool Hk) x o 1 Hx) as (_ & _ & Hd). intros Hin. apply (Hd ((y - base) / 4096 * 4096)); [|done]. apply byte_page; [lia|by apply (natural_aligned layout x o); [lia|]|lia].
    + intros z o2 c Hz. destruct (foreign_apart Hk z o2 c _ o (hk_own_blocks Hk z _ Hz) Ha); lia.
  - eexists. unfold kernel_heap_get_statistics, get_heap, mbind, ST_bind. rewrite (hk_init Hk). split; [reflexivity|by apply (hk_peak Hk)].
  - intros op Hop. destruct (heap_runs s g L op HL (covers_may R L op Hc Hop)) as (status & q & s' & g' & E & _). by exists status, q, s'.
Qed.

(** C20: a live object can be released, and releasing it a second time traps: the
    pointer leads to a free slot or to a page that is no longer the heap's. *)
Theorem heap_double_free (s : state) R q n : heap_reaches s R → R !! q = Some n →
  ∃ s', heap_exec (H_free q) s = Done ((KERNEL_HEAP_STATUS_OK, 0), s') ∧ heap_reaches s' (delete q R) ∧ heap_exec (H_free q) s' = trap.
Proof.
  intros Hr Hq. destruct (reached_tracked s R Hr) as (g & L & HL & Hc). destruct (Hc q n Hq) as (l & Hl & _). pose proof HL as [Hg _]. destruct (tracked_held s g L q l HL Hl) as (Hh & _).
  destruct (heap_release_run layout heap Hheap access physical_address own own_blocks hooks s g q (len l) Hg Hh) as (s' & g' & E & Hg' & _ & Hgone).
  assert (E1 : heap_exec (H_free q) s = Done ((KERNEL_HEAP_STATUS_OK, 0), s')) by (unfold heap_exec; by step E). exists s'. split; [done|]. split; [by apply (reach_step s R (H_free q) KERNEL_HEAP_STATUS_OK 0 s' Hr ltac:(right; by eexists) E1)|].
  unfold heap_exec, mbind, ST_bind. by rewrite (release_gone_traps layout heap access physical_address own own_blocks hooks s' g' q Hg' Hgone).
Qed.
End claims.

(** C40: the count of set bits that [slab_metadata_valid] computes by adding
    neighbouring digits in parallel and multiplying is the number of set bits,
    for every 64-bit word. *)
Theorem bitmap_count_exact v : is_u64 v → bitmap_count v = bits_below (Z.testbit v) 64.
Proof. intros Hv. rewrite bitmap_count_spec by done. apply popcount_bits. Qed.
Lemma bitmap_count_exact_witness : bitmap_count 0xf00000000000a001 = 7.
Proof. exact (eq_trans (bitmap_count_exact 0xf00000000000a001 ltac:(by_decide)) eq_refl). Defined.

(** ** The heap behind the interface

    The components that share objects by address are proved against every
    [ObjectHeap]; the slab heap in a reachable state, with the reclaimer at work,
    is one.  Sizes of 0 and beyond 64 bits, which no client asks for, are
    refused without a call, as is a release of what is not live, which traps. *)
Import Heap BootMemory PhysicalPage PageSpec PageReclaim DirectMap SlabHeap.

Section instance.
Context {ext : Type} (layout : boot_memory_layout) (heap : Z) (Hheap : is_u64 heap).
Context (access : Z → Z) (physical_address : Z → option Z) `{DM : !DirectMap (managed layout) access physical_address}.
Context (own : ext → gmap Z Z) (own_blocks : ext → gmap Z (Z * Z)).
#[local] Abbreviation world := (heap_world ext).
#[local] Abbreviation state := (page_system world).
Context (rounds : world → nat) (hooks : physical_page_reclaim_hooks world).
Context (Hhooks : hooks_ok layout (fine layout heap access physical_address own own_blocks) (evolves layout heap access physical_address own own_blocks) rounds hooks).
#[local] Abbreviation reaches := (heap_reaches layout heap access physical_address own own_blocks rounds hooks).
#[local] Abbreviation run := (heap_exec heap access physical_address rounds).

(** A reachable state with the sizes its clients asked for. *)
Record slab_heap := mk_slab_heap { sh_state : state; sh_sizes : gmap Z Z; sh_reached : reaches sh_state sh_sizes }.
(** One call; a call that is not allowed, or faults, changes nothing. *)
Definition call_heap (h : slab_heap) (op : heap_op) (Hop : client_may h.(sh_sizes) op) : kernel_heap_status * Z * slab_heap :=
  match run op h.(sh_state) as r return run op h.(sh_state) = r → _ with
  | Done ((status, q), s) => λ E, (status, q, mk_slab_heap s _ (reach_step _ _ _ _ _ _ _ _ _ _ op status q s h.(sh_reached) Hop E))
  | Fault _ => λ _, (KERNEL_HEAP_STATUS_INVALID, 0, h)
  end eq_refl.
Lemma call_heap_spec h op Hop status q h' : call_heap h op Hop = (status, q, h') →
  run op h.(sh_state) = Done ((status, q), h'.(sh_state)) ∧ h'.(sh_sizes) = client_after op status q h.(sh_sizes).
Proof.
  unfold call_heap. destruct (reached_tracked layout heap Hheap access physical_address own own_blocks rounds hooks Hhooks _ _ h.(sh_reached)) as (g & L & HL & Hc).
  destruct (heap_runs layout heap Hheap access physical_address own own_blocks rounds hooks Hhooks _ g L op HL (covers_may _ L op Hc Hop)) as (st1 & q1 & s1 & g1 & E1 & _).
  generalize (eq_refl (run op h.(sh_state))). revert E1. generalize (run op h.(sh_state)) at 1 3 4. intros r -> E [= <- <- <-]. by split.
Qed.

(** A new object is at an address no object has. *)
Lemma allocate_fresh h size Hop q h' : call_heap h (H_allocate size) Hop = (KERNEL_HEAP_STATUS_OK, q, h') → 0 < size →
  q ≠ 0 ∧ h.(sh_sizes) !! q = None ∧ h'.(sh_sizes) = <[q := size]> h.(sh_sizes).
Proof.
  intros E Hs. destruct (call_heap_spec _ _ _ _ _ _ E) as [Er ->]. destruct (reached_tracked layout heap Hheap access physical_address own own_blocks rounds hooks Hhooks _ _ h.(sh_reached)) as (g & L & HL & Hc).
  destruct (heap_runs layout heap Hheap access physical_address own own_blocks rounds hooks Hhooks _ g L _ HL (covers_may _ L _ Hc Hop)) as (st1 & q1 & s1 & g1 & E1 & (L' & _ & Hst) & _). rewrite Er in E1. injection E1 as <- <- <-.
  inversion Hst; subst; [lia|]. match goal with H : aligned16 q |- _ => destruct H as [Hq _] end. split; [done|]. split; [|cbn [client_after size_asked]; by rewrite decide_False].
  destruct (h.(sh_sizes) !! q) as [n|] eqn:En; [|done]. destruct (Hc q n En) as (l2 & Hl2 & _). congruence.
Qed.
Definition slab_allocate (h : slab_heap) (bytes : Z) : kernel_heap_status * Z * slab_heap :=
  match decide (0 < bytes ∧ is_u64 bytes) with
  | left H => call_heap h (H_allocate bytes) (proj2 H)
  | right _ => (KERNEL_HEAP_STATUS_INVALID, 0, h)
  end.
Definition slab_free (h : slab_heap) (q : Z) : slab_heap :=
  match decide (is_Some (h.(sh_sizes) !! q)) with
  | left H => (call_heap h (H_free q) (or_intror H)).2
  | right _ => h
  end.
#[local] Obligation Tactic := idtac.
#[export] Program Instance slab_object_heap : ObjectHeap slab_heap := {
  heap_allocate := slab_allocate;
  heap_free := slab_free;
  heap_live h := dom h.(sh_sizes);
}.
Next Obligation.
  intros h bytes p h'. unfold slab_allocate. destruct (decide _) as [[H0 Hu]|]; [|done]. intros E. destruct (allocate_fresh h bytes _ p h' E H0) as (Hp & Hn & ->). split; [done|]. split; [by apply not_elem_of_dom|]. by rewrite dom_insert_L.
Qed.
Next Obligation.
  intros h bytes st p h'. unfold slab_allocate. destruct (decide _) as [[H0 Hu]|]; [|by intros [= <- <- <-]]. intros E Hst. destruct (call_heap_spec _ _ _ _ _ _ E) as [_ ->]. by destruct st.
Qed.
Next Obligation.
  intros h p. unfold slab_free. destruct (decide _) as [H|H].
  - destruct (call_heap h (H_free p) (or_intror H)) as [[st q] h'] eqn:E. destruct (call_heap_spec _ _ _ _ _ _ E) as [_ E2]. cbn [snd]. rewrite E2. cbn [client_after]. by rewrite dom_delete_L.
  - assert (p ∉ dom h.(sh_sizes)) by (by rewrite elem_of_dom). set_solver.
Qed.
End instance.

(** ** A machine with a heap and a reclaimer

    A reclaimer that owns page frames and gives one back per round is one the
    heap can work with; the small machine of [PageClaims] with this reclaimer and
    the direct map of RISC-V satisfies the hypotheses of the claims. *)
Import Heap StringOps BootMemory PhysicalPage PageSpec PageReclaim DirectMap SlabHeap.

(** ** A reclaimer of page frames *)
Definition no_own (e : gset Z) : gmap Z Z := ∅.
Definition own_frames (e : gset Z) : gmap Z (Z * Z) := gset_to_gmap (0, 1) e.
#[local] Abbreviation world := (heap_world (gset Z)).
Definition give_frame (w : world) (a : physical_page_allocator) (pages : Z) : outcome (Z * world * physical_page_allocator) :=
  match elements w.(w_ext) with
  | [] => Done (0, w, a)
  | x :: _ => '(_, a) ← physical_page_release_order a x 0; Done (1, mk_world w.(w_heap) w.(w_mem) (w.(w_ext) ∖ {[x]}), a)
  end.
Definition frame_hooks : physical_page_reclaim_hooks world := mk_hooks (Some give_frame) None None None None None.
Definition frame_rounds (w : world) : nat := size w.(w_ext).

Section frames.
Context (layout : boot_memory_layout) (heap : Z) (access : Z → Z) (physical_address : Z → option Z) `{DM : !DirectMap (managed layout) access physical_address}.
#[local] Abbreviation ok := (heap_ok layout heap access physical_address no_own own_frames).
Lemma give_frame_evolves w p x : x ∈ w.(w_ext) → pool_ok layout (returned p x 0) →
  evolves layout heap access physical_address no_own own_frames w p (mk_world w.(w_heap) w.(w_mem) (w.(w_ext) ∖ {[x]})) (returned p x 0).
Proof.
  intros Hx Hpool g Hk. assert (Hf : foreign layout access physical_address p g x (0, 1)) by (apply (hk_own_blocks Hk); by apply lookup_gset_to_gmap_Some). exists g. split.
  - destruct Hk. split; try done; cbn [w_heap w_mem w_ext].
    + intros q o Hq. cbn [returned sp_blocks]. rewrite lookup_delete_ne; [by apply hk_pages|]. intros ->. destruct Hf as [_ Hf]. replace (dm_base + (q - dm_base)) with q in Hf by lia. congruence.
    + intros y b [Hy <-]%lookup_gset_to_gmap_Some. apply elem_of_difference in Hy as [Hy Hne]. destruct (hk_own_blocks y (0, 1)) as [H1 H2]; [by apply lookup_gset_to_gmap_Some|]. split; [|done]. cbn [returned sp_blocks]. rewrite lookup_delete_ne; [done|]. set_solver.
  - split; try done. intros y b [[H1 H2] H3]. cbn [w_ext] in *. apply lookup_gset_to_gmap_None in H3. split; [split; [|done]|].
    + cbn [returned sp_blocks]. rewrite lookup_delete_ne; [done|]. intros ->. done.
    + apply lookup_gset_to_gmap_None. cbn [w_ext]. set_solver.
Qed.
Lemma frame_hooks_ok : hooks_ok layout (fine layout heap access physical_address no_own own_frames) (evolves layout heap access physical_address no_own own_frames) frame_rounds frame_hooks.
Proof.
  split; try done. intros c [= <-] w a n [Hs [g Hk]]. unfold give_frame. destruct (elements w.(w_ext)) as [|x l] eqn:E.
  - exists 0, w, a. split; [done|]. split; [|done]. split; [split; [done|by exists g]|]. intros g' Hk'. exists g'. split; [done|apply keeps_refl].
  - assert (Hx : x ∈ w.(w_ext)) by (apply elem_of_elements; rewrite E; left). destruct (hk_own_blocks Hk x (0, 1)) as [Hb _]; [by apply lookup_gset_to_gmap_Some|].
    destruct (serving_block layout a x 0 1 Hs Hb) as (_ & _ & Hu & _). destruct (serving_release layout a x 0 Hs Hu ltac:(lia) Hb) as (a' & -> & Hs' & Ea). cbn [mbind outcome_bind].
    eexists 1, _, a'. split; [done|]. pose proof (serving_pool layout a' Hs') as Hpool. rewrite Ea in Hpool. pose proof (give_frame_evolves w (spec_of a) x Hx Hpool) as Hev. split.
    + destruct (Hev g Hk) as (g' & Hk' & _). split; [split; [done|exists g'; by rewrite Ea]|by rewrite Ea].
    + intros _. unfold frame_rounds. cbn [w_ext]. apply subset_size. set_solver.
Qed.
End frames.

(** ** The machine *)
#[local] Abbreviation demo_managed := (managed demo_layout).
Lemma demo_pages x : demo_managed x → (0x80001000 ≤ x ∧ x + 4096 ≤ 0x8000a000) ∨ (0x90003000 ≤ x ∧ x + 4096 ≤ 0x90008000).
Proof.
  intros (r & Hr & Ha & H1 & H2). assert (Hcase : r = mk_range 0x80000800 0x9800 ∨ r = mk_range 0x90003000 0x5000).
  { change (usable_of demo_layout) with [mk_range 0x80000800 0x9800; mk_range 0x90003000 0x5000] in Hr. apply elem_of_cons in Hr as [->|Hr]; [by left|]. apply list_elem_of_singleton in Hr as ->. by right. }
  unfold PageLayTheory.aligned, BOAROS_PAGE_SIZE in *. destruct Hcase as [-> | ->]; cbn [rg_base rg_size] in *; [left|right; lia]. pose proof (Z.div_mod x 4096). lia.
Qed.
Lemma demo_window x : demo_managed x → 0 ≤ x ∧ x + BOAROS_PAGE_SIZE ≤ RISCV_DIRECT_MAP_SIZE.
Proof. intros Hx. unfold BOAROS_PAGE_SIZE, RISCV_DIRECT_MAP_SIZE. destruct (demo_pages x Hx); lia. Qed.
#[local] Instance demo_map : DirectMap demo_managed direct_map_page_access direct_map_heap_address := riscv_direct_map demo_managed RISCV_DIRECT_MAP_SIZE demo_window (Z.le_refl _).
Fixpoint fill (a : Z) (n : nat) (m : mem) : mem := match n with O => m | S n => fill (a + 1) n (<[a := 0]> m) end.
Lemma lookup_fill n : ∀ a m y, fill a n m !! y = if decide (a ≤ y < a + Z.of_nat n) then Some 0 else m !! y.
Proof.
  induction n as [|n IH]; intros a m y; cbn [fill]; [by rewrite decide_False by lia|]. rewrite IH. destruct (decide (y = a)) as [->|Hne]; [rewrite decide_False, decide_True by lia; apply lookup_insert_eq|].
  rewrite lookup_insert_ne by done. by apply decide_ext; lia.
Qed.
Definition zero_memory (a1 n1 a2 n2 : Z) : mem := fill a1 (Z.to_nat n1) (fill a2 (Z.to_nat n2) ∅).
Lemma zero_memory_ok a1 n1 a2 n2 : mem_ok (zero_memory a1 n1 a2 n2).
Proof. intros y b. unfold zero_memory. rewrite !lookup_fill. do 2 (case_decide; [intros [= <-]; by unfold byte_ok|]). by rewrite lookup_empty. Qed.
Lemma zero_memory_mapped a1 n1 a2 n2 y : a1 ≤ y < a1 + n1 ∨ a2 ≤ y < a2 + n2 → is_Some (zero_memory a1 n1 a2 n2 !! y).
Proof. intros Hy. unfold zero_memory. rewrite !lookup_fill. case_decide; [by eexists|]. rewrite decide_True by lia. by eexists. Qed.
#[global] Opaque zero_memory.
Definition demo_heap_memory : mem := zero_memory (RISCV_DIRECT_MAP_BASE + 0x80001000) 0x9000 (RISCV_DIRECT_MAP_BASE + 0x90003000) 0x5000.
(** Before [kernel_heap_init]; the page the boot code held is the reclaimer's. *)
Definition demo_machine : page_system world :=
  mk_system demo_system frame_hooks 0 (mk_world (mk_heap false false [] (mk_statistics 7 7 7 7 7) 0) demo_heap_memory {[0x80002000]}).
Definition demo_heap : page_system world := (kernel_heap_init demo_machine).2.
Definition demo_address : Z := 0x81000000.
#[local] Abbreviation starts_here := (starts demo_layout direct_map_page_access direct_map_heap_address no_own own_frames frame_hooks).
#[local] Abbreviation reaches_here := (heap_reaches demo_layout demo_address direct_map_page_access direct_map_heap_address no_own own_frames frame_rounds frame_hooks).
#[local] Abbreviation exec_here := (heap_exec demo_address direct_map_page_access direct_map_heap_address frame_rounds).

Lemma demo_address_ok : is_u64 demo_address.
Proof. by_decide. Qed.
Lemma demo_starts : starts_here demo_machine.
Proof.
  unfold starts. cbn [demo_machine sy_allocator sy_hooks sy_world w_mem w_ext]. split; [by apply (serving_reached demo_access); [apply demo_length|apply demo_range_typed|apply demo_running]|]. split; [done|]. split; [|split; [|split; [done|]]].
  - apply zero_memory_ok.
  - intros y Hy z Hz. apply zero_memory_mapped. change dm_base with RISCV_DIRECT_MAP_BASE in Hz. destruct (demo_pages y Hy); [left|right]; lia.
  - intros x b [Hx <-]%lookup_gset_to_gmap_Some. apply elem_of_singleton in Hx as ->. vm_compute. reflexivity.
Qed.
Definition demo_hooks_ok := frame_hooks_ok demo_layout demo_address direct_map_page_access direct_map_heap_address.
#[local] Abbreviation with_demo lemma := (lemma demo_layout demo_address demo_address_ok direct_map_page_access direct_map_heap_address demo_map no_own own_frames frame_rounds frame_hooks demo_hooks_ok).
Lemma demo_tracked : kernel_heap_init demo_machine = (KERNEL_HEAP_STATUS_OK, demo_heap) ∧
  tracked demo_layout demo_address direct_map_page_access direct_map_heap_address no_own own_frames frame_hooks demo_heap no_objects ∅.
Proof. destruct (with_demo (@heap_init_run (gset Z)) demo_machine demo_starts) as (s & E & HL). unfold demo_heap. rewrite E. exact (conj eq_refl HL). Qed.
Lemma demo_reached : reaches_here demo_heap ∅.
Proof. exact (reach_start _ _ _ _ _ _ _ _ demo_machine demo_heap demo_starts (proj1 demo_tracked)). Qed.

(** An object of 100 bytes. *)
Definition answer_of {A B} (r : outcome (A * B)) : option A := match r with Done (a, _) => Some a | Fault _ => None end.
Definition state_of {A} (r : outcome (A * page_system world)) : page_system world := match r with Done (_, s) => s | Fault _ => demo_machine end.
Definition demo_after : page_system world := state_of (exec_here (H_allocate 100) demo_heap).
Definition demo_object : Z := RISCV_DIRECT_MAP_BASE + 0x90003050.
Lemma demo_allocated : exec_here (H_allocate 100) demo_heap = Done ((KERNEL_HEAP_STATUS_OK, demo_object), demo_after).
Proof.
  assert (E : answer_of (exec_here (H_allocate 100) demo_heap) = Some (KERNEL_HEAP_STATUS_OK, demo_object)) by (vm_compute; reflexivity).
  unfold demo_after. destruct (exec_here (H_allocate 100) demo_heap) as [[a s]|]; [|done]. cbn [answer_of state_of] in *. congruence.
Qed.
Lemma demo_after_reached : reaches_here demo_after {[demo_object := 100]}.
Proof. exact (reach_step _ _ _ _ _ _ _ _ demo_heap ∅ (H_allocate 100) KERNEL_HEAP_STATUS_OK demo_object demo_after demo_reached ltac:(by_decide) demo_allocated). Qed.

(** ** The claims on the machine *)
Lemma heap_refines_witness :
  ∃ status q s' g', exec_here (H_zeroed 3 1000) demo_heap = Done ((status, q), s') ∧
    does demo_layout demo_address direct_map_page_access direct_map_heap_address no_own own_frames frame_hooks (H_zeroed 3 1000) demo_heap no_objects ∅ status q s' g'.
Proof. exact (with_demo (@heap_refines (gset Z)) demo_heap no_objects ∅ (H_zeroed 3 1000) (proj2 demo_tracked) ltac:(split; by_decide)). Defined.
Lemma heap_history_witness :
  aligned16 demo_object ∧ StringCopyTheory.mapped demo_after.(sy_world).(w_mem) demo_object 100 ∧ ∃ status q s', exec_here (H_resize demo_object 5000) demo_after = Done ((status, q), s').
Proof.
  destruct (with_demo (@heap_history (gset Z)) demo_after _ demo_after_reached) as (H1 & _ & H2). destruct (H1 demo_object 100 (lookup_singleton_eq _ _)) as (H3 & _ & H4 & _).
  assert (Hu : is_u64 5000) by by_decide. exact (conj H3 (conj H4 (H2 (H_resize demo_object 5000) (conj Hu (or_intror (ex_intro _ 100 (lookup_singleton_eq _ _))))))).
Defined.
Lemma heap_double_free_witness :
  ∃ s', exec_here (H_free demo_object) demo_after = Done ((KERNEL_HEAP_STATUS_OK, 0), s') ∧ reaches_here s' (delete demo_object {[demo_object := 100]}) ∧ exec_here (H_free demo_object) s' = trap.
Proof. exact (with_demo (@heap_double_free (gset Z)) demo_after _ demo_object 100 demo_after_reached (lookup_singleton_eq _ _)). Defined.
Lemma page_reclaim_returns_witness :
  ∃ status address s', physical_page_allocate_order 2 demo_heap 3 = Done (status, address, s') ∧ same_binding demo_heap s' ∧
    attempted demo_layout (fine demo_layout demo_address direct_map_page_access direct_map_heap_address no_own own_frames) (evolves demo_layout demo_address direct_map_page_access direct_map_heap_address no_own own_frames)
      3 demo_heap status address s'.
Proof.
  destruct demo_tracked as [_ [(Hs & Hh & Hk) _]].
  exact (page_reclaim_returns demo_layout _ _ frame_rounds frame_hooks demo_hooks_ok 3 demo_heap Hh (conj Hs (ex_intro _ no_objects Hk)) ltac:(lia)).
Defined.
